(* ===== verification/_CoqProject ===== *)
-Q . S2P
Prelude.v
ExpertDescriptor.v
ExpertArena.v
ExpertRetention.v
ExpertCache.v
ExpertCacheSystem.v
ExpertCacheInv.v
ExpertCacheSteps.v
ExpertCachePublish.v
ExpertCacheThreads.v
ExpertCacheSafety.v
ExpertCacheTheorems.v
LoadQueue.v
ReadAhead.v
GgmlTypes.v
Binary64.v
KvTier.v
Accounting.v
ResourcePlan.v
ResourceSolve.v
ExpertSplit.v
ResourceRebalance.v
RebalanceProofs.v
Transient.v
TransientRoom.v
TransientLogic.v
TransientInv.v
TransientLease.v
TransientRelease.v
TransientPolicy.v
TransientTheorems.v
PleHash.v
PleSequence.v
BlockCache.v
AsyncReader.v
AsyncReaderInv.v
AsyncReaderSteps.v
AsyncReaderSubmit.v
AsyncReaderTheorems.v
PleStores.v
PleStoresLogic.v
PleStoresSpecs.v
PleStoresSystem.v
PleStoresTheorems.v
DsvLayout.v
Binary32.v
Qat.v
DsvCache.v
DsvLedger.v
DsvCacheInv.v
DsvCacheSteps.v
DsvCacheTheorems.v
