(* ===== verification/Prelude.v ===== *)
(** * A verification development for the expert streaming engine

    The engine is a fork of llama.cpp that runs mixture-of-experts models larger
    than memory: expert weights are read from storage on demand into a cache in
    RAM, a planner divides RAM and device memory between dense weights, KV
    cache, experts and optional modules, and policies shrink or move parts at
    run time.  This development models the code that is the engine's own
    (under [src/src/llama-expert-cache.*], [src/src/llama-kv-tier-policy.*],
    [src/src/llama-kv-padding.h], [src/common/resource-planner.*],
    [src/common/transient-module-manager.*], [src/src/llama-qwen4exp-ple.*],
    [src/src/llama-qwen4exp-ple-storage.*], [src/src/llama-deepseek-v41-layout.*],
    [src/src/llama-deepseek-v41-cache.*]), and of ggml the table of tensor types
    ([src/ggml/src/ggml.c]) and the quantised rows ([src/ggml/src/ggml-qat*]) it
    computes with.

    ** Parts, files and sources

    Expert cache ([src/src/llama-expert-cache.h] and [.cpp]):
    - [ExpertDescriptor]: [descriptor::make], the validated description of one
      expert component (keys, extents, alignment, overlap);
    - [ExpertArena]: [ram_cache::allocation_plan] with its gap index, its dense
      shortcut and its eviction scan, and [staging_plan];
    - [ExpertRetention]: [observe], [touch] and the recency order (LRU, or
      frequency with ageing);
    - [ExpertCache]: the state of [ram_cache] and its operations, each critical
      section one computation of a state-and-exception monad; [acquire] is cut
      where the code gives up its mutex;
    - [ExpertCacheSystem]: threads, leases, storage and memory; [exec] runs one
      critical section of one thread, so a run is an interleaving;
    - [ExpertCacheInv], [ExpertCacheSteps], [ExpertCachePublish],
      [ExpertCacheThreads], [ExpertCacheSafety]: the invariant and its proof;
    - [ExpertCacheTheorems]: refinement of a read of the source, stability of
      leased bytes, no over-commit of the arena, no leaks, termination of fills,
      service of coalesced calls, and a run in which [clear] races with a
      waiting call;
    - [LoadQueue], [ReadAhead]: the bounded queues in front of the cache; the
      load queue refines a map of requests whose outcomes are the answers of the
      cache; the load and the advice are parameters.

    Planner ([src/common/resource-planner.h] and [.cpp]):
    - [Accounting]: checked and saturating 64-bit arithmetic, the parsers and
      printers of sizes, token counts and policies ([strtoull] included);
    - [ResourcePlan], [ResourceSolve]: [common_resource_plan_solve], its binary
      search over contexts and its theorems;
    - [ResourceRebalance], [RebalanceProofs]: the target of a runtime change, the
      memory peak while it is prepared, and the atomic switch;
    - [Binary64], [ExpertSplit]: doubles (by their bit patterns, through the
      standard library's specification floats) and the CPU/upload split.

    KV tiers ([src/src/llama-kv-tier-policy.*], [src/src/llama-kv-padding.h]):
    - [GgmlTypes]: sizes of the tensor types; [KvTier]: static tier maps, the
      variable-bit-rate solver, transitions and their atomic application.

    Transient modules ([src/common/transient-module-manager.*]):
    - [Transient]: the manager as a state monad with [GGML_ABORT], exceptions and
      endless loops as outcomes; module callbacks are functions on a world [W];
    - [TransientRoom]: byte accounting of a lease; [TransientLogic]: a weakest
      precondition over a projection of the state; [TransientInv],
      [TransientLease], [TransientRelease], [TransientPolicy]: the invariant and
      the effect of every call on it; [TransientTheorems]: runs and results.

    Per-layer embeddings ([src/src/llama-qwen4exp-ple.*] and
    [src/src/llama-qwen4exp-ple-storage.*]), rows of a table on storage that are
    looked up by a hash of the last tokens:
    - [PleHash]: the rolling hash and the place of a row in the file;
    - [PleSequence]: token histories of sequences, with removal, copies, shifts
      and snapshots, against an abstract book of histories;
    - [BlockCache]: [bounded_block_cache], fixed slots with leases;
    - [AsyncReader]: [async_reader] with its staging budget, every critical
      section of consumers and workers one step; [AsyncReaderInv],
      [AsyncReaderSteps], [AsyncReaderSubmit]: the invariant and its proof;
      [AsyncReaderTheorems]: runs of the reader and what its clients get;
    - [PleStores]: [row_store], [page_store] and [two_tier_store] as programs
      over the atomic actions of caches, reader, tickets and owner tables, and a
      pool of threads that run them; [PleStoresLogic]: a logic with ownership of
      leases, reads, buffers and locks, sound for any interleaving;
      [PleStoresSpecs]: what every call does; [PleStoresSystem]: the invariant of
      a pool, and why its threads never wait for each other in a circle;
      [PleStoresTheorems]: results, and two things a page store takes on trust.

    Attention cache of DeepSeek V4.1 ([src/src/llama-deepseek-v41-layout.*] and
    [-cache.*], [src/ggml/src/ggml-qat.c], [ggml-qat-impl.h]):
    - [DsvLayout]: [attention_layout], which layer owns what another layer reads, and
      the payload of a context;
    - [Binary32]: floats, with exact division by powers of two; [Qat]: the
      quantise-dequantise transform and the packed rows of the three formats;
    - [DsvCache]: [packed_cache_storage] and [attention_cache], every call a
      computation of a state-and-exception monad, against the interface [RowCodec] of
      the formats; [DsvLedger]: the abstract cache, histories of rows with
      truncation; [DsvCacheInv], [DsvCacheSteps]: rings, journals, banks and every
      call; [DsvCacheTheorems]: the formats as an instance of the interface, the
      refinement and the reserved bytes.

    How the parts meet: the planner's policy values are the manager's; the KV
    accounting of the planner is in the bytes [GgmlTypes] gives; the queues
    call the cache; the arena and the retention serve [ExpertCache] only; the
    sequences hash through [PleHash]; the reader counts control blocks with the
    counter of [BlockCache]; the stores call [BlockCache] and [AsyncReader] by
    their steps and use the lemmas about each step, and [PleHash] places rows; the
    attention cache takes owners and ratios from [DsvLayout] and packs its rows
    through [RowCodec], which [Qat] implements.

    ** What the theorems show

    - Safety of memory: the arena, the device plans, the RAM plan, the
      preparation peak, the residency of modules, the slots of the block cache
      and the staging of the reader stay within their limits.
    - Functional contracts: descriptors, allocation, tier maps, split, solver
      optimality, rebalance targets, host reservation, admission of blocks,
      hashed rows, sharing of reads.
    - Refinement: a completed [acquire] returns the published entry of its
      descriptor and the bytes of the source; the load queue hands out each
      admitted request once, with what the cache answered to its own load; sequences are histories; a read that the
      asynchronous reader delivers is the span that was asked for; a redeemed
      ticket of a store gives the bytes of the source for the rows it was made for;
      the attention cache is a ledger of rows that rollbacks and checkpoints truncate.
    - Equivalence: the layout of the attention is the declared one, a packed row is
      the transform of the row bit by bit, the cache reports as reserved what the
      planner budgets, with the windows twice while a snapshot is held.
    - Atomicity and restoration: plan switches, tier switches, policy changes,
      leases of modules, refused batches of reads, rolled back drafts.
    - Termination and liveness: fills, queues, the planner's search below
      [UINT32_MAX], the calls of the module manager ([run] too, unless its hidden
      lease cannot be released), every ticket of the reader, every call of a store.
    - Nothing is leaked: loads and pins of the expert cache, leases, buffers,
      reads and locks of the stores.
    - Flaws, each shown by evaluating the model: see the theorems whose comment
      describes one.

    ** What the theorems assume of callers

    Three groups of theorems hold for callers that keep to a rule the code does not
    enforce; each rule has a run that shows what happens without it.
    - [allowed] of [ExpertCacheSafety]: descriptors come from [descriptor::make],
      a failing read throws [std::runtime_error], and with frequency retention
      [clear] is not called while an [acquire] waits for staging space
      ([clear_race_breaks_a_key]).
    - [legal] of [TransientTheorems]: all registered bytes fit a 64-bit word, a
      lease identifier is free when one is asked for, and no module is registered
      as resident while a residency epoch is open
      ([resident_registration_overcommits]).  That rollback and finalize callbacks
      do not fail ([keeps_contract]) is the documented contract and is assumed only
      where calls are shown to return.
    - [pages_fit] of [PleStoresSpecs], for page and two-tier stores: the index has
      page size 4096 and its tensor lies inside the source
      ([page_store_pads_short_rows], [page_store_trusts_the_page_size]).

    ** Conventions, bounds and fuel

    Machine integers are values of [Z]; wrap-around is written out where the
    code can reach it ([wrap32], [wrap64]).  A [bool] result with an error string
    is a [result]; exceptions are [Err] or an outcome of the monad.  Maps are
    [gmap]s; where the order of a [std::map] or [std::set] matters, they are
    walked in sorted order.  Loops on counters run on fuel: the planner's search
    needs at most 33 rounds (a 32-bit interval halves), the split scan
    [misses] rounds, the lease-number search one round more than there are
    leases and zero together, shutdown one more than there are leases; theorems
    show the fuel is enough or state when the loop does not end.

    ** Not modelled

    Notifications of condition variables: a thread that waits can go on as soon as
    the predicate of its wait holds, so a missing [notify] would not be seen here.
    File and asynchronous I/O ([file_source]: pread, io_uring, DirectStorage),
    which the cache sees as a source that returns bytes or fails; JSON input and
    output of plans and calibration profiles; the conversion and dot-product
    kernels of the type table and of the embedding rows ([dequantize] of the
    stores); statistics and latency counters of the stores; failing allocations
    outside the embedding parts, where they are arguments of the steps, and the
    ledger that makes metadata allocations fail there; the forward passes of the
    DeepSeek and Qwen runtimes, which are tensor arithmetic, with the operators, index
    selection and hash tables they call; device allocations of the attention cache,
    which succeed here; and everything
    inherited from llama.cpp and ggml (tensors, kernels, backends, model loading,
    tokenisers, sampling, server), which the parts above do not call.

    ** This file

    What the components share: record update, the error monad, machine
    integers, intervals, sums over lists and maps, and the automation. *)

From stdpp Require Export prelude gmap strings list sorting.
From Stdlib Require Export ZArith Lia.

Open Scope Z_scope.

(** ** Record update

    [r <| f := v |>] and [r <| f ::= g |>] update one field of a record whose
    type has a [Settable] instance (its eta expansion over the projections). *)

Class Settable (R : Type) := eta_of : R -> R.

Class Setter {R T : Type} (proj : R -> T) := set_field : (T -> T) -> R -> R.
Global Arguments set_field {R T} proj {_} _ !_ / : assert.

Ltac solve_setter :=
  match goal with
  | |- @Setter ?R ?T ?proj =>
      let i := constr:(_ : Settable R) in
      let h := match i with ?h _ => h | ?h => h end in
      let e := eval cbv beta delta [h eta_of] in i in
      let p := eval pattern proj in e in
      match p with
      | ?upd _ =>
          let u := eval cbv beta in (fun (f : T -> T) => upd (fun r => f (proj r))) in
          exact u
      end
  end.

#[export] Hint Extern 1 (@Setter _ _ _) => solve_setter : typeclass_instances.

Declare Scope record_scope.
Open Scope record_scope.
Notation "x <| proj := v |>" := (set_field proj (fun _ => v) x)
  (at level 1, left associativity, proj constr at level 9, v at level 99,
   format "x  <| proj  :=  v |>") : record_scope.
Notation "x <| proj ::= f |>" := (set_field proj f x)
  (at level 1, left associativity, proj constr at level 9, f at level 99,
   format "x  <| proj  ::=  f |>") : record_scope.

(** ** Results: the code's [return false] with an error string, and its
    exceptions, are the [Err] branch. *)

Inductive result (E A : Type) : Type :=
| Ok (a : A)
| Err (e : E).
Global Arguments Ok {E A} a.
Global Arguments Err {E A} e.

Declare Scope result_scope.
Open Scope result_scope.
Notation "'let?' x ':=' m 'in' k" :=
  (match m with Ok x => k | Err e => Err e end)
  (at level 10, x pattern, m at level 100, k at level 200) : result_scope.
Notation "'guard?' c 'else' e 'in' k" :=
  (if c then k else Err e)
  (at level 10, c at level 100, e at level 100, k at level 200) : result_scope.

Definition is_ok {E A} (r : result E A) : bool :=
  match r with Ok _ => true | Err _ => false end.

Fixpoint foldM {E A B} (f : B -> A -> result E B) (l : list A) (b : B) : result E B :=
  match l with
  | [] => Ok b
  | x :: l => let? b := f b x in foldM f l b
  end.

(** ** Machine integers

    Unsigned words are values of [Z] with the wrap-around written out; the
    signed types are used by the code only where no overflow can happen. *)

Definition UINT32_MAX : Z := 2 ^ 32 - 1.
Definition UINT64_MAX : Z := 2 ^ 64 - 1.
Definition wrap32 (x : Z) : Z := x mod 2 ^ 32.
Definition wrap64 (x : Z) : Z := x mod 2 ^ 64.
Definition u32 (x : Z) : Prop := 0 <= x <= UINT32_MAX.
Definition u64 (x : Z) : Prop := 0 <= x <= UINT64_MAX.

Lemma wrap64_u64 x : u64 (wrap64 x).
Proof. unfold u64, wrap64, UINT64_MAX. pose proof (Z.mod_pos_bound x (2^64)). lia. Qed.

Lemma wrap32_u32 x : u32 (wrap32 x).
Proof. unfold u32, wrap32, UINT32_MAX. pose proof (Z.mod_pos_bound x (2^32)). lia. Qed.

Lemma wrap64_small x : u64 x -> wrap64 x = x.
Proof. unfold u64, wrap64, UINT64_MAX. intros. apply Z.mod_small. lia. Qed.

Lemma wrap32_small x : u32 x -> wrap32 x = x.
Proof. unfold u32, wrap32, UINT32_MAX. intros. apply Z.mod_small. lia. Qed.

(** [x & ~(2^k - 1)]: rounding down to a power of two, as the code writes it. *)
Definition mask_down (x a : Z) : Z := Z.land x (Z.lnot (a - 1)).

Lemma mask_down_pow2 x k : 0 <= k -> mask_down x (2 ^ k) = x - x mod 2 ^ k.
Proof.
  intros Hk. unfold mask_down.
  replace (2 ^ k - 1) with (Z.ones k) by (rewrite Z.ones_equiv; lia).
  rewrite <- Z.ldiff_land, Z.ldiff_ones_r, Z.shiftl_mul_pow2, Z.shiftr_div_pow2 by lia.
  pose proof (Z.div_mod x (2 ^ k)). lia.
Qed.

Lemma mask_down_64 x : mask_down x 64 = x - x mod 64.
Proof. apply (mask_down_pow2 x 6). lia. Qed.

(** ** Intervals of addresses, half open *)

Abbreviation ival := (Z * Z)%type.

Definition in_ival (x : Z) (i : ival) : Prop := i.1 <= x < i.2.
Definition covered (l : list ival) (x : Z) : Prop := Exists (in_ival x) l.
Definition idisj (i j : ival) : Prop := forall x, in_ival x i -> in_ival x j -> False.

(** The order of [std::pair<uint64_t, uint64_t>]. *)
Definition ival_le (i j : ival) : Prop := i.1 < j.1 \/ (i.1 = j.1 /\ i.2 <= j.2).

#[export] Instance ival_le_dec : RelDecision ival_le.
Proof. unfold RelDecision, ival_le, Decision. intros [a b] [c d]; simpl.
  destruct (Z_lt_dec a c), (Z.eq_dec a c), (Z_le_dec b d); (left; lia) || (right; lia).
Defined.

#[export] Instance ival_le_trans : Transitive ival_le.
Proof. intros [a b] [c d] [e f]. unfold ival_le; simpl. lia. Qed.

#[export] Instance ival_le_antisymm : AntiSymm (=) ival_le.
Proof. intros [a b] [c d]. unfold ival_le; simpl. intros. f_equal; lia. Qed.

#[export] Instance ival_le_total : Total ival_le.
Proof. intros [a b] [c d]. unfold ival_le; simpl. lia. Qed.

(** [std::sort] on intervals. *)
Definition sort_ivals (l : list ival) : list ival := merge_sort ival_le l.

Lemma sort_ivals_perm l : sort_ivals l ≡ₚ l.
Proof. apply merge_sort_Permutation. Qed.

Lemma sort_ivals_sorted l : StronglySorted ival_le (sort_ivals l).
Proof. apply StronglySorted_merge_sort; apply _. Qed.

Lemma covered_perm l l' x : l ≡ₚ l' -> covered l x <-> covered l' x.
Proof. intros H. unfold covered. by rewrite H. Qed.

Lemma covered_nil x : ~ covered [] x.
Proof. unfold covered. intros H. inversion H. Qed.

Lemma covered_cons i l x : covered (i :: l) x <-> in_ival x i \/ covered l x.
Proof. apply Exists_cons. Qed.

Lemma covered_app l l' x : covered (l ++ l') x <-> covered l x \/ covered l' x.
Proof. apply Exists_app. Qed.

(** ** Automation *)

Create HintDb ese.
Create Rewrite HintDb ese.
#[export] Hint Resolve wrap64_u64 wrap32_u32 : ese.
#[export] Hint Rewrite mask_down_64 : ese.

(** Split the boolean tests the models branch on into facts for [lia]. *)
Ltac bool_facts :=
  repeat match goal with
  | H : (_ && _)%bool = true |- _ => apply andb_true_iff in H; destruct H
  | H : (_ || _)%bool = false |- _ => apply orb_false_iff in H; destruct H
  | H : negb _ = true |- _ => apply negb_true_iff in H
  | H : negb _ = false |- _ => apply negb_false_iff in H
  | H : (_ <? _) = true |- _ => apply Z.ltb_lt in H
  | H : (_ <? _) = false |- _ => apply Z.ltb_ge in H
  | H : (_ <=? _) = true |- _ => apply Z.leb_le in H
  | H : (_ <=? _) = false |- _ => apply Z.leb_gt in H
  | H : (_ >? _) = true |- _ => rewrite Z.gtb_ltb in H
  | H : (_ >? _) = false |- _ => rewrite Z.gtb_ltb in H
  | H : (_ >=? _) = true |- _ => rewrite Z.geb_leb in H
  | H : (_ >=? _) = false |- _ => rewrite Z.geb_leb in H
  | H : (_ =? _) = true |- _ => apply Z.eqb_eq in H
  | H : (_ =? _) = false |- _ => apply Z.eqb_neq in H
  end.

(** Follow a successful run through its guards and binds. *)
Ltac run_step H :=
  match type of H with
  | (match ?m with Ok _ => _ | Err _ => _ end) = _ =>
      let E := fresh "E" in destruct m eqn:E; [|try discriminate H]
  | (if ?b then _ else _) = _ =>
      let E := fresh "E" in destruct b eqn:E; try discriminate H
  | Ok _ = Ok _ => injection H as H; subst
  | Err _ = Ok _ => discriminate H
  | Ok _ = Err _ => discriminate H
  end.

(** ** Pairwise properties of lists *)

Lemma ForallOrdPairs_perm {A} (R : A -> A -> Prop) `{!Symmetric R} (l l' : list A) :
  l ≡ₚ l' -> ForallOrdPairs R l -> ForallOrdPairs R l'.
Proof.
  induction 1 as [| x l l' Hp IH | x y l | l1 l2 l3 _ IH1 _ IH2]; intros HF; auto.
  - inversion HF as [| ? ? Hx Hl]; subst. constructor; [|auto]. by rewrite <- Hp.
  - inversion HF as [| ? ? Hy Hl]; subst. inversion Hl as [| ? ? Hx Hl']; subst.
    inversion Hy; subst. repeat (constructor; auto).
Qed.

Lemma ForallOrdPairs_lookup {A} (R : A -> A -> Prop) (l : list A) (i j : nat) x y :
  ForallOrdPairs R l -> (i < j)%nat -> l !! i = Some x -> l !! j = Some y -> R x y.
Proof.
  intros HF. revert i j. induction HF as [| a l Ha HF IH]; intros i j Hij Hi Hj; [done|].
  destruct j as [|j]; [lia|]. destruct i as [|i]; simpl in *.
  - simplify_eq. rewrite Forall_forall in Ha. by apply Ha, (list_elem_of_lookup_2 _ j).
  - apply (IH i j); auto. lia.
Qed.

#[export] Instance idisj_symm : Symmetric idisj.
Proof. intros i j H x Hj Hi. exact (H x Hi Hj). Qed.

Lemma idisj_nonempty (i j : ival) :
  i.1 < i.2 -> j.1 < j.2 -> idisj i j <-> i.2 <= j.1 \/ j.2 <= i.1.
Proof.
  intros Hi Hj. unfold idisj, in_ival. split.
  - intros H. destruct (Z_le_gt_dec (i.2) (j.1)) as [|H1]; [by left|].
    destruct (Z_le_gt_dec (j.2) (i.1)) as [|H2]; [by right|].
    exfalso. apply (H (Z.max i.1 j.1)); lia.
  - intros [H|H] x; lia.
Qed.

(** ** Sums over lists *)

Definition zsum (l : list Z) : Z := foldr Z.add 0 l.
Definition zprod (l : list Z) : Z := foldr Z.mul 1 l.

Lemma zsum_app l l' : zsum (l ++ l') = zsum l + zsum l'.
Proof. induction l; simpl; lia. Qed.

Lemma zsum_nonneg l : Forall (fun x => 0 <= x) l -> 0 <= zsum l.
Proof. induction 1; simpl; lia. Qed.

Lemma zsum_perm l l' : l ≡ₚ l' -> zsum l = zsum l'.
Proof. induction 1; simpl; lia. Qed.

Lemma zprod_pos l : Forall (fun x => 1 <= x) l -> 1 <= zprod l.
Proof. induction 1; simpl; nia. Qed.

(** ** Folds in the error monad *)

Lemma foldM_app {E A B} (f : B -> A -> result E B) l1 l2 b :
  foldM f (l1 ++ l2) b = (let? b' := foldM f l1 b in foldM f l2 b').
Proof. revert b. induction l1 as [|x l1 IH]; intros b; simpl; [done|]. destruct (f b x); auto. Qed.

Lemma foldM_cons_ok {E A B} (f : B -> A -> result E B) x l b b'' :
  foldM f (x :: l) b = Ok b'' <-> exists b', f b x = Ok b' /\ foldM f l b' = Ok b''.
Proof. simpl. destruct (f b x); naive_solver. Qed.

(** An invariant of every round holds at the end of a fold that succeeds. *)
Lemma foldM_invariant {E A B} (I : B -> Prop) (f : B -> A -> result E B) l b b' :
  (forall b x b', x ∈ l -> I b -> f b x = Ok b' -> I b') ->
  I b -> foldM f l b = Ok b' -> I b'.
Proof.
  revert b. induction l as [|x l IH]; intros b Hf HI H; [by simplify_eq/=|].
  apply foldM_cons_ok in H as (b1 & H1 & H2).
  apply (IH b1); [|by eapply Hf; [left| |]|done].
  intros ? ? ? Hx. apply Hf. by right.
Qed.

Lemma StronglySorted_filter {A} (R : A -> A -> Prop) (P : A -> Prop) `{!forall x, Decision (P x)} (l : list A) :
  StronglySorted R l -> StronglySorted R (filter P l).
Proof.
  induction 1 as [|x l Hl IH Hx]; [constructor|]. rewrite filter_cons. case_decide; [|done].
  constructor; [done|]. apply Forall_forall. intros y [_ Hy]%list_elem_of_filter.
  by rewrite Forall_forall in Hx; apply Hx.
Qed.

Lemma StronglySorted_snoc {A} (R : A -> A -> Prop) (l : list A) x :
  StronglySorted R l -> Forall (fun y => R y x) l -> StronglySorted R (l ++ [x]).
Proof.
  induction 1 as [|y l Hl IH Hy]; intros HF; simpl; [repeat constructor|].
  apply Forall_cons in HF as [Hyx HF]. constructor; [by apply IH|].
  apply Forall_app. auto.
Qed.

Lemma StronglySorted_rev {A} (R : A -> A -> Prop) (l : list A) :
  StronglySorted (flip R) l -> StronglySorted R (rev l).
Proof.
  induction 1 as [|x l Hl IH Hx]; simpl; [constructor|].
  apply StronglySorted_snoc; [done|]. by rewrite <- Permutation_rev.
Qed.

Lemma filter_all {A} (P : A -> Prop) `{!forall x, Decision (P x)} (l : list A) :
  Forall P l -> filter P l = l.
Proof. induction 1; [done|]. by rewrite filter_cons_True, IHForall. Qed.

Lemma NoDup_fmap_filter {A B} (f : A -> B) (P : A -> Prop) `{!forall x, Decision (P x)} (l : list A) :
  NoDup (f <$> l) -> NoDup (f <$> filter P l).
Proof.
  induction l as [|x l IH]; [done|]. rewrite fmap_cons, NoDup_cons, filter_cons. intros [Hx Hl].
  case_decide; [|auto]. rewrite fmap_cons. constructor; [|auto].
  intros (y & Hy & [_ Hin]%list_elem_of_filter)%list_elem_of_fmap. apply Hx. rewrite Hy. by apply list_elem_of_fmap_2.
Qed.

(** ** Sums over finite maps *)

Section msum.
Context `{Countable K} {A : Type}.
Implicit Types (f : K -> A -> Z) (m : gmap K A).

Definition msum f m : Z := map_fold (fun k x acc => f k x + acc) 0 m.

Lemma msum_empty f : msum f ∅ = 0.
Proof. apply map_fold_empty. Qed.

Lemma msum_insert f m k x : m !! k = None -> msum f (<[k := x]> m) = f k x + msum f m.
Proof. intros Hk. unfold msum. by rewrite map_fold_insert_L by (done || (intros; lia)). Qed.

Lemma msum_delete f m k x : m !! k = Some x -> msum f (delete k m) = msum f m - f k x.
Proof.
  intros Hk. rewrite <- (insert_delete_id m k x Hk) at 2.
  rewrite msum_insert by apply lookup_delete_eq. lia.
Qed.

Lemma msum_ext f g m : (forall k x, m !! k = Some x -> f k x = g k x) -> msum f m = msum g m.
Proof.
  induction m as [|k x m Hk IH] using map_ind; intros Hfg; [by rewrite !msum_empty|].
  rewrite !msum_insert by done. rewrite (Hfg k x) by apply lookup_insert_eq. rewrite IH; [done|].
  intros k' x' Hx'. apply Hfg. rewrite lookup_insert_ne; [done|]. intros ->. congruence.
Qed.

Lemma msum_le f g m : (forall k x, m !! k = Some x -> f k x <= g k x) -> msum f m <= msum g m.
Proof.
  induction m as [|k x m Hk IH] using map_ind; intros Hfg; [by rewrite !msum_empty|].
  rewrite !msum_insert by done. pose proof (Hfg k x (lookup_insert_eq _ _ _)).
  enough (msum f m <= msum g m) by lia. apply IH.
  intros k' x' Hx'. apply Hfg. rewrite lookup_insert_ne; [done|]. intros ->. congruence.
Qed.

Lemma msum_zero f m : (forall k x, m !! k = Some x -> f k x = 0) -> msum f m = 0.
Proof.
  intros Hf. rewrite (msum_ext f (fun _ _ => 0) m Hf). clear. induction m as [|k x m Hk IH] using map_ind;
    [by rewrite msum_empty|]. rewrite msum_insert by done; lia.
Qed.

Lemma msum_nonneg f m : (forall k x, m !! k = Some x -> 0 <= f k x) -> 0 <= msum f m.
Proof.
  intros Hf. rewrite <- (msum_zero (fun _ _ => 0) m); [|done]. by apply msum_le.
Qed.

Lemma msum_elem f m k x : m !! k = Some x -> (forall k x, m !! k = Some x -> 0 <= f k x) -> f k x <= msum f m.
Proof.
  intros Hk Hf. assert (0 <= msum f (delete k m)).
  { apply msum_nonneg. intros k' x'. rewrite lookup_delete_Some. intros [_ ?]. auto. }
  rewrite (msum_delete _ _ _ _ Hk) in H0. lia.
Qed.

Lemma msum_list f m : zsum ((fun kx => f kx.1 kx.2) <$> map_to_list m) = msum f m.
Proof.
  unfold msum. rewrite map_fold_foldr. unfold zsum. generalize (map_to_list m) as l.
  induction l as [|[k x] l IH]; [done|]. rewrite fmap_cons. simpl in *. by f_equal.
Qed.

Lemma msum_add f g m : msum (fun k x => f k x + g k x) m = msum f m + msum g m.
Proof.
  induction m as [|k x m Hk IH] using map_ind; [by rewrite !msum_empty|]. rewrite !msum_insert by done. lia.
Qed.

Lemma msum_sub f g m : msum (fun k x => f k x - g k x) m = msum f m - msum g m.
Proof.
  induction m as [|k x m Hk IH] using map_ind; [by rewrite !msum_empty|]. rewrite !msum_insert by done. lia.
Qed.

(** A sum that changes at one key. *)
Lemma msum_change f g m k x : m !! k = Some x -> (forall k' x', k' <> k -> m !! k' = Some x' -> f k' x' = g k' x') ->
  msum f m = msum g m + (f k x - g k x).
Proof.
  intros Hk Hfg. rewrite <- (insert_delete_id m k x Hk). rewrite !msum_insert by apply lookup_delete_eq.
  rewrite (msum_ext f g (delete k m)); [lia|]. intros k' x' [Hne Hx']%lookup_delete_Some. by apply Hfg.
Qed.

Lemma msum_size m : msum (fun _ _ => 1) m = Z.of_nat (size m).
Proof.
  induction m as [|k x m Hk IH] using map_ind; [by rewrite msum_empty, map_size_empty|].
  rewrite msum_insert, map_size_insert_None by done. lia.
Qed.
End msum.

(** A sum over a map whose values are a function of another map's. *)
Lemma msum_image `{Countable K} {A B} (f : K -> B -> Z) (h : K -> A -> B) (m : gmap K A) (m' : gmap K B) :
  (forall k, m' !! k = h k <$> m !! k) -> msum f m' = msum (fun k x => f k (h k x)) m.
Proof.
  revert m'. induction m as [|k x m Hk IH] using map_ind; intros m' Hm'.
  - rewrite msum_empty. replace m' with (∅ : gmap K B); [apply msum_empty|]. apply map_eq. intros k. by rewrite Hm', !lookup_empty.
  - rewrite msum_insert by done. assert (Hx : m' !! k = Some (h k x)) by by rewrite Hm', lookup_insert_eq.
    rewrite <- (insert_delete_id m' k _ Hx), msum_insert by apply lookup_delete_eq. f_equal. apply IH.
    intros k'. destruct (decide (k = k')) as [<-|Hne]; [by rewrite lookup_delete_eq, Hk|].
    by rewrite lookup_delete_ne, Hm', lookup_insert_ne by done.
Qed.

(** Disjoint intervals inside [0, cap) have at most [cap] points together. *)
Lemma packed_intervals (l : list ival) cap :
  0 <= cap -> Forall (fun i => 0 <= i.1 /\ i.2 <= cap) l -> ForallOrdPairs idisj l ->
  zsum ((fun i => Z.max 0 (i.2 - i.1)) <$> l) <= cap.
Proof.
  intros Hcap Hin Hdis. set (points := fun i : ival => seqZ i.1 (i.2 - i.1)).
  assert (Hp : forall i x, x ∈ points i <-> in_ival x i)
    by (intros i x; unfold points, in_ival; rewrite elem_of_seqZ; lia).
  assert (Hnd : NoDup (mjoin (points <$> l))).
  { clear Hin. induction Hdis as [|i l Hi Hl IH]; simpl; [constructor|].
    apply NoDup_app. split_and!; [apply NoDup_seqZ| |done].
    intros x Hx%Hp (y & Hy & (j & -> & Hj)%list_elem_of_fmap)%list_elem_of_join.
    rewrite Forall_forall in Hi. by apply (Hi j Hj x), Hp. }
  assert (Hlen : Z.of_nat (length (mjoin (points <$> l))) = zsum ((fun i : ival => Z.max 0 (i.2 - i.1)) <$> l)).
  { clear. subst points. induction l as [|i l IH]; [done|]. rewrite !fmap_cons. simpl. rewrite length_app, length_seqZ. lia. }
  rewrite <- Hlen. transitivity (Z.of_nat (length (seqZ 0 cap))); [|rewrite length_seqZ; lia].
  apply inj_le, submseteq_length, NoDup_submseteq; [done|].
  intros x (y & Hy & (i & -> & Hi)%list_elem_of_fmap)%list_elem_of_join.
  rewrite Forall_forall in Hin. apply Hp in Hy. apply elem_of_seqZ. specialize (Hin i Hi). unfold in_ival in Hy. lia.
Qed.

Lemma msum_packed `{Countable K} {A} (f : K -> A -> ival) (m : gmap K A) cap :
  0 <= cap ->
  (forall k x, m !! k = Some x -> 0 <= (f k x).1 <= (f k x).2 /\ (f k x).2 <= cap) ->
  (forall k k' x x', m !! k = Some x -> m !! k' = Some x' -> k <> k' -> idisj (f k x) (f k' x')) ->
  msum (fun k x => (f k x).2 - (f k x).1) m <= cap.
Proof.
  intros Hcap Hin Hdis. rewrite <- msum_list. set (g := fun kx : K * A => f kx.1 kx.2).
  assert (Hall : forall kx, kx ∈ map_to_list m -> m !! kx.1 = Some kx.2)
    by (intros [k x]; apply elem_of_map_to_list).
  transitivity (zsum ((fun i : ival => Z.max 0 (i.2 - i.1)) <$> (g <$> map_to_list m))).
  - apply Z.eq_le_incl. f_equal. rewrite <- list_fmap_compose. apply list_fmap_ext.
    intros i kx Hkx%list_elem_of_lookup_2%Hall. specialize (Hin _ _ Hkx). unfold g. simpl. lia.
  - apply packed_intervals; [done| |].
    + apply Forall_fmap, Forall_forall. intros kx Hkx%Hall. specialize (Hin _ _ Hkx). unfold g. simpl. lia.
    + pose proof (NoDup_fst_map_to_list m) as Hnd. revert Hall Hnd. generalize (map_to_list m) as l.
      induction l as [|kx l IH]; intros Hall Hnd; simpl in *; [constructor|].
      apply NoDup_cons in Hnd as [Hk Hnd]. constructor; [|apply IH; [intros; apply Hall; by right|done]].
      apply Forall_fmap, Forall_forall. intros kx' Hin'. apply Hdis; [apply Hall; left|apply Hall; by right|].
      intros Heq. apply Hk. rewrite Heq. by apply list_elem_of_fmap_2.
Qed.
