(* ===== verification/ExpertDescriptor.v ===== *)
(** * Expert descriptors

    Models the data types of [src/src/llama-expert-cache.h] and
    [descriptor::make] of [src/src/llama-expert-cache.cpp]: the checked,
    immutable description of one expert component, whose geometry, source
    extents and byte count every other part of the expert cache relies on. *)

From S2P Require Import Prelude.

(** ** Errors: the exceptions the expert cache throws. *)

Inductive exn : Type :=
| invalid_argument (what : string)
| out_of_range (what : string)
| overflow_error (what : string)
| logic_error (what : string)
| capacity_error (what : string)
| runtime_error (what : string)
| bad_alloc.

#[export] Instance exn_eq_dec : EqDecision exn.
Proof. solve_decision. Defined.

(** ** Checked 64-bit arithmetic *)

Definition checked_add_u64 (a b : Z) : option Z :=
  if b >? UINT64_MAX - a then None else Some (a + b).

Definition checked_mul_u64 (a b : Z) : option Z :=
  if negb (a =? 0) && (b >? UINT64_MAX / a) then None else Some (a * b).

(** ** Keys and identities *)

Inductive component : Type :=
| gate | up | down | gate_up | normalization | probability_bias.

Definition component_code (c : component) : Z :=
  match c with
  | gate => 0 | up => 1 | down => 2
  | gate_up => 3 | normalization => 4 | probability_bias => 5
  end.

Inductive read_backend : Type := mmap | pread | io_uring.

Record source_identity := mk_identity { high : Z; low : Z }.

Record expert_key := mk_key { layer : Z; expert : Z; part : component }.

#[export] Instance component_eq_dec : EqDecision component.
Proof. solve_decision. Defined.
#[export] Instance read_backend_eq_dec : EqDecision read_backend.
Proof. solve_decision. Defined.
#[export] Instance source_identity_eq_dec : EqDecision source_identity.
Proof. solve_decision. Defined.
#[export] Instance expert_key_eq_dec : EqDecision expert_key.
Proof. solve_decision. Defined.

Definition component_of_code (z : Z) : option component :=
  match z with
  | 0 => Some gate | 1 => Some up | 2 => Some down
  | 3 => Some gate_up | 4 => Some normalization | 5 => Some probability_bias
  | _ => None
  end.

#[export] Program Instance expert_key_countable : Countable expert_key :=
  inj_countable (fun k => (layer k, expert k, component_code (part k)))
    (fun '(l, e, c) => mk_key l e <$> component_of_code c) _.
Next Obligation. by intros [l e []]. Qed.

Definition identity_is_zero (value : source_identity) : bool :=
  (high value =? 0) && (low value =? 0).

(** [expert_key::operator<]: lexicographic on layer, expert, component. *)
Definition expert_key_lt (a b : expert_key) : bool :=
  if negb (layer a =? layer b) then layer a <? layer b
  else if negb (expert a =? expert b) then expert a <? expert b
  else component_code (part a) <? component_code (part b).

(** ** Descriptors *)

Record source_extent := mk_extent {
  ext_source : Z;
  ext_identity : source_identity;
  ext_offset : Z;
  ext_length : Z;
}.

Record descriptor_spec := mk_spec {
  sp_key : expert_key;
  sp_ggml_type : Z;
  sp_rank : Z;
  sp_quant_axis : Z;
  sp_block_elements : Z;
  sp_block_bytes : Z;
  sp_source_alignment : Z;
  sp_dimensions : list Z;
  sp_strides : list Z;
  sp_model_identity : source_identity;
  sp_extents : list source_extent;
}.

(** The private constructor keeps the spec's fields and adds [bytes_]. *)
Record descriptor := mk_descriptor { d_spec : descriptor_spec; d_bytes : Z }.

Definition d_key (d : descriptor) : expert_key := sp_key (d_spec d).
Definition d_extents (d : descriptor) : list source_extent := sp_extents (d_spec d).

(** The byte count of one axis and its unit count: the dimension itself, or
    on the quantization axis the number of blocks and their bytes. *)
Definition axis_geometry (spec : descriptor_spec) (axis : nat) : result exn (Z * Z) :=
  let dim := sp_dimensions spec !!! axis in
  if Z.of_nat axis =? sp_quant_axis spec then
    match checked_add_u64 dim (sp_block_elements spec - 1) with
    | None => Err (overflow_error "expert descriptor quantized dimension overflows")
    | Some rounded =>
        let axis_units := rounded / sp_block_elements spec in
        match checked_mul_u64 axis_units (sp_block_bytes spec) with
        | None => Err (overflow_error "expert descriptor quantized row bytes overflow")
        | Some axis_bytes => Ok (axis_units, axis_bytes)
        end
    end
  else Ok (dim, dim).

(** One round of the loop over the active axes; the state is
    [(expected_bytes, tensor_span)]. *)
Definition make_axis (spec : descriptor_spec) (acc : Z * Z) (axis : nat) : result exn (Z * Z) :=
  let '(expected_bytes, tensor_span) := acc in
  guard? negb (sp_dimensions spec !!! axis =? 0)
    else invalid_argument "expert descriptor dimensions cannot contain zero" in
  let? (axis_units, axis_bytes) := axis_geometry spec axis in
  match checked_mul_u64 expected_bytes axis_bytes with
  | None => Err (overflow_error "expert descriptor tensor geometry overflows")
  | Some expected_bytes =>
      guard? negb (sp_strides spec !!! axis =? 0)
        else invalid_argument "expert descriptor active strides cannot contain zero" in
      match checked_mul_u64 (axis_units - 1) (sp_strides spec !!! axis) with
      | None => Err (overflow_error "expert descriptor stride geometry overflows")
      | Some axis_offset =>
          match checked_add_u64 tensor_span axis_offset with
          | None => Err (overflow_error "expert descriptor stride geometry overflows")
          | Some tensor_span => Ok (expected_bytes, tensor_span)
          end
      end
  end.

(** One round of the loop over the extents; the state is [extent_bytes] and
    the per-source [intervals]. *)
Definition make_extent (spec : descriptor_spec) (source_sizes : gmap Z Z)
    (acc : Z * gmap Z (list ival)) (extent : source_extent)
    : result exn (Z * gmap Z (list ival)) :=
  let '(extent_bytes, intervals) := acc in
  match source_sizes !! ext_source extent with
  | None => Err (invalid_argument "expert descriptor references an unknown source")
  | Some source_size =>
      guard? negb (identity_is_zero (ext_identity extent))
        else invalid_argument "expert descriptor source identity cannot be zero" in
      guard? negb (ext_length extent =? 0)
        else invalid_argument "expert descriptor source extents cannot be empty" in
      guard? negb (negb (ext_offset extent mod sp_source_alignment spec =? 0)
                   || negb (ext_length extent mod sp_source_alignment spec =? 0))
        else invalid_argument "expert descriptor source extent violates declared alignment" in
      match checked_add_u64 (ext_offset extent) (ext_length extent) with
      | None => Err (out_of_range "expert descriptor source extent is outside file bounds")
      | Some extent_end =>
          guard? negb (extent_end >? source_size)
            else out_of_range "expert descriptor source extent is outside file bounds" in
          match checked_add_u64 extent_bytes (ext_length extent) with
          | None => Err (overflow_error "expert descriptor source extent bytes overflow")
          | Some extent_bytes =>
              let ranges := default [] (intervals !! ext_source extent) in
              Ok (extent_bytes,
                  <[ext_source extent := ranges ++ [(ext_offset extent, extent_end)]]> intervals)
          end
      end
  end.

(** The adjacent-pair test on one source's sorted ranges. *)
Fixpoint ranges_overlap (ranges : list ival) : bool :=
  match ranges with
  | r0 :: ((r1 :: _) as rest) => (r1.1 <? r0.2) || ranges_overlap rest
  | _ => false
  end.

Definition make (spec : descriptor_spec) (source_sizes : gmap Z Z) : result exn descriptor :=
  let rank := Z.to_nat (sp_rank spec) in
  let n := length (sp_dimensions spec) in
  guard? negb ((sp_rank spec =? 0) || (sp_rank spec >? Z.of_nat n))
    else invalid_argument "expert descriptor rank must be in [1,4]" in
  guard? negb (sp_quant_axis spec >=? sp_rank spec)
    else invalid_argument "expert descriptor quantization axis is outside its rank" in
  guard? negb ((sp_block_elements spec =? 0) || (sp_block_bytes spec =? 0))
    else invalid_argument "expert descriptor quantization geometry cannot contain zero" in
  guard? negb ((sp_source_alignment spec =? 0)
               || negb (Z.land (sp_source_alignment spec) (sp_source_alignment spec - 1) =? 0))
    else invalid_argument "expert descriptor source alignment must be a power of two" in
  guard? negb (identity_is_zero (sp_model_identity spec))
    else invalid_argument "expert descriptor model identity cannot be zero" in
  guard? negb (bool_decide (sp_extents spec = []))
    else invalid_argument "expert descriptor requires at least one source extent" in
  let? (expected_bytes, tensor_span) :=
    foldM (make_axis spec) (seq 0 rank) (1, sp_block_bytes spec) in
  guard? forallb (fun axis => (sp_dimensions spec !!! axis =? 0) && (sp_strides spec !!! axis =? 0))
           (seq rank (n - rank))
    else invalid_argument "expert descriptor inactive dimensions and strides must be zero" in
  guard? tensor_span =? expected_bytes
    else invalid_argument "expert descriptor strides are inconsistent with packed tensor geometry" in
  let? (extent_bytes, intervals) :=
    foldM (make_extent spec source_sizes) (sp_extents spec) (0, ∅) in
  guard? forallb (fun item : Z * list ival => negb (ranges_overlap (sort_ivals item.2)))
           (map_to_list intervals)
    else invalid_argument "expert descriptor source extents overlap" in
  guard? extent_bytes =? expected_bytes
    else invalid_argument "expert descriptor extents do not match quantized tensor geometry" in
  Ok (mk_descriptor spec expected_bytes).

(** ** What a descriptor promises *)

(** Ranges of the C++ field types. *)
Record spec_typed (spec : descriptor_spec) : Prop := {
  typed_rank : 0 <= sp_rank spec < 256;
  typed_axis : 0 <= sp_quant_axis spec < 256;
  typed_elements : u32 (sp_block_elements spec);
  typed_block_bytes : u32 (sp_block_bytes spec);
  typed_alignment : u32 (sp_source_alignment spec);
  typed_dimensions : forall i, u64 (sp_dimensions spec !!! i);
  typed_strides : forall i, u64 (sp_strides spec !!! i);
  typed_extents : Forall (fun e => u64 (ext_offset e) /\ u64 (ext_length e)) (sp_extents spec);
}.

Definition axis_units_of (spec : descriptor_spec) (axis : nat) : Z :=
  let dim := sp_dimensions spec !!! axis in
  if Z.of_nat axis =? sp_quant_axis spec
  then (dim + (sp_block_elements spec - 1)) / sp_block_elements spec else dim.

Definition axis_bytes_of (spec : descriptor_spec) (axis : nat) : Z :=
  if Z.of_nat axis =? sp_quant_axis spec
  then axis_units_of spec axis * sp_block_bytes spec else axis_units_of spec axis.

Definition active_axes (spec : descriptor_spec) : list nat := seq 0 (Z.to_nat (sp_rank spec)).

(** Bytes of the packed tensor: the product of its axes. *)
Definition packed_bytes (spec : descriptor_spec) : Z :=
  zprod (axis_bytes_of spec <$> active_axes spec).

(** Bytes spanned by the strides: one block plus the last element's offset. *)
Definition strided_span (spec : descriptor_spec) : Z :=
  sp_block_bytes spec +
  zsum ((fun axis => (axis_units_of spec axis - 1) * (sp_strides spec !!! axis)) <$> active_axes spec).

Definition extent_range (e : source_extent) : ival := (ext_offset e, ext_offset e + ext_length e).

Definition ranges_in (source : Z) (extents : list source_extent) : list ival :=
  extent_range <$> filter (fun e => ext_source e = source) extents.

Definition axis_ok (spec : descriptor_spec) (axis : nat) : Prop :=
  sp_dimensions spec !!! axis <> 0 /\ sp_strides spec !!! axis <> 0 /\
  (Z.of_nat axis = sp_quant_axis spec ->
   (sp_dimensions spec !!! axis) + (sp_block_elements spec - 1) <= UINT64_MAX).

Definition extent_ok (spec : descriptor_spec) (source_sizes : gmap Z Z) (e : source_extent) : Prop :=
  ext_identity e <> mk_identity 0 0 /\ ext_length e <> 0 /\
  (sp_source_alignment spec | ext_offset e) /\ (sp_source_alignment spec | ext_length e) /\
  exists size, source_sizes !! ext_source e = Some size /\
    ext_offset e + ext_length e <= UINT64_MAX /\ ext_offset e + ext_length e <= size.

(** The contract of [descriptor::make]: a non-empty, byte-exact, overlap-free
    description of a packed tensor inside its source files. *)
Record valid_spec (spec : descriptor_spec) (source_sizes : gmap Z Z) : Prop := {
  vs_rank : 1 <= sp_rank spec <= Z.of_nat (length (sp_dimensions spec));
  vs_axis : sp_quant_axis spec < sp_rank spec;
  vs_block : sp_block_elements spec <> 0 /\ sp_block_bytes spec <> 0;
  vs_alignment : exists k, 0 <= k /\ sp_source_alignment spec = 2 ^ k;
  vs_identity : sp_model_identity spec <> mk_identity 0 0;
  vs_nonempty : sp_extents spec <> [];
  vs_axes : Forall (axis_ok spec) (active_axes spec);
  vs_inactive : forall axis, (Z.to_nat (sp_rank spec) <= axis < length (sp_dimensions spec))%nat ->
    sp_dimensions spec !!! axis = 0 /\ sp_strides spec !!! axis = 0;
  vs_bytes : packed_bytes spec <= UINT64_MAX;
  vs_span : strided_span spec = packed_bytes spec;
  vs_extents : Forall (extent_ok spec source_sizes) (sp_extents spec);
  vs_sum : zsum (ext_length <$> sp_extents spec) = packed_bytes spec;
  vs_disjoint : forall source, ForallOrdPairs idisj (ranges_in source (sp_extents spec));
}.

(** ** Lemmas *)

Lemma checked_add_u64_Some a b r :
  checked_add_u64 a b = Some r <-> a + b <= UINT64_MAX /\ r = a + b.
Proof.
  unfold checked_add_u64. rewrite Z.gtb_ltb. destruct (Z.ltb_spec (UINT64_MAX - a) b);
    split; intros; [discriminate|lia|simplify_eq; lia|f_equal; lia].
Qed.

Lemma checked_mul_u64_Some a b r :
  0 <= a -> 0 <= b -> checked_mul_u64 a b = Some r <-> a * b <= UINT64_MAX /\ r = a * b.
Proof.
  intros Ha Hb. unfold checked_mul_u64. rewrite Z.gtb_ltb.
  assert (0 <= UINT64_MAX) by done.
  destruct (Z.eqb_spec a 0) as [->|Hz]; simpl; [naive_solver lia|].
  destruct (Z.ltb_spec (UINT64_MAX / a) b) as [Hl|Hl].
  - split; [done|]. intros [Hm _].
    assert (b <= UINT64_MAX / a) by (apply Z.div_le_lower_bound; lia). lia.
  - assert (a * b <= UINT64_MAX) by (pose proof (Z.mul_div_le UINT64_MAX a); nia). naive_solver.
Qed.

Lemma checked_add_u64_None a b : checked_add_u64 a b = None <-> UINT64_MAX < a + b.
Proof.
  unfold checked_add_u64. rewrite Z.gtb_ltb.
  destruct (Z.ltb_spec (UINT64_MAX - a) b); split; intros; try done; lia.
Qed.

Lemma checked_mul_u64_None a b :
  0 <= a -> 0 <= b -> checked_mul_u64 a b = None <-> UINT64_MAX < a * b.
Proof.
  intros Ha Hb. pose proof (checked_mul_u64_Some a b (a * b) Ha Hb).
  destruct (checked_mul_u64 a b) eqn:E; split; intros; try done; try lia.
  - apply checked_mul_u64_Some in E; lia.
  - destruct (Z_lt_le_dec UINT64_MAX (a * b)); [done|]. naive_solver.
Qed.

Lemma pow2_test a : 0 < a -> Z.land a (a - 1) = 0 <-> exists k, 0 <= k /\ a = 2 ^ k.
Proof.
  intros Ha. split.
  - intros H. exists (Z.log2 a). split; [apply Z.log2_nonneg|].
    pose proof (Z.log2_spec a Ha) as [Hlo Hhi].
    destruct (Z.eq_dec a (2 ^ Z.log2 a)) as [->|Hne]; [by rewrite Z.log2_pow2 by apply Z.log2_nonneg|].
    exfalso. assert (Hl : Z.log2 (a - 1) = Z.log2 a).
    { apply Z.log2_unique; [apply Z.log2_nonneg|lia]. }
    assert (Hb : Z.testbit (Z.land a (a - 1)) (Z.log2 a) = true).
    { rewrite Z.land_spec, Z.bit_log2 by done. rewrite <- Hl, Z.bit_log2; [done|].
      assert (0 < 2 ^ Z.log2 a) by (apply Z.pow_pos_nonneg; [lia|apply Z.log2_nonneg]). lia. }
    rewrite H, Z.testbit_0_l in Hb. done.
  - intros (k & Hk & ->). rewrite Z.sub_1_r, <- Z.ones_equiv, Z.land_ones by lia. apply Z_mod_same_full.
Qed.

Lemma identity_is_zero_false i : identity_is_zero i = false <-> i <> mk_identity 0 0.
Proof.
  destruct i as [h l]. unfold identity_is_zero; simpl.
  destruct (Z.eqb_spec h 0), (Z.eqb_spec l 0); simpl; naive_solver.
Qed.

Lemma axis_units_pos spec axis :
  spec_typed spec -> sp_block_elements spec <> 0 -> axis_ok spec axis -> 1 <= axis_units_of spec axis.
Proof.
  intros Ht Hbe (Hd & _ & _). pose proof (typed_dimensions _ Ht axis) as [? ?].
  pose proof (typed_elements _ Ht) as [? ?]. unfold axis_units_of. case_match; [|lia].
  apply Z.div_le_lower_bound; lia.
Qed.

Lemma axis_bytes_pos spec axis :
  spec_typed spec -> sp_block_elements spec <> 0 -> sp_block_bytes spec <> 0 ->
  axis_ok spec axis -> 1 <= axis_bytes_of spec axis.
Proof.
  intros Ht Hbe Hbb Ha. pose proof (axis_units_pos _ _ Ht Hbe Ha).
  pose proof (typed_block_bytes _ Ht) as [? ?]. unfold axis_bytes_of. case_match; nia.
Qed.

Section axes.
Context (spec : descriptor_spec) (Ht : spec_typed spec).
Context (Hbe : sp_block_elements spec <> 0) (Hbb : sp_block_bytes spec <> 0).

Lemma axis_geometry_ok axis u b :
  sp_dimensions spec !!! axis <> 0 -> sp_strides spec !!! axis <> 0 ->
  axis_geometry spec axis = Ok (u, b) <->
  axis_ok spec axis /\ axis_bytes_of spec axis <= UINT64_MAX /\
  u = axis_units_of spec axis /\ b = axis_bytes_of spec axis.
Proof.
  intros Hd Hs. unfold axis_geometry, axis_bytes_of.
  pose proof (typed_dimensions _ Ht axis) as [? ?].
  pose proof (typed_elements _ Ht) as [? ?]. pose proof (typed_block_bytes _ Ht) as [? ?].
  destruct (Z.eqb_spec (Z.of_nat axis) (sp_quant_axis spec)) as [Hq|Hq].
  - destruct (checked_add_u64 _ _) as [r|] eqn:Er.
    + apply checked_add_u64_Some in Er as [Er ->].
      assert (Hok : axis_ok spec axis) by done.
      pose proof (axis_units_pos _ _ Ht Hbe Hok) as Hu. revert Hu.
      unfold axis_units_of. rewrite (proj2 (Z.eqb_eq _ _) Hq). intros Hu.
      destruct (checked_mul_u64 _ _) eqn:Em.
      * apply checked_mul_u64_Some in Em as [Em ->]; [|lia..]. naive_solver.
      * apply checked_mul_u64_None in Em; [|lia..]. split; [done|]. lia.
    + apply checked_add_u64_None in Er. split; [done|]. intros ((_ & _ & Hov) & _).
      specialize (Hov Hq). lia.
  - unfold axis_units_of, axis_ok. rewrite (proj2 (Z.eqb_neq _ _) Hq). naive_solver.
Qed.

Lemma make_axis_ok axis e s e' s' :
  1 <= e -> 0 <= s ->
  make_axis spec (e, s) axis = Ok (e', s') <->
  axis_ok spec axis /\
  e * axis_bytes_of spec axis <= UINT64_MAX /\
  s + (axis_units_of spec axis - 1) * (sp_strides spec !!! axis) <= UINT64_MAX /\
  e' = e * axis_bytes_of spec axis /\
  s' = s + (axis_units_of spec axis - 1) * (sp_strides spec !!! axis).
Proof.
  intros He Hs. unfold make_axis. pose proof (typed_strides _ Ht axis) as [? ?].
  destruct (Z.eqb_spec (sp_dimensions spec !!! axis) 0) as [|Hd]; simpl; [unfold axis_ok; naive_solver|].
  destruct (Z.eqb_spec (sp_strides spec !!! axis) 0) as [|Hst]; simpl.
  { split; [|unfold axis_ok; naive_solver]. intros Hr. destruct (axis_geometry spec axis) as [[]|]; [|done].
    by destruct (checked_mul_u64 _ _). }
  destruct (axis_geometry spec axis) as [[u b]|] eqn:Eg.
  - apply axis_geometry_ok in Eg as (Hok & Hb & -> & ->); [|done..].
    pose proof (axis_units_pos _ _ Ht Hbe Hok). pose proof (axis_bytes_pos _ _ Ht Hbe Hbb Hok).
    destruct (checked_mul_u64 e _) eqn:E1.
    + apply checked_mul_u64_Some in E1 as [E1 ->]; [|lia..].
      destruct (checked_mul_u64 (_ - 1) _) eqn:E2.
      * apply checked_mul_u64_Some in E2 as [E2 ->]; [|lia..].
        destruct (checked_add_u64 s _) eqn:E3.
        -- apply checked_add_u64_Some in E3 as [E3 ->]. naive_solver.
        -- apply checked_add_u64_None in E3. split; [done|lia].
      * apply checked_mul_u64_None in E2; [|lia..]. split; [done|lia].
    + apply checked_mul_u64_None in E1; [|lia..]. split; [done|lia].
  - split; [done|]. intros (Hok & Hm & _). exfalso.
    pose proof (axis_bytes_pos _ _ Ht Hbe Hbb Hok).
    assert (axis_geometry spec axis = Ok (axis_units_of spec axis, axis_bytes_of spec axis)).
    { apply axis_geometry_ok; try done. split_and!; try done. nia. } congruence.
Qed.

Lemma make_axes_ok axes e s e' s' :
  1 <= e -> 0 <= s -> e <= UINT64_MAX -> s <= UINT64_MAX ->
  foldM (make_axis spec) axes (e, s) = Ok (e', s') <->
  Forall (axis_ok spec) axes /\
  e * zprod (axis_bytes_of spec <$> axes) <= UINT64_MAX /\
  s + zsum ((fun a => (axis_units_of spec a - 1) * (sp_strides spec !!! a)) <$> axes) <= UINT64_MAX /\
  e' = e * zprod (axis_bytes_of spec <$> axes) /\
  s' = s + zsum ((fun a => (axis_units_of spec a - 1) * (sp_strides spec !!! a)) <$> axes).
Proof.
  revert e s. induction axes as [|a axes IH]; intros e s He Hs He' Hs'.
  - simpl. rewrite Forall_nil. split; [intros; simplify_eq; split_and!; auto; lia|intros (_ & _ & _ & -> & ->); f_equal; f_equal; lia].
  - rewrite foldM_cons_ok, Forall_cons, !fmap_cons. simpl. split.
    + intros ([e1 s1] & H1 & H2). apply make_axis_ok in H1 as (Hok & ? & ? & -> & ->); [|lia..].
      pose proof (axis_bytes_pos _ _ Ht Hbe Hbb Hok). pose proof (axis_units_pos _ _ Ht Hbe Hok).
      pose proof (typed_strides _ Ht a) as [? ?].
      apply IH in H2; [|nia..]. destruct H2 as (? & ? & ? & -> & ->). split_and!; auto; lia.
    + intros ([Hok Hall] & Hp & Hz & -> & ->).
      pose proof (axis_bytes_pos _ _ Ht Hbe Hbb Hok). pose proof (axis_units_pos _ _ Ht Hbe Hok).
      pose proof (typed_strides _ Ht a) as [? ?].
      assert (Hpp : 1 <= zprod (axis_bytes_of spec <$> axes)).
      { apply zprod_pos, Forall_fmap. eapply Forall_impl; [exact Hall|].
        intros x Hx. by apply axis_bytes_pos. }
      assert (Hzz : 0 <= zsum ((fun a => (axis_units_of spec a - 1) * (sp_strides spec !!! a)) <$> axes)).
      { apply zsum_nonneg, Forall_fmap. eapply Forall_impl; [exact Hall|].
        intros x Hx. simpl. pose proof (axis_units_pos _ _ Ht Hbe Hx).
        pose proof (typed_strides _ Ht x) as [? ?]. nia. }
      eexists (_, _). split; [apply make_axis_ok; [lia..|]; split_and!; eauto; nia|].
      apply IH; [nia..|]. split_and!; auto; lia.
Qed.
End axes.

(** ** The extents *)

Lemma ranges_overlap_sorted l :
  StronglySorted ival_le l -> Forall (fun i => i.1 < i.2) l ->
  ranges_overlap l = false <-> ForallOrdPairs idisj l.
Proof.
  induction 1 as [|r0 l Hl IH Hr]; intros Hne; [split; [constructor|done]|].
  apply Forall_cons in Hne as [Hn0 Hne]. specialize (IH Hne).
  destruct l as [|r1 l]; [split; [repeat constructor|done]|].
  apply Forall_cons in Hne as [Hn1 Hne]. apply Forall_cons in Hr as [Hle Hr].
  assert (Hsym : idisj r0 r1 <-> (r1.1 <? r0.2) = false).
  { rewrite idisj_nonempty, Z.ltb_ge by done. unfold ival_le in Hle. lia. }
  change (ranges_overlap (r0 :: r1 :: l)) with ((r1.1 <? r0.2) || ranges_overlap (r1 :: l)).
  rewrite orb_false_iff, IH, <- Hsym. split.
  - intros [H0 HF]. constructor; [|done]. constructor; [done|].
    inversion HF as [|? ? Hd1 HF']; subst. apply StronglySorted_inv in Hl as [_ Hl].
    apply Forall_forall. intros r Hin. apply idisj_nonempty; [done| |].
    + by eapply Forall_forall in Hne.
    + apply Hsym in H0. apply Z.ltb_ge in H0. eapply Forall_forall in Hl; [|done].
      unfold ival_le in Hl. lia.
  - inversion 1 as [|? ? Hd HF]; subst. inversion Hd; subst. done.
Qed.

Lemma ranges_overlap_sort l :
  Forall (fun i => i.1 < i.2) l ->
  ranges_overlap (sort_ivals l) = false <-> ForallOrdPairs idisj l.
Proof.
  intros Hne. rewrite ranges_overlap_sorted; [|apply sort_ivals_sorted|by rewrite sort_ivals_perm].
  split; apply ForallOrdPairs_perm; try apply _; [|symmetry]; apply sort_ivals_perm.
Qed.

Section extents.
Context (spec : descriptor_spec) (source_sizes : gmap Z Z).
Context (Hal : 0 < sp_source_alignment spec).

Definition add_range (m : gmap Z (list ival)) (e : source_extent) : gmap Z (list ival) :=
  <[ext_source e := default [] (m !! ext_source e) ++ [extent_range e]]> m.

Lemma make_extent_ok b m e b' m' :
  make_extent spec source_sizes (b, m) e = Ok (b', m') <->
  extent_ok spec source_sizes e /\ b + ext_length e <= UINT64_MAX /\
  b' = b + ext_length e /\ m' = add_range m e.
Proof.
  unfold make_extent, extent_ok.
  destruct (source_sizes !! ext_source e) as [size|]; [|naive_solver].
  rewrite <- identity_is_zero_false, <- !Z.mod_divide by lia.
  destruct (identity_is_zero _); simpl; [naive_solver|].
  destruct (Z.eqb_spec (ext_length e) 0); simpl; [naive_solver|].
  destruct (Z.eqb_spec (ext_offset e mod sp_source_alignment spec) 0); simpl; [|naive_solver].
  destruct (Z.eqb_spec (ext_length e mod sp_source_alignment spec) 0); simpl; [|naive_solver].
  destruct (checked_add_u64 (ext_offset e) _) as [fin|] eqn:E1;
    [apply checked_add_u64_Some in E1 as [E1 ->] | apply checked_add_u64_None in E1; naive_solver lia].
  rewrite Z.gtb_ltb. destruct (Z.ltb_spec size (ext_offset e + ext_length e)); simpl; [naive_solver lia|].
  destruct (checked_add_u64 b _) as [b2|] eqn:E2;
    [apply checked_add_u64_Some in E2 as [E2 ->] | apply checked_add_u64_None in E2; naive_solver lia].
  naive_solver.
Qed.

Lemma make_extents_ok es b m b' m' :
  Forall (fun e => u64 (ext_offset e) /\ u64 (ext_length e)) es -> 
  b <= UINT64_MAX ->
  foldM (make_extent spec source_sizes) es (b, m) = Ok (b', m') <->
  Forall (extent_ok spec source_sizes) es /\
  b + zsum (ext_length <$> es) <= UINT64_MAX /\
  b' = b + zsum (ext_length <$> es) /\ m' = foldl add_range m es.
Proof.
  intros Hty Hb. revert b m Hb. induction Hty as [|e es [_ [He _]] Hty IH]; intros b m Hb.
  - simpl. rewrite Forall_nil. split; [intros; simplify_eq; split_and!; auto; lia|].
    intros (_ & _ & -> & ->). f_equal; f_equal; lia.
  - rewrite foldM_cons_ok, Forall_cons, fmap_cons. simpl.
    assert (0 <= zsum (ext_length <$> es)).
    { apply zsum_nonneg, Forall_fmap. eapply Forall_impl; [exact Hty|]. unfold u64. simpl. lia. }
    split.
    + intros ([b1 m1] & H1 & H2). apply make_extent_ok in H1 as (? & ? & -> & ->).
      apply IH in H2; [|lia]. destruct H2 as (? & ? & -> & ->). split_and!; auto; lia.
    + intros ([? ?] & ? & -> & ->). eexists (_, _). split; [apply make_extent_ok; split_and!; eauto; lia|].
      apply IH; [lia|]. split_and!; auto; lia.
Qed.
End extents.

Lemma add_ranges_lookup es m source :
  default [] (foldl add_range m es !! source) = default [] (m !! source) ++ ranges_in source es.
Proof.
  revert m. induction es as [|e es IH]; intros m; simpl; [by rewrite app_nil_r|].
  rewrite IH. unfold add_range, ranges_in. rewrite filter_cons.
  destruct (decide (ext_source e = source)) as [<-|Hne].
  - rewrite lookup_insert_eq. simpl. by rewrite <- (assoc_L (++)).
  - by rewrite lookup_insert_ne.
Qed.

Lemma no_overlap_spec (m : gmap Z (list ival)) :
  forallb (fun item : Z * list ival => negb (ranges_overlap (sort_ivals item.2))) (map_to_list m) = true <->
  forall source, ranges_overlap (sort_ivals (default [] (m !! source))) = false.
Proof.
  rewrite forallb_forall. split.
  - intros H source. destruct (m !! source) as [r|] eqn:Em; [|done]. simpl.
    apply negb_true_iff. apply (H (source, r)). by apply list_elem_of_In, elem_of_map_to_list.
  - intros H [source r] Hin. apply list_elem_of_In, elem_of_map_to_list in Hin.
    specialize (H source). rewrite Hin in H. simpl in *. by rewrite H.
Qed.

Lemma ranges_in_nonempty spec source_sizes es source :
  Forall (fun e => u64 (ext_offset e) /\ u64 (ext_length e)) es ->
  Forall (extent_ok spec source_sizes) es ->
  Forall (fun i : ival => i.1 < i.2) (ranges_in source es).
Proof.
  intros Hty Hok. apply Forall_fmap, Forall_forall. intros e [_ Hin]%list_elem_of_filter.
  eapply Forall_forall in Hty; [|done]. eapply Forall_forall in Hok; [|done].
  destruct Hok as (_ & Hl & _). unfold u64 in Hty. simpl. lia.
Qed.

Lemma inactive_test spec :
  forallb (fun axis => (sp_dimensions spec !!! axis =? 0) && (sp_strides spec !!! axis =? 0))
    (seq (Z.to_nat (sp_rank spec)) (length (sp_dimensions spec) - Z.to_nat (sp_rank spec))) = true <->
  forall axis, (Z.to_nat (sp_rank spec) <= axis < length (sp_dimensions spec))%nat ->
    sp_dimensions spec !!! axis = 0 /\ sp_strides spec !!! axis = 0.
Proof.
  rewrite forallb_forall. split; intros H axis Hax.
  - specialize (H axis). rewrite in_seq, andb_true_iff, !Z.eqb_eq in H. apply H. lia.
  - apply in_seq in Hax. rewrite andb_true_iff, !Z.eqb_eq. apply H. lia.
Qed.

(** The scalar guards at the head of [make]. *)
Lemma make_header_test spec :
  spec_typed spec ->
  negb ((sp_rank spec =? 0) || (sp_rank spec >? Z.of_nat (length (sp_dimensions spec))))
  && negb (sp_quant_axis spec >=? sp_rank spec)
  && negb ((sp_block_elements spec =? 0) || (sp_block_bytes spec =? 0))
  && negb ((sp_source_alignment spec =? 0)
           || negb (Z.land (sp_source_alignment spec) (sp_source_alignment spec - 1) =? 0))
  && negb (identity_is_zero (sp_model_identity spec))
  && negb (bool_decide (sp_extents spec = [])) = true <->
  1 <= sp_rank spec <= Z.of_nat (length (sp_dimensions spec)) /\
  sp_quant_axis spec < sp_rank spec /\
  (sp_block_elements spec <> 0 /\ sp_block_bytes spec <> 0) /\
  (exists k, 0 <= k /\ sp_source_alignment spec = 2 ^ k) /\
  sp_model_identity spec <> mk_identity 0 0 /\ sp_extents spec <> [].
Proof.
  intros Ht. pose proof (typed_rank _ Ht). pose proof (typed_alignment _ Ht) as [Ha _].
  rewrite !andb_true_iff, !negb_true_iff, !orb_false_iff, negb_false_iff, identity_is_zero_false,
    bool_decide_eq_false, Z.eqb_eq, !Z.eqb_neq, Z.gtb_ltb, Z.ltb_ge, Z.geb_leb, Z.leb_gt.
  destruct (Z.eq_dec (sp_source_alignment spec) 0) as [Hz|Hz].
  - rewrite Hz. split; [naive_solver|]. intros (_ & _ & _ & (k & Hk & Hp) & _).
    pose proof (Z.pow_pos_nonneg 2 k). lia.
  - rewrite pow2_test by lia. intuition lia.
Qed.

(** The part of [make] behind the scalar guards. *)
Lemma make_body_ok spec source_sizes d :
  spec_typed spec ->
  make spec source_sizes = Ok d <->
  (1 <= sp_rank spec <= Z.of_nat (length (sp_dimensions spec)) /\
   sp_quant_axis spec < sp_rank spec /\
   (sp_block_elements spec <> 0 /\ sp_block_bytes spec <> 0) /\
   (exists k, 0 <= k /\ sp_source_alignment spec = 2 ^ k) /\
   sp_model_identity spec <> mk_identity 0 0 /\ sp_extents spec <> []) /\
  exists expected intervals,
    foldM (make_axis spec) (active_axes spec) (1, sp_block_bytes spec) = Ok (expected, expected) /\
    (forall axis, (Z.to_nat (sp_rank spec) <= axis < length (sp_dimensions spec))%nat ->
       sp_dimensions spec !!! axis = 0 /\ sp_strides spec !!! axis = 0) /\
    foldM (make_extent spec source_sizes) (sp_extents spec) (0, ∅) = Ok (expected, intervals) /\
    (forall source, ranges_overlap (sort_ivals (default [] (intervals !! source))) = false) /\
    d = mk_descriptor spec expected.
Proof.
  intros Ht. rewrite <- (make_header_test spec Ht). setoid_rewrite <- (inactive_test spec). unfold make, active_axes.
  setoid_rewrite <- no_overlap_spec.
  do 6 (match goal with |- context [if ?b then _ else _] => destruct b; [|simpl; naive_solver] end).
  simpl. destruct (foldM (make_axis spec) _ _) as [[expected span]|]; [|naive_solver].
  destruct (forallb _ (seq (Z.to_nat _) _)); [|naive_solver].
  destruct (Z.eqb_spec span expected) as [->|];
    [|split; [done|intros (_ & ? & ? & ? & _); congruence]].
  destruct (foldM (make_extent spec source_sizes) _ _) as [[total intervals]|];
    [|split; [done|intros (_ & ? & ? & _ & _ & ? & _); congruence]].
  destruct (forallb _ (map_to_list _)) eqn:Ef;
    [|split; [done|intros (_ & ? & ? & _ & _ & ? & ? & _); congruence]].
  destruct (Z.eqb_spec total expected) as [->|];
    [|split; [done|intros (_ & ? & ? & ? & _ & ? & _); congruence]].
  split; [intros; simplify_eq; eauto 10|]. intros (_ & ? & ? & ? & _ & _ & _ & ->). by simplify_eq.
Qed.

(** [descriptor::make] accepts exactly the specs that meet the contract, and
    the descriptor it builds keeps the spec with the packed byte count. *)
Lemma make_iff_valid spec source_sizes d :
  spec_typed spec ->
  make spec source_sizes = Ok d <->
  valid_spec spec source_sizes /\ d = mk_descriptor spec (packed_bytes spec).
Proof.
  intros Ht. pose proof (typed_block_bytes _ Ht) as [Hb1 Hb2].
  assert (UINT32_MAX <= UINT64_MAX) by (vm_compute; discriminate).
  rewrite make_body_ok by done. split.
  - intros ((Hr & Hq & [Hbe Hbb] & Hal & Hid & Hne) & expected & intervals & Hax & Hin & Hex & Hov & ->).
    assert (Halp : 0 < sp_source_alignment spec) by (destruct Hal as (k & ? & ->); lia).
    apply make_axes_ok in Hax as (Hall & Hp & Hs & He & Hsp); [|by try lia..].
    apply make_extents_ok in Hex as (Hext & Hsum & Hes & ->); [|done|by apply Ht|vm_compute; discriminate].
    fold (packed_bytes spec) in Hp, He. fold (strided_span spec) in Hs, Hsp.
    split; [|f_equal; lia]. split; try done; try lia.
    intros source. specialize (Hov source). rewrite add_ranges_lookup, lookup_empty in Hov.
    apply ranges_overlap_sort in Hov; [done|]. eapply ranges_in_nonempty; [apply Ht|done].
  - intros [[] ->]. split; [naive_solver|]. destruct vs_block0 as [Hbe Hbb].
    assert (Halp : 0 < sp_source_alignment spec) by (destruct vs_alignment0 as (k & ? & ->); lia).
    exists (packed_bytes spec), (foldl add_range ∅ (sp_extents spec)). split_and!; [|done| | |done].
    + apply make_axes_ok; try done; try lia. fold (packed_bytes spec) (strided_span spec).
      split_and!; try done; lia.
    + apply make_extents_ok; [done|apply Ht|vm_compute; discriminate|]. split_and!; try done; lia.
    + intros source. rewrite add_ranges_lookup, lookup_empty. simpl.
      apply ranges_overlap_sort; [eapply ranges_in_nonempty; [apply Ht|done]|apply vs_disjoint0].
Qed.

(** ** Claims *)

Definition demo_spec : descriptor_spec :=
  mk_spec (mk_key 3 7 gate) 2 2 0 32 18 2 [64; 4; 0; 0] [18; 36; 0; 0] (mk_identity 1 2)
    [mk_extent 0 (mk_identity 5 6) 0 100; mk_extent 1 (mk_identity 7 8) 4 44].

Lemma demo_spec_typed : spec_typed demo_spec.
Proof.
  split; simpl; unfold u32, u64, UINT32_MAX, UINT64_MAX; try lia.
  - intros i. do 4 (destruct i as [|i]; [simpl; lia|]). rewrite list_lookup_total_alt. simpl. vm_compute. split; discriminate.
  - intros i. do 4 (destruct i as [|i]; [simpl; lia|]). rewrite list_lookup_total_alt. simpl. vm_compute. split; discriminate.
  - repeat constructor; simpl; lia.
Qed.

(** C7: [descriptor::make] accepts a spec exactly when it meets the published
    contract (rank and quantization axis in range, non-zero block geometry,
    power-of-two alignment, non-zero identities, strides spanning exactly the
    packed tensor without 64-bit overflow, aligned in-bounds pairwise disjoint
    extents whose lengths add up to the tensor), and the descriptor it returns
    keeps the spec and records the packed byte count. *)
Theorem descriptor_make_contract spec source_sizes d :
  spec_typed spec ->
  make spec source_sizes = Ok d <->
  valid_spec spec source_sizes /\ d = mk_descriptor spec (packed_bytes spec).
Proof. apply make_iff_valid. Qed.

Lemma descriptor_make_contract_witness :
  make demo_spec {[0 := 100; 1 := 64]} = Ok (mk_descriptor demo_spec 144) /\
  valid_spec demo_spec {[0 := 100; 1 := 64]}.
Proof.
  split; [vm_compute; reflexivity|].
  apply (descriptor_make_contract demo_spec {[0 := 100; 1 := 64]} (mk_descriptor demo_spec 144));
    [exact demo_spec_typed|vm_compute; reflexivity].
Defined.
