(* ===== verification/ExpertArena.v ===== *)
(** * Arena placement of the expert RAM cache

    Models the placement routines of [src/src/llama-expert-cache.cpp]:
    [arena_first_fit], [ram_cache::allocation_plan] (the dense shortcut, the
    free first fit and the eviction search with its gap index) and
    [ram_cache::staging_plan].  A cache entry is seen here through the fields
    the planner reads; [ExpertCache] passes its own entries in that form. *)

From S2P Require Import Prelude ExpertDescriptor.

(** ** What the planner reads *)

(** A resident entry: its arena span and what protects it. *)
Record resident := mk_resident {
  r_id : positive;
  r_offset : Z;
  r_bytes : Z;
  r_ready : bool;
  r_pins : Z;
  r_reserved_by : option positive;
}.

(** A fill in flight: the reserved arena span of [pending_load]. *)
Record reservation := mk_reservation {
  v_load : positive;
  v_offset : Z;
  v_bytes : Z;
}.

#[export] Instance resident_eq_dec : EqDecision resident.
Proof. solve_decision. Defined.

Definition r_span (r : resident) : ival := (r_offset r, wrap64 (r_offset r + r_bytes r)).
Definition v_span (v : reservation) : ival := (v_offset v, wrap64 (v_offset v + v_bytes v)).

(** ** Aligned fits *)

Definition align_to (alignment x : Z) : option Z :=
  match checked_add_u64 x (alignment - 1) with
  | None => None
  | Some a => Some (mask_down a alignment)
  end.

(** The lambdas [fits], [free_fits] and [aligned_fit]: the aligned start when
    [bytes] fit between [start] and [limit]. *)
Definition aligned_fit (alignment bytes start limit : Z) : option Z :=
  match align_to alignment start with
  | None => None
  | Some aligned =>
      if (aligned >? limit) || (limit - aligned <? bytes) then None else Some aligned
  end.

(** The scan over sorted regions shared by [arena_first_fit] and the free
    admission of [allocation_plan]. *)
Fixpoint first_fit_scan (capacity bytes alignment cursor : Z) (regions : list ival)
    : result exn (option Z) :=
  match regions with
  | [] => Ok (aligned_fit alignment bytes cursor capacity)
  | region :: regions =>
      if (region.1 >? region.2) || (region.2 >? capacity)
      then Err (logic_error "expert cache arena metadata is outside capacity")
      else match aligned_fit alignment bytes cursor region.1 with
           | Some offset => Ok (Some offset)
           | None => first_fit_scan capacity bytes alignment (Z.max cursor region.2) regions
           end
  end.

Definition arena_first_fit (occupied : list ival) (capacity bytes alignment : Z)
    : result exn (option Z) :=
  first_fit_scan capacity bytes alignment 0 (sort_ivals occupied).

(** ** The gap index of the eviction search *)

(** [gaps] is the ordered map start -> end, [fitting] the ordered set of the
    starts of gaps that hold the request. *)
Record gap_index := mk_gaps { gaps : list ival; fitting : list Z }.

#[export] Instance eta_gap_index : Settable gap_index :=
  fun g => mk_gaps (gaps g) (fitting g).

Fixpoint set_insert (x : Z) (s : list Z) : list Z :=
  match s with
  | [] => [x]
  | y :: s' => if x <? y then x :: s else if x =? y then s else y :: set_insert x s'
  end.

Definition set_erase (x : Z) (s : list Z) : list Z := filter (fun y => y <> x) s.

(** [while (next != gaps.end() && next->first <= end)] of [insert_gap]:
    absorbs the following gaps; returns the extended end, the starts of the
    absorbed gaps and the remaining gaps. *)
Fixpoint absorb_gaps (limit : Z) (next : list ival) (erased : list Z) : Z * list Z * list ival :=
  match next with
  | gap :: rest =>
      if gap.1 <=? limit then absorb_gaps (Z.max limit gap.2) rest (gap.1 :: erased)
      else (limit, erased, next)
  | [] => (limit, erased, [])
  end.

Definition insert_gap (bytes : Z) (g : gap_index) (start limit : Z) : gap_index :=
  if start >=? limit then g
  else
    (* lower_bound(start) splits the map *)
    let before := filter (fun gap : ival => gap.1 < start) (gaps g) in
    let next := filter (fun gap : ival => ~ gap.1 < start) (gaps g) in
    let '(before, start, limit, fit) :=
      match last before with
      | Some previous =>
          if previous.2 >=? start
          then (removelast before, previous.1, Z.max limit previous.2,
                set_erase previous.1 (fitting g))
          else (before, start, limit, fitting g)
      | None => (before, start, limit, fitting g)
      end in
    let '(limit, erased, next) := absorb_gaps limit next [] in
    let fit := fold_right set_erase fit erased in
    mk_gaps (before ++ (start, limit) :: next)
      (match aligned_fit 64 bytes start limit with
       | Some _ => set_insert start fit
       | None => fit
       end).

(** [first_fit]: the lowest fitting gap. *)
Definition first_fit (bytes : Z) (g : gap_index) : option Z :=
  match fitting g with
  | [] => None
  | start :: _ =>
      match list_find (fun gap : ival => gap.1 = start) (gaps g) with
      | Some (_, gap) => aligned_fit 64 bytes gap.1 gap.2
      | None => None
      end
  end.

(** The loop that builds the free spans between the occupied regions. *)
Fixpoint build_gaps (capacity bytes cursor : Z) (occupied : list ival) (g : gap_index)
    : result exn gap_index :=
  match occupied with
  | [] => Ok (insert_gap bytes g cursor capacity)
  | region :: occupied =>
      if (region.1 >? region.2) || (region.2 >? capacity)
      then Err (logic_error "expert cache arena metadata is outside capacity")
      else
        let g := if region.1 >? cursor then insert_gap bytes g cursor region.1 else g in
        build_gaps capacity bytes (Z.max cursor region.2) occupied g
  end.

(** The union of the sorted reservations, as maximal blocks; the accumulator
    holds the blocks in reverse. *)
Fixpoint merge_blocked (regions : list ival) (blocked : list ival) : list ival :=
  match regions with
  | [] => rev blocked
  | region :: regions =>
      match blocked with
      | back :: blocked' =>
          if region.1 <=? back.2
          then merge_blocked regions ((back.1, Z.max back.2 region.2) :: blocked')
          else merge_blocked regions (region :: blocked)
      | [] => merge_blocked regions [region]
      end
  end.

(** Frees the span of one victim except where another fill reserved it. *)
Fixpoint free_victim (bytes start limit : Z) (blocked : list ival) (g : gap_index) : gap_index :=
  match blocked with
  | [] => if start <? limit then insert_gap bytes g start limit else g
  | region :: blocked =>
      if region.2 <=? start then free_victim bytes start limit blocked g
      else if region.1 >=? limit then
        (if start <? limit then insert_gap bytes g start limit else g)
      else
        let g := if start <? region.1
                 then insert_gap bytes g start (Z.min limit region.1) else g in
        let start := Z.max start region.2 in
        if start >=? limit then g
        else free_victim bytes start limit blocked g
  end.

(** The candidate test of the eviction loop. *)
Definition evictable (own : option positive) (candidate : resident) : bool :=
  r_ready candidate && (r_pins candidate =? 0) &&
  match r_reserved_by candidate with
  | None => true
  | Some load => bool_decide (Some load = own)
  end.

(** Use the shortest prefix of the retention order that admits the request. *)
Fixpoint evict_scan (bytes : Z) (own : option positive) (blocked : list ival)
    (candidates victims : list resident) (g : gap_index) : option (Z * list resident) :=
  match candidates with
  | [] => None
  | candidate :: candidates =>
      if negb (evictable own candidate) then evict_scan bytes own blocked candidates victims g
      else
        let victims := victims ++ [candidate] in
        let span := r_span candidate in
        let g := free_victim bytes span.1 span.2 blocked g in
        match first_fit bytes g with
        | Some offset => Some (offset, victims)
        | None => evict_scan bytes own blocked candidates victims g
        end
  end.

(** ** The dense shortcut *)

Definition other_reservations (own : option positive) (pending : list reservation) : list ival :=
  v_span <$> filter (fun v => Some (v_load v) <> own) pending.

(** The loop over the sorted reservations: [None] when the prefix is not
    dense, else the new tail. *)
Fixpoint dense_tail (capacity tail : Z) (reservations : list ival) : option Z :=
  match reservations with
  | [] => Some tail
  | region :: reservations =>
      if (region.1 >? region.2) || (region.2 >? capacity) then None
      else match align_to 64 tail with
           | None => None
           | Some aligned =>
               if region.1 >? aligned then None
               else dense_tail capacity (Z.max tail region.2) reservations
           end
  end.

(** The end of the last resident: [None] on 64-bit overflow. *)
Definition resident_tail (by_offset : list resident) : option Z :=
  match last by_offset with
  | None => Some 0
  | Some r => checked_add_u64 (r_offset r) (r_bytes r)
  end.

Definition dense_plan (capacity resident_bytes bytes : Z) (by_offset : list resident)
    (reservations : list ival) : option Z :=
  match resident_tail by_offset with
  | None => None
  | Some tail =>
      if (resident_bytes =? tail) && (tail <=? capacity) then
        match dense_tail capacity tail (sort_ivals reservations) with
        | None => None
        | Some tail =>
            match align_to 64 tail with
            | None => None
            | Some aligned =>
                if (aligned <=? capacity) && (bytes <=? capacity - aligned) then Some aligned else None
            end
        end
      else None
  end.

(** ** [ram_cache::allocation_plan] *)

Definition allocation_plan (capacity resident_bytes : Z) (by_offset by_recency : list resident)
    (pending : list reservation) (own : option positive) (bytes : Z)
    : result exn (option (Z * list resident)) :=
  let reservations := other_reservations own pending in
  match dense_plan capacity resident_bytes bytes by_offset reservations with
  | Some offset => Ok (Some (offset, []))
  | None =>
      (* std::sort of the reservations and std::inplace_merge with the ordered residents *)
      let occupied := sort_ivals ((r_span <$> by_offset) ++ reservations) in
      let? free := first_fit_scan capacity bytes 64 0 occupied in
      match free with
      | Some offset => Ok (Some (offset, []))
      | None =>
          let blocked := merge_blocked (sort_ivals reservations) [] in
          let? g := build_gaps capacity bytes 0 occupied (mk_gaps [] []) in
          match first_fit bytes g with
          | Some offset => Ok (Some (offset, []))
          | None => Ok (evict_scan bytes own blocked by_recency [] g)
          end
      end
  end.

(** ** [ram_cache::staging_plan] *)

Definition staging_plan (staging_bytes : Z) (pending_spans : list ival) (bytes : Z)
    : result exn (option Z) :=
  match pending_spans with
  | [] => Ok (if bytes <=? staging_bytes then Some 0 else None)
  | _ => arena_first_fit pending_spans staging_bytes bytes 1
  end.

Example allocation_plan_evicts :
  let mk id off pins := mk_resident id off 64 true pins None in
  let a := mk 1%positive 0 1 in let b := mk 2%positive 64 0 in let c := mk 3%positive 128 0 in
  allocation_plan 192 192 [a; b; c] [c; a; b] [] None 64 = Ok (Some (128, [c])) /\
  allocation_plan 192 192 [a; b; c] [c; a; b] [] None 100 = Ok (Some (64, [c; b])) /\
  allocation_plan 192 192 [a; b; c] [c; a; b] [] None 129 = Ok None.
Proof. vm_compute. auto. Qed.

(** ** Specification of a placement *)

(** [a] is an aligned start from which [bytes] bytes fit below [capacity]
    without touching any of the [blockers]. *)
Definition placement (alignment capacity bytes : Z) (blockers : list ival) (a : Z) : Prop :=
  0 <= a /\ (alignment | a) /\ a + bytes <= capacity /\
  Forall (idisj (a, a + bytes)) blockers.

Definition least_placement (alignment capacity bytes : Z) (blockers : list ival) (a : Z) : Prop :=
  placement alignment capacity bytes blockers a /\
  forall a', placement alignment capacity bytes blockers a' -> a <= a'.

(** What a first-fit search must answer. *)
Definition first_fit_answer (alignment capacity bytes : Z) (blockers : list ival) (o : option Z) : Prop :=
  match o with
  | Some a => least_placement alignment capacity bytes blockers a
  | None => forall a, ~ placement alignment capacity bytes blockers a
  end.

Definition region_ok (capacity : Z) (i : ival) : Prop := 0 <= i.1 < i.2 /\ i.2 <= capacity.

Lemma first_fit_answer_unique alignment capacity bytes blockers o o' :
  first_fit_answer alignment capacity bytes blockers o ->
  first_fit_answer alignment capacity bytes blockers o' -> o = o'.
Proof.
  destruct o as [a|], o' as [a'|]; simpl; intros H H'; [|by destruct H as [? _]; exfalso; eapply H'
    |by destruct H' as [? _]; exfalso; eapply H|done].
  destruct H as [H1 H2], H' as [H1' H2']. f_equal. apply H2 in H1'. apply H2' in H1. lia.
Qed.

Lemma placement_perm alignment capacity bytes l l' a :
  l ≡ₚ l' -> placement alignment capacity bytes l a <-> placement alignment capacity bytes l' a.
Proof. intros H. unfold placement. by rewrite H. Qed.

Lemma first_fit_answer_perm alignment capacity bytes l l' o :
  l ≡ₚ l' ->
  first_fit_answer alignment capacity bytes l o <-> first_fit_answer alignment capacity bytes l' o.
Proof.
  intros H. unfold first_fit_answer, least_placement.
  destruct o; setoid_rewrite (placement_perm _ _ _ _ _ _ H); done.
Qed.

(** Two blocker lists that cover the same addresses answer alike. *)
Lemma placement_covered alignment capacity bytes blockers a :
  placement alignment capacity bytes blockers a <->
  0 <= a /\ (alignment | a) /\ a + bytes <= capacity /\
  forall x, a <= x < a + bytes -> ~ covered blockers x.
Proof.
  unfold placement, covered. rewrite Forall_forall. setoid_rewrite Exists_exists. unfold idisj, in_ival. simpl.
  split; intros (? & ? & ? & H); split_and!; auto.
  - intros x Hx (i & Hi & Hin). by eapply H.
  - intros i Hi x Hx Hin. eapply H; eauto.
Qed.

(** ** Aligned fits *)

Lemma align_to_spec k x :
  0 <= k <= 64 -> 0 <= x ->
  match align_to (2 ^ k) x with
  | Some y => (2 ^ k | y) /\ x <= y /\ y <= UINT64_MAX /\ forall y', (2 ^ k | y') -> x <= y' -> y <= y'
  | None => forall y', (2 ^ k | y') -> x <= y' -> UINT64_MAX < y'
  end.
Proof.
  intros Hk Hx. unfold align_to. assert (Hp : 0 < 2 ^ k) by lia.
  destruct (checked_add_u64 _ _) as [s|] eqn:E.
  - apply checked_add_u64_Some in E as [E ->]. rewrite mask_down_pow2 by lia.
    set (s := x + (2 ^ k - 1)) in *.
    pose proof (Z.div_mod s (2 ^ k)) as Hd. pose proof (Z.mod_pos_bound s (2 ^ k) Hp) as Hm.
    split_and!; [exists (s / 2 ^ k); lia|lia|lia|].
    intros y' [q ->] Hle.
    assert (s / 2 ^ k < q + 1) by (apply Z.div_lt_upper_bound; subst s; lia).
    assert (2 ^ k * (s / 2 ^ k) <= 2 ^ k * q) by (apply Z.mul_le_mono_nonneg_l; lia). lia.
  - apply checked_add_u64_None in E. intros y' [q ->] Hle.
    destruct (Z_lt_le_dec UINT64_MAX (q * 2 ^ k)) as [|Hle']; [done|]. exfalso.
    unfold UINT64_MAX in *. replace 64 with (k + (64 - k)) in Hle', E by lia.
    rewrite Z.pow_add_r in Hle', E by lia.
    assert (q < 2 ^ (64 - k)) by (apply (Z.mul_lt_mono_pos_r (2 ^ k)); lia).
    assert ((q + 1) * 2 ^ k <= 2 ^ (64 - k) * 2 ^ k) by (apply Z.mul_le_mono_nonneg_r; lia). lia.
Qed.

Lemma aligned_fit_spec k bytes start limit :
  0 <= k <= 64 -> 0 <= start -> limit <= UINT64_MAX -> 0 <= bytes ->
  match aligned_fit (2 ^ k) bytes start limit with
  | Some y => (2 ^ k | y) /\ start <= y /\ y + bytes <= limit /\
              forall y', (2 ^ k | y') -> start <= y' -> y <= y'
  | None => forall y', (2 ^ k | y') -> start <= y' -> limit < y' + bytes
  end.
Proof.
  intros Hk Hs Hl Hb. unfold aligned_fit. pose proof (align_to_spec k start Hk Hs) as Ha.
  destruct (align_to _ _) as [y|].
  - destruct Ha as (? & ? & ? & Hleast). rewrite Z.gtb_ltb.
    destruct (Z.ltb_spec limit y); simpl.
    + intros y' Hy' Hle. specialize (Hleast y' Hy' Hle). lia.
    + destruct (Z.ltb_spec (limit - y) bytes); [|split_and!; auto; lia].
      intros y' Hy' Hle. specialize (Hleast y' Hy' Hle). lia.
  - intros y' Hy' Hle. specialize (Ha y' Hy' Hle). lia.
Qed.

(** ** The first-fit scan *)

Lemma region_test_false capacity i :
  region_ok capacity i -> (i.1 >? i.2) || (i.2 >? capacity) = false.
Proof. unfold region_ok. intros H. rewrite !Z.gtb_ltb, orb_false_iff, !Z.ltb_ge. lia. Qed.

Definition from_cursor (cursor : Z) (P : Z -> Prop) (a : Z) : Prop := cursor <= a /\ P a.

Section scan.
Context (k capacity bytes : Z) (Hk : 0 <= k <= 64) (Hcap : capacity <= UINT64_MAX) (Hb : 0 < bytes).

Lemma first_fit_scan_from regions cursor :
  0 <= cursor -> StronglySorted ival_le regions -> Forall (region_ok capacity) regions ->
  exists o, first_fit_scan capacity bytes (2 ^ k) cursor regions = Ok o /\
    match o with
    | Some a => from_cursor cursor (placement (2 ^ k) capacity bytes regions) a /\
                forall a', from_cursor cursor (placement (2 ^ k) capacity bytes regions) a' -> a <= a'
    | None => forall a', ~ from_cursor cursor (placement (2 ^ k) capacity bytes regions) a'
    end.
Proof.
  intros Hc Hs. revert cursor Hc. induction Hs as [|r regions Hs IH Hr]; intros cursor Hc Hok.
  - eexists. split; [done|]. pose proof (aligned_fit_spec k bytes cursor capacity) as Hf.
    destruct (aligned_fit _ _ _ _) as [y|]; [destruct Hf as (?&?&?&Hl); [lia..|]|].
    + split; [repeat split; auto; lia|]. intros a' (? & ? & ? & _). auto.
    + intros a' (? & ? & ? & ? & _). specialize (Hf ltac:(lia) Hc Hcap ltac:(lia) a'). naive_solver lia.
  - apply Forall_cons in Hok as [Hok0 Hok]. simpl. rewrite (region_test_false _ _ Hok0).
    destruct Hok0 as [[H0 H1] H2].
    pose proof (aligned_fit_spec k bytes cursor r.1 ltac:(lia) Hc ltac:(lia) ltac:(lia)) as Hf.
    destruct (aligned_fit _ _ _ _) as [y|].
    + destruct Hf as (Hd & Hy & Hfit & Hl). eexists. split; [done|]. split.
      * split; [done|]. split_and!; try lia; [done|]. constructor.
        { intros x. unfold in_ival; simpl. lia. }
        eapply Forall_impl; [exact Hr|]. intros i Hi x. unfold in_ival, ival_le in *; simpl. lia.
      * intros a' (? & _ & ? & _). auto.
    + destruct (IH (Z.max cursor r.2)) as (o & -> & Ho); [lia|done|]. eexists; split; [done|].
      assert (Hequiv : forall a', from_cursor cursor (placement (2 ^ k) capacity bytes (r :: regions)) a' <->
                from_cursor (Z.max cursor r.2) (placement (2 ^ k) capacity bytes regions) a').
      { intros a'. unfold from_cursor, placement. rewrite Forall_cons. split.
        - intros (Hca & ? & Hda & ? & Hdr & ?). split_and!; auto.
          destruct (Z_le_gt_dec (Z.max cursor r.2) a') as [|Hgt]; [done|]. exfalso.
          assert (a' + bytes <= r.1) as Hle.
          { apply idisj_nonempty in Hdr; simpl in *; lia. }
          specialize (Hf a' Hda Hca). lia.
        - intros (Hca & ? & Hda & ? & ?). split_and!; auto; [lia|].
          intros x. unfold in_ival; simpl. lia. }
      destruct o; [split; [apply Hequiv, Ho|]|]; intros a' Ha'; apply Hequiv in Ha'; by apply Ho in Ha'.
Qed.

Lemma first_fit_scan_answer regions :
  StronglySorted ival_le regions -> Forall (region_ok capacity) regions ->
  exists o, first_fit_scan capacity bytes (2 ^ k) 0 regions = Ok o /\
            first_fit_answer (2 ^ k) capacity bytes regions o.
Proof.
  intros Hs Hok. destruct (first_fit_scan_from regions 0 ltac:(lia) Hs Hok) as (o & -> & Ho).
  exists o. split; [done|]. unfold from_cursor, first_fit_answer, least_placement in *.
  destruct o as [a|].
  - destruct Ho as [[? ?] Hl]. split; [done|]. intros a' Ha'. apply Hl. split; [apply Ha'|done].
  - intros a' Ha'. apply (Ho a'). split; [apply Ha'|done].
Qed.

(** [arena_first_fit] finds the lowest placement among any well-formed set of
    regions, and reports a failure only when there is none. *)
Lemma arena_first_fit_answer occupied :
  Forall (region_ok capacity) occupied ->
  exists o, arena_first_fit occupied capacity bytes (2 ^ k) = Ok o /\
            first_fit_answer (2 ^ k) capacity bytes occupied o.
Proof.
  intros Hok. destruct (first_fit_scan_answer (sort_ivals occupied)) as (o & Hs & Ho).
  - apply sort_ivals_sorted.
  - by rewrite sort_ivals_perm.
  - exists o. split; [done|]. by rewrite first_fit_answer_perm in Ho by apply sort_ivals_perm.
Qed.
End scan.

(** ** The gap index *)

Definition before_gap (i j : ival) : Prop := i.2 < j.1.

(** Ordered, non-empty gaps with at least one occupied byte in between. *)
Definition separated (l : list ival) : Prop :=
  StronglySorted before_gap l /\ Forall (fun i => 0 <= i.1 < i.2 /\ i.2 <= UINT64_MAX) l.

Definition fits (bytes : Z) (gap : ival) : Prop := is_Some (aligned_fit 64 bytes gap.1 gap.2).

#[export] Instance fits_dec bytes gap : Decision (fits bytes gap).
Proof. unfold fits. apply _. Defined.

Definition fit_starts (bytes : Z) (l : list ival) : list Z := fst <$> filter (fits bytes) l.

(** The invariant of the index: [gaps] are the maximal free spans and
    [fitting] their starts that hold the request. *)
Definition gap_wf (bytes : Z) (g : gap_index) : Prop :=
  separated (gaps g) /\ fitting g = fit_starts bytes (gaps g).

Lemma separated_cons i l :
  separated (i :: l) <->
  (0 <= i.1 < i.2 /\ i.2 <= UINT64_MAX) /\ separated l /\ Forall (before_gap i) l.
Proof.
  unfold separated. rewrite Forall_cons. split.
  - intros [Hs [Hi Hf]]. inversion Hs; subst. auto.
  - intros (? & [? ?] & ?). split; [by constructor|auto].
Qed.

Lemma separated_app l1 l2 :
  separated (l1 ++ l2) <->
  separated l1 /\ separated l2 /\ (forall i j, i ∈ l1 -> j ∈ l2 -> i.2 < j.1).
Proof.
  induction l1 as [|i l1 IH]; simpl.
  - split; [|naive_solver]. intros ?. split_and!; [repeat constructor|done|set_solver].
  - rewrite !separated_cons, IH, Forall_app, !Forall_forall. unfold before_gap.
    setoid_rewrite elem_of_cons. naive_solver.
Qed.

Lemma separated_split (start : Z) l :
  separated l ->
  l = filter (fun gap : ival => gap.1 < start) l ++ filter (fun gap : ival => ~ gap.1 < start) l.
Proof.
  induction l as [|i l IH]; [done|]. intros (Hi & Hl & Hb)%separated_cons. rewrite !filter_cons.
  destruct (decide (i.1 < start)) as [Hlt|Hge].
  - rewrite decide_False by tauto. simpl. f_equal. by apply IH.
  - rewrite decide_True by done.
    assert (filter (fun gap : ival => gap.1 < start) l = []) as Hnil.
    { apply elem_of_nil_inv. intros j [? Hj]%list_elem_of_filter.
      eapply Forall_forall in Hb; [|exact Hj]. unfold before_gap in Hb. lia. }
    rewrite Hnil. simpl. f_equal. rewrite (IH Hl) at 1. by rewrite Hnil.
Qed.

Lemma absorb_gaps_spec limit next erased start :
  separated next -> start < limit -> limit <= UINT64_MAX ->
  Forall (fun i : ival => start <= i.1) next ->
  exists absorbed rest limit',
    absorb_gaps limit next erased = (limit', rev (fst <$> absorbed) ++ erased, rest) /\
    next = absorbed ++ rest /\ limit <= limit' <= UINT64_MAX /\
    (forall x, start <= x < limit' <-> start <= x < limit \/ covered absorbed x) /\
    Forall (fun i : ival => limit' < i.1) rest.
Proof.
  revert limit erased. induction next as [|i next IH]; intros limit erased Hsep Hlt Hmax Hge.
  - exists [], [], limit. split_and!; try done; try lia.
    intros x. split; [by left|]. intros [?|Hc]; [done|by apply covered_nil in Hc].
  - apply separated_cons in Hsep as ([Hi1 Hi2] & Hsep & Hb). apply Forall_cons in Hge as [Hgi Hge].
    simpl. destruct (Z.leb_spec i.1 limit) as [Hle|Hgt].
    + destruct (IH (Z.max limit i.2) (i.1 :: erased)) as (ab & rest & l' & -> & -> & Hl' & Hc & Hrest);
        [done|lia..|done|].
      exists (i :: ab), rest, l'. split_and!; try done; try lia.
      * simpl. by rewrite <- (assoc_L (++)).
      * intros x. rewrite Hc, covered_cons. unfold in_ival.
        assert (start <= x < Z.max limit i.2 <-> start <= x < limit \/ i.1 <= x < i.2) by lia. tauto.
    + exists [], (i :: next), limit. split_and!; try done; try lia.
      * intros x. split; [by left|]. intros [?|Hc]; [done|by apply covered_nil in Hc].
      * constructor; [done|]. eapply Forall_impl; [exact Hb|]. unfold before_gap. intros j Hj. lia.
Qed.

(** What [insert_gap] does to the map: the gaps met by [start, limit) give
    way to one gap that covers them. *)
Record gap_insertion (start limit : Z) (l : list ival)
    (before erased rest : list ival) (start' limit' : Z) : Prop := {
  gi_split : l = before ++ erased ++ rest;
  gi_bounds : 0 <= start' < limit' /\ limit' <= UINT64_MAX;
  gi_sep : separated (before ++ (start', limit') :: rest);
  gi_cover : forall x, start' <= x < limit' <-> start <= x < limit \/ covered erased x;
}.

Lemma fit_starts_app bytes l1 l2 : fit_starts bytes (l1 ++ l2) = fit_starts bytes l1 ++ fit_starts bytes l2.
Proof. unfold fit_starts. by rewrite filter_app, fmap_app. Qed.

Lemma fit_starts_cons bytes i l :
  fit_starts bytes (i :: l) = if decide (fits bytes i) then i.1 :: fit_starts bytes l else fit_starts bytes l.
Proof. unfold fit_starts. rewrite filter_cons. by case_decide. Qed.

Lemma elem_of_fit_starts bytes l s : s ∈ fit_starts bytes l -> exists i, i ∈ l /\ i.1 = s.
Proof. unfold fit_starts. intros (i & -> & [_ ?]%list_elem_of_filter)%list_elem_of_fmap. eauto. Qed.

Lemma set_insert_mid x l1 l2 :
  Forall (fun y => y < x) l1 -> Forall (fun y => x < y) l2 ->
  set_insert x (l1 ++ l2) = l1 ++ x :: l2.
Proof.
  induction 1 as [|y l1 Hy _ IH]; intros H2; simpl.
  - destruct H2 as [|y l2 Hy _]; [done|]. simpl. by rewrite (proj2 (Z.ltb_lt _ _) Hy).
  - rewrite (proj2 (Z.ltb_ge _ _)), (proj2 (Z.eqb_neq _ _)) by lia. f_equal. by apply IH.
Qed.

Lemma filter_true {A} (P : A -> Prop) `{!forall x, Decision (P x)} (l : list A) :
  (forall x, P x) -> filter P l = l.
Proof. intros HP. apply filter_all, Forall_true, HP. Qed.

Lemma set_erase_all l erased :
  fold_right set_erase l erased = filter (fun y => y ∉ erased) l.
Proof.
  induction erased as [|x erased IH]; simpl.
  - by rewrite filter_true by set_solver.
  - rewrite IH. unfold set_erase. rewrite list_filter_filter. apply list_filter_iff. set_solver.
Qed.

(** The absorption step of [insert_gap], after the preceding gap was merged
    ([extra]) or left alone. *)
Lemma absorb_insertion start limit l before0 extra next start0 limit0 limit' erased rest :
  separated l -> l = before0 ++ extra ++ next ->
  0 <= start0 < limit0 -> limit0 <= UINT64_MAX ->
  (forall i, i ∈ before0 -> i.2 < start0) ->
  Forall (fun i : ival => start0 <= i.1) next ->
  (forall x, start0 <= x < limit0 <-> start <= x < limit \/ covered extra x) ->
  absorb_gaps limit0 next [] = (limit', erased, rest) ->
  exists gone, gap_insertion start limit l before0 gone rest start0 limit' /\
    (forall y, y ∈ (fst <$> gone) <-> y ∈ (fst <$> extra) \/ y ∈ erased).
Proof.
  intros Hsep -> Hlt Hmax Hbefore Hnext Hcov Habs.
  apply separated_app in Hsep as (Hsb & Hsen & Hben). apply separated_app in Hsen as (Hse & Hsn & Hen).
  destruct (absorb_gaps_spec limit0 next [] start0) as (ab & rest' & l' & Habs' & -> & Hl' & Hc & Hrest);
    [done|lia..|done|].
  rewrite Habs in Habs'. simplify_eq. exists (extra ++ ab). split.
  - apply separated_app in Hsn as (Hsa & Hsr & Har). split.
    + by rewrite <- (assoc_L (++)).
    + lia.
    + rewrite separated_app, separated_cons. split_and!; try done; simpl; try lia.
      intros i j Hi [->|Hj]%elem_of_cons; simpl; [by apply Hbefore|].
      apply Hben; [done|]. set_solver.
    + intros x. rewrite Hc, Hcov, covered_app. tauto.
  - intros y. rewrite fmap_app, app_nil_r, elem_of_app.
    rewrite (elem_of_Permutation_proper y (rev (fst <$> ab)) (fst <$> ab)); [done|].
    symmetry. apply Permutation_rev.
Qed.

Lemma insert_gap_insertion bytes g start limit :
  separated (gaps g) -> 0 <= start < limit -> limit <= UINT64_MAX ->
  exists before gone rest start' limit',
    gap_insertion start limit (gaps g) before gone rest start' limit' /\
    insert_gap bytes g start limit =
      let fit := filter (fun y => y ∉ (fst <$> gone)) (fitting g) in
      mk_gaps (before ++ (start', limit') :: rest)
        (if decide (fits bytes (start', limit')) then set_insert start' fit else fit).
Proof.
  intros Hsep Hlt Hmax. unfold insert_gap.
  rewrite Z.geb_leb, (proj2 (Z.leb_gt limit start)) by lia.
  pose proof (separated_split start (gaps g) Hsep) as Hsplit.
  set (before := filter (fun gap : ival => gap.1 < start) (gaps g)) in *.
  set (next := filter (fun gap : ival => ~ gap.1 < start) (gaps g)) in *.
  assert (Hnext : Forall (fun i : ival => start <= i.1) next)
    by (apply Forall_forall; intros i [? _]%list_elem_of_filter; lia).
  assert (Hbefore : forall i, i ∈ before -> i.1 < start)
    by (intros i [? _]%list_elem_of_filter; done).
  clearbody before next.
  assert (Hfin : forall before0 extra start0 limit0 fit0,
    before = before0 ++ extra -> 0 <= start0 < limit0 -> limit0 <= UINT64_MAX ->
    (forall i, i ∈ before0 -> i.2 < start0) -> start0 <= start ->
    (forall x, start0 <= x < limit0 <-> start <= x < limit \/ covered extra x) ->
    fit0 = filter (fun y => y ∉ (fst <$> extra)) (fitting g) ->
    exists before' gone rest start' limit',
      gap_insertion start limit (gaps g) before' gone rest start' limit' /\
      (let '(limit1, erased, next1) := absorb_gaps limit0 next [] in
       let fit := fold_right set_erase fit0 erased in
       mk_gaps (before0 ++ (start0, limit1) :: next1)
         match aligned_fit 64 bytes start0 limit1 with
         | Some _ => set_insert start0 fit | None => fit end) =
      let fit := filter (fun y => y ∉ (fst <$> gone)) (fitting g) in
      mk_gaps (before' ++ (start', limit') :: rest)
        (if decide (fits bytes (start', limit')) then set_insert start' fit else fit)).
  { intros before0 extra start0 limit0 fit0 -> ? ? ? ? Hcov ->.
    destruct (absorb_gaps limit0 next []) as [[limit1 erased] next1] eqn:Eab.
    rewrite <- (assoc_L (++)) in Hsplit.
    edestruct (absorb_insertion start limit (gaps g) before0 extra next start0 limit0)
      as (gone & Hgi & Hel); eauto.
    { eapply Forall_impl; [exact Hnext|]. simpl. intros; lia. }
    exists before0, gone, next1, start0, limit1. split; [done|]. cbn zeta.
    rewrite set_erase_all, list_filter_filter.
    rewrite (list_filter_iff _ (fun y => y ∉ (fst <$> gone))) by (intros y; rewrite Hel; tauto).
    f_equal. case_decide as Hd; unfold fits in Hd; simpl in Hd.
    - by destruct Hd as [y ->].
    - apply eq_None_not_Some in Hd. by rewrite Hd. }
  destruct (last before) as [prev|] eqn:El.
  - apply last_Some in El as [before0 Eb]. rewrite Z.geb_leb.
    rewrite Hsplit, Eb in Hsep. apply separated_app in Hsep as (Hsb & _ & _).
    apply separated_app in Hsb as (_ & Hsp & Hbp). apply separated_cons in Hsp as (Hp & _ & _).
    assert (prev ∈ [prev]) by set_solver.
    destruct (Z.leb_spec start prev.2) as [Hle|Hgt].
    + rewrite Eb, removelast_last. apply Hfin with (extra := [prev]); try done; try lia.
      * intros i Hi. by apply Hbp.
      * assert (prev.1 < start) by (apply Hbefore; set_solver). lia.
      * intros x. rewrite covered_cons. unfold in_ival. pose proof (covered_nil x).
        assert (prev.1 < start) by (apply Hbefore; set_solver).
        assert (prev.1 <= x < Z.max limit prev.2 <-> start <= x < limit \/ prev.1 <= x < prev.2) by lia. tauto.
      * unfold set_erase. apply list_filter_iff. set_solver.
    + apply Hfin with (extra := []); try done; try lia.
      * by rewrite app_nil_r.
      * rewrite Eb. intros i [Hi|Hi]%elem_of_app; [|set_solver]. specialize (Hbp i prev Hi ltac:(done)). lia.
      * intros x. pose proof (covered_nil x). tauto.
      * by rewrite filter_true by set_solver.
  - apply last_None in El as ->. apply Hfin with (extra := []); try done; try lia.
    + intros i Hi. set_solver.
    + intros x. pose proof (covered_nil x). tauto.
    + by rewrite filter_true by set_solver.
Qed.

Lemma fit_starts_filter bytes l (gone : list Z) :
  (forall i, i ∈ l -> i.1 ∉ gone) ->
  filter (fun y => y ∉ gone) (fit_starts bytes l) = fit_starts bytes l.
Proof.
  intros H. unfold fit_starts. induction l as [|i l IH]; [done|].
  assert (IH' := IH ltac:(intros; apply H; by right)).
  rewrite filter_cons. case_decide; [|done]. rewrite fmap_cons, filter_cons, decide_True, IH'; [done|].
  apply H. by left.
Qed.

Lemma fit_starts_gone bytes l :
  filter (fun y => y ∉ (fst <$> l)) (fit_starts bytes l) = [].
Proof.
  apply elem_of_nil_inv. intros y [Hn Hy]%list_elem_of_filter.
  apply elem_of_fit_starts in Hy as (i & Hi & <-). apply Hn. by apply list_elem_of_fmap_2.
Qed.

Lemma insert_gap_wf bytes g start limit :
  gap_wf bytes g -> 0 <= start -> limit <= UINT64_MAX ->
  gap_wf bytes (insert_gap bytes g start limit) /\
  forall x, covered (gaps (insert_gap bytes g start limit)) x <->
            covered (gaps g) x \/ start <= x < limit.
Proof.
  intros [Hsep Hfit] H0 Hmax. destruct (Z_lt_le_dec start limit) as [Hlt|Hge]; cycle 1.
  { unfold insert_gap. rewrite Z.geb_leb, (proj2 (Z.leb_le limit start)) by lia.
    split; [done|]. intros x. split; [tauto|]. intros [?|?]; [done|lia]. }
  destruct (insert_gap_insertion bytes g start limit Hsep) as
    (before & gone & rest & s' & l' & [Hsplit Hb Hsep' Hcov] & ->); [lia..|].
  cbn zeta. split; [|intros x; simpl].
  - split; [done|]. simpl. rewrite Hfit, Hsplit.
    pose proof Hsep as Hsep0. rewrite Hsplit in Hsep0.
    apply separated_app in Hsep0 as (Hs1 & Hs23 & Hs123). apply separated_app in Hs23 as (Hs2 & Hs3 & Hs23).
    assert (Hpos : forall l i, separated l -> i ∈ l -> i.1 < i.2).
    { intros l i [_ Hf] Hi. rewrite Forall_forall in Hf. apply Hf in Hi. lia. }
    rewrite !fit_starts_app, !filter_app, fit_starts_gone, !fit_starts_filter.
    + apply separated_app in Hsep' as (_ & Hc3 & Hc13). apply separated_cons in Hc3 as (_ & _ & Hc3).
      rewrite fit_starts_cons. case_decide as Hd; simpl; [|done].
      apply set_insert_mid.
      * apply Forall_forall. intros y (i & Hi & <-)%elem_of_fit_starts.
        specialize (Hc13 i (s', l') Hi ltac:(by left)). pose proof (Hpos _ _ Hs1 Hi). simpl in *. lia.
      * apply Forall_forall. intros y (i & Hi & <-)%elem_of_fit_starts.
        rewrite Forall_forall in Hc3. specialize (Hc3 i Hi). unfold before_gap in Hc3. simpl in *. lia.
    + intros i Hi (j & Hij & Hj)%list_elem_of_fmap. specialize (Hs23 j i Hj Hi). pose proof (Hpos _ _ Hs2 Hj). lia.
    + intros i Hi (j & Hij & Hj)%list_elem_of_fmap.
      specialize (Hs123 i j Hi ltac:(set_solver)). pose proof (Hpos _ _ Hs1 Hi). lia.
  - rewrite Hsplit, !covered_app, covered_cons. specialize (Hcov x). unfold in_ival. simpl. tauto.
Qed.

Lemma separated_apart l i j :
  separated l -> i ∈ l -> j ∈ l -> i = j \/ i.2 < j.1 \/ j.2 < i.1.
Proof.
  induction l as [|h l IH]; intros Hs Hi Hj; [set_solver|].
  apply separated_cons in Hs as (_ & Hs & Hb). rewrite Forall_forall in Hb. unfold before_gap in Hb.
  apply elem_of_cons in Hi as [->|Hi]; apply elem_of_cons in Hj as [->|Hj]; auto.
Qed.

(** A contiguous free run lies inside one gap. *)
Lemma separated_run l a n :
  separated l -> 0 < n -> (forall x, a <= x < a + n -> covered l x) ->
  exists i, i ∈ l /\ i.1 <= a /\ a + n <= i.2.
Proof.
  intros Hs Hn Hc.
  specialize (Hc a ltac:(lia)) as Ha. apply Exists_exists in Ha as (i & Hi & Hin).
  exists i. unfold in_ival in Hin. split_and!; [done|lia|].
  destruct (Z_le_gt_dec (a + n) i.2) as [|Hgt]; [done|]. exfalso.
  specialize (Hc i.2 ltac:(lia)). apply Exists_exists in Hc as (j & Hj & Hjn). unfold in_ival in Hjn.
  destruct (separated_apart l i j Hs Hi Hj) as [->|[?|?]]; lia.
Qed.

Lemma fits_iff bytes i :
  0 < bytes -> 0 <= i.1 -> i.2 <= UINT64_MAX ->
  fits bytes i <-> exists a, (64 | a) /\ i.1 <= a /\ a + bytes <= i.2.
Proof.
  intros Hb H0 H1. unfold fits. pose proof (aligned_fit_spec 6 bytes i.1 i.2) as Hs. 
  change (2 ^ 6) with 64 in Hs. destruct (aligned_fit 64 bytes i.1 i.2) as [a|].
  - destruct Hs as (? & ? & ? & _); [lia..|]. split; [eauto|by eexists].
  - split; [by intros [? ?]|]. intros (a & Ha & ? & ?). specialize (Hs ltac:(lia) H0 H1 ltac:(lia) a Ha). lia.
Qed.

(** The lowest fitting gap holds the lowest placement in the free addresses. *)
Lemma first_fit_free bytes g :
  0 < bytes -> gap_wf bytes g ->
  match first_fit bytes g with
  | Some a => (64 | a) /\ (forall x, a <= x < a + bytes -> covered (gaps g) x) /\
      forall a', (64 | a') -> (forall x, a' <= x < a' + bytes -> covered (gaps g) x) -> a <= a'
  | None => forall a', (64 | a') -> ~ (forall x, a' <= x < a' + bytes -> covered (gaps g) x)
  end.
Proof.
  intros Hb [Hsep Hfit]. unfold first_fit. rewrite Hfit.
  assert (Hrange : forall i, i ∈ gaps g -> 0 <= i.1 < i.2 /\ i.2 <= UINT64_MAX).
  { destruct Hsep as [_ Hf]. by rewrite Forall_forall in Hf. }
  assert (Hgap : forall a', (64 | a') -> (forall x, a' <= x < a' + bytes -> covered (gaps g) x) ->
            exists i, i ∈ gaps g /\ fits bytes i /\ i.1 <= a' /\ a' + bytes <= i.2).
  { intros a' Ha' Hc. destruct (separated_run _ _ _ Hsep Hb Hc) as (i & Hi & ? & ?).
    exists i. specialize (Hrange i Hi). split_and!; try done. apply fits_iff; [lia..|]. eauto. }
  destruct (filter (fits bytes) (gaps g)) as [|gap fl] eqn:Ef; unfold fit_starts; rewrite Ef; simpl.
  - intros a' Ha' Hc. destruct (Hgap a' Ha' Hc) as (i & Hi & Hfi & _).
    assert (i ∈ filter (fits bytes) (gaps g)) as Hin by (apply list_elem_of_filter; done).
    rewrite Ef in Hin. set_solver.
  - assert (Hg : fits bytes gap /\ gap ∈ gaps g) by (rewrite <- list_elem_of_filter, Ef; by left).
    destruct Hg as [Hfg Hg]. specialize (Hrange gap Hg) as Hgr.
    destruct (list_find (fun i : ival => i.1 = gap.1) (gaps g)) as [[n gap']|] eqn:Elf; cycle 1.
    { apply list_find_None in Elf. rewrite Forall_forall in Elf. exfalso. by eapply Elf. }
    apply list_find_Some in Elf as (Hn & He & _). apply list_elem_of_lookup_2 in Hn.
    assert (gap' = gap) as ->.
    { destruct (separated_apart _ gap gap' Hsep Hg Hn) as [->|[?|?]]; [done|..]; specialize (Hrange gap' Hn); lia. }
    pose proof (aligned_fit_spec 6 bytes gap.1 gap.2 ltac:(lia) ltac:(lia) ltac:(lia) ltac:(lia)) as Hs.
    change (2 ^ 6) with 64 in Hs. unfold fits in Hfg.
    destruct (aligned_fit 64 bytes gap.1 gap.2) as [a|]; [|by destruct Hfg].
    destruct Hs as (Ha & Hlo & Hhi & Hleast). split_and!; [done| |].
    + intros x Hx. apply Exists_exists. exists gap. unfold in_ival. split; [done|lia].
    + intros a' Ha' Hc. destruct (Hgap a' Ha' Hc) as (i & Hi & Hfi & Hi1 & Hi2).
      destruct (separated_apart _ gap i Hsep Hg Hi) as [->|[?|?]]; [by apply Hleast|lia|].
      exfalso. assert (Hord : StronglySorted before_gap (filter (fits bytes) (gaps g))).
      { by apply StronglySorted_filter, Hsep. }
      assert (i ∈ gap :: fl) as Hin by (rewrite <- Ef; apply list_elem_of_filter; done).
      rewrite Ef in Hord. apply StronglySorted_inv in Hord as [_ Hord].
      apply elem_of_cons in Hin as [->|Hin]; [lia|]. rewrite Forall_forall in Hord.
      specialize (Hord i Hin). unfold before_gap in Hord. specialize (Hrange i Hi). lia.
Qed.

(** ** Building and freeing spans *)

Definition starts_le (i j : ival) : Prop := i.1 <= j.1.

Lemma ival_le_starts l : StronglySorted ival_le l -> StronglySorted starts_le l.
Proof.
  induction 1 as [|i l Hl IH Hi]; constructor; [done|].
  eapply Forall_impl; [exact Hi|]. unfold ival_le, starts_le. intros; lia.
Qed.

Lemma not_covered_before l x : Forall (fun i : ival => x < i.1) l -> ~ covered l x.
Proof.
  intros Hl (i & Hi & Hin)%Exists_exists. rewrite Forall_forall in Hl. specialize (Hl i Hi).
  unfold in_ival in Hin. lia.
Qed.

Lemma build_gaps_wf capacity bytes occupied cursor g :
  0 <= cursor -> capacity <= UINT64_MAX ->
  StronglySorted starts_le occupied -> Forall (region_ok capacity) occupied -> gap_wf bytes g ->
  exists g', build_gaps capacity bytes cursor occupied g = Ok g' /\ gap_wf bytes g' /\
    forall x, covered (gaps g') x <->
      covered (gaps g) x \/ (cursor <= x < capacity /\ ~ covered occupied x).
Proof.
  intros Hc Hcap Hs. revert cursor g Hc. induction Hs as [|r l Hs IH Hr]; intros cursor g Hc Hok Hg; simpl.
  - destruct (insert_gap_wf bytes g cursor capacity Hg Hc Hcap) as [Hw Hcv].
    eexists. split_and!; [done..|]. intros x. rewrite Hcv. pose proof (covered_nil x). tauto.
  - apply Forall_cons in Hok as [Hr0 Hok]. rewrite (region_test_false _ _ Hr0).
    destruct Hr0 as [[? ?] ?]. rewrite Z.gtb_ltb.
    assert (Hlater : forall x, x < r.1 -> ~ covered l x).
    { intros x Hx. apply not_covered_before. eapply Forall_impl; [exact Hr|]. unfold starts_le. intros; lia. }
    destruct (Z.ltb_spec cursor r.1) as [Hlt|Hge].
    + destruct (insert_gap_wf bytes g cursor r.1 Hg Hc ltac:(lia)) as [Hw Hcv].
      destruct (IH (Z.max cursor r.2) _ ltac:(lia) Hok Hw) as (g' & Hb & Hw' & Hcv').
      exists g'. split_and!; [done..|]. intros x. rewrite Hcv', Hcv, covered_cons. unfold in_ival.
      destruct (decide (x < r.1)) as [Hx|Hx]; [specialize (Hlater x Hx)|];
        destruct (decide (x < r.2)); intuition lia.
    + destruct (IH (Z.max cursor r.2) g ltac:(lia) Hok Hg) as (g' & Hb & Hw' & Hcv').
      exists g'. split_and!; [done..|]. intros x. rewrite Hcv', covered_cons. unfold in_ival.
      destruct (decide (x < r.2)); intuition lia.
Qed.

Lemma merge_blocked_spec regions acc :
  StronglySorted starts_le regions -> StronglySorted (flip starts_le) acc ->
  Forall (fun i => Forall (starts_le i) regions) acc ->
  StronglySorted starts_le (merge_blocked regions acc) /\
  forall x, covered (merge_blocked regions acc) x <-> covered acc x \/ covered regions x.
Proof.
  intros Hs. revert acc. induction Hs as [|r l Hs IH Hr]; intros acc Hacc Har; simpl.
  - split; [by apply StronglySorted_rev|]. intros x. rewrite (covered_perm (rev acc) acc)
      by (symmetry; apply Permutation_rev). pose proof (covered_nil x). tauto.
  - assert (Hsub : forall i, Forall (starts_le i) (r :: l) -> Forall (starts_le i) l) by (intros i; inversion 1; auto).
    destruct acc as [|b acc].
    + destruct (IH [r]) as [H1 H2]; [repeat constructor..|by repeat constructor|].
      split; [done|]. intros x. rewrite H2, !covered_cons. pose proof (covered_nil x). tauto.
    + apply Forall_cons in Har as [Hbr Har]. inversion Hacc as [|? ? Hacc' Hb]; subst.
      destruct (Z.leb_spec r.1 b.2) as [Hle|Hgt].
      * destruct (IH ((b.1, Z.max b.2 r.2) :: acc)) as [H1 H2].
        { constructor; [done|]. by eapply Forall_impl. }
        { constructor; [by apply Hsub|]. eapply Forall_impl; [exact Har|done]. }
        split; [done|]. intros x. rewrite H2, !covered_cons. unfold in_ival; simpl.
        apply Forall_cons in Hbr as [Hb0 _]. unfold starts_le in Hb0.
        assert (b.1 <= x < Z.max b.2 r.2 <-> b.1 <= x < b.2 \/ r.1 <= x < r.2) by lia. tauto.
      * destruct (IH (r :: b :: acc)) as [H1 H2].
        { constructor; [done|]. constructor; [by apply Forall_cons in Hbr as [? _]|].
          eapply Forall_impl; [exact Har|]. intros i Hi. by apply Forall_cons in Hi as [? _]. }
        { constructor; [done|]. constructor; [by apply Hsub|]. eapply Forall_impl; [exact Har|done]. }
        split; [done|]. intros x. rewrite H2, !covered_cons. tauto.
Qed.

Lemma free_victim_wf bytes start limit blocked g :
  0 <= start -> limit <= UINT64_MAX -> StronglySorted starts_le blocked -> gap_wf bytes g ->
  gap_wf bytes (free_victim bytes start limit blocked g) /\
  forall x, covered (gaps (free_victim bytes start limit blocked g)) x <->
    covered (gaps g) x \/ (start <= x < limit /\ ~ covered blocked x).
Proof.
  intros H0 Hl Hs. revert start g H0. induction Hs as [|r l Hs IH Hr]; intros start g H0 Hg; simpl.
  - destruct (Z.ltb_spec start limit).
    + destruct (insert_gap_wf bytes g start limit Hg H0 Hl) as [Hw Hc]. split; [done|].
      intros x. rewrite Hc. pose proof (covered_nil x). tauto.
    + split; [done|]. intros x. intuition lia.
  - assert (Hlater : forall x, x < r.1 -> ~ covered l x).
    { intros x Hx. apply not_covered_before. eapply Forall_impl; [exact Hr|]. unfold starts_le. intros; lia. }
    destruct (Z.leb_spec r.2 start).
    { destruct (IH start g H0 Hg) as [Hw Hc]. split; [done|]. intros x. rewrite Hc, covered_cons.
      unfold in_ival. intuition lia. }
    rewrite Z.geb_leb. destruct (Z.leb_spec limit r.1).
    { assert (Hnc : forall x, start <= x < limit -> ~ covered (r :: l) x).
      { intros x Hx. rewrite covered_cons. unfold in_ival. intros [?|?]; [lia|]. by apply (Hlater x); [lia|]. }
      destruct (Z.ltb_spec start limit).
      - destruct (insert_gap_wf bytes g start limit Hg H0 Hl) as [Hw Hc]. split; [done|].
        intros x. rewrite Hc. specialize (Hnc x). tauto.
      - split; [done|]. intros x. intuition lia. }
    set (g1 := if start <? r.1 then insert_gap bytes g start (Z.min limit r.1) else g).
    assert (Hg1 : gap_wf bytes g1 /\ forall x, covered (gaps g1) x <->
              covered (gaps g) x \/ start <= x < r.1).
    { unfold g1. destruct (Z.ltb_spec start r.1); [|split; [done|intros x; intuition lia]].
      rewrite Z.min_r by lia. apply insert_gap_wf; auto; lia. }
    clearbody g1. destruct Hg1 as [Hw1 Hc1].
    assert (Hsplit : forall x, (start <= x < limit /\ ~ covered (r :: l) x) <->
              start <= x < r.1 \/ (Z.max start r.2 <= x < limit /\ ~ covered l x)).
    { intros x. rewrite covered_cons. unfold in_ival.
      destruct (decide (x < r.1)) as [Hx|Hx]; [specialize (Hlater x Hx)|]; intuition lia. }
    rewrite Z.geb_leb. destruct (Z.leb_spec limit (Z.max start r.2)).
    + split; [done|]. intros x. rewrite Hc1, Hsplit. intuition lia.
    + destruct (IH (Z.max start r.2) g1 ltac:(lia) Hw1) as [Hw Hc]. split; [done|].
      intros x. rewrite Hc, Hc1, Hsplit. tauto.
Qed.

(** ** Well-formed planner inputs *)

Definition resident_ok (capacity : Z) (r : resident) : Prop :=
  0 <= r_offset r /\ 0 < r_bytes r /\ r_offset r + r_bytes r <= capacity.

Definition reservation_ok (capacity : Z) (v : reservation) : Prop :=
  0 <= v_offset v /\ 0 < v_bytes v /\ v_offset v + v_bytes v <= capacity.

Definition resident_before (r r' : resident) : Prop := r_offset r + r_bytes r <= r_offset r'.

(** The arena state the planner may rely on: ordered disjoint residents inside
    the arena, listed once more in retention order, and in-range fills.
    [resident_bytes] counts at most the indexed residents. *)
Record plan_wf (capacity resident_bytes : Z) (by_offset by_recency : list resident)
    (pending : list reservation) : Prop := {
  pw_capacity : 0 < capacity <= UINT64_MAX;
  pw_residents : Forall (resident_ok capacity) by_offset;
  pw_sorted : StronglySorted resident_before by_offset;
  pw_recency : by_recency ≡ₚ by_offset;
  pw_pending : Forall (reservation_ok capacity) pending;
  pw_bytes : resident_bytes <= zsum (r_bytes <$> by_offset);
}.

Definition remaining (victims by_offset : list resident) : list resident :=
  filter (fun r => r ∉ victims) by_offset.

Definition eligible (own : option positive) (by_recency : list resident) : list resident :=
  filter (fun r => evictable own r = true) by_recency.

(** Addresses a new entry may not touch once [victims] are gone. *)
Definition blockers (victims by_offset : list resident) (reservations : list ival) : list ival :=
  (r_span <$> remaining victims by_offset) ++ reservations.

(** The planner's contract: the shortest prefix of the eligible residents, in
    retention order, whose removal admits the request, with the lowest aligned
    address; no answer only when evicting all of them would not help. *)
Definition plan_answer (capacity bytes : Z) (by_offset : list resident) (reservations : list ival)
    (candidates : list resident) (o : option (Z * list resident)) : Prop :=
  match o with
  | Some (offset, victims) =>
      exists n, victims = take n candidates /\ (n <= length candidates)%nat /\
        least_placement 64 capacity bytes (blockers victims by_offset reservations) offset /\
        forall m a, (m < n)%nat ->
          ~ placement 64 capacity bytes (blockers (take m candidates) by_offset reservations) a
  | None => forall a, ~ placement 64 capacity bytes (blockers candidates by_offset reservations) a
  end.

Section plan.
Context (capacity resident_bytes bytes : Z) (by_offset by_recency : list resident)
  (pending : list reservation) (own : option positive).
Context (Hwf : plan_wf capacity resident_bytes by_offset by_recency pending) (Hbytes : 0 < bytes).

Let reservations := other_reservations own pending.

Lemma r_span_ok r : r ∈ by_offset -> r_span r = (r_offset r, r_offset r + r_bytes r) /\ resident_ok capacity r.
Proof.
  intros Hr. pose proof (pw_residents _ _ _ _ _ Hwf) as Hok. rewrite Forall_forall in Hok.
  specialize (Hok r Hr). pose proof (pw_capacity _ _ _ _ _ Hwf). split; [|done].
  unfold r_span. rewrite wrap64_small; [done|]. unfold u64. destruct Hok. lia.
Qed.

Lemma reservations_ok : Forall (region_ok capacity) reservations.
Proof.
  apply Forall_fmap, Forall_forall. intros v [_ Hv]%list_elem_of_filter.
  pose proof (pw_pending _ _ _ _ _ Hwf) as Hok. rewrite Forall_forall in Hok. specialize (Hok v Hv).
  pose proof (pw_capacity _ _ _ _ _ Hwf). unfold reservation_ok in Hok. unfold region_ok, v_span; simpl.
  rewrite wrap64_small; unfold u64; lia.
Qed.

Lemma spans_ok l : (forall r, r ∈ l -> r ∈ by_offset) -> Forall (region_ok capacity) (r_span <$> l).
Proof.
  intros Hl. apply Forall_fmap, Forall_forall. intros r Hr. destruct (r_span_ok r (Hl r Hr)) as [Hs Hok].
  unfold resident_ok in Hok. change (region_ok capacity (r_span r)). rewrite Hs. unfold region_ok. simpl. lia.
Qed.

Lemma occupied_ok : Forall (region_ok capacity) (sort_ivals ((r_span <$> by_offset) ++ reservations)).
Proof. rewrite sort_ivals_perm. apply Forall_app. split; [by apply spans_ok|apply reservations_ok]. Qed.

Lemma residents_apart r r' : r ∈ by_offset -> r' ∈ by_offset -> r <> r' -> idisj (r_span r) (r_span r').
Proof.
  intros Hr Hr' Hne. destruct (r_span_ok r Hr) as [-> _]. destruct (r_span_ok r' Hr') as [-> _].
  assert (Hor : resident_before r r' \/ resident_before r' r).
  { pose proof (pw_sorted _ _ _ _ _ Hwf) as Hs. revert Hr Hr'. clear -Hs Hne.
    induction Hs as [|h l Hs IH Hh]; [set_solver|]. rewrite Forall_forall in Hh.
    intros [->|Hr]%elem_of_cons [->|Hr']%elem_of_cons; auto; done. }
  unfold idisj, in_ival, resident_before in *. simpl. intros x. lia.
Qed.

(** With a positive size, a placement is an aligned run of free addresses. *)
Lemma placement_free l a :
  placement 64 capacity bytes l a <->
  (64 | a) /\ forall x, a <= x < a + bytes -> 0 <= x < capacity /\ ~ covered l x.
Proof.
  rewrite placement_covered. split.
  - intros (? & ? & ? & Hc). split; [done|]. intros x Hx. split; [lia|by apply Hc].
  - intros [Hd Hx]. pose proof (Hx a ltac:(lia)). pose proof (Hx (a + bytes - 1) ltac:(lia)).
    split_and!; try done; try lia. intros x Hxr. by apply Hx.
Qed.

Lemma covered_spans l x : covered (r_span <$> l) x <-> exists r, r ∈ l /\ in_ival x (r_span r).
Proof.
  unfold covered. rewrite Exists_fmap, Exists_exists. done.
Qed.

(** Evicting one more entry frees exactly its span outside the reservations. *)
Lemma blockers_evict victims c x :
  c ∈ by_offset -> c ∉ victims ->
  ~ covered (blockers (victims ++ [c]) by_offset reservations) x <->
  ~ covered (blockers victims by_offset reservations) x \/
  (in_ival x (r_span c) /\ ~ covered reservations x).
Proof.
  intros Hc Hn. unfold blockers. rewrite !covered_app, !covered_spans. unfold remaining.
  setoid_rewrite list_elem_of_filter. setoid_rewrite elem_of_app. setoid_rewrite list_elem_of_singleton.
  split.
  - intros H. destruct (decide (r_offset c <= x < r_offset c + r_bytes c)) as [Hx|Hx].
    + right. destruct (r_span_ok c Hc) as [-> _]. unfold in_ival. simpl. split; [lia|tauto].
    + left. intros [(r & [Hr1 Hr2] & Hrx)|?]; [|tauto]. apply H. left. exists r. split; [|done].
      split; [|done]. intros [?| ->]; [done|]. destruct (r_span_ok c Hc) as [Hs _]. rewrite Hs in Hrx.
      unfold in_ival in Hrx. simpl in Hrx. lia.
  - intros [H|[H1 H2]] [(r & [Hr1 Hr2] & Hrx)|?]; try tauto.
    + apply H. left. exists r. split; [|done]. split; [|done]. tauto.
    + apply (residents_apart c r Hc Hr2 ltac:(intros ->; tauto) x); done.
Qed.

(** The index describes the addresses free once [victims] are gone. *)
Definition index_of (g : gap_index) (victims : list resident) : Prop :=
  gap_wf bytes g /\
  forall x, covered (gaps g) x <-> 0 <= x < capacity /\ ~ covered (blockers victims by_offset reservations) x.

Lemma first_fit_index g victims :
  index_of g victims ->
  first_fit_answer 64 capacity bytes (blockers victims by_offset reservations) (first_fit bytes g).
Proof.
  intros [Hg Hc]. pose proof (first_fit_free bytes g Hbytes Hg) as Hf.
  assert (Hp : forall a, placement 64 capacity bytes (blockers victims by_offset reservations) a <->
            (64 | a) /\ forall x, a <= x < a + bytes -> covered (gaps g) x).
  { intros a. rewrite placement_free. by setoid_rewrite Hc. }
  destruct (first_fit bytes g) as [a|]; simpl.
  - destruct Hf as (? & ? & Hl). split; [by apply Hp|]. intros a' [? ?]%Hp. by apply Hl.
  - intros a [? ?]%Hp. by eapply Hf.
Qed.

Lemma blocked_spec :
  StronglySorted starts_le (merge_blocked (sort_ivals reservations) []) /\
  forall x, covered (merge_blocked (sort_ivals reservations) []) x <-> covered reservations x.
Proof.
  destruct (merge_blocked_spec (sort_ivals reservations) []) as [Hs Hc]; [|constructor..|].
  { apply ival_le_starts, sort_ivals_sorted. }
  split; [done|]. intros x. rewrite Hc, (covered_perm (sort_ivals _) reservations) by apply sort_ivals_perm.
  pose proof (covered_nil x). tauto.
Qed.

Lemma index_evict g victims c :
  index_of g victims -> c ∈ by_offset -> c ∉ victims ->
  index_of (free_victim bytes (r_span c).1 (r_span c).2 (merge_blocked (sort_ivals reservations) []) g)
    (victims ++ [c]).
Proof.
  intros [Hg Hc] Hin Hn. destruct blocked_spec as [Hbs Hbc].
  destruct (r_span_ok c Hin) as [Hs (? & ? & ?)]. pose proof (pw_capacity _ _ _ _ _ Hwf).
  destruct (free_victim_wf bytes (r_span c).1 (r_span c).2 (merge_blocked (sort_ivals reservations) []) g)
    as [Hw Hcv]; [rewrite Hs; simpl; lia..|done|done|].
  split; [done|]. intros x. rewrite Hcv, Hc, Hbc, (blockers_evict victims c x Hin Hn).
  rewrite Hs. unfold in_ival. simpl. intuition lia.
Qed.

Lemma eligible_app l1 l2 : eligible own (l1 ++ l2) = eligible own l1 ++ eligible own l2.
Proof. apply filter_app. Qed.

Lemma by_offset_NoDup : NoDup by_offset.
Proof.
  pose proof (pw_sorted _ _ _ _ _ Hwf) as Hs. pose proof (pw_residents _ _ _ _ _ Hwf) as Hok.
  revert Hok. clear -Hs. induction Hs as [|r l Hs IH Hr]; intros Hok; constructor.
  - intros Hin. rewrite Forall_forall in Hr, Hok. specialize (Hr r Hin).
    specialize (Hok r ltac:(by left)). unfold resident_before, resident_ok in *. lia.
  - apply IH. by apply Forall_cons in Hok as [_ ?].
Qed.

Lemma evict_scan_answer candidates processed g :
  by_recency = processed ++ candidates -> index_of g (eligible own processed) ->
  (forall m a, (m <= length (eligible own processed))%nat ->
     ~ placement 64 capacity bytes (blockers (take m (eligible own by_recency)) by_offset reservations) a) ->
  plan_answer capacity bytes by_offset reservations (eligible own by_recency)
    (evict_scan bytes own (merge_blocked (sort_ivals reservations) []) candidates (eligible own processed) g).
Proof.
  revert processed g. induction candidates as [|c candidates IH]; intros processed g Hrec Hidx Hno; simpl.
  - rewrite app_nil_r in Hrec. rewrite <- Hrec in Hno. intros a Hp.
    apply (Hno (length (eligible own by_recency)) a); [done|]. by rewrite take_ge.
  - assert (Hrec' : by_recency = (processed ++ [c]) ++ candidates) by (by rewrite <- (assoc_L (++))).
    specialize (IH (processed ++ [c])). rewrite eligible_app in IH.
    destruct (evictable own c) eqn:Ec; simpl.
    + assert (eligible own [c] = [c]) as He by (unfold eligible; rewrite filter_cons, decide_True by done; done).
      rewrite He in IH. assert (Hin : c ∈ by_offset).
      { rewrite <- (pw_recency _ _ _ _ _ Hwf), Hrec. set_solver. }
      assert (Hn : c ∉ eligible own processed).
      { pose proof by_offset_NoDup as Hnd. rewrite <- (pw_recency _ _ _ _ _ Hwf), Hrec in Hnd.
        apply NoDup_app in Hnd as (_ & Hnd & _). intros [_ ?]%list_elem_of_filter. apply (Hnd c); [done|by left]. }
      pose proof (index_evict _ _ _ Hidx Hin Hn) as Hidx'.
      pose proof (first_fit_index _ _ Hidx') as Hf.
      assert (Hpre : eligible own by_recency = (eligible own processed ++ [c]) ++ eligible own candidates).
      { by rewrite Hrec', !eligible_app, He. }
      assert (Htake : take (S (length (eligible own processed))) (eligible own by_recency) = eligible own processed ++ [c]).
      { rewrite Hpre, take_app_length'; [done|]. rewrite length_app. simpl. lia. }
      destruct (first_fit bytes _) as [offset|].
      * exists (S (length (eligible own processed))). split_and!; [done| |done|].
        -- rewrite Hpre, !length_app. simpl. lia.
        -- intros m a Hm. apply Hno. lia.
      * apply IH; [done|done|]. intros m a Hm. rewrite length_app in Hm. simpl in Hm.
        destruct (decide (m = S (length (eligible own processed)))) as [->|]; [|apply Hno; lia].
        rewrite Htake. apply Hf.
    + assert (eligible own [c] = []) as He.
      { unfold eligible. rewrite filter_cons, decide_False by (by rewrite Ec). done. }
      rewrite He, app_nil_r in IH. by apply IH.
Qed.

Lemma dense_tail_spec tail rs tail' :
  0 <= tail -> Forall (region_ok capacity) rs -> dense_tail capacity tail rs = Some tail' ->
  tail <= tail' /\ Forall (fun r : ival => r.2 <= tail') rs /\
  forall a, (64 | a) -> tail <= a -> Forall (idisj (a, a + bytes)) rs -> tail' <= a.
Proof.
  intros Ht Hok. revert tail Ht. induction Hok as [|r rs [Hr1 Hr2] Hok IH]; intros tail Ht Hd; simpl in Hd.
  - simplify_eq. split_and!; auto. lia.
  - rewrite region_test_false in Hd by done. pose proof (align_to_spec 6 tail ltac:(lia) Ht) as Ha.
    change (2 ^ 6) with 64 in Ha. destruct (align_to 64 tail) as [al|]; [|done].
    destruct Ha as (_ & _ & _ & Hleast). rewrite Z.gtb_ltb in Hd.
    destruct (Z.ltb_spec al r.1) as [|Hle]; [done|].
    destruct (IH (Z.max tail r.2) ltac:(lia) Hd) as (H1 & H2 & H3). split_and!; [lia|constructor; [lia|done]|].
    intros a Hda Hta [Hdr Hrs]%Forall_cons. apply H3; try done.
    specialize (Hleast a Hda Hta). apply idisj_nonempty in Hdr; simpl in *; lia.
Qed.

(** Residents whose sizes add up to the end of the last one leave no hole. *)
Lemma contiguous l c r :
  StronglySorted resident_before l -> Forall (resident_ok capacity) l ->
  Forall (fun r => c <= r_offset r) l -> last l = Some r ->
  zsum (r_bytes <$> l) <= r_offset r + r_bytes r - c /\
  (zsum (r_bytes <$> l) = r_offset r + r_bytes r - c ->
   forall x, c <= x < r_offset r + r_bytes r -> exists r', r' ∈ l /\ r_offset r' <= x < r_offset r' + r_bytes r').
Proof.
  intros Hs. revert c. induction Hs as [|h l Hs IH Hh]; intros c Hok Hc Hl; [done|].
  apply Forall_cons in Hok as [(Hh1 & Hh2 & Hh3) Hok]. apply Forall_cons in Hc as [Hch Hc].
  destruct l as [|h' l].
  - simpl in *. simplify_eq. split; [lia|]. intros Heq x Hx. exists r. split; [by left|]. lia.
  - rewrite last_cons_cons in Hl. destruct (IH (r_offset h + r_bytes h) Hok) as [Hle Heq]; [done|done|].
    rewrite fmap_cons. change (zsum (r_bytes h :: (r_bytes <$> h' :: l))) with (r_bytes h + zsum (r_bytes <$> h' :: l)).
    split; [lia|]. intros Hsum x Hx.
    destruct (decide (x < r_offset h + r_bytes h)) as [Hlt|Hge].
    + exists h. split; [by left|]. lia.
    + destruct (Heq ltac:(lia) x ltac:(lia)) as (r' & ? & ?). exists r'. split; [by right|done].
Qed.

Lemma remaining_nil : remaining [] by_offset = by_offset.
Proof. apply filter_true. intros r. apply not_elem_of_nil. Qed.

Lemma resident_tail_spec tail :
  resident_tail by_offset = Some tail -> resident_bytes = tail ->
  0 <= tail /\ Forall (fun i : ival => i.2 <= tail) (r_span <$> by_offset) /\
  forall x, 0 <= x < tail -> covered (r_span <$> by_offset) x.
Proof.
  intros Ht Hrb. unfold resident_tail in Ht. destruct (last by_offset) as [r|] eqn:El.
  - apply checked_add_u64_Some in Ht as [_ Ht].
    destruct (contiguous by_offset 0 r) as [Hle Heq]; [apply Hwf|apply Hwf| |done|].
    { eapply Forall_impl; [apply (pw_residents _ _ _ _ _ Hwf)|]. intros r' (? & _). done. }
    pose proof (pw_bytes _ _ _ _ _ Hwf). assert (Hr : r ∈ by_offset) by (apply last_Some in El as [? ->]; set_solver).
    destruct (r_span_ok r Hr) as [_ (? & ? & ?)]. split_and!; [lia| |].
    + apply Forall_fmap, Forall_forall. intros r' Hr'. simpl. destruct (r_span_ok r' Hr') as [Hs' (? & ? & ?)].
      unfold r_span in Hs'. simplify_eq Hs'. intros ->. subst tail.
      destruct (decide (r_offset r + r_bytes r < r_offset r' + r_bytes r')) as [Hlt|]; [|lia]. exfalso.
      destruct (decide (r = r')) as [->|Hne]; [lia|].
      apply last_Some in El as [l El]. pose proof (pw_sorted _ _ _ _ _ Hwf) as Hsort. rewrite El in Hsort, Hr'.
      apply elem_of_app in Hr' as [Hr'|]; [|set_solver].
      apply StronglySorted_app in Hsort as (Hcross & _ & _). specialize (Hcross r' r Hr' ltac:(set_solver)).
      unfold resident_before in Hcross. lia.
    + intros x Hx. apply covered_spans. destruct (Heq ltac:(lia) x ltac:(lia)) as (r' & Hr' & ?).
      exists r'. split; [done|]. destruct (r_span_ok r' Hr') as [-> _]. unfold in_ival. simpl. lia.
  - apply last_None in El. injection Ht as <-. rewrite El. split_and!; [lia|constructor|intros; lia].
Qed.

Lemma dense_plan_answer offset :
  dense_plan capacity resident_bytes bytes by_offset reservations = Some offset ->
  least_placement 64 capacity bytes (blockers [] by_offset reservations) offset.
Proof.
  unfold dense_plan. destruct (resident_tail by_offset) as [tail|] eqn:Et; [|done].
  destruct (Z.eqb_spec resident_bytes tail) as [Hrb|]; [|done]. simpl.
  destruct (Z.leb_spec tail capacity) as [Htc|]; [|done].
  destruct (resident_tail_spec tail Et Hrb) as (Ht0 & Hends & Hcov).
  destruct (dense_tail capacity tail _) as [tail'|] eqn:Ed; [|done].
  apply dense_tail_spec in Ed as (Htt & Hrends & Hlow); [|done|rewrite sort_ivals_perm; apply reservations_ok].
  rewrite sort_ivals_perm in Hrends. setoid_rewrite sort_ivals_perm in Hlow.
  pose proof (align_to_spec 6 tail' ltac:(lia) ltac:(lia)) as Ha. change (2 ^ 6) with 64 in Ha.
  destruct (align_to 64 tail') as [al|]; [|done]. destruct Ha as (Hal & Hta & _ & Hleast).
  destruct (Z.leb_spec al capacity); [|done]. simpl.
  destruct (Z.leb_spec bytes (capacity - al)); [|done]. intros ?. simplify_eq.
  unfold blockers. rewrite remaining_nil. split.
  - split_and!; [lia|done|lia|]. apply Forall_app. split.
    + eapply Forall_impl; [exact Hends|]. intros i Hi x. unfold in_ival. simpl in *. lia.
    + eapply Forall_impl; [exact Hrends|]. intros i Hi x. unfold in_ival. simpl in *. lia.
  - intros a' (Ha0 & Had & Hac & [Hres Hrsv]%Forall_app). apply Hleast; [done|]. apply Hlow; [done| |done].
    destruct (Z_le_gt_dec tail a') as [|Hgt]; [done|]. exfalso.
    pose proof (Hcov a' ltac:(lia)) as Hc. apply Exists_exists in Hc as (i & Hi & Hin).
    rewrite Forall_forall in Hres. apply (Hres i Hi a'); [unfold in_ival; simpl; lia|done].
Qed.

(** The planner always answers, and its answer meets the contract. *)
Lemma allocation_plan_answer :
  exists o, allocation_plan capacity resident_bytes by_offset by_recency pending own bytes = Ok o /\
    plan_answer capacity bytes by_offset reservations (eligible own by_recency) o.
Proof.
  assert (Hfree : forall offset, least_placement 64 capacity bytes (blockers [] by_offset reservations) offset ->
    plan_answer capacity bytes by_offset reservations (eligible own by_recency) (Some (offset, []))).
  { intros offset Hl. exists 0%nat. split_and!; [done|lia|done|]. intros; lia. }
  unfold allocation_plan. fold reservations.
  destruct (dense_plan _ _ _ _ _) as [offset|] eqn:Ed; [eauto using dense_plan_answer|].
  pose proof (pw_capacity _ _ _ _ _ Hwf) as [Hc0 Hc1].
  destruct (first_fit_scan_answer 6 capacity bytes ltac:(lia) Hc1 Hbytes _ (sort_ivals_sorted _) occupied_ok)
    as (o & Ho & Hans). change (2 ^ 6) with 64 in *. rewrite Ho.
  assert (Hans' : first_fit_answer 64 capacity bytes (blockers [] by_offset reservations) o).
  { unfold blockers. rewrite remaining_nil. by rewrite first_fit_answer_perm in Hans by apply sort_ivals_perm. }
  destruct o as [offset|]; [eauto|].
  destruct (build_gaps_wf capacity bytes (sort_ivals ((r_span <$> by_offset) ++ reservations)) 0 (mk_gaps [] []))
    as (g & -> & Hg & Hgc); [lia|done|apply ival_le_starts, sort_ivals_sorted|apply occupied_ok|split; [repeat constructor|done]|].
  assert (Hidx : index_of g []).
  { split; [done|]. intros x. rewrite Hgc. unfold blockers. rewrite remaining_nil.
    rewrite (covered_perm (sort_ivals _)) by apply sort_ivals_perm. pose proof (covered_nil x). simpl. tauto. }
  pose proof (first_fit_index _ _ Hidx) as Hff. pose proof (first_fit_answer_unique _ _ _ _ _ _ Hff Hans') as ->.
  eexists. split; [done|]. apply (evict_scan_answer by_recency []); [done|done|].
  intros m a Hm. simpl in Hm. assert (m = 0%nat) as -> by lia. apply Hans'.
Qed.
End plan.

(** ** Staging *)

Lemma staging_plan_answer staging_bytes spans bytes :
  0 < staging_bytes <= UINT64_MAX -> 0 < bytes -> Forall (region_ok staging_bytes) spans ->
  exists o, staging_plan staging_bytes spans bytes = Ok o /\
    first_fit_answer 1 staging_bytes bytes spans o.
Proof.
  intros Hs Hb Hok. unfold staging_plan. destruct spans as [|i spans].
  - eexists. split; [done|]. destruct (Z.leb_spec bytes staging_bytes); simpl.
    + split; [split_and!; [lia|apply Z.divide_1_l|lia|constructor]|]. intros a (? & _). lia.
    + intros a (? & _ & ? & _). lia.
  - apply (arena_first_fit_answer 0); auto; lia.
Qed.

(** ** Claims *)

Definition demo_resident (id : positive) (offset pins : Z) : resident :=
  mk_resident id offset 64 true pins None.
Definition demo_by_offset : list resident :=
  [demo_resident 1 0 1; demo_resident 2 64 0; demo_resident 3 128 0].
Definition demo_by_recency : list resident :=
  [demo_resident 3 128 0; demo_resident 1 0 1; demo_resident 2 64 0].

Lemma demo_plan_wf : plan_wf 192 192 demo_by_offset demo_by_recency [].
Proof.
  split; simpl; try (unfold UINT64_MAX; lia); try by constructor.
  - repeat constructor; simpl; lia.
  - repeat constructor; unfold resident_before; simpl; lia.
  - unfold demo_by_recency, demo_by_offset. solve_Permutation.
Qed.

(** C8: on every consistent arena [ram_cache::allocation_plan] returns without
    an internal error; its victims are the shortest prefix, in retention order,
    of the ready unpinned residents not reserved by another fill whose removal
    makes room; the offset is the lowest 64-byte-aligned start that overlaps no
    remaining resident and no other fill's reservation; it refuses only when
    evicting every eligible resident would still not make room. *)
Theorem allocation_plan_contract capacity resident_bytes bytes by_offset by_recency pending own :
  plan_wf capacity resident_bytes by_offset by_recency pending -> 0 < bytes ->
  exists o, allocation_plan capacity resident_bytes by_offset by_recency pending own bytes = Ok o /\
    plan_answer capacity bytes by_offset (other_reservations own pending) (eligible own by_recency) o.
Proof. intros. by eapply allocation_plan_answer. Qed.

Lemma allocation_plan_contract_witness :
  exists o, allocation_plan 192 192 demo_by_offset demo_by_recency [] None 100 = Ok o /\
    plan_answer 192 100 demo_by_offset [] (eligible None demo_by_recency) o.
Proof. exact (allocation_plan_contract 192 192 100 _ _ [] None demo_plan_wf eq_refl). Defined.

(** C9: the dense-prefix shortcut of [allocation_plan] returns the same offset
    as the first-fit scan over all residents and reservations that it skips. *)
Theorem dense_shortcut_agrees capacity resident_bytes bytes by_offset by_recency pending own offset :
  plan_wf capacity resident_bytes by_offset by_recency pending -> 0 < bytes ->
  dense_plan capacity resident_bytes bytes by_offset (other_reservations own pending) = Some offset ->
  first_fit_scan capacity bytes 64 0
    (sort_ivals ((r_span <$> by_offset) ++ other_reservations own pending)) = Ok (Some offset).
Proof.
  intros Hwf Hb Hd. eapply dense_plan_answer in Hd; [|done..].
  pose proof (pw_capacity _ _ _ _ _ Hwf) as [_ Hc].
  destruct (first_fit_scan_answer 6 capacity bytes ltac:(lia) Hc Hb _ (sort_ivals_sorted _)
    (occupied_ok _ _ _ _ _ own Hwf)) as (o & Ho & Hans).
  rewrite first_fit_answer_perm in Hans by apply sort_ivals_perm. change (2 ^ 6) with 64 in *.
  unfold blockers in Hd. rewrite remaining_nil in Hd. rewrite Ho. f_equal.
  by apply (first_fit_answer_unique _ _ _ _ _ (Some offset) Hans).
Qed.

Lemma dense_shortcut_agrees_witness :
  dense_plan 256 128 64 (take 2 demo_by_offset) [] = Some 128 /\
  first_fit_scan 256 64 64 0 (sort_ivals ((r_span <$> take 2 demo_by_offset) ++ [])) = Ok (Some 128).
Proof.
  split; [vm_compute; reflexivity|].
  refine (dense_shortcut_agrees 256 128 64 (take 2 demo_by_offset) (take 2 demo_by_offset) [] None 128 _ _ _).
  - split; simpl; try (unfold UINT64_MAX; lia); try by constructor.
    + repeat constructor; simpl; lia.
    + repeat constructor; unfold resident_before; simpl; lia.
  - reflexivity.
  - vm_compute. reflexivity.
Defined.

(** [ram_cache::staging_plan] never raises an internal error on in-range
    fills and returns the lowest staging offset at which the fill overlaps no
    fill in flight, refusing exactly when there is none. *)
Theorem staging_plan_contract staging_bytes spans bytes :
  0 < staging_bytes <= UINT64_MAX -> 0 < bytes -> Forall (region_ok staging_bytes) spans ->
  exists o, staging_plan staging_bytes spans bytes = Ok o /\
    first_fit_answer 1 staging_bytes bytes spans o.
Proof. apply staging_plan_answer. Qed.

Lemma staging_plan_contract_witness :
  exists o, staging_plan 100 [(0, 40); (60, 100)] 20 = Ok o /\ first_fit_answer 1 100 20 [(0, 40); (60, 100)] o.
Proof.
  apply (staging_plan_contract 100 [(0, 40); (60, 100)] 20); [unfold UINT64_MAX; lia|lia|].
  repeat constructor; simpl; lia.
Defined.
