(* ===== verification/ExpertRetention.v ===== *)
(** * Retention order of the expert RAM cache

    Models [lru_less], [ram_cache::observe] and [ram_cache::touch] of
    [src/src/llama-expert-cache.cpp] over the fields they use: the ordered set
    [by_recency_], the retention fields of the entries, the decayed
    observation counts and the clocks.  Entries are named by identifiers, and
    [key] gives the (immutable) key of an entry. *)

From S2P Require Import Prelude ExpertDescriptor.

(** The fields of [struct entry] that [lru_less] reads. *)
Record lru_fields := mk_lru { last_used : Z; insertion_order : Z; frequency : Z }.

Record retention := mk_retention {
  by_recency : list positive;
  lru : gmap positive lru_fields;
  observations : gmap expert_key Z;
  clock : Z;
  insertion_clock : Z;
  frequency_clock : Z;
}.

#[export] Instance eta_lru : Settable lru_fields := fun f =>
  mk_lru (last_used f) (insertion_order f) (frequency f).
#[export] Instance eta_retention : Settable retention := fun r =>
  mk_retention (by_recency r) (lru r) (observations r) (clock r) (insertion_clock r) (frequency_clock r).

(** A fresh entry has all its retention fields zero. *)
Definition lru_of (m : gmap positive lru_fields) (id : positive) : lru_fields :=
  default (mk_lru 0 0 0) (m !! id).

Definition lru_less (key : positive -> expert_key) (m : gmap positive lru_fields) (a b : positive) : bool :=
  let fa := lru_of m a in
  let fb := lru_of m b in
  if negb (frequency fa =? frequency fb) then frequency fa <? frequency fb
  else if negb (last_used fa =? last_used fb) then last_used fa <? last_used fb
  else if negb (insertion_order fa =? insertion_order fb) then insertion_order fa <? insertion_order fb
  else expert_key_lt (key a) (key b).

(** ** [std::set] with this comparator, as the list of its elements in order *)

Definition lru_equiv key m (a b : positive) : bool :=
  negb (lru_less key m a b) && negb (lru_less key m b a).

(** [extract] and [erase]: the remaining elements, if one is equivalent. *)
Fixpoint set_extract (equiv : positive -> positive -> bool) (x : positive) (l : list positive)
    : option (list positive) :=
  match l with
  | [] => None
  | y :: l => if equiv x y then Some l
              else match set_extract equiv x l with Some l' => Some (y :: l') | None => None end
  end.

(** [insert]: fails when an equivalent element is present. *)
Fixpoint set_add (less : positive -> positive -> bool) (x : positive) (l : list positive)
    : option (list positive) :=
  match l with
  | [] => Some [x]
  | y :: l' => if less x y then Some (x :: l)
               else if less y x
                    then match set_add less x l' with Some l'' => Some (y :: l'') | None => None end
                    else None
  end.

Definition map_at : exn := out_of_range "map::at".

(** [by_recency_.insert(node)] where the code ignores the outcome. *)
Definition recency_insert (key : positive -> expert_key) (id : positive) (r : retention) : retention :=
  match set_add (lru_less key (lru r)) id (by_recency r) with
  | Some l => r <| by_recency := l |>
  | None => r
  end.

Definition recency_erase (key : positive -> expert_key) (id : positive) (r : retention) : retention :=
  match set_extract (lru_equiv key (lru r)) id (by_recency r) with
  | Some l => r <| by_recency := l |>
  | None => r
  end.

Definition set_lru (id : positive) (f : lru_fields -> lru_fields) (r : retention) : retention :=
  r <| lru ::= fun m => <[id := f (lru_of m id)]> m |>.

(** The second loop of the aging branch: every extracted node gets its halved
    count and goes back into the set. *)
Fixpoint reinsert (key : positive -> expert_key) (nodes : list positive) (r : retention)
    : result exn unit * retention :=
  match nodes with
  | [] => (Ok tt, r)
  | id :: nodes =>
      match observations r !! key id with
      | None => (Err map_at, r)
      | Some count =>
          reinsert key nodes (recency_insert key id (set_lru id (fun f => f <| frequency := count |>) r))
      end
  end.

Definition age (key : positive -> expert_key) (r : retention) : result exn unit * retention :=
  let nodes := by_recency r in
  let r := r <| by_recency := [] |> in
  let r := r <| observations ::= fmap (fun count => Z.shiftr count 1) |> in
  reinsert key nodes r.

Definition observe (frequency_retention : bool) (key : positive -> expert_key) (k : expert_key)
    (r : retention) : result exn unit * retention :=
  if negb frequency_retention then (Ok tt, r)
  else
    let r := r <| frequency_clock ::= Z.succ |> in
    let '(res, r) := if Z.land (frequency_clock r) 16383 =? 0 then age key r else (Ok tt, r) in
    match res with
    | Err e => (Err e, r)
    | Ok _ =>
        let count := default 0 (observations r !! k) in
        (Ok tt, r <| observations ::= <[k := Z.min (wrap32 (count + 1)) 64]> |>)
    end.

Definition touch (frequency_retention : bool) (key : positive -> expert_key) (id : positive)
    (inserted : bool) (r : retention) : result exn unit * retention :=
  match set_extract (lru_equiv key (lru r)) id (by_recency r) with
  | None => (Err (logic_error "expert cache LRU index is missing an entry"), r)
  | Some rest =>
      let r := r <| by_recency := rest |> in
      let r := r <| clock ::= Z.succ |> in
      let r := set_lru id (fun f => f <| last_used := clock r |>) r in
      match (if frequency_retention
             then match observations r !! key id with
                  | None => Err map_at
                  | Some count => Ok (set_lru id (fun f => f <| frequency := count |>) r)
                  end
             else Ok r) with
      | Err e => (Err e, r)
      | Ok r =>
          let r := if inserted
                   then let r := r <| insertion_clock ::= Z.succ |> in
                        set_lru id (fun f => f <| insertion_order := insertion_clock r |>) r
                   else r in
          match set_add (lru_less key (lru r)) id (by_recency r) with
          | None => (Err (logic_error "expert cache LRU index duplicated an entry"), r)
          | Some l => (Ok tt, r <| by_recency := l |>)
          end
      end
  end.

(** ** The order *)

Definition lru_lt key m (a b : positive) : Prop := lru_less key m a b = true.

Lemma component_code_inj c c' : component_code c = component_code c' -> c = c'.
Proof. by destruct c, c'. Qed.

Lemma expert_key_lt_spec a b :
  expert_key_lt a b = true <->
  layer a < layer b \/ (layer a = layer b /\ (expert a < expert b \/
    (expert a = expert b /\ component_code (part a) < component_code (part b)))).
Proof.
  unfold expert_key_lt.
  destruct (Z.eqb_spec (layer a) (layer b)); simpl; [|rewrite Z.ltb_lt; lia].
  destruct (Z.eqb_spec (expert a) (expert b)); simpl; rewrite Z.ltb_lt; lia.
Qed.

Lemma lru_less_spec key m a b :
  let fa := lru_of m a in let fb := lru_of m b in
  lru_less key m a b = true <->
  frequency fa < frequency fb \/ (frequency fa = frequency fb /\
   (last_used fa < last_used fb \/ (last_used fa = last_used fb /\
    (insertion_order fa < insertion_order fb \/ (insertion_order fa = insertion_order fb /\
      expert_key_lt (key a) (key b) = true))))).
Proof.
  simpl. unfold lru_less.
  destruct (Z.eqb_spec (frequency (lru_of m a)) (frequency (lru_of m b))); simpl; [|rewrite Z.ltb_lt; lia].
  destruct (Z.eqb_spec (last_used (lru_of m a)) (last_used (lru_of m b))); simpl; [|rewrite Z.ltb_lt; lia].
  destruct (Z.eqb_spec (insertion_order (lru_of m a)) (insertion_order (lru_of m b))); simpl; [|rewrite Z.ltb_lt; lia].
  split; [tauto|]. intros [?|(_ & [?|(_ & [?|(_ & ?)])])]; [lia..|done].
Qed.

Section order.
Context (key : positive -> expert_key) (m : gmap positive lru_fields).

#[export] Instance lru_lt_trans : Transitive (lru_lt key m).
Proof.
  unfold lru_lt. intros a b c. rewrite !lru_less_spec, !expert_key_lt_spec. intros. lia.
Qed.

Lemma lru_lt_irrefl a : ~ lru_lt key m a a.
Proof. unfold lru_lt. rewrite lru_less_spec, expert_key_lt_spec. lia. Qed.

Lemma lru_lt_total a b : lru_lt key m a b \/ key a = key b \/ lru_lt key m b a.
Proof.
  unfold lru_lt. rewrite !lru_less_spec, !expert_key_lt_spec.
  destruct (decide (key a = key b)) as [|Hk]; [tauto|].
  assert (layer (key a) <> layer (key b) \/ expert (key a) <> expert (key b) \/
          component_code (part (key a)) <> component_code (part (key b))).
  { destruct (decide (layer (key a) = layer (key b))), (decide (expert (key a) = expert (key b))); try tauto.
    right; right. intros ?%component_code_inj. apply Hk.
    destruct (key a), (key b); simpl in *. congruence. }
  lia.
Qed.

Lemma lru_equiv_refl a : lru_equiv key m a a = true.
Proof.
  unfold lru_equiv. destruct (lru_less key m a a) eqn:E; [|done]. by apply lru_lt_irrefl in E.
Qed.

Lemma lru_equiv_key a b : lru_equiv key m a b = true -> key a = key b.
Proof.
  unfold lru_equiv. intros H. bool_facts.
  destruct (lru_lt_total a b) as [H1|[H1|H1]]; [|done|]; unfold lru_lt in H1; congruence.
Qed.
End order.

(** ** Invariant of the retention state *)

Record retention_wf (key : positive -> expert_key) (freq : bool) (r : retention) : Prop := {
  rw_keys : NoDup (key <$> by_recency r);
  rw_sorted : StronglySorted (lru_lt key (lru r)) (by_recency r);
  rw_clock : forall id, last_used (lru_of (lru r) id) <= clock r;
  rw_plain : freq = false -> forall id, frequency (lru_of (lru r) id) = 0;
}.

(** With frequency retention every indexed entry has an observation count. *)
Definition observed (key : positive -> expert_key) (freq : bool) (r : retention) (ids : list positive) : Prop :=
  freq = true -> Forall (fun id => is_Some (observations r !! key id)) ids.

Section sets.
Context (key : positive -> expert_key) (m : gmap positive lru_fields).

Lemma key_not_in (x : positive) l : NoDup (key <$> x :: l) -> forall y, y ∈ l -> key y <> key x.
Proof.
  rewrite fmap_cons, NoDup_cons. intros [Hn _] y Hy Hk. apply Hn. rewrite <- Hk. by apply list_elem_of_fmap_2.
Qed.

Lemma set_extract_member x l :
  NoDup (key <$> l) -> x ∈ l ->
  exists l', set_extract (lru_equiv key m) x l = Some l' /\ l ≡ₚ x :: l' /\
    l' = filter (fun y => y <> x) l.
Proof.
  induction l as [|y l IH]; intros Hnd Hx; [by apply not_elem_of_nil in Hx|]. simpl.
  pose proof (key_not_in y l Hnd) as Hk.
  assert (Hyl : y ∉ l) by (intros Hy; by apply (Hk y)).
  destruct (lru_equiv key m x y) eqn:E.
  - apply lru_equiv_key in E. apply elem_of_cons in Hx as [->|Hx]; [|by apply Hk in Hx].
    exists l. split_and!; [done..|]. rewrite filter_cons_False by naive_solver.
    symmetry. apply filter_all. apply Forall_forall. set_solver.
  - apply elem_of_cons in Hx as [->|Hx]; [by rewrite lru_equiv_refl in E|].
    rewrite fmap_cons, NoDup_cons in Hnd. destruct (IH (proj2 Hnd) Hx) as (l' & -> & Hp & ->).
    eexists. split_and!; [done| |].
    + rewrite Hp at 1. apply perm_swap.
    + rewrite filter_cons_True; [done|]. intros ->. done.
Qed.

Lemma set_extract_absent x l :
  (forall y, y ∈ l -> key y <> key x) -> set_extract (lru_equiv key m) x l = None.
Proof.
  induction l as [|y l IH]; intros Hk; [done|]. simpl. destruct (lru_equiv key m x y) eqn:E.
  - apply lru_equiv_key in E. exfalso. apply (Hk y); [left|done].
  - rewrite IH; [done|]. intros z Hz. apply Hk. by right.
Qed.

Lemma set_add_ok x l :
  StronglySorted (lru_lt key m) l -> (forall y, y ∈ l -> key y <> key x) ->
  exists l', set_add (lru_less key m) x l = Some l' /\ l' ≡ₚ x :: l /\ StronglySorted (lru_lt key m) l'.
Proof.
  induction 1 as [|y l Hl IH Hy]; intros Hk; simpl.
  - eexists. split_and!; [done..|]. repeat constructor.
  - destruct (lru_less key m x y) eqn:E.
    + eexists. split_and!; [done..|]. constructor; [by constructor|]. constructor; [done|].
      eapply Forall_impl; [exact Hy|]. intros z Hz. by transitivity y.
    + assert (Hyx : lru_less key m y x = true).
      { destruct (lru_lt_total key m x y) as [?|[Heq|?]]; [unfold lru_lt in *; congruence| |done].
        exfalso. by apply (Hk y); [left|]. }
      rewrite Hyx. destruct IH as (l' & -> & Hp & Hs); [intros z Hz; apply Hk; by right|].
      eexists. split_and!; [done| |].
      * rewrite Hp. apply perm_swap.
      * constructor; [done|]. rewrite Hp. by constructor.
Qed.

Lemma set_add_last x l :
  Forall (fun y => lru_lt key m y x) l -> set_add (lru_less key m) x l = Some (l ++ [x]).
Proof.
  induction 1 as [|y l Hy Hl IH]; [done|]. simpl. destruct (lru_less key m x y) eqn:E.
  - exfalso. apply (lru_lt_irrefl key m x). by transitivity y.
  - unfold lru_lt in Hy. by rewrite Hy, IH.
Qed.

Lemma sorted_lru_ext m' l :
  (forall y, y ∈ l -> lru_of m' y = lru_of m y) ->
  StronglySorted (lru_lt key m) l -> StronglySorted (lru_lt key m') l.
Proof.
  intros Hext. induction 1 as [|y l Hl IH Hy]; constructor.
  - apply IH. intros z Hz. apply Hext. by right.
  - rewrite Forall_forall in *. intros z Hz. unfold lru_lt, lru_less.
    rewrite (Hext y), (Hext z) by set_solver. by apply Hy.
Qed.
End sets.

Lemma lru_of_set id f r y :
  lru_of (lru (set_lru id f r)) y = if decide (y = id) then f (lru_of (lru r) id) else lru_of (lru r) y.
Proof.
  unfold set_lru, lru_of. simpl. case_decide; subst; [by rewrite lookup_insert_eq|by rewrite lookup_insert_ne].
Qed.

Lemma sorted_set_lru key id f r l :
  id ∉ l -> StronglySorted (lru_lt key (lru r)) l -> StronglySorted (lru_lt key (lru (set_lru id f r))) l.
Proof.
  intros Hid. apply sorted_lru_ext. intros y Hy. rewrite lru_of_set, decide_False; [done|]. by intros ->.
Qed.

(** [recency_insert] of an absent entry keeps the order. *)
Lemma recency_insert_ok key id r :
  StronglySorted (lru_lt key (lru r)) (by_recency r) ->
  (forall y, y ∈ by_recency r -> key y <> key id) ->
  exists l, recency_insert key id r = r <| by_recency := l |> /\ l ≡ₚ id :: by_recency r /\
    StronglySorted (lru_lt key (lru r)) l.
Proof.
  intros Hs Hk. unfold recency_insert. destruct (set_add_ok key (lru r) id _ Hs Hk) as (l & -> & ? & ?). eauto.
Qed.

Lemma reinsert_ok key nodes r :
  NoDup (key <$> nodes ++ by_recency r) ->
  StronglySorted (lru_lt key (lru r)) (by_recency r) ->
  (forall id, last_used (lru_of (lru r) id) <= clock r) ->
  Forall (fun id => is_Some (observations r !! key id)) nodes ->
  exists r', reinsert key nodes r = (Ok tt, r') /\
    by_recency r' ≡ₚ nodes ++ by_recency r /\
    StronglySorted (lru_lt key (lru r')) (by_recency r') /\
    (forall id, last_used (lru_of (lru r') id) <= clock r') /\
    observations r' = observations r /\ clock r' = clock r /\
    insertion_clock r' = insertion_clock r /\ frequency_clock r' = frequency_clock r /\
    (forall id, last_used (lru_of (lru r') id) = last_used (lru_of (lru r) id)).
Proof.
  revert r. induction nodes as [|id nodes IH]; intros r Hnd Hs Hc Ho; simpl; [eauto 12|].
  apply Forall_cons in Ho as [[count Hcount] Ho]. rewrite Hcount.
  simpl in Hnd. rewrite NoDup_cons in Hnd. destruct Hnd as [Hid Hnd].
  set (r1 := set_lru id (fun f => f <| frequency := count |>) r).
  assert (Hlu : forall y, last_used (lru_of (lru r1) y) = last_used (lru_of (lru r) y)).
  { intros y. unfold r1. rewrite lru_of_set. by case_decide; subst. }
  destruct (recency_insert_ok key id r1) as (l & -> & Hl & Hls).
  { apply sorted_set_lru; [|done]. intros Hin. apply Hid. apply list_elem_of_fmap_2. set_solver. }
  { intros y Hy Hk. apply Hid. rewrite <- Hk. apply list_elem_of_fmap_2. simpl in Hy. set_solver. }
  destruct (IH (r1 <| by_recency := l |>)) as (r' & -> & Hp & Hs' & Hc' & Hobs & Hck & Hik & Hfk & Hlu'); simpl.
  - rewrite Hl. simpl. rewrite <- Permutation_middle. simpl. by constructor.
  - done.
  - intros y. rewrite Hlu. apply Hc.
  - done.
  - eexists. split_and!; eauto.
    + rewrite Hp. simpl. rewrite Hl. simpl. by rewrite <- Permutation_middle.
    + intros y. rewrite Hlu'. apply Hlu.
Qed.

(** [observe] never fails on a covered index; it permutes the index, keeps the
    invariant and counts the key. *)
Lemma observe_ok key freq k r :
  retention_wf key freq r -> observed key freq r (by_recency r) ->
  exists r', observe freq key k r = (Ok tt, r') /\ retention_wf key freq r' /\
    by_recency r' ≡ₚ by_recency r /\
    (freq = true -> is_Some (observations r' !! k)) /\
    (forall k', is_Some (observations r !! k') -> is_Some (observations r' !! k')) /\
    clock r' = clock r.
Proof.
  intros Hwf Hobs. unfold observe. destruct freq; cbv zeta; cbn [negb]; [|exists r; split_and!; naive_solver].
  set (r0 := r <| frequency_clock ::= Z.succ |>).
  assert (Hage : exists r1, (if Z.land (frequency_clock r0) 16383 =? 0 then age key r0 else (Ok tt, r0)) = (Ok tt, r1) /\
    by_recency r1 ≡ₚ by_recency r /\ StronglySorted (lru_lt key (lru r1)) (by_recency r1) /\
    (forall id, last_used (lru_of (lru r1) id) <= clock r1) /\ clock r1 = clock r /\
    (forall k', is_Some (observations r !! k') -> is_Some (observations r1 !! k'))).
  { destruct (_ =? 0); [|destruct Hwf; exists r0; by auto 10].
    unfold age. destruct (reinsert_ok key (by_recency r0)
      ((r0 <| by_recency := [] |>) <| observations ::= fmap (fun count => Z.shiftr count 1) |>))
      as (r1 & -> & Hp & Hs & Hc & Ho & Hck & _); simpl.
    - rewrite app_nil_r. apply Hwf.
    - constructor.
    - apply Hwf.
    - specialize (Hobs eq_refl). eapply Forall_impl; [exact Hobs|]. simpl. intros id [n Hn].
      rewrite lookup_fmap, Hn. by eexists.
    - exists r1. split_and!; try done.
      + rewrite Hp. simpl. by rewrite app_nil_r.
      + intros k' [n Hn]. rewrite Ho. simpl. rewrite lookup_fmap, Hn. by eexists. }
  destruct Hage as (r1 & -> & Hp & Hs & Hc & Hck & Hdom). cbv iota beta zeta. eexists. split; [done|]. split_and!; simpl.
  - split; simpl; [rewrite Hp; apply Hwf|done..].
  - done.
  - intros _. rewrite lookup_insert_eq. by eexists.
  - intros k' Hk'. destruct (decide (k = k')) as [->|]; [rewrite lookup_insert_eq; by eexists|].
    rewrite lookup_insert_ne by done. by apply Hdom.
  - done.
Qed.

(** [touch] of an indexed entry never fails: the entry keeps its place in the
    index as a set, its use time becomes the new clock value. *)
Lemma touch_ok key freq id inserted r :
  retention_wf key freq r -> id ∈ by_recency r -> observed key freq r [id] ->
  exists r', touch freq key id inserted r = (Ok tt, r') /\ retention_wf key freq r' /\
    by_recency r' ≡ₚ by_recency r /\ observations r' = observations r /\
    clock r' = clock r + 1 /\ last_used (lru_of (lru r') id) = clock r' /\
    (freq = false -> by_recency r' = filter (fun y => y <> id) (by_recency r) ++ [id]) /\
    frequency_clock r' = frequency_clock r.
Proof.
  intros [Hnd Hs Hc Hp] Hid Hobs. unfold touch.
  destruct (set_extract_member key (lru r) id _ Hnd Hid) as (rest & -> & Hperm & Hrest).
  assert (Hnd' : NoDup (key <$> id :: rest)) by by rewrite <- Hperm.
  pose proof (key_not_in key id rest Hnd') as Hkeys.
  assert (Hidr : id ∉ rest) by (intros Hin; by apply (Hkeys id)).
  assert (Hsr : StronglySorted (lru_lt key (lru r)) rest) by (rewrite Hrest; by apply StronglySorted_filter).
  set (r1 := set_lru id _ _).
  assert (H1 : by_recency r1 = rest /\ observations r1 = observations r /\ clock r1 = clock r + 1 /\
    frequency_clock r1 = frequency_clock r /\ last_used (lru_of (lru r1) id) = clock r + 1 /\
    (forall y, y <> id -> lru_of (lru r1) y = lru_of (lru r) y) /\
    frequency (lru_of (lru r1) id) = frequency (lru_of (lru r) id)).
  { unfold r1. split_and!; try done.
    - rewrite lru_of_set, decide_True by done. done.
    - intros y Hy. rewrite lru_of_set, decide_False by done. done.
    - rewrite lru_of_set, decide_True by done. done. }
  clearbody r1. destruct H1 as (Hbr1 & Ho1 & Hc1 & Hf1 & Hl1 & Hy1 & Hfr1).
  set (step2 := if freq then _ else _).
  assert (H2 : exists r2, step2 = Ok r2 /\ by_recency r2 = rest /\ observations r2 = observations r /\
    clock r2 = clock r + 1 /\ frequency_clock r2 = frequency_clock r /\
    last_used (lru_of (lru r2) id) = clock r + 1 /\
    (forall y, y <> id -> lru_of (lru r2) y = lru_of (lru r) y) /\
    (freq = false -> frequency (lru_of (lru r2) id) = 0)).
  { unfold step2. destruct freq.
    - rewrite Ho1. specialize (Hobs eq_refl). apply Forall_cons in Hobs as [[n ->] _].
      eexists. split; [done|]. split_and!; try done.
      + rewrite lru_of_set, decide_True by done. done.
      + intros y Hy. rewrite lru_of_set, decide_False by done. auto.
    - exists r1. split_and!; auto. intros _. rewrite Hfr1. auto. }
  clearbody step2. destruct H2 as (r2 & -> & Hbr2 & Ho2 & Hc2 & Hf2 & Hl2 & Hy2 & Hfr2). clear r1 Hbr1 Ho1 Hc1 Hf1 Hl1 Hy1 Hfr1.
  set (r3 := if inserted then _ else r2).
  assert (H3 : by_recency r3 = rest /\ observations r3 = observations r /\
    clock r3 = clock r + 1 /\ frequency_clock r3 = frequency_clock r /\
    last_used (lru_of (lru r3) id) = clock r + 1 /\
    (forall y, y <> id -> lru_of (lru r3) y = lru_of (lru r) y) /\
    (freq = false -> frequency (lru_of (lru r3) id) = 0)).
  { unfold r3. destruct inserted; [|by auto 10]. split_and!; try done.
    - rewrite lru_of_set, decide_True by done. done.
    - intros y Hy. rewrite lru_of_set, decide_False by done. auto.
    - rewrite lru_of_set, decide_True by done. done. }
  clearbody r3. destruct H3 as (Hbr & Ho & Hck & Hf & Hl & Hy & Hfr). rewrite Hbr.
  assert (Hs3 : StronglySorted (lru_lt key (lru r3)) rest).
  { eapply sorted_lru_ext; [|exact Hsr]. intros y Hyr. apply Hy. by intros ->. }
  destruct (set_add_ok key (lru r3) id rest Hs3 Hkeys) as (l & Hadd & Hlp & Hls). rewrite Hadd.
  eexists. split; [done|]. simpl. split_and!; simpl; try done; try lia.
  - split; simpl.
    + by rewrite Hlp.
    + done.
    + intros y. destruct (decide (y = id)) as [->|Hne]; [lia|]. rewrite Hy by done. specialize (Hc y). lia.
    + intros Hff y. destruct (decide (y = id)) as [->|Hne]; [auto|]. rewrite Hy by done. auto.
  - by rewrite Hlp, Hperm.
  - intros Hff. rewrite set_add_last in Hadd; [by rewrite <- Hrest; simplify_eq|].
    apply Forall_forall. intros y Hyr. assert (y <> id) by (by intros ->).
    unfold lru_lt. rewrite lru_less_spec, Hfr, Hy, (Hp Hff), Hl by done. specialize (Hc y). lia.
Qed.

Lemma recency_erase_ok key freq id r :
  retention_wf key freq r -> id ∈ by_recency r ->
  recency_erase key id r = r <| by_recency := filter (fun y => y <> id) (by_recency r) |>.
Proof.
  intros Hwf Hid. unfold recency_erase.
  by destruct (set_extract_member key (lru r) id _ (rw_keys _ _ _ Hwf) Hid) as (l & -> & _ & ->).
Qed.

Lemma retention_wf_sublist key freq r (P : positive -> Prop) `{!forall x, Decision (P x)} :
  retention_wf key freq r -> retention_wf key freq (r <| by_recency := filter P (by_recency r) |>).
Proof.
  intros [Hnd Hs Hc Hp]. split; simpl; try done; [|by apply StronglySorted_filter].
  by apply NoDup_fmap_filter.
Qed.

Lemma sorted_key_ext key key' m l :
  (forall id, id ∈ l -> key' id = key id) ->
  StronglySorted (lru_lt key m) l -> StronglySorted (lru_lt key' m) l.
Proof.
  intros Hk Hs. induction Hs as [|y l Hl IH Hy]; constructor; [apply IH; set_solver|].
  rewrite Forall_forall in *. intros z Hz. specialize (Hy z Hz). unfold lru_lt in *.
  rewrite lru_less_spec in *. rewrite !Hk by set_solver. done.
Qed.

(** The invariant only reads the keys of the indexed entries. *)
Lemma retention_wf_key key key' freq r :
  (forall id, id ∈ by_recency r -> key' id = key id) ->
  retention_wf key freq r -> retention_wf key' freq r.
Proof.
  intros Hk [Hnd Hs Hc Hp]. split; try done.
  - rewrite (list_fmap_ext key' key); [done|]. intros i x Hx%list_elem_of_lookup_2. auto.
  - by eapply sorted_key_ext.
Qed.

(** ** What the order promises *)

(** The count an observation starts from: halved on the calls that age. *)
Definition aged (r : retention) (count : Z) : Z :=
  if Z.land (Z.succ (frequency_clock r)) 16383 =? 0 then Z.shiftr count 1 else count.

Lemma reinsert_observations key nodes r : observations (reinsert key nodes r).2 = observations r.
Proof.
  revert r. induction nodes as [|id nodes IH]; intros r; simpl; [done|].
  destruct (observations r !! key id) as [count|]; [|done]. rewrite IH. unfold recency_insert. by case_match.
Qed.

Lemma observe_lookup key k k' r r' :
  observe true key k r = (Ok tt, r') ->
  observations r' !! k' =
    if decide (k' = k) then Some (Z.min (wrap32 (default 0 (aged r <$> observations r !! k) + 1)) 64)
    else aged r <$> observations r !! k'.
Proof.
  unfold observe, aged. cbn [negb]. cbv zeta. set (r0 := r <| frequency_clock ::= Z.succ |>).
  change (Z.succ (frequency_clock r)) with (frequency_clock r0).
  assert (Hobs : forall k'', observations (if Z.land (frequency_clock r0) 16383 =? 0 then age key r0 else (Ok tt, r0)).2 !! k''
    = (fun count => if Z.land (frequency_clock r0) 16383 =? 0 then Z.shiftr count 1 else count) <$> observations r !! k'').
  { intros k''. destruct (_ =? 0).
    - unfold age. rewrite reinsert_observations. simpl. apply lookup_fmap.
    - change (observations r !! k'' = id <$> observations r !! k''). by rewrite option_fmap_id. }
  destruct (if _ =? 0 then age key r0 else _) as [[[]|e] r1]; intros [= <-]. simpl in *.
  rewrite lookup_insert, !Hobs. case_decide; subst; [by rewrite decide_True|by rewrite decide_False].
Qed.

(** Recency order of the residents.  Touching an indexed entry never fails;
    the index keeps exactly its entries and stays sorted by the eviction
    comparator; without frequency retention this is strict LRU: the touched
    entry becomes the last to be evicted and all others keep their order. *)
Theorem touch_keeps_lru_order key freq id inserted r :
  retention_wf key freq r -> id ∈ by_recency r -> observed key freq r [id] ->
  exists r', touch freq key id inserted r = (Ok tt, r') /\ retention_wf key freq r' /\
    by_recency r' ≡ₚ by_recency r /\
    (freq = false -> by_recency r' = filter (fun y => y <> id) (by_recency r) ++ [id]).
Proof. intros H1 H2 H3. destruct (touch_ok key freq id inserted r H1 H2 H3) as (r' & ? & ? & ? & _ & _ & _ & ? & _). eauto. Qed.

(** Observation counts of the frequency policy.  Counts stay between 0 and
    64 (so the 32-bit increment cannot wrap), every 16384th observation halves
    all counts first, the observed key is then incremented up to 64, every other
    count is untouched, and the index remains a sorted permutation. *)
Theorem observe_counts_are_bounded key k r :
  retention_wf key true r -> observed key true r (by_recency r) ->
  (forall k' n, observations r !! k' = Some n -> 0 <= n <= 64) ->
  exists r', observe true key k r = (Ok tt, r') /\
    retention_wf key true r' /\ by_recency r' ≡ₚ by_recency r /\
    (forall k' n, observations r' !! k' = Some n -> 0 <= n <= 64) /\
    observations r' !! k = Some (Z.min (default 0 (aged r <$> observations r !! k) + 1) 64) /\
    (forall k', k' <> k -> observations r' !! k' = aged r <$> observations r !! k').
Proof.
  intros Hwf Hobs Hb. destruct (observe_ok key true k r Hwf Hobs) as (r' & Hr & Hwf' & Hp & _).
  assert (Haged : forall n, 0 <= n <= 64 -> 0 <= aged r n <= 64).
  { intros n Hn. unfold aged. case_match; [|done]. rewrite Z.shiftr_div_pow2 by lia. change (2 ^ 1) with 2. pose proof (Z.div_mod n 2). pose proof (Z.mod_pos_bound n 2). lia. }
  assert (Hd : 0 <= default 0 (aged r <$> observations r !! k) <= 64).
  { destruct (observations r !! k) as [n|] eqn:E; simpl; [|lia]. by apply Haged, (Hb k). }
  assert (Hw : wrap32 (default 0 (aged r <$> observations r !! k) + 1) = default 0 (aged r <$> observations r !! k) + 1).
  { unfold wrap32. apply Z.mod_small. lia. }
  pose proof (fun k' => observe_lookup key k k' r r' Hr) as Hl. rewrite Hw in Hl.
  exists r'. split_and!; try done.
  - intros k' n. rewrite Hl. case_decide; [intros [= <-]; lia|].
    intros (m & Hm & ->)%fmap_Some. by apply Haged, (Hb k').
  - by rewrite Hl, decide_True.
  - intros k' Hne. by rewrite Hl, decide_False.
Qed.

(** Two residents, the first used more recently. *)
Definition demo_retention : retention :=
  mk_retention [2; 1]%positive {[1%positive := mk_lru 5 1 0; 2%positive := mk_lru 3 2 0]}
    {[mk_key 1 0 gate := 64; mk_key 2 0 gate := 3]} 5 2 16383.
Definition demo_key_of (id : positive) : expert_key := mk_key (Z.pos id) 0 gate.

Lemma demo_retention_wf freq : retention_wf demo_key_of freq demo_retention.
Proof.
  assert (Hl : forall id, lru_of (lru demo_retention) id = mk_lru 5 1 0 \/
    lru_of (lru demo_retention) id = mk_lru 3 2 0 \/ lru_of (lru demo_retention) id = mk_lru 0 0 0).
  { intros id. unfold lru_of. simpl. destruct (decide (id = 1%positive)) as [->|]; [by left|].
    destruct (decide (id = 2%positive)) as [->|]; [by right; left|]. rewrite lookup_insert_ne, lookup_singleton_ne by done.
    by right; right. }
  split.
  - apply (bool_decide_unpack _). vm_compute. exact I.
  - repeat constructor.
  - intros id. by destruct (Hl id) as [->|[->| ->]].
  - intros _ id. by destruct (Hl id) as [->|[->| ->]].
Qed.

Lemma touch_keeps_lru_order_witness :
  exists r', touch false demo_key_of 2 false demo_retention = (Ok tt, r') /\ by_recency r' = [1; 2]%positive.
Proof.
  destruct (touch_keeps_lru_order demo_key_of false 2 false demo_retention) as (r' & H & _ & _ & Hl).
  - apply demo_retention_wf.
  - vm_compute. left.
  - intros [=].
  - exists r'. split; [exact H|]. rewrite Hl by reflexivity. reflexivity.
Defined.

Lemma observe_counts_are_bounded_witness :
  exists r', observe true demo_key_of (mk_key 1 0 gate) demo_retention = (Ok tt, r') /\
    observations r' !! mk_key 1 0 gate = Some 33 /\ observations r' !! mk_key 2 0 gate = Some 1.
Proof.
  destruct (observe_counts_are_bounded demo_key_of (mk_key 1 0 gate) demo_retention) as (r' & H & _ & _ & _ & H1 & H2).
  - apply demo_retention_wf.
  - intros _. repeat constructor; by eexists.
  - intros k n. simpl. destruct (decide (k = mk_key 1 0 gate)) as [->|]; [rewrite lookup_insert_eq; intros [= <-]; lia|].
    rewrite lookup_insert_ne by done. destruct (decide (k = mk_key 2 0 gate)) as [->|]; [rewrite lookup_singleton_eq; intros [= <-]; lia|].
    by rewrite lookup_singleton_ne.
  - exists r'. split; [exact H|]. split; [rewrite H1; vm_compute; reflexivity|]. rewrite H2 by done. vm_compute. reflexivity.
Defined.
