(* ===== verification/ExpertCache.v ===== *)
(** * The expert RAM cache

    Models [ram_cache] of [src/src/llama-expert-cache.{h,cpp}]: the shared
    store of entries and pending loads, [acquire], [try_acquire], [erase],
    [clear], [advise_will_need], [stats] and the lease operations.  Every
    critical section is one computation of the state-and-exception monad [M];
    [acquire] gives the mutex up for storage reads, for the payload copy and
    while it waits, so it is split at those points ([pc]), and
    [ExpertCacheSystem] interleaves the parts.

    Objects behind a [shared_ptr] live in the maps [e_heap] and [l_heap]; the
    atomic pin counters are in [pins] and the retention fields of an entry in
    [kept].  Clocks and statistics counters are unbounded here: they are 64
    bits wide and only count events. *)

From S2P Require Import Prelude ExpertDescriptor ExpertArena ExpertRetention.
From stdpp Require Import pretty.
Open Scope Z_scope.

(** ** Objects *)

(** [std::shared_ptr<const descriptor>]: compared by address. *)
Record dptr := mk_dptr { dp_addr : positive; dp_desc : descriptor }.

Definition dp_key (d : dptr) : expert_key := d_key (dp_desc d).
Definition dp_bytes (d : dptr) : Z := d_bytes (dp_desc d).

(** Bytes by address. *)
Definition memory : Type := Z -> Z.

Definition mem_write (m : memory) (offset : Z) (data : list Z) : memory :=
  fun x => if (offset <=? x) && (x <? offset + Z.of_nat (length data))
           then default 0 (data !! Z.to_nat (x - offset)) else m x.

Fixpoint mem_read (m : memory) (offset : Z) (n : nat) : list Z :=
  match n with
  | O => []
  | S n => m offset :: mem_read m (offset + 1) n
  end.

(** [struct entry]; [e_data] is the offset of [data] in the resident arena. *)
Record entry := mk_entry {
  e_desc : dptr;
  e_data : option Z;
  e_offset : Z;
  e_ready : bool;
  e_reserved_by : option positive;
}.

Inductive load_phase := loading | copying | ready | failed.

#[export] Instance load_phase_eq_dec : EqDecision load_phase.
Proof. solve_decision. Defined.

(** [struct pending_load]. *)
Record pending_load := mk_load {
  l_phase : load_phase;
  l_result : positive;
  l_victims : list positive;
  l_staging : Z;
  l_offset : Z;
  l_error : option exn;
}.

(** [class source]: what the cache asks of a registered source, and the bytes
    it holds. *)
Record source := mk_source {
  so_identity : source_identity;
  so_backend : read_backend;
  so_data : list Z;
}.

Definition so_size (s : source) : Z := Z.of_nat (length (so_data s)).

Record cache_config := mk_config {
  capacity_bytes : Z;
  staging_bytes : Z;
  frequency_retention : bool;
}.

(** [struct cache_stats], without the timing counters; [active_leases] is
    computed by [stats]. *)
Record cache_stats := mk_stats {
  resident_bytes : Z;
  peak_resident_bytes : Z;
  hits : Z;
  misses : Z;
  evictions : Z;
  rejected_admissions : Z;
  pinned_capacity_failures : Z;
  staging_waits : Z;
  coalesced_loads : Z;
  failed_loads : Z;
  active_loads : Z;
  peak_active_loads : Z;
  staging_used_bytes : Z;
  peak_staging_used_bytes : Z;
  reserved_bytes : Z;
  bytes_read : list Z;
}.

Record ram_cache := mk_cache {
  config : cache_config;
  sources : gmap Z source;
  canonical_descriptors : gmap expert_key dptr;
  entries : gmap expert_key positive;
  by_offset : list (Z * positive);
  kept : retention;
  pending : gmap expert_key positive;
  staging : memory;
  resident_arena : memory;
  cstats : cache_stats;
  pins : gmap positive Z;
  e_heap : gmap positive entry;
  l_heap : gmap positive pending_load;
}.

#[export] Instance eta_entry : Settable entry := fun e =>
  mk_entry (e_desc e) (e_data e) (e_offset e) (e_ready e) (e_reserved_by e).
#[export] Instance eta_load : Settable pending_load := fun l =>
  mk_load (l_phase l) (l_result l) (l_victims l) (l_staging l) (l_offset l) (l_error l).
#[export] Instance eta_stats : Settable cache_stats := fun s =>
  mk_stats (resident_bytes s) (peak_resident_bytes s) (hits s) (misses s) (evictions s)
    (rejected_admissions s) (pinned_capacity_failures s) (staging_waits s) (coalesced_loads s)
    (failed_loads s) (active_loads s) (peak_active_loads s) (staging_used_bytes s)
    (peak_staging_used_bytes s) (reserved_bytes s) (bytes_read s).
#[export] Instance eta_cache : Settable ram_cache := fun c =>
  mk_cache (config c) (sources c) (canonical_descriptors c) (entries c) (by_offset c) (kept c)
    (pending c) (staging c) (resident_arena c) (cstats c) (pins c) (e_heap c) (l_heap c).

#[export] Instance dptr_inhabited : Inhabited dptr :=
  populate (mk_dptr 1 (mk_descriptor
    (mk_spec (mk_key 0 0 gate) 0 0 0 0 0 0 [] [] (mk_identity 0 0) []) 0)).
#[export] Instance entry_inhabited : Inhabited entry := populate (mk_entry inhabitant None 0 true None).
#[export] Instance load_inhabited : Inhabited pending_load := populate (mk_load loading 1 [] 0 0 None).

Definition entry_of (c : ram_cache) (id : positive) : entry := e_heap c !!! id.
Definition load_of (c : ram_cache) (id : positive) : pending_load := l_heap c !!! id.
Definition desc_of (c : ram_cache) (id : positive) : dptr := e_desc (entry_of c id).
Definition key_of (c : ram_cache) (id : positive) : expert_key := dp_key (desc_of c id).
Definition bytes_of (c : ram_cache) (id : positive) : Z := dp_bytes (desc_of c id).
Definition pins_of (c : ram_cache) (id : positive) : Z := default 0 (pins c !! id).

Definition upd_entry (id : positive) (f : entry -> entry) (c : ram_cache) : ram_cache :=
  c <| e_heap ::= alter f id |>.
Definition upd_load (id : positive) (f : pending_load -> pending_load) (c : ram_cache) : ram_cache :=
  c <| l_heap ::= alter f id |>.
Definition upd_stats (f : cache_stats -> cache_stats) (c : ram_cache) : ram_cache :=
  c <| cstats ::= f |>.

(** [pins.fetch_add(1)] and [pins.fetch_sub(1)]. *)
Definition add_pins (id : positive) (n : Z) (c : ram_cache) : ram_cache :=
  c <| pins ::= fun m => <[id := default 0 (m !! id) + n]> m |>.

(** ** Computations inside the mutex: state and exceptions *)

Definition M (A : Type) : Type := ram_cache -> result exn A * ram_cache.

#[export] Instance M_ret : MRet M := fun A x c => (Ok x, c).
#[export] Instance M_bind : MBind M := fun A B f m c =>
  match m c with
  | (Ok x, c) => f x c
  | (Err e, c) => (Err e, c)
  end.

Definition throw {A} (e : exn) : M A := fun c => (Err e, c).
Definition get : M ram_cache := fun c => (Ok c, c).
Definition modify (f : ram_cache -> ram_cache) : M unit := fun c => (Ok tt, f c).
Definition lift {A} (r : result exn A) : M A := fun c => (r, c).
Definition on_kept {A} (f : retention -> result exn A * retention) : M A := fun c =>
  let '(r, k) := f (kept c) in (r, c <| kept := k |>).
(** [try m catch (...) h] *)
Definition catch {A} (m : M A) (h : exn -> M A) : M A := fun c =>
  match m c with
  | (Err e, c) => h e c
  | r => r
  end.
Fixpoint for_each {A} (l : list A) (f : A -> M unit) : M unit :=
  match l with
  | [] => mret tt
  | x :: l => f x ;; for_each l f
  end.

Definition observe_key (k : expert_key) : M unit :=
  c ← get; on_kept (observe (frequency_retention (config c)) (key_of c) k).

Definition touch_entry (id : positive) (inserted : bool) : M unit :=
  c ← get; on_kept (touch (frequency_retention (config c)) (key_of c) id inserted).

(** [lease::lease(entry)] *)
Definition lease_on (id : positive) : M positive := modify (add_pins id 1) ;; mret id.

(** ** The planners on the cache's own data *)

Definition resident_view (c : ram_cache) (id : positive) : resident :=
  let e := entry_of c id in
  mk_resident id (e_offset e) (bytes_of c id) (e_ready e) (pins_of c id) (e_reserved_by e).

(** An item of [by_offset_]: the offset is the map key. *)
Definition offset_view (c : ram_cache) (item : Z * positive) : resident :=
  let e := entry_of c item.2 in
  mk_resident item.2 item.1 (bytes_of c item.2) (e_ready e) (pins_of c item.2) (e_reserved_by e).

Definition reservation_view (c : ram_cache) (load : positive) : reservation :=
  mk_reservation load (l_offset (load_of c load)) (bytes_of c (l_result (load_of c load))).

Definition pending_loads (c : ram_cache) : list positive := (map_to_list (pending c)).*2.

Definition plan_for (c : ram_cache) (bytes : Z) (own : option positive) : result exn (option (Z * list positive)) :=
  let? plan := allocation_plan (capacity_bytes (config c)) (resident_bytes (cstats c))
    (offset_view c <$> by_offset c) (resident_view c <$> by_recency (kept c))
    (reservation_view c <$> pending_loads c) own bytes in
  Ok (match plan with Some (offset, victims) => Some (offset, r_id <$> victims) | None => None end).

Definition staging_span (c : ram_cache) (load : positive) : ival :=
  (l_staging (load_of c load), wrap64 (l_staging (load_of c load) + bytes_of c (l_result (load_of c load)))).

Definition staging_for (c : ram_cache) (bytes : Z) : result exn (option Z) :=
  staging_plan (staging_bytes (config c)) (staging_span c <$> pending_loads c) bytes.

(** ** Ordered index by offset ([std::map<uint64_t, entry *>]) *)

Fixpoint offset_insert (o : Z) (id : positive) (l : list (Z * positive)) : option (list (Z * positive)) :=
  match l with
  | [] => Some [(o, id)]
  | item :: l' =>
      if o <? item.1 then Some ((o, id) :: l)
      else if o =? item.1 then None
      else match offset_insert o id l' with Some l'' => Some (item :: l'') | None => None end
  end.

Definition offset_erase (o : Z) (l : list (Z * positive)) : list (Z * positive) :=
  filter (fun item => item.1 <> o) l.

(** ** Where [acquire] runs without the mutex *)

Inductive pc :=
| Reading (load : positive) (value : dptr) (rest : list source_extent) (destination : Z) (read : list Z)
| ReadDone (load : positive) (value : dptr) (read : list Z) (error : option exn)
| Copying (load : positive) (value : dptr)
| Copied (load : positive) (value : dptr)
| Coalesced (load : positive) (value : dptr)
| StagingWait (value : dptr).

(** A critical section of [acquire] ends with a lease or at a [pc]. *)
Inductive progress := Leased (id : positive) | Suspended (p : pc).

(** ** [ram_cache::release_reservation] *)

Definition release_reservation (load : positive) : M unit :=
  c ← get;
  let l := load_of c load in
  for_each (l_victims l) (fun victim => modify (fun c =>
    if bool_decide (e_reserved_by (entry_of c victim) = Some load)
    then upd_entry victim (fun e => e <| e_reserved_by := None |>) c else c)) ;;
  let bytes := bytes_of c (l_result l) in
  modify (upd_stats (fun s => s <| reserved_bytes ::= fun x => x - bytes |>
                               <| staging_used_bytes ::= fun x => x - bytes |>
                               <| active_loads ::= Z.pred |>)) ;;
  modify (fun c => c <| pending ::= delete (key_of c (l_result l)) |>).

(** ** [ram_cache::acquire] *)

Definition key_string (k : expert_key) : string :=
  ("layer=" ++ pretty (layer k) ++ ", expert=" ++ pretty (expert k)
   ++ ", component=" ++ pretty (component_code (part k)))%string.

(** [cached != entries_.end() && cached->second->ready] *)
Definition cached_ready (c : ram_cache) (k : expert_key) : option positive :=
  match entries c !! k with
  | Some id => if e_ready (entry_of c id) then Some id else None
  | None => None
  end.

Definition hit (id : positive) : M positive :=
  touch_entry id false ;;
  modify (upd_stats (fun s => s <| hits ::= Z.succ |>)) ;;
  lease_on id.

Definition extent_registered (c : ram_cache) (e : source_extent) : bool :=
  match sources c !! ext_source e with
  | Some s => bool_decide (so_identity s = ext_identity e)
  | None => false
  end.

Definition reserve_victims (load : positive) (victims : list positive) : M unit :=
  for_each victims (fun victim =>
    modify (upd_entry victim (fun e => e <| e_reserved_by := Some load |>))).

(** From the end of the loop to the release of the mutex: the fill is
    registered under fresh objects. *)
Definition admit_fill (value : dptr) (offset : Z) (victims : list positive) (staging_offset : Z) : M progress :=
  c ← get;
  if negb (forallb (extent_registered c) (d_extents (dp_desc value)))
  then throw (invalid_argument "expert descriptor source identity does not match the registered source")
  else
    let result := fresh (dom (e_heap c)) in
    let load := fresh (dom (l_heap c)) in
    modify (fun c => c <| e_heap ::= <[result := mk_entry value None 0 true None]> |>) ;;
    modify (fun c => c <| l_heap ::= <[load := mk_load loading result victims staging_offset offset None]> |>) ;;
    modify (fun c => c <| pending ::= <[dp_key value := load]> |>) ;;
    reserve_victims load victims ;;
    modify (upd_stats (fun s => s <| misses ::= Z.succ |> <| active_loads ::= Z.succ |>)) ;;
    modify (upd_stats (fun s => s <| peak_active_loads := Z.max (peak_active_loads s) (active_loads s) |>
                                 <| reserved_bytes ::= Z.add (dp_bytes value) |>
                                 <| staging_used_bytes ::= Z.add (dp_bytes value) |>)) ;;
    modify (upd_stats (fun s => s <| peak_staging_used_bytes :=
                                       Z.max (peak_staging_used_bytes s) (staging_used_bytes s) |>)) ;;
    mret (Suspended (Reading load value (d_extents (dp_desc value)) staging_offset [0; 0; 0])).

Definition wait_staging (value : dptr) : M progress :=
  modify (upd_stats (fun s => s <| staging_waits ::= Z.succ |>)) ;; mret (Suspended (StagingWait value)).

(** One round of the [for (;;)] loop; waiting for a change re-enters it. *)
Definition acquire_loop (value : dptr) : M progress :=
  c ← get;
  match cached_ready c (dp_key value) with
  | Some id => id ← hit id; mret (Leased id)
  | None =>
      match pending c !! dp_key value with
      | Some load =>
          modify (upd_stats (fun s => s <| coalesced_loads ::= Z.succ |>)) ;;
          mret (Suspended (Coalesced load value))
      | None =>
          plan ← lift (plan_for c (dp_bytes value) None);
          match plan with
          | None =>
              if bool_decide (pending c = ∅) then
                modify (upd_stats (fun s => s <| pinned_capacity_failures ::= Z.succ |>)) ;;
                throw (capacity_error "all eviction candidates are protected by in-flight expert leases")
              else wait_staging value
          | Some (offset, victims) =>
              slot ← lift (staging_for c (dp_bytes value));
              match slot with
              | Some staging_offset => admit_fill value offset victims staging_offset
              | None => wait_staging value
              end
          end
      end
  end.

Definition acquire (value : option dptr) : M progress :=
  match value with
  | None => throw (invalid_argument "cannot acquire a null expert descriptor")
  | Some value =>
      c ← get;
      if (dp_bytes value >? capacity_bytes (config c)) || (dp_bytes value >? staging_bytes (config c))
         || (dp_bytes value >? UINT64_MAX)
      then
        modify (upd_stats (fun s => s <| rejected_admissions ::= Z.succ |>)) ;;
        throw (capacity_error ("expert component exceeds RAM cache or staging capacity: "
                               ++ key_string (dp_key value)))
      else
        match canonical_descriptors c !! dp_key value with
        | None => modify (fun c => c <| canonical_descriptors ::= <[dp_key value := value]> |>)
        | Some d => if bool_decide (dp_addr d = dp_addr value) then mret tt
                    else throw (invalid_argument "expert key was reused with a different immutable descriptor")
        end ;;
        observe_key (dp_key value) ;;
        acquire_loop value
  end.

(** The handler of [acquire]'s outer [try]. *)
Definition fail_load (load : positive) (e : exn) : M unit :=
  modify (upd_load load (fun l => l <| l_error := Some e |> <| l_phase := failed |>)) ;;
  modify (upd_stats (fun s => s <| failed_loads ::= Z.succ |>)) ;;
  release_reservation load.

(** Reserved victims that became leased during the read are replaced. *)
Definition replan_pinned (load : positive) (value : dptr) : M unit :=
  c ← get;
  if existsb (fun victim => negb (pins_of c victim =? 0)) (l_victims (load_of c load)) then
    plan ← lift (plan_for c (dp_bytes value) (Some load));
    match plan with
    | None =>
        modify (upd_stats (fun s => s <| pinned_capacity_failures ::= Z.succ |>)) ;;
        throw (capacity_error "expert RAM cache reservation became leased during I/O")
    | Some (offset, replacement) =>
        for_each (l_victims (load_of c load)) (fun victim =>
          modify (upd_entry victim (fun e => e <| e_reserved_by := None |>))) ;;
        modify (upd_load load (fun l => l <| l_victims := replacement |> <| l_offset := offset |>)) ;;
        reserve_victims load replacement
    end
  else mret tt.

Definition evict (victim : positive) : M unit :=
  modify (fun c =>
    upd_stats (fun s => s <| resident_bytes ::= fun x => x - bytes_of c victim |> <| evictions ::= Z.succ |>)
      (c <| by_offset ::= offset_erase (e_offset (entry_of c victim)) |>
         <| kept ::= recency_erase (key_of c) victim |>
         <| entries ::= delete (key_of c victim) |>)).

(** [by_offset_.insert(offset_node)], then [by_recency_.insert(lru_node)]. *)
Definition index_result (id : positive) : M unit :=
  c ← get;
  match offset_insert (e_offset (entry_of c id)) id (by_offset c) with
  | None => throw (logic_error "expert cache publication duplicated an index entry")
  | Some l =>
      modify (fun c => c <| by_offset := l |>) ;;
      match set_add (lru_less (key_of c) (lru (kept c))) id (by_recency (kept c)) with
      | None => throw (logic_error "expert cache publication duplicated an index entry")
      | Some l => modify (fun c => c <| kept ::= fun k => k <| by_recency := l |> |>)
      end
  end.

(** From the end of the read to the release of the mutex for the copy. *)
Definition publish (load : positive) (value : dptr) : M unit :=
  replan_pinned load value ;;
  c ← get;
  let l := load_of c load in
  modify (upd_entry (l_result l) (fun e =>
    e <| e_offset := l_offset l |> <| e_data := Some (l_offset l) |> <| e_ready := false |>)) ;;
  match entries c !! dp_key value with
  | Some _ => throw (logic_error "expert RAM cache duplicate publication")
  | None =>
      modify (fun c => c <| entries ::= <[dp_key value := l_result l]> |>) ;;
      for_each (l_victims l) evict ;;
      index_result (l_result l) ;;
      modify (upd_load load (fun l => l <| l_phase := copying |>))
  end.

Definition acquire_read_done (load : positive) (value : dptr) (read : list Z) (error : option exn) : M progress :=
  catch (
    modify (upd_stats (fun s => s <| bytes_read ::= zip_with Z.add read |>)) ;;
    match error with
    | Some e => throw e
    | None => publish load value ;; mret (Suspended (Copying load value))
    end) (fun e => fail_load load e ;; throw e).

Definition acquire_copied (load : positive) (value : dptr) : M progress :=
  catch (
    c ← get;
    let loaded := l_result (load_of c load) in
    touch_entry loaded true ;;
    modify (upd_entry loaded (fun e => e <| e_ready := true |>)) ;;
    modify (add_pins loaded 1) ;;
    modify (upd_load load (fun l => l <| l_phase := ready |>)) ;;
    modify (upd_stats (fun s => s <| resident_bytes ::= Z.add (dp_bytes value) |>)) ;;
    modify (upd_stats (fun s => s <| peak_resident_bytes := Z.max (peak_resident_bytes s) (resident_bytes s) |>)) ;;
    release_reservation load ;;
    id ← lease_on loaded; mret (Leased id)) (fun e => fail_load load e ;; throw e).

(** The end of the coalesced wait, whose predicate holds. *)
Definition acquire_coalesced (load : positive) : M progress :=
  c ← get;
  match l_error (load_of c load) with
  | Some e => throw e
  | None => id ← hit (l_result (load_of c load)); mret (Leased id)
  end.

(** ** The other operations *)

Definition try_acquire (value : option dptr) : M (option positive) :=
  match value with
  | None => throw (invalid_argument "cannot acquire a null expert descriptor")
  | Some value =>
      c ← get;
      if match canonical_descriptors c !! dp_key value with
         | Some d => negb (bool_decide (dp_addr d = dp_addr value))
         | None => false
         end
      then throw (invalid_argument "expert key was reused with a different immutable descriptor")
      else
        match cached_ready c (dp_key value) with
        | None => mret None
        | Some id => observe_key (dp_key value) ;; id ← hit id; mret (Some id)
        end
  end.

Definition erase (k : expert_key) : M bool :=
  c ← get;
  match entries c !! k with
  | None => mret false
  | Some id =>
      let e := entry_of c id in
      if negb (e_ready e) || bool_decide (is_Some (e_reserved_by e)) || negb (pins_of c id =? 0)
      then mret false
      else
        modify (upd_stats (fun s => s <| resident_bytes ::= fun x => x - bytes_of c id |>)) ;;
        modify (fun c => c <| by_offset ::= offset_erase (e_offset e) |>
                           <| kept ::= recency_erase (key_of c) id |>
                           <| entries ::= delete k |>) ;;
        mret true
  end.

Definition clear : M unit :=
  c ← get;
  if negb (bool_decide (pending c = ∅))
  then throw (capacity_error "cannot clear expert RAM cache while fills are in flight")
  else if existsb (fun item : expert_key * positive => negb (pins_of c item.2 =? 0)) (map_to_list (entries c))
  then throw (capacity_error "cannot clear expert RAM cache while leases are in flight")
  else
    modify (fun c => c <| by_offset := [] |>
      <| kept ::= fun k => k <| by_recency := [] |> <| observations := ∅ |> <| frequency_clock := 0 |> |>
      <| entries := ∅ |>) ;;
    modify (upd_stats (fun s => s <| resident_bytes := 0 |>)).

(** The statistics snapshot: the counters and the pins of all entries. *)
Definition stats (c : ram_cache) : cache_stats * Z :=
  (cstats c, zsum ((fun item : expert_key * positive => pins_of c item.2) <$> map_to_list (entries c))).

(** [advise_will_need]: whether a source accepts an advice is the source's own
    decision, given by [accepts]. *)
Definition advise_will_need (accepts : source_extent -> bool) (value : option dptr) (c : ram_cache) : result exn Z :=
  match value with
  | None => Err (invalid_argument "cannot advise a null expert descriptor")
  | Some value =>
      if match canonical_descriptors c !! dp_key value with
         | Some d => negb (bool_decide (dp_addr d = dp_addr value))
         | None => false
         end
      then Err (invalid_argument "expert advice reused a key with a different descriptor")
      else if bool_decide (is_Some (cached_ready c (dp_key value)))
              || bool_decide (is_Some (pending c !! dp_key value)) then Ok 0
      else if forallb (fun e =>
          extent_registered c e &&
          match sources c !! ext_source e with
          | Some s => negb (ext_offset e >? so_size s) && negb (ext_length e >? so_size s - ext_offset e)
          | None => false
          end) (d_extents (dp_desc value))
      then Ok (zsum (ext_length <$> filter (fun e => accepts e = true) (d_extents (dp_desc value))))
      else Err (invalid_argument "expert advice source identity or range mismatch")
  end.

(** The constructor; whether the arena allocation succeeds and the alignment
    of a caller's arena are given by [arena]. *)
Inductive arena_request := own_arena (allocated : bool) | caller_arena (address : Z).

Definition register_source (acc : gmap Z source) (item : option (Z * source)) : result exn (gmap Z source) :=
  match item with
  | None => Err (invalid_argument "expert RAM cache source cannot be null")
  | Some (id, s) =>
      guard? negb ((so_size s =? 0) || identity_is_zero (so_identity s))
        else invalid_argument "expert RAM cache source size and identity must be non-zero" in
      guard? bool_decide (acc !! id = None)
        else invalid_argument "expert RAM cache source IDs must be unique" in
      Ok (<[id := s]> acc)
  end.

Definition zero_stats : cache_stats := mk_stats 0 0 0 0 0 0 0 0 0 0 0 0 0 0 0 [0; 0; 0].
Definition zero_retention : retention := mk_retention [] ∅ ∅ 0 0 0.

Definition make_cache (cfg : cache_config) (items : list (option (Z * source))) (arena : arena_request)
    : result exn ram_cache :=
  guard? negb (capacity_bytes cfg =? 0)
    else invalid_argument "expert RAM cache capacity must be non-zero" in
  guard? negb ((staging_bytes cfg =? 0) || (staging_bytes cfg >? capacity_bytes cfg))
    else invalid_argument "expert RAM cache staging capacity must be in [1, capacity]" in
  guard? negb ((capacity_bytes cfg >? UINT64_MAX) || (staging_bytes cfg >? UINT64_MAX))
    else overflow_error "expert RAM cache capacity exceeds addressable memory" in
  let? _ := match arena with
            | caller_arena address =>
                guard? address mod 64 =? 0
                  else invalid_argument "expert RAM external arena must be aligned to 64 bytes" in Ok tt
            | own_arena allocated => guard? allocated else bad_alloc in Ok tt
            end in
  let? registered := foldM register_source items ∅ in
  Ok (mk_cache cfg registered ∅ ∅ [] zero_retention ∅ (fun _ => 0) (fun _ => 0) zero_stats ∅ ∅ ∅).
