(* ===== verification/ExpertCacheSystem.v ===== *)
(** * Threads and leases around the expert RAM cache

    [ExpertCache] gives the critical sections of [ram_cache]; here any number
    of threads runs them in any order.  A thread inside [acquire] is at a [pc];
    the storage reads and the payload copy run without the mutex and are steps
    of their own, so they interleave with everything else.  The owners of a
    [pending_load] are the map [pending_] and the threads whose [pc] holds it;
    when the last one drops it, its destructor runs ([reap]). *)

From S2P Require Import Prelude ExpertDescriptor ExpertArena ExpertRetention ExpertCache.

Record sys := mk_sys {
  cache : ram_cache;
  threads : gmap positive pc;
  leases : list positive;
}.

#[export] Instance eta_sys : Settable sys := fun s => mk_sys (cache s) (threads s) (leases s).

Definition pc_load (p : pc) : option positive :=
  match p with
  | Reading load _ _ _ _ | ReadDone load _ _ _ | Copying load _ | Copied load _ | Coalesced load _ => Some load
  | StagingWait _ => None
  end.

Definition pc_value (p : pc) : dptr :=
  match p with
  | Reading _ value _ _ _ | ReadDone _ value _ _ | Copying _ value | Copied _ value
  | Coalesced _ value | StagingWait value => value
  end.

Definition holds (load : positive) (p : pc) : bool := bool_decide (pc_load p = Some load).

(** Whether some [shared_ptr] to the load is left. *)
Definition owned (s : sys) (load : positive) : bool :=
  existsb (fun item : expert_key * positive => bool_decide (item.2 = load)) (map_to_list (pending (cache s)))
  || existsb (fun item : positive * pc => holds load item.2) (map_to_list (threads s)).

(** [pending_load::~pending_load], when the last owner is gone. *)
Definition reap (load : positive) (s : sys) : sys :=
  if owned s load then s
  else
    let l := load_of (cache s) load in
    let c := if bool_decide (l_phase l = ready) then add_pins (l_result l) (-1) (cache s) else cache s in
    s <| cache := c <| l_heap ::= delete load |> |>.

(** What a call gives back to its caller. *)
Inductive reply :=
| Got (id : positive)
| Nothing
| Threw (e : exn)
| Parked
| Answer (b : bool).

(** Run a critical section of [acquire] in thread [tid]. *)
Definition run (tid : positive) (m : M progress) (s : sys) : sys * reply :=
  let '(r, c) := m (cache s) in
  match r with
  | Ok (Leased id) => (s <| cache := c |> <| threads ::= delete tid |> <| leases ::= cons id |>, Got id)
  | Ok (Suspended p) => (s <| cache := c |> <| threads ::= <[tid := p]> |>, Parked)
  | Err e => (s <| cache := c |> <| threads ::= delete tid |>, Threw e)
  end.

(** The [input->read] of one extent: a range outside the source is refused;
    otherwise the bytes arrive, or the storage fails after some of them. *)
Definition read_source (s : source) (offset length : Z) (fault : option (exn * list Z)) : result exn (list Z) * list Z :=
  match checked_add_u64 offset length with
  | Some finish =>
      if finish >? so_size s then (Err (out_of_range "expert file read is outside source bounds"), [])
      else match fault with
           | None => let data := take (Z.to_nat length) (drop (Z.to_nat offset) (so_data s)) in (Ok data, data)
           | Some (e, partial) => (Err e, take (Z.to_nat length) partial)
           end
  | None => (Err (out_of_range "expert file read is outside source bounds"), [])
  end.

Definition backend_index (b : read_backend) : nat := match b with mmap => 0 | pread => 1 | io_uring => 2 end.

(** One round of the read loop of [acquire]. *)
Definition read_step (tid : positive) (fault : option (exn * list Z)) (load : positive) (value : dptr)
    (rest : list source_extent) (destination : Z) (read : list Z) (s : sys) : sys :=
  match rest with
  | [] => s <| threads ::= <[tid := ReadDone load value read None]> |>
  | extent :: rest =>
      match sources (cache s) !! ext_source extent with
      | None => s <| threads ::= <[tid := ReadDone load value read (Some map_at)]> |>
      | Some input =>
          let '(r, written) := read_source input (ext_offset extent) (ext_length extent) fault in
          let s := s <| cache ::= fun c => c <| staging ::= fun m => mem_write m destination written |> |> in
          match r with
          | Err e => s <| threads ::= <[tid := ReadDone load value read (Some e)]> |>
          | Ok _ =>
              s <| threads ::= <[tid := Reading load value rest (destination + ext_length extent)
                                  (alter (Z.add (ext_length extent)) (backend_index (so_backend input)) read)]> |>
          end
      end
  end.

(** [std::memcpy(loaded->data, staging + staging_offset, bytes)]. *)
Definition copy_payload (load : positive) (value : dptr) (c : ram_cache) : ram_cache :=
  let l := load_of c load in
  let data := mem_read (staging c) (l_staging l) (Z.to_nat (dp_bytes value)) in
  c <| resident_arena ::= fun m => mem_write m (default 0 (e_data (entry_of c (l_result l)))) data |>.

Inductive action :=
| Acquire (tid : positive) (value : option dptr)
| Read (tid : positive) (fault : option (exn * list Z))
| Resume (tid : positive)
| Copy (tid : positive)
| TryAcquire (value : option dptr)
| Release (i : nat)
| Erase (k : expert_key)
| Clear.

(** The transition function: [None] when the action cannot happen. *)
Definition exec (a : action) (s : sys) : option (sys * reply) :=
  match a with
  | Acquire tid value =>
      match threads s !! tid with
      | Some _ => None
      | None => Some (run tid (acquire value) s)
      end
  | Read tid fault =>
      match threads s !! tid with
      | Some (Reading load value rest destination read) =>
          Some (read_step tid fault load value rest destination read s, Parked)
      | _ => None
      end
  | Resume tid =>
      match threads s !! tid with
      | Some (ReadDone load value read error) =>
          let '(s, r) := run tid (acquire_read_done load value read error) s in Some (reap load s, r)
      | Some (Copied load value) =>
          let '(s, r) := run tid (acquire_copied load value) s in Some (reap load s, r)
      | Some (Coalesced load value) =>
          let l := load_of (cache s) load in
          if bool_decide (l_phase l = ready \/ l_phase l = failed)
          then let '(s, r) := run tid (acquire_coalesced load) s in Some (reap load s, r)
          else None
      | Some (StagingWait value) => Some (run tid (acquire_loop value) s)
      | _ => None
      end
  | Copy tid =>
      match threads s !! tid with
      | Some (Copying load value) =>
          Some (s <| cache ::= copy_payload load value |> <| threads ::= <[tid := Copied load value]> |>, Parked)
      | _ => None
      end
  | TryAcquire value =>
      let '(r, c) := try_acquire value (cache s) in
      let s := s <| cache := c |> in
      Some (match r with
            | Ok (Some id) => (s <| leases ::= cons id |>, Got id)
            | Ok None => (s, Nothing)
            | Err e => (s, Threw e)
            end)
  | Release i =>
      match leases s !! i with
      | Some id => Some (s <| cache ::= add_pins id (-1) |> <| leases ::= delete i |>, Nothing)
      | None => None
      end
  | Erase k =>
      let '(r, c) := erase k (cache s) in
      Some (s <| cache := c |>, match r with Ok b => Answer b | Err e => Threw e end)
  | Clear =>
      let '(r, c) := clear (cache s) in
      Some (s <| cache := c |>, match r with Ok _ => Nothing | Err e => Threw e end)
  end.

(** Runs of the system. *)
Fixpoint exec_all (l : list action) (s : sys) : option (sys * list reply) :=
  match l with
  | [] => Some (s, [])
  | a :: l =>
      match exec a s with
      | None => None
      | Some (s, r) =>
          match exec_all l s with
          | None => None
          | Some (s, rs) => Some (s, r :: rs)
          end
      end
  end.

Definition start (c : ram_cache) : sys := mk_sys c ∅ [].
