(* ===== verification/ExpertCacheInv.v ===== *)
(** * Invariant of the expert RAM cache

    The invariant of [ExpertCacheSystem]'s states, split by what it reads: the
    arena and its indices, the retention order, the byte accounting, the
    descriptors, the threads, the pins and the memory.  [objects] is the
    immutable memory of descriptors: a [shared_ptr] is an address into it. *)

From S2P Require Import Prelude ExpertDescriptor ExpertArena ExpertRetention ExpertCache ExpertCacheSystem.

(** ** Memory *)

Lemma mem_read_length m o n : length (mem_read m o n) = n.
Proof. revert o. induction n; intros o; simpl; auto. Qed.

Lemma mem_read_ext m m' o n :
  (forall x, o <= x < o + Z.of_nat n -> m' x = m x) -> mem_read m' o n = mem_read m o n.
Proof.
  revert o. induction n as [|n IH]; intros o H; simpl; [done|]. rewrite (H o) by lia. f_equal.
  apply IH. intros x Hx. apply H. lia.
Qed.

Lemma mem_read_app m o n k : mem_read m o (n + k) = mem_read m o n ++ mem_read m (o + Z.of_nat n) k.
Proof.
  revert o. induction n as [|n IH]; intros o; simpl; [f_equal; lia|]. f_equal. rewrite IH. do 2 f_equal. lia.
Qed.

Lemma mem_write_out m o d x : x < o \/ o + Z.of_nat (length d) <= x -> mem_write m o d x = m x.
Proof.
  intros H. unfold mem_write. destruct (Z.leb_spec o x); simpl; [|done].
  destruct (Z.ltb_spec x (o + Z.of_nat (length d))); [lia|done].
Qed.

Lemma mem_read_write m o d : mem_read (mem_write m o d) o (length d) = d.
Proof.
  assert (H : forall k, mem_read (mem_write m o d) (o + Z.of_nat k) (length d - k) = drop k d).
  { intros k. remember (length d - k)%nat as n eqn:Hn. revert k Hn. induction n as [|n IH]; intros k Hn.
    - simpl. by rewrite drop_ge by lia.
    - simpl. destruct (lookup_lt_is_Some_2 d k) as [y Hy]; [lia|]. rewrite (drop_S _ y k Hy). f_equal.
      + unfold mem_write. destruct (Z.leb_spec o (o + Z.of_nat k)); [|lia].
        destruct (Z.ltb_spec (o + Z.of_nat k) (o + Z.of_nat (length d))); [|lia]. simpl.
        replace (o + Z.of_nat k - o) with (Z.of_nat k) by lia. by rewrite Nat2Z.id, Hy.
      + replace (o + Z.of_nat k + 1) with (o + Z.of_nat (S k)) by lia. apply IH. lia. }
  specialize (H 0%nat). rewrite Nat.sub_0_r, Z.add_0_r in H. by rewrite drop_0 in H.
Qed.

(** Errors of the cache's own book-keeping; the invariant excludes them. *)
Definition internal_error (e : exn) : bool :=
  match e with
  | logic_error _ => true
  | _ => bool_decide (e = map_at)
  end.

(** ** The parts *)

Section parts.
Context (c : ram_cache).

Definition resident_id (id : positive) : Prop := entries c !! key_of c id = Some id.
Definition live_id (id : positive) : Prop := resident_id id /\ e_ready (entry_of c id) = true.

Definition e_span (id : positive) : ival :=
  (e_offset (entry_of c id), e_offset (entry_of c id) + bytes_of c id).
Definition l_bytes (load : positive) : Z := bytes_of c (l_result (load_of c load)).
Definition l_span (load : positive) : ival :=
  (l_offset (load_of c load), l_offset (load_of c load) + l_bytes load).
Definition s_span (load : positive) : ival :=
  (l_staging (load_of c load), l_staging (load_of c load) + l_bytes load).

(** An aligned arena address range. *)
Definition in_arena (offset bytes : Z) : Prop :=
  0 <= offset /\ (64 | offset) /\ 0 < bytes /\ offset + bytes <= capacity_bytes (config c).

Definition pending_id (load : positive) : Prop :=
  pending c !! key_of c (l_result (load_of c load)) = Some load.
Definition in_phase (load : positive) (p : load_phase) : Prop := l_phase (load_of c load) = p.

(** What the fields of a registered fill say in each phase. *)
Definition phase_ok (load : positive) : Prop :=
  let l := load_of c load in
  let result := entry_of c (l_result l) in
  match l_phase l with
  | loading => entries c !! key_of c (l_result l) = None /\ e_reserved_by result = None
  | copying => entries c !! key_of c (l_result l) = Some (l_result l) /\ e_ready result = false /\
               e_offset result = l_offset l
  | ready | failed => False
  end.

Record config_ok : Prop := {
  co_staging : 0 < staging_bytes (config c) <= capacity_bytes (config c);
  co_capacity : capacity_bytes (config c) <= UINT64_MAX;
}.

Record arena_inv : Prop := {
  ai_entries : forall k id, entries c !! k = Some id -> key_of c id = k /\ is_Some (e_heap c !! id);
  ai_offset : forall o id, (o, id) ∈ by_offset c <-> resident_id id /\ e_offset (entry_of c id) = o;
  ai_sorted : StronglySorted Z.lt (by_offset c).*1;
  ai_placed : forall id, resident_id id ->
    in_arena (e_offset (entry_of c id)) (bytes_of c id) /\ e_data (entry_of c id) = Some (e_offset (entry_of c id));
  ai_apart : forall id id', resident_id id -> resident_id id' -> id <> id' -> idisj (e_span id) (e_span id');
  ai_pending : forall k load, pending c !! k = Some load ->
    k = key_of c (l_result (load_of c load)) /\ is_Some (l_heap c !! load) /\
    is_Some (e_heap c !! l_result (load_of c load)) /\
    in_arena (l_offset (load_of c load)) (l_bytes load) /\
    0 <= l_staging (load_of c load) /\ l_staging (load_of c load) + l_bytes load <= staging_bytes (config c) /\
    phase_ok load;
  ai_notready : forall id, resident_id id -> e_ready (entry_of c id) = false ->
    exists load, pending_id load /\ in_phase load copying /\ l_result (load_of c load) = id;
  ai_victims : forall load v, pending_id load -> in_phase load loading -> v ∈ l_victims (load_of c load) ->
    live_id v /\ e_reserved_by (entry_of c v) = Some load;
  ai_victims_nodup : forall load, pending_id load -> in_phase load loading -> NoDup (l_victims (load_of c load));
  ai_reserved : forall id load, resident_id id -> e_reserved_by (entry_of c id) = Some load ->
    pending_id load /\ in_phase load loading /\ id ∈ l_victims (load_of c load);
  ai_fill_resident : forall load id, pending_id load -> in_phase load loading -> resident_id id ->
    id ∉ l_victims (load_of c load) -> idisj (l_span load) (e_span id);
  ai_fills : forall load load', pending_id load -> pending_id load' -> load <> load' ->
    idisj (l_span load) (l_span load') /\ idisj (s_span load) (s_span load');
}.

Record retention_inv : Prop := {
  ri_wf : retention_wf (key_of c) (frequency_retention (config c)) (kept c);
  ri_index : forall id, id ∈ by_recency (kept c) <-> resident_id id;
  ri_observed : frequency_retention (config c) = true -> forall k,
    is_Some (entries c !! k) \/ is_Some (pending c !! k) -> is_Some (observations (kept c) !! k);
}.

Record account_inv : Prop := {
  ac_resident : resident_bytes (cstats c) =
    msum (fun _ id => if e_ready (entry_of c id) then bytes_of c id else 0) (entries c);
  ac_reserved : reserved_bytes (cstats c) = msum (fun _ load => l_bytes load) (pending c);
  ac_staging : staging_used_bytes (cstats c) = msum (fun _ load => l_bytes load) (pending c);
  ac_loads : active_loads (cstats c) = Z.of_nat (size (pending c));
}.

Record loads_inv : Prop := {
  li_result : forall load l, l_heap c !! load = Some l -> is_Some (e_heap c !! l_result l);
  li_error : forall load l, l_heap c !! load = Some l -> l_phase l = failed <-> is_Some (l_error l);
  li_active : forall load l, l_heap c !! load = Some l -> l_phase l = loading \/ l_phase l = copying ->
    pending_id load;
  li_external : forall load l e, l_heap c !! load = Some l -> l_error l = Some e -> internal_error e = false;
}.
End parts.

(** ** Descriptors *)

Section objects.
Context (objects : positive -> descriptor).

(** A descriptor pointer a caller can hold: made by [descriptor::make]. *)
Definition valid_ptr (v : dptr) : Prop :=
  dp_desc v = objects (dp_addr v) /\ spec_typed (d_spec (dp_desc v)) /\
  exists source_sizes, make (d_spec (dp_desc v)) source_sizes = Ok (dp_desc v).

Record canonical_inv (c : ram_cache) : Prop := {
  ca_valid : forall k d, canonical_descriptors c !! k = Some d ->
    dp_key d = k /\ valid_ptr d /\ dp_bytes d <= staging_bytes (config c);
  ca_entries : forall id e, e_heap c !! id = Some e ->
    canonical_descriptors c !! dp_key (e_desc e) = Some (e_desc e);
}.

(** ** Payloads and memory *)

Definition extent_payload (srcs : gmap Z source) (e : source_extent) : list Z :=
  match srcs !! ext_source e with
  | Some s => take (Z.to_nat (ext_length e)) (drop (Z.to_nat (ext_offset e)) (so_data s))
  | None => []
  end.

(** The bytes a descriptor stands for: its extents' bytes, in order. *)
Definition payload (srcs : gmap Z source) (d : dptr) : list Z :=
  mjoin (extent_payload srcs <$> d_extents (dp_desc d)).

(** [bytes()] bytes from [offset] are the payload of [d]. *)
Definition payload_at (c : ram_cache) (m : memory) (offset : Z) (d : dptr) : Prop :=
  mem_read m offset (Z.to_nat (dp_bytes d)) = payload (sources c) d.

(** ** Threads *)

Definition filling (c : ram_cache) (load : positive) (value : dptr) (p : load_phase) : Prop :=
  pending c !! dp_key value = Some load /\ in_phase c load p /\ desc_of c (l_result (load_of c load)) = value.

Definition thread_ok (c : ram_cache) (p : pc) : Prop :=
  match p with
  | Reading load value rest _ _ => filling c load value loading /\ forallb (extent_registered c) rest = true
  | ReadDone load value _ error =>
      filling c load value loading /\ forall e, error = Some e -> internal_error e = false
  | Copying load value | Copied load value => filling c load value copying
  | Coalesced load value =>
      is_Some (l_heap c !! load) /\ desc_of c (l_result (load_of c load)) = value
  | StagingWait value =>
      canonical_descriptors c !! dp_key value = Some value /\
      (frequency_retention (config c) = true -> is_Some (observations (kept c) !! dp_key value))
  end.

Definition thread_mem (c : ram_cache) (p : pc) : Prop :=
  match p with
  | Reading load value rest destination _ =>
      exists done, d_extents (dp_desc value) = done ++ rest /\
        destination = l_staging (load_of c load) + zsum (ext_length <$> done) /\
        mem_read (staging c) (l_staging (load_of c load)) (Z.to_nat (zsum (ext_length <$> done))) =
          mjoin (extent_payload (sources c) <$> done)
  | ReadDone load value _ None | Copying load value =>
      payload_at c (staging c) (l_staging (load_of c load)) value
  | ReadDone _ _ _ (Some _) => True
  | Copied load value => payload_at c (resident_arena c) (l_offset (load_of c load)) value
  | Coalesced _ _ | StagingWait _ => True
  end.

Definition filler (p : pc) : Prop :=
  match p with Coalesced _ _ | StagingWait _ => False | _ => True end.

Definition fills (p : pc) (load : positive) : Prop := filler p /\ pc_load p = Some load.

Definition completion_pins (c : ram_cache) (id : positive) : Z :=
  msum (fun _ l => if bool_decide (l_phase l = ready /\ l_result l = id) then 1 else 0) (l_heap c).

Definition lease_count (leased : list positive) (id : positive) : Z :=
  Z.of_nat (length (filter (fun x => x = id) leased)).

End objects.

(** ** The planners on an invariant state *)

Section planning.
Context (c : ram_cache) (Hc : config_ok c) (Ha : arena_inv c) (Hr : retention_inv c) (Hac : account_inv c).

Lemma resident_lookup k id : entries c !! k = Some id -> resident_id c id.
Proof. intros H. unfold resident_id. by destruct (ai_entries c Ha k id H) as [-> _]. Qed.

Lemma by_offset_member item : item ∈ by_offset c -> resident_id c item.2 /\ e_offset (entry_of c item.2) = item.1.
Proof. destruct item as [o id]. apply (ai_offset c Ha). Qed.

Lemma offset_view_eq item : item ∈ by_offset c -> offset_view c item = resident_view c item.2.
Proof. intros [_ Ho]%by_offset_member. unfold offset_view, resident_view. by rewrite Ho. Qed.

Lemma NoDup_by_offset : NoDup (by_offset c).*2.
Proof.
  assert (Hk : NoDup (by_offset c).*1).
  { pose proof (ai_sorted c Ha) as Hs. revert Hs. generalize (by_offset c).*1. intros l.
    induction 1 as [|x l Hl IH Hx]; constructor; [|done]. rewrite Forall_forall in Hx.
    intros Hin. specialize (Hx x Hin). lia. }
  apply NoDup_fmap_2_strong; [|by apply NoDup_fmap_1 in Hk].
  intros x y Hx Hy Hxy. apply by_offset_member in Hx as [_ Hx], Hy as [_ Hy].
  destruct x, y; simpl in *. congruence.
Qed.

Lemma recency_perm : by_recency (kept c) ≡ₚ (by_offset c).*2.
Proof.
  apply NoDup_Permutation; [|apply NoDup_by_offset|].
  - by eapply NoDup_fmap_1, rw_keys, ri_wf.
  - intros id. rewrite (ri_index c Hr), list_elem_of_fmap. split.
    + intros Hid. exists (e_offset (entry_of c id), id). split; [done|]. by apply (ai_offset c Ha).
    + intros ([o i] & -> & Hin). by apply (ai_offset c Ha) in Hin as [? _].
Qed.

Lemma entries_perm : (map_to_list (entries c)).*2 ≡ₚ (by_offset c).*2.
Proof.
  apply NoDup_Permutation; [|apply NoDup_by_offset|].
  - apply NoDup_fmap_2_strong; [|apply NoDup_map_to_list].
    intros [k id] [k' id'] H%elem_of_map_to_list H'%elem_of_map_to_list. simpl. intros ->.
    apply (ai_entries c Ha) in H as [<- _], H' as [<- _]. done.
  - intros id. rewrite !list_elem_of_fmap. split.
    + intros ([k i] & -> & H%elem_of_map_to_list). exists (e_offset (entry_of c i), i). split; [done|].
      apply (ai_offset c Ha). split; [by eapply resident_lookup|done].
    + intros ([o i] & -> & H). apply (ai_offset c Ha) in H as [H _].
      exists (key_of c i, i). split; [done|]. by apply elem_of_map_to_list.
Qed.

Lemma views_sorted : StronglySorted resident_before (offset_view c <$> by_offset c).
Proof.
  pose proof (ai_sorted c Ha) as Hs. pose proof (fun i => by_offset_member i) as Hm. revert Hs Hm.
  pose proof (ai_apart c Ha) as Hap. pose proof (ai_placed c Ha) as Hpl.
  generalize (by_offset c) as l. induction l as [|[o id] l IH]; intros Hs Hm; [constructor|].
  rewrite !fmap_cons in *. apply StronglySorted_inv in Hs as [Hs Hlt].
  constructor; [apply IH; [done|intros; apply Hm; by right]|].
  apply Forall_fmap, Forall_forall. rewrite Forall_forall in Hlt. intros [o' id'] Hin.
  specialize (Hlt o'). simpl in Hlt. specialize (Hlt ltac:(apply list_elem_of_fmap; by exists (o', id'))). unfold resident_before. simpl.
  destruct (Hm (o, id)) as [Hr1 Ho1]; [left|]. destruct (Hm (o', id')) as [Hr2 Ho2]; [by right|]. simpl in *.
  assert (Hne : id <> id') by (intros ->; lia).
  specialize (Hap id id' Hr1 Hr2 Hne). destruct (Hpl id Hr1) as [(_ & _ & Hb1 & _) _].
  destruct (Hpl id' Hr2) as [(_ & _ & Hb2 & _) _].
  apply idisj_nonempty in Hap; unfold e_span in *; simpl in *; lia.
Qed.

Lemma plan_for_wf :
  plan_wf (capacity_bytes (config c)) (resident_bytes (cstats c)) (offset_view c <$> by_offset c)
    (resident_view c <$> by_recency (kept c)) (reservation_view c <$> pending_loads c).
Proof.
  destruct Hc as [[Hs1 Hs2] Hcap]. split.
  - lia.
  - apply Forall_fmap, Forall_forall. intros item Hin. pose proof Hin as Hin'. apply by_offset_member in Hin as [Hres Ho].
    destruct (ai_placed c Ha _ Hres) as [(? & _ & ? & ?) _]. unfold resident_ok. simpl. lia.
  - apply views_sorted.
  - rewrite recency_perm, <- list_fmap_compose. erewrite list_fmap_ext; [done|].
    intros i item Hin%list_elem_of_lookup_2. by rewrite offset_view_eq.
  - apply Forall_fmap, Forall_forall. intros load ([k l] & -> & H%elem_of_map_to_list)%list_elem_of_fmap.
    destruct (ai_pending c Ha _ _ H) as (_ & _ & _ & (? & _ & ? & ?) & _). unfold reservation_ok. done.
  - rewrite (ac_resident c Hac).
    transitivity (msum (fun _ id => bytes_of c id) (entries c)).
    { apply msum_le. intros k id Hid. apply resident_lookup in Hid.
      destruct (ai_placed c Ha _ Hid) as [(_ & _ & ? & _) _]. case_match; lia. }
    rewrite <- msum_list. apply Z.eq_le_incl.
    transitivity (zsum (bytes_of c <$> (map_to_list (entries c)).*2)); [by rewrite <- list_fmap_compose|].
    rewrite (zsum_perm _ (bytes_of c <$> (by_offset c).*2)) by by rewrite <- entries_perm.
    by rewrite <- !list_fmap_compose.
Qed.

(** What a successful plan guarantees. *)
Definition plan_good (bytes : Z) (own : option positive) (offset : Z) (victims : list positive) : Prop :=
  in_arena c offset bytes /\ NoDup victims /\
  (forall v, v ∈ victims -> live_id c v /\ pins_of c v = 0 /\
     (e_reserved_by (entry_of c v) = None \/ exists l, e_reserved_by (entry_of c v) = Some l /\ own = Some l)) /\
  (forall id, resident_id c id -> id ∉ victims -> idisj (offset, offset + bytes) (e_span c id)) /\
  (forall load, pending_id c load -> Some load <> own -> idisj (offset, offset + bytes) (l_span c load)).

Lemma r_span_view id : resident_id c id -> r_span (resident_view c id) = e_span c id.
Proof.
  intros Hid. destruct (ai_placed c Ha _ Hid) as [(? & _ & ? & ?) _]. destruct Hc as [_ Hcap].
  unfold r_span, e_span. simpl. rewrite wrap64_small; [done|]. unfold u64. lia.
Qed.

Lemma v_span_view load : pending_id c load -> v_span (reservation_view c load) = l_span c load.
Proof.
  intros Hp. destruct (ai_pending c Ha _ _ Hp) as (_ & _ & _ & (? & _ & ? & ?) & _). destruct Hc as [_ Hcap].
  unfold v_span, l_span, l_bytes in *. simpl in *. rewrite wrap64_small; [done|]. unfold u64. lia.
Qed.

Lemma pending_id_member load : load ∈ pending_loads c <-> pending_id c load.
Proof.
  unfold pending_loads, pending_id. rewrite list_elem_of_fmap. split.
  - intros ([k l] & -> & H%elem_of_map_to_list). simpl. by destruct (ai_pending c Ha _ _ H) as [<- _].
  - intros H. eexists (_, load). split; [done|]. by apply elem_of_map_to_list.
Qed.

Lemma eligible_member own r :
  r ∈ eligible own (resident_view c <$> by_recency (kept c)) ->
  r = resident_view c (r_id r) /\ live_id c (r_id r) /\ pins_of c (r_id r) = 0 /\
  (e_reserved_by (entry_of c (r_id r)) = None \/ exists l, e_reserved_by (entry_of c (r_id r)) = Some l /\ own = Some l).
Proof.
  intros [He (id & -> & Hin)%list_elem_of_fmap]%list_elem_of_filter.
  apply (ri_index c Hr) in Hin. unfold evictable in He. simpl in *. bool_facts.
  split_and!; [done|by split|done|]. case_match; [|by left]. right. apply bool_decide_eq_true in H0. eauto.
Qed.

Lemma blocker_free own victims bytes offset :
  Forall (idisj (offset, offset + bytes))
    (blockers victims (offset_view c <$> by_offset c) (other_reservations own (reservation_view c <$> pending_loads c))) ->
  (forall r, r ∈ victims -> r = resident_view c (r_id r)) ->
  (forall id, resident_id c id -> id ∉ r_id <$> victims -> idisj (offset, offset + bytes) (e_span c id)) /\
  (forall load, pending_id c load -> Some load <> own -> idisj (offset, offset + bytes) (l_span c load)).
Proof.
  unfold blockers. rewrite Forall_app, !Forall_forall. intros [Hres Hrsv] Hv. split.
  - intros id Hid Hn. rewrite <- r_span_view by done. apply Hres. apply list_elem_of_fmap_2.
    apply list_elem_of_filter. split.
    + intros Hin. apply Hn. apply list_elem_of_fmap. by exists (resident_view c id).
    + apply list_elem_of_fmap. exists (e_offset (entry_of c id), id).
      assert (Hin : (e_offset (entry_of c id), id) ∈ by_offset c) by by apply (ai_offset c Ha).
      by rewrite offset_view_eq.
  - intros load Hp Hne. rewrite <- v_span_view by done. apply Hrsv. apply list_elem_of_fmap_2.
    apply list_elem_of_filter. split; [done|]. apply list_elem_of_fmap_2. by apply pending_id_member.
Qed.

Lemma plan_sound bytes own :
  0 < bytes ->
  exists o, plan_for c bytes own = Ok o /\
    match o with Some (offset, victims) => plan_good bytes own offset victims | None => True end.
Proof.
  intros Hb. destruct (allocation_plan_answer _ _ bytes _ _ _ own plan_for_wf Hb) as (o & Ho & Hans).
  unfold plan_for. rewrite Ho. eexists. split; [done|]. destruct o as [[offset victims]|]; [|done].
  destruct Hans as (n & -> & Hn & [(H0 & H64 & Hfit & Hfree) _] & _).
  assert (Hmem : forall r, r ∈ take n (eligible own (resident_view c <$> by_recency (kept c))) ->
    r ∈ eligible own (resident_view c <$> by_recency (kept c))).
  { intros r (i & Hi & _)%elem_of_take. by eapply list_elem_of_lookup_2. }
  split_and!.
  - done.
  - rewrite fmap_take. eapply sublist_NoDup; [|apply (sublist_take _ n)]. apply NoDup_fmap_filter.
    rewrite <- list_fmap_compose. change (NoDup (id <$> by_recency (kept c))). rewrite list_fmap_id.
    by eapply NoDup_fmap_1, rw_keys, ri_wf.
  - intros v (r & -> & Hin)%list_elem_of_fmap. by apply Hmem, eligible_member in Hin as (_ & ? & ? & ?).
  - eapply blocker_free; [done|]. intros r Hin. by apply Hmem, eligible_member in Hin as (-> & _).
  - eapply blocker_free; [done|]. intros r Hin. by apply Hmem, eligible_member in Hin as (-> & _).
Qed.
End planning.

Section staging_planning.
Context (c : ram_cache) (Hc : config_ok c) (Ha : arena_inv c).

Lemma s_span_view load : pending_id c load -> staging_span c load = s_span c load.
Proof.
  intros Hp. destruct (ai_pending c Ha _ _ Hp) as (_ & _ & _ & (_ & _ & ? & _) & ? & ? & _).
  destruct Hc as [? Hcap]. unfold staging_span, s_span, l_bytes in *. rewrite wrap64_small; [done|]. unfold u64. lia.
Qed.

Lemma staging_sound bytes :
  0 < bytes ->
  exists o, staging_for c bytes = Ok o /\
    match o with
    | Some offset => 0 <= offset /\ offset + bytes <= staging_bytes (config c) /\
        forall load, pending_id c load -> idisj (offset, offset + bytes) (s_span c load)
    | None => True
    end.
Proof.
  intros Hb. destruct Hc as [Hs Hcap].
  destruct (staging_plan_answer (staging_bytes (config c)) (staging_span c <$> pending_loads c) bytes)
    as (o & Ho & Hans); [lia|done| |].
  { apply Forall_fmap, Forall_forall. intros load Hin%pending_id_member; [|done].
    change (region_ok (staging_bytes (config c)) (staging_span c load)). rewrite s_span_view by done.
    destruct (ai_pending c Ha _ _ Hin) as (_ & _ & _ & (_ & _ & ? & _) & ? & ? & _). unfold region_ok, s_span. simpl. lia. }
  exists o. split; [done|]. destruct o as [offset|]; [|done]. destruct Hans as [(H0 & _ & Hfit & Hfree) _].
  split_and!; [done..|]. intros load Hp. rewrite <- s_span_view by done. rewrite Forall_forall in Hfree.
  apply Hfree, list_elem_of_fmap_2. by apply pending_id_member.
Qed.
End staging_planning.
