(* ===== verification/ExpertCacheSteps.v ===== *)
(** * Critical sections of the expert RAM cache keep its invariant

    For each operation of [ExpertCache]: which state it ends in, and that the
    parts of the invariant that speak about the cache alone hold there. *)

From S2P Require Import Prelude ExpertDescriptor ExpertArena ExpertRetention ExpertCache ExpertCacheSystem ExpertCacheInv.

Lemma load_of_lookup c load l : l_heap c !! load = Some l -> load_of c load = l.
Proof. intros H. unfold load_of. by rewrite lookup_total_alt, H. Qed.

Lemma entry_of_lookup c id e : e_heap c !! id = Some e -> entry_of c id = e.
Proof. intros H. unfold entry_of. by rewrite lookup_total_alt, H. Qed.

(** ** Framing: a part only reads some of the fields *)

Lemma config_ok_frame c c' : config c' = config c -> config_ok c -> config_ok c'.
Proof. destruct c, c'; simpl. intros -> []. by split. Qed.

Lemma arena_inv_frame c c' :
  config c' = config c -> entries c' = entries c -> by_offset c' = by_offset c ->
  pending c' = pending c -> e_heap c' = e_heap c -> l_heap c' = l_heap c -> arena_inv c -> arena_inv c'.
Proof. destruct c, c'; simpl. intros -> -> -> -> -> -> []. by split. Qed.

Lemma retention_inv_frame c c' :
  config c' = config c -> kept c' = kept c -> entries c' = entries c ->
  pending c' = pending c -> e_heap c' = e_heap c -> retention_inv c -> retention_inv c'.
Proof. destruct c, c'; simpl. intros -> -> -> -> -> []. by split. Qed.

Lemma account_inv_frame c c' :
  entries c' = entries c -> pending c' = pending c -> e_heap c' = e_heap c -> l_heap c' = l_heap c ->
  resident_bytes (cstats c') = resident_bytes (cstats c) -> reserved_bytes (cstats c') = reserved_bytes (cstats c) ->
  staging_used_bytes (cstats c') = staging_used_bytes (cstats c) -> active_loads (cstats c') = active_loads (cstats c) ->
  account_inv c -> account_inv c'.
Proof. destruct c, c'; simpl. intros -> -> -> -> E1 E2 E3 E4 []. simpl in *. by split; simpl; rewrite ?E1, ?E2, ?E3, ?E4. Qed.

Lemma loads_inv_frame c c' :
  pending c' = pending c -> e_heap c' = e_heap c -> l_heap c' = l_heap c -> loads_inv c -> loads_inv c'.
Proof. destruct c, c'; simpl. intros -> -> -> []. by split. Qed.

Lemma canonical_inv_frame objects c c' :
  config c' = config c -> canonical_descriptors c' = canonical_descriptors c -> e_heap c' = e_heap c ->
  canonical_inv objects c -> canonical_inv objects c'.
Proof. destruct c, c'; simpl. intros -> -> -> []. by split. Qed.

(** The cache's own part of the invariant. *)
Record cache_inv (objects : positive -> descriptor) (c : ram_cache) : Prop := {
  ci_config : config_ok c;
  ci_arena : arena_inv c;
  ci_retention : retention_inv c;
  ci_account : account_inv c;
  ci_loads : loads_inv c;
  ci_canonical : canonical_inv objects c;
}.

(** Operations that change neither the arena nor the books. *)
Lemma cache_inv_frame objects c c' :
  config c' = config c -> canonical_descriptors c' = canonical_descriptors c -> entries c' = entries c ->
  by_offset c' = by_offset c -> pending c' = pending c -> e_heap c' = e_heap c -> l_heap c' = l_heap c ->
  resident_bytes (cstats c') = resident_bytes (cstats c) -> reserved_bytes (cstats c') = reserved_bytes (cstats c) ->
  staging_used_bytes (cstats c') = staging_used_bytes (cstats c) -> active_loads (cstats c') = active_loads (cstats c) ->
  retention_inv c' -> cache_inv objects c -> cache_inv objects c'.
Proof.
  intros E1 E2 E3 E4 E5 E6 E7 E8 E9 E10 E11 Hr [H1 H2 H3 H4 H5 H6].
  split; [eapply config_ok_frame|eapply arena_inv_frame| |eapply account_inv_frame|eapply loads_inv_frame
    |eapply canonical_inv_frame]; eauto.
Qed.

(** ** The retention operations on the cache *)

Lemma on_kept_observe c k :
  retention_inv c ->
  exists r, observe_key k c = (Ok tt, c <| kept := r |>) /\ retention_inv (c <| kept := r |>) /\
    (forall k', is_Some (observations (kept c) !! k') -> is_Some (observations r !! k')) /\
    (frequency_retention (config c) = true -> is_Some (observations r !! k)).
Proof.
  intros [Hwf Hidx Hobs].
  destruct (observe_ok (key_of c) (frequency_retention (config c)) k (kept c) Hwf) as (r & Hr & Hwf' & Hp & Hk & Hmono & _).
  { intros Hf. apply Forall_forall. intros id Hid. apply (Hobs Hf). left. apply Hidx in Hid. by eexists. }
  exists r. split_and!; [|split|done|done].
  - unfold observe_key, mbind, M_bind, get, on_kept. by rewrite Hr.
  - done.
  - intros id. simpl. rewrite Hp. apply Hidx.
  - intros Hf k' Hk'. apply Hmono. by apply (Hobs Hf).
Qed.

Lemma on_kept_touch c id inserted :
  retention_inv c -> resident_id c id ->
  exists r, touch_entry id inserted c = (Ok tt, c <| kept := r |>) /\ retention_inv (c <| kept := r |>) /\
    observations r = observations (kept c).
Proof.
  intros [Hwf Hidx Hobs] Hid.
  destruct (touch_ok (key_of c) (frequency_retention (config c)) id inserted (kept c) Hwf)
    as (r & Hr & Hwf' & Hp & Ho & _).
  { by apply Hidx. }
  { intros Hf. constructor; [|constructor]. apply (Hobs Hf). left. by eexists. }
  exists r. split_and!; [|split|done].
  - unfold touch_entry, mbind, M_bind, get, on_kept. by rewrite Hr.
  - done.
  - intros id'. simpl. rewrite Hp. apply Hidx.
  - intros Hf k' Hk'. simpl. rewrite Ho. by apply (Hobs Hf).
Qed.

(** A hit only touches the retention state, a counter and one pin. *)
Lemma hit_ok objects c id :
  cache_inv objects c -> resident_id c id ->
  exists r, hit id c = (Ok id, add_pins id 1 (upd_stats (fun s => s <| hits ::= Z.succ |>) (c <| kept := r |>))) /\
    cache_inv objects (add_pins id 1 (upd_stats (fun s => s <| hits ::= Z.succ |>) (c <| kept := r |>))) /\
    observations r = observations (kept c).
Proof.
  intros Hi Hid. destruct (on_kept_touch c id false (ci_retention _ _ Hi) Hid) as (r & Hr & Hri & Ho).
  exists r. split_and!; [| |done].
  - unfold hit, mbind, M_bind. rewrite Hr. done.
  - eapply cache_inv_frame; [..|exact Hi]; try done.
    eapply retention_inv_frame; [..|exact Hri]; done.
Qed.

(** ** Reservations of victims *)

Definition mark (by_load : option positive) (ids : list positive) (h : gmap positive entry) : gmap positive entry :=
  foldl (fun h v => alter (fun e => e <| e_reserved_by := by_load |>) v h) h ids.

Lemma lookup_mark by_load ids h id :
  mark by_load ids h !! id =
  (fun e => if decide (id ∈ ids) then e <| e_reserved_by := by_load |> else e) <$> h !! id.
Proof.
  unfold mark. revert h. induction ids as [|v ids IH]; intros h; simpl.
  - by destruct (h !! id).
  - rewrite IH. destruct (decide (id = v)) as [->|Hne].
    + rewrite lookup_alter_eq. destruct (h !! v); simpl; [|done].
      rewrite (decide_True (P := v ∈ v :: ids)) by set_solver. by case_decide.
    + rewrite lookup_alter_ne by done. destruct (h !! id); simpl; [|done].
      destruct (decide (id ∈ ids)); [rewrite decide_True by set_solver|rewrite decide_False by set_solver]; done.
Qed.

Definition unmark (load : positive) (ids : list positive) (h : gmap positive entry) : gmap positive entry :=
  foldl (fun h v => if bool_decide (e_reserved_by (h !!! v) = Some load)
                    then alter (fun e => e <| e_reserved_by := None |>) v h else h) h ids.

Lemma lookup_unmark load ids h id :
  unmark load ids h !! id =
  (fun e => if decide (id ∈ ids /\ e_reserved_by e = Some load) then e <| e_reserved_by := None |> else e) <$> h !! id.
Proof.
  unfold unmark. revert h. induction ids as [|v ids IH]; intros h; simpl.
  - by destruct (h !! id).
  - rewrite IH. case_bool_decide as Hv.
    + destruct (decide (id = v)) as [->|Hne].
      * rewrite lookup_alter_eq. rewrite lookup_total_alt in Hv. destruct (h !! v) as [e|]; simpl in *; [|done].
        rewrite decide_False by (intros [_ ?]; done). rewrite decide_True; [done|]. split; [left|done].
      * rewrite lookup_alter_ne by done. destruct (h !! id); simpl; [|done]. f_equal.
        apply decide_ext. set_solver.
    + destruct (h !! id) as [e|] eqn:E; simpl; [|done]. f_equal. apply decide_ext.
      rewrite elem_of_cons. split; [tauto|]. intros [[->|?] He]; [|done]. exfalso. apply Hv.
      by rewrite lookup_total_alt, E.
Qed.

(** ** Admission of a fill *)

Lemma for_each_modify {A} (l : list A) (f : A -> ram_cache -> ram_cache) c :
  for_each l (fun x => modify (f x)) c = (Ok tt, foldl (fun c x => f x c) c l).
Proof. revert c. induction l as [|x l IH]; intros c; [done|]. simpl. apply IH. Qed.

Lemma reserve_victims_run load victims c :
  reserve_victims load victims c = (Ok tt, c <| e_heap := mark (Some load) victims (e_heap c) |>).
Proof.
  unfold reserve_victims. rewrite for_each_modify. f_equal. unfold mark.
  revert c. induction victims as [|v victims IH]; intros c; simpl; [by destruct c|]. rewrite IH. by destruct c.
Qed.

Section admission.
Context (objects : positive -> descriptor) (c : ram_cache) (value : dptr).
Context (offset : Z) (victims : list positive) (slot : Z).

Definition new_result : positive := fresh (dom (e_heap c)).
Definition new_load : positive := fresh (dom (l_heap c)).

Definition admitted_stats (s : cache_stats) : cache_stats :=
  let s := s <| misses ::= Z.succ |> <| active_loads ::= Z.succ |> in
  let s := s <| peak_active_loads := Z.max (peak_active_loads s) (active_loads s) |>
             <| reserved_bytes ::= Z.add (dp_bytes value) |>
             <| staging_used_bytes ::= Z.add (dp_bytes value) |> in
  s <| peak_staging_used_bytes := Z.max (peak_staging_used_bytes s) (staging_used_bytes s) |>.

Definition admitted : ram_cache :=
  c <| e_heap ::= fun h => mark (Some new_load) victims (<[new_result := mk_entry value None 0 true None]> h) |>
    <| l_heap ::= <[new_load := mk_load loading new_result victims slot offset None]> |>
    <| pending ::= <[dp_key value := new_load]> |>
    <| cstats ::= admitted_stats |>.

Lemma admit_run :
  admit_fill value offset victims slot c =
  if negb (forallb (extent_registered c) (d_extents (dp_desc value)))
  then (Err (invalid_argument "expert descriptor source identity does not match the registered source"), c)
  else (Ok (Suspended (Reading new_load value (d_extents (dp_desc value)) slot [0; 0; 0])), admitted).
Proof.
  unfold admit_fill, mbind, M_bind, get. destruct (negb _); [done|]. unfold modify at 1 2 3.
  rewrite reserve_victims_run. unfold modify, upd_stats. done.
Qed.

Context (Hi : cache_inv objects c).
Context (Hcan : canonical_descriptors c !! dp_key value = Some value).
Context (Hent : entries c !! dp_key value = None) (Hpen : pending c !! dp_key value = None).
Context (Hplan : plan_good c (dp_bytes value) None offset victims).
Context (Hslot : 0 <= slot /\ slot + dp_bytes value <= staging_bytes (config c) /\
  forall load, pending_id c load -> idisj (slot, slot + dp_bytes value) (s_span c load)).
Context (Hobs : frequency_retention (config c) = true -> is_Some (observations (kept c) !! dp_key value)).

Lemma new_result_fresh : e_heap c !! new_result = None.
Proof. apply not_elem_of_dom. apply is_fresh. Qed.

Lemma new_load_fresh : l_heap c !! new_load = None.
Proof. apply not_elem_of_dom. apply is_fresh. Qed.

Lemma victims_old v : v ∈ victims -> is_Some (e_heap c !! v).
Proof.
  intros Hv. destruct Hplan as (_ & _ & Hvs & _). destruct (Hvs v Hv) as [[Hres _] _].
  by apply (ai_entries c (ci_arena _ _ Hi)) in Hres as [_ ?].
Qed.

Lemma admitted_entry id :
  entry_of admitted id =
  if decide (id = new_result) then mk_entry value None 0 true None
  else if decide (id ∈ victims) then (entry_of c id) <| e_reserved_by := Some new_load |> else entry_of c id.
Proof.
  unfold entry_of. rewrite !lookup_total_alt. simpl. rewrite lookup_mark.
  destruct (decide (id = new_result)) as [->|Hne].
  - rewrite lookup_insert_eq. simpl. rewrite decide_False; [done|].
    intros [? Hv]%victims_old. pose proof new_result_fresh. congruence.
  - rewrite lookup_insert_ne by done. destruct (e_heap c !! id) eqn:E; simpl; [by case_decide|].
    rewrite decide_False; [done|]. intros [? ?]%victims_old. congruence.
Qed.

Lemma admitted_desc id : id <> new_result -> desc_of admitted id = desc_of c id.
Proof. intros Hne. unfold desc_of. rewrite admitted_entry, decide_False by done. by case_decide. Qed.

Lemma admitted_old id :
  is_Some (e_heap c !! id) ->
  desc_of admitted id = desc_of c id /\ e_offset (entry_of admitted id) = e_offset (entry_of c id) /\
  e_data (entry_of admitted id) = e_data (entry_of c id) /\
  e_ready (entry_of admitted id) = e_ready (entry_of c id) /\
  e_reserved_by (entry_of admitted id) =
    if decide (id ∈ victims) then Some new_load else e_reserved_by (entry_of c id).
Proof.
  intros [e He]. assert (id <> new_result) by (intros ->; pose proof new_result_fresh; congruence).
  rewrite admitted_desc by done. rewrite admitted_entry, decide_False by done. by case_decide.
Qed.

Lemma admitted_load load :
  load_of admitted load =
  if decide (load = new_load) then mk_load loading new_result victims slot offset None else load_of c load.
Proof.
  unfold load_of. rewrite !lookup_total_alt. simpl. case_decide; subst.
  - by rewrite lookup_insert_eq.
  - by rewrite lookup_insert_ne.
Qed.

Lemma admitted_resident id : resident_id admitted id <-> resident_id c id.
Proof.
  pose proof (ai_entries c (ci_arena _ _ Hi)) as He. unfold resident_id, key_of. simpl. split; intros H.
  - apply He in H as Hk. destruct Hk as [Hk Hs]. destruct (admitted_old id Hs) as (Hd & _).
    rewrite Hd in H. done.
  - apply He in H as Hk. destruct Hk as [_ Hs]. destruct (admitted_old id Hs) as (-> & _). done.
Qed.

Lemma admitted_resident_1 id : resident_id admitted id -> resident_id c id.
Proof. by rewrite admitted_resident. Qed.

Lemma pending_old load : pending_id c load ->
  load <> new_load /\ is_Some (l_heap c !! load) /\ is_Some (e_heap c !! l_result (load_of c load)).
Proof.
  intros Hp. destruct (ai_pending c (ci_arena _ _ Hi) _ _ Hp) as (_ & [l Hl] & ? & _).
  split_and!; [|by eexists|done]. intros ->. pose proof new_load_fresh. congruence.
Qed.

Lemma admitted_pending load : pending_id admitted load <-> load = new_load \/ pending_id c load.
Proof.
  unfold pending_id. rewrite admitted_load. unfold key_of. simpl. split.
  - intros H. case_decide as Hd; [by left|]. right. apply lookup_insert_Some in H as [[_ <-]|[_ H]]; [done|].
    by destruct (ai_pending c (ci_arena _ _ Hi) _ _ H) as (Hk & _); unfold key_of in Hk; rewrite <- Hk.
  - intros [->|Hp].
    + rewrite decide_True by done. simpl. unfold desc_of. rewrite admitted_entry, decide_True by done.
      by rewrite lookup_insert_eq.
    + destruct (pending_old load Hp) as (Hne & _ & Hs). rewrite decide_False by done.
      destruct (admitted_old _ Hs) as (-> & _). rewrite lookup_insert_ne; [done|].
      unfold pending_id, key_of in Hp. congruence.
Qed.

Lemma admitted_l_bytes load : load = new_load \/ pending_id c load ->
  l_bytes admitted load = (if decide (load = new_load) then dp_bytes value else l_bytes c load).
Proof.
  intros H. unfold l_bytes, bytes_of. rewrite admitted_load. case_decide as Hd.
  - simpl. unfold desc_of. by rewrite admitted_entry, decide_True.
  - destruct H as [|Hp]; [done|]. destruct (pending_old load Hp) as (_ & _ & Hs).
    by destruct (admitted_old _ Hs) as (-> & _).
Qed.

Lemma admitted_l_span load : load = new_load \/ pending_id c load ->
  l_span admitted load = (if decide (load = new_load) then (offset, offset + dp_bytes value) else l_span c load) /\
  s_span admitted load = (if decide (load = new_load) then (slot, slot + dp_bytes value) else s_span c load).
Proof.
  intros H. unfold l_span, s_span. rewrite admitted_l_bytes by done. rewrite admitted_load. by case_decide.
Qed.

Lemma admitted_e_span id : resident_id c id -> e_span admitted id = e_span c id.
Proof.
  intros H. apply (ai_entries c (ci_arena _ _ Hi)) in H as [_ Hs].
  unfold e_span, bytes_of. by destruct (admitted_old _ Hs) as (-> & -> & _).
Qed.

Lemma new_load_not_pending : ~ pending_id c new_load.
Proof. intros Hp. by destruct (pending_old _ Hp). Qed.

Lemma admitted_phase load p : pending_id c load -> in_phase admitted load p <-> in_phase c load p.
Proof.
  intros Hp. unfold in_phase. rewrite admitted_load, decide_False; [done|]. by apply pending_old.
Qed.

Lemma admitted_arena : arena_inv admitted.
Proof.
  pose proof (ci_arena _ _ Hi) as Ha. pose proof (ai_entries c Ha) as He.
  destruct Hplan as (Hin & Hnd & Hvs & Hfr & Hfp). destruct Hslot as (Hs0 & Hs1 & Hss).
  assert (Hheap : forall id, resident_id c id -> is_Some (e_heap c !! id)) by (intros id H; by apply He in H as [_ ?]).
  split.
  - intros k id Hk. apply He in Hk as [Hk Hs]. destruct (admitted_old id Hs) as (Hd & _). unfold key_of.
    rewrite Hd. split; [done|]. simpl. rewrite lookup_mark, fmap_is_Some. destruct (decide (id = new_result)) as [->|];
      [by rewrite lookup_insert_eq; eexists|by rewrite lookup_insert_ne].
  - intros o id. rewrite admitted_resident. simpl. rewrite (ai_offset c Ha). split; intros [Hres Ho];
      destruct (admitted_old id (Hheap _ Hres)) as (_ & Hoff & _); rewrite Hoff in *; done.
  - apply (ai_sorted c Ha).
  - intros id Hres%admitted_resident_1. pose proof (ai_placed c Ha id Hres) as [Hpl Hda].
    destruct (admitted_old id (Hheap _ Hres)) as (Hd & Ho & Hdata & _). unfold bytes_of. rewrite Hd, Ho, Hdata. done.
  - intros id id' H1%admitted_resident_1 H2%admitted_resident_1 Hne. rewrite !admitted_e_span by done.
    by apply (ai_apart c Ha).
  - intros k load Hk. simpl in Hk. assert (Hor : load = new_load \/ pending_id c load).
    { apply lookup_insert_Some in Hk as [[_ <-]|[_ Hk]]; [by left|right].
      unfold pending_id. by destruct (ai_pending c Ha _ _ Hk) as (<- & _). }
    rewrite admitted_l_bytes, admitted_load by done. destruct (decide (load = new_load)) as [->|Hne]; simpl.
    + split_and!; try done.
      * apply lookup_insert_Some in Hk as [[<- _]|[_ Hk]].
        { unfold key_of, desc_of. by rewrite admitted_entry, decide_True. }
        exfalso. apply new_load_not_pending. unfold pending_id. by destruct (ai_pending c Ha _ _ Hk) as (<- & _).
      * by rewrite lookup_insert_eq.
      * rewrite lookup_mark, lookup_insert_eq. by eexists.
      * unfold phase_ok. rewrite admitted_load, decide_True by done. simpl. unfold key_of, desc_of.
        rewrite admitted_entry, decide_True by done. done.
    + destruct Hor as [|Hp]; [done|]. destruct (pending_old load Hp) as (_ & Hl & Hs).
      destruct (ai_pending c Ha _ _ Hp) as (_ & _ & _ & Harea & Hst0 & Hst1 & Hph).
      destruct (admitted_old _ Hs) as (Hd & Ho & _ & Hrd & Hrs).
      split_and!; try done.
      * simpl in Hk. apply lookup_insert_Some in Hk as [[_ Hk]|[_ Hk]]; [done|].
        destruct (ai_pending c Ha _ _ Hk) as (-> & _). unfold key_of. by rewrite Hd.
      * rewrite lookup_insert_ne by done. done.
      * rewrite lookup_mark, fmap_is_Some. destruct (decide (l_result (load_of c load) = new_result)) as [->|];
          [by rewrite lookup_insert_eq; eexists|by rewrite lookup_insert_ne].
      * unfold phase_ok in *. rewrite admitted_load, decide_False by done. unfold key_of in *. rewrite Hd, Ho, Hrd.
        destruct (l_phase (load_of c load)); try done. destruct Hph as [Hn Hr]. split; [done|].
        rewrite Hrs, decide_False; [done|]. intros Hv. destruct (Hvs _ Hv) as [[Hres _] _].
        unfold resident_id, key_of in Hres. congruence.
  - intros id Hres%admitted_resident_1. destruct (admitted_old id (Hheap _ Hres)) as (_ & _ & _ & -> & _). intros Hnr.
    destruct (ai_notready c Ha id Hres Hnr) as (load & Hp & Hph & Hr). exists load.
    rewrite admitted_pending, admitted_phase, admitted_load, decide_False by (done || by apply pending_old). auto.
  - intros load v Hp Hph. rewrite admitted_load. intros Hv. unfold live_id. rewrite admitted_resident.
    case_decide as Hd; simpl in Hv.
    + destruct (Hvs v Hv) as [[Hres Hrd] _]. destruct (admitted_old v (Hheap _ Hres)) as (_ & _ & _ & -> & ->).
      rewrite decide_True by done. by subst.
    + apply admitted_pending in Hp as [|Hp]; [done|]. apply admitted_phase in Hph; [|done].
      destruct (ai_victims c Ha load v Hp Hph Hv) as [[Hres Hrd] Hrs].
      destruct (admitted_old v (Hheap _ Hres)) as (_ & _ & _ & -> & ->).
      rewrite decide_False; [done|]. intros Hv'. destruct (Hvs v Hv') as (_ & _ & [Hn|(? & _ & ?)]); congruence.
  - intros load Hp Hph. rewrite admitted_load. case_decide as Hd; [done|].
    apply admitted_pending in Hp as [|Hp]; [done|]. apply admitted_phase in Hph; [|done]. by apply (ai_victims_nodup c Ha).
  - intros id load Hres%admitted_resident_1. destruct (admitted_old id (Hheap _ Hres)) as (_ & _ & _ & _ & ->).
    case_decide as Hd; [intros [= <-]|intros Hrs].
    + rewrite admitted_pending, admitted_load, decide_True by done. split_and!; [by left| |done].
      unfold in_phase. by rewrite admitted_load, decide_True.
    + destruct (ai_reserved c Ha id load Hres Hrs) as (Hp & Hph & Hv).
      rewrite admitted_pending, admitted_phase, admitted_load, decide_False by (done || by apply pending_old). auto.
  - intros load id Hp Hph Hres%admitted_resident_1. rewrite admitted_load. intros Hv.
    rewrite admitted_e_span by done. apply admitted_pending in Hp as Hor.
    destruct (admitted_l_span load Hor) as [-> _]. case_decide as Hd; [auto|].
    destruct Hor as [|Hp']; [done|]. apply admitted_phase in Hph; [|done]. by apply (ai_fill_resident c Ha).
  - intros load load' H1 H2 Hne. apply admitted_pending in H1, H2.
    destruct (admitted_l_span load H1) as [-> ->]. destruct (admitted_l_span load' H2) as [-> ->].
    destruct (decide (load = new_load)), (decide (load' = new_load)); subst; try done.
    + destruct H2 as [|H2]; [done|]. split; [by apply Hfp|by apply Hss].
    + destruct H1 as [|H1]; [done|]. split; symmetry; [by apply Hfp|by apply Hss].
    + destruct H1, H2; try done. by apply (ai_fills c Ha).
Qed.

Lemma admitted_retention : retention_inv admitted.
Proof.
  pose proof (ci_arena _ _ Hi) as Ha. destruct (ci_retention _ _ Hi) as [Hwf Hidx Hob]. split.
  - eapply retention_wf_key; [|exact Hwf]. intros id Hid. apply Hidx in Hid.
    apply (ai_entries c Ha) in Hid as [_ Hs]. unfold key_of. by destruct (admitted_old id Hs) as (-> & _).
  - intros id. rewrite admitted_resident. apply Hidx.
  - simpl. intros Hf k [Hk|Hk]; [auto|]. destruct (decide (k = dp_key value)) as [->|Hne]; [auto|].
    rewrite lookup_insert_ne in Hk by done. auto.
Qed.

Lemma admitted_account : account_inv admitted.
Proof.
  pose proof (ci_arena _ _ Hi) as Ha. destruct (ci_account _ _ Hi) as [Hres Hrsv Hstg Hn].
  assert (Hsum : msum (fun _ load => l_bytes admitted load) (pending admitted) =
    dp_bytes value + msum (fun _ load => l_bytes c load) (pending c)).
  { simpl. rewrite msum_insert by done. rewrite admitted_l_bytes, decide_True by auto. f_equal.
    apply msum_ext. intros k load Hk.
    assert (Hp : pending_id c load) by (unfold pending_id; by destruct (ai_pending c Ha _ _ Hk) as (<- & _)).
    rewrite admitted_l_bytes, decide_False by (auto || by apply pending_old). done. }
  split.
  - simpl. rewrite Hres. apply msum_ext. intros k id Hk. apply (ai_entries c Ha) in Hk as [_ Hs].
    unfold bytes_of. by destruct (admitted_old id Hs) as (-> & _ & _ & -> & _).
  - rewrite Hsum. simpl. lia.
  - rewrite Hsum. simpl. lia.
  - simpl. rewrite map_size_insert_None by done. lia.
Qed.

Lemma admitted_loads : loads_inv admitted.
Proof.
  destruct (ci_loads _ _ Hi) as [H1 H2 H3 H4].
  assert (Hheap : forall id, is_Some (e_heap c !! id) -> is_Some (e_heap admitted !! id)).
  { intros id Hs. simpl. rewrite lookup_mark, fmap_is_Some. destruct (decide (id = new_result)) as [->|];
      [by rewrite lookup_insert_eq; eexists|by rewrite lookup_insert_ne]. }
  split; simpl.
  - intros load l [[<- <-]|[Hne Hl]]%lookup_insert_Some; [|eauto]. rewrite lookup_mark, lookup_insert_eq. by eexists.
  - intros load l [[<- <-]|[Hne Hl]]%lookup_insert_Some; [|eauto]. split; [done|]. by intros [].
  - intros load l [[<- <-]|[Hne Hl]]%lookup_insert_Some Hph; apply admitted_pending; eauto.
  - intros load l e [[<- <-]|[Hne Hl]]%lookup_insert_Some; [done|eauto].
Qed.

Lemma admitted_canonical : canonical_inv objects admitted.
Proof.
  destruct (ci_canonical _ _ Hi) as [H1 H2]. split; [done|].
  simpl. intros id e. rewrite lookup_mark. destruct (decide (id = new_result)) as [->|Hne].
  - rewrite lookup_insert_eq. simpl. intros [= <-]. by case_decide.
  - rewrite lookup_insert_ne by done. destruct (e_heap c !! id) as [e'|] eqn:E; [|done].
    simpl. intros [= <-]. case_decide; simpl; eauto.
Qed.

Lemma admitted_inv : cache_inv objects admitted.
Proof.
  split; [|apply admitted_arena|apply admitted_retention|apply admitted_account|apply admitted_loads|apply admitted_canonical].
  eapply config_ok_frame; [|apply Hi]. done.
Qed.
End admission.

(** ** The end of a fill *)

Lemma release_victims_run load ids c :
  for_each ids (fun victim => modify (fun c =>
    if bool_decide (e_reserved_by (entry_of c victim) = Some load)
    then upd_entry victim (fun e => e <| e_reserved_by := None |>) c else c)) c =
  (Ok tt, c <| e_heap := unmark load ids (e_heap c) |>).
Proof.
  rewrite for_each_modify. f_equal. unfold unmark.
  revert c. induction ids as [|v ids IH]; intros c; simpl; [by destruct c|]. rewrite IH.
  unfold entry_of. case_bool_decide; by destruct c.
Qed.

Lemma unmark_desc load ids h id : e_desc (unmark load ids h !!! id) = e_desc (h !!! id).
Proof.
  rewrite !lookup_total_alt, lookup_unmark. destruct (h !! id); simpl; [|done]. by case_decide.
Qed.

Definition released_stats (bytes : Z) (s : cache_stats) : cache_stats :=
  s <| reserved_bytes ::= fun x => x - bytes |> <| staging_used_bytes ::= fun x => x - bytes |>
    <| active_loads ::= Z.pred |>.

Definition released (load : positive) (c : ram_cache) : ram_cache :=
  c <| e_heap ::= unmark load (l_victims (load_of c load)) |>
    <| cstats ::= released_stats (l_bytes c load) |>
    <| pending ::= delete (key_of c (l_result (load_of c load))) |>.

Lemma release_run load c : release_reservation load c = (Ok tt, released load c).
Proof.
  unfold release_reservation, mbind, M_bind, get. rewrite release_victims_run. unfold modify, upd_stats, released.
  f_equal. destruct c. simpl. unfold key_of, desc_of, entry_of, set_field. simpl. rewrite unmark_desc. done.
Qed.

(** A fill leaves [pending_]: [g] is the change of its load; a finished fill
    also makes its entry ready. *)
Section retirement.
Context (objects : positive -> descriptor) (c : ram_cache) (load : positive).
Context (g : pending_load -> pending_load) (finished : bool).

Definition retired : ram_cache :=
  c <| e_heap ::= fun h => unmark load (l_victims (load_of c load))
         (if finished then alter (fun e => e <| e_ready := true |>) (l_result (load_of c load)) h else h) |>
    <| l_heap ::= alter g load |>
    <| pending ::= delete (key_of c (l_result (load_of c load))) |>
    <| cstats ::= fun s => released_stats (l_bytes c load)
         (if finished then s <| resident_bytes ::= Z.add (l_bytes c load) |> else s) |>.

Context (Hi : cache_inv objects c) (Hp : pending_id c load).
Context (Hg : l_result (g (load_of c load)) = l_result (load_of c load) /\
  (l_phase (g (load_of c load)) = failed <-> is_Some (l_error (g (load_of c load)))) /\
  l_phase (g (load_of c load)) = if finished then ready else failed).
Context (Hext : forall e, l_error (g (load_of c load)) = Some e -> internal_error e = false).
Context (Hphase : in_phase c load (if finished then copying else loading)).

Lemma load_heap : l_heap c !! load = Some (load_of c load).
Proof.
  destruct (ai_pending c (ci_arena _ _ Hi) _ _ Hp) as (_ & [l Hl] & _).
  unfold load_of. by rewrite lookup_total_alt, Hl.
Qed.

Lemma retired_desc id : desc_of retired id = desc_of c id.
Proof.
  clear Hg Hext Hphase.
  unfold desc_of, entry_of. simpl. rewrite unmark_desc. destruct finished; [|done].
  rewrite !lookup_total_alt. destruct (decide (id = l_result (load_of c load))) as [->|Hne].
  - rewrite lookup_alter_eq. by destruct (e_heap c !! _).
  - by rewrite lookup_alter_ne.
Qed.

Lemma retired_key id : key_of retired id = key_of c id.
Proof. unfold key_of. by rewrite retired_desc. Qed.

Lemma retired_bytes id : bytes_of retired id = bytes_of c id.
Proof. unfold bytes_of. by rewrite retired_desc. Qed.

Lemma retired_resident id : resident_id retired id <-> resident_id c id.
Proof. unfold resident_id. by rewrite retired_key. Qed.

Lemma retired_entry id :
  e_offset (entry_of retired id) = e_offset (entry_of c id) /\
  e_data (entry_of retired id) = e_data (entry_of c id) /\
  e_ready (entry_of retired id) =
    (finished && bool_decide (id = l_result (load_of c load))) || e_ready (entry_of c id) /\
  (e_reserved_by (entry_of retired id) =
    if decide (id ∈ l_victims (load_of c load) /\ e_reserved_by (entry_of c id) = Some load)
    then None else e_reserved_by (entry_of c id)).
Proof.
  clear Hg Hext Hphase.
  assert (Hr : is_Some (e_heap c !! l_result (load_of c load))).
  { by destruct (ai_pending c (ci_arena _ _ Hi) _ _ Hp) as (_ & _ & ? & _). }
  unfold entry_of. rewrite !lookup_total_alt. simpl. rewrite lookup_unmark.
  set (h := if finished then _ else _).
  assert (Hh : h !! id = (fun e => if finished && bool_decide (id = l_result (load_of c load))
                           then e <| e_ready := true |> else e) <$> e_heap c !! id).
  { unfold h. destruct finished; simpl; [|by destruct (e_heap c !! id)].
    destruct (decide (id = l_result (load_of c load))) as [->|Hne].
    - by rewrite lookup_alter_eq, bool_decide_eq_true_2.
    - rewrite lookup_alter_ne, bool_decide_eq_false_2 by done. by destruct (e_heap c !! id). }
  rewrite Hh. destruct (e_heap c !! id) as [e|] eqn:E; simpl.
  - destruct (finished && _); simpl; case_decide; simpl; auto.
  - split_and!; [done|done| |by repeat case_decide]. destruct finished; [|done]. simpl.
    rewrite bool_decide_eq_false_2; [done|]. intros ->. destruct Hr as [? ?]. congruence.
Qed.

(** Entries in the index only lose the reservation of this fill. *)
Lemma retired_reserved id l :
  resident_id c id -> e_reserved_by (entry_of retired id) = Some l <->
  e_reserved_by (entry_of c id) = Some l /\ l <> load.
Proof.
  intros Hres. destruct (retired_entry id) as (_ & _ & _ & ->). case_decide as Hd.
  - destruct Hd as [_ Hd]. split; [done|]. intros [? ?]. congruence.
  - split; [|tauto]. intros Hl. split; [done|]. intros ->. apply Hd.
    by destruct (ai_reserved c (ci_arena _ _ Hi) id load Hres Hl) as (_ & _ & ?).
Qed.

Lemma retired_load l : load_of retired l = if decide (l = load) then g (load_of c load) else load_of c l.
Proof.
  unfold load_of at 1. rewrite lookup_total_alt. simpl. case_decide; subst.
  - rewrite lookup_alter_eq, load_heap. done.
  - rewrite lookup_alter_ne by done. unfold load_of. by rewrite lookup_total_alt.
Qed.

Lemma pending_key l k : pending c !! k = Some l -> pending_id c l.
Proof. intros Hk. unfold pending_id. by destruct (ai_pending c (ci_arena _ _ Hi) _ _ Hk) as (<- & _). Qed.

Lemma retired_pending l : pending_id retired l <-> pending_id c l /\ l <> load.
Proof.
  unfold pending_id at 1. rewrite retired_load, retired_key. simpl. rewrite lookup_delete_Some. split.
  - intros [Hne Hl]. split; [by eapply pending_key|]. intros ->. rewrite decide_True in Hne by done.
    destruct Hg as [Hr _]. congruence.
  - intros [Hl Hne]. rewrite decide_False by done. split; [|done]. intros Hk. apply Hne.
    unfold pending_id in *. congruence.
Qed.

Lemma retired_lookup k l : pending retired !! k = Some l -> pending c !! k = Some l /\ l <> load.
Proof.
  simpl. rewrite lookup_delete_Some. intros [Hne Hk]. split; [done|]. intros ->. apply Hne.
  by destruct (ai_pending c (ci_arena _ _ Hi) _ _ Hk) as (-> & _).
Qed.

Lemma retired_spans l : l <> load ->
  l_span retired l = l_span c l /\ s_span retired l = s_span c l /\ l_bytes retired l = l_bytes c l.
Proof.
  intros Hne. unfold l_span, s_span, l_bytes. by rewrite retired_load, decide_False, retired_bytes by done.
Qed.

Lemma retired_e_span id : e_span retired id = e_span c id.
Proof. unfold e_span. rewrite retired_bytes. by destruct (retired_entry id) as (-> & _). Qed.

Lemma retired_phase l p : l <> load -> in_phase retired l p <-> in_phase c l p.
Proof. intros Hne. unfold in_phase. by rewrite retired_load, decide_False. Qed.

(** The entry a finished fill makes ready. *)
Lemma result_resident : finished = true ->
  resident_id c (l_result (load_of c load)) /\ e_ready (entry_of c (l_result (load_of c load))) = false.
Proof.
  intros Hf. destruct (ai_pending c (ci_arena _ _ Hi) _ _ Hp) as (_ & _ & _ & _ & _ & _ & Hph).
  unfold phase_ok in Hph. unfold in_phase in Hphase. rewrite Hf in Hphase. rewrite Hphase in Hph.
  unfold resident_id. tauto.
Qed.

Lemma results_differ l : pending_id c l -> l <> load -> l_result (load_of c l) <> l_result (load_of c load).
Proof. intros Hl Hne Heq. unfold pending_id in *. rewrite Heq in Hl. congruence. Qed.

Lemma retired_phase_ok l : pending_id c l -> l <> load -> phase_ok c l -> phase_ok retired l.
Proof.
  intros Hl Hne. unfold phase_ok. rewrite retired_load, decide_False by done. rewrite retired_key.
  destruct (retired_entry (l_result (load_of c l))) as (-> & _ & -> & ->).
  rewrite (bool_decide_eq_false_2 (_ = _)) by by apply results_differ.
  rewrite andb_false_r. simpl. destruct (l_phase (load_of c l)); try done.
  intros [? Hn]. split; [done|]. rewrite Hn. by case_decide.
Qed.

Lemma retired_arena : arena_inv retired.
Proof.
  pose proof (ci_arena _ _ Hi) as Ha. split.
  - intros k id Hk. rewrite retired_key. apply (ai_entries c Ha) in Hk as [? Hs]. split; [done|]. simpl.
    rewrite lookup_unmark, fmap_is_Some. destruct finished; [|done].
    destruct (decide (id = l_result (load_of c load))) as [->|];
      [by rewrite lookup_alter_eq, fmap_is_Some|by rewrite lookup_alter_ne].
  - intros o id. rewrite retired_resident. destruct (retired_entry id) as (-> & _). apply (ai_offset c Ha).
  - apply (ai_sorted c Ha).
  - intros id Hres. rewrite retired_resident in Hres. rewrite retired_bytes.
    destruct (retired_entry id) as (-> & -> & _). by apply (ai_placed c Ha).
  - intros id id' H1 H2. rewrite retired_resident in H1, H2. rewrite !retired_e_span. by apply (ai_apart c Ha).
  - intros k l [Hk Hne]%retired_lookup. pose proof (pending_key _ _ Hk) as Hl.
    destruct (ai_pending c Ha _ _ Hk) as (-> & Hh & Hs & Har & H0 & H1 & Hph).
    destruct (retired_spans l Hne) as (_ & _ & ->).
    rewrite retired_load, decide_False, retired_key by done. split_and!; try done.
    + simpl. by rewrite lookup_alter_ne.
    + simpl. rewrite lookup_unmark, fmap_is_Some. destruct finished; [|done].
      rewrite lookup_alter_ne; [done|]. symmetry. by apply results_differ.
    + by apply retired_phase_ok.
  - intros id Hres. rewrite retired_resident in Hres. destruct (retired_entry id) as (_ & _ & -> & _).
    rewrite orb_false_iff. intros [Hn Hr]. destruct (ai_notready c Ha id Hres Hr) as (l & Hl & Hph & Hid).
    assert (Hne : l <> load).
    { intros ->. unfold in_phase in *. rewrite Hphase in Hph. destruct finished; [|done].
      apply andb_false_iff in Hn as [|Hn]; [done|]. by apply bool_decide_eq_false in Hn. }
    exists l. rewrite retired_pending, retired_phase, retired_load, decide_False by done. auto.
  - intros l v Hl Hph Hv. rewrite retired_pending in Hl. destruct Hl as [Hl Hne].
    rewrite retired_phase in Hph by done. rewrite retired_load, decide_False in Hv by done.
    destruct (ai_victims c Ha l v Hl Hph Hv) as [[Hres Hr] Hrs]. split; [split|].
    + by rewrite retired_resident.
    + destruct (retired_entry v) as (_ & _ & -> & _). by rewrite Hr, orb_true_r.
    + by apply retired_reserved.
  - intros l Hl Hph. rewrite retired_pending in Hl. destruct Hl as [Hl Hne].
    rewrite retired_phase in Hph by done. rewrite retired_load, decide_False by done. by apply (ai_victims_nodup c Ha).
  - intros id l Hres. rewrite retired_resident in Hres. rewrite retired_reserved by done. intros [Hrs Hne].
    destruct (ai_reserved c Ha id l Hres Hrs) as (Hl & Hph & Hv).
    rewrite retired_pending, retired_phase, retired_load, decide_False by done. auto.
  - intros l id Hl Hph Hres. rewrite retired_pending in Hl. destruct Hl as [Hl Hne].
    rewrite retired_phase in Hph by done. rewrite retired_resident in Hres.
    rewrite retired_load, decide_False, retired_e_span by done. destruct (retired_spans l Hne) as (-> & _).
    by apply (ai_fill_resident c Ha).
  - intros l l' H1 H2 Hne. rewrite retired_pending in H1, H2. destruct H1 as [H1 N1], H2 as [H2 N2].
    destruct (retired_spans l N1) as (-> & -> & _). destruct (retired_spans l' N2) as (-> & -> & _).
    by apply (ai_fills c Ha).
Qed.

Lemma retired_retention : retention_inv retired.
Proof.
  destruct (ci_retention _ _ Hi) as [Hwf Hidx Hob]. split.
  - eapply retention_wf_key; [|exact Hwf]. intros id _. apply retired_key.
  - intros id. rewrite retired_resident. apply Hidx.
  - intros Hf k [Hk|[l Hk]]; [auto|]. apply retired_lookup in Hk as [Hk _]. apply (Hob Hf). right. by eexists.
Qed.

Lemma retired_account : account_inv retired.
Proof.
  pose proof (ci_arena _ _ Hi) as Ha. destruct (ci_account _ _ Hi) as [Hres Hrsv Hstg Hn].
  assert (Hsum : msum (fun _ l => l_bytes retired l) (pending retired) =
    msum (fun _ l => l_bytes c l) (pending c) - l_bytes c load).
  { rewrite <- (msum_delete (fun _ l => l_bytes c l) _ _ _ Hp). apply msum_ext.
    intros k l [_ Hne]%retired_lookup. by destruct (retired_spans l Hne) as (_ & _ & ->). }
  split.
  - simpl. set (sum := msum _ _).
    assert (Hs : sum = msum (fun _ id => if e_ready (entry_of c id) then bytes_of c id else 0) (entries c) +
                       if finished then l_bytes c load else 0).
    { unfold sum. clear sum. destruct (bool_dec finished true) as [Hfin|Hfin%not_true_is_false].
      - destruct (result_resident Hfin) as [Hr1 Hr2]. unfold resident_id in Hr1.
        rewrite <- (insert_delete_id _ _ _ Hr1). rewrite !msum_insert by apply lookup_delete_eq.
        destruct (retired_entry (l_result (load_of c load))) as (_ & _ & -> & _).
        rewrite Hr2, bool_decide_eq_true_2, retired_bytes, Hfin by done. simpl. unfold l_bytes.
        rewrite (msum_ext _ (fun _ id => if e_ready (entry_of c id) then bytes_of c id else 0)); [lia|].
        intros k id [Hne Hk]%lookup_delete_Some. destruct (retired_entry id) as (_ & _ & -> & _).
        rewrite bool_decide_eq_false_2, retired_bytes, andb_false_r; [done|]. intros ->.
        by apply (ai_entries c Ha) in Hk as [? _].
      - rewrite Hfin, Z.add_0_r. apply msum_ext. intros k id Hk. destruct (retired_entry id) as (_ & _ & -> & _).
        by rewrite retired_bytes, Hfin. }
    rewrite Hs, <- Hres. destruct finished; simpl; lia.
  - rewrite Hsum, <- Hrsv. simpl. by destruct finished.
  - rewrite Hsum, <- Hstg. simpl. by destruct finished.
  - simpl. rewrite map_size_delete, Hp. assert (size (pending c) <> 0%nat).
    { intros Hz%map_size_empty_inv. unfold pending_id in Hp. by rewrite Hz, lookup_empty in Hp. }
    destruct finished; simpl; lia.
Qed.

Lemma retired_heap id : is_Some (e_heap c !! id) -> is_Some (e_heap retired !! id).
Proof.
  clear Hg Hext Hphase.
  intros Hs. simpl. rewrite lookup_unmark, fmap_is_Some. destruct finished; [|done].
  destruct (decide (id = l_result (load_of c load))) as [->|];
    [by rewrite lookup_alter_eq, fmap_is_Some|by rewrite lookup_alter_ne].
Qed.

Lemma retired_l_heap l x : l_heap retired !! l = Some x ->
  (l = load /\ x = g (load_of c load)) \/ (l <> load /\ l_heap c !! l = Some x).
Proof.
  simpl. destruct (decide (l = load)) as [->|Hne].
  - rewrite lookup_alter_eq, load_heap. intros [= <-]. by left.
  - rewrite lookup_alter_ne by done. by right.
Qed.

Lemma retired_loads : loads_inv retired.
Proof.
  destruct (ci_loads _ _ Hi) as [H1 H2 H3 H4]. pose proof Hg as (Hg1 & Hg2 & Hg3). split.
  - intros l x [[-> ->]|[Hne Hl]]%retired_l_heap; apply retired_heap; [|eauto]. rewrite Hg1.
    apply (H1 load). apply load_heap.
  - intros l x [[-> ->]|[Hne Hl]]%retired_l_heap; [done|eauto].
  - intros l x [[-> ->]|[Hne Hl]]%retired_l_heap; intros Hph.
    + rewrite Hg3 in Hph. destruct finished, Hph; done.
    + apply retired_pending. eauto.
  - intros l x e [[-> ->]|[Hne Hl]]%retired_l_heap; eauto.
Qed.

Lemma retired_canonical : canonical_inv objects retired.
Proof.
  destruct (ci_canonical _ _ Hi) as [H1 H2]. split; [done|]. intros id e He.
  assert (Hs : is_Some (e_heap c !! id)).
  { simpl in He. rewrite lookup_unmark in He. destruct finished; [|destruct (e_heap c !! id); [by eexists|done]].
    destruct (decide (id = l_result (load_of c load))) as [->|];
      [rewrite lookup_alter_eq in He|rewrite lookup_alter_ne in He by done]; destruct (e_heap c !! _); done || by eexists. }
  destruct Hs as [e0 He0]. pose proof (retired_desc id) as Hd. unfold desc_of, entry_of in Hd.
  rewrite !lookup_total_alt, He, He0 in Hd. simpl in Hd. rewrite Hd. simpl. by apply (H2 id).
Qed.

Lemma retired_inv : cache_inv objects retired.
Proof.
  split; [|apply retired_arena|apply retired_retention|apply retired_account|apply retired_loads|apply retired_canonical].
  eapply config_ok_frame; [|apply Hi]. done.
Qed.
End retirement.

(** The two uses. *)
Definition fail_mark (e : exn) (l : pending_load) : pending_load := l <| l_error := Some e |> <| l_phase := failed |>.
Definition ready_mark (l : pending_load) : pending_load := l <| l_phase := ready |>.

Lemma fail_load_run load e c :
  is_Some (l_heap c !! load) ->
  fail_load load e c =
  (Ok tt, upd_stats (fun s => s <| failed_loads ::= Z.succ |>) (retired c load (fail_mark e) false)).
Proof.
  intros [l Hl]. unfold fail_load, mbind, M_bind, modify. rewrite release_run. f_equal.
  unfold released, retired, upd_stats, upd_load, l_bytes.
  assert (Hl' : load_of (c <| l_heap ::= alter (fail_mark e) load |> <| cstats ::= fun s => s <| failed_loads ::= Z.succ |> |>) load
     = fail_mark e (load_of c load)).
  { unfold load_of. rewrite !lookup_total_alt. simpl. rewrite lookup_alter_eq, Hl. done. }
  unfold fail_mark in *. rewrite Hl'. by destruct c.
Qed.

(** The state after a finished fill, for the retention state [r] after [touch]. *)
Definition finished_state (load : positive) (r : retention) (c : ram_cache) : ram_cache :=
  let result := l_result (load_of c load) in
  add_pins result 1 (add_pins result 1
    (upd_stats (fun s => s <| peak_resident_bytes := Z.max (peak_resident_bytes s) (resident_bytes s) |>)
      (retired (c <| kept := r |>) load ready_mark true))).

Lemma alter_ready_desc id (h : gmap positive entry) x : e_desc (alter (fun e => e <| e_ready := true |>) id h !!! x) = e_desc (h !!! x).
Proof.
  rewrite !lookup_total_alt. destruct (decide (x = id)) as [->|]; [rewrite lookup_alter_eq; by destruct (h !! id)|].
  by rewrite lookup_alter_ne.
Qed.

Definition peak_stats (s : cache_stats) : cache_stats :=
  s <| peak_resident_bytes := Z.max (peak_resident_bytes s) (resident_bytes s) |>.

Lemma released_ready load c bytes :
  is_Some (l_heap c !! load) -> l_bytes c load = bytes ->
  released load (upd_stats peak_stats (upd_stats (fun s => s <| resident_bytes ::= Z.add bytes |>)
    (upd_load load ready_mark (add_pins (l_result (load_of c load)) 1
      (upd_entry (l_result (load_of c load)) (fun e => e <| e_ready := true |>) c))))) =
  add_pins (l_result (load_of c load)) 1 (upd_stats peak_stats (retired c load ready_mark true)).
Proof.
  intros [l Hl] <-. unfold released, retired, l_bytes, bytes_of, key_of, desc_of.
  match goal with |- context [load_of (upd_stats peak_stats ?x) load] => set (c2 := x) end.
  assert (H2 : load_of (upd_stats peak_stats c2) load = ready_mark (load_of c load)).
  { unfold c2, load_of. rewrite !lookup_total_alt. simpl. by rewrite lookup_alter_eq, Hl. }
  assert (H3 : forall x, e_desc (entry_of (upd_stats peak_stats c2) x) = e_desc (entry_of c x)).
  { intros x. apply alter_ready_desc. }
  rewrite H2, !H3. simpl. by destruct c as [? ? ? ? ? ? ? ? ? []].
Qed.

Lemma finish_run load value c r :
  is_Some (l_heap c !! load) -> l_bytes c load = dp_bytes value ->
  touch_entry (l_result (load_of c load)) true c = (Ok tt, c <| kept := r |>) ->
  acquire_copied load value c = (Ok (Leased (l_result (load_of c load))), finished_state load r c).
Proof.
  intros Hl Hb Ht. unfold acquire_copied, catch, mbind, M_bind, get. rewrite Ht. unfold modify at 1 2 3 4 5.
  rewrite release_run. unfold lease_on, mret, M_ret, mbind, M_bind, modify, finished_state. do 2 f_equal.
  set (c1 := c <| kept := r |>) in *.
  change (load_of c load) with (load_of c1 load). exact (released_ready load c1 _ Hl Hb).
Qed.

Lemma finished_inv objects load c r :
  cache_inv objects (c <| kept := r |>) -> pending_id c load -> in_phase c load copying ->
  cache_inv objects (finished_state load r c).
Proof.
  intros Hi Hp Hph.
  assert (H : cache_inv objects (retired (c <| kept := r |>) load ready_mark true)).
  { assert (Hnone : l_error (load_of c load) = None).
    { destruct (ai_pending _ (ci_arena _ _ Hi) _ _ Hp) as (_ & [l Hl] & _). simpl in Hl.
      pose proof (li_error _ (ci_loads _ _ Hi) load l Hl) as [_ Hf]. unfold in_phase in Hph.
      rewrite (load_of_lookup c load l Hl) in *. destruct (l_error l); [|done].
      specialize (Hf ltac:(by eexists)). congruence. }
    change (load_of c load) with (load_of (c <| kept := r |>) load) in Hnone.
    apply retired_inv; try done.
    - split_and!; [done| |done]. simpl. rewrite Hnone. split; [done|]. by intros [].
    - simpl. rewrite Hnone. done. }
  eapply cache_inv_frame; [..|exact H]; try done.
  eapply retention_inv_frame; [..|apply (ci_retention _ _ H)]; done.
Qed.

(** ** Replacing victims that became leased *)

Section replanning.
Context (objects : positive -> descriptor) (c : ram_cache) (load : positive).
Context (offset : Z) (replacement : list positive).

Definition replan_mark (l : pending_load) : pending_load :=
  l <| l_victims := replacement |> <| l_offset := offset |>.

Definition replanned : ram_cache :=
  c <| e_heap ::= fun h => mark (Some load) replacement (mark None (l_victims (load_of c load)) h) |>
    <| l_heap ::= alter replan_mark load |>.

Context (Hi : cache_inv objects c) (Hp : pending_id c load) (Hph : in_phase c load loading).
Context (Hplan : plan_good c (l_bytes c load) (Some load) offset replacement).

Lemma replanned_desc id : desc_of replanned id = desc_of c id.
Proof.
  unfold desc_of, entry_of. simpl. rewrite !lookup_total_alt, !lookup_mark.
  destruct (e_heap c !! id); simpl; [|done]. by repeat case_decide.
Qed.

Lemma replanned_key id : key_of replanned id = key_of c id.
Proof. unfold key_of. by rewrite replanned_desc. Qed.

Lemma replanned_bytes id : bytes_of replanned id = bytes_of c id.
Proof. unfold bytes_of. by rewrite replanned_desc. Qed.

Lemma replanned_resident id : resident_id replanned id <-> resident_id c id.
Proof. unfold resident_id. by rewrite replanned_key. Qed.

Lemma replanned_entry id :
  e_offset (entry_of replanned id) = e_offset (entry_of c id) /\
  e_data (entry_of replanned id) = e_data (entry_of c id) /\
  e_ready (entry_of replanned id) = e_ready (entry_of c id) /\
  (is_Some (e_heap c !! id) -> e_reserved_by (entry_of replanned id) =
    if decide (id ∈ replacement) then Some load
    else if decide (id ∈ l_victims (load_of c load)) then None else e_reserved_by (entry_of c id)).
Proof.
  unfold entry_of. simpl. rewrite !lookup_total_alt, !lookup_mark.
  destruct (e_heap c !! id); simpl; [|split_and!; try done; by intros []].
  by repeat case_decide.
Qed.

Lemma replanned_reserved id l :
  resident_id c id -> e_reserved_by (entry_of replanned id) = Some l <->
  (l = load /\ id ∈ replacement) \/ (l <> load /\ e_reserved_by (entry_of c id) = Some l).
Proof.
  intros Hres. pose proof (ci_arena _ _ Hi) as Ha.
  apply (ai_entries c Ha) in Hres as Hs. destruct Hs as [_ Hs].
  destruct (replanned_entry id) as (_ & _ & _ & ->); [|done]. destruct Hplan as (_ & _ & Hvs & _).
  case_decide as Hr.
  - destruct (Hvs id Hr) as (_ & _ & [Hn|(l' & Hl & [= ->])]); naive_solver.
  - case_decide as Hv.
    + destruct (ai_victims c Ha load id Hp Hph Hv) as [_ Hrs]. naive_solver.
    + split; [|naive_solver]. intros Hl. right. split; [|done]. intros ->. apply Hv.
      by apply (ai_reserved c Ha).
Qed.

Lemma replanned_load l :
  load_of replanned l = if decide (l = load) then replan_mark (load_of c load) else load_of c l.
Proof.
  unfold load_of at 1. rewrite lookup_total_alt. simpl. case_decide; subst.
  - rewrite lookup_alter_eq. unfold load_of. rewrite lookup_total_alt.
    by destruct (ai_pending c (ci_arena _ _ Hi) _ _ Hp) as (_ & [? ->] & _).
  - rewrite lookup_alter_ne by done. unfold load_of. by rewrite lookup_total_alt.
Qed.

Lemma replanned_result l : l_result (load_of replanned l) = l_result (load_of c l) /\
  l_staging (load_of replanned l) = l_staging (load_of c l) /\ l_phase (load_of replanned l) = l_phase (load_of c l).
Proof. rewrite replanned_load. by case_decide; subst. Qed.

Lemma replanned_pending l : pending_id replanned l <-> pending_id c l.
Proof. unfold pending_id. destruct (replanned_result l) as (-> & _). by rewrite replanned_key. Qed.

Lemma replanned_phase l p : in_phase replanned l p <-> in_phase c l p.
Proof. unfold in_phase. by destruct (replanned_result l) as (_ & _ & ->). Qed.

Lemma replanned_l_bytes l : l_bytes replanned l = l_bytes c l.
Proof. unfold l_bytes. destruct (replanned_result l) as (-> & _). apply replanned_bytes. Qed.

Lemma replanned_spans l :
  l_span replanned l = (if decide (l = load) then (offset, offset + l_bytes c load) else l_span c l) /\
  s_span replanned l = s_span c l.
Proof.
  unfold l_span, s_span. rewrite replanned_l_bytes. destruct (replanned_result l) as (_ & -> & _).
  rewrite replanned_load. by case_decide; subst.
Qed.

Lemma replanned_e_span id : e_span replanned id = e_span c id.
Proof. unfold e_span. rewrite replanned_bytes. by destruct (replanned_entry id) as (-> & _). Qed.

Lemma replanned_heap id : is_Some (e_heap replanned !! id) <-> is_Some (e_heap c !! id).
Proof. simpl. by rewrite !lookup_mark, !fmap_is_Some. Qed.

Lemma replanned_phase_ok l : phase_ok c l -> pending_id c l -> phase_ok replanned l.
Proof.
  intros Hok Hl. unfold phase_ok in *. destruct (replanned_result l) as (-> & _ & ->).
  destruct (ai_pending c (ci_arena _ _ Hi) _ _ Hl) as (_ & _ & Hs & _).
  destruct (replanned_entry (l_result (load_of c l))) as (-> & _ & -> & Hr). rewrite Hr by done. clear Hr.
  rewrite replanned_key. destruct (l_phase (load_of c l)) eqn:Ephase; try done.
  - destruct Hok as [He Hr]. split; [done|].
    destruct Hplan as (_ & _ & Hvs & _). rewrite decide_False; [by case_decide|].
    intros Hv. destruct (Hvs _ Hv) as [[Hres _] _]. unfold resident_id in Hres. simpl in *. congruence.
  - destruct Hok as (He & Hr & Ho). split_and!; [done..|]. rewrite replanned_load, decide_False; [done|].
    intros ->. unfold in_phase in Hph. congruence.
Qed.

Lemma replanned_arena : arena_inv replanned.
Proof.
  pose proof (ci_arena _ _ Hi) as Ha. destruct Hplan as (Hin & Hnd & Hvs & Hfr & Hfp). split.
  - intros k id Hk. rewrite replanned_key, replanned_heap. by apply (ai_entries c Ha).
  - intros o id. rewrite replanned_resident. destruct (replanned_entry id) as (-> & _). apply (ai_offset c Ha).
  - apply (ai_sorted c Ha).
  - intros id Hres. rewrite replanned_resident in Hres. rewrite replanned_bytes.
    destruct (replanned_entry id) as (-> & -> & _). by apply (ai_placed c Ha).
  - intros id id' H1 H2. rewrite replanned_resident in H1, H2. rewrite !replanned_e_span. by apply (ai_apart c Ha).
  - intros k l Hk. destruct (ai_pending c Ha _ _ Hk) as (-> & Hh & Hs & Har & H0 & H1 & Hok).
    rewrite replanned_l_bytes. destruct (replanned_result l) as (Hres & -> & _). rewrite Hres, replanned_key, replanned_heap.
    split_and!; try done.
    + simpl. destruct (decide (l = load)) as [->|]; [by rewrite lookup_alter_eq, fmap_is_Some|by rewrite lookup_alter_ne].
    + rewrite replanned_load. case_decide; subst; done.
    + by apply replanned_phase_ok.
  - intros id Hres. rewrite replanned_resident in Hres. destruct (replanned_entry id) as (_ & _ & -> & _). intros Hr.
    destruct (ai_notready c Ha id Hres Hr) as (l & Hl & Hphl & Hid). exists l.
    rewrite replanned_pending, replanned_phase. by destruct (replanned_result l) as (-> & _).
  - intros l v Hl Hphl Hv. rewrite replanned_pending in Hl. rewrite replanned_phase in Hphl.
    rewrite replanned_load in Hv. unfold live_id. rewrite replanned_resident.
    destruct (replanned_entry v) as (_ & _ & -> & _). case_decide as Hd; simpl in Hv.
    + destruct (Hvs v Hv) as [Hlive _]. split; [done|]. apply replanned_reserved; [apply Hlive|]. subst. auto.
    + destruct (ai_victims c Ha l v Hl Hphl Hv) as [Hlive Hr]. split; [done|].
      apply replanned_reserved; [apply Hlive|]. auto.
  - intros l Hl Hphl. rewrite replanned_pending in Hl. rewrite replanned_phase in Hphl.
    rewrite replanned_load. case_decide; [done|]. by apply (ai_victims_nodup c Ha).
  - intros id l Hres. rewrite replanned_resident in Hres. rewrite replanned_reserved by done.
    rewrite replanned_pending, replanned_phase, replanned_load. intros [[-> Hr]|[Hne Hr]].
    + rewrite decide_True by done. done.
    + rewrite decide_False by done. by apply (ai_reserved c Ha).
  - intros l id Hl Hphl Hres. rewrite replanned_pending in Hl. rewrite replanned_phase in Hphl.
    rewrite replanned_resident in Hres. rewrite replanned_load, replanned_e_span.
    destruct (replanned_spans l) as (-> & _). case_decide; [auto|]. by apply (ai_fill_resident c Ha).
  - intros l l' H1 H2 Hne. rewrite replanned_pending in H1, H2.
    destruct (replanned_spans l) as (-> & ->), (replanned_spans l') as (-> & ->).
    destruct (ai_fills c Ha l l' H1 H2 Hne) as [Hd Hsd]. split; [|done].
    destruct (decide (l = load)), (decide (l' = load)); subst; try done.
    + apply Hfp; [done|]. naive_solver.
    + symmetry. apply Hfp; [done|]. naive_solver.
Qed.

Lemma replanned_inv : cache_inv objects replanned.
Proof.
  pose proof (ci_arena _ _ Hi) as Ha. split.
  - eapply config_ok_frame; [|apply Hi]. done.
  - apply replanned_arena.
  - destruct (ci_retention _ _ Hi) as [Hwf Hidx Hob]. split; [|intros id; rewrite replanned_resident; apply Hidx|done].
    eapply retention_wf_key; [|exact Hwf]. intros id _. apply replanned_key.
  - destruct (ci_account _ _ Hi) as [H1 H2 H3 H4]. split; simpl; rewrite ?H1, ?H2, ?H3, ?H4; try done; apply msum_ext.
    + intros k id _. rewrite replanned_bytes. by destruct (replanned_entry id) as (_ & _ & -> & _).
    + intros k l _. by rewrite replanned_l_bytes.
    + intros k l _. by rewrite replanned_l_bytes.
  - destruct (ci_loads _ _ Hi) as [H1 H2 H3 H4].
    assert (Hl : forall l x, l_heap replanned !! l = Some x -> exists y, l_heap c !! l = Some y /\
      l_result x = l_result y /\ l_error x = l_error y /\ l_phase x = l_phase y).
    { intros l x. simpl. destruct (decide (l = load)) as [->|Hne].
      - rewrite lookup_alter_eq. destruct (l_heap c !! load) eqn:E; [|done]. simpl. intros [= <-]. eauto.
      - rewrite lookup_alter_ne by done. eauto. }
    split.
    + intros l x (y & Hy & E1 & E2 & E3)%Hl. rewrite replanned_heap, E1. eauto.
    + intros l x (y & Hy & E1 & E2 & E3)%Hl. rewrite E2, E3. eauto.
    + intros l x (y & Hy & E1 & E2 & E3)%Hl. rewrite E3, replanned_pending. eauto.
    + intros l x e (y & Hy & E1 & E2 & E3)%Hl. rewrite E2. eauto.
  - destruct (ci_canonical _ _ Hi) as [H1 H2]. split; [done|]. intros id e. simpl. rewrite !lookup_mark.
    destruct (e_heap c !! id) as [e0|] eqn:E; [|done]. simpl. intros [= <-]. specialize (H2 id e0 E).
    by repeat case_decide.
Qed.
End replanning.

Lemma unreserve_run ids c :
  for_each ids (fun victim => modify (upd_entry victim (fun e => e <| e_reserved_by := None |>))) c =
  (Ok tt, c <| e_heap := mark None ids (e_heap c) |>).
Proof.
  rewrite for_each_modify. f_equal. unfold mark.
  revert c. induction ids as [|v ids IH]; intros c; simpl; [by destruct c|]. rewrite IH. by destruct c.
Qed.

(** [replan_pinned] keeps the invariant; when it returns, no victim of the
    fill is pinned. *)
Lemma replan_ok objects c load value :
  cache_inv objects c -> pending_id c load -> in_phase c load loading -> l_bytes c load = dp_bytes value ->
  (exists c', replan_pinned load value c = (Ok tt, c') /\ cache_inv objects c' /\
     (c' = c \/ exists offset victims, c' = replanned c load offset victims /\
        plan_good c (l_bytes c load) (Some load) offset victims) /\
     Forall (fun v => pins_of c' v = 0) (l_victims (load_of c' load))) \/
  replan_pinned load value c =
    (Err (capacity_error "expert RAM cache reservation became leased during I/O"),
     upd_stats (fun s => s <| pinned_capacity_failures ::= Z.succ |>) c).
Proof.
  intros Hi Hp Hph Hb. unfold replan_pinned, mbind, M_bind, get.
  destruct (existsb _ _) eqn:Ev.
  - destruct (ai_pending c (ci_arena _ _ Hi) _ _ Hp) as (_ & [l Hl] & _ & (_ & _ & Hpos & _) & _).
    destruct (plan_sound c (ci_config _ _ Hi) (ci_arena _ _ Hi) (ci_retention _ _ Hi) (ci_account _ _ Hi)
      (l_bytes c load) (Some load) Hpos) as (o & Ho & Hgood). rewrite Hb in Ho. unfold lift. rewrite Ho.
    destruct o as [[offset victims]|]; [left|right; done]. rewrite unreserve_run. unfold modify at 1.
    rewrite reserve_victims_run. eexists. split; [done|]. split_and!.
    + apply (replanned_inv objects c load offset victims); done.
    + right. by exists offset, victims.
    + apply Forall_forall. intros v Hv. unfold load_of in Hv. rewrite lookup_total_alt in Hv. simpl in Hv.
      rewrite lookup_alter_eq, Hl in Hv. simpl in Hv. by destruct Hgood as (_ & _ & Hvs & _); destruct (Hvs v Hv) as (_ & ? & _).
  - left. exists c. split_and!; try done; [by left|]. apply Forall_forall. intros v Hv.
    destruct (Z.eqb_spec (pins_of c v) 0) as [|Hne]; [done|]. exfalso. apply not_true_iff_false in Ev. apply Ev.
    apply existsb_exists. exists v. split; [by apply list_elem_of_In|]. apply negb_true_iff. by apply Z.eqb_neq.
Qed.
