(* ===== verification/ExpertCachePublish.v ===== *)
(** * Publication of a loaded entry

    The section of [acquire] between the storage read and the payload copy:
    victims leave the indices, the new entry enters them. *)

From S2P Require Import Prelude ExpertDescriptor ExpertArena ExpertRetention ExpertCache ExpertCacheSystem ExpertCacheInv ExpertCacheSteps.

Lemma offset_insert_ok o id l :
  StronglySorted Z.lt l.*1 -> o ∉ l.*1 ->
  exists l', offset_insert o id l = Some l' /\ (forall x, x ∈ l' <-> x = (o, id) \/ x ∈ l) /\ StronglySorted Z.lt l'.*1.
Proof.
  induction l as [|[o' id'] l IH]; intros Hs Hn; simpl.
  - eexists. split_and!; [done| |repeat constructor]. set_solver.
  - apply StronglySorted_inv in Hs as [Hs Hlt]. rewrite fmap_cons, not_elem_of_cons in Hn. destruct Hn as [Hne Hn]. simpl in *.
    destruct (Z.ltb_spec o o').
    + eexists. split_and!; [done|set_solver|]. simpl. constructor; [by constructor|]. constructor; [done|].
      eapply Forall_impl; [exact Hlt|]. simpl. intros. lia.
    + destruct (Z.eqb_spec o o'); [lia|]. destruct (IH Hs Hn) as (l' & -> & Hm & Hs').
      eexists. split_and!; [done|set_solver|]. simpl. constructor; [done|].
      apply Forall_forall. intros x ([o2 id2] & -> & Hin)%list_elem_of_fmap. apply Hm in Hin as [[= -> ->]|Hin]; simpl; [lia|].
      rewrite Forall_forall in Hlt. apply Hlt. apply list_elem_of_fmap. by exists (o2, id2).
Qed.

(** The indices after the retirement of some residents. *)
Record evicted (vs : list positive) (c c' : ram_cache) : Prop := {
  ev_same : config c' = config c /\ sources c' = sources c /\ canonical_descriptors c' = canonical_descriptors c /\
    pending c' = pending c /\ staging c' = staging c /\ resident_arena c' = resident_arena c /\ pins c' = pins c /\
    e_heap c' = e_heap c /\ l_heap c' = l_heap c;
  ev_offset : by_offset c' = filter (fun item => item.1 ∉ (fun v => e_offset (entry_of c v)) <$> vs) (by_offset c);
  ev_kept : kept c' = (kept c) <| by_recency := filter (fun id => id ∉ vs) (by_recency (kept c)) |>;
  ev_entries : forall k, entries c' !! k = if decide (k ∈ key_of c <$> vs) then None else entries c !! k;
  ev_sum : forall f, msum f (entries c') = msum f (entries c) - zsum ((fun v => f (key_of c v) v) <$> vs);
  ev_resident : resident_bytes (cstats c') = resident_bytes (cstats c) - zsum (bytes_of c <$> vs);
  ev_stats : reserved_bytes (cstats c') = reserved_bytes (cstats c) /\
    staging_used_bytes (cstats c') = staging_used_bytes (cstats c) /\ active_loads (cstats c') = active_loads (cstats c);
}.

Lemma evict_all freq vs c :
  NoDup vs -> retention_wf (key_of c) freq (kept c) ->
  (forall v, v ∈ vs -> v ∈ by_recency (kept c) /\ entries c !! key_of c v = Some v) ->
  exists c', for_each vs evict c = (Ok tt, c') /\ evicted vs c c'.
Proof.
  revert c. induction vs as [|v vs IH]; intros c Hnd Hwf Hvs.
  - exists c. split; [done|]. split; try done; simpl; try lia.
    + symmetry. apply filter_true. intros x. apply not_elem_of_nil.
    + rewrite filter_true; [by destruct c as [? ? ? ? ? [] ? ? ? ? ? ? ?]|]. intros x. apply not_elem_of_nil.
  - apply NoDup_cons in Hnd as [Hv Hnd]. destruct (Hvs v ltac:(left)) as [Hrec Hent].
    set (c1 := snd (evict v c)).
    assert (Hk1 : kept c1 = (kept c) <| by_recency := filter (fun y => y <> v) (by_recency (kept c)) |>).
    { unfold c1, evict, modify. simpl. by rewrite (recency_erase_ok _ _ _ _ Hwf Hrec). }
    destruct (IH c1) as (c' & Hrun & [Hsame Hoff Hkept Hents Hsum Hres Hst]).
    + done.
    + rewrite Hk1. apply (retention_wf_sublist (key_of c) freq (kept c) (fun y => y <> v) Hwf).
    + intros w Hw. destruct (Hvs w ltac:(by right)) as [Hwr Hwe]. assert (w <> v) by (by intros ->). split.
      * rewrite Hk1. simpl. by apply list_elem_of_filter.
      * change (delete (key_of c v) (entries c) !! key_of c w = Some w). rewrite lookup_delete_ne; [done|]. congruence.
    + exists c'. split; [done|]. split.
      * done.
      * rewrite Hoff. simpl. unfold offset_erase. rewrite list_filter_filter. apply list_filter_iff.
        intros [o x]. simpl. rewrite not_elem_of_cons. change (entry_of c1) with (entry_of c). tauto.
      * rewrite Hkept, Hk1. simpl. rewrite list_filter_filter. unfold set_field. f_equal.
        apply list_filter_iff. intros x. rewrite not_elem_of_cons. tauto.
      * intros k. rewrite Hents. rewrite fmap_cons.
        change (entries c1) with (delete (key_of c v) (entries c)).
        change (key_of c1) with (key_of c).
        destruct (decide (k ∈ key_of c <$> vs)); [by rewrite decide_True by (by right)|].
        destruct (decide (k = key_of c v)) as [->|Hne]; [by rewrite decide_True by left; rewrite lookup_delete_eq|].
        rewrite decide_False by set_solver. by rewrite lookup_delete_ne.
      * intros f. rewrite Hsum, fmap_cons.
        change (entries c1) with (delete (key_of c v) (entries c)).
        change (key_of c1) with (key_of c). rewrite (msum_delete f _ _ _ Hent). simpl. lia.
      * rewrite Hres, fmap_cons. change (bytes_of c1) with (bytes_of c).
        change (resident_bytes (cstats c1)) with (resident_bytes (cstats c) - bytes_of c v). simpl. lia.
      * done.
Qed.

Lemma sorted_fst_filter {A} (P : Z * A -> Prop) `{!forall x, Decision (P x)} (l : list (Z * A)) :
  StronglySorted Z.lt l.*1 -> StronglySorted Z.lt (filter P l).*1.
Proof.
  induction l as [|x l IH]; [done|]. rewrite fmap_cons. intros [Hs Hx]%StronglySorted_inv.
  rewrite filter_cons. case_decide; [|auto]. rewrite fmap_cons. constructor; [auto|].
  apply Forall_forall. intros y (z & -> & [_ Hz]%list_elem_of_filter)%list_elem_of_fmap.
  rewrite Forall_forall in Hx. apply Hx. by apply list_elem_of_fmap_2.
Qed.

Definition publish_mark (offset : Z) (e : entry) : entry :=
  e <| e_offset := offset |> <| e_data := Some offset |> <| e_ready := false |>.
Definition copying_mark (l : pending_load) : pending_load := l <| l_phase := copying |>.

(** The part of [publish] behind [replan_pinned]. *)
Definition publish_tail (load : positive) (value : dptr) : M unit :=
  c ← get;
  let l := load_of c load in
  modify (upd_entry (l_result l) (publish_mark (l_offset l))) ;;
  match entries c !! dp_key value with
  | Some _ => throw (logic_error "expert RAM cache duplicate publication")
  | None =>
      modify (fun c => c <| entries ::= <[dp_key value := l_result l]> |>) ;;
      for_each (l_victims l) evict ;;
      index_result (l_result l) ;;
      modify (upd_load load copying_mark)
  end.

Lemma publish_split load value : publish load value = (replan_pinned load value ;; publish_tail load value).
Proof. done. Qed.

Record published (c : ram_cache) (load : positive) (c' : ram_cache) : Prop := {
  pb_same : config c' = config c /\ sources c' = sources c /\ canonical_descriptors c' = canonical_descriptors c /\
    pending c' = pending c /\ staging c' = staging c /\ resident_arena c' = resident_arena c /\ pins c' = pins c;
  pb_e_heap : e_heap c' = alter (publish_mark (l_offset (load_of c load))) (l_result (load_of c load)) (e_heap c);
  pb_l_heap : l_heap c' = alter copying_mark load (l_heap c);
  pb_entries : forall k, entries c' !! k =
    if decide (k = key_of c (l_result (load_of c load))) then Some (l_result (load_of c load))
    else if decide (k ∈ key_of c <$> l_victims (load_of c load)) then None else entries c !! k;
  pb_offset : forall o id, (o, id) ∈ by_offset c' <->
    (o = l_offset (load_of c load) /\ id = l_result (load_of c load)) \/
    ((o, id) ∈ by_offset c /\ id ∉ l_victims (load_of c load));
  pb_sorted : StronglySorted Z.lt (by_offset c').*1;
  pb_recency : forall id, id ∈ by_recency (kept c') <->
    id = l_result (load_of c load) \/ (id ∈ by_recency (kept c) /\ id ∉ l_victims (load_of c load));
  pb_kept : retention_wf (key_of c) (frequency_retention (config c)) (kept c');
  pb_observed : observations (kept c') = observations (kept c);
  pb_sum : forall f, msum f (entries c') =
    f (key_of c (l_result (load_of c load))) (l_result (load_of c load)) + msum f (entries c)
    - zsum ((fun v => f (key_of c v) v) <$> l_victims (load_of c load));
  pb_resident : resident_bytes (cstats c') =
    resident_bytes (cstats c) - zsum (bytes_of c <$> l_victims (load_of c load));
  pb_stats : reserved_bytes (cstats c') = reserved_bytes (cstats c) /\
    staging_used_bytes (cstats c') = staging_used_bytes (cstats c) /\ active_loads (cstats c') = active_loads (cstats c);
}.

Section publication.
Context (objects : positive -> descriptor) (c : ram_cache) (load : positive) (value : dptr).
Context (Hi : cache_inv objects c) (Hp : pending_id c load) (Hph : in_phase c load loading).
Context (Hval : desc_of c (l_result (load_of c load)) = value).

Abbreviation res := (l_result (load_of c load)).
Abbreviation vs := (l_victims (load_of c load)).
Abbreviation off := (l_offset (load_of c load)).

Definition pub_entry : ram_cache :=
  upd_entry res (publish_mark off) c <| entries ::= <[dp_key value := res]> |>.

Lemma res_key : key_of c res = dp_key value.
Proof. unfold key_of. by rewrite Hval. Qed.

Lemma res_absent : entries c !! dp_key value = None.
Proof.
  destruct (ai_pending c (ci_arena _ _ Hi) _ _ Hp) as (_ & _ & _ & _ & _ & _ & Hok). unfold phase_ok in Hok.
  unfold in_phase in Hph. rewrite Hph, res_key in Hok. tauto.
Qed.

Lemma res_not_resident id : resident_id c id -> id <> res.
Proof. intros Hres ->. unfold resident_id in Hres. rewrite res_key, res_absent in Hres. done. Qed.

Lemma victim_facts v : v ∈ vs -> resident_id c v /\ v <> res /\ e_ready (entry_of c v) = true.
Proof.
  intros Hv. destruct (ai_victims c (ci_arena _ _ Hi) load v Hp Hph Hv) as [[Hres Hr] _].
  split_and!; [done| |done]. by apply res_not_resident.
Qed.

Lemma pub_entry_of id : entry_of pub_entry id = if decide (id = res) then publish_mark off (entry_of c res) else entry_of c id.
Proof.
  unfold entry_of at 1. rewrite lookup_total_alt. simpl. case_decide; subst.
  - rewrite lookup_alter_eq. destruct (ai_pending c (ci_arena _ _ Hi) _ _ Hp) as (_ & _ & [e He] & _).
    rewrite He. simpl. by rewrite (entry_of_lookup _ _ _ He).
  - rewrite lookup_alter_ne by done. unfold entry_of. by rewrite lookup_total_alt.
Qed.

Lemma pub_key id : key_of pub_entry id = key_of c id.
Proof. unfold key_of, desc_of. rewrite pub_entry_of. by case_decide; subst. Qed.

Lemma pub_bytes id : bytes_of pub_entry id = bytes_of c id.
Proof. unfold bytes_of, desc_of. rewrite pub_entry_of. by case_decide; subst. Qed.

(** The new entry overlaps no resident that stays. *)
Lemma offset_new o id : (o, id) ∈ by_offset c -> id ∉ vs -> o <> off.
Proof.
  intros [Hres Ho]%(ai_offset c (ci_arena _ _ Hi)) Hv ->.
  pose proof (ai_fill_resident c (ci_arena _ _ Hi) load id Hp Hph Hres Hv) as Hd.
  destruct (ai_placed c (ci_arena _ _ Hi) id Hres) as [(_ & _ & Hb & _) _].
  destruct (ai_pending c (ci_arena _ _ Hi) _ _ Hp) as (_ & _ & _ & (_ & _ & Hb' & _) & _).
  apply (Hd off); unfold in_ival, l_span, e_span; simpl; lia.
Qed.

Lemma victims_by_offset o id : (o, id) ∈ by_offset c ->
  o ∈ ((fun v => e_offset (entry_of c v)) <$> vs) <-> id ∈ vs.
Proof.
  intros Hin. apply (ai_offset c (ci_arena _ _ Hi)) in Hin as Hin'. destruct Hin' as [Hres Ho]. split.
  - intros (v & Hov & Hv)%list_elem_of_fmap. destruct (victim_facts v Hv) as (Hrv & _).
    destruct (decide (id = v)) as [->|Hne]; [done|]. exfalso.
    pose proof (ai_apart c (ci_arena _ _ Hi) id v Hres Hrv Hne) as Hd.
    destruct (ai_placed c (ci_arena _ _ Hi) id Hres) as [(_ & _ & Hb & _) _].
    destruct (ai_placed c (ci_arena _ _ Hi) v Hrv) as [(_ & _ & Hb' & _) _].
    apply (Hd o); unfold in_ival, e_span; simpl; lia.
  - intros Hv. apply list_elem_of_fmap. by exists id.
Qed.

Lemma publish_evict : exists c3, for_each vs evict pub_entry = (Ok tt, c3) /\ evicted vs pub_entry c3.
Proof.
  apply (evict_all (frequency_retention (config c))).
  - by apply (ai_victims_nodup c (ci_arena _ _ Hi)).
  - eapply retention_wf_key; [|apply Hi]. intros id _. apply pub_key.
  - intros v Hv. destruct (victim_facts v Hv) as (Hres & Hne & _). split.
    + by apply (ri_index c (ci_retention _ _ Hi)).
    + rewrite pub_key. simpl. rewrite lookup_insert_ne; [done|]. intros Heq.
      unfold resident_id in Hres. rewrite <- Heq, res_absent in Hres. done.
Qed.

Lemma publish_tail_ok : exists c', publish_tail load value c = (Ok tt, c') /\ published c load c'.
Proof.
  destruct publish_evict as (c3 & Hev & [Hsame Hoff Hkept Hents Hsum Hres Hst]).
  destruct Hsame as (E1 & E2 & E3 & E4 & E5 & E6 & E7 & E8 & E9).
  assert (Hk3 : forall id, key_of c3 id = key_of c id).
  { intros id. rewrite <- pub_key. unfold key_of, desc_of, entry_of. by rewrite E8. }
  assert (Ho3 : e_offset (entry_of c3 res) = off).
  { transitivity (e_offset (entry_of pub_entry res)); [unfold entry_of; by rewrite E8|].
    rewrite pub_entry_of, decide_True by done. done. }
  assert (Hmem : forall o id, (o, id) ∈ by_offset c3 <-> (o, id) ∈ by_offset c /\ id ∉ vs).
  { intros o id. rewrite Hoff, list_elem_of_filter. simpl.
    assert (Hvl : (fun v => e_offset (entry_of pub_entry v)) <$> vs = (fun v => e_offset (entry_of c v)) <$> vs).
    { apply list_fmap_ext. intros i v Hv%list_elem_of_lookup_2. destruct (victim_facts v Hv) as (_ & Hne & _).
      by rewrite pub_entry_of, decide_False. }
    rewrite Hvl. split; [intros [Hn Hin]|intros [Hin Hn]]; split; auto; by rewrite victims_by_offset in *. }
  destruct (offset_insert_ok off res (by_offset c3)) as (l & Hins & Hlm & Hls).
  { rewrite Hoff. apply sorted_fst_filter. apply (ai_sorted c (ci_arena _ _ Hi)). }
  { intros ([o id] & Heq & Hin)%list_elem_of_fmap. simpl in Heq. subst. apply Hmem in Hin as [Hin Hv].
    by apply (offset_new _ _ Hin Hv). }
  assert (Hrw : retention_wf (key_of c) (frequency_retention (config c)) (kept c3)).
  { rewrite Hkept. apply (retention_wf_sublist (key_of c) _ (kept c) (fun id => id ∉ vs)). apply Hi. }
  assert (Hrm : forall id, id ∈ by_recency (kept c3) <-> id ∈ by_recency (kept c) /\ id ∉ vs).
  { intros id. rewrite Hkept. simpl. rewrite list_elem_of_filter. tauto. }
  assert (Hknew : forall y, y ∈ by_recency (kept c3) -> key_of c y <> key_of c res).
  { intros y [Hy _]%Hrm Heq. apply (ri_index c (ci_retention _ _ Hi)) in Hy. unfold resident_id in Hy.
    rewrite Heq, res_key, res_absent in Hy. done. }
  assert (Hrw3 : retention_wf (key_of c3) (frequency_retention (config c)) (kept c3)).
  { eapply retention_wf_key; [|exact Hrw]. auto. }
  destruct (set_add_ok (key_of c3) (lru (kept c3)) res (by_recency (kept c3))) as (lr & Hadd & Hlrp & Hlrs).
  { apply Hrw3. }
  { intros y. rewrite !Hk3. apply Hknew. }
  eexists. split.
  - unfold publish_tail, mbind, M_bind, get, modify. rewrite res_absent.
    change (set_field entries (insert (dp_key value) res) (upd_entry res (publish_mark off) c)) with pub_entry.
    rewrite Hev. unfold index_result, mbind, M_bind, get, modify. rewrite Ho3, Hins. rewrite Hadd. reflexivity.
  - split; simpl.
    + auto 10.
    + by rewrite E8.
    + by rewrite E9.
    + intros k. rewrite Hents, (list_fmap_ext (key_of pub_entry) (key_of c)) by (intros; apply pub_key). simpl.
      rewrite res_key. destruct (decide (k = dp_key value)) as [->|Hne]; [|by rewrite lookup_insert_ne].
      rewrite lookup_insert_eq. rewrite decide_False; [done|]. intros (v & Hk & Hv)%list_elem_of_fmap.
      destruct (victim_facts v Hv) as (Hrv & _). unfold resident_id in Hrv. by rewrite <- Hk, res_absent in Hrv.
    + intros o id. rewrite Hlm, Hmem. naive_solver.
    + done.
    + intros id. rewrite Hlrp, elem_of_cons, Hrm. done.
    + destruct Hrw as [W1 W2 W3 W4]. split; simpl; [| |done..].
      * rewrite Hlrp, fmap_cons. constructor; [|done]. intros (y & Hy & Hin)%list_elem_of_fmap.
        by apply (Hknew y Hin).
      * eapply sorted_key_ext; [|exact Hlrs]. intros; symmetry; apply Hk3.
    + by rewrite Hkept.
    + intros f. rewrite Hsum. simpl. rewrite msum_insert by apply res_absent. rewrite res_key.
      rewrite (list_fmap_ext (fun v => f (key_of pub_entry v) v) (fun v => f (key_of c v) v)); [lia|].
      intros. by rewrite pub_key.
    + rewrite Hres. simpl. f_equal. f_equal. apply list_fmap_ext. intros. apply pub_bytes.
    + done.
Qed.

Context (c' : ram_cache) (Hpub : published c load c').

Lemma published_entry id :
  entry_of c' id = if decide (id = res) then publish_mark off (entry_of c res) else entry_of c id.
Proof. rewrite <- pub_entry_of. unfold entry_of. by rewrite (pb_e_heap _ _ _ Hpub). Qed.

Lemma published_desc id : desc_of c' id = desc_of c id.
Proof. unfold desc_of. rewrite published_entry. by case_decide; subst. Qed.

Lemma published_key id : key_of c' id = key_of c id.
Proof. unfold key_of. by rewrite published_desc. Qed.

Lemma published_bytes id : bytes_of c' id = bytes_of c id.
Proof. unfold bytes_of. by rewrite published_desc. Qed.

Lemma published_heap id : is_Some (e_heap c' !! id) <-> is_Some (e_heap c !! id).
Proof.
  rewrite (pb_e_heap _ _ _ Hpub). destruct (decide (id = res)) as [->|];
    [by rewrite lookup_alter_eq, fmap_is_Some|by rewrite lookup_alter_ne].
Qed.

Lemma published_load l : load_of c' l = if decide (l = load) then copying_mark (load_of c load) else load_of c l.
Proof.
  unfold load_of at 1. rewrite (pb_l_heap _ _ _ Hpub), lookup_total_alt. case_decide; subst.
  - rewrite lookup_alter_eq. destruct (ai_pending c (ci_arena _ _ Hi) _ _ Hp) as (_ & [l Hl] & _).
    rewrite Hl. simpl. by rewrite (load_of_lookup _ _ _ Hl).
  - rewrite lookup_alter_ne by done. unfold load_of. by rewrite lookup_total_alt.
Qed.

Lemma published_fields l : l_result (load_of c' l) = l_result (load_of c l) /\
  l_staging (load_of c' l) = l_staging (load_of c l) /\ l_offset (load_of c' l) = l_offset (load_of c l) /\
  l_victims (load_of c' l) = l_victims (load_of c l) /\ l_error (load_of c' l) = l_error (load_of c l).
Proof. rewrite published_load. by case_decide; subst. Qed.

Lemma published_phase l p : l <> load -> in_phase c' l p <-> in_phase c l p.
Proof. intros Hne. unfold in_phase. by rewrite published_load, decide_False. Qed.

Lemma published_copying : in_phase c' load copying.
Proof. unfold in_phase. by rewrite published_load, decide_True. Qed.

Lemma published_pending l : pending_id c' l <-> pending_id c l.
Proof.
  unfold pending_id. destruct (published_fields l) as (-> & _). rewrite published_key.
  by destruct (pb_same _ _ _ Hpub) as (_ & _ & _ & -> & _).
Qed.

Lemma published_resident id : resident_id c' id <-> id = res \/ (resident_id c id /\ id ∉ vs).
Proof.
  unfold resident_id. rewrite published_key, (pb_entries _ _ _ Hpub). split.
  - case_decide as Hk; [intros [= <-]; by left|]. case_decide as Hv; [done|]. intros He. right. split; [done|].
    intros Hin. apply Hv. by apply list_elem_of_fmap_2.
  - intros [->|[He Hn]]; [by rewrite decide_True|]. rewrite decide_False.
    + rewrite decide_False; [done|]. intros (v & Hk & Hv)%list_elem_of_fmap. apply Hn.
      destruct (victim_facts v Hv) as (Hrv & _). unfold resident_id in Hrv. congruence.
    + intros Hk. rewrite Hk, res_key, res_absent in He. done.
Qed.

Lemma published_spans l : l_span c' l = l_span c l /\ s_span c' l = s_span c l /\ l_bytes c' l = l_bytes c l.
Proof.
  unfold l_span, s_span, l_bytes. destruct (published_fields l) as (-> & -> & -> & _). by rewrite published_bytes.
Qed.

Lemma published_e_span id : e_span c' id = if decide (id = res) then l_span c load else e_span c id.
Proof. unfold e_span. rewrite published_bytes, published_entry. by case_decide; subst. Qed.

Lemma published_phase_ok l : pending_id c l -> phase_ok c l -> phase_ok c' l.
Proof.
  intros Hl Hok. unfold phase_ok in *. destruct (published_fields l) as (-> & _ & -> & _).
  rewrite published_key. destruct (decide (l = load)) as [->|Hne].
  - pose proof published_copying as Hc. unfold in_phase in Hc. rewrite Hc, published_entry, decide_True by done.
    simpl. split_and!; [|done..]. by rewrite (pb_entries _ _ _ Hpub), decide_True.
  - assert (Hres : l_result (load_of c l) <> res).
    { intros Heq. unfold pending_id in *. rewrite Heq in Hl. congruence. }
    rewrite published_entry, decide_False by done. rewrite published_load, decide_False by done.
    rewrite (pb_entries _ _ _ Hpub), decide_False.
    2: { intros Heq. unfold pending_id in *. rewrite Heq in Hl. congruence. }
    destruct (l_phase (load_of c l)); try done.
    + destruct Hok as [He Hr]. split; [by case_decide|done].
    + destruct Hok as (He & Hr & Ho). split_and!; [|done..]. rewrite decide_False; [done|].
      intros (v & Hk & Hv)%list_elem_of_fmap. destruct (victim_facts v Hv) as (Hrv & _ & Hrd).
      unfold resident_id in Hrv. assert (v = l_result (load_of c l)) as -> by congruence. congruence.
Qed.

Lemma published_arena : arena_inv c'.
Proof.
  pose proof (ci_arena _ _ Hi) as Ha. destruct (ai_pending c Ha _ _ Hp) as (_ & Hlh & Hsr & Har & Hs0 & Hs1 & Hok).
  pose proof Hph as Hph'. unfold in_phase in Hph'. unfold phase_ok in Hok. rewrite Hph' in Hok. destruct Hok as [_ Hrr].
  assert (Hcfg : config c' = config c) by apply (pb_same _ _ _ Hpub).
  assert (Hpen : pending c' = pending c) by apply (pb_same _ _ _ Hpub).
  assert (Hin : forall o b, in_arena c' o b <-> in_arena c o b) by (intros; unfold in_arena; by rewrite Hcfg). split.
  - intros k id. rewrite published_key, published_heap, (pb_entries _ _ _ Hpub).
    case_decide as Hk; [intros [= <-]; by subst|]. case_decide; [done|]. apply (ai_entries c Ha).
  - intros o id. rewrite (pb_offset _ _ _ Hpub), published_resident, published_entry, (ai_offset c Ha). case_decide as Hd.
    + subst id. simpl. split; [|naive_solver]. intros [|[[Hres _] _]]; [naive_solver|]. by apply res_not_resident in Hres.
    + naive_solver.
  - apply (pb_sorted _ _ _ Hpub).
  - intros id. rewrite published_resident, published_bytes, published_entry, Hin.
    case_decide as Hd; [subst; done|]. intros [|[Hres _]]; [done|]. by apply (ai_placed c Ha).
  - intros id id'. rewrite !published_resident, !published_e_span. intros H1 H2 Hne.
    destruct (decide (id = res)) as [->|], (decide (id' = res)) as [->|]; [done| | |].
    + destruct H2 as [|[H2 ?]]; [done|]. by apply (ai_fill_resident c Ha).
    + destruct H1 as [|[H1 ?]]; [done|]. symmetry. by apply (ai_fill_resident c Ha).
    + destruct H1 as [|[H1 ?]], H2 as [|[H2 ?]]; try done. by apply (ai_apart c Ha).
  - intros k l. rewrite Hpen. intros Hk. destruct (ai_pending c Ha _ _ Hk) as (-> & Hh & Hs & Harl & H0 & H1 & Hokl).
    destruct (published_spans l) as (_ & _ & ->). destruct (published_fields l) as (-> & -> & -> & _).
    rewrite published_key, published_heap, Hin, Hcfg. split_and!; try done.
    + rewrite (pb_l_heap _ _ _ Hpub). destruct (decide (l = load)) as [->|];
        [by rewrite lookup_alter_eq, fmap_is_Some|by rewrite lookup_alter_ne].
    + by apply published_phase_ok.
  - intros id. rewrite published_resident, published_entry. case_decide as Hd.
    + subst id. intros _ _. exists load. rewrite published_pending. destruct (published_fields load) as (-> & _).
      split_and!; [done|apply published_copying|done].
    + intros [|[Hres Hn]] Hr; [done|]. destruct (ai_notready c Ha id Hres Hr) as (l & Hl & Hphl & Hid).
      assert (l <> load) by (intros ->; unfold in_phase in *; congruence).
      exists l. rewrite published_pending, published_phase by done. by destruct (published_fields l) as (-> & _).
  - intros l v. rewrite published_pending. intros Hl Hphl. destruct (published_fields l) as (_ & _ & _ & -> & _). intros Hv.
    assert (Hne : l <> load) by (intros ->; pose proof published_copying; unfold in_phase in *; congruence).
    rewrite published_phase in Hphl by done. destruct (ai_victims c Ha l v Hl Hphl Hv) as [[Hres Hr] Hrs].
    assert (Hvn : v ∉ vs).
    { intros Hvin. destruct (ai_victims c Ha load v Hp Hph Hvin) as [_ ?]. congruence. }
    unfold live_id. rewrite published_resident, published_entry, decide_False by by apply res_not_resident. auto.
  - intros l. rewrite published_pending. intros Hl Hphl. destruct (published_fields l) as (_ & _ & _ & -> & _).
    assert (Hne : l <> load) by (intros ->; pose proof published_copying; unfold in_phase in *; congruence).
    rewrite published_phase in Hphl by done. by apply (ai_victims_nodup c Ha).
  - intros id l. rewrite published_resident, published_entry, published_pending. case_decide as Hd.
    + simpl. rewrite Hrr. done.
    + intros [|[Hres Hn]] Hr; [done|]. destruct (ai_reserved c Ha id l Hres Hr) as (Hl & Hphl & Hv).
      assert (Hne : l <> load) by by intros ->.
      rewrite published_phase by done. by destruct (published_fields l) as (_ & _ & _ & -> & _).
  - intros l id. rewrite published_pending, published_resident, published_e_span. intros Hl Hphl Hres.
    destruct (published_fields l) as (_ & _ & _ & -> & _). destruct (published_spans l) as (-> & _). intros Hv.
    assert (Hne : l <> load) by (intros ->; pose proof published_copying; unfold in_phase in *; congruence).
    rewrite published_phase in Hphl by done. case_decide; [by apply (ai_fills c Ha)|].
    destruct Hres as [|[Hres _]]; [done|]. by apply (ai_fill_resident c Ha).
  - intros l l'. rewrite !published_pending. destruct (published_spans l) as (-> & -> & _), (published_spans l') as (-> & -> & _).
    apply (ai_fills c Ha).
Qed.

Lemma published_retention : retention_inv c'.
Proof.
  destruct (ci_retention _ _ Hi) as [Hwf Hidx Hob]. destruct (pb_same _ _ _ Hpub) as (Hcfg & _ & _ & Hpen & _). split.
  - rewrite Hcfg. eapply retention_wf_key; [|apply (pb_kept _ _ _ Hpub)]. intros; apply published_key.
  - intros id. rewrite (pb_recency _ _ _ Hpub), published_resident, Hidx. done.
  - rewrite Hcfg, Hpen, (pb_observed _ _ _ Hpub). intros Hf k Hk. apply (Hob Hf).
    destruct Hk as [Hk|Hk]; [|auto]. rewrite (pb_entries _ _ _ Hpub) in Hk. case_decide as Hd.
    + right. subst k. by eexists.
    + left. case_decide; [by destruct Hk|done].
Qed.

Lemma published_account : account_inv c'.
Proof.
  destruct (ci_account _ _ Hi) as [H1 H2 H3 H4]. destruct (pb_same _ _ _ Hpub) as (Hcfg & _ & _ & Hpen & _).
  destruct (pb_stats _ _ _ Hpub) as (S1 & S2 & S3).
  assert (Hl : msum (fun _ l => l_bytes c' l) (pending c) = msum (fun _ l => l_bytes c l) (pending c)).
  { apply msum_ext. intros k l _. by destruct (published_spans l) as (_ & _ & ->). }
  split; rewrite ?Hpen, ?Hl, ?S1, ?S2, ?S3; try done.
  rewrite (pb_resident _ _ _ Hpub), (pb_sum _ _ _ Hpub), H1. rewrite published_entry, decide_True by done. simpl.
  rewrite (msum_ext (fun _ id => if e_ready (entry_of c' id) then _ else _)
    (fun _ id => if e_ready (entry_of c id) then bytes_of c id else 0)).
  - rewrite (list_fmap_ext (fun v => if e_ready (entry_of c' v) then _ else _) (bytes_of c)); [lia|].
    intros i v Hv%list_elem_of_lookup_2. destruct (victim_facts v Hv) as (_ & Hne & Hr).
    by rewrite published_entry, decide_False, Hr, published_bytes.
  - intros k id Hk. apply (resident_lookup _ (ci_arena _ _ Hi)) in Hk.
    by rewrite published_entry, decide_False, published_bytes by by apply res_not_resident.
Qed.

Lemma published_inv : cache_inv objects c'.
Proof.
  destruct (pb_same _ _ _ Hpub) as (Hcfg & _ & Hcan & Hpen & _). split.
  - eapply config_ok_frame; [exact Hcfg|apply Hi].
  - apply published_arena.
  - apply published_retention.
  - apply published_account.
  - destruct (ci_loads _ _ Hi) as [H1 H2 H3 H4]. pose proof (pb_l_heap _ _ _ Hpub) as Hlh.
    assert (Hl : forall l x, l_heap c' !! l = Some x -> exists y, l_heap c !! l = Some y /\
      l_result x = l_result y /\ l_error x = l_error y /\
      (l_phase x = l_phase y \/ (l = load /\ l_phase x = copying /\ l_phase y = loading))).
    { intros l x. rewrite Hlh. destruct (decide (l = load)) as [->|Hne].
      - rewrite lookup_alter_eq. destruct (l_heap c !! load) as [y|] eqn:E; [|done]. simpl. intros [= <-].
        exists y. split_and!; try done. right. split_and!; try done. rewrite <- Hph. by rewrite (load_of_lookup _ _ _ E).
      - rewrite lookup_alter_ne by done. eauto 10. }
    split.
    + intros l x (y & Hy & E1 & E2 & E3)%Hl. rewrite published_heap, E1. eauto.
    + intros l x (y & Hy & E1 & E2 & E3)%Hl. rewrite E2, <- (H2 _ _ Hy). destruct E3 as [->|(_ & -> & ->)]; done.
    + intros l x (y & Hy & E1 & E2 & E3)%Hl. rewrite published_pending. intros Hx. destruct E3 as [E3|(-> & _)]; [|done]. rewrite E3 in Hx. eauto.
    + intros l x e (y & Hy & E1 & E2 & E3)%Hl. rewrite E2. eauto.
  - destruct (ci_canonical _ _ Hi) as [H1 H2]. split; [by rewrite Hcan, Hcfg|].
    intros id e He. assert (Hs : is_Some (e_heap c !! id)) by (apply published_heap; by eexists).
    destruct Hs as [e0 He0]. pose proof (published_desc id) as Hd. unfold desc_of in Hd.
    rewrite (entry_of_lookup _ _ _ He), (entry_of_lookup _ _ _ He0) in Hd. rewrite Hcan, Hd. by apply (H2 id).
Qed.
End publication.

(** ** [erase] and [clear] *)

Section erasing.
Context (objects : positive -> descriptor) (c c' : ram_cache) (id : positive).
Context (Hi : cache_inv objects c) (Hlive : live_id c id) (Hunres : e_reserved_by (entry_of c id) = None).
Context (Hev : evicted [id] c c').

Lemma erased_same :
  config c' = config c /\ canonical_descriptors c' = canonical_descriptors c /\ pending c' = pending c /\
  e_heap c' = e_heap c /\ l_heap c' = l_heap c.
Proof. pose proof (ev_same _ _ _ Hev). tauto. Qed.

Lemma erased_views : entry_of c' = entry_of c /\ key_of c' = key_of c /\ bytes_of c' = bytes_of c /\
  load_of c' = load_of c /\ l_bytes c' = l_bytes c /\ l_span c' = l_span c /\ s_span c' = s_span c /\ e_span c' = e_span c /\
  pending_id c' = pending_id c /\ in_phase c' = in_phase c /\ in_arena c' = in_arena c.
Proof.
  destruct erased_same as (E1 & _ & E2 & E3 & E4).
  unfold e_span, l_span, s_span, l_bytes, pending_id, in_phase, in_arena, bytes_of, key_of, desc_of, entry_of, load_of.
  by rewrite E1, E2, E3, E4.
Qed.

Lemma erased_resident x : resident_id c' x <-> resident_id c x /\ x <> id.
Proof.
  unfold resident_id. destruct erased_views as (_ & -> & _). rewrite (ev_entries _ _ _ Hev). simpl.
  destruct Hlive as [Hres _]. unfold resident_id in Hres. split.
  - case_decide as Hd; [done|]. intros He. split; [done|]. intros ->. set_solver.
  - intros [He Hne]. rewrite decide_False; [done|]. intros Hk%list_elem_of_singleton. congruence.
Qed.

Lemma erased_arena : arena_inv c'.
Proof.
  pose proof (ci_arena _ _ Hi) as Ha. destruct erased_same as (E1 & _ & E2 & E3 & E4).
  destruct erased_views as (V1 & V2 & V3 & V4 & V5 & V6 & V7 & V8 & V9 & V10 & V11).
  split; unfold live_id; rewrite ?V1, ?V2, ?V3, ?V4, ?V5, ?V6, ?V7, ?V8, ?V9, ?V10, ?V11, ?E1, ?E2, ?E3, ?E4.
  - intros k x. rewrite (ev_entries _ _ _ Hev). case_decide; [done|]. apply (ai_entries c Ha).
  - intros o x. rewrite (ev_offset _ _ _ Hev), list_elem_of_filter, erased_resident, (ai_offset c Ha). simpl.
    rewrite list_elem_of_singleton. split.
    + intros [Hne [Hres Ho]]. split_and!; try done. intros ->. done.
    + intros [[Hres Hne] Ho]. split_and!; try done. intros Heq.
      assert (Hin : (o, x) ∈ by_offset c) by by apply (ai_offset c Ha).
      assert (Hin' : (o, id) ∈ by_offset c) by (apply (ai_offset c Ha); split; [apply Hlive|done]).
      pose proof (ai_apart c Ha x id Hres (proj1 Hlive) Hne) as Hd.
      destruct (ai_placed c Ha x Hres) as [(_ & _ & Hb & _) _].
      destruct (ai_placed c Ha id (proj1 Hlive)) as [(_ & _ & Hb' & _) _].
      apply (Hd o); unfold in_ival, e_span; simpl; lia.
  - rewrite (ev_offset _ _ _ Hev). apply sorted_fst_filter, Ha.
  - intros x [Hres _]%erased_resident. by apply (ai_placed c Ha).
  - intros x x' [H1 _]%erased_resident [H2 _]%erased_resident. by apply (ai_apart c Ha).
  - intros k l Hk. destruct (ai_pending c Ha _ _ Hk) as (-> & ? & ? & ? & ? & ? & Hok). split_and!; try done.
    unfold phase_ok in *. rewrite V1, V2, V4, (ev_entries _ _ _ Hev). simpl.
    destruct (l_phase (load_of c l)); try done.
    + destruct Hok. split; [by case_decide|done].
    + destruct Hok as (He & Hr & ?). split_and!; try done. rewrite decide_False; [done|].
      intros Hk2%list_elem_of_singleton. destruct Hlive as [Hres Hrd]. unfold resident_id in Hres.
      assert (id = l_result (load_of c l)) as -> by congruence. congruence.
  - intros x [Hres _]%erased_resident. by apply (ai_notready c Ha).
  - intros l v Hl Hph Hv. destruct (ai_victims c Ha l v Hl Hph Hv) as [[Hres Hr] Hrs].
    rewrite erased_resident. split_and!; try done. intros ->. congruence.
  - apply (ai_victims_nodup c Ha).
  - intros x l [Hres _]%erased_resident. by apply (ai_reserved c Ha).
  - intros l x Hl Hph [Hres _]%erased_resident. by apply (ai_fill_resident c Ha).
  - apply (ai_fills c Ha).
Qed.

Lemma erased_inv : cache_inv objects c'.
Proof.
  destruct erased_same as (E1 & E0 & E2 & E3 & E4).
  destruct erased_views as (V1 & V2 & V3 & V4 & V5 & _).
  destruct (ev_stats _ _ _ Hev) as (S1 & S2 & S3). destruct Hlive as [Hres Hrd]. split.
  - eapply config_ok_frame; [done|apply Hi].
  - apply erased_arena.
  - destruct (ci_retention _ _ Hi) as [Hwf Hidx Hob]. split; rewrite ?V2, ?E1, ?E2.
    + rewrite (ev_kept _ _ _ Hev). apply (retention_wf_sublist _ _ _ (fun x => x ∉ [id]) Hwf).
    + intros x. rewrite (ev_kept _ _ _ Hev). simpl. rewrite list_elem_of_filter, Hidx, erased_resident, list_elem_of_singleton. tauto.
    + intros Hf k Hk. rewrite (ev_kept _ _ _ Hev). simpl. apply (Hob Hf). destruct Hk as [Hk|Hk]; [left|by right].
      rewrite (ev_entries _ _ _ Hev) in Hk. case_decide; [by destruct Hk|done].
  - destruct (ci_account _ _ Hi) as [H1 H2 H3 H4]. split; rewrite ?V5, ?E2, ?S1, ?S2, ?S3; try done.
    rewrite (ev_resident _ _ _ Hev), (ev_sum _ _ _ Hev), H1, V1, V3. simpl. rewrite Hrd. lia.
  - eapply loads_inv_frame; [..|apply Hi]; done.
  - eapply canonical_inv_frame; [..|apply Hi]; done.
Qed.
End erasing.

Lemma erase_run objects c k :
  cache_inv objects c ->
  erase k c = (Ok false, c) \/
  exists id c', entries c !! k = Some id /\ live_id c id /\ pins_of c id = 0 /\ e_reserved_by (entry_of c id) = None /\
    erase k c = (Ok true, c') /\ evicted [id] c c'.
Proof.
  intros Hi. unfold erase, mbind, M_bind, get. destruct (entries c !! k) as [id|] eqn:Ek; [|by left].
  destruct (_ || _) eqn:Et; [by left|]. right. bool_facts.
  assert (Hres : resident_id c id) by (by apply (resident_lookup _ (ci_arena _ _ Hi)) in Ek).
  assert (Hk : key_of c id = k) by (by apply (ai_entries c (ci_arena _ _ Hi)) in Ek as [? _]).
  assert (Hun : e_reserved_by (entry_of c id) = None).
  { apply bool_decide_eq_false in H1. destruct (e_reserved_by _); [|done]. exfalso. apply H1. by eexists. }
  exists id. eexists. split_and!; [done|done|done|done|reflexivity|].
  assert (Hrec : id ∈ by_recency (kept c)) by by apply (ri_index c (ci_retention _ _ Hi)).
  split; simpl.
  - done.
  - unfold offset_erase. apply list_filter_iff. intros x. by rewrite list_elem_of_singleton.
  - change (recency_erase (key_of c) id (kept c) = (kept c) <| by_recency := filter (fun x => x ∉ [id]) (by_recency (kept c)) |>).
    rewrite (recency_erase_ok _ _ _ _ (ri_wf _ (ci_retention _ _ Hi)) Hrec).
    rewrite (list_filter_iff (fun y => y <> id) (fun x => x ∉ [id])); [done|]. intros x. by rewrite list_elem_of_singleton.
  - intros k'. rewrite Hk. destruct (decide (k' = k)) as [->|Hne].
    + rewrite lookup_delete_eq, decide_True by left. done.
    + rewrite lookup_delete_ne by done. rewrite decide_False; [done|]. by intros ?%list_elem_of_singleton.
  - intros f. rewrite Hk, (msum_delete f _ _ _ Ek). lia.
  - lia.
  - done.
Qed.

Definition cleared (c : ram_cache) : ram_cache :=
  c <| by_offset := [] |>
    <| kept ::= fun k => k <| by_recency := [] |> <| observations := ∅ |> <| frequency_clock := 0 |> |>
    <| entries := ∅ |> <| cstats ::= fun s => s <| resident_bytes := 0 |> |>.

Lemma cleared_inv objects c : cache_inv objects c -> pending c = ∅ -> cache_inv objects (cleared c).
Proof.
  intros [H1 H2 H3 H4 H5 H6] Hp.
  assert (Hno : forall load, ~ pending_id (cleared c) load).
  { intros load H. unfold pending_id in H. simpl in H. by rewrite Hp, lookup_empty in H. }
  assert (Hnr : forall id, ~ resident_id (cleared c) id).
  { intros id H. unfold resident_id in H. simpl in H. by rewrite lookup_empty in H. }
  split.
  - eapply config_ok_frame; [|exact H1]. done.
  - split.
    + simpl. intros k id Hk. by rewrite lookup_empty in Hk.
    + intros o id. simpl. split; [by intros ?%not_elem_of_nil|]. intros [Hr _]. by apply Hnr in Hr.
    + constructor.
    + intros id Hr. by apply Hnr in Hr.
    + intros id id' Hr. by apply Hnr in Hr.
    + simpl. intros k load Hk. by rewrite Hp, lookup_empty in Hk.
    + intros id Hr. by apply Hnr in Hr.
    + intros load v Hl. by apply Hno in Hl.
    + intros load Hl. by apply Hno in Hl.
    + intros id load Hr. by apply Hnr in Hr.
    + intros load id Hl. by apply Hno in Hl.
    + intros load load' Hl. by apply Hno in Hl.
  - destruct H3 as [[W1 W2 W3 W4] Hidx Hob]. split.
    + split; simpl; [constructor|constructor|done|done].
    + intros id. simpl. split; [by intros ?%not_elem_of_nil|]. intros Hr. by apply Hnr in Hr.
    + simpl. intros _ k [[? Hk]|[? Hk]]; [by rewrite lookup_empty in Hk|by rewrite Hp, lookup_empty in Hk].
  - destruct H4 as [A1 A2 A3 A4]. split; simpl; try done.
  - eapply loads_inv_frame; [..|exact H5]; done.
  - eapply canonical_inv_frame; [..|exact H6]; done.
Qed.

Lemma clear_run c :
  clear c = (Ok tt, cleared c) /\ pending c = ∅ /\ (forall k id, entries c !! k = Some id -> pins_of c id = 0) \/
  exists m, clear c = (Err (capacity_error m), c).
Proof.
  unfold clear, mbind, M_bind, get. case_bool_decide as Hp; simpl; [|by right; eexists].
  destruct (existsb _ _) eqn:Ee; [by right; eexists|]. left. split_and!; [done|done|].
  intros k id Hk. destruct (Z.eqb_spec (pins_of c id) 0) as [|Hne]; [done|]. exfalso.
  apply not_true_iff_false in Ee. apply Ee. apply existsb_exists. exists (k, id). split.
  - by apply list_elem_of_In, elem_of_map_to_list.
  - simpl. apply negb_true_iff. by apply Z.eqb_neq.
Qed.
