(* ===== verification/ExpertCacheThreads.v ===== *)
(** * Threads, leases and memory of the expert cache system

    The parts of the invariant of [ExpertCacheSystem] that relate the cache to
    its threads and leases, and how they survive a change of one thread. *)

From S2P Require Import Prelude ExpertDescriptor ExpertArena ExpertRetention ExpertCache ExpertCacheSystem ExpertCacheInv ExpertCacheSteps ExpertCachePublish.

(** Every thread is where the books say; every fill has exactly one thread. *)
Record threads_inv (c : ram_cache) (T : gmap positive pc) : Prop := {
  ti_ok : forall tid p, T !! tid = Some p -> thread_ok c p /\ thread_mem c p;
  ti_unique : forall tid tid' p p' load, T !! tid = Some p -> T !! tid' = Some p' ->
    fills p load -> fills p' load -> tid = tid';
  ti_served : forall k load, pending c !! k = Some load -> exists tid p, T !! tid = Some p /\ fills p load;
}.

(** A [shared_ptr] to the load exists. *)
Definition held (c : ram_cache) (T : gmap positive pc) (load : positive) : Prop :=
  (exists k, pending c !! k = Some load) \/ (exists tid p, T !! tid = Some p /\ pc_load p = Some load).

Record pins_inv (c : ram_cache) (leased : list positive) : Prop := {
  pi_leased : forall id, id ∈ leased -> live_id c id;
  pi_ready : forall load l, l_heap c !! load = Some l -> l_phase l = ready -> live_id c (l_result l);
  pi_count : forall id, pins_of c id = lease_count leased id + completion_pins c id;
}.

Definition arena_mem (c : ram_cache) : Prop :=
  forall id, live_id c id -> payload_at c (resident_arena c) (e_offset (entry_of c id)) (desc_of c id).

(** The invariant, except that the load [x] may have lost its last owner. *)
Record inv_but (objects : positive -> descriptor) (x : option positive) (s : sys) : Prop := {
  iv_cache : cache_inv objects (cache s);
  iv_threads : threads_inv (cache s) (threads s);
  iv_held : forall load, Some load <> x -> is_Some (l_heap (cache s) !! load) -> held (cache s) (threads s) load;
  iv_pins : pins_inv (cache s) (leases s);
  iv_mem : arena_mem (cache s);
}.

Definition inv (objects : positive -> descriptor) (s : sys) : Prop := inv_but objects None s.

Lemma owned_spec s load : owned s load = true <-> held (cache s) (threads s) load.
Proof.
  unfold owned, held. rewrite orb_true_iff, !existsb_exists. apply Morphisms_Prop.or_iff_morphism.
  - split.
    + intros ([k l] & Hin & Hl). apply bool_decide_eq_true in Hl. simpl in Hl. subst. exists k.
      by apply elem_of_map_to_list, list_elem_of_In.
    + intros [k Hk]. exists (k, load). split; [by apply list_elem_of_In, elem_of_map_to_list|].
      by apply bool_decide_eq_true.
  - split.
    + intros ([t p] & Hin & Hl). apply bool_decide_eq_true in Hl. exists t, p. split; [|done].
      by apply elem_of_map_to_list, list_elem_of_In.
    + intros (t & p & Ht & Hp). exists (t, p). split; [by apply list_elem_of_In, elem_of_map_to_list|].
      by apply bool_decide_eq_true.
Qed.

(** ** One thread changes *)

Definition set_thread (tid : positive) (o : option pc) (T : gmap positive pc) : gmap positive pc :=
  match o with Some p => <[tid := p]> T | None => delete tid T end.

Lemma set_thread_eq tid o T : set_thread tid o T !! tid = o.
Proof. destruct o; [apply lookup_insert_eq|apply lookup_delete_eq]. Qed.

Lemma set_thread_ne tid o T t : t <> tid -> set_thread tid o T !! t = T !! t.
Proof. intros Hne. destruct o; simpl; [by rewrite lookup_insert_ne|by rewrite lookup_delete_ne]. Qed.

Lemma threads_update c c' T tid o :
  threads_inv c T ->
  (forall t p, t <> tid -> T !! t = Some p -> thread_ok c' p /\ thread_mem c' p) ->
  (forall p, o = Some p -> thread_ok c' p /\ thread_mem c' p) ->
  (forall t p p' load, t <> tid -> T !! t = Some p -> o = Some p' -> fills p load -> fills p' load -> False) ->
  (forall k load, pending c' !! k = Some load ->
     (exists p, o = Some p /\ fills p load) \/ (exists t p, t <> tid /\ T !! t = Some p /\ fills p load)) ->
  threads_inv c' (set_thread tid o T).
Proof.
  intros [Hok Huniq _] Hothers Hself Hdisj Hserved. split.
  - intros t p Ht. destruct (decide (t = tid)) as [->|Hne]; [rewrite set_thread_eq in Ht; auto|].
    rewrite set_thread_ne in Ht by done. eauto.
  - intros t t' p p' load Ht Ht' Hf Hf'. destruct (decide (t = tid)) as [->|Hne], (decide (t' = tid)) as [->|Hne']; [done| | |].
    + rewrite set_thread_eq in Ht. rewrite set_thread_ne in Ht' by done. exfalso. eauto.
    + rewrite set_thread_eq in Ht'. rewrite set_thread_ne in Ht by done. exfalso. eauto.
    + rewrite set_thread_ne in Ht, Ht' by done. eauto.
  - intros k load Hk. destruct (Hserved k load Hk) as [(p & -> & Hf)|(t & p & Hne & Ht & Hf)].
    + exists tid, p. by rewrite set_thread_eq.
    + exists t, p. by rewrite set_thread_ne.
Qed.

Lemma held_update c' T tid o load :
  held c' T load ->
  (forall p, T !! tid = Some p -> pc_load p = Some load ->
     (exists k, pending c' !! k = Some load) \/ (exists p', o = Some p' /\ pc_load p' = Some load)) ->
  held c' (set_thread tid o T) load.
Proof.
  intros [Hk|(t & p & Ht & Hp)] Hself; [by left|]. destruct (decide (t = tid)) as [->|Hne].
  - destruct (Hself p Ht Hp) as [?|(p' & -> & Hp')]; [by left|]. right. exists tid, p'. by rewrite set_thread_eq.
  - right. exists t, p. by rewrite set_thread_ne.
Qed.

(** ** Stability of a thread's facts *)

Lemma thread_ok_stable c c' p :
  config c' = config c -> sources c' = sources c ->
  (forall k d, canonical_descriptors c !! k = Some d -> canonical_descriptors c' !! k = Some d) ->
  (forall k, is_Some (observations (kept c) !! k) -> is_Some (observations (kept c') !! k)) ->
  (forall load, pc_load p = Some load ->
     (is_Some (l_heap c !! load) -> is_Some (l_heap c' !! load)) /\
     desc_of c' (l_result (load_of c' load)) = desc_of c (l_result (load_of c load))) ->
  (forall load, fills p load -> l_phase (load_of c' load) = l_phase (load_of c load) /\
     forall k, pending c !! k = Some load -> pending c' !! k = Some load) ->
  thread_ok c p -> thread_ok c' p.
Proof.
  intros Hcfg Hsrc Hcan Hobs Hload Hfill.
  assert (Hf : forall load value ph, fills p load -> filling c load value ph -> filling c' load value ph).
  { intros load value ph Hfl (Hp & Hph & Hd). destruct (Hfill load Hfl) as [Hph' Hpen].
    destruct Hfl as [_ Hpl]. destruct (Hload load Hpl) as [_ Hd']. unfold filling, in_phase in *. rewrite Hph', Hd'. auto. }
  destruct p; simpl.
  - intros [? Hreg]. split; [by apply Hf|]. unfold extent_registered in *. by rewrite Hsrc.
  - intros [? ?]. split; [|done]. by apply Hf.
  - by apply Hf.
  - by apply Hf.
  - destruct (Hload load eq_refl) as [Hs Hd]. rewrite Hd. intros [? ?]. auto.
  - intros [? Ho]. rewrite Hcfg. auto.
Qed.

Lemma thread_mem_stable c c' p :
  sources c' = sources c -> staging c' = staging c -> resident_arena c' = resident_arena c ->
  (forall load, fills p load -> l_staging (load_of c' load) = l_staging (load_of c load)) ->
  (forall load value, p = Copied load value -> l_offset (load_of c' load) = l_offset (load_of c load)) ->
  thread_mem c p -> thread_mem c' p.
Proof.
  intros E1 E2 E3 Hs Ho. destruct p as [load| load ? ? []| load| load| |]; simpl; unfold payload_at; rewrite ?E1, ?E2, ?E3; try done.
  - by rewrite (Hs load).
  - by rewrite (Hs load).
  - by rewrite (Hs load).
  - by rewrite (Ho load value).
Qed.

(** ** Soft steps: the arena, the books and the memories stay *)

Record soft (c c' : ram_cache) : Prop := {
  so_config : config c' = config c;
  so_sources : sources c' = sources c;
  so_entries : entries c' = entries c;
  so_pending : pending c' = pending c;
  so_staging : staging c' = staging c;
  so_arena : resident_arena c' = resident_arena c;
  so_e_heap : e_heap c' = e_heap c;
  so_l_heap : l_heap c' = l_heap c;
  so_canonical : forall k d, canonical_descriptors c !! k = Some d -> canonical_descriptors c' !! k = Some d;
  so_observed : forall k, is_Some (observations (kept c) !! k) -> is_Some (observations (kept c') !! k);
}.

Lemma soft_refl c : soft c c.
Proof. by split. Qed.

Lemma soft_views c c' : soft c c' ->
  entry_of c' = entry_of c /\ desc_of c' = desc_of c /\ load_of c' = load_of c /\ live_id c' = live_id c /\
  completion_pins c' = completion_pins c.
Proof.
  intros []. unfold completion_pins, live_id, resident_id, key_of, desc_of, entry_of, load_of.
  by rewrite so_entries0, so_e_heap0, so_l_heap0.
Qed.

Lemma soft_thread c c' p : soft c c' -> thread_ok c p /\ thread_mem c p -> thread_ok c' p /\ thread_mem c' p.
Proof.
  intros Hs [Hok Hmem]. destruct (soft_views c c' Hs) as (V1 & V2 & V3 & _). destruct Hs. split.
  - eapply thread_ok_stable; [..|exact Hok]; try done.
    + intros load _. by rewrite V2, V3, so_l_heap0.
    + intros load _. by rewrite V3, so_pending0.
  - eapply thread_mem_stable; [..|exact Hmem]; try done; intros; by rewrite V3.
Qed.

Lemma soft_mem c c' : soft c c' -> arena_mem c -> arena_mem c'.
Proof.
  intros Hs Hm id Hl. destruct (soft_views c c' Hs) as (V1 & V2 & V3 & V4 & _). rewrite V4 in Hl.
  unfold payload_at. rewrite V1, V2, (so_sources _ _ Hs), (so_arena _ _ Hs). by apply Hm.
Qed.

Section soft_steps.
Context (objects : positive -> descriptor) (s : sys) (Hinv : inv objects s) (tid : positive).
Context (c' : ram_cache) (Hs : soft (cache s) c') (Hc : cache_inv objects c').
Context (Hself : forall p, threads s !! tid = Some p -> ~ filler p).

Lemma soft_threads_inv o :
  (forall p, o = Some p -> ~ filler p /\ thread_ok c' p /\ thread_mem c' p) ->
  threads_inv c' (set_thread tid o (threads s)).
Proof.
  intros Ho. pose proof (iv_threads _ _ _ Hinv) as HT. eapply threads_update; [exact HT|..].
  - intros t p Hne Ht. eapply soft_thread; [exact Hs|]. by apply (ti_ok _ _ HT t).
  - intros p Hp. by apply Ho.
  - intros t p p' load Hne Ht Hp' _ [Hf _]. by destruct (Ho p' Hp').
  - intros k load Hk. rewrite (so_pending _ _ Hs) in Hk. right.
    destruct (ti_served _ _ HT k load Hk) as (t & p & Ht & Hf). exists t, p. split_and!; try done.
    intros ->. destruct Hf as [Hf _]. by apply (Hself p).
Qed.

Lemma soft_held o load :
  (forall p, threads s !! tid = Some p -> pc_load p <> Some load) -> is_Some (l_heap c' !! load) ->
  held c' (set_thread tid o (threads s)) load.
Proof.
  intros Hne Hl. apply held_update.
  - rewrite (so_l_heap _ _ Hs) in Hl. destruct (iv_held _ _ _ Hinv load ltac:(done) Hl) as [[k Hk]|?]; [left|by right].
    exists k. by rewrite (so_pending _ _ Hs).
  - intros p Hp Hpl. by apply Hne in Hp.
Qed.

(** Leases may change by the amount the pins change. *)
Lemma soft_pins leased :
  (forall id, id ∈ leased -> live_id (cache s) id) ->
  (forall id, pins_of c' id - pins_of (cache s) id = lease_count leased id - lease_count (leases s) id) ->
  pins_inv c' leased.
Proof.
  intros Hl Hcount. destruct (iv_pins _ _ _ Hinv) as [P1 P2 P3].
  destruct (soft_views _ _ Hs) as (_ & _ & _ & V4 & V5). split.
  - by rewrite V4.
  - rewrite (so_l_heap _ _ Hs), V4. exact P2.
  - intros id. rewrite V5. specialize (Hcount id). specialize (P3 id). lia.
Qed.

Lemma soft_step o leased x :
  (forall p, o = Some p -> ~ filler p /\ thread_ok c' p /\ thread_mem c' p) ->
  (forall p load, threads s !! tid = Some p -> pc_load p = Some load -> x = Some load) ->
  (forall id, id ∈ leased -> live_id (cache s) id) ->
  (forall id, pins_of c' id - pins_of (cache s) id = lease_count leased id - lease_count (leases s) id) ->
  inv_but objects x (mk_sys c' (set_thread tid o (threads s)) leased).
Proof.
  intros Ho Hx Hl Hcount. split; simpl.
  - exact Hc.
  - by apply soft_threads_inv.
  - intros load Hne Hh. apply soft_held; [|done]. intros p Hp Hpl. apply Hne. symmetry. eauto.
  - by apply soft_pins.
  - eapply soft_mem; [exact Hs|]. apply Hinv.
Qed.
End soft_steps.

(** ** The destructor of a load *)

Section dropping.
Context (objects : positive -> descriptor) (c : ram_cache) (load : positive) (Hi : cache_inv objects c).
Context (Hnp : forall k, pending c !! k <> Some load).

Definition dropped : ram_cache := c <| l_heap ::= delete load |>.

Lemma dropped_load l : l <> load -> load_of dropped l = load_of c l.
Proof. intros Hne. unfold load_of. rewrite !lookup_total_alt. simpl. by rewrite lookup_delete_ne. Qed.

Lemma dropped_pending l : pending_id dropped l <-> pending_id c l.
Proof.
  destruct (decide (l = load)) as [->|Hne]; [|unfold pending_id; by rewrite dropped_load].
  split; intros H; exfalso; eapply Hnp; exact H.
Qed.

Lemma pending_ne l k : pending c !! k = Some l -> l <> load.
Proof. intros Hk ->. by apply Hnp in Hk. Qed.

Lemma dropped_arena : arena_inv dropped.
Proof.
  pose proof (ci_arena _ _ Hi) as Ha.
  assert (Hph : forall l p, pending_id c l -> in_phase dropped l p <-> in_phase c l p).
  { intros l p Hl. unfold in_phase. by rewrite dropped_load by (by eapply pending_ne). }
  assert (Hsp : forall l, pending_id c l -> l_span dropped l = l_span c l /\ s_span dropped l = s_span c l /\ l_bytes dropped l = l_bytes c l).
  { intros l Hl. unfold l_span, s_span, l_bytes. by rewrite dropped_load by (by eapply pending_ne). }
  split; [exact (ai_entries c Ha)|exact (ai_offset c Ha)|exact (ai_sorted c Ha)|exact (ai_placed c Ha)|exact (ai_apart c Ha)|..].
  - intros k l Hk. destruct (ai_pending c Ha k l Hk) as (-> & Hh & Hrest). assert (Hl : pending_id c l) by done.
    destruct (Hsp l Hl) as (_ & _ & ->). rewrite dropped_load by (by eapply pending_ne). split; [done|]. split.
    + simpl. rewrite lookup_delete_ne; [done|]. symmetry. by eapply pending_ne.
    + destruct Hrest as (? & ? & ? & ? & Hok). split_and!; try done. unfold phase_ok. by rewrite dropped_load by (by eapply pending_ne).
  - intros id Hres Hr. destruct (ai_notready c Ha id Hres Hr) as (l & Hl & Hpl & Hid). exists l.
    rewrite dropped_pending, Hph, dropped_load by (done || by eapply pending_ne). done.
  - intros l v. rewrite dropped_pending. intros Hl. rewrite Hph, dropped_load by (done || by eapply pending_ne).
    by apply (ai_victims c Ha).
  - intros l. rewrite dropped_pending. intros Hl. rewrite Hph, dropped_load by (done || by eapply pending_ne).
    by apply (ai_victims_nodup c Ha).
  - intros id l Hres Hr. destruct (ai_reserved c Ha id l Hres Hr) as (Hl & Hpl & Hv).
    rewrite dropped_pending, Hph, dropped_load by (done || by eapply pending_ne). done.
  - intros l id. rewrite dropped_pending. intros Hl. rewrite Hph, dropped_load by (done || by eapply pending_ne).
    destruct (Hsp l Hl) as (-> & _). by apply (ai_fill_resident c Ha).
  - intros l l'. rewrite !dropped_pending. intros Hl Hl'. destruct (Hsp l Hl) as (-> & -> & _), (Hsp l' Hl') as (-> & -> & _).
    by apply (ai_fills c Ha).
Qed.

Lemma dropped_inv : cache_inv objects dropped.
Proof.
  split.
  - eapply config_ok_frame; [|apply Hi]. done.
  - apply dropped_arena.
  - eapply retention_inv_frame; [..|apply Hi]; done.
  - destruct (ci_account _ _ Hi) as [H1 H2 H3 H4].
    assert (Hsum : msum (fun _ l => l_bytes dropped l) (pending c) = msum (fun _ l => l_bytes c l) (pending c)).
    { apply msum_ext. intros k l Hk. unfold l_bytes. by rewrite dropped_load by (by eapply pending_ne). }
    split; simpl; rewrite ?Hsum; done.
  - destruct (ci_loads _ _ Hi) as [H1 H2 H3 H4].
    split; simpl; intros l x; [| | |intros e]; rewrite lookup_delete_Some; intros [Hne Hl]; [eauto..| |eauto].
    intros Hx. apply dropped_pending. eauto.
  - eapply canonical_inv_frame; [..|apply Hi]; done.
Qed.
End dropping.

Lemma dropped_completion c load l id :
  l_heap c !! load = Some l ->
  completion_pins (dropped c load) id =
  completion_pins c id - if bool_decide (l_phase l = ready /\ l_result l = id) then 1 else 0.
Proof. intros Hl. unfold completion_pins. simpl. by rewrite (msum_delete _ _ _ _ Hl). Qed.

Lemma pins_of_add c id n x : pins_of (add_pins id n c) x = pins_of c x + if decide (x = id) then n else 0.
Proof.
  unfold pins_of, add_pins. simpl. case_decide; subst.
  - by rewrite lookup_insert_eq.
  - rewrite lookup_insert_ne by done. lia.
Qed.

Lemma reap_inv objects load s :
  inv_but objects (Some load) s -> is_Some (l_heap (cache s) !! load) -> inv objects (reap load s).
Proof.
  intros [Hc HT Hh HP Hm] [l Hl]. unfold reap. destruct (owned s load) eqn:Eo.
  - split; try done. intros x _ Hx. destruct (decide (x = load)) as [->|Hne]; [by apply owned_spec|]. apply Hh; [congruence|done].
  - assert (Hnh : ~ held (cache s) (threads s) load) by (rewrite <- owned_spec; congruence).
    rewrite (load_of_lookup _ _ _ Hl).
    set (c0 := if bool_decide _ then _ else _).
    assert (Hs : soft (cache s) c0) by (unfold c0; case_bool_decide; by split).
    assert (Hc0 : cache_inv objects c0).
    { unfold c0. case_bool_decide; [|done]. eapply cache_inv_frame; [..|exact Hc]; try done.
      eapply retention_inv_frame; [..|apply Hc]; done. }
    assert (Hp0 : forall id, pins_of c0 id = pins_of (cache s) id - if bool_decide (l_phase l = ready /\ l_result l = id) then 1 else 0).
    { intros id. unfold c0. destruct (decide (l_phase l = ready)) as [Hr|Hr].
      - rewrite bool_decide_eq_true_2, pins_of_add by done. repeat case_decide || case_bool_decide; naive_solver lia.
      - rewrite bool_decide_eq_false_2 by done. rewrite bool_decide_eq_false_2 by naive_solver. lia. }
    assert (Hnp : forall k, pending c0 !! k <> Some load).
    { intros k Hk. apply Hnh. left. exists k. by rewrite <- (so_pending _ _ Hs). }
    assert (Hl0 : l_heap c0 !! load = Some l) by by rewrite (so_l_heap _ _ Hs).
    pose proof (soft_views _ _ Hs) as (V1 & V2 & V3 & V4 & V5). clearbody c0. split; simpl.
    + by apply dropped_inv.
    + assert (Ht : forall t p, threads s !! t = Some p -> thread_ok (dropped c0 load) p /\ thread_mem (dropped c0 load) p).
      { intros t p Ht. assert (Hpl : pc_load p <> Some load) by (intros Hpl; apply Hnh; right; eauto).
        pose proof (soft_thread _ _ p Hs (ti_ok _ _ HT t p Ht)) as [Hok Hmem]. split.
        - eapply thread_ok_stable; [..|exact Hok]; try done.
          + intros l' Hl'. assert (l' <> load) by congruence. rewrite dropped_load by done. split; [|done].
            simpl. by rewrite lookup_delete_ne.
          + intros l' [_ Hl']. assert (l' <> load) by congruence. by rewrite dropped_load.
        - eapply thread_mem_stable; [..|exact Hmem]; try done.
          + intros l' [_ Hl']. assert (l' <> load) by congruence. by rewrite dropped_load.
          + intros l' v ->. simpl in Hpl. assert (l' <> load) by congruence. by rewrite dropped_load. }
      split; [done|apply (ti_unique _ _ HT)|]. simpl. rewrite (so_pending _ _ Hs). apply (ti_served _ _ HT).
    + intros x _ [y Hx]. rewrite lookup_delete_Some in Hx. destruct Hx as [Hne Hx]. rewrite (so_l_heap _ _ Hs) in Hx.
      destruct (Hh x) as [[k Hk]|?]; [congruence|by eexists|left|by right]. exists k. simpl. by rewrite (so_pending _ _ Hs).
    + change (pins_inv (dropped c0 load) (leases s)). destruct HP as [P1 P2 P3].
      assert (Hlive : forall id, live_id (dropped c0 load) id <-> live_id (cache s) id) by (intros id; by rewrite <- V4). split.
      * intros id Hid. by apply Hlive, P1.
      * simpl. intros l' x [_ Hx]%lookup_delete_Some Hr. apply Hlive. rewrite (so_l_heap _ _ Hs) in Hx. eauto.
      * intros id. change (pins_of (dropped c0 load) id) with (pins_of c0 id).
        rewrite (dropped_completion _ _ _ _ Hl0), Hp0, V5, P3. lia.
    + exact (soft_mem _ _ Hs Hm).
Qed.
