(* ===== verification/ExpertCacheSafety.v ===== *)
(** * Every step of the expert cache system keeps the invariant *)

From S2P Require Import Prelude ExpertDescriptor ExpertArena ExpertRetention ExpertCache ExpertCacheSystem ExpertCacheInv ExpertCacheSteps ExpertCachePublish ExpertCacheThreads.

(** Counters outside the books. *)
Definition bookless (f : cache_stats -> cache_stats) : Prop := forall s,
  resident_bytes (f s) = resident_bytes s /\ reserved_bytes (f s) = reserved_bytes s /\
  staging_used_bytes (f s) = staging_used_bytes s /\ active_loads (f s) = active_loads s.

Lemma soft_stats c f : soft c (upd_stats f c).
Proof. by split. Qed.

Lemma soft_trans c1 c2 c3 : soft c1 c2 -> soft c2 c3 -> soft c1 c3.
Proof. intros [] []. split; try congruence; auto. Qed.

Lemma stats_inv objects c f : bookless f -> cache_inv objects c -> cache_inv objects (upd_stats f c).
Proof.
  intros Hf Hc. destruct (Hf (cstats c)) as (E1 & E2 & E3 & E4).
  eapply cache_inv_frame; [..|exact Hc]; try done. eapply retention_inv_frame; [..|apply Hc]; done.
Qed.

(** ** Descriptors *)

Lemma valid_ptr_facts objects v :
  valid_ptr objects v ->
  0 < dp_bytes v /\ zsum (ext_length <$> d_extents (dp_desc v)) = dp_bytes v /\
  Forall (fun e => 0 < ext_length e /\ 0 <= ext_offset e) (d_extents (dp_desc v)).
Proof.
  intros (_ & Ht & sizes & Hmk). apply make_iff_valid in Hmk as [Hv Hd]; [|done].
  assert (Hb : dp_bytes v = packed_bytes (d_spec (dp_desc v))) by (unfold dp_bytes; rewrite Hd at 1; done).
  assert (Hpos : Forall (fun e => 0 < ext_length e /\ 0 <= ext_offset e) (sp_extents (d_spec (dp_desc v)))).
  { pose proof (vs_extents _ _ Hv) as He. pose proof (typed_extents _ Ht) as Hty.
    rewrite Forall_forall in *. intros e Hin. destruct (He e Hin) as (_ & Hl & _).
    destruct (Hty e Hin) as [[? _] [? _]]. lia. }
  split_and!; [|by rewrite Hb; apply Hv|done]. rewrite Hb, <- (vs_sum _ _ Hv). pose proof (vs_nonempty _ _ Hv) as Hne.
  destruct (sp_extents (d_spec (dp_desc v))) as [|e l]; [done|]. apply Forall_cons in Hpos as [[He _] Hl].
  rewrite fmap_cons. change (0 < ext_length e + zsum (ext_length <$> l)).
  assert (0 <= zsum (ext_length <$> l)); [|lia]. apply zsum_nonneg, Forall_fmap.
  eapply Forall_impl; [exact Hl|]. simpl. intros ? [? _]. lia.
Qed.

(** ** One round of [acquire]'s loop *)

Section loop.
Context (objects : positive -> descriptor) (c : ram_cache) (v : dptr) (Hi : cache_inv objects c).
Context (Hcan : canonical_descriptors c !! dp_key v = Some v).
Context (Hobs : frequency_retention (config c) = true -> is_Some (observations (kept c) !! dp_key v)).

(** How a round ends. *)
Inductive loop_end : result exn progress -> ram_cache -> Prop :=
| loop_hit id r : live_id c id -> desc_of c id = v -> observations r = observations (kept c) ->
    cache_inv objects (add_pins id 1 (upd_stats (fun s => s <| hits ::= Z.succ |>) (c <| kept := r |>))) ->
    loop_end (Ok (Leased id)) (add_pins id 1 (upd_stats (fun s => s <| hits ::= Z.succ |>) (c <| kept := r |>)))
| loop_coalesced load f : pending c !! dp_key v = Some load -> bookless f ->
    loop_end (Ok (Suspended (Coalesced load v))) (upd_stats f c)
| loop_throw e f : internal_error e = false -> bookless f -> loop_end (Err e) (upd_stats f c)
| loop_refuse e : internal_error e = false -> loop_end (Err e) c
| loop_wait f : bookless f -> loop_end (Ok (Suspended (StagingWait v))) (upd_stats f c)
| loop_admit offset victims slot :
    forallb (extent_registered c) (d_extents (dp_desc v)) = true ->
    entries c !! dp_key v = None -> pending c !! dp_key v = None ->
    plan_good c (dp_bytes v) None offset victims ->
    (0 <= slot /\ slot + dp_bytes v <= staging_bytes (config c) /\
     forall load, pending_id c load -> idisj (slot, slot + dp_bytes v) (s_span c load)) ->
    loop_end (Ok (Suspended (Reading (new_load c) v (d_extents (dp_desc v)) slot [0; 0; 0])))
      (admitted c v offset victims slot).

(** A cached entry of the key that is not ready belongs to a pending fill. *)
Lemma not_cached : cached_ready c (dp_key v) = None -> pending c !! dp_key v = None -> entries c !! dp_key v = None.
Proof.
  unfold cached_ready. intros Hc Hp. destruct (entries c !! dp_key v) as [id|] eqn:E; [|done].
  destruct (e_ready (entry_of c id)) eqn:Er; [done|]. exfalso.
  pose proof (ci_arena _ _ Hi) as Ha. pose proof (resident_lookup _ Ha _ _ E) as Hres.
  destruct (ai_notready c Ha id Hres Er) as (load & Hl & _ & <-). apply (ai_entries c Ha) in E as [Hk _].
  unfold pending_id in Hl. congruence.
Qed.

Lemma acquire_loop_end : exists r c', acquire_loop v c = (r, c') /\ loop_end r c'.
Proof.
  pose proof (ci_arena _ _ Hi) as Ha.
  assert (Hpos : 0 < dp_bytes v).
  { destruct (ca_valid _ _ (ci_canonical _ _ Hi) _ _ Hcan) as (_ & Hv & _). by apply valid_ptr_facts in Hv as [? _]. }
  unfold acquire_loop, mbind, M_bind, get.
  destruct (cached_ready c (dp_key v)) as [id|] eqn:Ec.
  { unfold cached_ready in Ec. destruct (entries c !! dp_key v) as [id'|] eqn:E; [|done].
    destruct (e_ready (entry_of c id')) eqn:Er; [|done]. simplify_eq.
    pose proof (resident_lookup _ Ha _ _ E) as Hres. destruct (hit_ok objects c id Hi Hres) as (r & -> & Hinv & Ho).
    do 2 eexists. split; [reflexivity|]. eapply loop_hit; [by split| |done|done].
    apply (ai_entries c Ha) in E as [Hk [e He]]. pose proof (ca_entries _ _ (ci_canonical _ _ Hi) id e He) as Hce.
    unfold key_of, desc_of in *. rewrite (entry_of_lookup _ _ _ He) in *. congruence. }
  destruct (pending c !! dp_key v) as [load|] eqn:Ep.
  { do 2 eexists. split; [reflexivity|]. by apply loop_coalesced. }
  destruct (plan_sound c (ci_config _ _ Hi) Ha (ci_retention _ _ Hi) (ci_account _ _ Hi) (dp_bytes v) None Hpos)
    as (o & -> & Hplan). unfold lift.
  destruct o as [[offset victims]|].
  - destruct (staging_sound c (ci_config _ _ Hi) Ha (dp_bytes v) Hpos) as (o & -> & Hslot).
    destruct o as [slot|]; [|do 2 eexists; split; [reflexivity|by apply loop_wait]].
    rewrite admit_run. destruct (negb _) eqn:Ereg.
    + do 2 eexists. split; [reflexivity|]. by apply loop_refuse.
    + do 2 eexists. split; [reflexivity|]. apply loop_admit; try done; [by apply negb_false_iff|by apply not_cached].
  - case_bool_decide; do 2 eexists; (split; [reflexivity|]); [by apply loop_throw|by apply loop_wait].
Qed.
End loop.

Lemma lease_count_cons id leased x :
  lease_count (id :: leased) x = lease_count leased x + if decide (x = id) then 1 else 0.
Proof.
  unfold lease_count. rewrite filter_cons. destruct (decide (id = x)) as [->|Hne].
  - rewrite decide_True by done. simpl. lia.
  - rewrite decide_False by congruence. lia.
Qed.

Section steps.
Context (objects : positive -> descriptor).

(** What a caller of [acquire] for [v] may see. *)
Definition answer_ok (s : sys) (v : dptr) (r : reply) : Prop :=
  match r with
  | Got id => live_id (cache s) id /\ desc_of (cache s) id = v /\ id ∈ leases s
  | Threw e => internal_error e = false
  | Parked => True
  | Nothing | Answer _ => False
  end.

(** ** Admission *)

Section admission.
Context (s : sys) (tid : positive) (v : dptr) (offset : Z) (victims : list positive) (slot : Z).
Context (Hinv : inv objects s).
Context (Hself : forall p, threads s !! tid = Some p -> ~ filler p /\ pc_load p = None).
Context (Hreg : forallb (extent_registered (cache s)) (d_extents (dp_desc v)) = true).
Context (Hcan : canonical_descriptors (cache s) !! dp_key v = Some v).
Context (Hent : entries (cache s) !! dp_key v = None) (Hpen : pending (cache s) !! dp_key v = None).
Context (Hplan : plan_good (cache s) (dp_bytes v) None offset victims).
Context (Hslot : 0 <= slot /\ slot + dp_bytes v <= staging_bytes (config (cache s)) /\
  forall load, pending_id (cache s) load -> idisj (slot, slot + dp_bytes v) (s_span (cache s) load)).
Context (Hobs : frequency_retention (config (cache s)) = true ->
  is_Some (observations (kept (cache s)) !! dp_key v)).

Abbreviation c := (cache s).
Abbreviation c' := (admitted (cache s) v offset victims slot).
Abbreviation p' := (Reading (new_load (cache s)) v (d_extents (dp_desc v)) slot [0; 0; 0]).

Let Hi : cache_inv objects c := iv_cache _ _ _ Hinv.

Lemma load_not_new load : is_Some (l_heap c !! load) -> load <> new_load c.
Proof. intros [l Hl] ->. pose proof (new_load_fresh c). congruence. Qed.

Lemma thread_load_known t p load : threads s !! t = Some p -> pc_load p = Some load ->
  is_Some (l_heap c !! load) /\ is_Some (e_heap c !! l_result (load_of c load)).
Proof.
  intros Ht Hl. destruct (ti_ok _ _ (iv_threads _ _ _ Hinv) t p Ht) as [Hok _].
  assert (Hh : is_Some (l_heap c !! load)).
  { destruct p; simpl in *; simplify_eq.
    - destruct Hok as ((Hp & _) & _). by destruct (ai_pending c (ci_arena _ _ Hi) _ _ Hp) as (_ & ? & _).
    - destruct Hok as ((Hp & _) & _). by destruct (ai_pending c (ci_arena _ _ Hi) _ _ Hp) as (_ & ? & _).
    - destruct Hok as (Hp & _). by destruct (ai_pending c (ci_arena _ _ Hi) _ _ Hp) as (_ & ? & _).
    - destruct Hok as (Hp & _). by destruct (ai_pending c (ci_arena _ _ Hi) _ _ Hp) as (_ & ? & _).
    - apply Hok. }
  split; [done|]. destruct Hh as [l Hh]. rewrite (load_of_lookup _ _ _ Hh).
  by apply (li_result _ (ci_loads _ _ Hi) load).
Qed.

Lemma admitted_thread t p : threads s !! t = Some p -> thread_ok c' p /\ thread_mem c' p.
Proof.
  intros Ht. destruct (ti_ok _ _ (iv_threads _ _ _ Hinv) t p Ht) as [Hok Hmem].
  assert (Hl : forall load, pc_load p = Some load -> load_of c' load = load_of c load).
  { intros load Hpl. destruct (thread_load_known t p load Ht Hpl) as [Hh _].
    rewrite admitted_load, decide_False; [done|]. by apply load_not_new. }
  split.
  - eapply thread_ok_stable; [..|exact Hok]; try done.
    + intros load Hpl. rewrite (Hl load Hpl). destruct (thread_load_known t p load Ht Hpl) as [Hh Hs]. split.
      * intros _. simpl. rewrite lookup_insert_ne; [done|]. symmetry. by apply load_not_new.
      * by destruct (admitted_old objects c v offset victims slot Hi Hplan _ Hs) as (-> & _).
    + intros load [_ Hpl]. rewrite (Hl load Hpl). split; [done|]. intros k Hk. simpl.
      rewrite lookup_insert_ne; [done|]. intros <-. congruence.
  - eapply thread_mem_stable; [..|exact Hmem]; try done.
    + intros load [_ Hpl]. by rewrite (Hl load Hpl).
    + intros load value ->. by rewrite (Hl load eq_refl).
Qed.

Lemma admitted_new : thread_ok c' p' /\ thread_mem c' p'.
Proof.
  split; simpl.
  - split; [|exact Hreg]. split_and!.
    + simpl. by rewrite lookup_insert_eq.
    + unfold in_phase. by rewrite admitted_load, decide_True.
    + rewrite admitted_load, decide_True by done. simpl. unfold desc_of.
      by rewrite (admitted_entry objects), decide_True.
  - exists []. split_and!; [done| |done]. rewrite admitted_load, decide_True by done. simpl. lia.
Qed.

Lemma admitted_live id : live_id c' id <-> live_id c id.
Proof.
  unfold live_id. rewrite (admitted_resident objects c v offset victims slot Hi Hplan id).
  split; intros [Hres Hr]; (split; [done|]); apply (ai_entries c (ci_arena _ _ Hi)) in Hres as [_ Hs];
    destruct (admitted_old objects c v offset victims slot Hi Hplan id Hs) as (_ & _ & _ & E & _); congruence.
Qed.

Lemma admission_inv : inv objects (mk_sys c' (set_thread tid (Some p') (threads s)) (leases s)).
Proof.
  pose proof (iv_threads _ _ _ Hinv) as HT. split; cbn [cache threads leases].
  - by apply admitted_inv.
  - eapply threads_update; [exact HT|..].
    + intros t p _ Ht. by eapply admitted_thread.
    + intros p [= <-]. apply admitted_new.
    + intros t p q load _ Ht [= <-] [_ Hpl] [_ [= <-]]. destruct (thread_load_known t p _ Ht Hpl) as [Hh _].
      by apply load_not_new in Hh.
    + simpl. intros k load [[_ <-]|[_ Hk]]%lookup_insert_Some; [left; by exists p'|]. right.
      destruct (ti_served _ _ HT k load Hk) as (t & p & Ht & Hf). exists t, p. split_and!; try done.
      intros ->. destruct Hf as [Hf _]. by destruct (Hself p Ht).
  - intros load _ [l Hl]. simpl in Hl. apply lookup_insert_Some in Hl as [[<- _]|[_ Hl]].
    + left. exists (dp_key v). simpl. by rewrite lookup_insert_eq.
    + apply held_update; [|intros p Hp Hpl; destruct (Hself p Hp); congruence].
      destruct (iv_held _ _ _ Hinv load) as [[k Hk]|?]; [done|by eexists| |by right].
      left. exists k. simpl. rewrite lookup_insert_ne; [done|]. intros <-. congruence.
  - destruct (iv_pins _ _ _ Hinv) as [P1 P2 P3]. split.
    + intros id Hid. rewrite admitted_live. by apply P1.
    + simpl. intros load l [[_ <-]|[_ Hl]]%lookup_insert_Some Hr; [done|]. rewrite admitted_live. eauto.
    + intros id. change (pins_of c' id) with (pins_of c id). rewrite P3. f_equal. unfold completion_pins.
      change (l_heap c') with (<[new_load c := mk_load loading (new_result c) victims slot offset None]> (l_heap c)).
      by rewrite msum_insert by apply new_load_fresh.
  - intros id Hid. rewrite admitted_live in Hid. pose proof Hid as [Hres _].
    apply (ai_entries c (ci_arena _ _ Hi)) in Hres as [_ Hs].
    destruct (admitted_old objects c v offset victims slot Hi Hplan id Hs) as (Hd & Ho & _).
    unfold payload_at. rewrite Hd, Ho. by apply (iv_mem _ _ _ Hinv).
Qed.
End admission.

(** ** A round of the loop in a thread *)

Lemma run_loop_inv s tid v :
  inv objects s ->
  (forall p, threads s !! tid = Some p -> ~ filler p /\ pc_load p = None) ->
  canonical_descriptors (cache s) !! dp_key v = Some v ->
  (frequency_retention (config (cache s)) = true -> is_Some (observations (kept (cache s)) !! dp_key v)) ->
  forall s' r, run tid (acquire_loop v) s = (s', r) -> inv objects s' /\ answer_ok s' v r.
Proof.
  intros Hinv Hself Hcan Hobs s' r. pose proof (iv_cache _ _ _ Hinv) as Hi.
  destruct (acquire_loop_end objects (cache s) v Hi Hcan) as (res & c' & Hrun & Hend).
  unfold run. rewrite Hrun.
  assert (Hsoft : forall o L, soft (cache s) c' -> cache_inv objects c' ->
    (forall p, o = Some p -> ~ filler p /\ thread_ok c' p /\ thread_mem c' p) ->
    (forall id, id ∈ L -> live_id (cache s) id) ->
    (forall id, pins_of c' id - pins_of (cache s) id = lease_count L id - lease_count (leases s) id) ->
    inv objects (mk_sys c' (set_thread tid o (threads s)) L)).
  { intros o L Hs Hc Ho HL Hcnt. apply soft_step; try done.
    - intros p Hp. by apply Hself in Hp as [? _].
    - intros p load Hp Hpl. destruct (Hself p Hp). congruence. }
  pose proof (pi_leased _ _ (iv_pins _ _ _ Hinv)) as HL.
  assert (Hstats : forall f o, c' = upd_stats f (cache s) -> bookless f ->
    (forall p, o = Some p -> ~ filler p /\ thread_ok c' p /\ thread_mem c' p) ->
    inv objects (mk_sys c' (set_thread tid o (threads s)) (leases s))).
  { intros f o -> Hf Ho. apply Hsoft; [apply soft_stats|by apply stats_inv|done|done|].
    intros id. change (pins_of (upd_stats f (cache s)) id) with (pins_of (cache s) id). lia. }
  destruct Hend as [id k Hlive Hd Ho Hc' | load f Hp Hf | e f He Hf | e He | f Hf | offset victims slot Hreg He Hp Hplan Hslot];
    intros [= <- <-].
  - assert (Hs : soft (cache s) (add_pins id 1 (upd_stats (fun s => s <| hits ::= Z.succ |>) ((cache s) <| kept := k |>)))).
    { split; try done. simpl. by rewrite Ho. }
    split.
    + apply (Hsoft None (id :: leases s)); try done.
      * intros x [->|Hx]%elem_of_cons; [done|by apply HL].
      * intros x. rewrite pins_of_add, lease_count_cons. change (pins_of (upd_stats _ _) x) with (pins_of (cache s) x). lia.
    + simpl. split_and!; [exact Hlive|exact Hd|left].
  - split; [|done]. apply (Hstats f (Some (Coalesced load v))); try done.
    intros p [= <-]. split_and!; [by intros []| |done]. simpl.
    destruct (ai_pending (cache s) (ci_arena _ _ Hi) _ _ Hp) as (Hk & Hh & [e He] & _). split; [done|].
    change (desc_of (cache s) (l_result (load_of (cache s) load)) = v).
    pose proof (ca_entries _ _ (ci_canonical _ _ Hi) _ _ He) as Hce.
    unfold key_of, desc_of in *. rewrite (entry_of_lookup _ _ _ He) in *. congruence.
  - split; [|done]. by apply (Hstats f None).
  - split; [|done]. apply (Hsoft None (leases s)); try done. intros; lia.
  - split; [|done]. apply (Hstats f (Some (StagingWait v))); try done.
    intros p [= <-]. split_and!; [by intros []|done|done].
  - split; [|done]. by apply admission_inv.
Qed.

(** ** [acquire] from its start *)

Lemma soft_cache_step s c' :
  inv objects s -> soft (cache s) c' -> cache_inv objects c' -> pins c' = pins (cache s) ->
  inv objects (mk_sys c' (threads s) (leases s)).
Proof.
  intros Hinv Hs Hc Hp. destruct Hinv as [H1 [T1 T2 T3] H3 H4 H5]. split; cbn [cache threads leases].
  - done.
  - split; [|done|].
    + intros t p Ht. eapply soft_thread; [exact Hs|]. eauto.
    + by rewrite (so_pending _ _ Hs).
  - intros load Hne Hl. rewrite (so_l_heap _ _ Hs) in Hl. unfold held. rewrite (so_pending _ _ Hs). by apply H3.
  - destruct H4 as [P1 P2 P3]. destruct (soft_views _ _ Hs) as (_ & _ & _ & V4 & V5). split.
    + by rewrite V4.
    + by rewrite (so_l_heap _ _ Hs), V4.
    + intros id. rewrite V5. unfold pins_of. rewrite Hp. apply P3.
  - by eapply soft_mem.
Qed.

(** Registering the descriptor and counting the demand. *)
Definition prelude (v : dptr) : M unit :=
  c ← get;
  match canonical_descriptors c !! dp_key v with
  | None => modify (fun c => c <| canonical_descriptors ::= <[dp_key v := v]> |>)
  | Some d => if bool_decide (dp_addr d = dp_addr v) then mret tt
              else throw (invalid_argument "expert key was reused with a different immutable descriptor")
  end ;;
  observe_key (dp_key v).

Lemma prelude_ok c v :
  cache_inv objects c -> valid_ptr objects v -> dp_bytes v <= staging_bytes (config c) ->
  prelude v c = (Err (invalid_argument "expert key was reused with a different immutable descriptor"), c) \/
  exists c', prelude v c = (Ok tt, c') /\ soft c c' /\ cache_inv objects c' /\ pins c' = pins c /\
    canonical_descriptors c' !! dp_key v = Some v /\
    (frequency_retention (config c') = true -> is_Some (observations (kept c') !! dp_key v)).
Proof.
  intros Hi Hv Hb. unfold prelude, mbind, M_bind, get.
  assert (Hreg : forall c1, soft c c1 -> cache_inv objects c1 -> pins c1 = pins c -> canonical_descriptors c1 !! dp_key v = Some v ->
    exists c', observe_key (dp_key v) c1 = (Ok tt, c') /\ soft c c' /\ cache_inv objects c' /\ pins c' = pins c /\
    canonical_descriptors c' !! dp_key v = Some v /\
    (frequency_retention (config c') = true -> is_Some (observations (kept c') !! dp_key v))).
  { intros c1 Hs Hc1 Hp1 Hcan. destruct (on_kept_observe c1 (dp_key v) (ci_retention _ _ Hc1)) as (r & -> & Hr & Hmono & Ho).
    exists (c1 <| kept := r |>). split_and!; try done.
    - eapply soft_trans; [exact Hs|]. by split.
    - eapply cache_inv_frame; [..|exact Hr|exact Hc1]; done. }
  destruct (canonical_descriptors c !! dp_key v) as [d|] eqn:Ec.
  - case_bool_decide as Ha; [|by left]. right.
    assert (d = v) as ->.
    { destruct (ca_valid _ _ (ci_canonical _ _ Hi) _ _ Ec) as (_ & (Hd & _) & _). destruct Hv as (Hd' & _).
      destruct d, v; simpl in *. congruence. }
    apply Hreg; [apply soft_refl|done|done|done].
  - right. apply Hreg.
    + split; try done. simpl. intros k d Hk. rewrite lookup_insert_ne; [done|]. intros <-. congruence.
    + destruct Hi as [H1 H2 H3 H4 H5 [C1 C2]]. split.
      * eapply config_ok_frame; [|exact H1]. done.
      * eapply arena_inv_frame; [..|exact H2]; done.
      * eapply retention_inv_frame; [..|exact H3]; done.
      * eapply account_inv_frame; [..|exact H4]; done.
      * eapply loads_inv_frame; [..|exact H5]; done.
      * split; simpl.
        -- intros k d [[<- <-]|[_ Hk]]%lookup_insert_Some; [done|eauto].
        -- intros id e He. rewrite lookup_insert_ne; [eauto|]. intros Hk. specialize (C2 id e He). congruence.
    + done.
    + simpl. by rewrite lookup_insert_eq.
Qed.

Lemma acquire_unfold v c :
  (dp_bytes v >? capacity_bytes (config c)) || (dp_bytes v >? staging_bytes (config c)) || (dp_bytes v >? UINT64_MAX) = false ->
  acquire (Some v) c = (prelude v ;; acquire_loop v) c.
Proof.
  intros Hb. unfold acquire, prelude, mbind, M_bind, get. rewrite Hb.
  destruct (canonical_descriptors c !! dp_key v) as [d|]; [|done]. by case_bool_decide.
Qed.

Lemma acquire_inv s tid value :
  inv objects s -> threads s !! tid = None -> (forall v, value = Some v -> valid_ptr objects v) ->
  forall s' r, run tid (acquire value) s = (s', r) ->
  inv objects s' /\ (forall v, value = Some v -> answer_ok s' v r) /\
  (value = None -> r = Threw (invalid_argument "cannot acquire a null expert descriptor")).
Proof.
  intros Hinv Ht Hv s' r. pose proof (iv_cache _ _ _ Hinv) as Hi.
  assert (Hend : forall c', soft (cache s) c' -> cache_inv objects c' -> pins c' = pins (cache s) ->
    inv objects (s <| cache := c' |> <| threads ::= delete tid |>)).
  { intros c' Hs Hc Hp. change (inv objects (mk_sys c' (delete tid (threads s)) (leases s))).
    rewrite delete_id by done. by apply soft_cache_step. }
  destruct value as [v|].
  2: { simpl. intros [= <- <-]. split; [|done]. apply Hend; [apply soft_refl|done|done]. }
  specialize (Hv v eq_refl).
  destruct ((dp_bytes v >? capacity_bytes (config (cache s))) || (dp_bytes v >? staging_bytes (config (cache s)))
            || (dp_bytes v >? UINT64_MAX)) eqn:Eb.
  { unfold run. unfold acquire at 1. unfold mbind at 1, M_bind at 1, get at 1. rewrite Eb. simpl. intros [= <- <-].
    split; [|split; [|done]].
    - apply Hend; [apply soft_stats|by apply stats_inv|done].
    - intros w _. done. }
  assert (Hb : dp_bytes v <= staging_bytes (config (cache s))) by (bool_facts; lia).
  unfold run. rewrite acquire_unfold by done. unfold mbind at 1, M_bind at 1.
  destruct (prelude_ok (cache s) v Hi Hv Hb) as [->|(c1 & -> & Hs & Hc1 & Hp1 & Hcan & Hobs)].
  - intros [= <- <-]. split; [|split; [|done]]; [apply Hend; [apply soft_refl|done|done]|done].
  - set (s1 := mk_sys c1 (threads s) (leases s)). assert (Hinv1 : inv objects s1) by by apply soft_cache_step.
    intros Hr. assert (Hr' : run tid (acquire_loop v) s1 = (s', r)) by exact Hr.
    destruct (run_loop_inv s1 tid v Hinv1) with (s' := s') (r := r) as [HI Hans]; try done.
    + intros p Hp. simpl in Hp. congruence.
    + split; [done|]. split; [|done]. by intros w [= <-].
Qed.

(** ** The end of a fill *)

Section retirement.
Context (s : sys) (tid : positive) (p0 : pc) (load : positive) (v : dptr).
Context (g : pending_load -> pending_load) (finished : bool).
Context (Hinv : inv objects s) (Ht : threads s !! tid = Some p0) (Hfills : fills p0 load).

Abbreviation c := (cache s).
Abbreviation c' := (retired (cache s) load g finished).
Abbreviation res := (l_result (load_of (cache s) load)).

Let Hi : cache_inv objects c := iv_cache _ _ _ Hinv.

Context (Hfill : filling c load v (if finished then copying else loading)).
Context (Hg : l_result (g (load_of c load)) = res /\
  (l_phase (g (load_of c load)) = failed <-> is_Some (l_error (g (load_of c load)))) /\
  l_phase (g (load_of c load)) = if finished then ready else failed).
Context (Hext : forall e, l_error (g (load_of c load)) = Some e -> internal_error e = false).

Lemma fill_pending : pending_id c load /\ in_phase c load (if finished then copying else loading).
Proof.
  destruct Hfill as (Hp & Hph & _). split; [|done]. unfold pending_id.
  by destruct (ai_pending c (ci_arena _ _ Hi) _ _ Hp) as (<- & _).
Qed.

Let Hp : pending_id c load := proj1 fill_pending.
Let Hph : in_phase c load (if finished then copying else loading) := proj2 fill_pending.

Lemma other_load t p l : t <> tid -> threads s !! t = Some p -> fills p l -> l <> load.
Proof. intros Hne Htp Hf ->. apply Hne. by eapply (ti_unique _ _ (iv_threads _ _ _ Hinv)). Qed.

Lemma retired_thread t p : t <> tid -> threads s !! t = Some p -> thread_ok c' p /\ thread_mem c' p.
Proof.
  intros Hne Htp. destruct (ti_ok _ _ (iv_threads _ _ _ Hinv) t p Htp) as [Hok Hmem]. split.
  - eapply thread_ok_stable; [..|exact Hok]; try done.
    + intros l Hl. rewrite retired_desc. rewrite (retired_load objects) by done. split.
      * intros Hs. simpl. destruct (decide (l = load)) as [->|]; [by rewrite lookup_alter_eq, fmap_is_Some|by rewrite lookup_alter_ne].
      * case_decide; [|done]. subst. by destruct Hg as (-> & _).
    + intros l Hl. assert (l <> load) by (by eapply other_load). rewrite (retired_load objects), decide_False by done.
      split; [done|]. intros k Hk. simpl. rewrite lookup_delete_ne; [done|]. intros <-. unfold pending_id in Hp. congruence.
  - eapply thread_mem_stable; [..|exact Hmem]; try done.
    + intros l Hl. assert (l <> load) by (by eapply other_load). by rewrite (retired_load objects), decide_False by done.
    + intros l w ->. assert (l <> load) by (by eapply other_load). by rewrite (retired_load objects), decide_False by done.
Qed.

Lemma retired_live id : live_id c' id <-> live_id c id \/ (finished = true /\ id = res).
Proof.
  unfold live_id. rewrite retired_resident. destruct (retired_entry objects c load g finished Hi Hp id) as (_ & _ & -> & _).
  rewrite orb_true_iff, andb_true_iff, bool_decide_eq_true. split; [tauto|]. intros [?|[Hf ->]]; [tauto|].
  split; [|by left]. by apply (result_resident objects c load g finished Hi Hp Hg Hph).
Qed.

Lemma retired_completion id :
  completion_pins c' id = completion_pins c id + if finished && bool_decide (id = res) then 1 else 0.
Proof.
  pose proof (load_heap objects c load Hi Hp) as Hl. unfold completion_pins. simpl.
  rewrite <- (insert_delete_id _ _ _ Hl).
  rewrite alter_insert_eq. rewrite !msum_insert by apply lookup_delete_eq.
  destruct Hg as (Hr & _ & Hphg). rewrite Hr, Hphg.
  assert (Hnr : l_phase (load_of c load) <> ready) by (pose proof Hph as Hq; unfold in_phase in Hq; rewrite Hq; generalize finished; by intros []).
  rewrite (bool_decide_eq_false_2 (l_phase (load_of c load) = ready /\ _)) by tauto.
  generalize finished. intros []; simpl.
  - destruct (decide (id = res)) as [->|Hne].
    + rewrite !bool_decide_eq_true_2 by done. lia.
    + rewrite !bool_decide_eq_false_2 by naive_solver. lia.
  - lia.
Qed.

Lemma retired_threads : threads_inv c' (set_thread tid None (threads s)).
Proof.
  pose proof (iv_threads _ _ _ Hinv) as HT. eapply threads_update; [exact HT|..]; try done.
  - apply retired_thread.
  - intros k l Hk. right. destruct (retired_lookup objects c load g finished Hi k l Hk) as [Hk' Hne].
    destruct (ti_served _ _ HT k l Hk') as (t & p & Htp & Hf). exists t, p. split_and!; try done.
    intros ->. rewrite Ht in Htp. simplify_eq. destruct Hf as [_ Hf], Hfills as [_ Hf']. congruence.
Qed.

Lemma retired_held l : Some l <> Some load -> is_Some (l_heap c' !! l) -> held c' (set_thread tid None (threads s)) l.
Proof.
  intros Hne Hl. assert (Hnl : l <> load) by congruence. simpl in Hl. rewrite lookup_alter_ne in Hl by done.
  apply held_update.
  - destruct (iv_held _ _ _ Hinv l ltac:(done) Hl) as [[k Hk]|?]; [left|by right]. exists k. simpl.
    rewrite lookup_delete_ne; [done|]. intros <-. unfold pending_id in Hp. congruence.
  - intros p Htp Hpl. rewrite Ht in Htp. simplify_eq. destruct Hfills as [_ Hf']. congruence.
Qed.

Lemma retired_pins leased (c2 : ram_cache) :
  soft c' c2 -> (forall id, id ∈ leased -> live_id c' id) ->
  (forall id, pins_of c2 id - pins_of c id =
     lease_count leased id - lease_count (leases s) id + if finished && bool_decide (id = res) then 1 else 0) ->
  pins_inv c2 leased.
Proof.
  intros Hs Hl Hcount. destruct (iv_pins _ _ _ Hinv) as [P1 P2 P3].
  destruct (soft_views _ _ Hs) as (_ & _ & _ & V4 & V5). split.
  - by rewrite V4.
  - rewrite (so_l_heap _ _ Hs), V4. intros l x Hx Hr.
    destruct (retired_l_heap objects c load g finished Hi Hp l x Hx) as [[-> ->]|[Hne Hx']].
    + apply retired_live. right. destruct Hg as (-> & _ & Hphg). rewrite Hphg in Hr. revert Hr. generalize finished. by intros [].
    + apply retired_live. left. eauto.
  - intros id. rewrite V5, retired_completion. specialize (Hcount id). specialize (P3 id). lia.
Qed.

Lemma retired_mem :
  (finished = true -> payload_at c (resident_arena c) (l_offset (load_of c load)) v) -> arena_mem c'.
Proof.
  intros Hpay id Hid. rewrite retired_live in Hid. unfold payload_at. rewrite retired_desc.
  destruct (retired_entry objects c load g finished Hi Hp id) as (-> & _).
  destruct Hid as [Hid|[Hf ->]]; [by apply (iv_mem _ _ _ Hinv)|].
  specialize (Hpay Hf). destruct (ai_pending c (ci_arena _ _ Hi) _ _ Hp) as (_ & _ & _ & _ & _ & _ & Hok).
  unfold phase_ok in Hok. pose proof Hph as Hph'. unfold in_phase in Hph'. rewrite Hf in Hph'. rewrite Hph' in Hok.
  destruct Hok as (_ & _ & ->). destruct Hfill as (_ & _ & ->). exact Hpay.
Qed.

Lemma retire_step (c2 : ram_cache) leased :
  soft c' c2 -> cache_inv objects c2 ->
  (forall id, id ∈ leased -> live_id c' id) ->
  (forall id, pins_of c2 id - pins_of c id =
     lease_count leased id - lease_count (leases s) id + if finished && bool_decide (id = res) then 1 else 0) ->
  (finished = true -> payload_at c (resident_arena c) (l_offset (load_of c load)) v) ->
  inv objects (reap load (mk_sys c2 (delete tid (threads s)) leased)).
Proof.
  intros Hs Hc2 Hl Hcount Hpay. apply reap_inv.
  - split; cbn [cache threads leases].
    + done.
    + destruct retired_threads as [T1 T2 T3]. split; [|done|by rewrite (so_pending _ _ Hs)].
      intros t p Htp. eapply soft_thread; [exact Hs|]. eauto.
    + intros l Hne Hll. rewrite (so_l_heap _ _ Hs) in Hll. unfold held. rewrite (so_pending _ _ Hs). by apply retired_held.
    + by apply retired_pins.
    + eapply soft_mem; [exact Hs|]. by apply retired_mem.
  - cbn [cache]. rewrite (so_l_heap _ _ Hs). simpl. rewrite lookup_alter_eq, fmap_is_Some.
    rewrite (load_heap objects c load Hi Hp). by eexists.
Qed.
End retirement.

(** A filler holds a descriptor that [make] built. *)
Lemma filling_valid c load v p :
  cache_inv objects c -> filling c load v p ->
  canonical_descriptors c !! dp_key v = Some v /\ valid_ptr objects v /\ l_bytes c load = dp_bytes v /\
  pending_id c load /\ in_phase c load p.
Proof.
  intros Hi (Hp & Hph & Hd). destruct (ai_pending c (ci_arena _ _ Hi) _ _ Hp) as (Hk & _ & [e He] & _).
  pose proof (ca_entries _ _ (ci_canonical _ _ Hi) _ _ He) as Hc. unfold desc_of in Hd.
  rewrite (entry_of_lookup _ _ _ He) in Hd. rewrite Hd in Hc. split_and!; [done| | | |done].
  - by destruct (ca_valid _ _ (ci_canonical _ _ Hi) _ _ Hc) as (_ & ? & _).
  - unfold l_bytes, bytes_of, desc_of. by rewrite (entry_of_lookup _ _ _ He), Hd.
  - unfold pending_id. by rewrite <- Hk.
Qed.

(** The error path: the fill is withdrawn and the error goes to the caller
    and to the coalesced waiters. *)
Lemma fail_step s tid p0 load v e f :
  inv objects s -> threads s !! tid = Some p0 -> fills p0 load -> filling (cache s) load v loading ->
  internal_error e = false -> bookless f ->
  inv objects (reap load (mk_sys (upd_stats (fun s => s <| failed_loads ::= Z.succ |>)
    (retired (upd_stats f (cache s)) load (fail_mark e) false)) (delete tid (threads s)) (leases s))).
Proof.
  intros Hinv Ht Hfills Hfill He Hf.
  set (s1 := mk_sys (upd_stats f (cache s)) (threads s) (leases s)).
  assert (Hinv1 : inv objects s1).
  { apply soft_cache_step; [done|apply soft_stats|apply stats_inv; [done|apply Hinv]|done]. }
  assert (Hg : l_result (fail_mark e (load_of (cache s1) load)) = l_result (load_of (cache s1) load) /\
    (l_phase (fail_mark e (load_of (cache s1) load)) = failed <-> is_Some (l_error (fail_mark e (load_of (cache s1) load)))) /\
    l_phase (fail_mark e (load_of (cache s1) load)) = failed).
  { by split_and!. }
  assert (Hext : forall e', l_error (fail_mark e (load_of (cache s1) load)) = Some e' -> internal_error e' = false).
  { by intros e' [= <-]. }
  destruct (filling_valid _ _ _ _ (iv_cache _ _ _ Hinv1) Hfill) as (_ & _ & _ & Hp & Hph).
  assert (Hret : cache_inv objects (retired (cache s1) load (fail_mark e) false)).
  { by apply retired_inv; [apply (iv_cache _ _ _ Hinv1)|..]. }
  apply (retire_step s1 tid p0 load v (fail_mark e) false Hinv1 Ht Hfills Hfill Hg).
  - apply soft_stats.
  - apply stats_inv; [done|exact Hret].
  - intros id Hid. rewrite (retired_live s1 load v (fail_mark e) false Hinv1 Hfill Hg). left.
    by apply (pi_leased _ _ (iv_pins _ _ _ Hinv)).
  - intros id. simpl. change (pins_of _ id) with (pins_of (cache s) id) at 1.
    change (pins_of _ id) with (pins_of (cache s) id) at 2. lia.
  - done.
Qed.

(** ** Publication *)

(** What publishing [load] does to what threads and leases rely on. *)
Record moved (load : positive) (c c' : ram_cache) : Prop := {
  mv_same : config c' = config c /\ sources c' = sources c /\ canonical_descriptors c' = canonical_descriptors c /\
    pending c' = pending c /\ staging c' = staging c /\ resident_arena c' = resident_arena c /\ pins c' = pins c;
  mv_observed : observations (kept c') = observations (kept c);
  mv_desc : forall id, desc_of c' id = desc_of c id;
  mv_heap : forall l, is_Some (l_heap c' !! l) <-> is_Some (l_heap c !! l);
  mv_load : forall l, l <> load -> load_of c' l = load_of c l;
  mv_self : l_result (load_of c' load) = l_result (load_of c load) /\
    l_staging (load_of c' load) = l_staging (load_of c load) /\ l_phase (load_of c' load) = copying;
  mv_live : forall id, live_id c' id -> live_id c id /\ e_offset (entry_of c' id) = e_offset (entry_of c id);
  mv_pinned : forall id, live_id c id -> pins_of c id <> 0 -> live_id c' id;
}.

Lemma replanned_view c load offset victims :
  cache_inv objects c -> pending_id c load ->
  let c1 := replanned c load offset victims in
  (forall id, live_id c1 id <-> live_id c id) /\ (forall id, e_offset (entry_of c1 id) = e_offset (entry_of c id)) /\
  (forall l, is_Some (l_heap c1 !! l) <-> is_Some (l_heap c !! l)) /\
  (forall l, l <> load -> load_of c1 l = load_of c l) /\
  l_result (load_of c1 load) = l_result (load_of c load) /\ l_staging (load_of c1 load) = l_staging (load_of c load) /\
  (forall id, desc_of c1 id = desc_of c id) /\ l_phase (load_of c1 load) = l_phase (load_of c load).
Proof.
  intros Hi Hp. cbv zeta. split_and!.
  - intros id. unfold live_id. rewrite replanned_resident. by destruct (replanned_entry c load offset victims id) as (_ & _ & -> & _).
  - intros id. by destruct (replanned_entry c load offset victims id) as (-> & _).
  - intros l. simpl. destruct (decide (l = load)) as [->|]; [by rewrite lookup_alter_eq, fmap_is_Some|by rewrite lookup_alter_ne].
  - intros l Hne. by rewrite (replanned_load objects), decide_False.
  - by destruct (replanned_result objects c load offset victims Hi Hp load) as (-> & _).
  - by destruct (replanned_result objects c load offset victims Hi Hp load) as (_ & -> & _).
  - intros id. apply replanned_desc.
  - by destruct (replanned_result objects c load offset victims Hi Hp load) as (_ & _ & ->).
Qed.

Lemma published_view c load v c' :
  cache_inv objects c -> pending_id c load -> in_phase c load loading ->
  desc_of c (l_result (load_of c load)) = v -> published c load c' ->
  Forall (fun x => pins_of c x = 0) (l_victims (load_of c load)) -> moved load c c'.
Proof.
  intros Hi Hp Hph Hv Hpub Hpins.
  destruct (published_fields objects c load Hi Hp c' Hpub load) as (F1 & F2 & _). split.
  - apply (pb_same _ _ _ Hpub).
  - apply (pb_observed _ _ _ Hpub).
  - intros id. by apply (published_desc objects c load v Hi Hp).
  - intros l. rewrite (pb_l_heap _ _ _ Hpub). destruct (decide (l = load)) as [->|];
      [by rewrite lookup_alter_eq, fmap_is_Some|by rewrite lookup_alter_ne].
  - intros l Hne. by rewrite (published_load objects c load Hi Hp c' Hpub), decide_False.
  - split_and!; [done..|]. by apply (published_copying objects c load Hi Hp c' Hpub).
  - intros id [Hres Hr]. rewrite (published_resident objects c load v Hi Hp Hph Hv c' Hpub) in Hres.
    rewrite (published_entry objects c load v Hi Hp c' Hpub) in *.
    destruct (decide (id = l_result (load_of c load))) as [->|Hne]; [done|]. destruct Hres as [|[Hres _]]; done.
  - intros id [Hres Hr] Hpin. assert (Hne : id <> l_result (load_of c load)) by (by eapply (res_not_resident objects c load v)).
    split.
    + rewrite (published_resident objects c load v Hi Hp Hph Hv c' Hpub). right. split; [done|]. intros Hin.
      rewrite Forall_forall in Hpins. by apply Hpin, Hpins.
    + by rewrite (published_entry objects c load v Hi Hp c' Hpub), decide_False.
Qed.

Lemma publish_ok c load v :
  cache_inv objects c -> filling c load v loading ->
  (exists c', publish load v c = (Ok tt, c') /\ cache_inv objects c' /\ moved load c c') \/
  publish load v c =
    (Err (capacity_error "expert RAM cache reservation became leased during I/O"),
     upd_stats (fun s => s <| pinned_capacity_failures ::= Z.succ |>) c).
Proof.
  intros Hi Hfill. destruct (filling_valid _ _ _ _ Hi Hfill) as (Hcan & Hval & Hb & Hp & Hph).
  destruct Hfill as (_ & _ & Hd). rewrite publish_split. unfold mbind, M_bind.
  destruct (replan_ok objects c load v Hi Hp Hph Hb) as [(c1 & -> & Hc1 & Hcase & Hpins)| ->]; [left|by right].
  assert (H1 : pending_id c1 load /\ in_phase c1 load loading /\ desc_of c1 (l_result (load_of c1 load)) = v).
  { destruct Hcase as [->|(o & vs & -> & _)]; [done|].
    destruct (replanned_view c load o vs Hi Hp) as (_ & _ & _ & _ & R1 & R2 & R3 & R4).
    rewrite (replanned_pending objects) by done. unfold in_phase. rewrite R4, R1, R3. done. }
  destruct H1 as (Hp1 & Hph1 & Hd1).
  destruct (publish_tail_ok objects c1 load v Hc1 Hp1 Hph1 Hd1) as (c' & Hrun & Hpub). rewrite Hrun.
  exists c'. split_and!; [done|by eapply (published_inv objects c1 load v)|].
  pose proof (published_view c1 load v c' Hc1 Hp1 Hph1 Hd1 Hpub Hpins) as Hmv.
  destruct Hcase as [->|(o & vs & -> & _)]; [done|].
  destruct (replanned_view c load o vs Hi Hp) as (R0 & Ro & Rh & Rl & R1 & R2 & R3 & R4).
  destruct Hmv as [M1 M2 M3 M4 M5 (M6 & M7 & M8) M9 M10]. split.
  - done.
  - done.
  - intros id. by rewrite M3.
  - intros l. by rewrite M4.
  - intros l Hne. by rewrite M5, Rl.
  - by rewrite M6, M7.
  - intros id Hl. destruct (M9 id Hl) as [Hl1 ->]. split; [|apply Ro]. rewrite <- R0. done.
  - intros id Hl Hpin. apply M10; [|done]. by rewrite R0.
Qed.

Section publication.
Context (s : sys) (tid : positive) (p0 : pc) (load : positive) (v : dptr) (c' : ram_cache).
Context (Hinv : inv objects s) (Ht : threads s !! tid = Some p0) (Hfills : fills p0 load).
Context (Hfill : filling (cache s) load v loading).
Context (Hc' : cache_inv objects c') (Hmv : moved load (cache s) c').
Context (Hpay : payload_at (cache s) (staging (cache s)) (l_staging (load_of (cache s) load)) v).

Lemma moved_heap l : l <> load -> l_heap c' !! l = l_heap (cache s) !! l.
Proof.
  intros Hne. pose proof (mv_load _ _ _ Hmv l Hne) as Hl. pose proof (mv_heap _ _ _ Hmv l) as Hh.
  unfold load_of in Hl. rewrite !lookup_total_alt in Hl.
  destruct (l_heap c' !! l), (l_heap (cache s) !! l); simpl in *; try congruence; exfalso;
    [by destruct (proj1 Hh ltac:(by eexists))|by destruct (proj2 Hh ltac:(by eexists))].
Qed.

Lemma moved_ready l x : l_heap c' !! l = Some x -> l_phase x = ready -> l <> load /\ l_heap (cache s) !! l = Some x.
Proof.
  intros Hl Hr. assert (Hne : l <> load).
  { intros ->. destruct (mv_self _ _ _ Hmv) as (_ & _ & Hph). rewrite (load_of_lookup _ _ _ Hl) in Hph. congruence. }
  by rewrite moved_heap in Hl.
Qed.

Lemma moved_completion id : completion_pins c' id = completion_pins (cache s) id.
Proof.
  destruct (filling_valid _ _ _ _ (iv_cache _ _ _ Hinv) Hfill) as (_ & _ & _ & Hp & Hph).
  pose proof (load_heap objects (cache s) load (iv_cache _ _ _ Hinv) Hp) as Hl.
  destruct (proj2 (mv_heap _ _ _ Hmv load)) as [x Hx]; [by eexists|].
  assert (Heq : delete load (l_heap c') = delete load (l_heap (cache s))).
  { apply map_eq. intros l. destruct (decide (l = load)) as [->|]; [by rewrite !lookup_delete_eq|].
    rewrite !lookup_delete_ne by done. by apply moved_heap. }
  unfold completion_pins. rewrite <- (insert_delete_id _ _ _ Hx), <- (insert_delete_id _ _ _ Hl), Heq.
  rewrite !msum_insert by apply lookup_delete_eq. f_equal.
  destruct (mv_self _ _ _ Hmv) as (_ & _ & Hcp). rewrite (load_of_lookup _ _ _ Hx) in Hcp.
  unfold in_phase in Hph. rewrite !bool_decide_eq_false_2; [done|intros []; congruence..].
Qed.

(** Leased entries and results of finished loads are pinned, so they stay. *)
Lemma lease_pinned id : id ∈ leases s -> pins_of (cache s) id <> 0.
Proof.
  intros Hid. rewrite (pi_count _ _ (iv_pins _ _ _ Hinv)).
  assert (0 < lease_count (leases s) id).
  { unfold lease_count. assert (id ∈ filter (fun x => x = id) (leases s)) as H by by apply list_elem_of_filter.
    destruct (filter _ _); [by apply not_elem_of_nil in H|simpl; lia]. }
  assert (0 <= completion_pins (cache s) id) by (apply msum_nonneg; intros; case_bool_decide; lia). lia.
Qed.

Lemma ready_pinned l x : l_heap (cache s) !! l = Some x -> l_phase x = ready -> pins_of (cache s) (l_result x) <> 0.
Proof.
  intros Hl Hr. rewrite (pi_count _ _ (iv_pins _ _ _ Hinv)).
  pose proof (msum_elem (fun _ y => if bool_decide (l_phase y = ready /\ l_result y = l_result x) then 1 else 0) _ _ _ Hl) as H.
  simpl in H. rewrite bool_decide_eq_true_2 in H by done. unfold completion_pins.
  assert (0 <= lease_count (leases s) (l_result x)) by (unfold lease_count; lia).
  specialize (H ltac:(intros; case_bool_decide; lia)). lia.
Qed.

Lemma moved_thread t p : t <> tid -> threads s !! t = Some p -> thread_ok c' p /\ thread_mem c' p.
Proof.
  intros Hne Htp. pose proof (iv_threads _ _ _ Hinv) as HT. destruct (ti_ok _ _ HT t p Htp) as [Hok Hmem].
  destruct Hmv as [(E1 & E2 & E3 & E4 & E5 & E6 & E7) M2 M3 M4 M5 (M6 & _) _ _].
  assert (Hother : forall l, fills p l -> l <> load).
  { intros l Hf ->. apply Hne. by eapply (ti_unique _ _ HT). }
  split.
  - eapply thread_ok_stable; [..|exact Hok]; rewrite ?E3, ?M2; try done.
    + intros l Hl. rewrite M3, M4. split; [done|]. destruct (decide (l = load)) as [->|]; [by rewrite M6|by rewrite M5].
    + intros l Hf. rewrite M5 by by apply Hother. by rewrite E4.
  - eapply thread_mem_stable; [..|exact Hmem]; try done.
    + intros l Hf. by rewrite M5 by by apply Hother.
    + intros l w ->. rewrite M5; [done|]. by apply Hother.
Qed.

Lemma publish_step : inv objects (mk_sys c' (set_thread tid (Some (Copying load v)) (threads s)) (leases s)).
Proof.
  pose proof (iv_threads _ _ _ Hinv) as HT. destruct (iv_pins _ _ _ Hinv) as [P1 P2 P3].
  destruct (mv_same _ _ _ Hmv) as (E1 & E2 & E3 & E4 & E5 & E6 & E7). split; cbn [cache threads leases].
  - exact Hc'.
  - eapply threads_update; [exact HT|apply moved_thread|..].
    + intros p [= <-]. destruct (mv_self _ _ _ Hmv) as (M6 & M7 & M8). destruct Hfill as (F1 & F2 & F3). split; simpl.
      * unfold filling, in_phase. by rewrite E4, M8, (mv_desc _ _ _ Hmv), M6.
      * unfold payload_at. rewrite E5, E2, M7. exact Hpay.
    + intros t p p' l Hne Htp [= <-] Hf [_ [= <-]]. apply Hne. by eapply (ti_unique _ _ HT).
    + rewrite E4. intros k l Hk. destruct (ti_served _ _ HT k l Hk) as (t & p & Htp & Hf).
      destruct (decide (t = tid)) as [->|Hne]; [left|right; eauto 10]. exists (Copying load v). split; [done|].
      rewrite Ht in Htp. simplify_eq. split; [done|]. destruct Hf as [_ Hf], Hfills as [_ Hf']. simpl. congruence.
  - intros l _ Hl. rewrite (mv_heap _ _ _ Hmv) in Hl. apply held_update.
    + destruct (iv_held _ _ _ Hinv l ltac:(done) Hl) as [[k Hk]|?]; [left|by right]. exists k. by rewrite E4.
    + intros p Htp Hpl. right. exists (Copying load v). split; [done|]. rewrite Ht in Htp. simplify_eq.
      destruct Hfills as [_ Hf']. simpl. congruence.
  - split.
    + intros id Hid. apply (mv_pinned _ _ _ Hmv); [by apply P1|by apply lease_pinned].
    + intros l x Hl Hr. destruct (moved_ready l x Hl Hr) as [Hne Hl'].
      apply (mv_pinned _ _ _ Hmv); [by eapply P2|by eapply ready_pinned].
    + intros id. rewrite moved_completion. unfold pins_of. rewrite E7. apply P3.
  - intros id Hid. destruct (mv_live _ _ _ Hmv id Hid) as [Hl ->]. unfold payload_at.
    rewrite (mv_desc _ _ _ Hmv), E2, E6. by apply (iv_mem _ _ _ Hinv).
Qed.
End publication.

Lemma inv_weaken s x : inv objects s -> inv_but objects x s.
Proof. intros [H1 H2 H3 H4 H5]. split; try done. intros load _. by apply H3. Qed.

Lemma read_done_step s tid load v read error :
  inv objects s -> threads s !! tid = Some (ReadDone load v read error) ->
  forall s' r, run tid (acquire_read_done load v read error) s = (s', r) ->
  inv objects (reap load s') /\ (r = Parked \/ exists e, r = Threw e /\ internal_error e = false).
Proof.
  intros Hinv Ht s' r. destruct (ti_ok _ _ (iv_threads _ _ _ Hinv) tid _ Ht) as [[Hfill Hext] Hmem].
  assert (Hfl : fills (ReadDone load v read error) load) by done.
  set (f := fun s : cache_stats => s <| bytes_read ::= zip_with Z.add read |>).
  assert (Hf : bookless f) by by intros ?.
  assert (Hlh : forall h, is_Some (l_heap (upd_stats h (cache s)) !! load)).
  { intros h. destruct Hfill as (Hp & _).
    by destruct (ai_pending _ (ci_arena _ _ (iv_cache _ _ _ Hinv)) _ _ Hp) as (_ & ? & _). }
  unfold run, acquire_read_done, catch. unfold mbind at 1, M_bind at 1, modify at 1. fold f.
  destruct error as [e|].
  - cbn -[fail_load]. unfold mbind, M_bind. rewrite fail_load_run by done. intros [= <- <-]. split.
    + by apply (fail_step s tid _ load v e f Hinv Ht Hfl Hfill (Hext e eq_refl)).
    + right. exists e. eauto.
  - set (c1 := upd_stats f (cache s)).
    assert (Hc1 : cache_inv objects c1) by (apply stats_inv; [done|apply Hinv]).
    assert (Hfill1 : filling c1 load v loading) by exact Hfill.
    assert (Hinv1 : inv objects (mk_sys c1 (threads s) (leases s))).
    { apply soft_cache_step; [done|apply soft_stats|done|done]. }
    unfold mbind, M_bind. destruct (publish_ok c1 load v Hc1 Hfill1) as [(c' & -> & Hc' & Hmv)| ->].
    + intros [= <- <-]. split; [|by left].
      pose proof (publish_step _ tid _ load v c' Hinv1 Ht Hfl Hfill1 Hc' Hmv Hmem) as HI.
      apply reap_inv; [by apply inv_weaken|]. simpl. rewrite (mv_heap _ _ _ Hmv). apply Hlh.
    + rewrite fail_load_run by apply Hlh. intros [= <- <-]. split; [|right; eexists; eauto].
      by apply (fail_step s tid _ load v _ (fun s => (f s) <| pinned_capacity_failures ::= Z.succ |>) Hinv Ht Hfl Hfill).
Qed.

(** ** The end of the copy *)

Lemma copied_step s tid load v :
  inv objects s -> threads s !! tid = Some (Copied load v) ->
  forall s' r, run tid (acquire_copied load v) s = (s', r) ->
  inv objects (reap load s') /\
  exists id, r = Got id /\ live_id (cache s') id /\ desc_of (cache s') id = v /\ id ∈ leases s'.
Proof.
  intros Hinv Ht s' r. destruct (ti_ok _ _ (iv_threads _ _ _ Hinv) tid _ Ht) as [Hfill Hmem]. simpl in Hfill, Hmem.
  pose proof (iv_cache _ _ _ Hinv) as Hi.
  destruct (filling_valid _ _ _ _ Hi Hfill) as (Hcan & Hval & Hb & Hp & Hph).
  assert (Hlh : is_Some (l_heap (cache s) !! load)) by (rewrite (load_heap objects _ _ Hi Hp); by eexists).
  assert (Hres : resident_id (cache s) (l_result (load_of (cache s) load))).
  { destruct (ai_pending _ (ci_arena _ _ Hi) _ _ Hp) as (_ & _ & _ & _ & _ & _ & Hok). unfold phase_ok in Hok.
    unfold in_phase in Hph. rewrite Hph in Hok. apply Hok. }
  destruct (on_kept_touch (cache s) _ true (ci_retention _ _ Hi) Hres) as (k & Htouch & Hk & Ho).
  set (c1 := (cache s) <| kept := k |>). set (res := l_result (load_of (cache s) load)) in *.
  assert (Hs1 : soft (cache s) c1) by (split; try done; simpl; by rewrite Ho).
  assert (Hc1 : cache_inv objects c1) by (eapply cache_inv_frame; [..|exact Hk|exact Hi]; done).
  set (s1 := mk_sys c1 (threads s) (leases s)). assert (Hinv1 : inv objects s1) by by apply soft_cache_step.
  unfold run. rewrite (finish_run load v _ k Hlh Hb Htouch). intros [= <- <-]. fold res.
  assert (Hne : l_error (load_of c1 load) = None).
  { destruct Hlh as [l Hl]. pose proof (li_error _ (ci_loads _ _ Hi) load l Hl) as Hle.
    unfold in_phase in Hph. change (load_of c1 load) with (load_of (cache s) load).
    rewrite (load_of_lookup _ _ _ Hl) in *. destruct (l_error l); [|done].
    destruct Hle as [_ Hle]. specialize (Hle ltac:(by eexists)). congruence. }
  assert (Hg : l_result (ready_mark (load_of c1 load)) = l_result (load_of c1 load) /\
    (l_phase (ready_mark (load_of c1 load)) = failed <-> is_Some (l_error (ready_mark (load_of c1 load)))) /\
    l_phase (ready_mark (load_of c1 load)) = ready).
  { split_and!; try done. simpl. rewrite Hne. split; [done|by intros []]. }
  assert (Hsoft : soft (retired c1 load ready_mark true) (finished_state load k (cache s))) by by split.
  assert (Hlive : forall id, live_id (retired c1 load ready_mark true) id <-> live_id (cache s) id \/ id = res).
  { intros id. change c1 with (cache s1). rewrite (retired_live s1 load v ready_mark true Hinv1 Hfill Hg). change (live_id (cache s1)) with (live_id (cache s)). naive_solver. }
  split.
  - apply (retire_step s1 tid _ load v ready_mark true Hinv1 Ht ltac:(done) Hfill Hg).
    + exact Hsoft.
    + by apply finished_inv.
    + intros id [->|Hid]%elem_of_cons; apply Hlive; [by right|left; by apply (pi_leased _ _ (iv_pins _ _ _ Hinv))].
    + intros id. rewrite lease_count_cons. unfold finished_state. rewrite !pins_of_add. fold res.
      change (pins_of (upd_stats _ _) id) with (pins_of (cache s) id). change (pins_of (cache s1) id) with (pins_of (cache s) id).
      change (l_result (load_of (cache s1) load)) with res. simpl. case_decide; [rewrite bool_decide_eq_true_2 by done|rewrite bool_decide_eq_false_2 by done]; lia.
    + intros _. exact Hmem.
  - exists res. simpl. split_and!; [done| | |left].
    + destruct (soft_views _ _ Hsoft) as (_ & _ & _ & -> & _). apply Hlive. by right.
    + destruct (soft_views _ _ Hsoft) as (_ & -> & _). rewrite retired_desc. by destruct Hfill as (_ & _ & ?).
Qed.

(** ** A coalesced waiter *)

Lemma coalesced_step s tid load v :
  inv objects s -> threads s !! tid = Some (Coalesced load v) ->
  l_phase (load_of (cache s) load) = ready \/ l_phase (load_of (cache s) load) = failed ->
  forall s' r, run tid (acquire_coalesced load) s = (s', r) ->
  inv objects (reap load s') /\
  ((exists id, r = Got id /\ live_id (cache s') id /\ desc_of (cache s') id = v /\ id ∈ leases s') \/
   exists e, r = Threw e /\ internal_error e = false).
Proof.
  intros Hinv Ht Hdone s' r. destruct (ti_ok _ _ (iv_threads _ _ _ Hinv) tid _ Ht) as [[[l Hl] Hd] _].
  pose proof (iv_cache _ _ _ Hinv) as Hi.
  assert (Hnf : forall p, threads s !! tid = Some p -> ~ filler p) by (intros p Hp; rewrite Ht in Hp; simplify_eq; by intros []).
  assert (Hx : forall p ld, threads s !! tid = Some p -> pc_load p = Some ld -> Some load = Some ld)
    by (intros p ld Hp Hpl; rewrite Ht in Hp; by simplify_eq/=).
  unfold run, acquire_coalesced, mbind, M_bind, get. rewrite (load_of_lookup _ _ _ Hl) in *.
  destruct (l_error l) as [e|] eqn:Ee.
  - intros [= <- <-]. split.
    + apply reap_inv; [|by eexists]. change (inv_but objects (Some load) (mk_sys (cache s) (set_thread tid None (threads s)) (leases s))).
      apply soft_step; try done; [apply (pi_leased _ _ (iv_pins _ _ _ Hinv))|]. intros; lia.
    + right. exists e. split; [done|]. by eapply (li_external _ (ci_loads _ _ Hi)).
  - assert (Hr : l_phase l = ready).
    { destruct Hdone as [|Hf]; [done|]. apply (li_error _ (ci_loads _ _ Hi) load l Hl) in Hf as [e He]. congruence. }
    pose proof (pi_ready _ _ (iv_pins _ _ _ Hinv) load l Hl Hr) as Hlive.
    destruct (hit_ok objects (cache s) (l_result l) Hi (proj1 Hlive)) as (k & -> & Hc' & Ho).
    intros [= <- <-]. set (c' := add_pins _ _ _) in *.
    assert (Hs : soft (cache s) c') by (split; try done; simpl; by rewrite Ho). split.
    + apply reap_inv; [|simpl; by eexists].
      change (inv_but objects (Some load) (mk_sys c' (set_thread tid None (threads s)) (l_result l :: leases s))).
      apply soft_step; try done.
      * intros id [->|Hid]%elem_of_cons; [done|by apply (pi_leased _ _ (iv_pins _ _ _ Hinv))].
      * intros id. unfold c'. rewrite pins_of_add, lease_count_cons.
        change (pins_of (upd_stats _ _) id) with (pins_of (cache s) id). lia.
    + left. exists (l_result l). simpl. split_and!; [done|exact Hlive| |left]. exact Hd.
Qed.

(** ** Storage reads and the payload copy *)

Lemma extents_prefix v done rest :
  valid_ptr objects v -> d_extents (dp_desc v) = done ++ rest ->
  0 <= zsum (ext_length <$> done) /\ 0 <= zsum (ext_length <$> rest) /\
  zsum (ext_length <$> done) + zsum (ext_length <$> rest) = dp_bytes v.
Proof.
  intros Hv Hd. destruct (valid_ptr_facts _ _ Hv) as (_ & Hsum & Hpos). rewrite Hd in *.
  rewrite fmap_app, zsum_app in Hsum. apply Forall_app in Hpos as [H1 H2].
  split_and!; [| |done]; apply zsum_nonneg, Forall_fmap; eapply Forall_impl; try exact H1; try exact H2; simpl; intros ? [? _]; lia.
Qed.

Section staging_write.
Context (s : sys) (tid : positive) (p0 : pc) (load : positive) (v : dptr) (m' : memory) (p' : pc).
Context (Hinv : inv objects s) (Ht : threads s !! tid = Some p0) (Hfills : fills p0 load) (Hfills' : fills p' load).
Context (Hm : forall x, ~ in_ival x (s_span (cache s) load) -> m' x = staging (cache s) x).

Abbreviation c := (cache s).
Abbreviation c' := ((cache s) <| staging := m' |>).

Lemma staging_thread t p : t <> tid -> threads s !! t = Some p -> thread_mem c' p.
Proof.
  intros Hne Htp. pose proof (iv_threads _ _ _ Hinv) as HT. pose proof (iv_cache _ _ _ Hinv) as Hi.
  destruct (ti_ok _ _ HT t p Htp) as [Hok Hmem]. destruct (ti_ok _ _ HT tid p0 Ht) as [Hok0 _].
  assert (Hother : forall l w, fills p l -> filling c l w loading \/ filling c l w copying ->
    forall x, l_staging (load_of c l) <= x < l_staging (load_of c l) + dp_bytes w -> m' x = staging c x).
  { intros l w Hf Hw x Hx. apply Hm. intros Hin.
    assert (Hll : l <> load) by (intros ->; apply Hne; by eapply (ti_unique _ _ HT)).
    assert (Hpl : pending_id c l /\ l_bytes c l = dp_bytes w).
    { destruct Hw as [Hw|Hw]; by destruct (filling_valid _ _ _ _ Hi Hw) as (_ & _ & ? & ? & _). }
    assert (Hp0 : pending_id c load).
    { destruct Hfills as [Hff Hpl0]. destruct p0; simpl in *; simplify_eq; try done.
      - destruct Hok0 as [Hw0 _]. by destruct (filling_valid _ _ _ _ Hi Hw0) as (_ & _ & _ & ? & _).
      - destruct Hok0 as [Hw0 _]. by destruct (filling_valid _ _ _ _ Hi Hw0) as (_ & _ & _ & ? & _).
      - by destruct (filling_valid _ _ _ _ Hi Hok0) as (_ & _ & _ & ? & _).
      - by destruct (filling_valid _ _ _ _ Hi Hok0) as (_ & _ & _ & ? & _). }
    destruct Hpl as [Hpl Hb]. destruct (ai_fills c (ci_arena _ _ Hi) l load Hpl Hp0 Hll) as [_ Hd].
    apply (Hd x); [|done]. unfold in_ival, s_span. simpl. lia. }
  destruct p as [l w rest d rd| l w rd [e|]| l w| l w| |]; simpl in *; try done.
  - destruct Hok as [Hw _]. destruct Hmem as (done & He & Hdst & Hrd). exists done. split_and!; [done..|].
    rewrite <- Hrd. apply mem_read_ext. intros x Hx. apply (Hother l w); [done|by left|].
    destruct (filling_valid _ _ _ _ Hi Hw) as (_ & Hv & _). destruct (extents_prefix w done rest Hv He) as (? & ? & ?). lia.
  - destruct Hok as [Hw _]. unfold payload_at in *. simpl. rewrite <- Hmem. apply mem_read_ext. intros x Hx.
    apply (Hother l w); [done|by left|]. destruct (filling_valid _ _ _ _ Hi Hw) as (_ & Hv & _).
    apply valid_ptr_facts in Hv as [? _]. lia.
  - unfold payload_at in *. simpl. rewrite <- Hmem. apply mem_read_ext. intros x Hx.
    apply (Hother l w); [done|by right|]. destruct (filling_valid _ _ _ _ Hi Hok) as (_ & Hv & _).
    apply valid_ptr_facts in Hv as [? _]. lia.
Qed.

Lemma staging_step :
  thread_ok c p' -> thread_mem c' p' ->
  inv objects (mk_sys c' (set_thread tid (Some p') (threads s)) (leases s)).
Proof.
  intros Hok' Hmem'. pose proof (iv_threads _ _ _ Hinv) as HT. split; cbn [cache threads leases].
  - eapply cache_inv_frame; [..|apply Hinv]; try done. eapply retention_inv_frame; [..|apply (iv_cache _ _ _ Hinv)]; done.
  - eapply threads_update; [exact HT|..].
    + intros t p Hne Htp. split; [|by eapply staging_thread]. destruct (ti_ok _ _ HT t p Htp) as [Hok _].
      eapply thread_ok_stable; [..|exact Hok]; done.
    + intros p [= <-]. split; [|done]. eapply thread_ok_stable; [..|exact Hok']; done.
    + intros t p q l Hne Htp [= <-] Hf Hf'. apply Hne. eapply (ti_unique _ _ HT); [exact Htp|exact Ht|exact Hf|].
      destruct Hf' as [_ Hl], Hfills' as [_ Hl'], Hfills as [Hf0 Hl0]. split; [done|congruence].
    + intros k l Hk. destruct (ti_served _ _ HT k l Hk) as (t & p & Htp & Hf).
      destruct (decide (t = tid)) as [->|Hne]; [left|right; eauto 10]. exists p'. split; [done|].
      rewrite Ht in Htp. simplify_eq. destruct Hf as [_ Hl], Hfills as [_ Hl'], Hfills' as [Hf' Hl'']. split; [done|congruence].
  - intros l _ Hl. apply held_update; [by apply (iv_held _ _ _ Hinv)|]. intros p Htp Hpl. right. exists p'. split; [done|].
    rewrite Ht in Htp. simplify_eq. destruct Hfills as [_ Hl'], Hfills' as [_ Hl'']. congruence.
  - destruct (iv_pins _ _ _ Hinv) as [P1 P2 P3]. by split.
  - exact (iv_mem _ _ _ Hinv).
Qed.
End staging_write.

Lemma read_source_cases src off len fault :
  0 <= off -> 0 <= len ->
  (forall e part, fault = Some (e, part) -> exists m, e = runtime_error m) ->
  match read_source src off len fault with
  | (Ok data, written) => written = data /\ data = take (Z.to_nat len) (drop (Z.to_nat off) (so_data src)) /\
      Z.of_nat (length data) = len
  | (Err e, written) => internal_error e = false /\ Z.of_nat (length written) <= len
  end.
Proof.
  intros Ho Hl Hf. unfold read_source. destruct (checked_add_u64 off len) as [fin|] eqn:E; [|simpl; split; [done|lia]].
  apply checked_add_u64_Some in E as [E ->]. unfold so_size. rewrite Z.gtb_ltb. destruct (Z.ltb_spec (Z.of_nat (length (so_data src))) (off + len)); [simpl; split; [done|lia]|].
  destruct fault as [[e part]|].
  - destruct (Hf e part eq_refl) as [m ->]. split; [done|]. rewrite length_take. lia.
  - split_and!; [done..|]. rewrite length_take, length_drop. lia.
Qed.

Lemma read_step_inv s tid fault load v rest dest read :
  inv objects s -> threads s !! tid = Some (Reading load v rest dest read) ->
  (forall e part, fault = Some (e, part) -> exists m, e = runtime_error m) ->
  inv objects (read_step tid fault load v rest dest read s).
Proof.
  intros Hinv Ht Hfault. pose proof (iv_cache _ _ _ Hinv) as Hi.
  destruct (ti_ok _ _ (iv_threads _ _ _ Hinv) tid _ Ht) as [[Hfill Hreg] (done & He & Hdst & Hrd)].
  destruct (filling_valid _ _ _ _ Hi Hfill) as (_ & Hval & Hb & Hp & Hph).
  destruct (extents_prefix v done rest Hval He) as (Hd0 & Hr0 & Hsum).
  set (p0 := Reading load v rest dest read) in *. assert (Hf0 : fills p0 load) by done.
  unfold read_step. destruct rest as [|e rest].
  - assert (Heta : (cache s) <| staging := staging (cache s) |> = cache s) by by destruct (cache s).
    pose proof (staging_step s tid p0 load (staging (cache s)) (ReadDone load v read None) Hinv Ht Hf0 ltac:(done) ltac:(done)) as H.
    rewrite Heta in H. apply H; [by split|]. simpl. unfold payload_at, payload. rewrite He, app_nil_r in *.
    rewrite <- Hrd. do 2 f_equal. simpl in Hsum. lia.
  - simpl in Hreg. apply andb_true_iff in Hreg as [Hreg1 Hreg]. unfold extent_registered in Hreg1.
    destruct (sources (cache s) !! ext_source e) as [src|] eqn:Es; [|done].
    destruct (valid_ptr_facts _ _ Hval) as (_ & _ & Hpos). rewrite He in Hpos. apply Forall_app in Hpos as [_ Hpos].
    apply Forall_cons in Hpos as [[Hl0 Ho0] _]. rewrite fmap_cons in Hr0, Hsum.
    assert (Hrest : 0 <= zsum (ext_length <$> rest)).
    { destruct (extents_prefix v (done ++ [e]) rest Hval) as (_ & ? & _); [by rewrite <- app_assoc|done]. }
    change (zsum (ext_length e :: (ext_length <$> rest))) with (ext_length e + zsum (ext_length <$> rest)) in Hsum.
    pose proof (read_source_cases src (ext_offset e) (ext_length e) fault Ho0 ltac:(lia) Hfault) as Hrs.
    destruct (read_source src (ext_offset e) (ext_length e) fault) as [res written].
    assert (Hm : Z.of_nat (length written) <= ext_length e ->
      forall x, ~ in_ival x (s_span (cache s) load) -> mem_write (staging (cache s)) dest written x = staging (cache s) x).
    { intros Hlen x Hx. apply mem_write_out. unfold in_ival, s_span in Hx. simpl in Hx. lia. }
    destruct res as [data|err].
    + destruct Hrs as (-> & Hdata & Hlen).
      apply (staging_step s tid p0 load _ (Reading load v rest (dest + ext_length e) _) Hinv Ht Hf0 ltac:(done)).
      * apply Hm. lia.
      * by split.
      * exists (done ++ [e]). rewrite <- app_assoc, fmap_app, zsum_app. simpl. split_and!; [done|change (load_of _ load) with (load_of (cache s) load); lia|].
        change (load_of ((cache s) <| staging := _ |>) load) with (load_of (cache s) load).
        rewrite fmap_app, join_app. simpl. rewrite app_nil_r.
        replace (Z.to_nat (zsum (ext_length <$> done) + (ext_length e + 0)))
          with (Z.to_nat (zsum (ext_length <$> done)) + length data)%nat by lia.
        rewrite mem_read_app. f_equal.
        -- rewrite <- Hrd. apply mem_read_ext. intros x Hx. apply mem_write_out. lia.
        -- replace (l_staging (load_of (cache s) load) + Z.of_nat (Z.to_nat (zsum (ext_length <$> done)))) with dest by lia.
           rewrite mem_read_write. unfold extent_payload. by rewrite Es.
    + destruct Hrs as [Hint Hlen].
      apply (staging_step s tid p0 load _ (ReadDone load v read (Some err)) Hinv Ht Hf0 ltac:(done)); [by apply Hm| |done].
      split; [done|]. by intros ? [= <-].
Qed.

Section copy.
Context (s : sys) (tid : positive) (load : positive) (v : dptr).
Context (Hinv : inv objects s) (Ht : threads s !! tid = Some (Copying load v)).

Abbreviation c := (cache s).
Abbreviation c' := (copy_payload load v (cache s)).
Abbreviation res := (l_result (load_of (cache s) load)).

Let Hi : cache_inv objects c := iv_cache _ _ _ Hinv.

Lemma copy_facts :
  filling c load v copying /\ valid_ptr objects v /\ l_bytes c load = dp_bytes v /\ pending_id c load /\
  resident_id c res /\ e_ready (entry_of c res) = false /\ e_offset (entry_of c res) = l_offset (load_of c load) /\
  payload_at c (staging c) (l_staging (load_of c load)) v.
Proof.
  destruct (ti_ok _ _ (iv_threads _ _ _ Hinv) tid _ Ht) as [Hfill Hmem]. simpl in *.
  destruct (filling_valid _ _ _ _ Hi Hfill) as (_ & Hv & Hb & Hp & Hph).
  destruct (ai_pending c (ci_arena _ _ Hi) _ _ Hp) as (_ & _ & _ & _ & _ & _ & Hok). unfold phase_ok in Hok.
  unfold in_phase in Hph. rewrite Hph in Hok. destruct Hok as (H1 & H2 & H3). split_and!; done.
Qed.

Lemma copy_arena :
  resident_arena c' = mem_write (resident_arena c) (l_offset (load_of c load)) (payload (sources c) v) /\
  Z.of_nat (length (payload (sources c) v)) = dp_bytes v.
Proof.
  destruct copy_facts as (Hfill & Hv & Hb & Hp & Hres & Hr & Ho & Hpay).
  destruct (ai_placed c (ci_arena _ _ Hi) _ Hres) as [_ Hdata]. unfold copy_payload. simpl.
  unfold payload_at in Hpay. rewrite Hdata, Hpay, Ho. split; [done|].
  rewrite <- Hpay, mem_read_length. apply valid_ptr_facts in Hv as [? _]. lia.
Qed.

(** The copy only writes the entry's own span. *)
Lemma copy_outside x : ~ in_ival x (l_span c load) -> resident_arena c' x = resident_arena c x.
Proof.
  intros Hx. destruct copy_arena as [-> Hlen]. destruct copy_facts as (_ & _ & Hb & _).
  apply mem_write_out. unfold in_ival, l_span in Hx. simpl in Hx. lia.
Qed.

Lemma copy_live id : live_id c' id <-> live_id c id.
Proof. done. Qed.

Lemma copy_step : inv objects (mk_sys c' (set_thread tid (Some (Copied load v)) (threads s)) (leases s)).
Proof.
  pose proof (iv_threads _ _ _ Hinv) as HT. destruct copy_facts as (Hfill & Hv & Hb & Hp & Hres & Hr & Ho & Hpay).
  pose proof (ci_arena _ _ Hi) as Ha. split; cbn [cache threads leases].
  - eapply cache_inv_frame; [..|exact Hi]; try done. eapply retention_inv_frame; [..|apply Hi]; done.
  - eapply threads_update; [exact HT|..].
    + intros t p Hne Htp. destruct (ti_ok _ _ HT t p Htp) as [Hok Hmem].
      split; [eapply thread_ok_stable; [..|exact Hok]; done|].
      destruct p as [| ? ? ? []| | l w| |]; try done. simpl in *. unfold payload_at in *. simpl.
      change (load_of c' l) with (load_of c l). rewrite <- Hmem. apply mem_read_ext. intros x Hx. apply copy_outside.
      intros Hin. destruct (filling_valid _ _ _ _ Hi Hok) as (_ & Hvw & Hbw & Hpw & _).
      assert (Hll : l <> load) by (intros ->; apply Hne; by eapply (ti_unique _ _ HT)).
      destruct (ai_fills c Ha l load Hpw Hp Hll) as [Hd _]. apply (Hd x); [|done].
      apply valid_ptr_facts in Hvw as [? _]. unfold in_ival, l_span. simpl. lia.
    + intros p [= <-]. split; [exact Hfill|].
      change (payload_at c' (resident_arena c') (l_offset (load_of c load)) v). unfold payload_at. change (sources c') with (sources c). destruct copy_arena as [-> Hlen].
      replace (Z.to_nat (dp_bytes v)) with (length (payload (sources c) v)) by lia. apply mem_read_write.
    + intros t p q l Hne Htp [= <-] Hf [_ [= <-]]. apply Hne. by eapply (ti_unique _ _ HT).
    + intros k l Hk. destruct (ti_served _ _ HT k l Hk) as (t & p & Htp & Hf).
      destruct (decide (t = tid)) as [->|Hne]; [left|right; eauto 10]. exists (Copied load v). split; [done|].
      rewrite Ht in Htp. simplify_eq. destruct Hf as [_ Hl]. split; [done|]. simpl in *. congruence.
  - intros l _ Hl. apply held_update; [by apply (iv_held _ _ _ Hinv)|]. intros p Htp Hpl. right. exists (Copied load v).
    rewrite Ht in Htp. by simplify_eq.
  - destruct (iv_pins _ _ _ Hinv) as [P1 P2 P3]. by split.
  - intros id Hid. change (live_id c id) in Hid. pose proof (iv_mem _ _ _ Hinv id Hid) as Hm. unfold payload_at in *.
    change (desc_of c' id) with (desc_of c id). change (entry_of c' id) with (entry_of c id). change (sources c') with (sources c).
    rewrite <- Hm. apply mem_read_ext. intros x Hx. apply copy_outside. intros Hin.
    destruct Hid as [Hrid Hrd]. assert (Hne : id <> res) by (intros ->; congruence).
    pose proof (ai_apart c Ha id res Hrid Hres Hne) as Hd. destruct (ai_placed c Ha id Hrid) as [(_ & _ & Hbid & _) _].
    apply (Hd x); unfold in_ival, e_span, l_span, l_bytes, bytes_of in *; simpl in *; [lia|]. rewrite Ho. done.
Qed.
End copy.

(** ** The remaining operations *)

Lemma try_acquire_step s value :
  inv objects s -> (forall v, value = Some v -> valid_ptr objects v) ->
  forall s' r, exec (TryAcquire value) s = Some (s', r) ->
  inv objects s' /\
  match r with
  | Got id => exists v, value = Some v /\ live_id (cache s') id /\ desc_of (cache s') id = v /\ id ∈ leases s'
  | Nothing => exists v, value = Some v /\ cached_ready (cache s) (dp_key v) = None
  | Threw e => internal_error e = false
  | Parked | Answer _ => False
  end.
Proof.
  intros Hinv Hv s' r. pose proof (iv_cache _ _ _ Hinv) as Hi.
  assert (Hsame : inv objects (s <| cache := cache s |>)) by by destruct s.
  destruct value as [v|]; [|simpl; intros [= <- <-]; by split]. specialize (Hv v eq_refl).
  simpl. unfold mbind at 1, M_bind at 1, get at 1.
  destruct (match canonical_descriptors (cache s) !! dp_key v with Some d => _ | None => _ end) eqn:Ecan;
    [intros [= <- <-]; by split|].
  destruct (cached_ready (cache s) (dp_key v)) as [id|] eqn:Ec; [|intros [= <- <-]; split; eauto].
  unfold cached_ready in Ec. destruct (entries (cache s) !! dp_key v) as [id'|] eqn:E; [|done].
  destruct (e_ready (entry_of (cache s) id')) eqn:Er; [|done]. simplify_eq.
  pose proof (resident_lookup _ (ci_arena _ _ Hi) _ _ E) as Hres.
  destruct (on_kept_observe (cache s) (dp_key v) (ci_retention _ _ Hi)) as (k & Hobs & Hk & Hmono & _).
  set (c1 := (cache s) <| kept := k |>) in *.
  assert (Hc1 : cache_inv objects c1) by (eapply cache_inv_frame; [..|exact Hk|exact Hi]; done).
  destruct (hit_ok objects c1 id Hc1 Hres) as (k2 & Hhit & Hc2 & Ho2).
  unfold mbind, M_bind. rewrite Hobs, Hhit. intros [= <- <-]. set (c2 := add_pins _ _ _) in *.
  assert (Hs : soft (cache s) c2) by (split; try done; simpl; rewrite Ho2; exact Hmono).
  assert (Hd : desc_of (cache s) id = v).
  { apply (ai_entries _ (ci_arena _ _ Hi)) in E as [Hkey [e He]].
    pose proof (ca_entries _ _ (ci_canonical _ _ Hi) id e He) as Hce.
    unfold key_of, desc_of in *. rewrite (entry_of_lookup _ _ _ He) in *. rewrite <- Hkey, Hce in Ecan.
    apply negb_false_iff, bool_decide_eq_true in Ecan.
    destruct (ca_valid _ _ (ci_canonical _ _ Hi) _ _ Hce) as (_ & (Hd1 & _) & _). destruct Hv as (Hd2 & _).
    destruct (e_desc e), v; simpl in *. congruence. }
  split.
  - destruct Hinv as [H1 H2 H3 H4 H5]. change (inv objects (mk_sys c2 (threads s) (id :: leases s))). split; cbn [cache threads leases].
    + done.
    + destruct H2 as [T1 T2 T3]. split; [|done|done]. intros t p Htp. eapply soft_thread; [exact Hs|]. eauto.
    + exact H3.
    + destruct (soft_views _ _ Hs) as (_ & _ & _ & V4 & V5). destruct H4 as [P1 P2 P3]. split.
      * rewrite V4. intros x [->|Hx]%elem_of_cons; [by split|by apply P1].
      * rewrite V4. exact P2.
      * intros x. rewrite V5, lease_count_cons. unfold c2. rewrite pins_of_add.
        change (pins_of (upd_stats _ _) x) with (pins_of (cache s) x). rewrite P3. lia.
    + by eapply soft_mem.
  - exists v. split_and!; [done|by split|done|left].
Qed.

Lemma lease_count_delete leased i id x :
  leased !! i = Some id -> lease_count (delete i leased) x = lease_count leased x - if decide (x = id) then 1 else 0.
Proof.
  intros Hi. apply delete_Permutation in Hi. unfold lease_count at 2.
  rewrite (Permutation_length (filter_Permutation (fun y => y = x) _ _ Hi)).
  fold (lease_count (id :: delete i leased) x). rewrite lease_count_cons. lia.
Qed.

Lemma release_step s i id :
  inv objects s -> leases s !! i = Some id ->
  inv objects (mk_sys (add_pins id (-1) (cache s)) (threads s) (delete i (leases s))).
Proof.
  intros Hinv Hid. set (c' := add_pins id (-1) (cache s)). assert (Hs : soft (cache s) c') by by split.
  destruct Hinv as [H1 [T1 T2 T3] H3 [P1 P2 P3] H5]. split; cbn [cache threads leases].
  - eapply cache_inv_frame; [..|exact H1]; try done. eapply retention_inv_frame; [..|apply H1]; done.
  - split; [|done|done]. intros t p Htp. eapply soft_thread; [exact Hs|]. eauto.
  - exact H3.
  - destruct (soft_views _ _ Hs) as (_ & _ & _ & V4 & V5). split.
    + rewrite V4. intros x Hx. apply P1. apply list_elem_of_lookup in Hx as [j Hj].
      rewrite list_lookup_delete in Hj. by apply list_elem_of_lookup_2 in Hj.
    + rewrite V4. exact P2.
    + intros x. rewrite V5, (lease_count_delete _ _ _ _ Hid). unfold c'. rewrite pins_of_add, P3. case_decide; lia.
  - by eapply soft_mem.
Qed.

Lemma erase_step s k s' r :
  inv objects s -> exec (Erase k) s = Some (s', r) -> inv objects s' /\ exists b, r = Answer b.
Proof.
  intros Hinv. pose proof (iv_cache _ _ _ Hinv) as Hi. simpl.
  destruct (erase_run objects (cache s) k Hi) as [-> | (id & c' & Hk & Hlive & Hpin & Hun & -> & Hev)]; intros [= <- <-].
  { split; [by destruct s|by eexists]. }
  split; [|by eexists]. pose proof (erased_inv objects _ c' id Hi Hlive Hun Hev) as Hc'.
  destruct (ev_same _ _ _ Hev) as (E1 & E2 & E3 & E4 & E5 & E6 & E7 & E8 & E9).
  assert (V1 : entry_of c' = entry_of (cache s)) by (unfold entry_of; by rewrite E8).
  assert (V2 : load_of c' = load_of (cache s)) by (unfold load_of; by rewrite E9).
  assert (V3 : desc_of c' = desc_of (cache s)) by (unfold desc_of; by rewrite V1).
  assert (Hl : forall x, live_id c' x <-> live_id (cache s) x /\ x <> id).
  { intros x. unfold live_id. rewrite (erased_resident objects (cache s) c' id Hi Hlive Hun Hev), V1. tauto. }
  assert (Hpinned : forall x, live_id (cache s) x -> pins_of (cache s) x <> 0 -> live_id c' x).
  { intros x Hx Hp. rewrite Hl. split; [done|]. by intros ->. }
  destruct (iv_pins _ _ _ Hinv) as [P1 P2 P3]. pose proof (iv_threads _ _ _ Hinv) as HT.
  change (inv objects (mk_sys c' (threads s) (leases s))). split; cbn [cache threads leases].
  - exact Hc'.
  - destruct HT as [T1 T2 T3]. split; [|done|by rewrite E4]. intros t p Htp. destruct (T1 t p Htp) as [Hok Hmem]. split.
    + eapply thread_ok_stable; [..|exact Hok]; rewrite ?E3, ?V2, ?V3, ?E4, ?E9; try done.
      by rewrite (ev_kept _ _ _ Hev).
    + eapply thread_mem_stable; [..|exact Hmem]; rewrite ?V2; done.
  - intros load Hne Hll. rewrite E9 in Hll. unfold held. rewrite E4. by apply (iv_held _ _ _ Hinv).
  - split.
    + intros x Hx. apply Hpinned; [by apply P1|by apply lease_pinned].
    + rewrite E9. intros l x Hx Hr. apply Hpinned; [by eapply P2|by eapply ready_pinned].
    + intros x. unfold pins_of, completion_pins. rewrite E7, E9. apply P3.
  - intros x Hx. rewrite Hl in Hx. destruct Hx as [Hx _]. unfold payload_at. rewrite V1, V3, E2, E6. by apply (iv_mem _ _ _ Hinv).
Qed.

Lemma clear_step s s' r :
  inv objects s ->
  (frequency_retention (config (cache s)) = true -> forall tid v, threads s !! tid <> Some (StagingWait v)) ->
  exec Clear s = Some (s', r) ->
  inv objects s' /\ (r = Nothing \/ exists m, r = Threw (capacity_error m)).
Proof.
  intros Hinv Hwait. pose proof (iv_cache _ _ _ Hinv) as Hi. simpl.
  destruct (clear_run (cache s)) as [(-> & Hp & Hpins) | [m ->]]; intros [= <- <-];
    [|split; [by destruct s|right; by eexists]].
  split; [|by left]. destruct (iv_pins _ _ _ Hinv) as [P1 P2 P3]. pose proof (iv_threads _ _ _ Hinv) as HT.
  change (inv objects (mk_sys (cleared (cache s)) (threads s) (leases s))).
  assert (Hnopin : forall x, live_id (cache s) x -> pins_of (cache s) x <> 0 -> False).
  { intros x [Hx _] Hp0. apply Hp0. by apply (Hpins _ x) in Hx. }
  assert (Hnores : forall x, ~ live_id (cleared (cache s)) x).
  { intros x [Hx _]. unfold resident_id in Hx. simpl in Hx. by rewrite lookup_empty in Hx. }
  split; cbn [cache threads leases].
  - by apply cleared_inv.
  - destruct HT as [T1 T2 T3]. split; [|done|simpl; by rewrite Hp].
    intros t p Htp. destruct (T1 t p Htp) as [Hok Hmem]. split; [|eapply thread_mem_stable; [..|exact Hmem]; done].
    destruct p; simpl in *; try done. destruct Hok as [Hc _]. split; [done|]. intros Hf. by apply (Hwait Hf) in Htp.
  - exact (iv_held _ _ _ Hinv).
  - split.
    + intros x Hx. exfalso. apply (Hnopin x); [by apply P1|by apply lease_pinned].
    + intros l x Hx Hr. exfalso. apply (Hnopin (l_result x)); [by eapply P2|by eapply ready_pinned].
    + exact P3.
  - intros x Hx. by apply Hnores in Hx.
Qed.

(** ** The step theorem *)

(** What a caller may do: pass descriptors built by [make]; storage faults
    surface as [std::runtime_error]; with frequency retention, [clear] is not
    called while an [acquire] waits for staging space. *)
Definition allowed (a : action) (s : sys) : Prop :=
  match a with
  | Acquire _ value | TryAcquire value => forall v, value = Some v -> valid_ptr objects v
  | Read _ fault => forall e part, fault = Some (e, part) -> exists m, e = runtime_error m
  | Clear => frequency_retention (config (cache s)) = true -> forall tid v, threads s !! tid <> Some (StagingWait v)
  | Resume _ | Copy _ | Release _ | Erase _ => True
  end.

(** The descriptor an action asks for. *)
Definition wanted (a : action) (s : sys) : option dptr :=
  match a with
  | Acquire _ value | TryAcquire value => value
  | Resume tid => pc_value <$> threads s !! tid
  | _ => None
  end.

(** A lease is granted on a live entry that holds the descriptor asked for, and
    an exception is never one of the cache's own book-keeping. *)
Definition reply_ok (a : action) (s s' : sys) (r : reply) : Prop :=
  match r with
  | Got id => live_id (cache s') id /\ wanted a s = Some (desc_of (cache s') id) /\ id ∈ leases s'
  | Threw e => internal_error e = false
  | Nothing | Parked | Answer _ => True
  end.

Lemma answer_reply a s s' v r : answer_ok s' v r -> wanted a s = Some v -> reply_ok a s s' r.
Proof. destruct r; simpl; try done. intros (? & <- & ?) ?. by split_and!. Qed.

Lemma reap_reply a s s' load id v :
  live_id (cache s') id -> desc_of (cache s') id = v -> id ∈ leases s' -> wanted a s = Some v ->
  reply_ok a s (reap load s') (Got id).
Proof.
  intros H1 <- H3 H4. unfold reap. destruct (owned s' load); [by split_and!|].
  case_bool_decide; by split_and!.
Qed.

Lemma exec_inv a s s' r :
  inv objects s -> allowed a s -> exec a s = Some (s', r) -> inv objects s' /\ reply_ok a s s' r.
Proof.
  intros Hinv Hal. destruct a as [tid value|tid fault|tid|tid|value|i|k|].
  - simpl. destruct (threads s !! tid) eqn:Ht; [done|]. intros [= Hr].
    destruct (acquire_inv s tid value Hinv Ht Hal _ _ Hr) as (HI & Ha & Hn). split; [done|].
    destruct value as [v|]; [by eapply answer_reply; [by apply Ha|]|by rewrite Hn].
  - simpl. destruct (threads s !! tid) as [[]|] eqn:Ht; try done. intros [= <- <-]. split; [|done]. by apply read_step_inv.
  - simpl. destruct (threads s !! tid) as [[ | load v read error | | load v | load v | v]|] eqn:Ht; try done.
    + destruct (run tid _ s) as [s1 r1] eqn:Hr. intros [= <- <-].
      destruct (read_done_step s tid load v read error Hinv Ht _ _ Hr) as [HI [->|(e & -> & He)]]; by split.
    + destruct (run tid _ s) as [s1 r1] eqn:Hr. intros [= <- <-].
      destruct (copied_step s tid load v Hinv Ht _ _ Hr) as [HI (id & -> & H1 & H2 & H3)]. split; [done|].
      eapply reap_reply; eauto. simpl. by rewrite Ht.
    + case_bool_decide as Hd; [|done]. destruct (run tid _ s) as [s1 r1] eqn:Hr. intros [= <- <-].
      destruct (coalesced_step s tid load v Hinv Ht Hd _ _ Hr) as [HI [(id & -> & H1 & H2 & H3)|(e & -> & He)]]; [|by split].
      split; [done|]. eapply reap_reply; eauto. simpl. by rewrite Ht.
    + intros [= Hr]. destruct (ti_ok _ _ (iv_threads _ _ _ Hinv) tid _ Ht) as [[Hc Ho] _].
      destruct (run_loop_inv s tid v Hinv) with (s' := s') (r := r) as [HI Ha]; try done.
      * intros p Hp. rewrite Ht in Hp. simplify_eq. split; [by intros []|done].
      * split; [done|]. eapply answer_reply; [exact Ha|]. simpl. by rewrite Ht.
  - simpl. destruct (threads s !! tid) as [[]|] eqn:Ht; try done. intros [= <- <-]. split; [|done]. by apply copy_step.
  - intros Hr. destruct (try_acquire_step s value Hinv Hal _ _ Hr) as [HI Ha]. split; [done|]. destruct r; try done.
    destruct Ha as (v & -> & H1 & <- & H3). by split_and!.
  - simpl. destruct (leases s !! i) as [id|] eqn:Hid; [|done]. intros [= <- <-]. split; [|done]. by apply release_step.
  - intros Hr. destruct (erase_step s k s' r Hinv Hr) as [HI [b ->]]. by split.
  - intros Hr. destruct (clear_step s s' r Hinv Hal Hr) as [HI [->|[m ->]]]; by split.
Qed.
End steps.
