(* ===== verification/ExpertCacheTheorems.v ===== *)
(** * What the expert RAM cache guarantees

    Theorems about the reachable states of [ExpertCacheSystem]: a cache built by
    [make_cache] and any interleaving of the actions of its callers, where the
    callers keep to [allowed] of [ExpertCacheSafety]: descriptors come from
    [descriptor::make], a failing read throws a [std::runtime_error], and with
    frequency retention [clear] is not called while an [acquire] waits for
    staging space.  The code permits such a [clear]; the run at the end of this
    file shows what it does then.  Waiting is modelled by the predicate of the
    wait, not by notifications.  The theorems rest on the step theorem
    [exec_inv] of [ExpertCacheSafety]. *)

From S2P Require Import Prelude ExpertDescriptor ExpertArena ExpertRetention ExpertCache ExpertCacheSystem ExpertCacheInv ExpertCacheSteps ExpertCachePublish ExpertCacheThreads ExpertCacheSafety.

(** States the system can reach when its callers keep to [allowed]. *)
Inductive reachable (objects : positive -> descriptor) : sys -> Prop :=
| reach_start cfg items arena c :
    u64 (capacity_bytes cfg) -> u64 (staging_bytes cfg) ->
    make_cache cfg items arena = Ok c -> reachable objects (start c)
| reach_step a s s' r :
    reachable objects s -> allowed objects a s -> exec a s = Some (s', r) -> reachable objects s'.

(** ** The initial state *)

Lemma make_cache_ok cfg items arena c :
  u64 (capacity_bytes cfg) -> u64 (staging_bytes cfg) -> make_cache cfg items arena = Ok c ->
  0 < staging_bytes cfg <= capacity_bytes cfg /\
  exists registered, c = mk_cache cfg registered ∅ ∅ [] zero_retention ∅ (fun _ => 0) (fun _ => 0) zero_stats ∅ ∅ ∅.
Proof.
  intros Hc Hs H. unfold make_cache in H. do 6 run_step H. bool_facts. unfold u64 in *. split; [lia|by eexists].
Qed.

Lemma start_inv objects cfg items arena c :
  u64 (capacity_bytes cfg) -> u64 (staging_bytes cfg) -> make_cache cfg items arena = Ok c -> inv objects (start c).
Proof.
  intros Hc Hs H. destruct (make_cache_ok _ _ _ _ Hc Hs H) as (Hcfg & registered & ->). clear H.
  split; simpl.
  - split.
    + split; simpl; [lia|]. apply Hc.
    + split; unfold pending_id, resident_id; simpl; try (intros *; rewrite ?lookup_empty; done); try constructor.
      all: try (intros *; rewrite ?lookup_empty). all: try set_solver. all: naive_solver.
    + split; simpl.
      * split; simpl; try constructor; try set_solver. all: try done.
      * intros id. unfold resident_id. simpl. rewrite lookup_empty. set_solver.
      * intros _ k. rewrite !lookup_empty. by intros [[]|[]].
    + split; simpl; by rewrite ?msum_empty.
    + split; simpl; intros *; by rewrite lookup_empty.
    + split; simpl; intros *; by rewrite lookup_empty.
  - split; intros *; by rewrite ?lookup_empty.
  - intros load _. rewrite lookup_empty. by intros [].
  - split; simpl.
    + set_solver.
    + intros *. by rewrite lookup_empty.
    + intros id. unfold pins_of, completion_pins. simpl. by rewrite lookup_empty, msum_empty.
  - intros id [Hid _]. unfold resident_id in Hid. simpl in Hid. by rewrite lookup_empty in Hid.
Qed.

Lemma reachable_inv objects s : reachable objects s -> inv objects s.
Proof. induction 1; [by eapply start_inv|]. by eapply exec_inv. Qed.

(** Runs that pass made descriptors and neither fail a read nor clear. *)
Definition plain (objects : positive -> descriptor) (a : action) : Prop :=
  match a with
  | Acquire _ (Some v) | TryAcquire (Some v) => valid_ptr objects v
  | Read _ (Some _) | Clear => False
  | _ => True
  end.

Lemma plain_allowed objects a s : plain objects a -> allowed objects a s.
Proof. destruct a as [? []|? []| | |[]| | |]; simpl; try done; by intros ? ? [= <-]. Qed.

Lemma plain_run objects l s s' rs :
  reachable objects s -> Forall (plain objects) l -> exec_all l s = Some (s', rs) -> reachable objects s'.
Proof.
  intros Hs Hl. revert s rs Hs. induction Hl as [|a l Ha Hl IH]; intros s rs Hs; simpl; [by intros [= <- <-]|].
  destruct (exec a s) as [[s1 r]|] eqn:He; [|done]. destruct (exec_all l s1) as [[s2 rs2]|] eqn:Hr; [|done].
  intros [= <- <-]. eapply IH; [|done]. eapply reach_step; [done|by apply plain_allowed|done].
Qed.

(** ** Entries stay where they are *)

(** Every object keeps its descriptor, every object but [x] its place, and the
    sources and the configuration are those of [c]. *)
Definition placed (x : option positive) (c c' : ram_cache) : Prop :=
  sources c' = sources c /\ config c' = config c /\
  forall id e, e_heap c !! id = Some e ->
    exists e', e_heap c' !! id = Some e' /\ e_desc e' = e_desc e /\
      (Some id <> x -> e_data e' = e_data e /\ e_offset e' = e_offset e).

(** Loads keep the entry they fill. *)
Definition settled (x : option positive) (c c' : ram_cache) : Prop :=
  placed x c c' /\
  forall load l, l_heap c !! load = Some l -> exists l', l_heap c' !! load = Some l' /\ l_result l' = l_result l.

Definition settles {A} (x : option positive) (m : M A) : Prop := forall c r c', m c = (r, c') -> settled x c c'.

#[export] Instance settled_refl x : Reflexive (settled x).
Proof. intros c. split; [split_and!; try done; intros id e He; by exists e|]. intros load l Hl. by exists l. Qed.

#[export] Instance placed_trans x : Transitive (placed x).
Proof.
  intros c1 c2 c3 (S1 & C1 & H1) (S2 & C2 & H2). split_and!; [congruence..|].
  intros id e He. destruct (H1 id e He) as (e1 & He1 & D1 & D2).
  destruct (H2 id e1 He1) as (e2 & He2 & D3 & D4). exists e2. split_and!; [done|congruence|]. intros Hx.
  destruct (D2 Hx), (D4 Hx). split; congruence.
Qed.

#[export] Instance settled_trans x : Transitive (settled x).
Proof.
  intros c1 c2 c3 [P1 L1] [P2 L2]. split; [by transitivity c2|]. intros load l Hl.
  destruct (L1 load l Hl) as (l1 & Hl1 & E1). destruct (L2 load l1 Hl1) as (l2 & Hl2 & E2). exists l2. split; congruence.
Qed.

Lemma settled_result x c c' load :
  settled x c c' -> is_Some (l_heap c !! load) -> l_result (load_of c' load) = l_result (load_of c load).
Proof.
  intros [_ H] [l Hl]. destruct (H load l Hl) as (l' & Hl' & E). unfold load_of.
  by rewrite (lookup_total_correct _ _ _ Hl), (lookup_total_correct _ _ _ Hl').
Qed.

Lemma settles_ret {A} x (a : A) : settles x (mret a).
Proof. by intros c r c' [= <- <-]. Qed.

Lemma settles_throw {A} x e : settles x (@throw A e).
Proof. by intros c r c' [= <- <-]. Qed.

Lemma settles_lift {A} x (r : result exn A) : settles x (lift r).
Proof. by intros c r' c' [= <- <-]. Qed.

Lemma settles_bind {A B} x (m : M A) (f : A -> M B) :
  settles x m -> (forall a, settles x (f a)) -> settles x (a ← m; f a).
Proof.
  intros Hm Hf c r c'. unfold mbind, M_bind. destruct (m c) as [[a|e] c1] eqn:E; [|by intros [= <- <-]; eauto].
  intros Hr. transitivity c1; [by eapply Hm|by eapply Hf].
Qed.

Lemma settles_get {B} x (f : ram_cache -> M B) :
  (forall c, settles x (f c)) -> settles x (c ← get; f c).
Proof. intros Hf c r c' Hr. exact (Hf c c r c' Hr). Qed.

Lemma settles_catch {A} x (m : M A) h : settles x m -> (forall e, settles x (h e)) -> settles x (catch m h).
Proof.
  intros Hm Hh c r c'. unfold catch. destruct (m c) as [[a|e] c1] eqn:E; [by intros [= <- <-]; eauto|].
  intros Hr. transitivity c1; [by eapply Hm|by eapply Hh].
Qed.

Lemma settles_for_each {A} x (l : list A) f : (forall a, settles x (f a)) -> settles x (for_each l f).
Proof. intros Hf. induction l; simpl; [apply settles_ret|]. apply settles_bind; [done|]. by intros []. Qed.

Lemma settles_modify x f : (forall c, settled x c (f c)) -> settles x (modify f).
Proof. intros Hf c r c' [= <- <-]. apply Hf. Qed.

Lemma settled_heap x c c' :
  sources c' = sources c -> config c' = config c -> e_heap c' = e_heap c -> l_heap c' = l_heap c -> settled x c c'.
Proof.
  intros H1 H2 H3 H4. split; [split_and!; [done..|]; rewrite H3; intros id e He; by exists e|].
  rewrite H4. intros load l Hl. by exists l.
Qed.

Lemma settles_on_kept {A} x (f : retention -> result exn A * retention) : settles x (on_kept f).
Proof. intros c r c'. unfold on_kept. destruct (f (kept c)). intros [= <- <-]. by apply settled_heap. Qed.

Lemma settled_upd x c id f :
  (forall e, e_desc (f e) = e_desc e) ->
  (Some id = x \/ forall e, e_data (f e) = e_data e /\ e_offset (f e) = e_offset e) ->
  settled x c (upd_entry id f c).
Proof.
  intros Hd Hf. split; [|intros load l Hl; by exists l]. split_and!; [done..|]. intros id' e He. simpl. rewrite lookup_alter.
  case_decide; [|by exists e]. subst. rewrite He. simpl. exists (f e). split_and!; [done..|]. intros Hne.
  destruct Hf as [Hf|Hf]; [by subst|]. apply Hf.
Qed.

Lemma settled_upd_load x c load f : (forall l, l_result (f l) = l_result l) -> settled x c (upd_load load f c).
Proof.
  intros Hf. split; [split_and!; try done; intros id e He; by exists e|]. intros load' l Hl. simpl.
  rewrite lookup_alter. case_decide; [|by exists l]. subst. rewrite Hl. simpl. by exists (f l).
Qed.

#[local] Hint Resolve settles_ret settles_throw settles_lift settles_on_kept : core.

(** Walk through a computation that moves nothing. *)
Ltac settle :=
  repeat match goal with
  | |- settles _ (mbind _ get) => apply settles_get; intros ?
  | |- settles _ (mbind _ _) => apply settles_bind; [|intros ?]
  | |- settles _ (catch _ _) => apply settles_catch; [|intros ?]
  | |- settles _ (for_each _ _) => apply settles_for_each; intros ?
  | |- settles _ (modify (upd_entry _ _)) =>
      apply settles_modify; intros ?; apply settled_upd; [done|first [by right|by left]]
  | |- settles _ (modify (upd_load _ _)) => apply settles_modify; intros ?; by apply settled_upd_load
  | |- settles _ (modify _) => apply settles_modify; intros ?; by apply settled_heap
  | |- settles _ (match ?b with _ => _ end) => destruct b
  | |- settles _ _ => solve [eauto]
  end.

Lemma settles_observe x k : settles x (observe_key k).
Proof. apply settles_get. intros c. apply settles_on_kept. Qed.

Lemma settles_touch x id b : settles x (touch_entry id b).
Proof. apply settles_get. intros c. apply settles_on_kept. Qed.
#[local] Hint Resolve settles_observe settles_touch : core.

Lemma settles_hit x id : settles x (hit id).
Proof. unfold hit, lease_on. settle. Qed.
#[local] Hint Resolve settles_hit : core.

Lemma settles_release x load : settles x (release_reservation load).
Proof.
  apply settles_get. intros c. apply settles_bind; [|intros []; settle].
  apply settles_for_each. intros v. apply settles_modify. intros c1. case_bool_decide; [|done].
  apply settled_upd; [done|by right].
Qed.
#[local] Hint Resolve settles_release : core.

Lemma settles_fail x load e : settles x (fail_load load e).
Proof. unfold fail_load. settle. Qed.

Lemma settles_reserve x load l : settles x (reserve_victims load l).
Proof. unfold reserve_victims. settle. Qed.
#[local] Hint Resolve settles_fail settles_reserve : core.

Lemma settled_fresh x c v load :
  load ∉ dom (l_heap c) ->
  settled x c (c <| e_heap ::= <[fresh (dom (e_heap c)) := mk_entry v None 0 true None]> |>) /\
  forall l, settled x c (c <| l_heap ::= <[load := l]> |>).
Proof.
  intros Hload. split.
  - split; [|intros load' l Hl; by exists l]. split_and!; [done..|]. intros id' e He. exists e. simpl.
    rewrite lookup_insert_ne; [done|]. intros <-. apply (is_fresh (dom (e_heap c))). apply elem_of_dom. by eexists.
  - intros l. split; [split_and!; try done; intros id' e He; by exists e|]. intros load' l' Hl. exists l'. simpl.
    rewrite lookup_insert_ne; [done|]. intros <-. apply Hload, elem_of_dom. by eexists.
Qed.

Lemma settles_admit x v offset victims slot : settles x (admit_fill v offset victims slot).
Proof.
  intros c r c'. unfold admit_fill. unfold mbind at 1, M_bind at 1, get at 1. destruct (negb _); [by intros [= <- <-]|]. intros Hr.
  destruct (settled_fresh x c v (fresh (dom (l_heap c)))) as [He _]; [apply is_fresh|].
  transitivity (c <| e_heap ::= <[fresh (dom (e_heap c)) := mk_entry v None 0 true None]> |>); [done|].
  set (c1 := c <| e_heap ::= _ |>) in *.
  destruct (settled_fresh x c1 v (fresh (dom (l_heap c)))) as [_ Hl]; [apply (is_fresh (dom (l_heap c)))|].
  eapply transitivity; [apply (Hl (mk_load loading (fresh (dom (e_heap c))) victims slot offset None))|].
  revert Hr. unfold mbind at 1, M_bind at 1, modify at 1. unfold mbind at 1, M_bind at 1, modify at 1.
  cbv beta. match goal with |- ?m _ = _ -> _ => enough (Hm : settles x m) by exact (Hm _ _ _) end.
  settle.
Qed.
#[local] Hint Resolve settles_admit : core.

Lemma settles_loop x v : settles x (acquire_loop v).
Proof. unfold acquire_loop, wait_staging. settle. Qed.
#[local] Hint Resolve settles_loop : core.

Lemma settles_acquire x value : settles x (acquire value).
Proof. unfold acquire. settle. Qed.

Lemma settles_try_acquire x value : settles x (try_acquire value).
Proof. unfold try_acquire. settle. Qed.

Lemma settles_erase x k : settles x (erase k).
Proof. unfold erase. settle. Qed.

Lemma settles_clear x : settles x clear.
Proof. unfold clear. settle. Qed.

Lemma settles_coalesced x load : settles x (acquire_coalesced load).
Proof. unfold acquire_coalesced. settle. Qed.

Lemma settles_copied x load v : settles x (acquire_copied load v).
Proof. unfold acquire_copied, lease_on. settle. Qed.

Lemma settles_replan x load v : settles x (replan_pinned load v).
Proof. unfold replan_pinned. settle. Qed.

Lemma settles_index x id : settles x (index_result id).
Proof. unfold index_result. settle. Qed.

Lemma settles_evict x id : settles x (evict id).
Proof. unfold evict. settle. Qed.
#[local] Hint Resolve settles_index settles_evict settles_replan : core.

(** Publication moves only the entry it fills. *)
Lemma settles_publish load v c r c' :
  is_Some (l_heap c !! load) -> publish load v c = (r, c') -> settled (Some (l_result (load_of c load))) c c'.
Proof.
  intros Hl. unfold publish. unfold mbind at 1, M_bind at 1.
  destruct (replan_pinned load v c) as [[[]|e] c1] eqn:E; apply (settles_replan (Some (l_result (load_of c load)))) in E;
    [|by intros [= <- <-]].
  unfold mbind at 1, M_bind at 1, get at 1. rewrite (settled_result _ _ _ _ E Hl). intros Hr. transitivity c1; [done|].
  revert Hr. match goal with |- ?m _ = _ -> _ => enough (Hm : settles (Some (l_result (load_of c load))) m) by exact (Hm _ _ _) end.
  settle.
Qed.

Lemma settles_read_done load v read error c r c' :
  is_Some (l_heap c !! load) -> acquire_read_done load v read error c = (r, c') ->
  settled (Some (l_result (load_of c load))) c c'.
Proof.
  intros Hl. unfold acquire_read_done, catch. unfold mbind at 1, M_bind at 1, modify at 1.
  set (c1 := upd_stats _ c). set (x := Some (l_result (load_of c load))).
  assert (H1 : settled x c c1) by by apply settled_heap.
  assert (Hfail : forall e, settles x (fail_load load e ;; @throw progress e)) by (intros e; settle).
  destruct error as [e|].
  - unfold throw at 1. intros Hr. transitivity c1; [done|]. by eapply Hfail.
  - unfold mbind at 1, M_bind at 1. destruct (publish load v c1) as [[[]|e] c2] eqn:E.
    + intros [= <- <-]. transitivity c1; [done|]. exact (settles_publish load v c1 _ _ Hl E).
    + intros Hr. transitivity c2; [|by eapply Hfail]. transitivity c1; [done|]. exact (settles_publish load v c1 _ _ Hl E).
Qed.

Lemma run_settled x tid m s s' r : settles x m -> run tid m s = (s', r) -> settled x (cache s) (cache s').
Proof.
  intros Hm. unfold run. destruct (m (cache s)) as [[[]|] c] eqn:E; intros [= <- <-]; simpl; by eapply Hm.
Qed.

Lemma reap_placed x load s : placed x (cache s) (cache (reap load s)).
Proof.
  unfold reap. destruct (owned s load); [apply settled_refl|]. split_and!; simpl; try by case_bool_decide.
  intros id e He. exists e. by case_bool_decide.
Qed.

(** A step moves no entry that is live before it. *)
Lemma exec_placed objects a s s' r :
  inv objects s -> exec a s = Some (s', r) ->
  exists x, placed x (cache s) (cache s') /\ forall id, live_id (cache s) id -> x <> Some id.
Proof.
  intros Hinv. destruct a as [tid value|tid fault|tid|tid|value|i|k|]; simpl.
  - destruct (threads s !! tid); [done|]. intros [= Hr]. exists None. split; [|done].
    eapply run_settled; [apply settles_acquire|done].
  - destruct (threads s !! tid) as [[load v rest dst rd| | | | | ]|]; try done. intros [= <- <-]. exists None. split; [|done].
    unfold read_step. destruct rest as [|e rest]; [apply settled_refl|].
    destruct (sources _ !! _) as [input|]; [|apply settled_refl].
    destruct (read_source _ _ _ _) as [[] ?]; by apply settled_heap.
  - destruct (threads s !! tid) as [[ | load v read error | | load v | load v | v]|] eqn:Ht; try done.
    + destruct (run tid _ s) as [s1 r1] eqn:Hr. intros [= <- <-].
      destruct (ti_ok _ _ (iv_threads _ _ _ Hinv) tid _ Ht) as [[Hfill _] _].
      destruct (filling_valid _ _ _ _ _ (iv_cache _ _ _ Hinv) Hfill) as (_ & _ & _ & Hp & Hph).
      exists (Some (l_result (load_of (cache s) load))). split.
      * transitivity (cache s1); [|apply reap_placed]. revert Hr. unfold run.
        destruct (acquire_read_done load v read error (cache s)) as [o c1] eqn:E.
        assert (settled (Some (l_result (load_of (cache s) load))) (cache s) c1) as [Hs _].
        { eapply settles_read_done; [|done]. rewrite (load_heap objects _ _ (iv_cache _ _ _ Hinv) Hp). by eexists. }
        destruct o as [[]|]; intros [= <- <-]; done.
      * intros id [Hres _] [= <-]. destruct (ai_pending _ (ci_arena _ _ (iv_cache _ _ _ Hinv)) _ _ Hp) as (_ & _ & _ & _ & _ & _ & Hphase).
        unfold phase_ok in Hphase. rewrite Hph in Hphase. unfold resident_id in Hres. destruct Hphase. congruence.
    + destruct (run tid _ s) as [s1 r1] eqn:Hr. intros [= <- <-]. exists None. split; [|done].
      transitivity (cache s1); [|apply reap_placed]. eapply run_settled; [apply settles_copied|done].
    + case_bool_decide; [|done]. destruct (run tid _ s) as [s1 r1] eqn:Hr. intros [= <- <-]. exists None. split; [|done].
      transitivity (cache s1); [|apply reap_placed]. eapply run_settled; [apply settles_coalesced|done].
    + intros [= Hr]. exists None. split; [|done]. eapply run_settled; [apply settles_loop|done].
  - destruct (threads s !! tid) as [[]|]; try done. intros [= <- <-]. exists None. split; [|done]. by apply settled_heap.
  - destruct (try_acquire value (cache s)) as [o c] eqn:E. apply (settles_try_acquire None) in E as [Hp _].
    intros [= Hr]. exists None. split; [|done]. destruct o as [[]|]; by simplify_eq.
  - destruct (leases s !! i); [|done]. intros [= <- <-]. exists None. split; [|done]. by apply settled_heap.
  - destruct (erase k (cache s)) as [o c] eqn:E. apply (settles_erase None) in E as [Hp _].
    intros [= <- <-]. by exists None.
  - destruct (clear (cache s)) as [o c] eqn:E. apply (settles_clear None) in E as [Hp _].
    intros [= <- <-]. by exists None.
Qed.

(** ** A small system *)

(** Two 64-byte expert components, the first in two extents, in a file of 200
    bytes; an arena of 128 bytes and a staging area of 64. *)
Definition demo_descriptor (l : Z) (extents : list source_extent) : descriptor :=
  mk_descriptor (mk_spec (mk_key l 0 gate) 0 1 0 1 1 1 [64; 0; 0; 0] [1; 0; 0; 0] (mk_identity 1 1) extents) 64.

Definition demo_a : dptr := mk_dptr 1
  (demo_descriptor 1 [mk_extent 0 (mk_identity 5 6) 100 40; mk_extent 0 (mk_identity 5 6) 10 24]).
Definition demo_b : dptr := mk_dptr 2 (demo_descriptor 2 [mk_extent 0 (mk_identity 5 6) 64 64]).
Definition demo_objects (p : positive) : descriptor :=
  match p with 1%positive => dp_desc demo_a | _ => dp_desc demo_b end.

Definition demo_items : list (option (Z * source)) :=
  [Some (0, mk_source (mk_identity 5 6) pread (Z.of_nat <$> seq 0 200))].
Definition demo_cache (frequency : bool) : ram_cache :=
  mk_cache (mk_config 128 64 frequency) {[0 := mk_source (mk_identity 5 6) pread (Z.of_nat <$> seq 0 200)]}
    ∅ ∅ [] zero_retention ∅ (fun _ => 0) (fun _ => 0) zero_stats ∅ ∅ ∅.

Lemma demo_start frequency : reachable demo_objects (start (demo_cache frequency)).
Proof.
  apply (reach_start _ (mk_config 128 64 frequency) demo_items (own_arena true)); vm_compute; by try split.
Qed.

Lemma demo_typed l extents :
  Forall (fun e => u64 (ext_offset e) /\ u64 (ext_length e)) extents -> spec_typed (d_spec (demo_descriptor l extents)).
Proof.
  intros He. split; simpl; unfold u32, u64, UINT32_MAX, UINT64_MAX in *; try lia.
  - intros i. do 4 (destruct i as [|i]; [simpl; lia|]). rewrite list_lookup_total_alt. simpl. vm_compute. split; discriminate.
  - intros i. do 4 (destruct i as [|i]; [simpl; lia|]). rewrite list_lookup_total_alt. simpl. vm_compute. split; discriminate.
  - done.
Qed.

Lemma demo_valid : valid_ptr demo_objects demo_a /\ valid_ptr demo_objects demo_b.
Proof.
  split.
  - split_and!; [done| |exists {[0 := 200]}; vm_compute; reflexivity].
    apply demo_typed. repeat constructor; vm_compute; discriminate.
  - split_and!; [done| |exists {[0 := 200]}; vm_compute; reflexivity].
    apply demo_typed. repeat constructor; vm_compute; discriminate.
Qed.

(** Thread 1 fills component a while thread 2 waits for staging space; thread 3
    coalesces with thread 1. *)
Definition demo_run : list action :=
  [Acquire 1 (Some demo_a); Acquire 2 (Some demo_b); Acquire 3 (Some demo_a); Read 1 None; Read 1 None; Read 1 None;
   Resume 1; Copy 1; Resume 1].

Definition state_after (l : list action) (frequency : bool) : sys :=
  match exec_all l (start (demo_cache frequency)) with Some (s, _) => s | None => start (demo_cache frequency) end.

Lemma demo_reachable l frequency :
  Forall (plain demo_objects) l -> reachable demo_objects (state_after l frequency).
Proof.
  intros Hl. unfold state_after. destruct (exec_all l _) as [[s rs]|] eqn:E; [|apply demo_start].
  eapply plain_run; [apply demo_start|done|done].
Qed.

Lemma demo_plain : Forall (plain demo_objects) demo_run.
Proof. destruct demo_valid. unfold demo_run. repeat (apply Forall_cons; split; [done|]). constructor. Qed.

(** ** Leases *)

(** The bytes a lease reads: [data()] and [size()] of its entry. *)
Definition leased_bytes (s : sys) (id : positive) : option (list Z) :=
  match e_data (entry_of (cache s) id) with
  | Some offset => Some (mem_read (resident_arena (cache s)) offset (Z.to_nat (bytes_of (cache s) id)))
  | None => None
  end.

Lemma live_bytes objects s id :
  inv objects s -> live_id (cache s) id -> leased_bytes s id = Some (payload (sources (cache s)) (desc_of (cache s) id)).
Proof.
  intros Hinv Hlive. unfold leased_bytes.
  destruct (ai_placed _ (ci_arena _ _ (iv_cache _ _ _ Hinv)) _ (proj1 Hlive)) as [_ ->].
  f_equal. by apply (iv_mem _ _ _ Hinv).
Qed.

(** C1: Every reply of the cache is sound while its callers keep to [allowed]
    (descriptors come from [descriptor::make], a failing read throws a
    [std::runtime_error], and with frequency retention [clear] is not called
    while an [acquire] waits for staging space): a lease that [acquire], a
    resumed [acquire] or [try_acquire] hands out is on the entry published under
    the key asked for, the entry is ready and its descriptor is exactly the one
    asked for, and the bytes behind it are the descriptor's extents read from
    the registered sources, in order; and no call fails with one of the cache's
    internal consistency errors.  (Without the condition on [clear] the last
    part is false: [clear_race_breaks_a_key].) *)
Theorem acquire_refines_read objects a s s' r :
  reachable objects s -> allowed objects a s -> exec a s = Some (s', r) ->
  match r with
  | Got id => exists v, wanted a s = Some v /\ id ∈ leases s' /\
      entries (cache s') !! dp_key v = Some id /\ e_ready (entry_of (cache s') id) = true /\
      desc_of (cache s') id = v /\
      leased_bytes s' id = Some (payload (sources (cache s)) v)
  | Threw e => internal_error e = false
  | Nothing | Parked | Answer _ => True
  end.
Proof.
  intros Hs Ha He. pose proof (reachable_inv _ _ Hs) as Hinv.
  destruct (exec_inv objects a s s' r Hinv Ha He) as [Hinv' Hr].
  destruct (exec_placed objects a s s' r Hinv He) as (_ & (Hsrc & _) & _).
  destruct r; try done. destruct Hr as (Hlive & Hw & Hin). eexists. split_and!; [done|done|apply Hlive|apply Hlive|done|].
  rewrite <- Hsrc. by eapply live_bytes.
Qed.

Lemma acquire_refines_read_witness :
  exists s', exec (Resume 1) (state_after (take 8 demo_run) false) = Some (s', Got 1) /\
    entries (cache s') !! dp_key demo_a = Some 1%positive /\ desc_of (cache s') 1 = demo_a /\
    leased_bytes s' 1 = Some ((Z.of_nat <$> seq 100 40) ++ (Z.of_nat <$> seq 10 24)).
Proof.
  destruct (exec (Resume 1) (state_after (take 8 demo_run) false)) as [[s' r]|] eqn:E; [|by vm_compute in E].
  assert (Hr : r = Got 1) by (vm_compute in E; congruence). subst r. exists s'. split; [done|].
  destruct (acquire_refines_read demo_objects (Resume 1) (state_after (take 8 demo_run) false) s' (Got 1))
    as (v & Hv & _ & Hk & _ & Hd & ->); [|done|done|].
  - apply demo_reachable, Forall_take, demo_plain.
  - assert (Hva : wanted (Resume 1) (state_after (take 8 demo_run) false) = Some demo_a) by (vm_compute; reflexivity).
    rewrite Hva in Hv. injection Hv as <-. split; [exact Hk|]. split; [exact Hd|]. vm_compute. reflexivity.
Defined.

(** C2: While a lease is held its bytes neither move nor change: in every state
    that callers who keep to [allowed] can reach (descriptors from [make], read
    faults of type [std::runtime_error], with frequency retention no [clear]
    while an [acquire] waits for staging space) and across any such
    step of any thread (evictions, publications and copies of other fills,
    erasures, releases of other leases) a leased entry keeps its descriptor, its address
    in the arena and its contents. *)
Theorem lease_stable objects a s s' r id :
  reachable objects s -> allowed objects a s -> exec a s = Some (s', r) -> id ∈ leases s -> id ∈ leases s' ->
  desc_of (cache s') id = desc_of (cache s) id /\
  e_data (entry_of (cache s') id) = e_data (entry_of (cache s) id) /\
  leased_bytes s' id = leased_bytes s id.
Proof.
  intros Hs Ha He Hin Hin'. pose proof (reachable_inv _ _ Hs) as Hinv.
  destruct (exec_inv objects a s s' r Hinv Ha He) as [Hinv' _].
  destruct (exec_placed objects a s s' r Hinv He) as (x & (Hsrc & _ & Hpl) & Hx).
  pose proof (pi_leased _ _ (iv_pins _ _ _ Hinv) id Hin) as Hlive.
  pose proof (pi_leased _ _ (iv_pins _ _ _ Hinv') id Hin') as Hlive'.
  destruct (ai_entries _ (ci_arena _ _ (iv_cache _ _ _ Hinv)) _ _ (proj1 Hlive)) as [_ [e Hid]].
  destruct (Hpl id e Hid) as (e' & He' & Hd & Hda). destruct Hda as [Hda _]; [intros Heq; by apply (Hx id Hlive)|].
  assert (Hdesc : desc_of (cache s') id = desc_of (cache s) id)
    by (unfold desc_of; by rewrite (entry_of_lookup _ _ _ Hid), (entry_of_lookup _ _ _ He')).
  split_and!; [done| |].
  - by rewrite (entry_of_lookup _ _ _ Hid), (entry_of_lookup _ _ _ He').
  - rewrite (live_bytes objects s id), (live_bytes objects s' id) by done. by rewrite Hsrc, Hdesc.
Qed.

Lemma lease_stable_witness :
  exists s', exec (Resume 2) (state_after demo_run false) = Some (s', Parked) /\
    leased_bytes s' 1 = leased_bytes (state_after demo_run false) 1.
Proof.
  destruct (exec (Resume 2) (state_after demo_run false)) as [[s' r]|] eqn:E; [|by vm_compute in E].
  assert (Hr : r = Parked) by (vm_compute in E; congruence). subst r. exists s'. split; [done|].
  eapply (lease_stable demo_objects (Resume 2) (state_after demo_run false) s' Parked 1); [|done|done| |].
  - apply demo_reachable, demo_plain.
  - vm_compute. left.
  - assert (Hl : leases s' = [1%positive]) by (vm_compute in E; injection E as <-; reflexivity). rewrite Hl. left.
Defined.

(** ** Bounds *)

Lemma resident_packed objects c : cache_inv objects c -> 0 <= resident_bytes (cstats c) <= capacity_bytes (config c).
Proof.
  intros Hi. pose proof (ci_arena _ _ Hi) as Ha. destruct (ci_config _ _ Hi) as [Hs _].
  assert (Hpl : forall k id, entries c !! k = Some id ->
    resident_id c id /\ in_arena c (e_offset (entry_of c id)) (bytes_of c id)).
  { intros k id Hid. pose proof (resident_lookup _ Ha _ _ Hid) as Hr. by destruct (ai_placed _ Ha _ Hr). }
  rewrite (ac_resident _ (ci_account _ _ Hi)). split.
  { apply msum_nonneg. intros k id Hid. destruct (Hpl k id Hid) as [_ (_ & _ & ? & _)]. case_match; lia. }
  transitivity (msum (fun _ id => (e_span c id).2 - (e_span c id).1) (entries c)).
  - apply msum_le. intros k id Hid. destruct (Hpl k id Hid) as [_ (_ & _ & ? & _)]. simpl. case_match; lia.
  - apply msum_packed; [lia| |].
    + intros k id Hid. destruct (Hpl k id Hid) as [_ (? & _ & ? & ?)]. simpl. lia.
    + intros k k' id id' Hid Hid' Hne. apply (ai_apart _ Ha); [by eapply Hpl|by eapply Hpl|]. intros ->.
      apply (ai_entries _ Ha) in Hid as [? _], Hid' as [? _]. congruence.
Qed.

Lemma staging_packed objects c : cache_inv objects c -> 0 <= staging_used_bytes (cstats c) <= staging_bytes (config c).
Proof.
  intros Hi. pose proof (ci_arena _ _ Hi) as Ha. destruct (ci_config _ _ Hi) as [Hs _].
  rewrite (ac_staging _ (ci_account _ _ Hi)). split.
  { apply msum_nonneg. intros k load (_ & _ & _ & (_ & _ & ? & _) & _)%(ai_pending _ Ha). lia. }
  rewrite (msum_ext _ (fun _ load => (s_span c load).2 - (s_span c load).1)) by (intros; simpl; lia).
  apply msum_packed; [lia| |].
  - intros k load (_ & _ & _ & (_ & _ & ? & _) & ? & ? & _)%(ai_pending _ Ha). simpl. lia.
  - intros k k' load load' H1 H2 Hne. pose proof (proj1 (ai_pending _ Ha _ _ H1)) as K1.
    pose proof (proj1 (ai_pending _ Ha _ _ H2)) as K2.
    apply (ai_fills _ Ha); unfold pending_id; [congruence|congruence|]. intros ->. congruence.
Qed.

(** C3: The arena never overcommits: in every state that callers who keep to
    [allowed] can reach (descriptors from [make], read faults of type
    [std::runtime_error], with frequency retention no [clear] while an [acquire]
    waits for staging space) the resident bytes
    stay within the configured capacity and the bytes being staged within the
    staging area, the resident entries occupy aligned pairwise disjoint ranges
    of the arena, and the destination of a fill in flight overlaps neither
    another fill nor any resident entry it has not reserved for eviction. *)
Theorem arena_never_overcommits objects s :
  reachable objects s ->
  let c := cache s in
  0 <= resident_bytes (cstats c) <= capacity_bytes (config c) /\
  0 <= staging_used_bytes (cstats c) <= staging_bytes (config c) /\
  (forall k id, entries c !! k = Some id -> in_arena c (e_offset (entry_of c id)) (bytes_of c id)) /\
  (forall k k' id id', entries c !! k = Some id -> entries c !! k' = Some id' -> k <> k' ->
    idisj (e_span c id) (e_span c id')) /\
  (forall k k' load load', pending c !! k = Some load -> pending c !! k' = Some load' -> k <> k' ->
    idisj (l_span c load) (l_span c load')) /\
  (forall k k' load id, pending c !! k = Some load -> entries c !! k' = Some id -> k <> k' ->
    id ∉ l_victims (load_of c load) -> idisj (l_span c load) (e_span c id)).
Proof.
  intros Hs c. pose proof (iv_cache _ _ _ (reachable_inv _ _ Hs)) as Hi. pose proof (ci_arena _ _ Hi) as Ha. fold c in Hi, Ha.
  assert (Hpend : forall k load, pending c !! k = Some load -> pending_id c load /\ key_of c (l_result (load_of c load)) = k).
  { intros k load H. unfold pending_id. by destruct (ai_pending _ Ha _ _ H) as [<- _]. }
  split_and!; [apply (resident_packed objects c Hi)..|apply (staging_packed objects c Hi)|apply (staging_packed objects c Hi)| | | |].
  - intros k id Hid. by apply (ai_placed _ Ha), (resident_lookup _ Ha k).
  - intros k k' id id' H1 H2 Hne. apply (ai_apart _ Ha); [by eapply resident_lookup..|]. intros ->.
    apply (ai_entries _ Ha) in H1 as [? _], H2 as [? _]. congruence.
  - intros k k' load load' [H1 K1]%Hpend [H2 K2]%Hpend Hne. apply (ai_fills _ Ha); try done. intros ->. congruence.
  - intros k k' load id H1 H2 Hne Hv. destruct (Hpend _ _ H1) as [Hp Hk].
    pose proof (resident_lookup _ Ha _ _ H2) as Hres. pose proof (ai_pending _ Ha _ _ H1) as (_ & _ & _ & _ & _ & _ & Hph).
    unfold phase_ok in Hph. destruct (l_phase (load_of c load)) eqn:E; try done.
    + by apply (ai_fill_resident _ Ha).
    + destruct Hph as (He & _ & Ho). unfold l_span. rewrite <- Ho. apply (ai_apart _ Ha); [exact He|done|].
      intros <-. apply (ai_entries _ Ha) in H2 as [? _]. congruence.
Qed.

Lemma arena_never_overcommits_witness :
  let c := cache (state_after (take 3 demo_run) true) in
  staging_used_bytes (cstats c) = 64 /\ 0 <= staging_used_bytes (cstats c) <= staging_bytes (config c).
Proof.
  split; [vm_compute; reflexivity|].
  apply (arena_never_overcommits demo_objects (state_after (take 3 demo_run) true)).
  apply demo_reachable, Forall_take, demo_plain.
Defined.

(** ** No leaks *)

Lemma lease_count_total leased (ids : list positive) :
  NoDup ids -> (forall id, id ∈ leased -> id ∈ ids) ->
  zsum ((fun id => lease_count leased id) <$> ids) = Z.of_nat (length leased).
Proof.
  intros Hnd. induction leased as [|x leased IH]; intros Hin.
  - assert (Hz : forall l, zsum ((fun id => lease_count [] id) <$> l) = 0)
      by (induction l; [done|by rewrite fmap_cons]). apply Hz.
  - assert (Hone : forall l : list positive, NoDup l ->
      zsum ((fun id => lease_count (x :: leased) id) <$> l) =
      zsum ((fun id => lease_count leased id) <$> l) + if decide (x ∈ l) then 1 else 0).
    { induction 1 as [|y l Hy Hl IHl]; [done|]. rewrite !fmap_cons. cbn [zsum foldr]. fold (zsum ((fun id => lease_count (x :: leased) id) <$> l)).
      fold (zsum ((fun id => lease_count leased id) <$> l)). rewrite IHl, lease_count_cons.
      destruct (decide (y = x)) as [->|Hne].
      - rewrite decide_False by done. rewrite (decide_True (P := x ∈ x :: l)) by left. lia.
      - destruct (decide (x ∈ l)).
        + rewrite (decide_True (P := x ∈ y :: l)) by by right. lia.
        + rewrite (decide_False (P := x ∈ y :: l)) by by intros [?|?]%elem_of_cons. lia. }
    rewrite Hone, decide_True, IH by (set_solver || done). simpl. lia.
Qed.

Lemma idle_loads objects s : inv objects s -> threads s = ∅ -> pending (cache s) = ∅ /\ l_heap (cache s) = ∅.
Proof.
  intros Hinv Ht.
  assert (Hp : pending (cache s) = ∅).
  { apply map_empty. intros k. destruct (pending (cache s) !! k) as [load|] eqn:E; [|done].
    destruct (ti_served _ _ (iv_threads _ _ _ Hinv) _ _ E) as (tid & p & H & _). by rewrite Ht in H. }
  split; [done|]. apply map_empty. intros load. destruct (l_heap (cache s) !! load) as [l|] eqn:E; [|done].
  destruct (iv_held _ _ _ Hinv load) as [[k Hk]|(tid & p & H & _)]; [done|by eexists| |by rewrite Ht in H].
  by rewrite Hp in Hk.
Qed.

(** C4: When no call is in progress nothing has leaked, as long as callers have
    kept to [allowed] (descriptors from [make], read faults of type
    [std::runtime_error], with frequency retention no [clear] while an [acquire]
    waited for staging space): no fill is registered, no
    staging or arena reservation is left, the number of active leases that
    [stats] reports is exactly the number of leases the callers hold, and once
    they have released them all, [clear] succeeds and empties the cache. *)
Theorem idle_cache_has_no_leaks objects s :
  reachable objects s -> threads s = ∅ ->
  pending (cache s) = ∅ /\ l_heap (cache s) = ∅ /\
  active_loads (cstats (cache s)) = 0 /\ reserved_bytes (cstats (cache s)) = 0 /\
  staging_used_bytes (cstats (cache s)) = 0 /\
  snd (stats (cache s)) = Z.of_nat (length (leases s)) /\
  (leases s = [] -> exists s', exec Clear s = Some (s', Nothing) /\
     entries (cache s') = ∅ /\ by_offset (cache s') = [] /\ resident_bytes (cstats (cache s')) = 0).
Proof.
  intros Hs Ht. pose proof (reachable_inv _ _ Hs) as Hinv. destruct (idle_loads _ _ Hinv Ht) as [Hp Hl].
  destruct (iv_pins _ _ _ Hinv) as [P1 _ P3]. pose proof (iv_cache _ _ _ Hinv) as Hi.
  destruct (ci_account _ _ Hi) as [_ A2 A3 A4].
  assert (Hpins : forall id, pins_of (cache s) id = lease_count (leases s) id).
  { intros id. rewrite P3. unfold completion_pins. rewrite Hl, msum_empty. lia. }
  rewrite Hp, ?msum_empty in A2, A3. rewrite Hp, map_size_empty in A4. split_and!; try done.
  - unfold stats. simpl. pose proof (ci_arena _ _ Hi) as Ha.
    transitivity (zsum ((fun id => lease_count (leases s) id) <$> (map_to_list (entries (cache s))).*2)).
    { f_equal. rewrite <- list_fmap_compose. apply list_fmap_ext. intros i [k id] _. simpl. apply Hpins. }
    apply lease_count_total.
    + rewrite (entries_perm _ Ha). by apply NoDup_by_offset.
    + intros id Hid%P1. apply list_elem_of_fmap. exists (key_of (cache s) id, id). split; [done|].
      apply elem_of_map_to_list. by destruct Hid.
  - intros Hle. simpl. destruct (clear_run (cache s)) as [(-> & _)|[m Hc]].
    + eexists. split; [reflexivity|done].
    + exfalso. revert Hc. unfold clear. unfold mbind, M_bind, get. rewrite Hp. rewrite bool_decide_eq_true_2 by done. simpl.
      destruct (existsb _ _) eqn:E; [|done]. apply existsb_exists in E as ([k id] & _ & E). simpl in E.
      rewrite Hpins, Hle in E. done.
Qed.

Lemma idle_cache_has_no_leaks_witness :
  let s := state_after (take 1 demo_run ++ [Read 1 None; Read 1 None; Read 1 None; Resume 1; Copy 1; Resume 1; TryAcquire (Some demo_a)]) true in
  length (leases s) = 2%nat /\ snd (stats (cache s)) = 2.
Proof.
  split; [vm_compute; reflexivity|].
  destruct (idle_cache_has_no_leaks demo_objects (state_after (take 1 demo_run ++
      [Read 1 None; Read 1 None; Read 1 None; Resume 1; Copy 1; Resume 1; TryAcquire (Some demo_a)]) true))
    as (_ & _ & _ & _ & _ & H & _); [|vm_compute; reflexivity|exact H].
  apply demo_reachable. destruct demo_valid. repeat (apply Forall_cons; split; [done|]). constructor.
Defined.

(** ** Progress *)

(** The next step of a thread that is inside [acquire]. *)
Definition own_step (tid : positive) (p : pc) : action :=
  match p with
  | Reading _ _ _ _ _ => Read tid None
  | Copying _ _ => Copy tid
  | ReadDone _ _ _ _ | Copied _ _ | Coalesced _ _ | StagingWait _ => Resume tid
  end.

(** Run one thread until its call returns. *)
Fixpoint drive (fuel : nat) (tid : positive) (s : sys) : option (sys * reply) :=
  match fuel with
  | O => None
  | S fuel =>
      match threads s !! tid with
      | None => None
      | Some p =>
          match exec (own_step tid p) s with
          | None => None
          | Some (s, r) =>
              match threads s !! tid with
              | None => Some (s, r)
              | Some _ => drive fuel tid s
              end
          end
      end
  end.

(** Steps a fill needs: a read per extent and one that finds no extent left, the
    publication, the copy and the completion. *)
Definition fill_steps (p : pc) : nat :=
  match p with
  | Reading _ _ rest _ _ => length rest + 4
  | ReadDone _ _ _ _ => 3
  | Copying _ _ => 2
  | Copied _ _ => 1
  | Coalesced _ _ | StagingWait _ => 0
  end.

Definition returned (r : reply) : Prop := match r with Got _ | Threw _ => True | _ => False end.

Lemma read_done_result load v read error c r c' :
  acquire_read_done load v read error c = (r, c') -> r = Ok (Suspended (Copying load v)) \/ exists e, r = Err e.
Proof.
  unfold acquire_read_done, catch. unfold mbind at 1, M_bind at 1, modify at 1.
  assert (Hh : forall e c1, (fail_load load e ;; @throw progress e) c1 = (r, c') -> exists e, r = Err e).
  { intros e c1. unfold mbind, M_bind. destruct (fail_load load e c1) as [[]]; intros [= <- _]; by eexists. }
  destruct error as [e|]; [intros H; right; exact (Hh _ _ H)|].
  unfold mbind, M_bind. destruct (publish load v _) as [[]]; intros H; [left; by injection H as <- _|right; exact (Hh _ _ H)].
Qed.

Lemma reap_threads load s : threads (reap load s) = threads s.
Proof. unfold reap. by destruct (owned s load). Qed.

Lemma fill_step objects s tid p :
  inv objects s -> threads s !! tid = Some p -> filler p ->
  exists s1 r, exec (own_step tid p) s = Some (s1, r) /\ allowed objects (own_step tid p) s /\
    ((exists p1, threads s1 = <[tid := p1]> (threads s) /\ filler p1 /\ (fill_steps p1 < fill_steps p)%nat) \/
     (threads s1 = delete tid (threads s) /\ returned r /\ (1 <= fill_steps p)%nat)).
Proof.
  intros Hinv Ht Hf. destruct p as [load v rest dst rd|load v rd error|load v|load v|load v|v]; try done; simpl; rewrite Ht.
  - eexists _, _. split; [reflexivity|]. split; [done|]. left. unfold read_step. destruct rest as [|e rest].
    + eexists. split; [done|]. split; [done|simpl; lia].
    + destruct (sources _ !! _) as [input|]; [|eexists; split; [done|]; split; [done|simpl; lia]].
      destruct (read_source _ _ _ _) as [[] ?]; eexists; (split; [done|]; split; [done|simpl; lia]).
  - destruct (run tid _ s) as [s1 r1] eqn:Hr. eexists _, _. split; [done|]. split; [done|]. rewrite reap_threads.
    unfold run in Hr. destruct (acquire_read_done load v rd error (cache s)) as [o c] eqn:E.
    destruct (read_done_result _ _ _ _ _ _ _ E) as [->|[e ->]]; injection Hr as <- <-.
    + left. eexists. split; [done|]. split; [done|simpl; lia].
    + right. simpl. auto.
  - eexists _, _. split; [reflexivity|]. split; [done|]. left. eexists. split; [done|]. split; [done|simpl; lia].
  - destruct (run tid _ s) as [s1 r1] eqn:Hr. eexists _, _. split; [done|]. split; [done|]. rewrite reap_threads.
    destruct (copied_step _ s tid load v Hinv Ht _ _ Hr) as (_ & id & -> & _). right.
    unfold run in Hr. destruct (acquire_copied load v (cache s)) as [[[]|] c]; simplify_eq/=. auto.
Qed.

Lemma drive_fill objects fuel s tid p :
  reachable objects s -> threads s !! tid = Some p -> filler p -> (fill_steps p <= fuel)%nat ->
  exists s' r, drive fuel tid s = Some (s', r) /\ returned r /\ reachable objects s' /\ threads s' = delete tid (threads s).
Proof.
  revert s p. induction fuel as [|fuel IH]; intros s p Hs Ht Hf Hle.
  { destruct (fill_step objects s tid p (reachable_inv _ _ Hs) Ht Hf) as (s1 & r & _ & _ & [(? & _ & _ & ?)|(_ & _ & ?)]); lia. }
  destruct (fill_step objects s tid p (reachable_inv _ _ Hs) Ht Hf) as (s1 & r & He & Ha & Hnext).
  assert (Hs1 : reachable objects s1) by by eapply reach_step. simpl. rewrite Ht, He.
  destruct Hnext as [(p1 & Hth & Hf1 & Hlt)|(Hth & Hr & _)].
  - rewrite Hth, lookup_insert_eq. destruct (IH s1 p1) as (s' & r' & Hd & Hr' & Hreach & Hth'); [done|by rewrite Hth, lookup_insert_eq|done|lia|].
    exists s', r'. split_and!; try done. rewrite Hth', Hth. by rewrite delete_insert_eq.
  - rewrite Hth, lookup_delete_eq. eexists _, _. by split_and!.
Qed.

(** C5: A fill always terminates: whatever the other threads have done so far
    within [allowed] (descriptors from [make], read faults of type
    [std::runtime_error], with frequency retention no [clear] while an [acquire]
    waits for staging space), a
    thread that is reading, publishing or copying a component needs at most one
    step per remaining extent and four more to return to its caller with a
    lease or an exception, and it never has to wait for another thread. *)
Theorem fill_terminates objects s tid p :
  reachable objects s -> threads s !! tid = Some p -> filler p ->
  exists s' r, drive (fill_steps p) tid s = Some (s', r) /\ returned r /\ threads s' = delete tid (threads s).
Proof.
  intros Hs Ht Hf. destruct (drive_fill objects (fill_steps p) s tid p) as (s' & r & ? & ? & _ & ?); eauto.
Qed.

Lemma fill_terminates_witness :
  exists s' r, drive 6 1 (state_after (take 3 demo_run) true) = Some (s', r) /\ returned r /\
    threads s' = delete 1%positive (threads (state_after (take 3 demo_run) true)).
Proof.
  apply (fill_terminates demo_objects (state_after (take 3 demo_run) true) 1
    (Reading 1 demo_a (d_extents (dp_desc demo_a)) 0 [0; 0; 0])); [|vm_compute; reflexivity|done].
  apply demo_reachable, Forall_take, demo_plain.
Defined.

(** C6: A coalesced [acquire] is never stranded: in every state that callers who
    keep to [allowed] can reach (descriptors from [make], read faults of type
    [std::runtime_error], with frequency retention no [clear] while an [acquire]
    waits for staging space), if the fill it waits for has not finished, some
    thread owns that fill, and running that thread alone brings the waiter to a
    state in which the predicate it waits on holds and it can return. *)
Theorem coalesced_acquire_is_served objects s tid load v :
  reachable objects s -> threads s !! tid = Some (Coalesced load v) ->
  is_Some (exec (Resume tid) s) \/
  exists tid' p' s' r, threads s !! tid' = Some p' /\ fills p' load /\
    drive (fill_steps p') tid' s = Some (s', r) /\ is_Some (exec (Resume tid) s').
Proof.
  intros Hs Ht. pose proof (reachable_inv _ _ Hs) as Hinv.
  assert (Hres : forall s, threads s !! tid = Some (Coalesced load v) ->
    l_phase (load_of (cache s) load) = ready \/ l_phase (load_of (cache s) load) = failed -> is_Some (exec (Resume tid) s)).
  { intros s1 H1 Hph. simpl. rewrite H1. rewrite bool_decide_eq_true_2 by done. destruct (run _ _ _). by eexists. }
  assert (Hopen : forall s, inv objects s -> threads s !! tid = Some (Coalesced load v) ->
    (l_phase (load_of (cache s) load) = ready \/ l_phase (load_of (cache s) load) = failed) \/
    exists tid' p', threads s !! tid' = Some p' /\ fills p' load).
  { intros s1 Hi1 H1. destruct (ti_ok _ _ (iv_threads _ _ _ Hi1) _ _ H1) as [[[l Hl] _] _].
    assert (Hlo : load_of (cache s1) load = l) by (unfold load_of; by apply lookup_total_correct). rewrite Hlo.
    destruct (l_phase l) eqn:E; [right|right|by left; left|by left; right].
    all: eapply (ti_served _ _ (iv_threads _ _ _ Hi1)), (li_active _ (ci_loads _ _ (iv_cache _ _ _ Hi1))); eauto. }
  destruct (Hopen s Hinv Ht) as [Hph|(tid' & p' & Ht' & Hf)]; [left; by apply Hres|right].
  destruct (drive_fill objects (fill_steps p') s tid' p') as (s' & r & Hd & _ & Hs' & Hth); [done|done|by apply Hf|done|].
  exists tid', p', s', r. split_and!; try done.
  assert (Hne : tid <> tid') by (intros ->; rewrite Ht in Ht'; simplify_eq; by destruct Hf).
  assert (Ht1 : threads s' !! tid = Some (Coalesced load v)) by (rewrite Hth, lookup_delete_ne; done).
  destruct (Hopen s' (reachable_inv _ _ Hs') Ht1) as [Hph|(tid2 & p2 & H2 & Hf2)]; [by apply Hres|]. exfalso.
  rewrite Hth, lookup_delete_Some in H2. destruct H2 as [Hne2 H2]. apply Hne2.
  by eapply (ti_unique _ _ (iv_threads _ _ _ Hinv)).
Qed.

Lemma coalesced_acquire_is_served_witness :
  exec (Resume 3) (state_after (take 3 demo_run) true) = None /\
  exists tid' p' s' r, threads (state_after (take 3 demo_run) true) !! tid' = Some p' /\ fills p' 1 /\
    drive (fill_steps p') tid' (state_after (take 3 demo_run) true) = Some (s', r) /\ is_Some (exec (Resume 3) s').
Proof.
  assert (Hn : exec (Resume 3) (state_after (take 3 demo_run) true) = None) by (vm_compute; reflexivity).
  split; [done|].
  destruct (coalesced_acquire_is_served demo_objects (state_after (take 3 demo_run) true) 3 1 demo_a) as [H|H];
    [|vm_compute; reflexivity| |done].
  - apply demo_reachable, Forall_take, demo_plain.
  - exfalso. revert H. rewrite Hn. apply is_Some_None.
Defined.

(** ** [clear] while an [acquire] waits for staging space *)

(** Thread 2 waits for staging space with its key already observed; the fill of
    thread 1 finishes and its lease is released; [clear] then forgets the
    observation, and thread 2 goes on; thread 4 asks for the same component
    again. *)
Definition race_run : list action :=
  [Acquire 1 (Some demo_a); Acquire 2 (Some demo_b); Read 1 None; Read 1 None; Read 1 None; Resume 1; Copy 1; Resume 1;
   Release 0; Clear; Resume 2; Read 2 None; Read 2 None; Resume 2; Copy 2; Resume 2;
   Acquire 4 (Some demo_b); Read 4 None; Read 4 None; Resume 4].

(** Why [allowed] restricts [clear].  In this run with frequency retention,
    [clear] succeeds while an [acquire] waits for staging space; the waiting call
    then loads its component, fails on the forgotten observation after
    publication and leaves an entry that is in the key index and the offset
    index but neither ready nor in the recency order, and the next [acquire] of
    that key fails with the duplicate-publication error. *)
Lemma clear_race_breaks_a_key :
  exists s rs id, exec_all race_run (start (demo_cache true)) = Some (s, rs) /\
    rs !! 9%nat = Some Nothing /\ rs !! 15%nat = Some (Threw map_at) /\
    rs !! 19%nat = Some (Threw (logic_error "expert RAM cache duplicate publication")) /\
    threads s = ∅ /\ leases s = [] /\
    entries (cache s) !! dp_key demo_b = Some id /\ e_ready (entry_of (cache s) id) = false /\
    by_offset (cache s) = [(0, id)] /\ by_recency (kept (cache s)) = [].
Proof.
  destruct (exec_all race_run (start (demo_cache true))) as [[s rs]|] eqn:E; [|by vm_compute in E].
  vm_compute in E. injection E as <- <-. eexists _, _, _. split; [reflexivity|]. by split_and!.
Qed.
