(* ===== verification/LoadQueue.v ===== *)
(** * The bounded load queue in front of the expert cache

    Models [load_queue] of [src/src/llama-expert-cache.{h,cpp}]: the fixed
    request slots, [try_submit], [next], the worker loop and [stop].  The queue
    is proved against an interface, [lease_source], that says what it needs from
    the cache; the end of the file shows that the cache system of
    [ExpertCacheSystem] provides it. *)

From S2P Require Import Prelude ExpertDescriptor ExpertRetention ExpertCache ExpertCacheSystem ExpertCacheInv ExpertCacheSteps ExpertCacheThreads ExpertCacheSafety ExpertCacheTheorems.

(** ** What the queue needs from a cache *)

(** [ls_desc c l] is the descriptor a lease is on; [ls_env] is what other callers
    may do to the cache meanwhile; [ls_acquire] is a complete blocking call. *)
Class lease_source (C L : Type) := {
  ls_ok : C -> Prop;
  ls_arg : dptr -> Prop;
  ls_desc : C -> L -> option dptr;
  ls_try : dptr -> C -> result exn (option L) * C;
  ls_env : C -> C -> Prop;
  ls_acquire : dptr -> C -> result exn L -> C -> Prop;
}.

(** The promises: leases keep their descriptor, and a lease that a call returns
    is on the descriptor it was asked for. *)
Class lease_source_laws (C L : Type) `{lease_source C L} := {
  ls_arg_bytes d : ls_arg d -> 0 <= dp_bytes d <= UINT64_MAX;
  ls_try_ok d c r c' : ls_ok c -> ls_arg d -> ls_try d c = (r, c') ->
    ls_ok c' /\ (forall l x, ls_desc c l = Some x -> ls_desc c' l = Some x) /\
    (forall l, r = Ok (Some l) -> ls_desc c' l = Some d);
  ls_env_ok c c' : ls_ok c -> ls_env c c' ->
    ls_ok c' /\ (forall l x, ls_desc c l = Some x -> ls_desc c' l = Some x);
  ls_acquire_ok d c r c' : ls_ok c -> ls_arg d -> ls_acquire d c r c' ->
    ls_ok c' /\ (forall l x, ls_desc c l = Some x -> ls_desc c' l = Some x) /\
    (forall l, r = Ok l -> ls_desc c' l = Some d);
}.

(** ** Data *)

Inductive slot_phase := s_free | s_queued | s_running | s_ready.

#[export] Instance slot_phase_eq_dec : EqDecision slot_phase.
Proof. solve_decision. Defined.

Record slot (L : Type) := mk_slot {
  s_state : slot_phase;
  s_id : Z;
  s_desc : option dptr;
  s_payload : option L;
  s_error : option exn;
}.
Arguments mk_slot {L}. Arguments s_state {L}. Arguments s_id {L}. Arguments s_desc {L}.
Arguments s_payload {L}. Arguments s_error {L}.

#[export] Instance eta_slot L : Settable (slot L) := fun s =>
  mk_slot (s_state s) (s_id s) (s_desc s) (s_payload s) (s_error s).

Record queue_stats := mk_queue_stats {
  submitted : Z;
  ready_hits : Z;
  outstanding : Z;
  outstanding_bytes : Z;
  peak_outstanding_bytes : Z;
  byte_limit : Z;
}.

#[export] Instance eta_queue_stats : Settable queue_stats := fun s =>
  mk_queue_stats (submitted s) (ready_hits s) (outstanding s) (outstanding_bytes s) (peak_outstanding_bytes s)
    (byte_limit s).

(** A worker thread waits for work, runs [acquire] for a slot, or has returned. *)
Inductive worker_state := w_waiting | w_running (i : nat) | w_exited.

#[export] Instance worker_state_eq_dec : EqDecision worker_state.
Proof. solve_decision. Defined.

Record load_queue (L : Type) := mk_queue {
  slots : list (slot L);
  workers : list worker_state;
  qstats : queue_stats;
  stopping : bool;
}.
Arguments mk_queue {L}. Arguments slots {L}. Arguments workers {L}. Arguments qstats {L}. Arguments stopping {L}.

#[export] Instance eta_queue L : Settable (load_queue L) := fun q =>
  mk_queue (slots q) (workers q) (qstats q) (stopping q).

Record completion (L : Type) := mk_completion { c_id : Z; c_payload : option L; c_error : option exn }.
Arguments mk_completion {L}. Arguments c_id {L}. Arguments c_payload {L}. Arguments c_error {L}.

(** ** Operations *)

Section queue.
Context {C L : Type} `{lease_source C L}.

Definition slot_bytes (s : slot L) : Z := match s_desc s with Some d => dp_bytes d | None => 0 end.

Definition empty_slot : slot L := mk_slot s_free 0 None None None.

(** The constructor: bounded by [limit], the cache's staging capacity. *)
Definition make_queue (limit worker_count requests bytes : Z) : result exn (load_queue L) :=
  if (worker_count =? 0) || (worker_count >? 8) || (requests <? worker_count) || (requests >? 64)
     || (bytes =? 0) || (bytes >? limit)
  then Err (invalid_argument "expert load queue exceeds worker, request, or staging bounds")
  else Ok (mk_queue (replicate (Z.to_nat requests) empty_slot) (replicate (Z.to_nat worker_count) w_waiting)
             (mk_queue_stats 0 0 0 0 0 bytes) false).

(** The scan of [try_submit]: the first free slot, unless the ID is taken. *)
Fixpoint find_slot (id : Z) (l : list (slot L)) (i : nat) (available : option nat) : result exn (option nat) :=
  match l with
  | [] => Ok available
  | item :: l =>
      if bool_decide (s_state item = s_free)
      then find_slot id l (S i) (match available with None => Some i | Some _ => available end)
      else if s_id item =? id
           then Err (invalid_argument "expert load queue request ID is already outstanding")
           else find_slot id l (S i) available
  end.

(** The admitted slot: a hit or an error is ready at once. *)
Definition fill_slot (id : Z) (d : dptr) (r : result exn (option L)) (s : slot L) : slot L :=
  let s := s <| s_id := id |> <| s_desc := Some d |> in
  let s := match r with
           | Ok payload => s <| s_payload := payload |>
           | Err e => s <| s_error := Some e |>
           end in
  if bool_decide (is_Some (s_payload s)) || bool_decide (is_Some (s_error s))
  then s <| s_state := s_ready |> else s <| s_state := s_queued |>.

Definition try_submit (id : Z) (value : option dptr) (q : load_queue L) (c : C)
    : result exn bool * load_queue L * C :=
  match value with
  | None => (Err (invalid_argument "cannot submit a null expert descriptor"), q, c)
  | Some d =>
      match find_slot id (slots q) 0 None with
      | Err e => (Err e, q, c)
      | Ok available =>
          match available with
          | None => (Ok false, q, c)
          | Some i =>
              if stopping q || (dp_bytes d >? wrap64 (byte_limit (qstats q) - outstanding_bytes (qstats q)))
              then (Ok false, q, c)
              else
                let st := (qstats q) <| submitted ::= Z.succ |> <| outstanding ::= Z.succ |>
                                   <| outstanding_bytes ::= Z.add (dp_bytes d) |> in
                let st := st <| peak_outstanding_bytes := Z.max (peak_outstanding_bytes st) (outstanding_bytes st) |> in
                let '(r, c) := ls_try (L := L) d c in
                let hit := match r with Ok (Some _) => 1 | _ => 0 end in
                (Ok true, q <| slots ::= alter (fill_slot id d r) i |> <| qstats := st <| ready_hits ::= Z.add hit |> |>, c)
          end
      end
  end.

Definition first_in (p : slot_phase) (q : load_queue L) : option (nat * slot L) :=
  list_find (fun s => s_state s = p) (slots q).

(** The slot changes of [next] and of a worker. *)
Definition take_slot (s : slot L) : slot L :=
  s <| s_payload := None |> <| s_error := None |> <| s_desc := None |> <| s_state := s_free |>.
Definition run_slot (s : slot L) : slot L := s <| s_state := s_running |>.
Definition finish_slot (r : result exn L) (s : slot L) : slot L :=
  s <| s_payload := match r with Ok l => Some l | Err _ => None end |>
    <| s_error := match r with Ok _ => None | Err e => Some e end |> <| s_state := s_ready |>.

(** [next]: [None] while the call blocks. *)
Definition next (wait : bool) (q : load_queue L) : option (option (completion L) * load_queue L) :=
  match first_in s_ready q with
  | None => if wait && negb (outstanding (qstats q) =? 0) then None else Some (None, q)
  | Some (i, found) =>
      Some (Some (mk_completion (s_id found) (s_payload found) (s_error found)),
            q <| slots ::= alter take_slot i |>
              <| qstats ::= fun st => st <| outstanding ::= Z.pred |>
                                         <| outstanding_bytes ::= fun x => x - slot_bytes found |> |>)
  end.

(** A waiting worker wakes up: it returns, takes the first queued slot, or goes
    on waiting ([None]). *)
Definition worker_wake (w : nat) (q : load_queue L) : option (load_queue L) :=
  match workers q !! w with
  | Some w_waiting =>
      if stopping q then Some (q <| workers ::= <[w := w_exited]> |>)
      else match first_in s_queued q with
           | None => None
           | Some (i, _) =>
               Some (q <| slots ::= alter run_slot i |>
                       <| workers ::= <[w := w_running i]> |>)
           end
  | _ => None
  end.

(** The worker's [acquire] has returned [r]. *)
Definition worker_done (w : nat) (r : result exn L) (q : load_queue L) : option (load_queue L) :=
  match workers q !! w with
  | Some (w_running i) =>
      Some (q <| slots ::= alter (finish_slot r) i |>
              <| workers ::= <[w := w_waiting]> |>)
  | _ => None
  end.

(** [stop] raises the flag and then joins the workers. *)
Definition stop_request (q : load_queue L) : load_queue L := q <| stopping := true |>.
Definition joined (q : load_queue L) : bool := forallb (fun w => bool_decide (w = w_exited)) (workers q).

(** ** Steps of the queue, its workers and the rest of the program *)

(** What is seen at the two boundaries of the queue: a request is admitted, with
    the answer [a] of the cache to the [try_acquire] made for it; it is refused;
    the [acquire] that a worker makes for the request [id] returns [r]; a
    completion is handed out. *)
Inductive qevent :=
| Submitted (id : Z) (d : dptr) (a : result exn (option L))
| Refused (id : Z) (d : dptr)
| Loaded (id : Z) (d : dptr) (r : result exn L)
| Delivered (r : completion L)
| Internal.

Inductive qstep : load_queue L * C -> qevent -> load_queue L * C -> Prop :=
| q_submit id d b q c q' c' :
    ls_arg d -> try_submit id (Some d) q c = (Ok b, q', c') ->
    qstep (q, c) (if b then Submitted id d (ls_try d c).1 else Refused id d) (q', c')
| q_submit_error id value e q c q' c' :
    try_submit id value q c = (Err e, q', c') -> qstep (q, c) Internal (q', c')
| q_next wait q c r q' :
    next wait q = Some (r, q') ->
    qstep (q, c) (match r with Some r => Delivered r | None => Internal end) (q', c)
| q_wake w q c q' : worker_wake w q = Some q' -> qstep (q, c) Internal (q', c)
| q_done w i s d r q c q' c' :
    workers q !! w = Some (w_running i) -> slots q !! i = Some s -> s_desc s = Some d ->
    ls_acquire d c r c' -> worker_done w r q = Some q' -> qstep (q, c) (Loaded (s_id s) d r) (q', c')
| q_stop q c : qstep (q, c) Internal (stop_request q, c)
| q_env q c c' : ls_env c c' -> qstep (q, c) Internal (q, c').

Inductive qreach (limit : Z) : load_queue L * C -> list qevent -> Prop :=
| qreach_start worker_count requests bytes q c :
    u64 limit -> u64 worker_count -> u64 requests -> u64 bytes ->
    make_queue limit worker_count requests bytes = Ok q -> ls_ok c ->
    qreach limit (q, c) []
| qreach_step s e s' tr : qreach limit s tr -> qstep s e s' -> qreach limit s' (tr ++ [e]).

(** ** The specification: a finite map of requests, each with its outcome *)

Abbreviation requests := (gmap Z (dptr * option (result exn L))).

Definition spec_bytes (A : requests) : Z := msum (fun _ x => dp_bytes x.1) A.

Definition outcome_completion (id : Z) (r : result exn L) : completion L :=
  match r with Ok l => mk_completion id (Some l) None | Err e => mk_completion id None (Some e) end.

(** What a request knows of its outcome when it is admitted: a hit and an error
    are final, a miss leaves the load to a worker. *)
Definition early_outcome (a : result exn (option L)) : option (result exn L) :=
  match a with Ok (Some l) => Some (Ok l) | Ok None => None | Err e => Some (Err e) end.

(** A request is admitted under a fresh ID while the admitted bytes fit; it
    completes once, with the answer of the cache to its own load; a completed
    request is delivered with that answer and forgotten. *)
Inductive spec_step (limit : Z) : requests -> qevent -> requests -> Prop :=
| spec_submit A id d a :
    A !! id = None -> spec_bytes A + dp_bytes d <= limit ->
    spec_step limit A (Submitted id d a) (<[id := (d, early_outcome a)]> A)
| spec_refuse A id d : spec_step limit A (Refused id d) A
| spec_complete A id d r :
    A !! id = Some (d, None) -> spec_step limit A (Loaded id d r) (<[id := (d, Some r)]> A)
| spec_deliver A id d r :
    A !! id = Some (d, Some r) -> spec_step limit A (Delivered (outcome_completion id r)) (delete id A)
| spec_silent A : spec_step limit A Internal A.

(** ** The refinement relation *)

Definition slot_outcome (s : slot L) : option (result exn L) :=
  match s_state s, s_payload s, s_error s with
  | s_ready, Some l, _ => Some (Ok l)
  | s_ready, None, Some e => Some (Err e)
  | _, _, _ => None
  end.

(** The fields of a slot fit its phase. *)
Definition slot_ok (c : C) (s : slot L) : Prop :=
  match s_state s with
  | s_free => s_desc s = None /\ s_payload s = None /\ s_error s = None
  | s_queued | s_running => (exists d, s_desc s = Some d /\ ls_arg d) /\ s_payload s = None /\ s_error s = None
  | s_ready => exists d, s_desc s = Some d /\ ls_arg d /\
      ((exists l, s_payload s = Some l /\ s_error s = None /\ ls_desc c l = Some d) \/
       (s_payload s = None /\ is_Some (s_error s)))
  end.

Definition used (s : slot L) : Prop := s_state s <> s_free.

#[local] Instance used_dec s : Decision (used s).
Proof. unfold used. apply _. Defined.

(** The map lists the used slots. *)
Definition lists (l : list (slot L)) (A : requests) : Prop :=
  forall id d o, A !! id = Some (d, o) <->
    exists i s, l !! i = Some s /\ used s /\ s_id s = id /\ s_desc s = Some d /\ slot_outcome s = o.

Definition unique_ids (l : list (slot L)) : Prop :=
  forall i j s s', l !! i = Some s -> l !! j = Some s' -> used s -> used s' -> s_id s = s_id s' -> i = j.

Record represents (q : load_queue L) (c : C) (A : requests) : Prop := {
  rp_ok : ls_ok c;
  rp_slots : forall i s, slots q !! i = Some s -> slot_ok c s;
  rp_entry : lists (slots q) A;
  rp_unique : unique_ids (slots q);
  rp_count : outstanding (qstats q) = Z.of_nat (size A);
  rp_bytes : outstanding_bytes (qstats q) = spec_bytes A;
  rp_limit : spec_bytes A <= byte_limit (qstats q) <= UINT64_MAX;
  rp_running : forall w i, workers q !! w = Some (w_running i) -> exists s, slots q !! i = Some s /\ s_state s = s_running;
  rp_worker : forall i s, slots q !! i = Some s -> s_state s = s_running -> exists w, workers q !! w = Some (w_running i);
  rp_workers : forall w w' i, workers q !! w = Some (w_running i) -> workers q !! w' = Some (w_running i) -> w = w';
}.

(** ** Lemmas *)

Lemma find_slot_ok id l k available o :
  find_slot id l k available = Ok o ->
  (forall i s, l !! i = Some s -> used s -> s_id s <> id) /\
  match available with
  | Some _ => o = available
  | None => match o with
            | Some i => exists j s, i = (k + j)%nat /\ l !! j = Some s /\ s_state s = s_free
            | None => forall i s, l !! i = Some s -> used s
            end
  end.
Proof.
  revert k available. induction l as [|item l IH]; intros k available Ho; simpl in Ho.
  { injection Ho as <-. split; [done|]. by destruct available. }
  case_bool_decide as Hfree.
  - apply IH in Ho as [Hids Ho]. split.
    { intros [|i] s Hs Hu; simpl in Hs; [by injection Hs as <-|by eapply Hids]. }
    destruct available; [done|]. rewrite Ho. exists 0%nat, item. split; [lia|done].
  - destruct (Z.eqb_spec (s_id item) id) as [|Hne]; [done|]. apply IH in Ho as [Hids Ho]. split.
    { intros [|i] s Hs Hu; simpl in Hs; [by injection Hs as <-|by eapply Hids]. }
    destruct available; [done|]. destruct o as [i|].
    + destruct Ho as (j & s & -> & Hj & Hs). exists (S j), s. split; [lia|done].
    + intros [|i] s Hs; simpl in Hs; [by injection Hs as <-|by eapply Ho].
Qed.

Lemma lookup_alter_slot (f : slot L -> slot L) (l : list (slot L)) i s0 j s :
  l !! i = Some s0 -> alter f i l !! j = Some s <-> (j = i /\ s = f s0) \/ (j <> i /\ l !! j = Some s).
Proof.
  intros H0. destruct (decide (j = i)) as [->|Hne].
  - rewrite list_lookup_alter_eq, H0. simpl. split; [intros [= <-]; by left|]. by intros [[_ ->]|[? _]].
  - rewrite list_lookup_alter_ne by done. split; [by right|]. by intros [[? _]|[_ ?]].
Qed.

(** A slot changes: what happens to the map. *)
Section slot_change.
Context (l : list (slot L)) (A : requests) (i : nat) (s0 : slot L) (f : slot L -> slot L).
Context (Hl : lists l A) (Hu : unique_ids l) (Hi : l !! i = Some s0).
Context (Hdesc : forall j s, l !! j = Some s -> used s -> is_Some (s_desc s)).

Lemma used_listed j s : l !! j = Some s -> used s -> exists d, s_desc s = Some d /\ A !! s_id s = Some (d, slot_outcome s).
Proof. intros Hj Hs. destruct (Hdesc j s Hj Hs) as [d Hd]. exists d. split; [done|]. apply Hl. by exists j, s. Qed.

Lemma admit_slot d :
  s_state s0 = s_free -> used (f s0) -> s_desc (f s0) = Some d -> A !! s_id (f s0) = None ->
  lists (alter f i l) (<[s_id (f s0) := (d, slot_outcome (f s0))]> A) /\ unique_ids (alter f i l).
Proof.
  intros Hfree Hused Hd Hnew.
  assert (Hold : forall j s, l !! j = Some s -> used s -> s_id s <> s_id (f s0)).
  { intros j s Hj Hus Hid. destruct (used_listed j s Hj Hus) as (d' & _ & Ha). congruence. }
  assert (Hne : forall j s, l !! j = Some s -> used s -> j <> i) by (intros j s Hj Hus ->; simplify_eq; by apply Hus).
  split.
  - intros id d' o. setoid_rewrite (lookup_alter_slot f l i s0 _ _ Hi). rewrite lookup_insert. case_decide as Hid; subst.
    + split; [intros [= <- <-]; exists i, (f s0); by split_and!; [left|..]|].
      intros (j & s & [[-> ->]|[_ Hj]] & Hus & Hs & Hds & <-); [congruence|exfalso; by apply (Hold j s)].
    + rewrite (Hl id d' o). split.
      * intros (j & s & Hj & Hus & Hs & ?). exists j, s. split; [right; split; [by eapply Hne|done]|done].
      * intros (j & s & [[-> ->]|[_ Hj]] & Hus & Hs & ?); [done|]. by exists j, s.
  - intros j k s s'. rewrite !(lookup_alter_slot f l i s0 _ _ Hi).
    intros [[-> ->]|[Hj1 Hj]] [[-> ->]|[Hk1 Hk]] U1 U2 Hids; [done|exfalso; by apply (Hold k s')|exfalso; by apply (Hold j s)|by eapply Hu].
Qed.

Lemma change_slot :
  used s0 -> used (f s0) -> s_desc (f s0) = s_desc s0 -> s_id (f s0) = s_id s0 ->
  (forall d, s_desc s0 = Some d -> lists (alter f i l) (<[s_id s0 := (d, slot_outcome (f s0))]> A)) /\
  unique_ids (alter f i l).
Proof.
  intros Hus0 Hus1 Hd Hid. split.
  - intros d Hd0 id d' o. setoid_rewrite (lookup_alter_slot f l i s0 _ _ Hi). rewrite lookup_insert. case_decide as Hids; subst.
    + split; [intros [= <- <-]; exists i, (f s0); split_and!; [by left|done..|congruence|done]|].
      intros (j & s & [[-> ->]|[Hne Hj]] & Hus & Hs & Hds & <-); [congruence|]. exfalso. by apply Hne, (Hu j i s s0).
    + rewrite (Hl id d' o). split.
      * intros (j & s & Hj & Hus & Hs & ?). exists j, s. split; [|done]. right. split; [|done]. intros ->. congruence.
      * intros (j & s & [[-> ->]|[_ Hj]] & Hus & Hs & ?); [congruence|]. by exists j, s.
  - intros j k s s'. rewrite !(lookup_alter_slot f l i s0 _ _ Hi).
    intros [[-> ->]|[Hj1 Hj]] [[-> ->]|[Hk1 Hk]] U1 U2 Hids; [done| | |by eapply Hu].
    + exfalso. apply Hk1. eapply (Hu k i s' s0); try done. congruence.
    + exfalso. apply Hj1. eapply (Hu j i s s0); try done. congruence.
Qed.

Lemma free_slot :
  used s0 -> s_state (f s0) = s_free -> lists (alter f i l) (delete (s_id s0) A) /\ unique_ids (alter f i l).
Proof.
  intros Hus0 Hf. assert (Hnf : ~ used (f s0)) by (intros H0; by apply H0). split.
  - intros id d' o. setoid_rewrite (lookup_alter_slot f l i s0 _ _ Hi). rewrite lookup_delete_Some, (Hl id d' o). split.
    + intros [Hne (j & s & Hj & Hus & Hs & ?)]. exists j, s. split; [|done]. right. split; [|done]. intros ->. congruence.
    + intros (j & s & [[-> ->]|[Hne Hj]] & Hus & Hs & ?); [done|]. split; [|by exists j, s].
      intros Heq. apply Hne. eapply (Hu j i s s0); try done. congruence.
  - intros j k s s'. rewrite !(lookup_alter_slot f l i s0 _ _ Hi).
    intros [[-> ->]|[Hj1 Hj]] [[-> ->]|[Hk1 Hk]] U1 U2 Hids; [done..|by eapply Hu].
Qed.
End slot_change.

(** ** Every step of the queue is a step of the specification *)

Context `{!lease_source_laws C L}.

Lemma slot_ok_mono c c' s :
  (forall l x, ls_desc c l = Some x -> ls_desc c' l = Some x) -> slot_ok c s -> slot_ok c' s.
Proof.
  unfold slot_ok. intros Hm. destruct (s_state s); try done.
  intros (d & Hd & Ha & [(l & ? & ? & ?)|?]); exists d; split_and!; try done; [left; exists l; auto|by right].
Qed.

Lemma slot_used_desc c s : slot_ok c s -> used s -> is_Some (s_desc s).
Proof.
  unfold slot_ok, used. destruct (s_state s); try done; [intros [(d & -> & _) _]..|intros (d & -> & _)]; by eexists.
Qed.

Lemma spec_bytes_insert (A : requests) id d o :
  A !! id = None -> spec_bytes (<[id := (d, o)]> A) = dp_bytes d + spec_bytes A.
Proof. intros Hn. unfold spec_bytes. by rewrite msum_insert. Qed.

Lemma spec_bytes_update (A : requests) id d o o' :
  A !! id = Some (d, o) -> spec_bytes (<[id := (d, o')]> A) = spec_bytes A.
Proof.
  intros Hn. unfold spec_bytes. rewrite <- insert_delete_eq, msum_insert, (msum_delete _ _ _ _ Hn) by apply lookup_delete_eq.
  simpl. lia.
Qed.

Lemma spec_bytes_delete (A : requests) id d o :
  A !! id = Some (d, o) -> spec_bytes (delete id A) = spec_bytes A - dp_bytes d.
Proof. intros Hn. unfold spec_bytes. by rewrite (msum_delete _ _ _ _ Hn). Qed.

(** Sizes are those of made descriptors. *)
Definition sized (A : requests) : Prop := forall id x, A !! id = Some x -> 0 <= dp_bytes x.1.

Lemma spec_bytes_nonneg A : sized A -> 0 <= spec_bytes A.
Proof. intros Hs. by apply msum_nonneg. Qed.

(** The slot after [fill_slot]. *)
Lemma fill_slot_ok c id d r s :
  s_state s = s_free -> slot_ok c s -> ls_arg d -> (forall l, r = Ok (Some l) -> ls_desc c l = Some d) ->
  slot_ok c (fill_slot id d r s) /\ used (fill_slot id d r s) /\ s_state (fill_slot id d r s) <> s_running /\
  s_id (fill_slot id d r s) = id /\ s_desc (fill_slot id d r s) = Some d /\
  slot_outcome (fill_slot id d r s) = early_outcome r.
Proof.
  intros Hf Hok Ha Hr. unfold slot_ok in Hok. rewrite Hf in Hok. destruct Hok as (Hd & Hp & He).
  destruct s as [st i de pa er]; simpl in *; subst.
  destruct r as [[l|]|e]; unfold fill_slot, slot_ok, used, slot_outcome; simpl; rewrite ?bool_decide_true by eauto; simpl; split_and!; try done.
  - exists d. split_and!; try done. left. exists l. auto.
  - by exists d.
  - exists d. split_and!; try done. right. by split; [|eexists].
Qed.

Lemma submit_refines id d b q c q' c' A :
  represents q c A -> sized A -> ls_arg d ->
  try_submit id (Some d) q c = (Ok b, q', c') ->
  byte_limit (qstats q') = byte_limit (qstats q) /\
  exists A', spec_step (byte_limit (qstats q)) A (if b then Submitted id d (ls_try d c).1 else Refused id d) A' /\
    represents q' c' A' /\ sized A'.
Proof.
  intros Hrep Hsz Ha. pose proof (ls_arg_bytes d Ha) as Hb. unfold try_submit. destruct (find_slot id (slots q) 0 None) as [o|e] eqn:Hfind; [|done].
  apply find_slot_ok in Hfind as [Hids Ho]. destruct o as [i|]; [|intros [= <- <- <-]; split; [done|]; exists A; by split; [constructor|]].
  destruct Ho as (j & s0 & -> & Hj & Hfree). rewrite Nat.add_0_l.
  destruct (stopping q || _) eqn:Hguard; [intros [= <- <- <-]; split; [done|]; exists A; by split; [constructor|]|].
  apply orb_false_iff in Hguard as [_ Hfit]. rewrite Z.gtb_ltb, Z.ltb_ge in Hfit.
  destruct Hrep as [R1 R2 R3 R4 R5 R6 R7 R8 R9 R10].
  pose proof (spec_bytes_nonneg A Hsz) as Hpos.
  rewrite wrap64_small in Hfit by (unfold u64; lia). rewrite R6 in Hfit.
  destruct (ls_try d c) as [r c1] eqn:Htry. destruct (ls_try_ok d c r c1 R1 Ha Htry) as (Hok1 & Hm & Hdesc).
  intros [= <- <- <-]. split; [done|].
  destruct (fill_slot_ok c1 id d r s0 Hfree (slot_ok_mono _ _ _ Hm (R2 _ _ Hj)) Ha Hdesc) as (F1 & F2 & F3 & F4 & F5 & F6).
  set (f := fill_slot id d r) in *.
  assert (Hnew : A !! id = None).
  { destruct (A !! id) as [[d' o']|] eqn:E; [|done]. apply R3 in E as (k & s & Hk & Hu & Hid & _). by apply (Hids k s) in Hu. }
  destruct (admit_slot (slots q) A j s0 f R3 R4 Hj (fun k s Hk => slot_used_desc c s (R2 k s Hk)) d) as [L1 L2];
    [done|done|done|by rewrite F4|]. rewrite F4 in L1.
  exists (<[id := (d, slot_outcome (f s0))]> A). split_and!.
  - rewrite F6. constructor; [done|lia].
  - split; cbn [slots workers qstats outstanding outstanding_bytes byte_limit set_field]; simpl; try done.
    + intros k s. rewrite (lookup_alter_slot f _ _ _ _ _ Hj). intros [[-> ->]|[_ Hk]]; [done|]. eapply slot_ok_mono, R2; eauto.
    + rewrite map_size_insert_None by done. lia.
    + rewrite spec_bytes_insert by done. lia.
    + rewrite spec_bytes_insert by done. lia.
    + intros w k Hw. destruct (R8 w k Hw) as (s & Hk & Hs). exists s. split; [|done].
      rewrite (lookup_alter_slot f _ _ _ _ _ Hj). right. split; [|done]. intros ->. congruence.
    + intros k s. rewrite (lookup_alter_slot f _ _ _ _ _ Hj). intros [[-> ->]|[_ Hk]] Hs; [done|by eapply R9].
  - intros id' x. rewrite lookup_insert. case_decide; [intros [= <-]; simpl; lia|by apply Hsz].
Qed.

Lemma next_refines wait q c r q' A :
  represents q c A -> sized A -> next wait q = Some (r, q') ->
  byte_limit (qstats q') = byte_limit (qstats q) /\
  exists A', spec_step (byte_limit (qstats q)) A (match r with Some r => Delivered r | None => Internal end) A' /\
    represents q' c A' /\ sized A'.
Proof.
  intros Hrep Hsz. unfold next, first_in. destruct (list_find _ (slots q)) as [[i s0]|] eqn:Hf.
  2: { destruct (wait && _); [done|]. intros [= <- <-]. split; [done|]. exists A. by split; [constructor|]. }
  apply list_find_Some in Hf as (Hi & Hst & _). intros [= <- <-]. split; [done|].
  destruct Hrep as [R1 R2 R3 R4 R5 R6 R7 R8 R9 R10].
  set (f := take_slot).
  assert (Hu : used s0) by (unfold used; by rewrite Hst).
  destruct (free_slot (slots q) A i s0 f R3 R4 Hi Hu eq_refl) as [L1 L2].
  pose proof (R2 i s0 Hi) as Hok. unfold slot_ok in Hok. rewrite Hst in Hok. destruct Hok as (d & Hd & Ha & Hres).
  assert (Hin : A !! s_id s0 = Some (d, slot_outcome s0)) by (apply R3; by exists i, s0).
  assert (Hout : exists r, slot_outcome s0 = Some r /\
    mk_completion (s_id s0) (s_payload s0) (s_error s0) = outcome_completion (s_id s0) r).
  { unfold slot_outcome. rewrite Hst. destruct Hres as [(l & Hp & He & _)|(Hp & [e He])]; rewrite Hp, He.
    - by exists (Ok l).
    - by exists (Err e). }
  destruct Hout as (r & Hr & ->). rewrite Hr in Hin. exists (delete (s_id s0) A). split_and!.
  - by econstructor.
  - split; cbn [slots workers qstats]; simpl; try done.
    + intros k s. rewrite (lookup_alter_slot f _ _ _ _ _ Hi). intros [[-> ->]|[_ Hk]]; [done|by eapply R2].
    + rewrite map_size_delete_Some by (by eexists). rewrite R5.
      assert (size A <> 0%nat) by (apply map_size_ne_0_lookup; eexists; by rewrite Hin). lia.
    + unfold slot_bytes. rewrite Hd, (spec_bytes_delete _ _ _ _ Hin), R6. lia.
    + rewrite (spec_bytes_delete _ _ _ _ Hin). destruct (ls_arg_bytes d Ha). lia.
    + intros w k Hw. destruct (R8 w k Hw) as (s & Hk & Hs). exists s. split; [|done].
      rewrite (lookup_alter_slot f _ _ _ _ _ Hi). right. split; [|done]. intros ->. congruence.
    + intros k s. rewrite (lookup_alter_slot f _ _ _ _ _ Hi). intros [[-> ->]|[_ Hk]] Hs; [done|by eapply R9].
  - intros id' x. rewrite lookup_delete_Some. intros [_ Hx]. by eapply Hsz.
Qed.

Lemma wake_refines w q c q' A :
  represents q c A -> worker_wake w q = Some q' -> qstats q' = qstats q /\ represents q' c A.
Proof.
  intros Hrep. unfold worker_wake. destruct (workers q !! w) as [[|i|]|] eqn:Hw; try done.
  destruct Hrep as [R1 R2 R3 R4 R5 R6 R7 R8 R9 R10].
  assert (Hwl : (w < length (workers q))%nat) by by eapply lookup_lt_Some.
  destruct (stopping q).
  - intros [= <-]. split; [done|]. split; cbn [slots workers qstats]; simpl; try done.
    + intros v k. destruct (decide (v = w)) as [->|]; [by rewrite list_lookup_insert_eq|rewrite list_lookup_insert_ne by done]. apply R8.
    + intros k s Hk Hs. destruct (R9 k s Hk Hs) as (v & Hv). exists v. rewrite list_lookup_insert_ne; [done|]. intros ->. congruence.
    + intros v v' k. destruct (decide (v = w)) as [->|]; [by rewrite list_lookup_insert_eq|rewrite list_lookup_insert_ne by done].
      intros Hv. destruct (decide (v' = w)) as [->|]; [by rewrite list_lookup_insert_eq|rewrite list_lookup_insert_ne by done]. by apply R10.
  - unfold first_in. destruct (list_find _ (slots q)) as [[i s0]|] eqn:Hf; [|done]. intros [= <-]. split; [done|].
    apply list_find_Some in Hf as (Hi & Hst & _). set (f := run_slot).
    pose proof (R2 i s0 Hi) as Hok. assert (Hu : used s0) by (unfold used; by rewrite Hst).
    destruct (change_slot (slots q) A i s0 f R3 R4 Hi) as [L1 L2]; try done.
    pose proof Hok as Hok0. unfold slot_ok in Hok. rewrite Hst in Hok. destruct Hok as ((d & Hd & Ha) & Hp & He).
    assert (HA : <[s_id s0 := (d, slot_outcome (f s0))]> A = A).
    { apply insert_id. apply R3. exists i, s0. split_and!; try done. unfold slot_outcome. by rewrite Hst. }
    specialize (L1 d Hd). rewrite HA in L1.
    assert (Hnot : forall v, workers q !! v <> Some (w_running i)).
    { intros v Hv. destruct (R8 v i Hv) as (s & Hs & Hrun). congruence. }
    split; cbn [slots workers qstats]; simpl; try done.
    + intros k s. rewrite (lookup_alter_slot f _ _ _ _ _ Hi). intros [[-> ->]|[_ Hk]]; [|by eapply R2].
      unfold slot_ok. simpl. split_and!; try done. by exists d.
    + intros v k. destruct (decide (v = w)) as [->|].
      * rewrite list_lookup_insert_eq by done. intros [= <-]. exists (f s0). split; [|done].
        rewrite (lookup_alter_slot f _ _ _ _ _ Hi). by left.
      * rewrite list_lookup_insert_ne by done. intros Hv. destruct (R8 v k Hv) as (s & Hk & Hs). exists s. split; [|done].
        rewrite (lookup_alter_slot f _ _ _ _ _ Hi). right. split; [|done]. intros ->. congruence.
    + intros k s. rewrite (lookup_alter_slot f _ _ _ _ _ Hi). intros [[-> ->]|[Hne Hk]] Hs.
      * exists w. by rewrite list_lookup_insert_eq.
      * destruct (R9 k s Hk Hs) as (v & Hv). exists v. rewrite list_lookup_insert_ne; [done|]. intros ->. congruence.
    + intros v v' k. destruct (decide (v = w)) as [->|]; [rewrite list_lookup_insert_eq by done|rewrite list_lookup_insert_ne by done];
        (destruct (decide (v' = w)) as [->|]; [rewrite list_lookup_insert_eq by done|rewrite list_lookup_insert_ne by done]); try done.
      * intros [= <-] Hv. by apply Hnot in Hv.
      * intros Hv [= <-]. by apply Hnot in Hv.
      * apply R10.
Qed.

Lemma done_refines w i s0 d r q c q' c' A :
  represents q c A -> sized A ->
  workers q !! w = Some (w_running i) -> slots q !! i = Some s0 -> s_desc s0 = Some d ->
  ls_acquire d c r c' -> worker_done w r q = Some q' ->
  qstats q' = qstats q /\
  exists A', spec_step (byte_limit (qstats q)) A (Loaded (s_id s0) d r) A' /\ represents q' c' A' /\ sized A'.
Proof.
  intros Hrep Hsz Hw Hi Hd Hacq. unfold worker_done. rewrite Hw. intros [= <-]. split; [done|].
  destruct Hrep as [R1 R2 R3 R4 R5 R6 R7 R8 R9 R10].
  destruct (R8 w i Hw) as (s1 & Hs1 & Hst). rewrite Hi in Hs1. injection Hs1 as <-.
  pose proof (R2 i s0 Hi) as Hok. unfold slot_ok in Hok. rewrite Hst in Hok. destruct Hok as ((d' & Hd' & Ha) & _ & _).
  assert (d' = d) as -> by congruence.
  destruct (ls_acquire_ok d c r c' R1 Ha Hacq) as (Hok1 & Hm & Hdesc).
  set (f := finish_slot r).
  assert (Hu : used s0) by (unfold used; by rewrite Hst).
  destruct (change_slot (slots q) A i s0 f R3 R4 Hi) as [L1 L2]; try done. specialize (L1 d Hd).
  assert (Hin : A !! s_id s0 = Some (d, None)).
  { apply R3. exists i, s0. split_and!; try done. unfold slot_outcome. by rewrite Hst. }
  assert (Hwl : (w < length (workers q))%nat) by by eapply lookup_lt_Some.
  assert (Hout : slot_outcome (f s0) = Some r) by by destruct r.
  exists (<[s_id s0 := (d, slot_outcome (f s0))]> A). split_and!.
  - rewrite Hout. by econstructor.
  - split; cbn [slots workers qstats]; simpl; try done.
    + intros k s. rewrite (lookup_alter_slot f _ _ _ _ _ Hi). intros [[-> ->]|[_ Hk]]; [|eapply slot_ok_mono, R2; eauto].
      unfold slot_ok. simpl. exists d. split_and!; try done.
      destruct r as [l|e]; [left; exists l; auto|right; by split; [|eexists]].
    + rewrite map_size_insert_Some by by eexists. done.
    + by rewrite (spec_bytes_update _ _ _ _ _ Hin).
    + by rewrite (spec_bytes_update _ _ _ _ _ Hin).
    + intros v k. destruct (decide (v = w)) as [->|]; [by rewrite list_lookup_insert_eq|rewrite list_lookup_insert_ne by done].
      intros Hv. destruct (R8 v k Hv) as (s & Hk & Hs). exists s. split; [|done].
      rewrite (lookup_alter_slot f _ _ _ _ _ Hi). right. split; [|done]. intros ->. by apply n, (R10 v w i).
    + intros k s. rewrite (lookup_alter_slot f _ _ _ _ _ Hi). intros [[-> ->]|[Hne Hk]] Hs; [done|].
      destruct (R9 k s Hk Hs) as (v & Hv). exists v. rewrite list_lookup_insert_ne; [done|]. intros ->. congruence.
    + intros v v' k. destruct (decide (v = w)) as [->|]; [by rewrite list_lookup_insert_eq|rewrite list_lookup_insert_ne by done].
      intros Hv. destruct (decide (v' = w)) as [->|]; [by rewrite list_lookup_insert_eq|rewrite list_lookup_insert_ne by done]. by apply R10.
  - intros id' x. rewrite lookup_insert. case_decide; [|by apply Hsz]. intros [= <-]. simpl. by apply ls_arg_bytes.
Qed.

Lemma step_refines q c e q' c' A :
  represents q c A -> sized A -> qstep (q, c) e (q', c') ->
  byte_limit (qstats q') = byte_limit (qstats q) /\
  exists A', spec_step (byte_limit (qstats q)) A e A' /\ represents q' c' A' /\ sized A'.
Proof.
  intros Hrep Hsz Hs. inversion Hs; subst; clear Hs.
  - by eapply submit_refines.
  - assert (q' = q /\ c' = c) as [-> ->]; [|split; [done|]; exists A; by split; [constructor|]].
    unfold try_submit in *. destruct value as [d|]; [|by simplify_eq].
    destruct (find_slot id (slots q) 0 None) as [[i|]|]; [|by simplify_eq..].
    destruct (stopping q || _); [by simplify_eq|]. destruct (ls_try d c). by simplify_eq.
  - by eapply next_refines.
  - match goal with Hw : worker_wake _ _ = _ |- _ => destruct (wake_refines _ _ _ _ _ Hrep Hw) as [-> Hr] end.
    split; [done|]. exists A. by split; [constructor|].
  - match goal with Hw : workers _ !! _ = _, Hd : worker_done _ _ _ = _ |- _ =>
      eapply done_refines in Hd as [-> Hr]; eauto end.
  - split; [done|]. exists A. split; [constructor|]. split; [|done]. by destruct Hrep; split.
  - split; [done|]. exists A. split; [constructor|]. split; [|done]. destruct Hrep as [R1 R2 R3 R4 R5 R6 R7 R8 R9 R10].
    match goal with He : ls_env _ _ |- _ => destruct (ls_env_ok c c' R1 He) as [Hok Hm] end.
    split; try done. intros i s Hi. eapply slot_ok_mono, R2; eauto.
Qed.

Inductive spec_run (limit : Z) : list qevent -> requests -> Prop :=
| spec_run_nil : spec_run limit [] ∅
| spec_run_snoc tr e A A' : spec_run limit tr A -> spec_step limit A e A' -> spec_run limit (tr ++ [e]) A'.

Lemma make_queue_ok limit n m bytes q c :
  u64 limit -> u64 n -> u64 m -> u64 bytes -> make_queue limit n m bytes = Ok q -> ls_ok c ->
  represents q c ∅ /\ byte_limit (qstats q) <= limit /\ (length (slots q) <= 64)%nat /\
  workers q <> [] /\ Forall (fun w => w = w_waiting) (workers q) /\ stopping q = false.
Proof.
  unfold u64. intros Hl Hn Hm Hb. unfold make_queue. destruct (_ || _) eqn:E; [done|]. intros [= <-] Hc. bool_facts.
  assert (Hfree : forall i s, replicate (Z.to_nat m) empty_slot !! i = Some s -> s = empty_slot)
    by (intros i s Hi; by apply lookup_replicate_1 in Hi as [-> _]).
  assert (Hwait : forall w x, replicate (Z.to_nat n) w_waiting !! w = Some x -> x = w_waiting)
    by (intros w x Hx; by apply lookup_replicate_1 in Hx as [-> _]).
  split_and!; cbn [slots workers qstats byte_limit stopping].
  - split; cbn [slots workers qstats outstanding outstanding_bytes byte_limit]; try done.
    + intros i s Hi. by rewrite (Hfree i s Hi).
    + intros id d o. rewrite lookup_empty. split; [done|]. intros (i & s & Hi & Hu & _).
      rewrite (Hfree i s Hi) in Hu. by destruct Hu.
    + intros i j s s' Hi Hj Hu. rewrite (Hfree i s Hi) in Hu. by destruct Hu.
    + intros w i Hw. by apply Hwait in Hw.
    + intros i s Hi. by rewrite (Hfree i s Hi).
    + intros w w' i Hw. by apply Hwait in Hw.
  - done.
  - rewrite length_replicate. lia.
  - destruct (Z.to_nat n) eqn:En; [lia|done].
  - apply Forall_forall. intros w [i Hi]%list_elem_of_lookup. by eapply Hwait.
  - done.
Qed.

Lemma reach_refines limit s tr :
  qreach limit s tr ->
  exists A, spec_run (byte_limit (qstats s.1)) tr A /\ represents s.1 s.2 A /\ sized A /\ byte_limit (qstats s.1) <= limit.
Proof.
  induction 1 as [n m bytes q c Hl Hn Hm Hb Hmk Hc|[q c] e [q' c'] tr Hr IH Hs].
  - destruct (make_queue_ok _ _ _ _ _ _ Hl Hn Hm Hb Hmk Hc) as (Hrep & Hlim & _). exists ∅. split_and!; try done; constructor.
  - destruct IH as (A & Hrun & Hrep & Hsz & Hlim). simpl in *.
    destruct (step_refines _ _ _ _ _ _ Hrep Hsz Hs) as (Hbl & A' & Hstep & Hrep' & Hsz').
    rewrite Hbl. exists A'. split_and!; try done. by econstructor.
Qed.

(** A lease that waits in its slot is on the descriptor of the request. *)
Lemma waiting_lease q c A id d l : represents q c A -> A !! id = Some (d, Some (Ok l)) -> ls_desc c l = Some d.
Proof.
  intros Hrep Hid. apply (rp_entry _ _ _ Hrep) in Hid as (i & s & Hi & Hu & _ & Hd & Hout).
  pose proof (rp_slots _ _ _ Hrep i s Hi) as Hok. unfold slot_outcome in Hout. unfold slot_ok in Hok. destruct (s_state s); try done.
  destruct Hok as (d' & Hd' & _ & [(l' & Hl & _ & Hdesc)|[Hn [e He]]]); [rewrite Hl in Hout|rewrite Hn, He in Hout]; congruence.
Qed.

(** ** What a caller sees *)

(** What the events so far say of the requests: which are submitted and not yet
    delivered, for which descriptor, and what the cache has answered. *)
Definition after_event (id : Z) (acc : option (dptr * option (result exn L))) (e : qevent)
    : option (dptr * option (result exn L)) :=
  match e with
  | Submitted id' d a => if id' =? id then Some (d, early_outcome a) else acc
  | Loaded id' d r => if id' =? id then Some (d, Some r) else acc
  | Delivered r => if c_id r =? id then None else acc
  | Refused _ _ | Internal => acc
  end.

Definition open_request (id : Z) (tr : list qevent) : option (dptr * option (result exn L)) :=
  foldl (after_event id) None tr.

Lemma open_request_spec limit tr A id : spec_run limit tr A -> A !! id = open_request id tr.
Proof.
  induction 1 as [|tr e A A' Hrun IH Hs]; [done|]. unfold open_request in *. rewrite foldl_app. simpl. rewrite <- IH. clear IH.
  inversion Hs as [? id0 d a| |? id0 d r|? id0 d r|]; subst; unfold after_event; try done.
  1,2: rewrite lookup_insert; destruct (Z.eqb_spec id0 id); by case_decide.
  assert (c_id (outcome_completion id0 r) = id0) as -> by by destruct r.
  rewrite lookup_delete. destruct (Z.eqb_spec id0 id); by case_decide.
Qed.

Lemma spec_run_app limit tr tr' A :
  spec_run limit (tr ++ tr') A -> exists A0, spec_run limit tr A0.
Proof.
  revert A. induction tr' as [|e tr' IH] using rev_ind; intros A Hrun; [rewrite app_nil_r in Hrun; eauto|].
  rewrite app_assoc in Hrun. inversion Hrun as [Hnil|tr0 e0 A0 A1 Hr Hs Heq]; [by destruct (tr ++ tr')|].
  apply app_inj_tail in Heq as [-> _]. by eapply IH.
Qed.

(** A completion in a history of the specification carries the answer that the
    cache gave to the request of that ID before. *)
Lemma delivered_outcome limit tr r tr' A :
  spec_run limit (tr ++ Delivered r :: tr') A ->
  exists d o, open_request (c_id r) tr = Some (d, Some o) /\ r = outcome_completion (c_id r) o.
Proof.
  intros Hrun. rewrite cons_middle, app_assoc in Hrun. apply spec_run_app in Hrun as [A0 Hrun].
  inversion Hrun as [Hnil|tr0 e0 A1 A2 Hr Hs Heq]; [by destruct tr|].
  apply app_inj_tail in Heq as [-> ->]. inversion Hs as [| | |? id d o Hid|]; subst.
  assert (c_id (outcome_completion id o) = id) as -> by by destruct o.
  exists d, o. by rewrite <- (open_request_spec _ _ _ _ Hr).
Qed.

(** Workers return only after [stop], and slots are never added. *)
Lemma reach_alive limit s tr :
  qreach limit s tr ->
  workers s.1 <> [] /\ (stopping s.1 = false -> Forall (fun w => w <> w_exited) (workers s.1)) /\
  (length (slots s.1) <= 64)%nat.
Proof.
  induction 1 as [n m bytes q c Hl Hn Hm Hb Hmk Hc|[q c] e [q' c'] tr Hr IH Hs].
  - destruct (make_queue_ok _ _ _ _ _ _ Hl Hn Hm Hb Hmk Hc) as (_ & _ & Hlen & Hne & Hw & _). split_and!; try done.
    intros _. eapply Forall_impl; [exact Hw|]. by intros ? ->.
  - simpl in *. destruct IH as (Hne & Hex & Hlen).
    assert (Hins : forall w x, <[w := x]> (workers q) <> []).
    { intros w x Heq. apply Hne, length_zero_iff_nil. rewrite <- (length_insert (workers q) w x). by rewrite Heq. }
    inversion Hs; subst; clear Hs; simpl; try done.
    + unfold try_submit in *. destruct (find_slot _ _ _ _) as [[i|]|]; [|by simplify_eq..].
      destruct (stopping q || _); [by simplify_eq|]. destruct (ls_try d c). simplify_eq. simpl. by rewrite length_alter.
    + unfold try_submit in *. destruct value as [d|]; [|by simplify_eq].
      destruct (find_slot _ _ _ _) as [[i|]|]; [|by simplify_eq..].
      destruct (stopping q || _); [by simplify_eq|]. destruct (ls_try d c). simplify_eq.
    + unfold next in *. destruct (first_in s_ready q) as [[i s]|]; [simplify_eq; simpl; by rewrite length_alter|].
      destruct (wait && _); [done|]. by simplify_eq.
    + unfold worker_wake in *. destruct (workers q !! w) as [[]|]; try done. destruct (stopping q) eqn:Est.
      * simplify_eq. simpl. split_and!; try done. by rewrite Est.
      * destruct (first_in s_queued q) as [[i s]|]; [|done]. simplify_eq. simpl. rewrite length_alter. split_and!; try done.
        intros Hf. apply Forall_insert; [by apply Hex|done].
    + unfold worker_done in *. destruct (workers q !! w) as [[]|]; try done. simplify_eq. simpl. rewrite length_alter.
      split_and!; try done. intros Hf. apply Forall_insert; [by apply Hex|done].
Qed.

(** C10: The load queue refines its specification.  Whatever the callers, the
    workers and the other users of the cache do, the history of the queue is a
    history of the abstract request map: an ID is admitted only when it is not
    outstanding and its bytes fit beside the admitted ones; a request completes
    at most once, with what the cache answered to its own [try_acquire] or to
    the [acquire] a worker made for it; every completion handed out is that of
    a request that was submitted and not delivered before, and carries exactly
    that answer.  A lease that waits to be handed out is, in the cache as it is
    now, on the descriptor its request asked for.  The outstanding counters are exact, and the admitted bytes
    stay within the queue's byte limit, which the cache's staging capacity
    bounds.  (Of the cache the statement uses only the laws of
    [lease_source_laws].) *)
Theorem load_queue_refines limit q c tr :
  qreach limit (q, c) tr ->
  (exists A, spec_run (byte_limit (qstats q)) tr A /\
    outstanding (qstats q) = Z.of_nat (size A) /\
    outstanding_bytes (qstats q) = spec_bytes A /\ spec_bytes A <= byte_limit (qstats q) <= limit /\
    (forall id, A !! id = open_request id tr) /\
    (forall id d l, A !! id = Some (d, Some (Ok l)) -> ls_desc c l = Some d) /\
    (length (slots q) <= 64)%nat) /\
  (forall tr1 r tr2, tr = tr1 ++ Delivered r :: tr2 ->
    exists d o, open_request (c_id r) tr1 = Some (d, Some o) /\ r = outcome_completion (c_id r) o).
Proof.
  intros Hr. destruct (reach_refines _ _ _ Hr) as (A & Hrun & Hrep & Hsz & Hlim). split.
  - exists A. split_and!; try done; try apply Hrep.
    + intros id. by eapply open_request_spec.
    + intros id d l. by eapply waiting_lease.
    + by apply (reach_alive _ _ _ Hr).
  - intros tr1 r tr2 ->. by eapply delivered_outcome.
Qed.

(** A delivery answers its own request: the completion that [next] returns
    carries the ID of a request that was submitted and not delivered before,
    and what the cache answered to the load of that request: a lease, which is
    on exactly the descriptor submitted under that ID in the cache as it is
    now, or the error, never both and never neither. *)
Theorem load_queue_delivers limit q c tr wait r q' :
  qreach limit (q, c) tr -> next wait q = Some (Some r, q') ->
  exists d o, open_request (c_id r) tr = Some (d, Some o) /\
    match o with
    | Ok l => c_payload r = Some l /\ c_error r = None /\ ls_desc c l = Some d
    | Err e => c_payload r = None /\ c_error r = Some e
    end.
Proof.
  intros Hr Hn. destruct (reach_refines _ _ _ Hr) as (A & Hrun & Hrep & Hsz & Hlim). simpl in *.
  unfold next, first_in in Hn. destruct (list_find _ (slots q)) as [[i s]|] eqn:Hf; [|by destruct (wait && _)].
  injection Hn as <- _. apply list_find_Some in Hf as (Hi & Hst & _). simpl.
  pose proof (rp_slots _ _ _ Hrep i s Hi) as Hok. unfold slot_ok in Hok. rewrite Hst in Hok.
  destruct Hok as (d & Hd & _ & Hres).
  assert (Hopen : open_request (s_id s) tr = Some (d, slot_outcome s)).
  { rewrite <- (open_request_spec _ _ _ (s_id s) Hrun). apply (rp_entry _ _ _ Hrep). exists i, s.
    split_and!; try done. unfold used. by rewrite Hst. }
  rewrite Hopen. unfold slot_outcome. rewrite Hst.
  destruct Hres as [(l & -> & -> & ?)|[-> [e ->]]]; eexists _, _; by split.
Qed.

(** C11: The queue never stalls: while it is not being stopped, a caller blocked in
    [next] waits for a request that a worker is running or that a worker can
    take at once. *)
Theorem load_queue_progress limit q c tr :
  qreach limit (q, c) tr -> next true q = None -> stopping q = false ->
  (exists w i, workers q !! w = Some (w_running i)) \/ (exists w q', worker_wake w q = Some q' /\ first_in s_running q' <> None).
Proof.
  intros Hr Hn Hstop. destruct (reach_refines _ _ _ Hr) as (A & Hrun & Hrep & Hsz & Hlim).
  destruct (reach_alive _ _ _ Hr) as (Hne & Hex & _). simpl in *. specialize (Hex Hstop).
  unfold next in Hn. destruct (first_in s_ready q) as [[i s]|] eqn:Hready; [done|]. simpl in Hn.
  destruct (Z.eqb_spec (outstanding (qstats q)) 0) as [|Hout]; [done|]. rewrite (rp_count _ _ _ Hrep) in Hout.
  destruct (map_choose A) as (id & [d o] & Hid); [intros ->; by rewrite map_size_empty in Hout|].
  apply (rp_entry _ _ _ Hrep) in Hid as (i & s & Hi & Hu & _). destruct (s_state s) eqn:Hst.
  - by destruct Hu.
  - destruct (workers q) as [|w0 ws] eqn:Hws; [done|]. apply Forall_cons in Hex as [Hw0 _].
    destruct w0 as [|k|]; [|left; by exists 0%nat, k|done]. right.
    unfold worker_wake. destruct (first_in s_queued q) as [[j s']|] eqn:Hq.
    + exists 0%nat. eexists. rewrite Hws. simpl. rewrite Hstop. split; [done|]. unfold first_in in *. simpl.
      apply list_find_Some in Hq as (Hj & _). intros Hnone.
      apply list_find_None in Hnone. rewrite Forall_forall in Hnone. apply (Hnone (run_slot s')); [|done].
      apply list_elem_of_lookup. exists j. rewrite (lookup_alter_slot _ _ _ _ _ _ Hj). by left.
    + exfalso. apply list_find_None in Hq. rewrite Forall_forall in Hq. apply (Hq s); [by eapply list_elem_of_lookup_2|done].
  - left. destruct (rp_worker _ _ _ Hrep i s Hi Hst) as [w Hw]. eauto.
  - exfalso. unfold first_in in Hready. apply list_find_None in Hready. rewrite Forall_forall in Hready.
    apply (Hready s); [by eapply list_elem_of_lookup_2|done].
Qed.
End queue.

(** ** The expert cache provides the interface *)

Section cache_source.
Context (objects : positive -> descriptor).

Definition cache_env (s s' : sys) : Prop := exists a r, allowed objects a s /\ exec a s = Some (s', r).

#[export] Instance cache_lease_source : lease_source sys positive := {
  ls_ok := inv objects;
  ls_arg := valid_ptr objects;
  ls_desc s id := e_desc <$> e_heap (cache s) !! id;
  ls_try d s := match exec (TryAcquire (Some d)) s with
                | Some (s', Got id) => (Ok (Some id), s')
                | Some (s', Threw e) => (Err e, s')
                | Some (s', _) => (Ok None, s')
                | None => (Ok None, s)
                end;
  ls_env := rtc cache_env;
  ls_acquire d s r s' := exists s1 a reply, rtc cache_env s s1 /\ allowed objects a s1 /\
    exec a s1 = Some (s', reply) /\ wanted a s1 = Some d /\
    match r with Ok id => reply = Got id | Err e => reply = Threw e end;
}.

Lemma env_ok s s' :
  inv objects s -> cache_env s s' ->
  inv objects s' /\ forall id x, e_desc <$> e_heap (cache s) !! id = Some x -> e_desc <$> e_heap (cache s') !! id = Some x.
Proof.
  intros Hinv (a & r & Ha & He). destruct (exec_inv objects a s s' r Hinv Ha He) as [Hinv' _]. split; [done|].
  intros id x (e & Hid & ->)%fmap_Some.
  destruct (exec_placed objects a s s' r Hinv He) as (y & (_ & _ & Hpl) & _).
  destruct (Hpl id e Hid) as (e' & -> & Hd & _). simpl. by rewrite Hd.
Qed.

Lemma envs_ok s s' :
  inv objects s -> rtc cache_env s s' ->
  inv objects s' /\ forall id x, e_desc <$> e_heap (cache s) !! id = Some x -> e_desc <$> e_heap (cache s') !! id = Some x.
Proof.
  intros Hinv Hs. induction Hs as [|s s1 s' H1 Hs IH]; [done|]. destruct (env_ok s s1 Hinv H1) as [Hi1 Hm].
  destruct (IH Hi1) as [Hi2 Hm2]. split; [done|]. auto.
Qed.

Lemma granted_desc a s s' id :
  inv objects s -> allowed objects a s -> exec a s = Some (s', Got id) ->
  exists v, wanted a s = Some v /\ e_desc <$> e_heap (cache s') !! id = Some v.
Proof.
  intros Hinv Ha He. destruct (exec_inv objects a s s' _ Hinv Ha He) as [Hinv' (Hlive & Hw & _)].
  eexists. split; [done|]. destruct (ai_entries _ (ci_arena _ _ (iv_cache _ _ _ Hinv')) _ _ (proj1 Hlive)) as [_ [e Hid]].
  unfold desc_of. by rewrite Hid, (entry_of_lookup _ _ _ Hid).
Qed.

#[export] Instance cache_lease_source_laws : lease_source_laws sys positive.
Proof.
  split.
  - intros d Hd. destruct (valid_ptr_facts objects d Hd) as [Hpos _]. split; [lia|].
    destruct Hd as (_ & Ht & sizes & Hmk). apply make_iff_valid in Hmk as [Hv Hd]; [|done].
    unfold dp_bytes. rewrite Hd at 1. apply (vs_bytes _ _ Hv).
  - intros d s r s' Hinv Hd. cbn [ls_try cache_lease_source]. unfold ls_ok, ls_desc, ls_arg, cache_lease_source in *.
    destruct (exec (TryAcquire (Some d)) s) as [[s1 rep]|] eqn:E; [|intros [= <- <-]; by split_and!].
    assert (Hal : allowed objects (TryAcquire (Some d)) s) by by intros v [= <-].
    destruct (env_ok s s1 Hinv) as [Hi Hm]; [by eexists _, _|]. destruct rep; intros [= <- <-]; split_and!; try done.
    intros l [= <-]. destruct (granted_desc _ _ _ _ Hinv Hal E) as (v & [= <-] & Hv). done.
  - intros s s' Hinv Hs. by apply envs_ok.
  - intros d s r s' Hinv Hd (s1 & a & rep & Hs & Ha & He & Hw & Hr).
    destruct (envs_ok s s1 Hinv Hs) as [Hi1 Hm1]. destruct (env_ok s1 s' Hi1) as [Hi2 Hm2]; [by eexists _, _|].
    split_and!; [done|intros l x Hx; by apply Hm2, Hm1|].
    intros l ->. subst rep. destruct (granted_desc _ _ _ _ Hi1 Ha He) as (v & Hv & Hid). rewrite Hw in Hv. by injection Hv as ->.
Qed.

Lemma plain_envs l s s' rs :
  Forall (plain objects) l -> exec_all l s = Some (s', rs) -> rtc cache_env s s'.
Proof.
  intros Hl. revert s rs. induction Hl as [|a l Ha Hl IH]; intros s rs; simpl; [by intros [= <- <-]|].
  destruct (exec a s) as [[s1 r]|] eqn:He; [|done]. destruct (exec_all l s1) as [[s2 rs2]|] eqn:Hr; [|done].
  intros [= <- <-]. eapply rtc_l; [|by eapply IH]. exists a, r. split; [by apply plain_allowed|done].
Qed.
End cache_source.

(** ** A run of the queue over the small cache *)

#[local] Existing Instance cache_lease_source.

Definition demo_queue (slot0 : slot positive) (w : worker_state) (st : queue_stats) : load_queue positive :=
  mk_queue [slot0; empty_slot] [w] st false.

Definition demo_stats : queue_stats := mk_queue_stats 1 0 1 64 64 64.
Definition demo_slot (p : slot_phase) (payload : option positive) : slot positive :=
  mk_slot p 7 (Some demo_a) payload None.

Definition demo_leased : sys := state_after demo_run false.

Lemma demo_acquire :
  ls_acquire (lease_source := cache_lease_source demo_objects) demo_a (start (demo_cache false)) (Ok 1%positive) demo_leased.
Proof.
  exists (state_after (take 8 demo_run) false), (Resume 1), (Got 1). split_and!.
  - eapply (plain_envs demo_objects (take 8 demo_run)); [apply Forall_take, demo_plain|].
    instantiate (1 := match exec_all (take 8 demo_run) (start (demo_cache false)) with Some (_, rs) => rs | None => [] end).
    unfold state_after. destruct (exec_all (take 8 demo_run) (start (demo_cache false))) as [[s rs]|] eqn:E; [done|by vm_compute in E].
  - done.
  - vm_compute. reflexivity.
  - vm_compute. reflexivity.
  - done.
Qed.

Lemma demo_reach_queued :
  qreach (H := cache_lease_source demo_objects) 64
    (demo_queue (demo_slot s_queued None) w_waiting demo_stats, start (demo_cache false)) [Submitted 7 demo_a (Ok None)].
Proof.
  apply (qreach_step (H := cache_lease_source demo_objects) 64
    (demo_queue empty_slot w_waiting (mk_queue_stats 0 0 0 0 0 64), start (demo_cache false)) _ _ []).
  - apply (qreach_start (H := cache_lease_source demo_objects) 64 1 2 64); try (vm_compute; by try split).
    apply reachable_inv, demo_start.
  - apply (q_submit (H := cache_lease_source demo_objects) 7 demo_a true); [apply demo_valid|vm_compute; reflexivity].
Qed.

Lemma demo_reach_ready :
  qreach (H := cache_lease_source demo_objects) 64
    (demo_queue (demo_slot s_ready (Some 1%positive)) w_waiting demo_stats, demo_leased)
    [Submitted 7 demo_a (Ok None); Internal; Loaded 7 demo_a (Ok 1%positive)].
Proof.
  eapply (qreach_step (H := cache_lease_source demo_objects) 64 _ (Loaded 7 demo_a (Ok 1%positive)) _
    [Submitted 7 demo_a (Ok None); Internal]).
  - eapply (qreach_step (H := cache_lease_source demo_objects) 64 _ Internal _ [Submitted 7 demo_a (Ok None)]); [apply demo_reach_queued|].
    apply (q_wake (H := cache_lease_source demo_objects) 0). reflexivity.
  - eapply (q_done (H := cache_lease_source demo_objects) 0 0 (demo_slot s_running None) demo_a (Ok 1%positive));
      [reflexivity|reflexivity|reflexivity|apply demo_acquire|reflexivity].
Qed.

Definition demo_completion : completion positive := mk_completion 7 (Some 1%positive) None.

Lemma demo_reach_delivered : exists q,
  qreach (H := cache_lease_source demo_objects) 64 (q, demo_leased)
    ([Submitted 7 demo_a (Ok None); Internal; Loaded 7 demo_a (Ok 1%positive)] ++ [Delivered demo_completion]).
Proof.
  destruct (next true (demo_queue (demo_slot s_ready (Some 1%positive)) w_waiting demo_stats)) as [[r q]|] eqn:E;
    [|by vm_compute in E].
  exists q. eapply (qreach_step (H := cache_lease_source demo_objects) 64); [apply demo_reach_ready|].
  change (Delivered demo_completion) with (match Some demo_completion with Some r => Delivered r | None => Internal end).
  apply (q_next (H := cache_lease_source demo_objects) true). rewrite E. f_equal. f_equal. vm_compute in E. by injection E as <- <-.
Qed.

Lemma load_queue_refines_witness :
  exists d o, open_request (L := positive) 7
      [Submitted 7 demo_a (Ok None); Internal; Loaded 7 demo_a (Ok 1%positive)] = Some (d, Some o) /\
    demo_completion = outcome_completion 7 o.
Proof.
  destruct demo_reach_delivered as [q Hq].
  exact (proj2 (load_queue_refines (H := cache_lease_source demo_objects) 64 _ _ _ Hq) _ demo_completion [] eq_refl).
Defined.

Lemma load_queue_delivers_witness :
  exists d o, open_request (L := positive) 7
      [Submitted 7 demo_a (Ok None); Internal; Loaded 7 demo_a (Ok 1%positive)] = Some (d, Some o) /\
    match o with
    | Ok l => l = 1%positive /\ e_desc <$> e_heap (cache demo_leased) !! l = Some d
    | Err e => False
    end.
Proof.
  destruct (next true (demo_queue (demo_slot s_ready (Some 1%positive)) w_waiting demo_stats)) as [[[r|] q']|] eqn:E;
    [|by vm_compute in E..].
  pose proof (load_queue_delivers (H := cache_lease_source demo_objects) 64 _ _ _ true r q' demo_reach_ready E) as (d & o & Hd & Hp).
  exists d, o. vm_compute in E. injection E as <- <-. split; [exact Hd|]. destruct o as [l|e].
  - destruct Hp as ([= <-] & _ & Hp). split; [reflexivity|exact Hp].
  - destruct Hp as [[=] _].
Defined.

Lemma load_queue_progress_witness :
  exists w q', worker_wake w (demo_queue (demo_slot s_queued None) w_waiting demo_stats) = Some q' /\ first_in s_running q' <> None.
Proof.
  destruct (load_queue_progress (H := cache_lease_source demo_objects) 64 _ _ _ demo_reach_queued) as [(w & i & Hw)|Hp];
    [vm_compute; reflexivity|reflexivity| |exact Hp].
  exfalso. destruct w as [|w]; [|destruct w]; vm_compute in Hw; discriminate Hw.
Defined.
