(* ===== verification/ReadAhead.v ===== *)
(** * Bounded speculative read-ahead

    Models [read_ahead_queue] of [src/src/llama-expert-cache.{h,cpp}]: [advance],
    [submit], [stop] and the advice worker.  The worker gives the mutex up while
    it calls [ram_cache::advise_will_need], so its round is two steps ([pick] and
    [advised]); what the call answers is an argument of the second one. *)

From S2P Require Import Prelude ExpertDescriptor ExpertCache.

Record advice_stats := mk_advice_stats {
  a_submitted : Z;
  advised_bytes : Z;
  skipped : Z;
  expired : Z;
  rejected : Z;
  failed_advice : Z;
  a_outstanding_bytes : Z;
  a_peak_outstanding_bytes : Z;
}.

#[export] Instance eta_advice_stats : Settable advice_stats := fun s =>
  mk_advice_stats (a_submitted s) (advised_bytes s) (skipped s) (expired s) (rejected s) (failed_advice s)
    (a_outstanding_bytes s) (a_peak_outstanding_bytes s).

(** [in_flight] is the [value] of a worker inside its advice call. *)
Record read_ahead := mk_read_ahead {
  pass_byte_limit : Z;
  hints : list dptr;
  seen : gset expert_key;
  ra_owner : Z;
  ra_pass : Z;
  admitted_bytes : Z;
  ra_layer : Z;
  ra_stopping : bool;
  astats : advice_stats;
  in_flight : option dptr;
}.

#[export] Instance eta_read_ahead : Settable read_ahead := fun q =>
  mk_read_ahead (pass_byte_limit q) (hints q) (seen q) (ra_owner q) (ra_pass q) (admitted_bytes q) (ra_layer q)
    (ra_stopping q) (astats q) (in_flight q).

(** ** Operations *)

Definition make_read_ahead (limit : Z) : result exn read_ahead :=
  if (limit =? 0) || (limit >? Z.shiftl 1 30)
  then Err (invalid_argument "expert read-ahead pass budget must be in (0, 1 GiB]")
  else Ok (mk_read_ahead limit [] ∅ 0 0 0 0 false (mk_advice_stats 0 0 0 0 0 0 0 0) None).

(** A queued hint is dropped. *)
Definition expire (d : dptr) (st : advice_stats) : advice_stats :=
  st <| a_outstanding_bytes ::= fun x => x - dp_bytes d |> <| expired ::= Z.succ |>.

Definition stop_advice (q : read_ahead) : read_ahead :=
  let st := foldl (fun st d => expire d st) (astats q) (hints q) in
  q <| ra_stopping := true |> <| astats := st |> <| hints := [] |>.

(** The erasing loop of [advance]. *)
Fixpoint expire_hints (stale : dptr -> bool) (l : list dptr) (st : advice_stats) : list dptr * advice_stats :=
  match l with
  | [] => ([], st)
  | d :: l =>
      if stale d then expire_hints stale l (expire d st)
      else let '(l, st) := expire_hints stale l st in (d :: l, st)
  end.

Definition advance (owner pass layer_ : Z) (q : read_ahead) : read_ahead :=
  let new_pass := negb (owner =? ra_owner q) || negb (pass =? ra_pass q) in
  let '(l, st) := expire_hints (fun d => new_pass || (layer (dp_key d) <=? layer_)) (hints q) (astats q) in
  let q := q <| hints := l |> <| astats := st |> in
  let q := if new_pass then q <| seen := ∅ |> <| admitted_bytes := 0 |> else q in
  q <| ra_owner := owner |> <| ra_pass := pass |> <| ra_layer := layer_ |>.

Definition submit (value : option dptr) (q : read_ahead) : result exn bool * read_ahead :=
  match value with
  | None => (Err (invalid_argument "cannot queue null expert advice"), q)
  | Some d =>
      if ra_stopping q || (layer (dp_key d) <=? ra_layer q) || bool_decide (dp_key d ∈ seen q)
         || (Z.of_nat (length (hints q)) >=? 64) || (Z.of_nat (size (seen q)) >=? 4096)
         || (dp_bytes d >? wrap64 (pass_byte_limit q - admitted_bytes q))
      then (Ok false, q <| astats ::= fun st => st <| rejected ::= Z.succ |> |>)
      else
        let q := q <| seen ::= fun s => {[dp_key d]} ∪ s |> <| hints ::= fun l => l ++ [d] |>
                   <| admitted_bytes ::= Z.add (dp_bytes d) |>
                   <| astats ::= fun st => st <| a_outstanding_bytes ::= Z.add (dp_bytes d) |> |> in
        (Ok true, q <| astats ::= fun st =>
           st <| a_peak_outstanding_bytes := Z.max (a_peak_outstanding_bytes st) (a_outstanding_bytes st) |>
              <| a_submitted ::= Z.succ |> |>)
  end.

(** The worker takes the oldest hint, unless it must return, has nothing to do or
    yields to outstanding demand loads ([demand]). *)
Definition pick (demand : bool) (q : read_ahead) : option read_ahead :=
  match in_flight q, hints q with
  | None, d :: l => if ra_stopping q || demand then None else Some (q <| hints := l |> <| in_flight := Some d |>)
  | _, _ => None
  end.

(** [advise_will_need] has returned a byte count or thrown. *)
Definition advised (r : result exn Z) (q : read_ahead) : option read_ahead :=
  match in_flight q with
  | None => None
  | Some d =>
      let bytes := match r with Ok n => n | Err _ => 0 end in
      let failed := match r with Ok _ => false | Err _ => true end in
      Some (q <| in_flight := None |> <| astats ::= fun st =>
        st <| advised_bytes ::= Z.add bytes |> <| failed_advice ::= Z.add (Z.b2z failed) |>
           <| skipped ::= Z.add (Z.b2z ((bytes =? 0) && negb failed)) |>
           <| a_outstanding_bytes ::= fun x => x - dp_bytes d |> |>)
  end.

(** ** Steps *)

Inductive advice_event :=
| Advance (owner pass layer_ : Z)
| SubmitHint (d : dptr) (accepted : bool)
| Pick (d : dptr)
| OtherAdvice.

Inductive advice_step : read_ahead -> advice_event -> read_ahead -> Prop :=
| step_advance owner pass layer_ q : advice_step q (Advance owner pass layer_) (advance owner pass layer_ q)
| step_submit d q b q' : 0 <= dp_bytes d <= UINT64_MAX -> submit (Some d) q = (Ok b, q') -> advice_step q (SubmitHint d b) q'
| step_pick demand q q' d : pick demand q = Some q' -> in_flight q' = Some d -> advice_step q (Pick d) q'
| step_advised r q q' : advised r q = Some q' -> advice_step q OtherAdvice q'
| step_stop q : advice_step q OtherAdvice (stop_advice q).

Inductive advice_reach : read_ahead -> list advice_event -> Prop :=
| advice_start limit q : u64 limit -> make_read_ahead limit = Ok q -> advice_reach q []
| advice_next q e q' tr : advice_reach q tr -> advice_step q e q' -> advice_reach q' (tr ++ [e]).

(** The hints handed to the worker since the current pass began, according to the
    history alone. *)
Definition picked_step (acc : Z * Z * list dptr) (e : advice_event) : Z * Z * list dptr :=
  let '(owner, pass, picked) := acc in
  match e with
  | Advance owner' pass' _ =>
      (owner', pass', if (owner' =? owner) && (pass' =? pass) then picked else [])
  | Pick d => (owner, pass, picked ++ [d])
  | SubmitHint _ _ | OtherAdvice => acc
  end.

Definition picked (tr : list advice_event) : Z * Z * list dptr := foldl picked_step (0, 0, []) tr.

(** ** Invariant *)

Definition hint_bytes (l : list dptr) : Z := zsum (dp_bytes <$> l).

Record advice_inv (q : read_ahead) (owner pass : Z) (done : list dptr) : Prop := {
  av_pass : ra_owner q = owner /\ ra_pass q = pass;
  av_limit : 0 < pass_byte_limit q <= Z.shiftl 1 30;
  av_sizes : Forall (fun d => 0 <= dp_bytes d) (done ++ hints q);
  av_budget : hint_bytes (done ++ hints q) <= admitted_bytes q <= pass_byte_limit q;
  av_keys : NoDup (dp_key <$> done ++ hints q);
  av_seen : forall d, d ∈ done ++ hints q -> dp_key d ∈ seen q;
  av_count : (length (hints q) <= 64)%nat /\ (size (seen q) <= 4096)%nat;
  av_fresh : Forall (fun d => ra_layer q < layer (dp_key d)) (hints q);
  av_outstanding : a_outstanding_bytes (astats q) = hint_bytes (hints q) + match in_flight q with Some d => dp_bytes d | None => 0 end;
  av_stopped : ra_stopping q = true -> hints q = [];
}.

Lemma hint_bytes_cons d l : hint_bytes (d :: l) = dp_bytes d + hint_bytes l.
Proof. done. Qed.

(** Counters that differ by equal amounts. *)
Ltac same_stats := repeat match goal with st : advice_stats |- _ => destruct st end; cbn; f_equal; lia.

Lemma expire_hints_ok stale l st :
  expire_hints stale l st = (filter (fun d => stale d = false) l,
    st <| a_outstanding_bytes ::= fun x => x - (hint_bytes l - hint_bytes (filter (fun d => stale d = false) l)) |>
       <| expired ::= Z.add (Z.of_nat (length l) - Z.of_nat (length (filter (fun d => stale d = false) l))) |>).
Proof.
  revert st. induction l as [|d l IH]; intros st; cbn [expire_hints].
  - rewrite filter_nil. f_equal. same_stats.
  - rewrite filter_cons, hint_bytes_cons. cbn [length]. destruct (stale d) eqn:E.
    + rewrite decide_False by done. rewrite IH. f_equal. same_stats.
    + rewrite decide_True by done. rewrite IH, hint_bytes_cons. cbn [length]. f_equal. same_stats.
Qed.

Lemma foldl_expire l st :
  foldl (fun st d => expire d st) st l =
    st <| a_outstanding_bytes ::= fun x => x - hint_bytes l |> <| expired ::= Z.add (Z.of_nat (length l)) |>.
Proof.
  revert st. induction l as [|d l IH]; intros st; cbn [foldl]; [same_stats|].
  rewrite IH, hint_bytes_cons. cbn [length]. same_stats.
Qed.

Lemma hint_bytes_app l l' : hint_bytes (l ++ l') = hint_bytes l + hint_bytes l'.
Proof. unfold hint_bytes. by rewrite fmap_app, zsum_app. Qed.

Lemma hint_bytes_nonneg l : Forall (fun d => 0 <= dp_bytes d) l -> 0 <= hint_bytes l.
Proof. intros H. apply zsum_nonneg. by apply Forall_fmap. Qed.

Lemma hint_bytes_filter (P : dptr -> Prop) `{!forall d, Decision (P d)} l :
  Forall (fun d => 0 <= dp_bytes d) l -> hint_bytes (filter P l) <= hint_bytes l.
Proof.
  induction 1 as [|d l Hd Hl IH]; [done|]. rewrite filter_cons, hint_bytes_cons. case_decide; rewrite ?hint_bytes_cons; lia.
Qed.

(** ** Every step keeps it *)

Lemma advance_inv owner pass layer_ q o p done :
  advice_inv q o p done ->
  advice_inv (advance owner pass layer_ q) owner pass (if (owner =? o) && (pass =? p) then done else []).
Proof.
  intros [[Ho Hp] Hl Hs Hb Hk Hseen Hc Hf Hout Hst]. unfold advance. rewrite expire_hints_ok. rewrite Ho, Hp.
  rewrite <- negb_andb. set (same := (owner =? o) && (pass =? p)).
  set (keep := fun d : dptr => negb same || (layer (dp_key d) <=? layer_) = false).
  set (l := filter keep (hints q)). assert (Hsub : sublist l (hints q)) by apply sublist_filter.
  assert (Hfl : Forall (fun d => layer_ < layer (dp_key d)) l).
  { apply Forall_forall. intros d [Hd _]%list_elem_of_filter. unfold keep in Hd. bool_facts. lia. }
  assert (Hlen : (length l <= 64)%nat) by (apply sublist_length in Hsub; lia).
  apply Forall_app in Hs as [Hs1 Hs2]. pose proof (hint_bytes_nonneg _ Hs1). pose proof (hint_bytes_filter keep _ Hs2) as Hle. fold l in Hle.
  assert (Hs3 : Forall (fun d => 0 <= dp_bytes d) l) by (apply Forall_forall; intros d [_ Hd]%list_elem_of_filter; rewrite Forall_forall in Hs2; by apply Hs2).
  pose proof (hint_bytes_nonneg _ Hs3). rewrite hint_bytes_app in Hb.
  destruct same eqn:Esame; cbn [negb].
  - split; simpl; try done.
    + by apply Forall_app.
    + rewrite hint_bytes_app. lia.
    + rewrite fmap_app, NoDup_app in *. destruct Hk as (Hk1 & Hk2 & Hk3). split_and!; [done| |by apply NoDup_fmap_filter].
      intros k Hk (d & -> & [_ Hd]%list_elem_of_filter)%list_elem_of_fmap. apply (Hk2 _ Hk). by apply list_elem_of_fmap_2.
    + intros d [Hd|[_ Hd]%list_elem_of_filter]%elem_of_app; apply Hseen, elem_of_app; auto.
    + split; [done|apply Hc].
    + rewrite Hout. lia.
    + intros E. specialize (Hst E). unfold l. by rewrite Hst.
  - assert (Hnil : l = []).
    { unfold l. assert (Hnk : forall d, ~ keep d) by (intros d; by unfold keep).
      clear - Hnk. induction (hints q) as [|d l' IH]; [done|]. by rewrite filter_cons_False. }
    split; simpl; rewrite ?Hnil; try done.
    + unfold hint_bytes. cbn. lia.
    + constructor.
    + set_solver.
    + split; [cbn; lia|]. change (size (∅ : gset expert_key) <= 4096)%nat. rewrite size_empty. lia.
    + rewrite Hout. change (hint_bytes []) with 0. lia.
Qed.

Lemma submit_inv d q b q' o p done :
  0 <= dp_bytes d <= UINT64_MAX -> advice_inv q o p done -> submit (Some d) q = (Ok b, q') -> advice_inv q' o p done.
Proof.
  intros Hd [[Ho Hp] Hl Hs Hb Hk Hseen Hc Hf Hout Hst]. unfold submit.
  destruct (_ || _) eqn:E; intros [= <- <-]; [by split|]. bool_facts. rename select (bool_decide _ = false) into Hnew.
  apply bool_decide_eq_false in Hnew. pose proof (hint_bytes_nonneg _ Hs).
  assert (Hlim : Z.shiftl 1 30 <= UINT64_MAX) by (vm_compute; discriminate).
  assert (Hfit : dp_bytes d <= wrap64 (pass_byte_limit q - admitted_bytes q)) by lia.
  rewrite wrap64_small in Hfit by (unfold u64; lia).
  split; simpl; rewrite ?app_assoc; try done.
  - apply Forall_app. split; [done|]. constructor; [lia|done].
  - rewrite hint_bytes_app, hint_bytes_cons. change (hint_bytes []) with 0. lia.
  - rewrite fmap_app, NoDup_app. split_and!; [done| |apply NoDup_singleton].
    intros k (d' & -> & Hd')%list_elem_of_fmap Hin%list_elem_of_singleton. apply Hnew. rewrite <- Hin. by apply Hseen.
  - intros d' [Hd'| ->%list_elem_of_singleton]%elem_of_app; [|set_solver]. specialize (Hseen d' Hd'). set_solver.
  - rewrite length_app. cbn [length]. split; [lia|]. rewrite size_union by set_solver. rewrite size_singleton. lia.
  - apply Forall_app. split; [done|]. constructor; [lia|done].
  - rewrite Hout, hint_bytes_app, hint_bytes_cons. change (hint_bytes []) with 0. lia.
  - congruence.
Qed.

Lemma pick_inv demand q q' d o p done :
  advice_inv q o p done -> pick demand q = Some q' -> in_flight q' = Some d -> advice_inv q' o p (done ++ [d]).
Proof.
  intros [[Ho Hp] Hl Hs Hb Hk Hseen Hc Hf Hout Hst]. unfold pick. destruct (in_flight q) eqn:Efl; [done|].
  destruct (hints q) as [|d' l] eqn:El; [done|]. destruct (ra_stopping q || demand) eqn:E; [done|].
  intros [= <-]. simpl. intros [= ->]. apply orb_false_iff in E as [E _].
  apply Forall_cons in Hf as [_ Hf]. rewrite hint_bytes_cons in Hout.
  split; simpl; rewrite <- ?app_assoc; cbn [app]; try done.
  - cbn [length] in Hc. split; [lia|apply Hc].
  - lia.
  - congruence.
Qed.

Lemma step_inv q e q' tr :
  advice_step q e q' ->
  (let '(o, p, done) := picked tr in advice_inv q o p done) ->
  let '(o, p, done) := picked (tr ++ [e]) in advice_inv q' o p done.
Proof.
  unfold picked. rewrite foldl_app. cbn [foldl]. destruct (foldl picked_step (0, 0, []) tr) as [[o p] done].
  intros Hs Hi. destruct Hs as [owner pass layer_ q|d q b q' Hd Hsub|demand q q' d Hp Hfl|r q q' Ha|q]; cbn [picked_step].
  - by apply advance_inv.
  - by eapply submit_inv.
  - by eapply pick_inv.
  - unfold advised in Ha. destruct (in_flight q) as [d|] eqn:E; [|done]. injection Ha as <-.
    destruct Hi as [H1 H2 H3 H4 H5 H6 H7 H8 H9 H10]. split; simpl; try done. rewrite H9, E. lia.
  - destruct Hi as [H1 H2 H3 H4 H5 H6 H7 H8 H9 H10]. unfold stop_advice. rewrite foldl_expire. cbv zeta.
    apply Forall_app in H3 as [H3 H3']. pose proof (hint_bytes_nonneg _ H3'). rewrite hint_bytes_app in H4.
    split; simpl; rewrite ?app_nil_r; try done.
    + lia.
    + rewrite fmap_app, NoDup_app in H5. by destruct H5.
    + intros d Hd. apply H6, elem_of_app. by left.
    + split; [lia|apply H7].
    + rewrite H9. change (hint_bytes []) with 0. lia.
Qed.

Lemma reach_advice_inv q tr : advice_reach q tr -> let '(o, p, done) := picked tr in advice_inv q o p done.
Proof.
  induction 1 as [limit q Hl Hmk|q e q' tr _ IH Hs]; [|by eapply step_inv].
  unfold make_read_ahead in Hmk. destruct (_ || _) eqn:E; [done|]. injection Hmk as <-. bool_facts. unfold u64 in Hl.
  unfold picked. cbn [foldl]. split; simpl; try done.
  - lia.
  - change (hint_bytes []) with 0. lia.
  - constructor.
  - set_solver.
  - split; [lia|]. change (size (∅ : gset expert_key) <= 4096)%nat. rewrite size_empty. lia.
Qed.

(** ** Guarantees *)

(** Read-ahead is bounded per pass.  Since the last change of owner or pass,
    the hints handed to the operating system and the hints still queued are for
    pairwise different components and together stay within the pass budget (at
    most 1 GiB), at most 64 hints are queued, all of them for layers after the
    current one, and the outstanding byte counter is exactly the queued hints
    and the one in flight. *)
Theorem read_ahead_is_bounded q tr :
  advice_reach q tr ->
  let '(_, _, handed) := picked tr in
  hint_bytes (handed ++ hints q) <= pass_byte_limit q <= 1073741824 /\
  NoDup (dp_key <$> handed ++ hints q) /\ (length (hints q) <= 64)%nat /\
  Forall (fun d => ra_layer q < layer (dp_key d)) (hints q) /\
  a_outstanding_bytes (astats q) = hint_bytes (hints q) + match in_flight q with Some d => dp_bytes d | None => 0 end.
Proof.
  intros Hr. apply reach_advice_inv in Hr. destruct (picked tr) as [[o p] handed].
  destruct Hr as [_ Hl _ Hb Hk _ Hc Hf Hout _]. change (Z.shiftl 1 30) with 1073741824 in Hl. split_and!; try done; lia.
Qed.

(** A 64-byte hint for layer [l]. *)
Definition demo_hint (l : Z) : dptr := mk_dptr 1 (mk_descriptor
  (mk_spec (mk_key l 0 gate) 0 1 0 1 1 1 [64; 0; 0; 0] [1; 0; 0; 0] (mk_identity 1 1)
     [mk_extent 0 (mk_identity 5 6) 0 64]) 64).

Definition demo_advice (l : list dptr) (flight : option dptr) (adm out peak n : Z) (keys : gset expert_key) : read_ahead :=
  mk_read_ahead 128 l keys 0 0 adm 0 false (mk_advice_stats n 0 0 0 0 0 out peak) flight.

Lemma read_ahead_is_bounded_witness :
  let q := demo_advice [demo_hint 2] (Some (demo_hint 1)) 128 128 128 2 ({[mk_key 2 0 gate]} ∪ ({[mk_key 1 0 gate]} ∪ ∅)) in
  hint_bytes ([demo_hint 1] ++ hints q) <= pass_byte_limit q.
Proof.
  intros q.
  pose proof (read_ahead_is_bounded q [SubmitHint (demo_hint 1) true; SubmitHint (demo_hint 2) true; Pick (demo_hint 1)]) as H.
  apply H.
  eapply (advice_next _ (Pick (demo_hint 1)) q [SubmitHint (demo_hint 1) true; SubmitHint (demo_hint 2) true]);
    [eapply (advice_next _ (SubmitHint (demo_hint 2) true) _ [SubmitHint (demo_hint 1) true]);
       [eapply (advice_next _ (SubmitHint (demo_hint 1) true) _ []);
          [apply (advice_start 128 (demo_advice [] None 0 0 0 0 ∅)); vm_compute; by try split|]|]|].
  - apply step_submit; [split; vm_compute; discriminate|reflexivity].
  - apply step_submit; [split; vm_compute; discriminate|reflexivity].
  - apply (step_pick false); reflexivity.
Defined.
