(* ===== verification/GgmlTypes.v ===== *)
(** * Storage types

    The numeric part of the [type_traits] table of [src/ggml/src/ggml.c] (name,
    block length, block bytes, row metadata bytes and whether the type is
    quantized) for every type of [enum ggml_type], with the accessors the KV
    code uses.  The codec and dot-product function pointers of the table are not
    modelled.  Block sizes are the sizes that the [static_assert]s of
    [src/ggml/src/ggml-common.h] fix. *)

From S2P Require Import Prelude.
From stdpp Require Import strings.
Open Scope string_scope.
Open Scope Z_scope.

(** ** [enum ggml_type] *)

Definition TYPE_F32 : Z := 0.
Definition TYPE_F16 : Z := 1.
Definition TYPE_Q4_0 : Z := 2.
Definition TYPE_Q4_1 : Z := 3.
Definition TYPE_Q5_0 : Z := 6.
Definition TYPE_Q5_1 : Z := 7.
Definition TYPE_Q8_0 : Z := 8.
Definition TYPE_Q8_1 : Z := 9.
Definition TYPE_Q2_K : Z := 10.
Definition TYPE_Q3_K : Z := 11.
Definition TYPE_Q4_K : Z := 12.
Definition TYPE_Q5_K : Z := 13.
Definition TYPE_Q6_K : Z := 14.
Definition TYPE_Q8_K : Z := 15.
Definition TYPE_IQ2_XXS : Z := 16.
Definition TYPE_IQ2_XS : Z := 17.
Definition TYPE_IQ3_XXS : Z := 18.
Definition TYPE_IQ1_S : Z := 19.
Definition TYPE_IQ4_NL : Z := 20.
Definition TYPE_IQ3_S : Z := 21.
Definition TYPE_IQ2_S : Z := 22.
Definition TYPE_IQ4_XS : Z := 23.
Definition TYPE_I8 : Z := 24.
Definition TYPE_I16 : Z := 25.
Definition TYPE_I32 : Z := 26.
Definition TYPE_I64 : Z := 27.
Definition TYPE_F64 : Z := 28.
Definition TYPE_IQ1_M : Z := 29.
Definition TYPE_BF16 : Z := 30.
Definition TYPE_Q4_0_4_4 : Z := 31.
Definition TYPE_Q4_0_4_8 : Z := 32.
Definition TYPE_Q4_0_8_8 : Z := 33.
Definition TYPE_TQ1_0 : Z := 34.
Definition TYPE_TQ2_0 : Z := 35.
Definition TYPE_I2_S : Z := 36.
Definition TYPE_MXFP4 : Z := 39.
Definition TYPE_Q1_0_G128 : Z := 41.
Definition TYPE_Q2_0 : Z := 42.
Definition TYPE_TURBO3_0 : Z := 43.
Definition TYPE_TURBO4_0 : Z := 44.
Definition TYPE_TURBO2_0 : Z := 45.
Definition TYPE_TURBO3_TCQ : Z := 46.
Definition TYPE_TURBO2_TCQ : Z := 47.
Definition TYPE_TURBO8_0 : Z := 48.
Definition TYPE_TURBO1_TCQ : Z := 52.
Definition TYPE_Q8_0_X4 : Z := 97.
Definition TYPE_Q8_1_X4 : Z := 98.
Definition TYPE_Q8_2_X4 : Z := 99.
Definition TYPE_Q6_0 : Z := 133.
Definition TYPE_IQ1_BN : Z := 134.
Definition TYPE_IQ2_BN : Z := 135.
Definition TYPE_Q8_K64 : Z := 136.
Definition TYPE_IQ2_K : Z := 137.
Definition TYPE_IQ3_K : Z := 138.
Definition TYPE_IQ4_K : Z := 139.
Definition TYPE_IQ5_K : Z := 140.
Definition TYPE_IQ6_K : Z := 141.
Definition TYPE_IQ4_KS : Z := 144.
Definition TYPE_IQ2_KS : Z := 145.
Definition TYPE_IQ4_KSS : Z := 146.
Definition TYPE_Q8_K16 : Z := 147.
Definition TYPE_Q8_K32 : Z := 148.
Definition TYPE_Q8_KR8 : Z := 149.
Definition TYPE_Q8_K128 : Z := 150.
Definition TYPE_Q8_KV : Z := 151.
Definition TYPE_IQ5_KS : Z := 152.
Definition TYPE_IQ2_KT : Z := 153.
Definition TYPE_IQ3_KT : Z := 154.
Definition TYPE_IQ4_KT : Z := 155.
Definition TYPE_IQ3_KS : Z := 156.
Definition TYPE_IQ2_KL : Z := 157.
Definition TYPE_IQ1_KT : Z := 158.
Definition TYPE_Q4_0_R8 : Z := 202.
Definition TYPE_Q5_0_R4 : Z := 206.
Definition TYPE_Q8_0_R8 : Z := 208.
Definition TYPE_Q2_K_R4 : Z := 210.
Definition TYPE_Q3_K_R4 : Z := 211.
Definition TYPE_Q4_K_R4 : Z := 212.
Definition TYPE_Q5_K_R4 : Z := 213.
Definition TYPE_Q6_K_R4 : Z := 214.
Definition TYPE_IQ2_XXS_R4 : Z := 216.
Definition TYPE_IQ2_XS_R4 : Z := 217.
Definition TYPE_IQ3_XXS_R4 : Z := 218.
Definition TYPE_IQ1_S_R4 : Z := 219.
Definition TYPE_IQ4_NL_R4 : Z := 220.
Definition TYPE_IQ3_S_R4 : Z := 221.
Definition TYPE_IQ2_S_R4 : Z := 222.
Definition TYPE_IQ4_XS_R8 : Z := 223.
Definition TYPE_IQ1_M_R4 : Z := 229.
Definition TYPE_BF16_R16 : Z := 230.
Definition TYPE_Q6_0_R4 : Z := 233.
Definition TYPE_IQ2_BN_R4 : Z := 335.
Definition TYPE_IQ2_K_R4 : Z := 337.
Definition TYPE_IQ3_K_R4 : Z := 338.
Definition TYPE_IQ4_K_R4 : Z := 339.
Definition TYPE_IQ5_K_R4 : Z := 340.
Definition TYPE_IQ4_KS_R4 : Z := 344.
Definition TYPE_IQ5_KS_R4 : Z := 352.
Definition TYPE_MXFP4_R8 : Z := 353.
Definition TYPE_Q8_K_R16 : Z := 397.
Definition TYPE_Q8_KV_R8 : Z := 398.
Definition TYPE_Q8_K_R8 : Z := 399.
Definition TYPE_COUNT : Z := 400.

(** Block lengths. *)
Definition QK_K : Z := 256.
Definition QK4_0 : Z := 32.
Definition QK4_1 : Z := 32.
Definition QK_MXFP4 : Z := 32.
Definition QK5_0 : Z := 32.
Definition QK5_1 : Z := 32.
Definition QK6_0 : Z := 32.
Definition QK8_0 : Z := 32.
Definition QK8_1 : Z := 32.
Definition QK8_2 : Z := 32.
Definition QK2_0 : Z := 64.
Definition QK1_0_G128 : Z := 128.
Definition QK_IQ1BN : Z := 64.
Definition QK_IQ2BN : Z := 64.
Definition QK4_NL : Z := 32.
Definition K_SCALE_SIZE : Z := 12.
Definition TURBO_BLOCK : Z := 128.

(** ** The table *)

Record traits := mk_traits {
  type_name : string;
  blck_size : Z;
  type_size : Z;
  is_quantized : bool;
  row_meta_size : Z;
}.

Definition traits_I8 : Z * traits := (TYPE_I8, mk_traits "i8" (1) (1) false 0).
Definition traits_I16 : Z * traits := (TYPE_I16, mk_traits "i16" (1) (2) false 0).
Definition traits_I32 : Z * traits := (TYPE_I32, mk_traits "i32" (1) (4) false 0).
Definition traits_I64 : Z * traits := (TYPE_I64, mk_traits "i64" (1) (8) false 0).
Definition traits_F64 : Z * traits := (TYPE_F64, mk_traits "f64" (1) (8) false 0).
Definition traits_F32 : Z * traits := (TYPE_F32, mk_traits "f32" (1) (4) false 0).
Definition traits_F16 : Z * traits := (TYPE_F16, mk_traits "f16" (1) (2) false 0).
Definition traits_Q4_0 : Z * traits := (TYPE_Q4_0, mk_traits "q4_0" (QK4_0) (2 + QK4_0 / 2) true 0).
Definition traits_Q4_1 : Z * traits := (TYPE_Q4_1, mk_traits "q4_1" (QK4_1) (2 * 2 + QK4_1 / 2) true 0).
Definition traits_Q5_0 : Z * traits := (TYPE_Q5_0, mk_traits "q5_0" (QK5_0) (2 + 4 + QK5_0 / 2) true 0).
Definition traits_Q5_1 : Z * traits := (TYPE_Q5_1, mk_traits "q5_1" (QK5_1) (2 * 2 + 4 + QK5_1 / 2) true 0).
Definition traits_Q6_0 : Z * traits := (TYPE_Q6_0, mk_traits "q6_0" (QK6_0) (2 + QK6_0 / 2 + QK6_0 / 4) true 0).
Definition traits_Q8_0 : Z * traits := (TYPE_Q8_0, mk_traits "q8_0" (QK8_0) (2 + QK8_0) true 0).
Definition traits_Q8_1 : Z * traits := (TYPE_Q8_1, mk_traits "q8_1" (QK8_1) (2 * 2 + QK8_1) true 0).
Definition traits_Q8_0_X4 : Z * traits := (TYPE_Q8_0_X4, mk_traits "q8_0_x4" (QK8_0) (2 + QK8_0) true 0).
Definition traits_Q8_1_X4 : Z * traits := (TYPE_Q8_1_X4, mk_traits "q8_1_x4" (QK8_1) (2 * 2 + QK8_1) true 0).
Definition traits_Q8_2_X4 : Z * traits := (TYPE_Q8_2_X4, mk_traits "q8_2_x4" (QK8_2) (2 + 2 + QK8_2) true 0).
Definition traits_Q2_K : Z * traits := (TYPE_Q2_K, mk_traits "q2_K" (QK_K) (2 * 2 + QK_K / 16 + QK_K / 4) true 0).
Definition traits_Q2_K_R4 : Z * traits := (TYPE_Q2_K_R4, mk_traits "q2_k_r4" (QK_K) (2 * 2 + QK_K / 16 + QK_K / 4) true 0).
Definition traits_Q3_K : Z * traits := (TYPE_Q3_K, mk_traits "q3_K" (QK_K) (2 + QK_K / 4 + QK_K / 8 + 12) true 0).
Definition traits_Q3_K_R4 : Z * traits := (TYPE_Q3_K_R4, mk_traits "q3_k_r4" (QK_K) (2 + QK_K / 4 + QK_K / 8 + 12) true 0).
Definition traits_Q4_K : Z * traits := (TYPE_Q4_K, mk_traits "q4_K" (QK_K) (2 * 2 + K_SCALE_SIZE + QK_K / 2) true 0).
Definition traits_Q4_K_R4 : Z * traits := (TYPE_Q4_K_R4, mk_traits "q4_k_r4" (QK_K) (2 * 2 + K_SCALE_SIZE + QK_K / 2) true 0).
Definition traits_Q5_K : Z * traits := (TYPE_Q5_K, mk_traits "q5_K" (QK_K) (2 * 2 + K_SCALE_SIZE + QK_K / 2 + QK_K / 8) true 0).
Definition traits_Q5_K_R4 : Z * traits := (TYPE_Q5_K_R4, mk_traits "q5_k_r4" (QK_K) (2 * 2 + K_SCALE_SIZE + QK_K / 2 + QK_K / 8) true 0).
Definition traits_Q6_K : Z * traits := (TYPE_Q6_K, mk_traits "q6_K" (QK_K) (2 + QK_K / 16 + 3 * QK_K / 4) true 0).
Definition traits_Q6_K_R4 : Z * traits := (TYPE_Q6_K_R4, mk_traits "q6_k_r4" (QK_K) (2 + QK_K / 16 + 3 * QK_K / 4) true 0).
Definition traits_Q8_K_R8 : Z * traits := (TYPE_Q8_K_R8, mk_traits "q8_k_r8" (QK_K) ((8 * 2 + 8 * QK_K) / 8) true 0).
Definition traits_Q8_K_R16 : Z * traits := (TYPE_Q8_K_R16, mk_traits "q8_k_r16" (QK_K) ((16 * 2 + 16 * QK_K) / 16) true 0).
Definition traits_IQ2_XXS : Z * traits := (TYPE_IQ2_XXS, mk_traits "iq2_xxs" (QK_K) (2 + QK_K / 8 * 2) true 0).
Definition traits_IQ2_XXS_R4 : Z * traits := (TYPE_IQ2_XXS_R4, mk_traits "iq2_xxs_r4" (QK_K) (2 + QK_K / 8 * 2) true 0).
Definition traits_IQ2_XS : Z * traits := (TYPE_IQ2_XS, mk_traits "iq2_xs" (QK_K) (2 + QK_K / 8 * 2 + QK_K / 32) true 0).
Definition traits_IQ2_XS_R4 : Z * traits := (TYPE_IQ2_XS_R4, mk_traits "iq2_xs_r4" (QK_K) (2 + QK_K / 8 * 2 + QK_K / 32) true 0).
Definition traits_IQ3_XXS : Z * traits := (TYPE_IQ3_XXS, mk_traits "iq3_xxs" (QK_K) ((2 + 3 * (QK_K / 8))) true 0).
Definition traits_IQ3_XXS_R4 : Z * traits := (TYPE_IQ3_XXS_R4, mk_traits "iq3_xxs_r4" (QK_K) ((2 + 3 * (QK_K / 8))) true 0).
Definition traits_IQ3_S : Z * traits := (TYPE_IQ3_S, mk_traits "iq3_s" (QK_K) ((2 + 13 * (QK_K / 32) + (QK_K / 64))) true 0).
Definition traits_IQ3_S_R4 : Z * traits := (TYPE_IQ3_S_R4, mk_traits "iq3_s_r4" (QK_K) ((2 + 13 * (QK_K / 32) + (QK_K / 64))) true 0).
Definition traits_IQ2_S : Z * traits := (TYPE_IQ2_S, mk_traits "iq2_s" (QK_K) (2 + QK_K / 4 + QK_K / 16) true 0).
Definition traits_IQ2_S_R4 : Z * traits := (TYPE_IQ2_S_R4, mk_traits "iq2_s_r4" (QK_K) (2 + QK_K / 4 + QK_K / 16) true 0).
Definition traits_IQ1_S : Z * traits := (TYPE_IQ1_S, mk_traits "iq1_s" (QK_K) (2 + QK_K / 8 + QK_K / 16) true 0).
Definition traits_IQ1_S_R4 : Z * traits := (TYPE_IQ1_S_R4, mk_traits "iq1_s_r4" (32) ((24) / 4) true 2).
Definition traits_IQ1_M : Z * traits := (TYPE_IQ1_M, mk_traits "iq1_m" (QK_K) (QK_K / 8 + QK_K / 16 + QK_K / 32) true 0).
Definition traits_IQ1_M_R4 : Z * traits := (TYPE_IQ1_M_R4, mk_traits "iq1_m_r4" (32) ((28) / 4) true 2).
Definition traits_IQ1_BN : Z * traits := (TYPE_IQ1_BN, mk_traits "iq1_bn" (QK_IQ1BN) (13) true 2).
Definition traits_IQ2_BN : Z * traits := (TYPE_IQ2_BN, mk_traits "iq2_bn" (QK_IQ1BN) (QK_IQ2BN / 4) true 4).
Definition traits_IQ2_BN_R4 : Z * traits := (TYPE_IQ2_BN_R4, mk_traits "iq2_bn_r4" (QK_IQ1BN) (QK_IQ2BN / 4) true 4).
Definition traits_IQ4_NL : Z * traits := (TYPE_IQ4_NL, mk_traits "iq4_nl" (QK4_NL) (2 + QK4_NL / 2) true 0).
Definition traits_IQ4_XS : Z * traits := (TYPE_IQ4_XS, mk_traits "iq4_xs" (QK_K) (2 + 2 + QK_K / 64 + QK_K / 2) true 0).
Definition traits_MXFP4 : Z * traits := (TYPE_MXFP4, mk_traits "mxfp4" (QK_MXFP4) (1 + QK_MXFP4 / 2) true 0).
Definition traits_MXFP4_R8 : Z * traits := (TYPE_MXFP4_R8, mk_traits "mxfp4_r8" (QK_MXFP4) (1 + QK_MXFP4 / 2) true 0).
Definition traits_IQ4_KS : Z * traits := (TYPE_IQ4_KS, mk_traits "iq4_ks" (QK_K) (QK_K / 32 + QK_K / 2) true 4).
Definition traits_IQ4_KS_R4 : Z * traits := (TYPE_IQ4_KS_R4, mk_traits "iq4_ks_r4" (QK_K) (QK_K / 32 + QK_K / 2) true 4).
Definition traits_IQ5_KS_R4 : Z * traits := (TYPE_IQ5_KS_R4, mk_traits "iq5_ks_r4" (QK_K) (QK_K / 32 + QK_K / 2 + QK_K / 8) true 4).
Definition traits_IQ4_KSS : Z * traits := (TYPE_IQ4_KSS, mk_traits "iq4_kss" (QK_K) (QK_K / 8 * 4) true 4).
Definition traits_IQ5_KS : Z * traits := (TYPE_IQ5_KS, mk_traits "iq5_ks" (QK_K) (QK_K / 32 + QK_K / 2 + QK_K / 8) true 4).
Definition traits_Q8_K : Z * traits := (TYPE_Q8_K, mk_traits "q8_K" (QK_K) (2 * 4 + QK_K + QK_K / 16 * 2) true 0).
Definition traits_Q8_K64 : Z * traits := (TYPE_Q8_K64, mk_traits "q8_K64" (64) (4 + 64) true 0).
Definition traits_Q8_K128 : Z * traits := (TYPE_Q8_K128, mk_traits "q8_K128" (128) (4 + 4 * 2 + 128) true 0).
Definition traits_Q8_KV : Z * traits := (TYPE_Q8_KV, mk_traits "q8_KV" (32) (32) true 8).
Definition traits_Q8_KV_R8 : Z * traits := (TYPE_Q8_KV_R8, mk_traits "q8_KV_r8" (32) (32) true 4).
Definition traits_Q8_K16 : Z * traits := (TYPE_Q8_K16, mk_traits "q8_K16" (64) (64) true 20).
Definition traits_Q8_K32 : Z * traits := (TYPE_Q8_K32, mk_traits "q8_K32" (QK_K) (2 * 4 + QK_K + QK_K / 16 * 2) true 0).
Definition traits_Q8_KR8 : Z * traits := (TYPE_Q8_KR8, mk_traits "q8_KR8" (QK_K) (2 * 4 + QK_K + QK_K / 16 * 2) true 0).
Definition traits_BF16 : Z * traits := (TYPE_BF16, mk_traits "bf16" (1) (2) false 0).
Definition traits_BF16_R16 : Z * traits := (TYPE_BF16_R16, mk_traits "bf16_r16" (1) (2) false 0).
Definition traits_Q4_0_4_4 : Z * traits := (TYPE_Q4_0_4_4, mk_traits "q4_0_4x4" (QK4_0) (2 + QK4_0 / 2) true 0).
Definition traits_Q4_0_4_8 : Z * traits := (TYPE_Q4_0_4_8, mk_traits "q4_0_4x8" (QK4_0) (2 + QK4_0 / 2) true 0).
Definition traits_Q4_0_8_8 : Z * traits := (TYPE_Q4_0_8_8, mk_traits "q4_0_8x8" (QK4_0) (2 + QK4_0 / 2) true 0).
Definition traits_IQ2_K : Z * traits := (TYPE_IQ2_K, mk_traits "iq2_k" (QK_K) (2 + 2 + QK_K / 32 + QK_K / 4) true 0).
Definition traits_IQ2_K_R4 : Z * traits := (TYPE_IQ2_K_R4, mk_traits "iq2_k_r4" (QK_K) (2 + 2 + QK_K / 32 + QK_K / 4) true 0).
Definition traits_IQ2_KS : Z * traits := (TYPE_IQ2_KS, mk_traits "iq2_ks" (QK_K) (2 + QK_K / 64 + QK_K / 4) true 2).
Definition traits_IQ1_KT : Z * traits := (TYPE_IQ1_KT, mk_traits "iq1_kt" (QK_K) (QK_K / 8 + QK_K / 16 + QK_K / 32) true 4).
Definition traits_IQ2_KT : Z * traits := (TYPE_IQ2_KT, mk_traits "iq2_kt" (QK_K) (QK_K / 4 + QK_K / 64) true 4).
Definition traits_IQ3_KT : Z * traits := (TYPE_IQ3_KT, mk_traits "iq3_kt" (QK_K) (QK_K / 4 + QK_K / 8 + QK_K / 64) true 4).
Definition traits_IQ4_KT : Z * traits := (TYPE_IQ4_KT, mk_traits "iq4_kt" (QK_K) (QK_K / 2) true 4).
Definition traits_TURBO2_0 : Z * traits := (TYPE_TURBO2_0, mk_traits "turbo2_0" (TURBO_BLOCK) ((4 * (2 + 32 / 4))) true 0).
Definition traits_TURBO3_0 : Z * traits := (TYPE_TURBO3_0, mk_traits "turbo3_0" (TURBO_BLOCK) ((4 * (2 + 32 / 4 + 32 / 8))) true 0).
Definition traits_TURBO4_0 : Z * traits := (TYPE_TURBO4_0, mk_traits "turbo4_0" (TURBO_BLOCK) (2 + TURBO_BLOCK / 2) true 0).
Definition traits_TURBO8_0 : Z * traits := (TYPE_TURBO8_0, mk_traits "turbo8_0" (TURBO_BLOCK) (2 + TURBO_BLOCK) true 0).
Definition traits_TURBO1_TCQ : Z * traits := (TYPE_TURBO1_TCQ, mk_traits "turbo1_tcq" (TURBO_BLOCK) (2 + 17 + 1) true 0).
Definition traits_TURBO2_TCQ : Z * traits := (TYPE_TURBO2_TCQ, mk_traits "turbo2_tcq" (TURBO_BLOCK) (2 + 33 + 1) true 0).
Definition traits_TURBO3_TCQ : Z * traits := (TYPE_TURBO3_TCQ, mk_traits "turbo3_tcq" (TURBO_BLOCK) (2 + 49 + 1) true 0).
Definition traits_Q2_0 : Z * traits := (TYPE_Q2_0, mk_traits "q2_0" (QK2_0) (18) true 0).
Definition traits_Q1_0_G128 : Z * traits := (TYPE_Q1_0_G128, mk_traits "q1_0_g128" (QK1_0_G128) (2 + QK1_0_G128 / 8) true 0).
Definition traits_IQ3_K : Z * traits := (TYPE_IQ3_K, mk_traits "iq3_k" (QK_K) (2 + 2 * 2 + QK_K / 32 + QK_K / 4 + QK_K / 8) true 0).
Definition traits_IQ3_KS : Z * traits := (TYPE_IQ3_KS, mk_traits "iq3_ks" (QK_K) (2 + QK_K / 64 + QK_K / 4 + QK_K / 8) true 2).
Definition traits_IQ2_KL : Z * traits := (TYPE_IQ2_KL, mk_traits "iq2_kl" (QK_K) (2 + QK_K / 64 + QK_K / 4 + QK_K / 16) true 2).
Definition traits_IQ4_K : Z * traits := (TYPE_IQ4_K, mk_traits "iq4_k" (QK_K) (2 + 2 + QK_K / 2 + 3 * QK_K / 64) true 0).
Definition traits_IQ4_K_R4 : Z * traits := (TYPE_IQ4_K_R4, mk_traits "iq4_k_r4" (QK_K) (2 + 2 + QK_K / 2 + 3 * QK_K / 64) true 0).
Definition traits_IQ3_K_R4 : Z * traits := (TYPE_IQ3_K_R4, mk_traits "iq3_k_r4" (QK_K) (2 + 2 * 2 + QK_K / 32 + QK_K / 4 + QK_K / 8) true 0).
Definition traits_IQ5_K : Z * traits := (TYPE_IQ5_K, mk_traits "iq5_k" (QK_K) (2 + 2 + QK_K / 2 + QK_K / 8 + 3 * QK_K / 64) true 0).
Definition traits_IQ5_K_R4 : Z * traits := (TYPE_IQ5_K_R4, mk_traits "iq5_k_r4" (QK_K) (2 + 2 + QK_K / 2 + QK_K / 8 + 3 * QK_K / 64) true 0).
Definition traits_IQ6_K : Z * traits := (TYPE_IQ6_K, mk_traits "iq6_k" (QK_K) (2 + 2 + QK_K / 2 + QK_K / 4 + QK_K / 16) true 0).
Definition traits_IQ4_NL_R4 : Z * traits := (TYPE_IQ4_NL_R4, mk_traits "iq4_nl_r4" (QK4_NL) (2 + QK4_NL / 2) true 0).
Definition traits_IQ4_XS_R8 : Z * traits := (TYPE_IQ4_XS_R8, mk_traits "iq4_xs_r8" (QK_K) (2 + 2 + QK_K / 64 + QK_K / 2) true 0).
Definition traits_Q4_0_R8 : Z * traits := (TYPE_Q4_0_R8, mk_traits "q4_0_r8" (QK4_NL) (2 + QK4_NL / 2) true 0).
Definition traits_Q8_0_R8 : Z * traits := (TYPE_Q8_0_R8, mk_traits "q8_0_r8" (QK8_0) (2 + QK8_0) true 0).
Definition traits_Q5_0_R4 : Z * traits := (TYPE_Q5_0_R4, mk_traits "q5_0_r4" (QK5_0) (2 + 4 + QK5_0 / 2) true 0).
Definition traits_Q6_0_R4 : Z * traits := (TYPE_Q6_0_R4, mk_traits "q6_0_r4" (QK6_0) (2 + QK6_0 / 2 + QK6_0 / 4) true 0).
Definition traits_TQ1_0 : Z * traits := (TYPE_TQ1_0, mk_traits "tq1_0" (QK_K) ((2 + QK_K / 64 + (QK_K - 4 * QK_K / 64) / 5)) true 0).
Definition traits_TQ2_0 : Z * traits := (TYPE_TQ2_0, mk_traits "tq2_0" (QK_K) (2 + QK_K / 4) true 0).
Definition traits_I2_S : Z * traits := (TYPE_I2_S, mk_traits "i2_s" (1) (1) true 0).

Definition all_traits : list (Z * traits) := Eval vm_compute in
  [traits_I8; traits_I16; traits_I32; traits_I64; traits_F64; traits_F32; traits_F16; traits_Q4_0;
   traits_Q4_1; traits_Q5_0; traits_Q5_1; traits_Q6_0; traits_Q8_0; traits_Q8_1; traits_Q8_0_X4;
   traits_Q8_1_X4; traits_Q8_2_X4; traits_Q2_K; traits_Q2_K_R4; traits_Q3_K; traits_Q3_K_R4; traits_Q4_K;
   traits_Q4_K_R4; traits_Q5_K; traits_Q5_K_R4; traits_Q6_K; traits_Q6_K_R4; traits_Q8_K_R8; traits_Q8_K_R16;
   traits_IQ2_XXS; traits_IQ2_XXS_R4; traits_IQ2_XS; traits_IQ2_XS_R4; traits_IQ3_XXS; traits_IQ3_XXS_R4;
   traits_IQ3_S; traits_IQ3_S_R4; traits_IQ2_S; traits_IQ2_S_R4; traits_IQ1_S; traits_IQ1_S_R4; traits_IQ1_M;
   traits_IQ1_M_R4; traits_IQ1_BN; traits_IQ2_BN; traits_IQ2_BN_R4; traits_IQ4_NL; traits_IQ4_XS;
   traits_MXFP4; traits_MXFP4_R8; traits_IQ4_KS; traits_IQ4_KS_R4; traits_IQ5_KS_R4; traits_IQ4_KSS;
   traits_IQ5_KS; traits_Q8_K; traits_Q8_K64; traits_Q8_K128; traits_Q8_KV; traits_Q8_KV_R8; traits_Q8_K16;
   traits_Q8_K32; traits_Q8_KR8; traits_BF16; traits_BF16_R16; traits_Q4_0_4_4; traits_Q4_0_4_8;
   traits_Q4_0_8_8; traits_IQ2_K; traits_IQ2_K_R4; traits_IQ2_KS; traits_IQ1_KT; traits_IQ2_KT;
   traits_IQ3_KT; traits_IQ4_KT; traits_TURBO2_0; traits_TURBO3_0; traits_TURBO4_0; traits_TURBO8_0;
   traits_TURBO1_TCQ; traits_TURBO2_TCQ; traits_TURBO3_TCQ; traits_Q2_0; traits_Q1_0_G128; traits_IQ3_K;
   traits_IQ3_KS; traits_IQ2_KL; traits_IQ4_K; traits_IQ4_K_R4; traits_IQ3_K_R4; traits_IQ5_K;
   traits_IQ5_K_R4; traits_IQ6_K; traits_IQ4_NL_R4; traits_IQ4_XS_R8; traits_Q4_0_R8; traits_Q8_0_R8;
   traits_Q5_0_R4; traits_Q6_0_R4; traits_TQ1_0; traits_TQ2_0; traits_I2_S].

(** An index without an initializer has all fields zero. *)
Definition type_traits (t : Z) : option traits :=
  match list_find (fun e : Z * traits => e.1 = t) all_traits with Some (_, e) => Some e.2 | None => None end.

(** ** Accessors *)

Definition ggml_blck_size (t : Z) : Z := match type_traits t with Some e => blck_size e | None => 0 end.
Definition ggml_type_size (t : Z) : Z := match type_traits t with Some e => type_size e | None => 0 end.
Definition ggml_is_quantized (t : Z) : bool := match type_traits t with Some e => is_quantized e | None => false end.
Definition ggml_type_name (t : Z) : option string := type_name <$> type_traits t.

(** [size_t] arithmetic; [ne] is an [int64_t] and the block length is not 0 for a
    type that has a name. *)
Definition ggml_row_size (t ne : Z) : Z :=
  match type_traits t with
  | Some e => wrap64 (row_meta_size e + wrap64 (type_size e * ne) / blck_size e)
  | None => 0
  end.

(** The condition the source asserts. *)
Definition whole_blocks (t ne : Z) : Prop := ne mod ggml_blck_size t = 0.

(** ** Facts about the table *)

Definition traits_ok (e : Z * traits) : bool :=
  (0 <=? e.1) && (e.1 <? TYPE_COUNT) && (0 <? blck_size e.2) && (blck_size e.2 =? 2 ^ Z.log2 (blck_size e.2))
  && (blck_size e.2 <=? 256) && (0 <? type_size e.2) && (type_size e.2 <=? 512) && (0 <=? row_meta_size e.2)
  && (row_meta_size e.2 <=? 32).

Lemma all_traits_ok : forallb traits_ok all_traits = true.
Proof. vm_compute. reflexivity. Qed.

Lemma type_traits_elem t e : type_traits t = Some e -> (t, e) ∈ all_traits.
Proof.
  unfold type_traits. destruct (list_find _ all_traits) as [[i [k e']]|] eqn:E; [|done].
  apply list_find_Some in E as (Hi & Hk & _). simpl in *. intros [= <-]. subst. by eapply list_elem_of_lookup_2.
Qed.

Lemma type_traits_ok t e :
  type_traits t = Some e ->
  0 <= t < TYPE_COUNT /\ (exists k, 0 <= k <= 8 /\ blck_size e = 2 ^ k) /\ 0 < type_size e <= 512 /\ 0 <= row_meta_size e <= 32.
Proof.
  intros H%type_traits_elem. pose proof all_traits_ok as Hall. rewrite forallb_forall in Hall.
  apply list_elem_of_In, Hall in H. unfold traits_ok in H. simpl in H. bool_facts. split_and!; try lia.
  exists (Z.log2 (blck_size e)). split; [|done]. split; [apply Z.log2_nonneg|].
  replace 8 with (Z.log2 256) by reflexivity. apply Z.log2_le_mono. lia.
Qed.

Lemma unquantized_blocks t e : type_traits t = Some e -> is_quantized e = false -> blck_size e = 1.
Proof.
  intros H%type_traits_elem. assert (Hall : forallb (fun x : Z * traits => is_quantized x.2 || (blck_size x.2 =? 1)) all_traits = true)
    by (vm_compute; reflexivity).
  rewrite forallb_forall in Hall. apply list_elem_of_In, Hall in H. simpl in H. intros Hq. rewrite Hq in H. by apply Z.eqb_eq.
Qed.

Lemma type_size_bound t : 0 <= ggml_type_size t <= 512 /\ 0 <= ggml_blck_size t <= 256.
Proof.
  unfold ggml_type_size, ggml_blck_size. destruct (type_traits t) as [e|] eqn:E; [|lia].
  destruct (type_traits_ok _ _ E) as (_ & (k & Hk & ->) & ? & _). split; [lia|].
  pose proof (Z.pow_pos_nonneg 2 k). pose proof (Z.pow_le_mono_r 2 k 8). change (2 ^ 8) with 256 in *. lia.
Qed.

(** Rows of whole blocks: the stored bytes are exact. *)
Lemma row_size_exact t e ne :
  type_traits t = Some e -> 0 <= ne <= UINT32_MAX -> whole_blocks t ne ->
  ggml_row_size t ne = row_meta_size e + type_size e * (ne / blck_size e) /\
  0 <= ggml_row_size t ne <= 512 * UINT32_MAX + 32.
Proof.
  intros He Hne Hw. unfold ggml_row_size, whole_blocks, ggml_blck_size in *. rewrite He in *.
  destruct (type_traits_ok _ _ He) as (_ & (k & Hk & Hb) & Hs & Hm).
  assert (Hpos : 0 < blck_size e) by (rewrite Hb; apply Z.pow_pos_nonneg; lia).
  assert (Hsmall : 0 <= type_size e * ne <= 512 * UINT32_MAX) by nia.
  assert (Hdiv : type_size e * ne / blck_size e = type_size e * (ne / blck_size e)).
  { rewrite (Z.div_mod ne (blck_size e)) at 1 by lia. rewrite Hw, Z.add_0_r.
    replace (type_size e * (blck_size e * (ne / blck_size e))) with (type_size e * (ne / blck_size e) * blck_size e) by ring.
    apply Z.div_mul. lia. }
  assert (Hq : 0 <= ne / blck_size e <= ne) by (split; [apply Z.div_pos; lia|apply Z.div_le_upper_bound; nia]).
  assert (0 <= type_size e * (ne / blck_size e) <= 512 * UINT32_MAX) by nia.
  rewrite (wrap64_small (type_size e * ne)) by (unfold u64, UINT64_MAX, UINT32_MAX in *; lia).
  rewrite Hdiv, wrap64_small by (unfold u64, UINT64_MAX, UINT32_MAX in *; lia). lia.
Qed.

(** The type table is consistent: every type that has traits lies in the
    enumeration, its block length is a power of two of at most 256 elements, its
    block occupies at least one byte, type numbers and type names are unique, and
    every [turbo] type uses blocks of exactly 128 elements. *)
Lemma type_table_consistent :
  NoDup all_traits.*1 /\ NoDup ((fun e => type_name e.2) <$> all_traits) /\
  (forall t e, type_traits t = Some e ->
     0 <= t < TYPE_COUNT /\ (exists k, 0 <= k <= 8 /\ blck_size e = 2 ^ k) /\ 0 < type_size e) /\
  Forall (fun t => ggml_blck_size t = TURBO_BLOCK /\ ggml_is_quantized t = true)
    [TYPE_TURBO2_0; TYPE_TURBO3_0; TYPE_TURBO4_0; TYPE_TURBO8_0; TYPE_TURBO1_TCQ; TYPE_TURBO2_TCQ; TYPE_TURBO3_TCQ].
Proof.
  split_and!.
  - apply (bool_decide_unpack _). vm_compute. exact I.
  - apply (bool_decide_unpack _). vm_compute. exact I.
  - intros t e H%type_traits_ok. destruct H as (? & ? & ? & _). split_and!; try done; lia.
  - repeat constructor.
Qed.
