(* ===== verification/Binary64.v ===== *)
(** * IEEE binary64

    [double] as [SpecFloat] with precision 53 and maximal exponent 1024,
    rounding to nearest even: the operations the components use, and the order
    facts their proofs share. *)

From S2P Require Import Prelude.
From Stdlib Require Export SpecFloat.
Open Scope Z_scope.

(** ** [double] *)

Definition f_add : spec_float -> spec_float -> spec_float := SFadd 53 1024.
Definition f_sub : spec_float -> spec_float -> spec_float := SFsub 53 1024.
Definition f_mul : spec_float -> spec_float -> spec_float := SFmul 53 1024.
Definition f_div : spec_float -> spec_float -> spec_float := SFdiv 53 1024.
(** [double(n)] *)
Definition f_of_Z (n : Z) : spec_float := binary_normalize 53 1024 n 0 false.
(** [a > b] and [a <= b]: false on a NaN. *)
Definition f_gt (a b : spec_float) : bool := SFltb b a.
Definition f_le (a b : spec_float) : bool := SFleb a b.
Definition is_finite (a : spec_float) : bool := match a with S754_zero _ | S754_finite _ _ _ => true | _ => false end.
Definition f_zero : spec_float := S754_zero false.
(** [std::max] and [std::min] keep the first argument unless the comparison
    says otherwise. *)
Definition f_max (a b : spec_float) : spec_float := if SFltb a b then b else a.
Definition f_min (a b : spec_float) : spec_float := if SFltb b a then b else a.
(** [std::numeric_limits<double>::max()] *)
Definition f_highest : spec_float := S754_finite false (2 ^ 53 - 1) 971.

(** ** Order *)

(** Position of a float on the real line, compared lexicographically. *)
Definition f_key (x : spec_float) : Z * Z * Z :=
  match x with
  | S754_nan => (0, 0, 0)
  | S754_infinity s => (if s then -2 else 2, 0, 0)
  | S754_zero _ => (0, 0, 0)
  | S754_finite true m e => (-1, - e, Z.neg m)
  | S754_finite false m e => (1, e, Z.pos m)
  end.

Definition key_lt (a b : Z * Z * Z) : Prop :=
  a.1.1 < b.1.1 \/ (a.1.1 = b.1.1 /\ (a.1.2 < b.1.2 \/ (a.1.2 = b.1.2 /\ a.2 < b.2))).

Definition is_nan (x : spec_float) : bool := match x with S754_nan => true | _ => false end.

Lemma f_lt_key x y : SFltb x y = true <-> is_nan x = false /\ is_nan y = false /\ key_lt (f_key x) (f_key y).
Proof.
  unfold SFltb, key_lt. destruct x as [sx|sx| |sx mx ex], y as [sy|sy| |sy my ey]; try destruct sx; try destruct sy; simpl;
    change (Pos.compare_cont Eq) with Pos.compare.
  all: try (destruct (Z.compare_spec ex ey)); try (destruct (Pos.compare_spec mx my)); simpl.
  all: try (split; [discriminate|intros (? & ? & ?); first [discriminate|lia]]).
  all: split; [intros _; split; [reflexivity|split; [reflexivity|lia]]|reflexivity].
Qed.

Lemma f_lt_trans x y z : SFltb x y = true -> SFltb y z = true -> SFltb x z = true.
Proof. rewrite !f_lt_key. unfold key_lt. intros (? & ? & ?) (? & ? & ?). split_and!; try done. lia. Qed.
