(* ===== verification/KvTier.v ===== *)
(** * KV-cache tier policy

    Models [src/src/llama-kv-tier-policy.{h,cpp}] and
    [src/src/llama-kv-padding.h]: byte accounting of a tier plan, the static
    tier map, the variable-bit-rate solver, the list of transitions between two
    plans and the failure-atomic switch.  [double] is IEEE binary64
    ([SpecFloat] with precision 53); [size_t] is 64 bits, [uint32_t] 32. *)

From S2P Require Import Prelude Binary64 GgmlTypes.
From Stdlib Require Import SpecFloat.
From stdpp Require Import strings pretty.
Open Scope string_scope.
Open Scope Z_scope.

(** ** Data *)

Inductive kv_side := side_key | side_value.

#[export] Instance kv_side_eq_dec : EqDecision kv_side.
Proof. solve_decision. Defined.

Record tier_assignment := mk_tiers { t_key : Z; t_value : Z }.

#[export] Instance tier_assignment_eq_dec : EqDecision tier_assignment.
Proof. solve_decision. Defined.

Record tier_override := mk_override { o_side : kv_side; o_begin : Z; o_end : Z; o_type : Z }.
Record layer_geometry := mk_geometry { key_head_dim : Z; value_head_dim : Z; head_count : Z }.
Record tier_candidate := mk_candidate { ca_type : Z; ca_cost : spec_float }.
Record layer_side := mk_layer_side { ls_layer : Z; ls_side : kv_side }.
Record vbr_request := mk_vbr_request {
  vr_context : Z;
  vr_budget : Z;
  vr_floor : spec_float;
  vr_candidates : list tier_candidate;
  vr_order : list layer_side;
}.
Record vbr_result := mk_vbr_result {
  vo_tiers : list tier_assignment;
  vo_bytes : Z;
  vo_cost : spec_float;
  vo_satisfied : bool;
}.
Record tier_transition := mk_transition { tr_target : layer_side; tr_from : Z; tr_to : Z }.

(** [1e-12], correctly rounded: 4951760157141521 * 2^-92. *)
Definition f_epsilon : spec_float := S754_finite false 4951760157141521 (-92).

(** ** Padding ([llama-kv-padding.h]) *)

Definition kv_type_is_turbo (t : Z) : bool :=
  (t =? TYPE_TURBO2_0) || (t =? TYPE_TURBO3_0) || (t =? TYPE_TURBO4_0) || (t =? TYPE_TURBO8_0)
  || (t =? TYPE_TURBO1_TCQ) || (t =? TYPE_TURBO2_TCQ) || (t =? TYPE_TURBO3_TCQ).

(** [GGML_PAD(x, n)] in [uint32_t] and in [int64_t] arithmetic. *)
Definition pad_u32 (x n : Z) : Z := Z.land (wrap32 (x + n - 1)) (wrap32 (Z.lnot (n - 1))).
Definition pad_i64 (x n : Z) : Z := Z.land (x + n - 1) (Z.lnot (n - 1)).

Definition kv_head_dim_for_type (t dim : Z) : Z :=
  if kv_type_is_turbo t then pad_u32 dim TURBO_BLOCK
  else if ggml_is_quantized t then wrap32 (pad_i64 dim (ggml_blck_size t))
  else dim.

Definition kv_gqa_dim_for_type (t dim heads : Z) : Z := wrap32 (kv_head_dim_for_type t dim * heads).

(** ** Byte accounting *)

Definition valid_type (t : Z) : bool :=
  (0 <=? t) && (t <? TYPE_COUNT) && match ggml_type_name t with Some _ => true | None => false end.

Definition SIZE_MAX : Z := UINT64_MAX.

Definition side_bytes (t head_dim heads context : Z) : Z :=
  if (head_dim =? 0) || (heads =? 0) || (context =? 0) then 0
  else
    let padded := kv_head_dim_for_type t head_dim in
    let row := ggml_row_size t padded in
    if (row >? SIZE_MAX / heads) || (wrap64 (row * heads) >? SIZE_MAX / context) then SIZE_MAX
    else wrap64 (wrap64 (row * heads) * context).

Fixpoint plan_bytes_loop (tiers : list tier_assignment) (geometry : list layer_geometry) (context total : Z) : Z :=
  match tiers, geometry with
  | t :: tiers, g :: geometry =>
      let key := side_bytes (t_key t) (key_head_dim g) (head_count g) context in
      let value := side_bytes (t_value t) (value_head_dim g) (head_count g) context in
      if (key =? SIZE_MAX) || (value =? SIZE_MAX) || (total >? SIZE_MAX - key)
         || (wrap64 (total + key) >? SIZE_MAX - value)
      then SIZE_MAX
      else plan_bytes_loop tiers geometry context (wrap64 (total + wrap64 (key + value)))
  | _, _ => total
  end.

Definition tier_plan_bytes (tiers : list tier_assignment) (geometry : list layer_geometry) (context : Z) : Z :=
  if negb (length tiers =? length geometry)%nat then SIZE_MAX
  else plan_bytes_loop tiers geometry context 0.

(** ** The static tier map *)

Definition set_side (s : kv_side) (t : Z) (a : tier_assignment) : tier_assignment :=
  match s with side_key => mk_tiers t (t_value a) | side_value => mk_tiers (t_key a) t end.

Definition get_side (s : kv_side) (a : tier_assignment) : Z :=
  match s with side_key => t_key a | side_value => t_value a end.

Record tier_map := mk_tier_map { tm_out : list tier_assignment; tm_key_seen : list bool; tm_value_seen : list bool }.

Definition tm_seen (s : kv_side) (m : tier_map) : list bool :=
  match s with side_key => tm_key_seen m | side_value => tm_value_seen m end.

(** The loop body for one layer of an override. *)
Definition override_layer (item : tier_override) (m : tier_map) (layer : Z) : result string tier_map :=
  let i := Z.to_nat layer in
  guard? negb (default false (tm_seen (o_side item) m !! i))
    else ("KV tier overrides overlap on layer " ++ pretty layer
          ++ match o_side item with side_key => " K" | side_value => " V" end)%string in
  Ok (match o_side item with
      | side_key => mk_tier_map (alter (set_side side_key (o_type item)) i (tm_out m)) (<[i := true]> (tm_key_seen m)) (tm_value_seen m)
      | side_value => mk_tier_map (alter (set_side side_value (o_type item)) i (tm_out m)) (tm_key_seen m) (<[i := true]> (tm_value_seen m))
      end).

Definition apply_override (n_layer : Z) (m : tier_map) (item : tier_override) : result string tier_map :=
  guard? valid_type (o_type item) else "KV tier override has an invalid type" in
  guard? negb ((o_begin item >=? o_end item) || (o_end item >? n_layer))
    else "KV tier override range is outside the model layer range" in
  foldM (override_layer item) (seqZ (o_begin item) (o_end item - o_begin item)) m.

(** On failure [out] is empty and the message is the error. *)
Definition build_static_tier_map (n_layer base_key base_value : Z) (overrides : list tier_override)
    : result string (list tier_assignment) :=
  guard? negb (n_layer =? 0) else "KV tier map requires at least one layer" in
  guard? valid_type base_key && valid_type base_value else "KV tier map has an invalid base type" in
  let n := Z.to_nat n_layer in
  let? m := foldM (apply_override n_layer) overrides
    (mk_tier_map (replicate n (mk_tiers base_key base_value)) (replicate n false) (replicate n false)) in
  Ok (tm_out m).

(** ** The VBR solver *)

Definition side_id (r : layer_side) : Z :=
  Z.lor (Z.shiftl (ls_layer r) 1) (match ls_side r with side_value => 1 | side_key => 0 end).

Definition side_dim (g : layer_geometry) (s : kv_side) : Z :=
  match s with side_key => key_head_dim g | side_value => value_head_dim g end.

#[export] Instance geometry_inhabited : Inhabited layer_geometry := populate (mk_geometry 0 0 0).
#[export] Instance tiers_inhabited : Inhabited tier_assignment := populate (mk_tiers 0 0).
#[export] Instance candidate_inhabited : Inhabited tier_candidate := populate (mk_candidate 0 f_zero).

(** The candidate checks; [previous] is the cost before. *)
Fixpoint check_candidates (previous : option spec_float) (l : list tier_candidate) : bool :=
  match l with
  | [] => true
  | c :: l =>
      if negb (valid_type (ca_type c)) || negb (is_finite (ca_cost c)) || SFltb (ca_cost c) f_zero
         || match previous with Some p => f_le (ca_cost c) p | None => false end
      then false
      else check_candidates (Some (ca_cost c)) l
  end.

(** The order checks, with the set of sides seen. *)
Fixpoint check_order (n_layer : Z) (seen : gset Z) (l : list layer_side) : bool :=
  match l with
  | [] => true
  | r :: l =>
      if (ls_layer r >=? n_layer) || bool_decide (side_id r ∈ seen) then false
      else check_order n_layer ({[side_id r]} ∪ seen) l
  end.

(** The state of the search: the result so far and [tier_indices] ([uint8_t]). *)
Record vbr_state := mk_vbr_state {
  vs_tiers : list tier_assignment;
  vs_indices : list Z;
  vs_bytes : Z;
  vs_cost : spec_float;
}.

Definition index_slot (r : layer_side) : nat :=
  Z.to_nat (ls_layer r * 2 + match ls_side r with side_value => 1 | side_key => 0 end).

Definition step_delta (q : vbr_request) (candidate_index : nat) (rank : nat) : spec_float :=
  let sensitivity := f_add (f_of_Z 1) (f_div (f_of_Z (Z.of_nat rank)) (f_of_Z (Z.of_nat (length (vr_order q))))) in
  f_mul (f_sub (ca_cost (vr_candidates q !!! candidate_index)) (ca_cost (vr_candidates q !!! pred candidate_index)))
        sensitivity.

(** The body of the inner loop. *)
Definition vbr_side (geometry : list layer_geometry) (q : vbr_request) (candidate_index rank : nat) (r : layer_side)
    (s : vbr_state) : vbr_state :=
  if negb (default 0 (vs_indices s !! index_slot r) =? Z.of_nat candidate_index - 1) then s
  else
    let delta := step_delta q candidate_index rank in
    if f_gt (f_add (vs_cost s) delta) (f_add (vr_floor q) f_epsilon) then s
    else
      let g := geometry !!! Z.to_nat (ls_layer r) in
      let current := get_side (ls_side r) (vs_tiers s !!! Z.to_nat (ls_layer r)) in
      let next_type := ca_type (vr_candidates q !!! candidate_index) in
      let before := side_bytes current (side_dim g (ls_side r)) (head_count g) (vr_context q) in
      let after := side_bytes next_type (side_dim g (ls_side r)) (head_count g) (vr_context q) in
      if after >=? before then s
      else mk_vbr_state (alter (set_side (ls_side r) next_type) (Z.to_nat (ls_layer r)) (vs_tiers s))
             (<[index_slot r := Z.of_nat candidate_index mod 256]> (vs_indices s))
             (wrap64 (vs_bytes s - (before - after))) (f_add (vs_cost s) delta).

(** The loops over the ranks and over the candidates; both stop once the budget
    is met. *)
Fixpoint vbr_pass (geometry : list layer_geometry) (q : vbr_request) (candidate_index rank : nat) (l : list layer_side)
    (s : vbr_state) : vbr_state :=
  match l with
  | [] => s
  | r :: l =>
      if vs_bytes s >? vr_budget q
      then vbr_pass geometry q candidate_index (S rank) l (vbr_side geometry q candidate_index rank r s)
      else s
  end.

Fixpoint vbr_passes (geometry : list layer_geometry) (q : vbr_request) (candidate_index : nat) (n : nat) (s : vbr_state)
    : vbr_state :=
  match n with
  | O => s
  | S n =>
      if vs_bytes s >? vr_budget q
      then vbr_passes geometry q (S candidate_index) n (vbr_pass geometry q candidate_index 0 (vr_order q) s)
      else s
  end.

Definition vbr_start (geometry : list layer_geometry) (q : vbr_request) : vbr_state :=
  let t := ca_type (vr_candidates q !!! 0%nat) in
  let tiers := replicate (length geometry) (mk_tiers t t) in
  mk_vbr_state tiers (replicate (length geometry * 2) 0) (tier_plan_bytes tiers geometry (vr_context q)) f_zero.

Definition solve_vbr (geometry : list layer_geometry) (q : vbr_request) : result string vbr_result :=
  guard? negb (bool_decide (geometry = [])) && negb (vr_context q =? 0) && negb (length (vr_candidates q) =? 0)%nat
    else "VBR requires layers, a non-zero context, and tier candidates" in
  guard? is_finite (vr_floor q) && negb (SFltb (vr_floor q) f_zero)
    else "VBR quality floor must be finite and non-negative" in
  guard? (length (vr_order q) =? length geometry * 2)%nat
    else "VBR sensitivity order must contain every layer-side exactly once" in
  guard? check_candidates None (vr_candidates q)
    else "VBR candidates must have valid types and strictly increasing quality cost" in
  guard? check_order (Z.of_nat (length geometry)) ∅ (vr_order q)
    else "VBR sensitivity order contains an invalid or duplicate layer-side" in
  let s := vbr_start geometry q in
  guard? negb (vs_bytes s =? SIZE_MAX) else "VBR byte accounting overflow" in
  let s := vbr_passes geometry q 1 (pred (length (vr_candidates q))) s in
  Ok (mk_vbr_result (vs_tiers s) (vs_bytes s) (vs_cost s) (vs_bytes s <=? vr_budget q)).

(** ** Transitions *)

Fixpoint plan_transitions_from (layer : Z) (current target : list tier_assignment) : list tier_transition :=
  match current, target with
  | c :: current, t :: target =>
      (if negb (t_key c =? t_key t) then [mk_transition (mk_layer_side layer side_key) (t_key c) (t_key t)] else [])
      ++ (if negb (t_value c =? t_value t) then [mk_transition (mk_layer_side layer side_value) (t_value c) (t_value t)] else [])
      ++ plan_transitions_from (layer + 1) current target
  | _, _ => []
  end.

Definition plan_tier_transitions (current target : list tier_assignment) : list tier_transition :=
  if negb (length current =? length target)%nat then [] else plan_transitions_from 0 current target.

Section atomic.
(** The world the callbacks act on; a callback that is absent is [None]. *)
Context {W : Type}.
Context (prepare : option (tier_transition -> string -> W -> bool * string * W)) (commit rollback : option (W -> W)).

(** [prepare] takes and sets the error message. *)
Fixpoint prepare_all (f : tier_transition -> string -> W -> bool * string * W) (l : list tier_transition) (error : string)
    (w : W) : bool * string * W :=
  match l with
  | [] => (true, error, w)
  | t :: l => let '(ok, error, w) := f t error w in
              if ok then prepare_all f l error w else (false, error, w)
  end.

Definition apply_tier_transitions_atomic (current target : list tier_assignment) (w : W)
    : bool * list tier_assignment * string * W :=
  match prepare, commit, rollback with
  | Some prepare, Some commit, Some rollback =>
      if negb (length current =? length target)%nat
      then (false, current, "invalid failure-atomic KV transition request", w)
      else
        let '(ok, error, w) := prepare_all prepare (plan_tier_transitions current target) "" w in
        if ok then (true, target, error, commit w)
        else (false, current, if bool_decide (error = "") then "KV tier transition preparation failed" else error, rollback w)
  | _, _, _ => (false, current, "invalid failure-atomic KV transition request", w)
  end.
End atomic.

(** ** Padding *)

Lemma pad_i64_ceil x k : 0 <= k -> pad_i64 x (2 ^ k) = 2 ^ k * ((x + 2 ^ k - 1) / 2 ^ k).
Proof.
  intros Hk. unfold pad_i64. change (Z.land ?a (Z.lnot (?n - 1))) with (mask_down a n). rewrite mask_down_pow2 by done.
  pose proof (Z.div_mod (x + 2 ^ k - 1) (2 ^ k)). lia.
Qed.

Lemma pad_u32_turbo x : 0 <= x -> x + 127 <= UINT32_MAX -> pad_u32 x TURBO_BLOCK = pad_i64 x (2 ^ 7).
Proof.
  intros Hx Hm. unfold pad_u32, pad_i64. change TURBO_BLOCK with (2 ^ 7).
  rewrite wrap32_small by (unfold u32; lia).
  change (wrap32 (Z.lnot (2 ^ 7 - 1))) with (Z.land (Z.ones 32) (Z.lnot (2 ^ 7 - 1))).
  rewrite Z.land_assoc, Z.land_ones by lia. rewrite Z.mod_small; [done|]. unfold UINT32_MAX in Hm. lia.
Qed.

(** A dimension of [t] that needs no 33rd bit to be padded. *)
Definition small_dim (x : Z) : Prop := 0 <= x /\ x + 255 <= UINT32_MAX.

Lemma head_dim_padded t x :
  valid_type t = true -> small_dim x ->
  let padded := kv_head_dim_for_type t x in
  x <= padded < x + ggml_blck_size t /\ whole_blocks t padded.
Proof.
  intros Hv [Hx Hm]. unfold valid_type, ggml_type_name in Hv. destruct (type_traits t) as [e|] eqn:He; [|by rewrite andb_false_r in Hv].
  destruct (type_traits_ok _ _ He) as (_ & (k & Hk & Hb) & _).
  assert (Hbs : ggml_blck_size t = 2 ^ k) by (unfold ggml_blck_size; by rewrite He).
  assert (Hpow : 0 < 2 ^ k) by (apply Z.pow_pos_nonneg; lia).
  assert (Hle : 2 ^ k <= 256) by (change 256 with (2 ^ 8); apply Z.pow_le_mono_r; lia).
  assert (Hceil : x <= 2 ^ k * ((x + 2 ^ k - 1) / 2 ^ k) < x + 2 ^ k).
  { pose proof (Z.div_mod (x + 2 ^ k - 1) (2 ^ k)). pose proof (Z.mod_pos_bound (x + 2 ^ k - 1) (2 ^ k)). lia. }
  unfold kv_head_dim_for_type, whole_blocks. rewrite Hbs. destruct (kv_type_is_turbo t) eqn:Ht.
  - assert (Hk7 : 2 ^ k = 2 ^ 7).
    { rewrite <- Hbs. unfold kv_type_is_turbo in Ht.
      repeat (apply orb_true_iff in Ht as [Ht|Ht]); apply Z.eqb_eq in Ht; subst t; reflexivity. }
    rewrite Hk7 in *. rewrite pad_u32_turbo, pad_i64_ceil by lia. split; [done|]. rewrite Z.mul_comm. apply Z.mod_mul. lia.
  - destruct (ggml_is_quantized t) eqn:Hq.
    + rewrite pad_i64_ceil by lia. rewrite wrap32_small by (unfold u32; lia). split; [done|]. rewrite Z.mul_comm. apply Z.mod_mul. lia.
    + assert (Hk1 : 2 ^ k = 1).
      { rewrite <- Hbs. pose proof (unquantized_blocks _ _ He) as Hu. unfold ggml_is_quantized, ggml_blck_size in *.
        rewrite He in *. by apply Hu. }
      rewrite Hk1. split; [lia|]. apply Z.mod_1_r.
Qed.

(** ** Byte accounting is exact or saturates *)

(** The bytes of one side, over the integers. *)
Definition side_exact (t head_dim heads context : Z) : Z :=
  if (head_dim =? 0) || (heads =? 0) || (context =? 0) then 0
  else ggml_row_size t (kv_head_dim_for_type t head_dim) * heads * context.

Definition layer_exact (a : tier_assignment) (g : layer_geometry) (context : Z) : Z :=
  side_exact (t_key a) (key_head_dim g) (head_count g) context
  + side_exact (t_value a) (value_head_dim g) (head_count g) context.

Fixpoint plan_exact (tiers : list tier_assignment) (geometry : list layer_geometry) (context : Z) : Z :=
  match tiers, geometry with
  | a :: tiers, g :: geometry => layer_exact a g context + plan_exact tiers geometry context
  | _, _ => 0
  end.

(** Sizes as the types of the fields allow them. *)
Definition geometry_ok (g : layer_geometry) : Prop :=
  u32 (key_head_dim g) /\ u32 (value_head_dim g) /\ u32 (head_count g).

Lemma row_size_u64 t ne : u64 (ggml_row_size t ne).
Proof. unfold ggml_row_size. destruct (type_traits t); [apply wrap64_u64|unfold u64, UINT64_MAX; lia]. Qed.

Lemma div_limit_test a b m : 0 < b -> 0 <= a -> (a >? m / b) = false <-> a * b <= m.
Proof.
  intros Hb Ha. rewrite Z.gtb_ltb, Z.ltb_ge. split; intros H.
  - pose proof (Z.mul_div_le m b Hb). nia.
  - apply Z.div_le_lower_bound; lia.
Qed.

Lemma side_bytes_min t d h c : 0 <= h -> 0 <= c -> side_bytes t d h c = Z.min (side_exact t d h c) SIZE_MAX.
Proof.
  intros Hh Hc. unfold side_bytes, side_exact. destruct (_ || _) eqn:E; [vm_compute; done|].
  bool_facts. set (row := ggml_row_size t (kv_head_dim_for_type t d)).
  destruct (row_size_u64 t (kv_head_dim_for_type t d)) as [Hr0 Hr1]. fold row in Hr0, Hr1.
  destruct (row >? SIZE_MAX / h) eqn:E1; cbn [orb].
  - apply not_false_iff_true in E1. rewrite div_limit_test in E1 by lia. unfold SIZE_MAX in *. nia.
  - rewrite div_limit_test in E1 by lia. rewrite (wrap64_small (row * h)) by (unfold u64, SIZE_MAX in *; nia).
    destruct (row * h >? SIZE_MAX / c) eqn:E2.
    + apply not_false_iff_true in E2. rewrite div_limit_test in E2 by nia. lia.
    + rewrite div_limit_test in E2 by nia. rewrite wrap64_small by (unfold u64, SIZE_MAX in *; nia). lia.
Qed.

Lemma side_exact_nonneg t d h c : 0 <= h -> 0 <= c -> 0 <= side_exact t d h c.
Proof.
  intros Hh Hc. unfold side_exact. destruct (_ || _); [done|].
  destruct (row_size_u64 t (kv_head_dim_for_type t d)). nia.
Qed.

Lemma plan_exact_nonneg tiers geometry c : Forall geometry_ok geometry -> 0 <= c -> 0 <= plan_exact tiers geometry c.
Proof.
  intros Hg Hc. revert tiers. induction Hg as [|g geometry (_ & _ & Hh & _) Hg IH]; intros [|a tiers]; simpl; try done.
  unfold layer_exact. specialize (IH tiers).
  pose proof (side_exact_nonneg (t_key a) (key_head_dim g) (head_count g) c Hh Hc).
  pose proof (side_exact_nonneg (t_value a) (value_head_dim g) (head_count g) c Hh Hc). lia.
Qed.

Lemma plan_bytes_loop_min tiers geometry c total :
  Forall geometry_ok geometry -> 0 <= c -> 0 <= total <= SIZE_MAX -> length tiers = length geometry ->
  plan_bytes_loop tiers geometry c total = Z.min (total + plan_exact tiers geometry c) SIZE_MAX.
Proof.
  intros Hg Hc. revert tiers total. induction Hg as [|g geometry (Hgk & Hgv & Hh) Hg IH]; intros [|a tiers] total Ht Hlen; try done.
  { simpl. lia. }
  simpl. pose proof (plan_exact_nonneg tiers geometry c Hg Hc) as Hrest. unfold u32 in *.
  pose proof (side_exact_nonneg (t_key a) (key_head_dim g) (head_count g) c ltac:(lia) Hc) as Hk.
  pose proof (side_exact_nonneg (t_value a) (value_head_dim g) (head_count g) c ltac:(lia) Hc) as Hv.
  unfold layer_exact. rewrite !side_bytes_min by lia. unfold SIZE_MAX in *.
  set (k := side_exact (t_key a) _ _ _) in *. set (v := side_exact (t_value a) _ _ _) in *.
  destruct (_ || _) eqn:E.
  - repeat (apply orb_true_iff in E as [E|E]).
    + apply Z.eqb_eq in E. lia.
    + apply Z.eqb_eq in E. lia.
    + rewrite Z.gtb_lt in E. lia.
    + rewrite Z.gtb_lt in E. destruct (Z_le_gt_dec (total + Z.min k UINT64_MAX) UINT64_MAX); [|lia].
      rewrite wrap64_small in E by (unfold u64; lia). lia.
  - bool_facts. rewrite wrap64_small in * by (unfold u64; lia).
    assert (k < UINT64_MAX /\ v < UINT64_MAX) as [Hk1 Hv1] by lia. rewrite !Z.min_l in * by lia.
    rewrite (wrap64_small (k + v)) by (unfold u64; lia). rewrite wrap64_small by (unfold u64; lia).
    rewrite IH by (lia || (simpl in Hlen; lia)). f_equal. lia.
Qed.

Lemma tier_plan_bytes_min tiers geometry c :
  Forall geometry_ok geometry -> 0 <= c -> length tiers = length geometry ->
  tier_plan_bytes tiers geometry c = Z.min (plan_exact tiers geometry c) SIZE_MAX.
Proof.
  intros Hg Hc Hlen. unfold tier_plan_bytes. rewrite Hlen, Nat.eqb_refl. cbn [negb].
  rewrite plan_bytes_loop_min; [by rewrite Z.add_0_l|done..|vm_compute; split; discriminate|done].
Qed.

(** KV byte accounting.  For 32-bit geometries the size of a tier plan is the
    exact integer sum over all layers and both sides of padded row bytes times
    heads times context, unless that reaches [SIZE_MAX], which is then the
    result: no intermediate product or sum wraps around. *)
Theorem kv_accounting_saturates tiers geometry context :
  Forall geometry_ok geometry -> u32 context ->
  tier_plan_bytes tiers geometry context =
  if (length tiers =? length geometry)%nat then Z.min (plan_exact tiers geometry context) SIZE_MAX else SIZE_MAX.
Proof.
  intros Hg [Hc _]. destruct (Nat.eqb_spec (length tiers) (length geometry)) as [Hlen|Hlen].
  - by apply tier_plan_bytes_min.
  - unfold tier_plan_bytes. apply Nat.eqb_neq in Hlen. by rewrite Hlen.
Qed.

(** ** The solver *)

Lemma plan_exact_alter tiers geometry c i a g f :
  tiers !! i = Some a -> geometry !! i = Some g ->
  plan_exact (alter f i tiers) geometry c = plan_exact tiers geometry c + (layer_exact (f a) g c - layer_exact a g c).
Proof.
  revert i geometry. induction tiers as [|x tiers IH]; intros [|i] [|y geometry] Ha Hg; try done.
  - injection Ha as ->. injection Hg as ->. simpl. lia.
  - change (alter f (S i) (x :: tiers)) with (x :: alter f i tiers). cbn [plan_exact]. rewrite (IH i geometry Ha Hg). lia.
Qed.

Lemma layer_exact_set s t a g c :
  layer_exact (set_side s t a) g c =
  layer_exact a g c - side_exact (get_side s a) (side_dim g s) (head_count g) c + side_exact t (side_dim g s) (head_count g) c.
Proof. unfold layer_exact. destruct s; simpl; lia. Qed.

Section solver.
Context (geometry : list layer_geometry) (q : vbr_request).
Context (Hg : Forall geometry_ok geometry) (Hctx : u32 (vr_context q)).

Definition side_in_range (r : layer_side) : Prop := 0 <= ls_layer r < Z.of_nat (length geometry).

(** What every round of the search keeps. *)
Record vbr_inv (s : vbr_state) : Prop := {
  vi_len : length (vs_tiers s) = length geometry;
  vi_bytes : vs_bytes s = plan_exact (vs_tiers s) geometry (vr_context q);
  vi_start : vs_bytes s <= vs_bytes (vbr_start geometry q) < SIZE_MAX;
  vi_cost : vs_cost s = f_zero \/ f_gt (vs_cost s) (f_add (vr_floor q) f_epsilon) = false;
  vi_types : Forall (fun a => forall side, exists c, c ∈ vr_candidates q /\ get_side side a = ca_type c) (vs_tiers s);
}.

Lemma exact_of_layer tiers i a g :
  length tiers = length geometry -> tiers !! i = Some a -> geometry !! i = Some g ->
  layer_exact a g (vr_context q) <= plan_exact tiers geometry (vr_context q).
Proof.
  clear -Hg Hctx. revert i tiers. induction Hg as [|y l Hy Hl IH]; intros [|i] [|x tiers] Hlen Ha Hgi; simpl in *; try done.
  - simplify_eq. pose proof (plan_exact_nonneg tiers l (vr_context q) Hl (proj1 Hctx)). lia.
  - specialize (IH Hl i tiers ltac:(lia) Ha Hgi). destruct Hy as (_ & _ & Hh & _), Hctx as [Hc _]. unfold layer_exact.
    pose proof (side_exact_nonneg (t_key x) (key_head_dim y) (head_count y) _ Hh Hc).
    pose proof (side_exact_nonneg (t_value x) (value_head_dim y) (head_count y) _ Hh Hc). unfold layer_exact in IH. lia.
Qed.

Lemma vbr_side_inv ci rank r s :
  (ci < length (vr_candidates q))%nat -> side_in_range r -> vbr_inv s -> vbr_inv (vbr_side geometry q ci rank r s).
Proof.
  intros Hci Hr Hi. unfold vbr_side. destruct (negb _); [done|].
  destruct (f_gt _ _) eqn:Hgt; [done|].
  destruct Hi as [Hlen Hb Hst Hcost Hty].
  destruct (lookup_lt_is_Some_2 geometry (Z.to_nat (ls_layer r))) as [g Hgi]; [unfold side_in_range in Hr; lia|].
  destruct (lookup_lt_is_Some_2 (vs_tiers s) (Z.to_nat (ls_layer r))) as [a Ha]; [unfold side_in_range in Hr; lia|].
  rewrite (list_lookup_total_correct _ _ _ Hgi), (list_lookup_total_correct _ _ _ Ha).
  set (t := ca_type (vr_candidates q !!! ci)).
  assert (Hgo : geometry_ok g) by (rewrite Forall_forall in Hg; by eapply Hg, list_elem_of_lookup_2).
  destruct Hgo as (_ & _ & Hh & _), Hctx as [Hc _]. rewrite !side_bytes_min by done.
  set (before := side_exact (get_side (ls_side r) a) (side_dim g (ls_side r)) (head_count g) (vr_context q)).
  set (after := side_exact t (side_dim g (ls_side r)) (head_count g) (vr_context q)).
  destruct (_ >=? _) eqn:Hcmp; [by split|]. rewrite Z.geb_leb, Z.leb_gt in Hcmp.
  pose proof (exact_of_layer _ _ _ _ Hlen Ha Hgi) as Hle.
  pose proof (side_exact_nonneg t (side_dim g (ls_side r)) (head_count g) _ Hh Hc) as Hnn. fold after in Hnn.
  assert (Hlb : before <= layer_exact a g (vr_context q)).
  { unfold before, layer_exact.
    pose proof (side_exact_nonneg (t_key a) (key_head_dim g) (head_count g) _ Hh Hc).
    pose proof (side_exact_nonneg (t_value a) (value_head_dim g) (head_count g) _ Hh Hc). destruct (ls_side r); simpl; lia. }
  rewrite !Z.min_l by lia.
  assert (Hexact : plan_exact (alter (set_side (ls_side r) t) (Z.to_nat (ls_layer r)) (vs_tiers s)) geometry (vr_context q)
    = vs_bytes s - (before - after)).
  { rewrite (plan_exact_alter _ _ _ _ _ _ _ Ha Hgi), layer_exact_set. fold before after. lia. }
  split; cbn [vs_tiers vs_bytes vs_cost].
  - by rewrite length_alter.
  - rewrite Hexact. apply wrap64_small. unfold u64, SIZE_MAX in *. lia.
  - rewrite wrap64_small by (unfold u64, SIZE_MAX in *; lia). lia.
  - by right.
  - apply Forall_alter; [done|]. intros x Hx Hold side. destruct (decide (side = ls_side r)) as [->|Hne].
    + exists (vr_candidates q !!! ci). split; [|by destruct (ls_side r)].
      apply list_elem_of_lookup_total_2. done.
    + destruct (Hold side) as (c & Hin & Heq). exists c. split; [done|]. rewrite <- Heq. by destruct side, (ls_side r).
Qed.

Lemma vbr_pass_inv ci rank l s :
  (ci < length (vr_candidates q))%nat -> Forall side_in_range l -> vbr_inv s -> vbr_inv (vbr_pass geometry q ci rank l s).
Proof.
  intros Hci Hl. revert rank s. induction Hl as [|r l Hr Hl IH]; intros rank s Hs; simpl; [done|].
  destruct (_ >? _); [|done]. by apply IH, vbr_side_inv.
Qed.

Lemma vbr_passes_inv n ci s :
  (ci + n <= length (vr_candidates q))%nat -> Forall side_in_range (vr_order q) -> vbr_inv s ->
  vbr_inv (vbr_passes geometry q ci n s).
Proof.
  revert ci s. induction n as [|n IH]; intros ci s Hci Hl Hs; simpl; [done|].
  destruct (_ >? _); [|done]. apply IH; [lia|done|]. apply vbr_pass_inv; [lia|done..].
Qed.

Lemma vbr_start_inv :
  vr_candidates q <> [] -> vs_bytes (vbr_start geometry q) <> SIZE_MAX -> vbr_inv (vbr_start geometry q).
Proof.
  intros Hne Hb. assert (Hlen : length (vs_tiers (vbr_start geometry q)) = length geometry) by (simpl; apply length_replicate).
  assert (Heq : vs_bytes (vbr_start geometry q) = plan_exact (vs_tiers (vbr_start geometry q)) geometry (vr_context q) /\
    vs_bytes (vbr_start geometry q) < SIZE_MAX).
  { revert Hb. unfold vbr_start. cbn [vs_bytes vs_tiers]. rewrite tier_plan_bytes_min; [lia|done|apply Hctx|apply length_replicate]. }
  destruct Heq as [Heq Hlt]. split; [done|done|split; [done|exact Hlt]|by left|].
  unfold vbr_start. cbn [vs_tiers]. apply Forall_replicate. intros side. exists (vr_candidates q !!! 0%nat). split.
  - apply list_elem_of_lookup_total_2. destruct (vr_candidates q); [done|simpl; lia].
  - by destruct side.
Qed.
End solver.

(** C40: Soundness of the VBR solver.  When it succeeds, the byte count that it
    maintains incrementally is exactly what recomputing the final plan gives, it
    never exceeds the all-best plan it started from, every layer side uses one of
    the candidate types, the accumulated quality cost (in IEEE doubles) is zero
    or not above the floor plus 1e-12, and [budget_satisfied] says precisely
    whether the plan fits the budget. *)
Theorem vbr_solution_sound geometry q out :
  Forall geometry_ok geometry -> u32 (vr_context q) -> Forall (fun r => 0 <= ls_layer r) (vr_order q) ->
  solve_vbr geometry q = Ok out ->
  vo_bytes out = tier_plan_bytes (vo_tiers out) geometry (vr_context q) /\
  vo_bytes out <= vs_bytes (vbr_start geometry q) < SIZE_MAX /\
  length (vo_tiers out) = length geometry /\
  Forall (fun a => forall side, exists c, c ∈ vr_candidates q /\ get_side side a = ca_type c) (vo_tiers out) /\
  (vo_cost out = f_zero \/ f_gt (vo_cost out) (f_add (vr_floor q) f_epsilon) = false) /\
  (vo_satisfied out = true <-> vo_bytes out <= vr_budget q).
Proof.
  intros Hg Hctx Hord. unfold solve_vbr.
  destruct (negb _ && _ && _) eqn:E1; [|done]. destruct (is_finite _ && _) eqn:E2; [|done].
  destruct (length (vr_order q) =? length geometry * 2)%nat eqn:E3; [|done]. destruct (check_candidates _ _) eqn:E4; [|done].
  destruct (check_order _ _ _) eqn:E5; [|done]. destruct (negb (_ =? SIZE_MAX)) eqn:E6; [|done]. intros [= <-]. bool_facts.
  assert (Hne : vr_candidates q <> []) by (intros Hnil; rewrite Hnil in *; done).
  assert (Hrange : Forall (side_in_range geometry) (vr_order q)).
  { clear - Hord E5. revert E5. generalize (∅ : gset Z). induction Hord as [|r l Hr Hl IH]; intros seen; simpl; [constructor|].
    destruct (_ || _) eqn:E; [done|]. intros Hrest. bool_facts. constructor; [split; lia|]. by eapply IH. }
  pose proof (vbr_passes_inv geometry q Hg Hctx (pred (length (vr_candidates q))) 1 (vbr_start geometry q)) as Hi.
  destruct Hi as [I1 I2 I3 I4 I5]; [destruct (vr_candidates q); [done|simpl; lia]|done|by apply vbr_start_inv|].
  cbn [vo_bytes vo_tiers vo_cost vo_satisfied]. split_and!; try done; try apply I3.
  - rewrite tier_plan_bytes_min; [|done|apply Hctx|done]. rewrite I2. lia.
  - apply Z.leb_le.
Qed.

(** Two layers of 8 heads, dimension 128; half of the F16 bytes as budget. *)
Definition demo_geometry : list layer_geometry := [mk_geometry 128 128 8; mk_geometry 128 64 8].
Definition demo_request (types : list (Z * Z)) (budget : Z) : vbr_request :=
  mk_vbr_request 4096 budget (f_of_Z 100) ((fun x => mk_candidate x.1 (f_of_Z x.2)) <$> types)
    [mk_layer_side 1 side_value; mk_layer_side 0 side_value; mk_layer_side 1 side_key; mk_layer_side 0 side_key].

Lemma vbr_solution_sound_witness :
  exists out, solve_vbr demo_geometry (demo_request [(TYPE_F16, 0); (TYPE_Q8_0, 2)] 20000000) = Ok out /\
    vo_satisfied out = true /\ vo_bytes out <= 20000000.
Proof.
  destruct (solve_vbr demo_geometry (demo_request [(TYPE_F16, 0); (TYPE_Q8_0, 2)] 20000000)) as [out|e] eqn:E; [|by vm_compute in E].
  exists out. split; [done|].
  destruct (vbr_solution_sound demo_geometry (demo_request [(TYPE_F16, 0); (TYPE_Q8_0, 2)] 20000000) out) as (_ & _ & _ & _ & _ & H); [| | |done|].
  - repeat constructor; vm_compute; discriminate.
  - split; vm_compute; discriminate.
  - repeat constructor; vm_compute; discriminate.
  - assert (Hs : vo_satisfied out = true) by (vm_compute in E; injection E as <-; reflexivity). split; [done|]. by apply H.
Defined.

(** A candidate that does not shrink a side removes that side from the rest of
    the search.  With candidates F16, BF16 (same size) and Q8_0 and a generous
    quality floor the solver stops at the F16 plan with cost zero and misses the
    budget, although neither the budget is met nor the floor reached and the same
    request without BF16 meets the budget. *)
Theorem vbr_stalls_behind_equal_tier :
  let with_bf16 := demo_request [(TYPE_F16, 0); (TYPE_BF16, 1); (TYPE_Q8_0, 2)] 20000000 in
  let without := demo_request [(TYPE_F16, 0); (TYPE_Q8_0, 2)] 20000000 in
  (exists out, solve_vbr demo_geometry with_bf16 = Ok out /\ vo_satisfied out = false /\ vo_cost out = f_zero) /\
  (exists out, solve_vbr demo_geometry without = Ok out /\ vo_satisfied out = true).
Proof.
  split.
  - eexists. split; [vm_compute; reflexivity|]. split; reflexivity.
  - eexists. split; [vm_compute; reflexivity|]. reflexivity.
Qed.

Lemma kv_accounting_saturates_witness :
  tier_plan_bytes [mk_tiers TYPE_F16 TYPE_Q8_0; mk_tiers TYPE_TURBO4_0 TYPE_TURBO4_0] demo_geometry 4096 =
  Z.min (plan_exact [mk_tiers TYPE_F16 TYPE_Q8_0; mk_tiers TYPE_TURBO4_0 TYPE_TURBO4_0] demo_geometry 4096) SIZE_MAX.
Proof.
  apply (kv_accounting_saturates [mk_tiers TYPE_F16 TYPE_Q8_0; mk_tiers TYPE_TURBO4_0 TYPE_TURBO4_0] demo_geometry 4096).
  - repeat constructor; vm_compute; discriminate.
  - split; vm_compute; discriminate.
Defined.

(** Head padding.  For every registered type the padded head dimension is the
    smallest whole number of blocks that holds the head, so rows never let a
    block straddle two heads, [ggml_row_size]'s divisibility condition always
    holds, and the row size is metadata plus block bytes times blocks exactly. *)
Theorem head_padding_is_block_ceiling t x e :
  type_traits t = Some e -> small_dim x ->
  let padded := kv_head_dim_for_type t x in
  x <= padded < x + blck_size e /\ padded mod blck_size e = 0 /\
  ggml_row_size t padded = row_meta_size e + type_size e * (padded / blck_size e).
Proof.
  intros He Hx padded. assert (Hv : valid_type t = true).
  { destruct (type_traits_ok _ _ He) as (Ht & _). unfold valid_type, ggml_type_name. rewrite He. simpl.
    rewrite andb_true_r. apply andb_true_iff. rewrite Z.leb_le, Z.ltb_lt. lia. }
  destruct (head_dim_padded t x Hv Hx) as [H1 H2]. fold padded in H1, H2.
  assert (Hb : ggml_blck_size t = blck_size e) by (unfold ggml_blck_size; by rewrite He).
  pose proof (type_size_bound t) as [_ Hbb]. destruct Hx as [Hx0 Hx1].
  destruct (row_size_exact t e padded He) as [H3 _]; [lia|done|]. unfold whole_blocks in H2. rewrite Hb in H1, H2. exact (conj H1 (conj H2 H3)).
Qed.

Lemma head_padding_is_block_ceiling_witness :
  kv_head_dim_for_type TYPE_Q8_0 80 = 96 /\ ggml_row_size TYPE_Q8_0 96 = 34 * 3.
Proof.
  split; [reflexivity|].
  destruct (head_padding_is_block_ceiling TYPE_Q8_0 80 (mk_traits "q8_0" 32 34 true 0)) as (_ & _ & H);
    [vm_compute; reflexivity|split; vm_compute; discriminate|exact H].
Defined.

(** ** The static tier map *)

Definition covers (o : tier_override) (s : kv_side) (layer : Z) : bool :=
  bool_decide (s = o_side o) && (o_begin o <=? layer) && (layer <? o_end o).

(** The type that a list of overrides gives to a layer side. *)
Definition tier_of (base : Z) (l : list tier_override) (s : kv_side) (layer : Z) : Z :=
  foldl (fun t o => if covers o s layer then o_type o else t) base l.

Definition covered_by (l : list tier_override) (s : kv_side) (layer : Z) : bool :=
  existsb (fun o => covers o s layer) l.

Definition override_ok (n_layer : Z) (o : tier_override) : Prop :=
  valid_type (o_type o) = true /\ o_begin o < o_end o /\ o_end o <= n_layer.

Definition overrides_apart (o o' : tier_override) : Prop :=
  forall s layer, covers o s layer = true -> covers o' s layer = false.

(** The map state agrees with two functions of side and layer. *)
Record map_is (n : Z) (T : kv_side -> Z -> Z) (S : kv_side -> Z -> bool) (m : tier_map) : Prop := {
  mi_len : length (tm_out m) = Z.to_nat n;
  mi_out : forall s i, 0 <= i < n -> get_side s <$> (tm_out m !! Z.to_nat i) = Some (T s i);
  mi_seen : forall s i, 0 <= i < n -> tm_seen s m !! Z.to_nat i = Some (S s i);
}.

Lemma map_is_ext n T S T' S' m :
  (forall s i, 0 <= i < n -> T s i = T' s i /\ S s i = S' s i) -> map_is n T S m -> map_is n T' S' m.
Proof.
  intros He [H1 H2 H3]. split; [done| |].
  - intros s i Hi. rewrite H2 by done. by rewrite (proj1 (He s i Hi)).
  - intros s i Hi. rewrite H3 by done. by rewrite (proj2 (He s i Hi)).
Qed.

Definition upd_side {A} (s : kv_side) (layer : Z) (x : A) (f : kv_side -> Z -> A) : kv_side -> Z -> A :=
  fun s' i => if bool_decide (s' = s) && (i =? layer) then x else f s' i.

Lemma get_set_side s s' t a : get_side s (set_side s' t a) = if bool_decide (s = s') then t else get_side s a.
Proof. by destruct s, s'. Qed.

Lemma override_layer_ok n item m layer T S :
  map_is n T S m -> 0 <= layer < n ->
  if S (o_side item) layer then exists e, override_layer item m layer = Err e
  else exists m', override_layer item m layer = Ok m' /\
    map_is n (upd_side (o_side item) layer (o_type item) T) (upd_side (o_side item) layer true S) m'.
Proof.
  intros [H1 H2 H3] Hl. unfold override_layer. rewrite (H3 (o_side item) layer Hl). simpl.
  destruct (S (o_side item) layer) eqn:E; [by eexists|]. eexists. split; [done|].
  assert (Hout : forall s i, 0 <= i < n ->
    get_side s <$> (alter (set_side (o_side item) (o_type item)) (Z.to_nat layer) (tm_out m) !! Z.to_nat i)
    = Some (upd_side (o_side item) layer (o_type item) T s i)).
  { intros s i Hi. unfold upd_side. destruct (Z.eqb_spec i layer) as [->|Hne].
    - rewrite list_lookup_alter_eq, <- option_fmap_compose, andb_true_r. specialize (H2 s layer Hl).
      destruct (tm_out m !! Z.to_nat layer); simplify_eq/=. rewrite get_set_side. by rewrite H2.
    - rewrite list_lookup_alter_ne, andb_false_r by lia. auto. }
  assert (Hins : forall s i, 0 <= i < n ->
    <[Z.to_nat layer := true]> (tm_seen s m) !! Z.to_nat i = Some (if i =? layer then true else S s i)).
  { intros s i Hi. destruct (Z.eqb_spec i layer) as [->|Hne].
    - apply list_lookup_insert_eq. eapply lookup_lt_Some. by apply H3.
    - rewrite list_lookup_insert_ne by lia. auto. }
  destruct (o_side item) eqn:Eside; (split; [by cbn; rewrite length_alter|exact Hout|]);
    (intros [] i Hi; unfold upd_side; cbn [tm_seen tm_key_seen tm_value_seen]; case_bool_decide; try done; cbn [andb];
     first [by apply (Hins side_key)|by apply (Hins side_value)|by apply (H3 side_key)|by apply (H3 side_value)]).
Qed.

(** One override: either it runs into a layer side that is already taken, or
    it takes its whole range. *)
Lemma override_range_ok n item k b m T S :
  map_is n T S m -> 0 <= b -> b + Z.of_nat k <= n ->
  let inside s i := bool_decide (s = o_side item) && (b <=? i) && (i <? b + Z.of_nat k) in
  match foldM (override_layer item) (seqZ b (Z.of_nat k)) m with
  | Err _ => exists i, inside (o_side item) i = true /\ S (o_side item) i = true
  | Ok m' => (forall i, inside (o_side item) i = true -> S (o_side item) i = false) /\
      map_is n (fun s i => if inside s i then o_type item else T s i) (fun s i => if inside s i then true else S s i) m'
  end.
Proof.
  revert b m T S. induction k as [|k IH]; intros b m T S Hm Hb Hk inside.
  - simpl. assert (Hno : forall s i, inside s i = false)
      by (intros; unfold inside; destruct (b <=? i) eqn:?, (i <? b + Z.of_nat 0) eqn:?; bool_facts; rewrite ?andb_false_r; lia || done).
    split; [intros i; by rewrite Hno|]. eapply map_is_ext; [|done]. intros. by rewrite Hno.
  - rewrite seqZ_cons by lia. replace (Z.pred (Z.of_nat (Datatypes.S k))) with (Z.of_nat k) by lia. cbn [foldM].
    assert (Hsplit : forall s i, inside s i = (bool_decide (s = o_side item) && (i =? b))
      || (bool_decide (s = o_side item) && (Z.succ b <=? i) && (i <? Z.succ b + Z.of_nat k))).
    { intros s i. unfold inside. case_bool_decide; cbn [andb orb]; [|done].
      destruct (Z.eqb_spec i b), (Z.leb_spec b i), (Z.leb_spec (Z.succ b) i), (Z.ltb_spec i (b + Z.of_nat (Datatypes.S k))),
        (Z.ltb_spec i (Z.succ b + Z.of_nat k)); lia || done. }
    pose proof (override_layer_ok n item m b T S Hm ltac:(lia)) as Hstep. destruct (S (o_side item) b) eqn:Eb.
    { destruct Hstep as [e ->]. exists b. split; [|done]. rewrite Hsplit, bool_decide_true, Z.eqb_refl by done. done. }
    destruct Hstep as (m1 & -> & Hm1). specialize (IH (Z.succ b) m1 _ _ Hm1 ltac:(lia) ltac:(lia)). cbv zeta in IH.
    destruct (foldM (override_layer item) _ m1) as [m'|e].
    + destruct IH as [IHs IHm]. split.
      * intros i Hi. rewrite Hsplit in Hi. destruct (Z.eqb_spec i b) as [Heq|Hne]; [by rewrite Heq|].
        rewrite andb_false_r in Hi. specialize (IHs i Hi). unfold upd_side in IHs.
        rewrite bool_decide_true in IHs by done. apply Z.eqb_neq in Hne. by rewrite Hne in IHs.
      * eapply map_is_ext; [|exact IHm]. intros s i Hi. unfold upd_side. rewrite Hsplit.
        destruct (bool_decide (s = o_side item) && (i =? b)) eqn:?, (bool_decide (s = o_side item) && (Z.succ b <=? i) && _) eqn:?; done.
    + destruct IH as (i & Hi & Hs). exists i. rewrite Hsplit, Hi, orb_true_r. split; [done|].
      unfold upd_side in Hs. destruct (Z.eqb_spec i b) as [->|Hne].
      * destruct (Z.leb_spec (Z.succ b) b); [lia|]. by rewrite andb_false_r in Hi.
      * rewrite andb_false_r in Hs. done.
Qed.

(** The override finds none of its layer sides taken. *)
Definition free_for (S : kv_side -> Z -> bool) (o : tier_override) : Prop :=
  forall s i, covers o s i = true -> S s i = false.

Lemma apply_override_ok n item m T S :
  map_is n T S m -> 0 <= o_begin item ->
  match apply_override n m item with
  | Err _ => ~ (override_ok n item /\ free_for S item)
  | Ok m' => override_ok n item /\ free_for S item /\
      map_is n (fun s i => if covers item s i then o_type item else T s i) (fun s i => covers item s i || S s i) m'
  end.
Proof.
  intros Hm Hb. unfold apply_override, override_ok.
  destruct (valid_type (o_type item)); [|by intros [[? _] _]].
  destruct (negb _) eqn:E; [|intros [(_ & ? & ?) _]; destruct (_ || _) eqn:Eo; [|done]; apply orb_true_iff in Eo as [?|?]; bool_facts; lia].
  bool_facts. pose proof (override_range_ok n item (Z.to_nat (o_end item - o_begin item)) (o_begin item) m T S Hm Hb) as Hr.
  rewrite Z2Nat.id in Hr by lia. specialize (Hr ltac:(lia)). cbv zeta in Hr.
  replace (o_begin item + (o_end item - o_begin item)) with (o_end item) in Hr by lia.
  assert (Hfree : (forall i, covers item (o_side item) i = true -> S (o_side item) i = false) -> free_for S item).
  { intros H3 s i Hc. pose proof Hc as Hc'. unfold covers in Hc'. bool_facts. rewrite bool_decide_eq_true in *. subst. auto. }
  destruct (foldM _ _ m) as [m'|e].
  - destruct Hr as [H1 H2]. split_and!; [done|lia|done|by apply Hfree|exact H2].
  - destruct Hr as (i & Hi & Hs). intros [_ Hf]. by rewrite (Hf _ _ Hi) in Hs.
Qed.

Lemma apply_overrides_ok n l m T S :
  map_is n T S m -> Forall (fun o => 0 <= o_begin o) l ->
  match foldM (apply_override n) l m with
  | Err _ => ~ (Forall (override_ok n) l /\ Forall (free_for S) l /\ ForallOrdPairs overrides_apart l)
  | Ok m' => (Forall (override_ok n) l /\ Forall (free_for S) l /\ ForallOrdPairs overrides_apart l) /\
      map_is n (fun s i => foldl (fun t o => if covers o s i then o_type o else t) (T s i) l)
        (fun s i => covered_by l s i || S s i) m'
  end.
Proof.
  revert m T S. induction l as [|o l IH]; intros m T S Hm Hb; simpl; [split; [split_and!; constructor|exact Hm]|].
  apply Forall_cons in Hb as [Hb Hl]. pose proof (apply_override_ok n o m T S Hm Hb) as Ho.
  destruct (apply_override n m o) as [m1|e]; [|intros ((Hx & _)%Forall_cons & (Hy & _)%Forall_cons & _); by apply Ho].
  destruct Ho as (Hok & Hfree & Hm1). specialize (IH m1 _ _ Hm1 Hl).
  assert (Hsplit : Forall (free_for (fun s i => covers o s i || S s i)) l <->
    Forall (overrides_apart o) l /\ Forall (free_for S) l).
  { rewrite <- Forall_and. apply Forall_iff. intros o'. unfold free_for, overrides_apart. split.
    - intros Hf. split; intros s i Hc; [destruct (covers o' s i) eqn:E; [|done]|]; apply Hf in E || apply Hf in Hc; bool_facts; congruence.
    - intros [Ha Hf] s i Hc. rewrite (Hf s i Hc). destruct (covers o s i) eqn:E; [|done]. by rewrite (Ha s i E) in Hc. }
  destruct (foldM (apply_override n) l m1) as [m'|e].
  - destruct IH as ((H1 & H2 & H3) & H4). apply Hsplit in H2 as [H2 H2']. split; [split_and!; by constructor|].
    eapply map_is_ext; [|exact H4]. intros s i Hi. split; [done|]. cbn [covered_by existsb]. unfold covered_by.
    by destruct (covers o s i), (existsb _ l), (S s i).
  - intros (H1 & H2 & H3). apply IH. apply Forall_cons in H1 as [_ H1], H2 as [_ H2]. inversion H3; subst.
    split_and!; [done|by apply Hsplit|done].
Qed.

Lemma map_is_start n bk bv : 0 <= n ->
  map_is n (fun s _ => get_side s (mk_tiers bk bv)) (fun _ _ => false)
    (mk_tier_map (replicate (Z.to_nat n) (mk_tiers bk bv)) (replicate (Z.to_nat n) false) (replicate (Z.to_nat n) false)).
Proof.
  intros Hn. split; simpl; [by rewrite length_replicate| |]; intros s i Hi.
  - by rewrite lookup_replicate_2 by lia.
  - destruct s; simpl; by rewrite lookup_replicate_2 by lia.
Qed.

Lemma map_is_out n T S m : 0 <= n -> map_is n T S m -> tm_out m = (fun i => mk_tiers (T side_key i) (T side_value i)) <$> seqZ 0 n.
Proof.
  intros Hn [H1 H2 _]. apply list_eq_same_length with (n := Z.to_nat n); [by rewrite length_fmap, length_seqZ|done|].
  intros i x y Hi Hx Hy. rewrite list_lookup_fmap in Hy. destruct (seqZ 0 n !! i) as [z|] eqn:E; [|done].
  apply lookup_seqZ in E as [-> Hlt]. simplify_eq/=. pose proof (H2 side_key (Z.of_nat i) ltac:(lia)) as Hk.
  pose proof (H2 side_value (Z.of_nat i) ltac:(lia)) as Hv. rewrite Nat2Z.id, Hx in Hk, Hv. simplify_eq/=. by destruct x; simplify_eq/=.
Qed.

(** The static tier map.  [build_static_tier_map] succeeds exactly for a
    non-empty model whose base and override types are registered, whose override
    ranges are non-empty and inside the model and never claim the same side of
    the same layer twice; it then gives every layer side the type of the one
    override that covers it, the base type where there is none, and on failure it
    leaves no partial map. *)
Theorem static_tier_map_contract n_layer base_key base_value overrides out :
  u32 n_layer -> Forall (fun o => 0 <= o_begin o) overrides ->
  build_static_tier_map n_layer base_key base_value overrides = Ok out <->
  n_layer <> 0 /\ valid_type base_key = true /\ valid_type base_value = true /\
  Forall (override_ok n_layer) overrides /\ ForallOrdPairs overrides_apart overrides /\
  out = (fun i => mk_tiers (tier_of base_key overrides side_key i) (tier_of base_value overrides side_value i)) <$> seqZ 0 n_layer.
Proof.
  intros [Hn _] Hb. unfold build_static_tier_map.
  destruct (Z.eqb_spec n_layer 0) as [->|Hne]; cbn [negb]; [split; [done|by intros [? _]]|].
  destruct (valid_type base_key) eqn:Ek, (valid_type base_value) eqn:Ev; cbn [andb]; try (split; [done|by intros (? & ? & ? & _)]).
  pose proof (apply_overrides_ok n_layer overrides _ _ _ (map_is_start n_layer base_key base_value Hn) Hb) as H.
  assert (Hfree : Forall (free_for (fun _ _ => false)) overrides) by by apply Forall_forall.
  destruct (foldM _ overrides _) as [m|e].
  - destruct H as ((H1 & _ & H3) & H4%map_is_out); [|done]. rewrite H4. split; [intros [= <-]; by split_and!|].
    intros (_ & _ & _ & _ & _ & ->). done.
  - split; [done|]. intros (_ & _ & _ & H1 & H3 & _). by destruct H.
Qed.

Lemma static_tier_map_contract_witness :
  build_static_tier_map 3 TYPE_F16 TYPE_F16 [mk_override side_key 1 3 TYPE_Q8_0; mk_override side_value 0 2 TYPE_Q8_0]
  = Ok [mk_tiers TYPE_F16 TYPE_Q8_0; mk_tiers TYPE_Q8_0 TYPE_Q8_0; mk_tiers TYPE_Q8_0 TYPE_F16].
Proof.
  apply (static_tier_map_contract 3 TYPE_F16 TYPE_F16 [mk_override side_key 1 3 TYPE_Q8_0; mk_override side_value 0 2 TYPE_Q8_0]).
  - split; vm_compute; discriminate.
  - repeat constructor; vm_compute; discriminate.
  - split_and!; [done|reflexivity|reflexivity| | |reflexivity].
    + repeat constructor; vm_compute; discriminate.
    + repeat constructor. intros [] i; unfold covers; simpl; done.
Defined.

(** ** Transitions *)

Open Scope list_scope.
Open Scope Z_scope.

(** What one transition asks for. *)
Definition apply_transition (tiers : list tier_assignment) (t : tier_transition) : list tier_assignment :=
  alter (set_side (ls_side (tr_target t)) (tr_to t)) (Z.to_nat (ls_layer (tr_target t))) tiers.

Definition transition_sound (current target : list tier_assignment) (t : tier_transition) : Prop :=
  tr_from t <> tr_to t /\
  (get_side (ls_side (tr_target t)) <$> current !! Z.to_nat (ls_layer (tr_target t))) = Some (tr_from t) /\
  (get_side (ls_side (tr_target t)) <$> target !! Z.to_nat (ls_layer (tr_target t))) = Some (tr_to t).

Lemma transitions_apply pre current target :
  length current = length target ->
  foldl apply_transition (pre ++ current) (plan_transitions_from (Z.of_nat (length pre)) current target) = pre ++ target.
Proof.
  revert pre target. induction current as [|[ck cv] current IH]; intros pre [|[tk tv] target] Hlen; simplify_eq/=; [done|].
  assert (Halter : forall s t a l, apply_transition (pre ++ a :: l) (mk_transition (mk_layer_side (Z.of_nat (length pre)) s) t (get_side s (mk_tiers tk tv)))
    = pre ++ set_side s (get_side s (mk_tiers tk tv)) a :: l).
  { intros s t a l. unfold apply_transition. cbn. rewrite Nat2Z.id.
    replace (length pre) with (length pre + 0)%nat by lia. by rewrite alter_app_r. }
  rewrite !foldl_app.
  replace (foldl apply_transition _ _) with
    (foldl apply_transition (pre ++ mk_tiers tk tv :: current) (plan_transitions_from (Z.of_nat (length pre) + 1) current target)).
  - specialize (IH (pre ++ [mk_tiers tk tv]) target Hlen). rewrite length_app in IH. cbn [length] in IH.
    rewrite Nat2Z.inj_add, <- !app_assoc in IH. exact IH.
  - f_equal. destruct (Z.eqb_spec ck tk) as [->|], (Z.eqb_spec cv tv) as [->|]; cbn [negb foldl]; [done|..].
    + by rewrite (Halter side_value).
    + by rewrite (Halter side_key).
    + rewrite (Halter side_key), (Halter side_value). done.
Qed.

Lemma transitions_sound pre pre' current target :
  length pre = length pre' ->
  Forall (transition_sound (pre ++ current) (pre' ++ target)) (plan_transitions_from (Z.of_nat (length pre)) current target).
Proof.
  revert pre pre' target. induction current as [|c current IH]; intros pre pre' [|t target] Hlen; cbn [plan_transitions_from]; try constructor.
  assert (Hhere : forall s, get_side s c <> get_side s t ->
    transition_sound (pre ++ c :: current) (pre' ++ t :: target)
      (mk_transition (mk_layer_side (Z.of_nat (length pre)) s) (get_side s c) (get_side s t))).
  { intros s Hne. unfold transition_sound; simpl. rewrite Nat2Z.id, list_lookup_middle, Hlen, list_lookup_middle by done. done. }
  rewrite !Forall_app. split_and!.
  - destruct (Z.eqb_spec (t_key c) (t_key t)); simpl; repeat constructor; by apply (Hhere side_key).
  - destruct (Z.eqb_spec (t_value c) (t_value t)); simpl; repeat constructor; by apply (Hhere side_value).
  - specialize (IH (pre ++ [c]) (pre' ++ [t]) target). rewrite !length_app, <- !app_assoc in IH. cbn [length app] in IH.
    replace (Z.of_nat (length pre) + 1) with (Z.of_nat (length pre + 1)) by lia. apply IH. lia.
Qed.

Lemma side_id_eq l s : side_id (mk_layer_side l s) = match s with side_key => 2 * l | side_value => 2 * l + 1 end.
Proof.
  unfold side_id. cbn [ls_layer ls_side]. rewrite Z.shiftl_mul_pow2 by lia. destruct s; rewrite ?Z.lor_0_r; [lia|].
  assert (Hland : Z.land (l * 2 ^ 1) 1 = 0).
  { change 1 with (Z.ones 1) at 2. rewrite Z.land_ones by lia. apply Z.mod_mul. lia. }
  pose proof (Z.add_lor_land (l * 2 ^ 1) 1). lia.
Qed.

Lemma transitions_order l current target :
  StronglySorted Z.lt ((fun t => side_id (tr_target t)) <$> plan_transitions_from l current target) /\
  Forall (fun t => 2 * l <= side_id (tr_target t)) (plan_transitions_from l current target).
Proof.
  revert l target. induction current as [|c current IH]; intros l [|t target]; simpl; try (by split; constructor).
  destruct (IH (l + 1) target) as [Hs Hb].
  assert (Hb2 : Forall (fun t => 2 * l + 2 <= side_id (tr_target t)) (plan_transitions_from (l + 1) current target))
    by (eapply Forall_impl; [exact Hb|]; simpl; intros; lia).
  pose proof (side_id_eq l) as Hid.
  assert (Hlt : forall k, k <= 2 * l + 1 -> Forall (Z.lt k) ((fun t => side_id (tr_target t)) <$> plan_transitions_from (l + 1) current target))
    by (intros k Hk; apply Forall_fmap; eapply Forall_impl; [exact Hb2|]; simpl; intros; lia).
  assert (Hle : Forall (fun t => 2 * l <= side_id (tr_target t)) (plan_transitions_from (l + 1) current target))
    by (eapply Forall_impl; [exact Hb2|]; simpl; intros; lia).
  destruct (t_key c =? t_key t), (t_value c =? t_value t); simpl; rewrite ?(Hid side_key), ?(Hid side_value);
    split; try exact Hs; try exact Hle; repeat (constructor; simpl; rewrite ?(Hid side_key), ?(Hid side_value); try lia; try done; try (apply Hlt; lia)).
Qed.

(** The transition plan is a faithful difference.  Between plans of equal
    length it lists, in ascending order of layer and side and without repeating
    a side, genuine changes (from the current type to a different target type);
    carrying them out in that order turns the current plan into the target, and
    nothing is listed exactly when the plans are equal. *)
Theorem transitions_roundtrip current target :
  length current = length target ->
  foldl apply_transition current (plan_tier_transitions current target) = target /\
  Forall (transition_sound current target) (plan_tier_transitions current target) /\
  StronglySorted Z.lt ((fun t => side_id (tr_target t)) <$> plan_tier_transitions current target) /\
  (plan_tier_transitions current target = [] <-> current = target).
Proof.
  intros Hlen. unfold plan_tier_transitions. apply Nat.eqb_eq in Hlen as Hb. rewrite Hb. cbn [negb].
  pose proof (transitions_apply [] current target Hlen) as Happ. pose proof (transitions_sound [] [] current target eq_refl) as Hs.
  simpl in Happ, Hs. change (Z.of_nat 0) with 0 in *. split_and!; [done|done|apply transitions_order|]. split.
  - intros Hnil. by rewrite Hnil in Happ.
  - intros <-. destruct (plan_transitions_from 0 current current) as [|t l]; [done|].
    apply Forall_cons in Hs as [(Hne & H1 & H2) _]. rewrite H1 in H2. by simplify_eq.
Qed.

Lemma transitions_roundtrip_witness :
  foldl apply_transition [mk_tiers TYPE_F16 TYPE_F16; mk_tiers TYPE_Q8_0 TYPE_F16]
    (plan_tier_transitions [mk_tiers TYPE_F16 TYPE_F16; mk_tiers TYPE_Q8_0 TYPE_F16] [mk_tiers TYPE_F16 TYPE_Q8_0; mk_tiers TYPE_F16 TYPE_F16])
  = [mk_tiers TYPE_F16 TYPE_Q8_0; mk_tiers TYPE_F16 TYPE_F16].
Proof.
  apply (transitions_roundtrip [mk_tiers TYPE_F16 TYPE_F16; mk_tiers TYPE_Q8_0 TYPE_F16] [mk_tiers TYPE_F16 TYPE_Q8_0; mk_tiers TYPE_F16 TYPE_F16]).
  reflexivity.
Defined.

Lemma prepare_all_split {W} (f : tier_transition -> string -> W -> bool * string * W) l e w e' w' :
  prepare_all f l e w = (false, e', w') ->
  exists ready t rest e1 w1, l = ready ++ t :: rest /\ prepare_all f ready e w = (true, e1, w1) /\ f t e1 w1 = (false, e', w').
Proof.
  revert e w. induction l as [|t l IH]; intros e w; simpl; [done|].
  destruct (f t e w) as [[[] e1] w1] eqn:E.
  - intros (ready & t' & rest & e2 & w2 & -> & H1 & H2)%IH. exists (t :: ready), t', rest, e2, w2. simpl. by rewrite E.
  - intros [= -> ->]. by exists [], t, l, e, w.
Qed.

(** The tier switch is failure atomic.  With all callbacks present and plans
    of equal length, either every transition is prepared in order, [commit] runs
    once after them and the plan becomes the target; or some transition is the
    first that cannot be prepared, nothing after it is prepared, [rollback] runs
    once, [commit] never, the plan is unchanged and the error message is not
    empty. *)
Theorem tier_switch_is_atomic {W} (prepare : tier_transition -> string -> W -> bool * string * W) (commit rollback : W -> W)
    current target w :
  length current = length target ->
  let r := apply_tier_transitions_atomic (Some prepare) (Some commit) (Some rollback) current target w in
  let plan := plan_tier_transitions current target in
  (exists e w1, prepare_all prepare plan "" w = (true, e, w1) /\ r = (true, target, e, commit w1)) \/
  (exists ready t rest e1 w1 e2 w2 e3, plan = ready ++ t :: rest /\ prepare_all prepare ready "" w = (true, e1, w1) /\
     prepare t e1 w1 = (false, e2, w2) /\ r = (false, current, e3, rollback w2) /\ e3 <> "" /\ (e2 <> "" -> e3 = e2)).
Proof.
  intros Hlen r plan. subst r. unfold apply_tier_transitions_atomic. fold plan. apply Nat.eqb_eq in Hlen. rewrite Hlen. cbn [negb].
  destruct (prepare_all prepare plan "" w) as [[[] e] w1] eqn:E; [left; by eauto|right].
  apply prepare_all_split in E as (ready & t & rest & e1 & w2 & H1 & H2 & H3).
  do 8 eexists. split_and!; [exact H1|exact H2|exact H3|reflexivity|by case_bool_decide|by case_bool_decide].
Qed.

Lemma tier_switch_is_atomic_witness :
  apply_tier_transitions_atomic (Some (fun t e w => (tr_to t =? TYPE_Q8_0, e, w + 1))) (Some (fun w => w + 100)) (Some (fun w => - w))
    [mk_tiers TYPE_F16 TYPE_F16] [mk_tiers TYPE_Q8_0 TYPE_BF16] 0
  = (false, [mk_tiers TYPE_F16 TYPE_F16], "KV tier transition preparation failed", -2).
Proof.
  destruct (tier_switch_is_atomic (fun t e w => (tr_to t =? TYPE_Q8_0, e, w + 1)) (fun w => w + 100) (fun w => - w)
    [mk_tiers TYPE_F16 TYPE_F16] [mk_tiers TYPE_Q8_0 TYPE_BF16] 0 eq_refl) as [(e & w1 & H & _)|(ready & t & rest & e1 & w1 & e2 & w2 & e3 & _ & _ & _ & H & _)].
  - vm_compute in H. discriminate H.
  - vm_compute. reflexivity.
Defined.
