(* ===== verification/Accounting.v ===== *)
(** * Checked accounting and command-line quantities

    Models the helpers of [src/common/resource-planner.cpp]: 64-bit checked
    and saturating arithmetic, the policy enumerations with their parsers and
    names, and the size and token-count parsers.  A [uint64_t] out parameter
    with a [bool] result is an [option]; [strtoull] is the C library's, base 10
    in the "C" locale. *)

From S2P Require Import Prelude.
From Stdlib Require Import Ascii.
From stdpp Require Import strings pretty.
Open Scope Z_scope.

(** ** Arithmetic *)

Definition add_checked (value add : Z) : option Z :=
  if add >? UINT64_MAX - value then None else Some (value + add).

Definition mul_saturated (a b : Z) : Z :=
  if negb (a =? 0) && (b >? UINT64_MAX / a) then UINT64_MAX else wrap64 (a * b).

(** The product is 128 bits wide; the quotient is cut to 64. *)
Definition mul_div_floor (a b divisor : Z) : Z := wrap64 ((a * b) / divisor).

Definition mul_div_ceil_checked (a b divisor : Z) : option Z :=
  if divisor =? 0 then None else
  let whole := a / divisor in
  let remainder := a mod divisor in
  if negb (b =? 0) && (whole >? UINT64_MAX / b) then None else
  let result := wrap64 (whole * b) in
  let remainder_product := wrap64 (remainder * b) in
  let rounded := wrap64 (remainder_product / divisor + (if negb (remainder_product mod divisor =? 0) then 1 else 0)) in
  add_checked result rounded.

(** A chain of [add_checked] on one accumulator. *)
Fixpoint sum_checked (value : Z) (l : list Z) : option Z :=
  match l with
  | [] => Some value
  | x :: l => match add_checked value x with Some v => sum_checked v l | None => None end
  end.

(** The chain with the message the caller reports. *)
Definition sum_or {E} (e : E) (value : Z) (l : list Z) : result E Z :=
  match sum_checked value l with Some v => Ok v | None => Err e end.

Definition cache_limit_bytes (capacity_mib : Z) : Z :=
  if capacity_mib <=? 0 then 0 else mul_saturated (wrap64 capacity_mib) (1024 * 1024).

Definition should_enable_fit (has_accelerator : bool) (n_cpu_moe : Z) : bool := has_accelerator && (n_cpu_moe =? 0).

(** ** Enumerations *)

Inductive memory_policy := policy_auto | policy_resident | policy_cache | policy_stream.
Inductive preference := pref_balanced | pref_latency | pref_throughput.
Inductive backend := backend_mmap | backend_pread | backend_io_uring.
Inductive transient_policy := transient_off | transient_shared | transient_mtp_only | transient_multimodal_only.

#[export] Instance memory_policy_eq_dec : EqDecision memory_policy.
Proof. solve_decision. Defined.
#[export] Instance preference_eq_dec : EqDecision preference.
Proof. solve_decision. Defined.
#[export] Instance backend_eq_dec : EqDecision backend.
Proof. solve_decision. Defined.
#[export] Instance transient_policy_eq_dec : EqDecision transient_policy.
Proof. solve_decision. Defined.

(** [common_kv_quality] is compared, counted down and used as an array index:
    it stays an integer, lowest quality first. *)
Definition QUALITY_TURBO1 : Z := 0.
Definition QUALITY_TURBO2 : Z := 1.
Definition QUALITY_TURBO3 : Z := 2.
Definition QUALITY_TURBO4 : Z := 3.
Definition QUALITY_TURBO8 : Z := 4.
Definition QUALITY_Q8 : Z := 5.
Definition QUALITY_F16 : Z := 6.

Open Scope string_scope.
Open Scope Z_scope.

Definition parse_memory_policy (text : string) : option memory_policy :=
  if bool_decide (text = "auto") then Some policy_auto
  else if bool_decide (text = "resident") then Some policy_resident
  else if bool_decide (text = "cache") || bool_decide (text = "hybrid") then Some policy_cache
  else if bool_decide (text = "stream") then Some policy_stream
  else None.

Definition parse_resource_preference (text : string) : option preference :=
  if bool_decide (text = "balanced") then Some pref_balanced
  else if bool_decide (text = "latency") then Some pref_latency
  else if bool_decide (text = "throughput") then Some pref_throughput
  else None.

Definition parse_kv_quality (text : string) : option Z :=
  if bool_decide (text = "turbo1") then Some QUALITY_TURBO1
  else if bool_decide (text = "turbo2") then Some QUALITY_TURBO2
  else if bool_decide (text = "turbo3") then Some QUALITY_TURBO3
  else if bool_decide (text = "turbo4") then Some QUALITY_TURBO4
  else if bool_decide (text = "turbo8") then Some QUALITY_TURBO8
  else if bool_decide (text = "q8") || bool_decide (text = "q8_0") then Some QUALITY_Q8
  else if bool_decide (text = "f16") then Some QUALITY_F16
  else None.

Definition parse_resource_backend (text : string) : option backend :=
  if bool_decide (text = "mmap") then Some backend_mmap
  else if bool_decide (text = "pread") then Some backend_pread
  else if bool_decide (text = "io_uring") then Some backend_io_uring
  else None.

Definition parse_transient_policy (text : string) : option transient_policy :=
  if bool_decide (text = "off") then Some transient_off
  else if bool_decide (text = "shared") then Some transient_shared
  else if bool_decide (text = "mtp-only") then Some transient_mtp_only
  else if bool_decide (text = "multimodal-only") then Some transient_multimodal_only
  else None.

Definition memory_policy_name (p : memory_policy) : string :=
  match p with policy_auto => "auto" | policy_resident => "resident" | policy_cache => "cache" | policy_stream => "stream" end.

Definition kv_quality_name (q : Z) : string :=
  if q =? QUALITY_TURBO1 then "turbo1" else if q =? QUALITY_TURBO2 then "turbo2"
  else if q =? QUALITY_TURBO3 then "turbo3" else if q =? QUALITY_TURBO4 then "turbo4"
  else if q =? QUALITY_TURBO8 then "turbo8" else if q =? QUALITY_Q8 then "q8_0"
  else if q =? QUALITY_F16 then "f16" else "unknown".

Definition resource_backend_name (b : backend) : string :=
  match b with backend_mmap => "mmap" | backend_pread => "pread" | backend_io_uring => "io_uring" end.

Definition transient_policy_name (p : transient_policy) : string :=
  match p with
  | transient_off => "off" | transient_shared => "shared" | transient_mtp_only => "mtp-only"
  | transient_multimodal_only => "multimodal-only"
  end.

(** ** Sizes and counts *)

Definition code (c : ascii) : Z := Z.of_nat (nat_of_ascii c).
Definition is_space (c : ascii) : bool := ((9 <=? code c) && (code c <=? 13)) || (code c =? 32).
Definition is_digit (c : ascii) : bool := (48 <=? code c) && (code c <=? 57).
Definition to_lower (c : ascii) : ascii :=
  if (65 <=? code c) && (code c <=? 90) then ascii_of_nat (Z.to_nat (code c + 32)) else c.

Fixpoint map_string (f : ascii -> ascii) (s : string) : string :=
  match s with EmptyString => EmptyString | String c s => String (f c) (map_string f s) end.

(** [c_str()] read as a C string ends at the first NUL. *)
Fixpoint c_str (s : string) : string :=
  match s with
  | EmptyString => EmptyString
  | String c s => if code c =? 0 then EmptyString else String c (c_str s)
  end.

Fixpoint skip_spaces (s : string) : string :=
  match s with String c s' => if is_space c then skip_spaces s' else s | EmptyString => s end.

(** The value of the leading digits after [acc], and what follows them. *)
Fixpoint scan_digits (acc : Z) (s : string) : Z * string :=
  match s with
  | String c s' => if is_digit c then scan_digits (10 * acc + (code c - 48)) s' else (acc, s)
  | EmptyString => (acc, s)
  end.

Definition starts_with_digit (s : string) : bool :=
  match s with String c _ => is_digit c | EmptyString => false end.

(** [None]: no conversion ([end == str]); otherwise the value, the rest and
    whether [errno] is [ERANGE]. *)
Definition strtoull (s : string) : option (Z * string * bool) :=
  let body := skip_spaces s in
  let '(negative, body) := match body with
    | String c s' => if code c =? 45 then (true, s') else if code c =? 43 then (false, s') else (false, body)
    | EmptyString => (false, body) end in
  if starts_with_digit body then
    let '(v, rest) := scan_digits 0 body in
    if v >? UINT64_MAX then Some (UINT64_MAX, rest, true)
    else Some (if negative then wrap64 (- v) else v, rest, false)
  else None.

Definition starts_with_minus (s : string) : bool := match s with String c _ => code c =? 45 | EmptyString => false end.

Definition suffix_multiplier (suffix : string) : option Z :=
  if bool_decide (suffix = "") || bool_decide (suffix = "b") then Some 1
  else if bool_decide (suffix = "kib") then Some 1024
  else if bool_decide (suffix = "mib") then Some (1024 * 1024)
  else if bool_decide (suffix = "gib") then Some (1024 * 1024 * 1024)
  else None.

Definition parse_byte_size (text : string) : result string Z :=
  guard? negb (bool_decide (text = "") || starts_with_minus text)
    else "memory size must be a non-negative number with an optional KiB/MiB/GiB suffix" in
  match strtoull (c_str text) with
  | None | Some (_, _, true) => Err ("invalid memory size: " +:+ text)
  | Some (value, rest, false) =>
      match suffix_multiplier (map_string to_lower rest) with
      | None => Err ("unsupported memory-size suffix in: " +:+ text)
      | Some multiplier =>
          guard? negb (value >? UINT64_MAX / multiplier) else ("memory size overflows 64 bits: " +:+ text) in
          Ok (wrap64 (value * multiplier))
      end
  end.

Definition token_multiplier (rest : string) : option Z :=
  match rest with
  | EmptyString => Some 1
  | String c EmptyString =>
      if (code c =? 107) || (code c =? 75) then Some 1024
      else if (code c =? 109) || (code c =? 77) then Some (1024 * 1024) else None
  | _ => None
  end.

Definition parse_token_count (text : string) : result string Z :=
  guard? negb (bool_decide (text = "") || starts_with_minus text) else "token count must be non-negative" in
  match strtoull (c_str text) with
  | None | Some (_, _, true) => Err ("invalid token count: " +:+ text)
  | Some (value, rest, false) =>
      match token_multiplier rest with
      | None => Err ("unsupported token-count suffix in: " +:+ text)
      | Some multiplier =>
          guard? negb (value >? UINT32_MAX / multiplier) else ("token count exceeds uint32 range: " +:+ text) in
          Ok (wrap32 (wrap64 (value * multiplier)))
      end
  end.
Close Scope string_scope.

(** ** Laws of the arithmetic *)

Lemma add_checked_spec v x r : 0 <= v -> 0 <= x -> add_checked v x = Some r <-> r = v + x /\ v + x <= UINT64_MAX.
Proof. intros. unfold add_checked. destruct (x >? UINT64_MAX - v) eqn:E; bool_facts; naive_solver lia. Qed.

Lemma sum_checked_spec v l r :
  u64 v -> Forall u64 l -> sum_checked v l = Some r <-> r = v + zsum l /\ v + zsum l <= UINT64_MAX.
Proof.
  revert v. induction l as [|x l IH]; intros v Hv Hl; simpl.
  - rewrite Z.add_0_r. unfold u64 in Hv. naive_solver.
  - apply Forall_cons in Hl as [Hx Hl]. assert (Hs : 0 <= zsum l) by (apply zsum_nonneg; eapply Forall_impl; [exact Hl|]; unfold u64; simpl; intros; lia).
    unfold u64 in Hv, Hx. destruct (add_checked v x) as [w|] eqn:E.
    + apply add_checked_spec in E as [-> Hle]; [|lia|lia]. rewrite IH; [|unfold u64; lia|done]. rewrite Z.add_assoc. done.
    + split; [done|]. intros [-> Hle]. assert (add_checked v x = Some (v + x)) by (apply add_checked_spec; lia). congruence.
Qed.

Lemma sum_or_ok {E} (e : E) v l r : u64 v -> Forall u64 l -> sum_or e v l = Ok r -> r = v + zsum l /\ u64 r.
Proof.
  intros Hv Hl. unfold sum_or. destruct (sum_checked v l) as [w|] eqn:Es; [|done]. intros [= <-].
  apply sum_checked_spec in Es as [-> Hle]; [|done|done]. split; [done|].
  assert (0 <= zsum l) by (apply zsum_nonneg; eapply Forall_impl; [exact Hl|]; unfold u64; simpl; intros; lia). unfold u64 in *. lia.
Qed.

Lemma sum_or_fits {E} (e : E) v l : u64 v -> Forall u64 l -> v + zsum l <= UINT64_MAX -> sum_or e v l = Ok (v + zsum l).
Proof. intros Hv Hl Hle. unfold sum_or. by rewrite (proj2 (sum_checked_spec v l (v + zsum l) Hv Hl)). Qed.

Lemma mul_saturated_min a b : 0 <= a -> 0 <= b -> mul_saturated a b = Z.min (a * b) UINT64_MAX.
Proof.
  intros Ha Hb. unfold mul_saturated. destruct (Z.eqb_spec a 0) as [->|Hne]; cbn [negb andb]; [reflexivity|].
  assert (Hdiv : (b >? UINT64_MAX / a) = negb (a * b <=? UINT64_MAX)).
  { rewrite Z.gtb_ltb. destruct (Z.leb_spec (a * b) UINT64_MAX) as [H|H]; cbn [negb].
    - apply Z.ltb_ge, Z.div_le_lower_bound; lia.
    - apply Z.ltb_lt, Z.div_lt_upper_bound; lia. }
  rewrite Hdiv. destruct (Z.leb_spec (a * b) UINT64_MAX); cbn [negb]; [|lia].
  rewrite wrap64_small by (unfold u64; nia). lia.
Qed.

(** The quotient of the rounded-up division, as the code composes it. *)
Definition ceil_div (a b : Z) : Z := (a + b - 1) / b.

Lemma ceil_div_eq a b : 0 < b -> ceil_div a b = a / b + (if negb (a mod b =? 0) then 1 else 0).
Proof.
  intros Hb. unfold ceil_div. pose proof (Z.div_mod a b ltac:(lia)) as Hd. pose proof (Z.mod_pos_bound a b Hb) as Hm.
  destruct (Z.eqb_spec (a mod b) 0) as [E|E]; cbn [negb]; symmetry.
  - apply (Z.div_unique _ _ _ (b - 1)); lia.
  - apply (Z.div_unique _ _ _ (a mod b - 1)); lia.
Qed.

Lemma ceil_div_add_mul q r b : 0 < b -> ceil_div (q * b + r) b = q + ceil_div r b.
Proof.
  intros Hb. unfold ceil_div. replace (q * b + r + b - 1) with (r + b - 1 + q * b) by lia. rewrite Z.div_add by lia. lia.
Qed.

Lemma ceil_div_nonneg a b : 0 <= a -> 0 < b -> 0 <= ceil_div a b.
Proof. intros. unfold ceil_div. apply Z.div_pos; lia. Qed.

Lemma ceil_div_le a b c : 0 < b -> a <= c * b -> ceil_div a b <= c.
Proof. intros. unfold ceil_div. assert ((a + b - 1) / b < c + 1); [|lia]. apply Z.div_lt_upper_bound; nia. Qed.

(** Rescaling a byte count is exact: the rounded-up quotient of the full
    product, without a wider intermediate. *)
Lemma mul_div_ceil_ok a b divisor r :
  u64 a -> u32 b -> u32 divisor ->
  mul_div_ceil_checked a b divisor = Some r <->
  divisor <> 0 /\ r = ceil_div (a * b) divisor /\ ceil_div (a * b) divisor <= UINT64_MAX.
Proof.
  unfold u64, u32. intros Ha Hb Hd. unfold mul_div_ceil_checked. destruct (Z.eqb_spec divisor 0) as [->|Hne]; [naive_solver|].
  set (w := a / divisor). set (m := a mod divisor).
  assert (Haw : a = w * divisor + m) by (unfold w, m; pose proof (Z.div_mod a divisor); lia).
  assert (Hm : 0 <= m < divisor) by (apply Z.mod_pos_bound; lia). assert (Hw : 0 <= w) by (apply Z.div_pos; lia). clearbody w m.
  assert (Hmb : u64 (m * b)) by (unfold u64, UINT32_MAX, UINT64_MAX in *; nia).
  assert (Hceil : ceil_div (a * b) divisor = w * b + ceil_div (m * b) divisor).
  { rewrite Haw. replace ((w * divisor + m) * b) with (w * b * divisor + m * b) by lia. apply ceil_div_add_mul. lia. }
  pose proof (ceil_div_nonneg (m * b) divisor ltac:(unfold u64 in Hmb; lia) ltac:(lia)) as Hc0.
  pose proof (ceil_div_le (m * b) divisor b ltac:(lia) ltac:(nia)) as Hc1.
  rewrite (wrap64_small (m * b) Hmb), <- ceil_div_eq by lia.
  rewrite (wrap64_small (ceil_div _ _)) by (unfold u64, UINT32_MAX, UINT64_MAX in *; lia).
  destruct (negb (b =? 0) && (w >? UINT64_MAX / b)) eqn:E.
  - bool_facts. split; [done|]. intros (_ & _ & Hle). assert (w <= UINT64_MAX / b); [|lia]. apply Z.div_le_lower_bound; lia.
  - assert (Hwb : w * b <= UINT64_MAX).
    { apply andb_false_iff in E as [E|E]; bool_facts; [subst; unfold UINT64_MAX; lia|].
      destruct (Z.eq_dec b 0) as [->|]; [unfold UINT64_MAX; lia|]. pose proof (Z.mul_div_le UINT64_MAX b ltac:(lia)). nia. }
    rewrite (wrap64_small (w * b)) by (unfold u64; nia). rewrite add_checked_spec by nia. rewrite Hceil. naive_solver.
Qed.

(** ** Reading what the program prints *)

Lemma str_app_cons c d s : String c d +:+ s = String c (d +:+ s).
Proof. reflexivity. Qed.

Lemma str_app_nil d : d +:+ "" = d.
Proof. induction d as [|c d IH]; [done|]. by rewrite str_app_cons, IH. Qed.

Lemma code_digit (x : N) : (x < 10)%N -> code (pretty_N_char x) = 48 + Z.of_N x /\ is_digit (pretty_N_char x) = true.
Proof.
  intros Hx. assert (x ∈ [0;1;2;3;4;5;6;7;8;9]%N) as Hin by (destruct x as [|p]; [left|]; do 4 (destruct p as [p|p|]; try lia; try set_solver)).
  set_unfold in Hin. by destruct_or!; subst.
Qed.

Lemma scan_pretty_N_go (n : N) (s : string) : scan_digits 0 (pretty_N_go n s) = scan_digits (Z.of_N n) s.
Proof.
  revert s. induction (N.lt_wf_0 n) as [n _ IH]; intros s. destruct (decide (n = 0)%N) as [->|Hn]; [by rewrite pretty_N_go_0|].
  rewrite pretty_N_go_step by lia. rewrite IH by (apply N.div_lt; lia). cbn [scan_digits].
  destruct (code_digit (n mod 10)%N) as [-> ->]; [apply N.mod_lt; lia|]. f_equal.
  rewrite N2Z.inj_div, N2Z.inj_mod. pose proof (Z.div_mod (Z.of_N n) 10). lia.
Qed.

Fixpoint all_digits (s : string) : bool :=
  match s with String c s => is_digit c && all_digits s | EmptyString => true end.

Lemma pretty_N_go_digits (n : N) :
  exists d, all_digits d = true /\ ((0 < n)%N -> starts_with_digit d = true) /\ forall s, pretty_N_go n s = d +:+ s.
Proof.
  induction (N.lt_wf_0 n) as [n _ IH]. destruct (decide (n = 0)%N) as [->|Hn].
  { exists "". split_and!; [done|lia|]. intros s. by rewrite pretty_N_go_0. }
  destruct (IH (n / 10)%N) as (d & Hd & Hs & Heq); [apply N.div_lt; lia|].
  destruct (code_digit (n mod 10)%N) as [_ Hc]; [apply N.mod_lt; lia|].
  exists (d +:+ String (pretty_N_char (n mod 10)) ""). split_and!.
  - clear - Hd Hc. induction d as [|c d IHd]; [change (is_digit (pretty_N_char (n mod 10)) && true = true); by rewrite Hc|]. rewrite str_app_cons. simpl in *. bool_facts. by rewrite H, IHd.
  - intros _. destruct d as [|c d]; simpl in *; [done|]. by bool_facts.
  - intros s. rewrite pretty_N_go_step by lia. rewrite Heq. clear. induction d as [|c d IH]; [done|]. rewrite !str_app_cons. by rewrite IH.
Qed.

(** Text of a number: digits that read back as the number. *)
Lemma pretty_N_text (n : N) :
  exists d, pretty n = d /\ all_digits d = true /\ starts_with_digit d = true /\
    forall s, scan_digits 0 (d +:+ s) = scan_digits (Z.of_N n) s.
Proof.
  unfold pretty, pretty_N. case_decide as Hn.
  - subst. exists "0". split_and!; try done.
  - destruct (pretty_N_go_digits n) as (d & Hd & Hs & Heq). exists d. split_and!; [|done|apply Hs; lia|].
    + rewrite Heq. apply str_app_nil.
    + intros s. rewrite <- Heq. apply scan_pretty_N_go.
Qed.

Lemma c_str_digits d s : all_digits d = true -> c_str (d +:+ s) = d +:+ c_str s.
Proof.
  induction d as [|c d IH]; [done|]. rewrite !str_app_cons. simpl. intros H. unfold is_digit in H. bool_facts.
  destruct (Z.eqb_spec (code c) 0); [lia|]. by rewrite IH.
Qed.

(** Characters that neither end the string nor continue the number. *)
Definition plain_char (c : ascii) : bool := negb (code c =? 0) && negb (is_digit c).

Fixpoint plain (s : string) : bool :=
  match s with String c s => plain_char c && plain s | EmptyString => true end.

Lemma plain_c_str s : plain s = true -> c_str s = s.
Proof.
  induction s as [|c s IH]; simpl; [done|]. unfold plain_char. intros. bool_facts.
  destruct (Z.eqb_spec (code c) 0); [lia|]. by rewrite IH.
Qed.

Lemma plain_scan a s : plain s = true -> scan_digits a s = (a, s).
Proof. destruct s as [|c s]; simpl; [done|]. unfold plain_char. intros. bool_facts. by rewrite H1. Qed.

Lemma strtoull_text (n : N) s :
  plain s = true ->
  strtoull (c_str (pretty n +:+ s)) =
    Some (if Z.of_N n <=? UINT64_MAX then Z.of_N n else UINT64_MAX, s, negb (Z.of_N n <=? UINT64_MAX)) /\
  bool_decide (pretty n +:+ s = "") || starts_with_minus (pretty n +:+ s) = false.
Proof.
  intros Hs. destruct (pretty_N_text n) as (d & -> & Hd & Hf & Hscan). rewrite c_str_digits, plain_c_str by done.
  specialize (Hscan s). rewrite (plain_scan _ s Hs) in Hscan. destruct d as [|c d]; [done|].
  cbn [starts_with_digit] in Hf. assert (Hc := Hf). unfold is_digit in Hc. bool_facts. rewrite !str_app_cons in Hscan |- *. split.
  - unfold strtoull. cbn [skip_spaces].
    assert (is_space c = false) as -> by (unfold is_space; repeat case_match; lia || (apply orb_false_iff; split; [apply andb_false_iff|]; lia)).
    destruct (Z.eqb_spec (code c) 45); [lia|]. destruct (Z.eqb_spec (code c) 43); [lia|]. cbn [starts_with_digit]. rewrite Hf, Hscan.
    rewrite Z.gtb_ltb, Z.ltb_antisym. by destruct (Z.of_N n <=? UINT64_MAX).
  - rewrite bool_decide_false by done. simpl. apply Z.eqb_neq. lia.
Qed.

(** ** The documented suffixes *)

(** A size suffix, in lower case, and the power of two it stands for. *)
Inductive size_suffix : string -> Z -> Prop :=
| size_none : size_suffix "" 0
| size_b : size_suffix "b" 0
| size_kib : size_suffix "kib" 10
| size_mib : size_suffix "mib" 20
| size_gib : size_suffix "gib" 30.

Inductive token_suffix : string -> Z -> Prop :=
| token_none : token_suffix "" 0
| token_k : token_suffix "k" 10
| token_K : token_suffix "K" 10
| token_m : token_suffix "m" 20
| token_M : token_suffix "M" 20.

Lemma size_suffix_factor u k : size_suffix u k -> suffix_multiplier u = Some (2 ^ k) /\ 0 <= k <= 30.
Proof. destruct 1; vm_compute; split_and!; done. Qed.

Lemma no_size_suffix u : (forall k, ~ size_suffix u k) -> suffix_multiplier u = None.
Proof.
  intros Hno. unfold suffix_multiplier. case_bool_decide as E0; [subst; by destruct (Hno 0 size_none)|].
  case_bool_decide as E1; [subst; by destruct (Hno 0 size_b)|]. case_bool_decide as E2; [subst; by destruct (Hno 10 size_kib)|].
  case_bool_decide as E3; [subst; by destruct (Hno 20 size_mib)|]. case_bool_decide as E4; [subst; by destruct (Hno 30 size_gib)|]. done.
Qed.

Lemma token_suffix_factor u k : token_suffix u k -> token_multiplier u = Some (2 ^ k) /\ 0 <= k <= 30.
Proof. destruct 1; vm_compute; split_and!; done. Qed.

Lemma no_token_suffix u : (forall k, ~ token_suffix u k) -> token_multiplier u = None.
Proof.
  intros Hno. destruct u as [|c [|]]; [by destruct (Hno 0 token_none)| |done]. unfold token_multiplier.
  destruct (decide (c = "k"%char)) as [->|N1]; [by destruct (Hno 10 token_k)|]. destruct (decide (c = "K"%char)) as [->|N2]; [by destruct (Hno 10 token_K)|].
  destruct (decide (c = "m"%char)) as [->|N3]; [by destruct (Hno 20 token_m)|]. destruct (decide (c = "M"%char)) as [->|N4]; [by destruct (Hno 20 token_M)|].
  destruct c as [[] [] [] [] [] [] [] []]; vm_compute; vm_compute in N1, N2, N3, N4; done.
Qed.

Lemma scaled_in_range v m top : 0 <= v -> 0 < m -> (v >? top / m) = negb (v * m <=? top).
Proof.
  intros Hv Hm. rewrite Z.gtb_ltb. destruct (Z.leb_spec (v * m) top); cbn [negb].
  - apply Z.ltb_ge, Z.div_le_lower_bound; lia.
  - apply Z.ltb_lt, Z.div_lt_upper_bound; lia.
Qed.

(** C39: Sizes and counts read back.  Take the decimal text of any number v followed by
    any suffix without digits and NUL characters.
    As a memory size: with no suffix or b it means v bytes, with kib v times 2^10,
    with mib v times 2^20, with gib v times 2^30, in any letter case; the text
    parses to exactly that value when it fits 64 bits and is refused otherwise,
    as an overflow if v itself fits 64 bits and as an invalid size if not; any
    other suffix is refused as unsupported (or the size as invalid, when v does
    not fit).  As a token count: none means v, k or K v times 2^10, m or M v times
    2^20; the text parses to that value when it fits 32 bits and is refused
    otherwise, in the same way. *)
Theorem quantity_text_roundtrip (v : N) (suffix : string) :
  plain suffix = true ->
  let n := Z.of_N v in
  let text := pretty v +:+ suffix in
  (forall k, size_suffix (map_string to_lower suffix) k -> parse_byte_size text =
     if n * 2 ^ k <=? UINT64_MAX then Ok (n * 2 ^ k)
     else Err ((if n <=? UINT64_MAX then "memory size overflows 64 bits: " else "invalid memory size: ") +:+ text)) /\
  ((forall k, ~ size_suffix (map_string to_lower suffix) k) -> parse_byte_size text =
     Err ((if n <=? UINT64_MAX then "unsupported memory-size suffix in: " else "invalid memory size: ") +:+ text)) /\
  (forall k, token_suffix suffix k -> parse_token_count text =
     if n * 2 ^ k <=? UINT32_MAX then Ok (n * 2 ^ k)
     else Err ((if n <=? UINT64_MAX then "token count exceeds uint32 range: " else "invalid token count: ") +:+ text)) /\
  ((forall k, ~ token_suffix suffix k) -> parse_token_count text =
     Err ((if n <=? UINT64_MAX then "unsupported token-count suffix in: " else "invalid token count: ") +:+ text)).
Proof.
  intros Hp n text. destruct (strtoull_text v suffix Hp) as [E1 E2]. fold n text in E1, E2.
  assert (Hpos : forall k, 0 <= k <= 30 -> 0 < 2 ^ k <= 2 ^ 30) by (intros k Hk; split; [lia|apply Z.pow_le_mono_r; lia]).
  assert (Hbig : forall m top, 0 < m -> top <= UINT64_MAX -> (n <=? UINT64_MAX) = false -> (n * m <=? top) = false) by (intros; bool_facts; apply Z.leb_gt; nia).
  assert (0 <= n) by (unfold n; lia). unfold parse_byte_size, parse_token_count. rewrite E2, E1. cbn [negb]. split_and!; intros; destruct (n <=? UINT64_MAX) eqn:En; cbn [negb].
  - destruct (size_suffix_factor _ _ H0) as (-> & Hk). specialize (Hpos k Hk). rewrite scaled_in_range, negb_involutive by lia.
    destruct (Z.leb_spec (n * 2 ^ k) UINT64_MAX); [|done]. rewrite wrap64_small; [done|unfold u64; lia].
  - destruct (size_suffix_factor _ _ H0) as (_ & Hk). rewrite (Hbig (2 ^ k)) by (done || apply Hpos, Hk). done.
  - by rewrite no_size_suffix.
  - done.
  - destruct (token_suffix_factor _ _ H0) as (-> & Hk). specialize (Hpos k Hk). rewrite scaled_in_range, negb_involutive by lia.
    destruct (Z.leb_spec (n * 2 ^ k) UINT32_MAX); [|done].
    rewrite wrap64_small, wrap32_small; [done|..]; unfold u32, u64, UINT32_MAX, UINT64_MAX in *; lia.
  - destruct (token_suffix_factor _ _ H0) as (_ & Hk). rewrite (Hbig (2 ^ k)) by (done || apply Hpos, Hk). done.
  - by rewrite no_token_suffix.
  - done.
Qed.

Lemma quantity_text_roundtrip_witness :
  parse_byte_size (pretty 12%N +:+ "GiB") = Ok (12 * 2 ^ 30) /\ parse_token_count (pretty 32%N +:+ "k") = Ok 32768 /\
  parse_byte_size (pretty 3%N +:+ "GB") = Err "unsupported memory-size suffix in: 3GB".
Proof.
  split; [|split].
  - exact (proj1 (quantity_text_roundtrip 12%N "GiB" eq_refl) 30 size_gib).
  - exact (proj1 (proj2 (proj2 (quantity_text_roundtrip 32%N "k" eq_refl))) 10 token_k).
  - refine (proj1 (proj2 (quantity_text_roundtrip 3%N "GB" eq_refl)) _). intros k Hk. inversion Hk.
Defined.

(** Every policy, backend, transient policy and KV quality parses back from
    the name it is printed with. *)
Theorem enumeration_names_roundtrip :
  (forall p, parse_memory_policy (memory_policy_name p) = Some p) /\
  (forall b, parse_resource_backend (resource_backend_name b) = Some b) /\
  (forall t, parse_transient_policy (transient_policy_name t) = Some t) /\
  Forall (fun q => parse_kv_quality (kv_quality_name q) = Some q) (seqZ QUALITY_TURBO1 (QUALITY_F16 + 1)).
Proof. split_and!; [by intros []|by intros []|by intros []|]. vm_compute. repeat constructor. Qed.

(** The sign guard looks at the first character only.  Behind a leading blank
    a negative size passes it, and [strtoull] returns its value modulo 2^64: a
    size of minus one byte is accepted as the largest size. *)
Theorem blank_hides_minus_sign :
  parse_byte_size " -1" = Ok UINT64_MAX /\ parse_byte_size "-1" = Err "memory size must be a non-negative number with an optional KiB/MiB/GiB suffix".
Proof. split; reflexivity. Qed.
