(* ===== verification/ResourcePlan.v ===== *)
(** * The resource planner

    Models [common_resource_plan_solve] of [src/common/resource-planner.cpp]
    with its helpers and [common_resource_plan_reserve_host_context].  The
    native KV query is a [std::function] that the caller supplies: it is a field
    of the input, an arbitrary function.  The binary search over contexts is a
    loop on 32-bit counters; it runs on fuel, and [no_return] is its exhaustion. *)

From S2P Require Import Prelude Accounting.
From stdpp Require Import strings.
Open Scope string_scope.
Open Scope Z_scope.

(** ** Data *)

Record device_input := mk_device_input {
  di_id : Z; di_free : Z; di_reserve : Z; di_dense : Z; di_graph : Z;
}.

Record plan_input := mk_plan_input {
  i_requested_policy : memory_policy;
  i_preference : preference;
  i_requested_backend : backend;
  i_backend_available : bool;
  i_model_is_moe : bool;
  i_max_ram : Z;
  i_dense_ram : Z;
  i_expert_source : Z;
  i_requested_expert_ram : Z;
  i_min_expert_ram : Z;
  i_ple_ram : Z;
  i_requested_aux_ram : Z;
  i_requested_expert_vram : Z;
  i_requested_staging : Z;
  i_require_staging : bool;
  i_io_staging : Z;
  i_mtp : Z;
  i_multimodal : Z;
  i_transient_device : Z;
  i_require_draft : bool;
  i_requested_context : Z;
  i_max_context : Z;
  i_min_context : Z;
  i_alignment : Z;
  i_slots : Z;
  i_requested_batch : Z;
  i_requested_ubatch : Z;
  i_min_quality : Z;
  i_kv_per_token : list Z;
  i_devices : list device_input;
  i_kv_query : option (Z -> Z -> Z);
  i_graph_metadata : Z;
}.

Record device_plan := mk_device_plan {
  d_id : Z;
  d_capacity : Z;
  d_reserve : Z;
  d_dense : Z;
  d_graph : Z;
  d_kv : Z;
  d_expert_cache : Z;
  d_staging : Z;
  d_transient : Z;
  d_planned : Z;
  d_headroom : Z;
}.

Record plan := mk_plan {
  p_policy : memory_policy;
  p_backend : backend;
  p_quality : Z;
  p_context : Z;
  p_slots : Z;
  p_batch : Z;
  p_ubatch : Z;
  p_ram_capacity : Z;
  p_ram_planned : Z;
  p_expert_ram : Z;
  p_ple_ram : Z;
  p_aux_ram : Z;
  p_io_staging : Z;
  p_transient_device : Z;
  p_transient_policy : transient_policy;
  p_mtp : Z;
  p_multimodal : Z;
  p_transient_capacity : Z;
  p_staging_enabled : bool;
  p_transient_swap : bool;
  p_draft_resident : bool;
  p_reason : string;
  p_devices : list device_plan;
  p_kv_native : bool;
  p_kv_query : option (Z -> Z);
  p_graph_metadata : Z;
  p_context_metadata : Z;
  p_graph_workspace : Z;
}.

#[export] Instance eta_device_plan : Settable device_plan := fun d =>
  mk_device_plan (d_id d) (d_capacity d) (d_reserve d) (d_dense d) (d_graph d) (d_kv d) (d_expert_cache d) (d_staging d)
    (d_transient d) (d_planned d) (d_headroom d).

#[export] Instance eta_plan : Settable plan := fun p =>
  mk_plan (p_policy p) (p_backend p) (p_quality p) (p_context p) (p_slots p) (p_batch p) (p_ubatch p) (p_ram_capacity p)
    (p_ram_planned p) (p_expert_ram p) (p_ple_ram p) (p_aux_ram p) (p_io_staging p) (p_transient_device p)
    (p_transient_policy p) (p_mtp p) (p_multimodal p) (p_transient_capacity p) (p_staging_enabled p) (p_transient_swap p)
    (p_draft_resident p) (p_reason p) (p_devices p) (p_kv_native p) (p_kv_query p) (p_graph_metadata p)
    (p_context_metadata p) (p_graph_workspace p).

(** The member initialisers of [common_resource_plan]. *)
Definition empty_plan : plan :=
  mk_plan policy_resident backend_pread QUALITY_F16 0 0 0 0 0 0 0 0 0 0 (-1) transient_off 0 0 0 false false false "" [] false
    None 0 0 0.

Inductive failure := refused (message : string) | no_return.

(** ** Policy and qualities *)

Definition resolve_policy (i : plan_input) : memory_policy :=
  if bool_decide (i_requested_policy i <> policy_auto) then i_requested_policy i
  else if negb (i_model_is_moe i) then policy_resident
  else if (i_max_ram i =? 0) || (i_expert_source i <=? i_max_ram i - Z.min (i_max_ram i) (i_dense_ram i)) then policy_cache
  else policy_stream.

Definition qualities_descending (floor : Z) : list Z := rev (seqZ floor (QUALITY_F16 + 1 - floor)).

Definition per_token (i : plan_input) (q : Z) : Z := default 0 (i_kv_per_token i !! Z.to_nat q).

(** ** Device allocation of one context *)

Definition transient_device_of (i : plan_input) : Z :=
  if i_transient_device i <? 0 then match i_devices i with d :: _ => di_id d | [] => i_transient_device i end
  else i_transient_device i.

Definition staging_of (i : plan_input) (p : plan) (id : Z) : Z :=
  if p_staging_enabled p && (id >=? 0) then i_requested_staging i else 0.

Definition device_usable (i : plan_input) (p : plan) (peak : Z) (d : device_input) : option Z :=
  fixed ← sum_checked (di_reserve d) ([di_dense d; di_graph d; staging_of i p (di_id d)]
    ++ (if di_id d =? transient_device_of i then [peak] else [])%list);
  if fixed >? di_free d then None else Some (di_free d - fixed).

Definition allocated_device (i : plan_input) (p : plan) (d : device_input) (share : Z) : device_plan :=
  let staging := staging_of i p (di_id d) in
  let planned := wrap64 (di_dense d + di_graph d + staging + share) in
  mk_device_plan (di_id d) (di_free d) (di_reserve d) (di_dense d) (di_graph d) share 0 staging 0 planned
    (wrap64 (di_free d - di_reserve d - planned)).

Fixpoint share_out (i : plan_input) (p : plan) (kv_total weight_sum assigned : Z) (devices : list device_input)
    (usable : list Z) : option (list device_plan) :=
  match devices, usable with
  | d :: devices, u :: usable =>
      let share := match devices with [] => wrap64 (kv_total - assigned) | _ => mul_div_floor kv_total u weight_sum end in
      if share >? u then None
      else rest ← share_out i p kv_total weight_sum (wrap64 (assigned + share)) devices usable;
           Some (allocated_device i p d share :: rest)
  | _, _ => Some []
  end.

Definition kv_total_of (i : plan_input) (context q : Z) : Z :=
  match i_kv_query i with Some query => query q context | None => mul_saturated (per_token i q) context end.

Definition has_query (i : plan_input) : bool := match i_kv_query i with Some _ => true | None => false end.

Definition allocate_context (i : plan_input) (p : plan) (context q : Z) : option plan :=
  if (negb (has_query i) && (per_token i q =? 0)) || match i_devices i with [] => true | _ => false end then None else
  let kv_total := kv_total_of i context q in
  if (kv_total =? 0) || (kv_total =? UINT64_MAX) then None else
  peak ← add_checked (i_mtp i) (i_multimodal i);
  usable ← mapM (device_usable i p peak) (i_devices i);
  weight_sum ← sum_checked 0 usable;
  if (weight_sum =? 0) || (kv_total >? weight_sum) then None else
  devices ← share_out i p kv_total weight_sum 0 (i_devices i) usable;
  Some (p <| p_devices := devices |> <| p_kv_native := has_query i |>
          <| p_kv_query := match i_kv_query i with Some query => Some (query q) | None => p_kv_query p end |>).

Definition better_context_choice (pref : preference) (ceiling context q best_context best_quality : Z) : bool :=
  if best_context =? 0 then true
  else if bool_decide (pref = pref_latency) then (q >? best_quality) || ((q =? best_quality) && (context >? best_context))
  else if bool_decide (pref = pref_balanced) && (context =? ceiling) then negb (best_context =? ceiling) || (q >? best_quality)
  else if bool_decide (pref = pref_balanced) && (best_context =? ceiling) then false
  else (context >? best_context) || ((context =? best_context) && (q >? best_quality)).

(** ** The context search *)

Fixpoint search (fuel : nat) (fits : Z -> bool) (alignment low high best : Z) : option Z :=
  match fuel with
  | O => None
  | S fuel =>
      if low <=? high then
        let middle_units := low + (high - low) / 2 in
        let middle := wrap32 (middle_units * alignment) in
        if fits middle then search fuel fits alignment (wrap32 (middle_units + 1)) high middle
        else if middle_units =? 0 then Some best
        else search fuel fits alignment low (middle_units - 1) best
      else Some best
  end.

(** One quality of the loop; [best] is the pair [context_found], [best_candidate]. *)
Definition try_quality (fuel : nat) (i : plan_input) (minimum ceiling alignment : Z) (base : plan) (best : option plan) (q : Z)
    : result failure (option (option plan)) :=
  if negb (has_query i) && (per_token i q =? 0) then Ok (Some best) else
  match search fuel (fun c => bool_decide (is_Some (allocate_context i base c q))) alignment (minimum / alignment)
          (ceiling / alignment) 0 with
  | None => Err no_return
  | Some c =>
      if c =? 0 then Ok (Some best) else
      match allocate_context i (base <| p_quality := q |> <| p_context := c |>) c q with
      | None => Ok None
      | Some attempt =>
          Ok (Some (match best with
                    | None => Some attempt
                    | Some b => if better_context_choice (i_preference i) ceiling c q (p_context b) (p_quality b)
                                then Some attempt else Some b
                    end))
      end
  end.

(** [Ok None]: no context was found. *)
Fixpoint find_context (fuel : nat) (i : plan_input) (minimum ceiling alignment : Z) (base : plan) (best : option plan)
    (qualities : list Z) : result failure (option plan) :=
  match qualities with
  | [] => Ok best
  | q :: qualities =>
      let? r := try_quality fuel i minimum ceiling alignment base best q in
      match r with
      | None => Ok None
      | Some best => find_context fuel i minimum ceiling alignment base best qualities
      end
  end.

(** ** [common_resource_plan_solve] *)

Definition wanted_ram (i : plan_input) (policy : memory_policy) (ram_left : Z) : Z :=
  if bool_decide (policy = policy_resident) then i_expert_source i else Z.min (i_requested_expert_ram i) ram_left.

(** From the first check to the RAM plan. *)
Definition solve_ram (i : plan_input) : result failure plan :=
  guard? negb ((i_slots i =? 0) || match i_devices i with [] => true | _ => false end)
    else refused "resource planning requires at least one slot and one device" in
  guard? i_backend_available i else refused "requested storage backend is unavailable; fallback is forbidden" in
  guard? negb ((i_min_quality i <? QUALITY_TURBO1) || (i_min_quality i >? QUALITY_F16))
    else refused "invalid minimum KV quality" in
  let policy := resolve_policy i in
  let io_staging := if bool_decide (policy = policy_stream) then i_io_staging i else 0 in
  let staging_enabled := bool_decide (policy <> policy_resident) && negb (i_requested_staging i =? 0) in
  guard? negb (i_require_staging i && negb staging_enabled)
    else refused "required expert prefill staging needs a non-resident MoE memory policy" in
  let? ram_fixed := sum_or (refused "fixed RAM allocations exceed --max-ram") (i_dense_ram i)
    [i_graph_metadata i; io_staging; i_ple_ram i] in
  guard? negb (negb (i_max_ram i =? 0) && (ram_fixed >? i_max_ram i)) else refused "fixed RAM allocations exceed --max-ram" in
  let ram_left := if i_max_ram i =? 0 then UINT64_MAX - ram_fixed else i_max_ram i - ram_fixed in
  let expert := wanted_ram i policy ram_left in
  guard? negb (expert >? ram_left) else refused "resident expert weights exceed --max-ram" in
  let expert := if bool_decide (policy <> policy_resident) && negb (expert =? 0) && (expert <? i_min_expert_ram i)
                then 0 else expert in
  let aux := Z.min (i_requested_aux_ram i) (ram_left - expert) in
  Ok (empty_plan <| p_policy := policy |> <| p_backend := i_requested_backend i |> <| p_slots := i_slots i |>
        <| p_ram_capacity := i_max_ram i |> <| p_graph_metadata := i_graph_metadata i |> <| p_ple_ram := i_ple_ram i |>
        <| p_io_staging := io_staging |> <| p_staging_enabled := staging_enabled |> <| p_expert_ram := expert |>
        <| p_aux_ram := aux |> <| p_ram_planned := wrap64 (ram_fixed + expert + aux) |>).

Definition context_ceiling (i : plan_input) : Z :=
  if i_max_context i =? 0 then i_requested_context i
  else if i_requested_context i =? 0 then i_max_context i
  else Z.min (i_requested_context i) (i_max_context i).

Definition alignment_of (i : plan_input) : Z := Z.max 1 (i_alignment i).

(** The aligned minimum and ceiling. *)
Definition context_bounds (i : plan_input) : result failure (Z * Z) :=
  let alignment := alignment_of i in
  let aligned_ceiling := context_ceiling i / alignment * alignment in
  let minimum_units := (Z.max (i_min_context i) (i_slots i) + alignment - 1) / alignment in
  guard? negb (minimum_units * alignment >? UINT32_MAX)
    else refused "minimum context cannot be represented at the requested alignment" in
  let aligned_minimum := minimum_units * alignment in
  guard? negb (aligned_ceiling <? aligned_minimum) else refused "requested context is below the minimum context" in
  Ok (aligned_minimum, aligned_ceiling).

(** The search with staging, then without it when it is optional; the flag says
    that it was dropped. *)
Definition choose_context (fuel : nat) (i : plan_input) (minimum ceiling : Z) (candidate : plan) : result failure (plan * bool) :=
  let qualities := qualities_descending (i_min_quality i) in
  let? first := find_context fuel i minimum ceiling (alignment_of i) candidate None qualities in
  match first with
  | Some p => Ok (p, false)
  | None =>
      if p_staging_enabled candidate && negb (i_require_staging i) then
        let? second := find_context fuel i minimum ceiling (alignment_of i) (candidate <| p_staging_enabled := false |>) None qualities in
        match second with
        | Some p => Ok (p, true)
        | None => Err (refused "no context fits without crossing the declared KV quality floor and device reserves")
        end
      else Err (refused (if i_require_staging i && p_staging_enabled candidate
        then "required expert prefill staging does not fit without crossing the context/KV floor or device reserves"
        else "no context fits without crossing the declared KV quality floor and device reserves"))
  end.

(** The transient policy and its capacity.  [headroom] is that of the transient
    device, [None] when the plan has no such device; the code reads it only
    where a module is configured, after that case has been refused. *)
Definition transient_choice (i : plan_input) (headroom : option Z) : result failure (transient_policy * Z) :=
  let need := Z.max (i_mtp i) (i_multimodal i) in
  guard? negb (negb (need =? 0) && bool_decide (headroom = None))
    else refused "transient device is not present in the resource plan" in
  let headroom := default 0 headroom in
  if negb (i_mtp i =? 0) && negb (i_multimodal i =? 0) then
    guard? negb (headroom <? need)
      else refused "configured shared transient modules do not fit while preserving the device reserve" in
    Ok (transient_shared, need)
  else if negb (i_mtp i =? 0) then
    guard? negb (headroom <? i_mtp i)
      else refused "configured MTP transient module does not fit while preserving the device reserve" in
    Ok (transient_mtp_only, i_mtp i)
  else if negb (i_multimodal i =? 0) then
    guard? negb (headroom <? i_multimodal i)
      else refused "configured multimodal transient module does not fit while preserving the device reserve" in
    Ok (transient_multimodal_only, i_multimodal i)
  else Ok (transient_off, 0).

Definition find_device (id : Z) (l : list device_plan) : option device_plan := snd <$> list_find (fun d => d_id d = id) l.
Definition find_host (l : list device_plan) : option device_plan := snd <$> list_find (fun d => d_id d < 0) l.

Definition solve_transient (i : plan_input) (candidate : plan) : result failure plan :=
  let batch := Z.max 1 (Z.min (i_requested_batch i) (p_context candidate)) in
  let ubatch := Z.max 1 (Z.min (i_requested_ubatch i) batch) in
  let device := if i_transient_device i <? 0
    then match p_devices candidate with d :: _ => d_id d | [] => i_transient_device i end else i_transient_device i in
  let? (policy, capacity) := transient_choice i (d_headroom <$> find_device device (p_devices candidate)) in
  let swap := bool_decide (policy = transient_shared) in
  let draft := swap || bool_decide (policy = transient_mtp_only) in
  guard? negb (i_require_draft i && negb draft)
    else refused "required draft allocation does not fit while preserving device reserves" in
  Ok (candidate <| p_batch := batch |> <| p_ubatch := ubatch |> <| p_transient_device := device |> <| p_mtp := i_mtp i |>
        <| p_multimodal := i_multimodal i |> <| p_transient_capacity := capacity |> <| p_transient_policy := policy |>
        <| p_transient_swap := swap |> <| p_draft_resident := draft |>).

(** Transient and expert-cache bytes of one device. *)
Definition finish_device (i : plan_input) (p : plan) (d : device_plan) : result failure device_plan :=
  let transient := if d_id d =? p_transient_device p then p_transient_capacity p else 0 in
  let? reserve :=
    (if (d_id d =? p_transient_device p) && bool_decide (p_transient_policy p = transient_shared)
     then sum_or (refused "shared transient preparation reserve overflows 64-bit bytes") transient [Z.min (i_mtp i) (i_multimodal i)]
     else Ok transient) in
  let expert := if bool_decide (p_policy p = policy_resident) then 0
    else Z.min (i_requested_expert_vram i) (d_headroom d - Z.min (d_headroom d) reserve) in
  let planned := wrap64 (d_planned d + wrap64 (transient + expert)) in
  Ok (d <| d_transient := transient |> <| d_expert_cache := expert |> <| d_planned := planned |>
        <| d_headroom := wrap64 (d_capacity d - d_reserve d - planned) |>).

Fixpoint finish_devices (i : plan_input) (p : plan) (l : list device_plan) : result failure (list device_plan) :=
  match l with
  | [] => Ok []
  | d :: l => let? d := finish_device i p d in let? l := finish_devices i p l in Ok (d :: l)
  end.

(** The host row and the RAM fields describe the same memory. *)
Definition reconcile_host (i : plan_input) (p : plan) : result failure plan :=
  match find_host (p_devices p) with
  | Some host =>
      if i_max_ram i =? 0 then Ok p else
      let host_non_weight := d_planned host - Z.min (d_planned host) (i_dense_ram i) in
      let? combined := sum_or (refused "host RAM plan overflows 64-bit accounting") (p_ram_planned p) [host_non_weight] in
      let excess := if combined >? i_max_ram i then combined - i_max_ram i else 0 in
      let aux_reduction := Z.min excess (p_aux_ram p) in
      let p := p <| p_aux_ram ::= fun x => x - aux_reduction |> <| p_ram_planned ::= fun x => wrap64 (x - aux_reduction) |> in
      let excess := excess - aux_reduction in
      let '(p, excess) :=
        if negb (excess =? 0) && bool_decide (p_policy p <> policy_resident) then
          let expert_reduction := Z.min excess (p_expert_ram p) in
          let p := p <| p_expert_ram ::= fun x => x - expert_reduction |>
                     <| p_ram_planned ::= fun x => wrap64 (x - expert_reduction) |> in
          let remainder := p_expert_ram p in
          (if negb (remainder =? 0) && (remainder <? i_min_expert_ram i)
           then p <| p_expert_ram := 0 |> <| p_ram_planned ::= fun x => wrap64 (x - remainder) |> else p,
           excess - expert_reduction)
        else (p, excess) in
      guard? excess =? 0 else refused "host weights, KV, and workspace exceed --max-ram" in
      Ok p
  | None => Ok p
  end.

Definition plan_reason (p : plan) (staging_dropped : bool) : string :=
  ("deterministic " +:+ memory_policy_name (p_policy p) +:+ " plan at " +:+ kv_quality_name (p_quality p)
   +:+ " KV quality with explicit per-device reserves"
   +:+ (if staging_dropped then "; optional expert prefill staging disabled to preserve the context/KV floor" else ""))%string.

Definition plan_solve (fuel : nat) (i : plan_input) : result failure plan :=
  let? candidate := solve_ram i in
  let? (minimum, ceiling) := context_bounds i in
  let? (candidate, dropped) := choose_context fuel i minimum ceiling candidate in
  let? candidate := solve_transient i candidate in
  let? devices := finish_devices i candidate (p_devices candidate) in
  let? candidate := reconcile_host i (candidate <| p_devices := devices |>) in
  Ok (candidate <| p_reason := plan_reason candidate dropped |>).

(** ** [common_resource_plan_reserve_host_context] *)

(** [llama_context_host_requirements], what the native context will allocate. *)
Record host_requirements := mk_requirements {
  hr_weights : Z; hr_fixed : Z; hr_ple_cache : Z; hr_graph : Z; hr_kv : Z;
}.

Definition host_rows (p : plan) : list device_plan := filter (fun d => d_id d < 0) (p_devices p).

Definition reserve_host_context (p : plan) (required : host_requirements) : result string plan :=
  let? reserved := sum_or "startup host reservations overflow" 0
    [p_expert_ram p; p_aux_ram p; p_io_staging p; p_ple_ram p; p_graph_metadata p; p_context_metadata p; p_graph_workspace p] in
  guard? negb ((reserved >? p_ram_planned p) || (p_ram_capacity p =? 0)) else "invalid startup host reservation total" in
  let weights := Z.max (hr_weights required) (p_ram_planned p - reserved) in
  let? fixed := sum_or "" (p_graph_metadata p) [p_context_metadata p] in
  let fixed := Z.max fixed (hr_fixed required) in
  let ple := Z.max (p_ple_ram p) (hr_ple_cache required) in
  let? base := sum_or "native startup RAM overflows" weights [fixed; ple; p_expert_ram p; p_io_staging p] in
  let? (workspace, graph, kv) :=
    foldM (fun '(workspace, graph, kv) d =>
      let? workspace := sum_or "host startup workspace overflows" workspace
        [d_graph d; d_expert_cache d; d_staging d; d_transient d] in
      let? graph := sum_or "host graph forecast overflows" graph [d_graph d] in
      let? kv := sum_or "host startup KV overflows" kv [d_kv d] in
      Ok (workspace, graph, kv)) (host_rows p) (0, 0, 0) in
  let measured_extra := if hr_graph required >? graph then hr_graph required - graph else 0 in
  let graph_workspace := Z.max (p_graph_workspace p) measured_extra in
  let? base := sum_or "host graph workspace overflows" base [graph_workspace] in
  let e := "native context, weights, KV and workspace exceed --max-ram" in
  let? combined := sum_or e base [workspace; Z.max kv (hr_kv required)] in
  guard? negb (combined >? p_ram_capacity p) else e in
  let mib := 1024 * 1024 in
  let aux := Z.min (p_aux_ram p) (p_ram_capacity p - combined) / mib * mib in
  Ok (p <| p_context_metadata := fixed - p_graph_metadata p |> <| p_ple_ram := ple |> <| p_graph_workspace := graph_workspace |>
        <| p_aux_ram := aux |> <| p_ram_planned := wrap64 (base + aux) |>).
