(* ===== verification/ResourceSolve.v ===== *)
(** * Correctness of the resource planner

    The proofs about [ResourcePlan]: a solved plan keeps every device and the
    RAM inside their budgets, the context search terminates and finds the best
    admissible pair of context and quality, and the two inputs on which it does
    not. *)

From S2P Require Import Prelude Accounting ResourcePlan.
From stdpp Require Import strings.
Open Scope string_scope.
Open Scope list_scope.
Open Scope Z_scope.

Local Arguments wrap64 : simpl never.
Local Arguments wrap32 : simpl never.
Local Arguments Z.sub : simpl never.
Local Arguments Z.add : simpl never.
Local Arguments Z.min : simpl never.
Local Arguments find_host : simpl never.
Local Arguments sum_or : simpl never.
Local Arguments resolve_policy : simpl never.

Ltac word := unfold u64, u32, UINT64_MAX, UINT32_MAX in *; lia.

(** ** Well-formed inputs: every field is in the range of its type *)

Definition device_input_ok (d : device_input) : Prop :=
  u64 (di_free d) /\ u64 (di_reserve d) /\ u64 (di_dense d) /\ u64 (di_graph d).

Record input_ok (i : plan_input) : Prop := {
  io_devices : Forall device_input_ok (i_devices i);
  io_ram : Forall u64 [i_max_ram i; i_dense_ram i; i_expert_source i; i_requested_expert_ram i; i_min_expert_ram i;
    i_ple_ram i; i_requested_aux_ram i; i_requested_expert_vram i; i_requested_staging i; i_io_staging i; i_mtp i;
    i_multimodal i; i_graph_metadata i];
  io_context : Forall u32 [i_requested_context i; i_max_context i; i_min_context i; i_alignment i; i_slots i;
    i_requested_batch i; i_requested_ubatch i];
  io_kv : forall c q, u64 (kv_total_of i c q);
}.

Lemma input_ok_ram i x : input_ok i -> x ∈ [i_max_ram i; i_dense_ram i; i_expert_source i; i_requested_expert_ram i; i_min_expert_ram i;
    i_ple_ram i; i_requested_aux_ram i; i_requested_expert_vram i; i_requested_staging i; i_io_staging i; i_mtp i;
    i_multimodal i; i_graph_metadata i] -> u64 x.
Proof. intros [_ H _ _] Hx. by eapply Forall_forall in Hx. Qed.

Lemma input_ok_context i x : input_ok i -> x ∈ [i_requested_context i; i_max_context i; i_min_context i; i_alignment i; i_slots i;
    i_requested_batch i; i_requested_ubatch i] -> u32 x.
Proof. intros [_ _ H _] Hx. by eapply Forall_forall in Hx. Qed.

#[export] Hint Extern 1 (u64 _) => (eapply input_ok_ram; [eassumption|set_solver]) : ese.
#[export] Hint Extern 1 (u32 _) => (eapply input_ok_context; [eassumption|set_solver]) : ese.

(** ** Shares of the devices *)

(** Bytes of a device that are spoken for before the KV cache. *)
Definition committed (i : plan_input) (p : plan) (peak : Z) (d : device_input) : Z :=
  di_reserve d + di_dense d + di_graph d + staging_of i p (di_id d) + (if di_id d =? transient_device_of i then peak else 0).

Lemma staging_u64 i p id : input_ok i -> u64 (staging_of i p id).
Proof. intros Hi. unfold staging_of. case_match; [auto with ese|word]. Qed.
#[export] Hint Resolve staging_u64 : ese.

Lemma device_usable_spec i p peak d u :
  input_ok i -> device_input_ok d -> u64 peak ->
  device_usable i p peak d = Some u <-> committed i p peak d + u = di_free d /\ 0 <= u.
Proof.
  intros Hi (H1 & H2 & H3 & H4) Hp. pose proof (staging_u64 i p (di_id d) Hi) as Hst. unfold device_usable, committed.
  assert (Hl : Forall u64 ([di_dense d; di_graph d; staging_of i p (di_id d)] ++ (if di_id d =? transient_device_of i then [peak] else [])))
    by (destruct (di_id d =? transient_device_of i); repeat constructor; word).
  destruct (sum_checked _ _) as [fixed|] eqn:E; simpl.
  - apply sum_checked_spec in E as [-> Hle]; [|done|done]. rewrite zsum_app in *. simpl in *.
    destruct (di_id d =? transient_device_of i); simpl in *; destruct (_ >? _) eqn:E; bool_facts;
      (split; [first [done|intros [= <-]]; lia|intros [? ?]; first [exfalso; lia|f_equal; lia]]).
  - split; [done|]. intros [Heq Hu]. enough (Hc : sum_checked (di_reserve d) ([di_dense d; di_graph d; staging_of i p (di_id d)] ++ (if di_id d =? transient_device_of i then [peak] else []))
      = Some (di_reserve d + zsum ([di_dense d; di_graph d; staging_of i p (di_id d)] ++ (if di_id d =? transient_device_of i then [peak] else [])))) by congruence.
    apply sum_checked_spec; [done|done|]. split; [done|]. rewrite zsum_app. simpl. destruct (di_id d =? transient_device_of i); simpl; word.
Qed.

(** The row of a device that got [kv] bytes: nothing wrapped, and the reserve and
    the transient preparation peak are still free. *)
Record row_ok (i : plan_input) (p : plan) (peak : Z) (d : device_input) (r : device_plan) : Prop := {
  ro_row : r = allocated_device i p d (d_kv r);
  ro_kv : 0 <= d_kv r;
  ro_planned : d_planned r = di_dense d + di_graph d + staging_of i p (di_id d) + d_kv r;
  ro_headroom : d_headroom r = di_free d - di_reserve d - d_planned r;
  ro_fits : committed i p peak d + d_kv r <= di_free d;
}.

Lemma allocated_row_ok i p peak d u share :
  input_ok i -> device_input_ok d -> u64 peak -> committed i p peak d + u = di_free d -> 0 <= share <= u ->
  row_ok i p peak d (allocated_device i p d share).
Proof.
  intros Hi (H1 & H2 & H3 & H4) Hp Hu Hs. pose proof (staging_u64 i p (di_id d) Hi) as Hst.
  assert (Hpk : 0 <= (if di_id d =? transient_device_of i then peak else 0)) by (case_match; word).
  unfold committed in *. assert (Hw : wrap64 (di_dense d + di_graph d + staging_of i p (di_id d) + share) = di_dense d + di_graph d + staging_of i p (di_id d) + share)
    by (apply wrap64_small; word).
  split; unfold allocated_device; cbn [d_kv d_planned d_headroom]; rewrite ?Hw; try done; try lia.
  - apply wrap64_small; word.
  - unfold committed. lia.
Qed.

Lemma mul_div_floor_share kv u w : u64 kv -> 0 <= u <= w -> 0 < w -> mul_div_floor kv u w * w <= kv * u /\ 0 <= mul_div_floor kv u w <= kv.
Proof.
  intros Hkv Hu Hw. unfold mul_div_floor. assert (0 <= kv * u / w <= kv).
  { split; [apply Z.div_pos; word|]. apply Z.div_le_upper_bound; [lia|]. unfold u64 in Hkv. nia. }
  rewrite wrap64_small by word. split; [|done]. rewrite Z.mul_comm. apply Z.mul_div_le. lia.
Qed.

Lemma share_out_ok i p peak kv w devices usable assigned rows :
  input_ok i -> Forall device_input_ok devices -> u64 peak -> u64 kv -> 0 < w ->
  Forall2 (fun d u => committed i p peak d + u = di_free d /\ 0 <= u) devices usable ->
  0 <= assigned <= kv -> assigned * w + kv * zsum usable <= kv * w -> zsum usable <= w ->
  share_out i p kv w assigned devices usable = Some rows ->
  Forall2 (row_ok i p peak) devices rows /\ (devices <> [] -> zsum (d_kv <$> rows) = kv - assigned).
Proof.
  intros Hi Hd Hp Hkv Hw HF. revert assigned rows Hd.
  induction HF as [|d u devices usable [Hu Hu0] HF IH]; intros assigned rows Hd Ha Hinv Hsum; cbn [share_out]; [intros [= <-]; by split|].
  apply Forall_cons in Hd as [Hd Hds]. cbn [zsum foldr] in Hinv, Hsum. fold (zsum usable) in Hinv, Hsum.
  assert (Husable : 0 <= zsum usable).
  { apply zsum_nonneg. clear - HF. induction HF as [|d' u' ? ? [_ ?] _ IHF]; constructor; auto. }
  set (share := match devices with [] => _ | _ => _ end).
  assert (Hshare : 0 <= share <= kv - assigned /\ (devices <> [] -> (assigned + share) * w + kv * zsum usable <= kv * w) /\ (devices = [] -> share = kv - assigned)).
  { unfold share. destruct devices as [|d' devices]; [rewrite wrap64_small by word; split_and!; try done; lia|].
    destruct (mul_div_floor_share kv u w Hkv ltac:(lia) Hw) as [Hm1 Hm2]. assert (assigned + mul_div_floor kv u w <= kv) by nia.
    split_and!; [lia|lia|nia|done]. }
  destruct Hshare as (Hs & Hnext & Hlast). destruct (share >? u) eqn:Efit; [done|]. bool_facts.
  destruct (share_out i p kv w _ devices usable) as [rest|] eqn:Erest; [|done]. simpl. intros [= <-].
  rewrite wrap64_small in Erest by word. assert (Hrow : row_ok i p peak d (allocated_device i p d share)) by (apply (allocated_row_ok i p peak d u); try done; lia).
  destruct devices as [|d' devices].
  - destruct usable; [|by inversion HF]. simpl in Erest. injection Erest as <-. split; [by apply Forall2_cons|]. intros _. rewrite fmap_cons. cbn [allocated_device d_kv fmap list_fmap zsum foldr]. rewrite Hlast by done. lia.
  - specialize (Hnext ltac:(done)). destruct (IH (assigned + share) rest Hds ltac:(lia) ltac:(lia) ltac:(lia) Erest) as [Hrows Hkvs].
    split; [by constructor|]. intros _. rewrite fmap_cons. simpl. fold (zsum (d_kv <$> rest)). rewrite Hkvs by done. lia.
Qed.

Definition peak_of (i : plan_input) : Z := i_mtp i + i_multimodal i.

Lemma mapM_usable i p peak devices usable :
  input_ok i -> u64 peak -> Forall device_input_ok devices ->
  mapM (device_usable i p peak) devices = Some usable <->
  Forall2 (fun d u => committed i p peak d + u = di_free d /\ 0 <= u) devices usable.
Proof.
  intros Hi Hp Hd. rewrite mapM_Some. split; intros HF.
  - induction HF; constructor; apply Forall_cons in Hd as [Hx Hd]; [by apply device_usable_spec|auto].
  - induction HF; constructor; apply Forall_cons in Hd as [Hx Hd]; [by apply device_usable_spec|auto].
Qed.

(** What a successful [allocate_context] went through. *)
Record allocation (i : plan_input) (p : plan) (c q : Z) (usable : list Z) (rows : list device_plan) : Prop := {
  al_sized : negb (has_query i) && (per_token i q =? 0) = false;
  al_devices : i_devices i <> [];
  al_kv : 0 < kv_total_of i c q < UINT64_MAX;
  al_peak : u64 (peak_of i);
  al_usable : Forall2 (fun d u => committed i p (peak_of i) d + u = di_free d /\ 0 <= u) (i_devices i) usable;
  al_sum : kv_total_of i c q <= zsum usable <= UINT64_MAX;
  al_rows : share_out i p (kv_total_of i c q) (zsum usable) 0 (i_devices i) usable = Some rows;
}.

(** The allocation looks at the plan only for the staging switch. *)
Lemma share_out_ext i p p' kv w assigned devices usable :
  p_staging_enabled p = p_staging_enabled p' -> share_out i p kv w assigned devices usable = share_out i p' kv w assigned devices usable.
Proof.
  intros He. revert assigned usable. induction devices as [|d devices IH]; intros assigned [|u usable]; cbn [share_out]; try done.
  rewrite IH. unfold allocated_device, staging_of. by rewrite He.
Qed.

Lemma committed_ext i p p' peak d : p_staging_enabled p = p_staging_enabled p' -> committed i p peak d = committed i p' peak d.
Proof. intros He. unfold committed, staging_of. by rewrite He. Qed.

Lemma allocation_ext i p p' c q usable rows :
  p_staging_enabled p = p_staging_enabled p' -> allocation i p c q usable rows -> allocation i p' c q usable rows.
Proof.
  intros He [H1 H2 H3 H4 H5 H6 H7]. split; try done; [|by rewrite <- (share_out_ext _ _ _ _ _ _ _ _ He)].
  eapply Forall2_impl; [exact H5|]. intros d u. simpl. by rewrite (committed_ext _ _ _ _ _ He).
Qed.

Definition with_rows (i : plan_input) (p : plan) (q : Z) (rows : list device_plan) : plan :=
  p <| p_devices := rows |> <| p_kv_native := has_query i |>
    <| p_kv_query := match i_kv_query i with Some query => Some (query q) | None => p_kv_query p end |>.

Lemma usable_u64 i p peak devices usable :
  input_ok i -> Forall device_input_ok devices -> u64 peak ->
  Forall2 (fun d u => committed i p peak d + u = di_free d /\ 0 <= u) devices usable -> Forall u64 usable.
Proof.
  intros Hi Hd Hp HF. induction HF as [|d u devices usable [Hu Hu0] HF IH]; [constructor|].
  apply Forall_cons in Hd as [(H1 & H2 & H3 & H4) Hd]. constructor; [|auto]. pose proof (staging_u64 i p (di_id d) Hi).
  unfold committed in Hu. destruct (di_id d =? transient_device_of i); word.
Qed.

Lemma allocate_context_spec i p c q p' :
  input_ok i -> allocate_context i p c q = Some p' <-> exists usable rows, allocation i p c q usable rows /\ p' = with_rows i p q rows.
Proof.
  intros Hi. assert (Hmtp : u64 (i_mtp i)) by auto with ese. assert (Hmm : u64 (i_multimodal i)) by auto with ese.
  pose proof (io_kv i Hi c q) as Hkv. unfold allocate_context. split.
  - destruct (_ || _) eqn:E0; [done|]. apply orb_false_iff in E0 as [Hsz Hne].
    destruct (_ || _) eqn:E1; [done|]. bool_facts. destruct (add_checked _ _) as [peak|] eqn:Ep; [|done]. cbn [mbind option_bind].
    apply add_checked_spec in Ep as [Hpk Hple]; [|word|word]. change (peak = peak_of i) in Hpk. subst peak.
    assert (Hpu : u64 (peak_of i)) by (unfold peak_of in *; word).
    destruct (mapM _ _) as [usable|] eqn:Eu; [|done]. cbn [mbind option_bind].
    apply mapM_usable in Eu; [|done|done|apply Hi]. pose proof (usable_u64 _ _ _ _ _ Hi (io_devices i Hi) Hpu Eu) as Hus.
    destruct (sum_checked 0 usable) as [w|] eqn:Ew; [|done]. cbn [mbind option_bind].
    apply sum_checked_spec in Ew as [-> Hw]; [|word|done]. rewrite Z.add_0_l in *. destruct (_ || _) eqn:E2; [done|]. bool_facts.
    destruct (share_out _ _ _ _ _ _ _) as [rows|] eqn:Er; [|done]. cbn [mbind option_bind]. intros [= <-].
    exists usable, rows. split; [|done]. split; try done; [by destruct (i_devices i)|word].
  - intros (usable & rows & [H1 H2 H3 H4 H5 H6 H7] & ->). rewrite H1. destruct (i_devices i) as [|d0 ds] eqn:Ed; [done|]. rewrite <- Ed in *. cbn [orb].
    destruct (Z.eqb_spec (kv_total_of i c q) 0); [lia|]. destruct (Z.eqb_spec (kv_total_of i c q) UINT64_MAX); [lia|]. cbn [orb].
    rewrite (proj2 (add_checked_spec (i_mtp i) (i_multimodal i) (peak_of i) ltac:(word) ltac:(word))) by (unfold peak_of in *; word).
    cbn [mbind option_bind]. rewrite (proj2 (mapM_usable i p (peak_of i) (i_devices i) usable Hi H4 (io_devices i Hi)) H5). cbn [mbind option_bind].
    pose proof (usable_u64 _ _ _ _ _ Hi (io_devices i Hi) H4 H5) as Hus.
    rewrite (proj2 (sum_checked_spec 0 usable (zsum usable) ltac:(word) Hus)) by lia. cbn [mbind option_bind].
    destruct (Z.eqb_spec (zsum usable) 0); [lia|]. destruct (_ >? _) eqn:E; [bool_facts; lia|]. cbn [orb]. rewrite H7. done.
Qed.

Lemma allocation_rows i p c q usable rows :
  input_ok i -> allocation i p c q usable rows ->
  Forall2 (row_ok i p (peak_of i)) (i_devices i) rows /\ zsum (d_kv <$> rows) = kv_total_of i c q.
Proof.
  intros Hi [H1 H2 H3 H4 H5 H6 H7]. pose proof (io_kv i Hi c q) as Hkv.
  destruct (share_out_ok i p (peak_of i) (kv_total_of i c q) (zsum usable) (i_devices i) usable 0 rows) as [Hr Hs]; try done; try word; [apply Hi|]. split; [done|]. rewrite Hs by done. lia.
Qed.

(** With at most two devices the rounding of the shares never refuses a KV cache
    that fits the sum of what is free. *)
Lemma share_out_small i p kv devices usable :
  u64 kv -> (length devices <= 2)%nat -> length devices = length usable -> Forall u64 usable -> 0 < kv <= zsum usable -> zsum usable <= UINT64_MAX ->
  is_Some (share_out i p kv (zsum usable) 0 devices usable).
Proof.
  intros Hkv Hlen Hl Hu Hfit Hmax. destruct devices as [|d1 [|d2 [|]]], usable as [|u1 [|u2 [|]]]; simplify_eq/=; try lia.
  - rewrite Z.sub_0_r, wrap64_small by done. destruct (_ >? _) eqn:E; [bool_facts; lia|]. by eexists.
  - apply Forall_cons in Hu as [Hu1 Hu]. apply Forall_cons in Hu as [Hu2 _]. rewrite Z.add_0_r in *.
    destruct (mul_div_floor_share kv u1 (u1 + u2) Hkv ltac:(word) ltac:(lia)) as [Hm1 Hm2].
    assert (Hm3 : kv * u1 - (u1 + u2) < mul_div_floor kv u1 (u1 + u2) * (u1 + u2)).
    { unfold mul_div_floor. rewrite wrap64_small.
      - pose proof (Z.mod_pos_bound (kv * u1) (u1 + u2) ltac:(lia)). pose proof (Z.div_mod (kv * u1) (u1 + u2) ltac:(lia)). lia.
      - split; [apply Z.div_pos; word|]. apply Z.div_le_upper_bound; [lia|]. unfold u64 in *. nia. }
    set (s := mul_div_floor kv u1 (u1 + u2)) in *. clearbody s.
    destruct (s >? u1) eqn:E1; [bool_facts; nia|]. rewrite Z.add_0_l, (wrap64_small s) by word. rewrite (wrap64_small (kv - s)) by word. destruct (kv - s >? u2) eqn:E2; [|exact (mk_is_Some _ _ eq_refl)]. bool_facts.
    exfalso. unfold u64 in Hu1, Hu2. assert ((kv - s) * (u1 + u2) < kv * u2 + (u1 + u2)) by nia. assert (kv * u2 <= u2 * (u1 + u2)) by nia. nia.
Qed.

(** ** The binary search *)

Lemma middle_bounds low high : 0 <= low <= high -> low <= low + (high - low) / 2 <= high /\ 2 * ((high - low) / 2) <= high - low < 2 * ((high - low) / 2) + 2.
Proof. intros H. pose proof (Z.div_mod (high - low) 2). pose proof (Z.mod_pos_bound (high - low) 2). lia. Qed.

Section search.
Context (fits : Z -> bool) (a : Z).
Hypothesis Ha : 0 < a.

Lemma search_terminates fuel k low high best :
  0 <= low -> high < UINT32_MAX -> high - low + 1 < 2 ^ Z.of_nat k -> (k < fuel)%nat -> is_Some (search fuel fits a low high best).
Proof.
  revert k low high best. induction fuel as [|fuel IH]; intros k low high best Hl Hh Hsz Hk; [lia|]. cbn [search].
  destruct (Z.leb_spec low high) as [Hle|]; [|by eexists].
  pose proof (middle_bounds low high ltac:(lia)) as [Hm Hm2]. set (m := low + (high - low) / 2) in *.
  destruct k as [|k]; [simpl in Hsz; lia|]. rewrite Nat2Z.inj_succ, Z.pow_succ_r in Hsz by lia.
  destruct (fits _).
  - rewrite wrap32_small by word. apply (IH k); lia.
  - destruct (m =? 0); [by eexists|]. apply (IH k); lia.
Qed.

Lemma search_result fuel low high best c :
  0 <= low -> high < UINT32_MAX -> high * a <= UINT32_MAX -> search fuel fits a low high best = Some c ->
  c = best \/ exists u, low <= u <= high /\ c = u * a /\ fits c = true.
Proof.
  revert low high best. induction fuel as [|fuel IH]; intros low high best Hl Hh Hw; [done|]. cbn [search].
  destruct (Z.leb_spec low high) as [Hle|]; [|naive_solver]. pose proof (middle_bounds low high ltac:(lia)) as [Hm _].
  set (m := low + (high - low) / 2) in *. rewrite (wrap32_small (m * a)) by (unfold u32; nia). destruct (fits (m * a)) eqn:Ef.
  - rewrite wrap32_small by word. intros Hc. apply IH in Hc as [->|(u & ? & ? & ?)]; [| |lia|lia|lia]; right; [exists m|exists u]; split_and!; done || lia.
  - destruct (m =? 0); [intros [= ->]; by left|]. intros Hc. apply IH in Hc as [->|(u & ? & ? & ?)]; [by left| |lia|lia|nia].
    right. exists u. split_and!; done || lia.
Qed.

(** On a monotone predicate the search returns the largest solution. *)
Lemma search_largest fuel low high best c :
  0 <= low -> high < UINT32_MAX -> high * a <= UINT32_MAX ->
  (forall u v, low <= u <= v -> v <= high -> fits (v * a) = true -> fits (u * a) = true) ->
  search fuel fits a low high best = Some c ->
  (c = best /\ forall u, low <= u <= high -> fits (u * a) = false) \/
  exists u, low <= u <= high /\ c = u * a /\ fits c = true /\ forall v, u < v <= high -> fits (v * a) = false.
Proof.
  revert low high best. induction fuel as [|fuel IH]; intros low high best Hl Hh Hw Hmono; [done|]. cbn [search].
  destruct (Z.leb_spec low high) as [Hle|]; [|intros [= ->]; left; split; [done|intros; lia]].
  pose proof (middle_bounds low high ltac:(lia)) as [Hm _]. set (m := low + (high - low) / 2) in *.
  rewrite (wrap32_small (m * a)) by (unfold u32; nia). destruct (fits (m * a)) eqn:Ef.
  - rewrite wrap32_small by word. intros Hc. right. apply IH in Hc as [[-> Hno]|(u & ? & ? & ? & Hno)]; [| |lia|lia|lia|].
    + exists m. split_and!; try done; try lia. intros v Hv. apply Hno. lia.
    + exists u. split_and!; done || lia.
    + intros u v ? ?. apply Hmono; lia.
  - assert (Hup : forall v, m <= v <= high -> fits (v * a) = false).
    { intros v Hv. destruct (fits (v * a)) eqn:Ev; [|done]. rewrite (Hmono m v) in Ef; done || lia. }
    destruct (Z.eqb_spec m 0) as [E0|E0].
    + intros [= ->]. left. split; [done|]. intros u Hu. apply Hup. lia.
    + intros Hc. apply IH in Hc as [[-> Hno]|(u & ? & ? & ? & Hno)]; [| |lia|lia|nia|].
      * left. split; [done|]. intros u Hu. destruct (Z_lt_ge_dec u m); [apply Hno|apply Hup]; lia.
      * right. exists u. split_and!; try done; try lia. intros v Hv. destruct (Z_lt_ge_dec v m); [apply Hno|apply Hup]; lia.
      * intros u v ? ?. apply Hmono; lia.
Qed.
End search.

(** When the ceiling is the largest 32-bit number and fits, the lower counter
    wraps to zero and the search starts over, for ever. *)
Lemma search_diverges fuel fits low best :
  (forall c, fits c = true) -> u32 low -> search fuel fits 1 low UINT32_MAX best = None.
Proof.
  intros Hf. revert low best. induction fuel as [|fuel IH]; intros low best Hl; [done|]. cbn [search].
  destruct (Z.leb_spec low UINT32_MAX) as [_|]; [|word]. rewrite Hf. apply IH. auto with ese.
Qed.

(** ** Choosing among the qualities *)

(** The order behind [better_context_choice]: quality first for latency, context
    first otherwise. *)
Definition choice_le (pref : preference) (c q c' q' : Z) : Prop :=
  match pref with
  | pref_latency => q < q' \/ (q = q' /\ c <= c')
  | _ => c < c' \/ (c = c' /\ q <= q')
  end.

#[export] Instance choice_le_dec pref c q c' q' : Decision (choice_le pref c q c' q').
Proof. destruct pref; simpl; apply _. Defined.

Lemma better_is_lex pref ceiling c q c' q' :
  c <= ceiling -> 0 < c' <= ceiling -> better_context_choice pref ceiling c q c' q' = true <-> ~ choice_le pref c q c' q'.
Proof.
  intros Hc Hc'. unfold better_context_choice. destruct (Z.eqb_spec c' 0); [lia|].
  destruct pref; simpl; repeat case_bool_decide; try done; cbn [andb];
    destruct (Z.eqb_spec c ceiling), (Z.eqb_spec c' ceiling), (Z.eqb_spec c c'), (Z.eqb_spec q q'); simpl;
    rewrite ?orb_true_iff, ?andb_true_iff, ?Z.gtb_lt; try lia; (split; intros; try lia; try (right; lia); try (left; lia); done).
Qed.

Section choose.
Context (i : plan_input) (base : plan) (minimum ceiling a : Z).
Hypothesis Hi : input_ok i.
Hypothesis Ha : 0 < a.
Hypothesis Hmin : (a | minimum) /\ 0 < minimum.
Hypothesis Hceil : (a | ceiling) /\ ceiling <= UINT32_MAX /\ ceiling / a < UINT32_MAX.

Definition admissible (c : Z) : Prop := minimum <= c <= ceiling /\ (a | c).

(** Where a chosen plan comes from. *)
Definition chosen (p : plan) : Prop :=
  admissible (p_context p) /\
  exists usable rows, allocation i base (p_context p) (p_quality p) usable rows /\
    p = with_rows i (base <| p_quality := p_quality p |> <| p_context := p_context p |>) (p_quality p) rows.

Lemma unit_admissible u : minimum / a <= u <= ceiling / a -> admissible (u * a).
Proof.
  destruct Hmin as [[m ->] _], Hceil as [[n ->] _]. rewrite !Z.div_mul by lia. intros Hu. split; [nia|by exists u].
Qed.

Lemma admissible_unit c : admissible c -> exists u, minimum / a <= u <= ceiling / a /\ c = u * a.
Proof.
  intros [Hc [u ->]]. exists u. destruct Hmin as [[m ->] _], Hceil as [[n ->] _]. rewrite !Z.div_mul by lia. split; [nia|done].
Qed.

Definition fit (q c : Z) : bool := bool_decide (is_Some (allocate_context i base c q)).

Lemma search_range : 0 <= minimum / a /\ ceiling / a * a <= UINT32_MAX.
Proof. destruct Hceil as [[n ->] [? _]]. split; [apply Z.div_pos; lia|by rewrite Z.div_mul by lia]. Qed.

Lemma try_quality_ok fuel best q r :
  (forall p, best = Some p -> chosen p) -> try_quality fuel i minimum ceiling a base best q = Ok r ->
  exists best', r = Some best' /\ (forall p, best' = Some p -> chosen p /\ (best = Some p \/ p_quality p = q)).
Proof.
  intros Hb. unfold try_quality. destruct (negb _ && _) eqn:Esz; [intros [= <-]; exists best; split; [done|]; naive_solver|].
  destruct (search _ _ _ _ _ _) as [c|] eqn:Es; [|done]. destruct search_range as [Hr1 Hr2].
  destruct (Z.eqb_spec c 0) as [Ec|Ec]; [intros [= <-]; exists best; split; [done|]; naive_solver|].
  apply search_result in Es as [->|(u & Hu & -> & Hfit)]; [done| |done|done|apply Hceil|done].
  apply bool_decide_eq_true in Hfit as [p0 (usable & rows & Hal & _)%allocate_context_spec]; [|done].
  assert (Hnew : allocate_context i (base <| p_quality := q |> <| p_context := u * a |>) (u * a) q
    = Some (with_rows i (base <| p_quality := q |> <| p_context := u * a |>) q rows))
    by (apply allocate_context_spec; [done|]; exists usable, rows; split; [eapply (allocation_ext i base); [reflexivity|exact Hal]|reflexivity]).
  rewrite Hnew. intros [= <-]. eexists. split; [done|]. intros p Hp. set (attempt := with_rows _ _ _ _) in Hp.
  assert (Hatt : chosen attempt) by (split; [by apply unit_admissible|exists usable, rows; split; [exact Hal|reflexivity]]).
  destruct best as [b|]; [destruct (better_context_choice _ _ _ _ _ _)|]; simplify_eq; split; auto.
Qed.

Lemma find_context_ok fuel best qualities p :
  (forall p, best = Some p -> chosen p) -> find_context fuel i minimum ceiling a base best qualities = Ok (Some p) ->
  chosen p /\ (best = Some p \/ p_quality p ∈ qualities).
Proof.
  revert best. induction qualities as [|q qualities IH]; intros best Hb; cbn [find_context]; [intros [= ->]; auto|].
  destruct (try_quality _ _ _ _ _ _ _ _) as [r|] eqn:Eq; [|done].
  apply try_quality_ok in Eq as (best' & -> & Hb'); [|done]. intros Hf. apply IH in Hf as [Hc [->|Hin]].
  - split; [done|]. destruct (Hb' p eq_refl) as [_ [->|<-]]; [by left|right; left].
  - split; [done|]. right. by right.
  - intros p' ->. by apply Hb'.
Qed.

Lemma find_context_returns fuel best qualities :
  (33 <= fuel)%nat -> find_context fuel i minimum ceiling a base best qualities <> Err no_return.
Proof.
  intros Hf. revert best. induction qualities as [|q qualities IH]; intros best; cbn [find_context]; [done|].
  destruct (try_quality _ _ _ _ _ _ _ _) as [[best'|]|e] eqn:Eq; [apply IH|done|].
  unfold try_quality in Eq. destruct (negb _ && _); [done|].
  destruct (search_terminates (fit q) a fuel 32 (minimum / a) (ceiling / a) 0) as [c Hc]; [apply search_range|apply Hceil| |lia|].
  { destruct search_range as [? _]. assert (0 < minimum / a) by (destruct Hmin as [[m ->] ?]; rewrite Z.div_mul by lia; nia). change (2 ^ Z.of_nat 32) with (2 ^ 32). destruct Hceil as (_ & _ & ?). word. }
  unfold fit in Hc. rewrite Hc in Eq. destruct (c =? 0); [done|]. by destruct (allocate_context _ _ _ _).
Qed.

(** *** Optimality, for a predicate that is monotone in the context *)

Hypothesis Hmono : forall q u v, 0 < u <= v -> fit q (v * a) = true -> fit q (u * a) = true.

Definition dominated (c q : Z) (best : option plan) : Prop :=
  exists b, best = Some b /\ choice_le (i_preference i) c q (p_context b) (p_quality b).

Lemma choice_le_trans pref c1 q1 c2 q2 c3 q3 :
  choice_le pref c1 q1 c2 q2 -> choice_le pref c2 q2 c3 q3 -> choice_le pref c1 q1 c3 q3.
Proof. destruct pref; simpl; lia. Qed.

Lemma choice_le_total pref c1 q1 c2 q2 : ~ choice_le pref c1 q1 c2 q2 -> choice_le pref c2 q2 c1 q1.
Proof. destruct pref; simpl; lia. Qed.

Lemma choice_le_context pref c c' q : c <= c' -> choice_le pref c q c' q.
Proof. destruct pref; simpl; lia. Qed.

Lemma try_quality_best fuel best q best' :
  (forall p, best = Some p -> chosen p) -> try_quality fuel i minimum ceiling a base best q = Ok (Some best') ->
  (forall c, admissible c -> fit q c = true -> dominated c q best') /\
  (forall c q', dominated c q' best -> dominated c q' best').
Proof.
  intros Hb. unfold try_quality. destruct (negb _ && _) eqn:Esz.
  { intros [= <-]. split; [|done]. intros c _ Hf. unfold fit, allocate_context in Hf. rewrite Esz in Hf. by rewrite bool_decide_eq_true in Hf; destruct Hf. }
  destruct (search _ _ _ _ _ _) as [c|] eqn:Es; [|done]. destruct search_range as [Hr1 Hr2].
  assert (Hpos : 0 < minimum / a) by (destruct Hmin as [[m ->] ?]; rewrite Z.div_mul by lia; nia).
  apply search_largest in Es as [[-> Hno]|(u & Hu & -> & Hfit & Hno)]; [| |done|done|apply Hceil|done|].
  - intros [= <-]. split; [|done]. intros c (v & Hv & ->)%admissible_unit Hf. by rewrite (Hno v Hv : fit q (v * a) = false) in Hf.
  - destruct (Z.eqb_spec (u * a) 0); [nia|]. apply bool_decide_eq_true in Hfit as [p0 (usable & rows & Hal & _)%allocate_context_spec]; [|done].
    assert (Hnew : allocate_context i (base <| p_quality := q |> <| p_context := u * a |>) (u * a) q
      = Some (with_rows i (base <| p_quality := q |> <| p_context := u * a |>) q rows))
      by (apply allocate_context_spec; [done|]; exists usable, rows; split; [eapply (allocation_ext i base); [reflexivity|exact Hal]|reflexivity]).
    rewrite Hnew. intros [= <-]. set (attempt := with_rows _ _ _ _).
    assert (Hatt : forall c, admissible c -> fit q c = true -> choice_le (i_preference i) c q (p_context attempt) (p_quality attempt)).
    { intros c (v & Hv & ->)%admissible_unit Hf. apply choice_le_context. destruct (Z_le_gt_dec v u); [cbn; nia|].
      rewrite (Hno v ltac:(lia) : fit q (v * a) = false) in Hf. done. }
    destruct best as [b|]; [|split; [intros; eexists; split; [done|auto]|intros c q' (? & ? & ?); done]].
    destruct (Hb b eq_refl) as [[Hbr _] _]. pose proof (unit_admissible u Hu) as [Hur _].
    pose proof (better_is_lex (i_preference i) ceiling (u * a) q (p_context b) (p_quality b) ltac:(lia) ltac:(lia)) as Hlex.
    destruct (better_context_choice _ _ _ _ _ _).
    + destruct Hlex as [Hlex _]. specialize (Hlex eq_refl). apply choice_le_total in Hlex. split; [intros; eexists; split; [done|auto]|].
      intros c q' (b' & [= <-] & Hle). eexists. split; [done|]. by eapply choice_le_trans.
    + split; [|done]. intros c Hc Hf. exists b. split; [done|]. eapply choice_le_trans; [by apply Hatt|].
      destruct (decide (choice_le (i_preference i) (u * a) q (p_context b) (p_quality b))); [done|]. by apply Hlex in n0.
  - intros v w Hvw Hw Hfw. apply (Hmono q v w); [lia|done].
Qed.

Lemma find_context_best fuel best qualities p :
  (forall p, best = Some p -> chosen p) -> find_context fuel i minimum ceiling a base best qualities = Ok (Some p) ->
  (forall c q, q ∈ qualities -> admissible c -> fit q c = true -> choice_le (i_preference i) c q (p_context p) (p_quality p)) /\
  (forall c q, dominated c q best -> choice_le (i_preference i) c q (p_context p) (p_quality p)).
Proof.
  revert best. induction qualities as [|q qualities IH]; intros best Hb; cbn [find_context].
  { intros [= ->]. split; [intros c q Hq; by apply not_elem_of_nil in Hq|]. by intros c q (b & [= <-] & ?). }
  destruct (try_quality _ _ _ _ _ _ _ _) as [r|] eqn:Eq; [|done]. pose proof Eq as Eq'.
  apply try_quality_ok in Eq' as (best' & -> & Hb'); [|done]. intros Hf.
  destruct (try_quality_best _ _ _ _ Hb Eq) as [Hnew Hkeep].
  apply IH in Hf as [H1 H2]; [|intros p' ->; by apply Hb']. split.
  - intros c q' Hq Hc Hfit. apply elem_of_cons in Hq as [->|Hq]; [by apply H2, Hnew|by apply H1].
  - intros c q' Hd. by apply H2, Hkeep.
Qed.

Lemma find_context_none fuel qualities :
  find_context fuel i minimum ceiling a base None qualities = Ok None ->
  forall c q, q ∈ qualities -> admissible c -> fit q c = false.
Proof.
  enough (H : forall best, (forall p, best = Some p -> chosen p) -> find_context fuel i minimum ceiling a base best qualities = Ok None ->
    best = None /\ forall c q, q ∈ qualities -> admissible c -> fit q c = false) by (intros Hf; apply (H None); [done|exact Hf]).
  induction qualities as [|q qualities IH]; intros best Hb; cbn [find_context].
  { intros [= ->]. split; [done|]. intros c q Hq. by apply not_elem_of_nil in Hq. }
  destruct (try_quality _ _ _ _ _ _ _ _) as [r|] eqn:Eq; [|done]. pose proof Eq as Eq'.
  apply try_quality_ok in Eq' as (best' & -> & Hb'); [|done]. intros Hf.
  destruct (try_quality_best _ _ _ _ Hb Eq) as [Hnew Hkeep].
  apply IH in Hf as [-> H1]; [|intros p' ->; by apply Hb']. split.
  - destruct best as [b|]; [|done]. destruct (Hkeep (p_context b) (p_quality b)) as (? & ? & _); [|done].
    exists b. split; [done|]. by apply choice_le_context.
  - intros c q' [->|Hq]%elem_of_cons Hc; [|by apply H1]. destruct (fit q c) eqn:Ef; [|done]. by destruct (Hnew c Hc Ef) as (? & ? & _).
Qed.
End choose.

(** ** The stages of the solver *)

(** The counters of the search stay below the largest 32-bit number. *)
Definition search_in_range (i : plan_input) : Prop := context_ceiling i / alignment_of i < UINT32_MAX.

Lemma alignment_pos i : 0 < alignment_of i.
Proof. unfold alignment_of. lia. Qed.

Lemma ceiling_u32 i : input_ok i -> u32 (context_ceiling i).
Proof.
  intros Hi. assert (u32 (i_requested_context i)) by auto with ese. assert (u32 (i_max_context i)) by auto with ese.
  unfold context_ceiling. repeat case_match; word.
Qed.

Lemma context_bounds_ok i minimum ceiling :
  input_ok i -> i_slots i <> 0 -> search_in_range i -> context_bounds i = Ok (minimum, ceiling) ->
  let a := alignment_of i in
  ((a | minimum) /\ 0 < minimum) /\ ((a | ceiling) /\ ceiling <= UINT32_MAX /\ ceiling / a < UINT32_MAX) /\
  (Z.max (i_min_context i) (i_slots i) <= minimum < Z.max (i_min_context i) (i_slots i) + a) /\
  minimum <= ceiling /\ ceiling <= context_ceiling i < ceiling + a.
Proof.
  intros Hi Hs Hr. unfold context_bounds, search_in_range in *. pose proof (alignment_pos i) as Ha. pose proof (ceiling_u32 i Hi) as Hc.
  assert (Hsl : u32 (i_slots i)) by auto with ese.
  set (a := alignment_of i) in *. set (m := Z.max (i_min_context i) (i_slots i)) in *. clearbody a. cbv zeta.
  destruct (negb (_ >? _)) eqn:E1; [|done]. destruct (negb (_ <? _)) eqn:E2; [|done]. intros [= <- <-]. bool_facts.
  pose proof (Z.mod_pos_bound (context_ceiling i) a Ha). pose proof (Z.div_mod (context_ceiling i) a ltac:(lia)).
  pose proof (Z.mod_pos_bound (m + a - 1) a Ha). pose proof (Z.div_mod (m + a - 1) a ltac:(lia)).
  rewrite Z.div_mul by lia. assert (1 <= m) by (unfold m; word). split_and!; try (by eexists); try done; try word.
Qed.

(** RAM accounting: exact, and inside the limit when there is one. *)
Definition ram_fixed_of (i : plan_input) (p : plan) : Z := i_dense_ram i + i_graph_metadata i + p_io_staging p + i_ple_ram i.

Record ram_ok (i : plan_input) (p : plan) : Prop := {
  rk_planned : p_ram_planned p = ram_fixed_of i p + p_expert_ram p + p_aux_ram p;
  rk_nonneg : 0 <= p_expert_ram p /\ 0 <= p_aux_ram p <= i_requested_aux_ram i /\ 0 <= p_io_staging p;
  rk_limit : p_ram_planned p <= (if i_max_ram i =? 0 then UINT64_MAX else i_max_ram i);
  rk_policy : p_policy p = resolve_policy i;
  rk_resident : p_policy p = policy_resident -> p_expert_ram p = i_expert_source i;
  rk_useful : p_policy p <> policy_resident -> p_expert_ram p = 0 \/ i_min_expert_ram i <= p_expert_ram p;
}.

Lemma solve_ram_ok i p :
  input_ok i -> solve_ram i = Ok p -> ram_ok i p /\ i_slots i <> 0 /\ i_devices i <> [] /\
  QUALITY_TURBO1 <= i_min_quality i <= QUALITY_F16 /\ p_graph_metadata p = i_graph_metadata i /\ p_ple_ram p = i_ple_ram i.
Proof.
  intros Hi. unfold solve_ram. destruct (negb _) eqn:E1; [|done]. destruct (i_backend_available i); [|done].
  destruct (negb _) eqn:E2 at 1; [|done]. set (policy := resolve_policy i). set (io := if bool_decide (policy = policy_stream) then _ else _).
  destruct (negb (i_require_staging i && _)) eqn:E3; [|done].
  assert (Hio : u64 io) by (unfold io; destruct (bool_decide _); [auto with ese|word]).
  assert (Hl : Forall u64 [i_graph_metadata i; io; i_ple_ram i]) by (rewrite !Forall_cons; split_and!; auto with ese).
  assert (Hdr : u64 (i_dense_ram i)) by auto with ese. assert (Hmx : u64 (i_max_ram i)) by auto with ese.
  assert (He : u64 (i_expert_source i)) by auto with ese. assert (Hre : u64 (i_requested_expert_ram i)) by auto with ese.
  assert (Haux : u64 (i_requested_aux_ram i)) by auto with ese.
  destruct (sum_or _ _ _) as [fixed|] eqn:Ef; [|done]. apply sum_or_ok in Ef as [Hfx Hfu]; [|done|done]. cbn [zsum foldr] in Hfx.
  destruct (negb (negb (i_max_ram i =? 0) && _)) eqn:E4; [|done]. bool_facts.
  set (left := if i_max_ram i =? 0 then _ else _).
  assert (Hleft : 0 <= left /\ fixed + left <= (if i_max_ram i =? 0 then UINT64_MAX else i_max_ram i)).
  { unfold left. destruct (Z.eqb_spec (i_max_ram i) 0); cbn [negb andb] in *; bool_facts; word. }
  clearbody left. destruct Hleft as [Hleft0 Hleft1].
  destruct (negb (wanted_ram _ _ _ >? _)) eqn:E5; [|done]. bool_facts. set (wanted := wanted_ram i policy left) in *.
  assert (Hw : 0 <= wanted) by (unfold wanted, wanted_ram; destruct (bool_decide (policy = policy_resident)); [word|unfold u64 in Hre; lia]).
  set (expert := if _ && _ && _ then 0 else wanted). intros [= <-].
  assert (Hex : 0 <= expert <= left) by (unfold expert; destruct (_ && _ && _); lia).
  split; [|split_and!; first [done|lia|by destruct (i_devices i)]].
  split; unfold ram_fixed_of; cbn; change (if bool_decide (policy = policy_stream) then i_io_staging i else 0) with io.
  - rewrite wrap64_small; [lia|]. destruct (i_max_ram i =? 0); word.
  - word.
  - rewrite wrap64_small; [|destruct (i_max_ram i =? 0); word]. lia.
  - done.
  - intros Hp. unfold expert, wanted, wanted_ram. rewrite Hp. rewrite (bool_decide_false (policy_resident <> policy_resident)) by tauto. by rewrite bool_decide_true.
  - intros Hp. unfold expert. rewrite bool_decide_true by done. cbn [andb].
    destruct (Z.eqb_spec wanted 0) as [E0|E0]; cbn [negb andb]; [lia|]. destruct (wanted <? i_min_expert_ram i) eqn:E6; bool_facts; lia.
Qed.

Lemma elem_qualities floor q : floor <= QUALITY_F16 -> q ∈ qualities_descending floor <-> floor <= q <= QUALITY_F16.
Proof. intros Hf. unfold qualities_descending. rewrite <- Permutation_rev, elem_of_seqZ. lia. Qed.

Lemma choose_context_ok fuel i minimum ceiling candidate p dropped :
  input_ok i -> let a := alignment_of i in
  (a | minimum) /\ 0 < minimum -> (a | ceiling) /\ ceiling <= UINT32_MAX /\ ceiling / a < UINT32_MAX ->
  choose_context fuel i minimum ceiling candidate = Ok (p, dropped) ->
  exists base, base = (if dropped then candidate <| p_staging_enabled := false |> else candidate) /\
    chosen i base minimum ceiling a p /\ p_quality p ∈ qualities_descending (i_min_quality i) /\
    find_context fuel i minimum ceiling a base None (qualities_descending (i_min_quality i)) = Ok (Some p).
Proof.
  intros Hi a Hmin Hceil. unfold choose_context. fold a. pose proof (alignment_pos i) as Ha. fold a in Ha.
  destruct (find_context fuel i minimum ceiling a candidate None _) as [[p1|]|] eqn:E1; [| |done].
  - intros [= <- <-]. exists candidate. split; [done|].
    pose proof E1 as Hf. apply find_context_ok in Hf as [Hc [?|Hq]]; done.
  - destruct (p_staging_enabled candidate && _); [|done].
    destruct (find_context fuel i minimum ceiling a (candidate <| p_staging_enabled := false |>) None _) as [[p2|]|] eqn:E2; [|done|done]. intros [= <- <-].
    eexists. split; [done|].
    pose proof E2 as Hf. apply find_context_ok in Hf as [Hc [?|Hq]]; done.
Qed.

(** ** The devices of a solved plan *)

Definition transient_capacity_of (i : plan_input) (policy : transient_policy) : Z :=
  match policy with
  | transient_off => 0
  | transient_shared => Z.max (i_mtp i) (i_multimodal i)
  | transient_mtp_only => i_mtp i
  | transient_multimodal_only => i_multimodal i
  end.

Lemma transient_choice_ok i headroom policy capacity :
  transient_choice i headroom = Ok (policy, capacity) ->
  capacity = transient_capacity_of i policy /\ (policy = transient_shared -> i_mtp i <> 0 /\ i_multimodal i <> 0) /\
  (policy = transient_off <-> i_mtp i = 0 /\ i_multimodal i = 0).
Proof.
  unfold transient_choice. destruct (negb (negb _ && _)); [|done].
  destruct (Z.eqb_spec (i_mtp i) 0), (Z.eqb_spec (i_multimodal i) 0); cbn [negb andb]; intros H; repeat run_step H; simplify_eq; naive_solver.
Qed.

(** The row of device [d] in a finished plan: the parts add up to the planned
    bytes, planned bytes, headroom and reserve to the capacity, and a shared
    transient device keeps room to prepare the smaller module. *)
Record device_fits (i : plan_input) (p : plan) (d : device_input) (r : device_plan) : Prop := {
  df_same : d_id r = di_id d /\ d_capacity r = di_free d /\ d_reserve r = di_reserve d /\ d_dense r = di_dense d /\ d_graph r = di_graph d;
  df_parts : 0 <= d_kv r /\ 0 <= d_expert_cache r <= i_requested_expert_vram i /\ 0 <= d_staging r /\ 0 <= d_transient r;
  df_transient : d_transient r = if d_id r =? p_transient_device p then p_transient_capacity p else 0;
  df_planned : d_planned r = d_dense r + d_graph r + d_kv r + d_expert_cache r + d_staging r + d_transient r;
  df_budget : d_reserve r + d_planned r + d_headroom r = d_capacity r /\ 0 <= d_headroom r;
  df_swap : p_transient_policy p = transient_shared -> d_id r = p_transient_device p -> Z.min (i_mtp i) (i_multimodal i) <= d_headroom r;
}.

(** What the stages before have established about the transient fields. *)
Definition transient_ok (i : plan_input) (p : plan) : Prop :=
  p_transient_device p = transient_device_of i /\ p_transient_capacity p = transient_capacity_of i (p_transient_policy p).

Lemma capacity_bounds i policy : input_ok i ->
  0 <= transient_capacity_of i policy <= peak_of i /\
  (policy = transient_shared -> transient_capacity_of i policy + Z.min (i_mtp i) (i_multimodal i) = peak_of i).
Proof.
  intros Hi. assert (u64 (i_mtp i)) by auto with ese. assert (u64 (i_multimodal i)) by auto with ese. unfold peak_of.
  destruct policy; simpl; split; try word; intros; try done; word.
Qed.

Lemma finish_device_ok i base p d r r' :
  input_ok i -> device_input_ok d -> u64 (peak_of i) -> transient_ok i p -> row_ok i base (peak_of i) d r ->
  finish_device i p r = Ok r' -> device_fits i p d r' /\ d_kv r' = d_kv r.
Proof.
  intros Hi (D1 & D2 & D3 & D4) Hpk [Ht1 Ht2] [R1 R2 R3 R4 R5]. unfold finish_device, committed in *.
  destruct (capacity_bounds i (p_transient_policy p) Hi) as [Hc1 Hc2]. rewrite <- Ht2 in Hc1, Hc2.
  pose proof (staging_u64 i base (di_id d) Hi) as Hst. assert (Hv : u64 (i_requested_expert_vram i)) by auto with ese.
  assert (Hid : d_id r = di_id d /\ d_capacity r = di_free d /\ d_reserve r = di_reserve d /\ d_dense r = di_dense d /\ d_graph r = di_graph d /\ d_staging r = staging_of i base (di_id d))
    by (rewrite R1; by split_and!).
  destruct Hid as (I1 & I2 & I3 & I4 & I5 & I6). rewrite <- Ht1 in R5. rewrite I1 in *.
  set (transient := if di_id d =? p_transient_device p then p_transient_capacity p else 0).
  set (share := if di_id d =? p_transient_device p then peak_of i else 0) in R5.
  set (shared := (di_id d =? p_transient_device p) && bool_decide (p_transient_policy p = transient_shared)).
  set (keep := if shared then Z.min (i_mtp i) (i_multimodal i) else 0).
  assert (Hmm : u64 (Z.min (i_mtp i) (i_multimodal i))).
  { assert (u64 (i_mtp i)) by auto with ese. assert (u64 (i_multimodal i)) by auto with ese. word. }
  assert (Hk : 0 <= transient /\ 0 <= keep /\ transient + keep <= share /\ u64 transient).
  { unfold transient, keep, shared, share. destruct (di_id d =? p_transient_device p); cbn [andb]; [|word]. case_bool_decide as Hs; [specialize (Hc2 Hs)|]; word. }
  assert (Hres : (if shared then sum_or (refused "shared transient preparation reserve overflows 64-bit bytes") transient [Z.min (i_mtp i) (i_multimodal i)]
                  else Ok transient) = Ok (transient + keep)).
  { unfold keep. destruct shared eqn:Es; [|by rewrite Z.add_0_r]. rewrite sum_or_fits; [simpl; f_equal; lia|apply Hk|by apply Forall_singleton|].
    simpl. unfold keep in Hk. unfold share in Hk. destruct (di_id d =? p_transient_device p); word. }
  rewrite Hres. set (expert := if bool_decide (p_policy p = policy_resident) then 0 else _).
  assert (Hsh : 0 <= share) by (unfold share; destruct (_ =? _); word).
  assert (Hexp : 0 <= expert <= i_requested_expert_vram i /\ expert + transient + keep <= d_headroom r).
  { unfold expert. destruct (bool_decide (p_policy p = policy_resident)); unfold u64 in Hv; lia. }
  intros [= <-]. rewrite (wrap64_small (transient + expert)) by word. rewrite (wrap64_small (d_planned r + _)) by word.
  rewrite I2, I3. rewrite wrap64_small by word. clearbody expert. split; [|done].
  split; cbn; rewrite ?I1, ?I2, ?I3, ?I4, ?I5, ?I6; fold transient; try done; try lia; [word|].
  intros Hs Heq. assert (keep = Z.min (i_mtp i) (i_multimodal i)); [|lia]. unfold keep, shared. by rewrite Heq, Z.eqb_refl, bool_decide_true.
Qed.

Definition ram_fields (p : plan) : Z * Z * Z * Z * memory_policy :=
  (p_ram_planned p, p_expert_ram p, p_aux_ram p, p_io_staging p, p_policy p).

(** What the transient stage leaves alone, and what the host stage does. *)
Definition choice_fields (p : plan) : list device_plan * Z * Z * bool := (p_devices p, p_context p, p_quality p, p_staging_enabled p).
Definition transient_fields (p : plan) : Z * Z * bool * Z * Z * transient_policy :=
  (p_batch p, p_ubatch p, p_draft_resident p, p_transient_device p, p_transient_capacity p, p_transient_policy p).

Lemma solve_transient_ok i base p p' :
  Forall2 (row_ok i base (peak_of i)) (i_devices i) (p_devices p) -> solve_transient i p = Ok p' ->
  transient_ok i p' /\ choice_fields p' = choice_fields p /\ ram_fields p' = ram_fields p /\
  1 <= p_ubatch p' <= p_batch p' /\ (0 < p_context p -> p_batch p' <= p_context p) /\
  (i_require_draft i = true -> p_draft_resident p' = true).
Proof.
  intros HF. unfold solve_transient. set (device := if i_transient_device i <? 0 then _ else _).
  assert (Hd : device = transient_device_of i).
  { unfold device, transient_device_of. destruct HF as [|d r ds rs [Hr _ _ _ _] _]; [done|]. by rewrite Hr. }
  destruct (transient_choice _ _) as [[policy capacity]|] eqn:Et; [|done]. apply transient_choice_ok in Et as (Hc & _ & _).
  destruct (negb (i_require_draft i && _)) eqn:Er; [|done]. intros [= <-]. split_and!; cbn; try done; try lia.
  intros Hreq. rewrite Hreq in Er. cbn in Er. by destruct (_ || _).
Qed.

Lemma finish_devices_ok i base p devices rows rows' :
  input_ok i -> Forall device_input_ok devices -> u64 (peak_of i) -> transient_ok i p ->
  Forall2 (row_ok i base (peak_of i)) devices rows -> finish_devices i p rows = Ok rows' ->
  Forall2 (device_fits i p) devices rows' /\ d_kv <$> rows' = d_kv <$> rows.
Proof.
  intros Hi Hd Hp Ht HF. revert rows'. induction HF as [|d r devices rows Hr HF IH]; intros rows'; cbn [finish_devices]; [intros [= <-]; by split|].
  apply Forall_cons in Hd as [Hd Hds]. destruct (finish_device i p r) as [r'|] eqn:E1; [|done].
  destruct (finish_devices i p rows) as [rest|] eqn:E2; [|done]. intros [= <-].
  destruct (finish_device_ok i base p d r r' Hi Hd Hp Ht Hr E1) as [H1 H2]. destruct (IH Hds rest eq_refl) as [H3 H4].
  split; [by constructor|]. rewrite !fmap_cons. by rewrite H2, H4.
Qed.

(** Device rows depend on the plan through its transient fields only. *)
Lemma device_fits_ext i p p' devices rows :
  p_transient_device p = p_transient_device p' -> p_transient_capacity p = p_transient_capacity p' ->
  p_transient_policy p = p_transient_policy p' ->
  Forall2 (device_fits i p) devices rows -> Forall2 (device_fits i p') devices rows.
Proof.
  intros E1 E2 E3 HF. eapply Forall2_impl; [exact HF|]. intros d r [H1 H2 H3 H4 H5 H6].
  split; try done; [by rewrite <- E1, <- E2|by rewrite <- E1, <- E3].
Qed.

(** The first host row shares the RAM limit with the RAM plan. *)
Definition host_ok (i : plan_input) (p : plan) : Prop :=
  i_max_ram i <> 0 -> forall host, find_host (p_devices p) = Some host ->
  p_ram_planned p + (d_planned host - Z.min (d_planned host) (i_dense_ram i)) <= i_max_ram i.

Lemma reconcile_host_ok i p p' :
  input_ok i -> ram_ok i p -> (forall h, find_host (p_devices p) = Some h -> u64 (d_planned h)) -> reconcile_host i p = Ok p' ->
  ram_ok i p' /\ host_ok i p' /\ choice_fields p' = choice_fields p /\ transient_fields p' = transient_fields p.
Proof.
  intros Hi [K1 K2 K3 K4 K5 K6] Hh. unfold reconcile_host, host_ok.
  destruct p as [policy be qu cx sl ba ub rc planned expert ple aux io td tp mtp mm tc se sw dr re devices kn kq gm cm gw].
  unfold ram_fixed_of in *. cbn in *. destruct (find_host devices) as [host|] eqn:Eh.
  2:{ intros [= <-]. split; [by split|]. split; [cbn; by rewrite Eh|done]. }
  specialize (Hh host eq_refl). destruct (Z.eqb_spec (i_max_ram i) 0) as [E0|E0].
  { intros [= <-]. split; [split; try done; by rewrite E0|]. done. }
  set (nw := d_planned host - _). assert (Hd : u64 (i_dense_ram i)) by auto with ese. assert (Hnw : u64 nw) by (unfold nw; word).
  assert (Hmx : u64 (i_max_ram i)) by auto with ese. assert (Hpl : 0 <= i_dense_ram i + i_graph_metadata i + io + i_ple_ram i) by
    (assert (u64 (i_graph_metadata i)) by auto with ese; assert (u64 (i_ple_ram i)) by auto with ese; word).
  destruct (sum_or _ _ _) as [combined|] eqn:Ec; [|done]. apply sum_or_ok in Ec as [Hcb _]; [|word|by apply Forall_singleton].
  cbn [zsum foldr] in Hcb. rewrite Z.add_0_r in Hcb. set (excess := if combined >? i_max_ram i then _ else _).
  assert (Hex : 0 <= excess /\ combined - excess <= i_max_ram i) by (unfold excess; destruct (_ >? _) eqn:E; bool_facts; lia).
  clearbody excess. set (auxcut := excess `min` aux). assert (Hac : 0 <= auxcut <= aux /\ auxcut <= excess) by lia. clearbody auxcut.
  rewrite (wrap64_small (planned - auxcut)) by word.
  destruct (Z.eqb_spec (excess - auxcut) 0) as [Ez|Ez]; cbn [negb andb]; [rewrite Ez; simpl|].
  { intros [= <-]. split_and!; [|intros _ h; cbn; rewrite Eh; intros [= <-]; lia|done|done].
    split; cbn; try done; rewrite ?(proj2 (Z.eqb_neq _ _) E0) in *; unfold ram_fixed_of; cbn; lia. }
  case_bool_decide as Epol; [|by rewrite (proj2 (Z.eqb_neq _ _) Ez)].
  set (cut := Z.min (excess - auxcut) expert). rewrite (wrap64_small (planned - auxcut - cut)) by word.
  destruct (Z.eqb_spec (excess - auxcut - cut) 0) as [Ef|Ef]; [|done]. intros [= <-].
  assert (Hcut : 0 <= cut <= expert) by lia. clearbody cut. cbn.
  destruct (negb (expert - cut =? 0) && (expert - cut <? i_min_expert_ram i)) eqn:El.
  - rewrite (wrap64_small (planned - auxcut - cut - (expert - cut))) by word.
    split_and!; [|intros _ h; cbn; rewrite Eh; intros [= <-]; lia|done|done].
    split; cbn; try done; rewrite ?(proj2 (Z.eqb_neq _ _) E0) in *; unfold ram_fixed_of; cbn; try lia.
  - split_and!; [|intros _ h; cbn; rewrite Eh; intros [= <-]; lia|done|done].
    split; cbn; try done; rewrite ?(proj2 (Z.eqb_neq _ _) E0) in *; unfold ram_fixed_of; cbn; try lia.
Qed.

(** ** Everything a successful run establishes *)

Record solved (i : plan_input) (fuel : nat) (p : plan) (minimum ceiling : Z) (base chosen_plan : plan) : Prop := {
  so_minimum : (alignment_of i | minimum) /\ 0 < minimum;
  so_ceiling : (alignment_of i | ceiling) /\ ceiling <= UINT32_MAX /\ ceiling / alignment_of i < UINT32_MAX;
  so_range : Z.max (i_min_context i) (i_slots i) <= minimum < Z.max (i_min_context i) (i_slots i) + alignment_of i /\ ceiling <= context_ceiling i < ceiling + alignment_of i;
  so_floor : QUALITY_TURBO1 <= i_min_quality i <= QUALITY_F16;
  so_chosen : chosen i base minimum ceiling (alignment_of i) chosen_plan;
  so_found : find_context fuel i minimum ceiling (alignment_of i) base None (qualities_descending (i_min_quality i)) = Ok (Some chosen_plan);
  so_context : p_context p = p_context chosen_plan /\ p_quality p = p_quality chosen_plan /\ p_staging_enabled p = p_staging_enabled base;
  so_quality : p_quality p ∈ qualities_descending (i_min_quality i);
  so_batch : 1 <= p_ubatch p <= p_batch p /\ p_batch p <= p_context p;
  so_draft : i_require_draft i = true -> p_draft_resident p = true;
  so_devices : Forall2 (device_fits i p) (i_devices i) (p_devices p);
  so_kv : zsum (d_kv <$> p_devices p) = kv_total_of i (p_context p) (p_quality p);
  so_ram : ram_ok i p;
  so_host : host_ok i p;
}.

Lemma fits_planned_u64 i p devices rows r :
  Forall device_input_ok devices -> Forall2 (device_fits i p) devices rows -> r ∈ rows -> u64 (d_planned r).
Proof.
  intros Hd HF. induction HF as [|d r' devices rows Hr HF IH]; intros Hin; [by apply not_elem_of_nil in Hin|].
  apply Forall_cons in Hd as [(D1 & D2 & D3 & D4) Hd]. apply elem_of_cons in Hin as [->|Hin]; [|auto].
  destruct Hr as [(E1 & E2 & E3 & E4 & E5) Hpt _ Hpl Hb _]. word.
Qed.

Lemma ram_ok_ext i p p' : ram_fields p = ram_fields p' -> ram_ok i p -> ram_ok i p'.
Proof.
  unfold ram_fields. intros [= E1 E2 E3 E4 E5] [K1 K2 K3 K4 K5 K6].
  unfold ram_fixed_of in *. rewrite E1, E2, E3, E4, E5 in *. by split.
Qed.

Lemma find_host_elem devices h : find_host devices = Some h -> h ∈ devices.
Proof. unfold find_host. intros ([n x] & (Hx & _)%list_find_Some & ->)%fmap_Some. simpl. by eapply list_elem_of_lookup_2. Qed.

Lemma plan_solve_solved i fuel p :
  input_ok i -> search_in_range i -> plan_solve fuel i = Ok p ->
  exists minimum ceiling base chosen_plan, solved i fuel p minimum ceiling base chosen_plan.
Proof.
  intros Hi Hr. unfold plan_solve. destruct (solve_ram i) as [cand|] eqn:E1; [|done].
  apply solve_ram_ok in E1 as (Hram & Hslots & Hdev & Hfloor & Hgm & Hple); [|done].
  destruct (context_bounds i) as [[minimum ceiling]|] eqn:E2; [|done].
  apply context_bounds_ok in E2 as (Hmin & Hceil & Hm2 & Hle & Hc2); [|done..].
  destruct (choose_context fuel i minimum ceiling cand) as [[ch dropped]|] eqn:E3; [|done].
  apply choose_context_ok in E3 as (base & Hbase & Hch & Hq & Hfound); [|done..].
  destruct Hch as [[Hadm Hdiv] (usable & rows & Hal & Hchp)] eqn:Ech. clear Ech.
  destruct (allocation_rows _ _ _ _ _ _ Hi Hal) as [Hrows Hkv]. pose proof (al_peak _ _ _ _ _ _ Hal) as Hpk.
  assert (Hrows' : Forall2 (row_ok i base (peak_of i)) (i_devices i) (p_devices ch)) by (rewrite Hchp; exact Hrows).
  destruct (solve_transient i ch) as [tr|] eqn:E4; [|done].
  destruct (solve_transient_ok i base ch tr Hrows' E4) as (Htr & Htf & Htr2 & Hub & Hba & Hdraft).
  destruct (finish_devices i tr (p_devices tr)) as [devices|] eqn:E5; [|done].
  injection Htf as Hsame T2 T3 T4. rewrite Hsame in E5.
  destruct (finish_devices_ok i base tr _ _ _ Hi (io_devices i Hi) Hpk Htr Hrows' E5) as [Hfit Hkvs].
  destruct (reconcile_host i _) as [fin|] eqn:E6; [|done]. apply reconcile_host_ok in E6 as (Hram' & Hhost & Hf1 & Hf2); [|done| |].
  - intros [= <-]. exists minimum, ceiling, base, ch.
    assert (Hst : p_staging_enabled ch = p_staging_enabled base) by (rewrite Hchp; reflexivity).
    injection Hf1 as F7 F1 F2 F3. injection Hf2 as F5 F4 F6 F8 F9 F10. rewrite T2 in F1. rewrite T3 in F2. rewrite T4, Hst in F3.
    split; try done; try lia.
    + change (p_quality fin ∈ qualities_descending (i_min_quality i)). by rewrite F2.
    + change (1 <= p_ubatch fin <= p_batch fin /\ p_batch fin <= p_context fin). rewrite F4, F5, F1. split; [lia|]. apply Hba. lia.
    + change (i_require_draft i = true -> p_draft_resident fin = true). by rewrite F6.
    + change (Forall2 (device_fits i (fin <| p_reason := plan_reason fin dropped |>)) (i_devices i) (p_devices fin)). rewrite F7.
      eapply device_fits_ext; [..|exact Hfit]; symmetry; assumption.
    + change (zsum (d_kv <$> p_devices fin) = kv_total_of i (p_context fin) (p_quality fin)). rewrite F7, F1, F2, Hkvs, Hchp. exact Hkv.
    + by eapply ram_ok_ext; [|exact Hram'].
  - eapply ram_ok_ext; [|exact Hram]. transitivity (ram_fields tr); [|reflexivity]. rewrite Htr2, Hchp, Hbase. by destruct dropped.
  - cbn. intros h Hh%find_host_elem. eapply fits_planned_u64; [apply Hi|exact Hfit|done].
Qed.

(** ** Every refusal carries a message *)

Definition says {A} (r : result failure A) : Prop := r <> Err no_return.

Lemma sum_or_says m v l : says (sum_or (refused m) v l).
Proof. unfold says, sum_or. by destruct (sum_checked v l). Qed.

Ltac by_says := unfold says in *; congruence.

Ltac says_tac :=
  repeat match goal with
  | |- says (if ?c then _ else _) => destruct c
  | |- says (match sum_or ?e ?v ?l with _ => _ end) =>
      let H := fresh in pose proof (sum_or_says _ v l : says (sum_or e v l)) as H; destruct (sum_or e v l); [|by_says]
  end; try (unfold says; discriminate).

Lemma solve_ram_says i : says (solve_ram i).
Proof. unfold solve_ram. cbv zeta. says_tac. Qed.

Lemma context_bounds_says i : says (context_bounds i).
Proof. unfold context_bounds. cbv zeta. says_tac. Qed.

Lemma transient_choice_says i h : says (transient_choice i h).
Proof. unfold transient_choice. cbv zeta. says_tac. Qed.

Lemma solve_transient_says i p : says (solve_transient i p).
Proof.
  unfold solve_transient. cbv zeta. match goal with |- says (match transient_choice i ?h with _ => _ end) =>
    pose proof (transient_choice_says i h); destruct (transient_choice i h) as [[? ?]|] end; [|by_says]. says_tac.
Qed.

Lemma finish_devices_says i p l : says (finish_devices i p l).
Proof.
  induction l as [|d l IH]; cbn [finish_devices]; [says_tac|].
  assert (H : says (finish_device i p d)).
  { unfold finish_device. cbv zeta. destruct (_ && _); says_tac. }
  destruct (finish_device i p d); [|by_says]. destruct (finish_devices i p l); [|by_says]. says_tac.
Qed.

Lemma reconcile_host_says i p : says (reconcile_host i p).
Proof.
  unfold reconcile_host. destruct (find_host _); [|says_tac]. destruct (_ =? 0); [says_tac|]. cbv zeta.
  match goal with |- says (match sum_or ?e ?v ?l with _ => _ end) =>
    pose proof (sum_or_says _ v l : says (sum_or e v l)); destruct (sum_or e v l) as [combined|]; [|by_says] end.
  destruct (if _ && _ then _ else _) as [fin excess]. says_tac.
Qed.

Lemma choose_context_says fuel i minimum ceiling candidate :
  input_ok i -> let a := alignment_of i in
  (a | minimum) /\ 0 < minimum -> (a | ceiling) /\ ceiling <= UINT32_MAX /\ ceiling / a < UINT32_MAX -> (33 <= fuel)%nat ->
  says (choose_context fuel i minimum ceiling candidate).
Proof.
  intros Hi a Hmin Hceil Hf. unfold choose_context. fold a.
  assert (H : forall base qs, says (find_context fuel i minimum ceiling a base None qs))
    by (intros base qs; apply find_context_returns; done || apply alignment_pos).
  pose proof (H candidate (qualities_descending (i_min_quality i))) as H1. destruct (find_context _ _ _ _ _ _ _ _) as [[p|]|]; [says_tac| |by_says].
  destruct (_ && _); [|says_tac].
  pose proof (H (candidate <| p_staging_enabled := false |>) (qualities_descending (i_min_quality i))) as H2.
  destruct (find_context _ _ _ _ _ _ _ _) as [[p|]|]; [says_tac|says_tac|by_says].
Qed.

(** ** The properties of the planner *)

(** C12: A solved plan stays inside every device.  Row by row its parts (weights,
    graph, KV, expert cache, staging, transient module) add up without overflow to
    the planned bytes, and planned bytes, headroom and the untouched reserve add up
    to the capacity; the KV shares add up to the KV cache of the chosen context
    and quality, and a shared transient device still has room to prepare the
    smaller module while the larger one is live. *)
Theorem solved_plan_fits_devices fuel i p :
  input_ok i -> search_in_range i -> plan_solve fuel i = Ok p ->
  Forall2 (device_fits i p) (i_devices i) (p_devices p) /\
  zsum (d_kv <$> p_devices p) = kv_total_of i (p_context p) (p_quality p).
Proof. intros Hi Hr Hp. destruct (plan_solve_solved i fuel p Hi Hr Hp) as (? & ? & ? & ? & H). split; apply H. Qed.

(** C14: A solved plan stays inside --max-ram.  The planned RAM is exactly the sum
    of weights, metadata, staging, PLE, expert and auxiliary bytes and within the
    limit; together with what the host device row plans beyond the weights it is
    still within the limit.  The policy is resolved, a resident plan holds all the
    experts, and another plan's expert cache is off or at least the useful
    minimum. *)
Theorem solved_plan_fits_ram fuel i p :
  input_ok i -> search_in_range i -> plan_solve fuel i = Ok p -> ram_ok i p /\ host_ok i p.
Proof. intros Hi Hr Hp. destruct (plan_solve_solved i fuel p Hi Hr Hp) as (? & ? & ? & ? & H). split; apply H. Qed.

(** The KV cache never shrinks when the context grows, and does not vanish. *)
Definition kv_monotone (i : plan_input) : Prop :=
  forall q c c', 0 < c <= c' -> 0 < kv_total_of i c' q -> 0 < kv_total_of i c q <= kv_total_of i c' q.

Lemma kv_monotone_per_token i : i_kv_query i = None -> Forall u64 (i_kv_per_token i) -> kv_monotone i.
Proof.
  intros Hq Hu q c c' Hc. unfold kv_total_of, per_token. rewrite Hq.
  assert (Hp : u64 (default 0 (i_kv_per_token i !! Z.to_nat q)))
    by (destruct (i_kv_per_token i !! Z.to_nat q) eqn:E; simpl; [by eapply Forall_lookup in E|word]).
  unfold u64 in Hp. rewrite !mul_saturated_min by lia. unfold UINT64_MAX. nia.
Qed.

Lemma fit_monotone i base a q u v :
  input_ok i -> kv_monotone i -> (length (i_devices i) <= 2)%nat -> 0 < a -> 0 < u <= v ->
  fit i base q (v * a) = true -> fit i base q (u * a) = true.
Proof.
  intros Hi Hm Hlen Ha Huv. unfold fit. rewrite !bool_decide_eq_true. intros [p (usable & rows & [H1 H2 H3 H4 H5 H6 H7] & _)%allocate_context_spec]; [|done].
  specialize (Hm q (u * a) (v * a) ltac:(nia) ltac:(lia)). pose proof (usable_u64 _ _ _ _ _ Hi (io_devices i Hi) H4 H5) as Hus.
  destruct (share_out_small i base (kv_total_of i (u * a) q) (i_devices i) usable) as [rows' Hrows']; try done; try lia;
    [apply Hi|by eapply Forall2_length|].
  exists (with_rows i base q rows'). apply allocate_context_spec; [done|]. exists usable, rows'. split; [|done]. split; try done; lia.
Qed.

Lemma allocate_staging_ext i p p' c q :
  input_ok i -> p_staging_enabled p = p_staging_enabled p' -> is_Some (allocate_context i p c q) -> is_Some (allocate_context i p' c q).
Proof.
  intros Hi He [x (usable & rows & Hal & _)%allocate_context_spec]; [|done]. exists (with_rows i p' q rows).
  apply allocate_context_spec; [done|]. exists usable, rows. split; [by eapply allocation_ext|done].
Qed.

(** C13: The solver picks the best context and quality.  The pair is admissible
    (aligned, at least the minimum and one token per slot, at most the requested
    ceiling, quality at or above the floor), and every admissible pair whose
    allocation succeeds is no better: under the latency preference quality counts
    before context, under the other two context before quality.  (Up to two
    devices, KV size monotone in the context.) *)
Theorem solved_context_is_best fuel i p :
  input_ok i -> search_in_range i -> (length (i_devices i) <= 2)%nat -> kv_monotone i -> plan_solve fuel i = Ok p ->
  let admitted c q := (Z.max (i_min_context i) (i_slots i) <= c <= context_ceiling i /\ (alignment_of i | c)) /\
    i_min_quality i <= q <= QUALITY_F16 in
  admitted (p_context p) (p_quality p) /\
  forall c q, admitted c q -> is_Some (allocate_context i p c q) -> choice_le (i_preference i) c q (p_context p) (p_quality p).
Proof.
  intros Hi Hr Hlen Hm Hp admitted. destruct (plan_solve_solved i fuel p Hi Hr Hp) as (minimum & ceiling & base & ch & [S1 S2 S3 S4 S5 S6 S7 S8 S9 S10 S11 S12 S13 S14]).
  destruct S7 as (E1 & E2 & E3). pose proof (alignment_pos i) as Ha. destruct S3 as [S3 S3']. split.
  - rewrite E1. destruct S5 as [[Hr1 Hr2] _]. split; [split; [lia|done]|]. by apply elem_qualities in S8; [|lia].
  - intros c q [[Hc Hd] Hq] Hal. rewrite E1, E2.
    assert (Hmono : forall q' u v, 0 < u <= v -> fit i base q' (v * alignment_of i) = true -> fit i base q' (u * alignment_of i) = true)
      by (intros q' u v Huv; by apply fit_monotone).
    apply (find_context_best i base minimum ceiling (alignment_of i) Hi Ha S1 S2 Hmono) in S6 as [Hb _]; [|done].
    apply Hb; [apply elem_qualities; lia| |].
    + destruct S1 as [[m ->] S1], S2 as [[n ->] S2]. destruct Hd as [u ->]. split; [|by exists u].
      set (a := alignment_of i) in *. clearbody a. assert (m <= u) by (assert (m * a < (u + 1) * a) by lia; nia).
      assert (u <= n) by (assert (u * a < (n + 1) * a) by lia; nia). split; nia.
    + unfold fit. rewrite bool_decide_eq_true. eapply allocate_staging_ext; [done|exact E3|done].
Qed.

(** C15: The solver returns.  Thirty-three rounds of the binary search are enough
    for every input whose ceiling, in alignment units, is below the largest 32-bit
    number: it ends with a plan or with an error message. *)
Theorem solver_returns fuel i :
  input_ok i -> search_in_range i -> (33 <= fuel)%nat ->
  exists r, plan_solve fuel i = r /\ match r with Ok _ => True | Err e => exists message, e = refused message end.
Proof.
  intros Hi Hr Hf. eexists. split; [reflexivity|].
  enough (H : plan_solve fuel i <> Err no_return) by (destruct (plan_solve fuel i) as [|[m|]]; [done|by exists m|done]).
  unfold plan_solve. pose proof (solve_ram_says i) as N1. destruct (solve_ram i) as [cand|e] eqn:E1; [|by_says].
  apply solve_ram_ok in E1 as (_ & Hslots & _); [|done].
  pose proof (context_bounds_says i) as N2. destruct (context_bounds i) as [[minimum ceiling]|e] eqn:E2; [|by_says].
  apply context_bounds_ok in E2 as (Hmin & Hceil & _); [|done..].
  pose proof (choose_context_says fuel i minimum ceiling cand Hi Hmin Hceil Hf) as N3.
  destruct (choose_context _ _ _ _ _) as [[ch dropped]|e]; [|by_says].
  pose proof (solve_transient_says i ch) as N4. destruct (solve_transient i ch) as [tr|e]; [|by_says].
  pose proof (finish_devices_says i tr (p_devices tr)) as N5. destruct (finish_devices i tr (p_devices tr)) as [devices|e]; [|by_says].
  pose proof (reconcile_host_says i (tr <| p_devices := devices |>)) as N6. destruct (reconcile_host _ _) as [fin|e]; [done|by_says].
Qed.

(** *** Witnesses: a GPU and a host device *)

Lemma mul_saturated_u64 a b : u64 (mul_saturated a b).
Proof. unfold mul_saturated. case_match; [word|auto with ese]. Qed.

Definition GiB : Z := 2 ^ 30.

Definition demo_input (ceiling : Z) (query : option (Z -> Z -> Z)) (devices : list device_input) : plan_input :=
  mk_plan_input policy_auto pref_balanced backend_pread true true (64 * GiB) (2 * GiB) (100 * GiB) (20 * GiB) GiB 0 (4 * GiB)
    (8 * GiB) GiB false (GiB / 4) GiB (GiB / 2) (-1) true ceiling 0 512 256 2 2048 512 QUALITY_TURBO4
    [1000; 2000; 3000; 4000; 8000; 16000; 32000] devices query 1000.

Definition demo_devices : list device_input :=
  [mk_device_input 0 (24 * GiB) GiB (4 * GiB) GiB; mk_device_input (-1) (64 * GiB) (4 * GiB) (2 * GiB) 0].

Lemma demo_input_ok ceiling devices :
  u32 ceiling -> Forall device_input_ok devices -> input_ok (demo_input ceiling None devices).
Proof.
  intros Hc Hd. split; [done|..|intros c q; apply mul_saturated_u64].
  - rewrite !Forall_cons. split_and!; (split; vm_compute; discriminate) || constructor.
  - rewrite !Forall_cons. split_and!; done || (split; vm_compute; discriminate) || constructor.
Qed.

Lemma demo_ok : input_ok (demo_input 131072 None demo_devices) /\ search_in_range (demo_input 131072 None demo_devices).
Proof.
  split; [apply demo_input_ok; [split; vm_compute; discriminate|]|vm_compute; reflexivity].
  repeat constructor; vm_compute; discriminate.
Qed.

Lemma solved_plan_fits_devices_witness :
  exists p, plan_solve 33 (demo_input 131072 None demo_devices) = Ok p /\ p_context p = 131072 /\ p_quality p = QUALITY_F16 /\
    Forall2 (device_fits (demo_input 131072 None demo_devices) p) demo_devices (p_devices p).
Proof.
  destruct demo_ok as [H1 H2].
  destruct (plan_solve 33 (demo_input 131072 None demo_devices)) as [p|e] eqn:E; [|vm_compute in E; discriminate E].
  exists p. split; [done|]. assert (p_context p = 131072 /\ p_quality p = QUALITY_F16) as [? ?]
    by (vm_compute in E; injection E as <-; by split).
  split; [done|]. split; [done|]. by apply (solved_plan_fits_devices 33 (demo_input 131072 None demo_devices) p).
Defined.

Lemma solved_plan_fits_ram_witness :
  exists p, plan_solve 33 (demo_input 131072 None demo_devices) = Ok p /\ p_ram_planned p <= 64 * GiB.
Proof.
  destruct demo_ok as [H1 H2].
  destruct (plan_solve 33 (demo_input 131072 None demo_devices)) as [p|e] eqn:E; [|vm_compute in E; discriminate E].
  exists p. split; [done|]. destruct (solved_plan_fits_ram 33 (demo_input 131072 None demo_devices) p H1 H2 E) as [[_ _ H _ _ _] _]. exact H.
Defined.

Lemma solved_context_is_best_witness :
  exists p, plan_solve 33 (demo_input 131072 None demo_devices) = Ok p /\
    forall q, QUALITY_TURBO4 <= q <= QUALITY_F16 ->
      is_Some (allocate_context (demo_input 131072 None demo_devices) p 131072 q) -> p_context p = 131072 -> q <= p_quality p.
Proof.
  destruct demo_ok as [H1 H2].
  destruct (plan_solve 33 (demo_input 131072 None demo_devices)) as [p|e] eqn:E; [|vm_compute in E; discriminate E].
  exists p. split; [done|]. intros q Hq Hal Hc.
  destruct (solved_context_is_best 33 (demo_input 131072 None demo_devices) p H1 H2) as [_ Hbest]; [simpl; lia| |done|].
  - apply kv_monotone_per_token; [done|]. repeat constructor; vm_compute; discriminate.
  - specialize (Hbest 131072 q). cbv zeta in Hbest. destruct Hbest as [Hlt|[_ Hle]]; [|done|rewrite Hc in Hlt; lia|exact Hle].
    split; [split; [vm_compute; split; discriminate|by exists 512]|exact Hq].
Defined.

Lemma solver_returns_witness : exists r, plan_solve 33 (demo_input 131072 None demo_devices) = r /\ is_ok r = true.
Proof.
  destruct demo_ok as [H1 H2].
  destruct (solver_returns 33 (demo_input 131072 None demo_devices) H1 H2 ltac:(lia)) as (r & Hr & _).
  exists r. split; [done|]. rewrite <- Hr. vm_compute. reflexivity.
Defined.

(** C16: A ceiling of UINT32_MAX tokens hangs the planner.  With one byte of
    constant KV state (a recurrent model) every context fits, the lower counter
    of the search wraps from UINT32_MAX to zero, and no number of rounds ends it;
    one token less and the same input is solved. *)
Theorem search_wraps_at_uint32_max :
  let unlimited ceiling := (demo_input ceiling (Some (fun _ _ => 1)) demo_devices) in
  let align1 i := mk_plan_input (i_requested_policy i) (i_preference i) (i_requested_backend i) true true (i_max_ram i)
    (i_dense_ram i) (i_expert_source i) (i_requested_expert_ram i) (i_min_expert_ram i) 0 0 0 0 false 0 0 0 (-1) false
    (i_requested_context i) 0 512 1 1 1 1 QUALITY_F16 [] (i_devices i) (i_kv_query i) 0 in
  (forall fuel, plan_solve fuel (align1 (unlimited UINT32_MAX)) = Err no_return) /\
  is_ok (plan_solve 33 (align1 (unlimited (UINT32_MAX - 1)))) = true.
Proof.
  intros unlimited align1. split; [|vm_compute; reflexivity]. intros fuel.
  unfold plan_solve. destruct (solve_ram _) as [cand|e] eqn:E1; [|vm_compute in E1; discriminate E1].
  replace (context_bounds _) with (Ok (E := failure) (512, UINT32_MAX)) by (vm_compute; reflexivity).
  unfold choose_context. replace (qualities_descending _) with [QUALITY_F16] by (vm_compute; reflexivity). cbn [find_context].
  unfold try_quality. replace (negb _ && _) with false by (vm_compute; reflexivity).
  change (alignment_of _) with 1. replace (512 / 1) with 512 by reflexivity. replace (UINT32_MAX / 1) with UINT32_MAX by reflexivity.
  rewrite search_diverges; [done| |split; vm_compute; discriminate].
  intros c. apply bool_decide_eq_true. vm_compute in E1. injection E1 as <-. eexists. vm_compute. reflexivity.
Qed.

(** Three devices with one, one and no free byte, and a KV cache of one byte per token. *)
Definition rounding_input : plan_input :=
  let row id free := mk_device_input id free 0 0 0 in
  mk_plan_input policy_resident pref_balanced backend_pread true false 0 0 0 0 0 0 0 0 0 false 0 0 0 (-1) false 2 0 1 1 1 1 1
    QUALITY_F16 [0; 0; 0; 0; 0; 0; 1] [row 0 1; row 1 1; row 2 0] None 0.

(** Rounding can refuse a context that fits.  With three devices the last one
    takes what the rounded-down shares of the others leave over, even when it has
    nothing free: a one-byte KV cache is refused while two bytes are placed.
    Allocation is then not monotone in the context, and the planner finds no
    context where a larger one would have been accepted. *)
Theorem rounding_refuses_a_fitting_context :
  allocate_context rounding_input empty_plan 1 QUALITY_F16 = None /\
  is_Some (allocate_context rounding_input empty_plan 2 QUALITY_F16) /\
  plan_solve 33 rounding_input =
    Err (refused "no context fits without crossing the declared KV quality floor and device reserves").
Proof. split_and!; [vm_compute; reflexivity|eexists; vm_compute; reflexivity|vm_compute; reflexivity]. Qed.

(** ** The host reservation at startup *)

Definition host_workspace (p : plan) : Z := zsum ((fun d => d_graph d + d_expert_cache d + d_staging d + d_transient d) <$> host_rows p).
Definition host_graph (p : plan) : Z := zsum (d_graph <$> host_rows p).
Definition host_kv (p : plan) : Z := zsum (d_kv <$> host_rows p).

(** RAM that the plan reserves for something other than weights. *)
Definition reserved_of (p : plan) : Z :=
  p_expert_ram p + p_aux_ram p + p_io_staging p + p_ple_ram p + p_graph_metadata p + p_context_metadata p + p_graph_workspace p.

Definition row_u64 (d : device_plan) : Prop := Forall u64 [d_graph d; d_expert_cache d; d_staging d; d_transient d; d_kv d].

Record plan_u64 (p : plan) : Prop := {
  pu_ram : Forall u64 [p_expert_ram p; p_aux_ram p; p_io_staging p; p_ple_ram p; p_graph_metadata p; p_context_metadata p; p_graph_workspace p;
    p_ram_planned p; p_ram_capacity p];
  pu_rows : Forall row_u64 (p_devices p);
}.

Definition requirements_u64 (r : host_requirements) : Prop := Forall u64 [hr_weights r; hr_fixed r; hr_ple_cache r; hr_graph r; hr_kv r].

Lemma host_rows_sums rows w g k r :
  Forall row_u64 rows -> u64 w -> u64 g -> u64 k ->
  foldM (fun '(workspace, graph, kv) d =>
      let? workspace := sum_or "host startup workspace overflows" workspace
        [d_graph d; d_expert_cache d; d_staging d; d_transient d] in
      let? graph := sum_or "host graph forecast overflows" graph [d_graph d] in
      let? kv := sum_or "host startup KV overflows" kv [d_kv d] in
      Ok (workspace, graph, kv)) rows (w, g, k) = Ok r ->
  r = (w + zsum ((fun d => d_graph d + d_expert_cache d + d_staging d + d_transient d) <$> rows), g + zsum (d_graph <$> rows), k + zsum (d_kv <$> rows)) /\
  u64 r.1.1 /\ u64 r.1.2 /\ u64 r.2.
Proof.
  intros HF. revert w g k. induction HF as [|d rows Hd HF IH]; intros w g k Hw Hg Hk; cbn [foldM].
  - intros [= <-]. simpl. split_and!; try done. f_equal; [f_equal|]; lia.
  - unfold row_u64 in Hd. rewrite !Forall_cons in Hd. destruct Hd as (D1 & D2 & D3 & D4 & D5 & _).
    destruct (sum_or _ w _) as [w'|] eqn:Ew; [|done]. apply sum_or_ok in Ew as [-> Hw']; [|done|by rewrite !Forall_cons].
    destruct (sum_or _ g _) as [g'|] eqn:Eg; [|done]. apply sum_or_ok in Eg as [-> Hg']; [|done|by apply Forall_singleton].
    destruct (sum_or _ k _) as [k'|] eqn:Ek; [|done]. apply sum_or_ok in Ek as [-> Hk']; [|done|by apply Forall_singleton].
    intros H. destruct (IH _ _ _ Hw' Hg' Hk' H) as [-> Hr]. split; [|exact Hr]. rewrite !fmap_cons. cbn [zsum foldr].
    f_equal; [f_equal|]; unfold zsum; lia.
Qed.

(** Reserving the host context keeps the RAM limit.  On success the weights
    reservation covers what the plan and the native context ask for, every native
    requirement (fixed storage, PLE cache, graph arena) is covered by its plan
    field, planned RAM is exactly the sum of the reservations, and with the
    host rows' workspace and the larger KV figure it is within the capacity;
    the auxiliary cache only shrinks, to the largest whole number of MiB. *)
Theorem host_reservation_contract p required p' :
  plan_u64 p -> requirements_u64 required -> reserve_host_context p required = Ok p' ->
  let weights := Z.max (hr_weights required) (p_ram_planned p - reserved_of p) in
  let base := weights + p_graph_metadata p + p_context_metadata p' + p_ple_ram p' + p_expert_ram p + p_io_staging p + p_graph_workspace p' in
  let combined := base + host_workspace p + Z.max (host_kv p) (hr_kv required) in
  p_ram_planned p' = base + p_aux_ram p' /\ combined + p_aux_ram p' <= p_ram_capacity p /\
  hr_fixed required <= p_graph_metadata p + p_context_metadata p' /\ hr_ple_cache required <= p_ple_ram p' /\
  hr_graph required <= host_graph p + p_graph_workspace p' /\
  0 <= p_aux_ram p' <= p_aux_ram p /\ (1024 * 1024 | p_aux_ram p') /\
  Z.min (p_aux_ram p) (p_ram_capacity p - combined) < p_aux_ram p' + 1024 * 1024.
Proof.
  intros [Hr Hrows] Hq. unfold requirements_u64 in Hq. rewrite !Forall_cons in Hr. rewrite !Forall_cons in Hq.
  destruct Hr as (R1 & R2 & R3 & R4 & R5 & R6 & R7 & R8 & R9 & _). destruct Hq as (Q1 & Q2 & Q3 & Q4 & Q5 & _).
  unfold reserve_host_context, reserved_of. destruct (sum_or _ 0 _) as [reserved|] eqn:E1; [|done].
  apply sum_or_ok in E1 as [Hres Hresu]; [|word|rewrite !Forall_cons; split_and!; done || constructor]. cbn [zsum foldr] in Hres.
  destruct (negb _) eqn:E2; [|done]. bool_facts. destruct (sum_or _ (p_graph_metadata p) _) as [fixed|] eqn:E3; [|done].
  apply sum_or_ok in E3 as [Hfx Hfxu]; [|done|by apply Forall_singleton]. cbn [zsum foldr] in Hfx.
  set (weights := Z.max _ _). assert (Hwu : u64 weights) by (unfold weights; word).
  destruct (sum_or _ weights _) as [base0|] eqn:E4; [|done].
  apply sum_or_ok in E4 as [Hb0 Hb0u]; [|done|rewrite !Forall_cons; split_and!; done || word || constructor]. cbn [zsum foldr] in Hb0.
  destruct (foldM _ (host_rows p) _) as [[[workspace graph] kv]|] eqn:E5; [|done].
  apply host_rows_sums in E5 as [Hs (W1 & W2 & W3)]; [|apply Forall_forall; intros d [_ Hd]%list_elem_of_filter; by eapply Forall_forall in Hd|word|word|word]. cbn [fst snd] in W1, W2, W3.
  rewrite !Z.add_0_l in Hs. injection Hs as Hw Hg Hk. fold (host_graph p) in Hg. fold (host_kv p) in Hk. fold (host_workspace p) in Hw.
  set (extra := if hr_graph required >? graph then _ else _).
  assert (Hextra : 0 <= extra <= hr_graph required /\ hr_graph required <= graph + extra)
    by (unfold extra; destruct (_ >? _) eqn:Eg; bool_facts; word).
  destruct (sum_or _ base0 _) as [base|] eqn:E6; [|done]. apply sum_or_ok in E6 as [Hb Hbu]; [|done|apply Forall_singleton; word]. cbn [zsum foldr] in Hb.
  destruct (sum_or _ base _) as [combined|] eqn:E7; [|done].
  apply sum_or_ok in E7 as [Hc Hcu]; [|done|rewrite !Forall_cons; split_and!; done || word || constructor]. cbn [zsum foldr] in Hc.
  destruct (negb _) eqn:E8 in |- *; [|done]. apply negb_true_iff in E8. bool_facts. intros [= <-].
  assert (Hwe : weights = Z.max (hr_weights required) (p_ram_planned p - reserved_of p)) by (unfold weights, reserved_of; lia).
  unfold reserved_of in Hwe. clearbody weights extra. set (room := Z.min (p_aux_ram p) (p_ram_capacity p - combined)).
  assert (Hroom : 0 <= room) by (unfold room; word).
  pose proof (Z.div_mod room (1024 * 1024) ltac:(lia)) as Hdm. pose proof (Z.mod_pos_bound room (1024 * 1024) ltac:(lia)) as Hmb.
  assert (Haux : 0 <= room / (1024 * 1024) * (1024 * 1024) <= room) by lia.
  cbn. rewrite <- Hwe, wrap64_small by word. split_and!; try (by eexists); unfold room in *; lia.
Qed.

Lemma host_reservation_contract_witness :
  exists p p', plan_solve 33 (demo_input 131072 None demo_devices) = Ok p /\
    reserve_host_context p (mk_requirements (3 * GiB) 5000 0 2000 (GiB / 8)) = Ok p' /\ p_ram_planned p' <= 64 * GiB.
Proof.
  destruct (plan_solve 33 (demo_input 131072 None demo_devices)) as [p|e] eqn:E; [|vm_compute in E; discriminate E].
  destruct (reserve_host_context p (mk_requirements (3 * GiB) 5000 0 2000 (GiB / 8))) as [p'|e] eqn:E'.
  2:{ vm_compute in E. injection E as <-. vm_compute in E'. discriminate E'. }
  exists p, p'. split; [done|]. split; [done|].
  assert (Hcap : p_ram_capacity p = 64 * GiB /\ plan_u64 p).
  { vm_compute in E. injection E as <-. split; [reflexivity|]. repeat constructor; vm_compute; discriminate. }
  destruct Hcap as [Hcap Hu].
  destruct (host_reservation_contract p (mk_requirements (3 * GiB) 5000 0 2000 (GiB / 8)) p' Hu) as (H1 & H2 & _);
    [repeat constructor; vm_compute; discriminate|done|].
  rewrite Hcap in H2. cbv zeta in H1, H2. assert (0 <= host_workspace p /\ 0 <= host_kv p); [|lia].
  clear - E. vm_compute in E. injection E as <-. split; vm_compute; discriminate.
Defined.
