(* ===== verification/ExpertSplit.v ===== *)
(** * Splitting expert misses between CPU and upload

    Models [common_expert_split_solve], the calibration lookup and
    [common_expert_split_solve_calibrated] of
    [src/common/resource-planner.cpp].  Costs are doubles; the scan over upload
    counts is a loop on a 32-bit counter and runs on fuel. *)

From S2P Require Import Prelude Binary64.
From stdpp Require Import strings.
Open Scope string_scope.
Open Scope Z_scope.

(** ** Data *)

Record split_input := mk_split_input {
  misses : Z;
  cpu_ns : spec_float;
  upload_ns : spec_float;
  cpu_confidence : spec_float;
  upload_confidence : spec_float;
  minimum_confidence : spec_float;
  hysteresis : spec_float;
  previous_upload : Z;
  calibration_complete : bool;
}.

Record split_plan := mk_split_plan {
  cpu_experts : Z;
  upload_experts : Z;
  predicted_ns : spec_float;
  retained : bool;
}.

Definition no_split : split_plan := mk_split_plan 0 0 f_zero false.

Record calibration_key := mk_calibration_key {
  ck_backend : string; ck_type : Z; ck_input_width : Z; ck_expert_width : Z; ck_bytes : Z;
}.

#[export] Instance calibration_key_eq_dec : EqDecision calibration_key.
Proof. solve_decision. Defined.

Record calibration_entry := mk_calibration_entry {
  ce_key : calibration_key;
  ce_cpu_ns : spec_float;
  ce_upload_ns : spec_float;
  ce_cpu_confidence : spec_float;
  ce_upload_confidence : spec_float;
}.

(** ** The split *)

Definition f_one : spec_float := f_of_Z 1.

(** Time of the slower side when [uploads] experts are uploaded. *)
Definition completion_ns (i : split_input) (uploads : Z) : spec_float :=
  f_max (f_mul (f_of_Z (misses i - uploads)) (cpu_ns i)) (f_mul (f_of_Z uploads) (upload_ns i)).

Fixpoint split_scan (fuel : nat) (i : split_input) (uploads best : Z) (best_ns : spec_float) : option (Z * spec_float) :=
  match fuel with
  | O => None
  | S fuel =>
      if uploads <=? misses i then
        let candidate := completion_ns i uploads in
        if SFltb candidate best_ns then split_scan fuel i (wrap32 (uploads + 1)) uploads candidate
        else split_scan fuel i (wrap32 (uploads + 1)) best best_ns
      else Some (best, best_ns)
  end.

Inductive split_failure := split_refused (message : string) | split_no_return.

Definition split_solve (fuel : nat) (i : split_input) : result split_failure split_plan :=
  guard? calibration_complete i else split_refused "hardware calibration is incomplete" in
  if misses i =? 0 then Ok no_split else
  guard? negb (negb (is_finite (cpu_ns i)) || negb (is_finite (upload_ns i)) || negb (f_gt (cpu_ns i) f_zero)
               || negb (f_gt (upload_ns i) f_zero))
    else split_refused "expert split requires positive contended CPU and upload costs" in
  guard? negb (negb (is_finite (minimum_confidence i)) || negb (is_finite (cpu_confidence i))
               || negb (is_finite (upload_confidence i)) || SFltb (minimum_confidence i) f_zero
               || f_gt (minimum_confidence i) f_one || SFltb (cpu_confidence i) (minimum_confidence i)
               || SFltb (upload_confidence i) (minimum_confidence i))
    else split_refused "hardware calibration confidence is below the planner threshold" in
  guard? negb (negb (is_finite (hysteresis i)) || SFltb (hysteresis i) f_zero || SFleb f_one (hysteresis i))
    else split_refused "expert split hysteresis must be in [0, 1)" in
  match split_scan fuel i 1 0 (completion_ns i 0) with
  | None => Err split_no_return
  | Some (best, best_ns) =>
      let keep := (previous_upload i >=? 0) && (previous_upload i <=? misses i)
        && f_le (f_sub (completion_ns i (previous_upload i)) best_ns) (f_mul (completion_ns i (previous_upload i)) (hysteresis i)) in
      let uploads := if keep then previous_upload i else best in
      let ns := if keep then completion_ns i (previous_upload i) else best_ns in
      Ok (mk_split_plan (misses i - uploads) uploads ns keep)
  end.

(** ** Calibrated costs *)

Definition calibration_lookup (profile : list calibration_entry) (key : calibration_key) : option calibration_entry :=
  snd <$> list_find (fun e => ce_key e = key) profile.

(** 0.80, correctly rounded. *)
Definition default_minimum_confidence : spec_float := S754_finite false 7205759403792794 (-53).

Definition add_component (profile : list calibration_entry) (i : split_input) (key : calibration_key)
    : result split_failure split_input :=
  match calibration_lookup profile key with
  | None => Err (split_refused "hardware calibration has no entry for a required expert component")
  | Some e =>
      guard? negb (f_gt (ce_cpu_ns e) (f_sub f_highest (cpu_ns i)) || f_gt (ce_upload_ns e) (f_sub f_highest (upload_ns i)))
        else split_refused "calibrated expert component costs overflow" in
      Ok (mk_split_input (misses i) (f_add (cpu_ns i) (ce_cpu_ns e)) (f_add (upload_ns i) (ce_upload_ns e))
            (f_min (cpu_confidence i) (ce_cpu_confidence e)) (f_min (upload_confidence i) (ce_upload_confidence e))
            (minimum_confidence i) (hysteresis i) (previous_upload i) (calibration_complete i))
  end.

Definition split_solve_calibrated (fuel : nat) (profile : list calibration_entry) (components : list calibration_key)
    (n_misses previous : Z) (hysteresis_fraction : spec_float) : result split_failure split_plan :=
  guard? negb (match components with [] => true | _ => false end)
    else split_refused "expert split requires calibrated component geometry" in
  let? i := foldM (add_component profile) components
    (mk_split_input n_misses f_zero f_zero f_one f_one default_minimum_confidence hysteresis_fraction previous false) in
  split_solve fuel (mk_split_input (misses i) (cpu_ns i) (upload_ns i) (cpu_confidence i) (upload_confidence i)
    (minimum_confidence i) (hysteresis i) (previous_upload i) true).

(** ** Optimality *)

(** [best] minimises the completion_ns time over the counts below [n]. *)
Definition minimum_below (i : split_input) (n best : Z) (best_ns : spec_float) : Prop :=
  0 <= best < n /\ best_ns = completion_ns i best /\ forall k, 0 <= k < n -> SFltb (completion_ns i k) best_ns = false.

Lemma f_lt_irrefl x : SFltb x x = false.
Proof. destruct (SFltb x x) eqn:E; [|done]. apply f_lt_key in E as (_ & _ & E). unfold key_lt in E. lia. Qed.

Lemma minimum_below_step i n best best_ns :
  minimum_below i n best best_ns ->
  if SFltb (completion_ns i n) best_ns then minimum_below i (n + 1) n (completion_ns i n) else minimum_below i (n + 1) best best_ns.
Proof.
  intros (H1 & H2 & H3). destruct (SFltb (completion_ns i n) best_ns) eqn:E; (split; [lia|split; [done|]]); intros k Hk;
    destruct (Z.eq_dec k n) as [->|Hne]; try done; try (by apply f_lt_irrefl); try (apply H3; lia).
  destruct (SFltb (completion_ns i k) (completion_ns i n)) eqn:El; [|done]. rewrite <- (H3 k) by lia. symmetry. by eapply f_lt_trans.
Qed.

Lemma split_scan_ok fuel i n best best_ns :
  misses i < UINT32_MAX -> n <= misses i + 1 -> minimum_below i n best best_ns -> misses i + 1 - n < Z.of_nat fuel ->
  exists b ns, split_scan fuel i n best best_ns = Some (b, ns) /\ minimum_below i (misses i + 1) b ns.
Proof.
  intros Hm. revert n best best_ns. induction fuel as [|fuel IH]; intros n best best_ns Hn Hmin Hf; [lia|]. cbn [split_scan].
  destruct (Z.leb_spec n (misses i)) as [Hle|Hgt]; [|replace (misses i + 1) with n by lia; eauto].
  destruct Hmin as (H1 & H2 & H3). rewrite (wrap32_small (n + 1)) by (unfold u32; lia).
  pose proof (minimum_below_step i n best best_ns (conj H1 (conj H2 H3))) as Hs. destruct (SFltb _ _); apply IH; done || lia.
Qed.

(** C38: The split is optimal up to hysteresis.  For fewer than UINT32_MAX misses
    the solver returns (misses + 1 rounds are enough) and, unless it refuses its
    input, splits all misses into CPU and upload; the predicted time is that of
    the split, and no count of uploads would finish earlier than the best one it
    compares with: it returns that best count, or keeps the previous count when
    the gain is within the hysteresis fraction. *)
Theorem split_is_optimal fuel i :
  0 < misses i < UINT32_MAX -> misses i < Z.of_nat fuel -> (forall m, split_solve fuel i <> Err (split_refused m)) ->
  exists p best, split_solve fuel i = Ok p /\ 0 <= best <= misses i /\
    (forall k, 0 <= k <= misses i -> SFltb (completion_ns i k) (completion_ns i best) = false) /\
    cpu_experts p + upload_experts p = misses i /\ 0 <= upload_experts p <= misses i /\
    predicted_ns p = completion_ns i (upload_experts p) /\
    (if retained p
     then upload_experts p = previous_upload i /\
          f_le (f_sub (predicted_ns p) (completion_ns i best)) (f_mul (predicted_ns p) (hysteresis i)) = true
     else upload_experts p = best).
Proof.
  intros Hm Hf Hok. unfold split_solve in *. destruct (calibration_complete i); [|by destruct (Hok _ eq_refl)].
  destruct (Z.eqb_spec (misses i) 0); [lia|]. destruct (negb _); [|by destruct (Hok _ eq_refl)].
  destruct (negb _); [|by destruct (Hok _ eq_refl)]. destruct (negb _); [|by destruct (Hok _ eq_refl)]. clear Hok.
  destruct (split_scan_ok fuel i 1 0 (completion_ns i 0)) as (b & ns & -> & Hb1 & -> & Hb2); [lia|lia| |lia|].
  { split; [lia|]. split; [done|]. intros k Hk. replace k with 0 by lia. apply f_lt_irrefl. }
  eexists _, b. split; [reflexivity|]. cbn [cpu_experts upload_experts predicted_ns retained].
  split; [lia|]. split; [intros; apply Hb2; lia|].
  destruct (_ && _) eqn:E; bool_facts; split_and!; try done; lia.
Qed.

Definition demo_split (previous : Z) : split_input :=
  mk_split_input 6 (f_of_Z 300) (f_of_Z 150) f_one f_one default_minimum_confidence (S754_finite false (2 ^ 52) (-57)) previous true.

Lemma split_is_optimal_witness :
  split_solve 8 (demo_split 2) = Ok (mk_split_plan 2 4 (f_of_Z 600) false).
Proof.
  destruct (split_is_optimal 8 (demo_split 2)) as (p & best & Hp & _); [split; reflexivity|reflexivity| |].
  - intros m Hm. vm_compute in Hm. discriminate Hm.
  - rewrite Hp. vm_compute in Hp. injection Hp as <-. vm_compute. reflexivity.
Defined.
