(* ===== verification/ResourceRebalance.v ===== *)
(** * Runtime rebalancing of a resource plan

    Models the second half of [src/common/resource-planner.cpp]: deriving a
    target plan from a running one, raising forecasts to tracked memory, the
    admission check of the double-buffer preparation peak, and the
    failure-atomic switch.  Each function that fills an out parameter returns it
    on success; the message is the error. *)

From S2P Require Import Prelude Accounting ResourcePlan.
From stdpp Require Import strings pretty.
Open Scope string_scope.
Open Scope list_scope.
Open Scope Z_scope.

(** ** Deriving a target *)

Record rebalance_request := mk_request {
  rq_context : Z;
  rq_set_expert : bool;
  rq_expert : Z;
  rq_set_transient : bool;
  rq_transient : transient_policy;
}.

Definition transient_target (current : plan) (policy : transient_policy) : result string Z :=
  match policy with
  | transient_off => Ok 0
  | transient_shared =>
      guard? negb ((p_mtp current =? 0) || (p_multimodal current =? 0))
        else "shared transient policy requires configured MTP and multimodal modules" in
      Ok (Z.max (p_mtp current) (p_multimodal current))
  | transient_mtp_only =>
      guard? negb (p_mtp current =? 0) else "mtp-only transient policy requires a configured MTP module" in
      Ok (p_mtp current)
  | transient_multimodal_only =>
      guard? negb (p_multimodal current =? 0)
        else "multimodal-only transient policy requires a configured multimodal module" in
      Ok (p_multimodal current)
  end.

(** [target = current] with the requested context and transient policy. *)
Definition retarget (current : plan) (request : rebalance_request) (context : Z) : result string plan :=
  let target := current <| p_context := context |> in
  if rq_set_transient request then
    let? capacity := transient_target current (rq_transient request) in
    let shared := bool_decide (rq_transient request = transient_shared) in
    Ok (target <| p_transient_policy := rq_transient request |> <| p_transient_capacity := capacity |>
          <| p_transient_swap := shared |>
          <| p_draft_resident := shared || bool_decide (rq_transient request = transient_mtp_only) |>)
  else Ok target.

(** Native KV bytes of the target and of the current plan; zero when the plan is
    not sized natively. *)
Definition native_totals (current : plan) (context : Z) : result string (Z * Z) :=
  if p_kv_native current then
    match p_kv_query current with
    | None => Err "native cache sizing requires a bound metadata query"
    | Some query =>
        let native := query context in
        guard? negb ((native =? 0) || (native =? UINT64_MAX)) else "target native cache allocation is unavailable or overflows" in
        let? total := sum_or "current cache allocation overflows" 0 (d_kv <$> p_devices current) in
        guard? negb (total =? 0) else "current cache allocation is empty" in
        Ok (native, total)
    end
  else Ok (0, 0).

Definition kv_target (current : plan) (context native total kv : Z) : result string Z :=
  if p_kv_native current then
    let share := mul_div_floor kv native total in
    Ok (if negb (native mod (total / Z.gcd kv total) =? 0) then wrap64 (share + 1) else share)
  else
    match mul_div_ceil_checked kv context (p_context current) with
    | Some share => Ok share
    | None => Err "target KV allocation overflows 64-bit accounting"
    end.

Definition device_parts (d : device_plan) : list Z := [d_dense d; d_graph d; d_kv d; d_expert_cache d; d_staging d; d_transient d].

Definition rebalance_device (current target : plan) (request : rebalance_request) (context native total : Z) (d : device_plan)
    : result string device_plan :=
  guard? negb (d_capacity d <? d_reserve d) else "device capacity is below its immutable reserve" in
  let? kv := kv_target current context native total (d_kv d) in
  let expert := if d_id d >=? 0 then (if rq_set_expert request then rq_expert request else d_expert_cache d)
                else if rq_set_expert request then 0 else d_expert_cache d in
  let transient := if d_id d =? p_transient_device target
                   then (if rq_set_transient request then p_transient_capacity target else d_transient d)
                   else if rq_set_transient request then 0 else d_transient d in
  let d := d <| d_kv := kv |> <| d_expert_cache := expert |> <| d_transient := transient |> in
  let? planned := sum_or "target device plan overflows 64-bit accounting" 0 (device_parts d) in
  let usable := d_capacity d - d_reserve d in
  guard? negb (planned >? usable) else "target KV/expert/transient allocation crosses a device reserve" in
  let d := d <| d_planned := planned |> <| d_headroom := usable - planned |> in
  guard? negb (bool_decide (p_transient_policy target = transient_shared) && (d_id d =? p_transient_device target)
               && (d_headroom d <? Z.min (p_mtp target) (p_multimodal target)))
    else "target allocation consumes the rollback reserve required for shared transient owner swaps" in
  Ok d.

Fixpoint map_result {A B E} (f : A -> result E B) (l : list A) : result E (list B) :=
  match l with
  | [] => Ok []
  | x :: l => let? y := f x in let? ys := map_result f l in Ok (y :: ys)
  end.

Definition rebalance_target (current : plan) (request : rebalance_request) : result string plan :=
  guard? negb ((p_context current =? 0) || (p_slots current =? 0) || match p_devices current with [] => true | _ => false end)
    else "current resource plan is incomplete" in
  let context := if rq_context request =? 0 then p_context current else rq_context request in
  guard? negb ((context <? p_slots current) || negb (context mod p_slots current =? 0))
    else "target context must provide an equal whole-token capacity for every slot" in
  guard? negb (rq_set_expert request && (rq_expert request >? 0) && bool_decide (p_policy current = policy_resident))
    else "resident policy has no mutable deferred-expert cache" in
  let? target := retarget current request context in
  let? (native, total) := native_totals current context in
  let? devices := map_result (rebalance_device current target request context native total) (p_devices target) in
  guard? negb (rq_set_expert request && (rq_expert request >? 0) && negb (existsb (fun d => d_id d >=? 0) devices))
    else "target expert cache requires an accelerator" in
  guard? negb (rq_set_transient request && negb (p_transient_capacity target =? 0)
               && negb (existsb (fun d => d_id d =? p_transient_device target) devices))
    else "serialized transient device is not present in the resource plan" in
  let target := target <| p_devices := devices |>
    <| p_reason := "validated runtime KV/expert/transient rebalance target; no resources mutated" |> in
  match find_host devices with
  | Some host =>
      if p_ram_capacity target =? 0 then Ok target else
      let e := "target host weights, caches, KV and workspace exceed the RAM budget" in
      let? combined := sum_or e (p_ram_planned target) [d_planned host - Z.min (d_planned host) (d_dense host)] in
      guard? negb (combined >? p_ram_capacity target) else e in
      Ok target
  | None => Ok target
  end.

(** ** Raising forecasts to tracked memory *)

Record device_memory := mk_memory { dm_id : Z; dm_weights : Z; dm_fixed : Z }.

(** Insert the identifiers in order; [None] when one is there already. *)
Fixpoint insert_ids (ids : gset Z) (l : list Z) : option (gset Z) :=
  match l with
  | [] => Some ids
  | x :: l => if bool_decide (x ∈ ids) then None else insert_ids ({[x]} ∪ ids) l
  end.

Definition usable_bytes (d : device_plan) : Z := if d_capacity d >=? d_reserve d then d_capacity d - d_reserve d else 0.

(** Recompute planned bytes and headroom from the parts. *)
Definition retotal (e : string) (d : device_plan) : result string device_plan :=
  let? total := sum_or e 0 (device_parts d) in
  Ok (d <| d_planned := total |> <| d_headroom := if total <=? usable_bytes d then usable_bytes d - total else 0 |>).

(** Check that planned bytes are the sum of the parts. *)
Definition check_total (overflow stale : string) (d : device_plan) : result string unit :=
  let? total := sum_or overflow 0 (device_parts d) in
  guard? total =? d_planned d else stale in Ok tt.

Definition raise_device (m : device_memory) (d : device_plan) : result string device_plan :=
  let? _ := check_total "tracked memory reconciliation received overflowing device accounting"
    "tracked memory reconciliation received stale device accounting" d in
  retotal "tracked live device memory overflows preparation accounting"
    (d <| d_dense := Z.max (d_dense d) (dm_weights m) |> <| d_graph := Z.max (d_graph d) (dm_fixed m) |>).

(** Replace the first row of the given device. *)
Fixpoint update_first (id : Z) (f : device_plan -> result string device_plan) (l : list device_plan) : result string (list device_plan) :=
  match l with
  | [] => Ok []
  | d :: l => if d_id d =? id then let? d := f d in Ok (d :: l) else let? l := update_first id f l in Ok (d :: l)
  end.

Definition find_memory (id : Z) (l : list device_memory) : option device_memory := snd <$> list_find (fun m => dm_id m = id) l.

(** One row of the loop over the current devices; [planned] are the accelerators
    seen before. *)
Definition reconcile_row (memory : list device_memory) (st : list device_plan * list device_plan * gset Z) (live : device_plan)
    : result string (list device_plan * list device_plan * gset Z) :=
  let '(done_rows, next_rows, planned) := st in
  if d_id live <? 0 then Ok (done_rows ++ [live], next_rows, planned) else
  guard? negb (bool_decide (d_id live ∈ planned)) else "resource plan contains duplicate accelerator IDs" in
  match find_memory (d_id live) memory, find_device (d_id live) next_rows with
  | Some observed, Some next =>
      guard? negb (negb (d_dense live =? d_dense next) || negb (d_graph live =? d_graph next))
        else "tracked memory reconciliation cannot change immutable forecasts" in
      let? live := raise_device observed live in
      let? next_rows := update_first (d_id live) (raise_device observed) next_rows in
      Ok (done_rows ++ [live], next_rows, {[d_id live]} ∪ planned)
  | _, _ => Err "tracked accelerator memory omitted a planned device"
  end.

Definition accelerators (l : list device_plan) : list Z := d_id <$> filter (fun d => 0 <= d_id d) l.

Definition reconcile_device_memory (current target : plan) (memory : list device_memory) : result string (plan * plan) :=
  match (if forallb (fun m => dm_id m >=? 0) memory then insert_ids ∅ (dm_id <$> memory) else None) with
  | None => Err "tracked accelerator memory has an invalid or duplicate device ID"
  | Some ids =>
      let? (live_rows, next_rows, planned) := foldM (reconcile_row memory) (p_devices current) ([], p_devices target, ∅) in
      match insert_ids ∅ (accelerators next_rows) with
      | None => Err "target resource plan contains duplicate accelerator IDs"
      | Some target_ids =>
          guard? bool_decide (ids = planned) && bool_decide (target_ids = planned)
            else "tracked accelerator memory and preparation topology differ" in
          Ok (current <| p_devices := live_rows |>, target <| p_devices := next_rows |>)
      end
  end.

(** ** The preparation peak *)

Record kv_row := mk_kv_row { kr_id : Z; kr_bytes : Z }.
Record kv_preparation := mk_kv_preparation {
  kp_current : list kv_row; kp_target : list kv_row; kp_metadata : Z; kp_staging : Z;
}.
Record host_memory := mk_host_memory { hm_weights : Z; hm_fixed : Z; hm_ple_cache : Z }.

Record device_peak := mk_device_peak {
  k_id : Z;
  k_capacity : Z;
  k_reserve : Z;
  k_current_live : Z;
  k_target_live : Z;
  k_prepared_kv : Z;
  k_prepared_expert : Z;
  k_prepared_transient : Z;
  k_peak : Z;
  k_headroom : Z;
}.

Record ram_peak := mk_ram_peak {
  r_capacity : Z;
  r_usable : Z;
  r_current : Z;
  r_target : Z;
  r_peak : Z;
  r_headroom : Z;
  r_tracked_extra : Z;
  r_weights_limit : Z;
  r_fixed_limit : Z;
  r_ple_limit : Z;
  r_metadata : Z;
  r_staging : Z;
}.

#[export] Instance eta_ram_peak : Settable ram_peak := fun r =>
  mk_ram_peak (r_capacity r) (r_usable r) (r_current r) (r_target r) (r_peak r) (r_headroom r) (r_tracked_extra r)
    (r_weights_limit r) (r_fixed_limit r) (r_ple_limit r) (r_metadata r) (r_staging r).

Definition empty_ram : ram_peak := mk_ram_peak 0 0 0 0 0 0 0 0 0 0 0 0.

Record peak_report := mk_report {
  pr_kv : bool;
  pr_expert : bool;
  pr_transient : bool;
  pr_devices : list device_peak;
  pr_ram : ram_peak;
}.

Definition find_row (id : Z) (l : list kv_row) : option kv_row := snd <$> list_find (fun r => kr_id r = id) l.

(** One device of the native receipt: its KV bytes replace the forecast. *)
Definition realize_device (rows : list kv_row) (st : list device_plan * gset Z * gset Z) (d : device_plan)
    : result string (list device_plan * gset Z * gset Z) :=
  let '(devices, planned, ids) := st in
  guard? negb ((d_id d <? -1) || bool_decide (d_id d ∈ planned)) else "native KV receipt received invalid resource-plan topology" in
  let? _ := check_total "native KV receipt received overflowing device accounting" "native KV receipt received stale device accounting" d in
  let row := find_row (d_id d) rows in
  let? d := retotal "native KV receipt overflows device accounting" (d <| d_kv := default 0 (kr_bytes <$> row) |>) in
  Ok (devices ++ [d], {[d_id d]} ∪ planned, match row with Some _ => ids ∖ {[d_id d]} | None => ids end).

(** The plan with native KV bytes, and the host KV that no device row holds. *)
Definition realize (p : plan) (rows : list kv_row) : result string (plan * Z) :=
  match (if forallb (fun r => kr_id r >=? -1) rows then insert_ids ∅ (kr_id <$> rows) else None) with
  | None => Err "native KV receipt has an invalid or duplicate device ID"
  | Some ids =>
      let? (devices, planned, ids) := foldM (realize_device rows) (p_devices p) ([], ∅, ids) in
      let host := if bool_decide (-1 ∈ ids) then default 0 (kr_bytes <$> find_row (-1) rows) else 0 in
      guard? bool_decide (ids ∖ {[-1]} = ∅) else "native KV receipt contains an accelerator outside the resource plan" in
      Ok (p <| p_devices := devices |>, host)
  end.

Definition same_topology (live next : device_plan) : bool :=
  (d_id live =? d_id next) && (d_capacity live =? d_capacity next) && (d_reserve live =? d_reserve next).

Definition same_fixed (live next : device_plan) : bool :=
  (d_dense live =? d_dense next) && (d_graph live =? d_graph next) && (d_staging live =? d_staging next).

Definition check_rows (pairs : list (device_plan * device_plan)) : result string unit :=
  foldM (fun _ '(live, next) =>
    guard? same_topology live next else "runtime rebalance cannot change device topology, capacity, or reserve" in
    guard? same_fixed live next else "runtime KV/expert rebalance cannot change immutable device allocations" in
    Ok tt) pairs tt.

Definition differs (f : device_plan -> Z) (pairs : list (device_plan * device_plan)) : bool :=
  existsb (fun '(live, next) => negb (f live =? f next)) pairs.

(** *** Transient owners *)

Inductive owner := owner_none | owner_mtp | owner_multimodal.

#[export] Instance owner_eq_dec : EqDecision owner.
Proof. solve_decision. Defined.

Definition possible_owners (force : bool) (policy : transient_policy) : list owner :=
  if force then [owner_none; owner_mtp; owner_multimodal] else
  match policy with
  | transient_off => [owner_none]
  | transient_mtp_only => [owner_mtp]
  | transient_multimodal_only => [owner_multimodal]
  | transient_shared => [owner_mtp; owner_multimodal]
  end.

Definition owner_bytes (p : plan) (o : owner) : Z :=
  match o with owner_none => 0 | owner_mtp => p_mtp p | owner_multimodal => p_multimodal p end.

Definition target_owner (policy : transient_policy) (live : owner) : owner :=
  match policy with
  | transient_off => owner_none
  | transient_mtp_only => owner_mtp
  | transient_multimodal_only => owner_multimodal
  | transient_shared => match live with owner_none => owner_mtp | _ => live end
  end.

Definition owner_peak (force : bool) (current : plan) (policy : transient_policy) (peak : Z) (live : owner) : result string Z :=
  let next := target_owner policy live in
  let? this := (if bool_decide (next <> owner_none) && (force || bool_decide (next <> live))
                then sum_or "transient owner preparation peak overflows 64-bit accounting" (owner_bytes current live) [owner_bytes current next]
                else Ok (owner_bytes current live)) in
  Ok (Z.max peak this).

Definition transient_additional_peak (force : bool) (current target : plan) : result string Z :=
  let? combined := foldM (owner_peak force current (p_transient_policy target)) (possible_owners force (p_transient_policy current)) 0 in
  match find_device (p_transient_device current) (p_devices current) with
  | None => Err "current resource plan omitted its transient device"
  | Some live => Ok (if combined >? d_transient live then combined - d_transient live else 0)
  end.

(** *** Device and RAM peaks *)

Definition device_peak_of (kv expert transient : bool) (transient_device additional : Z) (pair : device_plan * device_plan)
    : result string device_peak :=
  let '(live, next) := pair in
  guard? negb (d_capacity live <? d_reserve live) else "device capacity is below its immutable reserve" in
  let? current_live := sum_or "current device plan overflows 64-bit accounting" 0 (device_parts live) in
  let? target_live := sum_or "target device plan overflows 64-bit accounting" 0 (device_parts next) in
  guard? (current_live =? d_planned live) && (target_live =? d_planned next)
    else "runtime rebalance received stale device planned-byte accounting" in
  let usable := d_capacity live - d_reserve live in
  guard? negb ((current_live >? usable) || (target_live >? usable)) else "current or target device plan crosses a device reserve" in
  let prepared_kv := if kv then d_kv next else 0 in
  let prepared_expert := if expert then d_expert_cache next else 0 in
  let prepared_transient := if transient && (d_id live =? transient_device) then additional else 0 in
  let? peak := sum_or ("resource preparation peak overflows 64-bit accounting on device " +:+ pretty (d_id live)) current_live
    [prepared_kv; prepared_expert; prepared_transient] in
  guard? negb (peak >? usable)
    else ("resource preparation peak crosses the reserve/headroom on device " +:+ pretty (d_id live) +:+ ": requires "
          +:+ pretty peak +:+ " bytes with " +:+ pretty usable +:+ " usable")%string in
  Ok (mk_device_peak (d_id live) (d_capacity live) (d_reserve live) current_live target_live prepared_kv prepared_expert
        prepared_transient peak (usable - peak)).

(** Host rows add to the RAM figures; the graph forecast is summed alongside. *)
Definition ram_row (st : ram_peak * Z) (row : device_peak * device_plan) : result string (ram_peak * Z) :=
  let '(r, forecast) := st in
  let '(k, live) := row in
  if k_id k >=? 0 then Ok (r, forecast) else
  let? forecast := sum_or "host fixed forecast overflows 64-bit accounting" forecast [d_graph live] in
  let usable := Z.min (r_usable r) (k_capacity k - k_reserve k) in
  let e := "RAM preparation peak overflows 64-bit accounting" in
  let? c := sum_or e (r_current r) [wrap64 (k_current_live k - d_dense live)] in
  let? t := sum_or e (r_target r) [wrap64 (k_target_live k - d_dense live)] in
  let? p := sum_or e (r_peak r) [wrap64 (k_peak k - d_dense live)] in
  Ok (r <| r_usable := usable |> <| r_current := c |> <| r_target := t |> <| r_peak := p |>, forecast).

Definition ram_reservations (p : plan) : list Z :=
  [p_expert_ram p; p_ple_ram p; p_aux_ram p; p_io_staging p; p_graph_metadata p; p_context_metadata p; p_graph_workspace p].

(** Tracked host floors above the reservations. *)
Definition ram_tracked (current target : plan) (forecast : Z) (h : host_memory) (r : ram_peak) : result string ram_peak :=
  guard? bool_decide (ram_reservations current = ram_reservations target)
    else "tracked host preparation cannot change immutable RAM reservations" in
  let? other := sum_or "host RAM reservations overflow 64-bit accounting" 0 (ram_reservations current) in
  guard? negb (other >? p_ram_planned current) else "host RAM reservations exceed the serialized total" in
  let weights := p_ram_planned current - other in
  let weights_limit := Z.max weights (hm_weights h) in
  let? fixed := sum_or "host metadata reservation overflows fixed RAM accounting" forecast
    [p_graph_metadata current; p_context_metadata current; p_graph_workspace current] in
  let fixed_limit := Z.max fixed (hm_fixed h) in
  let ple_limit := Z.max (p_ple_ram current) (hm_ple_cache h) in
  let? extra := sum_or "tracked host floors overflow 64-bit accounting" (r_tracked_extra r)
    [weights_limit - weights; fixed_limit - fixed; ple_limit - p_ple_ram current] in
  let e := "tracked host preparation peak overflows 64-bit accounting" in
  let? c := sum_or e (r_current r) [extra] in
  let? t := sum_or e (r_target r) [extra] in
  let? p := sum_or e (r_peak r) [extra] in
  Ok (r <| r_weights_limit := weights_limit |> <| r_fixed_limit := fixed_limit |> <| r_ple_limit := ple_limit |>
        <| r_tracked_extra := extra |> <| r_current := c |> <| r_target := t |> <| r_peak := p |>).

(** Host KV, metadata and migration scratch of the native receipt. *)
Definition ram_native (prepares_kv : bool) (n : kv_preparation) (host_current host_target : Z) (r : ram_peak) : result string ram_peak :=
  let e := "native host KV accounting overflows the RAM budget" in
  let? c := sum_or e (r_current r) [host_current] in
  let? t := sum_or e (r_target r) [host_target] in
  let? p := sum_or e (r_peak r) [host_current] in
  let r := r <| r_current := c |> <| r_target := t |> <| r_peak := p |> in
  if prepares_kv then
    let? p := sum_or "native preparation scratch or metadata overflows the RAM budget" (r_peak r)
      [host_target; kp_metadata n; kp_staging n] in
    Ok (r <| r_metadata := kp_metadata n |> <| r_staging := kp_staging n |> <| r_peak := p |>)
  else
    guard? (kp_metadata n =? 0) && (kp_staging n =? 0) && (host_current =? host_target)
      else "unchanged KV receipt contains replacement allocations" in
    Ok r.

Definition ram_peak_of (current target : plan) (prepares_kv : bool) (rows : list (device_peak * device_plan)) (tracked : option host_memory)
    (native : option kv_preparation) (host_current host_target : Z) : result string ram_peak :=
  if (p_ram_capacity current =? 0) && bool_decide (tracked = None) && negb (match native with Some _ => true | None => false end)
  then Ok empty_ram else
  let r := empty_ram <| r_capacity := p_ram_capacity current |>
    <| r_usable := if negb (p_ram_capacity current =? 0) then p_ram_capacity current else UINT64_MAX |>
    <| r_current := p_ram_planned current |> <| r_target := p_ram_planned target |> <| r_peak := p_ram_planned current |> in
  let? (r, forecast) := foldM ram_row rows (r, 0) in
  let? r := (match tracked with Some h => ram_tracked current target forecast h r | None => Ok r end) in
  let? r := (match native with Some n => ram_native prepares_kv n host_current host_target r | None => Ok r end) in
  guard? negb ((r_current r >? r_usable r) || (r_target r >? r_usable r))
    else "current or target combined RAM allocations exceed the usable RAM budget" in
  guard? negb (r_peak r >? r_usable r)
    else ("RAM preparation peak crosses --max-ram or the host reserve: requires " +:+ pretty (r_peak r) +:+ " bytes with "
          +:+ pretty (r_usable r) +:+ " usable")%string in
  Ok (r <| r_headroom := r_usable r - r_peak r |>).

Definition host_metadata_fits (p : plan) : bool :=
  (p_graph_metadata p <=? p_ram_planned p) && (p_context_metadata p <=? p_ram_planned p - p_graph_metadata p)
  && (p_graph_workspace p <=? p_ram_planned p - p_graph_metadata p - p_context_metadata p).

Definition ram_fields_equal (current target : plan) : bool :=
  (p_ram_capacity current =? p_ram_capacity target) && (p_ram_planned current =? p_ram_planned target)
  && (p_graph_metadata current =? p_graph_metadata target) && (p_context_metadata current =? p_context_metadata target)
  && (p_graph_workspace current =? p_graph_workspace target).

Definition transient_bounds_equal (current target : plan) : bool :=
  (p_transient_device current =? p_transient_device target) && (p_mtp current =? p_mtp target)
  && (p_multimodal current =? p_multimodal target).

(** The check on plans whose KV bytes are realized. *)
Definition realized_peak (current target : plan) (force_expert force_transient : bool) (tracked : option host_memory)
    (native : option kv_preparation) (host_current host_target : Z) : result string peak_report :=
  guard? negb (match p_devices current with [] => true | _ => false end) && (length (p_devices current) =? length (p_devices target))%nat
    else "current and target resource plans have different device topologies" in
  guard? ram_fields_equal current target else "runtime rebalance cannot change immutable RAM capacity or reservations" in
  guard? host_metadata_fits current else "host metadata exceeds the serialized RAM reservation" in
  guard? transient_bounds_equal current target else "runtime rebalance cannot change transient topology or module bounds" in
  let pairs := zip (p_devices current) (p_devices target) in
  let? _ := check_rows pairs in
  let kv := negb (p_context current =? p_context target) || differs d_kv pairs in
  let expert := force_expert || differs d_expert_cache pairs in
  let transient := force_transient || bool_decide (p_transient_policy current <> p_transient_policy target)
    || negb (p_transient_capacity current =? p_transient_capacity target) || differs d_transient pairs in
  let? additional := (if transient then transient_additional_peak force_transient current target else Ok 0) in
  let? devices := map_result (device_peak_of kv expert transient (p_transient_device current) additional) pairs in
  let? ram := ram_peak_of current target kv (zip devices (p_devices current)) tracked native host_current host_target in
  Ok (mk_report kv expert transient devices ram).

Definition preparation_peak (current target : plan) (force_expert force_transient : bool) (tracked : option host_memory)
    (native : option kv_preparation) : result string peak_report :=
  match native with
  | None => realized_peak current target force_expert force_transient tracked None 0 0
  | Some n =>
      let? (current, host_current) := realize current (kp_current n) in
      let? (target, host_target) := realize target (kp_target n) in
      realized_peak current target force_expert force_transient tracked native host_current host_target
  end.

(** ** The failure-atomic switch *)

Record transition_stats := mk_stats {
  ts_attempts : Z; ts_commits : Z; ts_rollbacks : Z; ts_prepare_failures : Z; ts_commit_failures : Z;
}.

#[export] Instance eta_transition_stats : Settable transition_stats := fun s =>
  mk_stats (ts_attempts s) (ts_commits s) (ts_rollbacks s) (ts_prepare_failures s) (ts_commit_failures s).

(** How a callback ends: with a value, a [std::exception] or something else
    thrown. *)
Inductive ending (A : Type) := returns (a : A) | throws (what : string) | throws_unknown.
Arguments returns {A} a.
Arguments throws {A} what.
Arguments throws_unknown {A}.

(** [++counter] on a [uint64_t]. *)
Definition incr (x : Z) : Z := wrap64 (x + 1).

Section apply_plan.
Context {W : Type}.
Context (prepare : plan -> W -> ending (bool * string) * W) (commit rollback : W -> ending unit * W).

(** A rollback that throws is caught: only its effect on the world remains. *)
Definition run_rollback (w : W) : W := (rollback w).2.

Definition bump (f : transition_stats -> transition_stats) (stats : option transition_stats) : option transition_stats := f <$> stats.

Definition apply_plan_atomic (current target : plan) (stats : option transition_stats) (w : W)
    : bool * plan * string * option transition_stats * W :=
  let stats := bump (fun s => s <| ts_attempts ::= incr |>) stats in
  let failed stats error w := (false, current, error, bump (fun s => s <| ts_rollbacks ::= incr |>) stats, run_rollback w) in
  let prepare_failed := bump (fun s => s <| ts_prepare_failures ::= incr |>) stats in
  let commit_failed := bump (fun s => s <| ts_commit_failures ::= incr |>) stats in
  match prepare target w with
  | (returns (true, error), w) =>
      match commit w with
      | (returns _, w) => (true, target, error, bump (fun s => s <| ts_commits ::= incr |>) stats, w)
      | (throws what, w) => failed commit_failed ("resource plan transition failed: " +:+ what)%string w
      | (throws_unknown, w) => failed commit_failed "resource plan transition failed with an unknown exception" w
      end
  | (returns (false, error), w) =>
      failed prepare_failed (if bool_decide (error = "") then "resource plan preparation failed" else error) w
  | (throws what, w) => failed prepare_failed ("resource plan transition failed: " +:+ what)%string w
  | (throws_unknown, w) => failed prepare_failed "resource plan transition failed with an unknown exception" w
  end.
End apply_plan.
