(* ===== verification/RebalanceProofs.v ===== *)
(** * Correctness of runtime rebalancing

    The proofs about [ResourceRebalance]: a derived target keeps every device
    inside its budget and never understates the KV cache, an admitted
    preparation holds the live and the replacement pools at once, and the
    switch of plans is failure atomic. *)

From S2P Require Import Prelude Accounting ResourcePlan ResourceRebalance ResourceSolve.
From stdpp Require Import strings.
Open Scope string_scope.
Open Scope list_scope.
Open Scope Z_scope.

Local Arguments wrap64 : simpl never.
Local Arguments Z.add : simpl never.
Local Arguments Z.sub : simpl never.
Local Arguments Z.min : simpl never.
Local Arguments Z.max : simpl never.
Local Arguments sum_or : simpl never.
Local Arguments find_host : simpl never.
Local Arguments find_device : simpl never.

(** ** Rescaling the KV bytes *)

Lemma divide_gcd kv native total :
  0 < total -> 0 <= kv -> (native mod (total / Z.gcd kv total) = 0 <-> (kv * native) mod total = 0).
Proof.
  intros Ht Hk. pose proof (Z.gcd_divide_l kv total) as [k Hkv]. pose proof (Z.gcd_divide_r kv total) as [t Htt].
  set (g := Z.gcd kv total) in *. assert (Hg : 0 < g).
  { pose proof (Z.gcd_nonneg kv total). fold g in H. destruct (Z.eq_dec g 0) as [E|]; [|lia]. rewrite E in Htt. lia. }
  assert (Htpos : 0 < t) by nia. assert (Hdiv : total / g = t) by (rewrite Htt; apply Z.div_mul; lia). rewrite Hdiv.
  assert (Hprime : Z.gcd t k = 1).
  { assert (Z.gcd (t * g) (k * g) = g) by (rewrite <- Htt, <- Hkv, Z.gcd_comm; done).
    rewrite Z.gcd_mul_mono_r_nonneg in H by lia. nia. }
  rewrite !Z.mod_divide by lia. split.
  - intros [q ->]. exists (k * q). rewrite Hkv at 1. rewrite Htt. lia.
  - intros [q Hq]. apply (Z.gauss t k native); [|done]. exists q. apply (Z.mul_reg_r _ _ g); [lia|].
    rewrite Hkv in Hq. rewrite Htt in Hq. lia.
Qed.

Lemma native_share kv native total :
  0 <= kv <= total -> 0 < total <= UINT64_MAX -> 0 < native < UINT64_MAX ->
  (if negb (native mod (total / Z.gcd kv total) =? 0) then wrap64 (mul_div_floor kv native total + 1) else mul_div_floor kv native total)
  = ceil_div (kv * native) total.
Proof.
  intros Hkv Ht Hn. rewrite ceil_div_eq by lia.
  assert (Hq : 0 <= kv * native / total <= native).
  { split; [apply Z.div_pos; nia|]. apply Z.div_le_upper_bound; nia. }
  assert (Hf : mul_div_floor kv native total = kv * native / total) by (apply wrap64_small; unfold u64, UINT64_MAX in *; lia).
  pose proof (divide_gcd kv native total ltac:(lia) ltac:(lia)) as Hd. rewrite Hf.
  destruct (Z.eqb_spec (native mod (total / Z.gcd kv total)) 0) as [E|E], (Z.eqb_spec ((kv * native) mod total) 0) as [E'|E']; cbn [negb]; try tauto; [lia|].
  apply wrap64_small. unfold u64, UINT64_MAX in *. lia.
Qed.

Lemma ceil_div_mul a b : 0 < b -> a <= ceil_div a b * b.
Proof. intros Hb. unfold ceil_div. pose proof (Z.mod_pos_bound (a + b - 1) b Hb). pose proof (Z.div_mod (a + b - 1) b ltac:(lia)). lia. Qed.

(** Rounding every share up, the shares cover the total. *)
Lemma ceil_shares_cover kvs native :
  Forall (fun x => 0 <= x) kvs -> 0 <= native -> 0 < zsum kvs -> native <= zsum ((fun kv => ceil_div (kv * native) (zsum kvs)) <$> kvs).
Proof.
  intros Hk Hn Ht. set (total := zsum kvs) in *.
  enough (H : forall l, zsum l * native <= zsum ((fun kv => ceil_div (kv * native) total) <$> l) * total).
  { specialize (H kvs). fold total in H. nia. }
  induction l as [|x l IH]; [done|]. rewrite fmap_cons. cbn [zsum foldr]. fold (zsum l). fold (zsum ((fun kv => ceil_div (kv * native) total) <$> l)).
  pose proof (ceil_div_mul (x * native) total Ht). lia.
Qed.

(** ** The target plan *)

Definition row_ok64 (d : device_plan) : Prop :=
  Forall u64 (device_parts d) /\ u64 (d_capacity d) /\ u64 (d_reserve d).

Definition kv_rule (current : plan) (context native total kv : Z) : Z :=
  if p_kv_native current then ceil_div (kv * native) total else ceil_div (kv * context) (p_context current).

(** How a row of the target relates to the row it comes from. *)
Record retargeted (current target : plan) (context native total : Z) (d r : device_plan) : Prop := {
  rt_fixed : d_id r = d_id d /\ d_capacity r = d_capacity d /\ d_reserve r = d_reserve d /\ d_dense r = d_dense d /\
    d_graph r = d_graph d /\ d_staging r = d_staging d;
  rt_kv : d_kv r = kv_rule current context native total (d_kv d);
  rt_planned : d_planned r = zsum (device_parts r) /\ u64 (d_planned r);
  rt_budget : d_reserve r + d_planned r + d_headroom r = d_capacity r /\ 0 <= d_headroom r;
  rt_swap : p_transient_policy target = transient_shared -> d_id r = p_transient_device target ->
    Z.min (p_mtp target) (p_multimodal target) <= d_headroom r;
}.

Lemma map_result_Forall2 {A B E} (f : A -> result E B) (P : A -> B -> Prop) l l' :
  (forall x y, x ∈ l -> f x = Ok y -> P x y) -> map_result f l = Ok l' -> Forall2 P l l'.
Proof.
  revert l'. induction l as [|x l IH]; intros l' Hf; cbn [map_result]; [intros [= <-]; constructor|].
  destruct (f x) as [y|] eqn:E1; [|done]. destruct (map_result f l) as [ys|] eqn:E2; [|done]. intros [= <-].
  constructor; [apply Hf; [left|done]|]. apply IH; [|done]. intros ? ? ?. apply Hf. by right.
Qed.

Lemma kv_target_ok current context native total d kv :
  u64 (d_kv d) -> u32 context -> u32 (p_context current) ->
  (p_kv_native current = true -> 0 < native < UINT64_MAX /\ 0 < total <= UINT64_MAX /\ d_kv d <= total) ->
  kv_target current context native total (d_kv d) = Ok kv -> kv = kv_rule current context native total (d_kv d) /\ u64 kv.
Proof.
  intros Hd Hc Hcc Hn. unfold kv_target, kv_rule. destruct (p_kv_native current).
  - destruct (Hn eq_refl) as (H1 & H2 & H3). rewrite native_share by (unfold u64 in Hd; lia). intros [= <-]. split; [done|].
    split; [apply ceil_div_nonneg; unfold u64 in *; nia|].
    pose proof (ceil_div_le (d_kv d * native) total native ltac:(lia) ltac:(unfold u64 in *; nia)). lia.
  - destruct (mul_div_ceil_checked _ _ _) as [share|] eqn:E; [|done]. intros [= <-].
    destruct (proj1 (mul_div_ceil_ok _ _ _ _ Hd Hc Hcc) E) as (Hne & -> & Hle).
    split; [done|]. split; [apply ceil_div_nonneg; unfold u64, u32 in *; nia|done].
Qed.

Lemma rebalance_device_ok current target request context native total d r :
  row_ok64 d -> u64 (rq_expert request) -> u64 (p_transient_capacity target) -> u32 context -> u32 (p_context current) ->
  (p_kv_native current = true -> 0 < native < UINT64_MAX /\ 0 < total <= UINT64_MAX /\ d_kv d <= total) ->
  rebalance_device current target request context native total d = Ok r -> retargeted current target context native total d r.
Proof.
  intros [Hparts [Hcap Hres]] Hx Ht Hc Hcc Hn. destruct d as [id cap res dense graph kv0 cache staging trans0 planned0 headroom0].
  unfold rebalance_device, device_parts in *. cbn in *. rewrite !Forall_cons in Hparts. destruct Hparts as (P1 & P2 & P3 & P4 & P5 & P6 & _).
  destruct (negb (cap <? res)) eqn:E1; [|done]. bool_facts.
  destruct (kv_target _ _ _ _ _) as [kv|] eqn:Ek; [|done].
  apply (kv_target_ok current context native total (mk_device_plan id cap res dense graph kv0 cache staging trans0 planned0 headroom0)) in Ek as [Hkv Hkvu]; [|done..].
  set (expert := if id >=? 0 then _ else _). set (transient := if id =? _ then _ else _).
  assert (Heu : u64 expert) by (unfold expert; repeat case_match; done || (split; vm_compute; discriminate)).
  assert (Htu : u64 transient) by (unfold transient; repeat case_match; done || (split; vm_compute; discriminate)).
  destruct (sum_or _ 0 _) as [planned|] eqn:Es; [|done].
  apply sum_or_ok in Es as [Hp Hpu]; [|split; vm_compute; discriminate|rewrite !Forall_cons; split_and!; done || constructor].
  destruct (negb (planned >? _)) eqn:E2; [|done]. bool_facts.
  destruct (negb (_ && _ && _)) eqn:E3; [|done]. intros [= <-]. clearbody expert transient. split; cbn; try done; try lia.
  intros Hs Hid. rewrite Hs, Hid, Z.eqb_refl, bool_decide_true in E3 by done. cbn in E3. bool_facts. lia.
Qed.

(** A running plan and a request whose fields are in the range of their types. *)
Record running_ok (p : plan) : Prop := {
  ru_rows : Forall row_ok64 (p_devices p);
  ru_context : u32 (p_context p) /\ u32 (p_slots p);
  ru_bytes : Forall u64 [p_mtp p; p_multimodal p; p_transient_capacity p; p_ram_planned p; p_ram_capacity p];
  ru_query : forall query c, p_kv_query p = Some query -> u64 (query c);
}.

Definition request_ok (r : rebalance_request) : Prop := u32 (rq_context r) /\ u64 (rq_expert r).

Definition wanted_context (current : plan) (r : rebalance_request) : Z := if rq_context r =? 0 then p_context current else rq_context r.

Lemma retarget_ok current request context target :
  running_ok current -> retarget current request context = Ok target ->
  p_context target = context /\ p_devices target = p_devices current /\ u64 (p_transient_capacity target) /\
  (p_ram_planned target, p_ram_capacity target, p_slots target, p_kv_native target) =
  (p_ram_planned current, p_ram_capacity current, p_slots current, p_kv_native current).
Proof.
  intros [_ _ Hb _]. rewrite !Forall_cons in Hb. destruct Hb as (B1 & B2 & B3 & B4 & B5 & _). unfold retarget.
  destruct (rq_set_transient request); [|intros [= <-]; done].
  destruct (transient_target _ _) as [capacity|] eqn:E; [|done]. intros [= <-]. split_and!; try done. change (u64 capacity).
  unfold transient_target in E. destruct (rq_transient request); repeat run_step E; simplify_eq; try done; unfold u64 in *; lia.
Qed.

Lemma native_totals_ok current context native total :
  running_ok current -> native_totals current context = Ok (native, total) -> p_kv_native current = true ->
  0 < native < UINT64_MAX /\ total = zsum (d_kv <$> p_devices current) /\ 0 < total <= UINT64_MAX /\
  exists query, p_kv_query current = Some query /\ native = query context.
Proof.
  intros Hr. unfold native_totals. intros H Hn. rewrite Hn in H. destruct (p_kv_query current) as [query|] eqn:Eq; [|done].
  destruct (negb _) eqn:E1; [|done]. destruct (sum_or _ 0 _) as [t|] eqn:Es; [|done]. destruct (negb (t =? 0)) eqn:E2; [|done].
  injection H as <- <-. pose proof (ru_query current Hr query context Eq) as Hu. bool_facts.
  assert (Hkv : Forall u64 (d_kv <$> p_devices current)).
  { apply Forall_fmap. eapply Forall_impl; [apply Hr|]. intros d [Hp _]. unfold device_parts in Hp. rewrite !Forall_cons in Hp. simpl. tauto. }
  apply sum_or_ok in Es as [-> Ht]; [|split; vm_compute; discriminate|done]. unfold u64 in *. split_and!; try lia. by exists query.
Qed.

Lemma kv_below_total current d : running_ok current -> d ∈ p_devices current -> d_kv d <= zsum (d_kv <$> p_devices current).
Proof.
  intros [Hr _ _ _]. induction Hr as [|x l [Hp _] Hl IH]; intros Hin; [by apply not_elem_of_nil in Hin|].
  unfold device_parts in Hp. rewrite !Forall_cons in Hp. destruct Hp as (_ & _ & Hx & _). rewrite fmap_cons. cbn [zsum foldr]. fold (zsum (d_kv <$> l)).
  assert (0 <= zsum (d_kv <$> l)).
  { apply zsum_nonneg, Forall_fmap. eapply Forall_impl; [exact Hl|]. intros y [Hp _]. unfold device_parts in Hp. rewrite !Forall_cons in Hp. unfold u64 in Hp. simpl. tauto. }
  unfold u64 in Hx. apply elem_of_cons in Hin as [->|Hin]; [lia|]. specialize (IH Hin). lia.
Qed.

(** Rows depend on the target through its transient fields. *)
Definition rows_fit (current target : plan) (context native total : Z) : Prop :=
  Forall2 (retargeted current target context native total) (p_devices current) (p_devices target).

Definition host_row_fits (target : plan) : Prop :=
  p_ram_capacity target <> 0 -> forall host, find_host (p_devices target) = Some host ->
  p_ram_planned target + (d_planned host - Z.min (d_planned host) (d_dense host)) <= p_ram_capacity target.

Lemma rows_kv_cover current target context native :
  running_ok current -> p_kv_native current = true -> 0 < native -> 0 < zsum (d_kv <$> p_devices current) ->
  rows_fit current target context native (zsum (d_kv <$> p_devices current)) -> native <= zsum (d_kv <$> p_devices target).
Proof.
  intros Hr Hn Hpos Ht HF. transitivity (zsum ((fun kv => ceil_div (kv * native) (zsum (d_kv <$> p_devices current))) <$> (d_kv <$> p_devices current))).
  - apply ceil_shares_cover; [|lia|done]. apply Forall_fmap. eapply Forall_impl; [apply Hr|].
    intros d [Hp _]. unfold device_parts in Hp. rewrite !Forall_cons in Hp. unfold u64 in Hp. simpl. tauto.
  - apply Z.eq_le_incl. f_equal. unfold rows_fit in HF. revert HF. clear Ht. generalize (zsum (d_kv <$> p_devices current)) as total. intros total HF.
    induction HF as [|d r ds rs [_ Hk _ _ _] HF IH]; [done|]. rewrite !fmap_cons, IH, Hk. unfold kv_rule. by rewrite Hn.
Qed.

Lemma rows_planned current target context native total devices host :
  Forall2 (retargeted current target context native total) (p_devices current) devices -> host ∈ devices -> Forall row_ok64 (p_devices current) ->
  u64 (d_planned host) /\ 0 <= d_dense host.
Proof.
  intros HF Hin Hr. induction HF as [|d r ds rs Hd HF IH]; [by apply not_elem_of_nil in Hin|].
  apply Forall_cons in Hr as [[Hp _] Hr]. apply elem_of_cons in Hin as [->|Hin]; [|auto]. split; [apply Hd|].
  destruct Hd as [(_ & _ & _ & -> & _) _ _ _ _]. unfold device_parts in Hp. rewrite !Forall_cons in Hp. apply Hp.
Qed.

Lemma find_host_in devices h : find_host devices = Some h -> h ∈ devices.
Proof. unfold find_host. intros ([n x] & (Hx & _)%list_find_Some & ->)%fmap_Some. simpl. by eapply list_elem_of_lookup_2. Qed.

(** A derived target is a valid plan.  The target context gives every slot
    the same whole number of tokens; row by row only KV, expert cache, transient
    bytes and the totals change, the parts add up without overflow to the planned
    bytes and planned bytes, headroom and reserve to the capacity; KV bytes are
    rescaled exactly and rounded up, so that natively sized shares never
    understate the native total; a shared transient device keeps its swap
    reserve and the host row still fits the RAM limit. *)
Theorem rebalance_target_contract current request target :
  running_ok current -> request_ok request -> rebalance_target current request = Ok target ->
  let context := wanted_context current request in
  p_context target = context /\ (p_slots current | context) /\ p_slots current <= context /\ host_row_fits target /\
  exists native, let total := zsum (d_kv <$> p_devices current) in
    rows_fit current target context native total /\
    (p_kv_native current = true -> exists query, p_kv_query current = Some query /\ native = query context /\
       native <= zsum (d_kv <$> p_devices target)).
Proof.
  intros Hr [Hqc Hqe]. unfold rebalance_target. destruct (negb _) eqn:E1; [|done]. fold (wanted_context current request).
  set (context := wanted_context current request). cbv zeta. destruct (negb (_ || negb _)) eqn:E2; [|done]. destruct (negb (_ && _ && _)) eqn:E3 at 1; [|done].
  destruct (retarget current request context) as [t0|] eqn:E4; [|done]. apply retarget_ok in E4 as (T1 & T2 & T3 & T4); [|done].
  destruct (native_totals current context) as [[native total]|] eqn:E5; [|done].
  pose proof (native_totals_ok _ _ _ _ Hr E5) as Hnat. clear E5. rewrite T2.
  destruct (map_result _ _) as [devices|] eqn:E6; [|done].
  assert (Hcu : u32 context) by (unfold context, wanted_context; destruct (rq_context request =? 0); [apply Hr|done]).
  assert (HF : Forall2 (retargeted current t0 context native total) (p_devices current) devices).
  { eapply map_result_Forall2; [|exact E6]. intros d r Hd. apply rebalance_device_ok; try done.
    - eapply Forall_forall in Hd; [exact Hd|apply Hr].
    - apply Hr.
    - intros Hn. destruct (Hnat Hn) as (N1 & N2 & N3 & _). split_and!; try lia. rewrite N2. by apply kv_below_total. }
  clear E6. destruct (negb (_ && _ && negb (existsb _ devices))) eqn:E7 at 1; [|done].
  destruct (negb (_ && _ && negb (existsb _ devices))) eqn:E8 at 1; [|done].
  set (t1 := t0 <| p_devices := devices |> <| p_reason := _ |>).
  assert (Hout : forall t, (match find_host devices with
      | Some host => if p_ram_capacity t1 =? 0 then Ok t1 else
          let? combined := sum_or "target host weights, caches, KV and workspace exceed the RAM budget" (p_ram_planned t1)
            [d_planned host - Z.min (d_planned host) (d_dense host)] in
          guard? negb (combined >? p_ram_capacity t1) else "target host weights, caches, KV and workspace exceed the RAM budget" in Ok t1
      | None => Ok t1 end) = Ok t -> t = t1 /\ host_row_fits t1).
  { intros t. unfold host_row_fits. change (p_devices t1) with devices. destruct (find_host devices) as [host|] eqn:Eh; [|by intros [= <-]].
    destruct (Z.eqb_spec (p_ram_capacity t1) 0); [by intros [= <-]|]. destruct (sum_or _ _ _) as [combined|] eqn:Es; [|done].
    destruct (negb (_ >? _)) eqn:El; [|done]. intros [= <-]. split; [done|]. intros _ h [= <-]. bool_facts.
    destruct (rows_planned _ _ _ _ _ _ host HF) as [Hh1 Hh2]; [by apply find_host_in|apply Hr|].
    injection T4 as T4 _ _ _. change (p_ram_planned t1) with (p_ram_planned t0) in *. rewrite T4 in *.
    apply sum_or_ok in Es as [-> _]; [cbn [zsum foldr] in *; lia| |apply Forall_singleton; unfold u64 in *; lia].
    pose proof (ru_bytes current Hr) as Hb. rewrite !Forall_cons in Hb. tauto. }
  intros [-> Hh]%Hout. change (p_context t1) with (p_context t0). split; [done|].
  apply negb_true_iff, orb_false_iff in E2 as [E2a E2b]. bool_facts.
  assert (Hs0 : p_slots current <> 0) by lia.
  split; [by apply Z.mod_divide|]. split; [lia|]. split; [done|]. exists native.
  assert (HF1 : rows_fit current t1 context native total).
  { eapply Forall2_impl; [exact HF|]. intros d r [R1 R2 R3 R4 R5]. split; try done. }
  destruct (p_kv_native current) eqn:En; [|split; [|done]].
  - destruct (Hnat eq_refl) as (N1 & N2 & N3 & query & N4 & N5). rewrite <- N2. split; [exact HF1|]. intros _. exists query. split_and!; try done.
    apply (rows_kv_cover current t1 context native Hr En); [lia|lia|]. rewrite <- N2. exact HF1.
  - eapply Forall2_impl; [exact HF1|]. intros d r [R1 R2 R3 R4 R5]. split; try done. rewrite R2. unfold kv_rule. by rewrite En.
Qed.

(** ** The preparation peak *)

(** What the report says about one pair of rows. *)
Record peak_row (kv expert transient : bool) (transient_device additional : Z) (pair : device_plan * device_plan) (k : device_peak) : Prop := {
  pk_id : k_id k = d_id pair.1 /\ k_capacity k = d_capacity pair.1 /\ k_reserve k = d_reserve pair.1;
  pk_live : k_current_live k = zsum (device_parts pair.1) /\ k_target_live k = zsum (device_parts pair.2);
  pk_peak : k_peak k = zsum (device_parts pair.1) + (if kv then d_kv pair.2 else 0) + (if expert then d_expert_cache pair.2 else 0)
    + (if transient && (d_id pair.1 =? transient_device) then additional else 0);
  pk_budget : k_reserve k + k_peak k + k_headroom k = k_capacity k /\ 0 <= k_headroom k /\ k_reserve k + k_target_live k <= k_capacity k;
}.

Lemma device_peak_ok kv expert transient dev additional pair k :
  row_ok64 pair.1 -> row_ok64 pair.2 -> u64 additional -> device_peak_of kv expert transient dev additional pair = Ok k ->
  peak_row kv expert transient dev additional pair k.
Proof.
  destruct pair as [live next]. intros [L1 [L2 L3]] [N1 _] Ha. cbn [fst snd] in *. unfold device_peak_of.
  destruct (negb (_ <? _)) eqn:E1; [|done]. destruct (sum_or _ 0 (device_parts live)) as [cl|] eqn:E2; [|done].
  apply sum_or_ok in E2 as [-> Hcl]; [|split; vm_compute; discriminate|done].
  destruct (sum_or _ 0 (device_parts next)) as [tl|] eqn:E3; [|done].
  apply sum_or_ok in E3 as [-> Htl]; [|split; vm_compute; discriminate|done]. rewrite !Z.add_0_l in *.
  destruct (_ && _) eqn:E4 at 1; [|done]. destruct (negb (_ || _)) eqn:E5 at 1; [|done].
  unfold device_parts in N1. rewrite !Forall_cons in N1. destruct N1 as (_ & _ & K3 & K4 & _).
  set (pk := if kv then d_kv next else 0). set (pe := if expert then d_expert_cache next else 0).
  set (pt := if transient && (d_id live =? dev) then additional else 0).
  assert (Hz : u64 0) by (split; vm_compute; discriminate).
  assert (Hl : Forall u64 [pk; pe; pt]) by (rewrite !Forall_cons; unfold pk, pe, pt; destruct kv, expert, (transient && (d_id live =? dev)); split_and!; done || constructor).
  destruct (sum_or _ (zsum (device_parts live)) _) as [peak|] eqn:E6; [|done]. apply sum_or_ok in E6 as [Hp Hpu]; [|done|done]. cbn [zsum foldr] in Hp.
  destruct (negb (_ >? _)) eqn:E7 at 1; [|done]. intros [= <-]. bool_facts.
  split; cbn [k_id k_capacity k_reserve k_current_live k_target_live k_peak k_headroom fst snd]; try done; fold pk pe pt; try lia. unfold device_parts in H2. cbn [zsum foldr] in H2. lia.
Qed.

(** Bytes of the transient owners while [o] is live and its successor is
    prepared. *)
Definition owner_need (force : bool) (current : plan) (policy : transient_policy) (o : owner) : Z :=
  owner_bytes current o +
  (if bool_decide (target_owner policy o <> owner_none) && (force || bool_decide (target_owner policy o <> o))
   then owner_bytes current (target_owner policy o) else 0).

Lemma owner_bytes_u64 p o : u64 (p_mtp p) -> u64 (p_multimodal p) -> u64 (owner_bytes p o).
Proof. intros. by destruct o. Qed.

Lemma owner_peaks_ok force current policy l start combined :
  u64 (p_mtp current) -> u64 (p_multimodal current) -> u64 start ->
  foldM (owner_peak force current policy) l start = Ok combined ->
  u64 combined /\ start <= combined /\ forall o, o ∈ l -> owner_need force current policy o <= combined.
Proof.
  intros H1 H2. revert start. induction l as [|o l IH]; intros start Hs; cbn [foldM].
  { intros [= <-]. split_and!; [done|lia|]. intros o Ho. by apply not_elem_of_nil in Ho. }
  unfold owner_peak at 1. set (swap := bool_decide _ && _).
  assert (Hthis : forall this, (if swap then sum_or "transient owner preparation peak overflows 64-bit accounting" (owner_bytes current o) [owner_bytes current (target_owner policy o)]
      else Ok (owner_bytes current o)) = Ok this -> this = owner_need force current policy o /\ u64 this).
  { intros this. unfold owner_need. fold swap. pose proof (owner_bytes_u64 current o H1 H2). pose proof (owner_bytes_u64 current (target_owner policy o) H1 H2).
    destruct swap; [|intros [= <-]; split; [lia|done]]. intros [-> Hu]%sum_or_ok; [|done|by apply Forall_singleton]. split; [cbn [zsum foldr]; lia|done]. }
  destruct (if swap then _ else _) as [this|]; [|done]. destruct (Hthis this eq_refl) as [-> Hu]. intros Hf.
  apply IH in Hf as (Hc & Hle & Ho); [|unfold u64 in *; lia]. split_and!; [done|lia|].
  intros o' [->|Hin]%elem_of_cons; [lia|by apply Ho].
Qed.

Lemma transient_additional_ok force current target additional :
  u64 (p_mtp current) -> u64 (p_multimodal current) -> Forall row_ok64 (p_devices current) ->
  transient_additional_peak force current target = Ok additional ->
  u64 additional /\ exists live, find_device (p_transient_device current) (p_devices current) = Some live /\
    forall o, o ∈ possible_owners force (p_transient_policy current) ->
      owner_need force current (p_transient_policy target) o <= d_transient live + additional.
Proof.
  intros H1 H2 Hrows. unfold transient_additional_peak. destruct (foldM _ _ _) as [combined|] eqn:E; [|done].
  apply owner_peaks_ok in E as (Hc & _ & Ho); [|done|done|split; vm_compute; discriminate].
  destruct (find_device _ _) as [live|] eqn:El; [|done]. intros [= <-].
  assert (Hl : 0 <= d_transient live).
  { unfold find_device in El. apply fmap_Some in El as ([n x] & (Hx & _)%list_find_Some & ->). simpl.
    destruct (Forall_lookup_1 _ _ _ _ Hrows Hx) as [Hd _]. unfold device_parts in Hd. rewrite !Forall_cons in Hd. unfold u64 in Hd. tauto. }
  destruct (combined >? d_transient live) eqn:E; bool_facts; (split; [unfold u64 in *; lia|]); exists live; (split; [done|]); intros o Hin; specialize (Ho o Hin); lia.
Qed.

(** *** The RAM figures *)

(** What the host rows hold beyond their weights at the peak. *)
Definition host_peak (rows : list (device_peak * device_plan)) : Z :=
  zsum ((fun row => k_peak row.1 - d_dense row.2) <$> filter (fun row => k_id row.1 < 0) rows).

Definition ram_bounds (capacity : Z) (r : ram_peak) : Prop := u64 (r_peak r) /\ u64 (r_current r) /\ u64 (r_target r) /\ u64 (r_usable r) /\ (capacity <> 0 -> r_usable r <= capacity).

Lemma ram_rows_ok capacity rows r forecast r' forecast' :
  ram_bounds capacity r -> u64 forecast ->
  Forall (fun row => row_ok64 row.2 /\ u64 (k_capacity row.1) /\ u64 (k_reserve row.1) /\ k_reserve row.1 <= k_capacity row.1 /\
    u64 (k_peak row.1) /\ d_dense row.2 <= k_peak row.1) rows ->
  foldM ram_row rows (r, forecast) = Ok (r', forecast') ->
  ram_bounds capacity r' /\ u64 forecast' /\ r_peak r' = r_peak r + host_peak rows /\ r_tracked_extra r' = r_tracked_extra r.
Proof.
  intros Hr Hf HF. revert r forecast Hr Hf. induction HF as [|[k live] rows Hk HF IH]; intros r forecast Hr Hf; cbn [foldM].
  { intros [= <- <-]. unfold host_peak. simpl. split_and!; try done; lia. }
  cbn [fst snd] in Hk. destruct Hk as ([Hp _] & K1 & K2 & K3 & K4 & K5). unfold device_parts in Hp. rewrite !Forall_cons in Hp.
  destruct Hp as (P1 & P2 & _). unfold ram_row at 1. destruct (k_id k >=? 0) eqn:Eid.
  { intros Hfold. destruct (IH r forecast Hr Hf Hfold) as (I1 & I2 & I3 & I4). split_and!; try done. rewrite I3. unfold host_peak.
    rewrite filter_cons_False; [done|]. cbn. bool_facts. lia. }
  destruct Hr as (R1 & R2 & R3 & R4 & R5).
  destruct (sum_or _ forecast _) as [f|] eqn:E1; [|done]. apply sum_or_ok in E1 as [_ Hfu]; [|done|by apply Forall_singleton].
  destruct (sum_or _ (r_current r) _) as [c|] eqn:E2; [|done]. apply sum_or_ok in E2 as [_ Hcu]; [|done|apply Forall_singleton, wrap64_u64].
  destruct (sum_or _ (r_target r) _) as [t|] eqn:E3; [|done]. apply sum_or_ok in E3 as [_ Htu]; [|done|apply Forall_singleton, wrap64_u64].
  destruct (sum_or _ (r_peak r) _) as [p|] eqn:E4; [|done]. apply sum_or_ok in E4 as [Hpk Hpu]; [|done|apply Forall_singleton, wrap64_u64].
  cbn [zsum foldr] in Hpk. rewrite wrap64_small in Hpk by (unfold u64 in *; lia). intros Hfold.
  apply IH in Hfold as (I1 & I2 & I3 & I4); [| |done].
  - split_and!; try done. transitivity (p + host_peak rows); [exact I3|]. unfold host_peak at 2.
    rewrite filter_cons_True by (cbn; bool_facts; lia). rewrite fmap_cons. cbn [zsum foldr fst snd]. fold (zsum ((fun row => k_peak row.1 - d_dense row.2) <$> filter (fun row => k_id row.1 < 0) rows)).
    unfold host_peak. lia.
  - set (usable := Z.min (r_usable r) (k_capacity k - k_reserve k)).
    change (u64 p /\ u64 c /\ u64 t /\ u64 usable /\ (capacity <> 0 -> usable <= capacity)).
    split_and!; try done; unfold usable, u64 in *; lia.
Qed.

Lemma ram_tracked_ok current target forecast h r r' capacity :
  ram_bounds capacity r -> ram_tracked current target forecast h r = Ok r' -> Forall u64 (ram_reservations current) -> u64 forecast ->
  u64 (p_ram_planned current) -> u64 (hm_weights h) -> u64 (hm_fixed h) -> u64 (hm_ple_cache h) -> u64 (r_tracked_extra r) ->
  ram_bounds capacity r' /\ r_peak r <= r_peak r'.
Proof.
  intros (R1 & R2 & R3 & R4 & R5) H Hres Hf Hp Hw Hx Hc Hte. unfold ram_tracked in H. destruct (bool_decide _); [|done].
  destruct (sum_or _ 0 _) as [other|] eqn:E1; [|done]. apply sum_or_ok in E1 as [_ Ho]; [|split; vm_compute; discriminate|done].
  destruct (negb _) eqn:E2; [|done]. bool_facts. pose proof Hres as Hres'. unfold ram_reservations in Hres'. rewrite !Forall_cons in Hres'.
  destruct Hres' as (Q1 & Q2 & Q3 & Q4 & Q5 & Q6 & Q7 & _).
  destruct (sum_or _ forecast _) as [fixed|] eqn:E3; [|done]. apply sum_or_ok in E3 as [_ Hfx]; [|done|rewrite !Forall_cons; split_and!; done || constructor].
  destruct (sum_or _ (r_tracked_extra r) _) as [extra|] eqn:E4; [|done].
  apply sum_or_ok in E4 as [_ Hex]; [|done|rewrite !Forall_cons; split_and!; (unfold u64 in *; lia) || constructor].
  destruct (sum_or _ (r_current r) _) as [c|] eqn:E5; [|done]. apply sum_or_ok in E5 as [_ Hcu]; [|done|by apply Forall_singleton].
  destruct (sum_or _ (r_target r) _) as [t|] eqn:E6; [|done]. apply sum_or_ok in E6 as [_ Htu]; [|done|by apply Forall_singleton].
  destruct (sum_or _ (r_peak r) _) as [p|] eqn:E7; [|done]. apply sum_or_ok in E7 as [Hpe Hpu]; [|done|by apply Forall_singleton].
  injection H as <-. split; [exact (conj Hpu (conj Hcu (conj Htu (conj R4 R5))))|]. change (r_peak r <= p). cbn [zsum foldr] in Hpe. unfold u64 in *. lia.
Qed.

Lemma ram_native_ok prepares n hc ht r r' capacity :
  ram_bounds capacity r -> u64 hc -> u64 ht -> u64 (kp_metadata n) -> u64 (kp_staging n) -> ram_native prepares n hc ht r = Ok r' ->
  ram_bounds capacity r' /\ r_peak r + hc + (if prepares then ht + kp_metadata n + kp_staging n else 0) <= r_peak r'.
Proof.
  intros (R1 & R2 & R3 & R4 & R5) Hc Ht Hm Hs. unfold ram_native.
  destruct (sum_or _ (r_current r) _) as [c|] eqn:E5; [|done]. apply sum_or_ok in E5 as [_ Hcu]; [|done|by apply Forall_singleton].
  destruct (sum_or _ (r_target r) _) as [t|] eqn:E6; [|done]. apply sum_or_ok in E6 as [_ Htu]; [|done|by apply Forall_singleton].
  destruct (sum_or _ (r_peak r) _) as [p|] eqn:E7; [|done]. apply sum_or_ok in E7 as [Hpe Hpu]; [|done|by apply Forall_singleton].
  cbn [zsum foldr] in Hpe. cbv zeta. destruct prepares.
  - change (r_peak (r <| r_current := c |> <| r_target := t |> <| r_peak := p |>)) with p.
    destruct (sum_or _ p _) as [p2|] eqn:E8; [|done]. apply sum_or_ok in E8 as [Hp2 Hp2u]; [|done|rewrite !Forall_cons; split_and!; done || constructor].
    cbn [zsum foldr] in Hp2. intros [= <-]. split; [exact (conj Hp2u (conj Hcu (conj Htu (conj R4 R5))))|]. change (r_peak r + hc + (ht + kp_metadata n + kp_staging n) <= p2). lia.
  - destruct (_ && _); [|done]. intros [= <-]. split; [exact (conj Hpu (conj Hcu (conj Htu (conj R4 R5))))|]. change (r_peak r + hc + 0 <= p). lia.
Qed.

Definition tracked_u64 (h : host_memory) : Prop := u64 (hm_weights h) /\ u64 (hm_fixed h) /\ u64 (hm_ple_cache h).

(** The RAM side of an admitted preparation: with a RAM limit, everything the
    host holds at the peak fits it. *)
Lemma ram_peak_ok current target prepares rows tracked native hc ht r :
  u64 (p_ram_capacity current) -> u64 (p_ram_planned current) -> u64 (p_ram_planned target) -> Forall u64 (ram_reservations current) ->
  Forall (fun row => row_ok64 row.2 /\ u64 (k_capacity row.1) /\ u64 (k_reserve row.1) /\ k_reserve row.1 <= k_capacity row.1 /\
    u64 (k_peak row.1) /\ d_dense row.2 <= k_peak row.1) rows ->
  (forall h, tracked = Some h -> tracked_u64 h) ->
  (forall n, native = Some n -> u64 hc /\ u64 ht /\ u64 (kp_metadata n) /\ u64 (kp_staging n)) ->
  ram_peak_of current target prepares rows tracked native hc ht = Ok r -> p_ram_capacity current <> 0 ->
  p_ram_planned current + host_peak rows +
    (match native with Some n => hc + (if prepares then ht + kp_metadata n + kp_staging n else 0) | None => 0 end) + r_headroom r
  <= p_ram_capacity current /\ 0 <= r_headroom r.
Proof.
  intros Hc Hp Ht Hres Hrows Htr Hnat H Hne. unfold ram_peak_of in H. apply Z.eqb_neq in Hne as Hne'. rewrite Hne' in H. cbn [andb negb] in H.
  set (r0 := empty_ram <| r_capacity := _ |> <| r_usable := _ |> <| r_current := _ |> <| r_target := _ |> <| r_peak := _ |>) in H.
  assert (Hb0 : ram_bounds (p_ram_capacity current) r0)
    by (change (u64 (p_ram_planned current) /\ u64 (p_ram_planned current) /\ u64 (p_ram_planned target) /\ u64 (p_ram_capacity current) /\ (p_ram_capacity current <> 0 -> p_ram_capacity current <= p_ram_capacity current)); split_and!; try done; lia).
  destruct (foldM ram_row rows (r0, 0)) as [[r1 forecast]|] eqn:E1; [|done].
  apply (ram_rows_ok (p_ram_capacity current)) in E1 as (B1 & F1 & P1 & X1); [|done|split; vm_compute; discriminate|done].
  change (r_peak r0) with (p_ram_planned current) in P1. change (r_tracked_extra r0) with 0 in X1.
  destruct (match tracked with Some h => ram_tracked current target forecast h r1 | None => Ok r1 end) as [r2|] eqn:E2; [|done].
  assert (Hr2 : ram_bounds (p_ram_capacity current) r2 /\ r_peak r1 <= r_peak r2).
  { destruct tracked as [h|]; [|injection E2 as <-; split; [done|lia]]. destruct (Htr h eq_refl) as (T1 & T2 & T3).
    eapply ram_tracked_ok; try done. rewrite X1. split; vm_compute; discriminate. }
  destruct Hr2 as [B2 P2]. destruct (match native with Some n => ram_native prepares n hc ht r2 | None => Ok r2 end) as [r3|] eqn:E3; [|done].
  assert (Hr3 : ram_bounds (p_ram_capacity current) r3 /\
    r_peak r2 + (match native with Some n => hc + (if prepares then ht + kp_metadata n + kp_staging n else 0) | None => 0 end) <= r_peak r3).
  { destruct native as [n|]; [|injection E3 as <-; split; [done|lia]]. destruct (Hnat n eq_refl) as (N1 & N2 & N3 & N4).
    destruct (ram_native_ok _ _ _ _ _ _ _ B2 N1 N2 N3 N4 E3) as [B3 P3]. split; [done|]. lia. }
  destruct Hr3 as [(_ & _ & _ & B4 & B5) P3]. destruct (negb (_ || _)) eqn:E4; [|done]. destruct (negb (r_peak r3 >? _)) eqn:E5; [|done].
  injection H as <-. change (r_headroom (r3 <| r_headroom := r_usable r3 - r_peak r3 |>)) with (r_usable r3 - r_peak r3). specialize (B5 Hne). bool_facts. lia.
Qed.

(** *** Native KV receipts *)

(** The row with its KV bytes taken from the receipt. *)
Definition realized_row (rows : list kv_row) (d r : device_plan) : Prop :=
  d_kv r = default 0 (kr_bytes <$> find_row (d_id d) rows) /\ d_id r = d_id d /\ d_capacity r = d_capacity d /\ d_reserve r = d_reserve d /\
  (d_dense r, d_graph r, d_expert_cache r, d_staging r, d_transient r) = (d_dense d, d_graph d, d_expert_cache d, d_staging d, d_transient d).

Lemma realize_rows_ok rows l devices planned ids devices' planned' ids' :
  foldM (realize_device rows) l (devices, planned, ids) = Ok (devices', planned', ids') ->
  exists tail, devices' = devices ++ tail /\ Forall2 (realized_row rows) l tail.
Proof.
  revert devices planned ids. induction l as [|d l IH]; intros devices planned ids; cbn [foldM].
  { intros [= <- <- <-]. exists []. split; [by rewrite app_nil_r|constructor]. }
  unfold realize_device at 1. destruct (negb _); [|done]. destruct (check_total _ _ d); [|done]. cbv zeta.
  destruct (retotal _ _) as [d'|] eqn:E; [|done]. unfold retotal in E. destruct (sum_or _ _ _) as [total|]; [|done]. injection E as <-.
  intros (tail & -> & HF)%IH. eexists. split; [by rewrite <- app_assoc|]. constructor; [by split_and!|exact HF].
Qed.

Lemma find_row_u64 rows id : Forall (fun r => u64 (kr_bytes r)) rows -> u64 (default 0 (kr_bytes <$> find_row id rows)).
Proof.
  intros HF. unfold find_row. destruct (list_find _ rows) as [[n x]|] eqn:E; simpl; [|split; vm_compute; discriminate].
  apply list_find_Some in E as (E & _). exact (Forall_lookup_1 _ _ _ _ HF E).
Qed.

Lemma realize_ok p rows p' host :
  Forall row_ok64 (p_devices p) -> Forall (fun r => u64 (kr_bytes r)) rows -> realize p rows = Ok (p', host) ->
  p' = p <| p_devices := p_devices p' |> /\ Forall2 (realized_row rows) (p_devices p) (p_devices p') /\ Forall row_ok64 (p_devices p') /\ u64 host.
Proof.
  intros Hp Hr. unfold realize. destruct (if forallb _ rows then _ else _) as [ids|]; [|done].
  destruct (foldM _ _ _) as [[[devices planned] ids']|] eqn:E; [|done]. apply realize_rows_ok in E as (tail & -> & HF).
  destruct (bool_decide (_ = _)); [|done]. intros [= <- <-]. split; [done|]. split; [exact HF|]. split; [|case_bool_decide; [by apply find_row_u64|split; vm_compute; discriminate]].
  change (Forall row_ok64 tail). clear - Hp Hr HF. induction HF as [|d r l tail (K1 & K2 & K3 & K4 & K5) HF IH]; [constructor|].
  apply Forall_cons in Hp as [[Hd [Hc Hs]] Hp]. constructor; [|auto]. injection K5 as D1 D2 D3 D4 D5.
  unfold row_ok64, device_parts in *. rewrite !Forall_cons in Hd. rewrite !Forall_cons. rewrite K1, K3, K4, D1, D2, D3, D4, D5.
  split; [|done]. split_and!; try tauto. by apply find_row_u64.
Qed.

(** ** Admission *)

Lemma differs_false f pairs pair : differs f pairs = false -> pair ∈ pairs -> f pair.1 = f pair.2.
Proof.
  unfold differs. intros H Hin. rewrite <- not_true_iff_false, existsb_exists in H. destruct pair as [live next]. cbn.
  destruct (Z.eq_dec (f live) (f next)) as [|Hne]; [done|]. exfalso. apply H. exists (live, next). split; [by apply list_elem_of_In|].
  apply negb_true_iff. by apply Z.eqb_neq.
Qed.

(** Everything an admitted preparation guarantees about two realized plans. *)
Record admitted (current target : plan) (force_transient : bool) (report : peak_report) (additional : Z) : Prop := {
  ad_rows : Forall2 (peak_row (pr_kv report) (pr_expert report) (pr_transient report) (p_transient_device current) additional)
    (zip (p_devices current) (p_devices target)) (pr_devices report);
  ad_kv : pr_kv report = false -> p_context current = p_context target /\
    Forall (fun pair => d_kv pair.1 = d_kv pair.2) (zip (p_devices current) (p_devices target));
  ad_expert : pr_expert report = false -> Forall (fun pair => d_expert_cache pair.1 = d_expert_cache pair.2) (zip (p_devices current) (p_devices target));
  ad_transient : pr_transient report = true -> exists live, find_device (p_transient_device current) (p_devices current) = Some live /\
    forall o, o ∈ possible_owners force_transient (p_transient_policy current) ->
      owner_need force_transient current (p_transient_policy target) o <= d_transient live + additional;
  ad_topology : Forall (fun pair => same_topology pair.1 pair.2 = true /\ same_fixed pair.1 pair.2 = true) (zip (p_devices current) (p_devices target));
}.

Lemma check_rows_ok pairs : check_rows pairs = Ok tt -> Forall (fun pair => same_topology pair.1 pair.2 = true /\ same_fixed pair.1 pair.2 = true) pairs.
Proof.
  unfold check_rows. induction pairs as [|[live next] pairs IH]; cbn [foldM]; [constructor|].
  destruct (same_topology live next) eqn:E1; [|done]. destruct (same_fixed live next) eqn:E2; [|done]. intros H. constructor; [done|auto].
Qed.

Record plan_ok64 (p : plan) : Prop := {
  po_rows : Forall row_ok64 (p_devices p);
  po_ram : u64 (p_ram_capacity p) /\ u64 (p_ram_planned p) /\ Forall u64 (ram_reservations p);
  po_modules : u64 (p_mtp p) /\ u64 (p_multimodal p);
}.

Lemma zip_Forall {A B} (P : A -> Prop) (Q : B -> Prop) l k : Forall P l -> Forall Q k -> Forall (fun x => P x.1 /\ Q x.2) (zip l k).
Proof. intros Hl. revert k. induction Hl; intros [|y k] Hk; simpl; try constructor; apply Forall_cons in Hk as [? ?]; auto. Qed.

Lemma peak_rows_ready kv expert transient dev additional current target devices :
  Forall row_ok64 current -> Forall row_ok64 target -> u64 additional -> length current = length target ->
  Forall2 (peak_row kv expert transient dev additional) (zip current target) devices ->
  Forall (fun row => row_ok64 row.2 /\ u64 (k_capacity row.1) /\ u64 (k_reserve row.1) /\ k_reserve row.1 <= k_capacity row.1 /\
    u64 (k_peak row.1) /\ d_dense row.2 <= k_peak row.1) (zip devices current).
Proof.
  intros Hc Ht Ha. revert target devices Ht. induction Hc as [|d current Hd Hc IH]; intros [|n target] devices Ht Hlen HF; try done.
  { inversion HF; subst. constructor. }
  simpl in HF. inversion HF as [|? k ? rest Hk HF']; subst. apply Forall_cons in Ht as [Hn Ht]. simpl. constructor; [|apply (IH target); [done|simpl in Hlen; lia|done]].
  destruct Hk as [(_ & K2 & K3) (K4 & K5) K6 (K7 & K8 & K9)]. cbn [fst snd] in *. destruct Hd as [Hp [Hcap Hres]]. pose proof Hp as Hp'.
  destruct Hn as [Hpn _]. unfold device_parts in Hp, Hpn. rewrite !Forall_cons in Hp, Hpn. destruct Hp as (D1 & D2 & D3 & D4 & D5 & D6 & _), Hpn as (_ & _ & N3 & N4 & _).
  unfold device_parts in K4, K5, K6. cbn [zsum foldr] in K4, K5, K6. rewrite K2, K3 in *. unfold u64 in *.
  assert (0 <= (if kv then d_kv n else 0) /\ 0 <= (if expert then d_expert_cache n else 0) /\ 0 <= (if transient && (d_id d =? dev) then additional else 0))
    by (destruct kv, expert, (transient && (d_id d =? dev)); lia).
  split; [exact (conj Hp' (conj Hcap Hres))|]. lia.
Qed.

Lemma realized_peak_ok current target fe ft tracked native hc ht report :
  plan_ok64 current -> plan_ok64 target -> (forall h, tracked = Some h -> tracked_u64 h) ->
  (forall n, native = Some n -> u64 hc /\ u64 ht /\ u64 (kp_metadata n) /\ u64 (kp_staging n)) ->
  realized_peak current target fe ft tracked native hc ht = Ok report ->
  exists additional, admitted current target ft report additional /\
    (p_ram_capacity current <> 0 ->
     p_ram_planned current + host_peak (zip (pr_devices report) (p_devices current)) +
       (match native with Some n => hc + (if pr_kv report then ht + kp_metadata n + kp_staging n else 0) | None => 0 end)
       + r_headroom (pr_ram report) <= p_ram_capacity current /\ 0 <= r_headroom (pr_ram report)).
Proof.
  intros [C1 (C2 & C3 & C4) [C5 C6]] [T1 (T2 & T3 & T4) _] Htr Hnat. unfold realized_peak.
  destruct (negb _ && _) eqn:E1; [|done]. apply andb_true_iff in E1 as [_ Elen%Nat.eqb_eq].
  destruct (ram_fields_equal current target); [|done]. destruct (host_metadata_fits current); [|done].
  destruct (transient_bounds_equal current target); [|done]. cbv zeta. set (pairs := zip (p_devices current) (p_devices target)).
  destruct (check_rows pairs) as [[]|] eqn:Erows; [|done]. apply check_rows_ok in Erows.
  set (kv := negb _ || differs d_kv pairs). set (expert := fe || _). set (transient := ft || _ || _ || _).
  destruct (if transient then transient_additional_peak ft current target else Ok 0) as [additional|] eqn:Ea; [|done].
  assert (Hadd : u64 additional /\ (transient = true -> exists live, find_device (p_transient_device current) (p_devices current) = Some live /\
    forall o, o ∈ possible_owners ft (p_transient_policy current) -> owner_need ft current (p_transient_policy target) o <= d_transient live + additional)).
  { destruct transient; [|injection Ea as <-; split; [split; vm_compute; discriminate|done]].
    apply transient_additional_ok in Ea as [Hu Ho]; try done. }
  destruct Hadd as [Hau Hown]. destruct (map_result _ pairs) as [devices|] eqn:Ed; [|done].
  assert (HF : Forall2 (peak_row kv expert transient (p_transient_device current) additional) pairs devices).
  { eapply map_result_Forall2; [|exact Ed]. intros pair k Hin. pose proof (zip_Forall _ _ _ _ C1 T1) as Hz. rewrite Forall_forall in Hz.
    destruct (Hz pair Hin). by apply device_peak_ok. }
  destruct (ram_peak_of _ _ _ _ _ _ _ _) as [ram|] eqn:Er; [|done]. intros [= <-]. exists additional. split.
  - split; cbn [pr_kv pr_expert pr_transient pr_devices]; try done.
    + unfold kv. intros Hkv%orb_false_iff. destruct Hkv as [Hkv1 Hkv2]. bool_facts. split; [done|]. apply Forall_forall. intros pair Hin. by apply (differs_false d_kv pairs).
    + unfold expert. intros [_ He]%orb_false_iff. apply Forall_forall. intros pair Hin. by apply (differs_false d_expert_cache pairs).
  - intros Hne. cbn [pr_devices pr_kv pr_ram]. eapply ram_peak_ok; try done. eapply peak_rows_ready; [exact C1|exact T1|exact Hau|exact Elen|exact HF].
Qed.

Definition receipt_u64 (n : kv_preparation) : Prop :=
  Forall (fun r => u64 (kr_bytes r)) (kp_current n) /\ Forall (fun r => u64 (kr_bytes r)) (kp_target n) /\ u64 (kp_metadata n) /\ u64 (kp_staging n).

(** The plans the admission is about: as given, or with the KV bytes of the
    native receipt. *)
Definition realizes (native : option kv_preparation) (current target live next : plan) (hc ht : Z) : Prop :=
  match native with
  | None => live = current /\ next = target /\ hc = 0 /\ ht = 0
  | Some n => realize current (kp_current n) = Ok (live, hc) /\ realize target (kp_target n) = Ok (next, ht)
  end.

(** C37: An admitted rebalance fits while both generations exist.  On every device
    everything live, plus complete copies of the KV and expert pools when any row
    changes them, plus the transient allowance stays below capacity minus
    reserve, and the target alone does too; pools that are not prepared are
    unchanged on every device.  The transient allowance covers every owner that
    can be live together with the owner prepared to follow it.  With a RAM limit
    the reservations, all host rows beyond their weights and the native KV,
    metadata and scratch of the replacement fit it together. *)
Theorem preparation_peak_admits_safely current target fe ft tracked native report :
  plan_ok64 current -> plan_ok64 target -> (forall h, tracked = Some h -> tracked_u64 h) -> (forall n, native = Some n -> receipt_u64 n) ->
  preparation_peak current target fe ft tracked native = Ok report ->
  exists live next hc ht additional, realizes native current target live next hc ht /\ admitted live next ft report additional /\
    (p_ram_capacity current <> 0 ->
     p_ram_planned current + host_peak (zip (pr_devices report) (p_devices live)) +
       (match native with Some n => hc + (if pr_kv report then ht + kp_metadata n + kp_staging n else 0) | None => 0 end)
       + r_headroom (pr_ram report) <= p_ram_capacity current /\ 0 <= r_headroom (pr_ram report)).
Proof.
  intros Hc Ht Htr Hn. unfold preparation_peak. destruct native as [n|].
  - destruct (Hn n eq_refl) as (N1 & N2 & N3 & N4).
    destruct (realize current (kp_current n)) as [[live hc]|] eqn:E1; [|done]. destruct (realize target (kp_target n)) as [[next ht]|] eqn:E2; [|done].
    intros H. pose proof E1 as E1'. pose proof E2 as E2'.
    apply realize_ok in E1' as (L1 & _ & L2 & L3); [|apply Hc|done]. apply realize_ok in E2' as (M1 & _ & M2 & M3); [|apply Ht|done].
    assert (Hcap : p_ram_capacity live = p_ram_capacity current /\ p_ram_planned live = p_ram_planned current) by (rewrite L1; done).
    destruct Hcap as [Hcap Hpl].
    destruct (realized_peak_ok live next fe ft tracked (Some n) hc ht report) as (additional & A1 & A2); try done.
    + split; [done|rewrite L1; apply Hc|rewrite L1; apply Hc].
    + split; [done|rewrite M1; apply Ht|rewrite M1; apply Ht].
    + intros n' [= <-]. done.
    + exists live, next, hc, ht, additional. split; [done|]. split; [done|]. by rewrite Hcap, Hpl in A2.
  - intros H. destruct (realized_peak_ok current target fe ft tracked None 0 0 report) as (additional & A1 & A2); try done.
    by exists current, target, 0, 0, additional.
Qed.

(** ** The switch *)

Definition stats_delta (s s' : transition_stats) (commit prepare_failure commit_failure : bool) : Prop :=
  let add (b : bool) x := if b then incr x else x in
  ts_attempts s' = incr (ts_attempts s) /\ ts_commits s' = add commit (ts_commits s) /\
  ts_rollbacks s' = add (negb commit) (ts_rollbacks s) /\ ts_prepare_failures s' = add prepare_failure (ts_prepare_failures s) /\
  ts_commit_failures s' = add commit_failure (ts_commit_failures s).

(** The plan switch is failure atomic under exceptions.  Whatever the
    callbacks do, return false or throw anything, it reports true exactly when
    preparation returned true and the commit returned: the plan is then the
    target and nothing was rolled back.  Otherwise the plan is the original, the
    rollback ran once, after the failing callback and even if it throws itself,
    the message is not empty, and exactly one failure counter moves with the
    rollback counter. *)
Theorem plan_switch_is_atomic {W} (prepare : plan -> W -> ending (bool * string) * W) (commit rollback : W -> ending unit * W)
    (current target : plan) (s : transition_stats) (w : W) :
  let '(ok, after, error, stats, w') := apply_plan_atomic prepare commit rollback current target (Some s) w in
  match prepare target w with
  | (returns (true, e), w1) =>
      match commit w1 with
      | (returns _, w2) => ok = true /\ after = target /\ error = e /\ w' = w2 /\ exists s', stats = Some s' /\ stats_delta s s' true false false
      | (_, w2) => ok = false /\ after = current /\ error <> "" /\ w' = (rollback w2).2 /\ exists s', stats = Some s' /\ stats_delta s s' false false true
      end
  | (_, w1) => ok = false /\ after = current /\ error <> "" /\ w' = (rollback w1).2 /\ exists s', stats = Some s' /\ stats_delta s s' false true false
  end.
Proof.
  unfold apply_plan_atomic, run_rollback, stats_delta. destruct s as [a c r p f].
  destruct (prepare target w) as [[[[] e]|what|] w1]; [destruct (commit w1) as [[u|what|] w2]|..]; cbn;
    (split_and!; try done; try (by case_bool_decide); eexists; split; [reflexivity|]; by cbn).
Qed.

(** ** Witnesses *)

Definition demo_plan : plan := Eval vm_compute in
  match plan_solve 33 (demo_input 131072 None demo_devices) with Ok p => p | Err _ => empty_plan end.

Definition demo_request : rebalance_request := mk_request 65536 true (2 * GiB) false transient_off.

Definition demo_target : plan := Eval vm_compute in match rebalance_target demo_plan demo_request with Ok p => p | Err _ => empty_plan end.

Lemma demo_running : running_ok demo_plan.
Proof.
  split; [repeat constructor; vm_compute; discriminate|repeat constructor; vm_compute; discriminate|repeat constructor; vm_compute; discriminate|].
  intros query c H. vm_compute in H. discriminate H.
Qed.

Lemma rebalance_target_contract_witness :
  rebalance_target demo_plan demo_request = Ok demo_target /\ p_context demo_target = 65536 /\ host_row_fits demo_target.
Proof.
  assert (H : rebalance_target demo_plan demo_request = Ok demo_target) by (vm_compute; reflexivity).
  split; [exact H|]. destruct (rebalance_target_contract demo_plan demo_request demo_target demo_running) as (H1 & _ & _ & H2 & _);
    [split; split; vm_compute; discriminate|exact H|]. split; [exact H1|exact H2].
Defined.

Lemma demo_plans_ok : plan_ok64 demo_plan /\ plan_ok64 demo_target.
Proof. split; (split; repeat constructor; vm_compute; discriminate). Qed.

Lemma preparation_peak_admits_safely_witness :
  exists report, preparation_peak demo_plan demo_target false false None None = Ok report /\
    exists additional, admitted demo_plan demo_target false report additional.
Proof.
  destruct (preparation_peak demo_plan demo_target false false None None) as [report|e] eqn:E; [|vm_compute in E; discriminate E].
  exists report. split; [reflexivity|]. destruct demo_plans_ok as [H1 H2].
  destruct (preparation_peak_admits_safely demo_plan demo_target false false None None report H1 H2) as (live & next & hc & ht & additional & (-> & -> & _) & H & _);
    [discriminate|discriminate|exact E|]. by exists additional.
Defined.
