(* ===== verification/Transient.v ===== *)
(** * The transient module manager

    Models [common_transient_module_manager] of
    [src/common/transient-module-manager.{h,cpp}]: modules (MTP, vision, ...)
    share a per-device byte budget; leases pin modules, evict idle ones and give
    the prior residency back, and a policy transaction changes budgets and
    enabled modules in prepare, publish, rollback, finalize and free steps.

    Every method holds the manager's mutex from entry to return (the two that
    take it more than once are written as their critical sections one after
    the other), so a run of the program is a sequence of calls.  A call is a
    computation of the state monad [M] over the manager; [GGML_ABORT] and an
    exception of [map::at] are outcomes of their own.  The module callbacks
    are not part of the manager: a [std::function] is an optional function on a
    world [W], and what it writes through its error pointer is part of its
    result.

    The [error] out parameter of a method receives the message that
    [fail_locked] also keeps in [last_failure]; texts that bypass [fail_locked]
    are part of the result.  Failing allocations ([std::bad_alloc]) and the
    latency counter are left out. *)

From S2P Require Import Prelude Accounting.
From stdpp Require Import strings pretty.
Open Scope string_scope.
Open Scope Z_scope.
Open Scope list_scope.

Definition succ64 (x : Z) : Z := wrap64 (x + 1).
Definition add64 (x y : Z) : Z := wrap64 (x + y).

(** The order in which a [std::map] or a [std::set] is walked. *)
Definition key_order {K A} (R : relation K) : relation (K * A) := fun a b => R a.1 b.1.
#[export] Instance key_order_dec {K A} (R : relation K) `{!RelDecision R} : RelDecision (key_order (A := A) R).
Proof. intros a b. unfold key_order. apply _. Defined.
Definition in_order {K A} (R : relation K) `{!RelDecision R} `{Countable K} (m : gmap K A) : list (K * A) :=
  merge_sort (key_order R) (map_to_list m).
Definition set_in_order (s : gset string) : list string := merge_sort String.le (elements s).

(** ** Data *)

Inductive module_kind := kind_mtp | kind_vision | kind_audio | kind_reranker | kind_embedding | kind_lora.

Record device_budget := mk_budget { b_capacity : Z; b_margin : Z }.
#[export] Instance device_budget_eq_dec : EqDecision device_budget.
Proof. solve_decision. Defined.
#[export] Instance device_budget_settable : Settable device_budget := fun b => mk_budget (b_capacity b) (b_margin b).

(** The callbacks used by the manager; [activate], [deactivate] and [streams] are
    stored and never read. *)
Record module_desc (W : Type) := mk_desc {
  md_id : string;
  md_kind : module_kind;
  md_device : Z;
  md_bytes : Z;
  md_initially_resident : bool;
  md_quiesce : option (W -> bool * W);
  md_resume : option (W -> W);
  md_prepare : option (bool -> W -> option Z * option string * W);
  md_publish : option (Z -> W -> bool * option string * W);
  md_rollback : option (Z -> W -> bool * option string * W);
  md_finalize : option (Z -> W -> bool * option string * W);
  md_free : option (Z -> W -> W);
}.
Global Arguments mk_desc {W}. Global Arguments md_id {W}. Global Arguments md_kind {W}. Global Arguments md_device {W}.
Global Arguments md_bytes {W}. Global Arguments md_initially_resident {W}. Global Arguments md_quiesce {W}.
Global Arguments md_resume {W}. Global Arguments md_prepare {W}. Global Arguments md_publish {W}.
Global Arguments md_rollback {W}. Global Arguments md_finalize {W}. Global Arguments md_free {W}.

Record module_entry (W : Type) := mk_module {
  m_desc : module_desc W;
  m_enabled : bool;
  m_resident : bool;
  m_last_use : Z;
  m_pins : Z;
}.
Global Arguments mk_module {W}. Global Arguments m_desc {W}. Global Arguments m_enabled {W}.
Global Arguments m_resident {W}. Global Arguments m_last_use {W}. Global Arguments m_pins {W}.
#[export] Instance module_settable W : Settable (module_entry W) :=
  fun m => mk_module (m_desc m) (m_enabled m) (m_resident m) (m_last_use m) (m_pins m).

(** [residency_transaction::transition]; the handle is never null. *)
Record transition := mk_transition { t_id : string; t_handle : Z; t_prior : bool; t_target : bool; t_published : bool }.
#[export] Instance transition_settable : Settable transition :=
  fun t => mk_transition (t_id t) (t_handle t) (t_prior t) (t_target t) (t_published t).

Record residency_transaction := mk_residency { rt_modules : list transition; rt_published : bool }.

(** [residency_epoch].  Epochs are shared by pointer between the leases and the
    manager; [e_ident] stands for the address. *)
Record residency_epoch := mk_epoch {
  re_ident : Z;
  re_activated : list string;
  re_evicted : list string;
  re_affected : list string;
  re_owners : residency_transaction;
  re_open_leases : Z;
  re_committed : bool;
}.
#[export] Instance epoch_settable : Settable residency_epoch := fun e =>
  mk_epoch (re_ident e) (re_activated e) (re_evicted e) (re_affected e) (re_owners e) (re_open_leases e) (re_committed e).

Record lease_entry := mk_lease { le_requested : list string; le_restore_prior : bool; le_epoch : option Z }.

Inductive policy_state := policy_prepared | policy_published | policy_rolled_back | policy_finalized.
#[export] Instance policy_state_eq_dec : EqDecision policy_state.
Proof. solve_decision. Defined.

(** [common_transient_policy_module_transition]; no handle when residency stays. *)
Record policy_transition := mk_policy_transition {
  pt_id : string;
  pt_handle : option Z;
  pt_prior_enabled : bool;
  pt_target_enabled : bool;
  pt_prior_resident : bool;
  pt_target_resident : bool;
  pt_published : bool;
}.
#[export] Instance policy_transition_settable : Settable policy_transition := fun t =>
  mk_policy_transition (pt_id t) (pt_handle t) (pt_prior_enabled t) (pt_target_enabled t) (pt_prior_resident t) (pt_target_resident t) (pt_published t).

(** [common_transient_policy_transaction].  A live transaction is the active one
    of its manager, and its [owner] is that manager. *)
Record policy_transaction := mk_policy_transaction {
  px_ident : Z;
  px_prior_policy : transient_policy;
  px_target_policy : transient_policy;
  px_state : policy_state;
  px_generation : Z;
  px_prior_budgets : gmap Z device_budget;
  px_target_budgets : gmap Z device_budget;
  px_modules : list policy_transition;
  px_poisoned : bool;
}.
#[export] Instance policy_transaction_settable : Settable policy_transaction := fun t =>
  mk_policy_transaction (px_ident t) (px_prior_policy t) (px_target_policy t) (px_state t) (px_generation t)
    (px_prior_budgets t) (px_target_budgets t) (px_modules t) (px_poisoned t).

(** The counters of [common_transient_module_telemetry] the manager keeps. *)
Record telemetry := mk_telemetry {
  tm_transactions : Z;
  tm_swaps : Z;
  tm_rollbacks : Z;
  tm_failures : Z;
  tm_oom_rejections : Z;
  tm_bytes_moved : Z;
  tm_last_failure : string;
}.
#[export] Instance telemetry_settable : Settable telemetry := fun t =>
  mk_telemetry (tm_transactions t) (tm_swaps t) (tm_rollbacks t) (tm_failures t) (tm_oom_rejections t) (tm_bytes_moved t) (tm_last_failure t).

(** [common_transient_module_manager] and the world its callbacks act on;
    [g_fresh] numbers the shared objects. *)
Record manager (W : Type) := mk_manager {
  g_budgets : gmap Z device_budget;
  g_modules : gmap string (module_entry W);
  g_telemetry : telemetry;
  g_clock : Z;
  g_next_lease_id : Z;
  g_leases : gmap Z lease_entry;
  g_epoch : option residency_epoch;
  g_policy : transient_policy;
  g_transaction : option policy_transaction;
  g_generation : Z;
  g_fresh : Z;
  g_world : W;
}.
Global Arguments mk_manager {W}. Global Arguments g_budgets {W}. Global Arguments g_modules {W}. Global Arguments g_telemetry {W}.
Global Arguments g_clock {W}. Global Arguments g_next_lease_id {W}. Global Arguments g_leases {W}. Global Arguments g_epoch {W}.
Global Arguments g_policy {W}. Global Arguments g_transaction {W}. Global Arguments g_generation {W}. Global Arguments g_fresh {W}.
Global Arguments g_world {W}.
#[export] Instance manager_settable W : Settable (manager W) := fun s =>
  mk_manager (g_budgets s) (g_modules s) (g_telemetry s) (g_clock s) (g_next_lease_id s) (g_leases s) (g_epoch s)
    (g_policy s) (g_transaction s) (g_generation s) (g_fresh s) (g_world s).

Definition make_manager {W} (budgets : gmap Z device_budget) (w : W) : manager W :=
  mk_manager budgets ∅ (mk_telemetry 0 0 0 0 0 0 "") 0 1 ∅ None transient_shared None 0 0 w.

(** ** The monad *)

Inductive outcome (W A : Type) :=
| Done (a : A) (s : manager W)
| Aborted (message : string)                (* GGML_ABORT *)
| Thrown (what : string) (s : manager W)
| Hangs.                                    (* a loop without end *)
Global Arguments Done {W A}. Global Arguments Aborted {W A}. Global Arguments Thrown {W A}. Global Arguments Hangs {W A}.

Definition M (W A : Type) : Type := manager W -> outcome W A.

#[export] Instance M_ret {W} : MRet (M W) := fun A a s => Done a s.
#[export] Instance M_bind {W} : MBind (M W) := fun A B k m s =>
  match m s with
  | Done a s => k a s
  | Aborted e => Aborted e
  | Thrown e s => Thrown e s
  | Hangs => Hangs
  end.

Definition get {W} : M W (manager W) := fun s => Done s s.
Definition modify {W} (f : manager W -> manager W) : M W unit := fun s => Done tt (f s).
Definition abort {W A} (message : string) : M W A := fun _ => Aborted message.

Fixpoint each {W A} (f : A -> M W unit) (l : list A) : M W unit :=
  match l with [] => mret tt | x :: l => f x ;; each f l end.

(** [modules_.at(id)]. *)
Definition at_module {W} (id : string) : M W (module_entry W) := fun s =>
  match g_modules s !! id with Some m => Done m s | None => Thrown "map::at" s end.
Definition set_module {W} (id : string) (f : module_entry W -> module_entry W) : M W unit :=
  m ← at_module id; modify (fun s => s <| g_modules ::= <[id := f m]> |>).

(** A call of a callback. *)
Definition call {W A} (f : W -> A * W) : M W A := fun s =>
  let '(a, w) := f (g_world s) in Done a (s <| g_world := w |>).

(** [*error] after a callback that may have written it. *)
Definition written (error : string) (text : option string) : string := default error text.

Definition count {W} (f : telemetry -> telemetry) : M W unit := modify (fun s => s <| g_telemetry ::= f |>).

Definition fail {W} (message : string) : M W unit :=
  count (fun t => t <| tm_failures ::= succ64 |> <| tm_last_failure := message |>).

Definition tick {W} : M W Z := fun s => let c := succ64 (g_clock s) in Done c (s <| g_clock := c |>).

(** ** Budgets and residency *)

Section manager.
Context {W : Type}.
Implicit Types (s : manager W) (m : module_entry W).

Definition budget_usable (budgets : gmap Z device_budget) (device : Z) : Z :=
  match budgets !! device with
  | Some b => if b_margin b >=? b_capacity b then 0 else b_capacity b - b_margin b
  | None => 0
  end.
Definition usable_bytes_locked s (device : Z) : Z := budget_usable (g_budgets s) device.

(** [map[key] += amount]. *)
Definition add_at (key amount : Z) (l : gmap Z Z) : gmap Z Z := <[key := add64 (default 0 (l !! key)) amount]> l.

Definition resident_bytes_locked s : gmap Z Z :=
  foldl (fun acc pair => if m_resident pair.2 then add_at (md_device (m_desc pair.2)) (md_bytes (m_desc pair.2)) acc else acc)
    ∅ (in_order String.le (g_modules s)).

Definition m_bytes m : Z := md_bytes (m_desc m).
Definition m_device m : Z := md_device (m_desc m).

(** ** Registration *)

Definition register_module (desc : module_desc W) : M W bool :=
  s ← get;
  if bool_decide (g_transaction s <> None) then fail "cannot register a transient module while policy reconfiguration is open" ;; mret false else
  if bool_decide (md_id desc = "") then fail "transient module id must not be empty" ;; mret false else
  if bool_decide (is_Some (g_modules s !! md_id desc)) then fail ("duplicate transient module: " +:+ md_id desc) ;; mret false else
  if bool_decide (g_budgets s !! md_device desc = None) then fail ("transient module references an unbudgeted device: " +:+ md_id desc) ;; mret false else
  if md_bytes desc >? usable_bytes_locked s (md_device desc) then fail ("transient module exceeds the device budget: " +:+ md_id desc) ;; mret false else
  now ← tick;
  modify (fun s => s <| g_modules ::= <[md_id desc := mk_module desc true (md_initially_resident desc) now 0]> |>) ;;
  s ← get;
  match resident_bytes_locked s !! md_device desc with
  | Some used =>
      if used >? usable_bytes_locked s (md_device desc)
      then modify (fun s => s <| g_modules ::= delete (md_id desc) |>) ;;
           fail ("initial transient residency exceeds the device budget: " +:+ md_id desc) ;; mret false
      else modify (fun s => s <| g_generation ::= succ64 |>) ;; mret true
  | None => modify (fun s => s <| g_generation ::= succ64 |>) ;; mret true
  end.

(** ** Callbacks in bulk *)

(** [resume_locked]: in reverse order. *)
Definition resume_one (id : string) : M W unit :=
  s ← get;
  match g_modules s !! id with
  | Some m => match md_resume (m_desc m) with Some f => call (fun w => (tt, f w)) | None => mret tt end
  | None => mret tt
  end.
Definition resume_locked (affected : list string) : M W unit := each resume_one (reverse affected).

(** Quiesce the modules in order; when one refuses, resume those that did not. *)
Fixpoint quiesce_each (ids quiesced : list string) : M W (result string (list string)) :=
  match ids with
  | [] => mret (Ok quiesced)
  | id :: ids =>
      m ← at_module id;
      ok ← match md_quiesce (m_desc m) with Some f => call f | None => mret true end;
      if (ok : bool) then quiesce_each ids (quiesced ++ [id]) else resume_locked quiesced ;; mret (Err id)
  end.

(** All five residency callbacks are there. *)
Definition prepared_callbacks (d : module_desc W) : bool :=
  bool_decide (is_Some (md_prepare d)) && bool_decide (is_Some (md_publish d)) && bool_decide (is_Some (md_rollback d)) &&
  bool_decide (is_Some (md_finalize d)) && bool_decide (is_Some (md_free d)).

(** Calling an empty [std::function] throws. *)
Definition empty_function {A} : M W A := fun s => Thrown "bad_function_call" s.

Definition call_prepare m (target : bool) : M W (option Z * option string) :=
  match md_prepare (m_desc m) with Some f => call (f target) | None => empty_function end.
Definition call_publish m (handle : Z) : M W (bool * option string) :=
  match md_publish (m_desc m) with Some f => call (f handle) | None => empty_function end.
Definition call_rollback m (handle : Z) : M W (bool * option string) :=
  match md_rollback (m_desc m) with Some f => call (f handle) | None => empty_function end.
Definition call_finalize m (handle : Z) : M W (bool * option string) :=
  match md_finalize (m_desc m) with Some f => call (f handle) | None => empty_function end.

(** The deleter of a handle. *)
Definition free_handle (id : string) (handle : Z) : M W unit :=
  m ← at_module id;
  match md_free (m_desc m) with Some f => call (fun w => (tt, f handle w)) | None => empty_function end.
Definition free_owners (l : list transition) : M W unit := each (fun t => free_handle (t_id t) (t_handle t)) l.

(** ** Residency transactions *)

(** The [prepare] calls of [prepare_residency_locked], evictions first.  When one
    fails the transaction goes out of scope, which frees its handles. *)
Fixpoint prepare_each (l : list (string * bool)) (prepared : list transition) (error : string)
    : M W (option (list transition) * string) :=
  match l with
  | [] => mret (Some prepared, error)
  | (id, target) :: l =>
      m ← at_module id;
      if negb (prepared_callbacks (m_desc m)) then
        free_owners prepared ;; mret (None, "transient module lacks exact prepared residency callbacks: " +:+ id) else
      '(prepared_handle, text) ← call_prepare m target;
      let error := written error text in
      match prepared_handle with
      | None =>
          free_owners prepared ;;
          mret (None, if bool_decide (error = "") then "failed to prepare transient module owner: " +:+ id else error)
      | Some handle => prepare_each l (prepared ++ [mk_transition id handle (m_resident m) target false]) error
      end
  end.

Definition prepare_residency_locked (evicted activated : list string) (error : string) : M W (option residency_transaction * string) :=
  '(prepared, error) ← prepare_each (((fun id => (id, false)) <$> evicted) ++ ((fun id => (id, true)) <$> activated)) [] error;
  mret ((fun l => mk_residency l false) <$> prepared, error).

(** Undo a partial publication, the last owner first. *)
Fixpoint unpublish (l : list transition) (error : string) : M W string :=
  match l with
  | [] => mret error
  | t :: l =>
      m ← at_module (t_id t);
      '(ok, text) ← call_rollback m (t_handle t);
      if (ok : bool) then unpublish l (written error text)
      else abort ("partial transient publication could not restore exact prior owner: " +:+ t_id t)
  end.

(** [published] holds the transitions published so far, the last first. *)
Fixpoint publish_each (l published : list transition) (error : string) : M W (option (list transition) * string) :=
  match l with
  | [] => mret (Some (reverse published), error)
  | t :: l =>
      m ← at_module (t_id t);
      '(ok, text) ← call_publish m (t_handle t);
      let error := written error text in
      if (ok : bool) then publish_each l (t <| t_published := true |> :: published) error else
      error ← unpublish published error;
      mret (None, if bool_decide (error = "") then "failed to publish transient module owner: " +:+ t_id t else error)
  end.

(** [module.resident = resident], the clock and the counters. *)
Definition settle (id : string) (resident : bool) : M W unit :=
  set_module id (fun m => m <| m_resident := resident |>) ;;
  (if resident then now ← tick; set_module id (fun m => m <| m_last_use := now |>) else mret tt) ;;
  m ← at_module id;
  count (fun t => t <| tm_swaps ::= succ64 |> <| tm_bytes_moved ::= fun b => add64 b (m_bytes m) |>).

Definition publish_residency_locked (tx : residency_transaction) (error : string) : M W (option residency_transaction * string) :=
  if rt_published tx then mret (None, "transient residency transaction is already published") else
  '(published, error) ← publish_each (rt_modules tx) [] error;
  match published with
  | None => mret (None, error)
  | Some l => each (fun t => settle (t_id t) (t_target t)) l ;; mret (Some (mk_residency l true), error)
  end.

Fixpoint rollback_each (l : list transition) : M W unit :=
  match l with
  | [] => mret tt
  | t :: l =>
      if negb (t_published t) then rollback_each l else
      m ← at_module (t_id t);
      '(ok, _) ← call_rollback m (t_handle t);
      if (ok : bool) then rollback_each l else abort ("published transient owner could not be restored exactly: " +:+ t_id t)
  end.

Definition unpublished (tx : residency_transaction) : residency_transaction :=
  mk_residency ((fun t => t <| t_published := false |>) <$> rt_modules tx) false.

Definition rollback_residency_locked (tx : residency_transaction) : M W (option residency_transaction) :=
  if negb (rt_published tx) then mret None else
  rollback_each (reverse (rt_modules tx)) ;;
  each (fun t => settle (t_id t) (t_prior t)) (rt_modules tx) ;;
  count (fun t => t <| tm_rollbacks ::= succ64 |>) ;;
  mret (Some (unpublished tx)).

(** [None] for success, else the error text. *)
Fixpoint finalize_each (l : list transition) (error : string) : M W (option string) :=
  match l with
  | [] => mret None
  | t :: l =>
      m ← at_module (t_id t);
      '(ok, text) ← call_finalize m (t_handle t);
      let error := written error text in
      if (ok : bool) then finalize_each l error
      else mret (Some (if bool_decide (error = "") then "failed to finalize transient owner: " +:+ t_id t else error))
  end.

Definition finalize_residency_locked (tx : residency_transaction) (error : string) : M W (option string) :=
  if negb (rt_published tx) then mret (Some "transient residency transaction is not published")
  else finalize_each (rt_modules tx) error.

(** ** Leases *)

(** The first loop of [acquire]: the requested set and the bytes needed per device. *)
Definition request_one (modules : gmap string (module_entry W)) (st : gset string * gmap Z Z) (id : string) : result string (gset string * gmap Z Z) :=
  match modules !! id with
  | None => Err ("unknown transient module: " +:+ id)
  | Some m =>
      guard? m_enabled m else ("transient module is disabled by the active policy: " +:+ id) in
      if bool_decide (id ∈ fst st) then Ok st else
      Ok ({[id]} ∪ fst st, if m_resident m then snd st else add_at (m_device m) (m_bytes m) (snd st))
  end.

(** Idle residents of a device, the least recently used first. *)
Definition older (a b : string * module_entry W) : Prop := m_last_use (snd a) <= m_last_use (snd b).
#[export] Instance older_dec : RelDecision older.
Proof. intros a b. unfold older. apply _. Defined.

Definition idle_resident (requested : gset string) (device : Z) (pair : string * module_entry W) : Prop :=
  m_resident (snd pair) = true /\ m_pins (snd pair) = 0 /\ m_device (snd pair) = device /\ fst pair ∉ requested.
#[export] Instance idle_resident_dec requested device pair : Decision (idle_resident requested device pair).
Proof. unfold idle_resident. apply _. Defined.

Definition candidates (modules : gmap string (module_entry W)) (requested : gset string) (device : Z) : list (string * module_entry W) :=
  merge_sort older (filter (idle_resident requested device) (in_order String.le modules)).

(** Take candidates until the request fits; the rest of [projected[device]]. *)
Fixpoint evict_idle (usable need : Z) (l : list (string * module_entry W)) (projected : Z) : list string * Z :=
  match l with
  | [] => ([], projected)
  | (id, m) :: l =>
      if add64 projected need <=? usable then ([], projected) else
      let '(evicted, projected) := evict_idle usable need l (wrap64 (projected - m_bytes m)) in (id :: evicted, projected)
  end.

(** One device of the second loop of [acquire]. *)
Definition make_room s (requested : gset string) (st : gmap Z Z * list string) (per_device : Z * Z) : result string (gmap Z Z * list string) :=
  let '(device, need) := per_device in
  let usable := usable_bytes_locked s device in
  guard? need <=? usable else "requested transient set exceeds the device budget" in
  let '(evicted, projected) := evict_idle usable need (candidates (g_modules s) requested device) (default 0 (fst st !! device)) in
  guard? add64 projected need <=? usable else ("insufficient evictable transient capacity on device " +:+ pretty device) in
  Ok (<[device := add64 projected need]> (fst st), snd st ++ evicted).

Definition not_resident (modules : gmap string (module_entry W)) (id : string) : Prop :=
  match modules !! id with Some m => m_resident m = false | None => False end.
#[export] Instance not_resident_dec modules id : Decision (not_resident modules id).
Proof. unfold not_resident. destruct (modules !! id); apply _. Defined.

(** [do lease_id = next_lease_id_++; while (...)]. *)
Fixpoint fresh_lease_id (fuel : nat) (leases : gmap Z lease_entry) (next : Z) : option (Z * Z) :=
  match fuel with
  | O => None
  | S fuel =>
      if (next =? 0) || bool_decide (is_Some (leases !! next)) then fresh_lease_id fuel leases (succ64 next)
      else Some (next, succ64 next)
  end.

Definition take_lease_id : M W Z := fun s =>
  match fresh_lease_id (S (S (size (g_leases s)))) (g_leases s) (g_next_lease_id s) with
  | Some (id, next) => Done id (s <| g_next_lease_id := next |>)
  | None => Hangs
  end.

Definition pin (id : string) : M W unit :=
  now ← tick; set_module id (fun m => m <| m_last_use := now |> <| m_pins ::= succ64 |>).

(** Open the epoch: publish its owners.  A refused publication takes the lease back
    and drops the prepared owners. *)
Definition open_epoch (lease_id : Z) (quiesced : list string) (e : residency_epoch) (owner_error : string) : M W bool :=
  '(owners, error) ← publish_residency_locked (re_owners e) owner_error;
  match owners with
  | Some owners => modify (fun s => s <| g_epoch := Some (e <| re_owners := owners |>) |>) ;; mret true
  | None =>
      modify (fun s => s <| g_leases ::= delete lease_id |>) ;;
      resume_locked quiesced ;;
      fail (if bool_decide (error = "") then "failed to publish exact transient owners" else error) ;;
      free_owners (rt_modules (re_owners e)) ;;
      mret false
  end.

(** The part of [acquire] after the owners are prepared; [epoch] is the epoch the
    lease opens or joins. *)
Definition lease_out (requested : gset string) (restore_prior : bool) (quiesced : list string)
    (epoch : option residency_epoch) (owner_error : string) : M W Z :=
  lease_id ← take_lease_id;
  modify (fun s => s <| g_leases ::= <[lease_id := mk_lease (set_in_order requested) restore_prior (re_ident <$> epoch)]> |>) ;;
  s ← get;
  published ← match epoch, g_epoch s with
              | Some e, None => open_epoch lease_id quiesced e owner_error
              | _, _ => mret true
              end;
  if negb published then mret 0 else
  (if epoch is Some _ then modify (fun s => s <| g_epoch ::= fmap (fun e => e <| re_open_leases ::= succ64 |>) |>) else mret tt) ;;
  each pin (set_in_order requested) ;;
  resume_locked quiesced ;;
  mret lease_id.

(** Does a request touch a module the epoch brought in? *)
Definition joins_epoch (requested : gset string) (e : residency_epoch) : bool :=
  existsb (fun id => bool_decide (id ∈ re_activated e)) (set_in_order requested).

(** Prepare the owners of a swap as a new epoch. *)
Definition prepare_epoch (evicted activated quiesced : list string) : M W (option (residency_epoch * string)) :=
  '(owners, error) ← prepare_residency_locked evicted activated "";
  match owners with
  | None =>
      resume_locked quiesced ;;
      fail (if bool_decide (error = "") then "failed to prepare exact transient owners" else error) ;;
      mret None
  | Some owners =>
      s ← get;
      modify (fun s => s <| g_fresh ::= Z.succ |>) ;;
      mret (Some (mk_epoch (g_fresh s) activated evicted (evicted ++ activated) owners 0 false, error))
  end.

Definition acquire (requested : list string) (restore_prior : bool) : M W Z :=
  count (fun t => t <| tm_transactions ::= succ64 |>) ;;
  s ← get;
  if bool_decide (g_transaction s <> None) then fail "transient module acquisition is blocked by policy reconfiguration" ;; mret 0 else
  match foldM (request_one (g_modules s)) requested (∅, ∅) with
  | Err message => fail message ;; mret 0
  | Ok (requested_set, needed) =>
      match foldM (make_room s requested_set) (in_order Z.le needed) (resident_bytes_locked s, []) with
      | Err message => count (fun t => t <| tm_oom_rejections ::= succ64 |>) ;; fail message ;; mret 0
      | Ok (_, evicted) =>
          let activated := filter (not_resident (g_modules s)) (set_in_order requested_set) in
          let affected := evicted ++ activated in
          if bool_decide (g_epoch s <> None) && bool_decide (affected <> []) then
            fail "transient owner swap is blocked until the active residency epoch resolves" ;; mret 0 else
          let joined := if g_epoch s is Some e then (if joins_epoch requested_set e then Some e else None) else None in
          q ← quiesce_each affected [];
          match q with
          | Err id => fail ("failed to quiesce transient module: " +:+ id) ;; mret 0
          | Ok quiesced =>
              if bool_decide (affected = []) then lease_out requested_set restore_prior quiesced joined "" else
              prepared ← prepare_epoch evicted activated quiesced;
              match prepared with
              | None => mret 0
              | Some (e, error) => lease_out requested_set restore_prior quiesced (Some e) error
              end
          end
      end
  end.

Definition unpin (id : string) : M W unit := set_module id (fun m => m <| m_pins ::= fun p => wrap64 (p - 1) |>).

(** The first module of a lease without a pin. *)
Fixpoint pin_underflow (ids : list string) : M W (option string) :=
  match ids with
  | [] => mret None
  | id :: ids => m ← at_module id; if m_pins m =? 0 then mret (Some id) else pin_underflow ids
  end.

(** The last lease of an epoch commits the new owners or restores the old ones; the
    handles go when the function returns. *)
Definition resolve_epoch (e : residency_epoch) (quiesced : list string) : M W unit :=
  (if re_committed e then
     r ← finalize_residency_locked (re_owners e) "";
     match r with
     | Some error => abort ("transient owner finalization invariant failed: " +:+ error)
     | None => mret tt
     end
   else
     r ← rollback_residency_locked (re_owners e);
     match r with
     | None => abort "transient owner rollback invariant failed: transient residency transaction is not published"
     | Some _ => mret tt
     end) ;;
  modify (fun s => s <| g_epoch := None |>) ;;
  resume_locked quiesced.

Definition retire (lease_id : Z) (lease : lease_entry) (success : bool) (epoch : option residency_epoch) (quiesced : list string) : M W bool :=
  modify (fun s => s <| g_leases ::= delete lease_id |>) ;;
  each unpin (le_requested lease) ;;
  match epoch with
  | None => mret tt
  | Some e =>
      let e := e <| re_committed ::= fun c => c || (success && negb (le_restore_prior lease)) |> <| re_open_leases ::= fun n => wrap64 (n - 1) |> in
      modify (fun s => s <| g_epoch := Some e |>) ;;
      if re_open_leases e =? 0 then resolve_epoch e quiesced else mret tt
  end ;;
  (if (success : bool) then mret tt else fail "transient module transaction body failed") ;;
  (if epoch is Some e then if re_open_leases e =? 1 then free_owners (rt_modules (re_owners e)) else mret tt else mret tt) ;;
  mret true.

Definition release (lease_id : Z) (success : bool) : M W bool :=
  s ← get;
  match g_leases s !! lease_id with
  | None => fail ("unknown transient module lease: " +:+ pretty lease_id) ;; mret false
  | Some lease =>
      underflow ← pin_underflow (le_requested lease);
      match underflow with
      | Some id => fail ("transient module pin underflow: " +:+ id) ;; mret false
      | None =>
          match le_epoch lease with
          | None => retire lease_id lease success None []
          | Some ident =>
              match g_epoch s with
              | Some e =>
                  if negb (re_ident e =? ident) || (re_open_leases e =? 0) then abort "transient lease references an invalid residency epoch" else
                  if negb (re_open_leases e =? 1) then retire lease_id lease success (Some e) [] else
                  q ← quiesce_each (re_affected e) [];
                  match q with
                  | Err id => fail ("failed to quiesce transient module while resolving residency epoch: " +:+ id) ;; mret false
                  | Ok quiesced => retire lease_id lease success (Some e) quiesced
                  end
              | None => abort "transient lease references an invalid residency epoch"
              end
          end
      end
  end.

(** [resolve_all_leases_for_shutdown]; [begin()] is the least key. *)
Fixpoint resolve_all_leases (fuel : nat) : M W bool :=
  match fuel with
  | O => fun _ => Hangs
  | S fuel =>
      s ← get;
      if bool_decide (g_transaction s <> None) then fail "cannot resolve request leases while policy reconfiguration is open" ;; mret false else
      match in_order Z.le (g_leases s) with
      | [] => if bool_decide (g_epoch s <> None) then abort "transient residency epoch has no owning leases at shutdown" else mret true
      | (lease_id, _) :: _ =>
          ok ← release lease_id false;
          if (ok : bool) then resolve_all_leases fuel else mret false
      end
  end.
Definition resolve_all_leases_for_shutdown : M W bool := fun s => resolve_all_leases (S (size (g_leases s))) s.

(** What the body of [run] does: it runs outside the mutex and may call the manager. *)
Inductive body_result := Returned (ok : bool) | Threw (what : option string).

(** The result and the text written to [*error] beside [last_failure]. *)
Definition run (requested : list string) (body : option (M W body_result)) (restore_prior : bool) : M W (bool * option string) :=
  lease_id ← acquire requested restore_prior;
  if lease_id =? 0 then mret (false, None) else
  r ← match body with Some b => b | None => mret (Returned true) end;
  released ← release lease_id (match r with Returned ok => ok | Threw _ => false end);
  s ← get;
  if negb released then abort ("transient run could not retire its hidden lease: " +:+ tm_last_failure (g_telemetry s)) else
  match r with
  | Returned ok => mret (ok, None)
  | Threw (Some what) => mret (false, Some ("transient module transaction body threw: " +:+ what))
  | Threw None => mret (false, Some "transient module transaction body threw an unknown exception")
  end.

(** ** Policy transactions *)

(** The aggregate MTP and multimodal modules; an empty string for none. *)
Definition policy_ids_step (st : string * string) (pair : string * module_entry W) : result string (string * string) :=
  match md_kind (m_desc (snd pair)) with
  | kind_mtp => guard? bool_decide (fst st = "") else "transient policy currently supports one aggregate MTP module" in Ok (fst pair, snd st)
  | kind_vision => guard? bool_decide (snd st = "") else "transient policy currently supports one aggregate multimodal module" in Ok (fst st, fst pair)
  | _ => Err "transient policy does not yet cover the registered module kind"
  end.

Definition enable_mtp (target : transient_policy) : bool :=
  match target with transient_shared | transient_mtp_only => true | _ => false end.
Definition enable_multimodal (target : transient_policy) : bool :=
  match target with transient_shared | transient_multimodal_only => true | _ => false end.
Definition target_enabled (target : transient_policy) (mtp_id id : string) : bool :=
  if bool_decide (id = mtp_id) then enable_mtp target else enable_multimodal target.

(** The loop over the two candidates for the resident module of a shared policy. *)
Definition prefer (modules : gmap string (module_entry W)) (preferred candidate : string) : string :=
  match modules !! candidate with
  | Some m =>
      if negb (bool_decide (candidate = "")) && m_resident m &&
         (bool_decide (preferred = "") || match modules !! preferred with Some p => m_last_use m >? m_last_use p | None => false end)
      then candidate else preferred
  | None => preferred
  end.

Definition preferred_module (modules : gmap string (module_entry W)) (target : transient_policy) (mtp_id multimodal_id : string) : string :=
  match target with
  | transient_off => ""
  | transient_mtp_only => mtp_id
  | transient_multimodal_only => multimodal_id
  | transient_shared =>
      let preferred := prefer modules (prefer modules "" mtp_id) multimodal_id in
      if bool_decide (preferred = "") then (if bool_decide (mtp_id = "") then multimodal_id else mtp_id) else preferred
  end.

(** The largest enabled module of a device. *)
Definition policy_required (target : transient_policy) (mtp_id : string) (device : Z) (l : list (string * module_entry W)) : Z :=
  foldl (fun required pair => if target_enabled target mtp_id (fst pair) && (m_device (snd pair) =? device)
                              then Z.max required (m_bytes (snd pair)) else required) 0 l.

Definition policy_budget (target : transient_policy) (mtp_id : string) (l : list (string * module_entry W))
    (budgets : gmap Z device_budget) (per_device : Z * device_budget) : result string (gmap Z device_budget) :=
  let '(device, b) := per_device in
  let required := policy_required target mtp_id device l in
  guard? required <=? UINT64_MAX - b_margin b else "transient policy capacity overflows the safety margin" in
  Ok (<[device := b <| b_capacity := required + b_margin b |>]> budgets).

Definition policy_row (target : transient_policy) (mtp_id preferred : string) (rows : list policy_transition)
    (pair : string * module_entry W) : result string (list policy_transition) :=
  let '(id, m) := pair in
  let target_resident := negb (bool_decide (preferred = "")) && bool_decide (id = preferred) in
  guard? Bool.eqb (m_resident m) target_resident || prepared_callbacks (m_desc m)
    else ("transient module lacks prepared residency callbacks: " +:+ id) in
  Ok (rows ++ [mk_policy_transition id None (m_enabled m) (target_enabled target mtp_id id) (m_resident m) target_resident false]).

(** What [prepare_policy] computes before it calls a module: the target budgets
    and the transitions, evictions first. *)
Definition policy_plan s (target : transient_policy) : result string (gmap Z device_budget * list policy_transition) :=
  let l := in_order String.le (g_modules s) in
  let? (mtp_id, multimodal_id) := foldM policy_ids_step l ("", "") in
  guard? negb (enable_mtp target && bool_decide (mtp_id = "")) else "requested transient policy requires a configured MTP module" in
  guard? negb (enable_multimodal target && bool_decide (multimodal_id = "")) else "requested transient policy requires a configured multimodal module" in
  let preferred := preferred_module (g_modules s) target mtp_id multimodal_id in
  let? budgets := foldM (policy_budget target mtp_id l) (in_order Z.le (g_budgets s)) (g_budgets s) in
  let? rows := foldM (policy_row target mtp_id preferred) l [] in
  Ok (budgets, filter (fun t => pt_target_resident t = false) rows ++ filter (fun t => pt_target_resident t = true) rows).

Definition moves (t : policy_transition) : bool := negb (Bool.eqb (pt_prior_resident t) (pt_target_resident t)).

Definition free_policy_owners (l : list policy_transition) : M W unit :=
  each (fun t => if pt_handle t is Some handle then free_handle (pt_id t) handle else mret tt) l.

(** [Err] carries the module that refused and the rows prepared before it. *)
Fixpoint prepare_rows (l prepared : list policy_transition) : M W (result (string * list policy_transition) (list policy_transition)) :=
  match l with
  | [] => mret (Ok prepared)
  | t :: l =>
      if negb (moves t) then prepare_rows l (prepared ++ [t]) else
      m ← at_module (pt_id t);
      '(handle, _) ← call_prepare m (pt_target_resident t);
      match handle with
      | None => mret (Err (pt_id t, prepared))
      | Some handle => prepare_rows l (prepared ++ [t <| pt_handle := Some handle |>])
      end
  end.

(** The identity of the transaction, [None] for the null pointer. *)
Definition prepare_policy (target : transient_policy) : M W (option Z) :=
  count (fun t => t <| tm_transactions ::= succ64 |>) ;;
  s ← get;
  if bool_decide (g_transaction s <> None) then fail "another transient policy transaction is already open" ;; mret None else
  if bool_decide (g_leases s <> ∅) || bool_decide (g_epoch s <> None) then
    fail "transient policy reconfiguration requires no active leases or residency epoch" ;; mret None else
  match policy_plan s target with
  | Err message => fail message ;; mret None
  | Ok (budgets, rows) =>
      q ← quiesce_each (pt_id <$> filter (fun t => moves t = true) rows) [];
      match q with
      | Err id => fail ("failed to quiesce transient module for policy preparation: " +:+ id) ;; mret None
      | Ok quiesced =>
          r ← prepare_rows rows [];
          match r with
          | Err (id, prepared) =>
              resume_locked quiesced ;;
              fail ("failed to prepare transient module residency: " +:+ id) ;;
              free_policy_owners prepared ;; mret None
          | Ok rows =>
              resume_locked quiesced ;;
              s ← get;
              modify (fun s => s <| g_fresh ::= Z.succ |> <| g_transaction := Some (mk_policy_transaction (g_fresh s) (g_policy s) target
                policy_prepared (g_generation s) (g_budgets s) budgets rows false) |>) ;;
              mret (Some (g_fresh s))
          end
      end
  end.

(** The transaction behind a pointer that passes the checks every step makes. *)
Definition active_transaction s (handle : option Z) (state : policy_state) : option policy_transaction :=
  match handle, g_transaction s with
  | Some ident, Some tx =>
      if (px_ident tx =? ident) && negb (px_poisoned tx) && bool_decide (px_state tx = state) then Some tx else None
  | _, _ => None
  end.

Definition moved m : M W unit := count (fun t => t <| tm_swaps ::= succ64 |> <| tm_bytes_moved ::= fun b => add64 b (m_bytes m) |>).

(** Roll back the rows published before a refusal, the last first.  The result:
    the rows as left (in order), whether all were restored, whether any was. *)
Fixpoint restore_rows (l after : list policy_transition) (restored any : bool) : M W (list policy_transition * bool * bool) :=
  match l with
  | [] => mret (after, restored, any)
  | t :: l =>
      match (if pt_published t then pt_handle t else None) with
      | None => restore_rows l (t :: after) restored any
      | Some handle =>
          m ← at_module (pt_id t);
          '(ok, _) ← call_rollback m handle;
          if (ok : bool) then moved m ;; restore_rows l (t <| pt_published := false |> :: after) restored true
          else restore_rows l (t :: after) false any
      end
  end.

(** [published] are the rows already passed, the last first; [Err] when one refused. *)
Fixpoint publish_rows (l published : list policy_transition) : M W (result (list policy_transition * bool * string) (list policy_transition)) :=
  match l with
  | [] => mret (Ok (reverse published))
  | t :: l =>
      match pt_handle t with
      | None => publish_rows l (t :: published)
      | Some handle =>
          m ← at_module (pt_id t);
          '(ok, _) ← call_publish m handle;
          if (ok : bool) then moved m ;; publish_rows l (t <| pt_published := true |> :: published) else
          '(rows, restored, any) ← restore_rows published (t :: l) true false;
          (if (any : bool) then count (fun t => t <| tm_rollbacks ::= succ64 |>) else mret tt) ;;
          mret (Err (rows, restored, pt_id t))
      end
  end.

(** [module.enabled], [module.resident] and the clock. *)
Definition place (id : string) (enabled resident : bool) : M W unit :=
  set_module id (fun m => m <| m_enabled := enabled |> <| m_resident := resident |>) ;;
  if resident then now ← tick; set_module id (fun m => m <| m_last_use := now |>) else mret tt.

(** [budgets_.at(device) = budget] for each; [at] throws for an unknown device. *)
Definition set_budget (pair : Z * device_budget) : M W unit := fun s =>
  if bool_decide (is_Some (g_budgets s !! fst pair)) then Done tt (s <| g_budgets ::= <[fst pair := snd pair]> |>)
  else Thrown "map::at" s.
Definition set_budgets (budgets : gmap Z device_budget) : M W unit := each set_budget (in_order Z.le budgets).

Definition store_transaction (tx : policy_transaction) : M W unit := modify (fun s => s <| g_transaction := Some tx |>).

Definition publish_policy (handle : option Z) : M W bool :=
  s ← get;
  match active_transaction s handle policy_prepared with
  | None => fail "invalid prepared transient policy transaction" ;; mret false
  | Some tx =>
      if negb (px_generation tx =? g_generation s) then fail "invalid prepared transient policy transaction" ;; mret false else
      if bool_decide (g_leases s <> ∅) || bool_decide (g_epoch s <> None) then
        fail "transient policy publication lost its exclusive safe point" ;; mret false else
      r ← publish_rows (px_modules tx) [];
      match r with
      | Err (rows, restored, id) =>
          store_transaction (tx <| px_modules := rows |> <| px_poisoned := negb restored |>) ;;
          fail (if (restored : bool) then "failed to publish transient module residency: " +:+ id
                else "transient policy publication could not restore prior owners") ;; mret false
      | Ok rows =>
          each (fun t => place (pt_id t) (pt_target_enabled t) (pt_target_resident t)) rows ;;
          set_budgets (px_target_budgets tx) ;;
          modify (fun s => s <| g_policy := px_target_policy tx |>) ;;
          store_transaction (tx <| px_modules := rows |> <| px_state := policy_published |>) ;; mret true
      end
  end.

(** Publish again the rows rolled back before a refusal. *)
Fixpoint redo_rows (l redone : list policy_transition) (republished : bool) : M W (list policy_transition * bool) :=
  match l with
  | [] => mret (redone, republished)
  | t :: l =>
      match (if pt_published t then None else pt_handle t) with
      | None => redo_rows l (redone ++ [t]) republished
      | Some handle =>
          m ← at_module (pt_id t);
          '(ok, _) ← call_publish m handle;
          (if (ok : bool) then moved m else mret tt) ;;
          redo_rows l (redone ++ [t <| pt_published := ok |>]) (republished && ok)
      end
  end.

(** From the last row to the first; [after] are the rows already passed, in order. *)
Fixpoint rollback_rows (l after : list policy_transition) : M W (result (list policy_transition * bool * string) (list policy_transition)) :=
  match l with
  | [] => mret (Ok after)
  | t :: l =>
      match (if pt_published t then pt_handle t else None) with
      | None => rollback_rows l (t :: after)
      | Some handle =>
          m ← at_module (pt_id t);
          '(ok, _) ← call_rollback m handle;
          if (ok : bool) then moved m ;; rollback_rows l (t <| pt_published := false |> :: after) else
          '(redone, republished) ← redo_rows after [] true;
          mret (Err (reverse l ++ t :: redone, republished, pt_id t))
      end
  end.

Definition rollback_policy (handle : option Z) : M W bool :=
  s ← get;
  match active_transaction s handle policy_published with
  | None => fail "invalid published transient policy transaction" ;; mret false
  | Some tx =>
      r ← rollback_rows (reverse (px_modules tx)) [];
      match r with
      | Err (rows, republished, id) =>
          store_transaction (tx <| px_modules := rows |> <| px_poisoned := negb republished |>) ;;
          fail (if (republished : bool) then "failed to roll back transient module residency: " +:+ id
                else "transient policy rollback could not restore published owners") ;; mret false
      | Ok rows =>
          each (fun t => place (pt_id t) (pt_prior_enabled t) (pt_prior_resident t)) rows ;;
          set_budgets (px_prior_budgets tx) ;;
          modify (fun s => s <| g_policy := px_prior_policy tx |>) ;;
          store_transaction (tx <| px_modules := rows |> <| px_state := policy_rolled_back |>) ;;
          count (fun t => t <| tm_rollbacks ::= succ64 |>) ;; mret true
      end
  end.

(** The first row whose owner does not finalize. *)
Fixpoint finalize_rows (l : list policy_transition) : M W (option string) :=
  match l with
  | [] => mret None
  | t :: l =>
      match pt_handle t with
      | None => finalize_rows l
      | Some handle =>
          m ← at_module (pt_id t);
          '(ok, _) ← call_finalize m handle;
          if (ok : bool) then finalize_rows l else mret (Some (pt_id t))
      end
  end.

Definition finalize_policy (handle : option Z) : M W bool :=
  s ← get;
  match active_transaction s handle policy_published with
  | None => fail "invalid published transient policy transaction finalization" ;; mret false
  | Some tx =>
      r ← finalize_rows (px_modules tx);
      match r with
      | Some id =>
          store_transaction (tx <| px_poisoned := true |>) ;;
          fail ("transient module owner finalization failed: " +:+ id) ;; mret false
      | None => store_transaction (tx <| px_state := policy_finalized |>) ;; mret true
      end
  end.

(** A pointer that is not the active transaction is a foreign one (a deleted
    transaction may not be passed). *)
Definition free_policy (handle : option Z) : M W (bool * option string) :=
  match handle with
  | None => mret (true, None)
  | Some ident =>
      s ← get;
      match g_transaction s with
      | Some tx =>
          if negb (px_ident tx =? ident) || px_poisoned tx then
            mret (false, Some "cannot free a poisoned or foreign transient policy transaction") else
          rolled ← (if bool_decide (px_state tx = policy_published) then rollback_policy handle else mret true);
          if negb rolled then mret (false, None) else
          s ← get;
          match g_transaction s with
          | Some tx =>
              free_policy_owners (px_modules tx) ;;
              modify (fun s => s <| g_transaction := None |>) ;;
              (if bool_decide (px_state tx = policy_finalized) then modify (fun s => s <| g_generation ::= succ64 |>) else mret tt) ;;
              mret (true, None)
          | None => mret (true, None)
          end
      | None => mret (false, Some "cannot free a poisoned or foreign transient policy transaction")
      end
  end.

(** ** Observers *)

Record module_status := mk_status { st_id : string; st_kind : module_kind; st_device : Z; st_bytes : Z; st_enabled : bool; st_resident : bool; st_pins : Z }.

Record snapshot_report := mk_snapshot {
  sn_telemetry : telemetry;
  sn_modules : list module_status;
  sn_resident_bytes : gmap Z Z;
  sn_budgets : gmap Z device_budget;
  sn_policy : transient_policy;
  sn_active_leases : Z;
  sn_pending_restores : Z;
  sn_reconfiguration_open : bool;
}.

Definition snapshot s : snapshot_report :=
  mk_snapshot (g_telemetry s)
    ((fun pair => mk_status (fst pair) (md_kind (m_desc (snd pair))) (m_device (snd pair)) (m_bytes (snd pair)) (m_enabled (snd pair)) (m_resident (snd pair)) (m_pins (snd pair)))
       <$> in_order String.le (g_modules s))
    (resident_bytes_locked s) (g_budgets s) (g_policy s) (Z.of_nat (size (g_leases s)))
    (match g_epoch s with Some e => if re_committed e then 0 else 1 | None => 0 end)
    (bool_decide (g_transaction s <> None)).

Definition module_enabled s (id : string) : bool :=
  match g_modules s !! id with
  | None => false
  | Some m =>
      match g_transaction s with
      | Some tx => match list_find (fun t => pt_id t = id) (px_modules tx) with Some (_, t) => pt_prior_enabled t | None => m_enabled m end
      | None => m_enabled m
      end
  end.

(** ** Runs *)

Inductive event :=
| Register (desc : module_desc W)
| Acquire (requested : list string) (restore_prior : bool)
| Release (lease_id : Z) (success : bool)
| PreparePolicy (target : transient_policy)
| PublishPolicy (handle : option Z)
| RollbackPolicy (handle : option Z)
| FinalizePolicy (handle : option Z)
| FreePolicy (handle : option Z)
| Shutdown.

Inductive response := Answer (b : bool) | Lease (id : Z) | Handle (h : option Z).

Definition exec (e : event) : M W response :=
  match e with
  | Register desc => b ← register_module desc; mret (Answer b)
  | Acquire requested restore_prior => id ← acquire requested restore_prior; mret (Lease id)
  | Release lease_id success => b ← release lease_id success; mret (Answer b)
  | PreparePolicy target => h ← prepare_policy target; mret (Handle h)
  | PublishPolicy h => b ← publish_policy h; mret (Answer b)
  | RollbackPolicy h => b ← rollback_policy h; mret (Answer b)
  | FinalizePolicy h => b ← finalize_policy h; mret (Answer b)
  | FreePolicy h => '(b, _) ← free_policy h; mret (Answer b)
  | Shutdown => b ← resolve_all_leases_for_shutdown; mret (Answer b)
  end.
End manager.
Global Arguments event : clear implicits.
