(* ===== verification/TransientRoom.v ===== *)
(** * Room for a lease

    The byte accounting of the transient module manager: [resident_bytes_locked]
    is the sum of the resident modules of a device, and when the planning part of
    [acquire] succeeds, the modules it evicts and activates keep every device
    within its usable bytes. *)

From S2P Require Import Prelude Accounting Transient.
From stdpp Require Import strings pretty.
Open Scope string_scope.
Open Scope Z_scope.
Open Scope list_scope.

Section room.
Context {W : Type}.
Implicit Types (s : manager W) (m : module_entry W) (ms : gmap string (module_entry W)) (rs : gset string).

(** ** Totals *)

Definition resident_on (d : Z) m : Z := if m_resident m && (m_device m =? d) then m_bytes m else 0.
Definition resident_total ms (d : Z) : Z := msum (fun _ m => resident_on d m) ms.
Definition bytes_total ms : Z := msum (fun _ m => m_bytes m) ms.

(** What the requested modules that are not resident need on a device. *)
Definition need_total ms rs (d : Z) : Z :=
  msum (fun k m => if bool_decide (k ∈ rs) && negb (m_resident m) && (m_device m =? d) then m_bytes m else 0) ms.
(** What evicting the listed modules frees on a device. *)
Definition evict_total ms (ids : list string) (d : Z) : Z :=
  msum (fun k m => if bool_decide (k ∈ ids) && (m_device m =? d) then m_bytes m else 0) ms.

Definition sized ms : Prop := (forall k m, ms !! k = Some m -> 0 <= m_bytes m) /\ bytes_total ms <= UINT64_MAX.

Lemma need_resident_bound ms rs d : sized ms -> 0 <= need_total ms rs d /\ 0 <= resident_total ms d /\
  resident_total ms d + need_total ms rs d <= UINT64_MAX.
Proof.
  intros [Hpos Htot]. unfold need_total, resident_total, resident_on. split_and!.
  - apply msum_nonneg. intros k m Hm. specialize (Hpos k m Hm). destruct (_ && _); lia.
  - apply msum_nonneg. intros k m Hm. specialize (Hpos k m Hm). destruct (_ && _); lia.
  - rewrite <- msum_add. etransitivity; [|exact Htot]. apply msum_le. intros k m Hm. specialize (Hpos k m Hm).
    destruct (m_resident m), (bool_decide _), (m_device m =? d); simpl; lia.
Qed.

(** ** Walking a map in order *)

Lemma in_order_perm {K A} (R : relation K) `{!RelDecision R} `{Countable K} (mp : gmap K A) : in_order R mp ≡ₚ map_to_list mp.
Proof. apply merge_sort_Permutation. Qed.

Lemma elem_of_in_order {K A} (R : relation K) `{!RelDecision R} `{Countable K} (mp : gmap K A) k x :
  (k, x) ∈ in_order R mp <-> mp !! k = Some x.
Proof. rewrite in_order_perm. apply elem_of_map_to_list. Qed.

Lemma NoDup_in_order {K A} (R : relation K) `{!RelDecision R} `{Countable K} (mp : gmap K A) : NoDup (fst <$> in_order R mp).
Proof. rewrite in_order_perm. apply NoDup_fst_map_to_list. Qed.

Lemma msum_in_order {A} (R : relation string) `{!RelDecision R} (f : string -> A -> Z) (mp : gmap string A) :
  zsum ((fun kx => f kx.1 kx.2) <$> in_order R mp) = msum f mp.
Proof. rewrite <- msum_list. apply zsum_perm. by rewrite in_order_perm. Qed.

Lemma elem_of_set_in_order rs id : id ∈ set_in_order rs <-> id ∈ rs.
Proof. unfold set_in_order. rewrite merge_sort_Permutation. apply elem_of_elements. Qed.

Lemma NoDup_set_in_order rs : NoDup (set_in_order rs).
Proof. unfold set_in_order. rewrite merge_sort_Permutation. apply NoDup_elements. Qed.

(** ** The resident bytes of a device *)

Lemma add_at_lookup l key amount d :
  default 0 (add_at key amount l !! d) = if key =? d then add64 (default 0 (l !! d)) amount else default 0 (l !! d).
Proof.
  unfold add_at. destruct (key =? d) eqn:E; bool_facts; [subst; by rewrite lookup_insert_eq|by rewrite lookup_insert_ne].
Qed.

Lemma add64_wrap a b c : wrap64 a = b -> add64 b c = wrap64 (a + c).
Proof. intros <-. unfold add64, wrap64. rewrite Zplus_mod_idemp_l. done. Qed.

Lemma resident_fold (l : list (string * module_entry W)) acc d x : wrap64 x = default 0 (acc !! d) ->
  default 0 (foldl (fun acc pair => if m_resident (snd pair) then add_at (md_device (m_desc (snd pair))) (md_bytes (m_desc (snd pair))) acc else acc) acc l !! d)
  = wrap64 (x + zsum ((fun kx => resident_on d kx.2) <$> l)).
Proof.
  revert acc x. induction l as [|[k m] l IH]; intros acc x Hx; [by simpl; rewrite Z.add_0_r, Hx|].
  rewrite fmap_cons. cbn [foldl zsum foldr fst snd]. fold (zsum ((fun kx : string * module_entry W => resident_on d kx.2) <$> l)).
  replace (resident_on d m) with (if m_resident m then (if md_device (m_desc m) =? d then md_bytes (m_desc m) else 0) else 0)
    by (unfold resident_on, m_device, m_bytes; by destruct (m_resident m)).
  destruct (m_resident m); [|rewrite (IH _ x Hx); f_equal; lia].
  rewrite (IH _ (x + (if md_device (m_desc m) =? d then md_bytes (m_desc m) else 0))); [f_equal; lia|].
  rewrite add_at_lookup. destruct (_ =? d); [by rewrite (add64_wrap x)|by rewrite Z.add_0_r].
Qed.

Lemma resident_bytes_total s d : sized (g_modules s) ->
  default 0 (resident_bytes_locked s !! d) = resident_total (g_modules s) d.
Proof.
  intros Hs. unfold resident_bytes_locked. rewrite (resident_fold _ _ d 0) by done.
  rewrite Z.add_0_l. unfold resident_total. rewrite <- (msum_in_order String.le). apply wrap64_small.
  rewrite (msum_in_order String.le (fun _ m => resident_on d m)). change (u64 (resident_total (g_modules s) d)).
  pose proof (need_resident_bound _ ∅ d Hs). unfold u64. lia.
Qed.

(** ** The requested set *)

(** What the loop over the requested names has established. *)
Record request_inv ms (ids : list string) (st : gset string * gmap Z Z) : Prop := {
  ri_set : fst st = list_to_set ids;
  ri_known : Forall (fun id => exists m, ms !! id = Some m /\ m_enabled m = true) ids;
  ri_need : forall d, default 0 (snd st !! d) = wrap64 (need_total ms (fst st) d);
  ri_keys : forall id m, id ∈ fst st -> ms !! id = Some m -> m_resident m = false -> is_Some (snd st !! m_device m);
}.

Lemma need_total_grow ms rs id m d : ms !! id = Some m -> id ∉ rs ->
  need_total ms ({[id]} ∪ rs) d = need_total ms rs d + (if negb (m_resident m) && (m_device m =? d) then m_bytes m else 0).
Proof.
  intros Hm Hid. unfold need_total. erewrite (msum_change _ (fun k m => if bool_decide (k ∈ rs) && negb (m_resident m) && (m_device m =? d) then m_bytes m else 0)); [|exact Hm|].
  - rewrite (bool_decide_eq_true_2 (id ∈ {[id]} ∪ rs)) by set_solver. rewrite (bool_decide_eq_false_2 (id ∈ rs)) by done. simpl. lia.
  - intros k x Hne _. by replace (bool_decide (k ∈ {[id]} ∪ rs)) with (bool_decide (k ∈ rs)) by (apply bool_decide_ext; set_solver).
Qed.

Lemma need_total_empty ms d : need_total ms ∅ d = 0.
Proof. apply msum_zero. intros k m _. by rewrite bool_decide_eq_false_2 by set_solver. Qed.

Lemma request_step ms ids st id st' : request_inv ms ids st -> request_one ms st id = Ok st' -> request_inv ms (ids ++ [id]) st'.
Proof.
  destruct st as [rs needed]. intros [Hset Hknown Hneed Hkeys]. unfold request_one. simpl in *.
  destruct (ms !! id) as [m|] eqn:Hm; [|done]. destruct (m_enabled m) eqn:He; [|done].
  assert (Hk' : Forall (fun id => exists m, ms !! id = Some m /\ m_enabled m = true) (ids ++ [id]))
    by (apply Forall_app; split; [done|]; apply Forall_singleton; eauto).
  case_bool_decide as Hin; intros [= <-]; simpl.
  - split; simpl; [set_solver|done|done|done].
  - split; simpl; [set_solver|done| |].
    + intros d. rewrite (need_total_grow _ _ _ m) by done. destruct (m_resident m); simpl; [by rewrite Z.add_0_r|].
      rewrite add_at_lookup. destruct (m_device m =? d) eqn:E; [|by rewrite Z.add_0_r]. by rewrite (add64_wrap (need_total ms rs d)) by done.
    + intros k x Hk Hx Hr. destruct (decide (k = id)) as [->|Hne].
      * assert (x = m) as -> by congruence. rewrite Hr. unfold add_at. rewrite lookup_insert_eq. eauto.
      * assert (Hs : is_Some (needed !! m_device x)) by (apply (Hkeys k); [set_solver|done|done]).
        destruct (m_resident m); [done|]. unfold add_at. rewrite lookup_insert_is_Some'. by right.
Qed.

Lemma request_set ms ids rs needed : foldM (request_one ms) ids (∅, ∅) = Ok (rs, needed) -> request_inv ms ids (rs, needed).
Proof.
  intros H. enough (Hgen : forall pre st st', request_inv ms pre st -> foldM (request_one ms) ids st = Ok st' -> request_inv ms (pre ++ ids) st').
  { apply (Hgen [] (∅, ∅)); [|done]. split; [done|constructor| |set_solver]. intros d. simpl. by rewrite need_total_empty. }
  clear H. induction ids as [|id ids IH]; intros pre st st' Hi H; [injection H as <-; by rewrite app_nil_r|].
  apply foldM_cons_ok in H as (st1 & H1 & H2). replace (pre ++ id :: ids) with ((pre ++ [id]) ++ ids) by by rewrite <- app_assoc.
  eapply IH; [|exact H2]. by eapply request_step.
Qed.

(** ** Evictions *)

Definition taken_bytes (l : list (string * module_entry W)) : Z := zsum ((fun x => m_bytes x.2) <$> l).

Lemma taken_bytes_cons x l : taken_bytes (x :: l) = m_bytes x.2 + taken_bytes l.
Proof. done. Qed.

Lemma taken_bytes_nonneg l : Forall (fun x => 0 <= m_bytes x.2) l -> 0 <= taken_bytes l.
Proof. intros H. apply zsum_nonneg. by apply Forall_fmap. Qed.

Lemma evict_idle_take usable need l p ev p' :
  Forall (fun x => 0 <= m_bytes x.2) l -> taken_bytes l <= p <= UINT64_MAX -> evict_idle usable need l p = (ev, p') ->
  exists n, ev = fst <$> take n l /\ p' = p - taken_bytes (take n l).
Proof.
  revert p ev p'. induction l as [|[k m] l IH]; intros p ev p' Hpos Hp H; simpl in H.
  { injection H as <- <-. exists 0%nat. split; [done|]. unfold taken_bytes. simpl. lia. }
  apply Forall_cons in Hpos as [Hm Hpos]. rewrite taken_bytes_cons in Hp. simpl in Hm, Hp. pose proof (taken_bytes_nonneg l Hpos).
  destruct (add64 p need <=? usable).
  { injection H as <- <-. exists 0%nat. split; [done|]. unfold taken_bytes. simpl. lia. }
  rewrite wrap64_small in H by (unfold u64; lia).
  destruct (evict_idle usable need l (p - m_bytes m)) as [ev1 p1] eqn:E. injection H as <- <-.
  destruct (IH (p - m_bytes m) ev1 p1 Hpos ltac:(lia) E) as (n & -> & ->). exists (S n). split; [done|]. simpl. rewrite taken_bytes_cons. simpl. lia.
Qed.

Lemma evict_total_taken ms l d : NoDup (fst <$> l) -> Forall (fun x => ms !! x.1 = Some x.2 /\ m_device x.2 = d) l ->
  evict_total ms (fst <$> l) d = taken_bytes l.
Proof.
  induction l as [|[k m] l IH]; intros Hnd Hall.
  { apply msum_zero. intros k m _. by rewrite bool_decide_eq_false_2 by apply not_elem_of_nil. }
  rewrite fmap_cons in *. apply NoDup_cons in Hnd as [Hk Hnd]. apply Forall_cons in Hall as [[Hm Hd] Hall]. simpl in *.
  rewrite taken_bytes_cons, <- (IH Hnd Hall). unfold evict_total.
  erewrite (msum_change _ (fun k' m' => if bool_decide (k' ∈ fst <$> l) && (m_device m' =? d) then m_bytes m' else 0)); [|exact Hm|].
  - rewrite (bool_decide_eq_true_2 (k ∈ k :: _)) by left. rewrite (bool_decide_eq_false_2 (k ∈ fst <$> l)) by done.
    rewrite (proj2 (Z.eqb_eq _ _) Hd). simpl. lia.
  - intros k' m' Hne _. by replace (bool_decide (k' ∈ k :: (fst <$> l))) with (bool_decide (k' ∈ fst <$> l))
      by (apply bool_decide_ext; rewrite elem_of_cons; naive_solver).
Qed.

Lemma evict_total_app_other ms ids ids' d :
  (forall id m, id ∈ ids' -> ms !! id = Some m -> m_device m <> d) -> evict_total ms (ids ++ ids') d = evict_total ms ids d.
Proof.
  intros H. apply msum_ext. intros k m Hm. destruct (m_device m =? d) eqn:E; [|by rewrite !andb_false_r].
  bool_facts. rewrite !andb_true_r. erewrite (bool_decide_ext (k ∈ ids ++ ids')); [done|]. rewrite elem_of_app. naive_solver.
Qed.

Lemma evict_total_app_fresh ms ids ids' d :
  (forall id m, id ∈ ids -> ms !! id = Some m -> m_device m <> d) -> evict_total ms (ids ++ ids') d = evict_total ms ids' d.
Proof.
  intros H. apply msum_ext. intros k m Hm. destruct (m_device m =? d) eqn:E; [|by rewrite !andb_false_r].
  bool_facts. rewrite !andb_true_r. erewrite (bool_decide_ext (k ∈ ids ++ ids')); [done|]. rewrite elem_of_app. naive_solver.
Qed.

Lemma candidates_ok ms rs d : let l := candidates ms rs d in
  NoDup (fst <$> l) /\ Forall (fun x => ms !! x.1 = Some x.2 /\ idle_resident rs d x) l.
Proof.
  unfold candidates. cbv zeta. split.
  - rewrite merge_sort_Permutation. apply NoDup_fmap_filter, NoDup_in_order.
  - rewrite merge_sort_Permutation. apply Forall_forall. intros [k m] [Hi Hin]%list_elem_of_filter. split; [|done]. by apply (elem_of_in_order String.le).
Qed.

Lemma candidates_bytes ms rs d : sized ms -> taken_bytes (candidates ms rs d) <= resident_total ms d.
Proof.
  intros [Hpos _]. destruct (candidates_ok ms rs d) as [Hnd Hall]. rewrite <- (evict_total_taken ms _ d Hnd).
  - apply msum_le. intros k m Hm. specialize (Hpos k m Hm). unfold resident_on.
    destruct (bool_decide _) eqn:E; simpl; [|destruct (_ && _); lia].
    apply bool_decide_eq_true, list_elem_of_fmap in E as ([k' m'] & -> & Hin). rewrite Forall_forall in Hall.
    destruct (Hall _ Hin) as [Hm' (Hr & _)]. simpl in *. assert (m' = m) as -> by congruence. rewrite Hr. done.
  - eapply Forall_impl; [done|]. intros x [? (_ & _ & ? & _)]. done.
Qed.

(** What the loop over the devices has established. *)
Record room_inv s rs (needed : gmap Z Z) (ds : list Z) (st : gmap Z Z * list string) : Prop := {
  rm_nodup : NoDup (snd st);
  rm_idle : forall id, id ∈ snd st -> exists m, g_modules s !! id = Some m /\ m_resident m = true /\ m_pins m = 0 /\ (id ∉ rs) /\ m_device m ∈ ds;
  rm_fits : forall d, d ∈ ds -> resident_total (g_modules s) d - evict_total (g_modules s) (snd st) d + default 0 (needed !! d) <= usable_bytes_locked s d;
  rm_rest : forall d, d ∉ ds -> default 0 (fst st !! d) = resident_total (g_modules s) d;
}.

Lemma make_room_step s rs needed ds st d need st' :
  sized (g_modules s) -> needed !! d = Some need -> need = need_total (g_modules s) rs d -> d ∉ ds ->
  room_inv s rs needed ds st -> make_room s rs st (d, need) = Ok st' -> room_inv s rs needed (ds ++ [d]) st'.
Proof.
  intros Hsz Hn Hneed Hd [Hnd Hidle Hfits Hrest]. unfold make_room. destruct st as [projected evicted]. cbn [fst snd] in *.
  destruct (need <=? usable_bytes_locked s d) eqn:E1; [|done]. rewrite Hrest by done.
  destruct (evict_idle _ _ _ _) as [ev p] eqn:E. destruct (add64 p need <=? _) eqn:E2; [|done]. intros [= <-].
  pose proof (need_resident_bound _ rs d Hsz) as (Hb1 & Hb2 & Hb3). pose proof (candidates_bytes _ rs d Hsz) as Hcb.
  destruct (candidates_ok (g_modules s) rs d) as [Hcn Hca].
  assert (Hpos : Forall (fun x : string * module_entry W => 0 <= m_bytes x.2) (candidates (g_modules s) rs d)).
  { eapply Forall_impl; [exact Hca|]. intros [k m] [Hm _]. by apply (proj1 Hsz k). }
  assert (Hpb : taken_bytes (candidates (g_modules s) rs d) <= resident_total (g_modules s) d <= UINT64_MAX) by lia.
  destruct (evict_idle_take _ _ _ _ _ _ Hpos Hpb E) as (n & -> & ->). clear E.
  set (tk := take n (candidates (g_modules s) rs d)) in *.
  assert (Htn : NoDup (fst <$> tk)) by (unfold tk; rewrite <- (take_drop n (candidates _ _ _)), fmap_app in Hcn; by apply NoDup_app in Hcn as (? & _)).
  assert (Hta : Forall (fun x : string * module_entry W => g_modules s !! x.1 = Some x.2 /\ idle_resident rs d x) tk)
    by (unfold tk; by apply Forall_take).
  assert (Htp : 0 <= taken_bytes tk) by (apply taken_bytes_nonneg; unfold tk; by apply Forall_take).
  assert (Htl : taken_bytes tk <= resident_total (g_modules s) d).
  { etransitivity; [|exact Hcb]. unfold tk. clear -Hpos. revert n. induction Hpos as [|x l Hx Hl IH]; intros [|n]; simpl; try done.
    - rewrite taken_bytes_cons. pose proof (taken_bytes_nonneg l Hl). unfold taken_bytes at 1. simpl. lia.
    - rewrite !taken_bytes_cons. specialize (IH n). lia. }
  assert (Hdev : forall id m, id ∈ fst <$> tk -> g_modules s !! id = Some m -> m_resident m = true /\ m_pins m = 0 /\ (id ∉ rs) /\ m_device m = d).
  { intros id m (x & -> & Hx)%list_elem_of_fmap Hm. rewrite Forall_forall in Hta. destruct (Hta x Hx) as [Hm' (? & ? & ? & ?)].
    assert (x.2 = m) as <- by congruence. done. }
  assert (Hold : forall id m, id ∈ evicted -> g_modules s !! id = Some m -> m_device m <> d).
  { intros id m Hid Hm Hdm. destruct (Hidle id Hid) as (m' & Hm' & _ & _ & _ & Hin). apply Hd. rewrite <- Hdm. by replace m with m' by congruence. }
  unfold add64 in E2. rewrite wrap64_small in E2 by (unfold u64; lia). bool_facts. split; cbn [fst snd].
  - apply NoDup_app. split_and!; [done| |done]. intros id Hid Hin. destruct (Hidle id Hid) as (m & Hm & _).
    apply (Hold id m Hid Hm). by apply (Hdev id m).
  - intros id [Hid|Hid]%elem_of_app.
    + destruct (Hidle id Hid) as (m & ? & ? & ? & ? & ?). exists m. split_and!; try done. set_solver.
    + pose proof Hid as ([k m] & -> & Hx)%list_elem_of_fmap. rewrite Forall_forall in Hta. destruct (Hta _ Hx) as [Hm (? & ? & Hdm & ?)].
      exists m. simpl in *. split_and!; try done. rewrite Hdm. set_solver.
  - intros d' [Hd'|Hd']%elem_of_app.
    + rewrite evict_total_app_other; [by apply Hfits|]. intros id m Hid Hm. destruct (Hdev id m Hid Hm) as (_ & _ & _ & ->). by intros ->.
    + apply list_elem_of_singleton in Hd' as ->. rewrite evict_total_app_fresh by done. rewrite (evict_total_taken _ _ d) by
        (done || (eapply Forall_impl; [exact Hta|]; by intros x [? (_ & _ & ? & _)])). rewrite Hn. simpl. lia.
  - intros d' Hd'. rewrite lookup_insert_ne by set_solver. apply Hrest. set_solver.
Qed.

(** The planning part of [acquire]. *)
Definition room_plan s (requested : list string) rs (evicted : list string) : Prop :=
  exists needed projected, foldM (request_one (g_modules s)) requested (∅, ∅) = Ok (rs, needed) /\
    foldM (make_room s rs) (in_order Z.le needed) (resident_bytes_locked s, []) = Ok (projected, evicted).

Theorem room_plan_fits s requested rs evicted :
  sized (g_modules s) -> (forall d, resident_total (g_modules s) d <= usable_bytes_locked s d) -> room_plan s requested rs evicted ->
  rs = list_to_set requested /\ Forall (fun id => exists m, g_modules s !! id = Some m /\ m_enabled m = true) requested /\
  NoDup evicted /\
  (forall id, id ∈ evicted -> exists m, g_modules s !! id = Some m /\ m_resident m = true /\ m_pins m = 0 /\ (id ∉ rs)) /\
  (forall d, resident_total (g_modules s) d - evict_total (g_modules s) evicted d + need_total (g_modules s) rs d <= usable_bytes_locked s d).
Proof.
  intros Hsz Hcap (needed & projected & Hreq & Hroom). apply request_set in Hreq as [Hset Hknown Hneed Hkeys]. simpl in *.
  assert (Hexact : forall d, default 0 (needed !! d) = need_total (g_modules s) rs d).
  { intros d. rewrite Hneed. apply wrap64_small. pose proof (need_resident_bound _ rs d Hsz). unfold u64. lia. }
  assert (Hgen : forall l pre st, fst <$> in_order Z.le needed = pre ++ (fst <$> l) -> Forall (fun x => needed !! x.1 = Some x.2) l ->
    room_inv s rs needed pre st -> foldM (make_room s rs) l st = Ok (projected, evicted) -> room_inv s rs needed (pre ++ (fst <$> l)) (projected, evicted)).
  { induction l as [|[d need] l IH]; intros pre st Hpre Hl Hinv H; [injection H as ->; by rewrite app_nil_r|].
    apply foldM_cons_ok in H as (st1 & H1 & H2). apply Forall_cons in Hl as [Hd Hl]. simpl in Hd.
    rewrite fmap_cons in *. cbn [fst] in *. replace (pre ++ d :: (fst <$> l)) with ((pre ++ [d]) ++ (fst <$> l)) in * by by rewrite <- app_assoc.
    apply (IH _ st1); [done|done| |done]. eapply make_room_step; try done.
    - by rewrite <- Hexact, Hd.
    - pose proof (NoDup_in_order Z.le needed) as Hnd. rewrite Hpre, <- app_assoc in Hnd. apply NoDup_app in Hnd as (_ & Hnd & _).
      intros Hin. apply (Hnd d Hin). set_solver. }
  specialize (Hgen (in_order Z.le needed) [] (resident_bytes_locked s, [])). simpl in Hgen. destruct Hgen as [Hnd Hidle Hfits _]; try done.
  - apply Forall_forall. intros [d need] Hin. by apply elem_of_in_order in Hin.
  - split; simpl; [constructor|set_solver|set_solver|]. intros d _. by apply resident_bytes_total.
  - split_and!; [done|done|done| |].
    + intros id Hid. destruct (Hidle id Hid) as (m & ? & ? & ? & ? & _). eauto 10.
    + intros d. rewrite <- Hexact. destruct (decide (d ∈ fst <$> in_order Z.le needed)) as [Hin|Hin]; [by apply Hfits|].
      assert (needed !! d = None) as ->.
      { destruct (needed !! d) as [x|] eqn:E; [|done]. exfalso. apply Hin. apply list_elem_of_fmap. exists (d, x). split; [done|]. by apply elem_of_in_order. }
      assert (evict_total (g_modules s) evicted d = 0) as ->; [|simpl; specialize (Hcap d); lia].
      apply msum_zero. intros k m Hm. destruct (bool_decide (k ∈ evicted)) eqn:E; [|done]. apply bool_decide_eq_true in E.
      destruct (Hidle k E) as (m' & Hm' & _ & _ & _ & Hd). simpl in *. assert (m' = m) as -> by congruence.
      destruct (m_device m =? d) eqn:Ed; [|done]. bool_facts. by subst.
Qed.

End room.
