(* ===== verification/TransientLogic.v ===== *)
(** * Reasoning about the transient module manager

    A projection of the manager ([core_of]) that drops the world, the counters
    and the clocks, a weakest precondition ([wp]) that is false for an exception
    or an endless loop and true for [GGML_ABORT], and the rules for the bulk
    callbacks and the residency transactions of [Transient]. *)

From S2P Require Import Prelude Accounting Transient.
From stdpp Require Import strings pretty.
Open Scope string_scope.
Open Scope Z_scope.
Open Scope list_scope.

(** ** The core of a manager *)

(** Whether [GGML_ABORT] is accepted: theorems about callbacks that keep their
    contract are proved with [False], the others with [True]. *)
Class Abort := may_abort : Prop.

Section core.
Context {W : Type} {A0 : Abort}.
Implicit Types (s : manager W) (m v : module_entry W).

(** A module without its time stamp. *)
Definition view m : module_entry W := mk_module (m_desc m) (m_enabled m) (m_resident m) 0 (m_pins m).

Record core := mk_core {
  c_budgets : gmap Z device_budget;
  c_mods : gmap string (module_entry W);
  c_leases : gmap Z lease_entry;
  c_epoch : option residency_epoch;
  c_policy : transient_policy;
  c_tx : option policy_transaction;
  c_gen : Z;
  c_next : Z;
}.
#[export] Instance core_settable : Settable core := fun c =>
  mk_core (c_budgets c) (c_mods c) (c_leases c) (c_epoch c) (c_policy c) (c_tx c) (c_gen c) (c_next c).

Definition core_of s : core :=
  mk_core (g_budgets s) (view <$> g_modules s) (g_leases s) (g_epoch s) (g_policy s) (g_transaction s) (g_generation s) (g_next_lease_id s).

(** ** Weakest preconditions *)

Definition wp {A} (x : M W A) (Q : A -> manager W -> Prop) s : Prop :=
  match x s with
  | Done a s' => Q a s'
  | Aborted _ => may_abort
  | Thrown _ _ | Hangs => False
  end.

Lemma wp_bind {A B} (x : M W A) (k : A -> M W B) Q s : wp x (fun a s' => wp (k a) Q s') s -> wp (x ≫= k) Q s.
Proof. unfold wp, mbind, M_bind. by destruct (x s). Qed.

Lemma wp_ret {A} (a : A) Q s : Q a s -> wp (mret a) Q s.
Proof. done. Qed.

Lemma wp_get (Q : manager W -> manager W -> Prop) s : Q s s -> wp get Q s.
Proof. done. Qed.

Lemma wp_modify f (Q : unit -> manager W -> Prop) s : Q tt (f s) -> wp (modify f) Q s.
Proof. done. Qed.

Lemma wp_mono {A} (x : M W A) (P Q : A -> manager W -> Prop) s : wp x P s -> (forall a s', P a s' -> Q a s') -> wp x Q s.
Proof. unfold wp. destruct (x s); naive_solver. Qed.

Lemma wp_call {A} (f : W -> A * W) (Q : A -> manager W -> Prop) s :
  (forall a s', core_of s' = core_of s -> Q a s') -> wp (call f) Q s.
Proof. intros H. unfold wp, call. destruct (f (g_world s)) as [a w]. apply H. by destruct s. Qed.

Lemma wp_call_result {A} (f : W -> A * W) (Q : A -> manager W -> Prop) s :
  (forall w s', core_of s' = core_of s -> Q (fst (f w)) s') -> wp (call f) Q s.
Proof. intros H. specialize (H (g_world s)). unfold wp, call. destruct (f (g_world s)) as [a w]. apply H. by destruct s. Qed.

Lemma wp_count f (Q : unit -> manager W -> Prop) s : (forall s', core_of s' = core_of s -> Q tt s') -> wp (count f) Q s.
Proof. intros H. apply H. by destruct s. Qed.

Lemma wp_fail e (Q : unit -> manager W -> Prop) s : (forall s', core_of s' = core_of s -> Q tt s') -> wp (fail e) Q s.
Proof. apply wp_count. Qed.

Lemma wp_tick (Q : Z -> manager W -> Prop) s : (forall a s', core_of s' = core_of s -> Q a s') -> wp tick Q s.
Proof. intros H. apply H. by destruct s. Qed.

Lemma wp_abort {A} e (Q : A -> manager W -> Prop) s : may_abort -> wp (abort e) Q s.
Proof. done. Qed.

Lemma wp_at_module id v (Q : module_entry W -> manager W -> Prop) s :
  c_mods (core_of s) !! id = Some v -> (forall m, view m = v -> g_modules s !! id = Some m -> Q m s) -> wp (at_module id) Q s.
Proof.
  simpl. rewrite lookup_fmap. unfold wp, at_module. destruct (g_modules s !! id) as [m|]; [|done].
  intros [= Hv] HQ. by apply HQ.
Qed.

(** Changing one module changes its view. *)
Lemma wp_set_module id v f g (Q : unit -> manager W -> Prop) s :
  c_mods (core_of s) !! id = Some v -> (forall m, view m = v -> view (f m) = g v) ->
  (forall s', core_of s' = (core_of s) <| c_mods ::= <[id := g v]> |> -> Q tt s') -> wp (set_module id f) Q s.
Proof.
  intros Hv Hf HQ. apply wp_bind, (wp_at_module _ _ _ _ Hv). intros m Hm _. apply wp_modify, HQ.
  destruct s. unfold core_of. simpl. by rewrite fmap_insert, (Hf m Hm).
Qed.

(** A loop that walks a list and keeps a relation to the list walked so far. *)
Lemma wp_each {A} (f : A -> M W unit) (I : list A -> manager W -> Prop) l :
  forall seen s, I seen s ->
  (forall pre x post s, pre ++ x :: post = seen ++ l -> I pre s -> wp (f x) (fun _ s' => I (pre ++ [x]) s') s) ->
  wp (each f l) (fun _ s' => I (seen ++ l) s') s.
Proof.
  induction l as [|x l IH]; intros seen s HI Hstep; simpl.
  - apply wp_ret. by rewrite app_nil_r.
  - apply wp_bind. eapply wp_mono; [by apply (Hstep seen x l)|]. intros [] s' HI'. simpl in HI'.
    replace (seen ++ x :: l) with ((seen ++ [x]) ++ l) by by rewrite <- app_assoc.
    apply IH; [done|]. intros pre y post s'' Heq. apply (Hstep pre y post). by rewrite <- app_assoc in Heq.
Qed.

Lemma wp_each_keeps {A} (f : A -> M W unit) l (Q : unit -> manager W -> Prop) s :
  (forall x s', x ∈ l -> core_of s' = core_of s -> wp (f x) (fun _ s'' => core_of s'' = core_of s) s') ->
  (forall s', core_of s' = core_of s -> Q tt s') -> wp (each f l) Q s.
Proof.
  intros Hf HQ. eapply wp_mono; [apply (wp_each f (fun _ s' => core_of s' = core_of s) l []); [done|]|].
  - intros pre x post s' Heq. apply Hf. simpl in Heq. rewrite <- Heq. set_solver.
  - intros [] s'. apply HQ.
Qed.

(** ** Callbacks in bulk leave the core alone *)

Definition known (c : core) (id : string) : Prop := is_Some (c_mods c !! id).

Lemma wp_resume ids (Q : unit -> manager W -> Prop) s : (forall s', core_of s' = core_of s -> Q tt s') -> wp (resume_locked ids) Q s.
Proof.
  intros HQ. apply wp_each_keeps; [|done]. intros id s' _ Hs'. apply wp_bind, wp_get.
  destruct (g_modules s' !! id) as [m|]; [|by apply wp_ret]. destruct (md_resume _); [|by apply wp_ret].
  apply wp_call. intros _ s'' Hs''. congruence.
Qed.

(** A module that answers no when it is asked to quiesce. *)
Definition refuses (c : core) (id : string) : Prop :=
  exists v f w, c_mods c !! id = Some v /\ md_quiesce (m_desc v) = Some f /\ fst (f w) = false.

Lemma wp_quiesce ids acc (Q : result string (list string) -> manager W -> Prop) s :
  Forall (known (core_of s)) ids ->
  (forall r s', core_of s' = core_of s -> match r with Ok l => l = acc ++ ids | Err id => id ∈ ids /\ refuses (core_of s) id end -> Q r s') ->
  wp (quiesce_each ids acc) Q s.
Proof.
  intros Hids. revert acc s Hids. induction ids as [|id ids IH]; intros acc s Hids HQ; simpl.
  - apply wp_ret, HQ; [done|]. by rewrite app_nil_r.
  - apply Forall_cons in Hids as [[v Hv] Hids]. apply wp_bind, (wp_at_module _ _ _ _ Hv). intros m Hm _. apply wp_bind.
    assert (Hgo : forall (ok : bool) s', core_of s' = core_of s -> (ok = false -> refuses (core_of s) id) ->
      wp (if ok then quiesce_each ids (acc ++ [id]) else resume_locked acc ;; mret (Err id)) Q s').
    { intros ok s' Hs' Hno. destruct ok.
      - apply IH; [by rewrite Hs'|]. intros r s'' Hs'' Hr. apply HQ; [congruence|]. rewrite Hs' in Hr. destruct r as [l|bad].
        + by rewrite Hr, <- app_assoc.
        + destruct Hr. split; [by right|done].
      - apply wp_bind, wp_resume. intros s'' Hs''. apply wp_ret, HQ; [congruence|]. split; [left|by apply Hno]. }
    destruct (md_quiesce _) as [f|] eqn:Ef; [|by apply wp_ret, (Hgo true)]. apply wp_call_result. intros w s' Hs'. apply Hgo; [done|].
    intros Hno. exists v, f, w. split_and!; [done| |done]. by rewrite <- Hm.
Qed.

(** The contract of the callbacks: rollback and finalize do not fail. *)
Definition reliable (d : module_desc W) : Prop :=
  (forall f h w, md_rollback d = Some f -> fst (fst (f h w)) = false -> may_abort) /\
  (forall f h w, md_finalize d = Some f -> fst (fst (f h w)) = false -> may_abort).
(** Every module has such callbacks and a budgeted device. *)
Definition trusted (c : core) : Prop := forall id v, c_mods c !! id = Some v -> reliable (m_desc v) /\ is_Some (c_budgets c !! m_device v).

Definition callbacks (v : module_entry W) : Prop := prepared_callbacks (m_desc v) = true /\ reliable (m_desc v).
Definition prepared (c : core) (id : string) : Prop := exists v, c_mods c !! id = Some v /\ callbacks v.

Lemma callbacks_present m v : view m = v -> callbacks v ->
  is_Some (md_prepare (m_desc m)) /\ is_Some (md_publish (m_desc m)) /\ is_Some (md_rollback (m_desc m)) /\
  is_Some (md_finalize (m_desc m)) /\ is_Some (md_free (m_desc m)) /\ reliable (m_desc m).
Proof.
  intros <-. unfold callbacks, prepared_callbacks. simpl. intros [H Hr]. repeat (apply andb_true_iff in H as [H ?%bool_decide_eq_true]).
  apply bool_decide_eq_true in H. auto 10.
Qed.

(** A callback of a module that has all five. *)
Ltac wp_callback Hp :=
  destruct Hp as (? & Hv & Hcb); apply wp_bind, (wp_at_module _ _ _ _ Hv); intros m Hm _;
  destruct (callbacks_present m _ Hm Hcb) as ([? Hprep] & [? Hpub] & [on_rollback Hrb] & [on_finalize Hfin] & [? Hfree] & Hrel_rb & Hrel_fin).

Lemma wp_free_handle id h (Q : unit -> manager W -> Prop) s :
  prepared (core_of s) id -> (forall s', core_of s' = core_of s -> Q tt s') -> wp (free_handle id h) Q s.
Proof. intros Hp HQ. unfold free_handle. wp_callback Hp. rewrite Hfree. apply wp_call. intros []. apply HQ. Qed.

Lemma wp_free_owners l (Q : unit -> manager W -> Prop) s :
  Forall (prepared (core_of s)) (t_id <$> l) -> (forall s', core_of s' = core_of s -> Q tt s') -> wp (free_owners l) Q s.
Proof.
  intros Hl. apply wp_each_keeps. intros t s' Ht Hs'. apply wp_free_handle; [|congruence].
  rewrite Hs'. rewrite Forall_forall in Hl. by apply Hl, list_elem_of_fmap_2.
Qed.

(** ** Updating several modules *)

Definition alters {A} (id : A -> string) (g : A -> module_entry W -> module_entry W) (l : list A) (ms : gmap string (module_entry W)) :=
  foldl (fun acc x => alter (g x) (id x) acc) ms l.

Lemma alters_notin {A} (id : A -> string) g l ms k : k ∉ id <$> l -> alters id g l ms !! k = ms !! k.
Proof.
  unfold alters. revert ms. induction l as [|x l IH]; intros ms Hk; [done|]. rewrite fmap_cons, not_elem_of_cons in Hk. destruct Hk as [Hk1 Hk2].
  simpl. rewrite IH by done. by apply lookup_alter_ne.
Qed.

Lemma alters_in {A} (id : A -> string) g l ms x : NoDup (id <$> l) -> x ∈ l -> alters id g l ms !! id x = g x <$> ms !! id x.
Proof.
  unfold alters. revert ms. induction l as [|y l IH]; intros ms Hnd Hx; [by apply elem_of_nil in Hx|].
  rewrite fmap_cons in Hnd. apply NoDup_cons in Hnd as [Hy Hnd]. apply elem_of_cons in Hx as [->|Hx]; simpl.
  - change (foldl (fun acc x => alter (g x) (id x) acc) ?m l) with (alters id g l m).
    rewrite alters_notin by done. by rewrite lookup_alter_eq.
  - rewrite IH by done. rewrite lookup_alter_ne; [done|]. intros Heq. apply Hy. rewrite Heq. by apply list_elem_of_fmap_2.
Qed.

Lemma alters_known {A} (id : A -> string) g l ms k : is_Some (alters id g l ms !! k) <-> is_Some (ms !! k).
Proof.
  unfold alters. revert ms. induction l as [|x l IH]; intros ms; [done|]. simpl. rewrite IH.
  destruct (decide (id x = k)) as [->|Hne]; [|by rewrite lookup_alter_ne]. rewrite lookup_alter_eq. by rewrite fmap_is_Some.
Qed.

Definition updates (id : string) (g : module_entry W -> module_entry W) (x : M W unit) : Prop :=
  forall s, known (core_of s) id -> wp x (fun _ s' => core_of s' = (core_of s) <| c_mods ::= alter g id |>) s.

Lemma wp_each_updates {A} (id : A -> string) g (f : A -> M W unit) l (Q : unit -> manager W -> Prop) s :
  (forall x, updates (id x) (g x) (f x)) -> Forall (known (core_of s)) (id <$> l) ->
  (forall s', core_of s' = (core_of s) <| c_mods ::= alters id g l |> -> Q tt s') -> wp (each f l) Q s.
Proof.
  intros Hf. revert s. induction l as [|x l IH]; intros s Hids HQ; simpl.
  - apply wp_ret, HQ. by destruct s.
  - rewrite fmap_cons in Hids. apply Forall_cons in Hids as [Hx Hids]. apply wp_bind. eapply wp_mono; [by apply Hf|].
    intros [] s' Hs'. simpl in Hs'. apply IH.
    + rewrite Hs'. eapply Forall_impl; [done|]. intros k [v Hk]. apply (alters_known id g [x]). eauto.
    + intros s'' Hs''. apply HQ. rewrite Hs'', Hs'. by destruct s.
Qed.

Lemma updates_set_module id f g : (forall m, view (f m) = g (view m)) -> updates id g (set_module id f).
Proof.
  intros Hf s [v Hv]. eapply (wp_set_module _ _ _ (fun v => g v)); [done| |].
  - intros m <-. apply Hf.
  - intros s' ->. unfold core_of, set_field. simpl in *. f_equal. apply map_eq. intros k.
    destruct (decide (id = k)) as [<-|Hne]; [|by rewrite lookup_insert_ne, lookup_alter_ne].
    by rewrite lookup_insert_eq, lookup_alter_eq, Hv.
Qed.

(** A time stamp does not show. *)
Lemma wp_stamp id (Q : unit -> manager W -> Prop) s :
  known (core_of s) id -> (forall s', core_of s' = core_of s -> Q tt s') ->
  wp (now ← tick; set_module id (fun m => m <| m_last_use := now |>)) Q s.
Proof.
  intros [v Hv] HQ. apply wp_bind, wp_tick. intros now s1 Hs1.
  apply (wp_set_module _ v _ (fun v => v)); [by rewrite Hs1|by intros []|]. intros s2 Hs2. apply HQ. rewrite Hs2, Hs1.
  unfold core_of, set_field. simpl in *. f_equal. by apply insert_id.
Qed.

Definition set_resident (b : bool) (v : module_entry W) : module_entry W := mk_module (m_desc v) (m_enabled v) b (m_last_use v) (m_pins v).
Definition set_placed (e b : bool) (v : module_entry W) : module_entry W := mk_module (m_desc v) e b (m_last_use v) (m_pins v).
Definition map_pins (f : Z -> Z) (v : module_entry W) : module_entry W := mk_module (m_desc v) (m_enabled v) (m_resident v) (m_last_use v) (f (m_pins v)).

Lemma known_alter (c : core) g id k : known (c <| c_mods ::= alter g id |>) k <-> known c k.
Proof. apply (alters_known (fun _ : unit => id) (fun _ => g) [tt]). Qed.

Lemma updates_settle id b : updates id (set_resident b) (settle id b).
Proof.
  intros s Hid. unfold settle. apply wp_bind. eapply wp_mono; [apply (updates_set_module id _ (set_resident b)); [by intros []|done]|].
  intros [] s1 Hs1. cbv beta in Hs1. assert (Hid1 : known (core_of s1) id) by (rewrite Hs1; by apply known_alter).
  apply wp_bind. assert (Hgo : forall s2, core_of s2 = core_of s1 ->
    wp (m ← at_module id; count (fun t => t <| tm_swaps ::= succ64 |> <| tm_bytes_moved ::= fun b0 => add64 b0 (m_bytes m) |>))
      (fun _ s' => core_of s' = (core_of s) <| c_mods ::= alter (set_resident b) id |>) s2).
  { intros s2 Hs2. destruct Hid1 as [v Hv]. rewrite <- Hs2 in Hv. apply wp_bind, (wp_at_module _ _ _ _ Hv). intros m _ _.
    apply wp_count. intros s3 Hs3. congruence. }
  destruct b; [|by apply wp_ret, Hgo]. by apply wp_stamp.
Qed.

Lemma updates_place id e b : updates id (set_placed e b) (place id e b).
Proof.
  intros s Hid. unfold place. apply wp_bind. eapply wp_mono; [apply (updates_set_module id _ (set_placed e b)); [by intros []|done]|].
  intros [] s1 Hs1. cbv beta in Hs1. assert (Hid1 : known (core_of s1) id) by (rewrite Hs1; by apply known_alter).
  destruct b; [|by apply wp_ret]. apply wp_stamp; [done|]. intros s2 Hs2. congruence.
Qed.

Lemma updates_pin id : updates id (map_pins succ64) (pin id).
Proof.
  intros s Hid. unfold pin. apply wp_bind, wp_tick. intros now s1 Hs1. rewrite <- Hs1.
  apply updates_set_module; [by intros []|]. by rewrite Hs1.
Qed.

Lemma updates_unpin id : updates id (map_pins (fun p => wrap64 (p - 1))) (unpin id).
Proof. intros s Hid. apply updates_set_module; [by intros []|done]. Qed.

(** ** Residency transactions *)

(** A prepared row for a module and a target. *)
Definition row_of (c : core) (x : string * bool) (t : transition) : Prop :=
  t_id t = fst x /\ t_target t = snd x /\ exists v, c_mods c !! fst x = Some v /\ callbacks v /\ t_prior t = m_resident v.

Lemma row_of_prepared c l rows : Forall2 (row_of c) l rows -> Forall (prepared c) (t_id <$> rows).
Proof.
  induction 1 as [|x t l rows (Hid & _ & v & Hv & Hcb & _) _ IH]; [constructor|]. rewrite fmap_cons. constructor; [|done].
  exists v. by rewrite Hid.
Qed.

Lemma row_of_ids c l rows : Forall2 (row_of c) l rows -> t_id <$> rows = fst <$> l.
Proof. induction 1 as [|x t l rows (Hid & _) _ IH]; [done|]. rewrite !fmap_cons. congruence. Qed.

Lemma wp_prepare_each l acc error (Q : option (list transition) * string -> manager W -> Prop) s :
  trusted (core_of s) -> Forall (known (core_of s)) (fst <$> l) -> Forall (prepared (core_of s)) (t_id <$> acc) ->
  (forall r e s', core_of s' = core_of s ->
    (forall rows, r = Some rows -> exists rows', rows = acc ++ rows' /\ Forall2 (row_of (core_of s)) l rows') -> Q (r, e) s') ->
  wp (prepare_each l acc error) Q s.
Proof.
  revert acc error s. induction l as [|[id target] l IH]; intros acc error s Htr Hids Hacc HQ; simpl.
  { apply wp_ret, HQ; [done|]. intros rows [= <-]. exists []. rewrite app_nil_r. split; [done|constructor]. }
  rewrite fmap_cons in Hids. apply Forall_cons in Hids as [[v Hv] Hids]. simpl in Hv.
  apply wp_bind, (wp_at_module id v); [done|]. intros m Hm _.
  destruct (prepared_callbacks (m_desc m)) eqn:Hc; simpl.
  2: { apply wp_bind, wp_free_owners; [done|]. intros s1 Hs1. by apply wp_ret, HQ. }
  assert (Hcb : callbacks v) by (split; [by rewrite <- Hm|by apply (Htr id v)]). destruct (callbacks_present m v Hm Hcb) as ([f Hf] & _).
  unfold call_prepare. rewrite Hf. apply wp_bind, wp_call. intros [h text] s1 Hs1. simpl. destruct h as [h|].
  - apply IH; [by rewrite Hs1|by rewrite Hs1| |].
    + rewrite Hs1, fmap_app, Forall_app. split; [done|]. apply Forall_singleton. by exists v.
    + intros r e s2 Hs2 Hr. apply HQ; [congruence|]. intros rows Hrows. destruct (Hr rows Hrows) as (rows' & -> & Hrows').
      eexists. rewrite <- app_assoc. split; [done|]. rewrite Hs1 in Hrows'. constructor; [|done].
      split_and!; [done|done|]. exists v. split_and!; [done|done|]. by rewrite <- Hm.
  - apply wp_bind, wp_free_owners; [by rewrite Hs1|]. intros s2 Hs2. apply wp_ret, HQ; [congruence|done].
Qed.

Lemma wp_unpublish l error (Q : string -> manager W -> Prop) s :
  Forall (prepared (core_of s)) (t_id <$> l) -> (forall e s', core_of s' = core_of s -> Q e s') -> wp (unpublish l error) Q s.
Proof.
  revert error s. induction l as [|t l IH]; intros error s Hl HQ; simpl; [by apply wp_ret, HQ|].
  rewrite fmap_cons in Hl. apply Forall_cons in Hl as [Ht Hl]. wp_callback Ht. unfold call_rollback. rewrite Hrb.
  apply wp_bind, wp_call_result. intros w s1 Hs1. destruct (on_rollback (t_handle t) w) as [[[] text] w'] eqn:Ew; [|apply wp_abort, (Hrel_rb _ (t_handle t) w Hrb); by rewrite Ew]. apply IH; [by rewrite Hs1|]. intros e s2 Hs2. apply HQ. congruence.
Qed.

Definition mark_published (t : transition) : transition := t <| t_published := true |>.

Lemma wp_publish_each l done_rows error (Q : option (list transition) * string -> manager W -> Prop) s :
  Forall (prepared (core_of s)) (t_id <$> l) -> Forall (prepared (core_of s)) (t_id <$> done_rows) ->
  (forall r e s', core_of s' = core_of s -> (forall rows, r = Some rows -> rows = reverse done_rows ++ (mark_published <$> l)) -> Q (r, e) s') ->
  wp (publish_each l done_rows error) Q s.
Proof.
  revert done_rows error s. induction l as [|t l IH]; intros done_rows error s Hl Hd HQ; simpl.
  { apply wp_ret, HQ; [done|]. intros rows [= <-]. by rewrite app_nil_r. }
  rewrite fmap_cons in Hl. apply Forall_cons in Hl as [Ht Hl]. pose proof Ht as Ht'. wp_callback Ht. unfold call_publish. rewrite Hpub.
  apply wp_bind, wp_call. intros [[] text] s1 Hs1; simpl.
  - apply IH; [by rewrite Hs1| |].
    + rewrite Hs1, fmap_cons. constructor; [|done]. by destruct t.
    + intros r e s2 Hs2 Hr. apply HQ; [congruence|]. intros rows Hrows. rewrite (Hr rows Hrows). rewrite reverse_cons, <- app_assoc. done.
  - apply wp_bind, wp_unpublish; [by rewrite Hs1|]. intros e s2 Hs2. apply wp_ret, HQ; [congruence|done].
Qed.

(** Residency set row by row. *)
Definition set_rows (f : transition -> bool) : list transition -> gmap string (module_entry W) -> gmap string (module_entry W) :=
  alters t_id (fun t => set_resident (f t)).

Lemma set_rows_published l ms : set_rows t_target (mark_published <$> l) ms = set_rows t_target l ms.
Proof. unfold set_rows, alters. revert ms. induction l as [|[] l IH]; intros ms; [done|]. apply IH. Qed.

Lemma prepared_known c l : Forall (prepared c) l -> Forall (known c) l.
Proof. intros H. eapply Forall_impl; [done|]. intros k (v & Hv & _). by exists v. Qed.

Lemma wp_publish_residency tx error (Q : option residency_transaction * string -> manager W -> Prop) s :
  rt_published tx = false -> Forall (prepared (core_of s)) (t_id <$> rt_modules tx) ->
  (forall e s', core_of s' = core_of s -> Q (None, e) s') ->
  (forall e s', core_of s' = (core_of s) <| c_mods ::= set_rows t_target (rt_modules tx) |> ->
     Q (Some (mk_residency (mark_published <$> rt_modules tx) true), e) s') ->
  wp (publish_residency_locked tx error) Q s.
Proof.
  intros Hnew Hrows Hno Hyes. unfold publish_residency_locked. rewrite Hnew. apply wp_bind, wp_publish_each; [done|constructor|].
  intros [rows|] e s1 Hs1 Hr; [|by apply wp_ret, Hno]. specialize (Hr rows eq_refl). simpl in Hr. subst rows.
  apply wp_bind. apply (wp_each_updates t_id (fun t => set_resident (t_target t))); [intros t; apply updates_settle| |].
  - rewrite Hs1, <- list_fmap_compose. apply prepared_known. by rewrite (list_fmap_ext (t_id ∘ mark_published) t_id) by (by intros ? []).
  - intros s2 Hs2. apply wp_ret, Hyes. rewrite Hs2, Hs1. unfold set_field. simpl. f_equal. apply set_rows_published.
Qed.

Lemma wp_rollback_each l (Q : unit -> manager W -> Prop) s :
  Forall (prepared (core_of s)) (t_id <$> l) -> (forall s', core_of s' = core_of s -> Q tt s') -> wp (rollback_each l) Q s.
Proof.
  revert s. induction l as [|t l IH]; intros s Hl HQ; simpl; [by apply wp_ret, HQ|].
  rewrite fmap_cons in Hl. apply Forall_cons in Hl as [Ht Hl]. destruct (t_published t); simpl; [|by apply IH].
  wp_callback Ht. unfold call_rollback. rewrite Hrb.
  apply wp_bind, wp_call_result. intros w s1 Hs1. destruct (on_rollback (t_handle t) w) as [[[] text] w'] eqn:Ew; [|apply wp_abort, (Hrel_rb _ (t_handle t) w Hrb); by rewrite Ew]. apply IH; [by rewrite Hs1|]. intros s2 Hs2. apply HQ. congruence.
Qed.

Lemma wp_rollback_residency tx (Q : option residency_transaction -> manager W -> Prop) s :
  rt_published tx = true -> Forall (prepared (core_of s)) (t_id <$> rt_modules tx) ->
  (forall s', core_of s' = (core_of s) <| c_mods ::= set_rows t_prior (rt_modules tx) |> -> Q (Some (unpublished tx)) s') ->
  wp (rollback_residency_locked tx) Q s.
Proof.
  intros Hpub Hrows HQ. unfold rollback_residency_locked. rewrite Hpub. simpl. apply wp_bind, wp_rollback_each.
  { rewrite fmap_reverse. by rewrite reverse_Permutation. }
  intros s1 Hs1. apply wp_bind, (wp_each_updates t_id (fun t => set_resident (t_prior t))); [intros t; apply updates_settle| |].
  - rewrite Hs1. by apply prepared_known.
  - intros s2 Hs2. apply wp_bind, wp_count. intros s3 Hs3. apply wp_ret, HQ. by rewrite Hs3, Hs2, Hs1.
Qed.

Lemma wp_finalize_residency tx error (Q : option string -> manager W -> Prop) s :
  rt_published tx = true -> Forall (prepared (core_of s)) (t_id <$> rt_modules tx) ->
  (forall r s', core_of s' = core_of s -> (r <> None -> may_abort) -> Q r s') ->
  wp (finalize_residency_locked tx error) Q s.
Proof.
  intros Hpub Hl HQ. unfold finalize_residency_locked. rewrite Hpub. simpl. clear Hpub.
  revert error s Hl HQ. induction (rt_modules tx) as [|t l IH]; intros error s Hl HQ; simpl; [by apply wp_ret, HQ|].
  rewrite fmap_cons in Hl. apply Forall_cons in Hl as [Ht Hl]. wp_callback Ht. unfold call_finalize. rewrite Hfin.
  apply wp_bind, wp_call_result. intros w s1 Hs1. destruct (on_finalize (t_handle t) w) as [[[] text] w'] eqn:Ew; simpl.
  - apply IH; [by rewrite Hs1|]. intros r s2 Hs2. apply HQ. congruence.
  - apply wp_ret, HQ; [done|]. intros _. apply (Hrel_fin _ (t_handle t) w Hfin). by rewrite Ew.
Qed.

End core.
Global Arguments core : clear implicits.
