(* ===== verification/TransientInv.v ===== *)
(** * The invariant of the transient module manager

    [core_ok] and its preservation by registration and leases. *)

From S2P Require Import Prelude Accounting Transient TransientRoom TransientLogic.
From stdpp Require Import strings pretty.
Open Scope string_scope.
Open Scope Z_scope.
Open Scope list_scope.

(** ** Counting leases *)

Definition lease_tally (p : lease_entry -> bool) (leases : gmap Z lease_entry) : Z := msum (fun _ le => if p le then 1 else 0) leases.
Definition pin_count (leases : gmap Z lease_entry) (id : string) : Z := lease_tally (fun le => bool_decide (id ∈ le_requested le)) leases.
Definition epoch_count (leases : gmap Z lease_entry) (ident : Z) : Z := lease_tally (fun le => bool_decide (le_epoch le = Some ident)) leases.

Lemma lease_tally_insert p leases l le : leases !! l = None -> lease_tally p (<[l := le]> leases) = (if p le then 1 else 0) + lease_tally p leases.
Proof. apply (msum_insert (fun _ le => if p le then 1 else 0)). Qed.

Lemma lease_tally_delete p leases l le : leases !! l = Some le -> lease_tally p (delete l leases) = lease_tally p leases - (if p le then 1 else 0).
Proof. apply (msum_delete (fun _ le => if p le then 1 else 0)). Qed.

Lemma lease_tally_bound p leases : 0 <= lease_tally p leases <= Z.of_nat (size leases).
Proof.
  split; [apply msum_nonneg; intros ? x _; destruct (p x); lia|]. rewrite <- msum_size. apply msum_le. intros ? x _; destruct (p x); lia.
Qed.

Lemma lease_tally_pos p leases l le : leases !! l = Some le -> p le = true -> 1 <= lease_tally p leases.
Proof.
  intros Hl Hp. pose proof (msum_elem (fun _ le => if p le then 1 else 0) leases l le Hl) as H. simpl in H. rewrite Hp in H.
  apply H. intros ? x _; destruct (p x); lia.
Qed.

Lemma lease_tally_zero p leases : (forall l le, leases !! l = Some le -> p le = false) -> lease_tally p leases = 0.
Proof. intros H. apply msum_zero. intros l le Hl. by rewrite (H l le Hl). Qed.

(** Lease identifiers are nonzero 64-bit words, so there are fewer than 2^64. *)
Lemma leases_fewer (leases : gmap Z lease_entry) : (forall l le, leases !! l = Some le -> 1 <= l <= UINT64_MAX) -> Z.of_nat (size leases) <= UINT64_MAX.
Proof.
  intros H. rewrite <- (msum_size leases).
  pose proof (msum_packed (fun l (_ : lease_entry) => (l - 1, l)) leases UINT64_MAX) as Hp. simpl in Hp.
  rewrite (msum_ext (fun _ _ => 1) (fun l _ => l - (l - 1))) by (intros; lia). apply Hp; [by vm_compute| |].
  - intros l le Hl. specialize (H l le Hl). lia.
  - intros l l' _ _ _ _ Hne x. unfold in_ival. simpl. lia.
Qed.

(** ** The invariant *)

Section inv.
Context {W : Type} {A0 : Abort}.
Implicit Types (s : manager W) (c : core W) (v : module_entry W) (ms : gmap string (module_entry W)).

(** The open epoch: its owners are published, its leases are counted, whoever pins
    a module it brought in belongs to it, and going back keeps the budgets. *)
Record epoch_ok c (e : residency_epoch) : Prop := {
  eo_open : re_open_leases e = epoch_count (c_leases c) (re_ident e) /\ 0 < re_open_leases e;
  eo_leases : forall l le, c_leases c !! l = Some le -> le_epoch le = None \/ le_epoch le = Some (re_ident e);
  eo_published : rt_published (re_owners e) = true;
  eo_rows : NoDup (t_id <$> rt_modules (re_owners e));
  eo_affected : re_affected e = t_id <$> rt_modules (re_owners e);
  eo_row : forall t, t ∈ rt_modules (re_owners e) ->
    (exists v, c_mods c !! t_id t = Some v /\ callbacks v /\ m_resident v = t_target t) /\ (t_target t = true -> t_id t ∈ re_activated e);
  eo_joined : forall l le id, c_leases c !! l = Some le -> id ∈ le_requested le -> id ∈ re_activated e -> le_epoch le = Some (re_ident e);
  eo_restores : forall d, resident_total (set_rows t_prior (rt_modules (re_owners e)) (c_mods c)) d <= budget_usable (c_budgets c) d;
}.

(** Modules placed as the rows of a policy transaction say. *)
Definition placed (f g : policy_transition -> bool) : list policy_transition -> gmap string (module_entry W) -> gmap string (module_entry W) :=
  alters pt_id (fun t => set_placed (f t) (g t)).

(** The manager shows one side of the transaction, and both sides keep the budgets. *)
Definition on_side c (tx : policy_transaction) : Prop :=
  match px_state tx with
  | policy_prepared | policy_rolled_back =>
      c_mods c = placed pt_prior_enabled pt_prior_resident (px_modules tx) (c_mods c) /\ c_budgets c = px_prior_budgets tx /\ c_policy c = px_prior_policy tx
  | policy_published | policy_finalized =>
      c_mods c = placed pt_target_enabled pt_target_resident (px_modules tx) (c_mods c) /\ c_budgets c = px_target_budgets tx /\ c_policy c = px_target_policy tx
  end.

Record transaction_ok c (tx : policy_transaction) : Prop := {
  to_rows : NoDup (pt_id <$> px_modules tx);
  to_known : forall id, known c id -> id ∈ pt_id <$> px_modules tx;
  to_ids : Forall (known c) (pt_id <$> px_modules tx);
  to_callbacks : Forall (fun t => pt_handle t <> None -> prepared c (pt_id t)) (px_modules tx);
  to_budgets : dom (px_prior_budgets tx) = dom (c_budgets c) /\ dom (px_target_budgets tx) = dom (c_budgets c);
  to_prior : forall d, resident_total (placed pt_prior_enabled pt_prior_resident (px_modules tx) (c_mods c)) d <= budget_usable (px_prior_budgets tx) d;
  to_target : forall d, resident_total (placed pt_target_enabled pt_target_resident (px_modules tx) (c_mods c)) d <= budget_usable (px_target_budgets tx) d;
  to_side : on_side c tx;
}.

Record core_ok c : Prop := {
  ok_next : u64 (c_next c);
  ok_trusted : trusted c;
  ok_named : forall id v, c_mods c !! id = Some v -> id <> "";
  ok_sized : sized (c_mods c);
  ok_capacity : forall d, resident_total (c_mods c) d <= budget_usable (c_budgets c) d;
  ok_lease : forall l le, c_leases c !! l = Some le -> 1 <= l <= UINT64_MAX /\ NoDup (le_requested le) /\
    forall id, id ∈ le_requested le -> exists v, c_mods c !! id = Some v /\ m_resident v = true;
  ok_pins : forall id v, c_mods c !! id = Some v -> m_pins v = pin_count (c_leases c) id;
  ok_epoch : match c_epoch c with
             | None => forall l le, c_leases c !! l = Some le -> le_epoch le = None
             | Some e => epoch_ok c e
             end;
  ok_transaction : match c_tx c with
                   | None => True
                   | Some tx => c_leases c = ∅ /\ c_epoch c = None /\ transaction_ok c tx
                   end;
}.

Definition manager_ok s : Prop := core_ok (core_of s).

Lemma budget_usable_nonneg budgets d : 0 <= budget_usable budgets d.
Proof. unfold budget_usable. destruct (budgets !! d) as [b|]; [|done]. destruct (_ >=? _) eqn:E; bool_facts; lia. Qed.

Lemma make_manager_ok budgets (w : W) : manager_ok (make_manager budgets w).
Proof.
  split; unfold core_of; simpl; rewrite ?fmap_empty; try by intros ? ? ?%lookup_empty_Some.
  - done.
  - intros id v. simpl. by intros ?%lookup_empty_Some.
  - split; [by intros ? ? ?%lookup_empty_Some|]. unfold bytes_total. by rewrite msum_empty.
  - intros d. unfold resident_total. rewrite msum_empty. apply budget_usable_nonneg.
  - done.
Qed.

(** Totals do not see the time stamps. *)
Lemma view_lookup s id : c_mods (core_of s) !! id = view <$> g_modules s !! id.
Proof. apply lookup_fmap. Qed.

Lemma resident_total_view s d : resident_total (c_mods (core_of s)) d = resident_total (g_modules s) d.
Proof. unfold resident_total. by rewrite (msum_image _ (fun _ => view) (g_modules s)) by apply view_lookup. Qed.

Lemma sized_view s : sized (c_mods (core_of s)) <-> sized (g_modules s).
Proof.
  unfold sized. assert (bytes_total (c_mods (core_of s)) = bytes_total (g_modules s)) as ->
    by (unfold bytes_total; by rewrite (msum_image _ (fun _ => view) (g_modules s)) by apply view_lookup).
  split; intros [Hp ?]; (split; [|done]); intros id v Hv.
  - apply (Hp id (view v)). by rewrite view_lookup, Hv.
  - rewrite view_lookup in Hv. destruct (g_modules s !! id) as [m|] eqn:E; [|done]. injection Hv as <-. by apply (Hp id m).
Qed.

(** ** Registration *)

Definition new_module (desc : module_desc W) : module_entry W := mk_module desc true (md_initially_resident desc) 0 0.

(** A description the manager can account for: the callbacks keep their contract, the bytes of all modules fit a word,
    and a module is not brought in resident while an epoch is open. *)
Definition registrable c (desc : module_desc W) : Prop :=
  reliable desc /\ 0 <= md_bytes desc /\ bytes_total (c_mods c) + md_bytes desc <= UINT64_MAX /\ (c_epoch c <> None -> md_initially_resident desc = false).

Inductive registered c (desc : module_desc W) : bool -> core W -> Prop :=
| reg_refused : registered c desc false c
| reg_added : c_tx c = None -> md_id desc <> "" -> c_mods c !! md_id desc = None -> is_Some (c_budgets c !! md_device desc) ->
    resident_total (<[md_id desc := new_module desc]> (c_mods c)) (md_device desc) <= budget_usable (c_budgets c) (md_device desc) ->
    registered c desc true (c <| c_mods ::= <[md_id desc := new_module desc]> |> <| c_gen ::= succ64 |>).

Lemma sized_insert ms id v : sized ms -> ms !! id = None -> 0 <= m_bytes v -> bytes_total ms + m_bytes v <= UINT64_MAX -> sized (<[id := v]> ms).
Proof.
  intros [Hp Ht] Hid Hv Hb. split.
  - intros k x [[<- <-]|[_ Hx]]%lookup_insert_Some; [done|by apply (Hp k)].
  - unfold bytes_total in *. rewrite msum_insert by done. lia.
Qed.

Lemma wp_register s desc : manager_ok s -> registrable (core_of s) desc ->
  wp (register_module desc) (fun b s' => registered (core_of s) desc b (core_of s')) s.
Proof.
  intros Hok (Hrel & Hpos & Htot & Hopen). unfold register_module.
  assert (Hrefuse : forall e s1, core_of s1 = core_of s -> wp (fail e ;; mret false) (fun b s' => registered (core_of s) desc b (core_of s')) s1).
  { intros e s1 Hs1. apply wp_bind, wp_fail. intros s2 Hs2. apply wp_ret. rewrite Hs2, Hs1. constructor. }
  apply wp_bind, wp_get. case_bool_decide as Htx; [by apply Hrefuse|]. case_bool_decide as Hid; [by apply Hrefuse|].
  case_bool_decide as Hnew; [by apply Hrefuse|]. case_bool_decide as Hbud; [by apply Hrefuse|]. destruct (_ >? _); [by apply Hrefuse|].
  assert (Hnone : g_modules s !! md_id desc = None) by (destruct (g_modules s !! md_id desc); [exfalso; apply Hnew; eauto|done]).
  assert (Hvn : c_mods (core_of s) !! md_id desc = None) by by rewrite view_lookup, Hnone.
  apply wp_bind. unfold wp at 1, tick. set (now := succ64 (g_clock s)). apply wp_bind, wp_modify, wp_bind, wp_get.
  set (s1 := (s <| g_clock := now |>) <| g_modules ::= _ |>).
  assert (Hs1 : core_of s1 = (core_of s) <| c_mods ::= <[md_id desc := new_module desc]> |>)
    by (destruct s; unfold core_of; simpl; by rewrite fmap_insert).
  assert (Hsz : sized (g_modules s1)).
  { apply sized_view. rewrite Hs1. apply sized_insert; [apply Hok|done|done|done]. }
  pose proof (resident_bytes_total s1 (md_device desc) Hsz) as Hres. rewrite <- resident_total_view, Hs1 in Hres.
  assert (Hadd : resident_total (<[md_id desc := new_module desc]> (c_mods (core_of s))) (md_device desc) <= usable_bytes_locked s1 (md_device desc) ->
    wp (modify (fun s => s <| g_generation ::= succ64 |>) ;; mret true) (fun b s' => registered (core_of s) desc b (core_of s')) s1).
  { intros Hfit. apply wp_bind, wp_modify, wp_ret.
    replace (core_of (s1 <| g_generation ::= succ64 |>)) with ((core_of s) <| c_mods ::= <[md_id desc := new_module desc]> |> <| c_gen ::= succ64 |>)
      by (rewrite <- Hs1; by destruct s). constructor; try done. simpl. destruct (g_budgets s !! md_device desc); [eauto|done]. }
  destruct (resident_bytes_locked s1 !! md_device desc) as [used|].
  - destruct (used >? _) eqn:E; bool_facts.
    + apply wp_bind, wp_modify, Hrefuse. destruct s; unfold core_of; simpl. by rewrite delete_insert_id.
    + apply Hadd. etransitivity; [apply Z.eq_le_incl; symmetry; exact Hres|exact E].
  - apply Hadd. etransitivity; [apply Z.eq_le_incl; symmetry; exact Hres|apply budget_usable_nonneg].
Qed.

Lemma resident_total_insert ms id v d : ms !! id = None -> resident_total (<[id := v]> ms) d = resident_on d v + resident_total ms d.
Proof. apply (msum_insert (fun _ v => resident_on d v)). Qed.

Lemma alters_insert {A} (f : A -> string) g (l : list A) ms id v : NoDup (f <$> l) -> id ∉ f <$> l -> alters f g l (<[id := v]> ms) = <[id := v]> (alters f g l ms).
Proof.
  intros Hnd Hid. apply map_eq. intros k. destruct (decide (k = id)) as [->|Hne].
  - by rewrite alters_notin, !lookup_insert_eq.
  - rewrite lookup_insert_ne by done. destruct (decide (k ∈ f <$> l)) as [(x & -> & Hx)%list_elem_of_fmap|Hk].
    + by rewrite !alters_in, lookup_insert_ne.
    + by rewrite !alters_notin, lookup_insert_ne.
Qed.

Lemma registered_ok c desc b c' : core_ok c -> registrable c desc -> registered c desc b c' -> core_ok c'.
Proof.
  intros Hok (Hrel & Hpos & Htot & Hopen). destruct 1 as [|Htx Hid Hnone Hbud Hfit]; [done|]. destruct Hok as [Hnx Htr Hn Hs Hc Hl Hp He Ht].
  assert (Hother : forall d, d <> md_device desc -> resident_on d (new_module desc) = 0).
  { intros d Hd. unfold resident_on, new_module, m_device. simpl. destruct (_ =? d) eqn:E; [bool_facts; congruence|]. by rewrite andb_false_r. }
  assert (Hin : forall id v, c_mods c !! id = Some v -> <[md_id desc := new_module desc]> (c_mods c) !! id = Some v)
    by (intros id v Hv; rewrite lookup_insert_ne; [done|congruence]).
  split; simpl.
  - done.
  - intros id v; simpl; intros [[_ <-]|[_ Hv]]%lookup_insert_Some; [done|by apply (Htr id)].
  - intros id v [[<- _]|[_ Hv]]%lookup_insert_Some; [done|by apply (Hn id v)].
  - by apply sized_insert.
  - intros d. destruct (decide (d = md_device desc)) as [->|Hd]; [done|]. rewrite resident_total_insert, Hother by done. apply Hc.
  - intros l le Hle. destruct (Hl l le Hle) as (? & ? & Hr). split; [done|]. split; [done|]. intros id Hid'. destruct (Hr id Hid') as (v & Hv & ?). eauto.
  - intros id v [[<- <-]|[_ Hv]]%lookup_insert_Some; [|by apply Hp]. simpl. symmetry. apply lease_tally_zero. intros l le Hle.
    apply bool_decide_eq_false. intros Hin'. destruct (Hl l le Hle) as (_ & _ & Hr). destruct (Hr _ Hin') as (v & Hv & _). congruence.
  - destruct (c_epoch c) as [e|] eqn:Ee; [|done]. specialize (Hopen ltac:(done)). destruct He. split; try done.
    + simpl; intros t Ht'. destruct (eo_row0 t Ht') as ((v & Hv & ? & ?) & ?). eauto 10.
    + intros d. simpl. unfold set_rows. rewrite alters_insert; [|done|].
      * rewrite resident_total_insert; [|rewrite eq_None_not_Some, alters_known, Hnone; by intros []].
        replace (resident_on d (new_module desc)) with 0 by (unfold resident_on, new_module; simpl; by rewrite Hopen). apply eo_restores0.
      * intros (t & Hid2 & Ht2)%list_elem_of_fmap. rewrite Hid2 in Hnone. destruct (eo_row0 t Ht2) as ((v & Hv & _) & _). congruence.
  - by rewrite Htx.
Qed.

End inv.
