(* ===== verification/TransientLease.v ===== *)
(** * Leases of transient modules

    What [acquire] and [release] of [Transient] do to the core of the manager, in
    every case, and that they keep the invariant. *)

From S2P Require Import Prelude Accounting Transient TransientRoom TransientLogic TransientInv.
From stdpp Require Import strings pretty.
Open Scope string_scope.
Open Scope Z_scope.
Open Scope list_scope.

(** ** Lease identifiers *)

Lemma fresh_lease_id_ok fuel leases next l n : u64 next -> fresh_lease_id fuel leases next = Some (l, n) ->
  leases !! l = None /\ 1 <= l <= UINT64_MAX /\ u64 n.
Proof.
  revert next. induction fuel as [|fuel IH]; intros next Hn H; [done|]. simpl in H.
  destruct (_ || _) eqn:E; [by apply (IH (succ64 next)); [apply wrap64_u64|]|]. injection H as <- <-. bool_facts.
  apply bool_decide_eq_false, eq_None_not_Some in H0. unfold u64 in *. split; [done|]. split; [lia|]. apply wrap64_u64.
Qed.

(** A search that fails has tried [fuel] consecutive words, all taken. *)
Lemma fresh_lease_id_none fuel leases next i : u64 next -> fresh_lease_id fuel leases next = None -> (i < fuel)%nat ->
  wrap64 (next + Z.of_nat i) = 0 \/ is_Some (leases !! wrap64 (next + Z.of_nat i)).
Proof.
  revert next i. induction fuel as [|fuel IH]; intros next i Hn H Hi; [lia|]. simpl in H. destruct (_ || _) eqn:E; [|done].
  destruct i as [|i].
  - rewrite Z.add_0_r, wrap64_small by done. apply orb_true_iff in E as [E|E]; [bool_facts; by left|right; by apply bool_decide_eq_true in E].
  - specialize (IH (succ64 next) i (wrap64_u64 _) H ltac:(lia)). unfold succ64 in IH.
    replace (wrap64 (next + Z.of_nat (S i))) with (wrap64 (wrap64 (next + 1) + Z.of_nat i)); [done|].
    unfold wrap64. rewrite Zplus_mod_idemp_l. f_equal. lia.
Qed.

Lemma fresh_lease_id_some leases next : u64 next -> Z.of_nat (size leases) < UINT64_MAX -> fresh_lease_id (S (S (size leases))) leases next <> None.
Proof.
  intros Hn Hsz H. pose proof (fun i => fresh_lease_id_none _ leases next i Hn H) as Hbad.
  set (tried := (fun i => wrap64 (next + Z.of_nat i)) <$> seq 0 (S (S (size leases)))).
  assert (Hnd : NoDup tried).
  { apply NoDup_alt. intros i j x. unfold tried. rewrite !list_lookup_fmap. intros Hi Hj.
    destruct (seq 0 _ !! i) as [a|] eqn:Ea; [|done]. destruct (seq 0 _ !! j) as [b|] eqn:Eb; [|done].
    apply lookup_seq in Ea as [-> Ha], Eb as [-> Hb]. simpl in Hi, Hj. simplify_eq. unfold wrap64, UINT64_MAX in *.
    assert (Heq : (next + Z.of_nat i) mod 2 ^ 64 = (next + Z.of_nat j) mod 2 ^ 64) by congruence.
    apply Z.cong_iff_0 in Heq. apply Z.mod_divide in Heq as [q Hq]; [|done]. assert (q = 0) by nia. nia. }
  assert (Hsub : tried ⊆+ 0 :: (fst <$> map_to_list leases)).
  { apply NoDup_submseteq; [done|]. intros x (i & -> & Hi%elem_of_seq)%list_elem_of_fmap.
    destruct (Hbad i ltac:(lia)) as [Hz|[le Hle]]; [rewrite Hz; left|right].
    apply list_elem_of_fmap. eexists (_, le). split; [done|]. by apply elem_of_map_to_list. }
  apply submseteq_length in Hsub. unfold tried in Hsub. rewrite length_cons, !length_fmap, length_seq, length_map_to_list in Hsub. lia.
Qed.

Section lease.
Context {W : Type} {A0 : Abort}.
Implicit Types (s : manager W) (c : core W) (v : module_entry W) (ms : gmap string (module_entry W)) (rs : gset string).

(** ** What an acquisition does *)

Definition pin_all rs : gmap string (module_entry W) -> gmap string (module_entry W) := alters id (fun _ => map_pins succ64) (set_in_order rs).

Definition bump (e : residency_epoch) : residency_epoch := e <| re_open_leases ::= succ64 |>.

(** The modules a swap takes out and brings in, with their prepared rows. *)
Record swap_ok c rs (evicted activated : list string) (rows : list transition) : Prop := {
  so_nodup : NoDup (evicted ++ activated);
  so_rows : Forall2 (row_of c) (((fun id => (id, false)) <$> evicted) ++ ((fun id => (id, true)) <$> activated)) rows;
  so_evicted : forall id, id ∈ evicted -> (exists v, c_mods c !! id = Some v /\ m_resident v = true /\ m_pins v = 0) /\ id ∉ rs;
  so_activated : forall id, id ∈ activated <-> id ∈ rs /\ exists v, c_mods c !! id = Some v /\ m_resident v = false;
  so_known : forall id, id ∈ rs -> known c id;
  so_fits : forall d, resident_total (set_rows t_target rows (c_mods c)) d <= budget_usable (c_budgets c) d;
}.

Definition lease_id_ok c (l : Z) : Prop := c_leases c !! l = None /\ 1 <= l <= UINT64_MAX.

Inductive acquired c (requested : list string) (restore : bool) : Z -> core W -> Prop :=
| acq_refused n : u64 n -> acquired c requested restore 0 (c <| c_next := n |>)
| acq_shared l n epoch (rs : gset string) : rs = list_to_set requested -> c_tx c = None -> u64 n -> lease_id_ok c l ->
    (forall id, id ∈ rs -> exists v, c_mods c !! id = Some v /\ m_resident v = true) ->
    epoch = (if c_epoch c is Some e then if joins_epoch rs e then Some e else None else None) ->
    acquired c requested restore l
      (c <| c_next := n |> <| c_leases ::= <[l := mk_lease (set_in_order rs) restore (re_ident <$> epoch)]> |>
         <| c_epoch ::= if epoch is Some _ then fmap bump else id |> <| c_mods ::= pin_all rs |>)
| acq_swapped l n ident evicted activated rows (rs : gset string) : rs = list_to_set requested -> c_tx c = None -> u64 n -> lease_id_ok c l ->
    c_epoch c = None -> swap_ok c rs evicted activated rows ->
    acquired c requested restore l
      (c <| c_next := n |> <| c_leases ::= <[l := mk_lease (set_in_order rs) restore (Some ident)]> |>
         <| c_epoch := Some (mk_epoch ident activated evicted (evicted ++ activated) (mk_residency (mark_published <$> rows) true) 1 false) |>
         <| c_mods ::= fun ms => pin_all rs (set_rows t_target rows ms) |>).

(** ** The steps of [acquire] *)

Lemma wp_take_lease_id (Q : Z -> manager W -> Prop) s : u64 (g_next_lease_id s) -> Z.of_nat (size (g_leases s)) < UINT64_MAX ->
  (forall l n s', lease_id_ok (core_of s) l -> u64 n -> core_of s' = (core_of s) <| c_next := n |> -> Q l s') -> wp take_lease_id Q s.
Proof.
  intros Hn Hsz HQ. unfold wp, take_lease_id. destruct (fresh_lease_id _ _ _) as [[l n]|] eqn:E; [|by apply fresh_lease_id_some in E].
  destruct (fresh_lease_id_ok _ _ _ _ _ Hn E) as (? & ? & ?). by apply (HQ l n); [split| |destruct s].
Qed.

Lemma row_targets c l rows : Forall2 (row_of c) l rows -> t_target <$> rows = snd <$> l.
Proof. induction 1 as [|x t l rows (_ & Ht & _) _ IH]; [done|]. rewrite !fmap_cons. congruence. Qed.

Lemma wp_open_epoch l quiesced e error (Q : bool -> manager W -> Prop) s :
  rt_published (re_owners e) = false -> Forall (prepared (core_of s)) (t_id <$> rt_modules (re_owners e)) ->
  (forall s', core_of s' = (core_of s) <| c_leases ::= delete l |> -> Q false s') ->
  (forall s', core_of s' = (core_of s) <| c_mods ::= set_rows t_target (rt_modules (re_owners e)) |>
      <| c_epoch := Some (e <| re_owners := mk_residency (mark_published <$> rt_modules (re_owners e)) true |>) |> -> Q true s') ->
  wp (open_epoch l quiesced e error) Q s.
Proof.
  intros Hnew Hrows Hno Hyes. unfold open_epoch. apply wp_bind, wp_publish_residency; [done|done| |].
  - intros e1 s1 Hs1. apply wp_bind, wp_modify. set (s2 := s1 <| g_leases ::= delete l |>).
    assert (Hs2 : core_of s2 = (core_of s) <| c_leases ::= delete l |>) by (rewrite <- Hs1; by destruct s1).
    apply wp_bind, wp_resume. intros s3 Hs3. apply wp_bind, wp_fail. intros s4 Hs4. apply wp_bind, wp_free_owners.
    + rewrite Hs4, Hs3, Hs2. by apply Hrows.
    + intros s5 Hs5. apply wp_ret, Hno. congruence.
  - intros e1 s1 Hs1. apply wp_bind, wp_modify, wp_ret, Hyes. revert Hs1. destruct s1, s. unfold core_of. simpl. unfold set_field. simpl. intros [= -> -> -> -> -> -> -> ->]. done.
Qed.

Lemma wp_lease_out rs restore quiesced epoch error (Q : Z -> manager W -> Prop) s :
  u64 (g_next_lease_id s) -> Z.of_nat (size (g_leases s)) < UINT64_MAX -> (forall id, id ∈ rs -> known (core_of s) id) ->
  (forall e, epoch = Some e -> c_epoch (core_of s) = None -> rt_published (re_owners e) = false /\ Forall (prepared (core_of s)) (t_id <$> rt_modules (re_owners e))) ->
  (forall n s', u64 n -> core_of s' = (core_of s) <| c_next := n |> -> Q 0 s') ->
  (forall l n s', lease_id_ok (core_of s) l -> u64 n ->
    let c1 := (core_of s) <| c_next := n |> <| c_leases ::= <[l := mk_lease (set_in_order rs) restore (re_ident <$> epoch)]> |> in
    core_of s' = (match epoch, c_epoch (core_of s) with
                  | Some e, None => c1 <| c_epoch := Some (bump (e <| re_owners := mk_residency (mark_published <$> rt_modules (re_owners e)) true |>)) |>
                                       <| c_mods ::= set_rows t_target (rt_modules (re_owners e)) |>
                  | Some _, Some _ => c1 <| c_epoch ::= fmap bump |>
                  | None, _ => c1
                  end) <| c_mods ::= pin_all rs |> -> Q l s') ->
  wp (lease_out rs restore quiesced epoch error) Q s.
Proof.
  intros Hnext Hsz Hrs Hepoch Hno Hyes. unfold lease_out. apply wp_bind, wp_take_lease_id; [done|done|]. intros l n s1 Hl Hn Hs1.
  apply wp_bind, wp_modify, wp_bind, wp_get. set (s2 := s1 <| g_leases ::= _ |>).
  set (c1 := (core_of s) <| c_next := n |> <| c_leases ::= <[l := mk_lease (set_in_order rs) restore (re_ident <$> epoch)]> |>).
  assert (Hs2 : core_of s2 = c1) by (unfold c1; rewrite <- Hs1; by destruct s1).
  assert (He2 : g_epoch s2 = c_epoch (core_of s)) by (change (c_epoch (core_of s2) = c_epoch (core_of s)); by rewrite Hs2).
  (* from the publication on *)
  set (c2 := match epoch, c_epoch (core_of s) with
             | Some e, None => c1 <| c_epoch := Some (e <| re_owners := mk_residency (mark_published <$> rt_modules (re_owners e)) true |>) |>
                                  <| c_mods ::= set_rows t_target (rt_modules (re_owners e)) |>
             | _, _ => c1 end).
  assert (Hrest : forall s3, core_of s3 = c2 -> wp (if negb true then mret 0 else
      (if epoch is Some _ then modify (fun s => s <| g_epoch ::= fmap (fun e => e <| re_open_leases ::= succ64 |>) |>) else mret tt) ;;
      each pin (set_in_order rs) ;; resume_locked quiesced ;; mret l) Q s3).
  { intros s3 Hs3. simpl. apply wp_bind.
    assert (Hpins : forall s4, core_of s4 = c2 <| c_epoch ::= if epoch is Some _ then fmap bump else id |> ->
      wp (each pin (set_in_order rs) ;; resume_locked quiesced ;; mret l) Q s4).
    { intros s4 Hs4. apply wp_bind, (wp_each_updates id (fun _ => map_pins succ64)); [intros; apply updates_pin| |].
      - apply Forall_forall. intros k (k' & -> & Hk%elem_of_set_in_order)%list_elem_of_fmap. rewrite Hs4. unfold c2.
        destruct epoch as [e|], (c_epoch (core_of s)) as [e'|]; try apply (Hrs _ Hk).
        unfold known. apply (alters_known t_id). apply (Hrs _ Hk).
      - intros s5 Hs5. apply wp_bind, wp_resume. intros s6 Hs6. apply wp_ret, (Hyes l n); [done|done|].
        rewrite Hs6, Hs5, Hs4. unfold c2. destruct epoch as [e|], (c_epoch (core_of s)) as [e'|] eqn:Ec; try done.
        all: unfold c1, set_field; simpl in *; by rewrite Ec. }
    destruct epoch as [e|]; [|by apply wp_ret, Hpins; rewrite Hs3; unfold c2, c1; destruct s].
    apply wp_modify, Hpins. rewrite <- Hs3. by destruct s3. }
  rewrite He2. apply wp_bind.
  destruct epoch as [e|]; [|by apply wp_ret, (Hrest s2); rewrite Hs2]. destruct (c_epoch (core_of s)) as [e'|] eqn:Ec; [by apply wp_ret, (Hrest s2); rewrite Hs2|].
  destruct (Hepoch e eq_refl eq_refl) as [Hnew Hrows]. apply wp_open_epoch; [done|by rewrite Hs2| |].
  - intros s3 Hs3. apply wp_ret, (Hno n); [done|]. rewrite Hs3, Hs2. unfold c1, set_field. simpl. rewrite delete_insert_id; [done|]. apply Hl.
  - intros s3 Hs3. apply (Hrest s3). by rewrite Hs3, Hs2.
Qed.

Definition swap_list (evicted activated : list string) : list (string * bool) :=
  ((fun id => (id, false)) <$> evicted) ++ ((fun id => (id, true)) <$> activated).

Lemma swap_list_ids evicted activated : fst <$> swap_list evicted activated = evicted ++ activated.
Proof. unfold swap_list. rewrite fmap_app, <- !list_fmap_compose. f_equal; apply list_fmap_id. Qed.

Lemma swap_list_elem (evicted activated : list string) (id : string) (b : bool) : (id, b) ∈ swap_list evicted activated -> if b then id ∈ activated else id ∈ evicted.
Proof. unfold swap_list. rewrite elem_of_app, !list_elem_of_fmap. intros [(? & [= <- ->] & ?)|(? & [= <- ->] & ?)]; done. Qed.

Lemma row_elem c l rows t : Forall2 (row_of c) l rows -> t ∈ rows -> (t_id t, t_target t) ∈ l /\
  exists v, c_mods c !! t_id t = Some v /\ callbacks v /\ t_prior t = m_resident v.
Proof.
  intros H [i Ht]%list_elem_of_lookup. destruct (Forall2_lookup_r _ _ _ _ _ H Ht) as ([id b] & Hx & Hid & Hb & v & Hv). simpl in *.
  rewrite Hid, Hb. split; [by eapply list_elem_of_lookup_2|]. by exists v.
Qed.

(** The modules after a swap, by name. *)
Lemma swap_lookup c evicted activated rows k : NoDup (evicted ++ activated) -> Forall2 (row_of c) (swap_list evicted activated) rows ->
  set_rows t_target rows (c_mods c) !! k =
  (fun v => if bool_decide (k ∈ evicted) then set_resident false v else if bool_decide (k ∈ activated) then set_resident true v else v) <$> c_mods c !! k.
Proof.
  intros Hnd Hrows. pose proof (row_of_ids _ _ _ Hrows) as Hids. rewrite swap_list_ids in Hids.
  destruct (decide (k ∈ t_id <$> rows)) as [(t & -> & Ht)%list_elem_of_fmap|Hk].
  - unfold set_rows. rewrite alters_in by (done || by rewrite Hids). destruct (row_elem _ _ _ _ Hrows Ht) as [Hin%swap_list_elem _].
    apply NoDup_app in Hnd as (_ & Hdisj & _). destruct (t_target t).
    + rewrite (bool_decide_eq_false_2 (t_id t ∈ evicted)) by (intros ?; by eapply Hdisj). by rewrite bool_decide_eq_true_2.
    + by rewrite bool_decide_eq_true_2.
  - unfold set_rows. rewrite alters_notin by done. rewrite Hids, elem_of_app in Hk.
    rewrite !bool_decide_eq_false_2 by tauto. by destruct (c_mods c !! k).
Qed.

Lemma swap_total c rs evicted activated rows d : NoDup (evicted ++ activated) -> Forall2 (row_of c) (swap_list evicted activated) rows ->
  (forall id, id ∈ evicted -> exists v, c_mods c !! id = Some v /\ m_resident v = true) ->
  (forall id, id ∈ activated <-> id ∈ rs /\ exists v, c_mods c !! id = Some v /\ m_resident v = false) ->
  resident_total (set_rows t_target rows (c_mods c)) d = resident_total (c_mods c) d - evict_total (c_mods c) evicted d + need_total (c_mods c) rs d.
Proof.
  intros Hnd Hrows Hev Hact. unfold resident_total.
  rewrite (msum_image _ _ (c_mods c)) by (intros k; by apply (swap_lookup c evicted activated)).
  unfold evict_total, need_total. rewrite <- msum_sub, <- msum_add. apply msum_ext. intros k v Hv. unfold resident_on.
  destruct (bool_decide (k ∈ evicted)) eqn:E1.
  { apply bool_decide_eq_true in E1. destruct (Hev k E1) as (v' & Hv' & Hr). assert (v' = v) as -> by congruence.
    simpl. rewrite Hr. rewrite andb_false_r. simpl. destruct (m_device v =? d); lia. }
  simpl. destruct (bool_decide (k ∈ activated)) eqn:E2.
  { apply bool_decide_eq_true, Hact in E2 as (Hrs & v' & Hv' & Hr). assert (v' = v) as -> by congruence.
    rewrite (bool_decide_eq_true_2 (k ∈ rs)) by done. rewrite Hr. simpl. change (m_device (set_resident true v)) with (m_device v).
    change (m_bytes (set_resident true v)) with (m_bytes v). destruct (m_device v =? d); lia. }
  apply bool_decide_eq_false in E2. destruct (m_resident v) eqn:Hr; simpl.
  - rewrite andb_false_r. simpl. destruct (m_device v =? d); lia.
  - rewrite (bool_decide_eq_false_2 (k ∈ rs)); [done|]. intros Hin. apply E2, Hact. eauto.
Qed.

(** Facts about the map transfer to the views. *)
Lemma need_total_view s rs d : need_total (c_mods (core_of s)) rs d = need_total (g_modules s) rs d.
Proof. unfold need_total. by rewrite (msum_image _ (fun _ => view) (g_modules s)) by apply view_lookup. Qed.
Lemma evict_total_view s ids d : evict_total (c_mods (core_of s)) ids d = evict_total (g_modules s) ids d.
Proof. unfold evict_total. by rewrite (msum_image _ (fun _ => view) (g_modules s)) by apply view_lookup. Qed.

Lemma activated_view s rs id : id ∈ filter (not_resident (g_modules s)) (set_in_order rs) <->
  id ∈ rs /\ exists v, c_mods (core_of s) !! id = Some v /\ m_resident v = false.
Proof.
  rewrite list_elem_of_filter, elem_of_set_in_order, view_lookup. unfold not_resident.
  destruct (g_modules s !! id) as [m|]; simpl; [|naive_solver]. split; [intros [? ?]; eauto|]. intros (? & ? & [= <-] & ?). done.
Qed.

Lemma wp_prepare_epoch evicted activated quiesced (Q : option (residency_epoch * string) -> manager W -> Prop) s :
  trusted (core_of s) -> Forall (known (core_of s)) (evicted ++ activated) ->
  (forall s', core_of s' = core_of s -> Q None s') ->
  (forall ident rows e s', core_of s' = core_of s -> Forall2 (row_of (core_of s)) (swap_list evicted activated) rows ->
     Q (Some (mk_epoch ident activated evicted (evicted ++ activated) (mk_residency rows false) 0 false, e)) s') ->
  wp (prepare_epoch evicted activated quiesced) Q s.
Proof.
  intros Htr Hids Hno Hyes. unfold prepare_epoch, prepare_residency_locked. apply wp_bind, wp_bind, wp_prepare_each; [done| |constructor|].
  { change (Forall (known (core_of s)) (fst <$> swap_list evicted activated)). by rewrite swap_list_ids. }
  intros [rows|] e s1 Hs1 Hr; apply wp_ret; cbn [fmap option_fmap option_map].
  - destruct (Hr rows eq_refl) as (rows' & -> & Hrows). apply wp_bind, wp_get, wp_bind, wp_modify, wp_ret, Hyes; [|done]. rewrite <- Hs1. by destruct s1.
  - apply wp_bind, wp_resume. intros s2 Hs2. apply wp_bind, wp_fail. intros s3 Hs3. apply wp_ret, Hno. congruence.
Qed.

Lemma wp_acquire s requested restore : manager_ok s -> Z.of_nat (size (g_leases s)) < UINT64_MAX ->
  wp (acquire requested restore) (fun l s' => acquired (core_of s) requested restore l (core_of s')) s.
Proof.
  intros Hok0 Hsz0. unfold acquire. apply wp_bind, wp_count. intros s1 Hs1. rewrite <- Hs1.
  assert (Hok : core_ok (core_of s1)) by by rewrite Hs1.
  assert (Hsz : Z.of_nat (size (g_leases s1)) < UINT64_MAX) by (change (g_leases s1) with (c_leases (core_of s1)); by rewrite Hs1).
  clear s Hs1 Hok0 Hsz0. rename s1 into s.
  assert (Hrefused : forall n s', u64 n -> core_of s' = (core_of s) <| c_next := n |> -> acquired (core_of s) requested restore 0 (core_of s'))
    by (intros n s' Hn ->; by constructor).
  assert (Hsame : forall s', core_of s' = core_of s -> acquired (core_of s) requested restore 0 (core_of s')).
  { intros s' Hs'. apply (Hrefused (c_next (core_of s))); [apply Hok|]. rewrite Hs'. by destruct s. }
  assert (Hfail : forall e s', core_of s' = core_of s -> wp (fail e ;; mret 0) (fun l s' => acquired (core_of s) requested restore l (core_of s')) s').
  { intros e s' Hs'. apply wp_bind, wp_fail. intros s2 Hs2. apply wp_ret, Hsame. congruence. }
  apply wp_bind, wp_get. case_bool_decide as Htx; [by apply Hfail|].
  destruct (foldM (request_one _) _ _) as [[rs needed]|e] eqn:Ereq; [|by apply Hfail].
  destruct (foldM (make_room s rs) _ _) as [[projected evicted]|e] eqn:Eroom; [|by apply wp_bind, wp_count; intros; apply Hfail].
  destruct (room_plan_fits s requested rs evicted) as (Hset & Hknown & Hnd & Hev & Hfits).
  { apply sized_view, Hok. } { intros d. rewrite <- resident_total_view. apply Hok. } { by exists needed, projected. }
  set (activated := filter (not_resident (g_modules s)) (set_in_order rs)).
  assert (Hkn : forall id, id ∈ rs -> known (core_of s) id).
  { intros id Hid. rewrite Hset, elem_of_list_to_set in Hid. rewrite Forall_forall in Hknown. destruct (Hknown id Hid) as (m & Hm & _).
    unfold known. rewrite view_lookup, Hm. eauto. }
  assert (Hevv : forall id, id ∈ evicted -> (exists v, c_mods (core_of s) !! id = Some v /\ m_resident v = true /\ m_pins v = 0) /\ id ∉ rs).
  { intros id Hid. destruct (Hev id Hid) as (m & Hm & ? & ? & ?). split; [|done]. exists (view m). by rewrite view_lookup, Hm. }
  assert (Hact : forall id, id ∈ activated <-> id ∈ rs /\ exists v, c_mods (core_of s) !! id = Some v /\ m_resident v = false)
    by (intros id; apply activated_view).
  assert (Hnd2 : NoDup (evicted ++ activated)).
  { apply NoDup_app. split_and!; [done| |apply NoDup_filter, NoDup_set_in_order]. intros id Hid [Hin _]%Hact. by apply (Hevv id Hid). }
  assert (Hall : Forall (known (core_of s)) (evicted ++ activated)).
  { apply Forall_app. split; apply Forall_forall; intros id Hid; [destruct (Hevv id Hid) as [(v & ? & _) _]; by exists v|]. apply Hact in Hid as [? _]. by apply Hkn. }
  assert (Htx' : c_tx (core_of s) = None) by (change (g_transaction s = None); destruct (g_transaction s); [by destruct Htx|done]).
  destruct (bool_decide (g_epoch s <> None) && bool_decide (evicted ++ activated <> [])) eqn:Eblock; [by apply Hfail|].
  apply wp_bind, wp_quiesce; [done|]. intros r s2 Hs2 _. destruct r as [quiesced|e]; [|by apply Hfail].
  assert (Hn2 : u64 (g_next_lease_id s2)) by (change (u64 (c_next (core_of s2))); rewrite Hs2; apply Hok).
  assert (Hsz2 : Z.of_nat (size (g_leases s2)) < UINT64_MAX) by (change (g_leases s2) with (c_leases (core_of s2)); by rewrite Hs2).
  destruct (bool_decide (evicted ++ activated = [])) eqn:Haff; [apply bool_decide_eq_true in Haff|apply bool_decide_eq_false in Haff].
  - apply app_eq_nil in Haff as [He Ha]. apply wp_lease_out; [done|done|by rewrite Hs2| | |].
    + intros e He' Hn. rewrite Hs2 in Hn. change (g_epoch s = None) in Hn. by rewrite Hn in He'.
    + intros n s3 Hn Hs3. apply (Hrefused n); [done|]. by rewrite Hs3, Hs2.
    + intros l n s3 Hl Hn. cbv zeta. rewrite Hs2 in *. intros ->.
      assert (Hres : forall id, id ∈ rs -> exists v, c_mods (core_of s) !! id = Some v /\ m_resident v = true).
      { intros id Hid. destruct (Hkn id Hid) as [v Hv]. exists v. split; [done|]. destruct (m_resident v) eqn:Er; [done|].
        exfalso. apply (not_elem_of_nil id). rewrite <- Ha. apply Hact. eauto. }
      pose proof (fun ep => acq_shared (core_of s) requested restore l n ep rs Hset Htx' Hn Hl Hres) as Hacq.
      specialize (Hacq _ eq_refl).
      change (c_epoch (core_of s)) with (g_epoch s) in *. clear -Hacq. destruct s as [? ? ? ? ? ? [e|] ? ? ? ? ?]; [|done]. simpl in *.
      destruct (joins_epoch rs e); done.
  - assert (Hep : g_epoch s = None).
    { apply andb_false_iff in Eblock as [Eb|Eb]; apply bool_decide_eq_false in Eb; by apply dec_stable. }
    apply wp_bind, wp_prepare_epoch; [rewrite Hs2; apply Hok|by rewrite Hs2|intros s3 Hs3; apply wp_ret, Hsame; congruence|].
    intros ident rows e s3 Hs3 Hrows. rewrite Hs2 in Hs3, Hrows. apply wp_lease_out; rewrite ?Hs3.
    + change (u64 (c_next (core_of s3))). rewrite Hs3. apply Hok.
    + change (g_leases s3) with (c_leases (core_of s3)). by rewrite Hs3.
    + done.
    + intros e0 [= <-] _. split; [done|]. by eapply row_of_prepared.
    + done.
    + intros l n s4 Hl Hn. cbv zeta. change (c_epoch (core_of s)) with (g_epoch s). rewrite Hep. intros ->.
      pose proof (acq_swapped (core_of s) requested restore l n ident evicted activated rows rs Hset Htx' Hn Hl Hep) as Hacq.
      apply Hacq. split; try done. intros d. rewrite (swap_total _ rs evicted activated) by (done || naive_solver).
      rewrite resident_total_view, evict_total_view, need_total_view. apply Hfits.
Qed.

(** ** Acquisition keeps the invariant *)

(** Totals depend on descriptions and residency only. *)
Definition residency v : module_desc W * bool := (m_desc v, m_resident v).

Lemma residency_total ms ms' d : (forall k, residency <$> ms' !! k = residency <$> ms !! k) -> resident_total ms' d = resident_total ms d.
Proof.
  intros H. set (f := fun (_ : string) (x : module_desc W * bool) => if snd x && (md_device (fst x) =? d) then md_bytes (fst x) else 0).
  assert (Hf : forall m0 : gmap string (module_entry W), resident_total m0 d = msum f (residency <$> m0)).
  { intros m0. by rewrite (msum_image f (fun _ => residency) m0) by (intros k; apply lookup_fmap). }
  rewrite !Hf. f_equal. apply map_eq. intros k. by rewrite !lookup_fmap.
Qed.

Lemma residency_sized ms ms' : (forall k, m_desc <$> ms' !! k = m_desc <$> ms !! k) -> sized ms -> sized ms'.
Proof.
  intros H [Hp Ht]. split.
  - intros k v Hv. specialize (H k). rewrite Hv in H. destruct (ms !! k) as [v'|] eqn:E; [|done]. injection H as H.
    unfold m_bytes. rewrite H. by apply (Hp k v').
  - unfold bytes_total in *. set (f := fun (_ : string) (x : module_desc W) => md_bytes x).
    assert (Hf : forall m0 : gmap string (module_entry W), msum (fun _ v => m_bytes v) m0 = msum f (m_desc <$> m0))
      by (intros m0; by rewrite (msum_image f (fun _ => m_desc) m0) by (intros k; apply lookup_fmap)).
    rewrite Hf in *. replace (m_desc <$> ms') with (m_desc <$> ms); [done|]. apply map_eq. intros k. by rewrite !lookup_fmap.
Qed.

Lemma trusted_desc c c' : dom (c_budgets c') = dom (c_budgets c) -> (forall k, m_desc <$> c_mods c' !! k = m_desc <$> c_mods c !! k) -> trusted c -> trusted c'.
Proof.
  intros Hdom H Ht id v Hv. specialize (H id). rewrite Hv in H. destruct (c_mods c !! id) as [v0|] eqn:E; [|done]. injection H as Hd.
  destruct (Ht id v0 E) as [? ?%elem_of_dom]. unfold m_device. rewrite Hd. split; [done|]. apply elem_of_dom. by rewrite Hdom.
Qed.

Lemma pin_lookup rs ms k : pin_all rs ms !! k = (fun v => if bool_decide (k ∈ rs) then map_pins succ64 v else v) <$> ms !! k.
Proof.
  unfold pin_all. destruct (decide (k ∈ rs)) as [Hk|Hk].
  - rewrite (alters_in id _ _ _ k); [by rewrite bool_decide_eq_true_2| |by apply elem_of_set_in_order]. rewrite list_fmap_id. apply NoDup_set_in_order.
  - rewrite alters_notin by (rewrite list_fmap_id; by rewrite elem_of_set_in_order). rewrite bool_decide_eq_false_2 by done. by destruct (ms !! k).
Qed.

Lemma pin_residency rs ms k : residency <$> pin_all rs ms !! k = residency <$> ms !! k.
Proof. rewrite pin_lookup. destruct (ms !! k); simpl; [|done]. by destruct (bool_decide _). Qed.

Lemma pin_desc rs ms k : m_desc <$> pin_all rs ms !! k = m_desc <$> ms !! k.
Proof. rewrite pin_lookup. destruct (ms !! k); simpl; [|done]. by destruct (bool_decide _). Qed.

(** Rows of a transaction over two maps that agree. *)
Lemma set_rows_residency f rows ms ms' : NoDup (t_id <$> rows) -> (forall k, residency <$> ms' !! k = residency <$> ms !! k) ->
  forall k, residency <$> set_rows f rows ms' !! k = residency <$> set_rows f rows ms !! k.
Proof.
  intros Hnd H k. unfold set_rows. destruct (decide (k ∈ t_id <$> rows)) as [(t & -> & Ht)%list_elem_of_fmap|Hk].
  - rewrite !alters_in by done. specialize (H (t_id t)). destruct (ms' !! t_id t), (ms !! t_id t); simpl in *; try done. unfold residency in *. simpl. congruence.
  - rewrite !alters_notin by done. apply H.
Qed.

Lemma epoch_ok_core c c' e : c_mods c' = c_mods c -> c_leases c' = c_leases c -> c_budgets c' = c_budgets c -> epoch_ok c e -> epoch_ok c' e.
Proof. intros H1 H2 H3 []. split; rewrite ?H1, ?H2, ?H3; done. Qed.

Lemma transaction_ok_core c c' tx : c_mods c' = c_mods c -> c_budgets c' = c_budgets c -> c_policy c' = c_policy c -> transaction_ok c tx -> transaction_ok c' tx.
Proof.
  intros H1 H2 H3 []. unfold on_side, known, prepared in *. split; unfold on_side, known, prepared; rewrite ?H1, ?H2, ?H3; done.
Qed.

Lemma core_ok_next c n : u64 n -> core_ok c -> core_ok (c <| c_next := n |>).
Proof.
  intros Hn []. split; simpl; try done.
  - destruct (c_epoch c); [|done]. by eapply epoch_ok_core; [..|exact ok_epoch].
  - destruct (c_tx c); [|done]. destruct ok_transaction as (? & ? & ?). split_and!; [done|done|]. by eapply transaction_ok_core; [..|done].
Qed.

(** A new lease and the pins that go with it. *)
Lemma pins_after c ms l le rs : core_ok c -> Z.of_nat (size (c_leases c)) < UINT64_MAX -> c_leases c !! l = None ->
  le_requested le = set_in_order rs -> (forall k, m_pins <$> ms !! k = m_pins <$> c_mods c !! k) ->
  forall k v, pin_all rs ms !! k = Some v -> m_pins v = pin_count (<[l := le]> (c_leases c)) k.
Proof.
  intros Hok Hsz Hl Hle Hms k v Hv. rewrite pin_lookup in Hv. specialize (Hms k). destruct (ms !! k) as [v0|]; [|done].
  destruct (c_mods c !! k) as [v1|] eqn:E1; [|done]. injection Hms as Hms. pose proof (ok_pins _ Hok k v1 E1) as Hp.
  injection Hv as <-. unfold pin_count. rewrite lease_tally_insert by done. rewrite Hle.
  rewrite (bool_decide_ext (k ∈ set_in_order rs) (k ∈ rs)) by apply elem_of_set_in_order. fold (pin_count (c_leases c) k).
  pose proof (lease_tally_bound (fun le => bool_decide (k ∈ le_requested le)) (c_leases c)) as Hb. fold (pin_count (c_leases c) k) in Hb.
  destruct (bool_decide (k ∈ rs)); simpl; rewrite Hms, Hp; [|lia]. unfold succ64. rewrite wrap64_small by (unfold u64; lia). lia.
Qed.

(** A module with a pin is leased. *)
Lemma leased_pinned c l le id v : core_ok c -> c_leases c !! l = Some le -> id ∈ le_requested le -> c_mods c !! id = Some v -> 1 <= m_pins v.
Proof.
  intros Hok Hle Hid Hv. rewrite (ok_pins _ Hok id v Hv). eapply lease_tally_pos; [done|]. by apply bool_decide_eq_true.
Qed.

Lemma joins_spec rs e id : id ∈ rs -> id ∈ re_activated e -> joins_epoch rs e = true.
Proof.
  intros H1 H2. apply existsb_exists. exists id. split; [|by apply bool_decide_eq_true]. by apply list_elem_of_In, elem_of_set_in_order.
Qed.

Lemma shared_ok c l n epoch rs restore : core_ok c -> Z.of_nat (size (c_leases c)) < UINT64_MAX -> c_tx c = None -> u64 n -> lease_id_ok c l ->
  (forall id, id ∈ rs -> exists v, c_mods c !! id = Some v /\ m_resident v = true) ->
  epoch = (if c_epoch c is Some e then if joins_epoch rs e then Some e else None else None) ->
  core_ok (c <| c_next := n |> <| c_leases ::= <[l := mk_lease (set_in_order rs) restore (re_ident <$> epoch)]> |>
             <| c_epoch ::= if epoch is Some _ then fmap bump else id |> <| c_mods ::= pin_all rs |>).
Proof.
  intros Hok Hsz Htx Hn [Hl Hl1] Hrs Hep.
  assert (Hkeep : forall k v, c_mods c !! k = Some v -> exists v', pin_all rs (c_mods c) !! k = Some v' /\ residency v' = residency v).
  { intros k v Hv. pose proof (pin_residency rs (c_mods c) k) as Hp. rewrite Hv in Hp. destruct (pin_all rs _ !! k) as [v'|]; [|done]. injection Hp as ? ?. exists v'. split; [done|]. unfold residency. congruence. }
  assert (Hres : forall k, (exists v, c_mods c !! k = Some v /\ m_resident v = true) -> exists v, pin_all rs (c_mods c) !! k = Some v /\ m_resident v = true).
  { intros k (v & Hv & Hr). destruct (Hkeep k v Hv) as (v' & ? & [= _ ?]). exists v'. split; [done|congruence]. }
  split; simpl.
  - done.
  - eapply trusted_desc; [| |apply Hok]; [done|]. intros k. simpl. apply pin_desc.
  - intros id v Hv. rewrite pin_lookup in Hv. destruct (c_mods c !! id) as [v0|] eqn:E; [|done]. by apply (ok_named _ Hok id v0).
  - eapply residency_sized; [|apply Hok]. intros k. rewrite pin_lookup. destruct (c_mods c !! k); simpl; [|done]. by destruct (bool_decide _).
  - intros d. rewrite (residency_total (c_mods c)) by apply pin_residency. apply Hok.
  - intros l' le [[<- <-]|[Hne Hle]]%lookup_insert_Some; simpl.
    + split; [done|]. split; [apply NoDup_set_in_order|]. intros id Hid%elem_of_set_in_order. by apply Hres, Hrs.
    + destruct (ok_lease _ Hok l' le Hle) as (? & ? & Hr). split; [done|]. split; [done|]. intros id Hid. by apply Hres, Hr.
  - by eapply pins_after.
  - pose proof (ok_epoch _ Hok) as He. destruct (c_epoch c) as [e|] eqn:Ee.
    2: { subst epoch. simpl. intros l' le [[<- <-]|[_ Hle]]%lookup_insert_Some; [done|by apply (He l')]. }
    assert (Hbase : epoch_count (<[l := mk_lease (set_in_order rs) restore (re_ident <$> epoch)]> (c_leases c)) (re_ident e) =
        (if joins_epoch rs e then 1 else 0) + epoch_count (c_leases c) (re_ident e)).
    { unfold epoch_count. rewrite lease_tally_insert by done. f_equal. simpl. subst epoch. destruct (joins_epoch rs e); simpl; [by rewrite bool_decide_eq_true_2|done]. }
    pose proof (lease_tally_bound (fun le => bool_decide (le_epoch le = Some (re_ident e))) (c_leases c)) as Hb.
    fold (epoch_count (c_leases c) (re_ident e)) in Hb. destruct (eo_open _ _ He) as [Ho Ho1].
    assert (Hgoal : forall e', re_open_leases e' = epoch_count (<[l := mk_lease (set_in_order rs) restore (re_ident <$> epoch)]> (c_leases c)) (re_ident e) ->
      re_ident e' = re_ident e -> re_activated e' = re_activated e -> re_affected e' = re_affected e -> re_owners e' = re_owners e ->
      epoch_ok (c <| c_next := n |> <| c_leases ::= <[l := mk_lease (set_in_order rs) restore (re_ident <$> epoch)]> |>
        <| c_epoch ::= if epoch is Some _ then fmap bump else id |> <| c_mods ::= pin_all rs |>) e').
    { intros e' H1 H2 H3 H4 H5. destruct He. split; simpl; rewrite ?H2, ?H3, ?H4, ?H5; try done.
      - split; [done|]. rewrite H1, Hbase. destruct (joins_epoch rs e); lia.
      - intros l' le [[<- <-]|[_ Hle]]%lookup_insert_Some; [|by eapply eo_leases]. simpl. subst epoch. destruct (joins_epoch rs e); auto.
      - intros t Ht. destruct (eo_row t Ht) as ((v & Hv & Hc & Hr) & Ha). split; [|done]. destruct (Hkeep _ _ Hv) as (v' & Hv' & [= Hd Hr']).
        exists v'. split; [done|]. unfold callbacks in *. split; congruence.
      - intros l' le id [[<- <-]|[_ Hle]]%lookup_insert_Some; [|by eapply eo_joined]. simpl. intros Hid%elem_of_set_in_order Ha.
        subst epoch. by rewrite (joins_spec rs e id).
      - intros d. rewrite (residency_total (set_rows t_prior (rt_modules (re_owners e)) (c_mods c))); [apply eo_restores|].
        by apply set_rows_residency; [|intros; apply pin_residency]. }
    subst epoch. destruct (joins_epoch rs e) eqn:Ej; simpl in *; rewrite Ee in Hgoal.
    + apply Hgoal; try by destruct e. destruct e; simpl in *. unfold succ64. rewrite wrap64_small by (unfold u64; lia). lia.
    + apply Hgoal; try done. lia.
  - by rewrite Htx.
Qed.

(** The modules after a swap and its pins. *)
Lemma swapped_lookup c rs evicted activated rows k v : swap_ok c rs evicted activated rows -> c_mods c !! k = Some v ->
  exists v', pin_all rs (set_rows t_target rows (c_mods c)) !! k = Some v' /\ m_desc v' = m_desc v /\
    m_resident v' = (if bool_decide (k ∈ evicted) then false else bool_decide (k ∈ activated) || m_resident v).
Proof.
  intros [] Hv. rewrite pin_lookup, (swap_lookup c evicted activated) by done. rewrite Hv. simpl. eexists. split; [done|].
  destruct (bool_decide (k ∈ rs)), (bool_decide (k ∈ evicted)), (bool_decide (k ∈ activated)); done.
Qed.

Lemma set_rows_desc f rows ms k : NoDup (t_id <$> rows) ->
  (m_desc <$> set_rows f rows ms !! k) = (m_desc <$> ms !! k) /\ (m_pins <$> set_rows f rows ms !! k) = (m_pins <$> ms !! k).
Proof.
  intros Hnd. unfold set_rows. destruct (decide (k ∈ t_id <$> rows)) as [(t & -> & Ht)%list_elem_of_fmap|Hk].
  - rewrite alters_in by done. by destruct (ms !! t_id t).
  - by rewrite alters_notin.
Qed.


(** Undoing the rows of a swap restores the residency of before. *)
Lemma swap_undo c rs evicted activated rows k : swap_ok c rs evicted activated rows ->
  residency <$> set_rows t_prior (mark_published <$> rows) (pin_all rs (set_rows t_target rows (c_mods c))) !! k = residency <$> c_mods c !! k.
Proof.
  intros Hsw. destruct Hsw as [Hnd Hrows _ _ _ _]. pose proof (row_of_ids _ _ _ Hrows) as Hids.
  change (fst <$> (((fun id => (id, false)) <$> evicted) ++ ((fun id => (id, true)) <$> activated))) with (fst <$> swap_list evicted activated) in Hids.
  rewrite swap_list_ids in Hids.
  assert (Hids' : t_id <$> (mark_published <$> rows) = t_id <$> rows) by (rewrite <- list_fmap_compose; apply list_fmap_ext; by intros ? []).
  assert (Hnd1 : NoDup (t_id <$> (mark_published <$> rows))) by (by rewrite Hids', Hids).
  assert (Hnd2 : NoDup (t_id <$> rows)) by by rewrite Hids.
  destruct (decide (k ∈ t_id <$> rows)) as [(t & -> & Ht)%list_elem_of_fmap|Hk].
  - destruct (row_elem _ _ _ _ Hrows Ht) as (_ & v & Hv & _ & Hp).
    unfold set_rows at 1. change (t_id t) with (t_id (mark_published t)) at 1. rewrite alters_in by (done || by apply list_elem_of_fmap_2).
    change (t_id (mark_published t)) with (t_id t). pose proof (pin_desc rs (set_rows t_target rows (c_mods c)) (t_id t)) as Hd.
    rewrite (proj1 (set_rows_desc t_target rows (c_mods c) (t_id t) Hnd2)) in Hd. rewrite Hv in *.
    destruct (pin_all rs _ !! t_id t) as [v'|]; [|done]. injection Hd as Hd. unfold residency. simpl. destruct t; simpl in *. congruence.
  - unfold set_rows at 1. rewrite alters_notin by (by rewrite Hids'). rewrite pin_residency. unfold set_rows. by rewrite alters_notin.
Qed.

Lemma swapped_ok c l n ident evicted activated rows rs restore : core_ok c -> Z.of_nat (size (c_leases c)) < UINT64_MAX -> c_tx c = None ->
  u64 n -> lease_id_ok c l -> c_epoch c = None -> swap_ok c rs evicted activated rows ->
  core_ok (c <| c_next := n |> <| c_leases ::= <[l := mk_lease (set_in_order rs) restore (Some ident)]> |>
             <| c_epoch := Some (mk_epoch ident activated evicted (evicted ++ activated) (mk_residency (mark_published <$> rows) true) 1 false) |>
             <| c_mods ::= fun ms => pin_all rs (set_rows t_target rows ms) |>).
Proof.
  intros Hok Hsz Htx Hn [Hl Hl1] Hep Hsw. pose proof Hsw as [Hnd Hrows Hev Hact Hkn Hfits].
  pose proof (row_of_ids _ _ _ Hrows) as Hids.
  change (fst <$> (((fun id => (id, false)) <$> evicted) ++ ((fun id => (id, true)) <$> activated))) with (fst <$> swap_list evicted activated) in Hids.
  rewrite swap_list_ids in Hids. assert (Hnd2 : NoDup (t_id <$> rows)) by by rewrite Hids.
  assert (Hids' : t_id <$> (mark_published <$> rows) = evicted ++ activated)
    by (rewrite <- Hids, <- list_fmap_compose; apply list_fmap_ext; by intros ? []).
  assert (Hstay : forall l' le id, c_leases c !! l' = Some le -> id ∈ le_requested le -> (id ∉ evicted) /\ (id ∉ activated)).
  { intros l' le id Hle Hid. destruct (ok_lease _ Hok l' le Hle) as (_ & _ & Hr). destruct (Hr id Hid) as (v & Hv & Hres). split.
    - intros Hin. destruct (Hev id Hin) as [(v' & Hv' & _ & Hp) _]. assert (v' = v) as -> by congruence.
      pose proof (leased_pinned c l' le id v Hok Hle Hid Hv). lia.
    - intros [_ (v' & Hv' & Hr')]%Hact. congruence. }
  split; simpl.
  - done.
  - eapply trusted_desc; [| |apply Hok]; [done|]. intros k. simpl. rewrite pin_desc. by apply set_rows_desc.
  - intros id v Hv. rewrite pin_lookup in Hv. destruct (set_rows t_target rows (c_mods c) !! id) as [v0|] eqn:E; [|done].
    pose proof (proj1 (set_rows_desc t_target rows (c_mods c) id Hnd2)) as Hd. rewrite E in Hd. destruct (c_mods c !! id) as [v1|] eqn:E1; [|done].
    by apply (ok_named _ Hok id v1).
  - eapply residency_sized; [|apply Hok]. intros k. rewrite pin_desc. by apply set_rows_desc.
  - intros d. rewrite (residency_total (set_rows t_target rows (c_mods c))) by apply pin_residency. apply Hfits.
  - intros l' le [[<- <-]|[Hne Hle]]%lookup_insert_Some; simpl.
    + split; [done|]. split; [apply NoDup_set_in_order|]. intros id Hid%elem_of_set_in_order. destruct (Hkn id Hid) as [v Hv].
      destruct (swapped_lookup c rs evicted activated rows id v Hsw Hv) as (v' & Hv' & _ & Hr). exists v'. split; [done|]. rewrite Hr.
      rewrite (bool_decide_eq_false_2 (id ∈ evicted)) by (intros Hin; by apply (Hev id Hin)).
      destruct (m_resident v) eqn:Er; [by rewrite orb_true_r|]. rewrite bool_decide_eq_true_2; [done|]. apply Hact. eauto.
    + destruct (ok_lease _ Hok l' le Hle) as (? & ? & Hr). split; [done|]. split; [done|]. intros id Hid.
      destruct (Hr id Hid) as (v & Hv & Hres). destruct (Hstay l' le id Hle Hid) as [? ?].
      destruct (swapped_lookup c rs evicted activated rows id v Hsw Hv) as (v' & Hv' & _ & Hr'). exists v'. split; [done|].
      rewrite Hr'. by rewrite !bool_decide_eq_false_2, Hres by done.
  - eapply pins_after; try done. intros k. by apply set_rows_desc.
  - assert (Hnone : forall l' le, c_leases c !! l' = Some le -> le_epoch le = None) by (pose proof (ok_epoch _ Hok) as He; by rewrite Hep in He).
    split; simpl.
    + split; [|done]. unfold epoch_count. rewrite lease_tally_insert by done. simpl. rewrite bool_decide_eq_true_2 by done.
      rewrite lease_tally_zero; [done|]. intros l' le Hle. rewrite (Hnone l' le Hle). done.
    + intros l' le [[<- <-]|[_ Hle]]%lookup_insert_Some; [by right|left; by apply (Hnone l')].
    + done.
    + by rewrite Hids'.
    + by rewrite Hids'.
    + intros t (t0 & -> & Ht)%list_elem_of_fmap. destruct (row_elem _ _ _ _ Hrows Ht) as (Hin & v & Hv & Hcb & _). apply swap_list_elem in Hin.
      assert (Heq : t_id (mark_published t0) = t_id t0 /\ t_target (mark_published t0) = t_target t0) by by destruct t0. destruct Heq as [-> ->].
      split; [|by intros Ht'; rewrite Ht' in Hin]. destruct (swapped_lookup c rs evicted activated rows _ v Hsw Hv) as (v' & Hv' & Hd & Hr).
      exists v'. split; [done|]. split; [by unfold callbacks in *; rewrite Hd|]. rewrite Hr. apply NoDup_app in Hnd as (_ & Hdis & _). destruct (t_target t0).
      * rewrite (bool_decide_eq_false_2 (t_id t0 ∈ evicted)) by (intros ?; by eapply Hdis). by rewrite bool_decide_eq_true_2.
      * by rewrite bool_decide_eq_true_2.
    + intros l' le id [[<- <-]|[_ Hle]]%lookup_insert_Some Hid Ha; [done|]. by destruct (Hstay l' le id Hle Hid).
    + intros d. rewrite (residency_total (c_mods c)) by (intros k; by apply (swap_undo c rs evicted activated)). apply Hok.
  - by rewrite Htx.
Qed.

Lemma acquired_ok c requested restore l c' : core_ok c -> Z.of_nat (size (c_leases c)) < UINT64_MAX -> acquired c requested restore l c' -> core_ok c'.
Proof. intros Hok Hsz. destruct 1; [by apply core_ok_next|by apply shared_ok|by apply swapped_ok]. Qed.

End lease.
