(* ===== verification/TransientRelease.v ===== *)
(** * Ending leases of transient modules

    What [release] and [resolve_all_leases_for_shutdown] of [Transient] do to the
    core of the manager, that they keep the invariant, and that shutdown ends. *)

From S2P Require Import Prelude Accounting Transient TransientRoom TransientLogic TransientInv TransientLease.
From stdpp Require Import strings pretty.
Open Scope string_scope.
Open Scope Z_scope.
Open Scope list_scope.

Section release.
Context {W : Type} {A0 : Abort}.
Implicit Types (s : manager W) (c : core W) (v : module_entry W) (ms : gmap string (module_entry W)).

Definition unpin_all (ids : list string) : gmap string (module_entry W) -> gmap string (module_entry W) :=
  alters id (fun _ => map_pins (fun p => wrap64 (p - 1))) ids.

(** The lease and its pins are gone. *)
Definition unleased c (l : Z) (le : lease_entry) : core W := c <| c_leases ::= delete l |> <| c_mods ::= unpin_all (le_requested le) |>.

(** The epoch after one of its leases ended. *)
Definition leave (le : lease_entry) (success : bool) (e : residency_epoch) : residency_epoch :=
  e <| re_committed ::= fun b => b || (success && negb (le_restore_prior le)) |> <| re_open_leases ::= fun n => wrap64 (n - 1) |>.

Inductive released c (l : Z) (success : bool) : bool -> core W -> Prop :=
| rel_refused : released c l success false c
| rel_plain le : c_leases c !! l = Some le -> le_epoch le = None -> released c l success true (unleased c l le)
| rel_left le e : c_leases c !! l = Some le -> c_epoch c = Some e -> le_epoch le = Some (re_ident e) -> re_open_leases e <> 1 ->
    released c l success true ((unleased c l le) <| c_epoch := Some (leave le success e) |>)
| rel_committed le e : c_leases c !! l = Some le -> c_epoch c = Some e -> le_epoch le = Some (re_ident e) -> re_open_leases e = 1 ->
    re_committed (leave le success e) = true ->
    released c l success true ((unleased c l le) <| c_epoch := None |>)
| rel_restored le e : c_leases c !! l = Some le -> c_epoch c = Some e -> le_epoch le = Some (re_ident e) -> re_open_leases e = 1 ->
    re_committed (leave le success e) = false ->
    released c l success true ((unleased c l le) <| c_epoch := None |> <| c_mods ::= set_rows t_prior (rt_modules (re_owners e)) |>).

(** ** The steps of [release] *)

Lemma wp_pin_underflow ids (Q : option string -> manager W -> Prop) s :
  Forall (fun id => exists v, c_mods (core_of s) !! id = Some v /\ 1 <= m_pins v) ids -> Q None s -> wp (pin_underflow ids) Q s.
Proof.
  intros Hids HQ. induction Hids as [|id ids (v & Hv & Hp) _ IH]; simpl; [by apply wp_ret|].
  apply wp_bind, (wp_at_module _ _ _ _ Hv). intros m <- _. simpl in Hp. destruct (m_pins m =? 0) eqn:E; [bool_facts; lia|done].
Qed.

Lemma wp_resolve_epoch e quiesced (Q : unit -> manager W -> Prop) s :
  rt_published (re_owners e) = true -> Forall (prepared (core_of s)) (t_id <$> rt_modules (re_owners e)) ->
  (forall s', core_of s' = (if re_committed e then core_of s else (core_of s) <| c_mods ::= set_rows t_prior (rt_modules (re_owners e)) |>) <| c_epoch := None |> -> Q tt s') ->
  wp (resolve_epoch e quiesced) Q s.
Proof.
  intros Hpub Hrows HQ. unfold resolve_epoch. apply wp_bind.
  assert (Hend : forall s1 c1, core_of s1 = c1 -> (forall s', core_of s' = c1 <| c_epoch := None |> -> Q tt s') ->
    wp (modify (fun s => s <| g_epoch := None |>) ;; resume_locked quiesced) Q s1).
  { intros s1 c1 <- HQ1. apply wp_bind, wp_modify, wp_resume. intros s' Hs'. apply HQ1. rewrite Hs'. by destruct s1. }
  destruct (re_committed e).
  - apply wp_bind, wp_finalize_residency; [done|done|]. intros [err|] s1 Hs1 Habort; [by apply wp_abort, Habort|].
    apply wp_ret. by eapply Hend.
  - apply wp_bind, wp_rollback_residency; [done|done|]. intros s1 Hs1. apply wp_ret. by eapply Hend.
Qed.

Lemma unpinned_lookup ids ms k : NoDup ids -> unpin_all ids ms !! k =
  (fun v => if bool_decide (k ∈ ids) then map_pins (fun p => wrap64 (p - 1)) v else v) <$> ms !! k.
Proof.
  intros Hnd. unfold unpin_all. destruct (decide (k ∈ ids)) as [Hk|Hk].
  - rewrite (alters_in id _ _ _ k); [by rewrite bool_decide_eq_true_2|by rewrite list_fmap_id|done].
  - rewrite alters_notin by (by rewrite list_fmap_id). rewrite bool_decide_eq_false_2 by done. by destruct (ms !! k).
Qed.

Lemma unpinned_residency ids ms k : NoDup ids -> residency <$> unpin_all ids ms !! k = residency <$> ms !! k.
Proof. intros Hnd. rewrite unpinned_lookup by done. destruct (ms !! k); simpl; [|done]. by destruct (bool_decide _). Qed.

Lemma unpinned_prepared c l le id : NoDup (le_requested le) -> prepared c id -> prepared (unleased c l le) id.
Proof.
  intros Hnd (v & Hv & Hc). unfold prepared, unleased, set_field. simpl. rewrite unpinned_lookup, Hv by done. simpl. eexists. split; [done|].
  by destruct (bool_decide _).
Qed.

Lemma wp_retire l le success epoch quiesced (Q : bool -> manager W -> Prop) s : NoDup (le_requested le) -> Forall (known (core_of s)) (le_requested le) ->
  (forall e, epoch = Some e -> rt_published (re_owners e) = true /\ Forall (prepared (core_of s)) (t_id <$> rt_modules (re_owners e)) /\ 1 <= re_open_leases e <= UINT64_MAX) ->
  (forall s', core_of s' = match epoch with
                | None => unleased (core_of s) l le
                | Some e => if re_open_leases e =? 1
                            then (if re_committed (leave le success e) then unleased (core_of s) l le
                                  else (unleased (core_of s) l le) <| c_mods ::= set_rows t_prior (rt_modules (re_owners e)) |>) <| c_epoch := None |>
                            else (unleased (core_of s) l le) <| c_epoch := Some (leave le success e) |>
                end -> Q true s') ->
  wp (retire l le success epoch quiesced) Q s.
Proof.
  intros Hnd Hkn Hep HQ. unfold retire. apply wp_bind, wp_modify. set (s1 := s <| g_leases ::= delete l |>).
  assert (Hs1 : core_of s1 = (core_of s) <| c_leases ::= delete l |>) by by destruct s.
  apply wp_bind, (wp_each_updates id (fun _ => map_pins (fun p => wrap64 (p - 1)))); [intros; apply updates_unpin| |].
  { rewrite list_fmap_id, Hs1. done. }
  intros s2 Hs2. assert (Hs2' : core_of s2 = unleased (core_of s) l le) by (rewrite Hs2, Hs1; by destruct s). clear Hs2 Hs1. apply wp_bind.
  (* after the epoch is dealt with *)
  assert (Hend : forall s3 c3, core_of s3 = c3 -> (forall s', core_of s' = c3 -> Q true s') ->
    (forall e, epoch = Some e -> Forall (prepared c3) (t_id <$> rt_modules (re_owners e))) ->
    wp ((if success then mret tt else fail "transient module transaction body failed") ;;
        (if epoch is Some e then if re_open_leases e =? 1 then free_owners (rt_modules (re_owners e)) else mret tt else mret tt) ;; mret true) Q s3).
  { intros s3 c3 Hs3 HQ3 Hfree. apply wp_bind.
    assert (Hgo : forall s4, core_of s4 = c3 -> wp ((if epoch is Some e then if re_open_leases e =? 1 then free_owners (rt_modules (re_owners e)) else mret tt else mret tt) ;; mret true) Q s4).
    { intros s4 Hs4. apply wp_bind. destruct epoch as [e|]; [|by apply wp_ret, wp_ret, HQ3]. destruct (re_open_leases e =? 1); [|by apply wp_ret, wp_ret, HQ3].
      apply wp_free_owners; [rewrite Hs4; by apply Hfree|]. intros s5 Hs5. apply wp_ret, HQ3. congruence. }
    destruct success; [by apply wp_ret, Hgo|]. apply wp_fail. intros s4 Hs4. apply Hgo. congruence. }
  destruct epoch as [e|]; [|by apply wp_ret; eapply Hend; [exact Hs2'| |]].
  destruct (Hep e eq_refl) as (Hpub & Hrows & Hopen).
  assert (Hprep : Forall (prepared (unleased (core_of s) l le)) (t_id <$> rt_modules (re_owners e)))
    by (eapply Forall_impl; [exact Hrows|]; intros k; by apply unpinned_prepared).
  change (e <| re_committed ::= fun b => b || (success && negb (le_restore_prior le)) |> <| re_open_leases ::= fun n => wrap64 (n - 1) |>) with (leave le success e).
  apply wp_bind, wp_modify. set (s3 := s2 <| g_epoch := Some (leave le success e) |>).
  assert (Hs3 : core_of s3 = (unleased (core_of s) l le) <| c_epoch := Some (leave le success e) |>) by (rewrite <- Hs2'; by destruct s2).
  assert (Hzero : (re_open_leases (leave le success e) =? 0) = (re_open_leases e =? 1)).
  { destruct e; unfold leave; simpl in *. rewrite wrap64_small by (unfold u64; lia). destruct (_ =? 1) eqn:E; bool_facts; lia. }
  assert (Hsame : re_owners (leave le success e) = re_owners e) by by destruct e.
  rewrite Hzero. destruct (re_open_leases e =? 1).
  - apply wp_resolve_epoch; [by rewrite Hsame|rewrite Hsame, Hs3; exact Hprep|]. intros s4 Hs4. rewrite Hsame, Hs3 in Hs4. eapply Hend; [exact Hs4| |].
    + intros s' Hs'. apply HQ. rewrite Hs'. by destruct (re_committed (leave le success e)).
    + intros e0 [= <-]. destruct (re_committed (leave le success e)); [exact Hprep|]. eapply Forall_impl; [exact Hprep|].
      intros k (v & Hv & Hc). unfold prepared, set_field in *. simpl in *. destruct (set_rows t_prior _ _ !! k) as [v'|] eqn:E.
      * exists v'. split; [done|]. unfold set_rows in E.
        assert (Hd : m_desc v' = m_desc v); [|by unfold callbacks in *; rewrite Hd].
        clear -E Hv. revert v E Hv. generalize (unpin_all (le_requested le) (view <$> g_modules s)). induction (rt_modules (re_owners e)) as [|t rows IH]; intros ms v E Hv.
        -- simpl in E. congruence.
        -- simpl in E. destruct (decide (t_id t = k)) as [<-|Hne].
           ++ by rewrite (IH _ (set_resident (t_prior t) v) E) by by rewrite lookup_alter_eq, Hv.
           ++ apply (IH _ v E). by rewrite lookup_alter_ne.
      * apply eq_None_not_Some in E. exfalso. apply E. unfold set_rows. apply alters_known. eauto.
  - apply wp_ret. eapply Hend; [exact Hs3|done|]. intros e0 [= <-]. exact Hprep.
Qed.

Lemma epoch_prepared c e : epoch_ok c e -> Forall (prepared c) (t_id <$> rt_modules (re_owners e)).
Proof.
  intros []. apply Forall_forall. intros k (t & -> & Ht)%list_elem_of_fmap. destruct (eo_row t Ht) as ((v & ? & ? & _) & _). by exists v.
Qed.

(** Why a release may answer no. *)
Definition release_refused (c : core W) (l : Z) : Prop :=
  c_leases c !! l = None \/ exists e id, c_epoch c = Some e /\ id ∈ re_affected e /\ refuses c id.

Lemma wp_release_why s l success (Q : bool -> manager W -> Prop) : manager_ok s ->
  (forall b s', released (core_of s) l success b (core_of s') -> (b = false -> release_refused (core_of s) l) -> Q b s') -> wp (release l success) Q s.
Proof.
  intros Hok HQ. unfold release. apply wp_bind, wp_get.
  assert (Hrefuse : forall e s1, core_of s1 = core_of s -> release_refused (core_of s) l -> wp (fail e ;; mret false) Q s1).
  { intros e s1 Hs1 Hwhy. apply wp_bind, wp_fail. intros s2 Hs2. apply wp_ret, HQ; [|done]. rewrite Hs2, Hs1. constructor. }
  destruct (g_leases s !! l) as [le|] eqn:El; [|by apply Hrefuse; [|left]].
  destruct (ok_lease _ Hok l le El) as (_ & Hnd & Hres).
  assert (Hkn : Forall (known (core_of s)) (le_requested le)).
  { apply Forall_forall. intros id Hid. destruct (Hres id Hid) as (v & Hv & _). by exists v. }
  apply wp_bind, wp_pin_underflow.
  { apply Forall_forall. intros id Hid. destruct (Hres id Hid) as (v & Hv & _). exists v. split; [done|]. by apply (leased_pinned (core_of s) l le id). }
  pose proof (ok_epoch _ Hok) as Hepoch.
  destruct (le_epoch le) as [ident|] eqn:Ele.
  2: { apply wp_retire; [done|done|done|]. intros s' Hs'. apply HQ; [|done]. rewrite Hs'. by apply rel_plain. }
  destruct (g_epoch s) as [e|] eqn:Ee; change (c_epoch (core_of s)) with (g_epoch s) in Hepoch; rewrite Ee in Hepoch.
  2: { specialize (Hepoch l le El). congruence. }
  assert (ident = re_ident e) as -> by (destruct (eo_leases _ _ Hepoch l le El) as [?|?]; congruence).
  destruct (eo_open _ _ Hepoch) as [Ho Ho1]. rewrite Z.eqb_refl. destruct (re_open_leases e =? 0) eqn:E0; [bool_facts; lia|]. simpl.
  assert (Hbound : 1 <= re_open_leases e <= UINT64_MAX).
  { split; [lia|]. rewrite Ho. etransitivity; [apply lease_tally_bound|]. apply leases_fewer. intros l' le' Hle'. by apply (ok_lease _ Hok l' le'). }
  assert (Hret : forall quiesced s1, core_of s1 = core_of s -> wp (retire l le success (Some e) quiesced) Q s1).
  { intros quiesced s1 Hs1. apply wp_retire; [done|by rewrite Hs1| |].
    - intros e0 [= <-]. rewrite Hs1. split_and!; [apply Hepoch|by apply epoch_prepared|lia|lia].
    - intros s' Hs'. apply HQ; [|done]. rewrite Hs', Hs1. destruct (re_open_leases e =? 1) eqn:E1; bool_facts; [|by apply rel_left].
      destruct (re_committed (leave le success e)) eqn:Ec; [by eapply rel_committed|by eapply rel_restored]. }
  destruct (re_open_leases e =? 1); simpl; [|by apply Hret].
  apply wp_bind, wp_quiesce.
  { rewrite (eo_affected _ _ Hepoch). by apply prepared_known, epoch_prepared. }
  intros [quiesced|bad] s1 Hs1 Hq; [by apply Hret|apply Hrefuse; [done|]]. right. exists e, bad. by destruct Hq.
Qed.

Lemma wp_release s l success : manager_ok s -> wp (release l success) (fun b s' => released (core_of s) l success b (core_of s')) s.
Proof. intros Hok. by apply wp_release_why. Qed.

(** ** Releasing keeps the invariant *)

Lemma lease_no_transaction c l le : core_ok c -> c_leases c !! l = Some le -> c_tx c = None.
Proof. intros Hok Hle. pose proof (ok_transaction _ Hok) as Ht. destruct (c_tx c); [|done]. destruct Ht as (Hemp & _). by rewrite Hemp in Hle. Qed.

Lemma unleased_pins c l le ms : core_ok c -> c_leases c !! l = Some le -> (forall k, m_pins <$> ms !! k = m_pins <$> unpin_all (le_requested le) (c_mods c) !! k) ->
  forall k v, ms !! k = Some v -> m_pins v = pin_count (delete l (c_leases c)) k.
Proof.
  intros Hok Hle Hms k v Hv. destruct (ok_lease _ Hok l le Hle) as (_ & Hnd & _). specialize (Hms k). rewrite unpinned_lookup, Hv in Hms by done.
  destruct (c_mods c !! k) as [v0|] eqn:E0; [|done]. injection Hms as ->. unfold pin_count. rewrite (lease_tally_delete _ _ _ le) by done.
  fold (pin_count (c_leases c) k). pose proof (ok_pins _ Hok k v0 E0) as Hp.
  assert (Hb : pin_count (c_leases c) k <= UINT64_MAX).
  { etransitivity; [apply lease_tally_bound|]. apply leases_fewer. intros l' le' Hle'. by apply (ok_lease _ Hok l' le'). }
  destruct (bool_decide (k ∈ le_requested le)) eqn:Ek; [|by rewrite Hp; simpl; lia].
  apply bool_decide_eq_true in Ek. pose proof (leased_pinned c l le k v0 Hok Hle Ek E0). simpl. rewrite Hp in *. apply wrap64_small. unfold u64. lia.
Qed.

(** The part of the invariant that does not speak of the epoch, for modules that
    agree with the released core up to the residency of unleased modules. *)
Lemma released_base c l le ms e : core_ok c -> c_leases c !! l = Some le ->
  (forall k, m_pins <$> ms !! k = m_pins <$> unpin_all (le_requested le) (c_mods c) !! k) ->
  (forall k, m_desc <$> ms !! k = m_desc <$> c_mods c !! k) ->
  (forall d, resident_total ms d <= budget_usable (c_budgets c) d) ->
  (forall l' le' k, delete l (c_leases c) !! l' = Some le' -> k ∈ le_requested le' -> m_resident <$> ms !! k = m_resident <$> c_mods c !! k) ->
  let c' := (unleased c l le) <| c_epoch := e |> <| c_mods := ms |> in
  match e with None => forall l' le', delete l (c_leases c) !! l' = Some le' -> le_epoch le' = None | Some e => epoch_ok c' e end -> core_ok c'.
Proof.
  intros Hok Hle Hpins Hdesc Hcap Hres c' Hep. split; simpl.
  - apply Hok.
  - eapply trusted_desc; [| |apply Hok]; done.
  - intros id v Hv. specialize (Hdesc id). rewrite Hv in Hdesc. destruct (c_mods c !! id) as [v0|] eqn:E; [|done]. by apply (ok_named _ Hok id v0).
  - eapply residency_sized; [done|apply Hok].
  - done.
  - intros l' le' Hle'. pose proof Hle' as [_ Hle'']%lookup_delete_Some. destruct (ok_lease _ Hok l' le' Hle'') as (? & ? & Hr). split; [done|]. split; [done|].
    intros id Hid. destruct (Hr id Hid) as (v & Hv & Hrv). specialize (Hres l' le' id Hle' Hid). rewrite Hv in Hres.
    destruct (ms !! id) as [v'|]; [|done]. injection Hres as Hres. exists v'. split; [done|congruence].
  - by eapply unleased_pins.
  - by destruct e.
  - by rewrite (lease_no_transaction c l le).
Qed.

(** The epoch with one lease less. *)
Lemma epoch_left c l le e e' : core_ok c -> c_leases c !! l = Some le -> c_epoch c = Some e ->
  re_ident e' = re_ident e -> re_activated e' = re_activated e -> re_affected e' = re_affected e -> re_owners e' = re_owners e ->
  re_open_leases e' = re_open_leases e - (if bool_decide (le_epoch le = Some (re_ident e)) then 1 else 0) -> 0 < re_open_leases e' ->
  epoch_ok ((unleased c l le) <| c_epoch := Some e' |> <| c_mods := unpin_all (le_requested le) (c_mods c) |>) e'.
Proof.
  intros Hok Hle He H1 H2 H3 H4 H5 H6. pose proof (ok_epoch _ Hok) as Hep. rewrite He in Hep.
  destruct (ok_lease _ Hok l le Hle) as (_ & Hnd & _). destruct Hep. split; simpl; rewrite ?H1, ?H2, ?H3, ?H4; try done.
  - split; [|done]. unfold epoch_count. rewrite (lease_tally_delete _ _ _ le) by done. rewrite H5. f_equal. apply eo_open.
  - intros l' le' [_ Hle']%lookup_delete_Some. by eapply eo_leases.
  - intros t Ht. destruct (eo_row t Ht) as ((v & Hv & Hc & Hr) & Ha). split; [|done]. rewrite unpinned_lookup, Hv by done. simpl.
    eexists. split; [done|]. destruct (bool_decide (t_id t ∈ le_requested le)); split; first [exact Hc|exact Hr].
  - intros l' le' id [_ Hle']%lookup_delete_Some. by eapply eo_joined.
  - intros d. rewrite (residency_total (set_rows t_prior (rt_modules (re_owners e)) (c_mods c))); [apply eo_restores|].
    apply set_rows_residency; [done|]. intros k. by apply unpinned_residency.
Qed.

(** When the last lease of the epoch goes, no other lease belongs to it. *)
Lemma last_of_epoch c l le e : core_ok c -> c_leases c !! l = Some le -> c_epoch c = Some e -> le_epoch le = Some (re_ident e) -> re_open_leases e = 1 ->
  forall l' le', delete l (c_leases c) !! l' = Some le' -> le_epoch le' = None.
Proof.
  intros Hok Hle He Hi Ho l' le' Hle'. pose proof (ok_epoch _ Hok) as Hep. rewrite He in Hep. destruct Hep.
  pose proof Hle' as [_ Hle'']%lookup_delete_Some. destruct (eo_leases l' le' Hle'') as [|Hs]; [done|]. exfalso.
  assert (1 <= epoch_count (delete l (c_leases c)) (re_ident e)) as Hpos by (eapply lease_tally_pos; [done|by apply bool_decide_eq_true]).
  unfold epoch_count in Hpos. rewrite (lease_tally_delete _ _ _ le) in Hpos by done. rewrite bool_decide_eq_true_2 in Hpos by done.
  destruct eo_open as [Hopen _]. unfold epoch_count in Hopen. lia.
Qed.

Lemma released_ok c l success b c' : core_ok c -> released c l success b c' -> core_ok c'.
Proof.
  intros Hok. destruct 1 as [|le Hle Hi|le e Hle He Hi Ho|le e Hle He Hi Ho Hc|le e Hle He Hi Ho Hc]; [done|..].
  all: destruct (ok_lease _ Hok l le Hle) as (_ & Hnd & _).
  all: assert (Hd : forall k, m_desc <$> unpin_all (le_requested le) (c_mods c) !! k = m_desc <$> c_mods c !! k)
    by (intros k; rewrite unpinned_lookup by done; destruct (c_mods c !! k); simpl; [|done]; by destruct (bool_decide _)).
  all: assert (Hr : forall k, m_resident <$> unpin_all (le_requested le) (c_mods c) !! k = m_resident <$> c_mods c !! k)
    by (intros k; rewrite unpinned_lookup by done; destruct (c_mods c !! k); simpl; [|done]; by destruct (bool_decide _)).
  all: assert (Hcap : forall d, resident_total (unpin_all (le_requested le) (c_mods c)) d <= budget_usable (c_budgets c) d)
    by (intros d; rewrite (residency_total (c_mods c)) by (intros k; by apply unpinned_residency); apply Hok).
  - apply (released_base c l le _ (c_epoch c)); try done. pose proof (ok_epoch _ Hok) as Hep. destruct (c_epoch c) as [e|] eqn:Ee.
    + apply (epoch_left c l le e e); try done; [rewrite Hi; simpl; lia|apply Hep].
    + intros l' le' [_ Hle']%lookup_delete_Some. by apply (Hep l').
  - assert (Hb : 1 <= re_open_leases e <= UINT64_MAX).
    { pose proof (ok_epoch _ Hok) as Hep. rewrite He in Hep. destruct (eo_open _ _ Hep) as [Hop ?]. split; [lia|]. rewrite Hop.
      etransitivity; [apply lease_tally_bound|]. apply leases_fewer. intros l' le' Hle'. by apply (ok_lease _ Hok l' le'). }
    apply (released_base c l le _ (Some (leave le success e))); try done. destruct e; unfold leave; simpl in *.
    eapply (epoch_left c l le); try done; simpl; rewrite wrap64_small by (unfold u64; lia); [rewrite Hi, bool_decide_eq_true_2 by done; lia|lia].
  - apply (released_base c l le _ None); try done. by eapply last_of_epoch.
  - pose proof (ok_epoch _ Hok) as Hep. rewrite He in Hep. pose proof (last_of_epoch c l le e Hok Hle He Hi Ho) as Hlast. destruct Hep.
    apply (released_base c l le _ None); try done.
    + intros k. by apply set_rows_desc.
    + intros k. rewrite (proj1 (set_rows_desc _ _ _ _ eo_rows)). apply Hd.
    + intros d. rewrite (residency_total (set_rows t_prior (rt_modules (re_owners e)) (c_mods c))); [apply eo_restores|].
      apply set_rows_residency; [done|]. intros k. by apply unpinned_residency.
    + intros l' le' k Hle' Hk. unfold set_rows. rewrite alters_notin; [apply Hr|]. intros (t & -> & Ht)%list_elem_of_fmap.
      specialize (Hlast l' le' Hle'). apply lookup_delete_Some in Hle' as [_ Hle']. destruct (eo_row t Ht) as ((v & Hv & _ & Hres) & Ha).
      destruct (ok_lease _ Hok l' le' Hle') as (_ & _ & Hl). destruct (Hl _ Hk) as (v' & Hv' & Hr'). assert (v' = v) as -> by congruence.
      rewrite Hr' in Hres. specialize (eo_joined l' le' _ Hle' Hk (Ha (eq_sym Hres))). congruence.
Qed.

(** ** Shutdown *)

Lemma released_size c l success c' : released c l success true c' -> S (size (c_leases c')) = size (c_leases c) /\ c_tx c' = c_tx c.
Proof.
  intros H. assert (Hs : forall le, c_leases c !! l = Some le -> S (size (delete l (c_leases c))) = size (c_leases c)).
  { intros le Hle. rewrite map_size_delete_Some by eauto. assert (size (c_leases c) <> 0%nat); [|lia].
    intros Hz%map_size_empty_inv. by rewrite Hz in Hle. }
  inversion H; subst; simpl; eauto.
Qed.

Lemma wp_resolve_all fuel s : manager_ok s -> (size (g_leases s) < fuel)%nat ->
  wp (resolve_all_leases fuel) (fun b s' => manager_ok s' /\ c_tx (core_of s') = c_tx (core_of s) /\ (b = true -> g_leases s' = ∅ /\ g_epoch s' = None)) s.
Proof.
  revert s. induction fuel as [|fuel IH]; intros s Hok Hf; [lia|]. simpl. apply wp_bind, wp_get.
  destruct (bool_decide (g_transaction s <> None)).
  { apply wp_bind, wp_fail. intros s1 Hs1. apply wp_ret. unfold manager_ok. split_and!; [by rewrite Hs1| |done]. change (c_tx (core_of s1) = c_tx (core_of s)). by rewrite Hs1. }
  destruct (in_order Z.le (g_leases s)) as [|[l le] rest] eqn:El.
  - assert (Hemp : g_leases s = ∅).
    { apply map_to_list_empty_iff, Permutation_nil_r. rewrite <- (in_order_perm Z.le). by rewrite El. }
    pose proof (ok_epoch _ Hok) as He. change (c_epoch (core_of s)) with (g_epoch s) in He. destruct (g_epoch s) as [e|] eqn:Ee; simpl.
    + destruct (eo_open _ _ He) as [Ho Ho1]. change (c_leases (core_of s)) with (g_leases s) in Ho. rewrite Hemp in Ho.
      unfold epoch_count, lease_tally in Ho. rewrite msum_empty in Ho. lia.
    + apply wp_ret. done.
  - assert (Hle : g_leases s !! l = Some le) by (apply (elem_of_in_order Z.le); rewrite El; left).
    apply wp_bind. eapply wp_mono; [by apply wp_release|]. intros b s1 Hrel. pose proof (released_ok _ _ _ _ _ Hok Hrel) as Hok1.
    destruct b; [|apply wp_ret; split; [done|]; split; [by inversion Hrel|done]].
    destruct (released_size _ _ _ _ Hrel) as [Hsz Htx]. eapply wp_mono; [apply IH; [done|]|].
    + change (size (c_leases (core_of s1)) < fuel)%nat. change (g_leases s) with (c_leases (core_of s)) in Hf. lia.
    + intros b s2 (? & ? & ?). split_and!; [done|simpl in *; congruence|done].
Qed.

End release.
