(* ===== verification/TransientPolicy.v ===== *)
(** * Policy transactions of the transient module manager

    The plan of [prepare_policy], the effect of each policy step of [Transient] on
    the core of the manager, and that they keep the invariant. *)

From S2P Require Import Prelude Accounting Transient TransientRoom TransientLogic TransientInv TransientLease.
From stdpp Require Import strings pretty.
Open Scope string_scope.
Open Scope Z_scope.
Open Scope list_scope.

Section policy.
Context {W : Type} {A0 : Abort}.
Implicit Types (s : manager W) (c : core W) (v m : module_entry W) (ms : gmap string (module_entry W)) (rows : list policy_transition).

(** ** Placing modules *)

Lemma placed_in f g rows ms t : NoDup (pt_id <$> rows) -> t ∈ rows -> placed f g rows ms !! pt_id t = set_placed (f t) (g t) <$> ms !! pt_id t.
Proof. apply (alters_in pt_id (fun t => set_placed (f t) (g t))). Qed.

Lemma placed_notin f g rows ms k : k ∉ pt_id <$> rows -> placed f g rows ms !! k = ms !! k.
Proof. apply alters_notin. Qed.

Lemma placed_placed f g f' g' rows ms : NoDup (pt_id <$> rows) -> placed f g rows (placed f' g' rows ms) = placed f g rows ms.
Proof.
  intros Hnd. apply map_eq. intros k. destruct (decide (k ∈ pt_id <$> rows)) as [(t & -> & Ht)%list_elem_of_fmap|Hk].
  - rewrite !placed_in by done. by destruct (ms !! pt_id t).
  - by rewrite !placed_notin.
Qed.

Lemma placed_desc f g rows ms k : NoDup (pt_id <$> rows) ->
  m_desc <$> placed f g rows ms !! k = m_desc <$> ms !! k /\ m_pins <$> placed f g rows ms !! k = m_pins <$> ms !! k.
Proof.
  intros Hnd. destruct (decide (k ∈ pt_id <$> rows)) as [(t & -> & Ht)%list_elem_of_fmap|Hk].
  - rewrite placed_in by done. by destruct (ms !! pt_id t).
  - by rewrite placed_notin.
Qed.

(** Rows up to their published flag. *)
Definition strip (t : policy_transition) : policy_transition := t <| pt_published := false |>.
Lemma cons_equal_inv {B} (x y : B) l l' : x :: l = y :: l' -> x = y /\ l = l'.
Proof. intros [= -> ->]. done. Qed.

Definition same_rows rows rows' : Prop := strip <$> rows = strip <$> rows'.

Lemma same_rows_map {B} (f : policy_transition -> B) rows rows' : (forall t, f t = f (strip t)) -> same_rows rows rows' -> f <$> rows = f <$> rows'.
Proof.
  intros Hf. revert rows'. induction rows as [|t rows IH]; intros [|t' rows'] H; try done. unfold same_rows in H.
  rewrite !fmap_cons in *. apply cons_equal_inv in H as [Ht H]. rewrite (Hf t), Ht, <- Hf. f_equal. by apply IH.
Qed.

Lemma same_rows_placed f g rows rows' ms : (forall t, f t = f (strip t)) -> (forall t, g t = g (strip t)) -> same_rows rows rows' -> placed f g rows ms = placed f g rows' ms.
Proof.
  intros Hf Hg. unfold placed, alters. revert rows' ms. induction rows as [|t rows IH]; intros [|t' rows'] ms H; try done.
  unfold same_rows in H. rewrite !fmap_cons in H. apply cons_equal_inv in H as [Ht H]. simpl.
  assert (Hid : pt_id t = pt_id t') by (destruct t, t'; unfold strip in Ht; simpl in *; congruence).
  rewrite Hid, (Hf t), (Hg t), Ht, <- Hf, <- Hg. by apply IH.
Qed.

Lemma strip_fields (t : policy_transition) : pt_id t = pt_id (strip t) /\ pt_handle t = pt_handle (strip t) /\ pt_prior_enabled t = pt_prior_enabled (strip t) /\
  pt_target_enabled t = pt_target_enabled (strip t) /\ pt_prior_resident t = pt_prior_resident (strip t) /\ pt_target_resident t = pt_target_resident (strip t).
Proof. by destruct t. Qed.

Lemma same_rows_ids rows rows' : same_rows rows rows' -> pt_id <$> rows = pt_id <$> rows'.
Proof. apply same_rows_map. intros t. apply strip_fields. Qed.

Definition owned c (t : policy_transition) : Prop := pt_handle t <> None -> prepared c (pt_id t).

Lemma same_rows_owned c rows rows' : same_rows rows rows' -> Forall (owned c) rows -> Forall (owned c) rows'.
Proof.
  revert rows'. induction rows as [|t rows IH]; intros [|t' rows'] H HF; try done. unfold same_rows in H. rewrite !fmap_cons in H. apply cons_equal_inv in H as [Ht H].
  apply Forall_cons in HF as [Ho HF]. constructor; [|by apply IH]. unfold owned in *.
  destruct (strip_fields t) as (Hi & Hh & _), (strip_fields t') as (Hi' & Hh' & _). rewrite Hi', Hh', <- Ht, <- Hi, <- Hh. done.
Qed.

Lemma transaction_rows c tx rows p : same_rows (px_modules tx) rows -> transaction_ok c tx ->
  transaction_ok c (tx <| px_modules := rows |> <| px_poisoned := p |>).
Proof.
  intros Hs []. pose proof (same_rows_ids _ _ Hs) as Hids.
  assert (Hp : forall ms, placed pt_prior_enabled pt_prior_resident rows ms = placed pt_prior_enabled pt_prior_resident (px_modules tx) ms)
    by (intros ms; symmetry; apply same_rows_placed; try done; intros t; apply strip_fields).
  assert (Ht : forall ms, placed pt_target_enabled pt_target_resident rows ms = placed pt_target_enabled pt_target_resident (px_modules tx) ms)
    by (intros ms; symmetry; apply same_rows_placed; try done; intros t; apply strip_fields).
  destruct tx; unfold on_side in *; simpl in *. split; unfold on_side; simpl; rewrite <- ?Hids, ?Hp, ?Ht; try done.
  - by apply (same_rows_owned c px_modules).
Qed.

(** ** The callbacks of the rows *)

Lemma same_rows_app a b a' b' : same_rows a a' -> same_rows b b' -> same_rows (a ++ b) (a' ++ b').
Proof. unfold same_rows. rewrite !fmap_app. congruence. Qed.

Lemma same_rows_reverse a a' : same_rows a a' -> same_rows (reverse a) (reverse a').
Proof. unfold same_rows. rewrite !fmap_reverse. congruence. Qed.

Lemma strip_published b t : strip (t <| pt_published := b |>) = strip t.
Proof. by destruct t. Qed.

Lemma owned_published c b t : owned c (t <| pt_published := b |>) <-> owned c t.
Proof. by destruct t. Qed.

Lemma wp_moved m (Q : unit -> manager W -> Prop) s : (forall s', core_of s' = core_of s -> Q tt s') -> wp (moved m) Q s.
Proof. apply wp_count. Qed.

Lemma wp_restore_rows l after restored any (Q : list policy_transition * bool * bool -> manager W -> Prop) s :
  Forall (owned (core_of s)) l ->
  (forall rows r a s', core_of s' = core_of s -> same_rows (reverse l ++ after) rows -> Q (rows, r, a) s') -> wp (restore_rows l after restored any) Q s.
Proof.
  revert after restored any s. induction l as [|t l IH]; intros after restored any s Hl HQ; simpl; [by apply wp_ret, HQ|].
  apply Forall_cons in Hl as [Ho Hl].
  assert (Hgo : forall t' r a s', strip t' = strip t -> core_of s' = core_of s -> wp (restore_rows l (t' :: after) r a) Q s').
  { intros t' r a s' Ht Hs'. apply IH; [by rewrite Hs'|]. intros rows r' a' s'' Hs'' Hr. apply HQ; [congruence|].
    unfold same_rows in *. rewrite <- Hr, reverse_cons, <- app_assoc, !fmap_app. simpl. by rewrite Ht. }
  destruct (pt_published t); [|by apply Hgo]. destruct (pt_handle t) as [h|] eqn:Eh; [|by apply Hgo].
  destruct (Ho ltac:(by rewrite Eh)) as (v & Hv & Hcb). apply wp_bind, (wp_at_module _ _ _ _ Hv). intros mm Hm _.
  destruct (callbacks_present mm _ Hm Hcb) as (_ & _ & [f Hrb] & _). unfold call_rollback. rewrite Hrb.
  apply wp_bind, wp_call. intros [[] text] s1 Hs1; [|by apply Hgo]. apply wp_bind, wp_moved. intros s2 Hs2. apply Hgo; [apply strip_published|congruence].
Qed.

Lemma wp_publish_rows l passed (Q : result (list policy_transition * bool * string) (list policy_transition) -> manager W -> Prop) s :
  Forall (owned (core_of s)) l -> Forall (owned (core_of s)) passed ->
  (forall rows s', core_of s' = core_of s -> same_rows (reverse passed ++ l) rows -> Q (Ok rows) s') ->
  (forall rows r id s', core_of s' = core_of s -> same_rows (reverse passed ++ l) rows -> Q (Err (rows, r, id)) s') -> wp (publish_rows l passed) Q s.
Proof.
  revert passed s. induction l as [|t l IH]; intros passed s Hl Hp Hok Herr; simpl; [apply wp_ret, Hok; [done|by rewrite app_nil_r]|].
  apply Forall_cons in Hl as [Ho Hl].
  assert (Hgo : forall t' s', strip t' = strip t -> owned (core_of s) t' -> core_of s' = core_of s -> wp (publish_rows l (t' :: passed)) Q s').
  { intros t' s' Ht Ho' Hs'.
    assert (Heq : same_rows (reverse passed ++ t :: l) (reverse (t' :: passed) ++ l))
      by (unfold same_rows; rewrite reverse_cons, <- app_assoc, !fmap_app; simpl; by rewrite Ht).
    apply IH; [by rewrite Hs'|rewrite Hs'; by constructor| |].
    - intros rows s'' Hs'' Hr. apply Hok; [congruence|]. unfold same_rows in *. congruence.
    - intros rows r id s'' Hs'' Hr. apply Herr; [congruence|]. unfold same_rows in *. congruence. }
  destruct (pt_handle t) as [h|] eqn:Eh; [|by apply Hgo].
  destruct (Ho ltac:(by rewrite Eh)) as (v & Hv & Hcb). apply wp_bind, (wp_at_module _ _ _ _ Hv). intros mm Hm _.
  destruct (callbacks_present mm _ Hm Hcb) as (_ & [f Hpub] & _). unfold call_publish. rewrite Hpub.
  apply wp_bind, wp_call. intros [[] text] s1 Hs1.
  - apply wp_bind, wp_moved. intros s2 Hs2. apply Hgo; [apply strip_published|by apply owned_published|congruence].
  - apply wp_bind, wp_restore_rows; [by rewrite Hs1|]. intros rows r a s2 Hs2 Hr.
    apply wp_bind. destruct a; [apply wp_count; intros s3 Hs3|apply wp_ret]; apply wp_ret, Herr; congruence.
Qed.

Lemma wp_redo_rows l redone r (Q : list policy_transition * bool -> manager W -> Prop) s : Forall (owned (core_of s)) l ->
  (forall rows r s', core_of s' = core_of s -> same_rows (redone ++ l) rows -> Q (rows, r) s') -> wp (redo_rows l redone r) Q s.
Proof.
  revert redone r s. induction l as [|t l IH]; intros redone r s Hl HQ; simpl; [apply wp_ret, HQ; [done|by rewrite app_nil_r]|].
  apply Forall_cons in Hl as [Ho Hl].
  assert (Hgo : forall t' r s', strip t' = strip t -> core_of s' = core_of s -> wp (redo_rows l (redone ++ [t']) r) Q s').
  { intros t' r' s' Ht Hs'. apply IH; [by rewrite Hs'|]. intros rows r'' s'' Hs'' Hr. apply HQ; [congruence|].
    unfold same_rows in *. rewrite <- Hr, <- app_assoc, !fmap_app. simpl. by rewrite Ht. }
  destruct (pt_published t); [by apply Hgo|]. destruct (pt_handle t) as [h|] eqn:Eh; [|by apply Hgo].
  destruct (Ho ltac:(by rewrite Eh)) as (v & Hv & Hcb). apply wp_bind, (wp_at_module _ _ _ _ Hv). intros mm Hm _.
  destruct (callbacks_present mm _ Hm Hcb) as (_ & [f Hpub] & _). unfold call_publish. rewrite Hpub.
  apply wp_bind, wp_call. intros [ok text] s1 Hs1. apply wp_bind. destruct ok; [apply wp_moved; intros s2 Hs2|apply wp_ret];
    (apply Hgo; [apply strip_published|congruence]).
Qed.

Lemma wp_rollback_rows l after (Q : result (list policy_transition * bool * string) (list policy_transition) -> manager W -> Prop) s :
  Forall (owned (core_of s)) l -> Forall (owned (core_of s)) after ->
  (forall rows s', core_of s' = core_of s -> same_rows (reverse l ++ after) rows -> Q (Ok rows) s') ->
  (forall rows r id s', core_of s' = core_of s -> same_rows (reverse l ++ after) rows -> Q (Err (rows, r, id)) s') -> wp (rollback_rows l after) Q s.
Proof.
  revert after s. induction l as [|t l IH]; intros after s Hl Ha Hok Herr; simpl; [by apply wp_ret, Hok|].
  apply Forall_cons in Hl as [Ho Hl].
  assert (Hgo : forall t' s', strip t' = strip t -> owned (core_of s) t' -> core_of s' = core_of s -> wp (rollback_rows l (t' :: after)) Q s').
  { intros t' s' Ht Ho' Hs'.
    assert (Heq : same_rows (reverse (t :: l) ++ after) (reverse l ++ t' :: after))
      by (unfold same_rows; rewrite reverse_cons, <- app_assoc, !fmap_app; simpl; by rewrite Ht).
    apply IH; [by rewrite Hs'|rewrite Hs'; by constructor| |].
    - intros rows s'' Hs'' Hr. apply Hok; [congruence|]. unfold same_rows in *. congruence.
    - intros rows r id s'' Hs'' Hr. apply Herr; [congruence|]. unfold same_rows in *. congruence. }
  destruct (pt_published t); [|by apply Hgo]. destruct (pt_handle t) as [h|] eqn:Eh; [|by apply Hgo].
  destruct (Ho ltac:(by rewrite Eh)) as (v & Hv & Hcb). apply wp_bind, (wp_at_module _ _ _ _ Hv). intros mm Hm _.
  destruct (callbacks_present mm _ Hm Hcb) as (_ & _ & [f Hrb] & _). unfold call_rollback. rewrite Hrb.
  apply wp_bind, wp_call. intros [[] text] s1 Hs1.
  - apply wp_bind, wp_moved. intros s2 Hs2. apply Hgo; [apply strip_published|by apply owned_published|congruence].
  - apply wp_bind, wp_redo_rows; [by rewrite Hs1|]. intros redone r s2 Hs2 Hr. apply wp_ret, Herr; [congruence|].
    rewrite reverse_cons, <- app_assoc. change ([t] ++ after) with (t :: after). change ([] ++ after) with after in Hr.
    unfold same_rows in *. rewrite !fmap_app, !fmap_cons. congruence.
Qed.

Lemma wp_finalize_rows l (Q : option string -> manager W -> Prop) s : Forall (owned (core_of s)) l ->
  (forall r s', core_of s' = core_of s -> Q r s') -> wp (finalize_rows l) Q s.
Proof.
  revert s. induction l as [|t l IH]; intros s Hl HQ; simpl; [by apply wp_ret, HQ|]. apply Forall_cons in Hl as [Ho Hl].
  destruct (pt_handle t) as [h|] eqn:Eh; [|by apply IH].
  destruct (Ho ltac:(by rewrite Eh)) as (v & Hv & Hcb). apply wp_bind, (wp_at_module _ _ _ _ Hv). intros mm Hm _.
  destruct (callbacks_present mm _ Hm Hcb) as (_ & _ & _ & [f Hfin] & _). unfold call_finalize. rewrite Hfin.
  apply wp_bind, wp_call. intros [[] text] s1 Hs1; [|by apply wp_ret, HQ]. apply IH; [by rewrite Hs1|]. intros r s2 Hs2. apply HQ. congruence.
Qed.

Lemma wp_free_policy_owners l (Q : unit -> manager W -> Prop) s : Forall (owned (core_of s)) l ->
  (forall s', core_of s' = core_of s -> Q tt s') -> wp (free_policy_owners l) Q s.
Proof.
  intros Hl. apply wp_each_keeps. intros t s' Ht Hs'. rewrite Forall_forall in Hl. specialize (Hl t Ht).
  destruct (pt_handle t) as [h|] eqn:Eh; [|by apply wp_ret]. apply wp_free_handle; [rewrite Hs'; apply Hl; by rewrite Eh|congruence].
Qed.

(** ** Preparing the rows *)

Definition bare (t : policy_transition) : policy_transition := t <| pt_handle := None |>.

Lemma wp_prepare_rows l acc (Q : result (string * list policy_transition) (list policy_transition) -> manager W -> Prop) s :
  Forall (fun t => pt_handle t = None /\ (moves t = true -> prepared (core_of s) (pt_id t))) l -> Forall (owned (core_of s)) acc ->
  (forall rows s', core_of s' = core_of s -> bare <$> rows = bare <$> (acc ++ l) -> Forall (owned (core_of s)) rows -> Q (Ok rows) s') ->
  (forall id rows s', core_of s' = core_of s -> Forall (owned (core_of s)) rows -> Q (Err (id, rows)) s') -> wp (prepare_rows l acc) Q s.
Proof.
  revert acc s. induction l as [|t l IH]; intros acc s Hl Hacc Hok Herr; simpl; [apply wp_ret, Hok; [done|by rewrite app_nil_r|done]|].
  apply Forall_cons in Hl as [[Hh Hm] Hl].
  assert (Hgo : forall t' s', bare t' = bare t -> owned (core_of s) t' -> core_of s' = core_of s -> wp (prepare_rows l (acc ++ [t'])) Q s').
  { intros t' s' Ht Ho Hs'. apply IH.
    - eapply Forall_impl; [exact Hl|]. by rewrite Hs'.
    - rewrite Hs'. apply Forall_app. split; [done|]. by apply Forall_singleton.
    - intros rows s'' Hs'' Hb Ho'. rewrite Hs' in *. apply Hok; [congruence| |done]. rewrite Hb, <- app_assoc, !fmap_app. f_equal. rewrite !fmap_cons. by rewrite Ht.
    - intros id rows s'' Hs'' Ho'. rewrite Hs' in *. apply Herr; [congruence|done]. }
  destruct (moves t) eqn:Em; simpl; [|apply Hgo; [done| |done]; by intros ?].
  destruct (Hm eq_refl) as (v & Hv & Hcb). pose proof Hv as Hv'. apply wp_bind, (wp_at_module _ _ _ _ Hv). intros mm Hmm _.
  destruct (callbacks_present mm _ Hmm Hcb) as ([f Hprep] & _). unfold call_prepare. rewrite Hprep.
  apply wp_bind, wp_call. intros [[h|] text] s1 Hs1; [|by apply wp_ret, Herr].
  apply Hgo; [by destruct t| |done]. intros _. exists v. by destruct t.
Qed.

Lemma bare_fields (t : policy_transition) : pt_id t = pt_id (bare t) /\ pt_prior_enabled t = pt_prior_enabled (bare t) /\
  pt_target_enabled t = pt_target_enabled (bare t) /\ pt_prior_resident t = pt_prior_resident (bare t) /\ pt_target_resident t = pt_target_resident (bare t).
Proof. by destruct t. Qed.

Lemma bare_placed f g rows rows' ms : (forall t, f t = f (bare t)) -> (forall t, g t = g (bare t)) -> bare <$> rows = bare <$> rows' -> placed f g rows ms = placed f g rows' ms.
Proof.
  intros Hf Hg. unfold placed, alters. revert rows' ms. induction rows as [|t rows IH]; intros [|t' rows'] ms H; try done.
  rewrite !fmap_cons in H. apply cons_equal_inv in H as [Ht H]. simpl.
  rewrite (proj1 (bare_fields t)), (Hf t), (Hg t), Ht, <- Hf, <- Hg, <- (proj1 (bare_fields t')). by apply IH.
Qed.

Lemma bare_enabled rows rows' (P : string -> bool -> Prop) : bare <$> rows' = bare <$> rows ->
  (forall t, t ∈ rows -> P (pt_id t) (pt_target_enabled t)) -> forall t, t ∈ rows' -> P (pt_id t) (pt_target_enabled t).
Proof.
  intros Heq Hrows t Ht. apply (list_elem_of_fmap_2 bare) in Ht. rewrite Heq in Ht. apply list_elem_of_fmap in Ht as (t' & Hb & Ht').
  destruct (bare_fields t) as (-> & _ & -> & _). rewrite Hb. destruct (bare_fields t') as (<- & _ & <- & _). by apply Hrows.
Qed.

Lemma bare_ids rows rows' : bare <$> rows = bare <$> rows' -> pt_id <$> rows = pt_id <$> rows'.
Proof.
  revert rows'. induction rows as [|t rows IH]; intros [|t' rows'] H; try done. rewrite !fmap_cons in *. apply cons_equal_inv in H as [Ht H].
  rewrite (proj1 (bare_fields t)), Ht, <- (proj1 (bare_fields t')). f_equal. by apply IH.
Qed.

(** ** Setting the budgets *)

Lemma wp_set_budgets (budgets : gmap Z device_budget) (Q : unit -> manager W -> Prop) s : dom budgets = dom (g_budgets s) ->
  (forall s', core_of s' = (core_of s) <| c_budgets := budgets |> -> Q tt s') -> wp (set_budgets budgets) Q s.
Proof.
  intros Hdom HQ. unfold set_budgets. set (l := in_order Z.le budgets).
  eapply wp_mono; [apply (wp_each set_budget (fun seen s' => dom (g_budgets s') = dom (g_budgets s) /\ core_of s' = (core_of s) <| c_budgets := g_budgets s' |> /\
    (forall d b, (d, b) ∈ seen -> g_budgets s' !! d = Some b)) l [])|].
  - split; [done|]. split; [by destruct s|]. intros d b Hin%elem_of_nil. done.
  - intros pre [d b] post s1 Heq (Hd & Hc & Hseen). simpl in Heq. unfold wp, set_budget. simpl.
    assert (Hb : budgets !! d = Some b) by (apply (elem_of_in_order Z.le); fold l; rewrite <- Heq; set_solver).
    assert (Hin : is_Some (g_budgets s1 !! d)) by (apply elem_of_dom; rewrite Hd, <- Hdom; apply elem_of_dom; eauto).
    rewrite bool_decide_eq_true_2 by done. split_and!.
    + destruct s1; simpl in *. rewrite dom_insert_L, Hd. apply elem_of_dom in Hin. set_solver.
    + destruct s1; simpl in *. unfold core_of, set_field in *. simpl in *. congruence.
    + intros d' b' [Hin'|Hin']%elem_of_app.
      * assert (Hne : d' <> d).
        { intros ->. pose proof (NoDup_in_order Z.le budgets) as Hnd. fold l in Hnd. rewrite <- Heq, fmap_app in Hnd. apply NoDup_app in Hnd as (_ & Hdis & _).
          apply (Hdis d); [apply list_elem_of_fmap; by exists (d, b')|]. rewrite fmap_cons. left. }
        destruct s1; simpl in *. rewrite lookup_insert_ne by done. by apply Hseen.
      * apply list_elem_of_singleton in Hin' as [= -> ->]. destruct s1; simpl. by rewrite lookup_insert_eq.
  - intros [] s' (Hd & Hc & Hseen). simpl in Hseen. apply HQ. rewrite Hc. replace (g_budgets s') with budgets; [done|]. apply map_eq. intros d. symmetry.
    destruct (budgets !! d) as [b|] eqn:Eb; [apply Hseen; by apply elem_of_in_order|].
    apply not_elem_of_dom. rewrite Hd, <- Hdom. by apply not_elem_of_dom.
Qed.

(** ** The plan of a policy *)

(** The aggregate modules, when there are any, are modules of their kinds. *)
Lemma policy_ids_kinds l st r : foldM policy_ids_step l st = Ok r ->
  (fst r = fst st \/ exists m, (fst r, m) ∈ l /\ md_kind (m_desc m) = kind_mtp) /\
  (snd r = snd st \/ exists m, (snd r, m) ∈ l /\ md_kind (m_desc m) = kind_vision).
Proof.
  revert st. induction l as [|[id m] l IH]; intros st H; [injection H as <-; auto|].
  apply foldM_cons_ok in H as (st1 & H1 & H2). destruct (IH st1 H2) as [Ha Hb]. unfold policy_ids_step in H1. simpl in H1.
  destruct (md_kind (m_desc m)) eqn:Ek; try done.
  - destruct (bool_decide (fst st = "")); [|done]. injection H1 as <-. simpl in *. split.
    + right. destruct Ha as [->|(m' & ? & ?)]; [exists m; split; [left|done]|exists m'; split; [by right|done]].
    + destruct Hb as [->|(m' & ? & ?)]; [by left|right; exists m'; split; [by right|done]].
  - destruct (bool_decide (snd st = "")); [|done]. injection H1 as <-. simpl in *. split.
    + destruct Ha as [->|(m' & ? & ?)]; [by left|right; exists m'; split; [by right|done]].
    + right. destruct Hb as [->|(m' & ? & ?)]; [exists m; split; [left|done]|exists m'; split; [by right|done]].
Qed.

(** The module that stays resident is enabled. *)
Lemma preferred_enabled ms target mtp mm :
  foldM policy_ids_step (in_order String.le ms) ("", "") = Ok (mtp, mm) -> let p := preferred_module ms target mtp mm in
  p <> "" -> target_enabled target mtp p = true.
Proof.
  intros Hids p Hp. destruct (policy_ids_kinds _ _ _ Hids) as [Ha Hb]. simpl in *. unfold target_enabled. destruct target; simpl in *.
  - by destruct Hp.
  - by destruct (bool_decide (p = mtp)).
  - by rewrite bool_decide_eq_true_2.
  - rewrite bool_decide_eq_false_2; [done|]. unfold p in *. simpl in *. intros ->. destruct Hb as [|(m & Hm & Hk)]; [done|].
    destruct Ha as [|(m' & Hm' & Hk')]; [done|]. apply elem_of_in_order in Hm, Hm'. congruence.
Qed.

Lemma policy_required_ge target mtp d l :
  0 <= policy_required target mtp d l /\
  (forall k m, (k, m) ∈ l -> target_enabled target mtp k = true -> m_device m = d -> m_bytes m <= policy_required target mtp d l).
Proof.
  unfold policy_required. set (f := fun required pair => _).
  assert (Hmono : forall l (x : Z), x <= foldl f x l).
  { clear. induction l as [|a l IH]; intros x; simpl; [lia|]. etransitivity; [|apply IH]. unfold f. destruct (_ && _); lia. }
  split; [apply Hmono|]. generalize 0. induction l as [|[k' m'] l IH]; intros x k m Hin He Hd; [by apply elem_of_nil in Hin|].
  apply elem_of_cons in Hin as [[= -> ->]|Hin]; simpl; [|by eapply IH].
  etransitivity; [|apply Hmono]. unfold f. simpl. rewrite He, (proj2 (Z.eqb_eq _ _) Hd). simpl. lia.
Qed.

Lemma policy_budgets target mtp (l : list (string * module_entry W)) bl acc res : NoDup (fst <$> bl) -> foldM (policy_budget target mtp l) bl acc = Ok res ->
  (forall d b, (d, b) ∈ bl -> res !! d = Some (b <| b_capacity := policy_required target mtp d l + b_margin b |>)) /\
  (forall d, d ∉ fst <$> bl -> res !! d = acc !! d).
Proof.
  revert acc. induction bl as [|[d b] bl IH]; intros acc Hnd H; [injection H as <-; split; [by intros ? ? ?%elem_of_nil|done]|].
  rewrite fmap_cons in Hnd. apply NoDup_cons in Hnd as [Hd Hnd]. apply foldM_cons_ok in H as (acc1 & H1 & H2).
  destruct (IH acc1 Hnd H2) as [Ha Hb]. unfold policy_budget in H1. destruct (_ <=? _); [|done]. injection H1 as <-. split.
  - intros d' b' [[= -> ->]|Hin]%elem_of_cons; [|by apply Ha]. rewrite Hb by done. by rewrite lookup_insert_eq.
  - intros d' [Hne Hin]%not_elem_of_cons. rewrite Hb by done. by rewrite lookup_insert_ne.
Qed.

(** The plan read off the modules themselves: a policy enables the modules of its
    kinds, and gives a device the largest of them and its safety margin. *)
Definition target_enables (target : transient_policy) (m : module_entry W) : bool :=
  match md_kind (m_desc m) with
  | kind_mtp => enable_mtp target
  | kind_vision => enable_multimodal target
  | _ => false
  end.

Definition target_budget (ms : gmap string (module_entry W)) (target : transient_policy) (d : Z) (b b' : device_budget) : Prop :=
  exists largest, b' = b <| b_capacity := largest + b_margin b |> /\
    (forall id m, ms !! id = Some m -> m_device m = d -> target_enables target m = true -> m_bytes m <= largest) /\
    (largest = 0 \/ exists id m, ms !! id = Some m /\ m_device m = d /\ target_enables target m = true /\ m_bytes m = largest).

(** Once an ID is taken it stays: a second module of the kind is refused. *)
Lemma policy_ids_stay (l : list (string * module_entry W)) st r : foldM policy_ids_step l st = Ok r ->
  (fst st <> "" -> fst r = fst st) /\ (snd st <> "" -> snd r = snd st).
Proof.
  revert st. induction l as [|[id m] l IH]; intros st Hf; [by injection Hf as <-|].
  apply foldM_cons_ok in Hf as (st1 & H1 & H2). destruct (IH st1 H2) as [Ha Hb]. unfold policy_ids_step in H1. simpl in H1.
  destruct (md_kind (m_desc m)); try done.
  - case_bool_decide as E; [|done]. injection H1 as <-. simpl in *. by split.
  - case_bool_decide as E; [|done]. injection H1 as <-. simpl in *. by split.
Qed.

Lemma policy_ids_found (l : list (string * module_entry W)) st r : foldM policy_ids_step l st = Ok r -> (forall id m, (id, m) ∈ l -> id <> "") ->
  forall id m, (id, m) ∈ l -> md_kind (m_desc m) = kind_mtp /\ id = fst r \/ md_kind (m_desc m) = kind_vision /\ id = snd r.
Proof.
  revert st. induction l as [|[id0 m0] l IH]; intros st Hf Hne id m Hin; [by apply elem_of_nil in Hin|].
  apply foldM_cons_ok in Hf as (st1 & H1 & H2). apply elem_of_cons in Hin as [[= -> ->]|Hin].
  - pose proof (Hne id0 m0 ltac:(left)) as Hid. destruct (policy_ids_stay _ _ _ H2) as [Ha Hb]. unfold policy_ids_step in H1. simpl in H1.
    destruct (md_kind (m_desc m0)); try done; (case_bool_decide; [|done]); injection H1 as <-; simpl in *; [left|right];
      (split; [done|]); symmetry; [by apply Ha|by apply Hb].
  - eapply IH; [exact H2| |done]. intros id1 m1 Hin1. apply (Hne id1 m1). by right.
Qed.

Lemma target_enabled_kind (ms : gmap string (module_entry W)) target mtp mm id m :
  foldM policy_ids_step (in_order String.le ms) ("", "") = Ok (mtp, mm) -> (forall k v, ms !! k = Some v -> k <> "") ->
  ms !! id = Some m -> target_enabled target mtp id = target_enables target m.
Proof.
  intros Hids Hne Hm. unfold target_enabled, target_enables.
  assert (Hne' : forall k v, (k, v) ∈ in_order String.le ms -> k <> "") by (intros k v Hk%elem_of_in_order; by eapply Hne).
  destruct (policy_ids_found _ _ _ Hids Hne' id m) as [[-> Hid]|[-> Hid]]; [by apply elem_of_in_order|by rewrite bool_decide_eq_true_2|].
  rewrite bool_decide_eq_false_2; [done|]. intros ->. destruct (policy_ids_kinds _ _ _ Hids) as [[Hmtp|(m1 & Hm1 & Hk1)] Hvision]; simpl in *.
  - by apply (Hne mtp m).
  - apply elem_of_in_order in Hm1. destruct Hvision as [Hmm|(m2 & Hm2 & Hk2)]; [apply (Hne mtp m); [done|congruence]|].
    apply elem_of_in_order in Hm2. congruence.
Qed.

Lemma policy_required_attained target mtp d (l : list (string * module_entry W)) :
  policy_required target mtp d l = 0 \/
  exists k m, (k, m) ∈ l /\ target_enabled target mtp k = true /\ m_device m = d /\ m_bytes m = policy_required target mtp d l.
Proof.
  unfold policy_required. set (f := fun required pair => _).
  assert (Hgen : forall x, foldl f x l = x \/
    exists k m, (k, m) ∈ l /\ target_enabled target mtp k = true /\ m_device m = d /\ m_bytes m = foldl f x l); [|apply Hgen].
  induction l as [|[k m] l IH]; intros x; simpl; [by left|].
  destruct (IH (f x (k, m))) as [Heq|(k' & m' & ? & ?)]; [|right; exists k', m'; split; [by right|done]].
  rewrite Heq. unfold f. simpl. destruct (target_enabled target mtp k && (m_device m =? d)) eqn:E; [|by left].
  destruct (Z.max_spec x (m_bytes m)) as [[_ ->]|[_ ->]]; [|by left]. right. exists k, m. bool_facts. split; [left|done].
Qed.

Definition row_for (target : transient_policy) (mtp preferred : string) (pair : string * module_entry W) : policy_transition :=
  mk_policy_transition (fst pair) None (m_enabled (snd pair)) (target_enabled target mtp (fst pair)) (m_resident (snd pair))
    (negb (bool_decide (preferred = "")) && bool_decide (fst pair = preferred)) false.

Lemma policy_rows target mtp preferred l acc res : foldM (policy_row target mtp preferred) l acc = Ok res ->
  res = acc ++ (row_for target mtp preferred <$> l) /\
  Forall (fun pair => moves (row_for target mtp preferred pair) = true -> prepared_callbacks (m_desc (snd pair)) = true) l.
Proof.
  revert acc. induction l as [|[id m] l IH]; intros acc H; [injection H as <-; rewrite app_nil_r; by split|].
  apply foldM_cons_ok in H as (acc1 & H1 & H2). destruct (IH acc1 H2) as [-> HF]. unfold policy_row in H1.
  destruct (Bool.eqb _ _ || _) eqn:E; [|done]. injection H1 as <-. split; [by rewrite <- app_assoc|]. constructor; [|done].
  unfold moves, row_for. simpl. intros Hm%negb_true_iff. rewrite Hm in E. done.
Qed.

Lemma partition_perm rows : filter (fun t => pt_target_resident t = false) rows ++ filter (fun t => pt_target_resident t = true) rows ≡ₚ rows.
Proof.
  induction rows as [|t rows IH]; [done|]. rewrite !filter_cons. destruct (pt_target_resident t) eqn:E.
  - rewrite decide_False, decide_True by congruence. rewrite <- Permutation_middle. by constructor.
  - rewrite decide_True, decide_False by congruence. simpl. by constructor.
Qed.

Record plan_ok c (budgets : gmap Z device_budget) rows : Prop := {
  pl_dom : dom budgets = dom (c_budgets c);
  pl_nodup : NoDup (pt_id <$> rows);
  pl_known : forall id, known c id <-> id ∈ pt_id <$> rows;
  pl_rows : Forall (fun t => pt_handle t = None /\ (moves t = true -> prepared c (pt_id t)) /\
    exists v, c_mods c !! pt_id t = Some v /\ pt_prior_enabled t = m_enabled v /\ pt_prior_resident t = m_resident v) rows;
  pl_fits : forall d, resident_total (placed pt_target_enabled pt_target_resident rows (c_mods c)) d <= budget_usable budgets d;
}.

(** Only the preferred module is resident after the change. *)
Lemma preferred_total ms rows p d :
  NoDup (pt_id <$> rows) -> (forall k v, ms !! k = Some v -> exists t, t ∈ rows /\ pt_id t = k /\ pt_target_resident t = negb (bool_decide (p = "")) && bool_decide (k = p)) ->
  resident_total (placed pt_target_enabled pt_target_resident rows ms) d =
  match ms !! p with Some v => if negb (bool_decide (p = "")) && (m_device v =? d) then m_bytes v else 0 | None => 0 end.
Proof.
  intros Hnd Hrows. set (h := fun (k : string) v => if bool_decide (k ∈ pt_id <$> rows) then set_resident (negb (bool_decide (p = "")) && bool_decide (k = p)) v else v).
  assert (Ht : resident_total (placed pt_target_enabled pt_target_resident rows ms) d = msum (fun k v => resident_on d (h k v)) ms).
  { rewrite <- (msum_image (fun _ v => resident_on d v) h ms (map_imap (fun k v => Some (h k v)) ms)) by (intros k; rewrite map_lookup_imap; by destruct (ms !! k)).
    apply residency_total. intros k. rewrite map_lookup_imap. destruct (ms !! k) as [v|] eqn:Ev; simpl.
    - destruct (Hrows k v Ev) as (t & Ht & <- & Htr). rewrite placed_in, Ev by done. unfold h. rewrite bool_decide_eq_true_2 by (by apply list_elem_of_fmap_2).
      unfold residency. simpl. by rewrite Htr.
    - assert (placed pt_target_enabled pt_target_resident rows ms !! k = None) as ->; [|done].
      apply eq_None_not_Some. intros Hs. apply (alters_known pt_id) in Hs. rewrite Ev in Hs. by destruct Hs. }
  rewrite Ht. assert (Hin : forall k v, ms !! k = Some v -> bool_decide (k ∈ pt_id <$> rows) = true).
  { intros k v Hv. destruct (Hrows k v Hv) as (t & ? & <- & _). apply bool_decide_eq_true. by apply list_elem_of_fmap_2. }
  assert (Hz : forall k v, k <> p -> ms !! k = Some v -> resident_on d (h k v) = 0).
  { intros k v Hne Hv. unfold h, resident_on. rewrite (Hin k v Hv). simpl. by rewrite (bool_decide_eq_false_2 (k = p)), andb_false_r by done. }
  destruct (ms !! p) as [v|] eqn:Ep.
  - rewrite (msum_change _ (fun _ _ => 0) _ p v Ep) by (intros k x Hne Hx; by apply Hz). rewrite (msum_zero (fun _ _ => 0)) by done.
    unfold h, resident_on. rewrite (Hin p v Ep). rewrite (bool_decide_eq_true_2 (p = p)) by done. simpl. rewrite andb_true_r.
    change (m_device (set_resident _ v)) with (m_device v). change (m_bytes (set_resident _ v)) with (m_bytes v). lia.
  - apply msum_zero. intros k v Hv. apply Hz; [congruence|done].
Qed.

(** The plan in terms of the modules. *)
Lemma policy_plan_target s target budgets rows : manager_ok s -> policy_plan s target = Ok (budgets, rows) ->
  (forall d b, g_budgets s !! d = Some b -> exists b', budgets !! d = Some b' /\ target_budget (view <$> g_modules s) target d b b') /\
  (forall t, t ∈ rows -> exists v, (view <$> g_modules s) !! pt_id t = Some v /\ pt_target_enabled t = target_enables target v).
Proof.
  intros Hok Hp. unfold policy_plan in Hp. destruct (foldM policy_ids_step _ _) as [[mtp mm]|] eqn:Eids; [|done].
  destruct (negb (enable_mtp target && _)); [|done]. destruct (negb (enable_multimodal target && _)); [|done].
  destruct (foldM (policy_budget _ _ _) _ _) as [b|] eqn:Eb; [|done].
  destruct (foldM (policy_row _ _ _) _ _) as [rows0|] eqn:Er; [|done]. injection Hp as <- <-.
  apply policy_rows in Er as [-> _]. apply policy_budgets in Eb as [Hbin _]; [|apply NoDup_in_order].
  assert (Hkind : forall id m, g_modules s !! id = Some m -> target_enabled target mtp id = target_enables target m).
  { intros id m. apply (target_enabled_kind _ _ _ mm); [done|]. intros k v Hv. apply (ok_named _ Hok k (view v)). by rewrite view_lookup, Hv. }
  split.
  - intros d bd Hd. eexists. split; [apply Hbin; by apply elem_of_in_order|]. eexists. split; [done|].
    destruct (policy_required_ge target mtp d (in_order String.le (g_modules s))) as [_ Hge]. split.
    + intros id v Hv. change (view <$> g_modules s) with (c_mods (core_of s)) in Hv. rewrite view_lookup in Hv.
      destruct (g_modules s !! id) as [m|] eqn:Em; [|done]. injection Hv as <-. intros Hdev Hen.
      apply (Hge id m); [by apply elem_of_in_order|rewrite (Hkind id m Em); exact Hen|done].
    + destruct (policy_required_attained target mtp d (in_order String.le (g_modules s))) as [?|(k & m & Hm & He & Hdev & Hb)]; [by left|].
      apply elem_of_in_order in Hm. right. exists k, (view m). rewrite lookup_fmap, Hm. split_and!; [done|exact Hdev| |exact Hb].
      rewrite <- He. symmetry. exact (Hkind k m Hm).
  - intros t Ht. rewrite partition_perm in Ht. simpl in Ht. apply list_elem_of_fmap in Ht as ([k m] & -> & Hin%elem_of_in_order).
    exists (view m). simpl. rewrite lookup_fmap, Hin. split; [done|]. exact (Hkind k m Hin).
Qed.

Lemma policy_plan_ok s target budgets rows : manager_ok s -> policy_plan s target = Ok (budgets, rows) -> plan_ok (core_of s) budgets rows.
Proof.
  intros Hok H. unfold policy_plan in H. destruct (foldM policy_ids_step _ _) as [[mtp mm]|] eqn:Eids; [|done].
  destruct (negb (enable_mtp target && _)); [|done]. destruct (negb (enable_multimodal target && _)); [|done].
  set (p := preferred_module (g_modules s) target mtp mm) in *. destruct (foldM (policy_budget _ _ _) _ _) as [b|] eqn:Eb; [|done].
  destruct (foldM (policy_row _ _ _) _ _) as [rows0|] eqn:Er; [|done]. injection H as <- <-.
  apply policy_rows in Er as [-> Hcb]. simpl in *. pose proof (partition_perm (row_for target mtp p <$> in_order String.le (g_modules s))) as Hperm.
  apply policy_budgets in Eb as [Hbin Hbout]; [|apply NoDup_in_order].
  set (rows := filter _ _ ++ filter _ _) in *. clearbody rows.
  assert (Hids : pt_id <$> (row_for target mtp p <$> in_order String.le (g_modules s)) = fst <$> in_order String.le (g_modules s))
    by (rewrite <- list_fmap_compose; by apply list_fmap_ext).
  assert (Hrow : forall t, t ∈ rows -> exists m, g_modules s !! pt_id t = Some m /\ t = row_for target mtp p (pt_id t, m)).
  { intros t Ht. rewrite Hperm in Ht. apply list_elem_of_fmap in Ht as ([k m] & -> & Hin). apply elem_of_in_order in Hin. by exists m. }
  assert (Hnd : NoDup (pt_id <$> rows)) by (rewrite Hperm, Hids; apply NoDup_in_order).
  assert (Hk : forall id, known (core_of s) id <-> id ∈ pt_id <$> rows).
  { intros id. rewrite Hperm, Hids. unfold known. rewrite view_lookup, fmap_is_Some. split.
    - intros [m Hm]. apply list_elem_of_fmap. exists (id, m). split; [done|]. by apply elem_of_in_order.
    - intros ([k m] & -> & Hin)%list_elem_of_fmap. apply elem_of_in_order in Hin. by exists m. }
  split; [|done|done| |].
  - apply set_eq. intros d. rewrite !elem_of_dom. destruct (decide (d ∈ fst <$> in_order Z.le (g_budgets s))) as [([d' x] & -> & Hin)%list_elem_of_fmap|Hn].
    + simpl. rewrite (Hbin d' x Hin). apply elem_of_in_order in Hin. simpl. split; intros _; eauto.
    + by rewrite (Hbout d Hn).
  - apply Forall_forall. intros t Ht. destruct (Hrow t Ht) as (m & Hm & Heq).
    assert (Hv : c_mods (core_of s) !! pt_id t = Some (view m)) by by rewrite view_lookup, Hm.
    split; [by rewrite Heq|]. split; [|exists (view m); split; [done|]; by rewrite Heq]. intros Hmv. exists (view m). split; [done|]. split.
    + rewrite Forall_forall in Hcb. apply (Hcb (pt_id t, m)); [by apply elem_of_in_order|by rewrite <- Heq].
    + by apply (ok_trusted _ Hok (pt_id t) (view m)).
  - intros d. rewrite (preferred_total _ _ p) by (done || (intros k v Hv; assert (Hin : k ∈ pt_id <$> rows) by (apply Hk; by exists v);
      apply list_elem_of_fmap in Hin as (t & -> & Ht); exists t; split_and!; [done|done|]; destruct (Hrow t Ht) as (m & _ & ->); done)).
    rewrite view_lookup. destruct (g_modules s !! p) as [m|] eqn:Ep; simpl; [|apply budget_usable_nonneg].
    destruct (negb (bool_decide (p = ""))) eqn:Ene; simpl; [|apply budget_usable_nonneg].
    destruct (m_device (view m) =? d) eqn:Ed; [|apply budget_usable_nonneg]. bool_facts. change (m_device (view m)) with (m_device m) in Ed.
    apply bool_decide_eq_false in Ene. pose proof (preferred_enabled _ _ _ _ Eids Ene) as Hen.
    destruct (policy_required_ge target mtp d (in_order String.le (g_modules s))) as [Hr0 Hr].
    specialize (Hr p m ltac:(by apply elem_of_in_order) Hen Ed). change (m_bytes (view m)) with (m_bytes m).
    destruct (ok_trusted _ Hok p (view m)) as [_ [x Hx]]; [by rewrite view_lookup, Ep|]. change (m_device (view m)) with (m_device m) in Hx. rewrite Ed in Hx.
    unfold budget_usable. rewrite (Hbin d x) by (by apply elem_of_in_order). simpl. destruct (_ >=? _) eqn:E; bool_facts; lia.
Qed.

(** ** What the policy steps do *)

(** What a prepared transaction will show: the flags and budgets of its policy. *)
Definition planned c (target : transient_policy) (tx : policy_transaction) : Prop :=
  (forall d b, c_budgets c !! d = Some b -> exists b', px_target_budgets tx !! d = Some b' /\ target_budget (c_mods c) target d b b') /\
  (forall t, t ∈ px_modules tx -> exists v, c_mods c !! pt_id t = Some v /\ pt_target_enabled t = target_enables target v).

Definition opened c (target : transient_policy) (ident : Z) c' : Prop := exists tx, c' = c <| c_tx := Some tx |> /\ c_tx c = None /\ c_leases c = ∅ /\ c_epoch c = None /\
  px_ident tx = ident /\ px_state tx = policy_prepared /\ px_poisoned tx = false /\ px_generation tx = c_gen c /\ px_target_policy tx = target /\ transaction_ok c tx /\ planned c target tx.

(** One side of the transaction becomes the state of the manager. *)
Definition shown f g (budgets : gmap Z device_budget) (policy : transient_policy) (state : policy_state) c (tx : policy_transaction) rows : core W :=
  c <| c_mods := placed f g rows (c_mods c) |> <| c_budgets := budgets |> <| c_policy := policy |>
    <| c_tx := Some (tx <| px_modules := rows |> <| px_state := state |>) |>.

Inductive policy_op := op_publish | op_rollback | op_finalize | op_free.

Inductive policy_moved c (handle : option Z) : policy_op -> bool -> core W -> Prop :=
| pm_refused op : policy_moved c handle op false c
| pm_failed op tx rows p : c_tx c = Some tx -> same_rows (px_modules tx) rows ->
    policy_moved c handle op false (c <| c_tx := Some (tx <| px_modules := rows |> <| px_poisoned := p |>) |>)
| pm_published tx rows : c_tx c = Some tx -> handle = Some (px_ident tx) -> px_state tx = policy_prepared -> px_poisoned tx = false -> same_rows (px_modules tx) rows ->
    policy_moved c handle op_publish true (shown pt_target_enabled pt_target_resident (px_target_budgets tx) (px_target_policy tx) policy_published c tx rows)
| pm_rolled_back tx rows : c_tx c = Some tx -> handle = Some (px_ident tx) -> px_state tx = policy_published -> px_poisoned tx = false -> same_rows (px_modules tx) rows ->
    policy_moved c handle op_rollback true (shown pt_prior_enabled pt_prior_resident (px_prior_budgets tx) (px_prior_policy tx) policy_rolled_back c tx rows)
| pm_finalized tx : c_tx c = Some tx -> handle = Some (px_ident tx) -> px_state tx = policy_published ->
    policy_moved c handle op_finalize true (c <| c_tx := Some (tx <| px_state := policy_finalized |>) |>)
| pm_closed tx gen : c_tx c = Some tx -> handle = Some (px_ident tx) -> px_state tx <> policy_published -> policy_moved c handle op_free true (c <| c_tx := None |> <| c_gen := gen |>)
| pm_null : handle = None -> policy_moved c handle op_free true c.

Lemma wp_prepare_policy s target : manager_ok s ->
  wp (prepare_policy target) (fun r s' => match r with None => core_of s' = core_of s | Some ident => opened (core_of s) target ident (core_of s') end) s.
Proof.
  intros Hok0. unfold prepare_policy. apply wp_bind, wp_count. intros s0 Hs0. rewrite <- Hs0. assert (Hok : core_ok (core_of s0)) by by rewrite Hs0.
  clear s Hs0 Hok0. rename s0 into s. apply wp_bind, wp_get.
  set (Q := fun (r : option Z) s' => match r with None => core_of s' = core_of s | Some ident => opened (core_of s) target ident (core_of s') end).
  assert (Hfail : forall e s', core_of s' = core_of s -> wp (fail e ;; mret None) Q s').
  { intros e s' Hs'. apply wp_bind, wp_fail. intros s2 Hs2. apply wp_ret. simpl. congruence. }
  case_bool_decide as Htx; [by apply Hfail|]. destruct (bool_decide (g_leases s <> ∅) || bool_decide (g_epoch s <> None)) eqn:Eb; [by apply Hfail|].
  apply orb_false_iff in Eb as [El Ee]. apply bool_decide_eq_false in El, Ee. apply dec_stable in El, Ee.
  destruct (policy_plan s target) as [[budgets rows]|e] eqn:Ep; [|by apply Hfail].
  pose proof (policy_plan_ok s target budgets rows Hok Ep) as [Hdom Hnd Hk Hrows Hfits].
  pose proof (policy_plan_target s target budgets rows Hok Ep) as [Hbud Hen].
  apply wp_bind, wp_quiesce.
  { apply Forall_forall. intros k (t & -> & [_ Ht]%list_elem_of_filter)%list_elem_of_fmap. apply Hk. by apply list_elem_of_fmap_2. }
  intros [quiesced|bad] s1 Hs1 _; [|by apply Hfail]. apply wp_bind, wp_prepare_rows; [| constructor | |].
  { eapply Forall_impl; [exact Hrows|]. rewrite Hs1. intros t (? & ? & _). done. }
  - intros rows' s2 Hs2 Hb Ho. rewrite Hs1 in *. simpl in Hb. apply wp_bind, wp_resume. intros s3 Hs3. apply wp_bind, wp_get, wp_bind, wp_modify, wp_ret. simpl. unfold opened.
    set (tx := mk_policy_transaction _ _ _ _ _ _ _ _ _). exists tx. assert (Hs3' : core_of s3 = core_of s) by congruence.
    assert (Hids : pt_id <$> rows' = pt_id <$> rows) by by apply bare_ids.
    assert (Hpl : placed pt_prior_enabled pt_prior_resident rows' (c_mods (core_of s)) = c_mods (core_of s)).
    { rewrite (bare_placed _ _ _ rows) by (done || (intros t; apply bare_fields)). apply map_eq. intros k.
      destruct (decide (k ∈ pt_id <$> rows)) as [(t & -> & Ht)%list_elem_of_fmap|Hn]; [|by apply placed_notin].
      rewrite placed_in by done. rewrite Forall_forall in Hrows. destruct (Hrows t Ht) as (_ & _ & v & Hv & He & Hr). rewrite Hv, He, Hr. by destruct v. }
    split; [unfold tx; rewrite <- Hs3'; by destruct s3|].
    assert (Hb3 : g_budgets s3 = g_budgets s /\ g_policy s3 = g_policy s /\ g_generation s3 = g_generation s)
      by (unfold core_of in Hs3'; injection Hs3'; auto). destruct Hb3 as (Hb3 & Hp3 & Hg3).
    split_and!; try done; 
      [|exact (conj Hbud (bare_enabled rows rows' (fun id b => exists v, c_mods (core_of s) !! id = Some v /\ b = target_enables target v) Hb Hen))]. unfold tx. split; simpl; rewrite ?Hids; try done.
    + intros id. by apply Hk.
    + apply Forall_forall. intros id Hid. by apply Hk.
    + by rewrite Hb3.
    + intros d. rewrite Hb3. change (view <$> g_modules s) with (c_mods (core_of s)). rewrite Hpl. apply Hok.
    + intros d. change (view <$> g_modules s) with (c_mods (core_of s)).
      rewrite (bare_placed _ _ _ rows) by (done || (intros t; apply bare_fields)). apply Hfits.
  - intros id rows' s2 Hs2 Ho. rewrite Hs1 in *. apply wp_bind, wp_resume. intros s3 Hs3. apply wp_bind, wp_fail. intros s4 Hs4.
    apply wp_bind, wp_free_policy_owners; [by rewrite Hs4, Hs3, Hs2|]. intros s5 Hs5. apply wp_ret. simpl. congruence.
Qed.

Lemma active_spec s handle state tx : active_transaction s handle state = Some tx ->
  c_tx (core_of s) = Some tx /\ handle = Some (px_ident tx) /\ px_state tx = state /\ px_poisoned tx = false.
Proof.
  unfold active_transaction. destruct handle as [ident|]; [|done]. simpl. destruct (g_transaction s) as [tx0|]; [|done].
  destruct ((_ =? _) && _ && _) eqn:E; [|done]. intros [= ->]. bool_facts. apply bool_decide_eq_true in H0. by subst.
Qed.

(** Showing a side of the transaction: the common end of publication and rollback. *)
Lemma wp_show f g (policy : transient_policy) (budgets : gmap Z device_budget) state tx rows (Q : bool -> manager W -> Prop) s :
  Forall (known (core_of s)) (pt_id <$> rows) -> dom budgets = dom (g_budgets s) ->
  forall k : M W bool, (forall s', core_of s' = shown f g budgets policy state (core_of s) tx rows -> wp k Q s') ->
  wp (each (fun t => place (pt_id t) (f t) (g t)) rows ;; set_budgets budgets ;; modify (fun s => s <| g_policy := policy |>) ;;
      store_transaction (tx <| px_modules := rows |> <| px_state := state |>) ;; k) Q s.
Proof.
  intros Hk Hdom k Hkont. apply wp_bind, (wp_each_updates pt_id (fun t => set_placed (f t) (g t))); [intros t; apply updates_place|done|]. intros s1 Hs1.
  assert (Hb1 : g_budgets s1 = g_budgets s) by (change (c_budgets (core_of s1) = c_budgets (core_of s)); by rewrite Hs1).
  apply wp_bind, wp_set_budgets; [by rewrite Hb1|]. intros s2 Hs2. apply wp_bind, wp_modify, wp_bind, wp_modify, Hkont.
  rewrite Hs1 in Hs2. unfold shown. destruct s2; unfold core_of in *; simpl in *. unfold set_field in *; simpl in *. by injection Hs2 as -> -> -> -> -> -> -> ->.
Qed.

Lemma wp_publish_policy s handle : manager_ok s -> wp (publish_policy handle) (fun b s' => policy_moved (core_of s) handle op_publish b (core_of s')) s.
Proof.
  intros Hok. unfold publish_policy. apply wp_bind, wp_get.
  set (Q := fun (b : bool) s' => policy_moved (core_of s) handle op_publish b (core_of s')).
  assert (Hrefuse : forall e s1, core_of s1 = core_of s -> wp (fail e ;; mret false) Q s1).
  { intros e s1 Hs1. apply wp_bind, wp_fail. intros s2 Hs2. apply wp_ret. unfold Q. rewrite Hs2, Hs1. constructor. }
  destruct (active_transaction s handle policy_prepared) as [tx|] eqn:Ea; [|by apply Hrefuse]. apply active_spec in Ea as (Htx & Hh & Hst & Hpo).
  destruct (negb _); [by apply Hrefuse|]. destruct (_ || _); [by apply Hrefuse|].
  pose proof (ok_transaction _ Hok) as Ht. rewrite Htx in Ht. destruct Ht as (Hl & He & Ht).
  apply wp_bind, wp_publish_rows; [apply Ht|constructor| |].
  - intros rows s1 Hs1 Hr. simpl in Hr. apply wp_show.
    + rewrite Hs1, <- (same_rows_ids _ _ Hr). apply Ht.
    + change (g_budgets s1) with (c_budgets (core_of s1)). rewrite Hs1. apply Ht.
    + intros s' Hs'. apply wp_ret. unfold Q. rewrite Hs', Hs1. by eapply pm_published.
  - intros rows r id s1 Hs1 Hr. simpl in Hr. apply wp_bind, wp_modify, wp_bind, wp_fail. intros s2 Hs2. apply wp_ret. unfold Q.
    replace (core_of s2) with ((core_of s) <| c_tx := Some (tx <| px_modules := rows |> <| px_poisoned := negb r |>) |>)
      by (rewrite Hs2, <- Hs1; by destruct s1). by eapply pm_failed.
Qed.

Lemma wp_rollback_policy s handle : manager_ok s -> wp (rollback_policy handle) (fun b s' => policy_moved (core_of s) handle op_rollback b (core_of s') /\
  (b = true -> exists tx tx', c_tx (core_of s) = Some tx /\ c_tx (core_of s') = Some tx' /\ px_ident tx' = px_ident tx /\ px_state tx' = policy_rolled_back)) s.
Proof.
  intros Hok. unfold rollback_policy. apply wp_bind, wp_get.
  set (Q := fun (b : bool) s' => policy_moved (core_of s) handle op_rollback b (core_of s') /\ (b = true -> exists tx tx', c_tx (core_of s) = Some tx /\ c_tx (core_of s') = Some tx' /\ px_ident tx' = px_ident tx /\ px_state tx' = policy_rolled_back)).
  destruct (active_transaction s handle policy_published) as [tx|] eqn:Ea.
  2: { apply wp_bind, wp_fail. intros s2 Hs2. apply wp_ret. split; [rewrite Hs2; constructor|done]. }
  apply active_spec in Ea as (Htx & Hh & Hst & Hpo).
  pose proof (ok_transaction _ Hok) as Ht. rewrite Htx in Ht. destruct Ht as (Hl & He & Ht).
  apply wp_bind, wp_rollback_rows; [rewrite reverse_Permutation; apply Ht|constructor| |].
  - intros rows s1 Hs1 Hr. rewrite reverse_involutive, app_nil_r in Hr.
    assert (Hdone : forall s', core_of s' = shown pt_prior_enabled pt_prior_resident (px_prior_budgets tx) (px_prior_policy tx) policy_rolled_back (core_of s1) tx rows -> Q true s').
    { intros s' Hs'. unfold Q. rewrite Hs', Hs1. split; [by eapply pm_rolled_back|]. intros _. eexists tx, _. split; [done|]. split; [reflexivity|]. by destruct tx. }
    apply wp_show.
    + rewrite Hs1, <- (same_rows_ids _ _ Hr). apply Ht.
    + change (g_budgets s1) with (c_budgets (core_of s1)). rewrite Hs1. apply Ht.
    + intros s' Hs'. apply wp_bind, wp_count. intros s'' Hs''. apply wp_ret, Hdone. congruence.
  - intros rows r id s1 Hs1 Hr. rewrite reverse_involutive, app_nil_r in Hr. apply wp_bind, wp_modify, wp_bind, wp_fail. intros s2 Hs2. apply wp_ret.
    split; [|done]. replace (core_of s2) with ((core_of s) <| c_tx := Some (tx <| px_modules := rows |> <| px_poisoned := negb r |>) |>)
      by (rewrite Hs2, <- Hs1; by destruct s1). by eapply pm_failed.
Qed.

Lemma wp_finalize_policy s handle : manager_ok s -> wp (finalize_policy handle) (fun b s' => policy_moved (core_of s) handle op_finalize b (core_of s')) s.
Proof.
  intros Hok. unfold finalize_policy. apply wp_bind, wp_get. destruct (active_transaction s handle policy_published) as [tx|] eqn:Ea.
  2: { apply wp_bind, wp_fail. intros s2 Hs2. apply wp_ret. rewrite Hs2. constructor. }
  apply active_spec in Ea as (Htx & Hh & Hst & Hpo). pose proof (ok_transaction _ Hok) as Ht. rewrite Htx in Ht. destruct Ht as (Hl & He & Ht).
  apply wp_bind, wp_finalize_rows; [apply Ht|]. intros [id|] s1 Hs1.
  - apply wp_bind, wp_modify, wp_bind, wp_fail. intros s2 Hs2. apply wp_ret.
    replace (core_of s2) with ((core_of s) <| c_tx := Some (tx <| px_modules := px_modules tx |> <| px_poisoned := true |>) |>)
      by (rewrite Hs2, <- Hs1; by destruct s1, tx). by eapply pm_failed.
  - apply wp_bind, wp_modify, wp_ret.
    replace (core_of (_ <| g_transaction := _ |>)) with ((core_of s) <| c_tx := Some (tx <| px_state := policy_finalized |>) |>)
      by (rewrite <- Hs1; by destruct s1). by eapply pm_finalized.
Qed.

(** ** The policy steps keep the invariant *)

Lemma shown_ok f g f' g' budgets policy state c tx rows : core_ok c -> c_leases c = ∅ -> c_epoch c = None -> transaction_ok c tx -> same_rows (px_modules tx) rows ->
  (forall t, f t = f (strip t)) -> (forall t, g t = g (strip t)) ->
  (state = policy_published /\ f = pt_target_enabled /\ g = pt_target_resident /\ budgets = px_target_budgets tx /\ policy = px_target_policy tx) \/
  (state = policy_rolled_back /\ f = pt_prior_enabled /\ g = pt_prior_resident /\ budgets = px_prior_budgets tx /\ policy = px_prior_policy tx) ->
  f' = f -> g' = g -> core_ok (shown f' g' budgets policy state c tx rows).
Proof.
  intros Hok Hl He Ht Hr Hf Hg Hside -> ->. pose proof (transaction_rows c tx rows (px_poisoned tx) Hr Ht) as Ht'.
  assert (Htx : tx <| px_modules := rows |> <| px_poisoned := px_poisoned tx |> = tx <| px_modules := rows |>) by by destruct tx. rewrite Htx in Ht'. clear Htx.
  assert (Hm : px_modules (tx <| px_modules := rows |>) = rows) by by destruct tx.
  destruct Ht' as [Hnd Hk Hids Hcb Hdom Hprior Htarget _]. rewrite Hm in *.
  assert (Hb : px_prior_budgets (tx <| px_modules := rows |>) = px_prior_budgets tx /\ px_target_budgets (tx <| px_modules := rows |>) = px_target_budgets tx) by by destruct tx.
  destruct Hb as [Hb1 Hb2]. rewrite Hb1, Hb2 in *.
  assert (Hdomb : dom budgets = dom (c_budgets c)) by (destruct Hside as [(_ & _ & _ & -> & _)|(_ & _ & _ & -> & _)]; apply Hdom).
  assert (Hcap : forall d, resident_total (placed f g rows (c_mods c)) d <= budget_usable budgets d)
    by (destruct Hside as [(_ & -> & -> & -> & _)|(_ & -> & -> & -> & _)]; done).
  assert (Hd : forall k, m_desc <$> placed f g rows (c_mods c) !! k = m_desc <$> c_mods c !! k) by (intros k; by apply placed_desc).
  split; simpl.
  - apply Hok.
  - eapply trusted_desc; [| |apply Hok]; done.
  - intros id v Hv. specialize (Hd id). rewrite Hv in Hd. destruct (c_mods c !! id) as [v0|] eqn:E; [|done]. by apply (ok_named _ Hok id v0).
  - eapply residency_sized; [done|apply Hok].
  - done.
  - intros l le. rewrite Hl. by intros ?%lookup_empty_Some.
  - intros id v Hv. pose proof (proj2 (placed_desc f g rows (c_mods c) id Hnd)) as Hp. rewrite Hv in Hp. destruct (c_mods c !! id) as [v0|] eqn:E; [|done].
    injection Hp as ->. by apply (ok_pins _ Hok).
  - rewrite He, Hl. intros l le. by intros ?%lookup_empty_Some.
  - split_and!; [done|done|]. destruct tx; simpl in *. split; simpl; try done.
    + intros id Hkn. apply Hk. unfold known in *. simpl in Hkn. by apply (alters_known pt_id) in Hkn.
    + eapply Forall_impl; [exact Hids|]. intros k. unfold known. simpl. apply (alters_known pt_id).
    + eapply Forall_impl; [exact Hcb|]. intros t Ho Hh. destruct (Ho Hh) as (v & Hv & Hc). unfold prepared. simpl.
      specialize (Hd (pt_id t)). rewrite Hv in Hd. destruct (placed f g rows (c_mods c) !! pt_id t) as [v'|]; [|done]. injection Hd as Hd.
      exists v'. split; [done|]. unfold callbacks in *. by rewrite Hd.
    + rewrite Hdomb. apply Hdom.
    + intros d. rewrite placed_placed by done. apply Hprior.
    + intros d. rewrite placed_placed by done. apply Htarget.
    + unfold on_side. simpl. destruct Hside as [(-> & -> & -> & -> & ->)|(-> & -> & -> & -> & ->)]; by rewrite placed_placed.
Qed.

Lemma policy_moved_ok c handle op b c' : core_ok c -> policy_moved c handle op b c' -> core_ok c'.
Proof.
  intros Hok Hm. assert (Htx : forall tx, c_tx c = Some tx -> c_leases c = ∅ /\ c_epoch c = None /\ transaction_ok c tx)
    by (intros tx E; pose proof (ok_transaction _ Hok) as Ht; by rewrite E in Ht).
  assert (Hset : forall t gen, match t with None => True | Some tx => c_leases c = ∅ /\ c_epoch c = None /\ transaction_ok c tx end ->
    core_ok (c <| c_tx := t |> <| c_gen := gen |>)).
  { intros t gen Ht. destruct Hok. split; simpl; try done.
    - destruct (c_epoch c); [|done]. by eapply epoch_ok_core; [..|exact ok_epoch].
    - destruct t as [tx|]; [|done]. destruct Ht as (? & ? & ?). split_and!; [done|done|]. by eapply transaction_ok_core; [..|done]. }
  destruct Hm as [op|op tx rows p E Hr|tx rows E _ Hst _ Hr|tx rows E _ Hst _ Hr|tx E _ Hst|tx gen E _ _|].
  - done.
  - destruct (Htx tx E) as (? & ? & ?). apply (Hset (Some _) (c_gen c)). split_and!; [done|done|]. by apply transaction_rows.
  - destruct (Htx tx E) as (? & ? & ?). eapply shown_ok; try done; [intros t; apply strip_fields|intros t; apply strip_fields|by left].
  - destruct (Htx tx E) as (? & ? & ?). eapply shown_ok; try done; [intros t; apply strip_fields|intros t; apply strip_fields|by right].
  - destruct (Htx tx E) as (? & ? & Ht). apply (Hset (Some _) (c_gen c)). split_and!; [done|done|]. destruct Ht. destruct tx; simpl in *. subst. split; done.
  - by apply Hset.
  - done.
Qed.

Lemma opened_ok c target ident c' : core_ok c -> opened c target ident c' -> core_ok c'.
Proof.
  intros Hok (tx & -> & _ & Hl & He & _ & _ & _ & _ & _ & Ht & _). destruct Hok. split; simpl; try done.
  - by rewrite He in *.
  - split_and!; [done|done|]. by eapply transaction_ok_core; [..|done].
Qed.

(** [free_policy] may roll back first. *)
Definition policy_freed c (handle : option Z) (b : bool) c' : Prop :=
  (exists op, policy_moved c handle op b c') \/ exists c1, policy_moved c handle op_rollback true c1 /\ policy_moved c1 handle op_free b c'.

Lemma wp_free_policy s handle : manager_ok s -> wp (free_policy handle) (fun r s' => policy_freed (core_of s) handle (fst r) (core_of s')) s.
Proof.
  intros Hok. unfold free_policy. destruct handle as [ident|]; [|apply wp_ret; left; exists op_free; by constructor]. apply wp_bind, wp_get.
  destruct (g_transaction s) as [tx|] eqn:Etx; [|apply wp_ret; left; exists op_free; apply pm_refused].
  destruct (negb (px_ident tx =? ident) || px_poisoned tx) eqn:E; [apply wp_ret; left; exists op_free; apply pm_refused|]. bool_facts. subst ident.
  assert (Hclose : forall s1 tx1, manager_ok s1 -> g_transaction s1 = Some tx1 -> px_ident tx1 = px_ident tx -> px_state tx1 <> policy_published ->
    wp (free_policy_owners (px_modules tx1) ;; modify (fun s => s <| g_transaction := None |>) ;;
        (if bool_decide (px_state tx1 = policy_finalized) then modify (fun s => s <| g_generation ::= succ64 |>) else mret tt) ;; mret (true, None : option string))
      (fun r s' => policy_moved (core_of s1) (Some (px_ident tx)) op_free (fst r) (core_of s')) s1).
  { intros s1 tx1 Hok1 Htx1 Hid Hst. pose proof (ok_transaction _ Hok1) as Ht. change (c_tx (core_of s1)) with (g_transaction s1) in Ht. rewrite Htx1 in Ht.
    destruct Ht as (_ & _ & Ht). apply wp_bind, wp_free_policy_owners; [apply Ht|]. intros s2 Hs2. apply wp_bind, wp_modify, wp_bind.
    assert (Hmv : forall s3 gen, core_of s3 = (core_of s1) <| c_tx := None |> <| c_gen := gen |> -> policy_moved (core_of s1) (Some (px_ident tx)) op_free true (core_of s3)).
    { intros s3 gen ->. eapply pm_closed; [done| |done]. by rewrite Hid. }
    destruct (bool_decide _); [apply wp_modify, wp_ret, (Hmv _ (succ64 (c_gen (core_of s1))))|apply wp_ret, wp_ret, (Hmv _ (c_gen (core_of s1)))];
      rewrite <- Hs2; by destruct s2. }
  apply wp_bind. destruct (bool_decide (px_state tx = policy_published)) eqn:Est.
  - eapply wp_mono; [by apply wp_rollback_policy|]. intros rolled s1 [Hmv Hrb]. destruct rolled; simpl; [|apply wp_ret; left; eauto].
    apply wp_bind, wp_get. destruct (Hrb eq_refl) as (tx0 & tx1 & Htx0 & Htx1 & Hid & Hst1). change (g_transaction s = Some tx0) in Htx0.
    assert (tx0 = tx) as -> by congruence. change (g_transaction s1 = Some tx1) in Htx1. rewrite Htx1.
    eapply wp_mono; [apply (Hclose s1 tx1); [by eapply policy_moved_ok|done|done|by rewrite Hst1]|]. intros r s2 Hr. right. by exists (core_of s1).
  - apply wp_ret. simpl. apply wp_bind, wp_get. rewrite Etx. apply bool_decide_eq_false in Est.
    eapply wp_mono; [by apply (Hclose s tx)|]. intros r s2 Hr. left. by exists op_free.
Qed.

End policy.
