(* ===== verification/TransientTheorems.v ===== *)
(** * Theorems about the transient module manager

    Runs of the manager of [Transient] from a fresh one, and what holds in them. *)

From S2P Require Import Prelude Accounting Transient TransientRoom TransientLogic TransientInv TransientLease TransientRelease TransientPolicy.
From stdpp Require Import strings pretty.
Open Scope string_scope.
Open Scope Z_scope.
Open Scope list_scope.

(** ** Runs *)

Section runs.
Context {W : Type}.
Implicit Types (s : manager W) (desc : module_desc W).

(** The contract of [transient-module-manager.h]: rollback and finalize do not fail. *)
Definition keeps_contract desc : Prop :=
  (forall f h w, md_rollback desc = Some f -> fst (fst (f h w)) = true) /\ (forall f h w, md_finalize desc = Some f -> fst (fst (f h w)) = true).
Definition any_module desc : Prop := True.

(** What the theorems ask of a call.  Registration: the byte counts are words, all
    modules together fit a word, and no module is brought in resident while a
    residency epoch is open (the code does not check the last two; what happens
    without the last is [resident_registration_overcommits]).  Acquisition: a
    lease identifier is free.  A [run] is an acquisition, its body and a
    release, so its states are states of these calls; its own result is the
    second part of [manager_calls_return]. *)
Definition legal (contract : module_desc W -> Prop) s (e : event W) : Prop :=
  match e with
  | Register desc => contract desc /\ 0 <= md_bytes desc /\ bytes_total (g_modules s) + md_bytes desc <= UINT64_MAX /\
      (g_epoch s <> None -> md_initially_resident desc = false)
  | Acquire _ _ => Z.of_nat (size (g_leases s)) < UINT64_MAX
  | _ => True
  end.

Inductive reachable (contract : module_desc W -> Prop) : manager W -> Prop :=
| reach_start budgets w : reachable contract (make_manager budgets w)
| reach_step s e r s' : reachable contract s -> legal contract s e -> exec e s = Done r s' -> reachable contract s'.

(** The same with the invariant of the manager. *)
Section policy.
Context (contract : module_desc W -> Prop) {A0 : Abort}.
Hypothesis Hcontract : forall desc, contract desc -> reliable desc.

Lemma exec_wp s e : manager_ok s -> legal contract s e ->
  wp (exec e) (fun r s' => manager_ok s' /\ (e = Shutdown -> r = Answer true -> g_leases s' = ∅ /\ g_epoch s' = None)) s.
Proof.
  intros Hok Hlegal. destruct e; simpl in Hlegal; apply wp_bind.
  - destruct Hlegal as (Hc & Hp & Ht & Ho).
    assert (Hreg : registrable (core_of s) desc).
    { refine (conj (Hcontract _ Hc) (conj Hp (conj _ Ho))). replace (bytes_total (c_mods (core_of s))) with (bytes_total (g_modules s)); [done|].
      unfold bytes_total. by rewrite (msum_image _ (fun _ => view) (g_modules s) (c_mods (core_of s))) by apply view_lookup. }
    eapply wp_mono; [by apply wp_register|]. intros b s1 H1. apply wp_ret. split; [exact (registered_ok _ _ _ _ Hok Hreg H1)|done].
  - eapply wp_mono; [by apply wp_acquire|]. intros l s1 H1. apply wp_ret. split; [exact (acquired_ok _ _ _ _ _ Hok Hlegal H1)|done].
  - eapply wp_mono; [by apply wp_release|]. intros b s1 H1. apply wp_ret. split; [exact (released_ok _ _ _ _ _ Hok H1)|done].
  - eapply wp_mono; [by apply wp_prepare_policy|]. intros [ident|] s1 H1; apply wp_ret; (split; [|done]); [exact (opened_ok _ _ _ _ Hok H1)|]. unfold manager_ok. by rewrite H1.
  - eapply wp_mono; [by apply wp_publish_policy|]. intros b s1 H1. apply wp_ret. split; [exact (policy_moved_ok _ _ _ _ _ Hok H1)|done].
  - eapply wp_mono; [by apply wp_rollback_policy|]. intros b s1 [H1 _]. apply wp_ret. split; [exact (policy_moved_ok _ _ _ _ _ Hok H1)|done].
  - eapply wp_mono; [by apply wp_finalize_policy|]. intros b s1 H1. apply wp_ret. split; [exact (policy_moved_ok _ _ _ _ _ Hok H1)|done].
  - eapply wp_mono; [by apply wp_free_policy|]. intros [b text] s1 [[op H1]|(c1 & H1 & H2)]; apply wp_ret; (split; [|done]); simpl in *.
    + exact (policy_moved_ok _ _ _ _ _ Hok H1).
    + exact (policy_moved_ok _ _ _ _ _ (policy_moved_ok _ _ _ _ _ Hok H1) H2).
  - unfold resolve_all_leases_for_shutdown. eapply wp_mono; [apply wp_resolve_all; [done|lia]|]. intros b s1 (H1 & _ & H2). apply wp_ret. split; [done|].
    intros _ [= ->]. by apply H2.
Qed.

Lemma reachable_ok s : reachable contract s -> manager_ok s.
Proof.
  induction 1 as [budgets w|s e r s' _ IH Hlegal H]; [apply make_manager_ok|].
  pose proof (exec_wp s e IH Hlegal) as Hwp. unfold wp in Hwp. rewrite H in Hwp. apply Hwp.
Qed.
End policy.

Lemma any_reachable_ok s : reachable any_module s -> manager_ok (A0 := True) s.
Proof. apply (reachable_ok any_module (A0 := True)). intros desc _. split; done. Qed.

Lemma contract_reliable desc : keeps_contract desc -> reliable (A0 := False) desc.
Proof. intros [H1 H2]. split; intros f h w Hf Hb; [specialize (H1 f h w Hf)|specialize (H2 f h w Hf)]; congruence. Qed.

Lemma contract_reachable_ok s : reachable keeps_contract s -> manager_ok (A0 := False) s.
Proof. apply (reachable_ok keeps_contract). apply contract_reliable. Qed.

(** C17: Residency is safe, whatever the callbacks do, in every run whose calls are
    [legal]: the byte counts of all registered modules together fit a 64-bit
    word, a lease identifier is free when one is asked for, and no module is
    registered as resident while a residency epoch is open (the manager accepts
    that, and [resident_registration_overcommits] shows that it then can
    exceed a budget).  On every device the resident modules together stay within the usable bytes, and the reported
    resident bytes are exactly their sum; every module of a live lease is
    registered and resident, also across evictions by other leases, rollbacks
    of an epoch and policy changes; and the pin count of a module is the number
    of live leases that hold it. *)
Theorem residency_is_safe s : reachable any_module s ->
  (forall d, resident_total (g_modules s) d <= usable_bytes_locked s d /\ default 0 (resident_bytes_locked s !! d) = resident_total (g_modules s) d) /\
  (forall l lease id, g_leases s !! l = Some lease -> id ∈ le_requested lease -> exists m, g_modules s !! id = Some m /\ m_resident m = true) /\
  (forall id m, g_modules s !! id = Some m -> m_pins m = pin_count (g_leases s) id).
Proof.
  intros Hok%any_reachable_ok. split_and!.
  - intros d. split; [rewrite <- resident_total_view; apply Hok|]. apply resident_bytes_total, sized_view, Hok.
  - intros l lease id Hl Hid. destruct (ok_lease _ Hok l lease Hl) as (_ & _ & Hr). destruct (Hr id Hid) as (v & Hv & Hres).
    rewrite view_lookup in Hv. destruct (g_modules s !! id) as [m|]; [|done]. injection Hv as <-. by exists m.
  - intros id m Hm. apply (ok_pins _ Hok id (view m)). by rewrite view_lookup, Hm.
Qed.

Lemma calls_return s e : reachable keeps_contract s -> legal keeps_contract s e ->
  exists r s', exec e s = Done r s' /\ (e = Shutdown -> r = Answer true -> g_leases s' = ∅ /\ g_epoch s' = None).
Proof.
  intros Hr Hl. pose proof (exec_wp keeps_contract (A0 := False) contract_reliable s e (contract_reachable_ok s Hr) Hl) as H.
  unfold wp in H. destruct (exec e s) as [r s'| | |]; [|done..]. exists r, s'. split; [done|]. apply H.
Qed.

(** The body of [run] works outside the mutex: it returns, and what it and other
    threads do to the manager meanwhile are calls of its interface. *)
Definition interface_only (body : option (M W body_result)) : Prop :=
  forall b s, body = Some b -> reachable keeps_contract s -> exists r s', b s = Done r s' /\ reachable keeps_contract s'.

Lemma exec_acquire requested restore s l s' : exec (Acquire requested restore) s = Done (Lease l) s' <-> acquire requested restore s = Done l s'.
Proof.
  simpl. unfold mbind, M_bind. destruct (acquire requested restore s); split; intros [=]; by subst.
Qed.

Lemma acquire_returns requested restore s : reachable keeps_contract s -> legal keeps_contract s (Acquire requested restore) ->
  exists l s', acquire requested restore s = Done l s' /\ reachable keeps_contract s'.
Proof.
  intros Hr Hl. destruct (calls_return s _ Hr Hl) as (r & s' & He & _).
  assert (exists l, r = Lease l) as [l ->].
  { simpl in He. unfold mbind, M_bind in He. destruct (acquire requested restore s); by inversion He; eauto. }
  exists l, s'. split; [by apply exec_acquire|]. by eapply reach_step.
Qed.

Lemma release_returns l success s : reachable keeps_contract s ->
  exists b s', release l success s = Done b s' /\ reachable keeps_contract s' /\ (b = false -> release_refused (core_of s) l).
Proof.
  intros Hr. pose proof (contract_reachable_ok s Hr) as Hok.
  assert (Hwp : wp (A0 := False) (release l success) (fun b s' => b = false -> release_refused (core_of s) l) s)
    by (apply (wp_release_why (A0 := False)); auto).
  unfold wp in Hwp. destruct (release l success s) as [b s'| | |] eqn:E; [|done..]. exists b, s'. split_and!; [done| |done].
  apply (reach_step keeps_contract s (Release l success) (Answer b) s' Hr I). simpl. unfold mbind, M_bind. by rewrite E.
Qed.

(** C18: When rollback and finalize callbacks keep their contract, calls return.  In any
    state that [legal] calls can reach (all registered bytes fit a 64-bit word,
    a lease identifier is free when one is asked for, no module is registered
    as resident while a residency epoch is open), a [legal] call of
    [register_module], [acquire], [release], the four policy steps or
    [resolve_all_leases_for_shutdown] neither aborts the process nor throws nor
    loops, and a successful shutdown leaves no lease and no open epoch.  [run]
    returns as well when its body does (the body, and other threads meanwhile,
    only call the manager), with one exception, the [GGML_ABORT] of the source:
    the hidden lease can no longer be released, because it is already gone or
    because a module of the open epoch refuses to quiesce. *)
Theorem manager_calls_return s : reachable keeps_contract s ->
  (forall e, legal keeps_contract s e ->
    exists r s', exec e s = Done r s' /\ (e = Shutdown -> r = Answer true -> g_leases s' = ∅ /\ g_epoch s' = None)) /\
  (forall requested body restore, legal keeps_contract s (Acquire requested restore) -> interface_only body ->
    match run requested body restore s with
    | Done _ s' => reachable keeps_contract s'
    | Aborted _ => exists l s1 r s2, acquire requested restore s = Done l s1 /\ l <> 0 /\
        match body with Some b => b s1 = Done r s2 | None => r = Returned true /\ s2 = s1 end /\ release_refused (core_of s2) l
    | Thrown _ _ | Hangs => False
    end).
Proof.
  intros Hr. split; [by intros e; apply calls_return|]. intros requested body restore Hl Hbody.
  destruct (acquire_returns requested restore s Hr Hl) as (l & s1 & Ha & H1).
  unfold run, mbind, M_bind. rewrite Ha. destruct (Z.eqb_spec l 0) as [_|Hl0]; [exact H1|].
  assert (Hb : exists r s2, match body with Some b => b | None => mret (Returned true) end s1 = Done r s2 /\ reachable keeps_contract s2 /\
    match body with Some b => b s1 = Done r s2 | None => r = Returned true /\ s2 = s1 end).
  { destruct body as [b|]; [|by exists (Returned true), s1]. destruct (Hbody b s1 eq_refl H1) as (r & s2 & ? & ?). by exists r, s2. }
  destruct Hb as (r & s2 & -> & H2 & Hbody2).
  destruct (release_returns l (match r with Returned ok => ok | Threw _ => false end) s2 H2) as (b & s3 & -> & H3 & Hno).
  simpl. destruct b; simpl; [by destruct r as [|[]]|]. exists l, s1, r, s2. by split_and!; [..|apply Hno].
Qed.

(** ** Leases give residency back *)

Lemma unpin_pin (ms : gmap string (module_entry W)) rs : (forall k v, ms !! k = Some v -> u64 (m_pins v)) -> unpin_all (set_in_order rs) (pin_all rs ms) = ms.
Proof.
  intros Hp. apply map_eq. intros k. rewrite unpinned_lookup by apply NoDup_set_in_order. rewrite pin_lookup.
  rewrite (bool_decide_ext (k ∈ set_in_order rs) (k ∈ rs)) by apply elem_of_set_in_order. destruct (ms !! k) as [v|] eqn:E; simpl; [|done]. specialize (Hp k v E).
  destruct (bool_decide (k ∈ rs)); [|done]. destruct v as [? ? ? ? p]. unfold map_pins. simpl in *. do 2 f_equal. unfold succ64, wrap64, u64, UINT64_MAX in *.
  rewrite Zminus_mod_idemp_l. rewrite Z.mod_small; lia.
Qed.

Lemma swap_back (A0 : Abort) (c : core W) rs evicted activated rows : swap_ok c rs evicted activated rows ->
  set_rows t_prior (mark_published <$> rows) (set_rows t_target rows (c_mods c)) = c_mods c.
Proof.
  intros [Hnd Hrows _ _ _ _]. pose proof (row_of_ids _ _ _ Hrows) as Hids. change (t_id <$> rows = fst <$> swap_list evicted activated) in Hids.
  rewrite swap_list_ids in Hids. assert (Hnd2 : NoDup (t_id <$> rows)) by by rewrite Hids.
  assert (Hids' : t_id <$> (mark_published <$> rows) = t_id <$> rows) by (rewrite <- list_fmap_compose; apply list_fmap_ext; by intros ? []).
  apply map_eq. intros k. unfold set_rows. destruct (decide (k ∈ t_id <$> rows)) as [(t & -> & Ht)%list_elem_of_fmap|Hk].
  - destruct (row_elem _ _ _ _ Hrows Ht) as (_ & v & Hv & _ & Hp). change (t_id t) with (t_id (mark_published t)) at 1.
    rewrite alters_in by (by rewrite ?Hids' || by apply list_elem_of_fmap_2). change (t_id (mark_published t)) with (t_id t).
    rewrite alters_in, Hv by done. simpl. f_equal. destruct v, t; unfold set_resident; simpl in *. by rewrite Hp.
  - by rewrite !alters_notin by (done || by rewrite Hids').
Qed.

Lemma acquire_release_core (A0 : Abort) (c c1 c2 : core W) requested l success : core_ok c -> c_epoch c = None ->
  acquired c requested true l c1 -> l <> 0 -> released c1 l success true c2 ->
  c2 = c <| c_next := c_next c2 |>.
Proof.
  intros Hok He Hacq Hl0 Hrel.
  assert (Hpins : forall k v, c_mods c !! k = Some v -> u64 (m_pins v)).
  { intros k v Hv. rewrite (ok_pins _ Hok k v Hv). split; [apply lease_tally_bound|]. etransitivity; [apply lease_tally_bound|].
    apply leases_fewer. intros l' le Hle. by apply (ok_lease _ Hok l' le). }
  destruct Hacq as [n|l n epoch rs -> Htx Hn [Hl Hl1] Hrs ->|l n ident evicted activated rows rs -> Htx Hn [Hl Hl1] _ Hsw]; [done| |].
  - rewrite He in Hrel. simpl in Hrel. inversion Hrel as [|le Hle Hi Heq|le e Hle He'|le e Hle He'|le e Hle He']; simpl in *; try congruence.
    rewrite lookup_insert_eq in Hle. injection Hle as <-. unfold unleased, set_field. simpl. rewrite unpin_pin by done. rewrite delete_insert_id by done.
    destruct c; simpl in *. by rewrite He.
  - inversion Hrel as [|le Hle Hi Heq|le e Hle He' Hi Ho|le e Hle He' Hi Ho Hc|le e Hle He' Hi Ho Hc]; simpl in *; rewrite lookup_insert_eq in Hle; injection Hle as <-;
      try done; injection He' as <-; simpl in *; [done|by rewrite andb_false_r in Hc|].
    unfold unleased, set_field. simpl. rewrite unpin_pin.
    + rewrite (swap_back A0 c _ evicted activated) by done. rewrite delete_insert_id by done. destruct c; simpl in *. by rewrite He.
    + intros k v Hv. assert (Hnd : NoDup (t_id <$> rows)).
      { rewrite (row_of_ids _ _ _ (so_rows _ _ _ _ _ Hsw)). change (NoDup (fst <$> swap_list evicted activated)). rewrite swap_list_ids. apply Hsw. }
      pose proof (proj2 (set_rows_desc t_target rows (c_mods c) k Hnd)) as Hp. rewrite Hv in Hp. destruct (c_mods c !! k) as [v0|] eqn:E; [|done].
      injection Hp as ->. by apply (Hpins k).
Qed.

(** C19: A lease that restores gives back exactly what it found.  In a state that
    [legal] calls can reach, when no epoch is open, acquiring modules with [restore_prior] and then releasing the lease
    leaves every module with the residency, the enabled flag and the pins it
    had before, and the leases, budgets, policy and transaction as they were,
    whether the body succeeded or not and whatever was evicted in between. *)
Theorem lease_restores_residency s requested success l s1 s2 :
  reachable any_module s -> g_epoch s = None -> Z.of_nat (size (g_leases s)) < UINT64_MAX ->
  acquire requested true s = Done l s1 -> l <> 0 -> release l success s1 = Done true s2 ->
  view <$> g_modules s2 = view <$> g_modules s /\ g_leases s2 = g_leases s /\ g_epoch s2 = None /\
  g_budgets s2 = g_budgets s /\ g_policy s2 = g_policy s /\ g_transaction s2 = g_transaction s.
Proof.
  intros Hok%any_reachable_ok He Hsz Hacq Hl Hrel. pose proof (wp_acquire (A0 := True) s requested true Hok Hsz) as H1. unfold wp in H1. rewrite Hacq in H1.
  pose proof (acquired_ok (A0 := True) _ _ _ _ _ Hok Hsz H1) as Hok1.
  pose proof (wp_release (A0 := True) s1 l success Hok1) as H2. unfold wp in H2. rewrite Hrel in H2.
  pose proof (acquire_release_core True _ _ _ _ _ _ Hok He H1 Hl H2) as Heq. unfold core_of, set_field in Heq. simpl in Heq. injection Heq. rewrite He. auto 10.
Qed.

(** ** Policy changes are atomic *)

Lemma side_prior (c : core W) tx : px_state tx = policy_prepared \/ px_state tx = policy_rolled_back -> on_side c tx ->
  c_mods c = placed pt_prior_enabled pt_prior_resident (px_modules tx) (c_mods c) /\ c_budgets c = px_prior_budgets tx /\ c_policy c = px_prior_policy tx.
Proof. unfold on_side. by intros [-> | ->]. Qed.

Lemma moved_false (c c' : core W) h op : policy_moved c h op false c' -> c_mods c' = c_mods c /\ c_budgets c' = c_budgets c /\ c_policy c' = c_policy c.
Proof. inversion 1; subst; done. Qed.

Lemma published_true (c c' : core W) h : policy_moved c h op_publish true c' -> exists tx rows, c_tx c = Some tx /\ same_rows (px_modules tx) rows /\
  c' = shown pt_target_enabled pt_target_resident (px_target_budgets tx) (px_target_policy tx) policy_published c tx rows.
Proof. inversion 1; subst; eauto 10. Qed.

Lemma rolled_back_true (c c' : core W) h : policy_moved c h op_rollback true c' -> exists tx rows, c_tx c = Some tx /\ same_rows (px_modules tx) rows /\
  c' = shown pt_prior_enabled pt_prior_resident (px_prior_budgets tx) (px_prior_policy tx) policy_rolled_back c tx rows.
Proof. inversion 1; subst; eauto 10. Qed.

(** The plan is about the modules as they are, not only their views. *)
Lemma target_budget_view s target d b b' : target_budget (view <$> g_modules s) target d b b' -> target_budget (g_modules s) target d b b'.
Proof.
  intros (x & -> & Hle & Hat). exists x. split; [done|]. split.
  - intros id m Hm. apply (Hle id (view m)). by rewrite lookup_fmap, Hm.
  - destruct Hat as [?|(id & v & Hv & ?)]; [by left|]. right. rewrite lookup_fmap in Hv.
    destruct (g_modules s !! id) as [m|] eqn:Em; [|done]. injection Hv as <-. by exists id, m.
Qed.

Lemma planned_shown (A0 : Abort) s s2 target tx rows : transaction_ok (core_of s) tx -> planned (core_of s) target tx -> same_rows (px_modules tx) rows ->
  g_budgets s2 = px_target_budgets tx -> view <$> g_modules s2 = placed pt_target_enabled pt_target_resident rows (view <$> g_modules s) ->
  dom (g_budgets s2) = dom (g_budgets s) /\
  (forall d b, g_budgets s !! d = Some b -> exists b', g_budgets s2 !! d = Some b' /\ target_budget (g_modules s) target d b b') /\
  (forall id m, g_modules s !! id = Some m -> exists m', g_modules s2 !! id = Some m' /\ m_desc m' = m_desc m /\ m_enabled m' = target_enables target m).
Proof.
  intros Ht [Hb He] Hrows Hb2 Hm2. split_and!.
  - rewrite Hb2. apply (to_budgets _ _ Ht).
  - intros d b Hd. rewrite Hb2. destruct (Hb d b Hd) as (b' & ? & ?%target_budget_view). by exists b'.
  - intros id m Hm. assert (Hv : (view <$> g_modules s) !! id = Some (view m)) by by rewrite lookup_fmap, Hm.
    destruct (proj1 (list_elem_of_fmap _ _ _) (to_known _ _ Ht id (ex_intro _ _ Hv))) as (t & -> & Hin).
    destruct (He t Hin) as (v & Hv' & Hen). change (c_mods (core_of s)) with (view <$> g_modules s) in Hv'. rewrite Hv in Hv'. injection Hv' as <-.
    rewrite <- (same_rows_placed pt_target_enabled pt_target_resident (px_modules tx) rows) in Hm2 by (done || (intros t'; apply strip_fields)).
    apply (f_equal (lookup (pt_id t))) in Hm2. rewrite (placed_in pt_target_enabled pt_target_resident _ _ t (to_rows _ _ Ht) Hin) in Hm2.
    rewrite Hv, lookup_fmap in Hm2. destruct (g_modules s2 !! pt_id t) as [m2|]; [|done]. exists m2. split; [done|].
    destruct m2, m; simpl in *. injection Hm2; intros; subst. split; [done|]. exact Hen.
Qed.

(** C20: A policy change takes effect as a whole or not at all.  From any state a run
    can reach, when [prepare_policy] succeeds and [publish_policy] fails, every
    module, the budgets and the policy are as before the preparation.  When
    publication succeeds, the policy is the target, every module is enabled
    exactly if the target enables its kind, and every device has as capacity
    its safety margin plus the largest module on it that the target enables,
    with the margin as before; and a successful [rollback_policy] then brings
    back every module's residency and enabled flag, the budgets and the policy
    from before the preparation.  (The runs are those of [legal] calls.) *)
Theorem policy_change_is_atomic s target h s1 b s2 : reachable any_module s ->
  prepare_policy target s = Done (Some h) s1 -> publish_policy (Some h) s1 = Done b s2 ->
  if b
  then g_policy s2 = target /\ dom (g_budgets s2) = dom (g_budgets s) /\
    (forall d b, g_budgets s !! d = Some b -> exists b', g_budgets s2 !! d = Some b' /\ target_budget (g_modules s) target d b b') /\
    (forall id m, g_modules s !! id = Some m -> exists m', g_modules s2 !! id = Some m' /\ m_desc m' = m_desc m /\ m_enabled m' = target_enables target m) /\
    forall s3, rollback_policy (Some h) s2 = Done true s3 ->
    view <$> g_modules s3 = view <$> g_modules s /\ g_budgets s3 = g_budgets s /\ g_policy s3 = g_policy s
  else view <$> g_modules s2 = view <$> g_modules s /\ g_budgets s2 = g_budgets s /\ g_policy s2 = g_policy s.
Proof.
  intros Hok%any_reachable_ok Hprep Hpub. pose proof (wp_prepare_policy (A0 := True) s target Hok) as H1. unfold wp in H1. rewrite Hprep in H1.
  pose proof (opened_ok _ _ _ _ Hok H1) as Hok1. destruct H1 as (tx & Hc1 & _ & _ & _ & _ & Hst & _ & _ & Htg & Ht & Hplan).
  destruct (side_prior _ _ (or_introl Hst) (to_side _ _ Ht)) as (Hmods & Hbud & Hpol).
  pose proof (wp_publish_policy (A0 := True) s1 (Some h) Hok1) as H2. unfold wp in H2. rewrite Hpub in H2.
  pose proof (policy_moved_ok _ _ _ _ _ Hok1 H2) as Hok2. rewrite Hc1 in H2.
  destruct b; [|exact (moved_false _ _ _ _ H2)]. apply published_true in H2 as (tx0 & rows & [= <-] & Hr & Heq2).
  destruct (planned_shown True s s2 target tx rows Ht Hplan Hr) as (Hdom & Hbud2 & Hen);
    [change (c_budgets (core_of s2) = px_target_budgets tx); by rewrite Heq2|
     change (c_mods (core_of s2) = placed pt_target_enabled pt_target_resident rows (c_mods (core_of s))); by rewrite Heq2|].
  split; [change (c_policy (core_of s2) = target); by rewrite Heq2|]. split_and!; [done..|]. intros s3 Hrb.
  pose proof (wp_rollback_policy (A0 := True) s2 (Some h) Hok2) as H3. unfold wp in H3. rewrite Hrb in H3.
  destruct H3 as [(tx0 & rows2 & Htx0 & Hr2 & Heq3)%rolled_back_true _]. rewrite Heq2 in Htx0, Heq3. simpl in Htx0. injection Htx0 as <-.
  assert (Hms : placed pt_prior_enabled pt_prior_resident rows2 (placed pt_target_enabled pt_target_resident rows (view <$> g_modules s)) = view <$> g_modules s).
  { assert (Hr2' : same_rows rows rows2) by by destruct tx. rewrite <- (same_rows_placed _ _ rows rows2) by (done || (intros t; apply strip_fields)).
    rewrite placed_placed by (rewrite <- (same_rows_ids _ _ Hr); apply Ht).
    rewrite <- (same_rows_placed _ _ (px_modules tx) rows) by (done || (intros t; apply strip_fields)). by symmetry. }
  assert (Hb3 : c_budgets (core_of s3) = px_prior_budgets tx) by (rewrite Heq3; by destruct tx).
  assert (Hp3 : c_policy (core_of s3) = px_prior_policy tx) by (rewrite Heq3; by destruct tx).
  split_and!.
  - change (c_mods (core_of s3) = view <$> g_modules s). rewrite Heq3. exact Hms.
  - change (c_budgets (core_of s3) = c_budgets (core_of s)). by rewrite Hb3, Hbud.
  - change (c_policy (core_of s3) = c_policy (core_of s)). by rewrite Hp3, Hpol.
Qed.

End runs.

(** ** A run *)

Section play.
Context {W : Type}.

(** Play a list of calls, with their answers. *)
Fixpoint play (l : list (event W)) (s : manager W) : option (list response * manager W) :=
  match l with
  | [] => Some ([], s)
  | e :: l => match exec e s with Done r s => '(rs, s) ← play l s; Some (r :: rs, s) | _ => None end
  end.

End play.

(** Callbacks that succeed and write a trace. *)
Definition demo_desc (id : string) (kind : module_kind) (bytes : Z) (resident : bool) : module_desc (list string) :=
  mk_desc id kind 0 bytes resident (Some (fun w => (true, ("quiesce " +:+ id) :: w))) (Some (fun w => ("resume " +:+ id) :: w))
    (Some (fun _ w => (Some 1, None, ("prepare " +:+ id) :: w))) (Some (fun _ w => (true, None, ("publish " +:+ id) :: w)))
    (Some (fun _ w => (true, None, ("rollback " +:+ id) :: w))) (Some (fun _ w => (true, None, ("finalize " +:+ id) :: w)))
    (Some (fun _ w => ("free " +:+ id) :: w)).

Definition demo_start : manager (list string) := make_manager {[0 := mk_budget 110 10]} [].
Definition demo_mtp : module_desc (list string) := demo_desc "mtp" kind_mtp 90 true.
Definition demo_vision : module_desc (list string) := demo_desc "vision" kind_vision 20 false.

Definition state_of {A} (o : outcome (list string) A) : manager (list string) := match o with Done _ s => s | _ => demo_start end.

(** One module, two modules, and a lease on the second, which evicts the first. *)
Definition demo_one : manager (list string) := Eval vm_compute in state_of (exec (Register demo_mtp) demo_start).
Definition demo_two : manager (list string) := Eval vm_compute in state_of (exec (Register demo_vision) demo_one).
Definition demo_leased : manager (list string) := Eval vm_compute in state_of (exec (Acquire ["vision"] true) demo_two).

Lemma demo_contract id kind bytes resident : keeps_contract (demo_desc id kind bytes resident).
Proof. split; by intros f h w [= <-]. Qed.

Lemma demo_legal contract (s : manager (list string)) desc : contract desc -> 0 <= md_bytes desc -> bytes_total (g_modules s) + md_bytes desc <= UINT64_MAX -> g_epoch s = None ->
  legal contract s (Register desc).
Proof. intros H1 H2 H3 H4. refine (conj H1 (conj H2 (conj H3 _))). by rewrite H4. Qed.

Lemma transient_demo_reachable contract : contract demo_mtp -> contract demo_vision -> reachable contract demo_two.
Proof.
  intros H1 H2.
  assert (Hone : reachable contract demo_one).
  { apply (reach_step contract demo_start (Register demo_mtp) (Answer true) demo_one (reach_start _ _ _)); [|vm_compute; reflexivity].
    apply demo_legal; [done|done|vm_compute; discriminate|reflexivity]. }
  apply (reach_step contract demo_one (Register demo_vision) (Answer true) demo_two Hone); [|vm_compute; reflexivity].
  apply demo_legal; [done|done|vm_compute; discriminate|reflexivity].
Qed.

Lemma demo_reachable_any : reachable any_module demo_two.
Proof. by apply transient_demo_reachable. Qed.

Lemma demo_leased_reachable : reachable any_module demo_leased.
Proof. apply (reach_step _ demo_two (Acquire ["vision"] true) (Lease 1) demo_leased demo_reachable_any); vm_compute; reflexivity. Qed.

Lemma residency_is_safe_witness :
  resident_total (g_modules demo_leased) 0 = 20 /\ resident_total (g_modules demo_leased) 0 <= usable_bytes_locked demo_leased 0 /\
  exists m, g_modules demo_leased !! "vision" = Some m /\ m_resident m = true.
Proof.
  destruct (residency_is_safe demo_leased demo_leased_reachable) as (H1 & H2 & _). split; [vm_compute; reflexivity|]. split; [apply H1|].
  apply (H2 1 (mk_lease ["vision"] true (Some 0)) "vision"); [vm_compute; reflexivity|left].
Defined.

Lemma manager_calls_return_witness :
  (exists r s', exec Shutdown (demo_two) = Done r s' /\ r = Answer true /\ g_leases s' = ∅) /\
  (exists r s', run ["vision"] None true demo_two = Done r s' /\ reachable keeps_contract s').
Proof.
  split.
  2: { pose proof (proj2 (manager_calls_return (demo_two) (transient_demo_reachable _ (demo_contract _ _ _ _) (demo_contract _ _ _ _)))
         ["vision"] None true eq_refl ltac:(intros b s; discriminate)) as H.
       destruct (run ["vision"] None true demo_two) as [r s'|m| |] eqn:E; [exists r, s'; split; [reflexivity|exact H]|vm_compute in E; discriminate E..]. }
  destruct (proj1 (manager_calls_return (demo_two) (transient_demo_reachable _ (demo_contract _ _ _ _) (demo_contract _ _ _ _))) Shutdown I) as (r & s' & He & Hs).
  exists r, s'. split; [exact He|]. assert (Hr : r = Answer true) by (vm_compute in He; injection He; auto). split; [exact Hr|]. exact (proj1 (Hs eq_refl Hr)).
Defined.

Lemma lease_restores_residency_witness : exists s1 s2,
  acquire ["vision"] true (demo_two) = Done 1 s1 /\ release 1 false s1 = Done true s2 /\
  resident_total (g_modules s1) 0 = 20 /\ view <$> g_modules s2 = view <$> g_modules (demo_two).
Proof.
  destruct (acquire ["vision"] true (demo_two)) as [l s1| | |] eqn:E1; [|vm_compute in E1; discriminate E1..].
  destruct (release 1 false s1) as [b s2| | |] eqn:E2; [|vm_compute in E1; injection E1 as <- <-; vm_compute in E2; discriminate E2..].
  assert (Hl : l = 1) by (vm_compute in E1; injection E1; auto).
  assert (Ht : resident_total (g_modules s1) 0 = 20) by (vm_compute in E1; injection E1 as <- <-; vm_compute; reflexivity).
  assert (Hb : b = true) by (vm_compute in E1; injection E1 as <- <-; vm_compute in E2; injection E2; auto). subst l b.
  exists s1, s2. split; [reflexivity|]. split; [exact E2|]. split; [exact Ht|].
  refine (proj1 (lease_restores_residency (demo_two) ["vision"] false 1 s1 s2 demo_reachable_any _ _ E1 _ E2)); [vm_compute; reflexivity|vm_compute; reflexivity|lia].
Defined.

Lemma policy_change_is_atomic_witness : exists s1 s2 s3,
  prepare_policy transient_multimodal_only (demo_two) = Done (Some 0) s1 /\ publish_policy (Some 0) s1 = Done true s2 /\
  rollback_policy (Some 0) s2 = Done true s3 /\ g_budgets s2 !! 0 = Some (mk_budget 30 10) /\
  view <$> g_modules s3 = view <$> g_modules (demo_two).
Proof.
  destruct (prepare_policy transient_multimodal_only (demo_two)) as [h s1| | |] eqn:E1; [|vm_compute in E1; discriminate E1..].
  assert (Hh : h = Some 0) by (vm_compute in E1; injection E1; auto). subst h.
  destruct (publish_policy (Some 0) s1) as [b s2| | |] eqn:E2; [|vm_compute in E1; injection E1 as <-; vm_compute in E2; discriminate E2..].
  assert (Hb : b = true /\ g_budgets s2 !! 0 = Some (mk_budget 30 10))
    by (vm_compute in E1; injection E1 as <-; vm_compute in E2; injection E2 as <- <-; vm_compute; auto). destruct Hb as [-> Hbud].
  destruct (rollback_policy (Some 0) s2) as [b s3| | |] eqn:E3;
    [|vm_compute in E1; injection E1 as <-; vm_compute in E2; injection E2 as <-; vm_compute in E3; discriminate E3..].
  assert (Hb : b = true) by (vm_compute in E1; injection E1 as <-; vm_compute in E2; injection E2 as <-; vm_compute in E3; injection E3; auto). subst b.
  exists s1, s2, s3. split; [reflexivity|]. split; [exact E2|]. split; [exact E3|]. split; [exact Hbud|].
  destruct (policy_change_is_atomic (demo_two) transient_multimodal_only 0 s1 true s2 demo_reachable_any E1 E2) as (_ & _ & _ & _ & Hback).
  exact (proj1 (Hback s3 E3)).
Defined.

(** Registering a module as resident while an epoch is open breaks the budget.
    The manager checks the new module against what is resident at that moment
    and forgets what the epoch will restore: with 100 usable bytes, a lease on
    a 20-byte module evicts a 90-byte one, a resident module of 70 bytes is
    accepted, and the release brings the 90 bytes back, 160 in all.  Every call
    reports success. *)
Theorem resident_registration_overcommits :
  exists s, play ([Register demo_mtp; Register demo_vision; Acquire ["vision"] true; Register (demo_desc "audio" kind_audio 70 true); Release 1 true]) demo_start =
      Some ([Answer true; Answer true; Lease 1; Answer true; Answer true], s) /\
    usable_bytes_locked s 0 = 100 /\ resident_total (g_modules s) 0 = 160.
Proof.
  destruct (play _ demo_start) as [[rs s]|] eqn:E; [|vm_compute in E; discriminate E]. exists s.
  vm_compute in E. injection E as <- <-. split_and!; vm_compute; reflexivity.
Qed.
