(* ===== verification/PleHash.v ===== *)
(** * Hashing tokens to rows of the per-layer embedding table

    Model of [src/src/llama-qwen4exp-ple.h] and [.cpp]: the rolling
    bigram/trigram hash ([qwen4exp_ple_hasher]) and the arithmetic that places a
    row in the file ([qwen4exp_ple_extent_index]).  Tokens are 32-bit and hashes
    64-bit unsigned words with their wrap-around.  The conversion of a row to
    floats calls kernels of ggml and is not modelled. *)

From S2P Require Import Prelude ExpertDescriptor.
From stdpp Require Import strings.
Open Scope string_scope.
Open Scope list_scope.
Open Scope Z_scope.

Definition INT64_MAX : Z := 2 ^ 63 - 1.

(** ** The hash configuration *)

Record hash_config := mk_hash_config {
  eos_token_id : Z;
  layer_multipliers : list Z;
  head_vocab_sizes : list Z;
  head_offsets : list Z;
}.

(** Element [i] of a [std::array] of words. *)
Definition at_ (l : list Z) (i : nat) : Z := default 0 (l !! i).

(** The types of the fields: [uint32_t], [array<uint64_t, 3>] and
    [array<uint64_t, 16>]. *)
Record config_typed (c : hash_config) : Prop := {
  ct_eos : u32 (eos_token_id c);
  ct_multipliers : length (layer_multipliers c) = 3%nat /\ Forall u64 (layer_multipliers c);
  ct_sizes : length (head_vocab_sizes c) = 16%nat /\ Forall u64 (head_vocab_sizes c);
  ct_offsets : length (head_offsets c) = 16%nat /\ Forall u64 (head_offsets c);
}.

(** ** Where a row lies *)

Record ple_extent := mk_ple_extent {
  pe_shard : Z;
  pe_global_row : Z;
  pe_offset : Z;
  pe_length : Z;
  pe_first_page : Z;
  pe_last_page : Z;
}.

Record extent_index := mk_extent_index {
  xi_config : hash_config;
  xi_shard : Z;
  xi_tensor_data_offset : Z;
  xi_row_size : Z;
  xi_row_count : Z;
  xi_page_size : Z;
}.

(** The constructor. *)
Definition make_extent_index (config : hash_config) (shard tensor_data_offset row_size row_count page_size : Z)
    : result exn extent_index :=
  if (row_size =? 0) || (page_size =? 0)
  then Err (invalid_argument "qwen4exp PLE row and page sizes must be nonzero")
  else if row_count >? (UINT64_MAX - tensor_data_offset) / row_size
  then Err (overflow_error "qwen4exp PLE tensor extent overflows uint64")
  else
    let? _ := foldM (fun _ head =>
        let offset := at_ (head_offsets config) head in
        let size := at_ (head_vocab_sizes config) head in
        if (offset >? row_count) || (size >? row_count - offset)
        then Err (out_of_range "qwen4exp PLE head range exceeds tensor rows") else Ok tt)
      (seq 0 (length (head_offsets config))) tt in
    Ok (mk_extent_index config shard tensor_data_offset row_size row_count page_size).

Definition locate_global (x : extent_index) (global_row : Z) : result exn ple_extent :=
  if global_row >=? xi_row_count x then Err (out_of_range "qwen4exp PLE global row is out of range")
  else
    let offset := wrap64 (xi_tensor_data_offset x + wrap64 (global_row * xi_row_size x)) in
    let last_byte := wrap64 (wrap64 (offset + xi_row_size x) - 1) in
    Ok (mk_ple_extent (xi_shard x) global_row offset (xi_row_size x)
          (offset / xi_page_size x) (last_byte / xi_page_size x)).

Definition locate (x : extent_index) (head row : Z) : result exn ple_extent :=
  if head >=? Z.of_nat (length (head_offsets (xi_config x)))
  then Err (out_of_range "qwen4exp PLE head is out of range")
  else if row >=? at_ (head_vocab_sizes (xi_config x)) (Z.to_nat head)
  then Err (out_of_range "qwen4exp PLE row is out of range for its head")
  else locate_global x (wrap64 (at_ (head_offsets (xi_config x)) (Z.to_nat head) + row)).

(** ** The rolling hash *)

Record hasher := mk_hasher {
  h_config : hash_config;
  history : list Z;
  history_size : nat;
}.
#[export] Instance hasher_settable : Settable hasher :=
  fun h => mk_hasher (h_config h) (history h) (history_size h).

Definition make_hasher (config : hash_config) : result exn hasher :=
  if existsb (Z.eqb 0) (head_vocab_sizes config)
  then Err (invalid_argument "qwen4exp PLE head vocabulary size must be nonzero")
  else Ok (mk_hasher config [0; 0] 0).

Definition signed_remainder (value_bits divisor : Z) : Z :=
  let remainder := value_bits mod divisor in
  if value_bits <=? INT64_MAX then remainder
  else
    let two_to_64_mod := wrap64 (UINT64_MAX mod divisor + 1) mod divisor in
    if remainder >=? two_to_64_mod then wrap64 (remainder - two_to_64_mod)
    else wrap64 (remainder + wrap64 (divisor - two_to_64_mod)).

(** The row of every head for a token and its two predecessors. *)
Definition hash_rows (config : hash_config) (current previous previous_2 : Z) : list Z :=
  let bigram := Z.lxor (wrap64 (current * at_ (layer_multipliers config) 0))
                       (wrap64 (previous * at_ (layer_multipliers config) 1)) in
  let trigram := Z.lxor bigram (wrap64 (previous_2 * at_ (layer_multipliers config) 2)) in
  (fun head : nat =>
     let mixed := if (head <? 8)%nat then bigram else trigram in
     wrap64 (at_ (head_offsets config) head + signed_remainder mixed (at_ (head_vocab_sizes config) head)))
  <$> seq 0 16.

(** The update of the history. *)
Definition remember_token (token_id : Z) (h : hasher) : hasher :=
  if token_id =? eos_token_id (h_config h) then h <| history_size := 0%nat |>
  else
    let h := if (history_size h =? 2)%nat
             then h <| history ::= <[0%nat := at_ (history h) 1]> |> <| history_size := 1%nat |> else h in
    h <| history ::= <[history_size h := token_id]> |> <| history_size ::= S |>.

Definition hash_accept (token_id : Z) (h : hasher) : list Z * hasher :=
  let eos := eos_token_id (h_config h) in
  let previous := if (history_size h =? 0)%nat then eos else at_ (history h) (history_size h - 1) in
  let previous_2 := if (history_size h <? 2)%nat then eos else at_ (history h) 0 in
  (hash_rows (h_config h) token_id previous previous_2, remember_token token_id h).

Definition hash_reset (h : hasher) : hasher := h <| history_size := 0%nat |>.

(** ** The reference: a pure function of the tokens read so far *)

(** Tokens since the last end-of-sequence token, latest first. *)
Fixpoint since_eos (eos : Z) (latest_first : list Z) : list Z :=
  match latest_first with
  | [] => []
  | t :: l => if t =? eos then [] else t :: since_eos eos l
  end.

(** The value of a 64-bit pattern as a signed integer. *)
Definition to_int64 (bits : Z) : Z := if bits <=? INT64_MAX then bits else bits - 2 ^ 64.

(** The hash of a head: of two tokens for the first eight heads, of three for the
    others. *)
Definition mix (config : hash_config) (token previous previous_2 : Z) (head : nat) : Z :=
  let bigram := Z.lxor (wrap64 (token * at_ (layer_multipliers config) 0))
                       (wrap64 (previous * at_ (layer_multipliers config) 1)) in
  if (head <? 8)%nat then bigram
  else Z.lxor bigram (wrap64 (previous_2 * at_ (layer_multipliers config) 2)).

(** Rows of [token] after the tokens of [before] (chronological): a hash of the
    last two tokens of the current document, with floor division as in the
    training code. *)
Definition reference_rows (config : hash_config) (before : list Z) (token : Z) : list Z :=
  let eos := eos_token_id config in
  let context := since_eos eos (rev before) in
  (fun head : nat =>
     at_ (head_offsets config) head
     + to_int64 (mix config token (default eos (context !! 0%nat)) (default eos (context !! 1%nat)) head)
       mod at_ (head_vocab_sizes config) head)
  <$> seq 0 16.

(** The hasher after reading a list of tokens. *)
Definition hash_all (tokens : list Z) (h : hasher) : hasher :=
  foldl (fun h t => (hash_accept t h).2) h tokens.

(** ** Arithmetic *)

Lemma lxor_u64 a b : u64 a -> u64 b -> u64 (Z.lxor a b).
Proof.
  unfold u64, UINT64_MAX. intros Ha Hb. split; [apply Z.lxor_nonneg; lia|].
  destruct (decide (Z.lxor a b = 0)) as [->|Hne]; [lia|].
  assert (0 <= Z.lxor a b) by (apply Z.lxor_nonneg; lia).
  enough (Z.log2 (Z.lxor a b) < 64) by (pose proof (Z.log2_spec (Z.lxor a b) ltac:(lia));
    pose proof (Z.pow_le_mono_r 2 (Z.succ (Z.log2 (Z.lxor a b))) 64); lia).
  assert (forall x, 0 <= x <= 2 ^ 64 - 1 -> Z.log2 x < 64) as Hl.
  { intros x Hx. destruct (decide (x = 0)) as [->|]; [done|]. apply Z.log2_lt_pow2; lia. }
  pose proof (Z.log2_lxor a b ltac:(lia) ltac:(lia)). pose proof (Hl a Ha). pose proof (Hl b Hb). lia.
Qed.

(** [signed_remainder] is the floor remainder of the signed value of the bits. *)
Lemma signed_remainder_floor v d : u64 v -> u64 d -> 0 < d -> signed_remainder v d = to_int64 v mod d.
Proof.
  unfold u64, signed_remainder, to_int64. intros Hv Hd Hpos.
  destruct (v <=? INT64_MAX) eqn:E; [done|]. unfold wrap64, UINT64_MAX in *.
  assert (0 <= (2 ^ 64 - 1) mod d < d) as Hm by (apply Z.mod_pos_bound; lia).
  rewrite (Z.mod_small ((2 ^ 64 - 1) mod d + 1)) by lia.
  assert (((2 ^ 64 - 1) mod d + 1) mod d = 2 ^ 64 mod d) as ->.
  { rewrite Zplus_mod_idemp_l. f_equal; lia. }
  assert (0 <= 2 ^ 64 mod d < d) as Hw by (apply Z.mod_pos_bound; lia).
  assert (0 <= v mod d < d) as Hr by (apply Z.mod_pos_bound; lia).
  rewrite (Zminus_mod v (2 ^ 64) d). set (w := 2 ^ 64 mod d) in *. set (r := v mod d) in *.
  rewrite (Z.mod_small (d - w)) by lia.
  destruct (r >=? w) eqn:E2; bool_facts.
  - rewrite (Z.mod_small (r - w) (2 ^ 64)), (Z.mod_small (r - w) d) by lia. done.
  - rewrite (Z.mod_small (r + (d - w)) (2 ^ 64)) by lia.
    rewrite <- (Z.mod_add (r - w) 1 d), Z.mod_small by lia. lia.
Qed.

Lemma signed_remainder_bounds v d : u64 v -> u64 d -> 0 < d -> 0 <= signed_remainder v d < d.
Proof. intros. rewrite signed_remainder_floor by done. apply Z.mod_pos_bound; lia. Qed.

Lemma at_u64 l i : Forall u64 l -> u64 (at_ l i).
Proof.
  intros H. unfold at_. destruct (l !! i) eqn:E; simpl; [by eapply Forall_lookup_1|unfold u64, UINT64_MAX; lia].
Qed.
#[export] Hint Resolve lxor_u64 at_u64 : ese.

(** ** The history keeps the last two tokens of the document *)

Definition live_history (h : hasher) : list Z := take (history_size h) (history h).

Definition hasher_wf (h : hasher) : Prop := length (history h) = 2%nat /\ (history_size h <= 2)%nat.

(** Stale elements of the array are not observable. *)
#[export] Instance hasher_equiv : Equiv hasher := fun h h' =>
  h_config h = h_config h' /\ history_size h = history_size h' /\ live_history h = live_history h'.

#[export] Instance hasher_equivalence : Equivalence (≡@{hasher}).
Proof.
  split; unfold equiv, hasher_equiv; [done|by intros x y (?&?&?)|].
  intros x y z (?&?&?) (?&?&?). split_and!; congruence.
Qed.

Lemma live_history_length h : hasher_wf h -> length (live_history h) = history_size h.
Proof. intros [Hl Hs]. unfold live_history. rewrite length_take. lia. Qed.

Lemma live_history_at h i : (i < history_size h)%nat -> at_ (live_history h) i = at_ (history h) i.
Proof. intros. unfold at_, live_history. by rewrite lookup_take_lt. Qed.

Definition slide (eos token : Z) (l : list Z) : list Z :=
  if token =? eos then [] else drop (length l - 1) l ++ [token].

Lemma hasher_cases h : hasher_wf h ->
  exists a b, history h = [a; b] /\
    ((history_size h = 0 /\ live_history h = []) \/ (history_size h = 1 /\ live_history h = [a]) \/
     (history_size h = 2 /\ live_history h = [a; b]))%nat.
Proof.
  unfold hasher_wf, live_history. intros [Hl Hs]. destruct (history h) as [|a [|b [|]]]; try done. exists a, b.
  destruct (history_size h) as [|[|[|]]]; simpl; try lia; naive_solver.
Qed.

Lemma remember_token_live t h : hasher_wf h ->
  hasher_wf (remember_token t h) /\ h_config (remember_token t h) = h_config h /\
  history_size (remember_token t h) = length (slide (eos_token_id (h_config h)) t (live_history h)) /\
  live_history (remember_token t h) = slide (eos_token_id (h_config h)) t (live_history h).
Proof.
  intros Hwf. destruct (hasher_cases h Hwf) as (a & b & Ha & Hc). destruct h as [c l n]. simpl in *. subst l.
  unfold remember_token, slide, hasher_wf, live_history. simpl.
  destruct (t =? eos_token_id c) eqn:Et; [by simpl; auto with lia|].
  destruct Hc as [[-> Hv]|[[-> Hv]|[-> Hv]]]; unfold live_history in *; simpl in *; rewrite ?Hv; simpl; auto with lia.
Qed.

Lemma hash_accept_rows t h : hasher_wf h ->
  (hash_accept t h).1 = hash_rows (h_config h) t
    (default (eos_token_id (h_config h)) (last (live_history h)))
    (if (length (live_history h) <? 2)%nat then eos_token_id (h_config h) else at_ (live_history h) 0).
Proof.
  intros Hwf. destruct (hasher_cases h Hwf) as (a & b & Ha & Hc). destruct h as [c l n]. simpl in *. subst l.
  unfold hash_accept. simpl. by destruct Hc as [[-> ->]|[[-> ->]|[-> ->]]].
Qed.

(** What the hasher knows after the tokens [before]. *)
Definition knows (config : hash_config) (before : list Z) (h : hasher) : Prop :=
  hasher_wf h /\ h_config h = config /\
  live_history h = rev (take 2 (since_eos (eos_token_id config) (rev before))).

Lemma knows_equiv config before h h' : knows config before h -> knows config before h' -> h ≡ h'.
Proof.
  intros (Hw & Hc & Hl) (Hw' & Hc' & Hl'). split_and!; [congruence| |congruence].
  rewrite <- (live_history_length h), <- (live_history_length h') by done. congruence.
Qed.

Lemma knows_reset config before h : knows config before h -> knows config [] (hash_reset h).
Proof. intros ([? ?] & ? & ?). unfold knows, hasher_wf, live_history. simpl. auto with lia. Qed.

Lemma knows_make config h : make_hasher config = Ok h -> knows config [] h.
Proof. unfold make_hasher. case_match; [done|]. intros [= <-]. by repeat split; simpl; auto with lia. Qed.

Lemma slide_context eos t ctx :
  slide eos t (rev (take 2 ctx)) = rev (take 2 (if t =? eos then [] else t :: ctx)).
Proof.
  unfold slide. destruct (t =? eos); [done|]. by destruct ctx as [|a [|b ctx]].
Qed.

Lemma knows_accept config before t h : knows config before h -> knows config (before ++ [t]) (hash_accept t h).2.
Proof.
  intros (Hw & <- & Hl). destruct (remember_token_live t h Hw) as (Hw' & Hc & _ & Hl').
  split_and!; [done|done|]. simpl. rewrite Hl', Hl, slide_context, rev_app_distr. done.
Qed.

Lemma knows_all config before l h : knows config before h -> knows config (before ++ l) (hash_all l h).
Proof.
  revert before h. induction l as [|t l IH]; intros before h H; [by rewrite app_nil_r|].
  rewrite cons_middle, app_assoc. by apply IH, knows_accept.
Qed.

(** The contract under which a configuration is used: typed, no empty head, and
    every head inside the 64-bit row space. *)
Record config_ok (c : hash_config) : Prop := {
  co_typed : config_typed c;
  co_sizes : forall i, (i < 16)%nat -> 0 < at_ (head_vocab_sizes c) i;
  co_room : forall i, (i < 16)%nat -> at_ (head_offsets c) i + at_ (head_vocab_sizes c) i <= UINT64_MAX;
}.

Lemma hash_rows_reference config t a b : config_ok config ->
  hash_rows config t a b =
  (fun head : nat =>
     at_ (head_offsets config) head
     + to_int64 (mix config t a b head) mod at_ (head_vocab_sizes config) head) <$> seq 0 16.
Proof.
  intros [Ht Hs Hr]. unfold hash_rows. apply list_fmap_ext. intros i head Hi.
  apply lookup_seq in Hi as [-> Hi]. simpl.
  assert (u64 (at_ (head_vocab_sizes config) i)) by (apply at_u64, Ht).
  assert (u64 (at_ (head_offsets config) i)) by (apply at_u64, Ht).
  assert (forall bits, u64 bits ->
    wrap64 (at_ (head_offsets config) i + signed_remainder bits (at_ (head_vocab_sizes config) i)) =
    at_ (head_offsets config) i + to_int64 bits mod at_ (head_vocab_sizes config) i) as Hgo.
  { intros bits Hb. pose proof (signed_remainder_bounds bits (at_ (head_vocab_sizes config) i) Hb ltac:(done) (Hs i Hi)).
    rewrite signed_remainder_floor in * by auto. specialize (Hr i Hi).
    apply wrap64_small. unfold u64 in *. lia. }
  unfold mix. destruct (i <? 8)%nat; apply Hgo; auto with ese.
Qed.

(** Accepting a token gives the reference rows. *)
Lemma hash_accept_reference config before t h : config_ok config -> knows config before h ->
  (hash_accept t h).1 = reference_rows config before t.
Proof.
  intros Hok (Hw & Hc & Hl). rewrite hash_accept_rows by done. rewrite Hc, hash_rows_reference by done.
  unfold reference_rows. rewrite Hl. set (ctx := since_eos _ _).
  destruct ctx as [|a [|b ctx']]; simpl; done.
Qed.

Lemma reference_rows_range config before t i r : config_ok config ->
  reference_rows config before t !! i = Some r ->
  (i < 16)%nat /\ at_ (head_offsets config) i <= r < at_ (head_offsets config) i + at_ (head_vocab_sizes config) i.
Proof.
  intros Hok Hi. unfold reference_rows in Hi. apply list_lookup_fmap_Some in Hi as (j & -> & Hj).
  apply lookup_seq in Hj as [-> Hi]. simpl. split; [done|].
  pose proof (co_sizes _ Hok i Hi).
  match goal with |- context [?x mod ?d] => pose proof (Z.mod_pos_bound x d ltac:(done)) end.
  lia.
Qed.

(** ** Extents *)

Record index_ok (x : extent_index) : Prop := {
  xo_config : config_typed (xi_config x);
  xo_row_size : 0 < xi_row_size x;
  xo_page_size : 0 < xi_page_size x;
  xo_row_count : 0 <= xi_row_count x;
  xo_offset : 0 <= xi_tensor_data_offset x;
  xo_end : xi_tensor_data_offset x + xi_row_count x * xi_row_size x <= UINT64_MAX;
  xo_heads : forall i, (i < 16)%nat ->
    at_ (head_offsets (xi_config x)) i + at_ (head_vocab_sizes (xi_config x)) i <= xi_row_count x;
}.

Lemma foldM_check {A E} (bad : A -> bool) (e : E) l u u' :
  foldM (fun (_ : unit) x => if bad x then Err e else Ok tt) l u = Ok u' -> forall x, x ∈ l -> bad x = false.
Proof.
  revert u. induction l as [|y l IH]; intros u Hf x Hin; [by apply elem_of_nil in Hin|]. simpl in Hf.
  destruct (bad y) eqn:Hy; [done|]. apply elem_of_cons in Hin as [->|Hin]; [done|by eapply IH].
Qed.

Lemma make_extent_index_ok config shard offset row_size row_count page_size x :
  config_typed config -> u64 offset -> u64 row_size -> u64 row_count -> u64 page_size ->
  make_extent_index config shard offset row_size row_count page_size = Ok x ->
  index_ok x /\ x = mk_extent_index config shard offset row_size row_count page_size.
Proof.
  unfold u64, make_extent_index. intros Hc Ho Hr Hn Hp H. repeat case_match; try done. injection H as <-.
  bool_facts. split; [|done]. split; simpl; try done; try lia.
  - assert (row_count * row_size <= (UINT64_MAX - offset) / row_size * row_size) by nia.
    pose proof (Z.mul_div_le (UINT64_MAX - offset) row_size ltac:(lia)). lia.
  - intros i Hi. assert (i ∈ seq 0 (length (head_offsets config))) as Hin.
    { apply elem_of_seq. destruct (ct_offsets _ Hc). lia. }
    match goal with Hf : foldM _ _ _ = _ |- _ => pose proof (foldM_check _ _ _ _ _ Hf i Hin) as Hb end.
    simpl in Hb. bool_facts. lia.
Qed.

(** The extent of a row, without wrap-around. *)
Definition extent_at (x : extent_index) (row : Z) : ple_extent :=
  let offset := xi_tensor_data_offset x + row * xi_row_size x in
  mk_ple_extent (xi_shard x) row offset (xi_row_size x)
    (offset / xi_page_size x) ((offset + xi_row_size x - 1) / xi_page_size x).

Lemma row_in_tensor x row : index_ok x -> 0 <= row < xi_row_count x ->
  xi_tensor_data_offset x <= xi_tensor_data_offset x + row * xi_row_size x /\
  xi_tensor_data_offset x + row * xi_row_size x + xi_row_size x <=
    xi_tensor_data_offset x + xi_row_count x * xi_row_size x.
Proof. intros [] Hr. nia. Qed.

Lemma locate_global_ok x row : index_ok x -> 0 <= row < xi_row_count x -> locate_global x row = Ok (extent_at x row).
Proof.
  intros Hx Hr. pose proof (row_in_tensor x row Hx Hr). destruct Hx. unfold locate_global.
  replace (row >=? xi_row_count x) with false by lia. unfold extent_at.
  rewrite (wrap64_small (row * xi_row_size x)) by (unfold u64; nia).
  rewrite (wrap64_small (_ + row * xi_row_size x)) by (unfold u64; nia).
  rewrite (wrap64_small (_ + xi_row_size x)) by (unfold u64; nia).
  by rewrite wrap64_small by (unfold u64; nia).
Qed.

Lemma row_count_u64 x : index_ok x -> xi_row_count x <= UINT64_MAX.
Proof. intros []. nia. Qed.

Lemma locate_head x i row : index_ok x -> (i < 16)%nat -> 0 <= row < at_ (head_vocab_sizes (xi_config x)) i ->
  locate x (Z.of_nat i) row = locate_global x (at_ (head_offsets (xi_config x)) i + row).
Proof.
  intros Hx Hi Hr. unfold locate. destruct (ct_offsets _ (xo_config _ Hx)) as [Hl Hu].
  pose proof (xo_heads _ Hx i Hi). pose proof (row_count_u64 x Hx).
  assert (u64 (at_ (head_offsets (xi_config x)) i)) by auto with ese. unfold u64 in *.
  rewrite Hl. assert ((Z.of_nat i >=? Z.of_nat 16) = false) as ->. { rewrite Z.geb_leb. apply Z.leb_gt. lia. } rewrite Nat2Z.id.
  replace (row >=? _) with false by lia. rewrite wrap64_small; [done|]. unfold u64. lia.
Qed.

(** A configuration both constructors accept is usable. *)
Lemma accepted_config_ok config x h : index_ok x -> xi_config x = config -> make_hasher config = Ok h -> config_ok config.
Proof.
  intros Hx <- Hh. unfold make_hasher in Hh. case_match eqn:E; [done|]. clear Hh h.
  pose proof (xo_config _ Hx) as Ht. split; [done| |].
  - intros i Hi. destruct (ct_sizes _ Ht) as [Hl Hu].
    destruct (lookup_lt_is_Some_2 (head_vocab_sizes (xi_config x)) i ltac:(lia)) as [n Hn].
    unfold at_. rewrite Hn. simpl. pose proof (Forall_lookup_1 _ _ _ _ Hu Hn) as Hp.
    enough (n <> 0) by (unfold u64 in *; lia). intros ->.
    rewrite <- not_true_iff_false, existsb_exists in E. apply E. exists 0. split; [|done].
    by apply list_elem_of_In, list_elem_of_lookup_2 with i.
  - intros i Hi. pose proof (xo_heads _ Hx i Hi). pose proof (row_count_u64 x Hx). lia.
Qed.

(** ** Theorems *)

(** C36: Every row the hasher asks for lies in the table.  With a configuration that
    both constructors accept, the rows of a token after any text are the
    reference rows (a floor remainder of the signed hash of the last tokens of
    the document), and the extent index places each of them: no access is
    refused, the extent lies inside the tensor's bytes, its pages bracket it,
    and addressing it by head gives the same extent. *)
Theorem hashed_rows_are_located config shard offset row_size row_count page_size x h before token i row :
  config_typed config -> u64 offset -> u64 row_size -> u64 row_count -> u64 page_size ->
  make_extent_index config shard offset row_size row_count page_size = Ok x ->
  make_hasher config = Ok h ->
  (hash_accept token (hash_all before h)).1 !! i = Some row ->
  (hash_accept token (hash_all before h)).1 = reference_rows config before token /\
  exists e, locate_global x row = Ok e /\
    locate x (Z.of_nat i) (row - at_ (head_offsets config) i) = Ok e /\
    offset <= pe_offset e /\ pe_offset e + pe_length e <= offset + row_count * row_size /\
    pe_length e = row_size /\
    pe_first_page e * page_size <= pe_offset e < (pe_first_page e + 1) * page_size /\
    pe_last_page e * page_size < pe_offset e + pe_length e <= (pe_last_page e + 1) * page_size.
Proof.
  intros Ht Ho Hr Hn Hp Hx Hh Hi. destruct (make_extent_index_ok _ _ _ _ _ _ _ Ht Ho Hr Hn Hp Hx) as [Hok ->].
  pose proof (accepted_config_ok config _ h Hok eq_refl Hh) as Hc.
  pose proof (knows_all config [] before h (knows_make _ _ Hh)) as Hk.
  rewrite (hash_accept_reference config before token) in * by done. split; [done|].
  destruct (reference_rows_range _ _ _ _ _ Hc Hi) as [Hlt Hrange].
  pose proof (xo_heads _ Hok i Hlt) as Hroom. simpl in Hroom.
  assert (u64 (at_ (head_offsets config) i)) as Hoff by (apply at_u64, Ht). unfold u64 in *.
  assert (0 <= row < row_count) as Hrow by lia.
  rewrite (locate_head _ i (row - _) Hok Hlt) by (simpl; lia). simpl. rewrite Zplus_minus.
  rewrite (locate_global_ok _ row Hok Hrow). eexists. split; [done|]. split; [done|].
  pose proof (row_in_tensor _ row Hok Hrow) as Hin. simpl in *.
  pose proof (xo_page_size _ Hok) as Hpg. simpl in Hpg.
  split; [lia|]. split; [lia|]. split; [done|].
  set (o := offset + row * row_size) in *.
  pose proof (Z.div_mod o page_size ltac:(lia)). pose proof (Z.mod_pos_bound o page_size Hpg).
  pose proof (Z.div_mod (o + row_size - 1) page_size ltac:(lia)). pose proof (Z.mod_pos_bound (o + row_size - 1) page_size Hpg).
  nia.
Qed.

(** A table of sixteen heads of seven rows, and a hash with large multipliers. *)
Definition demo_config : hash_config :=
  mk_hash_config 2 [11400714819323198485; 14029467366897019727; 1609587929392839161]
    (replicate 16 7) ((fun i => 7 * Z.of_nat i) <$> seq 0 16).

Lemma demo_config_typed : config_typed demo_config.
Proof.
  split; [split; vm_compute; discriminate| | |]; (split; [reflexivity|]);
    repeat (apply Forall_cons_2; [split; vm_compute; discriminate|]); apply Forall_nil_2.
Qed.

Definition demo_index : extent_index := mk_extent_index demo_config 0 4000 90 112 4096.
Definition demo_hasher : hasher := mk_hasher demo_config [0; 0] 0.

Lemma hashed_rows_are_located_witness :
  (hash_accept 77 (hash_all [31; 2; 5; 9] demo_hasher)).1 !! 12%nat = Some 89 /\
  (hash_accept 77 (hash_all [31; 2; 5; 9] demo_hasher)).1 = reference_rows demo_config [31; 2; 5; 9] 77 /\
  exists e, locate_global demo_index 89 = Ok e /\ 4000 <= pe_offset e.
Proof.
  assert ((hash_accept 77 (hash_all [31; 2; 5; 9] demo_hasher)).1 !! 12%nat = Some 89) as Hrow by (vm_compute; reflexivity).
  destruct (hashed_rows_are_located demo_config 0 4000 90 112 4096 demo_index demo_hasher [31; 2; 5; 9] 77 12 89)
    as (He & e & Hl & _ & Ho & _);
    [exact demo_config_typed|split; vm_compute; discriminate..|reflexivity|reflexivity|exact Hrow|].
  split; [exact Hrow|]. split; [exact He|]. exists e. split; [exact Hl|exact Ho].
Defined.
