(* ===== verification/PleSequence.v ===== *)
(** * Token histories of sequences

    Model of [qwen4exp_ple_sequence_state] ([src/src/llama-qwen4exp-ple.h] and
    [.cpp]): for every sequence its tokens in chronological order, each with a
    rotary position, and a rolling hash of them that every operation on
    positions keeps up to date.

    The [std::map] of tokens is a list of entries in the order of their keys; the
    [std::unordered_map] of sequences is a finite map.  Node allocations can fail
    (the ledger of [llama_memory] has a budget): an operation that allocates
    takes a flag for each place where the code tells failures apart. *)

From S2P Require Import Prelude ExpertDescriptor PleHash.
From stdpp Require Import strings.
Open Scope string_scope.
Open Scope list_scope.
Open Scope Z_scope.

(** ** Ordered maps *)

(** Entry: chronological order, then rotary position and token. *)
Abbreviation token_entry := (Z * Z)%type.
Abbreviation order_map := (list (Z * token_entry)).

Fixpoint om_find (key : Z) (m : order_map) : option token_entry :=
  match m with
  | [] => None
  | (k, v) :: m => if k =? key then Some v else om_find key m
  end.

(** [std::map::emplace]: an existing key keeps its value. *)
Fixpoint om_emplace (key : Z) (value : token_entry) (m : order_map) : order_map :=
  match m with
  | [] => [(key, value)]
  | (k, v) :: m' =>
      if key <? k then (key, value) :: m
      else if key =? k then m
      else (k, v) :: om_emplace key value m'
  end.

Definition om_last_key (m : order_map) : option Z := fst <$> last m.

(** ** State *)

Record sequence := mk_sequence {
  tokens : order_map;
  seq_hasher : hasher;
  max_position : Z;
}.
#[export] Instance sequence_settable : Settable sequence :=
  fun s => mk_sequence (tokens s) (seq_hasher s) (max_position s).

Record sequence_state := mk_state {
  st_config : hash_config;
  sequences : gmap Z sequence;
}.
#[export] Instance sequence_state_settable : Settable sequence_state :=
  fun s => mk_state (st_config s) (sequences s).

Record history_entry := mk_history_entry { he_order : Z; he_position : Z; he_token : Z }.

Definition make_sequence_state (config : hash_config) : sequence_state := mk_state config ∅.

Definition make_sequence (config : hash_config) : result exn sequence :=
  let? h := make_hasher config in Ok (mk_sequence [] h (-1)).

(** ** Operations

    Each gives the result, or the exception, and the state it leaves. *)

Definition outcome (A : Type) : Type := (result exn A * sequence_state)%type.

(** [rebuild]. *)
Definition rebuild (s : sequence) : sequence :=
  foldl (fun s (entry : Z * token_entry) =>
      s <| seq_hasher ::= fun h => (hash_accept entry.2.2 h).2 |>
        <| max_position ::= fun m => Z.max m entry.2.1 |>)
    (s <| seq_hasher ::= hash_reset |> <| max_position := -1 |>) (tokens s).

(** [sequences_.try_emplace]: the node, and whether it is new. *)
Definition try_emplace (node_fails : bool) (seq_id : Z) (s : sequence_state) : result exn (sequence * bool) :=
  match sequences s !! seq_id with
  | Some q => Ok (q, false)
  | None =>
      if node_fails then Err bad_alloc
      else let? q := make_sequence (st_config s) in Ok (q, true)
  end.

Definition accept (node_fails token_fails : bool) (seq_id position token_id : Z) (s : sequence_state) : outcome (list Z) :=
  if (position <? 0) || (position =? INT64_MAX)
  then (Err (invalid_argument "qwen4exp PLE token position is invalid"), s)
  else match try_emplace node_fails seq_id s with
  | Err e => (Err e, s)
  | Ok (q, inserted) =>
      let s := s <| sequences ::= <[seq_id := q]> |> in
      if position <=? max_position q
      then (Err (invalid_argument "qwen4exp PLE new token position must follow retained positions"), s)
      else if match om_last_key (tokens q) with Some k => k >=? INT64_MAX - 1 | None => false end
      then (Err (invalid_argument "qwen4exp PLE chronological order overflows"), s)
      else
        let order := match om_last_key (tokens q) with Some k => k + 1 | None => position end in
        if token_fails
        then (Err bad_alloc, if inserted then s <| sequences ::= delete seq_id |> else s)
        else
          let '(rows, h) := hash_accept token_id (seq_hasher q) in
          (Ok rows, s <| sequences ::= <[seq_id := mk_sequence (om_emplace order (position, token_id) (tokens q)) h position]> |>)
  end.

(** The range [p0, p1) as the operations read it. *)
Definition range_start (p0 : Z) : Z := if p0 <? 0 then 0 else p0.
Definition range_end (p1 : Z) : Z := if p1 <? 0 then INT64_MAX else p1.
Definition in_range (p0 p1 position : Z) : bool := (p0 <=? position) && (position <? p1).
Definition selected (seq_id id : Z) : bool := (seq_id <? 0) || (id =? seq_id).

Definition drop_range (p0 p1 : Z) (m : order_map) : order_map :=
  filter (fun entry : Z * token_entry => negb (in_range p0 p1 entry.2.1)) m.

Definition remove_from (p0 p1 : Z) (q : sequence) : option sequence :=
  let kept := drop_range p0 p1 (tokens q) in
  let changed := negb (length kept =? length (tokens q))%nat in
  if (length kept =? 0)%nat then None
  else
    let q := q <| tokens := kept |> in
    Some (if changed then rebuild q else q).

Definition remove (seq_id p0 p1 : Z) (s : sequence_state) : sequence_state :=
  let p0 := range_start p0 in
  let p1 := range_end p1 in
  if p0 >=? p1 then s
  else s <| sequences ::= map_imap (fun id q => if selected seq_id id then remove_from p0 p1 q else Some q) |>.

(** One round of the copying loop of [copy]. *)
Definition copy_entry (p0 p1 : Z) (acc : order_map * bool) (entry : Z * token_entry) : result exn (order_map * bool) :=
  let '(prepared, copied) := acc in
  if negb (in_range p0 p1 entry.2.1) then Ok (prepared, copied)
  else match om_find entry.1 prepared with
  | None => Ok (om_emplace entry.1 entry.2 prepared, true)
  | Some v =>
      if bool_decide (v = entry.2) then Ok (prepared, true)
      else Err (invalid_argument "qwen4exp PLE sequence copy has conflicting token order")
  end.

(** The check of the positions that both sequences use. *)
Definition copy_conflict (p0 p1 : Z) (source prepared : order_map) : bool :=
  let copied_positions := (fun entry => entry.2.1) <$> filter (fun entry : Z * token_entry => in_range p0 p1 entry.2.1) source in
  existsb (fun other : Z * token_entry =>
      bool_decide (other.2.1 ∈ copied_positions) && negb (bool_decide (om_find other.1 source = Some other.2))) prepared.

Definition copy (alloc_fails : bool) (src_seq_id dst_seq_id p0 p1 : Z) (s : sequence_state) : outcome unit :=
  if src_seq_id =? dst_seq_id then (Ok tt, s)
  else match sequences s !! src_seq_id with
  | None => (Ok tt, s)
  | Some source =>
      let p0 := range_start p0 in
      let p1 := range_end p1 in
      if p0 >=? p1 then (Ok tt, s)
      else match make_sequence (st_config s) with
      | Err e => (Err e, s)
      | Ok fresh =>
          let prepared := default fresh (sequences s !! dst_seq_id) in
          if alloc_fails then (Err bad_alloc, s)
          else if copy_conflict p0 p1 (tokens source) (tokens prepared)
          then (Err (invalid_argument "qwen4exp PLE sequence copy has conflicting token positions"), s)
          else match foldM (copy_entry p0 p1) (tokens source) (tokens prepared, false) with
          | Err e => (Err e, s)
          | Ok (_, false) => (Ok tt, s)
          | Ok (merged, true) =>
              (Ok tt, s <| sequences ::= <[dst_seq_id := rebuild (prepared <| tokens := merged |>)]> |>)
          end
      end
  end.

(** The loop of [add] over the tokens of one sequence. *)
Definition shift_tokens (p0 p1 delta : Z) (m : order_map) : order_map :=
  filter (fun entry : Z * token_entry => 0 <= entry.2.1)
    ((fun entry => (entry.1, (if in_range p0 p1 entry.2.1 then entry.2.1 + delta else entry.2.1, entry.2.2))) <$> m).

Definition max_of (m : order_map) : Z := foldl (fun acc (entry : Z * token_entry) => Z.max acc entry.2.1) (-1) m.

Definition add_to (p0 p1 delta : Z) (q : sequence) : option sequence :=
  let kept := shift_tokens p0 p1 delta (tokens q) in
  let removed := negb (length kept =? length (tokens q))%nat in
  let q := q <| tokens := kept |> <| max_position := max_of kept |> in
  if (length kept =? 0)%nat then None else Some (if removed then rebuild q else q).

Definition shift_overflows (p0 p1 delta : Z) (m : order_map) : bool :=
  existsb (fun entry : Z * token_entry =>
      in_range p0 p1 entry.2.1 && ((delta >? 0) && (entry.2.1 >? INT64_MAX - delta))) m.

Definition add (seq_id p0 p1 delta : Z) (s : sequence_state) : outcome unit :=
  let p0 := range_start p0 in
  let p1 := range_end p1 in
  if (delta =? 0) || (p0 >=? p1) then (Ok tt, s)
  else if existsb (fun item : Z * sequence => selected seq_id item.1 && shift_overflows p0 p1 delta (tokens item.2))
            (map_to_list (sequences s))
  then (Err (invalid_argument "qwen4exp PLE position shift overflows"), s)
  else (Ok tt, s <| sequences ::= map_imap (fun id q => if selected seq_id id then add_to p0 p1 delta q else Some q) |>).

Definition divide_tokens (p0 p1 divisor : Z) (m : order_map) : order_map :=
  (fun entry => (entry.1, (if in_range p0 p1 entry.2.1 then entry.2.1 ÷ divisor else entry.2.1, entry.2.2))) <$> m.

Definition divide_in (p0 p1 divisor : Z) (q : sequence) : sequence :=
  let moved := divide_tokens p0 p1 divisor (tokens q) in
  q <| tokens := moved |> <| max_position := max_of moved |>.

Definition divide (seq_id p0 p1 divisor : Z) (s : sequence_state) : outcome unit :=
  if divisor <=? 0 then (Err (invalid_argument "qwen4exp PLE position divisor must be positive"), s)
  else
    let p0 := range_start p0 in
    let p1 := range_end p1 in
    if (p0 >=? p1) || (divisor =? 1) then (Ok tt, s)
    else (Ok tt, s <| sequences ::= map_imap (fun id q => Some (if selected seq_id id then divide_in p0 p1 divisor q else q)) |>).

(** [history(seq_id)]. *)
Definition seq_history (seq_id : Z) (s : sequence_state) : list history_entry :=
  match sequences s !! seq_id with
  | None => []
  | Some q => (fun entry : Z * token_entry => mk_history_entry entry.1 entry.2.1 entry.2.2) <$> tokens q
  end.

Definition seq_reset (seq_id : Z) (s : sequence_state) : sequence_state := s <| sequences ::= delete seq_id |>.

Definition restore_entry (acc : order_map * Z) (entry : history_entry) : result exn (order_map * Z) :=
  let '(m, previous) := acc in
  if (he_order entry <=? previous) || (he_order entry =? INT64_MAX) || (he_position entry <? 0)
  then Err (invalid_argument "qwen4exp PLE restore has invalid chronological order or position")
  else Ok (om_emplace (he_order entry) (he_position entry, he_token entry) m, he_order entry).

Definition restore_history (alloc_fails : bool) (seq_id : Z) (h : list history_entry) (s : sequence_state) : outcome unit :=
  match h with
  | [] => (Ok tt, seq_reset seq_id s)
  | _ =>
      match make_sequence (st_config s) with
      | Err e => (Err e, s)
      | Ok prepared =>
          match foldM restore_entry h (tokens prepared, -1) with
          | Err e => (Err e, s)
          | Ok (m, _) =>
              if alloc_fails then (Err bad_alloc, s)
              else (Ok tt, s <| sequences ::= <[seq_id := rebuild (prepared <| tokens := m |>)]> |>)
          end
      end
  end.

Definition keep (seq_id : Z) (s : sequence_state) : sequence_state :=
  match sequences s !! seq_id with
  | None => s <| sequences := ∅ |>
  | Some _ => s <| sequences ::= map_imap (fun id q => if id =? seq_id then Some q else None) |>
  end.

Definition clear_sequences (s : sequence_state) : sequence_state := s <| sequences := ∅ |>.

(** [tokens(seq_id)]. *)
Definition seq_tokens (seq_id : Z) (s : sequence_state) : list token_entry :=
  match sequences s !! seq_id with Some q => snd <$> tokens q | None => [] end.

Definition by_id (a b : Z * list token_entry) : Prop := a.1 <= b.1.
#[export] Instance by_id_dec : RelDecision by_id.
Proof. intros a b. unfold by_id. apply _. Defined.

Definition all_tokens (s : sequence_state) : list (Z * list token_entry) :=
  merge_sort by_id
    ((fun item : Z * sequence => (item.1, seq_tokens item.1 s)) <$> map_to_list (sequences s)).

(** [restore]: positions are the chronology.  The token value is carried as the
    value of a map whose keys are the positions. *)
Definition sort_token (acc : order_map) (token : token_entry) : result exn order_map :=
  if (token.1 <? 0) || bool_decide (is_Some (om_find token.1 acc))
  then Err (invalid_argument "qwen4exp PLE restore contains invalid or duplicate token positions")
  else Ok (om_emplace token.1 (token.1, token.2) acc).

Definition restore (alloc_fails : bool) (seq_id : Z) (l : list token_entry) (s : sequence_state) : outcome unit :=
  match foldM sort_token l [] with
  | Err e => (Err e, s)
  | Ok sorted => restore_history alloc_fails seq_id
                   ((fun entry : Z * token_entry => mk_history_entry entry.1 entry.1 entry.2.2) <$> sorted) s
  end.

(** ** Calls *)

Inductive call :=
| Accept (node_fails token_fails : bool) (seq_id position token_id : Z)
| Remove (seq_id p0 p1 : Z)
| Copy (alloc_fails : bool) (src dst p0 p1 : Z)
| Add (seq_id p0 p1 delta : Z)
| Divide (seq_id p0 p1 divisor : Z)
| RestoreHistory (alloc_fails : bool) (seq_id : Z) (h : list history_entry)
| Restore (alloc_fails : bool) (seq_id : Z) (l : list token_entry)
| Keep (seq_id : Z)
| Reset (seq_id : Z)
| Clear.

(** The rows of [Accept]; the other calls answer with no rows. *)
Definition quiet (o : outcome unit) : outcome (list Z) :=
  (match o.1 with Ok _ => Ok [] | Err e => Err e end, o.2).

Definition run_call (c : call) (s : sequence_state) : outcome (list Z) :=
  match c with
  | Accept nf tf seq_id position token_id => accept nf tf seq_id position token_id s
  | Remove seq_id p0 p1 => (Ok [], remove seq_id p0 p1 s)
  | Copy af src dst p0 p1 => quiet (copy af src dst p0 p1 s)
  | Add seq_id p0 p1 delta => quiet (add seq_id p0 p1 delta s)
  | Divide seq_id p0 p1 divisor => quiet (divide seq_id p0 p1 divisor s)
  | RestoreHistory af seq_id h => quiet (restore_history af seq_id h s)
  | Restore af seq_id l => quiet (restore af seq_id l s)
  | Keep seq_id => (Ok [], keep seq_id s)
  | Reset seq_id => (Ok [], seq_reset seq_id s)
  | Clear => (Ok [], clear_sequences s)
  end.

Fixpoint run_calls (l : list call) (s : sequence_state) : list (result exn (list Z)) * sequence_state :=
  match l with
  | [] => ([], s)
  | c :: l => let '(r, s) := run_call c s in let '(rs, s) := run_calls l s in (r :: rs, s)
  end.

(** ** The specification: histories only

    The abstract state keeps the entries of every sequence and nothing derived
    from them: rows are computed from the whole retained history, the largest
    position by a scan. *)

Abbreviation book := (gmap Z order_map).

Definition token_values (m : order_map) : list Z := (fun entry => entry.2.2) <$> m.

Definition spec_accept (config : hash_config) (nf tf : bool) (seq_id position token_id : Z) (b : book)
    : result exn (list Z) * book :=
  if (position <? 0) || (position =? INT64_MAX)
  then (Err (invalid_argument "qwen4exp PLE token position is invalid"), b)
  else match b !! seq_id with
  | None =>
      if nf || tf then (Err bad_alloc, b)
      else (Ok (reference_rows config [] token_id), <[seq_id := [(position, (position, token_id))]]> b)
  | Some m =>
      if position <=? max_of m
      then (Err (invalid_argument "qwen4exp PLE new token position must follow retained positions"), b)
      else match om_last_key m with
      | None => (Ok [], b)
      | Some k =>
          if k >=? INT64_MAX - 1 then (Err (invalid_argument "qwen4exp PLE chronological order overflows"), b)
          else if tf then (Err bad_alloc, b)
          else (Ok (reference_rows config (token_values m) token_id), <[seq_id := m ++ [(k + 1, (position, token_id))]]> b)
      end
  end.

Definition nonempty (m : order_map) : option order_map := if (length m =? 0)%nat then None else Some m.

Definition spec_restore (af : bool) (seq_id : Z) (h : list history_entry) (b : book) : result exn (list Z) * book :=
  match h with
  | [] => (Ok [], delete seq_id b)
  | _ =>
      match foldM restore_entry h ([], -1) with
      | Err e => (Err e, b)
      | Ok (m, _) => if af then (Err bad_alloc, b) else (Ok [], <[seq_id := m]> b)
      end
  end.

Definition spec_copy (af : bool) (src dst p0 p1 : Z) (b : book) : result exn (list Z) * book :=
  if src =? dst then (Ok [], b)
  else match b !! src with
  | None => (Ok [], b)
  | Some source =>
      let p0 := range_start p0 in
      let p1 := range_end p1 in
      let target := default [] (b !! dst) in
      if p0 >=? p1 then (Ok [], b)
      else if af then (Err bad_alloc, b)
      else if copy_conflict p0 p1 source target
      then (Err (invalid_argument "qwen4exp PLE sequence copy has conflicting token positions"), b)
      else match foldM (copy_entry p0 p1) source (target, false) with
      | Err e => (Err e, b)
      | Ok (_, false) => (Ok [], b)
      | Ok (merged, true) => (Ok [], <[dst := merged]> b)
      end
  end.

Definition spec_call (config : hash_config) (c : call) (b : book) : result exn (list Z) * book :=
  match c with
  | Accept nf tf seq_id position token_id => spec_accept config nf tf seq_id position token_id b
  | Remove seq_id p0 p1 =>
      (Ok [], if range_start p0 >=? range_end p1 then b
              else map_imap (fun id m => if selected seq_id id
                     then nonempty (drop_range (range_start p0) (range_end p1) m)
                     else Some m) b)
  | Copy af src dst p0 p1 => spec_copy af src dst p0 p1 b
  | Add seq_id p0 p1 delta =>
      if (delta =? 0) || (range_start p0 >=? range_end p1) then (Ok [], b)
      else if existsb (fun item : Z * order_map => selected seq_id item.1 && shift_overflows (range_start p0) (range_end p1) delta item.2)
               (map_to_list b)
      then (Err (invalid_argument "qwen4exp PLE position shift overflows"), b)
      else (Ok [], map_imap (fun id m => if selected seq_id id
                     then nonempty (shift_tokens (range_start p0) (range_end p1) delta m) else Some m) b)
  | Divide seq_id p0 p1 divisor =>
      if divisor <=? 0 then (Err (invalid_argument "qwen4exp PLE position divisor must be positive"), b)
      else if (range_start p0 >=? range_end p1) || (divisor =? 1) then (Ok [], b)
      else (Ok [], map_imap (fun id m => Some (if selected seq_id id
                     then divide_tokens (range_start p0) (range_end p1) divisor m else m)) b)
  | RestoreHistory af seq_id h => spec_restore af seq_id h b
  | Restore af seq_id l =>
      match foldM sort_token l [] with
      | Err e => (Err e, b)
      | Ok sorted => spec_restore af seq_id ((fun e : Z * token_entry => mk_history_entry e.1 e.1 e.2.2) <$> sorted) b
      end
  | Keep seq_id => (Ok [], match b !! seq_id with None => ∅ | Some m => {[seq_id := m]} end)
  | Reset seq_id => (Ok [], delete seq_id b)
  | Clear => (Ok [], ∅)
  end.

Fixpoint spec_calls (config : hash_config) (l : list call) (b : book) : list (result exn (list Z)) * book :=
  match l with
  | [] => ([], b)
  | c :: l => let '(r, b) := spec_call config c b in let '(rs, b) := spec_calls config l b in (r :: rs, b)
  end.

(** The entries a state keeps. *)
Definition entries_of (s : sequence_state) : book := tokens <$> sequences s.

(** ** Ordered maps: lemmas *)

Definition key_lt (a b : Z * token_entry) : Prop := a.1 < b.1.
Definition sorted_keys (m : order_map) : Prop := StronglySorted key_lt m.

Lemma om_emplace_elem k v m e : e ∈ om_emplace k v m -> e = (k, v) \/ e ∈ m.
Proof.
  induction m as [|[k' v'] m IH]; simpl; [set_solver|]. repeat case_match; set_solver.
Qed.

Lemma om_emplace_mono k v m e : e ∈ m -> e ∈ om_emplace k v m.
Proof.
  induction m as [|[k' v'] m IH]; simpl; [set_solver|]. repeat case_match; set_solver.
Qed.

Lemma om_emplace_sorted k v m : sorted_keys m -> sorted_keys (om_emplace k v m).
Proof.
  unfold sorted_keys, key_lt. induction m as [|[k' v'] m IH]; intros Hs; simpl; [by repeat constructor|].
  inversion_clear Hs as [|?? Hs' Hf]. case_match; bool_facts; [|case_match; bool_facts].
  - constructor; [by constructor|]. constructor; [done|]. eapply Forall_impl; [done|]. simpl. lia.
  - by constructor.
  - constructor; [by apply IH|]. apply Forall_forall. intros e He. apply om_emplace_elem in He as [->|He]; [simpl; lia|].
    by eapply Forall_forall in Hf.
Qed.

Lemma om_last_key_snoc m e : om_last_key (m ++ [e]) = Some e.1.
Proof. unfold om_last_key. by rewrite last_snoc. Qed.

Lemma om_emplace_snoc k v m : sorted_keys m -> (forall k', om_last_key m = Some k' -> k' < k) ->
  om_emplace k v m = m ++ [(k, v)].
Proof.
  unfold sorted_keys. induction m as [|[k' v'] m IH]; intros Hs Hl; [done|]. simpl.
  inversion_clear Hs as [|?? Hs' Hf].
  assert (k' < k) as Hlt.
  { destruct m as [|e m _] using rev_ind; [by apply Hl|]. rewrite app_comm_cons, om_last_key_snoc in Hl.
    specialize (Hl _ eq_refl). rewrite Forall_forall in Hf. pose proof (Hf e ltac:(set_solver)) as H.
    unfold key_lt in H. simpl in H. lia. }
  replace (k <? k') with false by lia. replace (k =? k') with false by lia. f_equal. apply IH; [done|].
  intros x Hx. apply Hl. destruct m; [done|]. unfold om_last_key in *. by rewrite last_cons_cons.
Qed.

Lemma sorted_fmap f m : (forall e, (f e).1 = e.1) -> sorted_keys m -> sorted_keys (f <$> m).
Proof.
  unfold sorted_keys, key_lt. intros Hf Hs. induction Hs as [|e m Hs IH Hl]; [constructor|].
  constructor; [done|]. apply Forall_fmap. eapply Forall_impl; [done|]. intros x. simpl. by rewrite !Hf.
Qed.

Lemma max_of_snoc m e : max_of (m ++ [e]) = Z.max (max_of m) e.2.1.
Proof. unfold max_of. by rewrite foldl_app. Qed.

Lemma max_of_ge m : -1 <= max_of m.
Proof. induction m as [|e m IH] using rev_ind; [done|]. rewrite max_of_snoc. lia. Qed.

Lemma max_of_elem m e : e ∈ m -> e.2.1 <= max_of m.
Proof.
  induction m as [|e' m IH] using rev_ind; intros He; [by apply elem_of_nil in He|].
  rewrite max_of_snoc. apply elem_of_app in He as [He|He%list_elem_of_singleton]; [specialize (IH He); lia|subst; lia].
Qed.

(** ** The invariant *)

Definition entry_ok (e : Z * token_entry) : Prop := 0 <= e.1 < INT64_MAX /\ 0 <= e.2.1 <= INT64_MAX.

Definition entries_ok (m : order_map) : Prop := m <> [] /\ sorted_keys m /\ Forall entry_ok m.

Record seq_ok (config : hash_config) (q : sequence) : Prop := {
  so_entries : entries_ok (tokens q);
  so_max : max_position q = max_of (tokens q);
  so_hash : knows config (token_values (tokens q)) (seq_hasher q);
}.

Definition state_ok (s : sequence_state) : Prop :=
  forall id q, sequences s !! id = Some q -> seq_ok (st_config s) q.

(** The C++ types of the arguments of a call. *)
Definition call_typed (c : call) : Prop :=
  match c with
  | Accept _ _ _ position _ => position <= INT64_MAX
  | RestoreHistory _ _ h => Forall (fun e => he_order e <= INT64_MAX /\ he_position e <= INT64_MAX) h
  | Restore _ _ l => Forall (fun e : token_entry => e.1 <= INT64_MAX) l
  | _ => True
  end.

Lemma rebuild_spec config before q : knows config before (seq_hasher q) ->
  tokens (rebuild q) = tokens q /\ max_position (rebuild q) = max_of (tokens q) /\
  knows config (token_values (tokens q)) (seq_hasher (rebuild q)).
Proof.
  intros Hk. unfold rebuild. apply knows_reset in Hk.
  set (step := fun s (entry : Z * token_entry) => _). set (q0 := _ <| max_position := -1 |>).
  assert (forall m, tokens (foldl step q0 m) = tokens q /\ max_position (foldl step q0 m) = max_of m /\
    knows config (token_values m) (seq_hasher (foldl step q0 m))) as H; [|apply H].
  intros m. induction m as [|e m (IH1 & IH2 & IH3)] using rev_ind; [done|].
  rewrite foldl_app, max_of_snoc. unfold token_values. rewrite fmap_app. simpl. split_and!; [done|by rewrite IH2|].
  by apply knows_accept.
Qed.

Lemma rebuild_ok config before q : knows config before (seq_hasher q) -> entries_ok (tokens q) -> seq_ok config (rebuild q).
Proof.
  intros Hk He. destruct (rebuild_spec config before q Hk) as (Ht & Hm & Hh). split; rewrite ?Ht; done.
Qed.

Lemma make_sequence_ok config : config_ok config ->
  exists h, make_sequence config = Ok (mk_sequence [] h (-1)) /\ knows config [] h.
Proof.
  intros Hc. unfold make_sequence, make_hasher. destruct (existsb _ _) eqn:E.
  - apply existsb_exists in E as (x & Hx & <-%Z.eqb_eq). exfalso.
    apply list_elem_of_In, list_elem_of_lookup in Hx as [i Hi].
    destruct (ct_sizes _ (co_typed _ Hc)) as [Hl _]. pose proof (lookup_lt_Some _ _ _ Hi).
    pose proof (co_sizes _ Hc i ltac:(lia)) as Hp. unfold at_ in Hp. rewrite Hi in Hp. simpl in Hp. lia.
  - eexists. split; [done|]. by repeat split; simpl; auto with lia.
Qed.

Definition keys_ok (m : order_map) : Prop := sorted_keys m /\ Forall entry_ok m.

Lemma keys_ok_emplace k v m : keys_ok m -> entry_ok (k, v) -> keys_ok (om_emplace k v m).
Proof.
  intros [Hs Hf] He. split; [by apply om_emplace_sorted|]. apply Forall_forall. intros e Hin.
  rewrite Forall_forall in Hf. apply om_emplace_elem in Hin as [->|Hin]; auto.
Qed.

Lemma om_emplace_nonempty k v m : om_emplace k v m <> [].
Proof. destruct m as [|[]]; simpl; repeat case_match; done. Qed.

Lemma last_key_elem m k : om_last_key m = Some k -> exists v, (k, v) ∈ m.
Proof.
  unfold om_last_key. destruct (last m) as [[k' v]|] eqn:E; [|done]. intros [= ->]. exists v.
  by apply last_Some_elem_of.
Qed.

Lemma entries_last m : m <> [] -> exists k, om_last_key m = Some k.
Proof.
  unfold om_last_key. destruct (last m) eqn:E; [eauto|]. by apply last_None in E.
Qed.

Lemma filter_same_length {A} (P : A -> Prop) `{!forall x, Decision (P x)} (l : list A) :
  length (filter P l) = length l -> filter P l = l.
Proof.
  induction l as [|x l IH]; [done|]. rewrite filter_cons. pose proof (length_filter P l).
  case_decide; simpl; intros Hl; [f_equal; apply IH; lia|lia].
Qed.

Lemma existsb_fmap {A B} (f : A -> B) (p : B -> bool) l : existsb p (f <$> l) = existsb (fun x => p (f x)) l.
Proof. induction l as [|x l IH]; [done|]. rewrite fmap_cons. cbn [existsb]. by rewrite IH. Qed.

Lemma existsb_false {A} (p : A -> bool) l x : existsb p l = false -> x ∈ l -> p x = false.
Proof.
  intros H Hx. apply not_true_iff_false. intros Hp. rewrite <- not_true_iff_false, existsb_exists in H.
  apply H. exists x. split; [by apply list_elem_of_In|done].
Qed.

Lemma keys_ok_drop p0 p1 m : keys_ok m -> keys_ok (drop_range p0 p1 m).
Proof.
  intros [Hs Hf]. split; [by apply StronglySorted_filter|]. rewrite Forall_forall in *.
  intros e [_ He]%list_elem_of_filter. auto.
Qed.

(** A filtered or shifted history, with the hash rebuilt when tokens went. *)
Lemma refresh_ok config q kept (gone : bool) m : seq_ok config q -> keys_ok kept -> kept <> [] -> m = max_of kept ->
  (gone = false -> token_values kept = token_values (tokens q)) ->
  let q' := q <| tokens := kept |> <| max_position := m |> in
  seq_ok config (if gone then rebuild q' else q').
Proof.
  intros [He Hm Hh] Hk Hn -> Hsame q'. destruct gone; [by apply (rebuild_ok config (token_values (tokens q)))|].
  split; [by split|done|]. simpl. by rewrite Hsame.
Qed.

Lemma shift_no_overflow p0 p1 delta m e : shift_overflows p0 p1 delta m = false -> Forall entry_ok m ->
  e ∈ shift_tokens p0 p1 delta m -> entry_ok e.
Proof.
  intros Ho Hf [Hpos He]%list_elem_of_filter. apply list_elem_of_fmap in He as ([k [p t]] & -> & Hin).
  rewrite Forall_forall in Hf. pose proof (Hf _ Hin) as [Hk Hp]. pose proof (existsb_false _ _ _ Ho Hin) as Hb.
  simpl in *. split; simpl; [done|]. destruct (in_range p0 p1 p); simpl in *; [|lia].
  destruct (delta >? 0) eqn:E; simpl in *; bool_facts; lia.
Qed.

Lemma shift_keys_ok p0 p1 delta m : shift_overflows p0 p1 delta m = false -> keys_ok m -> keys_ok (shift_tokens p0 p1 delta m).
Proof.
  intros Ho [Hs Hf]. split.
  - apply StronglySorted_filter. by apply (sorted_fmap (fun e => (e.1, (_, _)))).
  - apply Forall_forall. intros e. by apply shift_no_overflow.
Qed.

Lemma shift_values p0 p1 delta m : length (shift_tokens p0 p1 delta m) = length m ->
  token_values (shift_tokens p0 p1 delta m) = token_values m.
Proof.
  unfold shift_tokens. intros Hl. rewrite filter_same_length.
  - unfold token_values. rewrite <- list_fmap_compose. by apply list_fmap_ext.
  - by rewrite Hl, length_fmap.
Qed.

Lemma divide_keys_ok p0 p1 divisor m : 0 < divisor -> keys_ok m -> keys_ok (divide_tokens p0 p1 divisor m).
Proof.
  intros Hd [Hs Hf]. split; [by apply (sorted_fmap (fun e => (e.1, (_, _))))|]. unfold divide_tokens.
  apply Forall_fmap. eapply Forall_impl; [done|]. intros [k [p t]] [Hk Hp]. split; simpl in *; [done|].
  destruct (in_range p0 p1 p); [|done]. rewrite Z.quot_div_nonneg by lia.
  split; [apply Z.div_pos; lia|]. pose proof (Z.div_le_upper_bound p divisor p). nia.
Qed.

Lemma copy_fold_ok p0 p1 source target merged copied : Forall entry_ok source -> keys_ok target ->
  foldM (copy_entry p0 p1) source (target, false) = Ok (merged, copied) ->
  keys_ok merged /\ (copied = true -> merged <> []).
Proof.
  intros Hsrc Ht H.
  apply (foldM_invariant (fun acc : order_map * bool => keys_ok acc.1 /\ (acc.2 = true -> acc.1 <> [])) _ _ _ _) in H; [done| |done].
  intros [m c] e [m' c'] He [Hm Hc]. unfold copy_entry. simpl in *. rewrite Forall_forall in Hsrc.
  destruct (negb _); [naive_solver|]. destruct (om_find e.1 m) as [v|] eqn:Ef.
  - case_bool_decide; intros [= <- <-]. split; [done|]. intros _ ->. done.
  - intros [= <- <-]. split; [apply keys_ok_emplace; [done|]; destruct e; by apply Hsrc|intros _; apply om_emplace_nonempty].
Qed.

Definition of_history (h : list history_entry) : order_map := (fun e => (he_order e, (he_position e, he_token e))) <$> h.

(** A restored history is the list of its entries. *)
Lemma restore_fold h m previous m' p' : keys_ok m -> -1 <= previous -> (forall k, om_last_key m = Some k -> k <= previous) ->
  Forall (fun e => he_order e <= INT64_MAX /\ he_position e <= INT64_MAX) h ->
  foldM restore_entry h (m, previous) = Ok (m', p') -> keys_ok m' /\ m' = m ++ of_history h.
Proof.
  revert m previous. induction h as [|e h IH]; intros m previous Hm Hp Hl Ht H.
  - simpl in H. injection H as <- <-. by rewrite app_nil_r.
  - apply foldM_cons_ok in H as ([m1 p1] & H1 & H2). apply Forall_cons in Ht as [[] Ht].
    unfold restore_entry in H1. destruct (_ || _) eqn:E; [done|]. injection H1 as <- <-. bool_facts.
    assert (om_emplace (he_order e) (he_position e, he_token e) m = m ++ [(he_order e, (he_position e, he_token e))]) as Hem.
    { apply om_emplace_snoc; [apply Hm|]. intros k Hk. specialize (Hl k Hk). lia. }
    apply IH in H2 as [Hk ->]; [|apply keys_ok_emplace; [done|split; simpl; lia]|lia| |done].
    2: { rewrite Hem, om_last_key_snoc. intros k [= <-]. simpl. lia. }
    split; [done|]. rewrite Hem, <- app_assoc. done.
Qed.

(** ** Each call follows the specification *)

Definition follows (config : hash_config) (s : sequence_state) (o : outcome (list Z)) (spec : result exn (list Z) * book) : Prop :=
  state_ok o.2 /\ st_config o.2 = config /\ spec = (o.1, entries_of o.2).

Lemma set_same s id q : sequences s !! id = Some q -> s <| sequences ::= <[id := q]> |> = s.
Proof. intros H. destruct s. simpl in *. by rewrite insert_id. Qed.

Lemma set_undone s id q : sequences s !! id = None -> s <| sequences ::= <[id := q]> |> <| sequences ::= delete id |> = s.
Proof. intros H. destruct s. simpl in *. by rewrite delete_insert_id. Qed.

Lemma set_twice s id q q' : s <| sequences ::= <[id := q]> |> <| sequences ::= <[id := q']> |> = s <| sequences ::= <[id := q']> |>.
Proof. destruct s. simpl. by rewrite insert_insert_eq. Qed.

Section calls.
Context (config : hash_config) (Hconfig : config_ok config).
Context (s : sequence_state) (Hs : state_ok s) (Hst : st_config s = config).

Lemma entries_lookup id : entries_of s !! id = tokens <$> sequences s !! id.
Proof. apply lookup_fmap. Qed.

Lemma unchanged r : follows config s (r, s) (r, entries_of s).
Proof. done. Qed.

Lemma stored id q r : seq_ok config q ->
  follows config s (r, s <| sequences ::= <[id := q]> |>) (r, <[id := tokens q]> (entries_of s)).
Proof.
  intros Hq. split_and!; [|done|]; simpl.
  - intros id' q'. simpl. intros [[<- <-]|[_ H]]%lookup_insert_Some; [by rewrite Hst|by eapply Hs].
  - unfold entries_of. simpl. by rewrite fmap_insert.
Qed.

Lemma mapped (f : Z -> sequence -> option sequence) (g : Z -> order_map -> option order_map) r :
  (forall id q, sequences s !! id = Some q -> seq_ok config q ->
    (forall q', f id q = Some q' -> seq_ok config q') /\ tokens <$> f id q = g id (tokens q)) ->
  follows config s (r, s <| sequences ::= map_imap f |>) (r, map_imap g (entries_of s)).
Proof.
  intros Hf. split_and!; [|done|]; simpl.
  - intros id q'. simpl. rewrite map_lookup_imap. intros (q & Hq & Hfq)%bind_Some. rewrite Hst.
    destruct (Hf id q) as [H _]; [done|rewrite <- Hst; by eapply Hs|]. by apply H.
  - f_equal. apply map_eq. intros id. unfold entries_of. simpl. rewrite lookup_fmap, !map_lookup_imap, lookup_fmap.
    destruct (sequences s !! id) as [q|] eqn:Hq; simpl; [|done].
    destruct (Hf id q) as [_ H]; [done|rewrite <- Hst; by eapply Hs|]. by rewrite H.
Qed.

(** A token appended to a sequence that is there. *)
Lemma appended q k position token_id : seq_ok config q -> om_last_key (tokens q) = Some k -> k < INT64_MAX - 1 ->
  max_of (tokens q) < position <= INT64_MAX ->
  let q' := mk_sequence (om_emplace (k + 1) (position, token_id) (tokens q)) (hash_accept token_id (seq_hasher q)).2 position in
  seq_ok config q' /\ tokens q' = tokens q ++ [(k + 1, (position, token_id))].
Proof.
  intros [(Hn & Hso & Hf) Hm Hh] Hk Hlt Hp q'. pose proof (max_of_ge (tokens q)).
  assert (tokens q' = tokens q ++ [(k + 1, (position, token_id))]) as Ht.
  { simpl. apply om_emplace_snoc; [done|]. rewrite Hk. intros ? [= <-]. lia. }
  destruct (last_key_elem _ _ Hk) as [v Hin]. rewrite Forall_forall in Hf. pose proof (Hf _ Hin) as [Hk0 _]. simpl in Hk0.
  split; [|done]. split; rewrite ?Ht.
  - split; [by destruct (tokens q)|]. rewrite <- Ht. simpl. apply keys_ok_emplace; [split; [done|by apply Forall_forall]|].
    split; simpl; lia.
  - rewrite max_of_snoc. simpl. lia.
  - unfold token_values. rewrite fmap_app. simpl. by apply knows_accept.
Qed.

(** The first token of a sequence. *)
Lemma started h position token_id : knows config [] h -> 0 <= position < INT64_MAX ->
  seq_ok config (mk_sequence [(position, (position, token_id))] (hash_accept token_id h).2 position).
Proof.
  intros Hh Hp. split; simpl.
  - split_and!; [done|repeat constructor|]. repeat constructor; simpl; lia.
  - unfold max_of. simpl. lia.
  - by apply (knows_accept config []).
Qed.

Lemma accept_follows nf tf seq_id position token_id : position <= INT64_MAX ->
  follows config s (accept nf tf seq_id position token_id s)
    (spec_accept config nf tf seq_id position token_id (entries_of s)).
Proof.
  intros Hp. unfold accept, spec_accept. rewrite entries_lookup.
  destruct ((position <? 0) || _) eqn:E; [apply unchanged|]. bool_facts.
  unfold try_emplace. destruct (sequences s !! seq_id) as [q|] eqn:Hq; cbn [fmap option_fmap option_map];
    cbv beta iota zeta.
  - pose proof (Hs _ _ Hq) as Hok. rewrite Hst in Hok. rewrite (set_same _ _ _ Hq), (so_max _ _ Hok).
    destruct (position <=? max_of (tokens q)) eqn:E1; [apply unchanged|]. bool_facts.
    destruct (entries_last (tokens q)) as [k Hk]; [apply (so_entries _ _ Hok)|]. rewrite Hk.
    destruct (k >=? INT64_MAX - 1) eqn:E2; [apply unchanged|]. bool_facts. destruct tf; [apply unchanged|].
    destruct (appended q k position token_id Hok Hk ltac:(lia) ltac:(lia)) as [Hq' Ht].
    rewrite <- (hash_accept_reference _ _ _ _ Hconfig (so_hash _ _ Hok)). rewrite <- Ht.
    rewrite (surjective_pairing (hash_accept token_id (seq_hasher q))). by apply stored.
  - destruct nf; [apply unchanged|]. destruct (make_sequence_ok config Hconfig) as (h & Hmk & Hh).
    rewrite Hst, Hmk. cbv beta iota zeta. rewrite set_undone by done.
    cbn [max_position tokens om_last_key last fmap option_fmap option_map seq_hasher om_emplace].
    replace (position <=? -1) with false by lia. destruct tf; [apply unchanged|].
    rewrite <- (hash_accept_reference _ _ _ _ Hconfig Hh).
    rewrite (surjective_pairing (hash_accept token_id h)). cbv beta iota. rewrite set_twice.
    apply (stored seq_id (mk_sequence [(position, (position, token_id))] (hash_accept token_id h).2 position)).
    apply started; [done|lia].
Qed.

Lemma remove_from_ok p0 p1 q : seq_ok config q ->
  (forall q', remove_from p0 p1 q = Some q' -> seq_ok config q') /\
  tokens <$> remove_from p0 p1 q = nonempty (drop_range p0 p1 (tokens q)).
Proof.
  intros Hq. pose proof Hq as [(Hn & Hso & Hf) Hm Hh]. unfold remove_from, nonempty.
  pose proof (keys_ok_drop p0 p1 (tokens q) (conj Hso Hf)) as Hk.
  set (kept := drop_range p0 p1 (tokens q)) in *. destruct (length kept =? 0)%nat eqn:E; [done|].
  assert (kept <> []) as Hne by (intros ->; done).
  destruct (length kept =? length (tokens q))%nat eqn:E2; simpl.
  - assert (kept = tokens q) as -> by (apply filter_same_length; by apply Nat.eqb_eq).
    split; [|done]. intros ? [= <-]. by destruct q.
  - split.
    + intros ? [= <-]. by apply (rebuild_ok config (token_values (tokens q))).
    + simpl. f_equal. set (q' := q <| tokens := kept |>). by apply (rebuild_spec config (token_values (tokens q)) q').
Qed.

Lemma remove_follows seq_id p0 p1 :
  follows config s (Ok [], remove seq_id p0 p1 s) (spec_call config (Remove seq_id p0 p1) (entries_of s)).
Proof.
  unfold remove, spec_call. destruct (range_start p0 >=? range_end p1); [apply unchanged|].
  apply mapped. intros id q _ Hq. destruct (selected seq_id id); [by apply remove_from_ok|naive_solver].
Qed.

Lemma add_to_ok p0 p1 delta q : seq_ok config q -> shift_overflows p0 p1 delta (tokens q) = false ->
  (forall q', add_to p0 p1 delta q = Some q' -> seq_ok config q') /\
  tokens <$> add_to p0 p1 delta q = nonempty (shift_tokens p0 p1 delta (tokens q)).
Proof.
  intros Hq Ho. pose proof Hq as [(Hn & Hso & Hf) Hm Hh]. unfold add_to, nonempty.
  pose proof (shift_keys_ok p0 p1 delta (tokens q) Ho (conj Hso Hf)) as Hk.
  pose proof (shift_values p0 p1 delta (tokens q)) as Hv.
  set (kept := shift_tokens p0 p1 delta (tokens q)) in *. destruct (length kept =? 0)%nat eqn:E; [done|].
  assert (kept <> []) as Hne by (intros ->; done). split.
  - intros q' [= <-]. apply (refresh_ok config q kept _ (max_of kept)); try done.
    intros Hg. apply Hv. apply negb_false_iff, Nat.eqb_eq in Hg. done.
  - simpl. f_equal. destruct (negb _); [|done].
    set (q' := q <| tokens := kept |> <| max_position := max_of kept |>). by apply (rebuild_spec config (token_values (tokens q)) q').
Qed.

Lemma add_follows seq_id p0 p1 delta :
  follows config s (quiet (add seq_id p0 p1 delta s)) (spec_call config (Add seq_id p0 p1 delta) (entries_of s)).
Proof.
  unfold add, spec_call. destruct (_ || _); [apply unchanged|].
  assert (map_to_list (entries_of s) = prod_map id tokens <$> map_to_list (sequences s)) as -> by apply map_to_list_fmap.
  rewrite existsb_fmap. cbn [prod_map fst snd id].
  destruct (existsb _ _) eqn:E; [apply unchanged|].
  apply (mapped (fun id q => if selected seq_id id then add_to _ _ delta q else Some q)).
  intros id q Hid Hq. destruct (selected seq_id id) eqn:Es; [|naive_solver]. apply add_to_ok; [done|].
  apply elem_of_map_to_list in Hid. pose proof (existsb_false _ _ _ E Hid) as Hb. simpl in Hb. by rewrite Es in Hb.
Qed.

Lemma divide_follows seq_id p0 p1 divisor :
  follows config s (quiet (divide seq_id p0 p1 divisor s)) (spec_call config (Divide seq_id p0 p1 divisor) (entries_of s)).
Proof.
  unfold divide, spec_call. destruct (divisor <=? 0) eqn:E; [apply unchanged|]. bool_facts.
  destruct (_ || _); [apply unchanged|].
  apply (mapped (fun id q => Some (if selected seq_id id then divide_in _ _ divisor q else q))).
  intros id q _ Hq. destruct (selected seq_id id); [|naive_solver]. split; [|done].
  intros q' [= <-]. pose proof Hq as [(Hn & Hso & Hf) Hm Hh].
  apply (refresh_ok config q (divide_tokens _ _ divisor (tokens q)) false); try done.
  - apply divide_keys_ok; [lia|by split].
  - unfold divide_tokens. by destruct (tokens q).
  - intros _. unfold token_values, divide_tokens. rewrite <- list_fmap_compose. by apply list_fmap_ext.
Qed.

Lemma copy_follows af src dst p0 p1 :
  follows config s (quiet (copy af src dst p0 p1 s)) (spec_copy af src dst p0 p1 (entries_of s)).
Proof.
  unfold copy, spec_copy. destruct (src =? dst); [apply unchanged|]. rewrite !entries_lookup.
  destruct (sequences s !! src) as [source|] eqn:Hsrc; [|apply unchanged]. cbn [fmap option_fmap option_map].
  destruct (range_start p0 >=? range_end p1); [apply unchanged|].
  destruct (make_sequence_ok config Hconfig) as (h & Hmk & Hh). rewrite Hst, Hmk.
  set (prepared := default (mk_sequence [] h (-1)) (sequences s !! dst)).
  assert (default [] (tokens <$> sequences s !! dst) = tokens prepared) as ->.
  { unfold prepared. by destruct (sequences s !! dst). }
  assert (exists before, keys_ok (tokens prepared) /\ knows config before (seq_hasher prepared)) as (before & Hk & Hp).
  { unfold prepared. destruct (sequences s !! dst) as [q|] eqn:Hq; simpl; [|exists []; split; [split; constructor|done]].
    pose proof (Hs _ _ Hq) as [(_ & ? & ?) _ ?]. rewrite Hst in *. eexists. split; [split; done|done]. }
  destruct af; [apply unchanged|]. destruct (copy_conflict _ _ _ _); [apply unchanged|].
  destruct (foldM _ _ _) as [[merged []]|e] eqn:Ef; [|apply unchanged|apply unchanged].
  pose proof (Hs _ _ Hsrc) as [(_ & _ & Hfs) _ _]. apply copy_fold_ok in Ef as [Hm Hne]; [|done|done].
  set (q := prepared <| tokens := merged |>). destruct (rebuild_spec config before q Hp) as (Ht & _ & _).
  change merged with (tokens q). rewrite <- Ht.
  apply stored. eapply rebuild_ok; [done|]. split; [by apply Hne|done].
Qed.

Lemma restore_history_follows af seq_id h : Forall (fun e => he_order e <= INT64_MAX /\ he_position e <= INT64_MAX) h ->
  follows config s (quiet (restore_history af seq_id h s)) (spec_restore af seq_id h (entries_of s)).
Proof.
  intros Ht. unfold restore_history, spec_restore. destruct h as [|e h].
  - split_and!; simpl; [|done|].
    + intros id q. simpl. intros [_ Hq]%lookup_delete_Some. by apply Hs in Hq.
    + unfold entries_of. simpl. by rewrite fmap_delete.
  - destruct (make_sequence_ok config Hconfig) as (hash & Hmk & Hh). rewrite Hst, Hmk. cbn [tokens].
    destruct (foldM _ _ _) as [[m p]|] eqn:Ef; [|apply unchanged].
    destruct (restore_fold _ _ _ _ _ ltac:(by repeat constructor) ltac:(done) ltac:(done) Ht Ef) as [Hk Hm].
    destruct af; [apply unchanged|].
    destruct (rebuild_spec config [] (mk_sequence m hash (-1)) Hh) as (Hr & _ & _).
    replace (<[seq_id := m]> (entries_of s)) with (<[seq_id := tokens (rebuild (mk_sequence m hash (-1)))]> (entries_of s)) by (by rewrite Hr).
    apply stored. eapply rebuild_ok; [done|]. split; [by subst m|done].
Qed.
End calls.

Lemma sort_token_typed l sorted : Forall (fun e : token_entry => e.1 <= INT64_MAX) l -> foldM sort_token l [] = Ok sorted ->
  Forall (fun e => he_order e <= INT64_MAX /\ he_position e <= INT64_MAX)
    ((fun e : Z * token_entry => mk_history_entry e.1 e.1 e.2.2) <$> sorted).
Proof.
  intros Hl H. apply Forall_fmap. simpl.
  apply (foldM_invariant (Forall (fun e : Z * token_entry => e.1 <= INT64_MAX /\ e.1 <= INT64_MAX))) in H; [done| |constructor].
  intros b [p t] b' Hin Hb. unfold sort_token. destruct (_ || _); [done|]. intros [= <-].
  rewrite Forall_forall in Hl. rewrite Forall_forall in Hb. apply Forall_forall.
  intros e He. apply om_emplace_elem in He as [->|He]; [|by apply Hb]. by specialize (Hl _ Hin).
Qed.

Lemma keep_entries seq_id q (m : gmap Z sequence) : m !! seq_id = Some q ->
  map_imap (fun id q => if id =? seq_id then Some q else None) m = {[seq_id := q]}.
Proof.
  intros Hq. apply map_eq. intros id. rewrite map_lookup_imap. destruct (decide (id = seq_id)) as [->|Hne].
  - rewrite Hq, lookup_singleton_eq. simpl. by rewrite Z.eqb_refl.
  - rewrite lookup_singleton_ne by done. destruct (m !! id); [|done]. simpl. by rewrite (proj2 (Z.eqb_neq _ _) Hne).
Qed.

(** Every call follows the specification. *)
Lemma call_follows config c s : config_ok config -> state_ok s -> st_config s = config -> call_typed c ->
  follows config s (run_call c s) (spec_call config c (entries_of s)).
Proof.
  intros Hc Hs Hst Ht. destruct c; simpl in Ht.
  - by apply accept_follows.
  - by apply remove_follows.
  - by apply copy_follows.
  - by apply add_follows.
  - by apply divide_follows.
  - by apply restore_history_follows.
  - simpl. unfold restore. destruct (foldM sort_token l []) as [sorted|e] eqn:E; [|done].
    apply restore_history_follows; try done. by eapply sort_token_typed.
  - simpl. unfold keep. rewrite entries_lookup.
    destruct (sequences s !! seq_id) as [q|] eqn:Hq; [|by unfold entries_of; split_and!; simpl; rewrite ?fmap_empty].
    destruct s as [cf m]. simpl in *. rewrite (keep_entries seq_id q m Hq). split_and!; [|done|].
    + intros id q'. simpl. intros [<- <-]%lookup_singleton_Some. by eapply Hs.
    + unfold entries_of. simpl. by rewrite map_fmap_singleton.
  - apply (restore_history_follows config Hc s Hs Hst false seq_id []). constructor.
  - by unfold entries_of; split_and!; simpl; rewrite ?fmap_empty.
Qed.

Lemma calls_follow config l s : config_ok config -> state_ok s -> st_config s = config -> Forall call_typed l ->
  let '(rs, s') := run_calls l s in
  state_ok s' /\ st_config s' = config /\ spec_calls config l (entries_of s) = (rs, entries_of s').
Proof.
  intros Hc. revert s. induction l as [|c l IH]; intros s Hs Hst Ht; [done|]. apply Forall_cons in Ht as [Ht Htl]. simpl.
  destruct (call_follows config c s Hc Hs Hst Ht) as (Hs' & Hst' & ->). destruct (run_call c s) as [r s']. simpl in *.
  specialize (IH s' Hs' Hst' Htl). destruct (run_calls l s') as [rs s'']. destruct IH as (? & ? & ->). done.
Qed.

Lemma make_state_ok config : state_ok (make_sequence_state config).
Proof. intros id q H. simpl in H. by rewrite lookup_empty in H. Qed.

(** A state that calls can lead to. *)
Definition reached (config : hash_config) (s : sequence_state) : Prop :=
  config_ok config /\ exists l, Forall call_typed l /\ (run_calls l (make_sequence_state config)).2 = s.

Lemma reached_ok config s : reached config s -> config_ok config /\ state_ok s /\ st_config s = config.
Proof.
  intros (Hc & l & Ht & <-). pose proof (calls_follow config l _ Hc (make_state_ok config) eq_refl Ht) as H.
  by destruct (run_calls l (make_sequence_state config)); destruct_and!.
Qed.

(** What the calls answer depends on the retained entries only. *)
Lemma answers_by_entries config s s' l : reached config s -> state_ok s' -> st_config s' = config ->
  entries_of s = entries_of s' -> Forall call_typed l -> (run_calls l s).1 = (run_calls l s').1.
Proof.
  intros (Hc & Hs & Hst)%reached_ok Hs' Hst' He Hl.
  pose proof (calls_follow config l s Hc Hs Hst Hl) as H. pose proof (calls_follow config l s' Hc Hs' Hst' Hl) as H'.
  destruct (run_calls l s), (run_calls l s'). rewrite He in H. simpl. destruct_and!. congruence.
Qed.

(** *** Rollback *)

Lemma drop_range_app p0 p1 m m' : drop_range p0 p1 (m ++ m') = drop_range p0 p1 m ++ drop_range p0 p1 m'.
Proof. apply filter_app. Qed.

Lemma drop_range_none p0 p1 m : Forall (fun e => in_range p0 p1 e.2.1 = false) m -> drop_range p0 p1 m = m.
Proof. intros H. apply filter_all. eapply Forall_impl; [done|]. intros e He. simpl. by rewrite He. Qed.

Lemma drop_range_all p0 p1 m : Forall (fun e => in_range p0 p1 e.2.1 = true) m -> drop_range p0 p1 m = [].
Proof.
  unfold drop_range. induction 1 as [|e m He _ IH]; [done|]. rewrite filter_cons, decide_False; [done|intros H; by rewrite He in H].
Qed.

(** Drafts that were accepted are appended to their sequence. *)
Lemma drafts_appended config seq_id p0 drafts b rs b' :
  Forall (fun d : token_entry => p0 <= d.1 <= INT64_MAX) drafts ->
  spec_calls config ((fun d => Accept false false seq_id d.1 d.2) <$> drafts) b = (rs, b') -> Forall (fun r => is_ok r = true) rs ->
  exists new, Forall (fun e => in_range p0 INT64_MAX e.2.1 = true) new /\
    ((new = [] /\ b' = b) \/ b' = <[seq_id := default [] (b !! seq_id) ++ new]> b).
Proof.
  revert b rs. induction drafts as [|d drafts IH]; intros b rs Hp Hr Hok; [exists []; naive_solver|].
  apply Forall_cons in Hp as [Hp Hps]. rewrite fmap_cons in Hr. cbn [spec_calls spec_call] in Hr.
  destruct (spec_accept config false false seq_id d.1 d.2 b) as [r b1] eqn:Ea.
  destruct (spec_calls config _ b1) as [rs1 b2] eqn:Es. injection Hr as <- <-.
  apply Forall_cons in Hok as [Hr Hok]. destruct (IH b1 rs1 Hps Es Hok) as (new & Hnew & Hb).
  assert (b1 = b \/ exists k, b1 = <[seq_id := default [] (b !! seq_id) ++ [(k, (d.1, d.2))]]> b /\ in_range p0 INT64_MAX d.1 = true) as Hb1.
  { clear - Ea Hr Hp. unfold spec_accept in Ea. destruct ((d.1 <? 0) || _) eqn:E; [by simplify_eq|]. bool_facts.
    assert (in_range p0 INT64_MAX d.1 = true) as Hi by (unfold in_range; apply andb_true_iff; split; [apply Z.leb_le|apply Z.ltb_lt]; lia).
    destruct (b !! seq_id) as [m|]; simpl in *; [|injection Ea as <- <-; right; by eexists].
    destruct (_ <=? _); [by simplify_eq|]. destruct (om_last_key m) as [k|]; [|simplify_eq; by left].
    destruct (_ >=? _); [by simplify_eq|]. injection Ea as <- <-. right. by eexists. }
  destruct Hb1 as [->|(k & -> & Hi)]; [by exists new|].
  exists ((k, (d.1, d.2)) :: new). split; [by constructor|]. right.
  destruct Hb as [[-> ->]| ->]; [done|]. rewrite lookup_insert_eq, insert_insert_eq. simpl. by rewrite <- app_assoc.
Qed.

Lemma rollback_entries config seq_id p0 new b : 0 <= seq_id -> 0 <= p0 < INT64_MAX ->
  (forall id m, b !! id = Some m -> m <> []) ->
  Forall (fun e : Z * token_entry => e.2.1 < p0) (default [] (b !! seq_id)) ->
  Forall (fun e => in_range p0 INT64_MAX e.2.1 = true) new ->
  forall b', ((new = [] /\ b' = b) \/ b' = <[seq_id := default [] (b !! seq_id) ++ new]> b) ->
  (spec_call config (Remove seq_id p0 (-1)) b').2 = b.
Proof.
  intros Hid Hp0 Hne Hold Hnew b' Hb'. cbn [spec_call snd]. unfold range_start, range_end.
  replace (p0 <? 0) with false by lia. replace (-1 <? 0) with true by lia. replace (p0 >=? INT64_MAX) with false by lia.
  apply map_eq. intros id. rewrite map_lookup_imap. unfold selected. replace (seq_id <? 0) with false by lia. simpl.
  assert (drop_range p0 INT64_MAX (default [] (b !! seq_id)) = default [] (b !! seq_id)) as Hd.
  { apply drop_range_none. eapply Forall_impl; [done|]. intros e. unfold in_range. simpl. lia. }
  destruct (decide (id = seq_id)) as [->|Hid'].
  - rewrite Z.eqb_refl. unfold nonempty. destruct Hb' as [[_ ->]| ->].
    + destruct (b !! seq_id) as [m|] eqn:E; simpl in *; [|done]. rewrite Hd. specialize (Hne _ _ E). by destruct m.
    + rewrite lookup_insert_eq. simpl. rewrite drop_range_app, Hd, (drop_range_all p0 INT64_MAX new), app_nil_r by done.
      destruct (b !! seq_id) as [m|] eqn:E; simpl in *; [|done]. specialize (Hne _ _ E). by destruct m.
  - rewrite (proj2 (Z.eqb_neq _ _) Hid'). destruct Hb' as [[_ ->]| ->]; [|rewrite lookup_insert_ne by done]; by destruct (b !! id).
Qed.

(** *** Snapshots *)

Definition to_history (m : order_map) : list history_entry := (fun e => mk_history_entry e.1 e.2.1 e.2.2) <$> m.

Lemma of_to_history m : of_history (to_history m) = m.
Proof.
  unfold of_history, to_history. rewrite <- list_fmap_compose. rewrite <- (list_fmap_id m) at 2.
  apply list_fmap_ext. by intros i [k [p t]].
Qed.

(** The entries of a kept sequence pass the checks of [restore_history]. *)
Lemma restore_accepts m previous kept : keys_ok m -> Forall (fun e : Z * token_entry => previous < e.1) m ->
  exists m' p', foldM restore_entry (to_history m) (kept, previous) = Ok (m', p').
Proof.
  revert previous kept. induction m as [|e m IH]; intros previous kept [Hs Hf] Hp; [by eexists _, _|].
  inversion_clear Hs as [|?? Hs' Hl]. apply Forall_cons in Hf as [[Hk He] Hf]. apply Forall_cons in Hp as [Hp _]. simpl.
  replace ((e.1 <=? previous) || (e.1 =? INT64_MAX) || (e.2.1 <? 0)) with false by lia.
  apply IH; [by split|exact Hl].
Qed.

Lemma keys_ok_typed m : keys_ok m -> Forall (fun e => he_order e <= INT64_MAX /\ he_position e <= INT64_MAX) (to_history m).
Proof. intros [_ Hf]. apply Forall_fmap. eapply Forall_impl; [done|]. intros e [? ?]. simpl. lia. Qed.

Lemma spec_restore_entries seq_id m b : entries_ok m -> spec_restore false seq_id (to_history m) b = (Ok [], <[seq_id := m]> b).
Proof.
  intros (Hn & Hk). unfold spec_restore. destruct (to_history m) eqn:E; [by destruct m|]. rewrite <- E.
  destruct (restore_accepts m (-1) [] Hk) as (m' & p' & Hr).
  { destruct Hk as [_ Hf]. eapply Forall_impl; [done|]. intros e [? _]. lia. }
  rewrite Hr. apply restore_fold in Hr as [_ ->]; [|by split; constructor|done|done|by apply keys_ok_typed].
  by rewrite app_nil_l, of_to_history.
Qed.

(** ** Theorems *)

(** C34: The sequence state is a book of histories.  Any series of calls from the
    empty state answers exactly as the specification that keeps only the
    retained tokens: rows are the reference rows of the whole retained
    history, positions are checked against all retained positions, and
    removal, copying, shifting, dividing, restoring and failed allocations
    change the histories and nothing else.  The rolling hash and the cached
    largest position never go stale. *)
Theorem sequences_refine_histories config l : config_ok config -> Forall call_typed l ->
  let '(rs, s) := run_calls l (make_sequence_state config) in
  spec_calls config l ∅ = (rs, entries_of s) /\
  (forall id q, sequences s !! id = Some q ->
     max_position q = max_of (tokens q) /\ Forall entry_ok (tokens q) /\
     forall token, (hash_accept token (seq_hasher q)).1 = reference_rows config (token_values (tokens q)) token).
Proof.
  intros Hc Ht. pose proof (calls_follow config l _ Hc (make_state_ok config) eq_refl Ht) as H.
  destruct (run_calls l (make_sequence_state config)) as [rs s]. destruct H as (Hs & Hst & He).
  replace (entries_of (make_sequence_state config)) with (∅ : book) in He by (unfold entries_of; simpl; by rewrite fmap_empty).
  split; [done|]. intros id q Hq. destruct (Hs _ _ Hq) as [(_ & _ & Hf) Hm Hh]. rewrite Hst in Hh.
  split_and!; [done|done|]. intros token. by apply hash_accept_reference.
Qed.

(** C35: Speculative rollback is exact.  In a state that calls can reach, let a sequence
    whose history lies before position [p0] (not the largest position) accept
    draft tokens at positions from [p0] on, every one of them successfully, and
    then remove everything from [p0]: the histories are those before the drafts
    and every later series of calls gets the answers it would have got without
    them. *)
Theorem draft_rollback_is_exact config s seq_id p0 drafts later :
  reached config s -> 0 <= seq_id -> 0 <= p0 < INT64_MAX ->
  Forall (fun e : history_entry => he_position e < p0) (seq_history seq_id s) ->
  Forall (fun d : token_entry => p0 <= d.1 <= INT64_MAX) drafts -> Forall call_typed later ->
  let '(rs, drafted) := run_calls ((fun d => Accept false false seq_id d.1 d.2) <$> drafts) s in
  Forall (fun r => is_ok r = true) rs ->
  let restored := remove seq_id p0 (-1) drafted in
  entries_of restored = entries_of s /\ (run_calls later restored).1 = (run_calls later s).1.
Proof.
  intros Hr Hid Hp0 Hold Hd Hl. pose proof (reached_ok _ _ Hr) as (Hc & Hs & Hst).
  assert (Forall call_typed ((fun d : token_entry => Accept false false seq_id d.1 d.2) <$> drafts)) as Ht.
  { apply Forall_fmap. eapply Forall_impl; [done|]. simpl. lia. }
  pose proof (calls_follow config _ s Hc Hs Hst Ht) as H. destruct (run_calls _ s) as [rs drafted].
  intros Hok restored. destruct H as (Hs1 & Hst1 & Hsp).
  destruct (drafts_appended _ _ _ _ _ _ _ Hd Hsp Hok) as (new & Hnew & Hb).
  destruct (remove_follows config Hc drafted Hs1 Hst1 seq_id p0 (-1)) as (Hs2 & Hst2 & Hsp2).
  assert (entries_of restored = entries_of s) as He.
  { rewrite <- (rollback_entries config seq_id p0 new (entries_of s) Hid Hp0) with (b' := entries_of drafted); [by rewrite Hsp2| | |done|done].
    - intros id m. rewrite entries_lookup. intros (q & Hq & ->)%fmap_Some_1. apply (so_entries _ _ (Hs _ _ Hq)).
    - rewrite entries_lookup. unfold seq_history in Hold. destruct (sequences s !! seq_id); simpl; [|constructor].
      by rewrite Forall_fmap in Hold. }
  split; [done|]. symmetry. eapply answers_by_entries; eauto.
Qed.

(** Snapshots restore sequences.  Writing the history of a sequence of one state
    into any other state of the same configuration succeeds, gives back the
    same history, leaves other sequences alone, and the restored sequence
    answers the next token as the original does. *)
Theorem history_restores config s s0 seq_id position token :
  reached config s -> reached config s0 -> position <= INT64_MAX -> is_Some (sequences s !! seq_id) ->
  let '(r, s1) := restore_history false seq_id (seq_history seq_id s) s0 in
  r = Ok tt /\ seq_history seq_id s1 = seq_history seq_id s /\
  (forall id, id <> seq_id -> sequences s1 !! id = sequences s0 !! id) /\
  (accept false false seq_id position token s1).1 = (accept false false seq_id position token s).1.
Proof.
  intros (Hc & Hs & Hst)%reached_ok (_ & Hs0 & Hst0)%reached_ok Hp [q Hq].
  pose proof (Hs _ _ Hq) as Hok. destruct (so_entries _ _ Hok) as (Hne & Hk).
  assert (seq_history seq_id s = to_history (tokens q)) as Hh by (unfold seq_history; by rewrite Hq).
  rewrite Hh. pose proof (restore_history_follows config Hc s0 Hs0 Hst0 false seq_id _ (keys_ok_typed _ Hk)) as (Hs1 & Hst1 & H1).
  rewrite spec_restore_entries in H1 by done.
  assert (forall id, id <> seq_id -> sequences (restore_history false seq_id (to_history (tokens q)) s0).2 !! id = sequences s0 !! id) as Hothers.
  { intros id Hid. unfold restore_history. destruct (to_history (tokens q)); [simpl; by rewrite lookup_delete_ne|].
    repeat case_match; simpl; rewrite ?lookup_insert_ne; done. }
  destruct (restore_history false seq_id (to_history (tokens q)) s0) as [r s1]. simpl in *. injection H1 as Hr He.
  assert (entries_of s1 !! seq_id = Some (tokens q)) as Hl by (by rewrite <- He, lookup_insert_eq).
  split; [by destruct r as [[]|]|]. split_and!; [|done|].
  - rewrite entries_lookup in Hl. apply fmap_Some_1 in Hl as (q1 & Hq1 & Ht). unfold seq_history. by rewrite Hq1, <- Ht.
  - destruct (accept_follows config Hc s1 Hs1 Hst1 false false seq_id position token Hp) as (_ & _ & Ha1).
    destruct (accept_follows config Hc s Hs Hst false false seq_id position token Hp) as (_ & _ & Ha).
    apply (f_equal fst) in Ha1, Ha. simpl in Ha1, Ha. rewrite <- Ha1, <- Ha. unfold spec_accept.
    rewrite Hl, entries_lookup, Hq. simpl. repeat case_match; done.
Qed.

Lemma quiet_error (o : outcome unit) (s : sequence_state) e :
  (forall e, o.1 = Err e -> o.2 = s) -> (quiet o).1 = Err e -> (quiet o).2 = s.
Proof. unfold quiet. destruct o as [[|e'] s']; simpl; [done|]. intros H _. by apply (H e'). Qed.

Lemma restore_history_error af seq_id h s e :
  (restore_history af seq_id h s).1 = Err e -> (restore_history af seq_id h s).2 = s.
Proof.
  unfold restore_history. destruct h; [done|]. destruct (make_sequence _); [|done].
  destruct (foldM _ _ _) as [[]|]; [|done]. by destruct af.
Qed.

(** A call that fails changes nothing, wherever an allocation failed or an
    argument was refused. *)
Theorem failed_calls_change_nothing config s c e : reached config s -> call_typed c ->
  (run_call c s).1 = Err e -> (run_call c s).2 = s.
Proof.
  intros (Hc & Hs & Hst)%reached_ok Ht. destruct c; simpl; try done.
  - unfold accept, try_emplace. destruct (sequences s !! seq_id) as [q|] eqn:Hq.
    + rewrite (set_same _ _ _ Hq). repeat (case_match; try done).
    + destruct (make_sequence_ok config Hc) as (h & Hmk & _). rewrite Hst, Hmk.
      destruct (_ || _) eqn:E; [done|]. bool_facts. destruct node_fails; [done|].
      cbn [max_position tokens om_last_key last fmap option_fmap option_map].
      replace (position <=? -1) with false by lia. rewrite set_undone by done. by destruct token_fails.
  - apply quiet_error. unfold copy. repeat (case_match; try done).
  - apply quiet_error. unfold add. repeat (case_match; try done).
  - apply quiet_error. unfold divide. repeat (case_match; try done).
  - apply quiet_error, restore_history_error.
  - apply quiet_error. unfold restore. case_match; [apply restore_history_error|done].
Qed.

(** ** Witnesses *)

Lemma demo_config_ok : config_ok demo_config.
Proof.
  apply (accepted_config_ok demo_config demo_index demo_hasher); [|reflexivity|reflexivity].
  destruct (make_extent_index_ok demo_config 0 4000 90 112 4096 demo_index) as [H _]; [apply demo_config_typed|..|done];
    try reflexivity; split; vm_compute; discriminate.
Qed.

Definition demo_calls : list call :=
  [Accept false false 0 0 31; Accept false false 0 1 5; Copy false 0 1 (-1) (-1); Accept false false 1 2 9;
   Accept false true 1 3 8; Add 0 1 (-1) (-1); Divide 1 0 (-1) 2; Remove 1 0 1; Accept false false 0 7 2].

Lemma demo_calls_typed : Forall call_typed demo_calls.
Proof. repeat (apply Forall_cons_2; [vm_compute; try done; discriminate|]). apply Forall_nil_2. Qed.

Definition demo_state : sequence_state := (run_calls demo_calls (make_sequence_state demo_config)).2.

Lemma demo_reached : reached demo_config demo_state.
Proof. split; [apply demo_config_ok|]. exists demo_calls. split; [apply demo_calls_typed|done]. Qed.

Lemma empty_reached : reached demo_config (make_sequence_state demo_config).
Proof. split; [apply demo_config_ok|]. by exists []. Qed.

Lemma sequences_refine_histories_witness :
  map_to_list (entries_of demo_state) = [(1, [(2, (1, 9))]); (0, [(0, (0, 31)); (1, (0, 5)); (2, (7, 2))])] /\
  spec_calls demo_config demo_calls ∅ = ((run_calls demo_calls (make_sequence_state demo_config)).1, entries_of demo_state).
Proof.
  pose proof (sequences_refine_histories demo_config demo_calls demo_config_ok demo_calls_typed) as H.
  unfold demo_state. destruct (run_calls demo_calls (make_sequence_state demo_config)) as [rs s] eqn:E.
  destruct H as [H _]. split; [|exact H].
  replace s with (run_calls demo_calls (make_sequence_state demo_config)).2 by (by rewrite E). vm_compute. reflexivity.
Defined.

Lemma draft_rollback_is_exact_witness :
  let drafted := (run_calls [Accept false false 0 8 40; Accept false false 0 9 2; Accept false false 0 11 6] demo_state).2 in
  length (seq_history 0 drafted) = 6%nat /\
  entries_of (remove 0 8 (-1) drafted) = entries_of demo_state /\
  (run_calls [Accept false false 0 8 77] (remove 0 8 (-1) drafted)).1 = (run_calls [Accept false false 0 8 77] demo_state).1.
Proof.
  intros drafted. split; [vm_compute; reflexivity|].
  pose proof (draft_rollback_is_exact demo_config demo_state 0 8 [(8, 40); (9, 2); (11, 6)] [Accept false false 0 8 77]
    demo_reached ltac:(lia) ltac:(split; vm_compute; [discriminate|reflexivity])
    ltac:(vm_compute; repeat constructor) ltac:(repeat (apply Forall_cons_2; [split; vm_compute; discriminate|]); apply Forall_nil_2)
    ltac:(apply Forall_cons_2; [vm_compute; discriminate|apply Forall_nil_2])) as H.
  change ((fun d : token_entry => Accept false false 0 d.1 d.2) <$> [(8, 40); (9, 2); (11, 6)])
    with [Accept false false 0 8 40; Accept false false 0 9 2; Accept false false 0 11 6] in H.
  unfold drafted. destruct (run_calls [Accept false false 0 8 40; _; _] demo_state) as [rs s] eqn:E.
  apply H. replace rs with (run_calls [Accept false false 0 8 40; Accept false false 0 9 2; Accept false false 0 11 6] demo_state).1
    by (by rewrite E). vm_compute. repeat constructor.
Defined.

Lemma history_restores_witness :
  let s1 := (restore_history false 0 (seq_history 0 demo_state) (make_sequence_state demo_config)).2 in
  seq_history 0 s1 = seq_history 0 demo_state /\
  (accept false false 0 8 77 s1).1 = (accept false false 0 8 77 demo_state).1.
Proof.
  pose proof (history_restores demo_config demo_state (make_sequence_state demo_config) 0 8 77
    demo_reached empty_reached ltac:(vm_compute; discriminate) ltac:(vm_compute; by eexists)) as H.
  destruct (restore_history false 0 (seq_history 0 demo_state) (make_sequence_state demo_config)) as [r s1].
  destruct H as (_ & Hh & _ & Ha). split; [exact Hh|exact Ha].
Defined.

Lemma failed_calls_change_nothing_witness :
  (run_call (Accept false true 5 8 77) demo_state).1 = Err bad_alloc /\
  (run_call (Accept false true 5 8 77) demo_state).2 = demo_state.
Proof.
  assert ((run_call (Accept false true 5 8 77) demo_state).1 = Err bad_alloc) as H by (vm_compute; reflexivity).
  split; [exact H|].
  apply (failed_calls_change_nothing demo_config demo_state (Accept false true 5 8 77) bad_alloc demo_reached); [vm_compute; discriminate|exact H].
Defined.
