(* ===== verification/BlockCache.v ===== *)
(** * The bounded block cache

    Model of [bounded_block_cache] ([src/src/llama-qwen4exp-ple-storage.h] and
    [.cpp]): a fixed arena of equal blocks, an index from keys to slots, leases
    that pin a slot, and replacement of the least recently used slot without
    leases.

    Every method is one critical section.  A lease is an object of its holder:
    [run] keeps the live ones by name.  [lease::release] ends in
    [std::terminate] when the slot is not the lease's: that is [None].  The
    index allocates one node of [node_bytes] for a key and its allocator has a
    budget; [heap_fails] is a failure of the allocator itself.  Counters of the
    statistics and pins do not wrap (a lease takes memory); the clock of the
    recency stamps does. *)

From S2P Require Import Prelude ExpertDescriptor.
From stdpp Require Import strings.
Open Scope string_scope.
Open Scope list_scope.
Open Scope Z_scope.

(** ** Data *)

(** [control::entry]. *)
Record slot_entry := mk_slot {
  k_key : Z;
  k_last_used : Z;
  k_pins : Z;
  k_occupied : bool;
}.
#[export] Instance slot_entry_settable : Settable slot_entry :=
  fun e => mk_slot (k_key e) (k_last_used e) (k_pins e) (k_occupied e).

(** [allocation_counter]. *)
Record allocation_counter := mk_counter { ac_allocated : Z; ac_peak : Z; ac_budget : Z }.
#[export] Instance allocation_counter_settable : Settable allocation_counter :=
  fun a => mk_counter (ac_allocated a) (ac_peak a) (ac_budget a).

(** [block_cache_stats]. *)
Record block_stats := mk_block_stats {
  bs_capacity_bytes : Z;
  bs_resident_bytes : Z;
  bs_peak_resident_bytes : Z;
  bs_hits : Z;
  bs_misses : Z;
  bs_admissions : Z;
  bs_evictions : Z;
  bs_rejected_admissions : Z;
  bs_pinned_capacity_failures : Z;
  bs_active_leases : Z;
}.
#[export] Instance block_stats_settable : Settable block_stats :=
  fun b => mk_block_stats (bs_capacity_bytes b) (bs_resident_bytes b) (bs_peak_resident_bytes b) (bs_hits b) (bs_misses b)
    (bs_admissions b) (bs_evictions b) (bs_rejected_admissions b) (bs_pinned_capacity_failures b) (bs_active_leases b).

(** [struct control]. *)
Record control := mk_control {
  block_size : nat;
  arena : list Z;
  slots : list slot_entry;
  index_memory : allocation_counter;
  index : gmap Z nat;
  clock : Z;
  snapshot : block_stats;
}.
#[export] Instance control_settable : Settable control :=
  fun c => mk_control (block_size c) (arena c) (slots c) (index_memory c) (index c) (clock c) (snapshot c).

(** A lease: slot and key. *)
Record lease := mk_lease { ls_slot : nat; ls_key : Z }.

(** ** The arena *)

Definition bytes_at (mem : list Z) (offset length : nat) : list Z := take length (drop offset mem).
Definition put (mem : list Z) (offset : nat) (data : list Z) : list Z :=
  take offset mem ++ data ++ drop (offset + length data) mem.

Definition slot_bytes (c : control) (slot : nat) : list Z := bytes_at (arena c) (slot * block_size c) (block_size c).

(** ** The accounting allocator, for one element of [bytes] bytes *)

Definition allocate (heap_fails : bool) (bytes : Z) (a : allocation_counter) : option allocation_counter :=
  if bytes >? ac_budget a - ac_allocated a then None
  else if heap_fails then None
  else
    let allocated := ac_allocated a + bytes in
    Some (a <| ac_allocated := allocated |> <| ac_peak := Z.max (ac_peak a) allocated |>).

(** [std::terminate] when more is returned than was taken. *)
Definition deallocate (bytes : Z) (a : allocation_counter) : option allocation_counter :=
  if bytes >? ac_allocated a then None else Some (a <| ac_allocated ::= fun x => x - bytes |>).

(** ** Operations *)

(** The constructor. *)
Definition make_control (requested_capacity requested_block_size index_budget : Z) : result exn control :=
  if requested_block_size =? 0 then Err (invalid_argument "qwen4exp PLE cache block size must be nonzero")
  else if requested_capacity <? requested_block_size
  then Err (invalid_argument "qwen4exp PLE cache capacity is smaller than one block")
  else if requested_capacity >? UINT64_MAX then Err (overflow_error "qwen4exp PLE cache exceeds addressable memory")
  else
    let slot_count := requested_capacity / requested_block_size in
    if slot_count >? UINT64_MAX / requested_block_size
    then Err (overflow_error "qwen4exp PLE cache arena overflows size_t")
    else
      let n := Z.to_nat slot_count in
      let size := (n * Z.to_nat requested_block_size)%nat in
      Ok (mk_control (Z.to_nat requested_block_size) (replicate size 0) (replicate n (mk_slot 0 0 0 false))
            (mk_counter 0 0 index_budget) ∅ 0 (mk_block_stats (Z.of_nat size) 0 0 0 0 0 0 0 0 0)).

Definition touch_clock (c : control) : control := c <| clock ::= fun x => wrap64 (x + 1) |>.

Definition pin (slot : nat) (c : control) : control :=
  let c := touch_clock c in
  c <| slots ::= alter (fun e => e <| k_pins ::= Z.succ |> <| k_last_used := clock c |>) slot |>
    <| snapshot ::= fun t => t <| bs_active_leases ::= Z.succ |> |>.

(** [acquire]: no lease when the key is not resident. *)
Definition acquire (key : Z) (c : control) : option lease * control :=
  match index c !! key with
  | None => (None, c <| snapshot ::= fun t => t <| bs_misses ::= Z.succ |> |>)
  | Some slot => (Some (mk_lease slot key), pin slot (c <| snapshot ::= fun t => t <| bs_hits ::= Z.succ |> |>))
  end.

(** The first free slot. *)
Definition free_slot (l : list slot_entry) : option nat := fst <$> list_find (fun e => k_occupied e = false) l.

(** The scan for the oldest slot without pins: its stamp and place. *)
Fixpoint oldest_scan (l : list slot_entry) (slot : nat) (oldest : Z) (target : option nat) : option nat :=
  match l with
  | [] => target
  | e :: l =>
      if (k_pins e =? 0) && (k_last_used e <? oldest) then oldest_scan l (S slot) (k_last_used e) (Some slot)
      else oldest_scan l (S slot) oldest target
  end.

Definition choose_target (l : list slot_entry) : option nat :=
  match free_slot l with
  | Some slot => Some slot
  | None => oldest_scan l 0 UINT64_MAX None
  end.

Definition reject (c : control) : control := c <| snapshot ::= fun t => t <| bs_rejected_admissions ::= Z.succ |> |>.

(** What the bytes of one index node are. *)
Class NodeSize := node_bytes : Z.

(** The part of [admit] after the index node is there; the node of a replaced
    key goes back to the allocator. *)
Definition install `{NodeSize} (key : Z) (data : list Z) (target : nat) (memory : allocation_counter) (c : control) : option control :=
  let c := c <| index ::= <[key := target]> |> <| index_memory := memory |> in
  let old := default (mk_slot 0 0 0 false) (slots c !! target) in
  c ← (if k_occupied old
       then memory ← deallocate node_bytes memory;
            Some (c <| index ::= delete (k_key old) |> <| index_memory := memory |>
                    <| snapshot ::= fun t => t <| bs_evictions ::= Z.succ |> |>)
       else Some c);
  let c := touch_clock (c <| arena ::= fun m => put m (target * block_size c) data |>) in
  let resident := Z.of_nat (size (index c)) * Z.of_nat (block_size c) in
  Some (c <| slots ::= <[target := mk_slot key (clock c) 1 true]> |>
          <| snapshot ::= fun t => t <| bs_admissions ::= Z.succ |> <| bs_active_leases ::= Z.succ |>
               <| bs_resident_bytes := resident |> <| bs_peak_resident_bytes ::= fun p => Z.max p resident |> |>).

(** [admit]; [data] is [None] for a null pointer, and its length is the [size]
    argument. *)
Definition admit_block `{NodeSize} (heap_fails : bool) (key : Z) (data : option (list Z)) (c : control)
    : option (result exn lease * control) :=
  match data with
  | None => Some (Err (invalid_argument "qwen4exp PLE cache admission has invalid block geometry"), reject c)
  | Some data =>
      if negb (length data =? block_size c)%nat
      then Some (Err (invalid_argument "qwen4exp PLE cache admission has invalid block geometry"), reject c)
      else match index c !! key with
      | Some slot =>
          if bool_decide (slot_bytes c slot = data) then Some (Ok (mk_lease slot key), pin slot c)
          else Some (Err (runtime_error "qwen4exp PLE cache key was admitted with different data"), reject c)
      | None =>
          match choose_target (slots c) with
          | None =>
              Some (Err (capacity_error "qwen4exp PLE cache capacity is pinned"),
                    (reject c) <| snapshot ::= fun t => t <| bs_pinned_capacity_failures ::= Z.succ |> |>)
          | Some target =>
              match allocate heap_fails node_bytes (index_memory c) with
              | None => Some (Err bad_alloc, c)
              | Some memory => c ← install key data target memory c; Some (Ok (mk_lease target key), c)
              end
          end
      end
  end.

(** [lease::release] of a lease that is not empty. *)
Definition release (l : lease) (c : control) : option control :=
  e ← slots c !! ls_slot l;
  if negb (k_occupied e) || negb (k_key e =? ls_key l) || (k_pins e =? 0) then None
  else Some (c <| slots ::= alter (fun e => e <| k_pins ::= Z.pred |>) (ls_slot l) |>
               <| snapshot ::= fun t => t <| bs_active_leases ::= Z.pred |> |>).

(** [lease::data]. *)
Definition lease_data (c : control) (l : lease) : list Z := slot_bytes c (ls_slot l).

(** ** Runs *)

Inductive block_op :=
| Acquire (key : Z)
| Admit (heap_fails : bool) (key : Z) (data : option (list Z))
| Release (name : positive).

Record blocks := mk_blocks { control_of : control; leases : gmap positive lease }.
#[export] Instance blocks_settable : Settable blocks := fun b => mk_blocks (control_of b) (leases b).

Inductive block_reply :=
| Leased (name : positive)
| Missed
| Refused (e : exn)
| Released.

Definition hand_out (l : lease) (c : control) (b : blocks) : block_reply * blocks :=
  let name := fresh (dom (leases b)) in
  (Leased name, mk_blocks c (<[name := l]> (leases b))).

(** [None] is [std::terminate], or a name that is not a live lease. *)
Definition block_step `{NodeSize} (o : block_op) (b : blocks) : option (block_reply * blocks) :=
  match o with
  | Acquire key =>
      match acquire key (control_of b) with
      | (Some l, c) => Some (hand_out l c b)
      | (None, c) => Some (Missed, b <| control_of := c |>)
      end
  | Admit heap_fails key data =>
      r ← admit_block heap_fails key data (control_of b);
      match r with
      | (Ok l, c) => Some (hand_out l c b)
      | (Err e, c) => Some (Refused e, b <| control_of := c |>)
      end
  | Release name =>
      l ← leases b !! name;
      c ← release l (control_of b);
      Some (Released, mk_blocks c (delete name (leases b)))
  end.

(** ** The invariant *)

Definition slot_pins (slot : nat) (m : gmap positive lease) : Z := msum (fun _ l => if (ls_slot l =? slot)%nat then 1 else 0) m.

(** The key of an occupied slot. *)
Definition key_of (e : slot_entry) : option Z := if k_occupied e then Some (k_key e) else None.

Record blocks_ok `{NodeSize} (b : blocks) : Prop := {
  bo_block : (0 < block_size (control_of b))%nat;
  bo_arena : length (arena (control_of b)) = (length (slots (control_of b)) * block_size (control_of b))%nat;
  bo_index : forall key slot, index (control_of b) !! key = Some slot <->
    exists e, slots (control_of b) !! slot = Some e /\ key_of e = Some key;
  bo_pins : forall slot e, slots (control_of b) !! slot = Some e -> k_pins e = slot_pins slot (leases b);
  bo_leases : forall name l, leases b !! name = Some l -> index (control_of b) !! ls_key l = Some (ls_slot l);
  bo_stamps : forall slot e, slots (control_of b) !! slot = Some e -> 0 <= k_last_used e <= UINT64_MAX;
  bo_memory : ac_allocated (index_memory (control_of b)) = node_bytes * Z.of_nat (size (index (control_of b))) /\
    ac_allocated (index_memory (control_of b)) <= ac_budget (index_memory (control_of b)) /\
    ac_peak (index_memory (control_of b)) <= ac_budget (index_memory (control_of b));
  bo_capacity : bs_capacity_bytes (snapshot (control_of b)) = Z.of_nat (length (arena (control_of b)));
  bo_resident : bs_resident_bytes (snapshot (control_of b)) = Z.of_nat (size (index (control_of b)) * block_size (control_of b));
  bo_active : bs_active_leases (snapshot (control_of b)) = Z.of_nat (size (leases b));
}.

(** ** The arena: lemmas *)

Lemma put_length mem offset data : (offset + length data <= length mem)%nat -> length (put mem offset data) = length mem.
Proof. intros H. unfold put. rewrite !length_app, length_take, length_drop. lia. Qed.

Lemma bytes_at_put mem offset data : (offset + length data <= length mem)%nat -> bytes_at (put mem offset data) offset (length data) = data.
Proof.
  intros H. unfold bytes_at, put. rewrite drop_app_length' by (rewrite length_take; lia). by rewrite take_app_length.
Qed.

Lemma bytes_at_other mem offset data offset' n : (offset + length data <= length mem)%nat ->
  (offset' + n <= offset \/ offset + length data <= offset')%nat ->
  bytes_at (put mem offset data) offset' n = bytes_at mem offset' n.
Proof.
  intros H Hd. unfold bytes_at. apply list_eq. intros i. unfold put.
  destruct (decide (i < n)%nat) as [Hi|Hi]; [|by rewrite !lookup_take_ge by lia].
  rewrite !lookup_take_lt, !lookup_drop by lia. destruct Hd as [Hd|Hd].
  - rewrite lookup_app_l by (rewrite length_take; lia). by rewrite lookup_take_lt by lia.
  - rewrite lookup_app_r by (rewrite length_take; lia). rewrite length_take_le by lia.
    rewrite lookup_app_r by lia. rewrite lookup_drop. f_equal. lia.
Qed.

Lemma slot_bytes_length c slot : length (arena c) = (length (slots c) * block_size c)%nat -> (slot < length (slots c))%nat ->
  length (slot_bytes c slot) = block_size c.
Proof. intros Ha Hs. unfold slot_bytes, bytes_at. rewrite length_take, length_drop. nia. Qed.

(** ** The choice of a slot *)

Definition unpinned (e : slot_entry) : Prop := k_pins e = 0.

Lemma oldest_scan_spec l slot oldest target :
  oldest_scan l slot oldest target = target /\ (forall e, e ∈ l -> unpinned e -> oldest <= k_last_used e) \/
  exists i e, oldest_scan l slot oldest target = Some (slot + i)%nat /\ l !! i = Some e /\ unpinned e /\
    k_last_used e < oldest /\ forall e', e' ∈ l -> unpinned e' -> k_last_used e <= k_last_used e'.
Proof.
  unfold unpinned. revert slot oldest target. induction l as [|e l IH]; intros slot oldest target; simpl; [left; set_solver|].
  destruct ((k_pins e =? 0) && (k_last_used e <? oldest)) eqn:E.
  - bool_facts. right. destruct (IH (S slot) (k_last_used e) (Some slot)) as [[-> Hmin]|(i & e' & -> & Hi & Hp & Hlt & Hmin)].
    + exists 0%nat, e. rewrite Nat.add_0_r. split_and!; try done. set_solver by lia.
    + exists (S i), e'. split_and!; [f_equal; lia|done|done|lia|]. set_solver by lia.
  - assert (k_pins e = 0 -> oldest <= k_last_used e) by (apply andb_false_iff in E as [E|E]; bool_facts; lia).
    destruct (IH (S slot) oldest target) as [[-> Hmin]|(i & e' & -> & Hi & Hp & Hlt & Hmin)].
    + left. split; [done|]. set_solver.
    + right. exists (S i), e'. split_and!; [f_equal; lia|done|done|lia|]. set_solver by lia.
Qed.

(** Where [admit] puts a new block: the first free slot; in a full cache the
    slot without leases whose last use is oldest; nowhere only if every slot
    is leased (or carries the largest stamp of all). *)
Lemma choose_target_spec l :
  match choose_target l with
  | Some target => exists e, l !! target = Some e /\
      (k_occupied e = false \/
       unpinned e /\ Forall (fun e => k_occupied e = true) l /\
       forall e', e' ∈ l -> unpinned e' -> k_last_used e <= k_last_used e')
  | None => Forall (fun e => k_occupied e = true /\ (unpinned e -> UINT64_MAX <= k_last_used e)) l
  end.
Proof.
  unfold choose_target, free_slot. destruct (list_find _ l) as [[i e]|] eqn:E; simpl.
  - apply list_find_Some in E as (Hi & Ho & _). exists e. auto.
  - apply list_find_None in E. assert (Forall (fun e => k_occupied e = true) l) as Hall.
    { eapply Forall_impl; [done|]. intros e He. simpl in He. by destruct (k_occupied e). }
    destruct (oldest_scan_spec l 0 UINT64_MAX None) as [[-> Hmin]|(i & e & -> & Hi & Hp & _ & Hmin)].
    + rewrite Forall_forall in *. intros e He. split; [by apply Hall|by apply Hmin].
    + exists e. simpl. split; [done|]. right. split_and!; done.
Qed.

Lemma slot_pins_nonzero slot m : slot_pins slot m <> 0 -> exists name l, m !! name = Some l /\ ls_slot l = slot.
Proof.
  unfold slot_pins. induction m as [|name l m Hn IH] using map_ind; [done|]. rewrite msum_insert by done.
  destruct (ls_slot l =? slot)%nat eqn:E.
  - intros _. exists name, l. split; [by rewrite lookup_insert_eq|by apply Nat.eqb_eq].
  - intros (name' & l' & Hl' & Hs)%IH. exists name', l'. split; [|done]. rewrite lookup_insert_ne; [done|congruence].
Qed.

(** ** The invariant is kept *)

Lemma omap_length_le {A B} (f : A -> option B) l : (length (omap f l) <= length l)%nat.
Proof. induction l as [|x l IH]; [done|]. csimpl. destruct (f x); csimpl; lia. Qed.

Lemma omap_length_lt {A B} (f : A -> option B) l x : x ∈ l -> f x = None -> (length (omap f l) < length l)%nat.
Proof.
  intros Hx Hf. induction Hx as [x l|x y l Hx IH]; csimpl; [rewrite Hf; pose proof (omap_length_le f l); lia|].
  specialize (IH Hf). destruct (f y); csimpl; lia.
Qed.

Section kept.
Context `{NodeSize} (Hnode : 0 <= node_bytes).
Context (b : blocks) (Hb : blocks_ok b).

Lemma index_slot key slot : index (control_of b) !! key = Some slot ->
  exists e, slots (control_of b) !! slot = Some e /\ k_occupied e = true /\ k_key e = key.
Proof.
  intros (e & He & Hk)%(bo_index _ Hb). exists e. unfold key_of in Hk. by destruct (k_occupied e); simplify_eq.
Qed.

Lemma index_inj key key' slot : index (control_of b) !! key = Some slot -> index (control_of b) !! key' = Some slot -> key = key'.
Proof. intros (e & He & _ & <-)%index_slot (e' & He' & _ & <-)%index_slot. by simplify_eq. Qed.

Lemma index_omap : (size (index (control_of b)) <= length (omap key_of (slots (control_of b))))%nat.
Proof.
  rewrite <- size_dom. unfold size, set_size. simpl.
  apply submseteq_length, NoDup_submseteq; [apply NoDup_elements|]. intros key. rewrite elem_of_elements, elem_of_dom.
  intros [slot (e & He & Hk)%(bo_index _ Hb)]. apply list_elem_of_omap. exists e. split; [|done].
  by eapply list_elem_of_lookup_2.
Qed.

Lemma index_bound : (size (index (control_of b)) <= length (slots (control_of b)))%nat.
Proof. etransitivity; [apply index_omap|apply omap_length_le]. Qed.

Lemma slot_lt slot e : slots (control_of b) !! slot = Some e -> (slot < length (slots (control_of b)))%nat.
Proof. apply lookup_lt_Some. Qed.

Lemma unleased_slot slot : (forall key, index (control_of b) !! key <> Some slot) -> slot_pins slot (leases b) = 0.
Proof.
  intros Hno. apply msum_zero. intros name l Hl. destruct (ls_slot l =? slot)%nat eqn:E; [|done].
  apply Nat.eqb_eq in E as <-. by apply (bo_leases _ Hb) in Hl as []%Hno.
Qed.

Lemma slot_pins_pos slot name l : leases b !! name = Some l -> ls_slot l = slot -> 1 <= slot_pins slot (leases b).
Proof.
  intros Hl <-. pose proof (msum_elem (fun (_ : positive) l' => if (ls_slot l' =? ls_slot l)%nat then 1 else 0) (leases b) name l Hl) as Hm.
  cbn beta in Hm. rewrite Nat.eqb_refl in Hm. apply Hm. intros. by case_match.
Qed.

(** Only counters that the invariant does not speak of change. *)
Lemma counters_ok t : bs_capacity_bytes t = bs_capacity_bytes (snapshot (control_of b)) ->
  bs_resident_bytes t = bs_resident_bytes (snapshot (control_of b)) ->
  bs_active_leases t = bs_active_leases (snapshot (control_of b)) -> blocks_ok (mk_blocks ((control_of b) <| snapshot := t |>) (leases b)).
Proof. intros H1 H2 H3. destruct Hb. split; simpl; rewrite ?H1, ?H2, ?H3; done. Qed.

Lemma slot_pins_insert slot slot' key name : name ∉ dom (leases b) ->
  slot_pins slot (<[name := mk_lease slot' key]> (leases b)) = (if (slot' =? slot)%nat then 1 else 0) + slot_pins slot (leases b).
Proof. intros Hn%not_elem_of_dom. unfold slot_pins. by rewrite msum_insert. Qed.

(** A hit hands out one more lease of the slot. *)
Lemma pin_ok key slot : index (control_of b) !! key = Some slot ->
  blocks_ok (hand_out (mk_lease slot key) (pin slot (control_of b)) b).2.
Proof.
  intros Hk. pose proof (is_fresh (dom (leases b))) as Hf. destruct (index_slot _ _ Hk) as (e0 & He0 & Ho0 & Hk0).
  pose proof Hb as []. split; simpl; rewrite ?length_alter; try done.
  - intros key' slot'. rewrite bo_index0. split; intros (e & He & Hke).
    + destruct (decide (slot = slot')) as [->|Hne]; [|exists e; by rewrite list_lookup_alter_ne].
      rewrite list_lookup_alter_eq, He. by eexists.
    + destruct (decide (slot = slot')) as [->|Hne]; [|exists e; by rewrite list_lookup_alter_ne in He].
      rewrite list_lookup_alter_eq in He. apply fmap_Some_1 in He as (e' & He' & ->). by exists e'.
  - intros slot' e He. rewrite slot_pins_insert by done. destruct (decide (slot = slot')) as [->|Hne].
    + rewrite list_lookup_alter_eq in He. apply fmap_Some_1 in He as (e' & He' & ->). simpl.
      rewrite Nat.eqb_refl, (bo_pins0 _ _ He'). lia.
    + rewrite list_lookup_alter_ne in He by done. rewrite (proj2 (Nat.eqb_neq _ _) Hne). rewrite (bo_pins0 _ _ He). lia.
  - intros name l [[_ <-]|[_ Hl]]%lookup_insert_Some; [done|by eapply bo_leases0].
  - intros slot' e He. destruct (decide (slot = slot')) as [->|Hne].
    + rewrite list_lookup_alter_eq in He. apply fmap_Some_1 in He as (e' & He' & ->). simpl. apply wrap64_u64.
    + rewrite list_lookup_alter_ne in He by done. by eapply bo_stamps0.
  - rewrite map_size_insert_None by (by apply not_elem_of_dom). rewrite bo_active0. lia.
Qed.

Lemma release_ok name l : leases b !! name = Some l ->
  exists c, release l (control_of b) = Some c /\ blocks_ok (mk_blocks c (delete name (leases b))) /\
    arena c = arena (control_of b) /\ index c = index (control_of b) /\ block_size c = block_size (control_of b) /\
    length (slots c) = length (slots (control_of b)).
Proof.
  intros Hl. pose proof (bo_leases _ Hb _ _ Hl) as Hi. destruct (index_slot _ _ Hi) as (e & He & Ho & Hk).
  pose proof (slot_pins_pos _ _ _ Hl eq_refl) as Hp. pose proof (bo_pins _ Hb _ _ He) as Hpe.
  unfold release. rewrite He. simpl. rewrite Ho, Hk, Z.eqb_refl. replace (k_pins e =? 0) with false by lia. simpl.
  eexists. split; [done|]. simpl. rewrite length_alter. split_and!; try done. pose proof Hb as [].
  assert (forall slot', slot_pins slot' (delete name (leases b)) = slot_pins slot' (leases b) - (if (ls_slot l =? slot')%nat then 1 else 0)) as Hdel.
  { intros slot'. unfold slot_pins. by rewrite (msum_delete _ _ _ _ Hl). }
  split; simpl; rewrite ?length_alter; try done.
  - intros key' slot'. rewrite bo_index0. split; intros (e' & He' & Hke).
    + destruct (decide (ls_slot l = slot')) as [<-|Hne]; [|exists e'; by rewrite list_lookup_alter_ne].
      rewrite list_lookup_alter_eq, He'. by eexists.
    + destruct (decide (ls_slot l = slot')) as [<-|Hne]; [|exists e'; by rewrite list_lookup_alter_ne in He'].
      rewrite list_lookup_alter_eq in He'. apply fmap_Some_1 in He' as (e'' & He'' & ->). by exists e''.
  - intros slot' e' He'. rewrite Hdel. destruct (decide (ls_slot l = slot')) as [<-|Hne].
    + rewrite list_lookup_alter_eq in He'. apply fmap_Some_1 in He' as (e'' & He'' & ->). simpl.
      rewrite Nat.eqb_refl, (bo_pins0 _ _ He''). lia.
    + rewrite list_lookup_alter_ne in He' by done. rewrite (proj2 (Nat.eqb_neq _ _) Hne). rewrite (bo_pins0 _ _ He'). lia.
  - intros name' l' [_ Hl']%lookup_delete_Some. by eapply bo_leases0.
  - intros slot' e' He'. destruct (decide (ls_slot l = slot')) as [<-|Hne].
    + rewrite list_lookup_alter_eq in He'. apply fmap_Some_1 in He' as (e'' & He'' & ->). simpl. by eapply bo_stamps0.
    + rewrite list_lookup_alter_ne in He' by done. by eapply bo_stamps0.
  - rewrite map_size_delete_Some by done. rewrite bo_active0.
    assert (size (leases b) <> 0%nat); [|lia]. intros H0%map_size_empty_iff. rewrite H0 in Hl. by rewrite lookup_empty in Hl.
Qed.

(** A slot chosen for a new key has no leases. *)
Lemma target_unleased target e : slots (control_of b) !! target = Some e -> k_occupied e = false \/ unpinned e ->
  slot_pins target (leases b) = 0 /\ forall name l, leases b !! name = Some l -> ls_slot l <> target.
Proof.
  intros He Hc. assert (slot_pins target (leases b) = 0) as H0.
  { destruct Hc as [Ho|Hp]; [|by rewrite <- (bo_pins _ Hb _ _ He)]. apply unleased_slot. intros key Hk.
    apply index_slot in Hk as (e' & He' & Ho' & _). congruence. }
  split; [done|]. intros name l Hl Heq. pose proof (slot_pins_pos _ _ _ Hl Heq). lia.
Qed.

(** What the index is after a block went in. *)
Definition index_after (key : Z) (target : nat) (e : slot_entry) : gmap Z nat :=
  let m := <[key := target]> (index (control_of b)) in if k_occupied e then delete (k_key e) m else m.

Lemma index_after_spec key target e key' slot' : slots (control_of b) !! target = Some e -> index (control_of b) !! key = None ->
  index_after key target e !! key' = Some slot' <->
  (key' = key /\ slot' = target) \/ (key' <> key /\ slot' <> target /\ index (control_of b) !! key' = Some slot').
Proof.
  intros He Hn. unfold index_after. destruct (k_occupied e) eqn:Ho.
  - assert (index (control_of b) !! k_key e = Some target) as Hold.
    { apply (bo_index _ Hb). exists e. split; [done|]. unfold key_of. by rewrite Ho. }
    rewrite lookup_delete_Some, lookup_insert_Some. split.
    + intros (H1 & [[<- <-]|[H2 H3]]); [by left|]. right. split_and!; [done| |done].
      intros ->. by pose proof (index_inj _ _ _ H3 Hold).
    + intros [[-> ->]|(H1 & H2 & H3)]; [split; [congruence|by left]|]. split; [|by right]. intros <-. congruence.
  - rewrite lookup_insert_Some. split.
    + intros [[<- <-]|[H2 H3]]; [by left|]. right. split_and!; [done| |done].
      intros ->. apply index_slot in H3 as (e' & He' & Ho' & _). congruence.
    + intros [[-> ->]|(H1 & H2 & H3)]; [by left|by right].
Qed.

Lemma index_after_size key target e : slots (control_of b) !! target = Some e -> index (control_of b) !! key = None ->
  size (index_after key target e) = (size (index (control_of b)) + if k_occupied e then 0 else 1)%nat.
Proof.
  intros He Hn. unfold index_after. destruct (k_occupied e) eqn:Ho.
  - rewrite map_size_delete_Some, map_size_insert_None; [lia|done|].
    assert (index (control_of b) !! k_key e = Some target) as Hold.
    { apply (bo_index _ Hb). exists e. split; [done|]. unfold key_of. by rewrite Ho. }
    exists target. rewrite lookup_insert_ne; [done|congruence].
  - rewrite map_size_insert_None by done. lia.
Qed.

(** [install] after a successful allocation. *)
Lemma install_ok heap_fails key data target e memory :
  slots (control_of b) !! target = Some e -> k_occupied e = false \/ unpinned e ->
  index (control_of b) !! key = None -> length data = block_size (control_of b) ->
  allocate heap_fails node_bytes (index_memory (control_of b)) = Some memory ->
  exists c, install key data target memory (control_of b) = Some c /\
    blocks_ok (hand_out (mk_lease target key) c b).2 /\
    index c = index_after key target e /\ block_size c = block_size (control_of b) /\
    arena c = put (arena (control_of b)) (target * block_size (control_of b)) data /\
    length (slots c) = length (slots (control_of b)).
Proof.
  intros He Hc Hn Hd Hal. destruct (target_unleased _ _ He Hc) as [Hp0 Hno]. pose proof (is_fresh (dom (leases b))) as Hf.
  unfold allocate in Hal. repeat (case_match; [done|]). injection Hal as <-. bool_facts.
  pose proof (index_after_size key target e He Hn) as Hsize.
  pose proof (slot_lt target e He) as Hlt. pose proof Hb as []. destruct bo_memory0 as (Hm1 & Hm2 & Hm3).
  assert (length (put (arena (control_of b)) (target * block_size (control_of b)) data) = length (arena (control_of b))) as Hput.
  { apply put_length. nia. }
  unfold install. simpl. rewrite He. simpl.
  set (c1 := if k_occupied e then _ else _).
  assert (exists c, c1 = Some c /\ index c = index_after key target e /\
    ac_allocated (index_memory c) = node_bytes * Z.of_nat (size (index c)) /\
    ac_allocated (index_memory c) <= ac_budget (index_memory c) /\ ac_peak (index_memory c) <= ac_budget (index_memory c) /\
    block_size c = block_size (control_of b) /\ slots c = slots (control_of b) /\ arena c = arena (control_of b) /\
    bs_capacity_bytes (snapshot c) = bs_capacity_bytes (snapshot (control_of b)) /\
    bs_active_leases (snapshot c) = bs_active_leases (snapshot (control_of b)))
    as (c & Hc1 & Hi & Ha1 & Ha2 & Ha3 & Hbs & Hsl & Har & Hcap & Hact).
  { unfold c1. destruct (k_occupied e) eqn:Ho; simpl.
    - unfold deallocate. simpl. rewrite Hm1.
      replace (node_bytes >? node_bytes * Z.of_nat (size (index (control_of b))) + node_bytes) with false by nia.
      simpl. eexists. split; [done|]. simpl. unfold index_after in *. rewrite Ho in *. rewrite Hsize.
      split_and!; try done; nia.
    - eexists. split; [done|]. simpl. unfold index_after in *. rewrite Ho in *. rewrite Hsize. split_and!; try done; nia. }
  rewrite Hc1. cbn [mbind option_bind]. eexists. split; [done|]. simpl. rewrite length_insert, Hsl, Hi, Hbs, Har.
  split_and!; try done. split; simpl; rewrite ?length_insert, ?Hsl, ?Hi, ?Hbs, ?Har, ?Hcap, ?Hact, ?Hput; try done.
  - intros key' slot'. rewrite index_after_spec by done. rewrite bo_index0. split.
    + intros [[-> ->]|(Hx1 & Hx2 & e' & He' & Hke)]; [rewrite list_lookup_insert_eq by done; by eexists|].
      exists e'. by rewrite list_lookup_insert_ne.
    + intros (e' & He' & Hke). destruct (decide (target = slot')) as [<-|Hne].
      * rewrite list_lookup_insert_eq in He' by done. simplify_eq. unfold key_of in Hke. simpl in Hke. left. by simplify_eq.
      * rewrite list_lookup_insert_ne in He' by done. right. split_and!; [|done|by exists e'].
        intros ->. enough (index (control_of b) !! key = Some slot') by congruence. apply bo_index0. by exists e'.
  - intros slot' e' He'. rewrite slot_pins_insert by done. destruct (decide (target = slot')) as [<-|Hne].
    + rewrite list_lookup_insert_eq in He' by done. simplify_eq. simpl. rewrite Nat.eqb_refl. lia.
    + rewrite list_lookup_insert_ne in He' by done. rewrite (proj2 (Nat.eqb_neq _ _) Hne). rewrite (bo_pins0 _ _ He'). lia.
  - intros name l [[_ <-]|[_ Hl]]%lookup_insert_Some; [apply index_after_spec; auto|].
    apply index_after_spec; [done..|]. right. pose proof (bo_leases0 _ _ Hl). pose proof (Hno _ _ Hl).
    split_and!; [congruence|done|done].
  - intros slot' e' He'. destruct (decide (target = slot')) as [<-|Hne].
    + rewrite list_lookup_insert_eq in He' by done. simplify_eq. simpl. apply wrap64_u64.
    + rewrite list_lookup_insert_ne in He' by done. by eapply bo_stamps0.
  - rewrite <- Hi. done.
  - by rewrite Nat2Z.inj_mul.
  - rewrite map_size_insert_None by (by apply not_elem_of_dom). rewrite bo_active0. lia.
Qed.
End kept.

(** ** What a step does to blocks and leases *)

(** The resident block of a key. *)
Definition block_of (b : blocks) (key : Z) : option (list Z) := slot_bytes (control_of b) <$> index (control_of b) !! key.

(** A lease can be given back once. *)
Definition legal (o : block_op) (b : blocks) : Prop :=
  match o with Release name => is_Some (leases b !! name) | _ => True end.

#[export] Instance legal_dec o b : Decision (legal o b).
Proof. destruct o; simpl; apply _. Defined.

Definition same_geometry (b b' : blocks) : Prop :=
  block_size (control_of b') = block_size (control_of b) /\ length (slots (control_of b')) = length (slots (control_of b)).

(** Nothing moves: same blocks, same places. *)
Definition same_blocks (b b' : blocks) : Prop :=
  same_geometry b b' /\ index (control_of b') = index (control_of b) /\ arena (control_of b') = arena (control_of b).

Lemma same_blocks_block b b' key : same_blocks b b' -> block_of b' key = block_of b key.
Proof. intros ([Hg _] & Hi & Ha). unfold block_of, slot_bytes. by rewrite Hi, Ha, Hg. Qed.

Lemma same_blocks_data b b' l : same_blocks b b' -> lease_data (control_of b') l = lease_data (control_of b) l.
Proof. intros ([Hg _] & _ & Ha). unfold lease_data, slot_bytes. by rewrite Ha, Hg. Qed.

Section steps.
Context `{NodeSize} (Hnode : 0 <= node_bytes).
Context (b : blocks) (Hb : blocks_ok b).

Lemma lease_block name l : leases b !! name = Some l -> block_of b (ls_key l) = Some (lease_data (control_of b) l).
Proof. intros Hl. unfold block_of. by rewrite (bo_leases _ Hb _ _ Hl). Qed.

Lemma block_length key data : block_of b key = Some data -> length data = block_size (control_of b).
Proof.
  unfold block_of. intros (slot & Hs & ->)%fmap_Some_1. apply slot_bytes_length; [apply (bo_arena _ Hb)|].
  destruct (index_slot b Hb _ _ Hs) as (e & He & _). by apply lookup_lt_Some in He.
Qed.

Lemma acquire_step key : exists r b', block_step (Acquire key) b = Some (r, b') /\ blocks_ok b' /\ same_blocks b b' /\
  (forall name l, leases b !! name = Some l -> leases b' !! name = Some l) /\
  match block_of b key with
  | None => r = Missed /\ leases b' = leases b
  | Some data => exists name l, r = Leased name /\ leases b !! name = None /\ leases b' = <[name := l]> (leases b) /\
      ls_key l = key /\ lease_data (control_of b') l = data
  end.
Proof.
  unfold block_step, acquire, block_of. destruct (index (control_of b) !! key) as [slot|] eqn:Hi; simpl.
  - set (t := (snapshot (control_of b)) <| bs_hits ::= Z.succ |>).
    pose proof (counters_ok b Hb t eq_refl eq_refl eq_refl) as Hb1.
    pose proof (pin_ok _ Hb1 key slot Hi) as Hok. simpl in Hok.
    eexists _, _. split; [done|]. split; [exact Hok|]. split; [by repeat split; simpl; rewrite ?length_alter|].
    pose proof (is_fresh (dom (leases b))) as Hf. apply not_elem_of_dom in Hf.
    split; [intros name l Hl; simpl; by rewrite lookup_insert_ne by congruence|].
    eexists _, _. split_and!; try done.
  - eexists _, _. split; [done|]. split; [by apply (counters_ok b Hb)|]. done.
Qed.

Lemma block_release_step name l : leases b !! name = Some l ->
  exists b', block_step (Release name) b = Some (Released, b') /\ blocks_ok b' /\ same_blocks b b' /\
    leases b' = delete name (leases b).
Proof.
  intros Hl. destruct (release_ok b Hb name l Hl) as (c & Hr & Hok & Ha & Hi & Hbs & Hlen).
  unfold block_step. rewrite Hl. simpl. rewrite Hr. simpl. eexists. by split_and!.
Qed.

(** The block that gave way, if one did. *)
Definition victim_ok (victim : option Z) : Prop :=
  match victim with
  | None => (size (index (control_of b)) < length (slots (control_of b)))%nat
  | Some v => exists slot e, index (control_of b) !! v = Some slot /\ slots (control_of b) !! slot = Some e /\
      Forall (fun e => k_occupied e = true) (slots (control_of b)) /\
      (forall name l, leases b !! name = Some l -> ls_key l <> v) /\
      (forall key slot' e', index (control_of b) !! key = Some slot' -> slots (control_of b) !! slot' = Some e' ->
         (forall name l, leases b !! name = Some l -> ls_key l <> key) -> k_last_used e <= k_last_used e')
  end.

Lemma unleased_unpinned key slot e : index (control_of b) !! key = Some slot -> slots (control_of b) !! slot = Some e ->
  (forall name l, leases b !! name = Some l -> ls_key l <> key) -> unpinned e.
Proof.
  intros Hi He Hno. unfold unpinned. rewrite (bo_pins _ Hb _ _ He). apply msum_zero. intros name l Hl.
  destruct (ls_slot l =? slot)%nat eqn:E; [|done]. apply Nat.eqb_eq in E as <-.
  pose proof (bo_leases _ Hb _ _ Hl) as Hk. pose proof (index_inj b Hb _ _ _ Hk Hi) as <-. by destruct (Hno _ _ Hl).
Qed.

Lemma free_slot_room slot e : slots (control_of b) !! slot = Some e -> k_occupied e = false ->
  (size (index (control_of b)) < length (slots (control_of b)))%nat.
Proof.
  intros He Ho. eapply Nat.le_lt_trans; [by apply index_omap|].
  apply (omap_length_lt _ _ e); [by eapply list_elem_of_lookup_2|]. unfold key_of. by rewrite Ho.
Qed.

(** Everything but the target slot stays where it is. *)
Lemma installed_blocks c key data target e : slots (control_of b) !! target = Some e -> index (control_of b) !! key = None ->
  length data = block_size (control_of b) ->
  index c = index_after b key target e -> block_size c = block_size (control_of b) ->
  arena c = put (arena (control_of b)) (target * block_size (control_of b)) data ->
  slot_bytes c target = data /\
  (forall slot, slot <> target -> slot_bytes c slot = slot_bytes (control_of b) slot) /\
  (forall m key', block_of (mk_blocks c m) key' =
     if decide (key' = key) then Some data
     else if decide (key_of e = Some key') then None else block_of b key').
Proof.
  intros He Hn Hd Hi Hbs Ha. pose proof (slot_lt b target e He) as Hlt. pose proof (bo_arena _ Hb) as Har.
  assert (target * block_size (control_of b) + length data <= length (arena (control_of b)))%nat as Hfit by nia.
  assert (slot_bytes c target = data) as Ht.
  { unfold slot_bytes. rewrite Ha, Hbs. pose proof (bytes_at_put _ _ _ Hfit) as Hx. rewrite Hd in Hx. exact Hx. }
  assert (forall slot, slot <> target -> slot_bytes c slot = slot_bytes (control_of b) slot) as Ho.
  { intros slot Hne. unfold slot_bytes. rewrite Ha, Hbs. apply bytes_at_other; [done|]. nia. }
  split_and!; [done|done|]. intros m key'. unfold block_of. simpl. rewrite Hi.
  destruct (decide (key' = key)) as [->|Hne].
  - rewrite (proj2 (index_after_spec b Hb key target e key target He Hn)); [by simpl; rewrite Ht|by left].
  - destruct (decide (key_of e = Some key')) as [Hke|Hke].
    + destruct (index_after b key target e !! key') as [slot|] eqn:E; [|done]. exfalso.
      apply index_after_spec in E as [[? _]|(_ & Hs & E)]; [done| |done..]. apply Hs. apply (bo_index _ Hb) in E as (e' & He' & Hk').
      assert (index (control_of b) !! key' = Some slot) as H1 by (apply (bo_index _ Hb); by exists e').
      assert (index (control_of b) !! key' = Some target) as H2 by (apply (bo_index _ Hb); by exists e). congruence.
    + destruct (index (control_of b) !! key') as [slot|] eqn:E; simpl.
      * assert (slot <> target) as Hs.
        { intros ->. apply (bo_index _ Hb) in E as (e' & He' & Hk'). congruence. }
        rewrite (proj2 (index_after_spec b Hb key target e key' slot He Hn)); [by simpl; rewrite Ho|by right].
      * destruct (index_after b key target e !! key') as [slot|] eqn:E2; [|done].
        apply index_after_spec in E2 as [[? _]|(_ & _ & ?)]; [done|congruence|done..].
Qed.

Lemma chosen_target target : choose_target (slots (control_of b)) = Some target ->
  exists e, slots (control_of b) !! target = Some e /\ (k_occupied e = false \/ unpinned e) /\ victim_ok (key_of e).
Proof.
  intros Ht. pose proof (choose_target_spec (slots (control_of b))) as Hs. rewrite Ht in Hs.
  destruct Hs as (e & He & Hc). exists e. split; [done|]. split; [naive_solver|].
  unfold key_of, victim_ok. destruct (k_occupied e) eqn:Ho; [|by eapply free_slot_room].
  destruct Hc as [?|(Hp & Hall & Hmin)]; [congruence|].
  assert (index (control_of b) !! k_key e = Some target) as Hi.
  { apply (bo_index _ Hb). exists e. split; [done|]. unfold key_of. by rewrite Ho. }
  exists target, e. split_and!; try done.
  - intros name l Hl Hk. destruct (target_unleased b Hb target e He ltac:(by right)) as [_ Hno].
    apply (Hno _ _ Hl). pose proof (bo_leases _ Hb _ _ Hl). congruence.
  - intros key slot' e' Hi' He' Hno. apply Hmin; [by eapply list_elem_of_lookup_2|by eapply unleased_unpinned].
Qed.

(** Why an admission can be refused. *)
Definition refusal_ok (key : Z) (data : list Z) (e : exn) : Prop :=
  (exists old, block_of b key = Some old /\ old <> data) \/
  (block_of b key = None /\ forall slot x, slots (control_of b) !! slot = Some x -> k_last_used x < UINT64_MAX ->
     exists name l, leases b !! name = Some l /\ ls_slot l = slot) \/
  e = bad_alloc.

Definition same_leases_and_blocks (b' : blocks) : Prop := leases b' = leases b /\ same_blocks b b'.

Lemma admit_step heap_fails key data : length data = block_size (control_of b) ->
  exists r b', block_step (Admit heap_fails key (Some data)) b = Some (r, b') /\ blocks_ok b' /\ same_geometry b b' /\
  match r with
  | Leased name => exists l, leases b !! name = None /\ leases b' = <[name := l]> (leases b) /\ ls_key l = key /\
      lease_data (control_of b') l = data /\
      (forall name' l', leases b !! name' = Some l' -> lease_data (control_of b') l' = lease_data (control_of b) l') /\
      (block_of b key = Some data /\ same_blocks b b' \/
       block_of b key = None /\ exists victim, victim_ok victim /\
         forall key', block_of b' key' =
           if decide (key' = key) then Some data else if decide (victim = Some key') then None else block_of b key')
  | Refused e => same_leases_and_blocks b' /\ refusal_ok key data e
  | _ => False
  end.
Proof.
  intros Hd. unfold block_step, admit_block. rewrite Hd, Nat.eqb_refl. cbn [negb].
  pose proof (is_fresh (dom (leases b))) as Hf. apply not_elem_of_dom in Hf.
  destruct (index (control_of b) !! key) as [slot|] eqn:Hi; [case_bool_decide as Heq|].
  - simpl. eexists _, _. split; [done|]. split; [by apply pin_ok|]. split; [by split; simpl; rewrite ?length_alter|].
    eexists. split_and!; try done. left. unfold block_of. rewrite Hi. simpl. split; [by rewrite Heq|].
    by repeat split; simpl; rewrite ?length_alter.
  - simpl. eexists _, _. split; [done|]. split; [by apply (counters_ok b Hb)|]. split; [done|]. split; [done|].
    left. unfold block_of. rewrite Hi. by eexists.
  - assert (block_of b key = None) as Hnone by (unfold block_of; by rewrite Hi).
    destruct (choose_target (slots (control_of b))) as [target|] eqn:Ht.
    + destruct (chosen_target target Ht) as (e & He & Hc & Hv).
      destruct (allocate heap_fails node_bytes (index_memory (control_of b))) as [memory|] eqn:Hal.
      * destruct (install_ok Hnode b Hb heap_fails key data target e memory He Hc Hi Hd Hal) as (c & Hin & Hok & Hix & Hbs & Ha & Hlen).
        rewrite Hin. simpl. eexists _, _. split; [done|]. split; [exact Hok|]. split; [done|]. eexists.
        destruct (installed_blocks c key data target e He Hi Hd Hix Hbs Ha) as (H1 & H2 & H3).
        split_and!; try done.
        -- intros name' l' Hl'. apply H2. destruct (target_unleased b Hb target e He Hc) as [_ Hno]. by apply (Hno name').
        -- right. split; [done|]. exists (key_of e). split; [done|]. apply H3.
      * simpl. eexists _, _. split; [done|]. split; [by destruct b|]. split; [done|]. split; [done|]. by right; right.
    + simpl. eexists _, _. split; [done|]. split; [by apply (counters_ok b Hb)|]. split; [done|]. split; [done|].
      right; left. split; [done|]. intros slot x Hx Hlt. pose proof (choose_target_spec (slots (control_of b))) as Hs. rewrite Ht in Hs.
      rewrite Forall_forall in Hs. destruct (Hs x) as [Ho Hp]; [by eapply list_elem_of_lookup_2|].
      apply slot_pins_nonzero. rewrite <- (bo_pins _ Hb _ _ Hx). unfold unpinned in Hp. intros H0. specialize (Hp H0). lia.
Qed.
End steps.

Fixpoint block_run `{NodeSize} (l : list block_op) (b : blocks) : option (list block_reply * blocks) :=
  match l with
  | [] => Some ([], b)
  | o :: l => '(r, b) ← block_step o b; '(rs, b) ← block_run l b; Some (r :: rs, b)
  end.

Definition gives_back (name : positive) (o : block_op) : bool :=
  match o with Release n => bool_decide (n = name) | _ => false end.

Section runs.
Context `{NodeSize} (Hnode : 0 <= node_bytes).

Lemma step_kept o b : blocks_ok b -> legal o b ->
  exists r b', block_step o b = Some (r, b') /\ blocks_ok b' /\ same_geometry b b' /\
    forall name l, gives_back name o = false -> leases b !! name = Some l ->
      leases b' !! name = Some l /\ lease_data (control_of b') l = lease_data (control_of b) l.
Proof.
  intros Hb Hl. destruct o as [key|heap_fails key data|name]; simpl in Hl.
  - destruct (acquire_step b Hb key) as (r & b' & Hs & Hok & Hsame & Hkeep & _). exists r, b'. split_and!; [done|done|apply Hsame|].
    intros name l _ Hn. split; [by apply Hkeep|by apply same_blocks_data].
  - destruct data as [data|]; [destruct (decide (length data = block_size (control_of b))) as [Hd|Hd]|].
    + destruct (admit_step Hnode b Hb heap_fails key data Hd) as (r & b' & Hs & Hok & Hg & Hr). exists r, b'. split_and!; try done.
      intros name l _ Hn. destruct r as [n| |e|]; try done.
      * destruct Hr as (l' & Hfree & -> & _ & _ & Hdata & _). split; [|by eapply Hdata]. rewrite lookup_insert_ne; [done|congruence].
      * destruct Hr as [[-> Hsame] _]. split; [done|by apply same_blocks_data].
    + unfold block_step, admit_block. rewrite (proj2 (Nat.eqb_neq _ _) Hd). simpl.
      eexists _, _. split; [done|]. split; [by apply (counters_ok b Hb)|]. done.
    + simpl. eexists _, _. split; [done|]. split; [by apply (counters_ok b Hb)|]. done.
  - destruct Hl as [l Hl]. destruct (block_release_step b Hb name l Hl) as (b' & Hs & Hok & Hsame & Hdel).
    exists Released, b'. split_and!; [done|done|apply Hsame|]. intros name' l' Hn Hl'. simpl in Hn. case_bool_decide; [done|].
    rewrite Hdel, lookup_delete_ne by done. split; [done|by apply same_blocks_data].
Qed.

Lemma run_kept l b rs b' : blocks_ok b -> block_run l b = Some (rs, b') -> blocks_ok b' /\ same_geometry b b' /\
  forall name ls, forallb (fun o => negb (gives_back name o)) l = true -> leases b !! name = Some ls ->
    leases b' !! name = Some ls /\ lease_data (control_of b') ls = lease_data (control_of b) ls.
Proof.
  revert b rs. induction l as [|o l IH]; intros b rs Hb Hr; simpl in Hr; [by simplify_eq|].
  destruct (block_step o b) as [[r b1]|] eqn:Hs; [|done]. simpl in Hr.
  destruct (block_run l b1) as [[rs1 b2]|] eqn:Hr1; [|done]. simpl in Hr. simplify_eq.
  assert (legal o b) as Hl.
  { destruct o; try done. simpl in *. destruct (leases b !! name); [by eexists|done]. }
  destruct (step_kept o b Hb Hl) as (r' & b1' & Hs' & Hok & [Hg1 Hg2] & Hkeep). rewrite Hs in Hs'. simplify_eq.
  destruct (IH b1' rs1 Hok Hr1) as (Hok' & [Hg3 Hg4] & Hkeep'). split_and!; [done|split; congruence|].
  intros name ls Hall Hn. simpl in Hall. bool_facts. destruct (Hkeep name ls ltac:(done) Hn) as [Hn1 Hd1].
  destruct (Hkeep' name ls ltac:(done) Hn1) as [Hn2 Hd2]. split; [done|congruence].
Qed.

(** A run stops only at a name that is not a live lease. *)
Lemma run_stops l b : blocks_ok b -> block_run l b = None ->
  exists before name after b1 rs, l = before ++ Release name :: after /\ block_run before b = Some (rs, b1) /\ leases b1 !! name = None.
Proof.
  revert b. induction l as [|o l IH]; intros b Hb Hr; simpl in Hr; [done|].
  destruct (decide (legal o b)) as [Hl|Hl].
  - destruct (step_kept o b Hb Hl) as (r & b1 & Hs & Hok & _ & _). rewrite Hs in Hr. simpl in Hr.
    destruct (block_run l b1) as [[rs1 b2]|] eqn:Hr1; [done|].
    destruct (IH b1 Hok Hr1) as (before & name & after & b2 & rs & -> & Hb2 & Hn).
    exists (o :: before), name, after, b2, (r :: rs). split_and!; [done| |done]. simpl. rewrite Hs. simpl. by rewrite Hb2.
  - destruct o as [| |name]; try done. exists [], name, l, b, []. split_and!; [done|done|].
    simpl in Hl. by destruct (leases b !! name); [destruct Hl; eexists|].
Qed.

Lemma make_control_ok capacity size budget c : u64 capacity -> u64 size -> u64 budget -> make_control capacity size budget = Ok c ->
  blocks_ok (mk_blocks c ∅) /\ Z.of_nat (block_size c) = size /\ Z.of_nat (length (arena c)) <= capacity /\
  ac_budget (index_memory c) = budget.
Proof.
  unfold u64, make_control. intros Hc Hs Hbu Hm. repeat (case_match; [done|]). injection Hm as <-. bool_facts. simpl.
  pose proof (Z.mul_div_le capacity size ltac:(lia)) as Hmul. pose proof (Z.div_pos capacity size ltac:(lia) ltac:(lia)).
  rewrite length_replicate. split_and!; [|lia|rewrite Nat2Z.inj_mul, !Z2Nat.id by lia; lia|done].
  split; simpl; rewrite ?length_replicate; try done; try lia.
  - intros key slot. rewrite lookup_empty. split; [done|]. intros (e & He & Hk). apply lookup_replicate in He as [-> _]. done.
  - intros slot e He. apply lookup_replicate in He as [-> _]. unfold slot_pins. by rewrite msum_empty.
  - intros slot e He. apply lookup_replicate in He as [-> _]. simpl. unfold UINT64_MAX. lia.
  - rewrite map_size_empty. lia.
Qed.

(** Caches in use: built by the constructor and reached by calls. *)
Definition in_use (capacity size budget : Z) (b : blocks) : Prop :=
  u64 capacity /\ u64 size /\ u64 budget /\
  exists c l rs, make_control capacity size budget = Ok c /\ block_run l (mk_blocks c ∅) = Some (rs, b).

Lemma in_use_ok capacity size budget b : in_use capacity size budget b ->
  blocks_ok b /\ Z.of_nat (block_size (control_of b)) = size /\ Z.of_nat (length (arena (control_of b))) <= capacity.
Proof.
  intros (Hc & Hs & Hbu & c & l & rs & Hm & Hr). destruct (make_control_ok _ _ _ _ Hc Hs Hbu Hm) as (Hok & Hsz & Hcap & _).
  destruct (run_kept _ _ _ _ Hok Hr) as (Hok' & [Hg1 Hg2] & _). split; [done|]. simpl in *.
  rewrite (bo_arena _ Hok'), Hg1, Hg2. pose proof (bo_arena _ Hok) as Ha. simpl in Ha. by rewrite <- Ha.
Qed.
End runs.

(** ** Theorems *)

(** C33: A leased block does not move and does not change.  Whatever acquisitions,
    admissions with their evictions and releases follow, a lease that was not
    given back still names its block, its bytes are the same and fill one
    block, and they are the resident block of the lease's key; no release of
    a live lease ends the program, in any interleaving of calls. *)
Theorem leased_blocks_are_stable `{NodeSize} capacity size budget b name l later :
  0 <= node_bytes -> in_use capacity size budget b -> leases b !! name = Some l ->
  forallb (fun o => negb (gives_back name o)) later = true ->
  match block_run later b with
  | Some (_, b') =>
      leases b' !! name = Some l /\ lease_data (control_of b') l = lease_data (control_of b) l /\
      Z.of_nat (length (lease_data (control_of b') l)) = size /\
      block_of b' (ls_key l) = Some (lease_data (control_of b') l) /\
      is_Some (block_step (Release name) b')
  | None => exists before gone after b1 rs, later = before ++ Release gone :: after /\
      block_run before b = Some (rs, b1) /\ leases b1 !! gone = None
  end.
Proof.
  intros Hnode (Hb & Hsz & _)%in_use_ok Hl Hno; [|done]. destruct (block_run later b) as [[rs b']|] eqn:Hr; [|by apply run_stops].
  destruct (run_kept Hnode later b rs b' Hb Hr) as (Hb' & [Hg _] & Hkeep). destruct (Hkeep name l Hno Hl) as [Hl' Hd].
  pose proof (lease_block b' Hb' name l Hl') as Hblock. pose proof (block_length b' Hb' _ _ Hblock).
  split_and!; [done|done|lia|done|]. destruct (block_release_step b' Hb' name l Hl') as (b'' & Hs & _). by rewrite Hs.
Qed.

(** What an admission does.  It hands out a lease whose bytes are the given ones;
    a key that is resident must have the same bytes; a new key takes a free
    slot, or in a full cache the slot of the least recently used key without
    leases, and no other block changes.  It is refused only for different
    bytes, when every slot is leased, or when memory for the index runs out,
    and then nothing changes.  An acquisition hits exactly the resident keys. *)
Theorem admission_contract `{NodeSize} capacity size budget b heap_fails key data :
  0 <= node_bytes -> in_use capacity size budget b -> Z.of_nat (length data) = size ->
  (exists r b', block_step (Admit heap_fails key (Some data)) b = Some (r, b') /\
   match r with
   | Leased name => exists l, leases b !! name = None /\ leases b' = <[name := l]> (leases b) /\ ls_key l = key /\
       lease_data (control_of b') l = data /\
       (block_of b key = Some data /\ (forall key', block_of b' key' = block_of b key') \/
        block_of b key = None /\ exists victim, victim_ok b victim /\
          forall key', block_of b' key' =
            if decide (key' = key) then Some data else if decide (victim = Some key') then None else block_of b key')
   | Refused e => leases b' = leases b /\ (forall key', block_of b' key' = block_of b key') /\ refusal_ok b key data e
   | _ => False
   end) /\
  (exists r b', block_step (Acquire key) b = Some (r, b') /\ (forall key', block_of b' key' = block_of b key') /\
   match block_of b key with
   | None => r = Missed /\ leases b' = leases b
   | Some bytes => exists name l, r = Leased name /\ leases b' = <[name := l]> (leases b) /\ ls_key l = key /\
       lease_data (control_of b') l = bytes
   end).
Proof.
  intros Hnode (Hb & Hsz & _)%in_use_ok Hd; [|done]. split.
  - destruct (admit_step Hnode b Hb heap_fails key data ltac:(lia)) as (r & b' & Hs & _ & _ & Hr). exists r, b'. split; [done|].
    destruct r as [name| |e|]; try done.
    + destruct Hr as (l & H1 & H2 & H3 & H4 & _ & [[H5 H6]|H5]); exists l; split_and!; try done; [left|by right].
      split; [done|]. intros. by apply same_blocks_block.
    + destruct Hr as [[H1 H2] H3]. split_and!; try done. intros. by apply same_blocks_block.
  - destruct (acquire_step b Hb key) as (r & b' & Hs & _ & Hsame & _ & Hr). exists r, b'. split_and!; [done| |].
    + intros. by apply same_blocks_block.
    + destruct (block_of b key); [|done]. destruct Hr as (name & ls & -> & _ & H1 & H2 & H3). by exists name, ls.
Qed.

(** The bound is physical.  The arena never exceeds the capacity asked for, the
    resident blocks fit the arena and their reported total is exact, the
    index never takes more memory than its budget, also at its peak, and the
    count of active leases is exact. *)
Theorem block_cache_is_bounded `{NodeSize} capacity size budget b :
  0 <= node_bytes -> in_use capacity size budget b ->
  bs_resident_bytes (snapshot (control_of b)) <= bs_capacity_bytes (snapshot (control_of b)) <= capacity /\
  bs_resident_bytes (snapshot (control_of b)) = Z.of_nat (base.size (index (control_of b))) * size /\
  ac_allocated (index_memory (control_of b)) = node_bytes * Z.of_nat (base.size (index (control_of b))) /\
  ac_allocated (index_memory (control_of b)) <= ac_budget (index_memory (control_of b)) /\
  ac_peak (index_memory (control_of b)) <= ac_budget (index_memory (control_of b)) /\
  bs_active_leases (snapshot (control_of b)) = Z.of_nat (base.size (leases b)).
Proof.
  intros Hnode (Hb & Hsz & Hcap)%in_use_ok; [|done]. pose proof (index_bound b Hb) as Hix. pose proof Hb as [].
  rewrite bo_resident0, bo_capacity0. destruct bo_memory0 as (? & ? & ?).
  split_and!; try done; [rewrite bo_arena0; nia|lia].
Qed.

(** ** Witnesses *)

(** Two blocks of four bytes, index nodes of 48 bytes. *)
#[local] Instance demo_node_size : NodeSize := 48.

Lemma demo_node_pos : 0 <= node_bytes.
Proof. vm_compute. discriminate. Qed.

Definition demo_block_ops : list block_op :=
  [Admit false 7 (Some [1; 2; 3; 4]); Admit false 8 (Some [5; 6; 7; 8]); Acquire 7; Release 2].

Definition demo_control : control := mk_control 4 (replicate 8 0) (replicate 2 (mk_slot 0 0 0 false))
  (mk_counter 0 0 200) ∅ 0 (mk_block_stats 8 0 0 0 0 0 0 0 0 0).

Definition demo_blocks : blocks := default (mk_blocks demo_control ∅) (snd <$> block_run demo_block_ops (mk_blocks demo_control ∅)).

Lemma demo_in_use : in_use 10 4 200 demo_blocks.
Proof.
  split_and!; [split; vm_compute; discriminate..|]. exists demo_control, demo_block_ops.
  exists [Leased 1; Leased 2; Leased 3; Released]. split; [reflexivity|]. vm_compute. reflexivity.
Qed.

Lemma leased_blocks_are_stable_witness :
  leases demo_blocks !! 1%positive = Some (mk_lease 0 7) /\
  match block_run [Admit false 9 (Some [9; 9; 9; 9]); Release 3; Acquire 8] demo_blocks with
  | Some (_, b') => lease_data (control_of b') (mk_lease 0 7) = lease_data (control_of demo_blocks) (mk_lease 0 7) /\
      is_Some (block_step (Release 1) b')
  | None => False
  end.
Proof.
  assert (leases demo_blocks !! 1%positive = Some (mk_lease 0 7)) as Hl by (vm_compute; reflexivity). split; [exact Hl|].
  pose proof (leased_blocks_are_stable 10 4 200 demo_blocks 1 (mk_lease 0 7)
    [Admit false 9 (Some [9; 9; 9; 9]); Release 3; Acquire 8] demo_node_pos demo_in_use Hl ltac:(reflexivity)) as H.
  destruct (block_run [Admit false 9 (Some [9; 9; 9; 9]); Release 3; Acquire 8] demo_blocks) as [[rs b']|] eqn:E.
  - destruct H as (_ & Hd & _ & _ & Hr). split; [exact Hd|exact Hr].
  - assert (is_Some (block_run [Admit false 9 (Some [9; 9; 9; 9]); Release 3; Acquire 8] demo_blocks)) as Hs by (vm_compute; by eexists).
    rewrite E in Hs. by destruct Hs.
Defined.

Lemma admission_contract_witness :
  block_of demo_blocks 8 = Some [5; 6; 7; 8] /\
  exists r b', block_step (Admit false 9 (Some [9; 9; 9; 9])) demo_blocks = Some (r, b').
Proof.
  split; [vm_compute; reflexivity|].
  destruct (admission_contract 10 4 200 demo_blocks false 9 [9; 9; 9; 9] demo_node_pos demo_in_use ltac:(reflexivity))
    as [(r & b' & Hs & _) _]. exists r, b'. exact Hs.
Defined.

Lemma block_cache_is_bounded_witness :
  bs_resident_bytes (snapshot (control_of demo_blocks)) = 8 /\
  bs_active_leases (snapshot (control_of demo_blocks)) = Z.of_nat (base.size (leases demo_blocks)).
Proof.
  split; [vm_compute; reflexivity|].
  pose proof (@block_cache_is_bounded demo_node_size 10 4 200 demo_blocks demo_node_pos demo_in_use) as H.
  apply H.
Defined.
