(* ===== verification/AsyncReader.v ===== *)
(** * The asynchronous reader

    Model of [async_reader] with its [staging_budget] and [read_operation]
    ([src/src/llama-qwen4exp-ple-storage.cpp]): batches of spans are submitted,
    equal spans in flight share one read, workers take groups of reads from a
    queue, and tickets collect the buffers.

    A [cell] stands for the objects that belong to one read: the
    [read_operation], the shared state of its promise and its buffer.  The
    operation lives while the queue or a worker holds it, the shared state while
    also a ticket holds a future of it, the buffer while the shared state with
    a value, a worker or a consumer holds it; [free_cell] runs when a holder
    goes.  [inflight] and [owners] hold weak pointers.  [None] is
    [std::terminate] of the staging budget.

    Atomic steps are the critical sections of the code; between them any other
    step can happen.  A worker prepares one buffer per step, since each takes
    the mutex of the budget.  [vec_capacity] is what a vector of a given size
    allocates, [control_bytes] the control block of a shared buffer; the source
    is the bytes it holds, and a read of it can fail.  Failures of allocations
    are arguments of the steps.  Latency samples are left out, and counters of
    the statistics do not wrap. *)

From S2P Require Import Prelude ExpertDescriptor BlockCache.
From stdpp Require Import strings.
Open Scope string_scope.
Open Scope list_scope.
Open Scope Z_scope.

(** ** Spans *)

Record read_span := mk_span { sp_offset : Z; sp_length : Z }.
#[export] Instance read_span_eq_dec : EqDecision read_span.
Proof. solve_decision. Defined.
#[export] Instance read_span_countable : Countable read_span.
Proof.
  by apply (inj_countable' (fun s => (sp_offset s, sp_length s)) (fun p => mk_span p.1 p.2)); intros [].
Defined.

(** [read_span::operator<]. *)
Definition span_lt (a b : read_span) : bool :=
  (sp_offset a <? sp_offset b) || ((sp_offset a =? sp_offset b) && (sp_length a <? sp_length b)).

(** ** Sizes that the implementation of the standard library sets *)

Class ReaderSizes := {
  vec_capacity : Z -> Z;
  control_bytes : Z;
}.

Class ReaderSizesOk `{ReaderSizes} : Prop := {
  vec_capacity_ge : forall n, 0 < n -> n <= vec_capacity n;
  control_bytes_nonneg : 0 <= control_bytes;
}.

(** ** The staging budget *)

Record staging_budget := mk_staging {
  sg_capacity : Z;
  sg_resident : Z;
  sg_peak_resident : Z;
  sg_rejected : Z;
  sg_allocated : Z;
  sg_peak_allocated : Z;
  sg_controls : allocation_counter;
}.
#[export] Instance staging_budget_settable : Settable staging_budget :=
  fun g => mk_staging (sg_capacity g) (sg_resident g) (sg_peak_resident g) (sg_rejected g) (sg_allocated g)
    (sg_peak_allocated g) (sg_controls g).

Definition make_staging (capacity control_budget : Z) : result exn staging_budget :=
  if capacity =? 0 then Err (invalid_argument "qwen4exp PLE staging capacity must be nonzero")
  else Ok (mk_staging capacity 0 0 0 0 0 (mk_counter 0 0 control_budget)).

Definition reserve (bytes : Z) (g : staging_budget) : result exn unit * staging_budget :=
  if bytes >? sg_capacity g - sg_resident g
  then (Err (capacity_error "qwen4exp PLE staging capacity is exhausted"), g <| sg_rejected ::= Z.succ |>)
  else
    let resident := sg_resident g + bytes in
    (Ok tt, g <| sg_resident := resident |> <| sg_peak_resident ::= fun p => Z.max p resident |>).

(** [staging_budget::release]. *)
Definition unreserve (bytes : Z) (g : staging_budget) : option staging_budget :=
  if bytes >? sg_resident g then None else Some (g <| sg_resident ::= fun x => x - bytes |>).

(** [staging_budget::allocated]. *)
Definition note_allocated (bytes : Z) (g : staging_budget) : result exn staging_budget :=
  if bytes >? sg_capacity g - sg_allocated g
  then Err (capacity_error "qwen4exp PLE allocated staging capacity is exhausted")
  else
    let allocated := sg_allocated g + bytes in
    Ok (g <| sg_allocated := allocated |> <| sg_peak_allocated ::= fun p => Z.max p allocated |>).

Definition release_buffer (bytes reserved : Z) (g : staging_budget) : option staging_budget :=
  if (bytes >? sg_allocated g) || (reserved >? sg_resident g) then None
  else Some (g <| sg_allocated ::= fun x => x - bytes |> <| sg_resident ::= fun x => x - reserved |>).

(** The deleter of a buffer and the end of its control block. *)
Definition drop_buffer `{ReaderSizes} (length : Z) (g : staging_budget) : option staging_budget :=
  g ← release_buffer (vec_capacity length) length g;
  controls ← deallocate control_bytes (sg_controls g);
  Some (g <| sg_controls := controls |>).

(** ** State *)

(** [c_transferred]: the operation no longer holds the reservation. *)
Record cell := mk_cell {
  c_span : read_span;
  c_transferred : bool;
  c_buffer : bool;
  c_result : option (result exn (list Z));
}.
#[export] Instance cell_settable : Settable cell :=
  fun c => mk_cell (c_span c) (c_transferred c) (c_buffer c) (c_result c).

(** [ticket::impl]. *)
Record ticket := mk_ticket { t_owner : Z; t_cancelled : bool; t_futures : list positive }.
#[export] Instance ticket_settable : Settable ticket := fun t => mk_ticket (t_owner t) (t_cancelled t) (t_futures t).

Inductive worker :=
| Idle
| Preparing (batch rest : list positive)
| Finishing (batch : list positive) (outcome : result exn (list (list Z)))
| Exited.

(** [async_read_stats], the counters that the reader keeps. *)
Record read_stats := mk_read_stats {
  rs_submitted_batches : Z;
  rs_logical_reads : Z;
  rs_logical_bytes : Z;
  rs_source_reads : Z;
  rs_source_bytes : Z;
  rs_source_batches : Z;
  rs_peak_source_batch_width : Z;
  rs_coalesced_reads : Z;
  rs_failed_reads : Z;
  rs_cancelled_batches : Z;
  rs_queued_reads : Z;
  rs_active_reads : Z;
  rs_peak_queue_depth : Z;
}.
#[export] Instance read_stats_settable : Settable read_stats :=
  fun t => mk_read_stats (rs_submitted_batches t) (rs_logical_reads t) (rs_logical_bytes t) (rs_source_reads t)
    (rs_source_bytes t) (rs_source_batches t) (rs_peak_source_batch_width t) (rs_coalesced_reads t) (rs_failed_reads t)
    (rs_cancelled_batches t) (rs_queued_reads t) (rs_active_reads t) (rs_peak_queue_depth t).

Record reader := mk_reader {
  source_data : list Z;
  staging : staging_budget;
  queue : list positive;
  inflight : gmap read_span positive;
  cells : gmap positive cell;
  tickets : gmap positive ticket;
  owners : gmap Z (list positive);
  held : gmap positive positive;
  workers : list worker;
  stopping : bool;
  counts : read_stats;
  max_source_batch_width : nat;
}.
#[export] Instance reader_settable : Settable reader :=
  fun r => mk_reader (source_data r) (staging r) (queue r) (inflight r) (cells r) (tickets r) (owners r) (held r)
    (workers r) (stopping r) (counts r) (max_source_batch_width r).

Definition source_size (r : reader) : Z := Z.of_nat (length (source_data r)).
Definition span_bytes (data : list Z) (s : read_span) : list Z :=
  bytes_at data (Z.to_nat (sp_offset s)) (Z.to_nat (sp_length s)).

Definition make_reader (identity : source_identity) (data : list Z) (worker_count : nat) (staging_capacity : Z)
    (width : nat) (control_budget : Z) : result exn reader :=
  let? g := make_staging staging_capacity control_budget in
  if (worker_count =? 0)%nat then Err (invalid_argument "qwen4exp PLE async reader requires workers")
  else if (width =? 0)%nat || (64 <? width)%nat
  then Err (invalid_argument "qwen4exp PLE source batch width must be between 1 and 64")
  else if identity_is_zero identity
  then Err (invalid_argument "qwen4exp PLE async reader source identity cannot be zero")
  else Ok (mk_reader data g [] ∅ ∅ ∅ ∅ ∅ (replicate worker_count Idle) false
             (mk_read_stats 0 0 0 0 0 0 0 0 0 0 0 0 0) width).

(** ** Lifetimes *)

Definition batch_of (w : worker) : list positive :=
  match w with Preparing batch _ | Finishing batch _ => batch | Idle | Exited => [] end.

(** A queue or a worker holds the operation. *)
Definition op_alive (r : reader) (id : positive) : bool :=
  bool_decide (id ∈ queue r) || existsb (fun w => bool_decide (id ∈ batch_of w)) (workers r).

(** Some future or consumer still refers to the cell. *)
Definition referenced (r : reader) (id : positive) : bool :=
  op_alive r id
  || existsb (fun item : positive * ticket => bool_decide (id ∈ t_futures item.2)) (map_to_list (tickets r))
  || existsb (fun item : positive * positive => bool_decide (item.2 = id)) (map_to_list (held r)).

(** What happens to a cell when one of its holders went. *)
Definition free_cell `{ReaderSizes} (id : positive) (r : reader) : option reader :=
  match cells r !! id with
  | None => Some r
  | Some c =>
      if referenced r id then Some r
      else
        g ← (if c_buffer c then drop_buffer (sp_length (c_span c)) (staging r) else Some (staging r));
        Some (r <| staging := g |> <| cells ::= delete id |>)
  end.

Fixpoint free_cells `{ReaderSizes} (ids : list positive) (r : reader) : option reader :=
  match ids with
  | [] => Some r
  | id :: ids => r ← free_cell id r; free_cells ids r
  end.

(** [read_operation::~read_operation]; the cell stays as long as it is referenced. *)
Definition end_operation (id : positive) (r : reader) : option reader :=
  match cells r !! id with
  | None => Some r
  | Some c =>
      if c_transferred c then Some r
      else
        g ← unreserve (sp_length (c_span c)) (staging r);
        Some (r <| staging := g |> <| cells ::= <[id := c <| c_transferred := true |>]> |>)
  end.

(** [if(found!=inflight.end() && found->second.lock()==operation) inflight.erase(found)]. *)
Definition forget_inflight (id : positive) (r : reader) : reader :=
  match cells r !! id with
  | None => r
  | Some c => if bool_decide (inflight r !! c_span c = Some id) then r <| inflight ::= delete (c_span c) |> else r
  end.

Definition set_result (id : positive) (v : result exn (list Z)) (r : reader) : reader :=
  r <| cells ::= alter (fun c => c <| c_result := Some v |>) id |>.

(** ** [submit] *)

(** The check of the spans; the total length. *)
Definition check_span (source_size : Z) (logical_bytes : Z) (s : read_span) : result exn Z :=
  if (sp_length s =? 0) || (sp_length s >? UINT64_MAX) || (sp_offset s >? source_size) || (sp_length s >? source_size - sp_offset s)
  then Err (out_of_range "qwen4exp PLE read span is outside its source")
  else if sp_length s >? UINT64_MAX - logical_bytes
  then Err (overflow_error "qwen4exp PLE batch byte count overflows uint64")
  else Ok (logical_bytes + sp_length s).

(** Expired owner records go. *)
Definition purge_owners (r : reader) : reader :=
  r <| owners ::= omap (fun l =>
         let l := filter (fun t => is_Some (tickets r !! t)) l in
         if (length l =? 0)%nat then None else Some l) |>.

Definition is_inflight (r : reader) (s : read_span) : bool :=
  match inflight r !! s with Some id => op_alive r id | None => false end.

(** A [std::map] of spans, by its keys. *)
Fixpoint span_insert (s : read_span) (l : list read_span) : list read_span :=
  match l with
  | [] => [s]
  | x :: l' => if span_lt s x then s :: l else x :: span_insert s l'
  end.

Definition want_span (r : reader) (acc : list read_span * Z) (s : read_span) : result exn (list read_span * Z) :=
  let '(pending, staging_bytes) := acc in
  if is_inflight r s || bool_decide (s ∈ pending) then Ok (pending, staging_bytes)
  else if sp_length s >? UINT64_MAX - staging_bytes
  then Err (overflow_error "qwen4exp PLE staging byte count overflows uint64")
  else Ok (span_insert s pending, staging_bytes + sp_length s).

(** The operations of the new spans, with the ids they get. *)
Fixpoint create_operations (spans : list read_span) (r : reader) : list (read_span * positive) * reader :=
  match spans with
  | [] => ([], r)
  | s :: spans =>
      let id := fresh (dom (cells r)) in
      let '(l, r) := create_operations spans (r <| cells ::= <[id := mk_cell s false false None]> |>) in
      ((s, id) :: l, r)
  end.

(** [faults]: how many allocations succeed before one fails, if one does. *)
Definition spend (faults : option nat) : option (option nat) :=
  match faults with None => Some None | Some O => None | Some (S n) => Some (Some n) end.

Fixpoint publish_entries (l : list (read_span * positive)) (faults : option nat) (r : reader)
    : result exn (option nat) * reader :=
  match l with
  | [] => (Ok faults, r)
  | (s, id) :: l =>
      match spend faults with
      | None => (Err bad_alloc, r)
      | Some faults =>
          let r := r <| inflight ::= <[s := id]> |> in
          match spend faults with
          | None => (Err bad_alloc, r)
          | Some faults => publish_entries l faults (r <| queue ::= fun q => q ++ [id] |>)
          end
      end
  end.

(** The futures of the batch: every span has a live operation by now. *)
Fixpoint take_futures (spans : list read_span) (r : reader) : result exn (list positive) :=
  match spans with
  | [] => Ok []
  | s :: spans =>
      match inflight r !! s with
      | None => Err (out_of_range "map::at")
      | Some id =>
          if op_alive r id then let? l := take_futures spans r in Ok (id :: l)
          else Err (logic_error "PLE publication lost its operation")
      end
  end.

Definition register_owner (owner : Z) (t : positive) (faults : option nat) (r : reader) : result exn unit * reader :=
  match (if bool_decide (is_Some (owners r !! owner)) then Some faults else spend faults) with
  | None => (Err bad_alloc, r)
  | Some faults =>
      let r := r <| owners ::= <[owner := default [] (owners r !! owner)]> |> in
      match spend faults with
      | None => (Err bad_alloc, r)
      | Some _ => (Ok tt, r <| owners ::= alter (fun l => l ++ [t]) owner |>)
      end
  end.

(** The [catch] of the publication. *)
Definition unpublish (previous_queue : nat) (new_owner : bool) (owner : Z) (pending : list (read_span * positive)) (r : reader) : reader :=
  let r := r <| queue ::= take previous_queue |> in
  let r := foldl (fun r (e : read_span * positive) =>
      if bool_decide (inflight r !! e.1 = Some e.2) then r <| inflight ::= delete e.1 |> else r) r pending in
  if new_owner then r <| owners ::= delete owner |> else r.

(** The end of [pending] when nothing was published: the operations go. *)
Fixpoint destroy_pending (pending : list (read_span * positive)) (r : reader) : option reader :=
  match pending with
  | [] => Some r
  | (s, id) :: pending =>
      g ← unreserve (sp_length s) (staging r);
      destroy_pending pending (r <| staging := g |> <| cells ::= delete id |>)
  end.

Definition publish_batch (owner : Z) (spans : list read_span) (pending : list (read_span * positive)) (t : positive)
    (faults : option nat) (r : reader) : result exn (list positive) * reader :=
  match publish_entries pending faults r with
  | (Err e, r) => (Err e, r)
  | (Ok faults, r) =>
      match take_futures spans r with
      | Err e => (Err e, r)
      | Ok futures =>
          match register_owner owner t faults r with
          | (Err e, r) => (Err e, r)
          | (Ok _, r) => (Ok futures, r)
          end
      end
  end.

(** Allocations of [submit] before the reservation that can fail: the state of the
    ticket, outside the lock, and the operations with their map, under it. *)
Inductive early_fault := NoFault | TicketFails | OperationFails.
#[export] Instance early_fault_eq_dec : EqDecision early_fault.
Proof. solve_decision. Defined.

Definition submit `{ReaderSizes} (early : early_fault) (faults : option nat) (owner : Z) (spans : list read_span) (r : reader)
    : option (result exn positive * reader) :=
  if (length spans =? 0)%nat then Some (Err (invalid_argument "qwen4exp PLE read batch cannot be empty"), r)
  else match foldM (check_span (source_size r)) spans 0 with
  | Err e => Some (Err e, r)
  | Ok logical_bytes =>
      if bool_decide (early = TicketFails) then Some (Err bad_alloc, r)
      else if stopping r then Some (Err (runtime_error "qwen4exp PLE async reader is stopping"), r)
      else
        let r := purge_owners r in
        match foldM (want_span r) spans ([], 0) with
        | Err e => Some (Err e, r)
        | Ok (wanted, staging_bytes) =>
            if bool_decide (early = OperationFails) then Some (Err bad_alloc, r)
            else match reserve staging_bytes (staging r) with
            | (Err e, g) => Some (Err e, r <| staging := g |>)
            | (Ok _, g) =>
                let '(pending, r) := create_operations wanted (r <| staging := g |>) in
                let previous_queue := length (queue r) in
                let new_owner := negb (bool_decide (is_Some (owners r !! owner))) in
                let t := fresh (dom (tickets r)) in
                match publish_batch owner spans pending t faults r with
                | (Err e, r) =>
                    r ← destroy_pending pending (unpublish previous_queue new_owner owner pending r);
                    Some (Err e, r)
                | (Ok futures, r) =>
                    let count := Z.of_nat (length spans) in
                    let fresh_count := Z.of_nat (length pending) in
                    Some (Ok t, r <| tickets ::= <[t := mk_ticket owner false futures]> |>
                      <| counts ::= fun c => c <| rs_submitted_batches ::= Z.succ |>
                           <| rs_logical_reads ::= Z.add count |> <| rs_logical_bytes ::= Z.add logical_bytes |>
                           <| rs_coalesced_reads ::= Z.add (count - fresh_count) |>
                           <| rs_queued_reads ::= Z.add fresh_count |> |>
                      <| counts ::= fun c => c <| rs_peak_queue_depth ::= fun p =>
                           Z.max p (rs_queued_reads c + rs_active_reads c) |> |>)
                end
            end
        end
  end.

(** ** Workers *)

Definition set_worker (w : nat) (pc : worker) (r : reader) : reader := r <| workers ::= <[w := pc]> |>.

(** No memory for the list of operations: the reads fail. *)
Fixpoint fail_queued `{ReaderSizes} (n : nat) (r : reader) : option reader :=
  match n with
  | O => Some r
  | S n =>
      match queue r with
      | [] => Some r
      | id :: rest =>
          let r := r <| queue := rest |>
            <| counts ::= fun c => c <| rs_queued_reads ::= Z.pred |> <| rs_failed_reads ::= Z.succ |> |> in
          let r := set_result id (Err bad_alloc) (forget_inflight id r) in
          r ← end_operation id r;
          r ← free_cell id r;
          fail_queued n r
      end
  end.

(** A worker wakes up: [None] inside is a wait that goes on. *)
Definition wake_worker `{ReaderSizes} (w : nat) (reserve_fails : bool) (r : reader) : option (option reader) :=
  match queue r with
  | [] => if stopping r then Some (Some (set_worker w Exited r)) else Some None
  | _ =>
      let count := Nat.min (length (queue r)) (max_source_batch_width r) in
      if reserve_fails then r ← fail_queued count r; Some (Some r)
      else
        let batch := take count (queue r) in
        Some (Some (set_worker w (Preparing batch batch) (r <| queue ::= drop count |>
          <| counts ::= fun c => c <| rs_queued_reads ::= fun q => q - Z.of_nat count |>
               <| rs_active_reads ::= Z.add (Z.of_nat count) |> |>)))
  end.

(** The buffer of the next operation of a batch. *)
Definition prepare_buffer `{ReaderSizes} (heap_fails control_fails : bool) (id : positive) (r : reader)
    : option (result exn reader * reader) :=
  match cells r !! id with
  | None => Some (Ok r, r)
  | Some c =>
      let len := sp_length (c_span c) in
      if heap_fails then Some (Err bad_alloc, r)
      else match note_allocated (vec_capacity len) (staging r) with
      | Err e => Some (Err e, r)
      | Ok g =>
          let r := r <| staging := g |> <| cells ::= <[id := c <| c_transferred := true |>]> |> in
          match allocate control_fails control_bytes (sg_controls g) with
          | None =>
              g ← release_buffer (vec_capacity len) len g;
              Some (Err bad_alloc, r <| staging := g |>)
          | Some controls =>
              let r := r <| staging ::= fun g => g <| sg_controls := controls |> |>
                         <| cells ::= alter (fun c => c <| c_buffer := true |>) id |> in
              Some (Ok r, r)
          end
      end
  end.

(** The spans of a batch. *)
Definition spans_of (r : reader) (batch : list positive) : list read_span :=
  omap (fun id => c_span <$> cells r !! id) batch.

(** One step of the part of [worker_loop] outside the lock. *)
Definition prepare_step `{ReaderSizes} (w : nat) (heap_fails control_fails : bool) (read_fails : option exn)
    (batch rest : list positive) (r : reader) : option reader :=
  match rest with
  | [] =>
      let outcome := match read_fails with
                     | Some e => Err e
                     | None => Ok (span_bytes (source_data r) <$> spans_of r batch)
                     end in
      Some (set_worker w (Finishing batch outcome) r)
  | id :: rest =>
      '(x, r) ← prepare_buffer heap_fails control_fails id r;
      match x with
      | Ok _ => Some (set_worker w (Preparing batch rest) r)
      | Err e => Some (set_worker w (Finishing batch (Err e)) r)
      end
  end.

(** The results of a batch under the lock. *)
Fixpoint complete `{ReaderSizes} (batch : list positive) (outcome : result exn (list (list Z))) (r : reader) : option reader :=
  match batch with
  | [] => Some r
  | id :: batch =>
      let len := match cells r !! id with Some c => sp_length (c_span c) | None => 0 end in
      let r := forget_inflight id r in
      match outcome with
      | Err e => complete batch outcome (set_result id (Err e) r)
      | Ok data =>
          let r := r <| counts ::= fun c => c <| rs_source_bytes ::= Z.add len |> |> in
          complete batch (Ok (tail data)) (set_result id (Ok (default [] (head data))) r)
      end
  end.

(** The buffers of a batch that failed go with the list of the worker. *)
Fixpoint drop_buffers `{ReaderSizes} (batch : list positive) (r : reader) : option reader :=
  match batch with
  | [] => Some r
  | id :: batch =>
      match cells r !! id with
      | None => drop_buffers batch r
      | Some c =>
          if c_buffer c
          then g ← drop_buffer (sp_length (c_span c)) (staging r);
               drop_buffers batch (r <| staging := g |> <| cells ::= <[id := c <| c_buffer := false |>]> |>)
          else drop_buffers batch r
      end
  end.

Fixpoint end_operations (batch : list positive) (r : reader) : option reader :=
  match batch with
  | [] => Some r
  | id :: batch => r ← end_operation id r; end_operations batch r
  end.

(** The end of a round of [worker_loop]. *)
Definition finish_step `{ReaderSizes} (w : nat) (batch : list positive) (outcome : result exn (list (list Z))) (r : reader) : option reader :=
  let n := Z.of_nat (length batch) in
  let r := r <| counts ::= fun c => c <| rs_source_batches ::= Z.succ |> <| rs_peak_source_batch_width ::= fun p => Z.max p n |> |> in
  let r := if is_ok outcome then r <| counts ::= fun c => c <| rs_source_reads ::= Z.add n |> |>
           else r <| counts ::= fun c => c <| rs_failed_reads ::= Z.add n |> |> in
  r ← complete batch outcome r;
  r ← (if is_ok outcome then Some r else drop_buffers batch r);
  r ← end_operations batch r;
  let r := set_worker w Idle r in
  r ← free_cells batch r;
  Some (r <| counts ::= fun c => c <| rs_active_reads ::= fun a => a - n |> |>).

(** ** Tickets *)

(** [future.get()] of the [i]th future: [None] inside while it is not ready.  A
    value gives the consumer a name for its copy of the buffer. *)
Definition await (t : positive) (i : nat) (r : reader) : option (option (result exn (positive * list Z) * reader)) :=
  tk ← tickets r !! t;
  id ← t_futures tk !! i;
  c ← cells r !! id;
  match c_result c with
  | None => Some None
  | Some (Err e) => Some (Some (Err e, r))
  | Some (Ok data) =>
      let name := fresh (dom (held r)) in
      Some (Some (Ok (name, data), r <| held ::= <[name := id]> |>))
  end.

(** [ticket::ready]. *)
Definition ticket_ready (t : positive) (r : reader) : bool :=
  match tickets r !! t with
  | None => false
  | Some tk => forallb (fun id => match cells r !! id with Some c => bool_decide (is_Some (c_result c)) | None => false end) (t_futures tk)
  end.

(** [ticket::cancel]. *)
Definition cancel_ticket (t : positive) (r : reader) : reader :=
  r <| tickets ::= alter (fun tk => tk <| t_cancelled := true |>) t |>.

(** The last handle of a ticket goes. *)
Definition drop_ticket `{ReaderSizes} (t : positive) (r : reader) : option reader :=
  match tickets r !! t with
  | None => Some r
  | Some tk => free_cells (t_futures tk) (r <| tickets ::= delete t |>)
  end.

(** A consumer lets go of a buffer. *)
Definition drop_held `{ReaderSizes} (name : positive) (r : reader) : option reader :=
  match held r !! name with
  | None => Some r
  | Some id => free_cell id (r <| held ::= delete name |>)
  end.

(** [cancel_owner]: how many tickets were cancelled by this call. *)
Fixpoint cancel_tickets (l : list positive) (r : reader) : Z * reader :=
  match l with
  | [] => (0, r)
  | t :: l =>
      let hit := match tickets r !! t with Some tk => negb (t_cancelled tk) | None => false end in
      let '(n, r) := cancel_tickets l (if hit then cancel_ticket t r else r) in
      ((if hit then 1 else 0) + n, r)
  end.

Definition cancel_owner (owner : Z) (r : reader) : Z * reader :=
  match owners r !! owner with
  | None => (0, r)
  | Some l =>
      let '(n, r) := cancel_tickets l r in
      (n, r <| counts ::= fun c => c <| rs_cancelled_batches ::= Z.add n |> |> <| owners ::= delete owner |>)
  end.

(** The destructor: the workers finish the queue and stop. *)
Definition stop (r : reader) : reader := r <| stopping := true |>.
