(* ===== verification/AsyncReaderInv.v ===== *)
(** * The asynchronous reader: its invariant

    Which operations are alive, what a cell is worth to the staging budget, and
    that every step keeps the accounts and the promises of the reader. *)

From S2P Require Import Prelude ExpertDescriptor BlockCache AsyncReader.
From stdpp Require Import strings.
Open Scope string_scope.
Open Scope list_scope.
Open Scope Z_scope.

(** ** Operations that are alive *)

Definition active (ws : list worker) : list positive := mjoin (batch_of <$> ws).
Definition live (r : reader) : list positive := queue r ++ active (workers r).

Lemma active_elem ws id : id ∈ active ws <-> exists w, w ∈ ws /\ id ∈ batch_of w.
Proof.
  unfold active. rewrite list_elem_of_join. split.
  - intros (l & Hid & (w & -> & Hw)%list_elem_of_fmap). by exists w.
  - intros (w & Hw & Hid). exists (batch_of w). split; [done|]. by apply list_elem_of_fmap_2.
Qed.

Lemma op_alive_live r id : op_alive r id = true <-> id ∈ live r.
Proof.
  unfold op_alive, live. rewrite orb_true_iff, bool_decide_eq_true, elem_of_app, active_elem, existsb_exists.
  split; (intros [?|(w & Hw & H)]; [by left|right; exists w]).
  - rewrite bool_decide_eq_true in H. by apply list_elem_of_In in Hw.
  - split; [by apply list_elem_of_In|by apply bool_decide_eq_true].
Qed.

Lemma op_alive_false r id : op_alive r id = false <-> id ∉ live r.
Proof. rewrite <- op_alive_live. by destruct (op_alive r id). Qed.

(** Futures and consumers. *)
Definition wanted (r : reader) (id : positive) : Prop :=
  (exists t tk, tickets r !! t = Some tk /\ id ∈ t_futures tk) \/ (exists name, held r !! name = Some id).

Lemma referenced_spec r id : referenced r id = true <-> id ∈ live r \/ wanted r id.
Proof.
  unfold referenced, wanted. rewrite !orb_true_iff, op_alive_live, !existsb_exists. split.
  - intros [[?|([t tk] & Hin & Hb)]|([name x] & Hin & Hb)]; [by left|..]; right; apply bool_decide_eq_true in Hb; simpl in Hb;
      apply list_elem_of_In, elem_of_map_to_list in Hin; [left; by exists t, tk|right; exists name; by subst].
  - intros [?|[(t & tk & Ht & Hid)|(name & Hn)]]; [by left; left|left; right; exists (t, tk)|right; exists (name, id)];
      (split; [by apply list_elem_of_In, elem_of_map_to_list|by apply bool_decide_eq_true]).
Qed.

#[export] Instance needed_dec r id : Decision (id ∈ live r \/ wanted r id).
Proof.
  destruct (referenced r id) eqn:E; [left; by apply referenced_spec|right].
  rewrite <- referenced_spec. by rewrite E.
Defined.

(** A step of one worker. *)
Definition others (w : nat) (ws : list worker) : list positive := active (delete w ws).

Lemma active_split w ws pc : ws !! w = Some pc -> active ws ≡ₚ batch_of pc ++ others w ws.
Proof. intros Hw. unfold active, others. rewrite (delete_Permutation ws w pc Hw) at 1. done. Qed.

Lemma others_set w ws pc : others w (<[w := pc]> ws) = others w ws.
Proof.
  unfold others. f_equal. revert w. induction ws as [|x ws IH]; intros [|w]; simpl; [done..|]. f_equal. apply IH.
Qed.

Lemma active_set w ws pc : (w < length ws)%nat -> active (<[w := pc]> ws) ≡ₚ batch_of pc ++ others w ws.
Proof. intros Hw. rewrite (active_split w _ pc), others_set; [done|]. by apply list_lookup_insert_eq. Qed.

(** ** Accounts *)

Section sizes.
Context `{ReaderSizes}.

(** Shares of a cell in the budget. *)
Definition cell_reserved (_ : positive) (c : cell) : Z :=
  if c_buffer c then sp_length (c_span c) else if c_transferred c then 0 else sp_length (c_span c).
Definition cell_allocated (_ : positive) (c : cell) : Z := if c_buffer c then vec_capacity (sp_length (c_span c)) else 0.
Definition cell_control (_ : positive) (c : cell) : Z := if c_buffer c then control_bytes else 0.

Definition cell_typed (c : cell) : Prop := 0 < sp_length (c_span c) /\ (c_buffer c = true -> c_transferred c = true).

Record accounts (g : staging_budget) (m : gmap positive cell) : Prop := {
  ac_typed : forall id c, m !! id = Some c -> cell_typed c;
  ac_resident : sg_resident g = msum cell_reserved m;
  ac_buffers : sg_allocated g = msum cell_allocated m;
  ac_controls : ac_allocated (sg_controls g) = msum cell_control m;
  ac_resident_bound : sg_resident g <= sg_capacity g /\ sg_peak_resident g <= sg_capacity g;
  ac_buffers_bound : sg_allocated g <= sg_capacity g /\ sg_peak_allocated g <= sg_capacity g;
  ac_controls_bound : ac_allocated (sg_controls g) <= ac_budget (sg_controls g) /\ ac_peak (sg_controls g) <= ac_budget (sg_controls g);
}.

Context `{!ReaderSizesOk}.

Lemma cell_reserved_nonneg id c : cell_typed c -> 0 <= cell_reserved id c.
Proof. intros [? ?]. unfold cell_reserved. repeat case_match; lia. Qed.

Lemma cell_allocated_nonneg id c : cell_typed c -> 0 <= cell_allocated id c.
Proof. intros [Hl ?]. unfold cell_allocated. case_match; [|lia]. pose proof (vec_capacity_ge _ Hl). lia. Qed.

Lemma cell_control_nonneg id c : 0 <= cell_control id c.
Proof. unfold cell_control. pose proof control_bytes_nonneg. case_match; lia. Qed.

Section one.
Context (g : staging_budget) (m : gmap positive cell) (Ha : accounts g m) (id : positive) (c : cell) (Hid : m !! id = Some c).

Lemma share_reserved : cell_reserved id c <= sg_resident g.
Proof.
  rewrite (ac_resident _ _ Ha). apply msum_elem; [done|]. intros k x Hk. by apply cell_reserved_nonneg, (ac_typed _ _ Ha k).
Qed.

Lemma share_allocated : cell_allocated id c <= sg_allocated g.
Proof.
  rewrite (ac_buffers _ _ Ha). apply msum_elem; [done|]. intros k x Hk. by apply cell_allocated_nonneg, (ac_typed _ _ Ha k).
Qed.

Lemma share_control : cell_control id c <= ac_allocated (sg_controls g).
Proof. rewrite (ac_controls _ _ Ha). apply msum_elem; [done|]. intros. apply cell_control_nonneg. Qed.

(** A buffer can be dropped; what is left is worth nothing to the budget. *)
Lemma drop_buffer_ok : c_buffer c = true ->
  exists g', drop_buffer (sp_length (c_span c)) g = Some g' /\ sg_capacity g' = sg_capacity g /\
    accounts g' (<[id := c <| c_buffer := false |>]> m) /\ accounts g' (delete id m).
Proof.
  intros Hb. pose proof share_reserved as H1. pose proof share_allocated as H2. pose proof share_control as H3.
  pose proof (ac_typed _ _ Ha _ _ Hid) as [Hpos Ht]. specialize (Ht Hb).
  unfold cell_reserved, cell_allocated, cell_control in *. rewrite Hb in *.
  unfold drop_buffer, release_buffer. replace ((_ >? _) || (_ >? _)) with false by lia. simpl.
  unfold deallocate. replace (_ >? _) with false by lia. simpl. eexists. split; [done|]. split; [done|].
  pose proof (vec_capacity_ge _ Hpos). pose proof control_bytes_nonneg. pose proof Ha as [].
  assert (accounts ((g <| sg_allocated ::= fun x => x - vec_capacity (sp_length (c_span c)) |>
     <| sg_resident ::= fun x => x - sp_length (c_span c) |>) <| sg_controls := (sg_controls g) <| ac_allocated ::= fun x => x - control_bytes |> |>) (delete id m)) as Hdel.
  { split; simpl; try lia.
    - intros k x [_ Hk]%lookup_delete_Some. eauto.
    - rewrite (msum_delete _ _ _ _ Hid). unfold cell_reserved at 2. rewrite Hb. lia.
    - rewrite (msum_delete _ _ _ _ Hid). unfold cell_allocated at 2. rewrite Hb. lia.
    - rewrite (msum_delete _ _ _ _ Hid). unfold cell_control at 2. rewrite Hb. lia. }
  split; [|done]. pose proof Hdel as []. rewrite <- insert_delete_eq.
  split; simpl in *; try done; rewrite ?msum_insert by (by rewrite lookup_delete_eq).
  - intros k x [[<- <-]|[_ Hk]]%lookup_insert_Some; [by split|eauto].
  - unfold cell_reserved at 1. simpl. rewrite Ht. lia.
  - unfold cell_allocated at 1. simpl. lia.
  - unfold cell_control at 1. simpl. lia.
Qed.

(** The reservation of an operation ends. *)
Lemma unreserve_ok : c_transferred c = false ->
  exists g', unreserve (sp_length (c_span c)) g = Some g' /\ sg_capacity g' = sg_capacity g /\
    accounts g' (<[id := c <| c_transferred := true |>]> m) /\ accounts g' (delete id m).
Proof.
  intros Ht. pose proof share_reserved as H1. pose proof (ac_typed _ _ Ha _ _ Hid) as [Hpos Hbt].
  assert (c_buffer c = false) as Hb by (destruct (c_buffer c); [|done]; specialize (Hbt eq_refl); congruence).
  unfold cell_reserved in H1. rewrite Hb, Ht in H1. unfold unreserve. replace (_ >? _) with false by lia.
  eexists. split; [done|]. split; [done|]. pose proof Ha as [].
  assert (accounts (g <| sg_resident ::= fun x => x - sp_length (c_span c) |>) (delete id m)) as Hdel.
  { split; simpl; try lia; try done.
    - intros k x [_ Hk]%lookup_delete_Some. eauto.
    - rewrite (msum_delete _ _ _ _ Hid). unfold cell_reserved at 2. rewrite Hb, Ht. lia.
    - rewrite (msum_delete _ _ _ _ Hid). unfold cell_allocated at 2. rewrite Hb. lia.
    - rewrite (msum_delete _ _ _ _ Hid). unfold cell_control at 2. rewrite Hb. lia. }
  split; [|done]. pose proof Hdel as []. rewrite <- insert_delete_eq.
  split; simpl in *; try done; rewrite ?msum_insert by (by rewrite lookup_delete_eq).
  - intros k x [[<- <-]|[_ Hk]]%lookup_insert_Some; [by split|eauto].
  - unfold cell_reserved at 1. simpl. rewrite Hb. lia.
  - unfold cell_allocated at 1. simpl. rewrite Hb. lia.
  - unfold cell_control at 1. simpl. rewrite Hb. lia.
Qed.

(** A cell that is worth nothing can go, and results do not count. *)
Lemma accounts_delete : c_buffer c = false -> c_transferred c = true -> accounts g (delete id m).
Proof.
  intros Hb Ht. pose proof Ha as []. split; try done.
  - intros k x [_ Hk]%lookup_delete_Some. eauto.
  - rewrite (msum_delete _ _ _ _ Hid). unfold cell_reserved at 2. rewrite Hb, Ht. lia.
  - rewrite (msum_delete _ _ _ _ Hid). unfold cell_allocated at 2. rewrite Hb. lia.
  - rewrite (msum_delete _ _ _ _ Hid). unfold cell_control at 2. rewrite Hb. lia.
Qed.

Lemma accounts_same c' : c_span c' = c_span c -> c_buffer c' = c_buffer c -> c_transferred c' = c_transferred c ->
  accounts g (<[id := c']> m).
Proof.
  intros Hs Hb Ht. pose proof Ha as []. rewrite <- insert_delete_eq.
  split; try done; rewrite ?msum_insert, ?(msum_delete _ _ _ _ Hid) by (by rewrite lookup_delete_eq).
  - intros k x [[<- <-]|[_ Hk]]%lookup_insert_Some; [unfold cell_typed; rewrite Hs, Hb, Ht; exact (ac_typed0 _ _ Hid)|].
    apply lookup_delete_Some in Hk as [_ Hk]. eauto.
  - unfold cell_reserved at 1 3. rewrite Hs, Hb, Ht. lia.
  - unfold cell_allocated at 1 3. rewrite Hs, Hb. lia.
  - unfold cell_control at 1 3. rewrite Hb. lia.
Qed.
End one.
End sizes.

(** ** The invariant *)

Definition fresh_at (m : gmap positive cell) (id : positive) : Prop :=
  exists c, m !! id = Some c /\ c_transferred c = false /\ c_buffer c = false.
Definition buffered_at (m : gmap positive cell) (id : positive) : Prop := exists c, m !! id = Some c /\ c_buffer c = true.
Definition reads_at (data : list Z) (m : gmap positive cell) (id : positive) (bytes : list Z) : Prop :=
  exists c, m !! id = Some c /\ bytes = span_bytes data (c_span c).

(** What a worker has done so far. *)
Definition worker_ok (data : list Z) (m : gmap positive cell) (pc : worker) : Prop :=
  match pc with
  | Preparing batch rest => exists done, batch = done ++ rest /\ Forall (buffered_at m) done /\ Forall (fresh_at m) rest
  | Finishing batch (Ok bytes) => Forall (buffered_at m) batch /\ Forall2 (reads_at data m) batch bytes
  | _ => True
  end.

(** A read that is over. *)
Definition settled (data : list Z) (c : cell) : Prop :=
  c_transferred c = true /\
  match c_result c with
  | Some (Ok bytes) => bytes = span_bytes data (c_span c) /\ c_buffer c = true
  | Some (Err _) => c_buffer c = false
  | None => False
  end.

Definition span_ok (data : list Z) (s : read_span) : Prop :=
  0 <= sp_offset s /\ 0 < sp_length s /\ sp_offset s + sp_length s <= Z.of_nat (length data).

Record reader_ok `{ReaderSizes} (r : reader) : Prop := {
  ro_nodup : NoDup (live r);
  ro_live : forall id, id ∈ live r -> exists c, cells r !! id = Some c /\ inflight r !! c_span c = Some id /\ c_result c = None;
  ro_inflight : forall s id, inflight r !! s = Some id -> id ∈ live r /\ exists c, cells r !! id = Some c /\ c_span c = s;
  ro_dead : forall id c, cells r !! id = Some c -> id ∉ live r -> settled (source_data r) c /\ wanted r id;
  ro_queue : Forall (fresh_at (cells r)) (queue r);
  ro_workers : Forall (worker_ok (source_data r) (cells r)) (workers r);
  ro_tickets : forall t tk id, tickets r !! t = Some tk -> id ∈ t_futures tk -> is_Some (cells r !! id);
  ro_held : forall name id, held r !! name = Some id -> exists c bytes, cells r !! id = Some c /\ c_result c = Some (Ok bytes);
  ro_spans : forall id c, cells r !! id = Some c -> span_ok (source_data r) (c_span c);
  ro_accounts : accounts (staging r) (cells r);
  ro_counts : rs_queued_reads (counts r) = Z.of_nat (length (queue r)) /\
    rs_active_reads (counts r) = Z.of_nat (length (active (workers r)));
  ro_width : (0 < max_source_batch_width r)%nat /\ (0 < length (workers r))%nat;
}.

(** Fields that reads leave alone. *)
Definition frame (r r' : reader) : Prop :=
  source_data r' = source_data r /\ queue r' = queue r /\ tickets r' = tickets r /\ owners r' = owners r /\
  held r' = held r /\ workers r' = workers r /\ stopping r' = stopping r /\
  max_source_batch_width r' = max_source_batch_width r.

#[export] Instance frame_preorder : PreOrder frame.
Proof. split; [done|]. unfold frame. intros x y z ?. intuition congruence. Qed.

Lemma frame_live r r' : frame r r' -> live r' = live r.
Proof. intros (?&Hq&?&?&?&Hw&?). unfold live. by rewrite Hq, Hw. Qed.

Lemma frame_wanted r r' id : frame r r' -> wanted r' id <-> wanted r id.
Proof. intros (?&?&Ht&?&Hh&?). unfold wanted. by rewrite Ht, Hh. Qed.

Lemma worker_ok_ext data m m' pc : (forall id, id ∈ batch_of pc -> m' !! id = m !! id) -> worker_ok data m pc -> worker_ok data m' pc.
Proof.
  intros Hm. destruct pc as [|batch rest|batch [bytes|e]|]; simpl in *; try done.
  - intros (dn & -> & Hd & Hr). exists dn. split; [done|]. rewrite !Forall_forall in *.
    split; intros id Hid; [destruct (Hd id Hid) as (c & Hc & ?)|destruct (Hr id Hid) as (c & Hc & ?)]; exists c;
      (rewrite Hm; [done|set_solver]).
  - intros [Hb Hr]. split.
    + rewrite Forall_forall in *. intros id Hid. destruct (Hb id Hid) as (c & Hc & ?). exists c. by rewrite Hm.
    + apply Forall2_same_length_lookup in Hr as [Hlen Hr]. apply Forall2_same_length_lookup. split; [done|].
      intros i id bs Hi Hbs. destruct (Hr i id bs Hi Hbs) as (c & Hc & ->). exists c. rewrite Hm; [done|].
      by eapply list_elem_of_lookup_2.
Qed.

(** ** Loops over a batch *)

Ltac member_cases := repeat case_decide; try done; exfalso; set_solver.

Lemma alter_as_insert {A} (f : A -> A) (m : gmap positive A) i x : m !! i = Some x -> alter f i m = <[i := f x]> m.
Proof.
  intros Hi. apply map_eq. intros j. destruct (decide (i = j)) as [<-|Hne].
  - by rewrite lookup_alter_eq, lookup_insert_eq, Hi.
  - by rewrite lookup_alter_ne, lookup_insert_ne.
Qed.

Section loops.
Context `{ReaderSizes, !ReaderSizesOk}.

Lemma set_result_accounts id v r : accounts (staging r) (cells r) -> accounts (staging r) (cells (set_result id v r)).
Proof.
  intros Ha. unfold set_result. simpl. destruct (cells r !! id) as [c|] eqn:E.
  - rewrite (alter_as_insert _ _ _ _ E). by apply (accounts_same (staging r) (cells r) Ha id c E).
  - by rewrite alter_id'.
Qed.

Lemma forget_inflight_spec id r c : cells r !! id = Some c ->
  frame r (forget_inflight id r) /\ cells (forget_inflight id r) = cells r /\ staging (forget_inflight id r) = staging r /\
  counts (forget_inflight id r) = counts r /\
  forall s id', inflight (forget_inflight id r) !! s = Some id' <-> inflight r !! s = Some id' /\ ~ (s = c_span c /\ id' = id).
Proof.
  intros Hc. unfold forget_inflight. rewrite Hc. case_bool_decide as Hi; simpl; split_and!; try done; intros s id'.
  - rewrite lookup_delete_Some. split; [naive_solver|]. intros [Hs Hn]. split; [|done]. intros <-. naive_solver.
  - naive_solver.
Qed.

(** Results of a batch: only results and [inflight] change. *)
Lemma complete_spec batch outcome r :
  NoDup batch -> (forall id, id ∈ batch -> is_Some (cells r !! id)) ->
  (forall bytes, outcome = Ok bytes -> length bytes = length batch) -> accounts (staging r) (cells r) ->
  exists r', complete batch outcome r = Some r' /\ frame r r' /\ staging r' = staging r /\ accounts (staging r') (cells r') /\
    rs_queued_reads (counts r') = rs_queued_reads (counts r) /\ rs_active_reads (counts r') = rs_active_reads (counts r) /\
    (forall id, id ∉ batch -> cells r' !! id = cells r !! id) /\
    (forall i id c, batch !! i = Some id -> cells r !! id = Some c -> exists v, cells r' !! id = Some (c <| c_result := Some v |>) /\
       match outcome with Ok bytes => Ok <$> bytes !! i = Some v | Err e => v = Err e end) /\
    (forall s id, inflight r' !! s = Some id <->
       inflight r !! s = Some id /\ ~ (id ∈ batch /\ exists c, cells r !! id = Some c /\ c_span c = s)).
Proof.
  revert outcome r. induction batch as [|id batch IH]; intros outcome r Hnd Hin Hlen Ha.
  - exists r. simpl. split_and!; try done. intros s id. rewrite elem_of_nil. naive_solver.
  - apply NoDup_cons in Hnd as [Hid Hnd]. destruct (Hin id ltac:(set_solver)) as [c Hc].
    destruct (forget_inflight_spec id r c Hc) as (Hf & Hcells & Hst & Hcn & Hinf).
    set (r0 := forget_inflight id r) in *.
    set (rest := match outcome with Ok bytes => Ok (tail bytes) | Err e => Err e end).
    set (v := match outcome with Ok bytes => Ok (default [] (head bytes)) | Err e => Err e end).
    set (r1 := set_result id v (if is_ok outcome then r0 <| counts ::= fun k => k <| rs_source_bytes ::= Z.add (sp_length (c_span c)) |> |> else r0)).
    assert (complete (id :: batch) outcome r = complete batch rest r1) as ->.
    { simpl. rewrite Hc. unfold r1, v, rest. by destruct outcome. }
    assert (frame r r1) as Hf1 by (unfold r1, set_result; destruct (is_ok outcome); exact Hf).
    assert (cells r1 = <[id := c <| c_result := Some v |>]> (cells r)) as Hc1.
    { unfold r1, set_result. destruct (is_ok outcome); simpl; rewrite Hcells; by apply alter_as_insert. }
    assert (inflight r1 = inflight r0) as Hi1 by (unfold r1, set_result; by destruct (is_ok outcome)).
    assert (staging r1 = staging r) as Hs1 by (unfold r1, set_result; destruct (is_ok outcome); simpl; done).
    assert (rs_queued_reads (counts r1) = rs_queued_reads (counts r) /\ rs_active_reads (counts r1) = rs_active_reads (counts r)) as [Hk1 Hk2].
    { unfold r1, set_result. destruct (is_ok outcome); simpl; by rewrite Hcn. }
    destruct (IH rest r1) as (r' & Hr' & Hf' & Hst' & Ha' & Hq' & Hact' & Hout & Hres & Hinf').
    + done.
    + intros id' Hid'. rewrite Hc1, lookup_insert_ne by set_solver. apply Hin. set_solver.
    + unfold rest. intros bytes Hb. destruct outcome as [bs|]; [|done]. injection Hb as <-. specialize (Hlen _ eq_refl).
      destruct bs; simpl in *; lia.
    + rewrite Hs1, Hc1. by apply (accounts_same (staging r) (cells r) Ha id c Hc).
    + exists r'. split; [done|]. split; [by transitivity r1|]. split_and!; [congruence|done|congruence|congruence|..].
      * intros id' Hid'. rewrite Hout by set_solver. rewrite Hc1, lookup_insert_ne by set_solver. done.
      * intros [|i] id' c' Hi Hc'; simpl in Hi.
        -- simplify_eq. exists v. rewrite Hout, Hc1, lookup_insert_eq by done. split; [done|]. unfold v.
           destruct outcome as [bs|]; [|done]. specialize (Hlen _ eq_refl). by destruct bs.
        -- assert (id' <> id) by (intros ->; apply Hid; by eapply list_elem_of_lookup_2).
           destruct (Hres i id' c' Hi) as (v' & Hv' & Hm); [by rewrite Hc1, lookup_insert_ne|].
           exists v'. split; [done|]. unfold rest in Hm. destruct outcome as [[|b bs]|]; [by specialize (Hlen _ eq_refl)|exact Hm|exact Hm].
      * intros s id'. rewrite Hinf', Hi1, Hinf. split.
        -- intros [[H1 H2] H3]. split; [done|]. intros [Hin' (c' & Hc' & <-)]. apply elem_of_cons in Hin' as [->|Hin']; [naive_solver|].
           apply H3. split; [done|]. exists c'. rewrite Hc1, lookup_insert_ne by set_solver. done.
        -- intros [H1 H2]. split_and!; [done| |].
           ++ intros [-> ->]. apply H2. split; [set_solver|]. by exists c.
           ++ intros [Hin' (c' & Hc' & <-)]. apply H2. split; [set_solver|]. exists c'.
              rewrite Hc1, lookup_insert_ne in Hc' by set_solver. done.
Qed.

(** Everything but cells and staging. *)
Definition cells_only (r r' : reader) : Prop := frame r r' /\ inflight r' = inflight r /\ counts r' = counts r.

Lemma cells_only_trans r r1 r2 : cells_only r r1 -> cells_only r1 r2 -> cells_only r r2.
Proof. intros (Hf & ? & ?) (Hf' & ? & ?). split; [by transitivity r1|]. split; congruence. Qed.

Lemma drop_buffers_spec batch r : accounts (staging r) (cells r) ->
  exists r', drop_buffers batch r = Some r' /\ cells_only r r' /\ accounts (staging r') (cells r') /\
    forall id, cells r' !! id = if decide (id ∈ batch) then (fun c => c <| c_buffer := false |>) <$> cells r !! id else cells r !! id.
Proof.
  revert r. induction batch as [|id batch IH]; intros r Ha; [by exists r|]. simpl.
  destruct (cells r !! id) as [c|] eqn:Hc; [destruct (c_buffer c) eqn:Hb|].
  - destruct (drop_buffer_ok _ _ Ha id c Hc Hb) as (g & -> & _ & Hg & _). simpl.
    match goal with |- context [drop_buffers batch ?x] => set (r1 := x) end.
    destruct (IH r1 Hg) as (r' & -> & Ho & Ha' & Hm).
    exists r'. split_and!; [done|done|done|]. intros id'. rewrite Hm. simpl. destruct (decide (id' = id)) as [->|Hne].
    + rewrite lookup_insert_eq, Hc. member_cases.
    + rewrite lookup_insert_ne by done. member_cases.
  - destruct (IH r Ha) as (r' & -> & Ho & Ha' & Hm). exists r'. split_and!; [done|done|done|].
    intros id'. rewrite Hm. destruct (decide (id' = id)) as [->|Hne]; [|member_cases].
    rewrite Hc. destruct c. simpl in *. subst. member_cases.
  - destruct (IH r Ha) as (r' & -> & Ho & Ha' & Hm). exists r'. split_and!; [done|done|done|].
    intros id'. rewrite Hm. destruct (decide (id' = id)) as [->|Hne]; [|member_cases].
    rewrite Hc. member_cases.
Qed.

Lemma end_operation_spec id r : accounts (staging r) (cells r) ->
  exists r', end_operation id r = Some r' /\ cells_only r r' /\ accounts (staging r') (cells r') /\
    forall id', cells r' !! id' = if decide (id' = id) then (fun c => c <| c_transferred := true |>) <$> cells r !! id else cells r !! id'.
Proof.
  intros Ha. unfold end_operation. destruct (cells r !! id) as [c|] eqn:Hc; [destruct (c_transferred c) eqn:Ht|].
  - exists r. split_and!; try done. intros id'. case_decide; [subst|done]. rewrite Hc. destruct c. simpl in *. by subst.
  - destruct (unreserve_ok _ _ Ha id c Hc Ht) as (g & -> & _ & Hg & _). simpl. eexists. split; [done|]. split_and!; try done.
    intros id'. simpl. case_decide; [subst; by rewrite lookup_insert_eq|by rewrite lookup_insert_ne].
  - exists r. split_and!; try done. intros id'. case_decide; [by subst|done].
Qed.

Lemma end_operations_spec batch r : accounts (staging r) (cells r) ->
  exists r', end_operations batch r = Some r' /\ cells_only r r' /\ accounts (staging r') (cells r') /\
    forall id, cells r' !! id = if decide (id ∈ batch) then (fun c => c <| c_transferred := true |>) <$> cells r !! id else cells r !! id.
Proof.
  revert r. induction batch as [|id batch IH]; intros r Ha; [by exists r|]. simpl.
  destruct (end_operation_spec id r Ha) as (r1 & -> & Ho1 & Ha1 & Hm1). simpl.
  destruct (IH r1 Ha1) as (r' & -> & Ho & Ha' & Hm). exists r'. split_and!; [done|by eapply cells_only_trans|done|].
  intros id'. rewrite Hm, Hm1. destruct (decide (id' = id)) as [->|Hne].
  - destruct (cells r !! id); member_cases.
  - member_cases.
Qed.

Lemma free_cell_spec id r : accounts (staging r) (cells r) ->
  (forall c, cells r !! id = Some c -> referenced r id = false -> c_transferred c = true) ->
  exists r', free_cell id r = Some r' /\ cells_only r r' /\ accounts (staging r') (cells r') /\
    forall id', cells r' !! id' = if decide (id' = id /\ referenced r id = false) then None else cells r !! id'.
Proof.
  intros Ha Ht. unfold free_cell. destruct (cells r !! id) as [c|] eqn:Hc; [destruct (referenced r id) eqn:Hr|].
  - exists r. split_and!; try done. intros id'. by rewrite decide_False by naive_solver.
  - specialize (Ht c eq_refl eq_refl). destruct (c_buffer c) eqn:Hb.
    + destruct (drop_buffer_ok _ _ Ha id c Hc Hb) as (g & -> & _ & _ & Hg). simpl. eexists. split; [done|]. split_and!; try done.
      intros id'. simpl. case_decide as Hd; [destruct Hd as [-> _]; by rewrite lookup_delete_eq|]. rewrite lookup_delete_ne; [done|naive_solver].
    + simpl. eexists. split; [done|]. split_and!; try done; [by apply (accounts_delete _ _ Ha id c Hc)|].
      intros id'. simpl. case_decide as Hd; [destruct Hd as [-> _]; by rewrite lookup_delete_eq|]. rewrite lookup_delete_ne; [done|naive_solver].
  - exists r. split_and!; try done. intros id'. case_decide as Hd; [|done]. destruct Hd as [-> _]. done.
Qed.

Lemma referenced_frame r r' id : frame r r' -> referenced r' id = referenced r id.
Proof.
  intros Hf. apply eq_bool_prop_intro. rewrite !Is_true_true, !referenced_spec. by rewrite (frame_live _ _ Hf), (frame_wanted _ _ id Hf).
Qed.

Lemma free_cells_spec ids r : accounts (staging r) (cells r) ->
  (forall id c, id ∈ ids -> cells r !! id = Some c -> referenced r id = false -> c_transferred c = true) ->
  exists r', free_cells ids r = Some r' /\ cells_only r r' /\ accounts (staging r') (cells r') /\
    forall id, cells r' !! id = if decide (id ∈ ids /\ referenced r id = false) then None else cells r !! id.
Proof.
  revert r. induction ids as [|id ids IH]; intros r Ha Ht.
  - by exists r.
  - simpl. destruct (free_cell_spec id r Ha) as (r1 & -> & Ho1 & Ha1 & Hm1); [intros c; apply Ht; set_solver|]. simpl.
    pose proof Ho1 as (Hf1 & _). destruct (IH r1 Ha1) as (r' & -> & Ho & Ha' & Hm).
    + intros id' c Hid' Hc. rewrite (referenced_frame _ _ id' Hf1). apply Ht; [set_solver|]. rewrite Hm1 in Hc. by case_decide.
    + exists r'. split_and!; [done|by eapply cells_only_trans|done|]. intros id'. rewrite Hm, Hm1, (referenced_frame _ _ id' Hf1).
      destruct (decide (id' = id)) as [->|Hne]; [|member_cases].
      destruct (referenced r id) eqn:E; member_cases.
Qed.
End loops.
