(* ===== verification/AsyncReaderSteps.v ===== *)
(** * The asynchronous reader: every step keeps the invariant

    Workers, tickets and consumers; submission is in [AsyncReaderSubmit]. *)

From S2P Require Import Prelude ExpertDescriptor BlockCache AsyncReader AsyncReaderInv.
From stdpp Require Import strings.
Open Scope string_scope.
Open Scope list_scope.
Open Scope Z_scope.

(** ** What a step leaves to the holders of tickets *)

(** A cell that is still wanted keeps its span and its result. *)
Definition keeps (r r' : reader) : Prop :=
  (forall id c, cells r !! id = Some c -> wanted r' id ->
     exists c', cells r' !! id = Some c' /\ c_span c' = c_span c /\ forall v, c_result c = Some v -> c_result c' = Some v) /\
  (forall t tk tk', tickets r !! t = Some tk -> tickets r' !! t = Some tk' -> t_futures tk' = t_futures tk) /\
  source_data r' = source_data r.

Section steps.
Context `{ReaderSizes, !ReaderSizesOk}.

Lemma live_wanted_cell r id : reader_ok r -> id ∈ live r \/ wanted r id -> is_Some (cells r !! id).
Proof.
  intros Hr [Hl|[(t & tk & Ht & Hid)|(name & Hn)]].
  - destruct (ro_live _ Hr id Hl) as (c & Hc & _). by eexists.
  - by eapply (ro_tickets _ Hr).
  - destruct (ro_held _ Hr _ _ Hn) as (c & ? & Hc & _). by eexists.
Qed.

Lemma reference_needed r id : reader_ok r -> is_Some (cells r !! id) -> id ∈ live r \/ wanted r id.
Proof.
  intros Hr [c Hc]. destruct (decide (id ∈ live r)) as [?|Hn]; [by left|right]. by apply (ro_dead _ Hr id c Hc Hn).
Qed.

(** Operations [batch] end: the queue and the workers no longer hold them. *)
Section retire.
Context (r r4 : reader) (batch : list positive) (k : read_stats).
Context (Hr : reader_ok r) (Hlive : live r ≡ₚ batch ++ live r4).
Context (Hsrc : source_data r4 = source_data r) (Htk : tickets r4 = tickets r) (Hheld : held r4 = held r).
Context (Hwidth : max_source_batch_width r4 = max_source_batch_width r) (Hlen : length (workers r4) = length (workers r)).
Context (Hother : forall id, id ∉ batch -> cells r4 !! id = cells r !! id).
Context (Hdone : forall id, id ∈ batch -> exists c c4, cells r !! id = Some c /\ cells r4 !! id = Some c4 /\
  c_span c4 = c_span c /\ settled (source_data r) c4).
Context (Hinf : forall s id, inflight r4 !! s = Some id <-> inflight r !! s = Some id /\ id ∉ batch).
Context (Hacc : accounts (staging r4) (cells r4)).
Context (Hq : forall id, id ∈ queue r4 -> id ∈ queue r).
Context (Hws : forall pc, pc ∈ workers r4 -> pc ∈ workers r \/ pc = Idle).
Context (Hk : rs_queued_reads k = Z.of_nat (length (queue r4)) /\ rs_active_reads k = Z.of_nat (length (active (workers r4)))).

Lemma retire_live id : id ∈ live r <-> id ∈ batch \/ id ∈ live r4.
Proof. by rewrite Hlive, elem_of_app. Qed.

Lemma retired_disjoint id : id ∈ batch -> id ∈ live r4 -> False.
Proof.
  intros Hb Hl. pose proof (ro_nodup _ Hr) as Hnd. rewrite Hlive in Hnd. apply NoDup_app in Hnd as (_ & Hd & _). by eapply Hd.
Qed.

Lemma retire_ok : exists r5, free_cells batch r4 = Some r5 /\ reader_ok (r5 <| counts := k |>) /\ keeps r r5 /\ cells_only r4 r5 /\
  forall id, cells r5 !! id = if decide (id ∈ batch /\ ~ (id ∈ live r4 \/ wanted r4 id)) then None else cells r4 !! id.
Proof.
  assert (forall id, wanted r4 id <-> wanted r id) as Hwant by (intros id; unfold wanted; by rewrite Htk, Hheld).
  destruct (free_cells_spec batch r4 Hacc) as (r5 & Hf & Hco & Hacc5 & Hm).
  { intros id c Hb Hc _. destruct (Hdone id Hb) as (? & c4 & _ & Hc4 & _ & [Ht _]). congruence. }
  assert (forall id, cells r5 !! id = if decide (id ∈ batch /\ ~ (id ∈ live r4 \/ wanted r4 id)) then None else cells r4 !! id) as Hm5.
  { intros id. rewrite Hm. pose proof (referenced_spec r4 id) as Hsp. destruct (referenced r4 id); repeat case_decide; try done; naive_solver. }
  exists r5. split; [done|]. pose proof Hco as (Hfr & Hinf5 & _). pose proof (frame_live _ _ Hfr) as Hl5.
  pose proof Hfr as (Hs5 & Hq5 & Ht5 & _ & Hh5 & Hw5 & _ & Hwd5).
  assert (forall id, wanted r5 id <-> wanted r id) as Hwant5 by (intros id; by rewrite (frame_wanted _ _ id Hfr)).
  assert (forall id, id ∈ live r4 -> cells r5 !! id = cells r !! id) as Hcl.
  { intros id Hid. rewrite Hm5, decide_False by naive_solver. apply Hother. intros Hb. by eapply retired_disjoint. }
  assert (forall id, id ∈ live r4 -> id ∈ live r) as Hsub by (intros id; rewrite retire_live; by right).
  split; [|split; [|done]].
  - split; unfold live in *; simpl; rewrite ?Hq5, ?Hw5, ?Ht5, ?Hh5, ?Hs5, ?Hwd5, ?Hinf5 in *; fold (live r4) in *.
    + pose proof (ro_nodup _ Hr) as Hnd. rewrite Hlive in Hnd. by apply NoDup_app in Hnd as (_ & _ & ?).
    + intros id Hid. destruct (ro_live _ Hr id (Hsub id Hid)) as (c & Hc & Hi & Hres). exists c. rewrite Hcl by done.
      split_and!; [done| |done]. apply Hinf. split; [done|]. intros Hb. by eapply retired_disjoint.
    + intros s id [Hi Hb]%Hinf. destruct (ro_inflight _ Hr s id Hi) as (Hl & c & Hc & Hs). apply retire_live in Hl as [?|Hl]; [done|].
      split; [done|]. exists c. by rewrite Hcl.
    + intros id c Hc Hnl. rewrite Hm5 in Hc. case_decide as Hd; [done|]. rewrite Hsrc.
      enough (settled (source_data r) c /\ wanted r id) as [? ?] by (split; [done|by apply Hwant5]). destruct (decide (id ∈ batch)) as [Hb|Hb].
      * destruct (Hdone id Hb) as (? & c4 & _ & Hc4 & _ & Hset). simplify_eq. split; [done|].
        destruct (decide (id ∈ live r4 \/ wanted r4 id)) as [[?|?]|?]; [done|by apply Hwant|naive_solver].
      * rewrite Hother in Hc by done. apply (ro_dead _ Hr id c Hc). rewrite retire_live. naive_solver.
    + rewrite Forall_forall. intros id Hid. pose proof (ro_queue _ Hr) as Hfq. rewrite Forall_forall in Hfq.
      destruct (Hfq id (Hq id Hid)) as (c & Hc & ?). exists c. rewrite Hcl; [done|]. unfold live. set_solver.
    + rewrite Hsrc, Forall_forall. intros pc Hpc. destruct (Hws pc Hpc) as [Hpc'| ->]; [|done].
      pose proof (ro_workers _ Hr) as Hfw. rewrite Forall_forall in Hfw. apply (worker_ok_ext _ (cells r)); [|by apply Hfw].
      intros id Hid. apply Hcl. unfold live. rewrite elem_of_app, active_elem. right. by exists pc.
    + rewrite Htk. intros t tk id Ht Hid. assert (wanted r id) as Hw by (left; by exists t, tk).
      rewrite Hm5, decide_False by (rewrite Hwant; naive_solver).
      destruct (decide (id ∈ batch)) as [Hb|Hb]; [destruct (Hdone id Hb) as (? & c4 & _ & Hc4 & _); by eexists|].
      rewrite Hother by done. by eapply (ro_tickets _ Hr).
    + rewrite Hheld. intros name id Hn. assert (wanted r id) as Hw by (right; by exists name).
      rewrite Hm5, decide_False by (rewrite Hwant; naive_solver). destruct (ro_held _ Hr _ _ Hn) as (c & bytes & Hc & Hres).
      assert (id ∉ batch) as Hb.
      { intros Hb. destruct (ro_live _ Hr id) as (c' & Hc' & _ & Hres'); [apply retire_live; by left|]. congruence. }
      exists c, bytes. by rewrite Hother.
    + rewrite Hsrc. intros id c Hc. rewrite Hm5 in Hc. case_decide; [done|].
      destruct (decide (id ∈ batch)) as [Hb|Hb]; [|rewrite Hother in Hc by done; by eapply (ro_spans _ Hr)].
      destruct (Hdone id Hb) as (c0 & c4 & Hc0 & Hc4 & Hs & _). simplify_eq. rewrite Hs. by eapply (ro_spans _ Hr).
    + done.
    + done.
    + rewrite Hwidth, Hlen. apply (ro_width _ Hr).
  - split_and!; [|rewrite Ht5, Htk; naive_solver congruence|congruence]. intros id c Hc Hw%Hwant5.
    rewrite Hm5, decide_False by (rewrite Hwant; naive_solver).
    destruct (decide (id ∈ batch)) as [Hb|Hb]; [|rewrite Hother by done; naive_solver].
    destruct (Hdone id Hb) as (c0 & c4 & Hc0 & Hc4 & Hs & _). simplify_eq. exists c4. split_and!; try done.
    intros v Hv. destruct (ro_live _ Hr id) as (c' & Hc' & _ & Hres'); [apply retire_live; by left|]. congruence.
Qed.
End retire.

(** ** Workers *)

Lemma worker_batch r w pc : reader_ok r -> workers r !! w = Some pc ->
  live r ≡ₚ batch_of pc ++ queue r ++ others w (workers r) /\ NoDup (batch_of pc) /\
  (forall id, id ∈ batch_of pc -> id ∈ live r) /\ worker_ok (source_data r) (cells r) pc.
Proof.
  intros Hr Hw. assert (live r ≡ₚ batch_of pc ++ queue r ++ others w (workers r)) as Hl.
  { unfold live. rewrite (active_split w _ pc Hw). by rewrite !app_assoc, (Permutation_app_comm (queue r)). }
  split_and!; [done| | |].
  - pose proof (ro_nodup _ Hr) as Hnd. rewrite Hl in Hnd. by apply NoDup_app in Hnd as (? & _ & _).
  - intros id Hid. rewrite Hl. set_solver.
  - pose proof (ro_workers _ Hr) as Hf. rewrite Forall_lookup in Hf. by eapply Hf.
Qed.

Lemma set_worker_live r w pc : (w < length (workers r))%nat ->
  live (set_worker w pc r) ≡ₚ batch_of pc ++ queue r ++ others w (workers r).
Proof.
  intros Hw. unfold live, set_worker. simpl. rewrite (active_set w _ pc Hw).
  by rewrite !app_assoc, (Permutation_app_comm (queue r)).
Qed.

(** The cells of a batch after its results, its buffers and its operations. *)
Lemma batch_settled r w batch outcome r0 : reader_ok r -> workers r !! w = Some (Finishing batch outcome) ->
  frame r r0 -> cells r0 = cells r -> inflight r0 = inflight r -> staging r0 = staging r ->
  exists r3, (r ← complete batch outcome r0; r ← (if is_ok outcome then Some r else drop_buffers batch r); end_operations batch r) = Some r3 /\
    frame r r3 /\ accounts (staging r3) (cells r3) /\
    rs_queued_reads (counts r3) = rs_queued_reads (counts r0) /\ rs_active_reads (counts r3) = rs_active_reads (counts r0) /\
    (forall id, id ∉ batch -> cells r3 !! id = cells r !! id) /\
    (forall id, id ∈ batch -> exists c c3, cells r !! id = Some c /\ cells r3 !! id = Some c3 /\ c_span c3 = c_span c /\ settled (source_data r) c3) /\
    (forall s id, inflight r3 !! s = Some id <-> inflight r !! s = Some id /\ id ∉ batch).
Proof.
  intros Hr Hw Hf0 Hc0 Hi0 Hs0. destruct (worker_batch r w _ Hr Hw) as (_ & Hnd & Hin & Hok). simpl in *.
  assert (forall id, id ∈ batch -> exists c, cells r !! id = Some c /\ inflight r !! c_span c = Some id /\ c_result c = None) as Hcell
    by (intros id Hid; by apply (ro_live _ Hr), Hin).
  destruct (complete_spec batch outcome r0) as (r1 & -> & Hf1 & Hst1 & Ha1 & Hq1 & Hact1 & Hout1 & Hres1 & Hinf1).
  { done. }
  { intros id Hid. destruct (Hcell id Hid) as (c & Hc & _). rewrite Hc0. by eexists. }
  { intros bytes ->. destruct Hok as [_ Hb]. by apply Forall2_length in Hb. }
  { rewrite Hs0, Hc0. apply (ro_accounts _ Hr). }
  cbn [mbind option_bind].
  assert (exists r2, (if is_ok outcome then Some r1 else drop_buffers batch r1) = Some r2 /\ cells_only r1 r2 /\
    accounts (staging r2) (cells r2) /\ forall id, cells r2 !! id = if decide (id ∈ batch /\ is_ok outcome = false)
      then (fun c => c <| c_buffer := false |>) <$> cells r1 !! id else cells r1 !! id) as (r2 & -> & Ho2 & Ha2 & Hm2).
  { destruct outcome as [bytes|e]; simpl.
    - exists r1. split_and!; try done. intros id. by rewrite decide_False by naive_solver.
    - destruct (drop_buffers_spec batch r1 Ha1) as (r2 & ? & ? & ? & Hm). exists r2. split_and!; try done.
      intros id. rewrite Hm. repeat case_decide; try done; naive_solver. }
  cbn [mbind option_bind]. destruct (end_operations_spec batch r2 Ha2) as (r3 & -> & Ho3 & Ha3 & Hm3). exists r3.
  destruct (cells_only_trans _ _ _ Ho2 Ho3) as (Hf3 & Hi3 & Hk3).
  split; [done|]. split; [by transitivity r0; [|transitivity r1]|]. split; [done|]. rewrite Hk3. split_and!; [done|done|..].
  - intros id Hid. rewrite Hm3, Hm2, !decide_False by naive_solver. rewrite Hout1 by done. by rewrite Hc0.
  - intros id Hid. destruct (Hcell id Hid) as (c & Hc & _ & _). apply list_elem_of_lookup in Hid as Hi. destruct Hi as [i Hi].
    destruct (Hres1 i id c Hi ltac:(by rewrite Hc0)) as (v & Hv & Hval). exists c. rewrite Hm3, (decide_True (P := id ∈ batch)), Hm2, Hv by done.
    destruct outcome as [bytes|e]; simpl in *.
    + rewrite decide_False by naive_solver. simpl. eexists. split_and!; try done. destruct Hok as [Hbuf Hrd].
      rewrite Forall_forall in Hbuf. destruct (Hbuf id Hid) as (c' & Hc' & Hb'). simplify_eq.
      destruct (bytes !! i) as [bs|] eqn:Ebs; simpl in Hval; [|done]. injection Hval as <-.
      destruct (Forall2_lookup_lr _ _ _ _ _ _ Hrd Hi Ebs) as (c' & Hc' & ->). simplify_eq. by split.
    + rewrite decide_True by done. simpl. eexists. split_and!; try done. subst v. by split.
  - intros s id. rewrite Hi3, Hinf1, Hi0, Hc0. split; intros [Hi Hn]; (split; [done|]).
    + intros Hid. apply Hn. split; [done|]. by apply (ro_inflight _ Hr s id Hi).
    + naive_solver.
Qed.

Lemma finish_ok r w batch outcome : reader_ok r -> workers r !! w = Some (Finishing batch outcome) ->
  exists r', finish_step w batch outcome r = Some r' /\ reader_ok r' /\ keeps r r' /\
    tickets r' = tickets r /\ held r' = held r /\ owners r' = owners r /\ queue r' = queue r /\ workers r' = <[w := Idle]> (workers r) /\ stopping r' = stopping r.
Proof.
  intros Hr Hw. destruct (worker_batch r w _ Hr Hw) as (Hl & _ & _ & _). simpl in Hl. pose proof (lookup_lt_Some _ _ _ Hw) as Hlt.
  unfold finish_step. cbv zeta.
  match goal with |- context [complete batch outcome ?x] => set (r0 := x) end.
  assert (frame r r0 /\ cells r0 = cells r /\ inflight r0 = inflight r /\ staging r0 = staging r /\
    rs_queued_reads (counts r0) = rs_queued_reads (counts r) /\ rs_active_reads (counts r0) = rs_active_reads (counts r))
    as (Hf0 & Hc0 & Hi0 & Hs0 & Hq0 & Ha0) by (unfold r0; by destruct (is_ok outcome)).
  clearbody r0. destruct (batch_settled r w batch outcome r0 Hr Hw Hf0 Hc0 Hi0 Hs0) as (r3 & H3 & Hf3 & Hacc3 & Hq3 & Hact3 & Hout & Hin & Hinf).
  destruct (complete batch outcome r0) as [r1|]; [|done]. cbn [mbind option_bind] in *.
  destruct (if is_ok outcome then Some r1 else drop_buffers batch r1) as [r2|]; [|done]. cbn [mbind option_bind] in *. rewrite H3. cbn [mbind option_bind].
  pose proof Hf3 as (Hsrc & Hqu & Htk & Hown & Hhe & Hwo & Hst & Hwd).
  destruct (retire_ok r (set_worker w Idle r3) batch
    ((counts r3) <| rs_active_reads ::= fun a => a - Z.of_nat (length batch) |>) Hr) as (r5 & -> & Hok & Hkeep & (Hf5 & _ & Hk5) & _); simpl; try done.
  - rewrite Hl. apply Permutation_app_head. rewrite set_worker_live by (by rewrite Hwo). simpl. by rewrite Hqu, Hwo.
  - by rewrite length_insert, Hwo.
  - by rewrite Hqu.
  - rewrite Hwo. intros pc [i Hi]%list_elem_of_lookup.
    apply list_lookup_insert_Some in Hi as [(_ & <- & _)|[_ Hi]]; [by right|left; by eapply list_elem_of_lookup_2].
  - rewrite Hq3, Hact3, Hq0, Ha0, Hqu, Hwo. destruct (ro_counts _ Hr) as [-> ->]. split; [done|].
    rewrite (active_set w _ Idle Hlt), (active_split w _ _ Hw). simpl. rewrite length_app. lia.
  - cbn [mbind option_bind]. exists (r5 <| counts := (counts r3) <| rs_active_reads ::= fun a => a - Z.of_nat (length batch) |> |>).
    split; [by destruct r5; simpl in *; rewrite Hk5|]. pose proof Hf5 as (?&?&?&?&?&?&?&?). simpl in *.
    split_and!; try done; congruence.
Qed.

(** Holders see no difference but results. *)
Definition same_holders (r r' : reader) : Prop :=
  tickets r' = tickets r /\ held r' = held r /\ owners r' = owners r /\ stopping r' = stopping r.

Lemma same_holders_wanted r r' id : same_holders r r' -> wanted r' id <-> wanted r id.
Proof. intros (Ht & Hh & _). unfold wanted. by rewrite Ht, Hh. Qed.

Lemma keeps_trans r r1 r2 : keeps r r1 -> keeps r1 r2 -> same_holders r1 r2 -> keeps r r2.
Proof.
  intros (H1 & H1' & Hs1) (H2 & H2' & Hs2) Hsame. split_and!; [| |congruence].
  - intros id c Hc Hw. destruct (H1 id c Hc) as (c1 & Hc1 & Hsp1 & Hr1); [by apply (same_holders_wanted _ _ id Hsame)|].
    destruct (H2 id c1 Hc1 Hw) as (c2 & Hc2 & Hsp2 & Hr2). exists c2. split_and!; [done|congruence|auto].
  - intros t tk tk' Ht Ht'. destruct Hsame as (Heq & _). rewrite Heq in Ht'. by eapply H1'.
Qed.

(** A read of the queue fails. *)
Lemma fail_one_ok r id rest : reader_ok r -> queue r = id :: rest ->
  exists r', (let r := r <| queue := rest |>
                <| counts ::= fun c => c <| rs_queued_reads ::= Z.pred |> <| rs_failed_reads ::= Z.succ |> |> in
              let r := set_result id (Err bad_alloc) (forget_inflight id r) in
              r ← end_operation id r; free_cell id r) = Some r' /\
    reader_ok r' /\ keeps r r' /\ same_holders r r' /\ queue r' = rest /\ workers r' = workers r.
Proof.
  intros Hr Hq. cbv zeta. match goal with |- context [forget_inflight id ?x] => set (r0 := x) end.
  destruct (ro_live _ Hr id) as (c & Hc & Hi & Hn); [unfold live; rewrite Hq; set_solver|].
  destruct (forget_inflight_spec id r0 c Hc) as (Hf1 & Hc1 & Hs1 & Hk1 & Hinf1). set (r1 := forget_inflight id r0) in *.
  set (r2 := set_result id (Err bad_alloc) r1).
  assert (cells r2 = <[id := c <| c_result := Some (Err bad_alloc) |>]> (cells r)) as Hc2.
  { unfold r2, set_result. simpl. rewrite Hc1. by apply alter_as_insert. }
  assert (staging r2 = staging r) as Hs2 by done.
  destruct (end_operation_spec id r2) as (r3 & -> & (Hf3 & Hi3 & Hk3) & Ha3 & Hm3).
  { rewrite Hc2, Hs2. by apply (accounts_same (staging r) (cells r) (ro_accounts _ Hr) id c Hc). }
  pose proof (ro_queue _ Hr) as Hfq. rewrite Hq in Hfq. apply Forall_cons in Hfq as [(c' & Hc' & Ht' & Hb') _].
  rewrite Hc in Hc'. injection Hc' as <-.
  assert (frame r0 r3) as Hf by (by transitivity r2). pose proof Hf as (?&Hqu&?&?&?&Hwo&?&?). simpl in *.
  destruct (retire_ok r r3 [id] (counts r3) Hr) as (r5 & Hfree & Hok & Hkeep & (Hf5 & _ & Hk5) & _); try done.
  - unfold live. by rewrite Hqu, Hwo, Hq.
  - by rewrite Hwo.
  - intros id' Hid'. rewrite Hm3, decide_False by set_solver. rewrite Hc2, lookup_insert_ne by set_solver. done.
  - intros id' ->%list_elem_of_singleton. exists c. rewrite Hm3, decide_True, Hc2, lookup_insert_eq by done. simpl.
    eexists. by split_and!.
  - intros s id'. rewrite Hi3. change (inflight r2) with (inflight r1). rewrite Hinf1. change (inflight r0) with (inflight r).
    rewrite list_elem_of_singleton. split; intros [Hs Hne]; (split; [done|]); [|naive_solver]. intros ->. apply Hne. split; [|done].
    destruct (ro_inflight _ Hr _ _ Hs) as (_ & c'' & Hc'' & <-). congruence.
  - rewrite Hqu, Hq. set_solver.
  - rewrite Hwo. by left.
  - rewrite Hk3. change (counts r2) with (counts r1). rewrite Hk1, Hqu, Hwo. simpl. destruct (ro_counts _ Hr) as [-> ->].
    rewrite Hq. simpl. split; [lia|done].
  - simpl in Hfree. cbn [mbind option_bind]. destruct (free_cell id r3) as [r5'|]; [|done]. injection Hfree as ->.
    pose proof Hf5 as (?&?&?&?&?&?&?&?). exists r5.
    assert (r5 <| counts := counts r3 |> = r5) as Heq by (destruct r5; simpl in *; congruence). rewrite Heq in Hok.
    unfold same_holders. split_and!; try done; congruence.
Qed.

Lemma fail_queued_ok n r : reader_ok r ->
  exists r', fail_queued n r = Some r' /\ reader_ok r' /\ keeps r r' /\ same_holders r r' /\
    queue r' = drop n (queue r) /\ workers r' = workers r.
Proof.
  revert r. induction n as [|n IH]; intros r Hr; simpl.
  - exists r. split_and!; try done. split_and!; naive_solver.
  - destruct (queue r) as [|id rest] eqn:Hq; [exists r; rewrite drop_nil; split_and!; try done; split_and!; naive_solver|].
    destruct (fail_one_ok r id rest Hr Hq) as (r1 & H1 & Hok1 & Hk1 & Hs1 & Hq1 & Hw1). cbv zeta in H1.
    destruct (end_operation id _) as [r0|]; [|done]. cbn [mbind option_bind] in *. rewrite H1. cbn [mbind option_bind].
    destruct (IH r1 Hok1) as (r2 & -> & Hok2 & Hk2 & Hs2 & Hq2 & Hw2). exists r2. rewrite Hq1 in Hq2.
    split_and!; try done; [by eapply keeps_trans| |congruence]. destruct Hs1 as (?&?&?&?), Hs2 as (?&?&?&?).
    unfold same_holders. split_and!; congruence.
Qed.

Lemma keeps_cells r r' : cells r' = cells r -> tickets r' = tickets r -> source_data r' = source_data r -> keeps r r'.
Proof. intros Hc Ht Hs. split_and!; [|rewrite Ht; naive_solver congruence|done]. rewrite Hc. intros id c Hid _. by exists c. Qed.

(** A worker takes a batch. *)
Lemma take_batch_ok r w count : reader_ok r -> workers r !! w = Some Idle -> (count <= length (queue r))%nat ->
  let batch := take count (queue r) in
  let r' := set_worker w (Preparing batch batch) (r <| queue ::= drop count |>
          <| counts ::= fun c => c <| rs_queued_reads ::= fun q => q - Z.of_nat count |>
               <| rs_active_reads ::= Z.add (Z.of_nat count) |> |>) in
  reader_ok r' /\ keeps r r'.
Proof.
  intros Hr Hw Hcount batch r'. pose proof (lookup_lt_Some _ _ _ Hw) as Hlt.
  assert (live r' ≡ₚ live r) as Hlive.
  { unfold r'. rewrite set_worker_live by done. simpl. unfold live. rewrite (active_split w _ _ Hw). simpl.
    rewrite app_assoc. unfold batch. by rewrite take_drop. }
  assert (forall id, id ∈ live r' <-> id ∈ live r) as Hin by (intros; by rewrite Hlive).
  pose proof (ro_queue _ Hr) as Hfq. rewrite <- (take_drop count (queue r)) in Hfq. apply Forall_app in Hfq as [Hf1 Hf2].
  split; [|by apply keeps_cells]. split; try done.
  - rewrite Hlive. apply (ro_nodup _ Hr).
  - intros id Hid%Hin. by apply (ro_live _ Hr).
  - intros s id Hi. destruct (ro_inflight _ Hr s id Hi) as [? ?]. split; [by apply Hin|done].
  - intros id c Hc Hn. apply (ro_dead _ Hr id c Hc). by rewrite <- Hin.
  - simpl. apply Forall_insert; [apply (ro_workers _ Hr)|]. exists []. by split_and!.
  - apply (ro_tickets _ Hr).
  - apply (ro_held _ Hr).
  - apply (ro_spans _ Hr).
  - apply (ro_accounts _ Hr).
  - simpl. destruct (ro_counts _ Hr) as [-> ->]. rewrite length_drop. split; [lia|].
    rewrite (active_set w _ _ Hlt), (active_split w _ _ Hw). simpl. rewrite length_app. unfold batch. rewrite length_take. lia.
  - simpl. rewrite length_insert. apply (ro_width _ Hr).
Qed.

(** A worker moves on with its batch. *)
Lemma advance_ok r w pc pc' g m' : reader_ok r -> workers r !! w = Some pc -> batch_of pc' = batch_of pc ->
  (forall id, id ∉ batch_of pc -> m' !! id = cells r !! id) ->
  (forall id c, id ∈ batch_of pc -> cells r !! id = Some c ->
     exists c', m' !! id = Some c' /\ c_span c' = c_span c /\ c_result c' = c_result c) ->
  accounts g m' -> worker_ok (source_data r) m' pc' ->
  let r' := set_worker w pc' (r <| staging := g |> <| cells := m' |>) in reader_ok r' /\ keeps r r'.
Proof.
  intros Hr Hw Hbatch Hout Hin Ha Hok r'. pose proof (lookup_lt_Some _ _ _ Hw) as Hlt.
  destruct (worker_batch r w pc Hr Hw) as (Hl & _ & Hbl & _).
  assert (live r' ≡ₚ live r) as Hlive by (unfold r'; rewrite set_worker_live by done; by rewrite Hl, Hbatch).
  assert (forall id, id ∈ live r' <-> id ∈ live r) as Hmem by (intros; by rewrite Hlive).
  assert (forall id, id ∈ queue r ++ others w (workers r) -> m' !! id = cells r !! id) as Hrest.
  { intros id Hid. apply Hout. intros Hb. pose proof (ro_nodup _ Hr) as Hnd. rewrite Hl in Hnd. apply NoDup_app in Hnd as (_ & Hd & _). by eapply Hd. }
  assert (forall id c, cells r !! id = Some c -> exists c', m' !! id = Some c' /\ c_span c' = c_span c /\ c_result c' = c_result c) as Hcell.
  { intros id c Hc. destruct (decide (id ∈ batch_of pc)); [by apply Hin|]. exists c. by rewrite Hout. }
  split.
  - split; try done.
    + rewrite Hlive. apply (ro_nodup _ Hr).
    + intros id Hid%Hmem. destruct (ro_live _ Hr id Hid) as (c & Hc & Hi & Hn). destruct (Hcell id c Hc) as (c' & Hc' & Hs & Hn').
      exists c'. simpl. rewrite Hs, Hn'. by split_and!.
    + intros s id Hi. destruct (ro_inflight _ Hr s id Hi) as (Hid & c & Hc & <-). split; [by apply Hmem|].
      destruct (Hcell id c Hc) as (c' & Hc' & Hs & _). by exists c'.
    + intros id c Hc Hn. simpl in Hc. rewrite Hmem in Hn. rewrite Hout in Hc by (intros Hb; by apply Hn, Hbl). by apply (ro_dead _ Hr id c Hc).
    + simpl. rewrite Forall_forall. intros id Hid. pose proof (ro_queue _ Hr) as Hf. rewrite Forall_forall in Hf.
      destruct (Hf id Hid) as (c & Hc & ?). exists c. rewrite Hrest; [done|set_solver].
    + simpl. rewrite Forall_lookup. intros i x Hx. apply list_lookup_insert_Some in Hx as [(_ & <- & _)|[Hne Hx]]; [done|].
      pose proof (ro_workers _ Hr) as Hf. rewrite Forall_lookup in Hf. apply (worker_ok_ext _ (cells r)); [|by eapply Hf].
      intros id Hid. apply Hrest. apply elem_of_app. right. unfold others. apply active_elem. exists x. split; [|done].
      destruct (decide (i < w)%nat) as [Hi|Hi].
      * apply list_elem_of_lookup. exists i. by rewrite list_lookup_delete_lt.
      * apply list_elem_of_lookup. exists (pred i). rewrite list_lookup_delete_ge by lia. by replace (S (pred i)) with i by lia.
    + simpl. intros t tk id Ht Hid. destruct (ro_tickets _ Hr t tk id Ht Hid) as [c Hc]. destruct (Hcell id c Hc) as (c' & ? & _). by eexists.
    + simpl. intros name id Hn. destruct (ro_held _ Hr name id Hn) as (c & bs & Hc & Hres). destruct (Hcell id c Hc) as (c' & Hc' & _ & Hres').
      exists c', bs. by rewrite Hres'.
    + simpl. intros id c' Hc'. assert (exists c, cells r !! id = Some c /\ c_span c' = c_span c) as (c & Hc & ->).
      { destruct (decide (id ∈ batch_of pc)) as [Hb|Hb]; [|exists c'; by rewrite <- Hout].
        destruct (ro_live _ Hr id (Hbl id Hb)) as (c & Hc & _). destruct (Hin id c Hb Hc) as (c'' & Hc'' & Hs & _). exists c. by simplify_eq. }
      by apply (ro_spans _ Hr id c).
    + simpl. destruct (ro_counts _ Hr) as [-> ->]. split; [done|]. by rewrite (active_set w _ _ Hlt), (active_split w _ _ Hw), Hbatch.
    + simpl. rewrite length_insert. apply (ro_width _ Hr).
  - split_and!; [|simpl; naive_solver congruence|done]. intros id c Hc _. destruct (Hcell id c Hc) as (c' & Hc' & Hs & Hres).
    exists c'. rewrite Hres. by split_and!.
Qed.

Lemma buffer_accounts g m id c controls control_fails : accounts g m -> m !! id = Some c -> c_transferred c = false -> c_buffer c = false ->
  vec_capacity (sp_length (c_span c)) <= sg_capacity g - sg_allocated g ->
  allocate control_fails control_bytes (sg_controls g) = Some controls ->
  let allocated := sg_allocated g + vec_capacity (sp_length (c_span c)) in
  accounts (g <| sg_allocated := allocated |> <| sg_peak_allocated ::= fun p => Z.max p allocated |> <| sg_controls := controls |>)
    (<[id := c <| c_transferred := true |> <| c_buffer := true |>]> m).
Proof.
  intros Ha Hc Ht Hb Hroom Hal allocated. destruct Ha as [Hty Hre Hbu Hct Hb1 Hb2 Hb3].
  pose proof (Hty _ _ Hc) as [Hpos _].
  unfold allocate in Hal. repeat (case_match; [done|]). injection Hal as <-. bool_facts. simpl in *.
  rewrite <- insert_delete_eq. split; simpl; try lia; rewrite ?msum_insert, ?(msum_delete _ _ _ _ Hc) by (by rewrite lookup_delete_eq).
  - intros k x [[<- <-]|[_ Hk]]%lookup_insert_Some; [by split|]. apply lookup_delete_Some in Hk as [_ Hk]. by eapply Hty.
  - unfold cell_reserved at 1 3. simpl. rewrite Hb, Ht. lia.
  - unfold cell_allocated at 1 3. simpl. rewrite Hb. lia.
  - unfold cell_control at 1 3. simpl. rewrite Hb. lia.
Qed.

(** The control block of a buffer cannot be allocated: buffer and reservation go. *)
Lemma lost_buffer_accounts g m id c : accounts g m -> m !! id = Some c -> c_transferred c = false -> c_buffer c = false ->
  vec_capacity (sp_length (c_span c)) <= sg_capacity g - sg_allocated g ->
  let allocated := sg_allocated g + vec_capacity (sp_length (c_span c)) in
  let g1 := g <| sg_allocated := allocated |> <| sg_peak_allocated ::= fun p => Z.max p allocated |> in
  exists g', release_buffer (vec_capacity (sp_length (c_span c))) (sp_length (c_span c)) g1 = Some g' /\
    accounts g' (<[id := c <| c_transferred := true |>]> m).
Proof.
  intros Ha Hc Ht Hb Hroom allocated g1. pose proof (share_reserved g m Ha id c Hc) as Hsh. unfold cell_reserved in Hsh. rewrite Hb, Ht in Hsh.
  assert (0 <= sg_allocated g) as Hnn.
  { rewrite (ac_buffers _ _ Ha). apply msum_nonneg. intros k x Hk. by apply cell_allocated_nonneg, (ac_typed _ _ Ha k). }
  destruct Ha as [Hty Hre Hbu Hct Hb1 Hb2 Hb3]. pose proof (Hty _ _ Hc) as [Hpos _].
  unfold release_buffer, g1. simpl. replace ((_ >? _) || (_ >? _)) with false by lia. eexists. split; [done|].
  rewrite <- insert_delete_eq. split; simpl; try lia; rewrite ?msum_insert, ?(msum_delete _ _ _ _ Hc) by (by rewrite lookup_delete_eq).
  - intros k x [[<- <-]|[_ Hk]]%lookup_insert_Some; [by split; simpl; auto|]. apply lookup_delete_Some in Hk as [_ Hk]. by eapply Hty.
  - unfold cell_reserved at 1 3. simpl. rewrite Hb, Ht. lia.
  - unfold cell_allocated at 1 3. simpl. rewrite Hb. lia.
  - unfold cell_control at 1 3. simpl. rewrite Hb. lia.
Qed.

Lemma spans_of_cells r batch : (forall id, id ∈ batch -> is_Some (cells r !! id)) ->
  Forall2 (reads_at (source_data r) (cells r)) batch (span_bytes (source_data r) <$> spans_of r batch).
Proof.
  unfold spans_of. induction batch as [|id batch IH]; intros Hin; [constructor|]. destruct (Hin id ltac:(set_solver)) as [c Hc].
  csimpl. rewrite Hc. csimpl. constructor; [by exists c|]. apply IH. set_solver.
Qed.

Lemma prepare_step_ok r w heap_fails control_fails read_fails batch rest : reader_ok r -> workers r !! w = Some (Preparing batch rest) ->
  exists r', prepare_step w heap_fails control_fails read_fails batch rest r = Some r' /\ reader_ok r' /\ keeps r r' /\ same_holders r r' /\
    queue r' = queue r /\ exists pc', workers r' = <[w := pc']> (workers r) /\ batch_of pc' = batch /\
      match rest with [] => exists o, pc' = Finishing batch o | _ :: rest' => pc' = Preparing batch rest' \/ exists e, pc' = Finishing batch (Err e) end.
Proof.
  intros Hr Hw. destruct (worker_batch r w _ Hr Hw) as (_ & _ & Hbl & dn & Hsplit & Hdn & Hrest). cbn [batch_of] in Hbl.
  assert (forall pc', batch_of pc' = batch -> worker_ok (source_data r) (cells r) pc' ->
    reader_ok (set_worker w pc' r) /\ keeps r (set_worker w pc' r)) as Hstay.
  { intros pc' Hb Hok. pose proof (advance_ok r w _ pc' (staging r) (cells r) Hr Hw Hb ltac:(done) ltac:(naive_solver) (ro_accounts _ Hr) Hok) as Hadv.
    by destruct r. }
  destruct rest as [|id rest]; cbn [prepare_step].
  - destruct (Hstay (Finishing batch (match read_fails with Some e => Err e | None => Ok (span_bytes (source_data r) <$> spans_of r batch) end)))
      as [Hok Hk]; [done| |].
    { destruct read_fails; [done|]. rewrite app_nil_r in Hsplit. subst dn. split; [done|]. apply spans_of_cells.
      intros id Hid. apply live_wanted_cell; [done|]. left. by apply Hbl. }
    eexists. split; [done|]. split_and!; try done. eexists. split_and!; try done. by eexists.
  - apply Forall_cons in Hrest as [(c & Hc & Ht & Hb) Hrest]. unfold prepare_buffer. rewrite Hc.
    destruct heap_fails; [|destruct (note_allocated _ _) as [g|e] eqn:Hn].
    + destruct (Hstay (Finishing batch (Err bad_alloc)) eq_refl I) as [Hok Hk].
      simpl. eexists. split; [done|]. split_and!; try done. eexists. split_and!; try done. right. by eexists.
    + unfold note_allocated in Hn. case_match; [done|]. injection Hn as <-. bool_facts.
      destruct (allocate control_fails control_bytes _) as [controls|] eqn:Hal; cbn [mbind option_bind].
      * pose proof (buffer_accounts (staging r) (cells r) id c controls control_fails (ro_accounts _ Hr) Hc Ht Hb ltac:(lia) Hal) as Hacc.
        pose proof (fun H1 H2 => advance_ok r w _ (Preparing batch rest) _ _ Hr Hw eq_refl H1 H2 Hacc) as Hadv. destruct Hadv as [Hok Hk].
        -- intros id' Hid'. rewrite lookup_insert_ne; [done|]. intros <-. apply Hid'. simpl. set_solver.
        -- intros id' c' _ Hc'. destruct (decide (id = id')) as [<-|Hne]; [rewrite lookup_insert_eq; simplify_eq; by eexists|].
           rewrite lookup_insert_ne by done. by exists c'.
        -- exists (dn ++ [id]). split; [by rewrite <- app_assoc|]. rewrite Forall_app, Forall_singleton. split_and!.
           ++ eapply Forall_impl; [done|]. intros x (cx & Hcx & Hbx). destruct (decide (id = x)) as [<-|Hne]; [congruence|].
              exists cx. by rewrite lookup_insert_ne.
           ++ eexists. by rewrite lookup_insert_eq.
           ++ pose proof (ro_nodup _ Hr) as Hnd. destruct (worker_batch r w _ Hr Hw) as (_ & Hndb & _ & _). simpl in Hndb.
              rewrite Hsplit in Hndb. apply NoDup_app in Hndb as (_ & _ & Hndr). apply NoDup_cons in Hndr as [Hnin _].
              rewrite Forall_forall in *. intros x Hx. destruct (Hrest x Hx) as (cx & Hcx & ?). exists cx. rewrite lookup_insert_ne; [done|]. by intros <-.
        -- eexists. split; [|split; [exact Hok|split; [exact Hk|]]]; [|split_and!; try done; eexists; split_and!; try done; by left].
           simpl. do 2 f_equal. rewrite (alter_as_insert _ _ id (c <| c_transferred := true |>)) by apply lookup_insert_eq. by rewrite insert_insert_eq.
      * destruct (lost_buffer_accounts (staging r) (cells r) id c (ro_accounts _ Hr) Hc Ht Hb ltac:(lia)) as (g' & Hrel & Hacc). 
        replace (release_buffer _ _ _) with (Some g') by (symmetry; exact Hrel). cbn [mbind option_bind].
        pose proof (fun H1 H2 => advance_ok r w _ (Finishing batch (Err bad_alloc)) _ _ Hr Hw eq_refl H1 H2 Hacc) as Hadv. destruct Hadv as [Hok Hk].
        -- intros id' Hid'. rewrite lookup_insert_ne; [done|]. intros <-. apply Hid'. simpl. set_solver.
        -- intros id' c' _ Hc'. destruct (decide (id = id')) as [<-|Hne]; [rewrite lookup_insert_eq; simplify_eq; by eexists|].
           rewrite lookup_insert_ne by done. by exists c'.
        -- done.
        -- eexists. split; [|split; [exact Hok|split; [exact Hk|]]]; [done|]. split_and!; try done. eexists. split_and!; try done. right. by eexists.
    + destruct (Hstay (Finishing batch (Err e)) eq_refl I) as [Hok Hk].
      simpl. eexists. split; [done|]. split_and!; try done. eexists. split_and!; try done. right. by eexists.
Qed.

Lemma wake_ok r w reserve_fails : reader_ok r -> workers r !! w = Some Idle ->
  exists o, wake_worker w reserve_fails r = Some o /\
    match o with
    | None => queue r = [] /\ stopping r = false
    | Some r' => reader_ok r' /\ keeps r r' /\ same_holders r r' /\
        (queue r = [] /\ stopping r = true /\ workers r' = <[w := Exited]> (workers r) /\ queue r' = [] \/
         queue r <> [] /\ exists n, (0 < n <= length (queue r))%nat /\ queue r' = drop n (queue r) /\
           (workers r' = workers r \/ workers r' = <[w := Preparing (take n (queue r)) (take n (queue r))]> (workers r)))
    end.
Proof.
  intros Hr Hw. unfold wake_worker. destruct (queue r) as [|id rest] eqn:Hq.
  - destruct (stopping r) eqn:Hs; [|by eexists].
    pose proof (advance_ok r w Idle Exited (staging r) (cells r) Hr Hw eq_refl ltac:(done) ltac:(naive_solver) (ro_accounts _ Hr) I) as Hadv.
    eexists. split; [done|]. destruct r. simpl in *. split; [apply Hadv|]. split; [apply Hadv|]. split; [done|]. by left.
  - destruct (ro_width _ Hr) as [Hwd _]. assert (0 < Nat.min (length (queue r)) (max_source_batch_width r) <= length (queue r))%nat as Hn by (rewrite Hq; cbn [length]; lia).
    rewrite Hq in Hn. destruct reserve_fails.
    + destruct (fail_queued_ok (Nat.min (length (id :: rest)) (max_source_batch_width r)) r Hr) as (r' & -> & Hok & Hk & Hs & Hq' & Hw').
      simpl. eexists. split; [done|]. split_and!; try done. right. split; [done|]. eexists. split_and!; [apply Hn|apply Hn|by rewrite Hq', Hq|by left].
    + eexists. split; [done|]. rewrite <- Hq in *. destruct (take_batch_ok r w _ Hr Hw (proj2 Hn)) as [Hok Hk].
      split_and!; try done. right. split; [by rewrite Hq|]. eexists. split_and!; [apply Hn|apply Hn|done|by right].
Qed.

(** ** Tickets and consumers *)

(** Steps that change holders and nothing of the reads. *)
Definition same_reads (r r' : reader) : Prop :=
  source_data r' = source_data r /\ staging r' = staging r /\ queue r' = queue r /\ inflight r' = inflight r /\ cells r' = cells r /\
  workers r' = workers r /\ max_source_batch_width r' = max_source_batch_width r /\
  rs_queued_reads (counts r') = rs_queued_reads (counts r) /\ rs_active_reads (counts r') = rs_active_reads (counts r).

Lemma same_reads_live r r' : same_reads r r' -> live r' = live r.
Proof. intros (_&_&Hq&_&_&Hw&_). unfold live. by rewrite Hq, Hw. Qed.

Lemma holders_ok r r' : reader_ok r -> same_reads r r' -> (forall id, wanted r id -> wanted r' id) ->
  (forall t tk' id, tickets r' !! t = Some tk' -> id ∈ t_futures tk' -> is_Some (cells r !! id)) ->
  (forall name id, held r' !! name = Some id -> exists c bytes, cells r !! id = Some c /\ c_result c = Some (Ok bytes)) ->
  reader_ok r'.
Proof.
  intros Hr Hs Hw Ht Hh. pose proof (same_reads_live _ _ Hs) as Hl. destruct Hs as (E1&E2&E3&E4&E5&E6&E7&E8&E9).
  split; rewrite ?Hl, ?E1, ?E2, ?E3, ?E4, ?E5, ?E6, ?E7, ?E8, ?E9; try done; try apply Hr.
  intros id c Hc Hn. destruct (ro_dead _ Hr id c Hc Hn) as [? ?]. split; [done|by apply Hw].
Qed.

Lemma await_ok r t i x r' : reader_ok r -> await t i r = Some (Some (x, r')) ->
  reader_ok r' /\ keeps r r' /\ same_reads r r' /\ tickets r' = tickets r /\
  exists tk id c, tickets r !! t = Some tk /\ t_futures tk !! i = Some id /\ cells r !! id = Some c /\
    match x with
    | Ok (name, bytes) => held r !! name = None /\ held r' = <[name := id]> (held r) /\ bytes = span_bytes (source_data r) (c_span c)
    | Err e => r' = r /\ c_result c = Some (Err e)
    end.
Proof.
  intros Hr Ha. unfold await in Ha. destruct (tickets r !! t) as [tk|] eqn:Ht; [|done]. cbn [mbind option_bind] in Ha.
  destruct (t_futures tk !! i) as [id|] eqn:Hi; [|done]. cbn [mbind option_bind] in Ha.
  destruct (cells r !! id) as [c|] eqn:Hc; [|done]. cbn [mbind option_bind] in Ha.
  destruct (c_result c) as [[bytes|e]|] eqn:Hres; [| |done]; injection Ha as <- <-.
  - pose proof (is_fresh (dom (held r))) as Hf. apply not_elem_of_dom in Hf. split_and!; try done.
    + apply (holders_ok r); try done.
      * intros x [?|(name & Hn)]; [by left|right]. exists name. simpl. rewrite lookup_insert_ne; [done|congruence].
      * apply (ro_tickets _ Hr).
      * simpl. intros name x [[_ <-]|[_ Hn]]%lookup_insert_Some; [by exists c, bytes|by eapply (ro_held _ Hr)].
    + by apply keeps_cells.
    + exists tk, id, c. split_and!; try done. destruct (decide (id ∈ live r)) as [Hl|Hl].
      * destruct (ro_live _ Hr id Hl) as (c' & Hc' & _ & Hn'). congruence.
      * destruct (ro_dead _ Hr id c Hc Hl) as [[_ Hset] _]. rewrite Hres in Hset. by destruct Hset.
  - split_and!; try done; [by apply keeps_cells|]. by exists tk, id, c.
Qed.

(** A holder goes; the cells only it held go too. *)
Lemma let_go_ok r r0 ids : reader_ok r -> same_reads r r0 ->
  (forall t tk, tickets r0 !! t = Some tk -> tickets r !! t = Some tk) ->
  (forall name id, held r0 !! name = Some id -> held r !! name = Some id) ->
  (forall id, wanted r id -> wanted r0 id \/ id ∈ ids) ->
  exists r', free_cells ids r0 = Some r' /\ reader_ok r' /\ keeps r r' /\ cells_only r0 r'.
Proof.
  intros Hr Hs Ht Hh Hw. pose proof (same_reads_live _ _ Hs) as Hl. pose proof Hs as (E1&E2&E3&E4&E5&E6&E7&E8&E9).
  destruct (free_cells_spec ids r0) as (r' & Hf & Hco & Ha & Hm).
  { rewrite E2, E5. apply (ro_accounts _ Hr). }
  { intros id c _ Hc Href. rewrite E5 in Hc. apply (ro_dead _ Hr id c Hc). rewrite <- Hl. intros Hid.
    assert (referenced r0 id = true) by (apply referenced_spec; by left). congruence. }
  exists r'. split; [done|]. pose proof Hco as (Hfr & Hinf & Hcnt). pose proof (frame_live _ _ Hfr) as Hl'.
  pose proof Hfr as (F1&F2&F3&F4&F5&F6&F7&F8).
  assert (forall id, id ∈ live r \/ wanted r0 id -> cells r' !! id = cells r !! id) as Hkept.
  { intros id Hid. rewrite Hm, decide_False; [by rewrite E5|]. intros [_ Href].
    assert (referenced r0 id = true) by (apply referenced_spec; by rewrite Hl). congruence. }
  assert (forall id c, cells r' !! id = Some c -> cells r !! id = Some c) as Hsub.
  { intros id c Hc. rewrite Hm in Hc. case_decide; [done|]. by rewrite E5 in Hc. }
  assert (forall id, wanted r' id <-> wanted r0 id) as Hw' by (intros id; by apply frame_wanted).
  assert (forall id, wanted r0 id -> wanted r id) as Hw0.
  { intros id [(t & tk & Htk & Hid)|(name & Hn)]; [left; exists t, tk; split; [by apply Ht|done]|right; exists name; by apply Hh]. }
  split; [|split; [|done]].
  - split; rewrite ?Hl', ?Hl, ?F1, ?E1, ?F2, ?E3, ?F6, ?E6, ?Hinf, ?E4, ?Hcnt, ?E8, ?E9, ?F8, ?E7; try done; try apply Hr.
    + intros id Hid. destruct (ro_live _ Hr id Hid) as (c & Hc & ?). exists c. rewrite Hkept by (by left). done.
    + intros s id Hi. destruct (ro_inflight _ Hr s id Hi) as (Hid & c & Hc & ?). split; [done|]. exists c. rewrite Hkept by (by left). done.
    + intros id c Hc Hn. rewrite Hw'. pose proof (Hsub id c Hc) as Hc0. destruct (ro_dead _ Hr id c Hc0 Hn) as [Hset Hwid]. split; [done|].
      destruct (Hw id Hwid) as [?|Hin]; [done|]. rewrite Hm in Hc. case_decide as Hd; [done|].
      destruct (referenced r0 id) eqn:E; [|naive_solver]. apply referenced_spec in E as [E|E]; [by rewrite Hl in E|done].
    + pose proof (ro_queue _ Hr) as Hq. rewrite Forall_forall in *. intros id Hid. destruct (Hq id Hid) as (c & Hc & ?). exists c.
      rewrite Hkept; [done|]. left. unfold live. set_solver.
    + pose proof (ro_workers _ Hr) as Hwk. rewrite Forall_forall in *. intros pc Hpc. apply (worker_ok_ext _ (cells r)); [|by apply Hwk].
      intros id Hid. apply Hkept. left. unfold live. rewrite elem_of_app, active_elem. right. by exists pc.
    + rewrite F3. intros t tk id Htk Hid. rewrite Hkept; [eapply (ro_tickets _ Hr); [by apply Ht|done]|]. right. left. by exists t, tk.
    + rewrite F5. intros name id Hn. destruct (ro_held _ Hr name id (Hh _ _ Hn)) as (c & bs & Hc & ?). exists c, bs.
      rewrite Hkept; [done|]. right. right. by exists name.
    + intros id c Hc. by apply (ro_spans _ Hr id), Hsub.
  - split_and!; [|rewrite F3; intros t tk tk' H1 H2%Ht; congruence|congruence].
    intros id c Hc Hwid. exists c. rewrite Hkept by (right; by apply Hw'). done.
Qed.
End steps.
