(* ===== verification/AsyncReaderSubmit.v ===== *)
(** * The asynchronous reader: submission

    [submit] either publishes the new reads of a batch and a ticket for it, or
    leaves the reads as they were, wherever an allocation failed. *)

From S2P Require Import Prelude ExpertDescriptor BlockCache AsyncReader AsyncReaderInv AsyncReaderSteps.
From stdpp Require Import strings.
Open Scope string_scope.
Open Scope list_scope.
Open Scope Z_scope.

(** Arguments of type [uint64_t]. *)
Definition span_typed (s : read_span) : Prop := u64 (sp_offset s) /\ u64 (sp_length s).

(** ** The checks *)

Lemma check_spans_ok data spans : forall acc total, 0 <= acc -> Forall span_typed spans ->
  foldM (check_span (Z.of_nat (length data))) spans acc = Ok total ->
  Forall (span_ok data) spans /\ total = acc + zsum (sp_length <$> spans).
Proof.
  induction spans as [|s spans IH]; intros acc total Hacc Ht H.
  - simpl in H. injection H as <-. split; [done|]. simpl. lia.
  - apply foldM_cons_ok in H as (acc' & H1 & H2). apply Forall_cons in Ht as [[Ho Hl] Ht]. unfold u64 in *.
    unfold check_span in H1. repeat (case_match; [done|]). injection H1 as <-. bool_facts.
    apply IH in H2 as [Hf ->]; [|lia|done]. split; [constructor; [unfold span_ok; lia|done]|]. csimpl. lia.
Qed.

Lemma span_insert_perm s l : span_insert s l ≡ₚ s :: l.
Proof. induction l as [|x l IH]; simpl; [done|]. case_match; [done|]. rewrite IH. by constructor. Qed.

Lemma want_spans_ok r spans : forall acc wanted bytes,
  NoDup acc.1 -> acc.2 = zsum (sp_length <$> acc.1) -> Forall (fun s => is_inflight r s = false) acc.1 ->
  foldM (want_span r) spans acc = Ok (wanted, bytes) ->
  NoDup wanted /\ bytes = zsum (sp_length <$> wanted) /\
  forall s, s ∈ wanted <-> s ∈ acc.1 \/ s ∈ spans /\ is_inflight r s = false.
Proof.
  induction spans as [|s spans IH]; intros [pending total] wanted bytes Hnd Htot Hfl H; simpl in *.
  - injection H as <- <-. split_and!; try done. set_solver.
  - destruct (is_inflight r s) eqn:E1; simpl in H; [|case_bool_decide as E2].
    + apply IH in H as (? & ? & Hw); try done. split_and!; try done. intros x. rewrite Hw. simpl. set_solver by congruence.
    + apply IH in H as (? & ? & Hw); try done. split_and!; try done. intros x. rewrite Hw. simpl. set_solver.
    + destruct (sp_length s >? _); [done|]. apply IH in H as (? & ? & Hw); simpl.
      * split_and!; try done. intros x. rewrite Hw. simpl. rewrite span_insert_perm. set_solver.
      * rewrite span_insert_perm. by constructor.
      * rewrite Htot. rewrite (zsum_perm (sp_length <$> span_insert s pending) (sp_length <$> s :: pending)) by (by rewrite span_insert_perm).
        rewrite fmap_cons. simpl. lia.
      * rewrite span_insert_perm. by constructor.
Qed.

(** ** New operations *)

Definition new_cell (s : read_span) : cell := mk_cell s false false None.

Lemma create_operations_spec spans : forall r pending r', create_operations spans r = (pending, r') ->
  pending.*1 = spans /\ NoDup pending.*2 /\ (forall id, id ∈ pending.*2 -> cells r !! id = None) /\
  frame r r' /\ inflight r' = inflight r /\ counts r' = counts r /\ staging r' = staging r /\
  (forall id, id ∉ pending.*2 -> cells r' !! id = cells r !! id) /\
  (forall s id, (s, id) ∈ pending -> cells r' !! id = Some (new_cell s)).
Proof.
  induction spans as [|s spans IH]; intros r pending r' H; simpl in H.
  - injection H as <- <-. simpl. split_and!; try done; try constructor; intros *; by intros ?%elem_of_nil.
  - set (id := fresh (dom (cells r))) in *. set (r1 := r <| cells ::= <[id := mk_cell s false false None]> |>) in *.
    destruct (create_operations spans r1) as [l r2] eqn:E. injection H as <- <-.
    destruct (IH _ _ _ E) as (H1 & H2 & H3 & H4 & H5 & H6 & H7 & H8 & H9).
    pose proof (is_fresh (dom (cells r))) as Hf. fold id in Hf. apply not_elem_of_dom in Hf.
    assert (id ∉ l.*2) as Hnin. { intros Hin. specialize (H3 id Hin). unfold r1 in H3. simpl in H3. by rewrite lookup_insert_eq in H3. }
    assert (forall x, x <> id -> cells r1 !! x = cells r !! x) as Hr1 by (intros x Hx; unfold r1; simpl; by rewrite lookup_insert_ne).
    split_and!; csimpl; try done.
    + by rewrite H1.
    + by constructor.
    + intros x [->|Hx]%elem_of_cons; [done|]. destruct (decide (x = id)) as [->|Hne]; [done|]. rewrite <- Hr1 by done. by apply H3.
    + intros x [Hne Hx]%not_elem_of_cons. rewrite H8 by done. by apply Hr1.
    + intros s' x [[= -> ->]|Hx]%elem_of_cons; [|by apply H9]. rewrite H8 by done. unfold r1. simpl. by rewrite lookup_insert_eq.
Qed.

(** ** Publication *)

Section publish.
Context `{ReaderSizes, !ReaderSizesOk}.

Lemma publish_entries_spec l : forall faults r x r', publish_entries l faults r = (x, r') ->
  tickets r' = tickets r /\ held r' = held r /\ owners r' = owners r /\ cells r' = cells r /\ staging r' = staging r /\
  workers r' = workers r /\ source_data r' = source_data r /\ counts r' = counts r /\ stopping r' = stopping r /\
  max_source_batch_width r' = max_source_batch_width r /\
  (exists n, queue r' = queue r ++ take n l.*2) /\
  (forall s id, inflight r' !! s = Some id -> inflight r !! s = Some id \/ (s, id) ∈ l) /\
  (forall s, s ∉ l.*1 -> inflight r' !! s = inflight r !! s) /\
  (is_ok x = true -> NoDup l.*1 -> queue r' = queue r ++ l.*2 /\ forall s id, (s, id) ∈ l -> inflight r' !! s = Some id).
Proof.
  induction l as [|[s id] l IH]; intros faults r x r' Hp; simpl in Hp.
  - injection Hp as <- <-. split_and!; try done; [exists 0%nat; by rewrite app_nil_r|naive_solver|].
    intros _ _. rewrite app_nil_r. split; [done|]. by intros ?? ?%elem_of_nil.
  - assert (forall x s', <[s := id]> (inflight r) !! s' = Some x -> inflight r !! s' = Some x \/ (s', x) = (s, id)) as Hins.
    { intros y s' [[<- <-]|[_ ?]]%lookup_insert_Some; auto. }
    destruct (spend faults) as [f1|]; [destruct (spend f1) as [f2|]|].
    + apply IH in Hp as (E1&E2&E3&E4&E5&E6&E7&E8&E9&E10&(n & Hq)&Hi1&Hi2&Hok). simpl in *.
      split_and!; try done.
      * exists (S n). csimpl. by rewrite Hq, <- app_assoc.
      * intros s' x' [Hx|Hx]%Hi1; [destruct (Hins _ _ Hx) as [?|Heq]; [by left|right; rewrite Heq; by left]|right; by right].
      * intros s' Hs'. apply not_elem_of_cons in Hs' as [Hne Hs']. rewrite Hi2 by done. by rewrite lookup_insert_ne.
      * intros Hx Hnd. csimpl in Hnd. apply NoDup_cons in Hnd as [Hn Hnd]. destruct (Hok Hx Hnd) as [Hq' Hall].
        split; [by rewrite Hq', <- app_assoc|]. intros s' x' [[= -> ->]|Hin]%elem_of_cons; [|by apply Hall].
        rewrite Hi2 by done. by rewrite lookup_insert_eq.
    + injection Hp as <- <-. simpl. split_and!; try done; [exists 0%nat; by rewrite app_nil_r| |].
      * intros s' x' Hx. destruct (Hins _ _ Hx) as [?|Heq]; [by left|right; rewrite Heq; by left].
      * intros s' Hs'. apply not_elem_of_cons in Hs' as [Hne _]. by rewrite lookup_insert_ne.
    + injection Hp as <- <-. split_and!; try done; [exists 0%nat; by rewrite app_nil_r|by left].
Qed.

Lemma take_futures_spec spans r futures : take_futures spans r = Ok futures ->
  Forall2 (fun s id => inflight r !! s = Some id /\ id ∈ live r) spans futures.
Proof.
  revert futures. induction spans as [|s spans IH]; intros futures Ht; simpl in Ht; [injection Ht as <-; constructor|].
  destruct (inflight r !! s) as [id|] eqn:E; [|done]. destruct (op_alive r id) eqn:Ha; [|done].
  destruct (take_futures spans r) as [l|]; [|done]. injection Ht as <-. constructor; [|by apply IH]. by rewrite <- op_alive_live.
Qed.

(** The publication leaves at most entries of [pending] and a record of the owner. *)
Definition published_part (pending : list (read_span * positive)) (owner : Z) (r r' : reader) : Prop :=
  tickets r' = tickets r /\ held r' = held r /\ cells r' = cells r /\ staging r' = staging r /\ workers r' = workers r /\
  source_data r' = source_data r /\ counts r' = counts r /\ stopping r' = stopping r /\
  max_source_batch_width r' = max_source_batch_width r /\
  (exists n, queue r' = queue r ++ take n pending.*2) /\
  (forall s id, inflight r' !! s = Some id -> inflight r !! s = Some id \/ (s, id) ∈ pending) /\
  (forall s, s ∉ pending.*1 -> inflight r' !! s = inflight r !! s) /\
  (owners r' = owners r \/ owners r !! owner = None /\ delete owner (owners r') = owners r).

Lemma register_owner_spec owner t faults r x r' : register_owner owner t faults r = (x, r') ->
  tickets r' = tickets r /\ held r' = held r /\ cells r' = cells r /\ staging r' = staging r /\ workers r' = workers r /\
  source_data r' = source_data r /\ counts r' = counts r /\ stopping r' = stopping r /\
  max_source_batch_width r' = max_source_batch_width r /\ queue r' = queue r /\ inflight r' = inflight r /\
  (is_ok x = false -> owners r' = owners r \/ owners r !! owner = None /\ delete owner (owners r') = owners r).
Proof.
  unfold register_owner. case_bool_decide as Ho.
  - destruct Ho as [l Hl]. rewrite Hl. cbn [default from_option id].
    destruct (spend faults); intros [= <- <-]; simpl; split_and!; try done. intros _. left. by rewrite insert_id.
  - apply eq_None_not_Some in Ho. destruct (spend faults) as [f|]; [destruct (spend f)|]; intros [= <- <-]; simpl; split_and!; try done.
    + intros _. right. split; [done|]. rewrite Ho. simpl. by rewrite delete_insert_id.
    + intros _. by left.
Qed.

Lemma publish_batch_spec owner spans pending t faults r x r' : NoDup pending.*1 ->
  publish_batch owner spans pending t faults r = (x, r') ->
  match x with
  | Err _ => published_part pending owner r r'
  | Ok futures =>
      tickets r' = tickets r /\ held r' = held r /\ cells r' = cells r /\ staging r' = staging r /\ workers r' = workers r /\
      source_data r' = source_data r /\ counts r' = counts r /\ stopping r' = stopping r /\
      max_source_batch_width r' = max_source_batch_width r /\ queue r' = queue r ++ pending.*2 /\
      (forall s id, inflight r' !! s = Some id -> inflight r !! s = Some id \/ (s, id) ∈ pending) /\
      (forall s, s ∉ pending.*1 -> inflight r' !! s = inflight r !! s) /\
      (forall s id, (s, id) ∈ pending -> inflight r' !! s = Some id) /\
      Forall2 (fun s id => inflight r' !! s = Some id) spans futures
  end.
Proof.
  intros Hnd Hp. unfold publish_batch in Hp. destruct (publish_entries pending faults r) as [y r1] eqn:E1.
  apply publish_entries_spec in E1 as (A1&A2&A3&A4&A5&A6&A7&A8&A9&A10&Hq&Hi1&Hi2&Hok).
  destruct y as [f|e]; [|injection Hp as <- <-; unfold published_part; split_and!; try done; by left].
  destruct (Hok eq_refl Hnd) as [Hqueue Hins].
  destruct (take_futures spans r1) as [futures|e] eqn:E2; [|injection Hp as <- <-; unfold published_part; split_and!; try done; by left].
  destruct (register_owner owner t f r1) as [z r2] eqn:E3.
  apply register_owner_spec in E3 as (B1&B2&B3&B4&B5&B6&B7&B8&B9&B10&B11&Hown).
  destruct z as [?|e]; injection Hp as <- <-.
  - split_and!; try congruence.
    + intros s id. rewrite B11. apply Hi1.
    + intros s. rewrite B11. apply Hi2.
    + intros s id. rewrite B11. apply Hins.
    + rewrite B11. eapply Forall2_impl; [by apply take_futures_spec|]. naive_solver.
  - unfold published_part. split_and!; try congruence.
    + rewrite B10. done.
    + intros s id. rewrite B11. apply Hi1.
    + intros s. rewrite B11. apply Hi2.
    + rewrite <- A3. by apply Hown.
Qed.

(** ** Rollback *)

Lemma erase_entries_spec pending r :
  let r' := foldl (fun r (e : read_span * positive) =>
      if bool_decide (inflight r !! e.1 = Some e.2) then r <| inflight ::= delete e.1 |> else r) r pending in
  frame r r' /\ cells r' = cells r /\ staging r' = staging r /\ counts r' = counts r /\
  forall s id, inflight r' !! s = Some id <-> inflight r !! s = Some id /\ (s, id) ∉ pending.
Proof.
  revert r. induction pending as [|[s0 id0] pending IH]; intros r; simpl.
  - split_and!; try done. intros s id. split; [|naive_solver]. intros Hi. split; [done|]. by intros ?%elem_of_nil.
  - set (r1 := if bool_decide _ then _ else _).
    assert (frame r r1 /\ cells r1 = cells r /\ staging r1 = staging r /\ counts r1 = counts r /\
      forall s id, inflight r1 !! s = Some id <-> inflight r !! s = Some id /\ (s, id) <> (s0, id0)) as (Hf1 & Hc1 & Hs1 & Hk1 & Hi1).
    { unfold r1. case_bool_decide as Hb; simpl; split_and!; try done; intros s id.
      - rewrite lookup_delete_Some. split; [intros [? ?]; split; [done|congruence]|]. intros [Hs Hne]. split; [|done]. intros <-. congruence.
      - split; [|naive_solver]. intros Hs. split; [done|]. intros [= -> ->]. done. }
    clearbody r1. destruct (IH r1) as (Hf & Hc & Hs & Hk & Hi). split_and!; try congruence; [by transitivity r1|].
    intros s id. rewrite Hi, Hi1, not_elem_of_cons. naive_solver.
Qed.

Lemma unpublish_spec pending owner r r' : published_part pending owner r r' ->
  (forall s, s ∈ pending.*1 -> inflight r !! s = None) ->
  let r'' := unpublish (length (queue r)) (negb (bool_decide (is_Some (owners r !! owner)))) owner pending r' in
  frame r r'' /\ inflight r'' = inflight r /\ cells r'' = cells r /\ staging r'' = staging r /\ counts r'' = counts r.
Proof.
  intros (E1&E2&E3&E4&E5&E6&E7&E8&E9&(n & Hq)&Hi1&Hi2&Ho) Hnone r''. unfold unpublish in r''.
  pose proof (erase_entries_spec pending (r' <| queue ::= take (length (queue r)) |>)) as Her. simpl in Her.
  set (r2 := foldl _ _ _) in *. destruct Her as ((F1&F2&F3&F4&F5&F6&F7&F8) & Hc & Hs & Hk & Hi). simpl in *.
  assert (inflight r2 = inflight r) as Hinf.
  { apply map_eq. intros s. destruct (decide (s ∈ pending.*1)) as [Hin|Hin].
    - rewrite Hnone by done. apply eq_None_not_Some. intros [id Hid]. apply Hi in Hid as [Hid Hn]. apply Hi1 in Hid as [Hid|?]; [|done].
      by rewrite Hnone in Hid.
    - apply option_eq. intros id. rewrite Hi, Hi2 by done. split; [naive_solver|]. intros Hid. split; [done|]. intros Hp.
      apply Hin. by apply (list_elem_of_fmap_2 fst) in Hp. }
  assert (queue r2 = queue r) as Hqueue by (by rewrite F2, Hq, take_app_length).
  unfold r''. destruct (bool_decide (is_Some (owners r !! owner))) eqn:Eo; simpl.
  - apply bool_decide_eq_true in Eo as [l Hl]. destruct Ho as [Ho|[Ho _]]; [|by rewrite Hl in Ho]. unfold frame. split_and!; congruence.
  - apply bool_decide_eq_false, eq_None_not_Some in Eo. unfold frame. split_and!; simpl; try congruence.
    rewrite F4. destruct Ho as [->|[_ Ho]]; [by apply delete_id|done].
Qed.

Lemma destroy_pending_spec pending r : accounts (staging r) (cells r) -> NoDup pending.*2 ->
  (forall s id, (s, id) ∈ pending -> cells r !! id = Some (new_cell s)) ->
  exists r', destroy_pending pending r = Some r' /\ cells_only r r' /\ accounts (staging r') (cells r') /\
    sg_capacity (staging r') = sg_capacity (staging r) /\
    forall id, cells r' !! id = if decide (id ∈ pending.*2) then None else cells r !! id.
Proof.
  revert r. induction pending as [|[s id] pending IH]; intros r Ha Hnd Hc; [by exists r|]. csimpl in Hnd. apply NoDup_cons in Hnd as [Hn Hnd].
  pose proof (Hc s id ltac:(by left)) as Hid. cbn [destroy_pending].
  destruct (unreserve_ok _ _ Ha id _ Hid eq_refl) as (g & Hg & Hcap & _ & Hacc). cbn [new_cell c_span] in Hg. rewrite Hg. cbn [mbind option_bind].
  set (r1 := r <| staging := g |> <| cells ::= delete id |>).
  destruct (IH r1 Hacc Hnd) as (r' & -> & Hco & Ha' & Hcap' & Hm).
  - intros s' id' Hin. unfold r1. simpl. rewrite lookup_delete_ne; [by apply Hc; right|]. intros <-. apply Hn. by apply (list_elem_of_fmap_2 snd) in Hin.
  - exists r'. split_and!; [done|by apply (cells_only_trans _ r1)|done|by rewrite Hcap'|]. intros id'. rewrite Hm. unfold r1. csimpl.
    destruct (decide (id' = id)) as [->|Hne]; [rewrite lookup_delete_eq; by repeat case_decide; try done; exfalso; set_solver|].
    rewrite lookup_delete_ne by done. member_cases.
Qed.

(** ** Accounts of a submission *)

Lemma create_operations_sums spans : forall r pending r', create_operations spans r = (pending, r') ->
  msum cell_reserved (cells r') = msum cell_reserved (cells r) + zsum (sp_length <$> spans) /\
  msum cell_allocated (cells r') = msum cell_allocated (cells r) /\
  msum cell_control (cells r') = msum cell_control (cells r).
Proof.
  induction spans as [|s spans IH]; intros r pending r' H1; cbn [create_operations] in H1.
  - injection H1 as <- <-. simpl. split_and!; lia.
  - pose proof (is_fresh (dom (cells r))) as Hf. apply not_elem_of_dom in Hf.
    set (r1 := r <| cells ::= _ |>) in H1. destruct (create_operations spans r1) as [l r2] eqn:E. injection H1 as <- <-.
    destruct (IH _ _ _ E) as (-> & -> & ->). unfold r1. simpl. rewrite !msum_insert by done.
    unfold cell_reserved at 1, cell_allocated at 1, cell_control at 1. csimpl. lia.
Qed.

(** Budgets that differ in their marks only. *)
Lemma accounts_marks g g' m : accounts g m -> sg_capacity g' = sg_capacity g -> sg_resident g' = sg_resident g ->
  sg_allocated g' = sg_allocated g -> sg_peak_allocated g' = sg_peak_allocated g -> sg_controls g' = sg_controls g ->
  sg_peak_resident g' <= sg_capacity g -> accounts g' m.
Proof. intros [] E1 E2 E3 E4 E5 Hp. split; rewrite ?E1, ?E2, ?E3, ?E4, ?E5; try done. lia. Qed.

Lemma reserve_spec bytes g x g' : reserve bytes g = (x, g') ->
  match x with
  | Err e => bytes > sg_capacity g - sg_resident g /\ e = capacity_error "qwen4exp PLE staging capacity is exhausted" /\
      g' = g <| sg_rejected ::= Z.succ |>
  | Ok _ => bytes <= sg_capacity g - sg_resident g /\ g' = g <| sg_resident := sg_resident g + bytes |>
      <| sg_peak_resident ::= fun p => Z.max p (sg_resident g + bytes) |>
  end.
Proof. unfold reserve. destruct (_ >? _) eqn:E; intros [= <- <-]; bool_facts; split_and!; try done; lia. Qed.

Lemma created_accounts spans r g pending r' : accounts (staging r) (cells r) -> Forall (span_ok (source_data r)) spans ->
  reserve (zsum (sp_length <$> spans)) (staging r) = (Ok tt, g) ->
  create_operations spans (r <| staging := g |>) = (pending, r') -> accounts (staging r') (cells r').
Proof.
  intros Ha Hs Hg Hc. apply reserve_spec in Hg as [Hroom ->].
  pose proof (create_operations_sums _ _ _ _ Hc) as (S1 & S2 & S3).
  apply create_operations_spec in Hc as (P1 & _ & _ & _ & _ & _ & -> & Hold & Hnew). simpl in *.
  destruct Ha as [Hty Hre Hbu Hct Hb1 Hb2 Hb3]. split; simpl; try lia.
  intros id c Hc. destruct (decide (id ∈ pending.*2)) as [Hin|Hin]; [|rewrite Hold in Hc by done; by eapply Hty].
  apply list_elem_of_fmap in Hin as ([s id'] & -> & Hin). cbn [snd] in Hc. rewrite (Hnew _ _ Hin) in Hc. injection Hc as <-.
  split; [|done]. apply (list_elem_of_fmap_2 fst) in Hin. rewrite P1 in Hin. rewrite Forall_forall in Hs. destruct (Hs _ Hin) as (_&?&_). done.
Qed.

(** ** A batch that is published *)

Section published.
Context (r r' : reader) (pending : list (read_span * positive)) (t : positive) (owner : Z) (spans : list read_span) (futures : list positive).
Hypothesis Hr : reader_ok r.
Hypothesis Hnd2 : NoDup pending.*2.
Hypothesis Hnew : forall id, id ∈ pending.*2 -> cells r !! id = None.
Hypothesis Hspans : Forall (span_ok (source_data r)) pending.*1.
Hypothesis Hsame : source_data r' = source_data r /\ held r' = held r /\ workers r' = workers r /\
  max_source_batch_width r' = max_source_batch_width r.
Hypothesis Hqueue : queue r' = queue r ++ pending.*2.
Hypothesis Hinf1 : forall s id, inflight r' !! s = Some id -> inflight r !! s = Some id \/ (s, id) ∈ pending.
Hypothesis Hinf2 : forall s, s ∉ pending.*1 -> inflight r' !! s = inflight r !! s.
Hypothesis Hinf3 : forall s id, (s, id) ∈ pending -> inflight r' !! s = Some id.
Hypothesis Hunseen : forall s, s ∈ pending.*1 -> inflight r !! s = None.
Hypothesis Hcells1 : forall id, id ∉ pending.*2 -> cells r' !! id = cells r !! id.
Hypothesis Hcells2 : forall s id, (s, id) ∈ pending -> cells r' !! id = Some (new_cell s).
Hypothesis Htickets : tickets r !! t = None /\ tickets r' = <[t := mk_ticket owner false futures]> (tickets r).
Hypothesis Hfutures : Forall2 (fun s id => inflight r' !! s = Some id) spans futures.
Hypothesis Hacc : accounts (staging r') (cells r').
Hypothesis Hcounts : rs_queued_reads (counts r') = rs_queued_reads (counts r) + Z.of_nat (length pending) /\
  rs_active_reads (counts r') = rs_active_reads (counts r).

Lemma published_live id : id ∈ live r' <-> id ∈ live r \/ id ∈ pending.*2.
Proof. destruct Hsame as (_&_&Hw&_). unfold live. rewrite Hqueue, Hw, !elem_of_app. tauto. Qed.

Lemma published_old id c : cells r !! id = Some c -> cells r' !! id = Some c.
Proof. intros Hc. rewrite Hcells1; [done|]. intros Hin. by rewrite Hnew in Hc. Qed.

Lemma published_inflight s id : inflight r' !! s = Some id ->
  id ∈ live r' /\ exists c, cells r' !! id = Some c /\ c_span c = s.
Proof.
  intros Hi. rewrite published_live. destruct (Hinf1 s id Hi) as [Hi0|Hin].
  - destruct (ro_inflight _ Hr s id Hi0) as (Hl & c & Hc & Hs). split; [by left|]. exists c. split; [by apply published_old|done].
  - split; [right; by apply (list_elem_of_fmap_2 snd) in Hin|]. exists (new_cell s). split; [by apply Hcells2|done].
Qed.

Lemma published_wanted id : wanted r id -> wanted r' id.
Proof.
  destruct Hsame as (_&Hh&_&_), Htickets as [Hn Ht]. intros [(t' & tk & Htk & Hid)|(name & Hn')].
  - left. exists t', tk. split; [|done]. rewrite Ht, lookup_insert_ne; [done|congruence].
  - right. exists name. by rewrite Hh.
Qed.

Lemma published_futures : Forall2 (fun s id => inflight r' !! s = Some id /\ id ∈ live r' /\ exists c, cells r' !! id = Some c /\ c_span c = s) spans futures.
Proof. eapply Forall2_impl; [exact Hfutures|]. intros s id Hi. split; [done|by apply published_inflight]. Qed.

Lemma published_ok : reader_ok r' /\ keeps r r'.
Proof.
  pose proof Hsame as (E1 & E2 & E3 & E4). pose proof Htickets as [Hnt Ht]. pose proof published_futures as Hfut.
  split.
  - split; rewrite ?E1, ?E3, ?E4; try apply Hr; try done.
    + unfold live. rewrite Hqueue, E3, <- app_assoc, (Permutation_app_comm (pending.*2)), app_assoc. apply NoDup_app. split_and!; [apply Hr| |done].
      intros id Hid Hin. destruct (ro_live _ Hr id Hid) as (c & Hc & _). by rewrite Hnew in Hc.
    + intros id [Hid|Hid]%published_live.
      * destruct (ro_live _ Hr id Hid) as (c & Hc & Hi & Hres). exists c. split_and!; [by apply published_old| |done].
        rewrite Hinf2; [done|]. intros Hin. by rewrite Hunseen in Hi.
      * apply list_elem_of_fmap in Hid as ([s id'] & -> & Hin). exists (new_cell s). split_and!; [by apply Hcells2|by apply Hinf3|done].
    + apply published_inflight.
    + intros id c Hc Hn. rewrite published_live in Hn. rewrite Hcells1 in Hc by tauto. destruct (ro_dead _ Hr id c Hc) as [? ?]; [tauto|].
      split; [done|by apply published_wanted].
    + rewrite Hqueue, Forall_app. split.
      * pose proof (ro_queue _ Hr) as Hq. eapply Forall_impl; [done|]. intros id (c & Hc & ?). exists c. split; [by apply published_old|done].
      * rewrite Forall_forall. intros id Hid. apply list_elem_of_fmap in Hid as ([s id'] & -> & Hin). exists (new_cell s). split; [by apply Hcells2|done].
    + pose proof (ro_workers _ Hr) as Hw. rewrite Forall_forall in *. intros pc Hpc. apply (worker_ok_ext _ (cells r)); [|by apply Hw].
      intros id Hid. apply Hcells1. intros Hin. assert (id ∈ live r) as Hl by (unfold live; rewrite elem_of_app, active_elem; right; by exists pc).
      destruct (ro_live _ Hr id Hl) as (c & Hc & _). by rewrite Hnew in Hc.
    + rewrite Ht. intros t' tk id [[<- <-]|[_ Htk]]%lookup_insert_Some Hid.
      * simpl in Hid. apply list_elem_of_lookup in Hid as [i Hi]. destruct (Forall2_lookup_r _ _ _ _ _ Hfut Hi) as (s & _ & _ & _ & c & Hc & _). by exists c.
      * destruct (ro_tickets _ Hr t' tk id Htk Hid) as [c Hc]. exists c. by apply published_old.
    + rewrite E2. intros name id Hn. destruct (ro_held _ Hr name id Hn) as (c & bs & Hc & ?). exists c, bs. split; [by apply published_old|done].
    + intros id c Hc. destruct (decide (id ∈ pending.*2)) as [Hin|Hin]; [|rewrite Hcells1 in Hc by done; by apply (ro_spans _ Hr id)].
      apply list_elem_of_fmap in Hin as ([s id'] & -> & Hin). cbn [snd] in Hc. rewrite (Hcells2 _ _ Hin) in Hc. injection Hc as <-. simpl.
      apply (list_elem_of_fmap_2 fst) in Hin. rewrite Forall_forall in Hspans. by apply Hspans.
    + destruct Hcounts as [-> ->]. destruct (ro_counts _ Hr) as [-> ->]. rewrite Hqueue, length_app, length_fmap. lia.
  - split_and!; [|rewrite Ht; intros t' tk tk' Htk Htk'|done].
    + intros id c Hc _. exists c. split; [by apply published_old|done].
    + rewrite lookup_insert_ne in Htk' by congruence. congruence.
Qed.
End published.

(** ** [submit] *)

(** What a rejected batch leaves behind: marks of the budget and the purge of expired owners. *)
Definition unsubmitted (r r' : reader) : Prop :=
  source_data r' = source_data r /\ queue r' = queue r /\ inflight r' = inflight r /\ cells r' = cells r /\
  tickets r' = tickets r /\ held r' = held r /\ workers r' = workers r /\ stopping r' = stopping r /\
  counts r' = counts r /\ max_source_batch_width r' = max_source_batch_width r /\
  (owners r' = owners r \/ owners r' = owners (purge_owners r)) /\
  sg_capacity (staging r') = sg_capacity (staging r) /\ accounts (staging r') (cells r).

(** A batch that is accepted gets a ticket with one future for each span. *)
Definition submitted (owner : Z) (spans : list read_span) (t : positive) (r r' : reader) : Prop :=
  source_data r' = source_data r /\ held r' = held r /\ workers r' = workers r /\ stopping r' = stopping r /\
  max_source_batch_width r' = max_source_batch_width r /\ tickets r !! t = None /\
  (exists pending, queue r' = queue r ++ pending.*2 /\ NoDup pending.*1 /\
    (forall s, s ∈ pending.*1 <-> s ∈ spans /\ inflight r !! s = None) /\
    (forall s id, (s, id) ∈ pending -> cells r !! id = None /\ cells r' !! id = Some (new_cell s)) /\
    rs_coalesced_reads (counts r') = rs_coalesced_reads (counts r) + (Z.of_nat (length spans) - Z.of_nat (length pending))) /\
  (forall s id, inflight r !! s = Some id -> inflight r' !! s = Some id) /\
  exists futures, tickets r' = <[t := mk_ticket owner false futures]> (tickets r) /\
    Forall2 (fun s id => inflight r' !! s = Some id /\ id ∈ live r' /\ exists c, cells r' !! id = Some c /\ c_span c = s) spans futures.

Lemma unsubmitted_ok r r' : reader_ok r -> unsubmitted r r' -> reader_ok r' /\ keeps r r'.
Proof.
  intros Hr (E1&E2&E3&E4&E5&E6&E7&E8&E9&E10&_&_&Ha).
  assert (live r' = live r) as Hl by (unfold live; by rewrite E2, E7).
  assert (forall id, wanted r' id <-> wanted r id) as Hw by (intros id; unfold wanted; by rewrite E5, E6).
  split; [|by apply keeps_cells].
  split; rewrite ?Hl, ?E1, ?E2, ?E3, ?E4, ?E5, ?E6, ?E7, ?E9, ?E10; try done; try apply Hr.
  intros id c Hc Hn. rewrite Hw. by apply (ro_dead _ Hr).
Qed.

Lemma purge_ok r : reader_ok r -> unsubmitted r (purge_owners r).
Proof. intros Hr. unfold unsubmitted. split_and!; try done; [by right|apply (ro_accounts _ Hr)]. Qed.

(** Entries of [inflight] have live operations. *)
Lemma is_inflight_spec r s : reader_ok r -> is_inflight r s = false <-> inflight r !! s = None.
Proof.
  intros Hr. unfold is_inflight. destruct (inflight r !! s) as [id|] eqn:E; [|done]. split; [|done].
  intros Ha. apply op_alive_false in Ha. by destruct (ro_inflight _ Hr s id E).
Qed.

(** A publication that failed is undone. *)
Lemma undo_ok r r2 r3 pending owner : reader_ok r -> NoDup pending.*2 ->
  (forall id, id ∈ pending.*2 -> cells r !! id = None) ->
  (forall id, id ∉ pending.*2 -> cells r2 !! id = cells r !! id) ->
  (forall s id, (s, id) ∈ pending -> cells r2 !! id = Some (new_cell s)) ->
  (forall s, s ∈ pending.*1 -> inflight r !! s = None) ->
  frame r r2 -> inflight r2 = inflight r -> counts r2 = counts r -> sg_capacity (staging r2) = sg_capacity (staging r) ->
  accounts (staging r2) (cells r2) -> published_part pending owner r2 r3 ->
  exists r', destroy_pending pending (unpublish (length (queue r2)) (negb (bool_decide (is_Some (owners r2 !! owner)))) owner pending r3) = Some r' /\
    unsubmitted r r'.
Proof.
  intros Hr Hnd Hnone Hold Hnew Hunseen (F1&F2&F3&F4&F5&F6&F7&F8) Hinf Hcnt Hcap Ha Hp.
  destruct (unpublish_spec _ _ _ _ Hp) as ((G1&G2&G3&G4&G5&G6&G7&G8) & Hi & Hc & Hs & Hk); [by rewrite Hinf|].
  set (r4 := unpublish _ _ _ _ _) in *. clearbody r4.
  destruct (destroy_pending_spec pending r4) as (r' & Hd & ((K1&K2&K3&K4&K5&K6&K7&K8) & Hi' & Hk') & Ha' & Hcap' & Hm); try done; [congruence|by rewrite Hc|].
  exists r'. split; [done|].
  assert (cells r' = cells r) as Hcells.
  { apply map_eq. intros id. rewrite Hm, Hc. case_decide as Hin; [by rewrite Hnone|by apply Hold]. }
  unfold unsubmitted. split_and!; try congruence. left. congruence.
Qed.

Lemma purge_idem r : owners (purge_owners (purge_owners r)) = owners (purge_owners r).
Proof.
  unfold purge_owners. simpl. apply map_eq. intros k. rewrite !lookup_omap. destruct (owners r !! k) as [l|]; [|done]. simpl.
  case_match eqn:El; [done|]. simpl. rewrite list_filter_filter_l by tauto. by rewrite El.
Qed.

Lemma unsubmitted_purged r r' : unsubmitted (purge_owners r) r' -> unsubmitted r r'.
Proof.
  intros (A1&A2&A3&A4&A5&A6&A7&A8&A9&A10&Ho&A11&A12). unfold unsubmitted. simpl in *. split_and!; try done. right.
  destruct Ho as [->| ->]; [done|]. apply purge_idem.
Qed.

(** The outcome of a submission. *)
Definition submit_outcome (owner : Z) (spans : list read_span) (r : reader) (o : option (result exn positive * reader)) : Prop :=
  exists x r', o = Some (x, r') /\ reader_ok r' /\ keeps r r' /\
    match x with Err _ => unsubmitted r r' | Ok t => submitted owner spans t r r' end.

Lemma submit_rejects owner spans r e r' : reader_ok r -> unsubmitted r r' -> submit_outcome owner spans r (Some (Err e, r')).
Proof. intros Hr Hu. destruct (unsubmitted_ok r r' Hr Hu). by exists (Err e), r'. Qed.

(** The part of [submit] after the reservation. *)
Lemma submit_reserved r g wanted owner spans faults total : reader_ok r -> NoDup wanted ->
  (forall s, s ∈ wanted <-> s ∈ spans /\ inflight r !! s = None) -> Forall (span_ok (source_data r)) spans ->
  reserve (zsum (sp_length <$> wanted)) (staging r) = (Ok tt, g) ->
  submit_outcome owner spans r
    (let '(pending, r) := create_operations wanted (r <| staging := g |>) in
     let previous_queue := length (queue r) in
     let new_owner := negb (bool_decide (is_Some (owners r !! owner))) in
     let t := fresh (dom (tickets r)) in
     match publish_batch owner spans pending t faults r with
     | (Err e, r) =>
         r ← destroy_pending pending (unpublish previous_queue new_owner owner pending r);
         Some (Err e, r)
     | (Ok futures, r) =>
         let count := Z.of_nat (length spans) in
         let fresh_count := Z.of_nat (length pending) in
         Some (Ok t, r <| tickets ::= <[t := mk_ticket owner false futures]> |>
           <| counts ::= fun c => c <| rs_submitted_batches ::= Z.succ |>
                <| rs_logical_reads ::= Z.add count |> <| rs_logical_bytes ::= Z.add total |>
                <| rs_coalesced_reads ::= Z.add (count - fresh_count) |>
                <| rs_queued_reads ::= Z.add fresh_count |> |>
           <| counts ::= fun c => c <| rs_peak_queue_depth ::= fun p =>
                Z.max p (rs_queued_reads c + rs_active_reads c) |> |>)
     end).
Proof.
  intros Hr Hnd Hw Hsp Hres. destruct (create_operations wanted _) as [pending r2] eqn:Hcr.
  pose proof (created_accounts wanted r g pending r2 (ro_accounts _ Hr)) as Ha.
  assert (Forall (span_ok (source_data r)) wanted) as Hwsp by (rewrite Forall_forall in *; naive_solver).
  specialize (Ha Hwsp Hres Hcr). apply reserve_spec in Hres as [_ ->].
  apply create_operations_spec in Hcr as (P1 & P2 & P3 & Hf & P5 & P6 & P7 & P8 & P9). simpl in P3, P5, P6, P7, P8.
  pose proof Hf as (F1&F2&F3&F4&F5&F6&F7&F8). simpl in F1, F2, F3, F4, F5, F6, F7, F8.
  pose proof (is_fresh (dom (tickets r2))) as Hft. apply not_elem_of_dom in Hft.
  cbn zeta. set (t := fresh (dom (tickets r2))) in *. clearbody t. rewrite F3 in Hft.
  destruct (publish_batch owner spans pending t faults r2) as [x r3] eqn:Hp.
  apply publish_batch_spec in Hp; [|by rewrite P1]. destruct x as [futures|e].
  - destruct Hp as (A1&A2&A3&A4&A5&A6&A7&A8&A9&A10&B1&B2&B3&B4).
    match goal with |- submit_outcome _ _ _ (Some (_, ?x)) => set (r4 := x) end.
    assert (Forall2 (fun s id => inflight r4 !! s = Some id /\ id ∈ live r4 /\ exists c, cells r4 !! id = Some c /\ c_span c = s) spans futures /\ reader_ok r4 /\ keeps r r4) as (Hfut & Hok & Hk).
    { rewrite P5 in B1, B2. assert (forall s, s ∈ pending.*1 -> inflight r !! s = None) as Hun by (rewrite P1; intros s Hs; by apply Hw).
      assert (Forall (span_ok (source_data r)) pending.*1) as Hpsp by (by rewrite P1).
      assert (source_data r4 = source_data r /\ held r4 = held r /\ workers r4 = workers r /\ max_source_batch_width r4 = max_source_batch_width r) as Hsame
        by (unfold r4; simpl; split_and!; congruence).
      assert (queue r4 = queue r ++ pending.*2) as Hq by (unfold r4; simpl; congruence).
      assert (forall id, id ∉ pending.*2 -> cells r4 !! id = cells r !! id) as Hc1 by (unfold r4; simpl; rewrite A3; done).
      assert (forall s id, (s, id) ∈ pending -> cells r4 !! id = Some (new_cell s)) as Hc2 by (unfold r4; simpl; rewrite A3; done).
      assert (tickets r !! t = None /\ tickets r4 = <[t := mk_ticket owner false futures]> (tickets r)) as Htk
        by (unfold r4; simpl; split; congruence).
      assert (accounts (staging r4) (cells r4)) as Hacc by (unfold r4; simpl; congruence).
      assert (rs_queued_reads (counts r4) = rs_queued_reads (counts r) + Z.of_nat (length pending) /\ rs_active_reads (counts r4) = rs_active_reads (counts r)) as Hcn
        by (unfold r4; simpl; rewrite A7, P6; lia).
      change (inflight r3) with (inflight r4) in *.
      split; [eapply published_futures|eapply published_ok]; done. }
    eexists _, r4. split; [done|]. split_and!; try done. unfold submitted. pose proof Hft. split_and!; try congruence;
      [unfold r4; simpl; congruence..| | |].
    + exists pending. rewrite P1. split_and!; [unfold r4; simpl; congruence|done|done| |unfold r4; simpl; rewrite A7, P6; lia].
      intros s id Hin. split; [apply P3; by apply (list_elem_of_fmap_2 snd) in Hin|]. unfold r4. simpl. rewrite A3. by apply P9.
    + intros s id Hi. change (inflight r4) with (inflight r3). rewrite B2, P5; [done|]. rewrite P1. intros Hin. apply Hw in Hin as [_ Hin]. congruence.
    + exists futures. split; [unfold r4; simpl; congruence|done].
  - destruct (undo_ok r r2 r3 pending owner) as (r' & -> & Hu); try done.
    + rewrite P1. intros s Hs. by apply Hw.
    + by rewrite P7.
    + cbn [mbind option_bind]. by apply submit_rejects.
Qed.

Lemma submit_ok early faults owner spans r : reader_ok r -> Forall span_typed spans ->
  submit_outcome owner spans r (submit early faults owner spans r).
Proof.
  intros Hr Hty. unfold submit.
  assert (unsubmitted r r) as Hrefl by (unfold unsubmitted; split_and!; try done; [by left|apply (ro_accounts _ Hr)]).
  case_match; [by apply submit_rejects|]. destruct (foldM (check_span _) spans 0) as [total|] eqn:Hcheck; [|by apply submit_rejects].
  apply check_spans_ok in Hcheck as [Hsp _]; [|lia|done]. do 2 (case_match; [by apply submit_rejects|]).
  pose proof (purge_ok r Hr) as Hpu. destruct (unsubmitted_ok r _ Hr Hpu) as [Hr1 _].
  destruct (foldM (want_span _) spans ([], 0)) as [[wanted bytes]|] eqn:Hwant; [|by apply submit_rejects].
  apply want_spans_ok in Hwant as (Hndw & -> & Hw); [|constructor|done|constructor].
  case_match; [by apply submit_rejects|]. destruct (reserve _ _) as [[[]|e] g] eqn:Hres.
  - assert (forall s, s ∈ wanted <-> s ∈ spans /\ inflight (purge_owners r) !! s = None) as Hw'.
    { intros s. rewrite Hw, is_inflight_spec by done. simpl. rewrite elem_of_nil. tauto. }
    destruct (submit_reserved _ g wanted owner spans faults total Hr1 Hndw Hw' Hsp Hres) as (x & r' & Heq & Hok & Hk & Hx).
    exists x, r'. split; [exact Heq|]. split; [done|]. split; [exact Hk|]. destruct x; [exact Hx|by apply unsubmitted_purged].
  - apply submit_rejects, unsubmitted_purged; [done|]. apply reserve_spec in Hres as (_ & _ & ->). unfold unsubmitted.
    split_and!; try done; [by left|]. pose proof (ro_accounts _ Hr1) as Ha. by apply (accounts_marks (staging r)); try apply Ha.
Qed.
End publish.
