(* ===== verification/AsyncReaderTheorems.v ===== *)
(** * The asynchronous reader: what its clients get

    The reader as a system: consumers submit, await, cancel and let go, workers
    take and read, in any order.  The events record what was accepted and what
    was delivered. *)

From S2P Require Import Prelude ExpertDescriptor BlockCache AsyncReader AsyncReaderInv AsyncReaderSteps AsyncReaderSubmit.
From stdpp Require Import strings.
Open Scope string_scope.
Open Scope list_scope.
Open Scope Z_scope.

(** ** The system *)

(** Allocations that fail in a step of a worker, and the failure of its read. *)
Record worker_faults := mk_faults { wf_list : bool; wf_heap : bool; wf_control : bool; wf_read : option exn }.

Inductive reader_op :=
| Submit (early : early_fault) (faults : option nat) (owner : Z) (spans : list read_span)
| Await (t : positive) (i : nat)
| CancelTicket (t : positive)
| DropTicket (t : positive)
| DropBuffer (name : positive)
| CancelOwner (owner : Z)
| Stop
| Work (w : nat) (faults : worker_faults).

Inductive reader_event :=
| Accepted (t : positive) (spans : list read_span)
| Rejected (e : exn)
| Delivered (t : positive) (i : nat) (bytes : list Z)
| Failed (t : positive) (i : nat) (e : exn).

Section system.
Context `{ReaderSizes}.

(** One step of [worker_loop]: [None] inside when the worker waits or has left. *)
Definition worker_step (w : nat) (f : worker_faults) (r : reader) : option (option reader) :=
  match workers r !! w with
  | Some Idle => wake_worker w (wf_list f) r
  | Some (Preparing batch rest) => Some <$> prepare_step w (wf_heap f) (wf_control f) (wf_read f) batch rest r
  | Some (Finishing batch outcome) => Some <$> finish_step w batch outcome r
  | Some Exited | None => Some None
  end.

(** [None]: the process ended in [std::terminate]. *)
Definition reader_step (op : reader_op) (r : reader) : option (list reader_event * reader) :=
  match op with
  | Submit early faults owner spans =>
      '(x, r') ← submit early faults owner spans r;
      Some ([match x with Ok t => Accepted t spans | Err e => Rejected e end], r')
  | Await t i =>
      match await t i r with
      | Some (Some (Ok (_, bytes), r')) => Some ([Delivered t i bytes], r')
      | Some (Some (Err e, r')) => Some ([Failed t i e], r')
      | _ => Some ([], r)
      end
  | CancelTicket t => Some ([], cancel_ticket t r)
  | DropTicket t => r' ← drop_ticket t r; Some ([], r')
  | DropBuffer name => r' ← drop_held name r; Some ([], r')
  | CancelOwner owner => Some ([], (cancel_owner owner r).2)
  | Stop => Some ([], stop r)
  | Work w f => o ← worker_step w f r; Some ([], default r o)
  end.

(** Events, the last one first. *)
Fixpoint reader_run (ops : list reader_op) (evs : list reader_event) (r : reader) : option (list reader_event * reader) :=
  match ops with
  | [] => Some (evs, r)
  | op :: ops => '(new, r) ← reader_step op r; reader_run ops (new ++ evs) r
  end.

(** The spans that the last acceptance of a ticket was about. *)
Fixpoint last_request (t : positive) (evs : list reader_event) : option (list read_span) :=
  match evs with
  | [] => None
  | Accepted t' spans :: evs => if decide (t = t') then Some spans else last_request t evs
  | _ :: evs => last_request t evs
  end.

(** Every delivery brings the bytes of the span that was asked for. *)
Fixpoint deliveries_right (data : list Z) (evs : list reader_event) : Prop :=
  match evs with
  | [] => True
  | Delivered t i bytes :: evs =>
      (exists spans s, last_request t evs = Some spans /\ spans !! i = Some s /\ bytes = span_bytes data s) /\ deliveries_right data evs
  | _ :: evs => deliveries_right data evs
  end.

Definition op_typed (op : reader_op) : Prop := match op with Submit _ _ _ spans => Forall span_typed spans | _ => True end.

(** Workers leave when the reader stops and the queue is empty. *)
Definition exits_ok (r : reader) : Prop := Exited ∈ workers r -> stopping r = true /\ queue r = [].

(** Steps that the workers have left. *)
Definition pc_work (pc : worker) : nat :=
  match pc with Exited => 0 | Idle => 1 | Finishing _ _ => 2 | Preparing _ rest => 3 + length rest end.
Definition work (r : reader) : nat := (4 * length (queue r) + sum_list (pc_work <$> workers r))%nat.

(** Steps of the workers alone, each of which does something. *)
Fixpoint workers_run (sched : list (nat * worker_faults)) (r : reader) : option (option reader) :=
  match sched with
  | [] => Some (Some r)
  | (w, f) :: sched =>
      o ← worker_step w f r;
      match o with None => Some None | Some r => workers_run sched r end
  end.

Context `{!ReaderSizesOk}.

(** ** Workers *)

Lemma sum_insert (ws : list worker) w pc pc' : ws !! w = Some pc ->
  (sum_list (pc_work <$> <[w := pc']> ws) + pc_work pc = sum_list (pc_work <$> ws) + pc_work pc')%nat.
Proof.
  revert w. induction ws as [|x ws IH]; intros [|w] Hw; [done..| |]; simpl in Hw; [injection Hw as ->; csimpl; lia|].
  specialize (IH w Hw). csimpl. lia.
Qed.

Lemma set_worker_work r r' w pc pc' : workers r !! w = Some pc -> workers r' = <[w := pc']> (workers r) ->
  (4 * length (queue r') + pc_work pc' < 4 * length (queue r) + pc_work pc)%nat -> (work r' < work r)%nat.
Proof. intros Hw Hw' Hlt. unfold work. rewrite Hw'. pose proof (sum_insert _ _ _ pc' Hw). lia. Qed.

Lemma exits_insert r r' w pc : workers r' = <[w := pc]> (workers r) -> queue r' = queue r -> stopping r' = stopping r ->
  (pc = Exited -> stopping r = true /\ queue r = []) -> exits_ok r -> exits_ok r'.
Proof.
  intros Hw Hq Hs Hpc He Hin. rewrite Hq, Hs. rewrite Hw in Hin. apply list_elem_of_lookup in Hin as [i Hi].
  apply list_lookup_insert_Some in Hi as [(_ & -> & _)|[_ Hi]]; [by apply Hpc|]. apply He. by eapply list_elem_of_lookup_2.
Qed.

Lemma worker_step_ok r w f : reader_ok r ->
  exists o, worker_step w f r = Some o /\
    match o with
    | None => match workers r !! w with Some Idle => queue r = [] /\ stopping r = false | Some Exited | None => True | _ => False end
    | Some r' => reader_ok r' /\ keeps r r' /\ same_holders r r' /\ (work r' < work r)%nat /\ (exits_ok r -> exits_ok r')
    end.
Proof.
  intros Hr. unfold worker_step. destruct (workers r !! w) as [[|batch rest|batch outcome|]|] eqn:Hw; [| | |by eexists..].
  - destruct (wake_ok r w (wf_list f) Hr Hw) as (o & -> & Ho). exists o. split; [done|]. destruct o as [r'|]; [|done].
    destruct Ho as (Hok & Hk & Hs & Hcase). split_and!; try done.
    + destruct Hcase as [(Hq & Hstop & Hw' & Hq')|(_ & n & Hn & Hq' & [Hw'|Hw'])].
      * eapply set_worker_work; [done..|]. rewrite Hq, Hq'. simpl. lia.
      * unfold work. rewrite Hw', Hq', length_drop. lia.
      * eapply set_worker_work; [done..|]. rewrite Hq', length_drop. simpl. rewrite length_take. lia.
    + intros He. destruct Hs as (_ & _ & _ & Hst). destruct Hcase as [(Hq & Hstop & Hw' & Hq')|(Hne & n & Hn & Hq' & [Hw'|Hw'])].
      * eapply exits_insert; [done|congruence|done| |done]. by intros _.
      * intros Hin. rewrite Hw' in Hin. by destruct (He Hin).
      * intros Hin. exfalso. apply Hne. rewrite Hw' in Hin. apply list_elem_of_lookup in Hin as [i Hi].
        apply list_lookup_insert_Some in Hi as [(_ & ? & _)|[_ Hi]]; [done|]. apply He. by eapply list_elem_of_lookup_2.
  - destruct (prepare_step_ok r w (wf_heap f) (wf_control f) (wf_read f) batch rest Hr Hw) as (r' & -> & Hok & Hk & Hs & Hq & pc & Hw' & _ & Hpc).
    eexists. split; [done|]. split_and!; try done.
    + eapply set_worker_work; [done..|]. rewrite Hq. destruct rest; naive_solver (simpl; lia).
    + destruct Hs as (_ & _ & _ & Hst). eapply exits_insert; try done. intros ->. destruct rest; naive_solver.
  - destruct (finish_ok r w batch outcome Hr Hw) as (r' & -> & Hok & Hk & E1 & E2 & E3 & Hq & Hw' & Hs).
    eexists. split; [done|]. split_and!; try done.
    + eapply set_worker_work; [done..|]. rewrite Hq. simpl. lia.
    + by eapply exits_insert.
Qed.

(** ** Capacities *)

Definition caps (g : staging_budget) : Z * Z := (sg_capacity g, ac_budget (sg_controls g)).

Lemma drop_buffer_caps len g g' : drop_buffer len g = Some g' -> caps g' = caps g.
Proof.
  unfold drop_buffer, release_buffer, deallocate. intros Hd. repeat (case_match; simpl in Hd; try done). by injection Hd as <-.
Qed.

Lemma free_cell_caps id r r' : free_cell id r = Some r' -> caps (staging r') = caps (staging r).
Proof.
  unfold free_cell. destruct (cells r !! id) as [c|]; [|by intros [= ->]]. destruct (referenced r id); [by intros [= ->]|].
  destruct (c_buffer c); [|by intros [= <-]]. destruct (drop_buffer _ _) as [g|] eqn:E; [|done]. intros [= <-]. by eapply drop_buffer_caps.
Qed.

Lemma free_cells_caps ids : forall r r', free_cells ids r = Some r' -> caps (staging r') = caps (staging r).
Proof.
  induction ids as [|id ids IH]; simpl; intros r r' Hf; [by injection Hf as ->|]. destruct (free_cell id r) as [r1|] eqn:E; [|done].
  rewrite (IH r1 r' Hf). by eapply free_cell_caps.
Qed.

Lemma end_operation_caps id r r' : end_operation id r = Some r' -> caps (staging r') = caps (staging r).
Proof.
  unfold end_operation, unreserve. intros He. repeat (case_match; simpl in He; try done); by injection He as <-.
Qed.

Lemma end_operations_caps ids : forall r r', end_operations ids r = Some r' -> caps (staging r') = caps (staging r).
Proof.
  induction ids as [|id ids IH]; simpl; intros r r' Hf; [by injection Hf as ->|]. destruct (end_operation id r) as [r1|] eqn:E; [|done].
  rewrite (IH r1 r' Hf). by eapply end_operation_caps.
Qed.

Lemma forget_inflight_caps id r : staging (forget_inflight id r) = staging r.
Proof. unfold forget_inflight. by repeat case_match. Qed.

Lemma fail_queued_caps n : forall r r', fail_queued n r = Some r' -> caps (staging r') = caps (staging r).
Proof.
  induction n as [|n IH]; cbn [fail_queued]; intros r r' Hf; [by injection Hf as ->|]. destruct (queue r) as [|id rest]; [by injection Hf as ->|].
  destruct (end_operation id _) as [r1|] eqn:E1 in Hf; [|done]. cbn [mbind option_bind] in Hf.
  destruct (free_cell id r1) as [r2|] eqn:E2; [|done]. cbn [mbind option_bind] in Hf.
  rewrite (IH r2 r' Hf), (free_cell_caps _ _ _ E2), (end_operation_caps _ _ _ E1). unfold set_result. simpl. by rewrite forget_inflight_caps.
Qed.

Lemma complete_caps batch : forall outcome r r', complete batch outcome r = Some r' -> staging r' = staging r.
Proof.
  induction batch as [|id batch IH]; intros outcome r r' Hc; cbn [complete] in Hc; [by injection Hc as ->|].
  destruct outcome as [bs|e]; rewrite (IH _ _ _ Hc); unfold set_result; simpl; apply forget_inflight_caps.
Qed.

Lemma drop_buffers_caps batch : forall r r', drop_buffers batch r = Some r' -> caps (staging r') = caps (staging r).
Proof.
  induction batch as [|id batch IH]; simpl; intros r r' Hd; [by injection Hd as ->|]. destruct (cells r !! id) as [c|]; [|by apply IH].
  destruct (c_buffer c); [|by apply IH]. destruct (drop_buffer _ _) as [g|] eqn:E; [|done]. simpl in Hd. apply IH in Hd. simpl in Hd.
  rewrite Hd. by eapply drop_buffer_caps.
Qed.

Lemma prepare_step_caps w h k e batch rest r r' : prepare_step w h k e batch rest r = Some r' -> caps (staging r') = caps (staging r).
Proof.
  destruct rest as [|id rest]; cbn [prepare_step]; [by intros [= <-]|]. intros Hp.
  destruct (prepare_buffer h k id r) as [[x r1]|] eqn:E; [|done]. cbn [mbind option_bind] in Hp.
  assert (caps (staging r1) = caps (staging r)) as <-; [|by destruct x; injection Hp as <-].
  unfold prepare_buffer, note_allocated, allocate, release_buffer in E. repeat (case_match; simpl in E; try done); simplify_eq; done.
Qed.

Lemma worker_step_caps w f r r' : worker_step w f r = Some (Some r') -> caps (staging r') = caps (staging r).
Proof.
  unfold worker_step. destruct (workers r !! w) as [[|batch rest|batch outcome|]|]; try done.
  - unfold wake_worker. destruct (queue r) as [|id rest]; [destruct (stopping r); [by intros [= <-]|done]|]. destruct (wf_list f); [|by intros [= <-]].
    destruct (fail_queued _ r) as [r1|] eqn:E; [|done]. intros [= <-]. by eapply fail_queued_caps.
  - destruct (prepare_step _ _ _ _ _ _ _) as [r1|] eqn:E; [|done]. intros [= <-]. by eapply prepare_step_caps.
  - destruct (finish_step _ _ _ _) as [r1|] eqn:E; [|done]. intros [= <-]. unfold finish_step in E. cbv zeta in E.
    destruct (complete batch outcome _) as [r2|] eqn:E2 in E; [|done]. apply complete_caps in E2. cbn [mbind option_bind] in E.
    destruct (if is_ok outcome then Some r2 else drop_buffers batch r2) as [r3|] eqn:E3; [|done]. cbn [mbind option_bind] in E.
    destruct (end_operations batch r3) as [r4|] eqn:E4; [|done]. apply end_operations_caps in E4. cbn [mbind option_bind] in E.
    destruct (free_cells batch _) as [r5|] eqn:E5 in E; [|done]. apply free_cells_caps in E5. injection E as <-. simpl in *.
    rewrite E5, E4. transitivity (caps (staging r2)); [|rewrite E2; by destruct (is_ok outcome)].
    destruct (is_ok outcome); [by injection E3 as ->|by eapply drop_buffers_caps].
Qed.

Lemma reserve_caps bytes g x g' : reserve bytes g = (x, g') -> caps g' = caps g.
Proof. unfold reserve. destruct (_ >? _); by intros [= <- <-]. Qed.

Lemma publish_batch_caps owner spans pending t faults r x r' : publish_batch owner spans pending t faults r = (x, r') -> staging r' = staging r.
Proof.
  unfold publish_batch. destruct (publish_entries pending faults r) as [y r1] eqn:E1. apply publish_entries_spec in E1 as (_&_&_&_&<-&_).
  destruct y as [f|e]; [|by intros [= _ <-]]. destruct (take_futures spans r1); [|by intros [= _ <-]].
  destruct (register_owner owner t f r1) as [z r2] eqn:E2. apply register_owner_spec in E2 as (_&_&_&<-&_). by destruct z; intros [= _ <-].
Qed.

Lemma destroy_pending_caps pending : forall r r', destroy_pending pending r = Some r' -> caps (staging r') = caps (staging r).
Proof.
  induction pending as [|[s id] pending IH]; intros r r' Hd; cbn [destroy_pending] in Hd; [by injection Hd as ->|].
  unfold unreserve in Hd. case_match; [done|]. apply IH in Hd. exact Hd.
Qed.

Lemma unpublish_caps n b owner pending r : staging (unpublish n b owner pending r) = staging r.
Proof.
  unfold unpublish. pose proof (erase_entries_spec pending (r <| queue ::= take n |>)) as (_ & _ & He & _). cbn zeta in He.
  destruct b; exact He.
Qed.

Lemma submit_caps early faults owner spans r x r' : submit early faults owner spans r = Some (x, r') -> caps (staging r') = caps (staging r).
Proof.
  unfold submit. intros Hs. repeat (case_match; [by injection Hs as _ <-|]).
  destruct (foldM (check_span _) _ _) as [total|]; [|by injection Hs as _ <-]. do 2 (case_match; [by injection Hs as _ <-|]).
  destruct (foldM _ spans _) as [[wanted bytes]|]; [|by injection Hs as _ <-]. case_match; [by injection Hs as _ <-|].
  destruct (reserve _ _) as [[[]|e] g] eqn:Hres; apply reserve_caps in Hres; [|injection Hs as _ <-; exact Hres].
  destruct (create_operations wanted _) as [pending r2] eqn:Hc. apply create_operations_spec in Hc as (_&_&_&_&_&_&E2&_). simpl in E2.
  destruct (publish_batch _ _ _ _ _ _) as [[futures|e] r3] eqn:Hp; apply publish_batch_caps in Hp; cbn zeta in Hs.
  - injection Hs as _ <-. simpl. rewrite Hp, E2. exact Hres.
  - destruct (destroy_pending _ _) as [r4|] eqn:Hd; [|done]. apply destroy_pending_caps in Hd. injection Hs as _ <-.
    rewrite Hd, unpublish_caps. rewrite Hp, E2. exact Hres.
Qed.

(** ** Consumers *)

(** Steps that only mark tickets. *)
Definition marks_only (r r' : reader) : Prop :=
  same_reads r r' /\ held r' = held r /\ (stopping r = true -> stopping r' = true) /\
  forall t, t_futures <$> tickets r' !! t = t_futures <$> tickets r !! t.

#[local] Instance marks_only_preorder : PreOrder marks_only.
Proof.
  split; [done|]. intros x y z (S1 & H1 & T1 & F1) (S2 & H2 & T2 & F2). split_and!; [|congruence|auto|intros t; by rewrite F2].
  destruct S1 as (?&?&?&?&?&?&?&?&?), S2 as (?&?&?&?&?&?&?&?&?). unfold same_reads. split_and!; congruence.
Qed.

Lemma marks_ok r r' : reader_ok r -> marks_only r r' -> reader_ok r' /\ keeps r r'.
Proof.
  intros Hr (Hs & Hh & _ & Hf). pose proof Hs as (E1&_&_&_&E5&_).
  assert (forall t tk', tickets r' !! t = Some tk' -> exists tk, tickets r !! t = Some tk /\ t_futures tk = t_futures tk') as Hback.
  { intros t tk' Ht. specialize (Hf t). rewrite Ht in Hf. destruct (tickets r !! t) as [tk|]; [|done]. exists tk. naive_solver. }
  split.
  - apply (holders_ok r); try done.
    + intros id [(t & tk & Ht & Hid)|(name & Hn)]; [left|right; exists name; by rewrite Hh]. specialize (Hf t). rewrite Ht in Hf.
      destruct (tickets r' !! t) as [tk'|] eqn:Ht'; [|done]. exists t, tk'. split; [done|]. simpl in Hf. congruence.
    + intros t tk' id Ht Hid. destruct (Hback t tk' Ht) as (tk & Htk & Heq). rewrite <- Heq in Hid. by eapply (ro_tickets _ Hr).
    + rewrite Hh. apply (ro_held _ Hr).
  - split_and!; [|intros t tk tk' Ht Ht'; specialize (Hf t); rewrite Ht, Ht' in Hf; simpl in Hf; congruence|done].
    intros id c Hc _. exists c. by rewrite E5.
Qed.

Lemma cancel_ticket_marks t r : marks_only r (cancel_ticket t r).
Proof.
  unfold cancel_ticket. split_and!; try done. intros t'. simpl. destruct (decide (t = t')) as [<-|Hne].
  - rewrite lookup_alter_eq. by destruct (tickets r !! t).
  - by rewrite lookup_alter_ne.
Qed.

Lemma cancel_tickets_marks l r : marks_only r (cancel_tickets l r).2.
Proof.
  revert r. induction l as [|t l IH]; intros r; simpl; [reflexivity|].
  destruct (match tickets r !! t with Some tk => negb (t_cancelled tk) | None => false end).
  - specialize (IH (cancel_ticket t r)). destruct (cancel_tickets l _) as [n r2]. simpl in *. etransitivity; [apply cancel_ticket_marks|done].
  - specialize (IH r). by destruct (cancel_tickets l r).
Qed.

Lemma cancel_owner_marks owner r : marks_only r (cancel_owner owner r).2.
Proof.
  unfold cancel_owner. destruct (owners r !! owner) as [l|]; [|reflexivity]. pose proof (cancel_tickets_marks l r) as Hm.
  destruct (cancel_tickets l r) as [n r1]. simpl in *. etransitivity; [done|]. by split_and!.
Qed.

Lemma drop_ticket_ok t r : reader_ok r ->
  exists r', drop_ticket t r = Some r' /\ reader_ok r' /\ keeps r r' /\ tickets r' = delete t (tickets r) /\
    workers r' = workers r /\ queue r' = queue r /\ stopping r' = stopping r /\ held r' = held r.
Proof.
  intros Hr. unfold drop_ticket. destruct (tickets r !! t) as [tk|] eqn:Ht.
  - destruct (let_go_ok r (r <| tickets ::= delete t |>) (t_futures tk) Hr) as (r' & -> & Hok & Hk & ((F1&F2&F3&F4&F5&F6&F7&F8) & _)); try done.
    + simpl. intros t' tk' [_ ?]%lookup_delete_Some. done.
    + intros id [(t' & tk' & Ht' & Hid)|?]; [|left; by right]. destruct (decide (t = t')) as [<-|Hne]; [right; by simplify_eq|].
      left. left. exists t', tk'. simpl. by rewrite lookup_delete_ne.
    + exists r'. by split_and!.
  - exists r. split_and!; try done; [by apply keeps_cells|]. by rewrite delete_id.
Qed.

Lemma drop_held_ok name r : reader_ok r ->
  exists r', drop_held name r = Some r' /\ reader_ok r' /\ keeps r r' /\ tickets r' = tickets r /\
    workers r' = workers r /\ queue r' = queue r /\ stopping r' = stopping r /\ held r' = delete name (held r).
Proof.
  intros Hr. unfold drop_held. destruct (held r !! name) as [id|] eqn:Hn.
  - destruct (let_go_ok r (r <| held ::= delete name |>) [id] Hr) as (r' & Hf & Hok & Hk & ((F1&F2&F3&F4&F5&F6&F7&F8) & _)); try done.
    + simpl. intros n' id' [_ ?]%lookup_delete_Some. done.
    + intros id' [?|(n' & Hn')]; [left; by left|]. destruct (decide (name = n')) as [<-|Hne]; [right; simplify_eq; by left|].
      left. right. exists n'. simpl. by rewrite lookup_delete_ne.
    + exists r'. split; [|by split_and!]. cbn [free_cells] in Hf. by destruct (free_cell id _).
  - exists r. split_and!; try done; [by apply keeps_cells|]. by rewrite delete_id.
Qed.

(** ** The trace *)

(** Tickets refer to reads of the spans they were accepted for. *)
Definition trace_ok (evs : list reader_event) (r : reader) : Prop :=
  forall t tk, tickets r !! t = Some tk -> exists spans, last_request t evs = Some spans /\
    Forall2 (fun s id => exists c, cells r !! id = Some c /\ c_span c = s) spans (t_futures tk).

Lemma trace_at evs r r' t tk tk' : trace_ok evs r -> keeps r r' -> tickets r !! t = Some tk -> tickets r' !! t = Some tk' ->
  exists spans, last_request t evs = Some spans /\
    Forall2 (fun s id => exists c, cells r' !! id = Some c /\ c_span c = s) spans (t_futures tk').
Proof.
  intros Ht (Hk & Hf & _) Htk Htk'. destruct (Ht t tk Htk) as (spans & Hl & Hs).
  exists spans. split; [done|]. rewrite (Hf t tk tk' Htk Htk'). apply Forall2_same_length_lookup in Hs as [Hlen Hs].
  apply Forall2_same_length_lookup. split; [done|]. intros i s id Hi Hid. destruct (Hs i s id Hi Hid) as (c & Hc & Hsp).
  destruct (Hk id c Hc) as (c' & Hc' & Hsp' & _); [|exists c'; split; congruence].
  left. exists t, tk'. split; [done|]. rewrite (Hf t tk tk' Htk Htk'). by eapply list_elem_of_lookup_2.
Qed.

Lemma trace_keeps evs r r' : trace_ok evs r -> keeps r r' ->
  (forall t tk', tickets r' !! t = Some tk' -> is_Some (tickets r !! t)) -> trace_ok evs r'.
Proof. intros Ht Hk Hsub t tk' Htk'. destruct (Hsub t tk' Htk') as [tk Htk]. by eapply trace_at. Qed.

Definition system_ok (evs : list reader_event) (r : reader) : Prop :=
  reader_ok r /\ exits_ok r /\ trace_ok evs r /\ deliveries_right (source_data r) evs.

(** A step without events. *)
Lemma silent_ok evs r r' : system_ok evs r -> reader_ok r' -> exits_ok r' -> keeps r r' ->
  (forall t tk', tickets r' !! t = Some tk' -> is_Some (tickets r !! t)) -> system_ok evs r'.
Proof.
  intros (Hr & He & Ht & Hd) Hr' He' Hk Hsub. split_and!; try done; [by apply (trace_keeps _ r)|]. destruct Hk as (_ & _ & ->). done.
Qed.

Lemma exits_same r r' : exits_ok r -> workers r' = workers r -> queue r' = queue r -> (stopping r = true -> stopping r' = true) -> exits_ok r'.
Proof. intros He Hw Hq Hs Hin. rewrite Hw in Hin. destruct (He Hin) as [? ?]. rewrite Hq. auto. Qed.

Lemma marks_step evs r r' : system_ok evs r -> marks_only r r' -> system_ok evs r' /\ source_data r' = source_data r.
Proof.
  intros Hsys Hm. pose proof Hsys as (Hr & He & _). destruct (marks_ok r r' Hr Hm) as [Hok Hk]. destruct Hm as ((E1&_&E3&_&_&E6&_)&_&Hst&Hf).
  split; [|done]. apply (silent_ok evs r); try done; [by apply (exits_same r)|].
  intros t tk' Ht. specialize (Hf t). rewrite Ht in Hf. destruct (tickets r !! t); [by eexists|done].
Qed.

Lemma submit_step_ok evs r early faults owner spans : system_ok evs r -> Forall span_typed spans ->
  exists new r', reader_step (Submit early faults owner spans) r = Some (new, r') /\ system_ok (new ++ evs) r' /\ source_data r' = source_data r.
Proof.
  intros Hsys Hty. pose proof Hsys as (Hr & He & Ht & Hd). cbn [reader_step].
  destruct (submit_ok early faults owner spans r Hr Hty) as (x & r' & Hsub & Hok & Hk & Hx). rewrite Hsub. cbn [mbind option_bind].
  eexists _, r'. split; [done|]. split; [|apply Hk]. destruct x as [t|e].
  - destruct Hx as (E1&E2&E3&E4&E5&Hn&(pending & Hq & _)&_&futures&Htk&Hfut). split_and!; simpl; try done.
    + intros Hin. destruct (He ltac:(congruence)) as [Hst _]. unfold submit in Hsub. rewrite Hst in Hsub. repeat (case_match; try done).
    + intros t' tk Htk'. rewrite Htk in Htk'. simpl. apply lookup_insert_Some in Htk' as [[<- <-]|[Hne Htk']].
      * rewrite decide_True by done. exists spans. split; [done|]. eapply Forall2_impl; [done|]. simpl. naive_solver.
      * rewrite decide_False by congruence. eapply trace_at; [done..|]. rewrite Htk, lookup_insert_ne by congruence. done.
    + by rewrite E1.
  - pose proof Hx as (E1&E2&E3&E4&E5&E6&E7&E8&_). apply (silent_ok evs r); try done.
    + apply (exits_same r); [done|done|done|congruence].
    + rewrite E5. by eexists.
Qed.

Lemma step_ok evs r op : system_ok evs r -> op_typed op ->
  exists new r', reader_step op r = Some (new, r') /\ system_ok (new ++ evs) r' /\ source_data r' = source_data r.
Proof.
  intros Hsys Hty. destruct op as [early faults owner spans|t i|t|t|name|owner| |w f]; [by apply submit_step_ok|..];
    pose proof Hsys as (Hr & He & Ht & Hd); cbn [reader_step].
  - destruct (await t i r) as [[[x r']|]|] eqn:Ha; [|by exists [], r..].
    pose proof (await_ok r t i x r' Hr Ha) as (Hok & Hk & (E1&E2&E3&E4&E5&E6&E7&E8&E9) & Htk & tk & id & c & H1 & H2 & H3 & Hx).
    assert (system_ok evs r') as (_ & He' & Ht' & Hd').
    { apply (silent_ok evs r); try done; [|rewrite Htk; by eexists]. apply (exits_same r); try done. unfold await in Ha.
      rewrite H1 in Ha. simpl in Ha. rewrite H2 in Ha. simpl in Ha. rewrite H3 in Ha. simpl in Ha. repeat case_match; simplify_eq; done. }
    destruct x as [[name bytes]|e]; eexists _, r'; (split; [done|split; [split_and!; simpl; try done|done]]).
    destruct Hx as (_ & _ & ->). destruct (Ht t tk H1) as (spans & Hl & Hs). rewrite E1.
    destruct (Forall2_lookup_r _ _ _ _ _ Hs H2) as (s & Hsi & c' & Hc' & <-). split; [|done]. exists spans, (c_span c'). split_and!; try done. congruence.
  - pose proof (marks_step evs r _ Hsys (cancel_ticket_marks t r)) as [? ?]. by eexists [], _.
  - destruct (drop_ticket_ok t r Hr) as (r' & -> & Hok & Hk & Htk & Hw & Hq & Hs & _). eexists [], r'. split; [done|]. split; [|apply Hk].
    apply (silent_ok evs r); try done; [apply (exits_same r); [done..|congruence]|]. rewrite Htk. intros t' tk' [_ ?]%lookup_delete_Some. by eexists.
  - destruct (drop_held_ok name r Hr) as (r' & -> & Hok & Hk & Htk & Hw & Hq & Hs & _). eexists [], r'. split; [done|]. split; [|apply Hk].
    apply (silent_ok evs r); try done; [apply (exits_same r); [done..|congruence]|]. rewrite Htk. by eexists.
  - pose proof (marks_step evs r _ Hsys (cancel_owner_marks owner r)) as [? ?]. by eexists [], _.
  - assert (marks_only r (stop r)) as Hm by (by split_and!). pose proof (marks_step evs r _ Hsys Hm) as [? ?]. by eexists [], _.
  - destruct (worker_step_ok r w f Hr) as (o & -> & Ho). cbn [mbind option_bind]. destruct o as [r'|]; [|by exists [], r].
    destruct Ho as (Hok & Hk & (Htk & _) & _ & Hex). exists [], r'. split; [done|]. split; [|apply Hk].
    apply (silent_ok evs r); try done; [by apply Hex|]. rewrite Htk. by eexists.
Qed.

Lemma await_staging t i x r r' : await t i r = Some (Some (x, r')) -> staging r' = staging r.
Proof.
  unfold await. destruct (tickets r !! t) as [tk|]; [|done]. cbn [mbind option_bind]. destruct (t_futures tk !! i) as [id|]; [|done].
  cbn [mbind option_bind]. destruct (cells r !! id) as [c|]; [|done]. cbn [mbind option_bind].
  by destruct (c_result c) as [[bs|e]|]; intros Ha; simplify_eq.
Qed.

Lemma step_caps op r new r' : reader_step op r = Some (new, r') -> caps (staging r') = caps (staging r).
Proof.
  destruct op as [early faults owner spans|t i|t|t|name|owner| |w f]; cbn [reader_step]; intros Hs.
  - destruct (submit _ _ _ _ r) as [[x r1]|] eqn:E; [|done]. injection Hs as _ <-. by eapply submit_caps.
  - destruct (await t i r) as [[[[[nm bs]|e] r1]|]|] eqn:Ha; simplify_eq/=; try done; by rewrite (await_staging _ _ _ _ _ Ha).
  - by injection Hs as _ <-.
  - unfold drop_ticket in Hs. destruct (tickets r !! t); [|by injection Hs as _ <-].
    destruct (free_cells _ _) as [r1|] eqn:E; [|done]. injection Hs as _ <-. apply free_cells_caps in E. exact E.
  - unfold drop_held in Hs. destruct (held r !! name); [|by injection Hs as _ <-].
    destruct (free_cell _ _) as [r1|] eqn:E; [|done]. injection Hs as _ <-. apply free_cell_caps in E. exact E.
  - injection Hs as _ <-. destruct (cancel_owner_marks owner r) as ((_&->&_)&_). done.
  - by injection Hs as _ <-.
  - destruct (worker_step w f r) as [[r1|]|] eqn:E; simplify_eq/=; [|done]. by eapply worker_step_caps.
Qed.

Lemma run_ok ops : forall evs r evs' r', system_ok evs r -> Forall op_typed ops -> reader_run ops evs r = Some (evs', r') ->
  system_ok evs' r' /\ source_data r' = source_data r /\ caps (staging r') = caps (staging r).
Proof.
  induction ops as [|op ops IH]; intros evs r evs' r' Hsys Hty Hrun; cbn [reader_run] in Hrun; [by injection Hrun as <- <-|].
  apply Forall_cons in Hty as [Hop Hty]. destruct (step_ok evs r op Hsys Hop) as (new & r1 & Hst & Hsys1 & Hsrc). rewrite Hst in Hrun.
  cbn [mbind option_bind] in Hrun. destruct (IH _ _ _ _ Hsys1 Hty Hrun) as (? & ? & ?). apply step_caps in Hst. split_and!; [done|congruence..].
Qed.

Lemma make_reader_ok identity data n capacity width budget r : 0 <= capacity -> 0 <= budget ->
  make_reader identity data n capacity width budget = Ok r ->
  system_ok [] r /\ source_data r = data /\ caps (staging r) = (capacity, budget).
Proof.
  intros Hcap Hbud Hm. unfold make_reader, make_staging in Hm. destruct (capacity =? 0) eqn:E0; [done|].
  simpl in Hm. destruct (n =? 0)%nat eqn:E1; [done|]. destruct (_ || _) eqn:E2; [done|]. destruct (identity_is_zero identity); [done|].
  injection Hm as <-. apply Nat.eqb_neq in E1. apply orb_false_iff in E2 as [E2 _]. apply Nat.eqb_neq in E2.
  assert (active (replicate n Idle) = []) as Hact by (clear; induction n; [done|exact IHn]).
  split; [|done]. split_and!; [| |by intros ? ? ?|done].
  - split; unfold live; simpl; rewrite ?Hact; simpl; try done; try (by intros ? ?%elem_of_nil); try (by constructor).
    + by apply Forall_replicate.
    + rewrite length_replicate. lia.
  - intros Hin. simpl in Hin. by apply elem_of_replicate in Hin as [? _].
Qed.

(** ** Claims *)

(** States of the system that runs can reach. *)
Definition reader_reachable (identity : source_identity) (data : list Z) (n : nat) (capacity : Z) (width : nat) (budget : Z)
    (evs : list reader_event) (r : reader) : Prop :=
  0 <= capacity /\ 0 <= budget /\ exists ops r0, make_reader identity data n capacity width budget = Ok r0 /\
    Forall op_typed ops /\ reader_run ops [] r0 = Some (evs, r).

Section reachable.
Context (identity : source_identity) (data : list Z) (n : nat) (capacity : Z) (width : nat) (budget : Z).
Context (evs : list reader_event) (r : reader) (Hreach : reader_reachable identity data n capacity width budget evs r).

Lemma reader_reachable_ok : system_ok evs r /\ source_data r = data /\ caps (staging r) = (capacity, budget).
Proof.
  destruct Hreach as (Hc & Hb & ops & r0 & Hm & Hty & Hrun). destruct (make_reader_ok _ _ _ _ _ _ _ Hc Hb Hm) as (Hsys & Hs & Hcaps).
  destruct (run_ok _ _ _ _ _ Hsys Hty Hrun) as (? & ? & ?). split_and!; [done|congruence..].
Qed.
End reachable.

(** C28: Whatever consumers and workers do and in whatever order, a future that
    delivers brings the bytes of the source at the span that its ticket was
    accepted for, and a buffer that a consumer holds stays allocated with the
    bytes of its span, whoever drops or cancels tickets meanwhile. *)
Theorem delivered_reads_are_right identity data n capacity width budget evs r :
  reader_reachable identity data n capacity width budget evs r ->
  deliveries_right data evs /\
  forall name id, held r !! name = Some id -> exists c, cells r !! id = Some c /\ c_buffer c = true /\
    c_result c = Some (Ok (span_bytes data (c_span c))).
Proof.
  intros Hreach. destruct (reader_reachable_ok _ _ _ _ _ _ _ _ Hreach) as ((Hr & _ & _ & Hd) & <- & _). split; [done|].
  intros name id Hn. destruct (ro_held _ Hr name id Hn) as (c & bytes & Hc & Hres). exists c.
  destruct (decide (id ∈ live r)) as [Hl|Hl].
  - destruct (ro_live _ Hr id Hl) as (c' & Hc' & _ & Hno). congruence.
  - destruct (ro_dead _ Hr id c Hc Hl) as [[_ Hset] _]. rewrite Hres in Hset. destruct Hset as [-> ?]. done.
Qed.

(** C29: No step ends the process: the budget is never asked to give back more than
    it has, so [std::terminate] is out of reach.  Reservations and buffers stay
    within the capacity, control blocks within their budget, and when no read,
    ticket or consumer is left all of them are back to zero. *)
Theorem staging_is_balanced identity data n capacity width budget evs r :
  reader_reachable identity data n capacity width budget evs r ->
  (forall op, op_typed op -> is_Some (reader_step op r)) /\
  sg_resident (staging r) <= capacity /\ sg_peak_resident (staging r) <= capacity /\
  sg_allocated (staging r) <= capacity /\ sg_peak_allocated (staging r) <= capacity /\
  ac_allocated (sg_controls (staging r)) <= budget /\
  (live r = [] -> tickets r = ∅ -> held r = ∅ ->
   cells r = ∅ /\ sg_resident (staging r) = 0 /\ sg_allocated (staging r) = 0 /\ ac_allocated (sg_controls (staging r)) = 0).
Proof.
  intros Hreach. destruct (reader_reachable_ok _ _ _ _ _ _ _ _ Hreach) as (Hsys & _ & [= <- <-]).
  pose proof Hsys as (Hr & _). destruct (ro_accounts _ Hr) as [_ Hre Hbu Hct [? ?] [? ?] [? ?]]. split; [|split_and!; try done].
  - intros op Hty. destruct (step_ok evs r op Hsys Hty) as (new & r' & -> & _). by eexists.
  - intros Hl Ht Hh. assert (cells r = ∅) as Hempty.
    { apply map_eq. intros id. rewrite lookup_empty. apply eq_None_not_Some. intros [c Hc].
      destruct (ro_dead _ Hr id c Hc) as [_ [(t & tk & Htk & _)|(name & Hn)]]; [rewrite Hl; by intros ?%elem_of_nil|..];
        [by rewrite Ht in Htk|by rewrite Hh in Hn]. }
    rewrite Hempty, !msum_empty in *. done.
Qed.

(** *** What a refused batch does to the staging budget *)

Definition capacity_refusal (e : exn) : bool := match e with capacity_error _ => true | _ => false end.

(** The marks of the budget that a reservation and its return leave alone. *)
Definition marks (g : staging_budget) : Z * Z * Z * Z * allocation_counter :=
  (sg_capacity g, sg_peak_resident g, sg_rejected g, sg_peak_allocated g, sg_controls g).

Lemma foldM_err {A B} (f : A -> B -> result exn A) (P : exn -> Prop) l :
  (forall a b e, f a b = Err e -> P e) -> forall a e, foldM f l a = Err e -> P e.
Proof.
  intros Hf. induction l as [|b l IH]; intros a e He; [done|]. simpl in He. destruct (f a b) as [a'|e'] eqn:E; [by apply (IH a')|].
  injection He as <-. by eapply Hf.
Qed.

Lemma create_operations_staging spans : forall r, staging (create_operations spans r).2 = staging r.
Proof.
  induction spans as [|s spans IH]; intros r; [done|]. simpl.
  set (r1 := r <| cells ::= _ |>). specialize (IH r1). destruct (create_operations spans r1) as [l r2]. exact IH.
Qed.

Lemma publish_entries_staging l : forall faults r, staging (publish_entries l faults r).2 = staging r /\
  (forall e, (publish_entries l faults r).1 = Err e -> capacity_refusal e = false).
Proof.
  induction l as [|[s id] l IH]; intros faults r; [done|]. simpl. destruct (spend faults) as [f1|]; [|split; [done|by intros e [= <-]]].
  destruct (spend f1) as [f2|]; [|split; [done|by intros e [= <-]]].
  match goal with |- context [publish_entries l ?f ?r'] => exact (IH f r') end.
Qed.

Lemma take_futures_err spans r e : take_futures spans r = Err e -> capacity_refusal e = false.
Proof.
  induction spans as [|s spans IH]; simpl; [done|]. destruct (inflight r !! s) as [id|]; [|by intros [= <-]].
  destruct (op_alive r id); [|by intros [= <-]]. destruct (take_futures spans r); [done|]. intros [= <-]. by apply IH.
Qed.

Lemma publish_batch_staging owner spans pending t faults r : staging (publish_batch owner spans pending t faults r).2 = staging r /\
  (forall e, (publish_batch owner spans pending t faults r).1 = Err e -> capacity_refusal e = false).
Proof.
  unfold publish_batch. destruct (publish_entries_staging pending faults r) as [Hs He].
  destruct (publish_entries pending faults r) as [[f|e] r1]; simpl in *; [|split; [done|]; intros e' [= <-]; by apply He].
  destruct (take_futures spans r1) as [futures|e] eqn:Et; [|split; [done|]; intros e' [= <-]; by eapply take_futures_err].
  unfold register_owner. destruct (if bool_decide _ then _ else _); [|split; [done|by intros e [= <-]]].
  destruct (spend _); [done|]. split; [done|by intros e [= <-]].
Qed.

Lemma unpublish_staging n new_owner owner pending r : staging (unpublish n new_owner owner pending r) = staging r.
Proof.
  unfold unpublish. set (r1 := foldl _ _ pending). assert (staging r1 = staging r) as Hs.
  { unfold r1. clear. set (r0 := r <| queue ::= take n |>). assert (staging r0 = staging r) as <- by done. clearbody r0.
    revert r0. induction pending as [|[s id] pending IH]; intros r0; [done|]. simpl. rewrite IH. by case_bool_decide. }
  by destruct new_owner.
Qed.

Lemma destroy_pending_marks pending : forall r r', destroy_pending pending r = Some r' -> marks (staging r') = marks (staging r).
Proof.
  induction pending as [|[s id] pending IH]; intros r r' Hd; simpl in Hd; [by injection Hd as <-|].
  apply bind_Some in Hd as (g & Hu & Hd). apply IH in Hd. rewrite Hd. unfold unreserve in Hu. destruct (_ >? _); [done|]. by injection Hu as <-.
Qed.

Definition marks_after (g : staging_budget) (e : exn) (g' : staging_budget) : Prop :=
  sg_peak_allocated g' = sg_peak_allocated g /\ sg_controls g' = sg_controls g /\
  sg_rejected g' = sg_rejected g + (if capacity_refusal e then 1 else 0) /\
  sg_peak_resident g <= sg_peak_resident g' /\ (capacity_refusal e = true -> sg_peak_resident g' = sg_peak_resident g).

Lemma refused_marks early faults owner spans r e r' : submit early faults owner spans r = Some (Err e, r') ->
  marks_after (staging r) e (staging r').
Proof.
  intros Hs. assert (Hnone : staging r' = staging r -> capacity_refusal e = false -> marks_after (staging r) e (staging r')).
  { intros -> He. unfold marks_after. rewrite He. split_and!; try done; lia. }
  unfold submit in Hs. destruct (length spans =? 0)%nat; [injection Hs as <- <-; by apply Hnone|].
  destruct (foldM (check_span _) spans 0) as [total|e1] eqn:Ec.
  2: { injection Hs as <- <-. apply Hnone; [done|]. revert Ec. apply (foldM_err _ (fun e => capacity_refusal e = false)).
       intros a b e. unfold check_span. repeat case_match; try done; by intros [= <-]. }
  case_bool_decide; [injection Hs as <- <-; by apply Hnone|]. destruct (stopping r); [injection Hs as <- <-; by apply Hnone|].
  destruct (foldM (want_span _) spans _) as [[wanted bytes]|e1] eqn:Ew.
  2: { injection Hs as <- <-. apply Hnone; [done|]. revert Ew. apply (foldM_err _ (fun e => capacity_refusal e = false)).
       intros [pending n] b e. unfold want_span. repeat case_match; try done; by intros [= <-]. }
  case_bool_decide; [injection Hs as <- <-; by apply Hnone|].
  unfold reserve in Hs. change (staging (purge_owners r)) with (staging r) in Hs. destruct (bytes >? _).
  { injection Hs as <- <-. unfold marks_after. cbn. split_and!; try done; lia. }
  set (g := (staging r) <| sg_resident := _ |> <| sg_peak_resident ::= _ |>) in Hs.
  pose proof (create_operations_staging wanted (purge_owners r <| staging := g |>)) as Hc.
  destruct (create_operations wanted _) as [pending r2]. simpl in Hc.
  pose proof (publish_batch_staging owner spans pending (fresh (dom (tickets r2))) faults r2) as [Hp He].
  destruct (publish_batch _ _ _ _ _ r2) as [[futures|e2] r3]; [done|]. apply bind_Some in Hs as (r4 & Hd & [= <- <-]).
  apply destroy_pending_marks in Hd. rewrite unpublish_staging in Hd. simpl in Hp. rewrite Hp, Hc in Hd.
  unfold marks_after. rewrite (He e2 eq_refl). unfold marks in Hd. simpl in Hd. injection Hd as _ -> -> -> ->. split_and!; try done; simpl; lia.
Qed.

(** C30: A batch that is refused, be it for its spans, the capacity, a stopping reader
    or an allocation that failed halfway through the publication, leaves queue,
    reads in flight, operations, tickets, held buffers, workers and the reader's
    read counters as they were, and all that was reserved for it is given back:
    the resident and the allocated staging bytes, the peak of the latter and the
    control blocks are as before.  Owner records keep their content or lose only
    expired tickets.  The one counter that moves is [staging_rejected_batches], by
    one when the staging capacity refused the batch and not at all otherwise;
    the peak of the reserved bytes does not fall, and a refusal for capacity does
    not raise it. *)
Theorem rejected_batches_leave_no_trace identity data n capacity width budget evs r early faults owner spans e r' :
  reader_reachable identity data n capacity width budget evs r -> Forall span_typed spans ->
  submit early faults owner spans r = Some (Err e, r') ->
  queue r' = queue r /\ inflight r' = inflight r /\ cells r' = cells r /\ tickets r' = tickets r /\ held r' = held r /\
  workers r' = workers r /\ counts r' = counts r /\
  sg_resident (staging r') = sg_resident (staging r) /\ sg_allocated (staging r') = sg_allocated (staging r) /\
  (owners r' = owners r \/ owners r' = owners (purge_owners r)) /\
  sg_peak_allocated (staging r') = sg_peak_allocated (staging r) /\ sg_controls (staging r') = sg_controls (staging r) /\
  sg_rejected (staging r') = sg_rejected (staging r) + (if capacity_refusal e then 1 else 0) /\
  sg_peak_resident (staging r) <= sg_peak_resident (staging r') /\
  (capacity_refusal e = true -> sg_peak_resident (staging r') = sg_peak_resident (staging r)).
Proof.
  intros Hreach Hty Hs. destruct (reader_reachable_ok _ _ _ _ _ _ _ _ Hreach) as ((Hr & _) & _).
  destruct (submit_ok early faults owner spans r Hr Hty) as (x & r1 & Hs' & _ & _ & Hx). rewrite Hs in Hs'. injection Hs' as <- <-.
  destruct Hx as (E1&E2&E3&E4&E5&E6&E7&E8&E9&E10&Ho&_&Ha). pose proof (ro_accounts _ Hr) as Ha0.
  destruct (refused_marks _ _ _ _ _ _ _ Hs) as (M1 & M2 & M3 & M4 & M5). split_and!; try done.
  - by rewrite (ac_resident _ _ Ha), (ac_resident _ _ Ha0).
  - by rewrite (ac_buffers _ _ Ha), (ac_buffers _ _ Ha0).
Qed.

(** C32: Equal spans share one read, in every state of a reader at work: operations that are alive have different spans, an
    accepted batch creates one operation for each span of it that is not in flight,
    every other span gets the future of the read in flight, and [coalesced_reads]
    counts exactly the reads that were saved. *)
Theorem equal_spans_share_a_read identity data n capacity width budget evs r early faults owner spans t r' :
  reader_reachable identity data n capacity width budget evs r -> Forall span_typed spans ->
  submit early faults owner spans r = Some (Ok t, r') ->
  (forall id1 id2 c1 c2, id1 ∈ live r' -> id2 ∈ live r' -> cells r' !! id1 = Some c1 -> cells r' !! id2 = Some c2 ->
     c_span c1 = c_span c2 -> id1 = id2) /\
  exists new futures, queue r' = queue r ++ new /\ NoDup (spans_of r' new) /\
    (forall s, s ∈ spans_of r' new <-> s ∈ spans /\ inflight r !! s = None) /\
    tickets r' = <[t := mk_ticket owner false futures]> (tickets r) /\
    Forall2 (fun s id => id ∈ live r' /\ (exists c, cells r' !! id = Some c /\ c_span c = s) /\
      forall id0, inflight r !! s = Some id0 -> id = id0) spans futures /\
    rs_coalesced_reads (counts r') = rs_coalesced_reads (counts r) + Z.of_nat (length spans) - Z.of_nat (length new).
Proof.
  intros Hreach Hty Hs. destruct (reader_reachable_ok _ _ _ _ _ _ _ _ Hreach) as ((Hr & _) & _).
  destruct (submit_ok early faults owner spans r Hr Hty) as (x & r1 & Hs' & Hok & _ & Hx). rewrite Hs in Hs'. injection Hs' as <- <-.
  destruct Hx as (_&_&_&_&_&_&(pending & Hq & Hnd & Hin & Hnew & Hco)&Hold&futures&Htk&Hfut). split.
  - intros id1 id2 c1 c2 H1 H2 Hc1 Hc2 Heq. destruct (ro_live _ Hok id1 H1) as (c & Hc & Hi1 & _). destruct (ro_live _ Hok id2 H2) as (c' & Hc' & Hi2 & _).
    simplify_eq. rewrite Heq in Hi1. congruence.
  - assert (spans_of r' pending.*2 = pending.*1) as Hsp.
    { clear -Hnew. induction pending as [|[s id] pending IH]; [done|]. unfold spans_of in *. csimpl.
      destruct (Hnew s id ltac:(by left)) as [_ ->]. csimpl. f_equal. apply IH. intros. apply Hnew. by right. }
    exists pending.*2, futures. rewrite Hsp, length_fmap. split_and!; try done; [|lia].
    eapply Forall2_impl; [done|]. intros s id (Hi & Hl & Hc). split_and!; try done. intros id0 Hi0. specialize (Hold s id0 Hi0). congruence.
Qed.

(** ** Progress *)

(** No worker has anything to do. *)
Definition at_rest (r : reader) : Prop := forall w f, worker_step w f r = Some None.

Lemma workers_run_ok sched : forall r, reader_ok r ->
  exists o, workers_run sched r = Some o /\ match o with None => True | Some r' => reader_ok r' /\ (length sched + work r' <= work r)%nat end.
Proof.
  induction sched as [|[w f] sched IH]; intros r Hr; cbn [workers_run]; [exists (Some r); split; [done|]; split; [done|simpl; lia]|].
  destruct (worker_step_ok r w f Hr) as (o & -> & Ho). cbn [mbind option_bind]. destruct o as [r1|]; [|by eexists].
  destruct Ho as (Hr1 & _ & _ & Hlt & _). destruct (IH r1 Hr1) as (o & -> & Ho). exists o. split; [done|]. destruct o as [r2|]; [|done].
  destruct Ho as [? ?]. split; [done|]. simpl. lia.
Qed.

#[local] Instance can_step_dec w f r : Decision (exists r', worker_step w f r = Some (Some r')).
Proof. destruct (worker_step w f r) as [[r'|]|]; [left; by exists r'|right; naive_solver..]. Defined.

Lemma rest_or_step r : reader_ok r -> at_rest r \/ exists w f r', worker_step w f r = Some (Some r').
Proof.
  intros Hr. set (f0 := mk_faults false false false None).
  destruct (decide (Exists (fun w => exists r', worker_step w f0 r = Some (Some r')) (seq 0 (length (workers r))))) as [Hex|Hno].
  { apply Exists_exists in Hex as (w & _ & r' & Hw). right. by exists w, f0, r'. }
  left. intros w f. destruct (worker_step_ok r w f Hr) as ([r'|] & Hw & Ho); [exfalso|done]. apply Hno, Exists_exists. exists w.
  assert (is_Some (workers r !! w)) as [pc Hpc] by (unfold worker_step in Hw; destruct (workers r !! w); [by eexists|done]).
  split; [apply elem_of_seq; apply lookup_lt_Some in Hpc; lia|].
  destruct (worker_step_ok r w f0 Hr) as ([r2|] & Hw2 & Ho2); [by exists r2|exfalso]. rewrite Hpc in Ho2.
  unfold worker_step in Hw. rewrite Hpc in Hw. destruct pc; try done. destruct Ho2 as [Hq Hs]. unfold wake_worker in Hw. by rewrite Hq, Hs in Hw.
Qed.

Lemma rest_reached r : reader_ok r -> exists sched r', workers_run sched r = Some (Some r') /\ at_rest r'.
Proof.
  intros Hr. remember (work r) as m eqn:Hm. revert r Hr Hm. induction m as [m IH] using lt_wf_ind. intros r Hr ->.
  destruct (rest_or_step r Hr) as [Hrest|(w & f & r1 & Hst)]; [by exists [], r|].
  destruct (worker_step_ok r w f Hr) as (o & Ho & Hok). rewrite Hst in Ho. injection Ho as <-. destruct Hok as (Hr1 & _ & _ & Hlt & _).
  destruct (IH _ Hlt r1 Hr1 eq_refl) as (sched & r' & Hrun & Hrest). exists ((w, f) :: sched), r'. split; [|done]. simpl. by rewrite Hst.
Qed.

(** At rest every read is over. *)
Lemma rest_quiet r : reader_ok r -> exits_ok r -> at_rest r -> live r = [] /\ (stopping r = true -> Forall (eq Exited) (workers r)).
Proof.
  intros Hr He Hrest.
  assert (Forall (fun pc => pc = Exited \/ pc = Idle /\ queue r = [] /\ stopping r = false) (workers r)) as Hall.
  { apply Forall_lookup. intros w pc Hpc. set (f0 := mk_faults false false false None). destruct (worker_step_ok r w f0 Hr) as (o & Ho & Hok).
    rewrite (Hrest w f0) in Ho. injection Ho as <-. rewrite Hpc in Hok. destruct pc; naive_solver. }
  split.
  - unfold live. assert (active (workers r) = []) as ->.
    { unfold active. clear -Hall. induction Hall as [|pc ws Hpc _ IH]; [done|]. csimpl. rewrite IH. by destruct Hpc as [->|[-> _]]. }
    rewrite app_nil_r. destruct (ro_width _ Hr) as [_ Hlen]. destruct (workers r) as [|pc ws] eqn:Ew; [simpl in Hlen; lia|].
    apply Forall_cons in Hall as [[->|(_ & ? & _)] _]; [|done]. apply He. rewrite Ew. by left.
  - intros Hs. eapply Forall_impl; [done|]. intros pc [->|(_ & _ & ?)]; [done|congruence].
Qed.

Lemma exits_run sched : forall r r', reader_ok r -> exits_ok r -> workers_run sched r = Some (Some r') -> exits_ok r'.
Proof.
  induction sched as [|[w f] sched IH]; intros r r' Hr He Hrun; cbn [workers_run] in Hrun; [by injection Hrun as <-|].
  destruct (worker_step_ok r w f Hr) as (o & Ho & Hok). rewrite Ho in Hrun. cbn [mbind option_bind] in Hrun. destruct o as [r1|]; [|done].
  destruct Hok as (Hr1 & _ & _ & _ & He1). apply (IH r1); auto.
Qed.

(** C31: The workers get through: a run of workers alone takes at most [work r] steps,
    whatever allocations and reads fail in it, the workers can always go on to
    the point where none of them has anything to do, and there every ticket is
    ready, no operation is left, and a reader that stops has lost all its
    workers, so that the destructor can join them. *)
Theorem workers_serve_every_ticket identity data n capacity width budget evs r :
  reader_reachable identity data n capacity width budget evs r ->
  (exists sched r', workers_run sched r = Some (Some r') /\ at_rest r') /\
  forall sched r', workers_run sched r = Some (Some r') ->
    (length sched <= work r)%nat /\
    (at_rest r' -> live r' = [] /\ (forall t, is_Some (tickets r' !! t) -> ticket_ready t r' = true) /\
       (stopping r' = true -> Forall (eq Exited) (workers r'))).
Proof.
  intros Hreach. destruct (reader_reachable_ok _ _ _ _ _ _ _ _ Hreach) as ((Hr & He & _) & _). split; [by apply rest_reached|].
  intros sched r' Hrun. destruct (workers_run_ok sched r Hr) as (o & Ho & Hok). rewrite Hrun in Ho. injection Ho as <-. destruct Hok as [Hr' Hlen].
  split; [lia|]. intros Hrest. destruct (rest_quiet r' Hr') as [Hl Hex]; [by apply (exits_run sched r)|done|]. split_and!; try done.
  intros t [tk Ht]. unfold ticket_ready. rewrite Ht. apply forallb_forall. intros id Hid%list_elem_of_In.
  destruct (ro_tickets _ Hr' t tk id Ht Hid) as [c Hc]. rewrite Hc. apply bool_decide_eq_true.
  destruct (ro_dead _ Hr' id c Hc) as [[_ Hset] _]; [rewrite Hl; by intros ?%elem_of_nil|]. destruct (c_result c); [by eexists|done].
Qed.
End system.

(** ** A reader at work *)

#[local] Instance demo_sizes : ReaderSizes := {| vec_capacity n := n; control_bytes := 48 |}.
#[local] Instance demo_sizes_ok : ReaderSizesOk.
Proof. split; [intros n Hn; unfold vec_capacity; simpl; lia|vm_compute; discriminate]. Qed.

Definition demo_identity : source_identity := mk_identity 7 1.
Definition demo_source : list Z := [10; 11; 12; 13; 14; 15; 16; 17].
Definition no_faults : worker_faults := mk_faults false false false None.
Definition demo_reader : reader := match make_reader demo_identity demo_source 2 16 2 200 with Ok r => r | Err _ =>
  mk_reader [] (mk_staging 0 0 0 0 0 0 (mk_counter 0 0 0)) [] ∅ ∅ ∅ ∅ ∅ [] false (mk_read_stats 0 0 0 0 0 0 0 0 0 0 0 0 0) 0 end.

(** Two owners ask for overlapping batches; one worker reads; the first owner takes a buffer and drops its ticket. *)
Definition demo_reads : list reader_op :=
  [Submit NoFault None 1 [mk_span 0 3; mk_span 4 2]; Submit NoFault None 2 [mk_span 4 2];
   Work 0 no_faults; Work 0 no_faults; Work 0 no_faults; Work 0 no_faults; Work 0 no_faults;
   Await 1 0; CancelOwner 2; DropTicket 1; Await 2 0].
Definition demo_evs : list reader_event := default [] (fst <$> reader_run demo_reads [] demo_reader).
Definition demo_state : reader := default demo_reader (snd <$> reader_run demo_reads [] demo_reader).

Ltac typed_spans :=
  repeat (apply Forall_cons_2 || apply Forall_nil_2); try exact I;
  repeat (apply Forall_cons_2 || apply Forall_nil_2); (split; split; vm_compute; discriminate).

Lemma demo_state_reachable : reader_reachable demo_identity demo_source 2 16 2 200 demo_evs demo_state.
Proof.
  split_and!; [lia|lia|]. exists demo_reads, demo_reader. split; [vm_compute; reflexivity|]. split; [|vm_compute; reflexivity].
  typed_spans.
Qed.

Lemma delivered_reads_are_right_witness :
  demo_evs = [Delivered 2 0 [14; 15]; Delivered 1 0 [10; 11; 12]; Accepted 2 [mk_span 4 2]; Accepted 1 [mk_span 0 3; mk_span 4 2]] /\
  deliveries_right demo_source demo_evs.
Proof.
  split; [vm_compute; reflexivity|].
  exact (proj1 (delivered_reads_are_right demo_identity demo_source 2 16 2 200 demo_evs demo_state demo_state_reachable)).
Defined.

Lemma staging_is_balanced_witness :
  sg_resident (staging demo_state) = 5 /\ sg_resident (staging demo_state) <= 16 /\ is_Some (reader_step (DropTicket 2) demo_state).
Proof.
  destruct (staging_is_balanced demo_identity demo_source 2 16 2 200 demo_evs demo_state demo_state_reachable) as (Hstep & Hres & _).
  split; [vm_compute; reflexivity|]. split; [exact Hres|exact (Hstep (DropTicket 2) I)].
Defined.

(** Twelve bytes more do not fit; and four allocations are not enough for two reads and an owner. *)
Definition demo_refused (faults : option nat) (len : Z) : reader :=
  match submit NoFault faults 5 [mk_span 0 len; mk_span 1 len] demo_state with Some (Err _, r) => r | _ => demo_state end.

Lemma rejected_batches_leave_no_trace_witness :
  queue (demo_refused (Some 4%nat) 4) = queue demo_state /\ inflight (demo_refused (Some 4%nat) 4) = inflight demo_state /\
  sg_peak_resident (staging (demo_refused (Some 4%nat) 4)) = 13 /\ sg_resident (staging (demo_refused (Some 4%nat) 4)) = 5.
Proof.
  destruct (rejected_batches_leave_no_trace demo_identity demo_source 2 16 2 200 demo_evs demo_state NoFault (Some 4%nat) 5
    [mk_span 0 4; mk_span 1 4] bad_alloc (demo_refused (Some 4%nat) 4) demo_state_reachable) as (Hq & Hi & _).
  - typed_spans.
  - vm_compute. reflexivity.
  - split; [exact Hq|]. split; [exact Hi|]. split; vm_compute; reflexivity.
Defined.

(** Two new reads, and then a batch that asks for one of them again. *)
Definition demo_busy_ops : list reader_op := [Submit NoFault None 1 [mk_span 0 3; mk_span 4 2]].
Definition demo_busy : reader := default demo_reader (snd <$> reader_run demo_busy_ops [] demo_reader).

Lemma demo_busy_reachable : reader_reachable demo_identity demo_source 2 16 2 200 [Accepted 1 [mk_span 0 3; mk_span 4 2]] demo_busy.
Proof.
  split_and!; [lia|lia|]. exists demo_busy_ops, demo_reader. split; [vm_compute; reflexivity|]. split; [|vm_compute; reflexivity].
  typed_spans.
Qed.

Definition demo_shared : reader :=
  match submit NoFault None 2 [mk_span 6 1; mk_span 4 2; mk_span 6 1] demo_busy with Some (_, r) => r | _ => demo_busy end.

Lemma equal_spans_share_a_read_witness :
  rs_coalesced_reads (counts demo_shared) = 2 /\ length (queue demo_shared) = 3%nat /\
  exists new futures, queue demo_shared = queue demo_busy ++ new /\ NoDup (spans_of demo_shared new) /\
    tickets demo_shared = <[2%positive := mk_ticket 2 false futures]> (tickets demo_busy).
Proof.
  split; [vm_compute; reflexivity|]. split; [vm_compute; reflexivity|].
  destruct (equal_spans_share_a_read demo_identity demo_source 2 16 2 200 [Accepted 1 [mk_span 0 3; mk_span 4 2]] demo_busy NoFault None 2
    [mk_span 6 1; mk_span 4 2; mk_span 6 1] 2 demo_shared demo_busy_reachable) as [_ (new & futures & Hq & Hnd & _ & Htk & _)].
  - typed_spans.
  - vm_compute. reflexivity.
  - exists new, futures. split; [exact Hq|]. split; [exact Hnd|exact Htk].
Defined.

Lemma workers_serve_every_ticket_witness :
  work demo_busy = 10%nat /\ ticket_ready 1 demo_busy = false /\
  exists sched r', workers_run sched demo_busy = Some (Some r') /\ at_rest r' /\ live r' = [].
Proof.
  split; [vm_compute; reflexivity|]. split; [vm_compute; reflexivity|].
  destruct (workers_serve_every_ticket demo_identity demo_source 2 16 2 200 [Accepted 1 [mk_span 0 3; mk_span 4 2]] demo_busy demo_busy_reachable)
    as [(sched & r' & Hrun & Hrest) Hall].
  exists sched, r'. split; [exact Hrun|]. split; [exact Hrest|]. exact (proj1 (proj2 (Hall sched r' Hrun) Hrest)).
Defined.
