(* ===== verification/PleStores.v ===== *)
(** * The row, page and two-tier stores

    Model of [row_store], [page_store] and [two_tier_store]
    ([src/src/llama-qwen4exp-ple-storage.cpp]): a batch of table rows is
    requested, rows or pages that are cached are leased, the others are read by
    the asynchronous reader and admitted to the cache when the ticket is redeemed.

    The code of a store is a program: a tree of atomic actions on shared
    objects.  An action is a critical section of the block cache or the reader,
    an access to the shared state of a ticket, or a lock of the owner table; the
    scheduler runs one action of one thread at a time, so calls interleave at
    the granularity of the code.  [AMayFail] is an allocation.  Objects on the
    stack or owned by one thread are values of its program; destructors are
    written out.

    The three stores share one [world]: a store uses the parts it has.  [w_log]
    remembers what each ticket was asked for and is there for statements only. *)

From S2P Require Import Prelude ExpertDescriptor PleHash BlockCache AsyncReader AsyncReaderInv AsyncReaderSteps AsyncReaderSubmit AsyncReaderTheorems.
From stdpp Require Import strings.
Open Scope string_scope.
Open Scope list_scope.
Open Scope Z_scope.

Definition ple_page_size : nat := 4096.
Definition ple_quantized_row_size : nat := 90.

(** ** Shared objects *)

Inductive store_level := RowLevel | PageLevel | TwoTierLevel.
Inductive cache_id := RowCache | PageCache.
#[export] Instance store_level_eq_dec : EqDecision store_level.
Proof. solve_decision. Defined.
#[export] Instance cache_id_eq_dec : EqDecision cache_id.
Proof. solve_decision. Defined.

(** [page_store::staged_batch::row_view]. *)
Record row_view := mk_view { v_first : nat; v_last : nat; v_offset : nat; v_length : nat }.

(** The lists of [ticket::state]: [p_slots] is [cached] or [pages], [p_keys] is
    [keys] or [page_keys]. *)
Record payload := mk_payload {
  p_slots : list (option positive);
  p_keys : list Z;
  p_misses : list nat;
  p_views : list row_view;
}.
#[export] Instance payload_settable : Settable payload := fun p => mk_payload (p_slots p) (p_keys p) (p_misses p) (p_views p).

(** [ticket::state]: [st_busy] is its [consume_mutex], [st_reads] and [st_pages] the
    tickets of the lower layer; the lists are there when [submit] has returned. *)
Record store_ticket := mk_store_ticket {
  st_level : store_level;
  st_owner : Z;
  st_cancelled : bool;
  st_busy : bool;
  st_consumed : bool;
  st_reads : option positive;
  st_pages : option positive;
  st_payload : option payload;
}.
#[export] Instance store_ticket_settable : Settable store_ticket :=
  fun t => mk_store_ticket (st_level t) (st_owner t) (st_cancelled t) (st_busy t) (st_consumed t) (st_reads t) (st_pages t) (st_payload t).

(** [owners] and [owners_mutex] of a store. *)
Record owner_table := mk_owners { ot_locked : bool; ot_owners : gmap Z (list positive) }.
#[export] Instance owner_table_settable : Settable owner_table := fun o => mk_owners (ot_locked o) (ot_owners o).

Record world := mk_world {
  w_reader : reader;
  w_rows : blocks;
  w_pages : blocks;
  w_tickets : gmap positive store_ticket;
  w_row_owners : owner_table;
  w_page_owners : owner_table;
  w_two_owners : owner_table;
  w_log : gmap positive (list Z);
}.
#[export] Instance world_settable : Settable world :=
  fun w => mk_world (w_reader w) (w_rows w) (w_pages w) (w_tickets w) (w_row_owners w) (w_page_owners w) (w_two_owners w) (w_log w).

Definition cache_of (c : cache_id) (w : world) : blocks := match c with RowCache => w_rows w | PageCache => w_pages w end.
Definition set_cache (c : cache_id) (b : blocks) (w : world) : world :=
  match c with RowCache => w <| w_rows := b |> | PageCache => w <| w_pages := b |> end.
Definition owners_of (l : store_level) (w : world) : owner_table :=
  match l with RowLevel => w_row_owners w | PageLevel => w_page_owners w | TwoTierLevel => w_two_owners w end.
Definition set_owners (l : store_level) (o : owner_table) (w : world) : world :=
  match l with
  | RowLevel => w <| w_row_owners := o |>
  | PageLevel => w <| w_page_owners := o |>
  | TwoTierLevel => w <| w_two_owners := o |>
  end.

(** ** Programs *)

Inductive atom : Type -> Type :=
| AMayFail : atom bool
| AAcquire (c : cache_id) (key : Z) : atom (option positive)
| AAdmit (c : cache_id) (key : Z) (data : list Z) : atom (result exn positive)
| ARelease (c : cache_id) (name : positive) : atom unit
| APeek (c : cache_id) (slot : option positive) : atom (list Z)
| ASubmitReads (owner : Z) (spans : list read_span) : atom (result exn positive)
| AReadsSize (t : positive) : atom nat
| AReadsCancelled (t : positive) : atom bool
| AAwait (t : positive) (i : nat) : atom (result exn (positive * list Z))
| ADropBuffer (name : positive) : atom unit
| ADropReads (t : positive) : atom unit
| ACancelReads (t : positive) : atom unit
| ACancelReadsOwner (owner : Z) : atom unit
| ANewTicket (l : store_level) (owner : Z) (rows : list Z) : atom (result exn positive)
| AKillTicket (id : positive) : atom unit
| ASetPayload (id : positive) (p : payload) (reads pages : option positive) : atom unit
| ABeginGet (l : store_level) (id : positive) : atom (result exn (payload * option positive * option positive))
| AIsCancelled (id : positive) : atom bool
| AEndGet (id : positive) : atom unit
| ACancelTicket (id : positive) : atom (option positive * option positive)
| ATakeTicket (l : store_level) (id : positive) : atom (option store_ticket)
| ALockOwners (l : store_level) : atom unit
| AUnlockOwners (l : store_level) : atom unit
| ARegister (l : store_level) (owner : Z) (id : positive) : atom (result exn unit)
| AUnregister (l : store_level) (owner : Z) : atom unit
| ACancelFlags (l : store_level) (owner : Z) : atom Z.

Inductive prog (A : Type) : Type :=
| Ret (a : A)
| Do {X : Type} (a : atom X) (k : X -> prog A).
Arguments Ret {A} a.
Arguments Do {A X} a k.

Fixpoint pbind {A B : Type} (p : prog A) (k : A -> prog B) : prog B :=
  match p with
  | Ret a => k a
  | Do a f => Do a (fun x => pbind (f x) k)
  end.
Definition act {X : Type} (a : atom X) : prog X := Do a Ret.

#[export] Instance prog_ret : MRet prog := fun _ => Ret.
#[export] Instance prog_bind : MBind prog := fun _ _ k p => pbind p k.

(** Leave with the error of [p]. *)
Notation "'attempt' x := p 'in' q" := (pbind p (fun r => match r with Ok x => q | Err e => Ret (Err e) end))
  (at level 10, x pattern at level 0, p at level 99, q at level 200).

(** ** What the programs share *)

(** The end of a vector of leases. *)
Fixpoint release_slots (c : cache_id) (slots : list (option positive)) : prog unit :=
  match slots with
  | [] => Ret tt
  | None :: slots => release_slots c slots
  | Some n :: slots => act (ARelease c n);; release_slots c slots
  end.

Fixpoint drop_buffers_of (l : list (positive * list Z)) : prog unit :=
  match l with
  | [] => Ret tt
  | (n, _) :: l => act (ADropBuffer n);; drop_buffers_of l
  end.

(** [async_reader::ticket::get]. *)
Fixpoint await_all (t : positive) (i rest : nat) (acc : list (positive * list Z)) : prog (result exn (list (positive * list Z))) :=
  match rest with
  | O => Ret (Ok acc)
  | S rest =>
      x ← act (AAwait t i);
      match x with
      | Err e => drop_buffers_of acc;; Ret (Err e)
      | Ok b =>
          cancelled ← act (AReadsCancelled t);
          if cancelled : bool then
            drop_buffers_of (acc ++ [b]);; Ret (Err (runtime_error "qwen4exp PLE read ticket was cancelled"))
          else await_all t (S i) rest (acc ++ [b])
      end
  end.

Definition get_reads (t : positive) : prog (result exn (list (positive * list Z))) :=
  cancelled ← act (AReadsCancelled t);
  if cancelled : bool then Ret (Err (runtime_error "qwen4exp PLE read ticket was cancelled"))
  else
    fails ← act AMayFail;
    if fails : bool then Ret (Err bad_alloc)
    else n ← act (AReadsSize t); await_all t 0 n [].

Definition publish_provider_ticket {A : Type} (l : store_level) (owner : Z) (id : positive) (dispatch : prog (result exn A)) : prog (result exn A) :=
  act (ALockOwners l);;
  x ← act (ARegister l owner id);
  match x with
  | Err e => act (AUnlockOwners l);; Ret (Err e)
  | Ok _ =>
      y ← dispatch;
      match y with
      | Err e => act (AUnregister l owner);; act (AUnlockOwners l);; Ret (Err e)
      | Ok v => act (AUnlockOwners l);; Ret (Ok v)
      end
  end.

(** The reads of a batch, if there are misses. *)
Definition submit_misses (owner : Z) (spans : list read_span) : prog (result exn (option positive)) :=
  match spans with
  | [] => Ret (Ok None)
  | _ => attempt x := act (ASubmitReads owner spans) in Ret (Ok (Some x))
  end.

(** ** [row_store] *)

Section stores.
(** [impl::locate] of a row store, the extents of a page store and the size of the source. *)
Context (locate : Z -> result exn read_span) (extents : extent_index) (source_size : Z).

(** [fixed_row_layout]. *)
Record fixed_row_layout := mk_layout { fl_data_offset : Z; fl_row_count : Z; fl_row_bytes : Z }.

(** The locators that the constructors of [row_store] install: one reads the extent
    index, the other one computes the place of a row of a checked layout. *)
Definition extent_locate (x : extent_index) (row : Z) : result exn read_span :=
  match locate_global x row with
  | Err e => Err e
  | Ok extent => Ok (mk_span (pe_offset extent) (pe_length extent))
  end.

Definition fixed_locate (layout : fixed_row_layout) (row : Z) : result exn read_span :=
  if row >=? fl_row_count layout then Err (out_of_range "fixed row ID exceeds table")
  else Ok (mk_span (wrap64 (fl_data_offset layout + wrap64 (row * fl_row_bytes layout))) (fl_row_bytes layout)).

Definition make_fixed_store (size : Z) (layout : fixed_row_layout) : result exn (Z -> result exn read_span) :=
  if (fl_row_bytes layout =? 0) || (fl_data_offset layout >? size) || (fl_row_count layout >? (size - fl_data_offset layout) / fl_row_bytes layout)
  then Err (invalid_argument "fixed row layout exceeds source extent")
  else Ok (fixed_locate layout).

Record row_build := mk_row_build { rb_slots : list (option positive); rb_misses : list nat; rb_spans : list read_span }.

Fixpoint scan_rows (rows : list Z) (b : row_build) : prog (result exn unit * row_build) :=
  match rows with
  | [] => Ret (Ok tt, b)
  | row :: rows =>
      x ← act (AAcquire RowCache row);
      match x with
      | Some n => scan_rows rows (mk_row_build (rb_slots b ++ [Some n]) (rb_misses b) (rb_spans b))
      | None =>
          match locate row with
          | Err e => Ret (Err e, b)
          | Ok s => scan_rows rows (mk_row_build (rb_slots b ++ [None]) (rb_misses b ++ [length (rb_slots b)]) (rb_spans b ++ [s]))
          end
      end
  end.

Definition row_submit (owner : Z) (rows : list Z) : prog (result exn positive) :=
  match rows with
  | [] => Ret (Err (invalid_argument "qwen4exp PLE row batch cannot be empty"))
  | _ =>
      attempt id := act (ANewTicket RowLevel owner rows) in
      '(x, b) ← scan_rows rows (mk_row_build [] [] []);
      y ← match x with
           | Err e => Ret (Err e)
           | Ok _ => publish_provider_ticket RowLevel owner id (submit_misses owner (rb_spans b))
           end;
      match y with
      | Err e => release_slots RowCache (rb_slots b);; act (AKillTicket id);; Ret (Err e)
      | Ok reads => act (ASetPayload id (mk_payload (rb_slots b) rows (rb_misses b) []) reads None);; Ret (Ok id)
      end
  end.

(** The loaded buffers go to the cache; the error, if any, and the slots so far. *)
Fixpoint admit_rows (id : positive) (keys : list Z) (misses : list nat) (loaded : list (list Z)) (slots : list (option positive))
    : prog (result exn unit * list (option positive)) :=
  match loaded, misses with
  | bytes :: loaded, position :: misses =>
      cancelled ← act (AIsCancelled id);
      if cancelled : bool then Ret (Err (runtime_error "qwen4exp PLE row ticket was cancelled"), slots)
      else
        x ← act (AAdmit RowCache (default 0 (keys !! position)) bytes);
        match x with
        | Err e => Ret (Err e, slots)
        | Ok n => admit_rows id keys misses loaded (<[position := Some n]> slots)
        end
  | _, _ => Ret (Ok tt, slots)
  end.

(** The end of [get]: the slots on success, or their release. *)
Definition end_get (c : cache_id) (id : positive) (x : result exn unit) (slots : list (option positive)) : prog (result exn (list (option positive))) :=
  match x with
  | Ok _ => act (AEndGet id);; Ret (Ok slots)
  | Err e => release_slots c slots;; act (AEndGet id);; Ret (Err e)
  end.

Definition row_get (id : positive) : prog (result exn (list (option positive))) :=
  attempt (p, reads, _) := act (ABeginGet RowLevel id) in
  match reads with
  | None => end_get RowCache id (Ok tt) (p_slots p)
  | Some t =>
      loaded ← get_reads t;
      match loaded with
      | Err e => end_get RowCache id (Err e) (p_slots p)
      | Ok loaded =>
          '(x, slots) ←
            (if negb (length loaded =? length (p_misses p))%nat
             then Ret (Err (runtime_error "qwen4exp PLE row batch completed with the wrong buffer count"), p_slots p)
             else admit_rows id (p_keys p) (p_misses p) (loaded.*2) (p_slots p));
          drop_buffers_of loaded;; end_get RowCache id x slots
      end
  end.

(** ** [page_store] *)

Record page_build := mk_page_build {
  pb_slots : list (option positive);
  pb_keys : list Z;
  pb_misses : list nat;
  pb_spans : list read_span;
  pb_views : list row_view;
}.
#[local] Instance page_build_settable : Settable page_build :=
  fun b => mk_page_build (pb_slots b) (pb_keys b) (pb_misses b) (pb_spans b) (pb_views b).

(** [page_positions]. *)
Definition page_position (page : Z) (b : page_build) : option nat := fst <$> list_find (eq page) (pb_keys b).

Definition visit_page (page : Z) (b : page_build) : prog (result exn nat * page_build) :=
  match page_position page b with
  | Some position => Ret (Ok position, b)
  | None =>
      let position := length (pb_slots b) in
      fails ← act AMayFail;
      if fails : bool then Ret (Err bad_alloc, b)
      else
        slot ← act (AAcquire PageCache page);
        fails ← act AMayFail;
        if fails : bool then release_slots PageCache [slot];; Ret (Err bad_alloc, b)
        else
          let b := b <| pb_keys ::= fun l => l ++ [page] |> <| pb_slots ::= fun l => l ++ [slot] |> in
          match slot with
          | Some _ => Ret (Ok position, b)
          | None =>
              let page_offset := wrap64 (page * Z.of_nat ple_page_size) in
              if page_offset >=? source_size
              then Ret (Err (out_of_range "qwen4exp PLE page starts outside its source"), b)
              else
                let len := Z.min (Z.of_nat ple_page_size) (source_size - page_offset) in
                fails ← act AMayFail;
                if fails : bool then Ret (Err bad_alloc, b)
                else Ret (Ok position, b <| pb_misses ::= fun l => l ++ [position] |> <| pb_spans ::= fun l => l ++ [mk_span page_offset len] |>)
          end
  end.

Fixpoint scan_pages (rows : list Z) (b : page_build) : prog (result exn unit * page_build) :=
  match rows with
  | [] => Ret (Ok tt, b)
  | row :: rows =>
      match locate_global extents row with
      | Err e => Ret (Err e, b)
      | Ok extent =>
          if negb (pe_length extent =? Z.of_nat ple_quantized_row_size) || (pe_last_page extent <? pe_first_page extent)
             || (pe_last_page extent - pe_first_page extent >? 1)
          then Ret (Err (runtime_error "qwen4exp PLE row has unsupported page geometry"), b)
          else
            '(x, b) ← visit_page (pe_first_page extent) b;
            match x with
            | Err e => Ret (Err e, b)
            | Ok first =>
                '(y, b) ← (if pe_last_page extent =? pe_first_page extent then Ret (Ok first, b) else visit_page (pe_last_page extent) b);
                match y with
                | Err e => Ret (Err e, b)
                | Ok last =>
                    scan_pages rows (b <| pb_views ::= fun l => l ++
                      [mk_view first last (Z.to_nat (pe_offset extent mod Z.of_nat ple_page_size)) (Z.to_nat (pe_length extent))] |>)
                end
            end
      end
  end.

Definition page_submit (owner : Z) (rows : list Z) : prog (result exn positive) :=
  match rows with
  | [] => Ret (Err (invalid_argument "qwen4exp PLE page batch cannot be empty"))
  | _ =>
      attempt id := act (ANewTicket PageLevel owner rows) in
      '(x, b) ← scan_pages rows (mk_page_build [] [] [] [] []);
      y ← match x with
           | Err e => Ret (Err e)
           | Ok _ => publish_provider_ticket PageLevel owner id (submit_misses owner (pb_spans b))
           end;
      match y with
      | Err e => release_slots PageCache (pb_slots b);; act (AKillTicket id);; Ret (Err e)
      | Ok reads => act (ASetPayload id (mk_payload (pb_slots b) (pb_keys b) (pb_misses b) (pb_views b)) reads None);; Ret (Ok id)
      end
  end.

(** [padded]. *)
Definition pad_page (bytes : list Z) : list Z := bytes ++ replicate (ple_page_size - length bytes) 0.

Fixpoint admit_pages (id : positive) (keys : list Z) (misses : list nat) (loaded : list (list Z)) (slots : list (option positive))
    : prog (result exn unit * list (option positive)) :=
  match loaded, misses with
  | bytes :: loaded, position :: misses =>
      cancelled ← act (AIsCancelled id);
      if cancelled : bool then Ret (Err (runtime_error "qwen4exp PLE page ticket was cancelled"), slots)
      else if (length bytes =? 0)%nat || (ple_page_size <? length bytes)%nat
      then Ret (Err (runtime_error "qwen4exp PLE page read returned invalid geometry"), slots)
      else
        x ← act (AAdmit PageCache (default 0 (keys !! position)) (pad_page bytes));
        match x with
        | Err e => Ret (Err e, slots)
        | Ok n => admit_pages id keys misses loaded (<[position := Some n]> slots)
        end
  | _, _ => Ret (Ok tt, slots)
  end.

(** [page_store::ticket::get]: the pages and the views of the rows. *)
Definition page_get (id : positive) : prog (result exn (list (option positive) * list row_view)) :=
  attempt (p, reads, _) := act (ABeginGet PageLevel id) in
  match reads with
  | None => attempt slots := end_get PageCache id (Ok tt) (p_slots p) in Ret (Ok (slots, p_views p))
  | Some t =>
      loaded ← get_reads t;
      match loaded with
      | Err e => attempt slots := end_get PageCache id (Err e) (p_slots p) in Ret (Ok (slots, p_views p))
      | Ok loaded =>
          '(x, slots) ←
            (if negb (length loaded =? length (p_misses p))%nat
             then Ret (Err (runtime_error "qwen4exp PLE page batch completed with the wrong buffer count"), p_slots p)
             else admit_pages id (p_keys p) (p_misses p) (loaded.*2) (p_slots p));
          drop_buffers_of loaded;;
          attempt slots := end_get PageCache id x slots in Ret (Ok (slots, p_views p))
      end
  end.

(** [page_store::staged_batch::copy_quantized]. *)
Definition copy_quantized (slots : list (option positive)) (views : list row_view) (index output_size : nat) : prog (result exn (list Z)) :=
  match views !! index with
  | None => Ret (Err (out_of_range "vector::at"))
  | Some row =>
      if negb (output_size =? v_length row)%nat || (length slots <=? v_first row)%nat || (length slots <=? v_last row)%nat
      then Ret (Err (invalid_argument "qwen4exp PLE page row output geometry is invalid"))
      else
        let first_bytes := Nat.min (v_length row) (ple_page_size - v_offset row) in
        d ← act (APeek PageCache (default None (slots !! v_first row)));
        let out := bytes_at d (v_offset row) first_bytes in
        if (first_bytes =? v_length row)%nat then Ret (Ok out)
        else if (v_last row =? v_first row)%nat
        then Ret (Err (runtime_error "qwen4exp PLE page row boundary metadata is inconsistent"))
        else
          d ← act (APeek PageCache (default None (slots !! v_last row)));
          Ret (Ok (out ++ bytes_at d 0 (v_length row - first_bytes)))
  end.

(** ** [two_tier_store] *)

Fixpoint scan_two (rows : list Z) (slots : list (option positive)) (misses : list nat) (page_rows : list Z)
    : prog (list (option positive) * list nat * list Z) :=
  match rows with
  | [] => Ret (slots, misses, page_rows)
  | row :: rows =>
      x ← act (AAcquire RowCache row);
      match x with
      | Some n => scan_two rows (slots ++ [Some n]) misses page_rows
      | None => scan_two rows (slots ++ [None]) (misses ++ [length slots]) (page_rows ++ [row])
      end
  end.

Definition two_submit (owner : Z) (rows : list Z) : prog (result exn positive) :=
  match rows with
  | [] => Ret (Err (invalid_argument "qwen4exp PLE two-tier batch cannot be empty"))
  | _ =>
      attempt id := act (ANewTicket TwoTierLevel owner rows) in
      '(slots, misses, page_rows) ← scan_two rows [] [] [];
      y ← publish_provider_ticket TwoTierLevel owner id
             (match page_rows with
              | [] => Ret (Ok None)
              | _ => attempt p := page_submit owner page_rows in Ret (Ok (Some p))
              end);
      match y with
      | Err e => release_slots RowCache slots;; act (AKillTicket id);; Ret (Err e)
      | Ok pages => act (ASetPayload id (mk_payload slots rows misses []) None pages);; Ret (Ok id)
      end
  end.

Fixpoint admit_copies (id : positive) (keys : list Z) (misses : list nat) (pages : list (option positive)) (views : list row_view)
    (index rest : nat) (slots : list (option positive)) : prog (result exn unit * list (option positive)) :=
  match rest with
  | O => Ret (Ok tt, slots)
  | S rest =>
      cancelled ← act (AIsCancelled id);
      if cancelled : bool then Ret (Err (runtime_error "qwen4exp PLE two-tier ticket was cancelled"), slots)
      else
        row ← copy_quantized pages views index ple_quantized_row_size;
        match row with
        | Err e => Ret (Err e, slots)
        | Ok row =>
            let position := default 0%nat (misses !! index) in
            x ← act (AAdmit RowCache (default 0 (keys !! position)) row);
            match x with
            | Err e => Ret (Err e, slots)
            | Ok n => admit_copies id keys misses pages views (S index) rest (<[position := Some n]> slots)
            end
        end
  end.

Definition two_get (id : positive) : prog (result exn (list (option positive))) :=
  attempt (p, _, pages) := act (ABeginGet TwoTierLevel id) in
  match pages with
  | None => end_get RowCache id (Ok tt) (p_slots p)
  | Some t =>
      loaded ← page_get t;
      match loaded with
      | Err e => end_get RowCache id (Err e) (p_slots p)
      | Ok (page_slots, views) =>
          '(x, slots) ←
            (if negb (length views =? length (p_misses p))%nat
             then Ret (Err (runtime_error "qwen4exp PLE two-tier page batch has the wrong row count"), p_slots p)
             else admit_copies id (p_keys p) (p_misses p) page_slots views 0 (length views) (p_slots p));
          release_slots PageCache page_slots;; end_get RowCache id x slots
      end
  end.

(** ** Cancellation and the end of tickets *)

(** [ticket::cancel] of a row or page store. *)
Definition cancel_simple (id : positive) : prog unit :=
  '(reads, _) ← act (ACancelTicket id);
  match reads with Some t => act (ACancelReads t) | None => Ret tt end.

(** [two_tier_store::ticket::cancel]. *)
Definition two_cancel (id : positive) : prog unit :=
  '(_, pages) ← act (ACancelTicket id);
  match pages with Some t => cancel_simple t | None => Ret tt end.

Definition row_cancel_owner (owner : Z) : prog Z :=
  act (ALockOwners RowLevel);;
  n ← act (ACancelFlags RowLevel owner);
  act (ACancelReadsOwner owner);; act (AUnlockOwners RowLevel);; Ret n.

Definition page_cancel_owner (owner : Z) : prog Z :=
  act (ALockOwners PageLevel);;
  n ← act (ACancelFlags PageLevel owner);
  act (ACancelReadsOwner owner);; act (AUnlockOwners PageLevel);; Ret n.

Definition two_cancel_owner (owner : Z) : prog Z :=
  act (ALockOwners TwoTierLevel);;
  n ← act (ACancelFlags TwoTierLevel owner);
  page_cancel_owner owner;; act (AUnlockOwners TwoTierLevel);; Ret n.

(** The last handle of a ticket of a row or page store goes. *)
Definition drop_simple (l : store_level) (c : cache_id) (id : positive) : prog unit :=
  o ← act (ATakeTicket l id);
  match o with
  | None => Ret tt
  | Some tk =>
      (match st_reads tk with Some t => act (ADropReads t) | None => Ret tt end);;
      release_slots c (match st_payload tk with Some p => p_slots p | None => [] end)
  end.

Definition two_drop (id : positive) : prog unit :=
  o ← act (ATakeTicket TwoTierLevel id);
  match o with
  | None => Ret tt
  | Some tk =>
      (match st_pages tk with Some t => drop_simple PageLevel PageCache t | None => Ret tt end);;
      release_slots RowCache (match st_payload tk with Some p => p_slots p | None => [] end)
  end.

(** ** Calls of a store *)

(** A consumer reads every row of a batch by [staged_batch::row]. *)
Fixpoint read_rows (slots : list (option positive)) : prog (list (list Z)) :=
  match slots with
  | [] => Ret []
  | slot :: slots => d ← act (APeek RowCache slot); rest ← read_rows slots; Ret (d :: rest)
  end.

(** A consumer copies the rows of a batch of pages from [index] on. *)
Fixpoint copy_rows (slots : list (option positive)) (views : list row_view) (index rest : nat) : prog (result exn (list (list Z))) :=
  match rest with
  | O => Ret (Ok [])
  | S rest =>
      attempt row := copy_quantized slots views index ple_quantized_row_size in
      attempt rows := copy_rows slots views (S index) rest in
      Ret (Ok (row :: rows))
  end.

(** Redeem a ticket, read the rows and let the batch go. *)
Definition stage_rows (get : prog (result exn (list (option positive)))) : prog (result exn (list (list Z))) :=
  attempt slots := get in
  rows ← read_rows slots; release_slots RowCache slots;; Ret (Ok rows).

Definition stage_pages (id : positive) : prog (result exn (list (list Z))) :=
  attempt (slots, views) := page_get id in
  rows ← copy_rows slots views 0 (length views); release_slots PageCache slots;; Ret rows.

Inductive store_call :=
| CallSubmit (owner : Z) (rows : list Z)
| CallStage (id : positive)
| CallCancel (id : positive)
| CallCancelOwner (owner : Z)
| CallDrop (id : positive).

Inductive store_reply :=
| ReplyTicket (x : result exn positive)
| ReplyRows (x : result exn (list (list Z)))
| ReplyCount (n : Z)
| ReplyDone.

(** The code of a call for a store of each kind. *)
Definition call_prog (l : store_level) (c : store_call) : prog store_reply :=
  match c with
  | CallSubmit owner rows =>
      x ← match l with
           | RowLevel => row_submit owner rows
           | PageLevel => page_submit owner rows
           | TwoTierLevel => two_submit owner rows
           end; Ret (ReplyTicket x)
  | CallStage id =>
      x ← match l with
           | RowLevel => stage_rows (row_get id)
           | PageLevel => stage_pages id
           | TwoTierLevel => stage_rows (two_get id)
           end; Ret (ReplyRows x)
  | CallCancel id => (match l with TwoTierLevel => two_cancel id | _ => cancel_simple id end);; Ret ReplyDone
  | CallCancelOwner owner =>
      n ← match l with
           | RowLevel => row_cancel_owner owner
           | PageLevel => page_cancel_owner owner
           | TwoTierLevel => two_cancel_owner owner
           end; Ret (ReplyCount n)
  | CallDrop id =>
      (match l with
       | RowLevel => drop_simple RowLevel RowCache id
       | PageLevel => drop_simple PageLevel PageCache id
       | TwoTierLevel => two_drop id
       end);; Ret ReplyDone
  end.
End stores.

(** ** Actions *)

(** Allocations that fail in an action. *)
Record store_faults := mk_store_faults { sf_fails : bool; sf_early : early_fault; sf_faults : option nat }.

(** The purge of expired tickets. *)
Definition purge_tickets (live : gmap positive store_ticket) (owners : gmap Z (list positive)) : gmap Z (list positive) :=
  omap (fun l => let l := filter (fun t => is_Some (live !! t)) l in if (length l =? 0)%nat then None else Some l) owners.

(** The first part of [publish_provider_ticket]. *)
Definition register_ticket (fails : bool) (owner : Z) (id : positive) (live : gmap positive store_ticket) (o : owner_table)
    : result exn unit * owner_table :=
  let o := o <| ot_owners ::= purge_tickets live |> in
  if fails then (Err bad_alloc, o)
  else (Ok tt, o <| ot_owners ::= fun m => <[owner := default [] (m !! owner) ++ [id]]> m |>).

(** Its rollback: [pop_back], and the record of an owner without tickets goes. *)
Definition unregister_ticket (owner : Z) (o : owner_table) : owner_table :=
  o <| ot_owners ::= fun m =>
    match m !! owner with
    | None => m
    | Some l => let l := take (length l - 1) l in if (length l =? 0)%nat then delete owner m else <[owner := l]> m
    end |>.

(** The flags of [cancel_owner]. *)
Fixpoint cancel_flags (ids : list positive) (m : gmap positive store_ticket) : Z * gmap positive store_ticket :=
  match ids with
  | [] => (0, m)
  | id :: ids =>
      let hit := match m !! id with Some t => negb (st_cancelled t) | None => false end in
      let '(n, m) := cancel_flags ids (if hit then alter (fun t => t <| st_cancelled := true |>) id m else m) in
      ((if hit then 1 else 0) + n, m)
  end.

Definition cancelled_error (l : store_level) : exn :=
  runtime_error (match l with
                 | RowLevel => "qwen4exp PLE row ticket was cancelled"
                 | PageLevel => "qwen4exp PLE page ticket was cancelled"
                 | TwoTierLevel => "qwen4exp PLE two-tier ticket was cancelled"
                 end).
Definition consumed_error (l : store_level) : exn :=
  logic_error (match l with
               | RowLevel => "qwen4exp PLE row ticket was already consumed"
               | PageLevel => "qwen4exp PLE page ticket was already consumed"
               | TwoTierLevel => "qwen4exp PLE two-tier ticket was already consumed"
               end).
Definition empty_error (l : store_level) : exn :=
  logic_error (match l with
               | RowLevel => "qwen4exp PLE row ticket is empty"
               | PageLevel => "qwen4exp PLE page ticket is empty"
               | TwoTierLevel => "qwen4exp PLE two-tier ticket is empty"
               end).

Section actions.
Context `{NodeSize, ReaderSizes}.

(** A call of a block cache. *)
Definition on_cache (c : cache_id) (o : block_op) (w : world) : option (block_reply * world) :=
  '(r, b) ← block_step o (cache_of c w);
  Some (r, set_cache c b w).

Definition on_ticket (id : positive) (f : store_ticket -> store_ticket) (w : world) : world := w <| w_tickets ::= alter f id |>.

(** The start of [get]: [None] while another call holds [consume_mutex]. *)
Definition begin_get (l : store_level) (id : positive) (w : world)
    : option (result exn (payload * option positive * option positive) * world) :=
  match w_tickets w !! id with
  | None => Some (Err (empty_error l), w)
  | Some t =>
      match st_payload t with
      | Some p =>
          if negb (bool_decide (st_level t = l)) then Some (Err (empty_error l), w)
          else if st_busy t then None
          else if st_consumed t then Some (Err (consumed_error l), w)
          else if st_cancelled t then Some (Err (cancelled_error l), on_ticket id (fun t => t <| st_consumed := true |>) w)
          else Some (Ok (p, st_reads t, st_pages t),
                     on_ticket id (fun t => t <| st_consumed := true |> <| st_busy := true |> <| st_payload := Some (p <| p_slots := [] |>) |>) w)
      | None => Some (Err (empty_error l), w)
      end
  end.

(** [None] is [std::terminate] or an access through a null pointer, [Some None] an
    action that has to wait. *)
Definition exec_atom (f : store_faults) {X : Type} (a : atom X) (w : world) : option (option (X * world)) :=
  match a with
  | AMayFail => Some (Some (sf_fails f, w))
  | AAcquire c key =>
      '(r, w) ← on_cache c (Acquire key) w;
      Some (Some (match r with Leased n => Some n | _ => None end, w))
  | AAdmit c key data =>
      '(r, w) ← on_cache c (Admit (sf_fails f) key (Some data)) w;
      Some (Some (match r with Leased n => Ok n | Refused e => Err e | _ => Err bad_alloc end, w))
  | ARelease c name => '(_, w) ← on_cache c (Release name) w; Some (Some (tt, w))
  | APeek c slot =>
      n ← slot;
      l ← leases (cache_of c w) !! n;
      Some (Some (lease_data (control_of (cache_of c w)) l, w))
  | ASubmitReads owner spans =>
      '(x, r) ← AsyncReader.submit (sf_early f) (sf_faults f) owner spans (w_reader w);
      Some (Some (x, w <| w_reader := r |>))
  | AReadsSize t => tk ← tickets (w_reader w) !! t; Some (Some (length (t_futures tk), w))
  | AReadsCancelled t => tk ← tickets (w_reader w) !! t; Some (Some (t_cancelled tk, w))
  | AAwait t i =>
      o ← await t i (w_reader w);
      match o with
      | None => Some None
      | Some (x, r) => Some (Some (x, w <| w_reader := r |>))
      end
  | ADropBuffer name => r ← drop_held name (w_reader w); Some (Some (tt, w <| w_reader := r |>))
  | ADropReads t => r ← drop_ticket t (w_reader w); Some (Some (tt, w <| w_reader := r |>))
  | ACancelReads t => Some (Some (tt, w <| w_reader ::= cancel_ticket t |>))
  | ACancelReadsOwner owner => Some (Some (tt, w <| w_reader := (cancel_owner owner (w_reader w)).2 |>))
  | ANewTicket l owner rows =>
      if sf_fails f then Some (Some (Err bad_alloc, w))
      else
        let id := fresh (dom (w_log w)) in
        Some (Some (Ok id, w <| w_tickets ::= <[id := mk_store_ticket l owner false false false None None None]> |>
                             <| w_log ::= <[id := rows]> |>))
  | AKillTicket id => Some (Some (tt, w <| w_tickets ::= delete id |>))
  | ASetPayload id p reads pages =>
      Some (Some (tt, on_ticket id (fun t => t <| st_reads := reads |> <| st_pages := pages |> <| st_payload := Some p |>) w))
  | ABeginGet l id => Some (begin_get l id w)
  | AIsCancelled id => t ← w_tickets w !! id; Some (Some (st_cancelled t, w))
  | AEndGet id => Some (Some (tt, on_ticket id (fun t => t <| st_busy := false |>) w))
  | ACancelTicket id =>
      Some (Some (match w_tickets w !! id with Some t => (st_reads t, st_pages t) | None => (None, None) end,
                  on_ticket id (fun t => t <| st_cancelled := true |>) w))
  | ATakeTicket l id =>
      match w_tickets w !! id with
      | Some t =>
          if bool_decide (st_level t = l) && bool_decide (is_Some (st_payload t)) then
            if st_busy t then Some None else Some (Some (Some t, w <| w_tickets ::= delete id |>))
          else Some (Some (None, w))
      | None => Some (Some (None, w))
      end
  | ALockOwners l =>
      if ot_locked (owners_of l w) then Some None
      else Some (Some (tt, set_owners l ((owners_of l w) <| ot_locked := true |>) w))
  | AUnlockOwners l => Some (Some (tt, set_owners l ((owners_of l w) <| ot_locked := false |>) w))
  | ARegister l owner id =>
      let '(x, o) := register_ticket (sf_fails f) owner id (w_tickets w) (owners_of l w) in
      Some (Some (x, set_owners l o w))
  | AUnregister l owner => Some (Some (tt, set_owners l (unregister_ticket owner (owners_of l w)) w))
  | ACancelFlags l owner =>
      match ot_owners (owners_of l w) !! owner with
      | None => Some (Some (0, w))
      | Some ids =>
          let '(n, m) := cancel_flags ids (w_tickets w) in
          Some (Some (n, set_owners l ((owners_of l w) <| ot_owners ::= delete owner |>) (w <| w_tickets := m |>)))
      end
  end.

(** ** A store at work *)

(** The constructors.  A row store has no pages and a page store no cached rows: there
    the model has a cache of one block that is never used. *)
Definition make_store (l : store_level) (identity : source_identity) (data : list Z) (worker_count : nat)
    (page_cache_bytes row_cache_bytes row_bytes : Z) (width : nat) (control_budget index_budget : Z) : result exn world :=
  let page_bytes := Z.of_nat ple_page_size in
  let? r := make_reader identity data worker_count (match l with RowLevel => row_cache_bytes | _ => page_cache_bytes end) width control_budget in
  let? pages := make_control (match l with RowLevel => page_bytes | _ => page_cache_bytes end) page_bytes index_budget in
  let? rows := make_control (match l with PageLevel => row_bytes | _ => row_cache_bytes end) row_bytes index_budget in
  Ok (mk_world r (mk_blocks rows ∅) (mk_blocks pages ∅) ∅ (mk_owners false ∅) (mk_owners false ∅) (mk_owners false ∅) ∅).

(** Threads, each in the middle of a call. *)
Record pool := mk_pool { pl_world : world; pl_threads : list (store_call * prog store_reply) }.

Inductive pool_op :=
| Spawn (c : store_call)
| Run (i : nat) (f : store_faults)
| Worker (i : nat) (f : worker_faults).

(** [None] is the end of the process; a thread or worker that has to wait stays as it is. *)
Definition pool_step (code : store_call -> prog store_reply) (op : pool_op) (p : pool) : option (list (store_call * store_reply) * pool) :=
  let w := pl_world p in
  match op with
  | Spawn c => Some ([], mk_pool w (pl_threads p ++ [(c, code c)]))
  | Run i f =>
      match pl_threads p !! i with
      | None => Some ([], p)
      | Some (c, Ret r) => Some ([(c, r)], mk_pool w (delete i (pl_threads p)))
      | Some (c, Do a k) =>
          o ← exec_atom f a w;
          match o with
          | None => Some ([], p)
          | Some (x, w) => Some ([], mk_pool w (<[i := (c, k x)]> (pl_threads p)))
          end
      end
  | Worker i f =>
      o ← worker_step i f (w_reader w);
      match o with
      | None => Some ([], p)
      | Some r => Some ([], mk_pool (w <| w_reader := r |>) (pl_threads p))
      end
  end.

(** The replies in their order. *)
Fixpoint run_pool (code : store_call -> prog store_reply) (ops : list pool_op) (p : pool) : option (list (store_call * store_reply) * pool) :=
  match ops with
  | [] => Some ([], p)
  | op :: ops => '(evs, p) ← pool_step code op p; '(more, p) ← run_pool code ops p; Some (evs ++ more, p)
  end.
End actions.
