(* ===== verification/PleStoresLogic.v ===== *)
(** * The stores: a logic for their programs

    Threads own leases, tickets of the reader, buffers and locks.  [wp p Q own log]
    says what program [p] may do and leaves when its thread owns [own] and the
    tickets in [log] were asked for the given rows, whatever other threads do
    between its actions.  [world_ok] ties what all threads and tickets own
    to the caches and the reader, so nothing can be lost or used twice. *)

From S2P Require Import Prelude ExpertDescriptor PleHash BlockCache AsyncReader AsyncReaderInv AsyncReaderSteps AsyncReaderSubmit AsyncReaderTheorems PleStores.
From stdpp Require Import strings.
Open Scope string_scope.
Open Scope list_scope.
Open Scope Z_scope.

(** ** Resources *)

Inductive resource :=
| RLease (c : cache_id) (name : positive) (key : Z)
| RReads (t : positive) (spans : list read_span)
| RBuffer (name : positive)
| RNew (id : positive) (l : store_level)
| RBusy (id : positive) (mark : store_level * option (positive * list read_span))
| RLock (l : store_level).

Definition leases_in (c : cache_id) (T : list resource) : list (positive * Z) :=
  omap (fun r => match r with RLease c' n k => if decide (c' = c) then Some (n, k) else None | _ => None end) T.
Definition reads_in (T : list resource) : list positive := omap (fun r => match r with RReads t _ => Some t | _ => None end) T.
Definition buffers_in (T : list resource) : list positive := omap (fun r => match r with RBuffer n => Some n | _ => None end) T.
Definition news_in (T : list resource) : list positive := omap (fun r => match r with RNew id _ => Some id | _ => None end) T.
Definition busy_in (T : list resource) : list positive := omap (fun r => match r with RBusy id _ => Some id | _ => None end) T.
Definition locks_in (T : list resource) : list store_level := omap (fun r => match r with RLock l => Some l | _ => None end) T.

(** Leases of a vector of slots, with their keys. *)
Definition slot_leases (c : cache_id) (slots : list (option positive)) (keys : list Z) : list resource :=
  omap (fun x => match x with (Some n, k) => Some (RLease c n k) | _ => None end) (zip slots keys).

Definition reads_own (o : option (positive * list read_span)) : list resource :=
  match o with Some (t, spans) => [RReads t spans] | None => [] end.

(** Places of the slots without a lease. *)
Definition none_positions (slots : list (option positive)) : list nat := filter (fun i => slots !! i = Some None) (seq 0 (length slots)).

Section logic.
Context (locate : Z -> result exn read_span) (extents : extent_index) (data : list Z).

(** The span that a page is read from. *)
Definition page_span (page : Z) : read_span :=
  let page_offset := wrap64 (page * Z.of_nat ple_page_size) in
  mk_span page_offset (Z.min (Z.of_nat ple_page_size) (Z.of_nat (length data) - page_offset)).

(** The bytes that belong to a key. *)
Definition right (c : cache_id) (key : Z) (bytes : list Z) : Prop :=
  match c with
  | RowCache => exists s, locate key = Ok s /\ span_ok data s /\ bytes = span_bytes data s
  | PageCache => bytes = pad_page (span_bytes data (page_span key))
  end.

Definition cache_for (l : store_level) : cache_id := match l with PageLevel => PageCache | _ => RowCache end.
Definition span_for (l : store_level) (key : Z) : option read_span :=
  match l with
  | PageLevel => Some (page_span key)
  | _ => match locate key with Ok s => Some s | Err _ => None end
  end.
Definition miss_keys (p : payload) : list Z := omap (fun i => p_keys p !! i) (p_misses p).
Definition miss_spans (l : store_level) (p : payload) : list read_span := omap (span_for l) (miss_keys p).

(** What the reads of a ticket are about. *)
Definition reads_of (t : store_ticket) : option (positive * list read_span) :=
  match st_reads t, st_payload t with Some r, Some p => Some (r, miss_spans (st_level t) p) | _, _ => None end.

Definition busy_mark (t : store_ticket) : store_level * option (positive * list read_span) := (st_level t, reads_of t).

Definition ticket_own (t : store_ticket) : list resource :=
  match st_payload t with
  | Some p => if st_busy t then [] else slot_leases (cache_for (st_level t)) (p_slots p) (p_keys p) ++ reads_own (reads_of t)
  | None => []
  end.
Definition tickets_own (m : gmap positive store_ticket) : list resource := mjoin (ticket_own <$> (map_to_list m).*2).

(** The place of a row on its pages. *)
Definition view_ok (keys : list Z) (row : Z) (v : row_view) : Prop :=
  exists e, 0 <= row /\ locate_global extents row = Ok e /\ pe_length e = Z.of_nat ple_quantized_row_size /\
    (pe_last_page e = pe_first_page e \/ pe_last_page e = pe_first_page e + 1) /\
    keys !! v_first v = Some (pe_first_page e) /\ keys !! v_last v = Some (pe_last_page e) /\
    v_offset v = Z.to_nat (pe_offset e mod Z.of_nat ple_page_size) /\ v_length v = ple_quantized_row_size.

Definition payload_ok (l : store_level) (rows : list Z) (p : payload) (reads pages : option positive) (log : gmap positive (list Z)) : Prop :=
  length (p_slots p) = length (p_keys p) /\ p_misses p = none_positions (p_slots p) /\
  Forall (fun k => is_Some (span_for l k)) (miss_keys p) /\
  match l with
  | RowLevel => p_keys p = rows /\ (reads = None -> p_misses p = [])
  | PageLevel => Forall2 (view_ok (p_keys p)) rows (p_views p) /\ (reads = None -> p_misses p = [])
  | TwoTierLevel => p_keys p = rows /\ reads = None /\
      match pages with Some t => log !! t = Some (miss_keys p) | None => p_misses p = [] end
  end.

(** Slots have keys; a two-tier ticket reads through a ticket for pages. *)
Definition keyed (t : store_ticket) : Prop :=
  (forall p, st_payload t = Some p -> (length (p_slots p) <= length (p_keys p))%nat) /\ (st_level t = TwoTierLevel -> st_reads t = None).

(** A ticket of the reader and what it was asked for. *)
Definition ticket_reads (r : reader) (t : positive) (spans : list read_span) : Prop :=
  exists tk, tickets r !! t = Some tk /\ Forall2 (fun s id => exists c, cells r !! id = Some c /\ c_span c = s) spans (t_futures tk).

Record world_ok `{NodeSize, ReaderSizes} (w : world) (T : list resource) : Prop := {
  wo_blocks : forall c, blocks_ok (cache_of c w);
  wo_right : forall c key bytes, block_of (cache_of c w) key = Some bytes -> right c key bytes;
  wo_reader : reader_ok (w_reader w) /\ exits_ok (w_reader w) /\ source_data (w_reader w) = data;
  wo_leases : forall c, leases_in c T ≡ₚ map_to_list (ls_key <$> leases (cache_of c w));
  wo_reads : reads_in T ≡ₚ (map_to_list (tickets (w_reader w))).*1;
  wo_reads_of : forall t spans, RReads t spans ∈ T -> ticket_reads (w_reader w) t spans;
  wo_buffers : buffers_in T ≡ₚ (map_to_list (held (w_reader w))).*1;
  wo_news : NoDup (news_in T) /\ forall id l, RNew id l ∈ T -> exists t, w_tickets w !! id = Some t /\ st_payload t = None /\ st_level t = l /\ st_busy t = false;
  wo_busy : NoDup (busy_in T) /\ forall id o, RBusy id o ∈ T -> exists t, w_tickets w !! id = Some t /\ is_Some (st_payload t) /\ st_busy t = true /\ busy_mark t = o /\
              forall p, st_payload t = Some p -> p_slots p = [];
  wo_marked : forall id t, w_tickets w !! id = Some t -> st_busy t = true -> id ∈ busy_in T;
  wo_locks : NoDup (locks_in T) /\ forall l, l ∈ locks_in T <-> ot_locked (owners_of l w) = true;
  wo_log : forall id t, w_tickets w !! id = Some t -> is_Some (w_log w !! id) /\ keyed t;
  wo_tickets : forall id t p rows, w_tickets w !! id = Some t -> st_payload t = Some p -> st_consumed t = false -> w_log w !! id = Some rows ->
    st_busy t = false /\ payload_ok (st_level t) rows p (st_reads t) (st_pages t) (w_log w);
}.

(** Threads own [own]; the tickets own the rest. *)
Definition world_inv `{NodeSize, ReaderSizes} (w : world) (own : list resource) : Prop := world_ok w (own ++ tickets_own (w_tickets w)).

(** ** Actions *)

(** A thread waits for reads without a lock; it takes a lock or redeems a ticket only
    when it has none, or has that of the two-tier store and goes on to the pages. *)
Definition may_await (own : list resource) : Prop := forall l, RLock l ∉ own.
Definition may_lock (l : store_level) (own : list resource) : Prop :=
  (forall l', RLock l' ∈ own -> l' = TwoTierLevel /\ l = PageLevel) /\ forall id o, RBusy id o ∉ own.
Definition may_begin (l : store_level) (own : list resource) : Prop :=
  (forall l', RLock l' ∉ own) /\ forall id o, RBusy id o ∈ own -> o.1 = TwoTierLevel /\ l = PageLevel.
Definition may_take (own : list resource) : Prop := (forall l, RLock l ∉ own) /\ forall id o, RBusy id o ∉ own.

(** What an action needs and what it leaves. *)
Definition atom_spec {X : Type} (a : atom X) (own : list resource) (log : gmap positive (list Z)) :
    (X -> list resource -> gmap positive (list Z) -> Prop) -> Prop :=
  match a in atom X return (X -> list resource -> gmap positive (list Z) -> Prop) -> Prop with
  | AMayFail => fun K => forall b, K b own log
  | AAcquire c key => fun K => K None own log /\ forall n, K (Some n) (RLease c n key :: own) log
  | AAdmit c key bytes => fun K => right c key bytes /\ (forall e, K (Err e) own log) /\ forall n, K (Ok n) (RLease c n key :: own) log
  | ARelease c name => fun K => exists key own', own ≡ₚ RLease c name key :: own' /\ K tt own' log
  | APeek c slot => fun K => exists n key, slot = Some n /\ RLease c n key ∈ own /\ forall bytes, right c key bytes -> K bytes own log
  | ASubmitReads _ spans => fun K => Forall span_typed spans /\ (forall e, K (Err e) own log) /\ forall t, K (Ok t) (RReads t spans :: own) log
  | AReadsSize t => fun K => exists spans, RReads t spans ∈ own /\ K (length spans) own log
  | AReadsCancelled t => fun K => (exists spans, RReads t spans ∈ own) /\ forall b, K b own log
  | AAwait t i => fun K => exists spans s, RReads t spans ∈ own /\ spans !! i = Some s /\ may_await own /\ (forall e, K (Err e) own log) /\
      (span_ok data s -> forall name, K (Ok (name, span_bytes data s)) (RBuffer name :: own) log)
  | ADropBuffer name => fun K => exists own', own ≡ₚ RBuffer name :: own' /\ K tt own' log
  | ADropReads t => fun K => exists spans own', own ≡ₚ RReads t spans :: own' /\ K tt own' log
  | ACancelReads _ => fun K => K tt own log
  | ACancelReadsOwner _ => fun K => K tt own log
  | ANewTicket l _ rows => fun K => (forall e, K (Err e) own log) /\
      forall id, log !! id = None -> K (Ok id) (RNew id l :: own) (<[id := rows]> log)
  | AKillTicket id => fun K => exists l own', own ≡ₚ RNew id l :: own' /\ K tt own' log
  | ASetPayload id p reads pages => fun K => exists l rows own', own ≡ₚ RNew id l :: slot_leases (cache_for l) (p_slots p) (p_keys p) ++
        reads_own (match reads with Some t => Some (t, miss_spans l p) | None => None end) ++ own' /\
      log !! id = Some rows /\ payload_ok l rows p reads pages log /\ K tt own' log
  | ABeginGet l id => fun K => may_begin l own /\ (forall e, K (Err e) own log) /\
      forall rows p reads pages, log !! id = Some rows -> payload_ok l rows p reads pages log ->
        let o := match reads with Some t => Some (t, miss_spans l p) | None => None end in
        K (Ok (p, reads, pages)) (RBusy id (l, o) :: slot_leases (cache_for l) (p_slots p) (p_keys p) ++ reads_own o ++ own) log
  | AIsCancelled id => fun K => (exists o, RBusy id o ∈ own) /\ forall b, K b own log
  | AEndGet id => fun K => exists o own', own ≡ₚ RBusy id o :: reads_own o.2 ++ own' /\ K tt own' log
  | ACancelTicket _ => fun K => forall x, K x own log
  | ATakeTicket l _ => fun K => may_take own /\ K None own log /\
      forall t, is_Some (st_payload t) -> st_level t = l -> st_busy t = false -> keyed t -> K (Some t) (ticket_own t ++ own) log
  | ALockOwners l => fun K => may_lock l own /\ K tt (RLock l :: own) log
  | AUnlockOwners l => fun K => exists own', own ≡ₚ RLock l :: own' /\ K tt own' log
  | ARegister l _ _ => fun K => forall x, K x own log
  | AUnregister l _ => fun K => K tt own log
  | ACancelFlags l _ => fun K => forall n, K n own log
  end.

Fixpoint wp {A : Type} (p : prog A) (Q : A -> list resource -> gmap positive (list Z) -> Prop) (own : list resource) (log : gmap positive (list Z)) : Prop :=
  match p with
  | Ret a => Q a own log
  | Do a k => forall log', log ⊆ log' -> atom_spec a own log' (fun x own' log'' => wp (k x) Q own' log'')
  end.

Lemma atom_spec_mono {X} (a : atom X) own log (K K' : X -> list resource -> gmap positive (list Z) -> Prop) :
  (forall x own' log', log ⊆ log' -> K x own' log' -> K' x own' log') -> atom_spec a own log K -> atom_spec a own log K'.
Proof.
  intros HK. assert (forall x own', K x own' log -> K' x own' log) as HK0 by (intros; by apply HK).
  destruct a; cbn [atom_spec]; try naive_solver.
  - intros [? Hok]. split; [naive_solver|]. intros id Hid. apply HK; [by apply insert_subseteq|by apply Hok].
Qed.

Lemma wp_seq {A B} (p : prog A) (k : A -> prog B) Q own log :
  wp p (fun x own' log' => wp (k x) Q own' log') own log -> wp (p ≫= k) Q own log.
Proof.
  unfold mbind, prog_bind. revert own log. induction p as [a|X a f IH]; intros own log Hp; [done|]. cbn [pbind wp] in *.
  intros log' Hlog. eapply atom_spec_mono; [|by apply Hp]. intros x own' log'' _. apply IH.
Qed.

Lemma wp_act {X} (a : atom X) Q own log : (forall log', log ⊆ log' -> atom_spec a own log' Q) -> wp (act a) Q own log.
Proof. done. Qed.

Lemma wp_weaken {A} (p : prog A) (Q Q' : A -> list resource -> gmap positive (list Z) -> Prop) own log :
  (forall x own' log', log ⊆ log' -> Q x own' log' -> Q' x own' log') -> wp p Q own log -> wp p Q' own log.
Proof.
  revert own log. induction p as [a|X a f IH]; intros own log HQ Hp; cbn [wp] in *; [by apply HQ|].
  intros log' Hlog. eapply atom_spec_mono; [|by apply Hp]. intros x own' log'' Hlog'. apply IH. intros y own2 log2 Hsub. apply HQ.
  etrans; [done|]. by etrans.
Qed.

(** Facts about tickets stay. *)
Definition stable {A} (Q : A -> list resource -> gmap positive (list Z) -> Prop) : Prop :=
  forall x own log log', log ⊆ log' -> Q x own log -> Q x own log'.

Lemma wp_log {A} (p : prog A) Q own log log' : stable Q -> log ⊆ log' -> wp p Q own log -> wp p Q own log'.
Proof. intros HQ Hlog. destruct p as [a|X a f]; cbn [wp]; [by apply HQ|]. intros Hp log'' Hlog'. apply Hp. by etrans. Qed.

(** ** Ownership *)

#[local] Instance omap_perm {A B} (f : A -> option B) : Proper ((≡ₚ) ==> (≡ₚ)) (omap f).
Proof.
  induction 1 as [|x l l' _ IH|x y l|l1 l2 l3 _ IH1 _ IH2]; csimpl; [done|by destruct (f x); rewrite ?IH|by destruct (f x), (f y); try constructor|by rewrite IH1].
Qed.

Lemma tickets_own_insert m id t : m !! id = None -> tickets_own (<[id := t]> m) ≡ₚ ticket_own t ++ tickets_own m.
Proof. intros Hid. unfold tickets_own. by rewrite map_to_list_insert by done. Qed.

Lemma tickets_own_delete m id t : m !! id = Some t -> tickets_own m ≡ₚ ticket_own t ++ tickets_own (delete id m).
Proof. intros Hid. unfold tickets_own. by rewrite <- (map_to_list_delete m id t Hid). Qed.

Lemma tickets_own_set m id t t' : m !! id = Some t -> tickets_own (<[id := t']> m) ≡ₚ ticket_own t' ++ tickets_own (delete id m).
Proof. intros Hid. rewrite <- insert_delete_eq. apply tickets_own_insert, lookup_delete_eq. Qed.

Lemma tickets_own_same m id t t' : m !! id = Some t -> ticket_own t' = ticket_own t -> tickets_own (<[id := t']> m) ≡ₚ tickets_own m.
Proof. intros Hid Heq. by rewrite (tickets_own_set m id t t' Hid), Heq, (tickets_own_delete m id t Hid). Qed.

Section worlds.
Context `{NodeSize, ReaderSizes}.

#[local] Instance world_ok_perm w : Proper ((≡ₚ) ==> iff) (world_ok w).
Proof.
  enough (forall T T', T ≡ₚ T' -> world_ok w T -> world_ok w T') as Hone by (intros T T' Hp; split; by apply Hone).
  intros T T' Hp []. split; try done; unfold leases_in, reads_in, buffers_in, news_in, busy_in, locks_in in *; setoid_rewrite <- Hp; done.
Qed.

Lemma leases_in_app c T1 T2 : leases_in c (T1 ++ T2) = leases_in c T1 ++ leases_in c T2.
Proof. apply omap_app. Qed.

Lemma ticket_reads_keeps r r' t spans : keeps r r' -> is_Some (tickets r' !! t) -> ticket_reads r t spans -> ticket_reads r' t spans.
Proof.
  intros (Hk & Hf & _) [tk' Htk'] (tk & Htk & Hs). exists tk'. split; [done|]. rewrite (Hf t tk tk' Htk Htk').
  apply Forall2_same_length_lookup in Hs as [Hlen Hs]. apply Forall2_same_length_lookup. split; [done|]. intros i s id Hi Hid.
  destruct (Hs i s id Hi Hid) as (c & Hc & Hsp). destruct (Hk id c Hc) as (c' & Hc' & Hsp' & _); [|exists c'; split; congruence].
  left. exists t, tk'. split; [done|]. rewrite (Hf t tk tk' Htk Htk'). by eapply list_elem_of_lookup_2.
Qed.

(** A step of a cache. *)
Lemma cache_step_ok w T T' c b' : world_ok w T -> blocks_ok b' ->
  (forall key bytes, block_of b' key = Some bytes -> right c key bytes) ->
  leases_in c T' ≡ₚ map_to_list (ls_key <$> leases b') -> (forall c', c' <> c -> leases_in c' T' = leases_in c' T) ->
  reads_in T' = reads_in T -> buffers_in T' = buffers_in T -> news_in T' = news_in T -> busy_in T' = busy_in T -> locks_in T' = locks_in T ->
  (forall x, x ∈ T' -> x ∈ T \/ exists c n k, x = RLease c n k) -> world_ok (set_cache c b' w) T'.
Proof.
  intros [] Hb Hr Hl Hother E1 E2 E3 E4 E5 Hsub.
  assert (forall c', cache_of c' (set_cache c b' w) = if decide (c' = c) then b' else cache_of c' w) as Hc by (by intros []; destruct c).
  assert (forall t spans, RReads t spans ∈ T' -> RReads t spans ∈ T) as S1 by (intros ? ? [?|(? & ? & ? & ?)]%Hsub; done).
  assert (forall id l, RNew id l ∈ T' -> RNew id l ∈ T) as S2 by (intros ? ? [?|(? & ? & ? & ?)]%Hsub; done).
  assert (forall id o, RBusy id o ∈ T' -> RBusy id o ∈ T) as S3 by (intros ? ? [?|(? & ? & ? & ?)]%Hsub; done).
  split; rewrite ?E1, ?E2, ?E3, ?E4, ?E5.
  - intros c'. rewrite Hc. case_decide; [done|]. apply wo_blocks0.
  - intros c' key bytes. rewrite Hc. case_decide; [subst; apply Hr|apply wo_right0].
  - by destruct c.
  - intros c'. rewrite Hc. case_decide as Hd; [by subst|]. rewrite Hother by done. apply wo_leases0.
  - by destruct c.
  - destruct c; naive_solver.
  - by destruct c.
  - destruct c; naive_solver.
  - destruct c; naive_solver.
  - by destruct c.
  - destruct wo_locks0 as [Hnd Hlk]. split; [done|]. intros l. specialize (Hlk l). by destruct c, l.
  - by destruct c.
  - by destruct c.
Qed.

(** A step of the reader. *)
Lemma reader_step_ok w T T' r' : world_ok w T -> reader_ok r' -> exits_ok r' -> keeps (w_reader w) r' ->
  reads_in T' ≡ₚ (map_to_list (tickets r')).*1 -> buffers_in T' ≡ₚ (map_to_list (held r')).*1 ->
  (forall t spans, RReads t spans ∈ T' -> RReads t spans ∈ T \/ ticket_reads r' t spans) ->
  (forall c, leases_in c T' = leases_in c T) -> news_in T' = news_in T -> busy_in T' = busy_in T -> locks_in T' = locks_in T ->
  (forall x, x ∈ T' -> x ∈ T \/ (exists t s, x = RReads t s) \/ exists n, x = RBuffer n) -> world_ok (w <| w_reader := r' |>) T'.
Proof.
  intros [] Hr He Hk Hreads Hbuf Hnew E1 E2 E3 E4 Hsub.
  assert (source_data r' = data) as Hsrc by (destruct wo_reader0 as (_ & _ & Hd); destruct Hk as (_ & _ & Hk); congruence).
  assert (forall id l, RNew id l ∈ T' -> RNew id l ∈ T) as S2 by (intros ? ? [?|[(? & ? & ?)|(? & ?)]]%Hsub; done).
  assert (forall id o, RBusy id o ∈ T' -> RBusy id o ∈ T) as S3 by (intros ? ? [?|[(? & ? & ?)|(? & ?)]]%Hsub; done).
  split; rewrite ?E2, ?E3, ?E4; try done.
  - intros c. rewrite E1. apply wo_leases0.
  - intros t spans Hin. destruct (Hnew t spans Hin) as [Hold|?]; [|done]. apply (ticket_reads_keeps (w_reader w)); [done| |by apply wo_reads_of0].
    assert (t ∈ reads_in T') as Ht by (apply list_elem_of_omap; by exists (RReads t spans)). rewrite Hreads in Ht.
    apply list_elem_of_fmap in Ht as ([t' tk] & -> & Hl). apply elem_of_map_to_list in Hl. by exists tk.
  - destruct wo_news0. naive_solver.
  - destruct wo_busy0. naive_solver.
Qed.

Lemma reader_keep w T r' : world_ok w T -> reader_ok r' -> exits_ok r' -> keeps (w_reader w) r' ->
  (map_to_list (tickets r')).*1 ≡ₚ (map_to_list (tickets (w_reader w))).*1 -> held r' = held (w_reader w) -> world_ok (w <| w_reader := r' |>) T.
Proof.
  intros Hw Hr He Hk Ht Hh. pose proof Hw as []. apply (reader_step_ok w T T); try done; [by rewrite Ht|by rewrite Hh|auto|auto].
Qed.

Lemma lease_map_insert (m : gmap positive lease) n l : m !! n = None ->
  map_to_list (ls_key <$> <[n := l]> m) ≡ₚ (n, ls_key l) :: map_to_list (ls_key <$> m).
Proof. intros Hn. rewrite fmap_insert, map_to_list_insert; [done|]. by rewrite lookup_fmap, Hn. Qed.

Lemma lease_map_delete (m : gmap positive lease) n l : m !! n = Some l ->
  map_to_list (ls_key <$> m) ≡ₚ (n, ls_key l) :: map_to_list (ls_key <$> delete n m).
Proof.
  intros Hn. rewrite fmap_delete, map_to_list_delete; [done|]. by rewrite lookup_fmap, Hn.
Qed.

(** Owned leases are live, and their bytes are those of their key. *)
Lemma owned_lease w T c n k : world_ok w T -> RLease c n k ∈ T ->
  exists l, leases (cache_of c w) !! n = Some l /\ ls_key l = k /\ right c k (lease_data (control_of (cache_of c w)) l).
Proof.
  intros Hw Hin. assert ((n, k) ∈ leases_in c T) as Hl.
  { apply list_elem_of_omap. exists (RLease c n k). split; [done|]. by rewrite decide_True. }
  rewrite (wo_leases _ _ Hw c) in Hl. apply elem_of_map_to_list in Hl. rewrite lookup_fmap in Hl.
  destruct (leases (cache_of c w) !! n) as [l|] eqn:El; [|done]. simpl in Hl. injection Hl as Hk. exists l. split_and!; try done.
  rewrite <- Hk. apply (wo_right _ _ Hw). by apply (lease_block _ (wo_blocks _ _ Hw c) n).
Qed.

Lemma cache_tickets c b w : w_tickets (set_cache c b w) = w_tickets w /\ w_log (set_cache c b w) = w_log w.
Proof. by destruct c. Qed.

Context (Hnode : 0 <= node_bytes).

Lemma leases_other c c' n k T : c' <> c -> leases_in c' (RLease c n k :: T) = leases_in c' T.
Proof. intros Hne. unfold leases_in. csimpl. rewrite decide_False by done. done. Qed.

Lemma leases_same c n k T : leases_in c (RLease c n k :: T) = (n, k) :: leases_in c T.
Proof. unfold leases_in. csimpl. rewrite decide_True by done. done. Qed.

Lemma sound_acquire w T c key : world_ok w T ->
  exists r b', block_step (Acquire key) (cache_of c w) = Some (r, b') /\
    match r with
    | Leased n => world_ok (set_cache c b' w) (RLease c n key :: T)
    | _ => world_ok (set_cache c b' w) T
    end.
Proof.
  intros Hw. destruct (acquire_step _ (wo_blocks _ _ Hw c) key) as (r & b' & Hs & Hok & Hsame & _ & Hcase). exists r, b'. split; [done|].
  assert (forall k bytes, block_of b' k = Some bytes -> right c k bytes) as Hright.
  { intros k bytes. rewrite (same_blocks_block _ _ k Hsame). apply (wo_right _ _ Hw). }
  destruct (block_of (cache_of c w) key) as [bytes|] eqn:Hb.
  - destruct Hcase as (n & l & -> & Hn & Hl & Hk & _). apply (cache_step_ok w T); try done.
    + rewrite leases_same, Hl, lease_map_insert, Hk by done. constructor. apply (wo_leases _ _ Hw).
    + intros c' Hne. by apply leases_other.
    + intros x [->|?]%elem_of_cons; eauto.
  - destruct Hcase as [-> Hl]. apply (cache_step_ok w T); try done; [|auto]. rewrite Hl. apply (wo_leases _ _ Hw).
Qed.

Lemma sound_admit w T c heap_fails key bytes : world_ok w T -> right c key bytes ->
  exists r b', block_step (Admit heap_fails key (Some bytes)) (cache_of c w) = Some (r, b') /\
    match r with
    | Leased n => world_ok (set_cache c b' w) (RLease c n key :: T)
    | Refused _ => world_ok (set_cache c b' w) T
    | _ => False
    end.
Proof.
  intros Hw Hbytes. destruct (decide (length bytes = block_size (control_of (cache_of c w)))) as [Hd|Hd].
  - destruct (admit_step Hnode _ (wo_blocks _ _ Hw c) heap_fails key bytes Hd) as (r & b' & Hs & Hok & _ & Hcase). exists r, b'. split; [exact Hs|]. clear Hs Hd.
    destruct r as [n| |e|]; [|done| |done].
    + destruct Hcase as (l & Hn & Hl & Hk & _ & _ & Hblocks).
      assert (forall k bs, block_of b' k = Some bs -> right c k bs) as Hright.
      { intros k bs Hbs. destruct Hblocks as [[_ Hsame]|(_ & v & _ & Hb)].
        - rewrite (same_blocks_block _ _ k Hsame) in Hbs. by apply (wo_right _ _ Hw).
        - rewrite Hb in Hbs. case_decide as Hd1; [subst k; by injection Hbs as <-|]. case_decide; [discriminate Hbs|]. by apply (wo_right _ _ Hw). }
      clear Hbytes Hblocks. apply (cache_step_ok w T); try done.
      * rewrite leases_same, Hl, lease_map_insert, Hk by done. constructor. apply (wo_leases _ _ Hw).
      * intros c' Hne. by apply leases_other.
      * intros x [->|?]%elem_of_cons; eauto.
    + clear Hbytes. destruct Hcase as [[Hl Hsame] _]. apply (cache_step_ok w T); try done; [| |auto].
      * intros k bs. rewrite (same_blocks_block _ _ k Hsame). apply (wo_right _ _ Hw).
      * rewrite Hl. apply (wo_leases _ _ Hw).
  - clear Hbytes. unfold block_step, admit_block. rewrite (proj2 (Nat.eqb_neq _ _) Hd). simpl. eexists _, _. split; [done|].
    apply (cache_step_ok w T); try done; [by apply (counters_ok _ (wo_blocks _ _ Hw c))|apply (wo_right _ _ Hw)|apply (wo_leases _ _ Hw)|auto].
Qed.

Lemma sound_release w T c n key : world_ok w (RLease c n key :: T) ->
  exists r b', block_step (Release n) (cache_of c w) = Some (r, b') /\ world_ok (set_cache c b' w) T.
Proof.
  intros Hw. destruct (owned_lease w _ c n key Hw) as (l & Hl & Hk & _); [by left|].
  destruct (block_release_step _ (wo_blocks _ _ Hw c) n l Hl) as (b' & Hs & Hok & Hsame & Hdel). exists Released, b'. split; [done|].
  apply (cache_step_ok w (RLease c n key :: T)); try done.
  - intros k bs. rewrite (same_blocks_block _ _ k Hsame). apply (wo_right _ _ Hw).
  - pose proof (wo_leases _ _ Hw c) as Hp. rewrite leases_same, (lease_map_delete _ n l Hl), Hk in Hp. rewrite Hdel. by apply Permutation_cons_inv in Hp.
  - intros c' Hne. symmetry. by apply leases_other.
  - intros x Hx. left. by right.
Qed.

Context `{!ReaderSizesOk}.

Lemma submit_exits early faults owner spans r x r' : reader_ok r -> exits_ok r -> Forall span_typed spans ->
  AsyncReader.submit early faults owner spans r = Some (x, r') -> exits_ok r'.
Proof.
  intros Hr He Hty Hsub. destruct (submit_ok early faults owner spans r Hr Hty) as (x' & r1 & Hs & _ & _ & Hx).
  rewrite Hsub in Hs. injection Hs as <- <-. destruct x as [t|e].
  - destruct Hx as (_&_&E3&_). intros Hin. rewrite E3 in Hin. destruct (He Hin) as [Hst _]. unfold AsyncReader.submit in Hsub.
    rewrite Hst in Hsub. repeat (case_match; try done).
  - destruct Hx as (_&E2&_&_&_&_&E7&E8&_). apply (exits_same r); try done. congruence.
Qed.

Lemma sound_submit w T early faults owner spans : world_ok w T -> Forall span_typed spans ->
  exists x r', AsyncReader.submit early faults owner spans (w_reader w) = Some (x, r') /\
    match x with
    | Ok t => world_ok (w <| w_reader := r' |>) (RReads t spans :: T)
    | Err _ => world_ok (w <| w_reader := r' |>) T
    end.
Proof.
  intros Hw Hty. pose proof (wo_reader _ _ Hw) as (Hr & He & _).
  destruct (submit_ok early faults owner spans _ Hr Hty) as (x & r' & Hs & Hok & Hk & Hx). exists x, r'. split; [done|].
  pose proof (submit_exits _ _ _ _ _ _ _ Hr He Hty Hs) as He'. destruct x as [t|e].
  - destruct Hx as (_&Hh&_&_&_&Hn&_&_&futures&Htk&Hfut). apply (reader_step_ok w T); try done.
    + rewrite Htk, map_to_list_insert by done. csimpl. constructor. apply (wo_reads _ _ Hw).
    + rewrite Hh. apply (wo_buffers _ _ Hw).
    + intros t' spans' [[= -> ->]|?]%elem_of_cons; [|by left]. right. exists (mk_ticket owner false futures). split; [by rewrite Htk, lookup_insert_eq|].
      eapply Forall2_impl; [done|]. simpl. naive_solver.
    + intros y [->|?]%elem_of_cons; eauto.
  - destruct Hx as (_&_&_&_&Htk&Hh&_). apply reader_keep; try done. by rewrite Htk.
Qed.

(** Marks on tickets of the reader. *)
Lemma marks_keys r r' : marks_only r r' -> (map_to_list (tickets r')).*1 ≡ₚ (map_to_list (tickets r)).*1.
Proof.
  intros (_ & _ & _ & Hf). apply NoDup_Permutation; [apply NoDup_fst_map_to_list..|]. intros t.
  rewrite !list_elem_of_fmap. split; intros ([t' tk] & -> & Hl); apply elem_of_map_to_list in Hl; specialize (Hf t'); rewrite Hl in Hf; simpl.
  - destruct (tickets r !! t') as [tk'|] eqn:E; [|done]. exists (t', tk'). split; [done|]. by apply elem_of_map_to_list.
  - destruct (tickets r' !! t') as [tk'|] eqn:E; [|done]. exists (t', tk'). split; [done|]. by apply elem_of_map_to_list.
Qed.

Lemma sound_marks w T r' : world_ok w T -> marks_only (w_reader w) r' -> world_ok (w <| w_reader := r' |>) T.
Proof.
  intros Hw Hm. pose proof (wo_reader _ _ Hw) as (Hr & He & _). destruct (marks_ok _ _ Hr Hm) as [Hok Hk].
  apply reader_keep; try done; [|by apply marks_keys|apply Hm].
  destruct Hm as ((_&_&E3&_&_&E6&_)&_&Hst&_). by apply (exits_same (w_reader w)).
Qed.

Lemma sound_worker w T i f : world_ok w T ->
  exists o, worker_step i f (w_reader w) = Some o /\ match o with None => True | Some r' => world_ok (w <| w_reader := r' |>) T end.
Proof.
  intros Hw. pose proof (wo_reader _ _ Hw) as (Hr & He & _). destruct (worker_step_ok (w_reader w) i f Hr) as (o & -> & Ho).
  exists o. split; [done|]. destruct o as [r'|]; [|done]. destruct Ho as (Hok & Hk & (Htk & Hh & _) & _ & Hex).
  apply reader_keep; try done; [by apply Hex|by rewrite Htk].
Qed.

Lemma sound_await w T t i spans s : world_ok w T -> RReads t spans ∈ T -> spans !! i = Some s ->
  exists o, await t i (w_reader w) = Some o /\
    match o with
    | None => True
    | Some (Err _, r') => world_ok (w <| w_reader := r' |>) T
    | Some (Ok (name, bytes), r') => bytes = span_bytes data s /\ span_ok data s /\ world_ok (w <| w_reader := r' |>) (RBuffer name :: T)
    end.
Proof.
  intros Hw Hin Hs. pose proof (wo_reader _ _ Hw) as (Hr & He & Hd). destruct (wo_reads_of _ _ Hw _ _ Hin) as (tk & Htk & Hf).
  destruct (Forall2_lookup_l _ _ _ _ _ Hf Hs) as (id & Hid & c & Hc & Hsp).
  destruct (await t i (w_reader w)) as [[[x r']|]|] eqn:Ha; [| by exists None|].
  - pose proof (await_ok _ t i x r' Hr Ha) as (Hok & Hk & (E1&E2&E3&E4&E5&E6&E7&E8&E9) & Ht' & tk' & id' & c' & H1' & H2' & H3' & Hx).
    simplify_eq. eexists. split; [done|].
    assert (stopping r' = stopping (w_reader w)) as Hst.
    { unfold await in Ha. rewrite Htk in Ha. simpl in Ha. rewrite Hid in Ha. simpl in Ha. rewrite Hc in Ha. simpl in Ha. repeat case_match; by simplify_eq. }
    assert (exits_ok r') as He' by (apply (exits_same (w_reader w)); try done; congruence).
    destruct x as [[name bytes]|e].
    + destruct Hx as (Hn & Hh & ->). split_and!; [by rewrite Hd|rewrite <- Hd; by apply (ro_spans _ Hr id)|]. apply (reader_step_ok w T); try done.
      * rewrite Ht'. apply (wo_reads _ _ Hw).
      * rewrite Hh, map_to_list_insert by done. csimpl. constructor. apply (wo_buffers _ _ Hw).
      * intros t' spans' [?|?]%elem_of_cons; [done|by left].
      * intros y [->|?]%elem_of_cons; eauto.
    + destruct Hx as [-> _]. by destruct w.
  - exfalso. unfold await in Ha. rewrite Htk in Ha. simpl in Ha. rewrite Hid in Ha. simpl in Ha. rewrite Hc in Ha. simpl in Ha. by repeat case_match.
Qed.

Lemma sound_drop_reads w T t spans : world_ok w (RReads t spans :: T) ->
  exists r', drop_ticket t (w_reader w) = Some r' /\ world_ok (w <| w_reader := r' |>) T.
Proof.
  intros Hw. pose proof (wo_reader _ _ Hw) as (Hr & He & _).
  destruct (drop_ticket_ok t _ Hr) as (r' & Hd & Hok & Hk & Htk & E1 & E2 & E3 & Hh). exists r'. split; [done|].
  destruct (wo_reads_of _ _ Hw t spans) as (tk & Ht & _); [by left|].
  apply (reader_step_ok w (RReads t spans :: T)); try done.
  - apply (exits_same (w_reader w)); try done. congruence.
  - pose proof (wo_reads _ _ Hw) as Hp. rewrite <- (map_to_list_delete (tickets (w_reader w)) t tk Ht) in Hp. csimpl in Hp. rewrite Htk. by apply Permutation_cons_inv in Hp.
  - rewrite Hh. apply (wo_buffers _ _ Hw).
  - intros t' spans' ?. left. by right.
  - intros y ?. left. by right.
Qed.

Lemma sound_drop_buffer w T name : world_ok w (RBuffer name :: T) ->
  exists r', drop_held name (w_reader w) = Some r' /\ world_ok (w <| w_reader := r' |>) T.
Proof.
  intros Hw. pose proof (wo_reader _ _ Hw) as (Hr & He & _).
  destruct (drop_held_ok name _ Hr) as (r' & Hd & Hok & Hk & Htk & E1 & E2 & E3 & Hh). exists r'. split; [done|].
  assert (name ∈ (map_to_list (held (w_reader w))).*1) as Hin by (rewrite <- (wo_buffers _ _ Hw); by left).
  apply list_elem_of_fmap in Hin as ([n' id] & -> & Hin). apply elem_of_map_to_list in Hin. cbn [fst] in *.
  apply (reader_step_ok w (RBuffer n' :: T)); try done.
  - apply (exits_same (w_reader w)); try done. congruence.
  - rewrite Htk. apply (wo_reads _ _ Hw).
  - pose proof (wo_buffers _ _ Hw) as Hp. rewrite <- (map_to_list_delete (held (w_reader w)) n' id Hin) in Hp. csimpl in Hp. rewrite Hh. by apply Permutation_cons_inv in Hp.
  - intros t' spans' ?. left. by right.
  - intros y ?. left. by right.
Qed.

(** ** Tickets of the stores *)

Definition solid (x : resource) : bool := match x with RNew _ _ | RBusy _ _ => false | _ => true end.

Lemma solid_parts T : (forall c, leases_in c (filter solid T) = leases_in c T) /\ reads_in (filter solid T) = reads_in T /\
  buffers_in (filter solid T) = buffers_in T /\ locks_in (filter solid T) = locks_in T.
Proof.
  induction T as [|x T (IH1 & IH2 & IH3 & IH4)]; [done|]. unfold leases_in, reads_in, buffers_in, locks_in in *.
  rewrite filter_cons. destruct x; csimpl; rewrite ?IH2, ?IH3, ?IH4; split_and!; try done; intros c'; csimpl; by rewrite ?IH1.
Qed.

Definition news_ok (m : gmap positive store_ticket) (T : list resource) : Prop :=
  NoDup (news_in T) /\ forall id l, RNew id l ∈ T -> exists t, m !! id = Some t /\ st_payload t = None /\ st_level t = l /\ st_busy t = false.
Definition busy_ok (m : gmap positive store_ticket) (T : list resource) : Prop :=
  NoDup (busy_in T) /\ forall id o, RBusy id o ∈ T -> exists t, m !! id = Some t /\ is_Some (st_payload t) /\ st_busy t = true /\ busy_mark t = o /\
              forall p, st_payload t = Some p -> p_slots p = [].
Definition entry_ok_at (log : gmap positive (list Z)) (id : positive) (t : store_ticket) : Prop :=
  (is_Some (log !! id) /\ keyed t) /\
  forall p rows, st_payload t = Some p -> st_consumed t = false -> log !! id = Some rows ->
    st_busy t = false /\ payload_ok (st_level t) rows p (st_reads t) (st_pages t) log.

(** Tickets in use are marked. *)
Definition marked (m : gmap positive store_ticket) (T : list resource) : Prop := forall id t, m !! id = Some t -> st_busy t = true -> id ∈ busy_in T.

Lemma ticket_step_ok w T T' m' log' : world_ok w T -> filter solid T' ≡ₚ filter solid T -> news_ok m' T' -> busy_ok m' T' -> marked m' T' ->
  (forall id t, m' !! id = Some t -> entry_ok_at log' id t) -> world_ok (w <| w_tickets := m' |> <| w_log := log' |>) T'.
Proof.
  intros [] Hp Hn Hb Hmk He. destruct (solid_parts T) as (L1 & R1 & B1 & K1). destruct (solid_parts T') as (L2 & R2 & B2 & K2).
  assert (forall x, solid x = true -> x ∈ T' -> x ∈ T) as Hin.
  { intros x Hx Hin. assert (x ∈ filter solid T') as Hf by (apply list_elem_of_filter; by rewrite Hx). rewrite Hp in Hf. by apply list_elem_of_filter in Hf as [_ ?]. }
  split; try done.
  - intros c. rewrite <- L2. unfold leases_in at 1. rewrite Hp. fold (leases_in c (filter solid T)). rewrite L1. destruct c; [apply (wo_leases0 RowCache)|apply (wo_leases0 PageCache)].
  - rewrite <- R2. unfold reads_in at 1. rewrite Hp. fold (reads_in (filter solid T)). by rewrite R1.
  - intros t spans Ht. apply wo_reads_of0. by apply Hin.
  - rewrite <- B2. unfold buffers_in at 1. rewrite Hp. fold (buffers_in (filter solid T)). by rewrite B1.
  - destruct wo_locks0 as [Hnd Hl]. split.
    + rewrite <- K2. unfold locks_in at 1. rewrite Hp. fold (locks_in (filter solid T)). by rewrite K1.
    + intros l. specialize (Hl l). rewrite <- K2. unfold locks_in at 1. rewrite Hp. fold (locks_in (filter solid T)). rewrite K1. by destruct l.
  - intros id t Ht. by apply (He id t Ht).
  - intros id t p rows Ht Hpl Hc Hlog. by apply (He id t Ht).
Qed.

Lemma payload_ok_log l rows p reads pages log log' : log ⊆ log' -> payload_ok l rows p reads pages log -> payload_ok l rows p reads pages log'.
Proof.
  intros Hlog (? & ? & ? & Hl). split_and!; try done. destruct l; try done. destruct Hl as (-> & -> & Hl). split_and!; try done.
  destruct pages; [|done]. by eapply lookup_weaken.
Qed.

Lemma entries_ok_at w T id t : world_ok w T -> w_tickets w !! id = Some t -> entry_ok_at (w_log w) id t.
Proof. intros Hw Ht. split; [by eapply (wo_log _ _ Hw)|]. intros p rows. by apply (wo_tickets _ _ Hw). Qed.

Lemma news_in_elem id T : id ∈ news_in T <-> exists l, RNew id l ∈ T.
Proof.
  unfold news_in. rewrite list_elem_of_omap. split; [intros (x & Hx & Heq); destruct x; simplify_eq/=; by eexists|].
  intros (l & Hin). by exists (RNew id l).
Qed.
Lemma busy_in_elem id T : id ∈ busy_in T <-> exists o, RBusy id o ∈ T.
Proof.
  unfold busy_in. rewrite list_elem_of_omap. split; [intros (x & Hx & Heq); destruct x; simplify_eq/=; by eexists|].
  intros (l & Hin). by exists (RBusy id l).
Qed.

(** Tickets that no thread has marked can change. *)
Lemma news_ok_ext m m' T : news_ok m T -> (forall id l, RNew id l ∈ T -> m' !! id = m !! id) -> news_ok m' T.
Proof. intros [Hnd Hn] Hm. split; [done|]. intros id l Hin. rewrite (Hm id l Hin). by apply Hn. Qed.
Lemma busy_ok_ext m m' T : busy_ok m T -> (forall id o, RBusy id o ∈ T -> m' !! id = m !! id) -> busy_ok m' T.
Proof. intros [Hnd Hn] Hm. split; [done|]. intros id l Hin. rewrite (Hm id l Hin). by apply Hn. Qed.

(** Tickets own nothing that is marked. *)
Lemma slot_leases_solid c slots keys x : x ∈ slot_leases c slots keys -> solid x = true.
Proof. intros Hx. apply list_elem_of_omap in Hx as ([[n|] k] & _ & Heq); by simplify_eq/=. Qed.
Lemma reads_own_solid o x : x ∈ reads_own o -> solid x = true.
Proof. destruct o as [[? ?]|]; simpl; [|by intros ?%elem_of_nil]. by intros ->%list_elem_of_singleton. Qed.

Lemma ticket_own_solid t x : x ∈ ticket_own t -> solid x = true.
Proof.
  unfold ticket_own. destruct (st_payload t) as [p|]; [|by intros ?%elem_of_nil]. destruct (st_busy t); [by intros ?%elem_of_nil|].
  intros [?|?]%elem_of_app; [by eapply slot_leases_solid|by eapply reads_own_solid].
Qed.

Lemma tickets_own_solid m x : x ∈ tickets_own m -> solid x = true.
Proof.
  unfold tickets_own. rewrite list_elem_of_join. intros (l & Hx & Hl). apply list_elem_of_fmap in Hl as (t & -> & _). by apply ticket_own_solid in Hx.
Qed.

Lemma filter_solid_perm T T' : T ≡ₚ T' -> filter solid T ≡ₚ filter solid T'.
Proof. by intros ->. Qed.

Lemma world_news w T : world_ok w T -> news_ok (w_tickets w) T.
Proof. intros []. done. Qed.
Lemma world_busy w T : world_ok w T -> busy_ok (w_tickets w) T.
Proof. intros []. done. Qed.

(** Marks are with the threads. *)
Lemma unmarked T : (forall x, x ∈ T -> solid x = true) -> news_in T = [] /\ busy_in T = [].
Proof.
  intros HT. split; apply elem_of_nil_inv; intros id; [rewrite news_in_elem|rewrite busy_in_elem]; intros (x & Hin); by apply HT in Hin.
Qed.

Lemma news_ok_solid m S own : (forall x, x ∈ S -> solid x = true) -> news_ok m (S ++ own) <-> news_ok m own.
Proof.
  intros HS. unfold news_ok, news_in. rewrite omap_app. fold (news_in S). rewrite (proj1 (unmarked S HS)).
  split; intros [Hnd Hn]; (split; [done|]); intros id l Hin; apply Hn; [set_solver|]. apply elem_of_app in Hin as [Hin|?]; [|done]. by apply HS in Hin.
Qed.

Lemma busy_ok_solid m S own : (forall x, x ∈ S -> solid x = true) -> busy_ok m (S ++ own) <-> busy_ok m own.
Proof.
  intros HS. unfold busy_ok, busy_in. rewrite omap_app. fold (busy_in S). rewrite (proj2 (unmarked S HS)).
  split; intros [Hnd Hn]; (split; [done|]); intros id l Hin; apply Hn; [set_solver|]. apply elem_of_app in Hin as [Hin|?]; [|done]. by apply HS in Hin.
Qed.

#[local] Instance news_ok_perm m : Proper ((≡ₚ) ==> iff) (news_ok m).
Proof. intros T T' Hp. unfold news_ok, news_in. rewrite Hp. split; intros [? Hn]; (split; [done|]); intros id l; [rewrite <- Hp|rewrite Hp]; apply Hn. Qed.
#[local] Instance busy_ok_perm m : Proper ((≡ₚ) ==> iff) (busy_ok m).
Proof. intros T T' Hp. unfold busy_ok, busy_in. rewrite Hp. split; intros [? Hn]; (split; [done|]); intros id l; [rewrite <- Hp|rewrite Hp]; apply Hn. Qed.

Lemma news_ok_app m m' own : news_ok m (own ++ tickets_own m') <-> news_ok m own.
Proof. rewrite (comm (++)). apply news_ok_solid, tickets_own_solid. Qed.
Lemma busy_ok_app m m' own : busy_ok m (own ++ tickets_own m') <-> busy_ok m own.
Proof. rewrite (comm (++)). apply busy_ok_solid, tickets_own_solid. Qed.

Lemma busy_in_solid S own : (forall x, x ∈ S -> solid x = true) -> busy_in (S ++ own) = busy_in own.
Proof. intros HS. unfold busy_in. rewrite omap_app. fold (busy_in S). by rewrite (proj2 (unmarked S HS)). Qed.
Lemma marked_app m m' own : marked m (own ++ tickets_own m') <-> marked m own.
Proof.
  unfold marked. assert (forall id, id ∈ busy_in (own ++ tickets_own m') <-> id ∈ busy_in own) as Hin; [|by setoid_rewrite Hin].
  intros id. rewrite !busy_in_elem. split; intros [o Ho]; exists o; [|apply elem_of_app; by left]. apply elem_of_app in Ho as [?|Ho]; [done|]. by apply tickets_own_solid in Ho.
Qed.

(** Other marks. *)
Lemma news_busy m id o own : news_ok m (RBusy id o :: own) <-> news_ok m own.
Proof. unfold news_ok. simpl. split; intros [? Hn]; (split; [done|]); intros id' l Hin; apply Hn; [by right|]. by apply elem_of_cons in Hin as [?|?]. Qed.
Lemma busy_news m id l own : busy_ok m (RNew id l :: own) <-> busy_ok m own.
Proof. unfold busy_ok. simpl. split; intros [? Hn]; (split; [done|]); intros id' o Hin; apply Hn; [by right|]. by apply elem_of_cons in Hin as [?|?]. Qed.

Lemma news_lose m id l own : news_ok m (RNew id l :: own) ->
  news_ok m own /\ (forall l', RNew id l' ∉ own) /\ exists t, m !! id = Some t /\ st_payload t = None /\ st_level t = l /\ st_busy t = false.
Proof.
  intros [Hnd Hn]. simpl in Hnd. apply NoDup_cons in Hnd as [Hid Hnd]. split_and!; [split; [done|]|..].
  - intros id' l' Hin. apply Hn. by right.
  - intros l' Hin. apply Hid. apply news_in_elem. by exists l'.
  - apply Hn. by left.
Qed.

Lemma busy_lose m id o own : busy_ok m (RBusy id o :: own) ->
  busy_ok m own /\ (forall o', RBusy id o' ∉ own) /\
  exists t, m !! id = Some t /\ is_Some (st_payload t) /\ st_busy t = true /\ busy_mark t = o /\ forall p, st_payload t = Some p -> p_slots p = [].
Proof.
  intros [Hnd Hn]. simpl in Hnd. apply NoDup_cons in Hnd as [Hid Hnd]. split_and!; [split; [done|]|..].
  - intros id' l' Hin. apply Hn. by right.
  - intros l' Hin. apply Hid. apply busy_in_elem. by exists l'.
  - apply Hn. by left.
Qed.

Lemma inv_news w own : world_inv w own -> news_ok (w_tickets w) own.
Proof. intros Hw%world_news. by apply news_ok_app in Hw. Qed.
Lemma inv_busy w own : world_inv w own -> busy_ok (w_tickets w) own.
Proof. intros Hw%world_busy. by apply busy_ok_app in Hw. Qed.

Lemma sound_new w own l owner rows id : world_inv w own -> id = fresh (dom (w_log w)) ->
  world_inv (w <| w_tickets ::= <[id := mk_store_ticket l owner false false false None None None]> |> <| w_log ::= <[id := rows]> |>) (RNew id l :: own) /\
  w_log w !! id = None.
Proof.
  intros Hw ->. set (id := fresh _). pose proof (is_fresh (dom (w_log w))) as Hf. fold id in Hf. apply not_elem_of_dom in Hf. split; [|done].
  unfold world_inv in *. set (t := mk_store_ticket _ _ _ _ _ _ _ _).
  assert (w_tickets w !! id = None) as Hid.
  { apply eq_None_not_Some. intros [t0 Ht0]. destruct (wo_log _ _ Hw id t0 Ht0) as [[? ?] _]. congruence. }
  assert (tickets_own (<[id := t]> (w_tickets w)) ≡ₚ tickets_own (w_tickets w)) as Hown by (by rewrite tickets_own_insert).
  change (world_ok (w <| w_tickets := <[id := t]> (w_tickets w) |> <| w_log := <[id := rows]> (w_log w) |>) ((RNew id l :: own) ++ tickets_own (<[id := t]> (w_tickets w)))).
  rewrite Hown. apply (ticket_step_ok w (own ++ tickets_own (w_tickets w))); [done|done|..].
  - destruct (world_news _ _ Hw) as [Hnd Hn]. split.
    + simpl. constructor; [|done]. rewrite news_in_elem. intros (l' & Hin). destruct (Hn id l' Hin) as (t0 & Ht0 & _). congruence.
    + intros id' l' [[= -> ->]|Hin]%elem_of_cons; [exists t; by rewrite lookup_insert_eq|]. destruct (Hn id' l' Hin) as (t0 & Ht0 & ?).
      exists t0. rewrite lookup_insert_ne; [done|congruence].
  - destruct (world_busy _ _ Hw) as [Hnd Hb]. split; [done|]. intros id' o [?|Hin]%elem_of_cons; [done|].
    destruct (Hb id' o Hin) as (t0 & Ht0 & ?). exists t0. rewrite lookup_insert_ne; [done|congruence].
  - intros id' t' [[<- <-]|[_ Ht']]%lookup_insert_Some Hbu; [done|]. by apply (wo_marked _ _ Hw id' t').
  - intros id' t' [[<- <-]|[Hne Ht']]%lookup_insert_Some; [split; [by rewrite lookup_insert_eq|done]|].
    destruct (entries_ok_at _ _ _ _ Hw Ht') as [[Hs Hkeyed] He]. split; [rewrite lookup_insert_ne by done; done|]. intros p rows' Hp Hc.
    rewrite lookup_insert_ne by done. intros Hlog. destruct (He p rows' Hp Hc Hlog) as [? ?]. split; [done|].
    eapply payload_ok_log; [|done]. by apply insert_subseteq.
Qed.

(** One ticket changes. *)
Lemma ticket_set_ok w own own' id t t' : world_inv w own -> w_tickets w !! id = Some t ->
  filter solid (own' ++ ticket_own t') ≡ₚ filter solid (own ++ ticket_own t) ->
  news_ok (<[id := t']> (w_tickets w)) own' -> busy_ok (<[id := t']> (w_tickets w)) own' ->
  (forall id', (id' ∈ busy_in own /\ id' <> id) \/ (id' = id /\ st_busy t' = true) -> id' ∈ busy_in own') -> entry_ok_at (w_log w) id t' ->
  world_inv (w <| w_tickets ::= <[id := t']> |>) own'.
Proof.
  intros Hw Ht Hp Hn Hb Hmk He. unfold world_inv in *. set (m' := <[id := t']> (w_tickets w)).
  assert (world_ok (w <| w_tickets := m' |> <| w_log := w_log w |>) (own' ++ tickets_own m')) as Hok; [|by destruct w].
  apply (ticket_step_ok w (own ++ tickets_own (w_tickets w))); [done|..].
  - unfold m'. rewrite (tickets_own_set _ id t t' Ht), (tickets_own_delete _ id t Ht), !(assoc_L (++)), (filter_app _ (own' ++ _)), (filter_app _ (own ++ _)). by rewrite Hp.
  - by apply news_ok_app.
  - by apply busy_ok_app.
  - apply marked_app. intros id' u [[<- <-]|[Hne Hu]]%lookup_insert_Some Hbu; apply Hmk; [by right|left]. split; [|done].
    by eapply (marked_app (w_tickets w) (w_tickets w)), Hbu; [exact (wo_marked _ _ Hw)|].
  - intros id' u [[<- <-]|[_ Hu]]%lookup_insert_Some; [done|]. by eapply entries_ok_at.
Qed.

(** A ticket that no thread has marked goes, or one that its maker gives up. *)
Lemma ticket_del_ok w own own' id t : world_inv w own -> w_tickets w !! id = Some t ->
  filter solid own' ≡ₚ filter solid (own ++ ticket_own t) -> news_ok (delete id (w_tickets w)) own' -> busy_ok (delete id (w_tickets w)) own' ->
  (forall id', id' ∈ busy_in own -> id' ∈ busy_in own') -> world_inv (w <| w_tickets ::= delete id |>) own'.
Proof.
  intros Hw Ht Hp Hn Hb Hmk. unfold world_inv in *. set (m' := delete id (w_tickets w)).
  assert (world_ok (w <| w_tickets := m' |> <| w_log := w_log w |>) (own' ++ tickets_own m')) as Hok; [|by destruct w].
  apply (ticket_step_ok w (own ++ tickets_own (w_tickets w))); [done|..].
  - rewrite (tickets_own_delete _ id t Ht), !(assoc_L (++)), (filter_app _ own'), (filter_app _ (own ++ _)). by rewrite Hp.
  - by apply news_ok_app.
  - by apply busy_ok_app.
  - apply marked_app. intros id' u [_ Hu]%lookup_delete_Some Hbu. apply Hmk. by eapply (marked_app (w_tickets w) (w_tickets w)), Hbu; [exact (wo_marked _ _ Hw)|].
  - intros id' u [_ Hu]%lookup_delete_Some. by eapply entries_ok_at.
Qed.

#[local] Instance world_inv_perm w : Proper ((≡ₚ) ==> iff) (world_inv w).
Proof. intros T T' Hp. unfold world_inv. by rewrite Hp. Qed.

(** A thread that knows the ticket by another mark, or not at all. *)
Lemma news_other m id t t' own : m !! id = Some t -> is_Some (st_payload t) -> news_ok m own -> news_ok (<[id := t']> m) own.
Proof.
  intros Ht Hp Hn. eapply news_ok_ext; [done|]. intros id' l Hin. apply lookup_insert_ne. intros <-.
  destruct (proj2 Hn id l Hin) as (u & Hu & Hnone & _). simplify_eq. rewrite Hnone in Hp. by destruct Hp.
Qed.
Lemma busy_other m id t t' own : m !! id = Some t -> st_busy t = false -> busy_ok m own -> busy_ok (<[id := t']> m) own.
Proof.
  intros Ht Hp Hn. eapply busy_ok_ext; [done|]. intros id' o Hin. apply lookup_insert_ne. intros <-.
  destruct (proj2 Hn id o Hin) as (u & Hu & _ & Hb & _). congruence.
Qed.

Lemma on_ticket_set id f w t : w_tickets w !! id = Some t -> on_ticket id f w = w <| w_tickets ::= <[id := f t]> |>.
Proof. intros Ht. unfold on_ticket. destruct w. cbn in *. f_equal. by rewrite (alter_as_insert _ _ _ _ Ht). Qed.

Lemma sound_kill w own id l : world_inv w (RNew id l :: own) -> world_inv (w <| w_tickets ::= delete id |>) own.
Proof.
  intros Hw. destruct (news_lose _ _ _ _ (inv_news _ _ Hw)) as (Hn & Hno & t & Ht & Hp & _ & Hb).
  pose proof (inv_busy _ _ Hw) as Hbusy. apply busy_news in Hbusy. eapply ticket_del_ok; [done|done|..].
  - unfold ticket_own. rewrite Hp, app_nil_r, filter_cons_False by naive_solver. done.
  - eapply news_ok_ext; [done|]. intros id' l' Hin. apply lookup_delete_ne. intros <-. by eapply Hno.
  - eapply busy_ok_ext; [done|]. intros id' o Hin. apply lookup_delete_ne. intros <-.
    destruct (proj2 Hbusy id o Hin) as (u & Hu & _ & Hb' & _). congruence.
  - done.
Qed.

Lemma own_solid c slots keys o x : x ∈ slot_leases c slots keys ++ reads_own o -> solid x = true.
Proof. intros [?|?]%elem_of_app; [by eapply slot_leases_solid|by eapply reads_own_solid]. Qed.

Lemma inv_marked w own : world_inv w own -> marked (w_tickets w) own.
Proof. intros Hw. apply (marked_app _ (w_tickets w)). intros id t. by apply (wo_marked _ _ Hw). Qed.

Lemma sound_payload w own id l rows p reads pages : w_log w !! id = Some rows -> payload_ok l rows p reads pages (w_log w) ->
  let o := match reads with Some t => Some (t, miss_spans l p) | None => None end in
  world_inv w (RNew id l :: slot_leases (cache_for l) (p_slots p) (p_keys p) ++ reads_own o ++ own) ->
  world_inv (on_ticket id (fun t => t <| st_reads := reads |> <| st_pages := pages |> <| st_payload := Some p |>) w) own.
Proof.
  intros Hlog Hok o Hw. destruct (news_lose _ _ _ _ (inv_news _ _ Hw)) as (Hn & Hno & t & Ht & Hp & Hl & Hb).
  pose proof (inv_busy _ _ Hw) as Hbusy. apply busy_news in Hbusy.
  rewrite (assoc_L (++)) in Hn, Hbusy. pose proof Hn as Hn'.
  rewrite news_ok_solid in Hn by (intros x [?|?]%elem_of_app; [by eapply slot_leases_solid|by eapply reads_own_solid]).
  rewrite busy_ok_solid in Hbusy by (intros x [?|?]%elem_of_app; [by eapply slot_leases_solid|by eapply reads_own_solid]).
  set (t' := t <| st_reads := reads |> <| st_pages := pages |> <| st_payload := Some p |>).
  assert (on_ticket id (fun t => t <| st_reads := reads |> <| st_pages := pages |> <| st_payload := Some p |>) w = w <| w_tickets ::= <[id := t']> |>) as ->.
  { rewrite (on_ticket_set _ _ _ t Ht). done. }
  eapply ticket_set_ok; [done|done|..].
  - assert (ticket_own t' = slot_leases (cache_for l) (p_slots p) (p_keys p) ++ reads_own o) as ->.
    { unfold ticket_own, reads_of, t'. simpl. rewrite Hb, Hl. by destruct reads. }
    unfold ticket_own. rewrite Hp, app_nil_r, filter_cons_False by naive_solver. apply filter_solid_perm. by rewrite (comm (++) own), <- (assoc_L (++)).
  - eapply news_ok_ext; [done|]. intros id' l' Hin. apply lookup_insert_ne. intros <-. apply (Hno l'). rewrite !elem_of_app. by right; right.
  - by eapply busy_other.
  - intros id' [[Hin _]|[_ Htrue]]; [|by change (st_busy t = true) in Htrue; congruence].
    change (id' ∈ busy_in (slot_leases (cache_for l) (p_slots p) (p_keys p) ++ reads_own o ++ own)) in Hin. rewrite (assoc_L (++)) in Hin.
    rewrite busy_in_solid in Hin; [done|]. intros x. apply own_solid.
  - split.
    { split; [by eexists|]. split; [intros p' [= <-]; destruct Hok; lia|]. intros Htwo. change (st_level t = TwoTierLevel) in Htwo.
      rewrite Hl in Htwo. rewrite Htwo in Hok. by destruct Hok as (_ & _ & _ & _ & -> & _). }
    intros p' rows' [= <-] Hc Hlog'. simplify_eq. split; [done|]. exact Hok.
Qed.

Lemma sound_flag w own id f : world_inv w own ->
  (forall t, ticket_own (f t) = ticket_own t /\ st_payload (f t) = st_payload t /\ st_level (f t) = st_level t /\ st_busy (f t) = st_busy t /\
     reads_of (f t) = reads_of t /\ st_reads (f t) = st_reads t /\ st_pages (f t) = st_pages t /\ (st_consumed (f t) = false -> st_consumed t = false)) ->
  world_inv (on_ticket id f w) own.
Proof.
  intros Hw Hf. unfold on_ticket. destruct (w_tickets w !! id) as [t|] eqn:Ht.
  - assert (w <| w_tickets ::= alter f id |> = w <| w_tickets ::= <[id := f t]> |>) as ->.
    { by apply (on_ticket_set _ _ _ t Ht). }
    destruct (Hf t) as (E1&E2&E3&E4&E5&E6&E7&E8). eapply ticket_set_ok; [done|done|by rewrite E1|..].
    + destruct (inv_news _ _ Hw) as [Hnd Hn]. split; [done|]. intros id' l Hin. destruct (Hn id' l Hin) as (u & Hu & ?).
      destruct (decide (id = id')) as [<-|Hne]; [|exists u; by rewrite lookup_insert_ne]. exists (f t). rewrite lookup_insert_eq. simplify_eq. rewrite E2, E3, E4. done.
    + destruct (inv_busy _ _ Hw) as [Hnd Hn]. split; [done|]. intros id' o Hin. destruct (Hn id' o Hin) as (u & Hu & ?).
      destruct (decide (id = id')) as [<-|Hne]; [|exists u; by rewrite lookup_insert_ne]. exists (f t). rewrite lookup_insert_eq. simplify_eq. unfold busy_mark in *. rewrite E2, E3, E4, E5. done.
    + intros id' [[Hin _]|[-> Htrue]]; [done|]. rewrite E4 in Htrue. by apply (inv_marked _ _ Hw id t).
    + destruct (entries_ok_at _ _ _ _ Hw Ht) as [[Hs Hkeyed] He]. split; [split; [done|]; unfold keyed; rewrite E2, E3, E6; apply Hkeyed|]. intros p rows. rewrite E2, E3, E4, E6, E7. intros ? ?%E8 ?. by apply He.
  - assert (w <| w_tickets ::= alter f id |> = w) as ->; [|done]. destruct w. simpl in *. f_equal. by apply alter_id'.
Qed.

Lemma busy_gain m id o own : busy_ok m own -> (forall o', RBusy id o' ∉ own) ->
  (exists t, m !! id = Some t /\ is_Some (st_payload t) /\ st_busy t = true /\ busy_mark t = o /\ forall p, st_payload t = Some p -> p_slots p = []) ->
  busy_ok m (RBusy id o :: own).
Proof.
  intros [Hnd Hb] Hno Ht. split.
  - simpl. constructor; [|done]. rewrite busy_in_elem. intros (o' & Hin). by eapply Hno.
  - intros id' o' [[= -> ->]|Hin]%elem_of_cons; [done|]. by apply Hb.
Qed.

Lemma not_busy m id t own : busy_ok m own -> m !! id = Some t -> st_busy t = false -> forall o, RBusy id o ∉ own.
Proof. intros [_ Hb] Ht Hf o Hin. destruct (Hb id o Hin) as (u & Hu & _ & Htrue & _). congruence. Qed.

Lemma sound_begin w own l id : world_inv w own ->
  match begin_get l id w with
  | None => True
  | Some (Err _, w') => world_inv w' own /\ w_log w' = w_log w
  | Some (Ok (p, reads, pages), w') => exists rows, w_log w !! id = Some rows /\ payload_ok l rows p reads pages (w_log w) /\ w_log w' = w_log w /\
      let o := match reads with Some t => Some (t, miss_spans l p) | None => None end in
      world_inv w' (RBusy id (l, o) :: slot_leases (cache_for l) (p_slots p) (p_keys p) ++ reads_own o ++ own)
  end.
Proof.
  intros Hw. unfold begin_get. destruct (w_tickets w !! id) as [t|] eqn:Ht; [|done]. destruct (st_payload t) as [p|] eqn:Hp; [|done].
  case_bool_decide as Hl; simpl; [|done]. destruct (st_busy t) eqn:Hb; [done|]. destruct (st_consumed t) eqn:Hc; [done|].
  destruct (entries_ok_at _ _ _ _ Hw Ht) as [[[rows Hrows] [_ Hkeyed]] He]. destruct (He p rows Hp Hc Hrows) as [_ Hok].
  destruct (st_cancelled t); [split; [by apply sound_flag|done]|]. exists rows. split_and!; [done|by rewrite <- Hl|done|].
  set (o := match st_reads t with Some r => Some (r, miss_spans l p) | None => None end).
  match goal with |- world_inv (on_ticket id ?g w) _ => set (f := g) end. rewrite (on_ticket_set _ _ _ t Ht).
  assert (ticket_own t = slot_leases (cache_for l) (p_slots p) (p_keys p) ++ reads_own o) as Hown.
  { unfold ticket_own, reads_of, o. rewrite Hp, Hb, Hl. by destruct (st_reads t). }
  rewrite (assoc_L (++)), <- Hown. eapply ticket_set_ok; [done|done|..].
  - change (ticket_own (f t)) with (@nil resource). rewrite app_nil_r, filter_cons_False by naive_solver. apply filter_solid_perm. by rewrite (comm (++)).
  - apply news_busy, news_ok_solid; [intros x; apply ticket_own_solid|]. eapply news_other; [done|by rewrite Hp|by apply inv_news].
  - apply busy_gain.
    + apply busy_ok_solid; [intros x; apply ticket_own_solid|]. eapply busy_other; [done|done|by apply inv_busy].
    + intros o' [Hin|Hin]%elem_of_app; [by apply ticket_own_solid in Hin|]. by eapply (not_busy _ _ _ _ (inv_busy _ _ Hw) Ht Hb).
    + exists (f t). rewrite lookup_insert_eq. split_and!; try done; [|by intros p' [= <-]]. unfold busy_mark, reads_of, o, f. simpl. rewrite Hl. by destruct (st_reads t).
  - intros id' Hin. simpl. rewrite busy_in_solid by (intros x; apply ticket_own_solid). rewrite elem_of_cons. naive_solver.
  - split; [split; [by eexists|split; [intros p' [= <-]; simpl; lia|exact Hkeyed]]|]. done.
Qed.

Lemma sound_end w own id o : world_inv w (RBusy id o :: reads_own o.2 ++ own) -> world_inv (on_ticket id (fun t => t <| st_busy := false |>) w) own.
Proof.
  intros Hw. destruct (busy_lose _ _ _ _ (inv_busy _ _ Hw)) as (Hb & Hno & t & Ht & [p Hp] & Htrue & Hr & Hs).
  pose proof (inv_news _ _ Hw) as Hn. apply news_busy in Hn.
  rewrite news_ok_solid in Hn by (intros x; apply reads_own_solid). rewrite busy_ok_solid in Hb by (intros x; apply reads_own_solid).
  set (f := fun t : store_ticket => t <| st_busy := false |>). rewrite (on_ticket_set _ _ _ t Ht).
  assert (ticket_own (f t) = reads_own o.2) as Hown.
  { unfold ticket_own. change (st_payload (f t)) with (st_payload t). rewrite Hp. simpl. rewrite (Hs p Hp). simpl. by rewrite <- Hr. }
  eapply ticket_set_ok; [done|done|..].
  - rewrite Hown. unfold ticket_own. rewrite Hp, Htrue, app_nil_r, filter_cons_False by naive_solver. apply filter_solid_perm. by rewrite (comm (++)).
  - eapply news_other; [done|by rewrite Hp|done].
  - eapply busy_ok_ext; [done|]. intros id' o' Hin. apply lookup_insert_ne. intros <-. apply (Hno o'), elem_of_app. by right.
  - intros id' [[Hin Hne]|[_ Hf]]; [|done]. change (id' ∈ id :: busy_in (reads_own o.2 ++ own)) in Hin.
    rewrite busy_in_solid in Hin by (intros x; apply reads_own_solid). by apply elem_of_cons in Hin as [->|?].
  - destruct (entries_ok_at _ _ _ _ Hw Ht) as [[Hlog [_ Hkeyed]] He]. split.
    { split; [done|]. split; [|exact Hkeyed]. intros p' Hp'. rewrite (Hs p' Hp'). simpl. lia. }
    intros p' rows Hp' Hc Hrows. destruct (He p' rows Hp' Hc Hrows) as [Hfalse _]. congruence.
Qed.

Lemma sound_take w own id t : world_inv w own -> w_tickets w !! id = Some t -> is_Some (st_payload t) -> st_busy t = false ->
  world_inv (w <| w_tickets ::= delete id |>) (ticket_own t ++ own).
Proof.
  intros Hw Ht [p Hp] Hb. eapply ticket_del_ok; [done|done|..].
  - apply filter_solid_perm. by rewrite (comm (++)).
  - apply news_ok_solid; [intros x; apply ticket_own_solid|]. eapply news_ok_ext; [by apply inv_news|]. intros id' l Hin. apply lookup_delete_ne. intros <-.
    destruct (proj2 (inv_news _ _ Hw) id l Hin) as (u & Hu & Hnone & _). congruence.
  - apply busy_ok_solid; [intros x; apply ticket_own_solid|]. eapply busy_ok_ext; [by apply inv_busy|]. intros id' o Hin. apply lookup_delete_ne. intros <-.
    by eapply (not_busy _ _ _ _ (inv_busy _ _ Hw) Ht Hb).
  - intros id' Hin. by rewrite busy_in_solid by (intros x; apply ticket_own_solid).
Qed.

Lemma sound_cancel_flags ids w own : world_inv w own -> world_inv (w <| w_tickets := (cancel_flags ids (w_tickets w)).2 |>) own.
Proof.
  revert w. induction ids as [|id ids IH]; intros w Hw; [by destruct w|]. simpl.
  set (hit := match w_tickets w !! id with Some t => negb (st_cancelled t) | None => false end).
  set (m := if hit then _ else _). destruct (cancel_flags ids m) as [n m'] eqn:E. simpl.
  assert (world_inv (w <| w_tickets := m |>) own) as Hm.
  { unfold m. destruct hit; [|by destruct w]. apply (sound_flag w own id (fun t => t <| st_cancelled := true |>)); [done|]. done. }
  specialize (IH _ Hm). simpl in IH. rewrite E in IH. exact IH.
Qed.

(** ** Owner tables *)

Definition locks_ok (w : world) (T : list resource) : Prop :=
  NoDup (locks_in T) /\ forall l, l ∈ locks_in T <-> ot_locked (owners_of l w) = true.

Lemma owners_step_ok w T T' l o : world_ok w T -> (forall c, leases_in c T' = leases_in c T) -> reads_in T' = reads_in T -> buffers_in T' = buffers_in T ->
  news_in T' = news_in T -> busy_in T' = busy_in T -> (forall x, x ∈ T' -> x ∈ T \/ exists l, x = RLock l) ->
  locks_ok (set_owners l o w) T' -> world_ok (set_owners l o w) T'.
Proof.
  intros [] E1 E2 E3 E4 E5 Hsub Hl.
  assert (forall t spans, RReads t spans ∈ T' -> RReads t spans ∈ T) as S1 by (intros ? ? [?|[? ?]]%Hsub; done).
  assert (forall id l, RNew id l ∈ T' -> RNew id l ∈ T) as S2 by (intros ? ? [?|[? ?]]%Hsub; done).
  assert (forall id o, RBusy id o ∈ T' -> RBusy id o ∈ T) as S3 by (intros ? ? [?|[? ?]]%Hsub; done).
  destruct wo_news0, wo_busy0.
  split; rewrite ?E2, ?E3, ?E4, ?E5; try by destruct l.
  - intros c. specialize (wo_leases0 c). rewrite E1. by destruct l, c.
  - destruct l; naive_solver.
  - destruct l; naive_solver.
  - destruct l; naive_solver.
Qed.

Lemma owners_same l o w l' : owners_of l' (set_owners l o w) = if decide (l' = l) then o else owners_of l' w.
Proof. by destruct l, l'. Qed.

Lemma owners_rest l o w : w_tickets (set_owners l o w) = w_tickets w /\ w_log (set_owners l o w) = w_log w.
Proof. by destruct l. Qed.

Lemma sound_owners w T l o : world_ok w T -> ot_locked o = ot_locked (owners_of l w) -> world_ok (set_owners l o w) T.
Proof.
  intros Hw Ho. apply (owners_step_ok w T); try done; [auto|]. destruct (wo_locks _ _ Hw) as [Hnd Hl]. split; [done|]. intros l'.
  rewrite owners_same. case_decide; [subst; rewrite Ho|]; by apply Hl.
Qed.

Lemma locks_in_elem l T : l ∈ locks_in T <-> RLock l ∈ T.
Proof.
  unfold locks_in. rewrite list_elem_of_omap. split; [intros (x & Hx & Heq); by destruct x; simplify_eq/=|]. intros Hin. by exists (RLock l).
Qed.

Lemma sound_lock w T l o : world_ok w T -> ot_locked (owners_of l w) = false -> ot_locked o = true -> world_ok (set_owners l o w) (RLock l :: T).
Proof.
  intros Hw Hf Ho. apply (owners_step_ok w T); try done; [intros x [->|?]%elem_of_cons; eauto|]. destruct (wo_locks _ _ Hw) as [Hnd Hl]. split.
  - simpl. constructor; [|done]. intros Hin%Hl. congruence.
  - intros l'. rewrite owners_same. simpl. rewrite elem_of_cons. case_decide as Hd; [naive_solver|]. rewrite <- Hl. naive_solver.
Qed.

Lemma sound_unlock w T l o : world_ok w (RLock l :: T) -> ot_locked o = false -> world_ok (set_owners l o w) T.
Proof.
  intros Hw Ho. apply (owners_step_ok w (RLock l :: T)); try done; [intros x ?; left; by right|]. destruct (wo_locks _ _ Hw) as [Hnd Hl].
  simpl in Hnd. apply NoDup_cons in Hnd as [Hno Hnd]. split; [done|]. intros l'. rewrite owners_same. specialize (Hl l'). simpl in Hl. rewrite elem_of_cons in Hl.
  case_decide as Hd; [subst l'; rewrite Ho; naive_solver|naive_solver].
Qed.

(** ** Soundness of the actions *)

(** An action of a thread that owns part of the resources runs or waits, and keeps [world_inv]. *)
Definition runs {X : Type} (f : store_faults) (a : atom X) (w : world) (rest : list resource) (K : X -> list resource -> gmap positive (list Z) -> Prop) : Prop :=
  exists o, exec_atom f a w = Some o /\
    match o with
    | None => True
    | Some (x, w') => exists own, K x own (w_log w') /\ world_inv w' (own ++ rest) /\ w_log w ⊆ w_log w'
    end.

Lemma runs_intro {X} f (a : atom X) w rest (K : X -> list resource -> gmap positive (list Z) -> Prop) x w' own :
  exec_atom f a w = Some (Some (x, w')) -> w_log w' = w_log w -> K x own (w_log w) -> world_inv w' (own ++ rest) -> runs f a w rest K.
Proof. intros He Hl HK Hw. eexists. split; [done|]. exists own. by rewrite Hl. Qed.

Lemma inv_cache c b w own : world_ok (set_cache c b w) (own ++ tickets_own (w_tickets w)) -> world_inv (set_cache c b w) own.
Proof. unfold world_inv. by rewrite (proj1 (cache_tickets c b w)). Qed.
Lemma inv_owners l o w own : world_ok (set_owners l o w) (own ++ tickets_own (w_tickets w)) -> world_inv (set_owners l o w) own.
Proof. unfold world_inv. by rewrite (proj1 (owners_rest l o w)). Qed.

Lemma runs_acquire f c key w own rest K : world_inv w (own ++ rest) -> atom_spec (AAcquire c key) own (w_log w) K -> runs f (AAcquire c key) w rest K.
Proof.
  intros Hw [Hnone Hsome]. destruct (sound_acquire w _ c key Hw) as (r & b & Hs & Hok).
  pose proof (proj2 (cache_tickets c b w)) as Hlog.
  destruct r as [n| |e|]; [eapply (runs_intro _ _ _ _ _ (Some n) _ (RLease c n key :: own))|eapply (runs_intro _ _ _ _ _ None _ own)..]; try done;
    try (unfold exec_atom, on_cache; rewrite Hs; reflexivity); try apply Hsome; by apply inv_cache.
Qed.

Lemma runs_admit f c key bytes w own rest K : world_inv w (own ++ rest) -> atom_spec (AAdmit c key bytes) own (w_log w) K -> runs f (AAdmit c key bytes) w rest K.
Proof.
  intros Hw (Hr & Herr & Hsome). destruct (sound_admit w _ c (sf_fails f) key bytes Hw Hr) as (r & b & Hs & Hok).
  pose proof (proj2 (cache_tickets c b w)) as Hlog.
  destruct r as [n| |e|]; [eapply (runs_intro _ _ _ _ _ (Ok n) _ (RLease c n key :: own))|done|eapply (runs_intro _ _ _ _ _ (Err e) _ own)|done]; try done;
    try (unfold exec_atom, on_cache; rewrite Hs; reflexivity); try apply Hsome; try apply Herr; by apply inv_cache.
Qed.

Lemma runs_release f c n w own rest K : world_inv w (own ++ rest) -> atom_spec (ARelease c n) own (w_log w) K -> runs f (ARelease c n) w rest K.
Proof.
  intros Hw (key & own' & Hp & HK). unfold world_inv in Hw. rewrite Hp in Hw. destruct (sound_release w _ c n key Hw) as (r & b & Hs & Hok).
  eapply (runs_intro _ _ _ _ _ tt _ own'); [unfold exec_atom, on_cache; by rewrite Hs|by apply cache_tickets|done|by apply inv_cache].
Qed.

Lemma runs_peek f c slot w own rest K : world_inv w (own ++ rest) -> atom_spec (APeek c slot) own (w_log w) K -> runs f (APeek c slot) w rest K.
Proof.
  intros Hw (n & key & -> & Hin & HK). destruct (owned_lease w _ c n key Hw) as (l & Hl & _ & Hr); [rewrite !elem_of_app; by left; left|].
  eapply (runs_intro _ _ _ _ _ _ w own); [unfold exec_atom; simpl; by rewrite Hl|done|by apply HK|done].
Qed.

Lemma runs_submit f owner spans w own rest K : world_inv w (own ++ rest) -> atom_spec (ASubmitReads owner spans) own (w_log w) K ->
  runs f (ASubmitReads owner spans) w rest K.
Proof.
  intros Hw (Hty & Herr & Hok). destruct (sound_submit w _ (sf_early f) (sf_faults f) owner spans Hw Hty) as (x & r & Hs & Hx).
  destruct x as [t|e].
  - eapply (runs_intro _ _ _ _ _ (Ok t) _ (RReads t spans :: own)); [cbn [exec_atom]; by rewrite Hs|done|apply Hok|done].
  - eapply (runs_intro _ _ _ _ _ (Err e) _ own); [cbn [exec_atom]; by rewrite Hs|done|apply Herr|done].
Qed.

Lemma owned_reads w own rest t spans : world_inv w (own ++ rest) -> RReads t spans ∈ own ->
  exists tk, tickets (w_reader w) !! t = Some tk /\ length (t_futures tk) = length spans.
Proof.
  intros Hw Hin. destruct (wo_reads_of _ _ Hw t spans) as (tk & Ht & Hf); [rewrite !elem_of_app; by left; left|]. exists tk. split; [done|]. by apply Forall2_length in Hf.
Qed.

Lemma runs_await f t i w own rest K : world_inv w (own ++ rest) -> atom_spec (AAwait t i) own (w_log w) K -> runs f (AAwait t i) w rest K.
Proof.
  intros Hw (spans & s & Hin & Hs & _ & Herr & Hok).
  destruct (sound_await w _ t i spans s Hw) as (o & Ho & Hres); [rewrite !elem_of_app; by left; left|done|].
  destruct o as [[[[name bytes]|e] r]|]; [| |by exists None; cbn [exec_atom]; rewrite Ho].
  - destruct Hres as (-> & Hspan & Hres). eapply (runs_intro _ _ _ _ _ (Ok _) _ (RBuffer name :: own)); [cbn [exec_atom]; by rewrite Ho|done|by apply Hok|done].
  - eapply (runs_intro _ _ _ _ _ (Err e) _ own); [cbn [exec_atom]; by rewrite Ho|done|apply Herr|done].
Qed.

Lemma runs_begin f l id w own rest K : world_inv w (own ++ rest) -> atom_spec (ABeginGet l id) own (w_log w) K -> runs f (ABeginGet l id) w rest K.
Proof.
  intros Hw (_ & Herr & Hok). pose proof (sound_begin w _ l id Hw) as Hb. destruct (begin_get l id w) as [[[[[p reads] pages]|e] w']|] eqn:E; [| |by exists None; simpl; rewrite E].
  - destruct Hb as (rows & Hrows & Hp & Hlog & Hinv). eapply (runs_intro _ _ _ _ _ (Ok _) w'); [simpl; by rewrite E|done|by eapply Hok|].
    eapply world_inv_perm; [|exact Hinv]. simpl. by rewrite <- !(assoc_L (++)).
  - destruct Hb as [Hinv Hlog]. eapply (runs_intro _ _ _ _ _ (Err e) w' own); [simpl; by rewrite E|done|apply Herr|done].
Qed.

Lemma runs_take f l id w own rest K : world_inv w (own ++ rest) -> atom_spec (ATakeTicket l id) own (w_log w) K -> runs f (ATakeTicket l id) w rest K.
Proof.
  intros Hw (_ & Hnone & Hsome).
  assert (exec_atom f (ATakeTicket l id) w = Some (Some (None, w)) -> runs f (ATakeTicket l id) w rest K) as Hno by (intros; by eapply (runs_intro _ _ _ _ _ None w own)).
  unfold exec_atom in Hno. destruct (w_tickets w !! id) as [t|] eqn:Ht; [|by apply Hno].
  case_bool_decide as Hl; [|by apply Hno]. case_bool_decide as Hp; [|by apply Hno]. simpl in Hno. clear Hno. destruct (st_busy t) eqn:Hb.
  - exists None. unfold exec_atom. rewrite Ht, !bool_decide_true by done. simpl. by rewrite Hb.
  - eapply (runs_intro _ _ _ _ _ (Some t) _ (ticket_own t ++ own)); [unfold exec_atom; rewrite Ht, !bool_decide_true by done; simpl; by rewrite Hb|done|apply Hsome; [done..|by eapply (wo_log _ _ Hw)]|].
    eapply world_inv_perm; [|by eapply sound_take]. by rewrite (assoc_L (++)).
Qed.

Lemma runs_lock f l w own rest K : world_inv w (own ++ rest) -> atom_spec (ALockOwners l) own (w_log w) K -> runs f (ALockOwners l) w rest K.
Proof.
  intros Hw [_ HK]. unfold runs. cbn [exec_atom]. destruct (ot_locked (owners_of l w)) eqn:E; [by exists None|].
  set (o := (owners_of l w) <| ot_locked := true |>). eexists. split; [done|]. exists (RLock l :: own). rewrite (proj2 (owners_rest l o w)).
  split_and!; [done| |done]. apply inv_owners. by apply sound_lock.
Qed.

Lemma runs_unlock f l w own rest K : world_inv w (own ++ rest) -> atom_spec (AUnlockOwners l) own (w_log w) K -> runs f (AUnlockOwners l) w rest K.
Proof.
  intros Hw (own' & Hp & HK). unfold runs. cbn [exec_atom]. set (o := (owners_of l w) <| ot_locked := false |>). eexists. split; [done|].
  exists own'. rewrite (proj2 (owners_rest l o w)). split_and!; [done| |done]. apply inv_owners, sound_unlock; [|done]. unfold world_inv in Hw. by rewrite Hp in Hw.
Qed.

Lemma runs_table f {X} (a : atom X) l o w x own rest K : world_inv w (own ++ rest) -> ot_locked o = ot_locked (owners_of l w) ->
  exec_atom f a w = Some (Some (x, set_owners l o w)) -> K x own (w_log w) -> runs f a w rest K.
Proof.
  intros Hw Ho He HK. eapply (runs_intro _ _ _ _ _ _ _ own); [done|by apply owners_rest|done|]. apply inv_owners. by apply sound_owners.
Qed.

Lemma runs_cancel_flags f l owner w own rest K : world_inv w (own ++ rest) -> atom_spec (ACancelFlags l owner) own (w_log w) K ->
  runs f (ACancelFlags l owner) w rest K.
Proof.
  intros Hw HK. unfold runs. cbn [exec_atom]. destruct (ot_owners (owners_of l w) !! owner) as [ids|]; [|by eexists; split; [done|]; exists own].
  pose proof (sound_cancel_flags ids w _ Hw) as Hm. destruct (cancel_flags ids (w_tickets w)) as [n m]. simpl in Hm. eexists. split; [done|].
  match goal with |- context [set_owners l ?o' ?v'] => set (o := o'); set (v := v') in * end.
  exists own. rewrite (proj2 (owners_rest l o v)). split_and!; [apply HK| |done]. apply inv_owners. apply sound_owners; [done|]. by destruct l.
Qed.

Theorem exec_sound {X} f (a : atom X) w own rest K : world_inv w (own ++ rest) -> atom_spec a own (w_log w) K -> runs f a w rest K.
Proof.
  intros Hw HK. destruct a.
  all: try (first [by eapply runs_acquire|by eapply runs_admit|by eapply runs_release|by eapply runs_peek|by eapply runs_submit|by eapply runs_await
    |by eapply runs_begin|by eapply runs_take|by eapply runs_lock|by eapply runs_unlock|by eapply runs_cancel_flags]).
  - by eapply (runs_intro _ _ _ _ _ _ w own).
  - destruct HK as (spans & Hin & HK). destruct (owned_reads _ _ _ _ _ Hw Hin) as (tk & Ht & Hlen).
    eapply (runs_intro _ _ _ _ _ _ w own); [cbn [exec_atom]; by rewrite Ht|done|by rewrite Hlen|done].
  - destruct HK as ([spans Hin] & HK). destruct (owned_reads _ _ _ _ _ Hw Hin) as (tk & Ht & Hlen).
    eapply (runs_intro _ _ _ _ _ _ w own); [cbn [exec_atom]; by rewrite Ht|done|by apply HK|done].
  - destruct HK as (own' & Hp & HK). unfold world_inv in Hw. rewrite Hp in Hw. destruct (sound_drop_buffer w _ name Hw) as (r & Hr & Hok).
    eapply (runs_intro _ _ _ _ _ tt _ own'); [cbn [exec_atom]; by rewrite Hr|done|done|exact Hok].
  - destruct HK as (spans & own' & Hp & HK). unfold world_inv in Hw. rewrite Hp in Hw. destruct (sound_drop_reads w _ t spans Hw) as (r & Hr & Hok).
    eapply (runs_intro _ _ _ _ _ tt _ own'); [cbn [exec_atom]; by rewrite Hr|done|done|exact Hok].
  - eapply (runs_intro _ _ _ _ _ tt _ own); [done|done|done|]. apply (sound_marks w _ (cancel_ticket t (w_reader w)) Hw), cancel_ticket_marks.
  - eapply (runs_intro _ _ _ _ _ tt _ own); [done|done|done|]. apply (sound_marks w _ _ Hw), cancel_owner_marks.
  - destruct HK as [Herr Hok]. destruct (sf_fails f) eqn:Ef; [eapply (runs_intro _ _ _ _ _ (Err bad_alloc) w own); [simpl; by rewrite Ef|done|apply Herr|done]|].
    destruct (sound_new w _ l owner rows _ Hw eq_refl) as [Hinv Hlog]. unfold runs. simpl. rewrite Ef. eexists. split; [done|]. eexists. split; [by apply Hok|].
    split; [exact Hinv|]. by apply insert_subseteq.
  - destruct HK as (l & own' & Hp & HK). rewrite Hp in Hw. eapply (runs_intro _ _ _ _ _ tt _ own'); [done|done|done|]. by eapply sound_kill.
  - destruct HK as (l & rows & own' & Hp & Hlog & Hok & HK). rewrite Hp in Hw. eapply (runs_intro _ _ _ _ _ tt _ own'); [done|done|done|].
    eapply sound_payload; [done|done|]. eapply world_inv_perm; [|exact Hw]. simpl. by rewrite <- !(assoc_L (++)).
  - destruct HK as [[o Hin] HK]. destruct (proj2 (inv_busy _ _ Hw) id o) as (t & Ht & _); [rewrite elem_of_app; by left|].
    eapply (runs_intro _ _ _ _ _ _ w own); [simpl; by rewrite Ht|done|by apply HK|done].
  - destruct HK as (o & own' & Hp & HK). rewrite Hp in Hw. eapply (runs_intro _ _ _ _ _ tt _ own'); [done|done|done|].
    eapply sound_end. eapply world_inv_perm; [|exact Hw]. simpl. by rewrite <- !(assoc_L (++)).
  - eapply (runs_intro _ _ _ _ _ _ _ own); [done|done|apply HK|]. by apply sound_flag.
  - destruct (register_ticket (sf_fails f) owner id (w_tickets w) (owners_of l w)) as [x o] eqn:E.
    eapply (runs_table _ _ l o _ x own); [done| |cbn [exec_atom]; by rewrite E|apply HK]. unfold register_ticket in E. by destruct (sf_fails f); simplify_eq/=.
  - by eapply (runs_table _ _ l (unregister_ticket owner (owners_of l w)) _ tt own).
Qed.
End worlds.
End logic.
