(* ===== verification/PleStoresSpecs.v ===== *)
(** * The stores: what their programs do

    For each program of [PleStores] what it needs, what it leaves and that it
    gives back what it took, in the logic of [PleStoresLogic].  Conditions name
    what the thread owns up to order. *)

From S2P Require Import Prelude ExpertDescriptor PleHash BlockCache AsyncReader AsyncReaderInv AsyncReaderSteps AsyncReaderSubmit AsyncReaderTheorems PleStores PleStoresLogic.
From stdpp Require Import strings.
Open Scope string_scope.
Open Scope list_scope.
Open Scope Z_scope.

(** ** Slots *)

Lemma filter_same {A} (P P' : A -> Prop) `{!forall x, Decision (P x), !forall x, Decision (P' x)} (l : list A) :
  (forall x, x ∈ l -> P x <-> P' x) -> filter P l = filter P' l.
Proof.
  induction l as [|x l IH]; intros Hl; [done|]. rewrite !filter_cons, IH by (intros y Hy; apply Hl; by right).
  assert (P x <-> P' x) as Hx by (apply Hl; by left). repeat case_decide; naive_solver.
Qed.

Lemma slot_leases_none c slots keys : slot_leases c (slots ++ [None]) keys = slot_leases c slots keys.
Proof.
  unfold slot_leases. revert keys. induction slots as [|[n|] slots IH]; intros [|k keys]; csimpl; try done; by rewrite ?IH.
Qed.

Lemma slot_leases_some c slots keys n k : keys !! length slots = Some k ->
  slot_leases c (slots ++ [Some n]) keys ≡ₚ RLease c n k :: slot_leases c slots keys.
Proof.
  unfold slot_leases. revert keys. induction slots as [|[m|] slots IH]; intros [|k' keys] Hk; csimpl in *; simplify_eq; try done.
  - rewrite IH by done. apply perm_swap.
  - by rewrite IH by done.
Qed.

Lemma slot_leases_insert c slots keys i n k : slots !! i = Some None -> keys !! i = Some k ->
  slot_leases c (<[i := Some n]> slots) keys ≡ₚ RLease c n k :: slot_leases c slots keys.
Proof.
  unfold slot_leases. revert keys i. induction slots as [|[m|] slots IH]; intros [|k' keys] [|i] Hs Hk; csimpl in *; simplify_eq; try done.
  - rewrite IH by done. apply perm_swap.
  - by rewrite IH by done.
Qed.

(** Keys after the last slot do not matter. *)
Lemma slot_leases_keys c slots keys more : length slots = length keys -> slot_leases c slots (keys ++ more) = slot_leases c slots keys.
Proof.
  unfold slot_leases. revert keys. induction slots as [|[n|] slots IH]; intros [|k keys] Hl; csimpl in *; simplify_eq; try done; by rewrite IH by lia.
Qed.

Lemma slot_leases_elem c slots keys i n k : slots !! i = Some (Some n) -> keys !! i = Some k -> RLease c n k ∈ slot_leases c slots keys.
Proof.
  intros Hs Hk. apply list_elem_of_omap. exists (Some n, k). split; [|done]. apply list_elem_of_lookup. exists i. by rewrite lookup_zip_with, Hs, Hk.
Qed.

Lemma none_positions_app slots x : none_positions (slots ++ [x]) = none_positions slots ++ match x with None => [length slots] | Some _ => [] end.
Proof.
  unfold none_positions. rewrite length_app, seq_app, filter_app. simpl. f_equal.
  - apply filter_same. intros i Hi. apply elem_of_seq in Hi. by rewrite lookup_app_l by lia.
  - rewrite filter_cons. rewrite list_lookup_middle by done. by destruct x.
Qed.

Lemma none_positions_elem slots i : i ∈ none_positions slots <-> slots !! i = Some None.
Proof.
  unfold none_positions. rewrite list_elem_of_filter, elem_of_seq. split; [by intros [? _]|]. intros Hi. split; [done|]. apply lookup_lt_Some in Hi. lia.
Qed.

Lemma none_positions_nodup slots : NoDup (none_positions slots).
Proof. apply NoDup_filter, NoDup_seq. Qed.

Lemma none_positions_insert slots i rest n : none_positions slots = i :: rest -> none_positions (<[i := Some n]> slots) = rest.
Proof.
  intros Hs. pose proof (none_positions_nodup slots) as Hnd. rewrite Hs in Hnd. apply NoDup_cons in Hnd as [Hi Hnd].
  assert (none_positions (<[i := Some n]> slots) = filter (fun j => j <> i) (none_positions slots)) as ->.
  { unfold none_positions. rewrite length_insert, list_filter_filter. apply filter_same. intros j Hj. apply elem_of_seq in Hj.
    destruct (decide (j = i)) as [->|Hne]; [rewrite list_lookup_insert_eq by lia; naive_solver|rewrite list_lookup_insert_ne by done; naive_solver]. }
  rewrite Hs, filter_cons_False by naive_solver. apply filter_all, Forall_forall. by intros j Hj ->.
Qed.

Lemma none_positions_all slots i x : none_positions slots = [] -> slots !! i = Some x -> is_Some x.
Proof.
  intros Hn Hi. destruct x as [n|]; [done|]. apply none_positions_elem in Hi. rewrite Hn in Hi. by apply elem_of_nil in Hi.
Qed.

(** ** Resources that do not order threads *)

Definition plain (x : resource) : Prop := match x with RLock _ | RBusy _ _ => False | _ => True end.

Lemma slot_leases_plain c slots keys : Forall plain (slot_leases c slots keys).
Proof. apply Forall_forall. intros x Hx. apply list_elem_of_omap in Hx as ([[n|] k] & _ & Heq); by simplify_eq/=. Qed.
Lemma reads_own_plain o : Forall plain (reads_own o).
Proof. destruct o as [[? ?]|]; by repeat constructor. Qed.
Lemma buffers_plain l : Forall plain (RBuffer <$> l).
Proof. induction l; by constructor. Qed.

Create HintDb plain.
#[local] Hint Resolve slot_leases_plain reads_own_plain buffers_plain Forall_app_2 : plain.
#[local] Hint Extern 1 (Forall plain (_ :: _)) => (apply Forall_cons_2; [exact I|]) : plain.
#[local] Hint Extern 1 (Forall plain []) => constructor : plain.

Lemma plain_lock own' more own l : own' ≡ₚ more ++ own -> Forall plain more -> RLock l ∈ own' -> RLock l ∈ own.
Proof. intros -> Hp [Hin|Hin]%elem_of_app; [|done]. rewrite Forall_forall in Hp. by apply Hp in Hin. Qed.
Lemma plain_busy own' more own id o : own' ≡ₚ more ++ own -> Forall plain more -> RBusy id o ∈ own' -> RBusy id o ∈ own.
Proof. intros -> Hp [Hin|Hin]%elem_of_app; [|done]. rewrite Forall_forall in Hp. by apply Hp in Hin. Qed.

Lemma may_lock_more l more own own' : own' ≡ₚ more ++ own -> Forall plain more -> may_lock l own -> may_lock l own'.
Proof. intros Hp Hm [Hl Hb]. split; [intros l' Hin; by eapply Hl, plain_lock|]. intros id o Hin. by eapply Hb, plain_busy. Qed.
Lemma may_begin_more l more own own' : own' ≡ₚ more ++ own -> Forall plain more -> may_begin l own -> may_begin l own'.
Proof. intros Hp Hm [Hl Hb]. split; [intros l' Hin; by eapply Hl, plain_lock|]. intros id o Hin. by eapply Hb, plain_busy. Qed.
Lemma may_await_more more own own' : own' ≡ₚ more ++ own -> Forall plain more -> may_await own -> may_await own'.
Proof. intros Hp Hm Hl l' Hin. by eapply Hl, plain_lock. Qed.
Lemma may_take_more more own own' : own' ≡ₚ more ++ own -> Forall plain more -> may_take own -> may_take own'.
Proof. intros Hp Hm [Hl Hb]. split; [intros l' Hin; by eapply Hl, plain_lock|]. intros id o Hin. by eapply Hb, plain_busy. Qed.
Lemma may_await_busy own id o : may_await own -> may_await (RBusy id o :: own).
Proof. intros Hl l [?|Hin]%elem_of_cons; [done|by apply (Hl l)]. Qed.

Lemma take_lock l own : may_take own -> may_lock l own.
Proof. intros [Hl Hb]. split; [|done]. intros l' Hin. by apply Hl in Hin. Qed.
Lemma take_begin l own : may_take own -> may_begin l own.
Proof. intros [Hl Hb]. split; [done|]. intros id o Hin. by apply Hb in Hin. Qed.
Lemma two_lock own : may_take own -> may_lock PageLevel (RLock TwoTierLevel :: own).
Proof.
  intros [Hl Hb]. split; [intros l' [[= ->]|Hin]%elem_of_cons; [done|by apply Hl in Hin]|].
  intros id o [?|Hin]%elem_of_cons; [done|by apply Hb in Hin].
Qed.
Lemma two_begin id o own : may_take own -> may_begin PageLevel (RBusy id (TwoTierLevel, o) :: own).
Proof.
  intros [Hl Hb]. split; [intros l' [?|Hin]%elem_of_cons; [done|by apply Hl in Hin]|].
  intros id' o' [[= -> ->]|Hin]%elem_of_cons; [done|by apply Hb in Hin].
Qed.

Section specs.
Context (locate : Z -> result exn read_span) (extents : extent_index) (data : list Z).
Abbreviation wp := (wp locate extents data).
Abbreviation post := (list resource -> gmap positive (list Z) -> Prop).
Abbreviation source_size := (Z.of_nat (length data)).

(** The next action of a program. *)
Ltac act_step := apply wp_seq, wp_act; let log' := fresh "log'" in let Hlog := fresh "Hlog" in intros log' Hlog; cbn [atom_spec].

(** ** What the programs share *)

Lemma wp_release_slots c slots : forall keys own rest log (Q : unit -> post),
  (length slots <= length keys)%nat -> own ≡ₚ slot_leases c slots keys ++ rest ->
  (forall own' log', log ⊆ log' -> own' ≡ₚ rest -> Q tt own' log') -> wp (release_slots c slots) Q own log.
Proof.
  induction slots as [|[n|] slots IH]; intros [|k keys] own rest log Q Hlen Hown HQ; simpl in Hlen; try lia; [by apply HQ..| |].
  - act_step. exists k, (slot_leases c slots keys ++ rest). split; [done|].
    apply (IH keys _ rest); [lia|done|]. intros own' log'' Hlog' Hp. apply HQ; [by etrans|done].
  - apply (IH keys _ rest); [lia|done|done].
Qed.

Lemma wp_drop_buffers l : forall own rest log (Q : unit -> post), own ≡ₚ (RBuffer <$> l.*1) ++ rest ->
  (forall own' log', log ⊆ log' -> own' ≡ₚ rest -> Q tt own' log') -> wp (drop_buffers_of l) Q own log.
Proof.
  induction l as [|[n bytes] l IH]; intros own rest log Q Hown HQ; [by apply HQ|].
  act_step. exists ((RBuffer <$> l.*1) ++ rest). split; [done|].
  apply (IH _ rest); [done|]. intros own' log'' Hlog' Hp. apply HQ; [by etrans|done].
Qed.

(** Buffers with the bytes of the spans. *)
Definition loads (acc : list (positive * list Z)) (spans : list read_span) : Prop := acc.*2 = span_bytes data <$> spans /\ Forall (span_ok data) spans.

Lemma wp_await_all t spans todo : forall i acc own rest log (Q : result exn (list (positive * list Z)) -> post),
  RReads t spans ∈ rest -> may_await rest -> (i + todo = length spans)%nat -> loads acc (take i spans) -> own ≡ₚ (RBuffer <$> acc.*1) ++ rest ->
  (forall e own' log', log ⊆ log' -> own' ≡ₚ rest -> Q (Err e) own' log') ->
  (forall l own' log', log ⊆ log' -> loads l spans -> own' ≡ₚ (RBuffer <$> l.*1) ++ rest -> Q (Ok l) own' log') ->
  wp (await_all t i todo acc) Q own log.
Proof.
  induction todo as [|todo IH]; intros i acc own rest log Q Hin Hmay Hlen Hacc Hown Herr Hok; cbn [await_all].
  - apply Hok; [done| |done]. by rewrite take_ge in Hacc by lia.
  - destruct (lookup_lt_is_Some_2 spans i ltac:(lia)) as [s Hs]. assert (RReads t spans ∈ own) as Hin' by (rewrite Hown; set_solver).
    act_step. exists spans, s. split_and!; [done|done|eapply may_await_more; eauto with plain|intros e|intros Hspan name].
    + apply wp_seq, (wp_drop_buffers acc _ rest); [done|]. intros own' log'' Hlog' Hp. apply Herr; [by etrans|done].
    + set (b := (name, span_bytes data s)).
      assert (RBuffer name :: own ≡ₚ (RBuffer <$> (acc ++ [b]).*1) ++ rest) as Hown'.
      { rewrite fmap_app, fmap_app. simpl. rewrite <- (assoc_L (++)). simpl. rewrite <- Permutation_middle. by rewrite Hown. }
      act_step. split; [exists spans; by right|]. intros [].
      * apply wp_seq, (wp_drop_buffers (acc ++ [b]) _ rest); [done|]. intros own' log'' Hlog' Hp. apply Herr; [|done]. etrans; [done|]. by etrans.
      * apply (IH (S i) (acc ++ [b]) _ rest); [done|done|lia| |done|..].
        -- destruct Hacc as [Hacc Hall]. split; rewrite (take_S_r _ _ _ Hs); [|by apply Forall_app_2, Forall_singleton]. rewrite !fmap_app. by rewrite Hacc.
        -- intros e own' log'' Hlog'. apply Herr. etrans; [done|]. by etrans.
        -- intros l own' log'' Hlog'. apply Hok. etrans; [done|]. by etrans.
Qed.

Lemma wp_get_reads t spans own log (Q : result exn (list (positive * list Z)) -> post) : RReads t spans ∈ own -> may_await own ->
  (forall e own' log', log ⊆ log' -> own' ≡ₚ own -> Q (Err e) own' log') ->
  (forall l own' log', log ⊆ log' -> loads l spans -> own' ≡ₚ (RBuffer <$> l.*1) ++ own -> Q (Ok l) own' log') ->
  wp (get_reads t) Q own log.
Proof.
  intros Hin Hmay Herr Hok. unfold get_reads. act_step. split; [by exists spans|]. intros []; [by apply Herr|].
  act_step. intros []; [apply Herr; [by etrans|done]|]. act_step. exists spans. split; [done|].
  apply (wp_await_all t spans _ _ _ _ own); [done|done|lia|by split; constructor|done|..].
  - intros e own' log'' Hl. apply Herr. etrans; [done|]. etrans; [done|]. by etrans.
  - intros l own' log'' Hl. apply Hok. etrans; [done|]. etrans; [done|]. by etrans.
Qed.

Lemma wp_publish {A} l owner id (dispatch : prog (result exn A)) own log (Q : result exn A -> post) : may_lock l own ->
  (forall e own' log', log ⊆ log' -> own' ≡ₚ own -> Q (Err e) own' log') ->
  (forall log', log ⊆ log' -> wp dispatch (fun x own1 log1 => exists rest, own1 ≡ₚ RLock l :: rest /\
     forall own' log', log1 ⊆ log' -> own' ≡ₚ rest -> Q x own' log') (RLock l :: own) log') ->
  wp (publish_provider_ticket l owner id dispatch) Q own log.
Proof.
  intros Hmay Herr Hd. unfold publish_provider_ticket. act_step. split; [done|]. act_step. intros [[]|e].
  - apply wp_seq. eapply wp_weaken; [|apply Hd; by etrans]. intros x own1 log1 Hlog1 (rest & Hrest & HQ). destruct x as [v|e].
    + act_step. exists rest. split; [done|]. by apply HQ.
    + act_step. act_step. exists rest. split; [done|]. apply HQ; [by etrans|done].
  - act_step. exists own. split; [done|]. apply Herr; [|done]. etrans; [done|]. by etrans.
Qed.

Lemma wp_submit_misses owner spans own log (Q : result exn (option positive) -> post) : Forall span_typed spans ->
  (forall e log', log ⊆ log' -> Q (Err e) own log') -> (spans = [] -> Q (Ok None) own log) ->
  (forall t log', log ⊆ log' -> Q (Ok (Some t)) (RReads t spans :: own) log') -> wp (submit_misses owner spans) Q own log.
Proof.
  intros Hty Herr Hnone Hok. destruct spans as [|s spans]; [by apply Hnone|]. unfold submit_misses. act_step.
  split_and!; [done|intros e; by apply Herr|intros t; by apply Hok].
Qed.

Lemma wp_end_get c id o keys x slots own rest log (Q : result exn (list (option positive)) -> post) :
  (length slots <= length keys)%nat -> own ≡ₚ RBusy id o :: slot_leases c slots keys ++ reads_own o.2 ++ rest ->
  (forall e own' log', log ⊆ log' -> own' ≡ₚ rest -> Q (Err e) own' log') ->
  (forall own' log', log ⊆ log' -> x = Ok tt -> own' ≡ₚ slot_leases c slots keys ++ rest -> Q (Ok slots) own' log') ->
  wp (end_get c id x slots) Q own log.
Proof.
  intros Hlen Hown Herr Hok. unfold end_get. destruct x as [[]|e].
  - act_step. exists o, (slot_leases c slots keys ++ rest). split; [|by apply Hok]. rewrite Hown. solve_Permutation.
  - apply wp_seq, (wp_release_slots c slots keys _ (RBusy id o :: reads_own o.2 ++ rest)); [done|rewrite Hown; solve_Permutation|].
    intros own' log' Hlog Hp. act_step. exists o, rest. split; [done|]. apply Herr; [by etrans|done].
Qed.

(** The end of [submit]. *)
Lemma wp_give_up c slots keys id l e own rest log (Q : result exn positive -> post) :
  (length slots <= length keys)%nat -> own ≡ₚ slot_leases c slots keys ++ RNew id l :: rest ->
  (forall own' log', log ⊆ log' -> own' ≡ₚ rest -> Q (Err e) own' log') ->
  wp (release_slots c slots;; act (AKillTicket id);; Ret (Err e)) Q own log.
Proof.
  intros Hlen Hown Herr. apply wp_seq, (wp_release_slots _ _ keys _ (RNew id l :: rest)); [done|done|].
  intros own1 log1 Hlog1 Hown1. act_step. exists l, rest. split; [done|]. apply Herr; [by etrans|done].
Qed.

Lemma wp_set_payload l id rows p reads pages own rest log (Q : result exn positive -> post) :
  own ≡ₚ slot_leases (cache_for l) (p_slots p) (p_keys p) ++ reads_own (match reads with Some t => Some (t, miss_spans locate data l p) | None => None end) ++ RNew id l :: rest ->
  log !! id = Some rows -> payload_ok locate extents data l rows p reads pages log ->
  (forall own' log', log ⊆ log' -> log' !! id = Some rows -> own' ≡ₚ rest -> Q (Ok id) own' log') ->
  wp (act (ASetPayload id p reads pages);; Ret (Ok id)) Q own log.
Proof.
  intros Hown Hid Hp HQ. act_step. assert (log' !! id = Some rows) by (by eapply lookup_weaken). exists l, rows, rest.
  split_and!; [rewrite Hown; solve_Permutation|done|by eapply payload_ok_log|by apply HQ].
Qed.

Lemma no_spans l rows p reads pages log : payload_ok locate extents data l rows p reads pages log -> miss_spans locate data l p = [] -> p_misses p = [].
Proof.
  intros (Hlen & Hm & Hs & _) Hnil. unfold miss_spans, miss_keys in *. destruct (p_misses p) as [|i ms]; [done|].
  assert (i ∈ none_positions (p_slots p)) as Hi by (rewrite <- Hm; by left). apply none_positions_elem, lookup_lt_Some in Hi.
  destruct (lookup_lt_is_Some_2 (p_keys p) i ltac:(lia)) as [k Hk]. csimpl in *. rewrite Hk in *. apply Forall_cons in Hs as [[s Hsp] _].
  csimpl in Hnil. by rewrite Hsp in Hnil.
Qed.

Lemma wp_dispatch_reads l owner id rows p own rest log (Q : result exn positive -> post) : l <> TwoTierLevel -> may_lock l rest ->
  own ≡ₚ slot_leases (cache_for l) (p_slots p) (p_keys p) ++ RNew id l :: rest -> log !! id = Some rows ->
  (forall t, payload_ok locate extents data l rows p (Some t) None log) -> Forall span_typed (miss_spans locate data l p) ->
  (forall e own' log', log ⊆ log' -> own' ≡ₚ rest -> Q (Err e) own' log') ->
  (forall own' log', log ⊆ log' -> log' !! id = Some rows -> own' ≡ₚ rest -> Q (Ok id) own' log') ->
  wp (y ← publish_provider_ticket l owner id (submit_misses owner (miss_spans locate data l p));
      match y with
      | Err e => release_slots (cache_for l) (p_slots p);; act (AKillTicket id);; Ret (Err e)
      | Ok reads => act (ASetPayload id p reads None);; Ret (Ok id)
      end) Q own log.
Proof.
  intros Hl Hmay Hown Hid Hp Hty Herr Hok. pose proof (Hp xH) as Hp1. destruct (Hp xH) as (Hlen & _).
  assert (forall e own2 log2, log ⊆ log2 -> own2 ≡ₚ own -> wp (release_slots (cache_for l) (p_slots p);; act (AKillTicket id);; Ret (Err e)) Q own2 log2) as Hfail.
  { intros e own2 log2 Hlog2 Hown2. apply (wp_give_up _ _ (p_keys p) _ l _ _ rest); [lia|by rewrite Hown2|]. intros own3 log3 Hlog3. apply Herr. by etrans. }
  apply wp_seq, wp_publish; [|intros e own2 log2 Hlog2 Hown2; by apply Hfail|].
  { eapply (may_lock_more _ (slot_leases _ _ _ ++ [RNew id l])); [rewrite <- (assoc_L (++)); exact Hown|auto with plain|done]. }
  intros log1 Hlog1.
  apply wp_submit_misses; [done|intros e log2 Hlog2|intros Hnil|intros t log2 Hlog2].
  - exists own. split; [done|]. intros own3 log3 Hlog3 Hown3. apply Hfail; [|done]. etrans; [done|]. by etrans.
  - exists own. split; [done|]. intros own3 log3 Hlog3 Hown3. assert (log ⊆ log3) by (by etrans).
    apply (wp_set_payload l id rows p None None _ rest); [by rewrite Hown3|by eapply lookup_weaken| |intros own4 log4 ?; apply Hok; by etrans].
    apply (payload_ok_log locate extents data l rows p None None log); [done|]. destruct Hp1 as (? & ? & ? & Hcase). split_and!; try done.
    pose proof (no_spans _ _ _ _ _ _ (Hp xH) Hnil). by destruct l; destruct Hcase.
  - exists (RReads t (miss_spans locate data l p) :: own). split; [by rewrite perm_swap|]. intros own3 log3 Hlog3 Hown3.
    assert (log ⊆ log3) by (etrans; [done|]; by etrans).
    apply (wp_set_payload l id rows p (Some t) None _ rest); [rewrite Hown3, Hown; simpl; solve_Permutation|by eapply lookup_weaken| |intros own4 log4 ?; apply Hok; by etrans].
    by apply (payload_ok_log locate extents data l rows p (Some t) None log).
Qed.

(** ** The row store *)

Definition missed (keys : list Z) (misses : list nat) : list Z := omap (fun i => keys !! i) misses.

Lemma missed_app keys a b : missed keys (a ++ b) = missed keys a ++ missed keys b.
Proof. apply omap_app. Qed.

Context (Hlocate : forall row s, locate row = Ok s -> span_typed s).

Definition built_rows (rows : list Z) (b : row_build) : Prop :=
  rb_misses b = none_positions (rb_slots b) /\ Forall2 (fun k s => locate k = Ok s) (missed rows (rb_misses b)) (rb_spans b).

Lemma wp_scan_rows todo : forall rows b own rest log (Q : result exn unit * row_build -> post),
  rows = take (length (rb_slots b)) rows ++ todo -> (length (rb_slots b) <= length rows)%nat -> built_rows rows b ->
  own ≡ₚ slot_leases RowCache (rb_slots b) rows ++ rest ->
  (forall x b' own' log', log ⊆ log' -> (length (rb_slots b') <= length rows)%nat -> own' ≡ₚ slot_leases RowCache (rb_slots b') rows ++ rest ->
    (x = Ok tt -> length (rb_slots b') = length rows /\ built_rows rows b') -> Q (x, b') own' log') ->
  wp (scan_rows locate todo b) Q own log.
Proof.
  induction todo as [|row todo IH]; intros rows b own rest log Q Hrows Hlen Hb Hown HQ.
  - apply HQ; try done. intros _. split; [|done]. rewrite app_nil_r in Hrows. apply (f_equal length) in Hrows. rewrite length_take in Hrows. lia.
  - assert (rows !! length (rb_slots b) = Some row) as Hrow.
    { rewrite Hrows, lookup_app_r; rewrite length_take; [|lia]. by replace (length _ - _)%nat with 0%nat by lia. }
    assert (length (rb_slots b) < length rows)%nat as Hlt by (by apply lookup_lt_Some in Hrow).
    assert (forall x, rows = take (length (rb_slots b ++ [x : option positive])) rows ++ todo) as Hnext.
    { intros x. rewrite length_app, Nat.add_1_r. rewrite (take_S_r _ _ _ Hrow), <- (assoc_L (++)). done. }
    destruct Hb as [Hm Hs]. cbn [scan_rows]. act_step. split; [|intros n].
    + destruct (locate row) as [s|e] eqn:El; [|apply HQ; [done|lia|done|done]].
      apply (IH rows _ _ rest); cbn [rb_slots rb_misses rb_spans]; [apply Hnext|rewrite length_app; simpl; lia| |by rewrite slot_leases_none|].
      * split; cbn [rb_slots rb_misses rb_spans]; [by rewrite none_positions_app, Hm|]. rewrite missed_app. apply Forall2_app; [done|].
        unfold missed. csimpl. rewrite Hrow. by repeat constructor.
      * intros x b' own' log'' Hl. apply HQ. by etrans.
    + apply (IH rows _ _ rest); cbn [rb_slots rb_misses rb_spans]; [apply Hnext|rewrite length_app; simpl; lia| | |].
      * split; cbn [rb_slots rb_misses rb_spans]; [by rewrite none_positions_app, app_nil_r|done].
      * rewrite (slot_leases_some _ _ _ _ row) by done. by rewrite Hown.
      * intros x b' own' log'' Hl. apply HQ. by etrans.
Qed.

Lemma located_spans l keys spans : l <> PageLevel -> Forall2 (fun k s => locate k = Ok s) keys spans ->
  Forall (fun k => is_Some (span_for locate data l k)) keys /\ omap (span_for locate data l) keys = spans /\ Forall span_typed spans.
Proof.
  intros Hl. induction 1 as [|k s keys spans Hk _ (IH1 & IH2 & IH3)]; [done|]. assert (span_for locate data l k = Some s) as Hs.
  { destruct l; try done; simpl; by rewrite Hk. }
  csimpl. rewrite Hs. split_and!; [by constructor; [rewrite Hs|]|by rewrite IH2|by constructor; [eapply Hlocate|]].
Qed.

Lemma wp_row_submit owner rows own log (Q : result exn positive -> post) : may_lock RowLevel own ->
  (forall e own' log', log ⊆ log' -> own' ≡ₚ own -> Q (Err e) own' log') ->
  (forall id own' log', log ⊆ log' -> log' !! id = Some rows -> own' ≡ₚ own -> Q (Ok id) own' log') ->
  wp (row_submit locate owner rows) Q own log.
Proof.
  intros Hmay Herr Hok. unfold row_submit. destruct rows as [|row0 rows0]; [by apply Herr|]. set (rows := row0 :: rows0) in *.
  act_step. split; [intros e; by apply Herr|]. intros id Hid. apply wp_seq.
  apply (wp_scan_rows rows rows _ _ (RNew id RowLevel :: own)); [done|simpl; lia|by repeat constructor|done|].
  intros x b own1 log1 Hlog1 Hlen1 Hown1 Hx.
  assert (log ⊆ log1) as Hall by (etrans; [done|]; etrans; [by apply insert_subseteq|done]).
  assert (log1 !! id = Some rows) as Hrows by (eapply lookup_weaken; [apply lookup_insert_eq|done]).
  destruct x as [[]|e].
  - destruct (Hx eq_refl) as (Hlen & Hm & Hspans). destruct (located_spans RowLevel _ _ ltac:(done) Hspans) as (Hsome & Hmiss & Hty).
    set (p := mk_payload (rb_slots b) rows (rb_misses b) []).
    assert (rb_spans b = miss_spans locate data RowLevel p) as Heq by done. rewrite Heq in *.
    apply (wp_dispatch_reads RowLevel owner id rows p _ own); try done.
    + intros e own2 log2 Hlog2. apply Herr. by etrans.
    + intros own2 log2 Hlog2. apply Hok. by etrans.
  - apply wp_seq. apply (wp_give_up _ _ rows _ RowLevel _ _ own); [done|done|]. intros own2 log2 Hlog2. apply Herr. by etrans.
Qed.

(** A buffer goes to the first slot without a lease. *)
Lemma fill_slot c slots keys i ms n k own rest : none_positions slots = i :: ms -> keys !! i = Some k -> own ≡ₚ slot_leases c slots keys ++ rest ->
  none_positions (<[i := Some n]> slots) = ms /\ RLease c n k :: own ≡ₚ slot_leases c (<[i := Some n]> slots) keys ++ rest.
Proof.
  intros Hm Hk Hown. split; [by eapply none_positions_insert|]. rewrite (slot_leases_insert _ _ _ _ _ k); [by rewrite Hown| |done].
  apply none_positions_elem. rewrite Hm. by left.
Qed.

Lemma first_key slots (keys : list Z) i ms : none_positions slots = i :: ms -> length slots = length keys -> is_Some (keys !! i).
Proof.
  intros Hm Hlen. apply lookup_lt_is_Some. rewrite <- Hlen. apply (lookup_lt_Some _ _ None), none_positions_elem. rewrite Hm. by left.
Qed.

(** What a loop that fills slots leaves. *)
Definition filled (c : cache_id) (keys : list Z) (rest : list resource) (x : result exn unit) (slots : list (option positive)) (own : list resource) : Prop :=
  length slots = length keys /\ own ≡ₚ slot_leases c slots keys ++ rest /\ (x = Ok tt -> none_positions slots = []).

Lemma wp_admit_rows id o keys loaded : forall misses slots own rest log (Q : result exn unit * list (option positive) -> post),
  RBusy id o ∈ rest -> none_positions slots = misses -> length slots = length keys -> own ≡ₚ slot_leases RowCache slots keys ++ rest ->
  Forall2 (fun i bytes => forall k, keys !! i = Some k -> right locate data RowCache k bytes) misses loaded ->
  (forall x slots' own' log', log ⊆ log' -> filled RowCache keys rest x slots' own' -> Q (x, slots') own' log') ->
  wp (admit_rows id keys misses loaded slots) Q own log.
Proof.
  induction loaded as [|bytes loaded IH]; intros misses slots own rest log Q Hbusy Hm Hlen Hown Hl HQ.
  - apply Forall2_nil_inv_r in Hl as ->. by apply HQ.
  - apply Forall2_cons_inv_r in Hl as (i & ms & Hright & Hl & ->). destruct (first_key _ _ _ _ Hm Hlen) as [k Hk].
    assert (forall x own' log', log ⊆ log' -> own' ≡ₚ own -> x <> Ok tt -> Q (x, slots) own' log') as Hstop.
    { intros x own' log' Hlog Hp Hx. apply HQ; [done|]. split_and!; [done|by rewrite Hp|done]. }
    cbn [admit_rows]. act_step. split; [exists o; rewrite Hown; set_solver|]. intros []; [by apply Hstop|]. act_step. rewrite Hk. cbn [default].
    split_and!; [by apply Hright|intros e; apply Hstop; [by etrans|done|done]|intros n].
    destruct (fill_slot RowCache slots keys i ms n k own rest Hm Hk Hown) as [Hm' Hown'].
    apply (IH ms _ _ rest); [done|done|by rewrite length_insert|done|done|]. intros x slots' own' log'' Hlog''. apply HQ. etrans; [done|]. by etrans.
Qed.

Lemma loads_misses l rows p reads pages log : payload_ok locate extents data l rows p reads pages log -> Forall (span_ok data) (miss_spans locate data l p) ->
  Forall2 (fun i bytes => forall k, p_keys p !! i = Some k -> exists s, span_for locate data l k = Some s /\ span_ok data s /\ bytes = span_bytes data s)
    (p_misses p) (span_bytes data <$> miss_spans locate data l p).
Proof.
  intros (Hlen & Hm & Hs & _) Hall. unfold miss_spans, miss_keys in *.
  assert (Forall (fun i => is_Some (p_keys p !! i)) (p_misses p)) as Hin.
  { apply Forall_forall. intros i Hi. rewrite Hm in Hi. apply none_positions_elem, lookup_lt_Some in Hi. apply lookup_lt_is_Some. lia. }
  clear Hm. induction (p_misses p) as [|i ms IH]; [constructor|]. apply Forall_cons in Hin as [[k Hk] Hin]. csimpl in *. rewrite Hk in *.
  apply Forall_cons in Hs as [[s Hsp] Hs]. csimpl in *. rewrite Hsp in *. csimpl.
  apply Forall_cons in Hall as [Hspan Hall]. constructor; [|by apply IH]. intros k' Hk'. simplify_eq. by exists s.
Qed.

(** A staged batch: every slot has a lease of its key. *)
Definition staged (c : cache_id) (keys : list Z) (slots : list (option positive)) (rest own : list resource) : Prop :=
  length slots = length keys /\ none_positions slots = [] /\ own ≡ₚ slot_leases c slots keys ++ rest.

Lemma wp_redeem {A} l id rows p reads pages own log (fin : result exn unit -> list (option positive) -> prog A)
    (fill : list (list Z) -> prog (result exn unit * list (option positive))) (bad : exn) (Q : A -> post) :
  payload_ok locate extents data l rows p reads pages log -> l <> TwoTierLevel -> may_await own ->
  (forall o x slots own1 log1, log ⊆ log1 -> filled (cache_for l) (p_keys p) (RBusy id o :: reads_own o.2 ++ own) x slots own1 -> wp (fin x slots) Q own1 log1) ->
  (forall o rest own1 log1 (Q' : result exn unit * list (option positive) -> post), Forall (span_ok data) (miss_spans locate data l p) -> RBusy id o ∈ rest -> own1 ≡ₚ slot_leases (cache_for l) (p_slots p) (p_keys p) ++ rest ->
    (forall x slots own2 log2, log1 ⊆ log2 -> filled (cache_for l) (p_keys p) rest x slots own2 -> Q' (x, slots) own2 log2) ->
    wp (fill (span_bytes data <$> miss_spans locate data l p)) Q' own1 log1) ->
  let o := match reads with Some t => Some (t, miss_spans locate data l p) | None => None end in
  wp (match reads with
      | None => fin (Ok tt) (p_slots p)
      | Some t =>
          loaded ← get_reads t;
          match loaded with
          | Err e => fin (Err e) (p_slots p)
          | Ok loaded =>
              '(x, slots) ← (if negb (length loaded =? length (p_misses p))%nat then Ret (Err bad, p_slots p) else fill (loaded.*2));
              drop_buffers_of loaded;; fin x slots
          end
      end) Q (RBusy id (l, o) :: slot_leases (cache_for l) (p_slots p) (p_keys p) ++ reads_own o ++ own) log.
Proof.
  intros (Hlen & Hm & _ & Hcase) Hl Hmay Hfin Hfill. destruct reads as [t|]; cbn [reads_own].
  - cbn zeta. set (o := (l, Some (t, miss_spans locate data l p))). apply wp_seq, (wp_get_reads t (miss_spans locate data l p)); [set_solver| |intros e own1 log1 Hlog1 Hown1|].
    + apply may_await_busy. eapply (may_await_more (slot_leases (cache_for l) (p_slots p) (p_keys p) ++ [RReads t (miss_spans locate data l p)]) own); [by rewrite <- (assoc_L (++))|auto with plain|done].
    + apply (Hfin o); [done|]. split_and!; [done|rewrite Hown1; simpl; solve_Permutation|done].
    + intros loaded own1 log1 Hlog1 [Hl1 Hall] Hown1. apply wp_seq. set (held := RBuffer <$> loaded.*1) in *.
      assert (forall x slots own2 log2, log1 ⊆ log2 -> filled (cache_for l) (p_keys p) (held ++ RBusy id o :: reads_own o.2 ++ own) x slots own2 ->
        wp (drop_buffers_of loaded;; fin x slots) Q own2 log2) as Hdrop.
      { intros x slots own2 log2 Hlog2 (Hl2 & Hown2 & Hx).
        apply wp_seq, (wp_drop_buffers loaded _ (slot_leases (cache_for l) slots (p_keys p) ++ RBusy id o :: reads_own o.2 ++ own)); [rewrite Hown2; solve_Permutation|].
        intros own3 log3 Hlog3 Hown3. apply (Hfin o); [etrans; [done|]; by etrans|]. by split_and!. }
      assert (own1 ≡ₚ slot_leases (cache_for l) (p_slots p) (p_keys p) ++ held ++ RBusy id o :: reads_own o.2 ++ own) as Hp by (rewrite Hown1; simpl; solve_Permutation).
      destruct (length loaded =? length (p_misses p))%nat; simpl negb; cbv iota; [|by apply Hdrop].
      rewrite Hl1. eapply (Hfill o); [done| |exact Hp|]; [set_solver|]. intros x slots own2 log2 Hlog2. by apply Hdrop.
  - cbn zeta. apply (Hfin (l, None)); [done|]. split_and!; [done|simpl; solve_Permutation|]. intros _. rewrite <- Hm. destruct l; naive_solver.
Qed.

Lemma wp_row_get id own log (Q : result exn (list (option positive)) -> post) : may_begin RowLevel own ->
  (forall e own' log', log ⊆ log' -> own' ≡ₚ own -> Q (Err e) own' log') ->
  (forall rows slots own' log', log ⊆ log' -> log' !! id = Some rows -> staged RowCache rows slots own own' -> Q (Ok slots) own' log') ->
  wp (row_get id) Q own log.
Proof.
  intros Hmay Herr Hok. unfold row_get. act_step. split_and!; [done|intros e; by apply Herr|]. intros rows p reads pages Hid Hp. cbn zeta.
  pose proof (loads_misses _ _ _ _ _ _ Hp) as Hloads. pose proof Hp as (Hlen & Hm & Hspan & Hkeys & Hnone). destruct Hmay as [Hmay _].
  apply (wp_redeem RowLevel id rows p reads pages own log' (end_get RowCache id) (fun loaded => admit_rows id (p_keys p) (p_misses p) loaded (p_slots p)));
    [done|done|done| |]; rewrite Hkeys in *.
  - intros o x slots own1 log1 Hlog1 (Hl1 & Hown1 & Hx). apply (wp_end_get _ _ o rows _ _ _ own); [lia|rewrite Hown1; simpl; solve_Permutation|..].
    + intros e own2 log2 Hlog2. apply Herr. etrans; [done|]. by etrans.
    + intros own2 log2 Hlog2 -> Hown2. apply (Hok rows); [etrans; [done|]; by etrans|eapply lookup_weaken; [done|]; by etrans|]. by split_and!; [|apply Hx|].
  - intros o rest own1 log1 Q' Hall Hbusy Hown1 HQ'. specialize (Hloads Hall). apply (wp_admit_rows id o rows _ _ _ _ rest); [done|by symmetry|done|done| |done].
    eapply Forall2_impl; [done|]. simpl. intros i bytes Hb k Hk. destruct (Hb k Hk) as (s & Hs & Hso & ->). destruct (locate k) as [s'|] eqn:El; [|done]. simplify_eq. by exists s.
Qed.

(** ** The page store *)

Lemma missed_more keys more misses : (forall i, i ∈ misses -> (i < length keys)%nat) -> missed (keys ++ more) misses = missed keys misses.
Proof.
  intros Hi. unfold missed. induction misses as [|i ms IH]; [done|]. csimpl. rewrite lookup_app_l by (apply Hi; by left).
  rewrite IH; [done|]. intros j Hj. apply Hi. by right.
Qed.

(** Leases for the pages so far, and reads for the others. *)
Definition page_leases (b : page_build) (rest own : list resource) : Prop :=
  length (pb_slots b) = length (pb_keys b) /\ own ≡ₚ slot_leases PageCache (pb_slots b) (pb_keys b) ++ rest.
Definition page_reads (b : page_build) : Prop :=
  pb_misses b = none_positions (pb_slots b) /\ pb_spans b = page_span data <$> missed (pb_keys b) (pb_misses b) /\ Forall span_typed (pb_spans b).

Lemma misses_lt b rest own i : page_leases b rest own -> page_reads b -> i ∈ pb_misses b -> (i < length (pb_keys b))%nat.
Proof. intros [Hl _] [Hm _] Hi. rewrite Hm in Hi. apply none_positions_elem, lookup_lt_Some in Hi. lia. Qed.

Lemma page_position_key page b i : page_position page b = Some i -> pb_keys b !! i = Some page.
Proof.
  unfold page_position. destruct (list_find (eq page) (pb_keys b)) as [[j k]|] eqn:E; [|done]. intros [= <-].
  by apply list_find_Some in E as (? & <- & _).
Qed.

Lemma page_span_typed page : wrap64 (page * Z.of_nat ple_page_size) < source_size -> span_typed (page_span data page).
Proof.
  intros Hlt. pose proof (wrap64_u64 (page * Z.of_nat ple_page_size)) as Hw. unfold span_typed, page_span. simpl. split; [done|].
  unfold u64, UINT64_MAX in *. change (Z.of_nat ple_page_size) with 4096 in *. lia.
Qed.

(** A page of a row. *)
Definition visited (page : Z) (b : page_build) (rest : list resource) (x : result exn nat) (b' : page_build) (own : list resource) : Prop :=
  page_leases b' rest own /\ pb_views b' = pb_views b /\ pb_keys b `prefix_of` pb_keys b' /\
  forall i, x = Ok i -> page_reads b' /\ pb_keys b' !! i = Some page.

Lemma wp_visit_page page b own rest log (Q : result exn nat * page_build -> post) :
  page_leases b rest own -> page_reads b ->
  (forall x b' own' log', log ⊆ log' -> visited page b rest x b' own' -> Q (x, b') own' log') ->
  wp (visit_page source_size page b) Q own log.
Proof.
  intros Hl Hr HQ. pose proof (fun i => misses_lt b rest own i Hl Hr) as Hlt. unfold visit_page. destruct (page_position page b) as [i|] eqn:Ei.
  - apply HQ; [done|]. split_and!; [done|done|done|]. intros j [= <-]. split; [done|]. by apply page_position_key.
  - destruct Hl as [Hlen Hown]. destruct Hr as (Hm & Hs & Hty).
    assert (forall e own' log', log ⊆ log' -> own' ≡ₚ own -> Q (Err e, b) own' log') as Hstop.
    { intros e own' log' Hlog Hp. apply HQ; [done|]. split_and!; [by split; [|rewrite Hp]|done|done|done]. }
    assert (forall slot : option positive, length (pb_slots b ++ [slot]) = length (pb_keys b ++ [page])) as Hlen'.
    { intros slot. rewrite !length_app. simpl. lia. }
    act_step. intros []; [by apply Hstop|]. act_step. split; [|intros n].
    + act_step. intros []; [apply Hstop; [etrans; [done|]; by etrans|done]|]. cbv iota zeta.
      assert (slot_leases PageCache (pb_slots b ++ [None]) (pb_keys b ++ [page]) = slot_leases PageCache (pb_slots b) (pb_keys b)) as Hsl.
      { rewrite slot_leases_none. by apply slot_leases_keys. }
      case_match eqn:Eo; [apply HQ; [etrans; [done|]; by etrans|]|].
      { split_and!; simpl; [by split; simpl; [|rewrite Hsl]|done|by apply prefix_app_r|done]. }
      act_step. assert (log ⊆ log'2) by (etrans; [done|]; etrans; [done|]; by etrans). intros []; (apply HQ; [done|]); split_and!; simpl; try done;
        [by split; simpl; [|rewrite Hsl]|by apply prefix_app_r|by split; simpl; [|rewrite Hsl]|by apply prefix_app_r|]. intros j [= <-].
      rewrite Z.geb_leb in Eo. apply Z.leb_gt in Eo. rewrite list_lookup_middle by done. split; [|done]. split_and!; simpl.
      * by rewrite none_positions_app, Hm.
      * rewrite missed_app, missed_more, fmap_app, Hs by done. unfold missed. csimpl. by rewrite list_lookup_middle by done.
      * apply Forall_app. split; [done|]. constructor; [|done]. by apply page_span_typed.
    + act_step. intros [].
      * cbn [release_slots]. apply wp_seq. act_step. exists page, own. split; [done|]. apply Hstop; [|done]. etrans; [done|]. etrans; [done|]. by etrans.
      * apply HQ; [etrans; [done|]; by etrans|]. split_and!; simpl; [split; simpl; [done|]|done|by apply prefix_app_r|].
        -- rewrite (slot_leases_some _ _ _ _ page) by (by rewrite list_lookup_middle). rewrite slot_leases_keys by done. by rewrite Hown.
        -- intros j [= <-]. rewrite list_lookup_middle by done. split; [|done]. split_and!; simpl; [by rewrite none_positions_app, app_nil_r| |done]. by rewrite missed_more.
Qed.

Lemma view_ok_prefix keys keys' row v : keys `prefix_of` keys' -> view_ok extents keys row v -> view_ok extents keys' row v.
Proof.
  intros [more ->] (e & ? & ? & ? & ? & Hf & Hl & ? & ?). exists e. split_and!; try done; by apply lookup_app_l_Some.
Qed.

Lemma wp_scan_pages todo : forall pre b own rest log (Q : result exn unit * page_build -> post),
  Forall (Z.le 0) todo -> page_leases b rest own -> page_reads b -> Forall2 (view_ok extents (pb_keys b)) pre (pb_views b) ->
  (forall x b' own' log', log ⊆ log' -> page_leases b' rest own' ->
    (x = Ok tt -> page_reads b' /\ Forall2 (view_ok extents (pb_keys b')) (pre ++ todo) (pb_views b')) -> Q (x, b') own' log') ->
  wp (scan_pages extents source_size todo b) Q own log.
Proof.
  induction todo as [|row todo IH]; intros pre b own rest log Q Hpos Hl Hr Hv HQ.
  - apply HQ; [done|done|]. intros _. by rewrite app_nil_r.
  - apply Forall_cons in Hpos as [Hrow Hpos]. cbn [scan_pages]. destruct (locate_global extents row) as [e|] eqn:Ee; [|by apply HQ].
    case_match eqn:Eg; [by apply HQ|]. apply orb_false_iff in Eg as [[Eg1 Eg2]%orb_false_iff Eg3]. apply negb_false_iff, Z.eqb_eq in Eg1. apply Z.ltb_ge in Eg2.
    rewrite Z.gtb_ltb in Eg3. apply Z.ltb_ge in Eg3.
    apply wp_seq, (wp_visit_page _ _ _ rest); [done|done|]. intros x b1 own1 log1 Hlog1 (Hl1 & Hv1 & Hk1 & Hx). destruct x as [first|err]; [|by apply HQ].
    destruct (Hx first eq_refl) as [Hr1 Hfirst]. apply wp_seq.
    assert (forall last b2 own2 log2, log1 ⊆ log2 -> page_leases b2 rest own2 -> pb_views b2 = pb_views b1 -> pb_keys b1 `prefix_of` pb_keys b2 -> page_reads b2 ->
      pb_keys b2 !! last = Some (pe_last_page e) ->
      wp (scan_pages extents source_size todo (mk_page_build (pb_slots b2) (pb_keys b2) (pb_misses b2) (pb_spans b2)
        (pb_views b2 ++ [mk_view first last (Z.to_nat (pe_offset e mod Z.of_nat ple_page_size)) (Z.to_nat (pe_length e))]))) Q own2 log2) as Hnext.
    { intros last b2 own2 log2 Hlog2 Hl2 Hv2 Hk2 Hr2 Hlast. apply (IH (pre ++ [row]) _ _ rest); [done|done|done| |].
      - cbn [pb_views pb_keys]. rewrite Hv2, Hv1. apply Forall2_app.
        + eapply Forall2_impl; [done|]. intros r v. apply view_ok_prefix. by etrans.
        + constructor; [|done]. exists e. cbn [v_first v_last v_offset v_length]. split_and!; [done|done|done|lia| |done|done|by rewrite Eg1].
          destruct Hk2 as [more ->]. by apply lookup_app_l_Some.
      - intros x b' own' log' Hlog'. rewrite <- (assoc_L (++)). apply HQ. etrans; [done|]. by etrans. }
    destruct (pe_last_page e =? pe_first_page e) eqn:Elast.
    + apply Z.eqb_eq in Elast. apply Hnext; try done. by rewrite Elast.
    + apply (wp_visit_page _ _ _ rest); [done|done|]. intros y b2 own2 log2 Hlog2 (Hl2 & Hv2 & Hk2 & Hy).
      destruct y as [last|err]; [|apply HQ; [by etrans|done|done]]. destruct (Hy last eq_refl) as [Hr2 Hlast]. by apply Hnext.
Qed.

Lemma page_payload rows b rest own : page_leases b rest own -> page_reads b -> Forall2 (view_ok extents (pb_keys b)) rows (pb_views b) ->
  let p := mk_payload (pb_slots b) (pb_keys b) (pb_misses b) (pb_views b) in
  pb_spans b = miss_spans locate data PageLevel p /\ forall t log, payload_ok locate extents data PageLevel rows p (Some t) None log.
Proof.
  intros [Hlen _] (Hm & Hs & _) Hv p. split.
  - rewrite Hs. unfold miss_spans. change (miss_keys p) with (missed (pb_keys b) (pb_misses b)). induction (missed _ _) as [|k ks IH]; [done|]. cbn. by f_equal.
  - intros t log. split_and!; try done. apply Forall_forall. intros k _. by eexists.
Qed.

Lemma wp_page_submit owner rows own log (Q : result exn positive -> post) : may_lock PageLevel own -> Forall (Z.le 0) rows ->
  (forall e own' log', log ⊆ log' -> own' ≡ₚ own -> Q (Err e) own' log') ->
  (forall id own' log', log ⊆ log' -> log' !! id = Some rows -> Forall (fun row => exists e, locate_global extents row = Ok e) rows -> own' ≡ₚ own -> Q (Ok id) own' log') ->
  wp (page_submit extents source_size owner rows) Q own log.
Proof.
  intros Hmay Hpos Herr Hok. unfold page_submit. destruct rows as [|row0 rows0]; [by apply Herr|]. set (rows := row0 :: rows0) in *.
  act_step. split; [intros e; by apply Herr|]. intros id Hid. apply wp_seq.
  apply (wp_scan_pages rows [] _ _ (RNew id PageLevel :: own)); [done|done|by repeat constructor|constructor|].
  intros x b own1 log1 Hlog1 Hl1 Hx.
  assert (log ⊆ log1) as Hall by (etrans; [done|]; etrans; [by apply insert_subseteq|done]).
  assert (log1 !! id = Some rows) as Hrows by (eapply lookup_weaken; [apply lookup_insert_eq|done]).
  destruct x as [[]|e].
  - destruct (Hx eq_refl) as (Hr1 & Hviews). destruct (page_payload _ _ _ _ Hl1 Hr1 Hviews) as [Heq Hp]. set (p := mk_payload _ _ _ _) in *.
    destruct Hr1 as (_ & _ & Hty). rewrite Heq in *. destruct Hl1 as [Hlen1 Hown1].
    apply (wp_dispatch_reads PageLevel owner id rows p _ own); try done.
    + intros e own2 log2 Hlog2. apply Herr. by etrans.
    + intros own2 log2 Hlog2 Hid2. apply Hok; [by etrans|done|]. eapply Forall2_Forall_l; [exact Hviews|]. apply Forall_forall. intros v _ row (e & _ & He & _). by exists e.
  - destruct Hl1 as [Hlen1 Hown1]. apply wp_seq. apply (wp_give_up _ _ (pb_keys b) _ PageLevel _ _ own); [lia|done|]. intros own2 log2 Hlog2. apply Herr. by etrans.
Qed.

Lemma wp_admit_pages id o keys loaded : forall misses slots own rest log (Q : result exn unit * list (option positive) -> post),
  RBusy id o ∈ rest -> none_positions slots = misses -> length slots = length keys -> own ≡ₚ slot_leases PageCache slots keys ++ rest ->
  Forall2 (fun i bytes => forall k, keys !! i = Some k -> right locate data PageCache k (pad_page bytes)) misses loaded ->
  (forall x slots' own' log', log ⊆ log' -> filled PageCache keys rest x slots' own' -> Q (x, slots') own' log') ->
  wp (admit_pages id keys misses loaded slots) Q own log.
Proof.
  induction loaded as [|bytes loaded IH]; intros misses slots own rest log Q Hbusy Hm Hlen Hown Hl HQ.
  - apply Forall2_nil_inv_r in Hl as ->. by apply HQ.
  - apply Forall2_cons_inv_r in Hl as (i & ms & Hright & Hl & ->). destruct (first_key _ _ _ _ Hm Hlen) as [k Hk].
    assert (forall x own' log', log ⊆ log' -> own' ≡ₚ own -> x <> Ok tt -> Q (x, slots) own' log') as Hstop.
    { intros x own' log' Hlog Hp Hx. apply HQ; [done|]. split_and!; [done|by rewrite Hp|done]. }
    cbn [admit_pages]. act_step. split; [exists o; rewrite Hown; set_solver|]. intros []; [by apply Hstop|]. case_match; [by apply Hstop|]. act_step. rewrite Hk. cbn [default].
    split_and!; [by apply Hright|intros e; apply Hstop; [by etrans|done|done]|intros n].
    destruct (fill_slot PageCache slots keys i ms n k own rest Hm Hk Hown) as [Hm' Hown'].
    apply (IH ms _ _ rest); [done|done|by rewrite length_insert|done|done|]. intros x slots' own' log'' Hlog''. apply HQ. etrans; [done|]. by etrans.
Qed.

Lemma wp_page_get id own log (Q : result exn (list (option positive) * list row_view) -> post) : may_begin PageLevel own ->
  (forall e own' log', log ⊆ log' -> own' ≡ₚ own -> Q (Err e) own' log') ->
  (forall rows keys slots views own' log', log ⊆ log' -> log' !! id = Some rows -> Forall2 (view_ok extents keys) rows views ->
    staged PageCache keys slots own own' -> Q (Ok (slots, views)) own' log') ->
  wp (page_get id) Q own log.
Proof.
  intros Hmay Herr Hok. unfold page_get. act_step. split_and!; [done|intros e; by apply Herr|]. intros rows p reads pages Hid Hp. cbn zeta.
  pose proof (loads_misses _ _ _ _ _ _ Hp) as Hloads. pose proof Hp as (Hlen & Hm & Hspan & Hviews & Hnone). destruct Hmay as [Hmay _].
  apply (wp_redeem PageLevel id rows p reads pages own log' (fun x slots => attempt slots := end_get PageCache id x slots in Ret (Ok (slots, p_views p)))
    (fun loaded => admit_pages id (p_keys p) (p_misses p) loaded (p_slots p))); [done|done|done| |].
  - intros o x slots own1 log1 Hlog1 (Hl1 & Hown1 & Hx). apply wp_seq, (wp_end_get _ _ o (p_keys p) _ _ _ own); [lia|rewrite Hown1; simpl; solve_Permutation|..].
    + intros e own2 log2 Hlog2. apply Herr. etrans; [done|]. by etrans.
    + intros own2 log2 Hlog2 -> Hown2. apply (Hok rows (p_keys p)); [etrans; [done|]; by etrans|eapply lookup_weaken; [done|]; by etrans|done|]. by split_and!; [|apply Hx|].
  - intros o rest own1 log1 Q' Hall Hbusy Hown1 HQ'. specialize (Hloads Hall). apply (wp_admit_pages id o (p_keys p) _ _ _ _ rest); [done|by symmetry|done|done| |done].
    eapply Forall2_impl; [done|]. simpl. intros i bytes Hb k Hk. destruct (Hb k Hk) as (s & Hs & _ & ->). by simplify_eq.
Qed.

(** ** Rows on pages *)

(** The index describes rows inside the source, on pages of the size that the store reads. *)
Record pages_fit : Prop := {
  pf_index : index_ok extents;
  pf_page : xi_page_size extents = Z.of_nat ple_page_size;
  pf_end : xi_tensor_data_offset extents + xi_row_count extents * xi_row_size extents <= source_size;
}.

Lemma page_bytes page o n : 0 <= page -> page * 4096 <= UINT64_MAX -> (o + n <= 4096)%nat -> (Z.to_nat (page * 4096) + o + n <= length data)%nat ->
  bytes_at (pad_page (span_bytes data (page_span data page))) o n = bytes_at data (Z.to_nat (page * 4096) + o) n.
Proof.
  intros Hp Hu Hn Hin. unfold span_bytes, page_span. change (Z.of_nat ple_page_size) with 4096. rewrite wrap64_small by (unfold u64; lia). cbn [sp_offset sp_length].
  set (b := Z.to_nat (page * 4096)) in *. set (len := Z.to_nat _).
  assert (o + n <= len)%nat as Hlen by (unfold len, b in *; lia). assert (b + len <= length data)%nat as Hb by (unfold len, b in *; lia).
  unfold pad_page, bytes_at. rewrite drop_app_le by (rewrite length_take, length_drop; lia).
  rewrite take_app_le by (rewrite length_drop, length_take, length_drop; lia).
  rewrite skipn_firstn_comm, take_take, drop_drop. f_equal. lia.
Qed.

Lemma bytes_at_app o n m : bytes_at data o n ++ bytes_at data (o + n) m = bytes_at data o (n + m).
Proof. unfold bytes_at. by rewrite <- drop_drop, take_take_drop. Qed.

(** A row at its place, when the index allows it. *)
Lemma located_extent row e : pages_fit -> 0 <= row -> locate_global extents row = Ok e ->
  0 <= pe_offset e /\ pe_offset e + pe_length e <= source_size /\ pe_offset e + pe_length e <= UINT64_MAX /\
  pe_first_page e = pe_offset e / 4096 /\ pe_last_page e = (pe_offset e + pe_length e - 1) / 4096.
Proof.
  intros [Hi Hpg Hend] Hrow He. assert (row < xi_row_count extents) as Hlt.
  { unfold locate_global in He. destruct (row >=? xi_row_count extents) eqn:E; [done|]. rewrite Z.geb_leb in E. by apply Z.leb_gt in E. }
  rewrite locate_global_ok in He by done. injection He as <-. unfold extent_at. cbn [pe_offset pe_length pe_first_page pe_last_page]. rewrite Hpg.
  pose proof (row_in_tensor extents row Hi (conj Hrow Hlt)) as [Hr1 Hr2]. pose proof (xo_offset _ Hi). pose proof (xo_end _ Hi). split_and!; [lia|lia|lia|done|done].
Qed.

Lemma staged_peek c keys slots rest own i k : staged c keys slots rest own -> keys !! i = Some k ->
  exists n, slots !! i = Some (Some n) /\ RLease c n k ∈ own.
Proof.
  intros (Hlen & Hnone & Hown) Hk. destruct (lookup_lt_is_Some_2 slots i) as [x Hx]; [apply lookup_lt_Some in Hk; lia|].
  destruct (none_positions_all _ _ _ Hnone Hx) as [n ->]. exists n. split; [done|]. rewrite Hown. apply elem_of_app. left. by eapply slot_leases_elem.
Qed.

Lemma wp_copy_quantized keys slots views index row v rest own log (Q : result exn (list Z) -> post) : pages_fit ->
  staged PageCache keys slots rest own -> views !! index = Some v -> view_ok extents keys row v ->
  (forall bytes log', log ⊆ log' -> right (extent_locate extents) data RowCache row bytes -> Q (Ok bytes) own log') ->
  wp (copy_quantized slots views index ple_quantized_row_size) Q own log.
Proof.
  intros Hfit Hst Hv (e & Hrow & He & Hlen & Hpages & Hfirst & Hlast & Hoff & Hvlen) HQ.
  destruct (located_extent row e Hfit Hrow He) as (Ho & Hend & Hu & Hp1 & Hp2). rewrite Hlen in *. change (Z.of_nat ple_quantized_row_size) with 90 in *.
  destruct (staged_peek _ _ _ _ _ _ _ Hst Hfirst) as (n1 & Hn1 & Hl1). destruct (staged_peek _ _ _ _ _ _ _ Hst Hlast) as (n2 & Hn2 & Hl2).
  change (Z.of_nat ple_page_size) with 4096 in Hoff.
  pose proof (Z.div_mod (pe_offset e) 4096 ltac:(lia)) as Hdm. pose proof (Z.mod_pos_bound (pe_offset e) 4096 ltac:(lia)) as Hmb.
  pose proof (Z.div_pos (pe_offset e) 4096 Ho ltac:(lia)) as Hdp.
  assert (Z.to_nat (pe_offset e) = Z.to_nat (pe_first_page e * 4096) + v_offset v)%nat as Hplace by (rewrite Hp1, Hoff; lia).
  assert (forall bytes, bytes = bytes_at data (Z.to_nat (pe_offset e)) 90 -> right (extent_locate extents) data RowCache row bytes) as Hright.
  { intros bytes ->. exists (mk_span (pe_offset e) (pe_length e)). unfold extent_locate. rewrite He. split_and!; [done|split_and!; simpl; lia|]. unfold span_bytes. simpl. by rewrite Hlen. }
  unfold copy_quantized. rewrite Hv, Hvlen, Nat.eqb_refl. cbn [negb orb].
  rewrite (proj2 (Nat.leb_gt (length slots) (v_first v))) by (by apply lookup_lt_Some in Hn1).
  rewrite (proj2 (Nat.leb_gt (length slots) (v_last v))) by (by apply lookup_lt_Some in Hn2). cbn [orb]. cbv zeta. rewrite Hn1, Hn2. cbn [default].
  act_step. exists n1, (pe_first_page e). split_and!; [done|done|]. intros d1 Hd1. cbn [right] in Hd1. subst d1. unfold ple_quantized_row_size, ple_page_size.
  destruct (decide (v_offset v + 90 <= 4096)%nat) as [Hin|Hout].
  - rewrite Nat.min_l, Nat.eqb_refl by lia. apply HQ; [done|]. apply Hright. rewrite page_bytes by lia. f_equal. lia.
  - rewrite Nat.min_r by lia. rewrite (proj2 (Nat.eqb_neq _ _)) by lia.
    assert (pe_last_page e = pe_first_page e + 1) as Hnext.
    { destruct Hpages as [Heq|?]; [|done]. exfalso. rewrite Hp1, Hp2 in Heq.
      pose proof (Z.div_mod (pe_offset e + 90 - 1) 4096 ltac:(lia)). pose proof (Z.mod_pos_bound (pe_offset e + 90 - 1) 4096 ltac:(lia)). lia. }
    rewrite (proj2 (Nat.eqb_neq _ _)) by (intros Heq; rewrite Heq in Hlast; rewrite Hlast in Hfirst; injection Hfirst; lia).
    act_step. exists n2, (pe_last_page e). split_and!; [done|done|]. intros d2 Hd2. cbn [right] in Hd2. subst d2. apply HQ; [by etrans|]. apply Hright.
    rewrite !page_bytes by lia. rewrite Hnext, <- Hplace.
    replace (Z.to_nat ((pe_first_page e + 1) * 4096) + 0)%nat with (Z.to_nat (pe_offset e) + (4096 - v_offset v))%nat by lia.
    rewrite bytes_at_app. f_equal. lia.
Qed.

(** ** The two-tier store *)

Definition scanned (rows : list Z) (slots : list (option positive)) (misses : list nat) (page_rows : list Z) : Prop :=
  misses = none_positions slots /\ page_rows = missed rows misses.

Lemma wp_scan_two todo : forall rows slots misses page_rows own rest log (Q : list (option positive) * list nat * list Z -> post),
  rows = take (length slots) rows ++ todo -> (length slots <= length rows)%nat -> scanned rows slots misses page_rows ->
  own ≡ₚ slot_leases RowCache slots rows ++ rest ->
  (forall slots' misses' page_rows' own' log', log ⊆ log' -> length slots' = length rows -> scanned rows slots' misses' page_rows' ->
    own' ≡ₚ slot_leases RowCache slots' rows ++ rest -> Q (slots', misses', page_rows') own' log') ->
  wp (scan_two todo slots misses page_rows) Q own log.
Proof.
  induction todo as [|row todo IH]; intros rows slots misses page_rows own rest log Q Hrows Hlen [Hm Hp] Hown HQ.
  - apply HQ; [done| |done|done]. rewrite app_nil_r in Hrows. apply (f_equal length) in Hrows. rewrite length_take in Hrows. lia.
  - assert (rows !! length slots = Some row) as Hrow.
    { rewrite Hrows, lookup_app_r; rewrite length_take; [|lia]. by replace (length _ - _)%nat with 0%nat by lia. }
    assert (length slots < length rows)%nat as Hlt by (by apply lookup_lt_Some in Hrow).
    assert (forall x, rows = take (length (slots ++ [x : option positive])) rows ++ todo) as Hnext.
    { intros x. rewrite length_app, Nat.add_1_r. rewrite (take_S_r _ _ _ Hrow), <- (assoc_L (++)). done. }
    cbn [scan_two]. act_step. split; [|intros n]; (apply (IH rows _ _ _ _ rest); [apply Hnext|rewrite length_app; simpl; lia|split|..]).
    + by rewrite none_positions_app, Hm.
    + rewrite missed_app, Hp. unfold missed. csimpl. by rewrite Hrow.
    + by rewrite slot_leases_none.
    + intros slots' misses' page_rows' own' log'' Hl. apply HQ. by etrans.
    + by rewrite none_positions_app, app_nil_r.
    + done.
    + rewrite (slot_leases_some _ _ _ _ row) by done. by rewrite Hown.
    + intros slots' misses' page_rows' own' log'' Hl. apply HQ. by etrans.
Qed.

Lemma missed_sub keys misses (P : Z -> Prop) : Forall P keys -> Forall P (missed keys misses).
Proof.
  intros HP. unfold missed. apply Forall_forall. intros k Hk. apply list_elem_of_omap in Hk as (i & _ & Hi). eapply Forall_lookup_1; [exact HP|exact Hi].
Qed.

Lemma missed_lookup (keys : list Z) misses j : (forall i, i ∈ misses -> is_Some (keys !! i)) -> missed keys misses !! j = misses !! j ≫= fun i => keys !! i.
Proof.
  unfold missed. revert j. induction misses as [|i ms IH]; intros j Hall; [done|]. destruct (Hall i) as [k Hk]; [by left|]. csimpl. rewrite Hk.
  destruct j as [|j]; [done|]. apply IH. intros i' Hi'. apply Hall. by right.
Qed.

Lemma wp_two_submit owner rows own log (Q : result exn positive -> post) : may_take own -> (forall row, locate row = extent_locate extents row) -> Forall (Z.le 0) rows ->
  (forall e own' log', log ⊆ log' -> own' ≡ₚ own -> Q (Err e) own' log') ->
  (forall id own' log', log ⊆ log' -> log' !! id = Some rows -> own' ≡ₚ own -> Q (Ok id) own' log') ->
  wp (two_submit extents source_size owner rows) Q own log.
Proof.
  intros Hmay Htwo Hpos Herr Hok. unfold two_submit. destruct rows as [|row0 rows0]; [by apply Herr|]. set (rows := row0 :: rows0) in *.
  act_step. split; [intros e; by apply Herr|]. intros id Hid. apply wp_seq.
  apply (wp_scan_two rows rows _ _ _ _ (RNew id TwoTierLevel :: own)); [done|simpl; lia|done|done|].
  intros slots misses page_rows own1 log1 Hlog1 Hlen [Hm Hpr] Hown1.
  assert (log ⊆ log1) as Hall by (etrans; [done|]; etrans; [by apply insert_subseteq|done]).
  assert (log1 !! id = Some rows) as Hrows by (eapply lookup_weaken; [apply lookup_insert_eq|done]).
  assert (forall e own2 log2, log1 ⊆ log2 -> own2 ≡ₚ own1 -> wp (release_slots RowCache slots;; act (AKillTicket id);; Ret (Err e)) Q own2 log2) as Hfail.
  { intros e own2 log2 Hlog2 Hown2. apply (wp_give_up _ _ rows _ TwoTierLevel _ _ own); [lia|by rewrite Hown2|]. intros own3 log3 Hlog3. apply Herr. etrans; [done|]. by etrans. }
  set (p := mk_payload slots rows misses []).
  assert (forall pages own2 log2, log1 ⊆ log2 -> own2 ≡ₚ own1 -> Forall (fun row => exists e, locate_global extents row = Ok e) page_rows ->
    match pages with Some t => log2 !! t = Some page_rows | None => page_rows = [] end ->
    wp (act (ASetPayload id p None pages);; Ret (Ok id)) Q own2 log2) as Hset.
  { intros pages own2 log2 Hlog2 Hown2 Hloc Hpages. apply (wp_set_payload TwoTierLevel id rows p None pages _ own); [by rewrite Hown2, Hown1|by eapply lookup_weaken| |].
    - split_and!; [done|done| |done|done|]; change (miss_keys p) with (missed rows misses); rewrite <- Hpr.
      + eapply Forall_impl; [done|]. intros k [e He]. simpl. rewrite Htwo. unfold extent_locate. by rewrite He.
      + destruct pages; [done|]. simpl. destruct misses as [|i ms]; [done|]. rewrite Hpages in Hpr. unfold missed in Hpr. csimpl in Hpr.
        destruct (first_key slots rows i ms) as [k Hk]; [done|done|]. by rewrite Hk in Hpr.
    - intros own3 log3 Hlog3. apply Hok. etrans; [done|]. by etrans. }
  assert (may_take own1) as Hmay1 by (eapply (may_take_more (slot_leases _ _ _ ++ [RNew id TwoTierLevel])); [rewrite <- (assoc_L (++)); exact Hown1|auto with plain|done]).
  apply wp_seq, wp_publish; [by apply take_lock|done|]. intros log2 Hlog2. destruct page_rows as [|pr prs].
  - exists own1. split; [done|]. intros own3 log3 Hlog3 Hown3. apply Hset; [by etrans|done|done|done].
  - apply wp_seq, wp_page_submit; [by apply two_lock|rewrite Hpr; by apply missed_sub|intros e own3 log3 Hlog3 Hown3|intros t own3 log3 Hlog3 Ht Hloc Hown3].
    + exists own1. split; [done|]. intros own4 log4 Hlog4 Hown4. apply Hfail; [|done]. etrans; [done|]. by etrans.
    + exists own1. split; [done|]. intros own4 log4 Hlog4 Hown4. apply Hset; [etrans; [done|]; by etrans|done|done|by eapply lookup_weaken].
Qed.

Lemma wp_admit_copies id o keys misses pages pkeys views todo : forall index slots own rest log (Q : result exn unit * list (option positive) -> post),
  pages_fit -> (forall row, locate row = extent_locate extents row) ->
  RBusy id o ∈ rest -> none_positions slots = drop index misses -> length slots = length keys -> (forall i, i ∈ misses -> is_Some (keys !! i)) ->
  Forall2 (view_ok extents pkeys) (missed keys misses) views -> (index + todo = length views)%nat ->
  (exists rest', staged PageCache pkeys pages rest' rest) -> own ≡ₚ slot_leases RowCache slots keys ++ rest ->
  (forall x slots' own' log', log ⊆ log' -> filled RowCache keys rest x slots' own' -> Q (x, slots') own' log') ->
  wp (admit_copies id keys misses pages views index todo slots) Q own log.
Proof.
  induction todo as [|todo IH]; intros index slots own rest log Q Hfit Htwo Hbusy Hm Hlen Hin Hviews Hidx Hst Hown HQ.
  - apply HQ; [done|]. split_and!; [done|done|]. intros _. rewrite Hm. apply drop_ge. apply Forall2_length in Hviews.
    enough (length misses = length (missed keys misses)) by lia. clear -Hin. unfold missed. induction misses as [|i ms IHm]; [done|].
    destruct (Hin i) as [k Hk]; [by left|]. csimpl. rewrite Hk. simpl. f_equal. apply IHm. intros j Hj. apply Hin. by right.
  - destruct (lookup_lt_is_Some_2 views index ltac:(lia)) as [v Hv]. destruct (Forall2_lookup_r _ _ _ _ _ Hviews Hv) as (row & Hrow & Hvok).
    rewrite missed_lookup in Hrow by done. destruct (misses !! index) as [pos|] eqn:Hpos; [|done]. simpl in Hrow.
    assert (none_positions slots = pos :: drop (S index) misses) as Hm' by (by rewrite Hm, (drop_S _ _ _ Hpos)).
    assert (forall x own' log', log ⊆ log' -> own' ≡ₚ own -> x <> Ok tt -> Q (x, slots) own' log') as Hstop.
    { intros x own' log' Hlog Hp Hx. apply HQ; [done|]. split_and!; [done|by rewrite Hp|done]. }
    cbn [admit_copies]. act_step. split; [exists o; rewrite Hown; set_solver|]. intros []; [by apply Hstop|]. apply wp_seq.
    destruct Hst as (rest' & Hst). eapply (wp_copy_quantized pkeys pages views index row v (slot_leases RowCache slots keys ++ rest')); [done| |done|done|].
    { destruct Hst as (? & ? & Hr). split_and!; [done|done|]. rewrite Hown, Hr. solve_Permutation. }
    intros bytes log1 Hlog1 Hbytes. rewrite Hpos. change (default 0%nat (Some pos)) with pos. act_step. rewrite Hrow. change (default 0 (Some row)) with row.
    assert (log ⊆ log'0) by (etrans; [done|]; by etrans).
    split_and!; [destruct Hbytes as (s & Hs & ? & ->); exists s; by rewrite Htwo|intros e; by apply Hstop|intros n].
    destruct (fill_slot RowCache slots keys pos _ n row own rest Hm' Hrow Hown) as [Hm'' Hown'].
    apply (IH (S index) _ _ rest); [done|done|done|done|by rewrite length_insert|done|done|lia|by exists rest'|done|]. intros x slots' own' log'' Hlog''. apply HQ. by etrans.
Qed.

Lemma wp_two_get id own log (Q : result exn (list (option positive)) -> post) : may_take own -> pages_fit -> (forall row, locate row = extent_locate extents row) ->
  (forall e own' log', log ⊆ log' -> own' ≡ₚ own -> Q (Err e) own' log') ->
  (forall rows slots own' log', log ⊆ log' -> log' !! id = Some rows -> staged RowCache rows slots own own' -> Q (Ok slots) own' log') ->
  wp (two_get id) Q own log.
Proof.
  intros Hmay Hfit Htwo Herr Hok. unfold two_get. act_step. split_and!; [by apply take_begin|intros e; by apply Herr|]. intros rows p reads pages Hid (Hlen & Hm & _ & Hkeys & -> & Hpages). cbn zeta.
  cbn [reads_own cache_for]. change ([] ++ own) with own. rewrite Hkeys in *.
  assert (forall x slots own1 log1, log' ⊆ log1 -> filled RowCache rows (RBusy id (TwoTierLevel, None) :: own) x slots own1 -> wp (end_get RowCache id x slots) Q own1 log1) as Hend.
  { intros x slots own1 log1 Hlog1 (Hl1 & Hown1 & Hx). apply (wp_end_get _ _ (TwoTierLevel, None) rows _ _ _ own); [lia|rewrite Hown1; simpl; solve_Permutation|..].
    - intros e own2 log2 Hlog2. apply Herr. etrans; [done|]. by etrans.
    - intros own2 log2 Hlog2 -> Hown2. apply (Hok rows); [etrans; [done|]; by etrans|eapply lookup_weaken; [done|]; by etrans|]. by split_and!; [|apply Hx|]. }
  destruct pages as [t|].
  - apply wp_seq, wp_page_get; [|intros e own1 log1 Hlog1 Hown1|].
    + eapply (may_begin_more _ (slot_leases RowCache (p_slots p) rows)); [|auto with plain|by eapply (two_begin id None own)]. solve_Permutation.
    + apply Hend; [done|]. split_and!; [done|rewrite Hown1; solve_Permutation|done].
    + intros rows' pkeys pslots views own1 log1 Hlog1 Ht Hviews Hst. pose proof Hst as (Hpl & Hpn & Hown1).
      assert (rows' = miss_keys p) as -> by (pose proof (lookup_weaken _ _ _ _ Hpages Hlog1); congruence). set (held := slot_leases PageCache pslots pkeys) in *.
      assert (forall x slots own2 log2, log1 ⊆ log2 -> filled RowCache rows (held ++ RBusy id (TwoTierLevel, None) :: own) x slots own2 ->
        wp (release_slots PageCache pslots;; end_get RowCache id x slots) Q own2 log2) as Hdrop.
      { intros x slots own2 log2 Hlog2 (Hl2 & Hown2 & Hx).
        apply wp_seq, (wp_release_slots _ _ pkeys _ (slot_leases RowCache slots rows ++ RBusy id (TwoTierLevel, None) :: own)); [lia|rewrite Hown2; fold held; solve_Permutation|].
        intros own3 log3 Hlog3 Hown3. apply Hend; [etrans; [done|]; by etrans|]. by split_and!. }
      assert (own1 ≡ₚ slot_leases RowCache (p_slots p) rows ++ held ++ RBusy id (TwoTierLevel, None) :: own) as Hp by (rewrite Hown1; solve_Permutation).
      apply wp_seq. destruct (length views =? length (p_misses p))%nat; simpl negb; cbv iota; [|by apply Hdrop].
      apply (wp_admit_copies id (TwoTierLevel, None) rows _ _ pkeys _ _ _ _ _ (held ++ RBusy id (TwoTierLevel, None) :: own)); [done|done|set_solver|by rewrite <- Hm|done| | |done| |done|].
      * intros i Hi. rewrite Hm in Hi. apply none_positions_elem, lookup_lt_Some in Hi. apply lookup_lt_is_Some. lia.
      * unfold miss_keys in Hviews. rewrite Hkeys in Hviews. exact Hviews.
      * exists (RBusy id (TwoTierLevel, None) :: own). by split_and!.
      * intros x slots own2 log2 Hlog2. by apply Hdrop.
  - apply Hend; [done|]. split_and!; [done|simpl; solve_Permutation|]. intros _. by rewrite <- Hm.
Qed.

(** ** Cancellation and the end of tickets *)

Lemma wp_cancel_simple id own log (Q : unit -> post) : (forall log', log ⊆ log' -> Q tt own log') -> wp (cancel_simple id) Q own log.
Proof.
  intros HQ. unfold cancel_simple. act_step. intros [[t|] ?]; [|by apply HQ]. apply wp_act. intros log'' Hlog'. apply HQ. by etrans.
Qed.

Lemma wp_two_cancel id own log (Q : unit -> post) : (forall log', log ⊆ log' -> Q tt own log') -> wp (two_cancel id) Q own log.
Proof.
  intros HQ. unfold two_cancel. act_step. intros [? [t|]]; [|by apply HQ]. apply wp_cancel_simple. intros log'' Hlog'. apply HQ. by etrans.
Qed.

Lemma wp_row_cancel_owner owner own log (Q : Z -> post) : may_lock RowLevel own -> (forall n own' log', log ⊆ log' -> own' ≡ₚ own -> Q n own' log') -> wp (row_cancel_owner owner) Q own log.
Proof.
  intros Hmay HQ. unfold row_cancel_owner. act_step. split; [done|]. act_step. intros n. act_step. act_step. exists own. split; [done|]. apply HQ; [|done].
  etrans; [done|]. etrans; [done|]. by etrans.
Qed.

Lemma wp_page_cancel_owner owner own log (Q : Z -> post) : may_lock PageLevel own -> (forall n own' log', log ⊆ log' -> own' ≡ₚ own -> Q n own' log') -> wp (page_cancel_owner owner) Q own log.
Proof.
  intros Hmay HQ. unfold page_cancel_owner. act_step. split; [done|]. act_step. intros n. act_step. act_step. exists own. split; [done|]. apply HQ; [|done].
  etrans; [done|]. etrans; [done|]. by etrans.
Qed.

Lemma wp_two_cancel_owner owner own log (Q : Z -> post) : may_take own -> (forall n own' log', log ⊆ log' -> own' ≡ₚ own -> Q n own' log') -> wp (two_cancel_owner owner) Q own log.
Proof.
  intros Hmay HQ. unfold two_cancel_owner. act_step. split; [by apply take_lock|]. act_step. intros n. apply wp_seq, wp_page_cancel_owner; [by apply two_lock|]. intros m own' log'' Hl Hp. act_step. exists own. split; [done|].
  apply HQ; [|done]. etrans; [done|]. etrans; [done|]. by etrans.
Qed.

Lemma wp_drop_simple l id own log (Q : unit -> post) : l <> TwoTierLevel -> may_take own -> (forall own' log', log ⊆ log' -> own' ≡ₚ own -> Q tt own' log') ->
  wp (drop_simple l (cache_for l) id) Q own log.
Proof.
  intros Hl Hmay HQ. unfold drop_simple. act_step. split_and!; [done|by apply HQ|]. intros tk [p Hp] Hlevel Hbusy [Hlist _]. specialize (Hlist p Hp). unfold ticket_own, reads_of. rewrite Hp, Hbusy, Hlevel. apply wp_seq.
  assert (forall own1 log1, log' ⊆ log1 -> own1 ≡ₚ slot_leases (cache_for l) (p_slots p) (p_keys p) ++ own -> wp (release_slots (cache_for l) (p_slots p)) Q own1 log1) as Hrel.
  { intros own1 log1 Hlog1 Hown1. apply (wp_release_slots _ _ (p_keys p) _ own); [done|done|]. intros own2 log2 Hlog2. apply HQ. etrans; [done|]. by etrans. }
  destruct (st_reads tk) as [t|]; [|apply Hrel; [done|by rewrite app_nil_r]].
  apply wp_act. intros log1 Hlog1. cbn [atom_spec]. eexists _, (slot_leases (cache_for l) (p_slots p) (p_keys p) ++ own).
  split; [|by apply Hrel]. cbn [reads_own]. solve_Permutation.
Qed.

Lemma wp_two_drop id own log (Q : unit -> post) : may_take own -> (forall own' log', log ⊆ log' -> own' ≡ₚ own -> Q tt own' log') -> wp (two_drop id) Q own log.
Proof.
  intros Hmay HQ. unfold two_drop. act_step. split_and!; [done|by apply HQ|]. intros tk [p Hp] Hlevel Hbusy [Hlist Hreads]. specialize (Hlist p Hp).
  unfold ticket_own, reads_of. rewrite Hp, Hbusy, Hlevel, (Hreads Hlevel). cbn [reads_own cache_for]. rewrite app_nil_r. apply wp_seq.
  assert (forall own1 log1, log' ⊆ log1 -> own1 ≡ₚ slot_leases RowCache (p_slots p) (p_keys p) ++ own -> wp (release_slots RowCache (p_slots p)) Q own1 log1) as Hrel.
  { intros own1 log1 Hlog1 Hown1. apply (wp_release_slots _ _ (p_keys p) _ own); [done|done|]. intros own2 log2 Hlog2. apply HQ. etrans; [done|]. by etrans. }
  destruct (st_pages tk) as [t|]; [|by apply Hrel]. apply (wp_drop_simple PageLevel); [done|eapply may_take_more; [done|auto with plain|done]|]. intros own1 log1 Hlog1 Hown1. by apply Hrel.
Qed.

(** ** Calls *)

Lemma wp_read_rows slots : forall keys own log (Q : list (list Z) -> post), length slots = length keys ->
  (forall i k, keys !! i = Some k -> exists n, slots !! i = Some (Some n) /\ RLease RowCache n k ∈ own) ->
  (forall bytes log', log ⊆ log' -> Forall2 (right locate data RowCache) keys bytes -> Q bytes own log') -> wp (read_rows slots) Q own log.
Proof.
  induction slots as [|slot slots IH]; intros [|k keys] own log Q Hlen Hown HQ; try discriminate Hlen; [by apply HQ|]. injection Hlen as Hlen. cbn [read_rows].
  destruct (Hown 0%nat k eq_refl) as (n & [= ->] & Hin). act_step. exists n, k. split_and!; [done|done|]. intros d Hd. apply wp_seq.
  apply (IH keys); [done|intros i k' Hk'; by apply (Hown (S i))|]. intros bytes log1 Hlog1 Hb. apply HQ; [by etrans|by constructor].
Qed.

Lemma wp_stage_rows id (get : prog (result exn (list (option positive)))) own log (Q : result exn (list (list Z)) -> post) :
  (forall Q' : result exn (list (option positive)) -> post, (forall e own' log', log ⊆ log' -> own' ≡ₚ own -> Q' (Err e) own' log') ->
    (forall rows slots own' log', log ⊆ log' -> log' !! id = Some rows -> staged RowCache rows slots own own' -> Q' (Ok slots) own' log') -> wp get Q' own log) ->
  (forall e own' log', log ⊆ log' -> own' ≡ₚ own -> Q (Err e) own' log') ->
  (forall rows bytes own' log', log ⊆ log' -> log' !! id = Some rows -> Forall2 (right locate data RowCache) rows bytes -> own' ≡ₚ own -> Q (Ok bytes) own' log') ->
  wp (stage_rows get) Q own log.
Proof.
  intros Hget Herr Hok. unfold stage_rows. apply wp_seq, Hget; [done|]. intros rows slots own1 log1 Hlog1 Hid Hst. pose proof Hst as (Hlen & _ & Hown1).
  apply wp_seq, (wp_read_rows _ rows); [done|intros i k; by apply (staged_peek RowCache rows slots own own1)|]. intros bytes log2 Hlog2 Hb.
  apply wp_seq, (wp_release_slots _ _ rows _ own); [lia|done|]. intros own3 log3 Hlog3 Hown3. apply (Hok rows); [etrans; [done|]; by etrans| |done|done].
  eapply lookup_weaken; [done|]. by etrans.
Qed.

Lemma wp_copy_rows keys slots views todo : forall index rows own rest log (Q : result exn (list (list Z)) -> post), pages_fit ->
  staged PageCache keys slots rest own -> (index + todo = length views)%nat -> Forall2 (view_ok extents keys) rows (drop index views) ->
  (forall bytes log', log ⊆ log' -> Forall2 (right (extent_locate extents) data RowCache) rows bytes -> Q (Ok bytes) own log') ->
  wp (copy_rows slots views index todo) Q own log.
Proof.
  induction todo as [|todo IH]; intros index rows own rest log Q Hfit Hst Hidx Hv HQ.
  - apply HQ; [done|]. rewrite drop_ge in Hv by lia. by apply Forall2_nil_inv_r in Hv as ->.
  - destruct (lookup_lt_is_Some_2 views index ltac:(lia)) as [v Hvi]. rewrite (drop_S _ _ _ Hvi) in Hv. apply Forall2_cons_inv_r in Hv as (row & rows' & Hrow & Hv & ->).
    cbn [copy_rows]. apply wp_seq. eapply (wp_copy_quantized keys slots views index row v); [done|done|done|done|]. intros bytes log1 Hlog1 Hb.
    apply wp_seq, (IH (S index) rows' _ rest); [done|done|lia|done|]. intros more log2 Hlog2 Hmore. apply HQ; [by etrans|by constructor].
Qed.

Lemma wp_stage_pages id own log (Q : result exn (list (list Z)) -> post) : may_begin PageLevel own -> pages_fit ->
  (forall e own' log', log ⊆ log' -> own' ≡ₚ own -> Q (Err e) own' log') ->
  (forall rows bytes own' log', log ⊆ log' -> log' !! id = Some rows -> Forall2 (right (extent_locate extents) data RowCache) rows bytes -> own' ≡ₚ own -> Q (Ok bytes) own' log') ->
  wp (stage_pages id) Q own log.
Proof.
  intros Hmay Hfit Herr Hok. unfold stage_pages. apply wp_seq, wp_page_get; [done|done|]. intros rows keys slots views own1 log1 Hlog1 Hid Hv Hst. pose proof Hst as (Hlen & _ & Hown1).
  apply wp_seq, (wp_copy_rows keys _ _ _ _ rows _ own); [done|done|done|done|]. intros bytes log2 Hlog2 Hb.
  apply wp_seq, (wp_release_slots _ _ keys _ own); [lia|done|]. intros own3 log3 Hlog3 Hown3. apply (Hok rows); [etrans; [done|]; by etrans| |done|done].
  eapply lookup_weaken; [done|]. by etrans.
Qed.

(** The contract of a store that reads pages. *)
Definition level_ok (l : store_level) : Prop :=
  match l with RowLevel => True | _ => pages_fit /\ forall row, locate row = extent_locate extents row end.
Definition call_typed (c : store_call) : Prop := match c with CallSubmit _ rows => Forall u64 rows | _ => True end.

(** A ticket stands for the rows it was made for, and staged rows are the bytes of the source. *)
Definition reply_ok (c : store_call) (r : store_reply) (log : gmap positive (list Z)) : Prop :=
  match c, r with
  | CallSubmit _ rows, ReplyTicket (Ok id) => log !! id = Some rows
  | CallStage id, ReplyRows (Ok bytes) => exists rows, log !! id = Some rows /\ Forall2 (right locate data RowCache) rows bytes
  | CallSubmit _ _, ReplyTicket (Err _) | CallStage _, ReplyRows (Err _) | CallCancelOwner _, ReplyCount _ | CallCancel _, ReplyDone | CallDrop _, ReplyDone => True
  | _, _ => False
  end.

Lemma rows_right rows bytes : (forall row, locate row = extent_locate extents row) ->
  Forall2 (right (extent_locate extents) data RowCache) rows bytes -> Forall2 (right locate data RowCache) rows bytes.
Proof. intros Htwo Hr. eapply Forall2_impl; [done|]. intros row b (s & Hs & ? & ->). exists s. by rewrite Htwo. Qed.

Theorem wp_store_call l c own log : may_take own -> level_ok l -> call_typed c ->
  wp (call_prog locate extents source_size l c) (fun r own' log' => own' ≡ₚ own /\ reply_ok c r log') own log.
Proof.
  intros Hmay Hl Hc. destruct c as [owner rows|id|id|owner|id]; cbn [call_prog call_typed] in *; apply wp_seq.
  - assert (Forall (Z.le 0) rows) as Hpos by (eapply Forall_impl; [done|]; unfold u64; lia).
    destruct l; [apply wp_row_submit|apply wp_page_submit|apply wp_two_submit]; try done; try (by apply take_lock); by apply Hl.
  - destruct l.
    + apply (wp_stage_rows id); [intros Q' He Ho; apply wp_row_get; [by apply take_begin|done|done]|done|]. intros rows bytes own' log' Hlog Hid Hb Hp. split; [done|]. by exists rows.
    + destruct Hl as [Hfit Htwo]. apply wp_stage_pages; [by apply take_begin|done|done|]. intros rows bytes own' log' Hlog Hid Hb Hp. split; [done|]. exists rows. split; [done|]. by apply rows_right.
    + destruct Hl as [Hfit Htwo]. apply (wp_stage_rows id); [intros Q' He Ho; by apply wp_two_get|done|].
      intros rows bytes own' log' Hlog Hid Hb Hp. split; [done|]. by exists rows.
  - destruct l; [apply wp_cancel_simple|apply wp_cancel_simple|apply wp_two_cancel]; by intros log' Hlog.
  - destruct l; [apply wp_row_cancel_owner|apply wp_page_cancel_owner|apply wp_two_cancel_owner]; try (by apply take_lock); try done; by intros n own' log' Hlog Hp.
  - destruct l; [apply (wp_drop_simple RowLevel)|apply (wp_drop_simple PageLevel)|apply wp_two_drop]; try done.
Qed.
End specs.
