(* ===== verification/PleStoresSystem.v ===== *)
(** * The stores: threads

    [pool_ok] ties the threads of a store to its world: each thread owns what
    its program needs, and every reply so far was right.  It holds at the start
    and every step keeps it.  Threads that wait do so in one order, from the
    two-tier store to the pages to the reader, so that one of them can always go
    on; and what a thread has left to do gets shorter. *)

From S2P Require Import Prelude ExpertDescriptor PleHash BlockCache AsyncReader AsyncReaderInv AsyncReaderSteps AsyncReaderSubmit AsyncReaderTheorems PleStores PleStoresLogic PleStoresSpecs.
From stdpp Require Import strings.
Open Scope string_scope.
Open Scope list_scope.
Open Scope Z_scope.

(** No allocation fails. *)
Definition no_store_faults : store_faults := mk_store_faults false NoFault None.

(** What a store is made of: its kind, its locator, its index and the size of its
    rows.  A row store with a fixed layout is one that its factory accepts.  The
    paged stores are restricted by [pages_fit] beyond what their constructors
    check; [page_store_pads_short_rows] and [page_store_trusts_the_page_size] show
    what the code does outside the restriction. *)
Inductive store_setup (data : list Z) : store_level -> (Z -> result exn read_span) -> extent_index -> Z -> Prop :=
| rows_by_extent x : u64 (xi_row_size x) -> store_setup data RowLevel (extent_locate x) x (Z.of_nat ple_quantized_row_size)
| rows_by_layout layout locate x : u64 (fl_data_offset layout) -> u64 (fl_row_count layout) -> u64 (fl_row_bytes layout) ->
    make_fixed_store (Z.of_nat (length data)) layout = Ok locate -> store_setup data RowLevel locate x (fl_row_bytes layout)
| pages_by_extent x : u64 (xi_row_size x) -> pages_fit x data -> store_setup data PageLevel (extent_locate x) x (Z.of_nat ple_quantized_row_size)
| two_by_extent x : u64 (xi_row_size x) -> pages_fit x data -> store_setup data TwoTierLevel (extent_locate x) x (Z.of_nat ple_quantized_row_size).

Definition pool_op_typed (op : pool_op) : Prop := match op with Spawn c => call_typed c | _ => True end.

Lemma extent_locate_typed x row s : u64 (xi_row_size x) -> extent_locate x row = Ok s -> span_typed s.
Proof.
  intros Hr. unfold extent_locate, locate_global. destruct (row >=? xi_row_count x); [done|]. intros [= <-]. split; simpl; [apply wrap64_u64|done].
Qed.

Lemma setup_locate data l locate x row_bytes row s : store_setup data l locate x row_bytes -> locate row = Ok s -> span_typed s.
Proof.
  intros Hs. destruct Hs as [x Hx|layout locate x _ _ Hb Hm|x Hx _|x Hx _]; [by apply extent_locate_typed| |by apply extent_locate_typed..].
  unfold make_fixed_store in Hm. destruct (_ || _); [done|]. injection Hm as <-. unfold fixed_locate. destruct (row >=? _); [done|].
  intros [= <-]. split; simpl; [apply wrap64_u64|done].
Qed.

Lemma setup_level data l locate x row_bytes : store_setup data l locate x row_bytes -> level_ok locate x data l.
Proof. by destruct 1. Qed.

Section system.
Context `{NodeSize, ReaderSizes}.
Context (Hnode : 0 <= node_bytes) `{!ReaderSizesOk}.

Section invariant.
Context (locate : Z -> result exn read_span) (extents : extent_index) (data : list Z) (l : store_level).
Context (Hlocate : forall row s, locate row = Ok s -> span_typed s) (Hlevel : level_ok locate extents data l).
Abbreviation code := (call_prog locate extents (Z.of_nat (length data)) l).
Abbreviation replies := (list (store_call * store_reply)).

Definition reply_right (log : gmap positive (list Z)) (ev : store_call * store_reply) : Prop := reply_ok locate data ev.1 ev.2 log.
Definition thread_ok (log : gmap positive (list Z)) (th : store_call * prog store_reply) (own : list resource) : Prop :=
  wp locate extents data th.2 (fun r own' log' => own' ≡ₚ [] /\ reply_ok locate data th.1 r log') own log.

Definition pool_ok (evs : replies) (p : pool) : Prop :=
  exists owns, Forall2 (thread_ok (w_log (pl_world p))) (pl_threads p) owns /\ world_inv locate extents data (pl_world p) (mjoin owns) /\
    Forall (reply_right (w_log (pl_world p))) evs.

Lemma reply_ok_log c r log log' : log ⊆ log' -> reply_ok locate data c r log -> reply_ok locate data c r log'.
Proof.
  intros Hl. destruct c, r as [[]|[]| |]; simpl; try done; [by intros; eapply lookup_weaken|]. intros (rows & Hid & Hr). exists rows. split; [by eapply lookup_weaken|done].
Qed.

Lemma thread_ok_log log log' th own : log ⊆ log' -> thread_ok log th own -> thread_ok log' th own.
Proof. intros Hl. apply wp_log; [|done]. intros r own' log1 log2 Hl' [? ?]. split; [done|]. by eapply reply_ok_log. Qed.

Lemma mjoin_split (owns : list (list resource)) i own : owns !! i = Some own -> mjoin owns ≡ₚ own ++ mjoin (delete i owns).
Proof. intros Hi. rewrite <- (take_drop_middle owns i own Hi) at 1. rewrite delete_take_drop, !join_app. simpl. solve_Permutation. Qed.

Lemma mjoin_insert (owns : list (list resource)) i own own' : owns !! i = Some own -> mjoin (<[i := own']> owns) ≡ₚ own' ++ mjoin (delete i owns).
Proof.
  intros Hi. rewrite (insert_take_drop owns i own') by (by eapply lookup_lt_Some). rewrite delete_take_drop, !join_app. simpl. solve_Permutation.
Qed.

Lemma pool_step_ok evs p op : pool_ok evs p -> pool_op_typed op ->
  exists new p', pool_step code op p = Some (new, p') /\ pool_ok (evs ++ new) p'.
Proof.
  intros (owns & Hth & Hw & Hevs) Hty. destruct op as [c|i f|i f]; cbn [pool_step].
  - eexists [], _. split; [done|]. rewrite app_nil_r. exists (owns ++ [[]]). cbn [pl_world pl_threads]. split_and!; [|by rewrite join_app, app_nil_r|done].
    apply Forall2_app; [done|]. constructor; [|done]. apply wp_store_call; try done. split; [by intros l' ?%elem_of_nil|by intros id o ?%elem_of_nil].
  - destruct (pl_threads p !! i) as [[c pr]|] eqn:Hi; [|eexists [], p; split; [done|]; rewrite app_nil_r; by exists owns].
    destruct (Forall2_lookup_l _ _ _ _ _ Hth Hi) as (own & Hown & Hwp). destruct pr as [r|X a k].
    + destruct Hwp as [Hnil Hr]. eexists _, _. split; [done|]. exists (delete i owns). cbn [pl_world pl_threads]. split_and!.
      * by apply Forall2_delete.
      * pose proof (mjoin_split owns i own Hown) as Hp. rewrite Hnil in Hp. eapply world_inv_perm; [|exact Hw]. by rewrite Hp.
      * apply Forall_app. split; [done|]. by constructor.
    + assert (world_inv locate extents data (pl_world p) (own ++ mjoin (delete i owns))) as Hw' by (eapply world_inv_perm; [|exact Hw]; by rewrite <- mjoin_split).
      destruct (exec_sound locate extents data Hnode f a _ own _ _ Hw' (Hwp _ ltac:(done))) as (o & Ho & Hres). rewrite Ho. simpl.
      destruct o as [[x w']|]; [|eexists [], p; split; [done|]; rewrite app_nil_r; by exists owns].
      destruct Hres as (own' & HK & Hinv & Hlog). eexists [], _. split; [done|]. rewrite app_nil_r. exists (<[i := own']> owns). cbn [pl_world pl_threads]. split_and!.
      * apply Forall2_insert; [|done]. eapply Forall2_impl; [done|]. intros th o. by apply thread_ok_log.
      * eapply world_inv_perm; [|exact Hinv]. by rewrite mjoin_insert.
      * eapply Forall_impl; [done|]. intros ev. by apply reply_ok_log.
  - destruct (sound_worker locate extents data (pl_world p) _ i f Hw) as (o & Ho & Hres). rewrite Ho. simpl.
    destruct o as [r'|]; [|eexists [], p; split; [done|]; rewrite app_nil_r; by exists owns].
    eexists [], _. split; [done|]. rewrite app_nil_r. exists owns. by split_and!.
Qed.

Lemma run_pool_ok ops : forall evs p, pool_ok evs p -> Forall pool_op_typed ops ->
  exists new p', run_pool code ops p = Some (new, p') /\ pool_ok (evs ++ new) p'.
Proof.
  induction ops as [|op ops IH]; intros evs p Hp Hty; [exists [], p; by rewrite app_nil_r|]. apply Forall_cons in Hty as [Hop Hty].
  destruct (pool_step_ok evs p op Hp Hop) as (new & p1 & Hs & Hp1). destruct (IH _ p1 Hp1 Hty) as (more & p2 & Hr & Hp2).
  exists (new ++ more), p2. cbn [run_pool]. rewrite Hs. simpl. rewrite Hr. simpl. split; [done|]. by rewrite (assoc_L (++)).
Qed.

(** ** Waiting *)

(** What a thread can wait for when no read is left. *)
Inductive obstacle := OLock (l : store_level) | OBusy (id : positive) (l : store_level).
Definition obstacle_level (ob : obstacle) : store_level := match ob with OLock l | OBusy _ l => l end.
Definition present (ob : obstacle) (w : world) : Prop :=
  match ob with
  | OLock l => ot_locked (owners_of l w) = true
  | OBusy id l => exists t, w_tickets w !! id = Some t /\ st_busy t = true /\ st_level t = l
  end.
Definition holds (own : list resource) (ob : obstacle) : Prop :=
  match ob with OLock l => RLock l ∈ own | OBusy id l => exists o, RBusy id (l, o) ∈ own end.
Definition may_wait (ob : obstacle) (own : list resource) : Prop :=
  match ob with OLock l => may_lock l own | OBusy _ l => may_begin l own end.

(** A thread that holds something and waits is on its way from the two-tier store to the pages. *)
Lemma holder_waits own ob ob' : holds own ob -> may_wait ob' own -> obstacle_level ob = TwoTierLevel /\ obstacle_level ob' = PageLevel.
Proof.
  destruct ob as [l1|id1 l1], ob' as [l2|id2 l2]; simpl.
  - intros Hin [Hl _]. by apply Hl.
  - intros Hin [Hl _]. by apply Hl in Hin.
  - intros [o Hin] [_ Hb]. by apply Hb in Hin.
  - intros [o Hin] [_ Hb]. by apply (Hb id1 (l1, o)).
Qed.

Lemma tickets_own_unlocked m l' : RLock l' ∉ tickets_own locate data m.
Proof.
  unfold tickets_own. rewrite list_elem_of_join. intros (o & Hx & Hl). apply list_elem_of_fmap in Hl as (t & -> & _).
  unfold ticket_own in Hx. destruct (st_payload t) as [p|]; [|by apply elem_of_nil in Hx]. destruct (st_busy t); [by apply elem_of_nil in Hx|].
  apply elem_of_app in Hx as [Hx|Hx]; [pose proof (slot_leases_plain (cache_for (st_level t)) (p_slots p) (p_keys p)) as Hp|pose proof (reads_own_plain (reads_of locate data t)) as Hp];
    rewrite Forall_forall in Hp; by apply Hp in Hx.
Qed.

Lemma obstacle_holder w owns ob : world_inv locate extents data w (mjoin owns) -> present ob w -> exists j own, owns !! j = Some own /\ holds own ob.
Proof.
  intros Hw Hp. enough (exists own, own ∈ owns /\ holds own ob) as (own & Hin & Hh) by (apply list_elem_of_lookup in Hin as [j Hj]; by exists j, own).
  destruct ob as [l1|id l1]; simpl in *.
  - apply (wo_locks _ _ _ _ _ Hw) in Hp. apply locks_in_elem in Hp. apply elem_of_app in Hp as [Hp|Hp]; [|by apply tickets_own_unlocked in Hp].
    apply list_elem_of_join in Hp as (own & ? & ?). by exists own.
  - destruct Hp as (t & Ht & Hb & Hl). pose proof (inv_marked _ _ _ _ _ Hw id t Ht Hb) as Hin. apply busy_in_elem in Hin as [o Hin].
    destruct (proj2 (inv_busy _ _ _ Hnode _ _ Hw) id o Hin) as (u & Hu & _ & _ & Hmark & _). simplify_eq. apply list_elem_of_join in Hin as (own & Hin & Hown).
    exists own. split; [done|]. by exists (reads_of locate data t).
Qed.

(** Without a read in flight an action waits only for a lock or a ticket in use. *)
Lemma wait_reason {X} f (a : atom X) w own rest K : world_inv locate extents data w (own ++ rest) -> at_rest (w_reader w) ->
  atom_spec locate extents data a own (w_log w) K -> exec_atom f a w = Some None -> exists ob, present ob w /\ may_wait ob own.
Proof.
  intros Hw Hrest HK He. destruct a; cbn [exec_atom] in He; try discriminate He.
  - exfalso. unfold on_cache in He. by destruct (block_step _ _) as [[? ?]|].
  - exfalso. unfold on_cache in He. by destruct (block_step _ _) as [[? ?]|].
  - exfalso. unfold on_cache in He. by destruct (block_step _ _) as [[? ?]|].
  - exfalso. destruct slot as [n|]; [|done]. simpl in He. by destruct (leases _ !! n).
  - exfalso. by destruct (AsyncReader.submit _ _ _ _ _) as [[? ?]|].
  - exfalso. by destruct (tickets _ !! t).
  - exfalso. by destruct (tickets _ !! t).
  - exfalso. destruct HK as (spans & s & Hin & Hs & _). destruct (wo_reads_of _ _ _ _ _ Hw t spans) as (tk & Htk & Hf); [rewrite !elem_of_app; by left; left|].
    pose proof (wo_reader _ _ _ _ _ Hw) as (Hr & Hex & _). destruct (rest_quiet _ Hr Hex Hrest) as [Hlive _].
    destruct (Forall2_lookup_l _ _ _ _ _ Hf Hs) as (id & Hid & c & Hc & _). destruct (ro_dead _ Hr id c Hc) as [[_ Hset] _]; [rewrite Hlive; by intros ?%elem_of_nil|].
    unfold await in He. rewrite Htk in He. simpl in He. rewrite Hid in He. simpl in He. rewrite Hc in He. simpl in He. destruct (c_result c) as [[]|]; done.
  - exfalso. by destruct (drop_held _ _).
  - exfalso. by destruct (drop_ticket _ _).
  - exfalso. by destruct (sf_fails f).
  - destruct HK as (Hmay & _). injection He as He. unfold begin_get in He. destruct (w_tickets w !! id) as [t|] eqn:Ht; [|done]. destruct (st_payload t); [|done].
    case_bool_decide as Hl; simpl in He; [|done]. destruct (st_busy t) eqn:Hb; [|by destruct (st_consumed t), (st_cancelled t)].
    exists (OBusy id l0). split; [by exists t|done].
  - exfalso. by destruct (w_tickets w !! id).
  - destruct HK as (Hmay & _). destruct (w_tickets w !! id) as [t|] eqn:Ht; [|done]. destruct (_ && _) eqn:Eb; [|done]. apply andb_prop in Eb as [Hl _]. apply bool_decide_eq_true in Hl.
    destruct (st_busy t) eqn:Hb; [|done]. exists (OBusy id l0). split; [by exists t|]. by apply take_begin.
  - destruct HK as (Hmay & _). destruct (ot_locked (owners_of l0 w)) eqn:El; [|done]. by exists (OLock l0).
  - exfalso. by destruct (register_ticket _ _ _ _ _).
  - exfalso. destruct (_ !! owner); [|done]. by destruct (cancel_flags _ _).
Qed.

(** ** Threads get shorter *)

Definition shrinks (ths' ths : list (store_call * prog store_reply)) : Prop :=
  exists i c p, ths !! i = Some (c, p) /\ match p with Ret _ => ths' = delete i ths | Do _ k => exists x, ths' = <[i := (c, k x)]> ths end.

Lemma shrinks_cons c pr : forall ths, Acc shrinks ths -> Acc shrinks ((c, pr) :: ths).
Proof.
  induction pr as [r|X a k IHk]; intros ths Hacc; induction Hacc as [ths Hths IH]; constructor; intros ths' ([|i] & c' & p & Hi & Hs); simpl in Hi.
  - injection Hi as <- <-. rewrite Hs. by constructor.
  - assert (exists ths1, ths' = (c, Ret r) :: ths1 /\ shrinks ths1 ths) as (ths1 & -> & Hsh); [|by apply IH].
    destruct p as [r'|X a k]; [exists (delete i ths); split; [done|by exists i, c', (Ret r')]|]. destruct Hs as [x ->]. exists (<[i := (c', k x)]> ths).
    split; [done|]. exists i, c', (Do a k). split; [done|by exists x].
  - injection Hi as <- <-. destruct Hs as [x ->]. apply IHk. by constructor.
  - assert (exists ths1, ths' = (c, Do a k) :: ths1 /\ shrinks ths1 ths) as (ths1 & -> & Hsh); [|by apply IH].
    destruct p as [r'|X' a' k']; [exists (delete i ths); split; [done|by exists i, c', (Ret r')]|]. destruct Hs as [x ->]. exists (<[i := (c', k' x)]> ths).
    split; [done|]. exists i, c', (Do a' k'). split; [done|by exists x].
Qed.

Lemma shrinks_wf : well_founded shrinks.
Proof.
  intros ths. induction ths as [|[c p] ths IH]; [|by apply shrinks_cons]. constructor. by intros ths' (i & c & p & Hi & _).
Qed.

(** ** Progress *)

Lemma step_or_wait evs p owns i c pr : Forall2 (thread_ok (w_log (pl_world p))) (pl_threads p) owns -> world_inv locate extents data (pl_world p) (mjoin owns) ->
  at_rest (w_reader (pl_world p)) -> pl_threads p !! i = Some (c, pr) -> pool_ok evs p ->
  (exists new p', pool_step code (Run i no_store_faults) p = Some (new, p') /\ shrinks (pl_threads p') (pl_threads p)) \/
  exists ob own, owns !! i = Some own /\ present ob (pl_world p) /\ may_wait ob own.
Proof.
  intros Hth Hw Hrest Hi Hok. destruct (Forall2_lookup_l _ _ _ _ _ Hth Hi) as (own & Hown & Hwp). cbn [pool_step]. rewrite Hi.
  destruct pr as [r|X a k]; [left; eexists _, _; split; [done|]; by exists i, c, (Ret r)|].
  assert (world_inv locate extents data (pl_world p) (own ++ mjoin (delete i owns))) as Hw' by (eapply world_inv_perm; [|exact Hw]; by rewrite <- mjoin_split).
  pose proof (Hwp _ ltac:(done)) as HK. destruct (exec_sound locate extents data Hnode no_store_faults a _ own _ _ Hw' HK) as (o & Ho & _). rewrite Ho. simpl.
  destruct o as [[x w']|]; [left|right].
  - eexists _, _. split; [done|]. exists i, c, (Do a k). split; [done|by exists x].
  - destruct (wait_reason _ _ _ _ _ _ Hw' Hrest HK Ho) as (ob & Hp & Hm). by exists ob, own.
Qed.

(** Of the threads of a pool at rest one can go on. *)
Lemma pool_progress evs p : pool_ok evs p -> at_rest (w_reader (pl_world p)) -> pl_threads p <> [] ->
  exists i new p', pool_step code (Run i no_store_faults) p = Some (new, p') /\ shrinks (pl_threads p') (pl_threads p).
Proof.
  intros Hok Hrest Hne. pose proof Hok as (owns & Hth & Hw & _).
  assert (forall j own, owns !! j = Some own -> exists c pr, pl_threads p !! j = Some (c, pr)) as Hthread.
  { intros j own Hj. destruct (Forall2_lookup_r _ _ _ _ _ Hth Hj) as ([c pr] & ? & _). by exists c, pr. }
  destruct (pl_threads p) as [|[c0 p0] ths] eqn:Eth; [done|]. rewrite <- Eth in *.
  destruct (step_or_wait evs p owns 0 c0 p0 Hth Hw Hrest ltac:(by rewrite Eth) Hok) as [?|(ob0 & own0 & _ & Hp0 & _)]; [by exists 0%nat|].
  destruct (obstacle_holder _ _ _ Hw Hp0) as (j1 & own1 & Hj1 & Hh1). destruct (Hthread _ _ Hj1) as (c1 & p1 & Ht1).
  destruct (step_or_wait evs p owns j1 c1 p1 Hth Hw Hrest Ht1 Hok) as [?|(ob1 & own1' & Ho1 & Hp1 & Hm1)]; [by exists j1|]. simplify_eq.
  destruct (holder_waits _ _ _ Hh1 Hm1) as [_ Hpage].
  destruct (obstacle_holder _ _ _ Hw Hp1) as (j2 & own2 & Hj2 & Hh2). destruct (Hthread _ _ Hj2) as (c2 & p2 & Ht2).
  destruct (step_or_wait evs p owns j2 c2 p2 Hth Hw Hrest Ht2 Hok) as [?|(ob2 & own2' & Ho2 & Hp2 & Hm2)]; [by exists j2|]. simplify_eq.
  destruct (holder_waits _ _ _ Hh2 Hm2) as [Htwo _]. congruence.
Qed.

Lemma workers_pool sched : forall p r', workers_run sched (w_reader (pl_world p)) = Some (Some r') ->
  run_pool code ((fun x => Worker x.1 x.2) <$> sched) p = Some ([], mk_pool ((pl_world p) <| w_reader := r' |>) (pl_threads p)).
Proof.
  induction sched as [|[i f] sched IH]; intros p r' Hr; cbn [workers_run] in Hr; [injection Hr as <-; by destruct p as [[] ?]|].
  destruct (worker_step i f (w_reader (pl_world p))) as [[r1|]|] eqn:Ew; [|done|done]. simpl in Hr. csimpl. rewrite Ew. simpl.
  match goal with |- context [run_pool _ _ ?q] => by rewrite (IH q r' Hr) end.
Qed.

Lemma run_pool_app ops1 : forall ops2 p evs1 p1, run_pool code ops1 p = Some (evs1, p1) ->
  run_pool code (ops1 ++ ops2) p = '(evs2, p2) ← run_pool code ops2 p1; Some (evs1 ++ evs2, p2).
Proof.
  induction ops1 as [|op ops1 IH]; intros ops2 p evs1 p1 Hr; csimpl in *.
  - injection Hr as <- <-. by destruct (run_pool code ops2 p) as [[? ?]|].
  - destruct (pool_step code op p) as [[e q]|]; [|done]. simpl in *. destruct (run_pool code ops1 q) as [[e1 q1]|] eqn:Er; [|done]. simpl in Hr. injection Hr as <- <-.
    rewrite (IH ops2 q e1 q1 Er). destruct (run_pool code ops2 q1) as [[e2 q2]|]; [|done]. simpl. by rewrite (assoc_L (++)).
Qed.

Definition no_spawn (op : pool_op) : Prop := match op with Spawn _ => False | _ => True end.

(** A call that has been made returns once. *)
Lemma pool_step_calls op p new p' : no_spawn op -> pool_step code op p = Some (new, p') -> new.*1 ++ (pl_threads p').*1 ≡ₚ (pl_threads p).*1.
Proof.
  intros Hop Hs. destruct op as [c|i f|i f]; [done| |]; cbn [pool_step] in Hs.
  - destruct (pl_threads p !! i) as [[c [r|X a k]]|] eqn:Hi; [| |by simplify_eq].
    + injection Hs as <- <-. pose proof (delete_Permutation (pl_threads p) i (c, Ret r) Hi) as Hp.
      apply (fmap_Permutation fst) in Hp. symmetry. exact Hp.
    + destruct (exec_atom f a (pl_world p)) as [[[x w']|]|]; simplify_eq/=; [|done]. rewrite list_fmap_insert. simpl. rewrite list_insert_id; [done|].
      by rewrite list_lookup_fmap, Hi.
  - destruct (worker_step i f _) as [[r|]|]; by simplify_eq/=.
Qed.

Lemma run_pool_calls ops : forall p new p', Forall no_spawn ops -> run_pool code ops p = Some (new, p') -> new.*1 ++ (pl_threads p').*1 ≡ₚ (pl_threads p).*1.
Proof.
  induction ops as [|op ops IH]; intros p new p' Hns Hr; cbn [run_pool] in Hr; [by injection Hr as <- <-|]. apply Forall_cons in Hns as [Hop Hns].
  destruct (pool_step code op p) as [[e q]|] eqn:Es; [|done]. simpl in Hr. destruct (run_pool code ops q) as [[e1 q1]|] eqn:Er; [|done]. simpl in Hr. injection Hr as <- <-.
  rewrite <- (pool_step_calls op p e q Hop Es), <- (IH q e1 q1 Hns Er), fmap_app. by rewrite (assoc_L (++)).
Qed.

Lemma pool_finishes evs p : pool_ok evs p ->
  exists ops new p', Forall no_spawn ops /\ run_pool code ops p = Some (new, p') /\ pl_threads p' = [].
Proof.
  remember (pl_threads p) as ths eqn:Eths. revert p evs Eths. induction (shrinks_wf ths) as [ths _ IH]. intros p evs -> Hok.
  destruct (decide (pl_threads p = [])) as [Hnil|Hne]; [by exists [], [], p|].
  pose proof Hok as (owns & _ & Hw & _). pose proof (wo_reader _ _ _ _ _ Hw) as (Hr & _). destruct (rest_reached _ Hr) as (sched & r' & Hrun & Hrest).
  pose proof (workers_pool sched p r' Hrun) as Hp1. set (p1 := mk_pool _ _) in Hp1. set (ops1 := (fun x => Worker x.1 x.2) <$> sched) in Hp1.
  assert (Forall no_spawn ops1) as Hns by (apply Forall_fmap, Forall_forall; by intros [] _).
  assert (Forall pool_op_typed ops1) as Hty by (apply Forall_fmap, Forall_forall; by intros [] _).
  destruct (run_pool_ok ops1 evs p Hok Hty) as (new1 & p1' & Hr1 & Hok1). rewrite Hp1 in Hr1. injection Hr1 as <- <-.
  destruct (pool_progress _ p1 Hok1 Hrest Hne) as (i & new & p2 & Hs & Hsh).
  destruct (pool_step_ok _ p1 (Run i no_store_faults) Hok1 I) as (new' & p2' & Hs' & Hok2). rewrite Hs in Hs'. injection Hs' as <- <-.
  destruct (IH _ Hsh p2 _ eq_refl Hok2) as (ops & more & p' & Hns' & Hrun' & Hnil).
  exists (ops1 ++ Run i no_store_faults :: ops), (new ++ more), p'. split_and!; [apply Forall_app_2; [done|by constructor]| |done].
  rewrite (run_pool_app ops1 _ p [] p1 Hp1). cbn [run_pool]. rewrite Hs. simpl. by rewrite Hrun'.
Qed.
End invariant.

Lemma make_control_empty capacity size budget c key : make_control capacity size budget = Ok c -> block_of (mk_blocks c ∅) key = None.
Proof. unfold make_control. repeat (case_match; [done|]). intros [= <-]. done. Qed.

Lemma make_reader_empty identity data n capacity width budget r : make_reader identity data n capacity width budget = Ok r -> tickets r = ∅ /\ held r = ∅.
Proof. unfold make_reader, make_staging. repeat (case_match; simpl; try done). by intros [= <-]. Qed.

Lemma make_store_ok locate extents data l identity n page_bytes row_cache row_bytes width budget index_budget w :
  u64 page_bytes -> u64 row_cache -> u64 row_bytes -> u64 budget -> u64 index_budget ->
  make_store l identity data n page_bytes row_cache row_bytes width budget index_budget = Ok w -> pool_ok locate extents data [] (mk_pool w []).
Proof.
  intros Hpb Hrc Hrb Hbu Hib Hm. unfold make_store in Hm. cbv zeta in Hm.
  destruct (make_reader _ _ _ _ _ _) as [r|] eqn:Er; [|done]. simpl in Hm.
  destruct (make_control _ (Z.of_nat ple_page_size) _) as [pages|] eqn:Ep; [|done]. simpl in Hm.
  destruct (make_control _ row_bytes _) as [rows|] eqn:Ew; [|done]. injection Hm as <-.
  assert (0 <= match l with RowLevel => row_cache | _ => page_bytes end) as Hcap by (unfold u64 in *; destruct l; lia).
  destruct (make_reader_ok _ _ _ _ _ _ _ Hcap (proj1 Hbu) Er) as ((Hr & He & _) & Hd & _).
  destruct (make_reader_empty _ _ _ _ _ _ _ Er) as [Ht Hh].
  assert (u64 (Z.of_nat ple_page_size)) as H4096 by (unfold u64, UINT64_MAX; change (Z.of_nat ple_page_size) with 4096; lia).
  assert (u64 (match l with RowLevel => Z.of_nat ple_page_size | _ => page_bytes end)) as Hpc by (by destruct l).
  assert (u64 (match l with PageLevel => row_bytes | _ => row_cache end)) as Hwc by (by destruct l).
  destruct (make_control_ok _ _ _ _ Hpc H4096 Hib Ep) as (Hpages & _). destruct (make_control_ok _ _ _ _ Hwc Hrb Hib Ew) as (Hrows & _).
  exists []. split_and!; [constructor| |constructor]. unfold world_inv, tickets_own. cbn [pl_world w_tickets]. rewrite map_to_list_empty.
  split; cbn [w_reader w_rows w_pages w_tickets w_log]; try done.
  - by intros [].
  - intros [] key bytes; simpl; by erewrite make_control_empty by done.
  - intros []; simpl; by rewrite fmap_empty, map_to_list_empty.
  - by rewrite Ht, map_to_list_empty.
  - by intros t spans ?%elem_of_nil.
  - by rewrite Hh, map_to_list_empty.
  - split; [constructor|]. by intros id l' ?%elem_of_nil.
  - split; [constructor|]. by intros id l' ?%elem_of_nil.
  - split; [constructor|]. intros []; (split; [by intros ?%elem_of_nil|done]).
Qed.
End system.
