(* ===== verification/PleStoresTheorems.v ===== *)
(** * The stores: theorems

    A store of each kind at work: any number of threads submit, redeem, cancel
    and drop tickets while the workers of the reader run, in any order and with
    any allocations failing.  [store_setup] says which stores: for a page store
    and a two-tier store it asks for [pages_fit] (the page size of the index is
    4096 and its tensor lies inside the source), which the constructors of the
    source do not check. *)

From S2P Require Import Prelude ExpertDescriptor PleHash BlockCache AsyncReader AsyncReaderInv AsyncReaderSteps AsyncReaderSubmit AsyncReaderTheorems PleStores PleStoresLogic PleStoresSpecs PleStoresSystem.
From stdpp Require Import strings.
Open Scope string_scope.
Open Scope list_scope.
Open Scope Z_scope.

Section theorems.
Context `{NodeSize, ReaderSizes}.

(** A store that was made and has been in use: [evs] are the replies so far. *)
Definition store_reaches (l : store_level) (locate : Z -> result exn read_span) (extents : extent_index) (data : list Z)
    (evs : list (store_call * store_reply)) (p : pool) : Prop :=
  exists row_bytes identity n page_cache row_cache width budget index_budget w ops,
    store_setup data l locate extents row_bytes /\
    u64 page_cache /\ u64 row_cache /\ u64 row_bytes /\ u64 budget /\ u64 index_budget /\
    make_store l identity data n page_cache row_cache row_bytes width budget index_budget = Ok w /\
    Forall pool_op_typed ops /\ run_pool (call_prog locate extents (Z.of_nat (length data)) l) ops (mk_pool w []) = Some (evs, p).

Context (Hnode : 0 <= node_bytes) `{!ReaderSizesOk}.

Lemma reaches_ok l locate extents data evs p : store_reaches l locate extents data evs p ->
  (forall row s, locate row = Ok s -> span_typed s) /\ level_ok locate extents data l /\ pool_ok locate extents data evs p.
Proof.
  intros (row_bytes & identity & n & page_cache & row_cache & width & budget & index_budget & w & ops & Hs & U1 & U2 & U3 & U4 & U5 & Hm & Hty & Hrun).
  assert (forall row s, locate row = Ok s -> span_typed s) as Hl by (intros row s; by eapply setup_locate).
  assert (level_ok locate extents data l) as Hv by (by eapply setup_level). split_and!; [done|done|].
  destruct (run_pool_ok Hnode locate extents data l Hl Hv ops [] (mk_pool w [])) as (evs' & p' & Hr & Hok); [eapply make_store_ok; [exact U1|exact U2|exact U3|exact U4|exact U5|exact Hm]|done|].
  rewrite Hrun in Hr. by injection Hr as <- <-.
Qed.

(** C25: Rows come out as they are in the source.  For a row store, and for a page store
    or a two-tier store whose index has page size 4096 and whose tensor lies
    inside the source ([pages_fit], which the constructors do not check and
    without which a page store pads or misplaces rows), whatever the threads and the workers do, no step ends the
    process, and a ticket that is redeemed gives for every row it was made for
    the bytes of the source at the place of that row, all of them inside the
    source: from the row cache, from a read, or put together from one or two
    cached pages. *)
Theorem staged_rows_are_right l locate extents data evs p :
  store_reaches l locate extents data evs p ->
  (forall op, pool_op_typed op -> is_Some (pool_step (call_prog locate extents (Z.of_nat (length data)) l) op p)) /\
  forall owner rows id bytes, (CallSubmit owner rows, ReplyTicket (Ok id)) ∈ evs -> (CallStage id, ReplyRows (Ok bytes)) ∈ evs ->
    Forall2 (fun row b => exists s, locate row = Ok s /\ span_ok data s /\ b = span_bytes data s) rows bytes.
Proof.
  intros Hr. destruct (reaches_ok _ _ _ _ _ _ Hr) as (Hl & Hv & Hok). split.
  - intros op Hop. destruct (pool_step_ok Hnode locate extents data l Hl Hv evs p op Hok Hop) as (new & p' & -> & _). by eexists.
  - intros owner rows id bytes Hs Hg. destruct Hok as (_ & _ & _ & Hevs). rewrite Forall_forall in Hevs.
    pose proof (Hevs _ Hs) as Hid. destruct (Hevs _ Hg) as (rows' & Hid' & Hb). unfold reply_right in *. simpl in *. rewrite Hid in Hid'. by injection Hid' as <-.
Qed.

(** C26: Calls return.  From every state of a store in use (a row store, or a page or
    two-tier store with [pages_fit]: page size 4096, tensor inside the source) there is a way on in which
    every call that has been made returns, without a new call: no set of threads waits for
    each other's locks or tickets, and no thread waits for a read that
    no worker will finish. *)
Theorem store_calls_return l locate extents data evs p :
  store_reaches l locate extents data evs p ->
  exists ops new p', Forall no_spawn ops /\
    run_pool (call_prog locate extents (Z.of_nat (length data)) l) ops p = Some (new, p') /\
    pl_threads p' = [] /\ new.*1 ≡ₚ (pl_threads p).*1.
Proof.
  intros Hr. destruct (reaches_ok _ _ _ _ _ _ Hr) as (Hl & Hv & Hok).
  destruct (pool_finishes Hnode locate extents data l Hl Hv evs p Hok) as (ops & new & p' & Hns & Hrun & Hnil). exists ops, new, p'. split_and!; [done|done|done|].
  rewrite <- (run_pool_calls locate extents data l ops p new p' Hns Hrun), Hnil. by rewrite app_nil_r.
Qed.

(** C27: Nothing is kept.  In a row store, or a page or two-tier store with [pages_fit]
    (page size 4096, tensor inside the source), when no call is under way and
    every ticket has been dropped, no block of a cache is
    pinned, the reader has no ticket and no buffer is held, and every lock of an
    owner table is free. *)
Theorem stores_give_everything_back l locate extents data evs p :
  store_reaches l locate extents data evs p -> pl_threads p = [] -> w_tickets (pl_world p) = ∅ ->
  (forall c, leases (cache_of c (pl_world p)) = ∅) /\ tickets (w_reader (pl_world p)) = ∅ /\ held (w_reader (pl_world p)) = ∅ /\
  forall l', ot_locked (owners_of l' (pl_world p)) = false.
Proof.
  intros Hr Hnil Hempty. destruct (reaches_ok _ _ _ _ _ _ Hr) as (_ & _ & owns & Hth & Hw & _). rewrite Hnil in Hth. apply Forall2_nil_inv_l in Hth as ->.
  unfold world_inv, tickets_own in Hw. rewrite Hempty, map_to_list_empty in Hw.
  assert (forall {A} (m : gmap positive A), [] ≡ₚ (map_to_list m).*1 -> m = ∅) as Hm.
  { intros A m Hp. apply map_to_list_empty_iff. apply Permutation_nil_l in Hp. symmetry in Hp. by apply fmap_nil_inv in Hp. }
  split_and!; [|apply Hm, (wo_reads _ _ _ _ _ Hw)|apply Hm, (wo_buffers _ _ _ _ _ Hw)|].
  - intros c. pose proof (wo_leases _ _ _ _ _ Hw c) as Hp. apply (fmap_empty_iff ls_key). apply map_to_list_empty_iff. by apply Permutation_nil_l in Hp.
  - intros l'. destruct (wo_locks _ _ _ _ _ Hw) as [_ Hl]. destruct (ot_locked (owners_of l' (pl_world p))) eqn:E; [|done]. apply Hl in E. by apply elem_of_nil in E.
Qed.
End theorems.

(** ** A two-tier store at work *)

#[local] Instance demo_store_node : NodeSize := 48.
#[local] Instance demo_store_sizes : ReaderSizes := {| vec_capacity n := n; control_bytes := 48 |}.
#[local] Instance demo_store_sizes_ok : ReaderSizesOk.
Proof. split; [intros n Hn; unfold vec_capacity; simpl; lia|vm_compute; discriminate]. Qed.

Lemma demo_store_node_pos : 0 <= node_bytes.
Proof. vm_compute. discriminate. Qed.

(** The second row of [demo_index] lies on two pages. *)
Definition demo_data : list Z := (fun i => Z.of_nat i mod 251) <$> seq 0 (Z.to_nat 14080).
Definition demo_code : store_call -> prog store_reply := call_prog (extent_locate demo_index) demo_index 14080 TwoTierLevel.
Definition demo_store : world :=
  match make_store TwoTierLevel (mk_identity 7 1) demo_data 1 8192 180 90 2 1000 1000 with
  | Ok w => w
  | Err _ => mk_world demo_reader demo_blocks demo_blocks ∅ (mk_owners false ∅) (mk_owners false ∅) (mk_owners false ∅) ∅
  end.

(** One thread and one worker take turns. *)
Definition turns (n : nat) : list pool_op := mjoin (replicate n [Run 0 no_store_faults; Worker 0 no_faults]).
Definition demo_submit : list pool_op := Spawn (CallSubmit 5 [1; 0; 1]) :: turns 40.
Definition demo_stage : list pool_op := Spawn (CallStage 1) :: turns 80.
Definition demo_drop : list pool_op := Spawn (CallDrop 1) :: turns 40.

Definition demo_run (ops : list pool_op) : list (store_call * store_reply) * pool :=
  default ([], mk_pool demo_store []) (run_pool demo_code ops (mk_pool demo_store [])).

Lemma demo_fits : pages_fit demo_index demo_data.
Proof.
  split; [|reflexivity|vm_compute; discriminate]. apply (make_extent_index_ok demo_config 0 4000 90 112 4096); [apply demo_config_typed|..|reflexivity];
    split; vm_compute; discriminate.
Qed.

Lemma demo_ops_typed n c : call_typed c -> Forall pool_op_typed (Spawn c :: turns n).
Proof. intros Hc. constructor; [done|]. unfold turns. induction n as [|n IH]; [constructor|]. simpl. by repeat constructor. Qed.

Lemma demo_reaches ops : Forall pool_op_typed ops -> bool_decide (is_Some (run_pool demo_code ops (mk_pool demo_store []))) = true ->
  store_reaches TwoTierLevel (extent_locate demo_index) demo_index demo_data (demo_run ops).1 (demo_run ops).2.
Proof.
  intros Hty Hrun%bool_decide_eq_true. exists 90, (mk_identity 7 1), 1%nat, 8192, 180, 2%nat, 1000, 1000, demo_store, ops.
  split; [apply two_by_extent; [split; vm_compute; discriminate|apply demo_fits]|]. do 5 (split; [split; vm_compute; discriminate|]).
  split; [vm_compute; reflexivity|]. split; [done|]. unfold demo_run. change (Z.of_nat (length demo_data)) with 14080. fold demo_code.
  destruct Hrun as [[evs p] Hrun]. by rewrite Hrun.
Qed.

Definition demo_rows : list (list Z) := span_bytes demo_data <$> [mk_span 4090 90; mk_span 4000 90; mk_span 4090 90].

Lemma demo_staged : (demo_run (demo_submit ++ demo_stage)).1 = [(CallSubmit 5 [1; 0; 1], ReplyTicket (Ok 1%positive)); (CallStage 1, ReplyRows (Ok demo_rows))].
Proof. vm_compute. reflexivity. Qed.

Lemma staged_rows_are_right_witness :
  length <$> demo_rows = [90; 90; 90]%nat /\
  Forall2 (fun row b => exists s, extent_locate demo_index row = Ok s /\ span_ok demo_data s /\ b = span_bytes demo_data s) [1; 0; 1] demo_rows.
Proof.
  split; [vm_compute; reflexivity|].
  apply (proj2 (staged_rows_are_right demo_store_node_pos TwoTierLevel (extent_locate demo_index) demo_index demo_data
    (demo_run (demo_submit ++ demo_stage)).1 (demo_run (demo_submit ++ demo_stage)).2
    (demo_reaches (demo_submit ++ demo_stage) (Forall_app_2 _ _ _ (demo_ops_typed 40 (CallSubmit 5 [1; 0; 1]) ltac:(repeat constructor; vm_compute; discriminate)) (demo_ops_typed 80 (CallStage 1) I)) ltac:(vm_compute; reflexivity)))
    5 [1; 0; 1] 1%positive demo_rows); rewrite demo_staged; [left|right; left].
Defined.

(** In the middle of a call: the thread has asked the page store, and the worker has not begun. *)
Definition demo_half : list pool_op := [Spawn (CallSubmit 5 [1; 0; 1]); Run 0 no_store_faults; Run 0 no_store_faults; Spawn (CallCancelOwner 5); Run 0 no_store_faults].

Lemma store_calls_return_witness :
  length (pl_threads (demo_run demo_half).2) = 2%nat /\
  exists ops new p', Forall no_spawn ops /\ run_pool demo_code ops (demo_run demo_half).2 = Some (new, p') /\ pl_threads p' = [] /\
    new.*1 ≡ₚ [CallSubmit 5 [1; 0; 1]; CallCancelOwner 5].
Proof.
  split; [vm_compute; reflexivity|].
  destruct (store_calls_return demo_store_node_pos TwoTierLevel (extent_locate demo_index) demo_index demo_data (demo_run demo_half).1 (demo_run demo_half).2)
    as (ops & new & p' & Hns & Hrun & Hnil & Hcalls).
  - apply demo_reaches; [|vm_compute; reflexivity]. unfold demo_half. apply Forall_cons_2; [|repeat (apply Forall_cons_2; [exact I|]); apply Forall_nil_2].
    repeat constructor; vm_compute; discriminate.
  - exists ops, new, p'. split; [exact Hns|]. split; [exact Hrun|]. split; [exact Hnil|].
    assert ((pl_threads (demo_run demo_half).2).*1 = [CallSubmit 5 [1; 0; 1]; CallCancelOwner 5]) as <- by (vm_compute; reflexivity). exact Hcalls.
Defined.

Lemma stores_give_everything_back_witness :
  size (index (control_of (w_rows (pl_world (demo_run (demo_submit ++ demo_stage ++ demo_drop)).2)))) = 2%nat /\
  leases (w_rows (pl_world (demo_run (demo_submit ++ demo_stage ++ demo_drop)).2)) = ∅ /\
  held (w_reader (pl_world (demo_run (demo_submit ++ demo_stage ++ demo_drop)).2)) = ∅.
Proof.
  split; [vm_compute; reflexivity|].
  destruct (stores_give_everything_back demo_store_node_pos TwoTierLevel (extent_locate demo_index) demo_index demo_data
    (demo_run (demo_submit ++ demo_stage ++ demo_drop)).1 (demo_run (demo_submit ++ demo_stage ++ demo_drop)).2) as (Hl & _ & Hh & _).
  - apply demo_reaches; [|vm_compute; reflexivity]. apply Forall_app_2; [|apply Forall_app_2].
    + apply (demo_ops_typed 40). repeat constructor; vm_compute; discriminate.
    + exact (demo_ops_typed 80 (CallStage 1) I).
    + exact (demo_ops_typed 40 (CallDrop 1) I).
  - vm_compute. reflexivity.
  - vm_compute. reflexivity.
  - split; [exact (Hl RowCache)|exact Hh].
Defined.

(** ** What a page store takes on trust *)

(** The replies to a batch of one row. *)
Definition one_row (l : store_level) (x : extent_index) (data : list Z) (row : Z) : list (store_call * store_reply) :=
  match make_store l (mk_identity 7 1) data 1 8192 180 90 2 1000 1000 with
  | Ok w => default [] (fst <$> run_pool (call_prog (extent_locate x) x (Z.of_nat (length data)) l)
      (Spawn (CallSubmit 5 [row]) :: turns 40 ++ Spawn (CallStage 1) :: turns 80) (mk_pool w []))
  | Err _ => []
  end.

(** A row that runs past the end of the source: a row store refuses it, a page store
    hands out the bytes that are there and zeros. *)
Lemma page_store_pads_short_rows :
  let short := take (Z.to_nat 4100) demo_data in
  one_row RowLevel demo_index short 1 =
    [(CallSubmit 5 [1], ReplyTicket (Err (out_of_range "qwen4exp PLE read span is outside its source")));
     (CallStage 1, ReplyRows (Err (logic_error "qwen4exp PLE row ticket is empty")))] /\
  one_row PageLevel demo_index short 1 =
    [(CallSubmit 5 [1], ReplyTicket (Ok 1%positive)); (CallStage 1, ReplyRows (Ok [span_bytes short (mk_span 4090 90) ++ replicate 80 0]))] /\
  length (span_bytes short (mk_span 4090 90)) = 10%nat.
Proof. vm_compute. split_and!; reflexivity. Qed.

(** An index with pages of another size: the page store reads pages of 4096 bytes and
    hands out bytes of another place. *)
Lemma page_store_trusts_the_page_size :
  let x := mk_extent_index demo_config 0 4000 90 112 8192 in
  make_extent_index demo_config 0 4000 90 112 8192 = Ok x /\
  one_row RowLevel x demo_data 60 = [(CallSubmit 5 [60], ReplyTicket (Ok 1%positive)); (CallStage 1, ReplyRows (Ok [span_bytes demo_data (mk_span 9400 90)]))] /\
  one_row PageLevel x demo_data 60 = [(CallSubmit 5 [60], ReplyTicket (Ok 1%positive)); (CallStage 1, ReplyRows (Ok [span_bytes demo_data (mk_span 5304 90)]))] /\
  span_bytes demo_data (mk_span 5304 90) <> span_bytes demo_data (mk_span 9400 90).
Proof. vm_compute. split_and!; try reflexivity. discriminate. Qed.
