(* ===== verification/DsvLayout.v ===== *)
(** * Attention layout of DeepSeek V4.1

    [attention_layout] of [src/src/llama-deepseek-v41-layout.h] and [.cpp]: which
    layer owns the compressed keys, the index keys, the top-k indices and the
    candidate pool that a layer reads, and the payload a context needs.  The
    constructor walks the layers once; [layout_of] is the declarative account of
    what it builds. *)

From S2P Require Import Prelude.
Open Scope Z_scope.

(** ** Data *)

Inductive attention_mode := window_only | full | reindex | reuse.

Record attention_layout_config := mk_config {
  compress_ratios : list Z;
  kv_source_layers : list Z;
  index_source_layers : list Z;
  candidate_source_layer : Z;
  head_dim : Z;
  index_head_dim : Z;
  sliding_window : Z }.

Record attention_layer_layout := mk_layer {
  mode : attention_mode;
  compress_ratio : Z;
  kv_owner : Z;
  index_key_owner : Z;
  topk_owner : Z;
  candidate_owner : Z }.

#[export] Instance attention_mode_eq_dec : EqDecision attention_mode.
Proof. solve_decision. Defined.
#[export] Instance attention_layer_layout_eq_dec : EqDecision attention_layer_layout.
Proof. solve_decision. Defined.

Inductive kv_encoding := fp32_reference | fp4_compressed.

Record attention_payload_budget := mk_budget {
  main_kv_bytes : Z;
  index_key_bytes : Z;
  sliding_window_bytes : Z;
  global_bytes : Z }.

Record attention_layout := mk_layout {
  config_ : attention_layout_config;
  layers_ : list attention_layer_layout }.

(** [std::invalid_argument] with its message, and [std::overflow_error]. *)
Inductive v41_exn := invalid_argument (what : string) | overflow_error.

Definition INT32_MAX : Z := 2 ^ 31 - 1.

(** ** The constructor *)

(** [std::is_sorted] *)
Fixpoint is_sorted (l : list Z) : bool :=
  match l with
  | x :: (y :: _) as l => (x <=? y) && is_sorted l
  | _ => true
  end.

(** [std::adjacent_find(...) != end] *)
Fixpoint has_adjacent (l : list Z) : bool :=
  match l with
  | x :: (y :: _) as l => (x =? y) || has_adjacent l
  | _ => false
  end.

(** [std::binary_search], on ranges the constructor has found to be sorted *)
Definition binary_search (l : list Z) (x : Z) : bool := bool_decide (x ∈ l).

(** [config_.compress_ratios[source]] *)
Definition ratio_at (c : attention_layout_config) (layer : Z) : Z := default 0 (compress_ratios c !! Z.to_nat layer).

Definition check_sources (c : attention_layout_config) (sources : list Z) : result v41_exn () :=
  if negb (is_sorted sources) || has_adjacent sources
  then Err (invalid_argument "V4.1 cache source IDs must be sorted and unique")
  else foldM (fun _ source =>
         if (Z.of_nat (length (compress_ratios c)) <=? source) || (ratio_at c source =? 0)
         then Err (invalid_argument "V4.1 cache source must be a compressed main layer")
         else Ok tt) sources tt.

(** The variables of the walk: [kv_owner], [topk_owner], [layers_]. *)
Record walk := mk_walk { w_kv : Z; w_topk : Z; w_layers : list attention_layer_layout }.

Definition window_layer : attention_layer_layout := mk_layer window_only 0 (-1) (-1) (-1) (-1).

Definition visit (c : attention_layout_config) (w : walk) (layer : Z) : result v41_exn walk :=
  let ratio := ratio_at c layer in
  if ratio =? 0 then Ok (mk_walk (w_kv w) (w_topk w) (w_layers w ++ [window_layer])) else
  let owns_kv := binary_search (kv_source_layers c) layer in
  let owns_indexer := binary_search (index_source_layers c) layer in
  if owns_kv && negb owns_indexer
  then Err (invalid_argument "V4.1 KV source must publish index keys and top-k indices") else
  let kv := if owns_kv then layer else w_kv w in
  if (kv <? 0) || negb (ratio_at c kv =? ratio)
  then Err (invalid_argument "V4.1 layer has no compatible shared KV source") else
  let topk := if owns_indexer then layer else w_topk w in
  if topk <? kv then Err (invalid_argument "V4.1 layer reuses indices from another KV bank") else
  let m := if owns_kv then full else if owns_indexer then reindex else reuse in
  let cand := candidate_source_layer c in
  if (0 <=? cand) && (cand <=? layer) then
    let candidate_kv := if layer =? cand then kv else default (-1) (kv_owner <$> w_layers w !! Z.to_nat cand) in
    if negb (candidate_kv =? kv) then Err (invalid_argument "V4.1 candidate pool refers to another KV bank")
    else Ok (mk_walk kv topk (w_layers w ++ [mk_layer m ratio kv kv topk cand]))
  else Ok (mk_walk kv topk (w_layers w ++ [mk_layer m ratio kv kv topk (-1)])).

Definition layer_ids (n : nat) : list Z := Z.of_nat <$> seq 0 n.

Definition make_layout (c : attention_layout_config) : result v41_exn attention_layout :=
  let count := length (compress_ratios c) in
  if (count =? 0)%nat || (INT32_MAX <? Z.of_nat count) || (head_dim c =? 0) || (index_head_dim c =? 0) ||
     (sliding_window c =? 0)
  then Err (invalid_argument "invalid V4.1 attention geometry") else
  let? _ := check_sources c (kv_source_layers c) in
  let? _ := check_sources c (index_source_layers c) in
  if (candidate_source_layer c <? -1) ||
     ((0 <=? candidate_source_layer c) && negb (binary_search (index_source_layers c) (candidate_source_layer c)))
  then Err (invalid_argument "V4.1 candidate source must own an indexer") else
  let? w := foldM (visit c) (layer_ids count) (mk_walk (-1) (-1) []) in
  Ok (mk_layout c (w_layers w)).

(** ** The payload of a context *)

Definition multiply (a b : Z) : result v41_exn Z :=
  if negb (b =? 0) && (UINT64_MAX / b <? a) then Err overflow_error else Ok (a * b).

Definition add (a b : Z) : result v41_exn Z :=
  if UINT64_MAX - b <? a then Err overflow_error else Ok (a + b).

(** Bytes of a main row, an index row and a window row. *)
Definition row_bytes_of (c : attention_layout_config) (encoding : kv_encoding) : result v41_exn (Z * Z * Z) :=
  match encoding with
  | fp32_reference =>
      let? main_row := multiply (head_dim c) 4 in
      let? index_row := multiply (index_head_dim c) 4 in
      Ok (main_row, index_row, main_row)
  | fp4_compressed =>
      if negb (head_dim c mod 32 =? 0) || negb (index_head_dim c mod 32 =? 0)
      then Err (invalid_argument "V4.1 quantized cache dimensions must be multiples of 32")
      else Ok (head_dim c / 2 + head_dim c / 16, index_head_dim c / 2 + index_head_dim c / 32,
               head_dim c + head_dim c / 32)
  end.

(** One round of the loop over the banks: [main_kv_bytes] and [index_key_bytes]. *)
Definition add_bank (c : attention_layout_config) (context main_row index_row : Z) (acc : Z * Z) (owner : Z)
    : result v41_exn (Z * Z) :=
  let rows := context / ratio_at c owner in
  let? product := multiply rows main_row in
  let? main := add acc.1 product in
  let? product := multiply rows index_row in
  let? index := add acc.2 product in
  Ok (main, index).

Definition payload_budget (l : attention_layout) (context : Z) (encoding : kv_encoding)
    : result v41_exn attention_payload_budget :=
  let c := config_ l in
  if context =? 0 then Err (invalid_argument "V4.1 context must be positive") else
  let? (main_row, index_row, window_row) := row_bytes_of c encoding in
  let? (main, index) := foldM (add_bank c context main_row index_row) (kv_source_layers c) (0, 0) in
  let? global := add main index in
  let? ring := multiply window_row (sliding_window c) in
  let? windows := multiply ring (Z.of_nat (length (layers_ l))) in
  Ok (mk_budget main index windows global).

(** ** What a layout is *)

(** The types of the fields. *)
Definition config_typed (c : attention_layout_config) : Prop :=
  Forall u32 (compress_ratios c) /\ Forall u32 (kv_source_layers c) /\ Forall u32 (index_source_layers c) /\
  - 2 ^ 31 <= candidate_source_layer c <= INT32_MAX /\ u32 (head_dim c) /\ u32 (index_head_dim c) /\ u32 (sliding_window c).

(** The last source up to a layer, or -1. *)
Definition last_source (sources : list Z) (layer : Z) : Z := foldr Z.max (-1) (filter (fun s => s <= layer) sources).

Definition layer_of (c : attention_layout_config) (layer : Z) : attention_layer_layout :=
  if decide (ratio_at c layer = 0) then window_layer else
  let kv := last_source (kv_source_layers c) layer in
  mk_layer (if decide (layer ∈ kv_source_layers c) then full
            else if decide (layer ∈ index_source_layers c) then reindex else reuse)
    (ratio_at c layer) kv kv (last_source (index_source_layers c) layer)
    (if decide (0 <= candidate_source_layer c <= layer) then candidate_source_layer c else -1).

Definition layout_of (c : attention_layout_config) : list attention_layer_layout :=
  layer_of c <$> layer_ids (length (compress_ratios c)).

Definition compressed (c : attention_layout_config) (layer : Z) : Prop :=
  0 <= layer < Z.of_nat (length (compress_ratios c)) /\ ratio_at c layer <> 0.

Definition sources_valid (c : attention_layout_config) (sources : list Z) : Prop :=
  StronglySorted Z.lt sources /\ Forall (compressed c) sources.

(** What a compressed layer asks of the layers before it: if it publishes keys it
    publishes indices, there is a bank at or before it with its own ratio, and the
    candidate pool it prunes with was made for that bank. *)
Definition layer_valid (c : attention_layout_config) (layer : Z) : Prop :=
  (layer ∈ kv_source_layers c -> layer ∈ index_source_layers c) /\
  last_source (kv_source_layers c) layer ∈ kv_source_layers c /\
  ratio_at c (last_source (kv_source_layers c) layer) = ratio_at c layer /\
  (0 <= candidate_source_layer c <= layer ->
   last_source (kv_source_layers c) (candidate_source_layer c) = last_source (kv_source_layers c) layer).

Definition layout_valid (c : attention_layout_config) : Prop :=
  0 < Z.of_nat (length (compress_ratios c)) <= INT32_MAX /\
  head_dim c <> 0 /\ index_head_dim c <> 0 /\ sliding_window c <> 0 /\
  sources_valid c (kv_source_layers c) /\ sources_valid c (index_source_layers c) /\
  (candidate_source_layer c = -1 \/ candidate_source_layer c ∈ index_source_layers c) /\
  forall layer, compressed c layer -> layer_valid c layer.

(** ** Sorted sources *)

Lemma sorted_unique l : is_sorted l = true /\ has_adjacent l = false <-> StronglySorted Z.lt l.
Proof.
  induction l as [|x [|y l] IH].
  - split; [constructor|done].
  - split; [by repeat constructor|done].
  - change (is_sorted (x :: y :: l)) with ((x <=? y) && is_sorted (y :: l)).
    change (has_adjacent (x :: y :: l)) with ((x =? y) || has_adjacent (y :: l)).
    rewrite andb_true_iff, orb_false_iff, Z.leb_le, Z.eqb_neq. split.
    + intros ((Hle & Hs) & Hne & Ha). assert (HS : StronglySorted Z.lt (y :: l)) by (apply IH; done).
      constructor; [done|]. inversion HS as [|? ? _ Hall]; subst. constructor; [lia|].
      eapply Forall_impl; [exact Hall|]. simpl. lia.
    + intros HS. inversion HS as [|? ? HS' Hall]; subst. apply Forall_cons in Hall as [Hxy _].
      apply IH in HS' as [? ?]. split_and!; try done; lia.
Qed.

Lemma check_sources_ok c sources : Forall u32 sources ->
  check_sources c sources = Ok tt <-> sources_valid c sources.
Proof.
  intros Hu. unfold check_sources, sources_valid.
  rewrite <- sorted_unique. destruct (is_sorted sources) eqn:E1, (has_adjacent sources) eqn:E2; simpl;
    try (split; [discriminate|intros [[? ?] ?]; discriminate]).
  transitivity (Forall (compressed c) sources); [|tauto].
  clear E1 E2. induction sources as [|s l IH]; [by split|].
  apply Forall_cons in Hu as [Hs Hu]. rewrite foldM_cons_ok, Forall_cons, <- (IH Hu). unfold compressed, u32 in *.
  destruct (Z.of_nat _ <=? s) eqn:E1; simpl; bool_facts; [split; [intros (? & ? & ?); discriminate|lia]|].
  destruct (ratio_at c s =? 0) eqn:E2; bool_facts; [split; [intros (? & ? & ?); discriminate|lia]|].
  split; [intros ([] & _ & Hl); split; [split; [lia|done]|done]|intros [_ Hl]; by exists tt].
Qed.

Lemma last_source_max l layer : (last_source l layer = -1 \/ last_source l layer ∈ l /\ last_source l layer <= layer) /\
  -1 <= last_source l layer /\ (forall s, s ∈ l -> s <= layer -> s <= last_source l layer).
Proof.
  unfold last_source. induction l as [|s l IH]; [cbn; split_and!; [by left|lia|intros s Hs; by apply elem_of_nil in Hs]|].
  rewrite filter_cons. destruct IH as (IH1 & IH2 & IH3). case_decide as Hs; cbn [foldr].
  - split_and!; [|lia|].
    + destruct (Z.max_spec s (foldr Z.max (-1) (filter (fun s => s <= layer) l))) as [[? ->]|[? ->]].
      * destruct IH1 as [->|[? ?]]; [by left|right; split; [by right|done]].
      * right. split; [by left|done].
    + intros t Ht Htl. apply elem_of_cons in Ht as [->|Ht]; [lia|]. specialize (IH3 t Ht Htl). lia.
  - split_and!; [destruct IH1 as [->|[? ?]]; [by left|right; split; [by right|done]]|lia|].
    intros t Ht Htl. apply elem_of_cons in Ht as [->|Ht]; [lia|]. by apply IH3.
Qed.

(** One more layer. *)
Lemma last_source_next l layer : Forall u32 l -> 0 <= layer ->
  last_source l layer = if decide (layer ∈ l) then layer else last_source l (layer - 1).
Proof.
  intros Hu H0. destruct (last_source_max l layer) as (Ha & Hb & Hc), (last_source_max l (layer - 1)) as (Ha' & Hb' & Hc').
  case_decide as Hin.
  - specialize (Hc layer Hin). destruct Ha as [|[? ?]]; lia.
  - destruct Ha as [Ha|[Ha Hl]].
    + destruct Ha' as [|[Ha' ?]]; [lia|]. specialize (Hc _ Ha'). lia.
    + assert (last_source l layer <> layer) by (intros E; by rewrite E in Ha).
      specialize (Hc' _ Ha ltac:(lia)). destruct Ha' as [|[Ha' ?]]; [lia|]. specialize (Hc _ Ha'). lia.
Qed.

Lemma last_source_found l layer : Forall u32 l -> (last_source l layer ∈ l <-> 0 <= last_source l layer).
Proof.
  intros Hu. split.
  - intros H. rewrite Forall_forall in Hu. apply Hu in H. unfold u32 in H. lia.
  - destruct (last_source_max l layer) as [[->|[? _]] _]; [lia|done].
Qed.

(** ** The walk *)

Lemma decide_bool_decide {A} P `{Decision P} (x y : A) : (if decide P then x else y) = if bool_decide P then x else y.
Proof. destruct (decide P); [by rewrite bool_decide_eq_true_2|by rewrite bool_decide_eq_false_2]. Qed.

Section walk.
Context (c : attention_layout_config) (Htyped : config_typed c).
Context (Hkv : sources_valid c (kv_source_layers c)) (Hix : sources_valid c (index_source_layers c)).
Context (Hcand : candidate_source_layer c = -1 \/ candidate_source_layer c ∈ index_source_layers c).

(** The variables before layer [n]. *)
Definition walk_at (n : nat) : walk :=
  mk_walk (last_source (kv_source_layers c) (Z.of_nat n - 1)) (last_source (index_source_layers c) (Z.of_nat n - 1))
          (layer_of c <$> layer_ids n).

Lemma layer_ids_S n : layer_ids (S n) = layer_ids n ++ [Z.of_nat n].
Proof. unfold layer_ids. rewrite seq_S, fmap_app. done. Qed.

Lemma walk_at_next n : mk_walk (last_source (kv_source_layers c) (Z.of_nat n)) (last_source (index_source_layers c) (Z.of_nat n))
  ((layer_of c <$> layer_ids n) ++ [layer_of c (Z.of_nat n)]) = walk_at (S n).
Proof. unfold walk_at. rewrite layer_ids_S, fmap_app. cbn [fmap list_fmap]. do 2 f_equal; lia. Qed.

Lemma layer_ids_lookup n i : (i < n)%nat -> layer_ids n !! i = Some (Z.of_nat i).
Proof. intros H. unfold layer_ids. rewrite list_lookup_fmap, lookup_seq_lt by done. done. Qed.

Lemma source_compressed sources s : sources_valid c sources -> s ∈ sources -> compressed c s.
Proof. intros [_ H] Hs. rewrite Forall_forall in H. auto. Qed.

(** The candidate source has its owner recorded when a later layer asks for it. *)
Lemma candidate_kv n : 0 <= candidate_source_layer c < Z.of_nat n ->
  default (-1) (kv_owner <$> w_layers (walk_at n) !! Z.to_nat (candidate_source_layer c)) =
  last_source (kv_source_layers c) (candidate_source_layer c).
Proof.
  intros Hn. cbn [walk_at w_layers]. rewrite list_lookup_fmap, layer_ids_lookup by lia. cbn [fmap option_fmap option_map default].
  rewrite Z2Nat.id by lia. unfold layer_of. destruct Hcand as [|Hin]; [lia|].
  apply (source_compressed _ _ Hix) in Hin as [_ Hr]. by rewrite decide_False.
Qed.

Lemma topk_follows n : (Z.of_nat n ∈ kv_source_layers c -> Z.of_nat n ∈ index_source_layers c) ->
  (forall i, (i < n)%nat -> compressed c (Z.of_nat i) -> layer_valid c (Z.of_nat i)) ->
  last_source (kv_source_layers c) (Z.of_nat n) <= last_source (index_source_layers c) (Z.of_nat n).
Proof.
  intros Hn Hall. destruct (last_source_max (kv_source_layers c) (Z.of_nat n)) as [[->|[Hin Hle]] _].
  { destruct (last_source_max (index_source_layers c) (Z.of_nat n)) as (_ & ? & _). lia. }
  set (o := last_source _ _) in *. destruct (last_source_max (index_source_layers c) (Z.of_nat n)) as (_ & _ & Hmax).
  apply Hmax; [|done]. pose proof (source_compressed _ _ Hkv Hin) as Ho.
  destruct (decide (o = Z.of_nat n)) as [E|]; [rewrite E in *; auto|].
  assert (Hlt : (Z.to_nat o < n)%nat) by (destruct Ho; lia). specialize (Hall _ Hlt). rewrite Z2Nat.id in Hall by (destruct Ho; lia).
  by destruct (Hall Ho) as [Hpub _]; apply Hpub.
Qed.

Lemma visit_window n : ratio_at c (Z.of_nat n) = 0 -> visit c (walk_at n) (Z.of_nat n) = Ok (walk_at (S n)).
Proof.
  intros E. unfold visit. rewrite E. cbn. rewrite <- walk_at_next. unfold layer_of. rewrite decide_True by done.
  destruct Htyped as (_ & Hu1 & Hu2 & _). f_equal. f_equal.
  - rewrite (last_source_next _ (Z.of_nat n)) by (done || lia). rewrite decide_False; [done|].
    intros Hin. by apply (source_compressed _ _ Hkv) in Hin as [_ ?].
  - rewrite (last_source_next _ (Z.of_nat n)) by (done || lia). rewrite decide_False; [done|].
    intros Hin. by apply (source_compressed _ _ Hix) in Hin as [_ ?].
Qed.

Lemma visit_compressed n w : (forall i, (i < n)%nat -> compressed c (Z.of_nat i) -> layer_valid c (Z.of_nat i)) ->
  ratio_at c (Z.of_nat n) <> 0 ->
  visit c (walk_at n) (Z.of_nat n) = Ok w <-> layer_valid c (Z.of_nat n) /\ w = walk_at (S n).
Proof.
  intros Hbefore Hr. destruct Htyped as (_ & Hu1 & Hu2 & _ & _). unfold visit, layer_valid.
  rewrite (proj2 (Z.eqb_neq _ _) Hr). rewrite <- walk_at_next. cbn [walk_at w_kv w_topk w_layers].
  unfold binary_search, layer_of. rewrite (decide_False (P := ratio_at c _ = 0)) by done.
  pose proof (last_source_next _ (Z.of_nat n) Hu1 ltac:(lia)) as Ek. pose proof (last_source_next _ (Z.of_nat n) Hu2 ltac:(lia)) as Ei.
  rewrite (last_source_found _ _ Hu1).
  replace (if bool_decide (Z.of_nat n ∈ kv_source_layers c) then Z.of_nat n else last_source (kv_source_layers c) (Z.of_nat n - 1))
    with (last_source (kv_source_layers c) (Z.of_nat n)) by (rewrite Ek; by rewrite (decide_bool_decide _)).
  replace (if bool_decide (Z.of_nat n ∈ index_source_layers c) then Z.of_nat n else last_source (index_source_layers c) (Z.of_nat n - 1))
    with (last_source (index_source_layers c) (Z.of_nat n)) by (rewrite Ei; by rewrite (decide_bool_decide _)).
  clear Ek Ei.
  destruct (bool_decide (Z.of_nat n ∈ kv_source_layers c) && negb (bool_decide (Z.of_nat n ∈ index_source_layers c))) eqn:E1.
  { apply andb_true_iff in E1 as [E1 E2]. apply bool_decide_eq_true in E1. apply negb_true_iff, bool_decide_eq_false in E2.
    split; [discriminate|]. intros [[H _] _]. tauto. }
  assert (Hpub : Z.of_nat n ∈ kv_source_layers c -> Z.of_nat n ∈ index_source_layers c).
  { intros Hin. rewrite (bool_decide_eq_true_2 _ Hin) in E1. simpl in E1. by apply negb_false_iff, bool_decide_eq_true in E1. }
  clear E1. pose proof (topk_follows n Hpub Hbefore) as Htopk.
  set (kv := last_source (kv_source_layers c) (Z.of_nat n)) in *. set (topk := last_source (index_source_layers c) (Z.of_nat n)) in *.
  destruct ((kv <? 0) || negb (ratio_at c kv =? ratio_at c (Z.of_nat n))) eqn:E2.
  { split; [discriminate|]. intros ((_ & H1 & H2 & _) & _). apply orb_true_iff in E2 as [E2|E2]; bool_facts; lia. }
  apply orb_false_iff in E2 as [E2 E3]. bool_facts.
  rewrite (proj2 (Z.ltb_ge topk kv) Htopk).
  rewrite <- !decide_bool_decide.
  destruct ((0 <=? candidate_source_layer c) && (candidate_source_layer c <=? Z.of_nat n)) eqn:E4.
  - apply andb_true_iff in E4 as [E4 E5]. bool_facts. rewrite (decide_True (P := 0 <= candidate_source_layer c <= Z.of_nat n)) by lia.
    replace (if Z.of_nat n =? candidate_source_layer c then kv
             else default (-1) (kv_owner <$> (layer_of c <$> layer_ids n) !! Z.to_nat (candidate_source_layer c)))
      with (last_source (kv_source_layers c) (candidate_source_layer c)).
    2: { destruct (Z.of_nat n =? candidate_source_layer c) eqn:E6; bool_facts; [by rewrite <- E6|]. symmetry. apply (candidate_kv n). lia. }
    destruct (_ =? kv) eqn:E7; simpl; bool_facts; split; try discriminate.
    + intros [= <-]. split; [|done]. split_and!; auto.
    + by intros [_ ->].
    + intros ((_ & _ & _ & H) & _). specialize (H ltac:(lia)). lia.
  - rewrite (decide_False (P := 0 <= candidate_source_layer c <= Z.of_nat n)).
    2: { apply andb_false_iff in E4 as [?|?]; bool_facts; lia. }
    split; [intros [= <-]; split; [|done]|by intros [_ ->]]. split_and!; auto.
    intros ?. apply andb_false_iff in E4 as [?|?]; bool_facts; lia.
Qed.

Lemma walk_ok n w : (n <= length (compress_ratios c))%nat ->
  foldM (visit c) (layer_ids n) (mk_walk (-1) (-1) []) = Ok w <->
  (forall i, (i < n)%nat -> compressed c (Z.of_nat i) -> layer_valid c (Z.of_nat i)) /\ w = walk_at n.
Proof.
  revert w. induction n as [|n IH]; intros w Hn.
  { cbn. unfold walk_at. cbn. destruct Htyped as (_ & Hu1 & Hu2 & _).
    assert (Hno : forall l, Forall u32 l -> last_source l (-1) = -1).
    { intros l Hl. destruct (last_source_max l (-1)) as [[?|[Hin ?]] [? _]]; [done|].
      rewrite Forall_forall in Hl. apply Hl in Hin. unfold u32 in Hin. lia. }
    rewrite !Hno by done. split; [intros [= <-]; split; [lia|done]|by intros [_ ->]]. }
  rewrite layer_ids_S, foldM_app. cbn [foldM].
  destruct (foldM (visit c) (layer_ids n) _) as [w'|e] eqn:E.
  - destruct (IH w') as [H1 _]; [lia|]. destruct (H1 eq_refl) as [Hall Ew]. clear H1 IH. subst w'. destruct (decide (ratio_at c (Z.of_nat n) = 0)) as [E0|E0].
    + rewrite visit_window by done. split; [intros [= <-]; split; [|done]|by intros [_ ->]].
      intros i Hi Hc. destruct (decide (i = n)) as [->|]; [by destruct Hc|]. apply Hall; [lia|done].
    + transitivity (visit c (walk_at n) (Z.of_nat n) = Ok w); [destruct (visit _ _ _); naive_solver|].
      rewrite visit_compressed by done. split; intros [H1 ->]; split; auto.
      * intros i Hi Hc. destruct (decide (i = n)) as [->|]; [done|]. apply Hall; [lia|done].
      * apply H1; [lia|]. split; [lia|done].
  - split; [discriminate|]. intros [Hall _]. exfalso.
    destruct (IH (walk_at n)) as [_ H2]; [lia|]. discriminate H2. split; [intros i Hi; apply Hall; lia|done].
Qed.
End walk.

(** ** The layout *)

Lemma layout_of_lookup c layer : compressed c layer -> layout_of c !! Z.to_nat layer = Some (layer_of c layer).
Proof.
  intros [H _]. unfold layout_of. rewrite list_lookup_fmap, layer_ids_lookup by lia. cbn. by rewrite Z2Nat.id by lia.
Qed.

Lemma layout_of_length c : length (layout_of c) = length (compress_ratios c).
Proof. unfold layout_of, layer_ids. by rewrite !length_fmap, length_seq. Qed.

Lemma make_layout_ok c l : config_typed c -> make_layout c = Ok l <-> layout_valid c /\ l = mk_layout c (layout_of c).
Proof.
  intros Ht. unfold make_layout, layout_valid. destruct Ht as (Hr & Hu1 & Hu2 & Hd).
  destruct ((_ =? 0)%nat || _ || _ || _ || _) eqn:Eg.
  { split; [discriminate|]. intros ((H1 & H2 & H3 & H4 & _) & _).
    repeat (apply orb_true_iff in Eg as [Eg|Eg]); bool_facts; try lia. apply Nat.eqb_eq in Eg. lia. }
  repeat (apply orb_false_iff in Eg as [Eg ?]). apply Nat.eqb_neq in Eg. bool_facts.
  destruct (check_sources c (kv_source_layers c)) as [[]|e] eqn:E1.
  2: { split; [discriminate|]. intros ((_ & _ & _ & _ & Hs & _) & _). apply check_sources_ok in Hs; [|done]. congruence. }
  apply check_sources_ok in E1; [|done].
  destruct (check_sources c (index_source_layers c)) as [[]|e] eqn:E2.
  2: { split; [discriminate|]. intros ((_ & _ & _ & _ & _ & Hs & _) & _). apply check_sources_ok in Hs; [|done]. congruence. }
  apply check_sources_ok in E2; [|done]. unfold binary_search.
  destruct ((candidate_source_layer c <? -1) || _) eqn:E3.
  { split; [discriminate|]. intros ((_ & _ & _ & _ & _ & _ & Hc & _) & _). apply orb_true_iff in E3 as [E3|E3]; bool_facts.
    - destruct Hc as [|Hc]; [lia|]. apply (source_compressed _ _ _ E2) in Hc as [? _]. lia.
    - match goal with H : bool_decide _ = false |- _ => apply bool_decide_eq_false in H end. destruct Hc; [lia|done]. }
  apply orb_false_iff in E3 as [E3 E4].
  assert (Hc : candidate_source_layer c = -1 \/ candidate_source_layer c ∈ index_source_layers c).
  { apply andb_false_iff in E4 as [E4|E4]; bool_facts; [left; lia|right; by apply bool_decide_eq_true in E4]. }
  pose proof (fun w => walk_ok c (conj Hr (conj Hu1 (conj Hu2 Hd))) E1 E2 Hc _ w (le_n _)) as Hw.
  destruct (foldM (visit c) _ _) as [w|e].
  - destruct (Hw w) as [Hw1 _]. destruct Hw1 as [Hall ->]; [done|]. cbn [walk_at w_layers].
    split; [intros [= <-]|intros [_ ->]; done]. split; [|done]. split_and!; try done; try lia.
    intros layer Hl. specialize (Hall (Z.to_nat layer)). rewrite Z2Nat.id in Hall by (destruct Hl; lia). apply Hall; [destruct Hl; lia|done].
  - split; [discriminate|]. intros ((_ & _ & _ & _ & _ & _ & _ & Hall) & _).
    destruct (Hw (walk_at c (length (compress_ratios c)))) as [_ Hw2]. discriminate Hw2. split; [|done]. intros i _ Hi. by apply Hall.
Qed.

(** ** The payload *)

(** The payload without machine bounds. *)
Definition exact_payload (l : attention_layout) (context main_row index_row window_row : Z) : attention_payload_budget :=
  let total row := zsum ((fun owner => context / ratio_at (config_ l) owner * row) <$> kv_source_layers (config_ l)) in
  mk_budget (total main_row) (total index_row)
    (window_row * sliding_window (config_ l) * Z.of_nat (length (layers_ l))) (total main_row + total index_row).

Lemma multiply_spec a b : 0 <= a -> 0 <= b -> multiply a b = if decide (a * b <= UINT64_MAX) then Ok (a * b) else Err overflow_error.
Proof.
  intros Ha Hb. unfold multiply, UINT64_MAX. destruct (decide (b = 0)) as [->|Hb0].
  { rewrite Z.mul_0_r. by rewrite decide_True by lia. }
  rewrite (proj2 (Z.eqb_neq b 0)) by done. simpl negb. rewrite andb_true_l.
  case_decide as Hd.
  - rewrite (proj2 (Z.ltb_ge _ _)); [done|]. apply Z.div_le_lower_bound; lia.
  - rewrite (proj2 (Z.ltb_lt _ _)); [done|]. apply Z.div_lt_upper_bound; lia.
Qed.

Lemma add_spec a b : add a b = if decide (a + b <= UINT64_MAX) then Ok (a + b) else Err overflow_error.
Proof. unfold add. case_decide; [rewrite (proj2 (Z.ltb_ge _ _)) by lia|rewrite (proj2 (Z.ltb_lt _ _)) by lia]; done. Qed.

Lemma zsum_cons x l : zsum (x :: l) = x + zsum l.
Proof. done. Qed.

Lemma rows_nonneg c context owner : 0 <= context -> Forall u32 (compress_ratios c) -> 0 <= context / ratio_at c owner.
Proof.
  intros Hc Hu. unfold ratio_at. destruct (compress_ratios c !! Z.to_nat owner) as [r|] eqn:E; cbn; [|by rewrite Z.div_0_r].
  rewrite Forall_lookup in Hu. apply Hu in E. unfold u32 in E.
  destruct (decide (r = 0)) as [->|]; [by rewrite Z.div_0_r|apply Z.div_pos; lia].
Qed.

Lemma bank_total_nonneg c context row owners : 0 <= context -> 0 <= row -> Forall u32 (compress_ratios c) ->
  0 <= zsum ((fun owner => context / ratio_at c owner * row) <$> owners).
Proof.
  intros Hc Hr Hu. apply zsum_nonneg, Forall_forall. intros x (o & -> & _)%list_elem_of_fmap.
  apply Z.mul_nonneg_nonneg; [by apply rows_nonneg|done].
Qed.

Lemma add_bank_spec c context main_row index_row m i owner : 0 <= context -> 0 <= main_row -> 0 <= index_row -> 0 <= m -> 0 <= i ->
  Forall u32 (compress_ratios c) ->
  let M := m + context / ratio_at c owner * main_row in
  let I := i + context / ratio_at c owner * index_row in
  add_bank c context main_row index_row (m, i) owner =
  if decide (M <= UINT64_MAX /\ I <= UINT64_MAX) then Ok (M, I) else Err overflow_error.
Proof.
  intros Hc Hm Hi Hm0 Hi0 Hu M I. pose proof (rows_nonneg c context owner Hc Hu). unfold add_bank. cbn [fst snd].
  rewrite !multiply_spec by done. subst M I. set (pm := _ * main_row). set (pi := _ * index_row).
  assert (0 <= pm) by nia. assert (0 <= pi) by nia.
  destruct (decide (pm <= UINT64_MAX)); [|rewrite decide_False by lia; done]. rewrite add_spec.
  destruct (decide (m + pm <= UINT64_MAX)); [|rewrite decide_False by lia; done].
  destruct (decide (pi <= UINT64_MAX)); [|rewrite decide_False by lia; done]. rewrite add_spec.
  destruct (decide (i + pi <= UINT64_MAX)); [rewrite decide_True by lia|rewrite decide_False by lia]; done.
Qed.

(** The loop over the banks; what it adds up never exceeds the totals. *)
Lemma bank_totals c context main_row index_row owners m i : 0 <= context -> 0 <= main_row -> 0 <= index_row -> 0 <= m -> 0 <= i ->
  Forall u32 (compress_ratios c) ->
  let M := m + zsum ((fun owner => context / ratio_at c owner * main_row) <$> owners) in
  let I := i + zsum ((fun owner => context / ratio_at c owner * index_row) <$> owners) in
  0 <= M /\ 0 <= I /\
  let r := foldM (add_bank c context main_row index_row) owners (m, i) in
  (r = Ok (M, I) \/ r = Err overflow_error /\ (UINT64_MAX < M \/ UINT64_MAX < I)).
Proof.
  intros Hc Hm Hi. revert m i. induction owners as [|o owners IH]; intros m i Hm0 Hi0 Hu.
  { cbn. split_and!; try lia. left. by rewrite !Z.add_0_r. }
  rewrite !fmap_cons, !zsum_cons. cbn [foldM]. rewrite add_bank_spec by done. cbv zeta.
  pose proof (rows_nonneg c context o Hc Hu) as Hr.
  destruct (IH (m + context / ratio_at c o * main_row) (i + context / ratio_at c o * index_row)) as (Hm1 & Hi1 & IHr); try done; try nia.
  set (pm := context / ratio_at c o * main_row) in *. set (pi := context / ratio_at c o * index_row) in *.
  assert (0 <= pm) by nia. assert (0 <= pi) by nia.
  pose proof (bank_total_nonneg c context main_row owners Hc Hm Hu). pose proof (bank_total_nonneg c context index_row owners Hc Hi Hu).
  set (sm := zsum ((fun owner => _ * main_row) <$> owners)) in *. set (si := zsum ((fun owner => _ * index_row) <$> owners)) in *.
  split_and!; try lia. rewrite !Z.add_assoc. case_decide; [exact IHr|]. right. split; [done|lia].
Qed.

(** The budget of one encoding: the exact payload if it fits 64 bits, an overflow
    error if it does not. *)
Lemma payload_budget_spec l context encoding main_row index_row window_row : 0 < context -> config_typed (config_ l) ->
  sliding_window (config_ l) <> 0 -> layers_ l <> [] -> row_bytes_of (config_ l) encoding = Ok (main_row, index_row, window_row) ->
  let p := exact_payload l context main_row index_row window_row in
  payload_budget l context encoding =
  if decide (global_bytes p <= UINT64_MAX /\ sliding_window_bytes p <= UINT64_MAX) then Ok p else Err overflow_error.
Proof.
  intros Hc (Hr & _ & _ & _ & Hh & Hih & Hw) Hw0 Hl Hrow p. unfold payload_budget. rewrite (proj2 (Z.eqb_neq context 0)) by lia. rewrite Hrow.
  assert (Hrows : 0 <= main_row /\ 0 <= index_row /\ 0 <= window_row).
  { unfold row_bytes_of, u32 in *. destruct encoding.
    - rewrite !multiply_spec in Hrow by lia. repeat case_decide; try discriminate. injection Hrow as <- <- <-. lia.
    - destruct (_ || _); [discriminate|]. injection Hrow as <- <- <-.
      pose proof (Z.div_pos (head_dim (config_ l)) 2). pose proof (Z.div_pos (head_dim (config_ l)) 16). pose proof (Z.div_pos (head_dim (config_ l)) 32).
      pose proof (Z.div_pos (index_head_dim (config_ l)) 2). pose proof (Z.div_pos (index_head_dim (config_ l)) 32). lia. }
  destruct Hrows as (Hm & Hi & Hwr).
  destruct (bank_totals (config_ l) context main_row index_row (kv_source_layers (config_ l)) 0 0) as (HM & HI & Hf); try done; try lia.
  rewrite !Z.add_0_l in *. change (zsum _) with (main_kv_bytes p) in HM at 1. change (zsum _) with (index_key_bytes p) in HI.
  assert (Hg : global_bytes p = main_kv_bytes p + index_key_bytes p) by done.
  destruct Hf as [->|[-> Hf]].
  2: { rewrite decide_False; [done|]. intros [Hd _]. rewrite Hg in Hd. cbn in Hd, HM, HI. lia. }
  cbn beta iota. rewrite add_spec. change (zsum _ + zsum _) with (global_bytes p).
  destruct (decide (global_bytes p <= UINT64_MAX)) as [Hd|Hd]; [|rewrite decide_False; [done|tauto]].
  unfold u32 in Hw. rewrite multiply_spec by lia.
  assert (Hn : 1 <= Z.of_nat (length (layers_ l))) by (destruct (layers_ l); [done|simpl; lia]).
  assert (Hle : window_row * sliding_window (config_ l) <= sliding_window_bytes p).
  { cbn. pose proof (Z.mul_nonneg_nonneg window_row (sliding_window (config_ l))). nia. }
  case_decide as Hd2; [|rewrite decide_False; [done|intros [_ ?]; lia]].
  rewrite multiply_spec by nia. change (_ * _ * _) with (sliding_window_bytes p).
  destruct (decide (sliding_window_bytes p <= UINT64_MAX)); [rewrite decide_True by done; done|rewrite decide_False; [done|tauto]].
Qed.

(** ** The theorem *)

(** C23: For values that fit the fields of the configuration, the constructor accepts it
    exactly when all of the following hold: there are between 1 and INT32_MAX layers; the
    two head dimensions and the sliding window are not zero; the bank sources and the
    indexer sources are both strictly increasing lists of compressed layers; the
    candidate source is -1 or one of the indexers; every bank is also an indexer; and
    for every compressed layer there is a bank at or before it, the last such bank has
    the layer's compression ratio, and, if the candidate source is at or before the
    layer, that source reads the same bank.  The layout is then the expected one: an
    uncompressed layer reads only its window, and a compressed layer reads keys and
    index keys from the last bank at or before it, top-k indices from the last indexer
    at or before it, and candidates from the configured source once it is reached. *)
Theorem layout_owners_are_right c l : config_typed c ->
  make_layout c = Ok l <-> layout_valid c /\ l = mk_layout c (layout_of c).
Proof. apply make_layout_ok. Qed.

(** Six layers: a window, a bank with two readers, and a second bank. *)
Definition demo_layout_config : attention_layout_config := mk_config [0; 4; 4; 4; 2; 2] [1; 4] [1; 3; 4] 4 64 32 8.

Lemma layout_owners_are_right_witness : config_typed demo_layout_config /\
  make_layout demo_layout_config = Ok (mk_layout demo_layout_config (layout_of demo_layout_config)) /\ layout_valid demo_layout_config /\
  layout_of demo_layout_config !! 3%nat = Some (mk_layer reindex 4 1 1 3 (-1)).
Proof.
  assert (Ht : config_typed demo_layout_config).
  { unfold config_typed, u32, demo_layout_config, UINT32_MAX, INT32_MAX. simpl. split_and!; try lia; repeat (constructor; [lia|]); constructor. }
  assert (Hm : make_layout demo_layout_config = Ok (mk_layout demo_layout_config (layout_of demo_layout_config))) by (vm_compute; reflexivity).
  split; [exact Ht|]. split; [exact Hm|]. split; [|vm_compute; reflexivity].
  exact (proj1 (proj1 (layout_owners_are_right demo_layout_config _ Ht) Hm)).
Defined.
