(* ===== verification/Binary32.v ===== *)
(** * IEEE binary32

    [float] as [SpecFloat] with precision 24 and maximal exponent 128, rounding to
    nearest even: the operations and the functions of [math.h] that the packed
    cache formats use, the range of what a division returns, and the cases in
    which dividing by a power of two is exact. *)

From S2P Require Import Prelude Binary64.
Open Scope Z_scope.

(** ** [float] *)

Abbreviation float := spec_float.

Definition s_add : float -> float -> float := SFadd 24 128.
Definition s_sub : float -> float -> float := SFsub 24 128.
Definition s_mul : float -> float -> float := SFmul 24 128.
Definition s_div : float -> float -> float := SFdiv 24 128.

(** [n * 2^e] rounded to [float]: integer and binary constants *)
Definition s_of (n e : Z) : float := binary_normalize 24 128 n e false.
Definition s_zero : float := S754_zero false.
Definition s_nan : float := S754_nan.

Definition sign_bit (x : float) : bool :=
  match x with S754_zero s | S754_infinity s | S754_finite s _ _ => s | S754_nan => false end.

Definition s_copysign (x y : float) : float :=
  match x with
  | S754_zero _ => S754_zero (sign_bit y)
  | S754_infinity _ => S754_infinity (sign_bit y)
  | S754_nan => S754_nan
  | S754_finite _ m e => S754_finite (sign_bit y) m e
  end.

(** [fmaxf] and [fminf] ignore one NaN. *)
Definition s_max (a b : float) : float :=
  if is_nan a then b else if is_nan b then a else if SFltb a b then b else a.
Definition s_min (a b : float) : float :=
  if is_nan a then b else if is_nan b then a else if SFltb b a then b else a.

Definition s_floor (x : float) : float :=
  match x with
  | S754_finite s m e => if 0 <=? e then x else s_of (cond_Zopp s (Zpos m) / 2 ^ (- e)) 0
  | _ => x
  end.

(** [fmodf(x, y)] on finite arguments, [y] not zero: exact, with the sign of [x]. *)
Definition s_mod (x y : float) : float :=
  match x, y with
  | S754_finite s m e, S754_finite _ m' e' =>
      let ez := Z.min e e' in
      let r := (Zpos m * 2 ^ (e - ez)) mod (Zpos m' * 2 ^ (e' - ez)) in
      s_copysign (s_of r ez) x
  | S754_zero _, S754_finite _ _ _ => x
  | S754_finite _ _ _, S754_infinity _ => x
  | _, _ => S754_nan
  end.

(** [frexpf]: a fraction in [0.5, 1) and an exponent; a zero has exponent 0. *)
Definition s_frexp (x : float) : float * Z :=
  match x with S754_finite _ _ _ => SFfrexp 24 128 x | _ => (x, 0) end.

Definition s_ldexp (x : float) (e : Z) : float := SFldexp 24 128 x e.

(** [(int) x]: towards zero *)
Definition s_trunc (x : float) : Z :=
  match x with
  | S754_finite s m e => cond_Zopp s (if 0 <=? e then Zpos m * 2 ^ e else Zpos m / 2 ^ (- e))
  | _ => 0
  end.

Definition valid32 (x : float) : Prop := valid_binary 24 128 x = true.

(** ** Digits *)

Lemma digits2_log2 p : Zpos (digits2_pos p) = Z.log2 (Zpos p) + 1.
Proof.
  induction p as [p IH|p IH|]; cbn [digits2_pos]; try done; rewrite Pos2Z.inj_succ, IH.
  - rewrite (Pos2Z.inj_xI p), Z.log2_succ_double by lia. lia.
  - rewrite (Pos2Z.inj_xO p), Z.log2_double by lia. lia.
Qed.

Lemma digits2_bounds p : 2 ^ (Zpos (digits2_pos p) - 1) <= Zpos p < 2 ^ Zpos (digits2_pos p).
Proof. rewrite digits2_log2. replace (_ + 1 - 1) with (Z.log2 (Zpos p)) by lia. apply (Z.log2_spec (Zpos p)). lia. Qed.

Lemma Zdigits2_bounds m : 0 < m -> 2 ^ (Zdigits2 m - 1) <= m < 2 ^ Zdigits2 m.
Proof. intros H. destruct m as [|p|p]; try lia. apply digits2_bounds. Qed.

Lemma Zdigits2_nonneg m : 0 <= m -> 0 <= Zdigits2 m.
Proof. destruct m; simpl; lia. Qed.

Lemma Zdigits2_mono m m' : 0 <= m <= m' -> Zdigits2 m <= Zdigits2 m'.
Proof.
  intros H. destruct m as [|p|p], m' as [|p'|p']; cbn [Zdigits2]; try lia.
  rewrite !digits2_log2. pose proof (Z.log2_le_mono (Zpos p) (Zpos p')). lia.
Qed.

Lemma Zdigits2_unique m d : 0 < m -> 2 ^ (d - 1) <= m < 2 ^ d -> Zdigits2 m = d.
Proof.
  intros Hm Hd. destruct m as [|p|p]; try lia. cbn [Zdigits2]. rewrite digits2_log2.
  rewrite (Z.log2_unique (Zpos p) (d - 1)); [lia| |replace (Z.succ (d - 1)) with d by lia; done].
  destruct (Z_lt_ge_dec (d - 1) 0); [|lia]. exfalso. rewrite (Z.pow_neg_r 2 (d - 1)) in Hd by done.
  destruct (decide (d = 0)) as [->|]; [simpl in Hd; lia|]. rewrite (Z.pow_neg_r 2 d) in Hd by lia. lia.
Qed.

(** ** Shifting right *)

Lemma iter_pos_nat {A} (f : A -> A) n x : iter_pos f n x = Nat.iter (Pos.to_nat n) f x.
Proof.
  revert x. induction n as [n IH|n IH|]; intros x; cbn [iter_pos].
  - rewrite !IH, Pos2Nat.inj_xI, <- Nat.iter_add, Nat.iter_succ_r. f_equal. lia.
  - rewrite !IH, Pos2Nat.inj_xO, <- Nat.iter_add. f_equal. lia.
  - done.
Qed.

Lemma shr_1_m r : 0 <= shr_m r -> shr_m (shr_1 r) = shr_m r / 2.
Proof.
  destruct r as [[|[p|p|]|p] b c]; cbn [shr_m]; intros H; try lia; try done.
  - cbn [shr_1 shr_m]. rewrite Pos2Z.inj_xI. apply (Z.div_unique _ 2 (Zpos p) 1); lia.
  - cbn [shr_1 shr_m]. rewrite Pos2Z.inj_xO. apply (Z.div_unique _ 2 (Zpos p) 0); lia.
Qed.

Lemma shr_iter_m n r : 0 <= shr_m r -> shr_m (Nat.iter n shr_1 r) = shr_m r / 2 ^ Z.of_nat n.
Proof.
  intros H. induction n as [|n IH]; [by rewrite Z.pow_0_r, Z.div_1_r|].
  rewrite Nat.iter_succ, shr_1_m; rewrite IH.
  - rewrite Z.div_div by lia. f_equal. rewrite Nat2Z.inj_succ, Z.pow_succ_r by lia. lia.
  - apply Z.div_pos; lia.
Qed.

Lemma shr_iter_exact n m : 0 <= m ->
  Nat.iter n shr_1 (Build_shr_record (m * 2 ^ Z.of_nat n) false false) = Build_shr_record m false false.
Proof.
  intros H. induction n as [|n IH]; [by rewrite Z.pow_0_r, Z.mul_1_r|].
  rewrite Nat.iter_succ_r. replace (shr_1 _) with (Build_shr_record (m * 2 ^ Z.of_nat n) false false); [done|].
  rewrite Nat2Z.inj_succ, Z.pow_succ_r by lia. replace (m * (2 * 2 ^ Z.of_nat n)) with (2 * (m * 2 ^ Z.of_nat n)) by lia.
  assert (0 <= m * 2 ^ Z.of_nat n) by nia. by destruct (m * 2 ^ Z.of_nat n) as [|p|p]; try lia.
Qed.

Lemma shr_m_of_loc m l : shr_m (shr_record_of_loc m l) = m.
Proof. by destruct l as [|[]]. Qed.

(** [shr_fexp] divides the mantissa and raises the exponent to [fexp]. *)
Lemma shr_fexp_spec m e l : 0 <= m ->
  let n := Z.max 0 (fexp 24 128 (Zdigits2 m + e) - e) in
  exists r, shr_fexp 24 128 m e l = (r, e + n) /\ shr_m r = m / 2 ^ n.
Proof.
  intros Hm n. unfold shr_fexp, shr. subst n. destruct (fexp 24 128 (Zdigits2 m + e) - e) as [|p|p].
  - exists (shr_record_of_loc m l). rewrite Z.max_l, Z.pow_0_r, Z.div_1_r, Z.add_0_r by lia. split; [done|apply shr_m_of_loc].
  - exists (iter_pos shr_1 p (shr_record_of_loc m l)). rewrite Z.max_r by lia. split; [done|].
    rewrite iter_pos_nat, shr_iter_m, shr_m_of_loc by (by rewrite shr_m_of_loc). by rewrite positive_nat_Z.
  - exists (shr_record_of_loc m l). rewrite Z.max_l, Z.pow_0_r, Z.div_1_r, Z.add_0_r by lia. split; [done|apply shr_m_of_loc].
Qed.

Lemma shr_fexp_exact m e n : 0 <= m -> 0 <= n -> fexp 24 128 (Zdigits2 (m * 2 ^ n) + e) - e = n ->
  shr_fexp 24 128 (m * 2 ^ n) e loc_Exact = (Build_shr_record m false false, e + n).
Proof.
  intros Hm Hn E. unfold shr_fexp, shr. rewrite E. destruct n as [|p|p]; try lia.
  - by rewrite Z.pow_0_r, Z.mul_1_r, Z.add_0_r.
  - cbn [shr_record_of_loc]. rewrite iter_pos_nat. f_equal. rewrite <- (positive_nat_Z p) at 1. by apply shr_iter_exact.
Qed.

(** ** Rounding *)

Lemma round_up m l : 0 <= m -> m <= round_nearest_even m l <= m + 1.
Proof. intros H. destruct l as [|[]]; cbn; try lia. destruct (Z.even m); lia. Qed.

(** The digits left by a shift. *)
Lemma digits_after_shift m n : 0 <= m -> 0 <= n -> Zdigits2 (m / 2 ^ n) = Z.max 0 (Zdigits2 m - n).
Proof.
  intros Hm0 Hn. destruct (decide (m = 0)) as [->|Hne]; [rewrite Z.div_0_l by lia; simpl Zdigits2; lia|].
  assert (Hm : 0 < m) by lia. pose proof (Zdigits2_bounds m Hm) as [Hlo Hhi]. set (d := Zdigits2 m) in *.
  assert (Hd : 0 <= d) by (apply Zdigits2_nonneg; lia).
  destruct (Z_le_gt_dec d n).
  - rewrite Z.max_l by lia. rewrite Z.div_small; [done|]. split; [lia|]. eapply Z.lt_le_trans; [done|]. apply Z.pow_le_mono_r; lia.
  - rewrite Z.max_r by lia. apply Zdigits2_unique.
    + apply Z.div_str_pos. split; [lia|]. eapply Z.le_trans; [|exact Hlo]. apply Z.pow_le_mono_r; lia.
    + split.
      * apply Z.div_le_lower_bound; [lia|]. rewrite <- Z.pow_add_r by lia. by replace (n + (d - n - 1)) with (d - 1) by lia.
      * apply Z.div_lt_upper_bound; [lia|]. rewrite <- Z.pow_add_r by lia. by replace (n + (d - n)) with d by lia.
Qed.

(** What [binary_round_aux] returns is a [float], if it is given enough digits. *)
Lemma round_aux_valid s m e l : 0 <= m -> e <= fexp 24 128 (Zdigits2 m + e) -> valid32 (binary_round_aux 24 128 s m e l).
Proof.
  intros Hm He. unfold binary_round_aux.
  destruct (shr_fexp_spec m e l ltac:(lia)) as (r & -> & Hr). rewrite Z.max_r in * by lia.
  set (e1 := e + (fexp 24 128 (Zdigits2 m + e) - e)) in *. assert (E1 : e1 = fexp 24 128 (Zdigits2 m + e)) by (subst e1; lia).
  set (m1 := shr_m r) in *. set (n := fexp 24 128 (Zdigits2 m + e) - e) in *.
  assert (Hd1 : Zdigits2 m1 = Z.max 0 (Zdigits2 m - n)) by (rewrite Hr; apply digits_after_shift; lia).
  assert (Hm1 : 0 <= m1) by (rewrite Hr; apply Z.div_pos; lia).
  pose proof (round_up m1 (loc_of_shr_record r) Hm1) as Hround. set (m2 := round_nearest_even m1 _) in *.
  destruct (shr_fexp_spec m2 e1 loc_Exact ltac:(lia)) as (r2 & -> & Hr2). cbn beta iota.
  set (n2 := Z.max 0 (fexp 24 128 (Zdigits2 m2 + e1) - e1)) in *.
  destruct (shr_m r2) as [|p|p] eqn:Ep; try done. destruct (_ <=? _) eqn:Eb; [|done]. bool_facts.
  assert (Hm2 : 0 < m2). { destruct (decide (m2 = 0)) as [E0|]; [|lia]. rewrite E0, Z.div_0_l in Hr2; lia. }
  unfold valid32, valid_binary, bounded, canonical_mantissa. rewrite (proj2 (Z.leb_le _ _)) by done. rewrite andb_true_r.
  apply Z.eqb_eq. change (Zpos (digits2_pos p)) with (Zdigits2 (Zpos p)). rewrite Hr2.
  rewrite digits_after_shift by lia.
  assert (Hlow : Zdigits2 m1 <= Zdigits2 m2) by (apply Zdigits2_mono; lia).
  assert (Hd2 : Zdigits2 m2 <= Zdigits2 m1 + 1).
  { destruct (decide (m1 = 0)) as [E0|]; [rewrite E0 in *; destruct (decide (m2 = 1)) as [->|]; [done|lia]|].
    pose proof (Zdigits2_bounds m1 ltac:(lia)). pose proof (Zdigits2_bounds m2 Hm2).
    destruct (Z_le_gt_dec (Zdigits2 m2) (Zdigits2 m1 + 1)) as [|Hgt]; [done|]. exfalso.
    assert (2 ^ (Zdigits2 m1 + 1) <= 2 ^ (Zdigits2 m2 - 1)) by (apply Z.pow_le_mono_r; lia).
    pose proof (Zdigits2_nonneg m1 Hm1). rewrite Z.pow_add_r in * by lia. lia. }
  unfold fexp, emin in *. lia.
Qed.

(** ** Division *)

Lemma digits_of_quotient a b : 0 < a -> 0 < b -> Zdigits2 a - Zdigits2 b <= Zdigits2 (a / b).
Proof.
  intros Ha Hb. pose proof (Zdigits2_bounds a Ha) as [Hlo _]. pose proof (Zdigits2_bounds b Hb) as [_ Hhi].
  set (da := Zdigits2 a) in *. set (db := Zdigits2 b) in *.
  assert (0 <= da /\ 0 <= db) as [Hda Hdb] by (split; apply Zdigits2_nonneg; lia).
  destruct (Z_le_gt_dec da db). { pose proof (Zdigits2_nonneg (a / b)). pose proof (Z.div_pos a b). lia. }
  assert (Hq : 2 ^ (da - 1 - db) <= a / b).
  { apply Z.div_le_lower_bound; [done|]. eapply Z.le_trans; [|exact Hlo].
    replace (da - 1) with (db + (da - 1 - db)) at 2 by lia. rewrite Z.pow_add_r by lia. apply Z.mul_le_mono_nonneg_r; lia. }
  pose proof (Zdigits2_bounds (a / b) ltac:(lia)) as [_ Hq2].
  destruct (Z_lt_ge_dec (Zdigits2 (a / b)) (da - db)); [|lia]. exfalso.
  assert (2 ^ Zdigits2 (a / b) <= 2 ^ (da - 1 - db)) by (apply Z.pow_le_mono_r; lia). lia.
Qed.

(** The quotient and its exponent before rounding. *)
Lemma div_core m1 e1 m2 e2 :
  let d := Zdigits2 (Zpos m1) + e1 - (Zdigits2 (Zpos m2) + e2) in
  let e := Z.min (fexp 24 128 d) (e1 - e2) in
  exists l, SFdiv_core_binary 24 128 (Zpos m1) e1 (Zpos m2) e2 = (Zpos m1 * 2 ^ (e1 - e2 - e) / Zpos m2, e, l) /\
            ((Zpos m1 * 2 ^ (e1 - e2 - e)) mod Zpos m2 = 0 -> l = loc_Exact).
Proof.
  intros d e. unfold SFdiv_core_binary. fold d. fold e.
  assert (Hs : 0 <= e1 - e2 - e) by (subst e; lia).
  replace (match e1 - e2 - e with Z0 => _ | _ => _ end) with (Zpos m1 * 2 ^ (e1 - e2 - e)).
  2: { destruct (e1 - e2 - e) as [|s|s]; try lia. rewrite Z.shiftl_mul_pow2 by lia. done. }
  rewrite (surjective_pairing (Z.div_eucl _ _)). eexists. split; [done|].
  intros Hr. unfold Z.modulo in Hr. destruct (Z.div_eucl _ _) as [q r]. cbn [snd]. rewrite Hr.
  unfold new_location. by destruct (Z.even _).
Qed.

Lemma div_valid x y : valid32 (s_div x y).
Proof.
  destruct x as [s1|s1| |s1 m1 e1], y as [s2|s2| |s2 m2 e2]; try done. unfold s_div, SFdiv.
  destruct (div_core m1 e1 m2 e2) as (l & -> & _). cbv zeta.
  set (d := Zdigits2 (Zpos m1) + e1 - (Zdigits2 (Zpos m2) + e2)). set (e := Z.min _ (e1 - e2)).
  assert (Hs : 0 <= e1 - e2 - e) by (subst e; lia).
  assert (Hp : 0 < Zpos m1 * 2 ^ (e1 - e2 - e)) by (apply Z.mul_pos_pos; [lia|apply Z.pow_pos_nonneg; lia]).
  apply round_aux_valid; [apply Z.div_pos; lia|].
  pose proof (digits_of_quotient _ (Zpos m2) Hp ltac:(lia)) as Hd.
  assert (Hd1 : Zdigits2 (Zpos m1 * 2 ^ (e1 - e2 - e)) = Zdigits2 (Zpos m1) + (e1 - e2 - e)).
  { pose proof (Zdigits2_bounds (Zpos m1) ltac:(lia)) as [Hlo Hhi]. apply Zdigits2_unique; [done|].
    replace (Zdigits2 (Zpos m1) + (e1 - e2 - e) - 1) with (Zdigits2 (Zpos m1) - 1 + (e1 - e2 - e)) by lia.
    assert (0 < Zdigits2 (Zpos m1)) by (simpl; lia). rewrite !Z.pow_add_r by lia.
    assert (0 < 2 ^ (e1 - e2 - e)) by (apply Z.pow_pos_nonneg; lia). nia. }
  rewrite Hd1 in Hd. clear Hd1 Hp. set (q := Zdigits2 (_ / _)) in *. clearbody q. subst e d. unfold fexp, emin in *. lia.
Qed.

Lemma digits_shifted m n : 0 < m -> 0 <= n -> Zdigits2 (m * 2 ^ n) = Zdigits2 m + n.
Proof.
  intros Hm Hn. pose proof (Zdigits2_bounds m Hm) as [Hlo Hhi].
  assert (Hp : 0 < 2 ^ n) by (apply Z.pow_pos_nonneg; lia).
  assert (Hd : 0 < Zdigits2 m) by (destruct m; simpl; lia).
  apply Zdigits2_unique; [nia|]. replace (Zdigits2 m + n - 1) with (Zdigits2 m - 1 + n) by lia.
  rewrite !Z.pow_add_r by lia. nia.
Qed.

(** A mantissa that needs no rounding, and the exponent it is given. *)
Lemma round_aux_exact s m e n : 0 < m -> 0 <= n -> fexp 24 128 (Zdigits2 m + n + e) = e + n -> e + n <= 104 ->
  binary_round_aux 24 128 s (m * 2 ^ n) e loc_Exact = S754_finite s (Z.to_pos m) (e + n).
Proof.
  intros Hm Hn Hf Hmax. unfold binary_round_aux.
  rewrite shr_fexp_exact; [|lia|done|rewrite digits_shifted by done; lia]. cbn [loc_of_shr_record round_nearest_even shr_m].
  rewrite <- (Z.mul_1_r m) at 1. change 1 with (2 ^ 0).
  rewrite shr_fexp_exact; [|lia|lia|rewrite digits_shifted by lia].
  - cbn [shr_m]. destruct m as [|p|p]; try lia. rewrite Z.add_0_r. change (128 - 24) with 104. by rewrite (proj2 (Z.leb_le _ _) Hmax).
  - replace (Zdigits2 m + 0 + (e + n)) with (Zdigits2 m + n + e) by lia. lia.
Qed.

(** Dividing by a power of two is exact unless the result underflows. *)
Lemma div_pow2 s m e1 s' e2 :
  let d := Zdigits2 (Zpos m) + e1 - e2 - 23 in
  Zdigits2 (Zpos m) <= 24 -> -126 <= e1 - e2 -> d <= 128 ->
  s_div (S754_finite s m e1) (S754_finite s' (2 ^ 23) e2) =
  S754_finite (xorb s s') (Z.to_pos (Zpos m * 2 ^ (e1 - e2 - 23 - fexp 24 128 d))) (fexp 24 128 d).
Proof.
  intros d Hd He Hmax. unfold s_div, SFdiv. destruct (div_core m e1 (2 ^ 23) e2) as (l & -> & Hl). cbv zeta in *.
  change (Zdigits2 (Zpos (2 ^ 23))) with 24 in *. change (Zpos (2 ^ 23)) with (2 ^ 23) in *.
  set (e := Z.min (fexp 24 128 (Zdigits2 (Zpos m) + e1 - (24 + e2))) (e1 - e2)) in *.
  assert (Hd0 : 0 < Zdigits2 (Zpos m)) by (simpl; lia).
  assert (He1 : e <= e1 - e2 - 23 /\ 0 <= fexp 24 128 d - e /\ 0 <= e1 - e2 - 23 - fexp 24 128 d).
  { subst e d. unfold fexp, emin. lia. }
  destruct He1 as (He1 & He2 & He3).
  replace (Zpos m * 2 ^ (e1 - e2 - e)) with (Zpos m * 2 ^ (e1 - e2 - e - 23) * 2 ^ 23) in *.
  2: { rewrite <- Z.mul_assoc, <- Z.pow_add_r by lia. do 2 f_equal. lia. }
  rewrite Z.div_mul by lia. rewrite Hl by (apply Z.mod_mul; lia).
  replace (e1 - e2 - e - 23) with (e1 - e2 - 23 - fexp 24 128 d + (fexp 24 128 d - e)) by lia.
  rewrite Z.pow_add_r, Z.mul_assoc by lia.
  rewrite round_aux_exact.
  - f_equal. lia.
  - apply Z.mul_pos_pos; [lia|apply Z.pow_pos_nonneg; lia].
  - lia.
  - rewrite digits_shifted by lia. replace (_ + _ + e) with d by (subst d; lia). lia.
  - subst d. unfold fexp, emin. lia.
Qed.
