(* ===== verification/Qat.v ===== *)
(** * Quantised rows

    [src/ggml/src/ggml-qat-impl.h] and [ggml-qat.c]: the quantise-dequantise
    transform the model was trained with, and the packed rows of the attention
    cache in its three formats (FP8 values with power-of-two scales, FP4 values with
    power-of-two scales, FP4 values with E4M3 scales). *)

From S2P Require Import Prelude Binary64 Binary32.
Open Scope Z_scope.

Inductive ggml_qat_format := GGML_QAT_FP8_E8M0 | GGML_QAT_FP4_E8M0 | GGML_QAT_FP4_E4M3.

#[export] Instance ggml_qat_format_eq_dec : EqDecision ggml_qat_format.
Proof. solve_decision. Defined.

(** ** The transform *)

(** The constants of the code. *)
Definition k_half : float := s_of 1 (-1).
Definition k_one : float := s_of 1 0.
Definition k_two : float := s_of 2 0.
Definition k_6 : float := s_of 6 0.
Definition k_448 : float := s_of 448 0.
Definition k_n448 : float := s_of (-448) 0.
Definition k_2_m6 : float := s_of 1 (-6).
Definition k_2_m9 : float := s_of 1 (-9).
(** [1e-4f] is 13743895 / 2^37. *)
Definition k_1e_4 : float := s_of 13743895 (-37).

Definition levels : list float := [s_zero; k_half; k_one; s_of 3 (-1); k_two; s_of 3 0; s_of 4 0; k_6].
Definition level (i : nat) : float := nth i levels s_zero.

Definition ggml_qat_rne_positive (value : float) : float :=
  let lower := s_floor value in
  let remainder := s_sub value lower in
  s_add lower (if SFltb k_half remainder || (SFeqb remainder k_half && negb (SFeqb (s_mod lower k_two) s_zero))
               then k_one else s_zero).

Definition ggml_qat_e4m3 (value : float) : float :=
  let magnitude := SFabs value in
  if negb (is_finite magnitude) then s_nan else
  let exponent := snd (s_frexp magnitude) in
  let step := if SFltb magnitude k_2_m6 then k_2_m9 else s_ldexp k_one (exponent - 4) in
  let quantized := s_mul (ggml_qat_rne_positive (s_div magnitude step)) step in
  if SFltb k_448 quantized then s_nan else s_copysign quantized value.

Definition ggml_qat_power2_scale (value : float) : float :=
  let (fraction, exponent) := s_frexp value in
  s_ldexp k_one (if SFeqb fraction k_half then exponent - 1 else exponent).

(** One round of the search of the nearest level. *)
Definition nearer (magnitude : float) (b : nat * float) (i : nat) : nat * float :=
  let next := SFabs (s_sub magnitude (level i)) in
  if SFltb next (snd b) || (SFeqb next (snd b) && Nat.even i) then (i, next) else b.

Definition ggml_qat_e2m1 (value : float) : float :=
  let magnitude := s_min (SFabs value) k_6 in
  let best := fst (foldl (nearer magnitude) (0%nat, magnitude) (seq 1 7)) in
  s_copysign (level best) value.

Definition ggml_qat_group_scale (maximum : float) (format : ggml_qat_format) : float :=
  match format with
  | GGML_QAT_FP8_E8M0 => ggml_qat_power2_scale (s_mul (s_max maximum k_1e_4) (s_div k_one k_448))
  | GGML_QAT_FP4_E8M0 => ggml_qat_power2_scale (s_mul (s_max maximum (s_mul k_6 (s_of 1 (-126)))) (s_div k_one k_6))
  | GGML_QAT_FP4_E4M3 => ggml_qat_e4m3 (s_div (s_max maximum (s_mul k_6 k_2_m9)) k_6)
  end.

(** The value a number is rounded to within its group, before the scale. *)
Definition normalized (value scale : float) (format : ggml_qat_format) : float :=
  match format with
  | GGML_QAT_FP8_E8M0 => ggml_qat_e4m3 (s_min k_448 (s_max k_n448 (s_div value scale)))
  | _ => ggml_qat_e2m1 (s_div value scale)
  end.

Definition ggml_qat_value (value scale : float) (format : ggml_qat_format) : float :=
  s_mul (normalized value scale format) scale.

Definition group_width (format : ggml_qat_format) : nat := match format with GGML_QAT_FP4_E4M3 => 16 | _ => 32 end.

(** [maximum] over a group *)
Definition group_maximum (xs : list float) : float := foldl (fun m v => s_max m (SFabs v)) s_zero xs.

(** The group of a row that starts at [group * group_width]. *)
Definition group_of (format : ggml_qat_format) (row : list float) (group : nat) : list float :=
  take (group_width format) (drop (group * group_width format) row).

(** One round of [ggml_qat_forward]. *)
Definition forward_group (format : ggml_qat_format) (xs : list float) : list float :=
  let scale := ggml_qat_group_scale (group_maximum xs) format in
  (fun v => if forallb is_finite xs then ggml_qat_value v scale format else s_nan) <$> xs.

Definition ggml_qat_forward (format : ggml_qat_format) (row : list float) : list float :=
  mjoin ((fun group => forward_group format (group_of format row group)) <$> seq 0 (length row / group_width format)).

(** ** Packed rows *)

Definition value_bytes (width : nat) (format : ggml_qat_format) : nat :=
  match format with GGML_QAT_FP8_E8M0 => width | _ => (width / 2)%nat end.

(** [ggml_qat_row_size]: 0 for a geometry it refuses *)
Definition ggml_qat_row_size (width : nat) (format : ggml_qat_format) : nat :=
  if (width =? 0)%nat || negb (width mod group_width format =? 0)%nat then 0%nat
  else if UINT64_MAX / 2 <? Z.of_nat width then 0%nat
  else (value_bytes width format + width / group_width format)%nat.

Definition qat_e4m3_code (value : float) : Z :=
  let sign := if sign_bit value then 128 else 0 in
  let magnitude := SFabs value in
  if SFltb magnitude k_2_m6 then Z.lor sign (s_trunc (s_mul magnitude (s_of 512 0)) mod 256) else
  let (fraction, exponent) := s_frexp magnitude in
  Z.lor sign ((Z.shiftl (exponent + 6) 3 + s_trunc (s_sub (s_mul fraction (s_of 16 0)) (s_of 8 0))) mod 256).

Definition qat_e4m3_decode (code : Z) : float :=
  let exponent := Z.land (Z.shiftr code 3) 15 in
  let mantissa := Z.land code 7 in
  if (exponent =? 15) && (mantissa =? 7) then s_nan else
  let magnitude := if negb (exponent =? 0)
    then s_ldexp (s_add k_one (s_mul (s_of mantissa 0) (s_of 1 (-3)))) (exponent - 7)
    else s_mul (s_of mantissa 0) k_2_m9 in
  if negb (Z.land code 128 =? 0) then SFopp magnitude else magnitude.

(** The scale byte of a group; [None] where the packing gives up. *)
Definition scale_code (scale : float) (format : ggml_qat_format) : option Z :=
  if negb (is_finite scale) || SFleb scale s_zero then None else
  match format with
  | GGML_QAT_FP4_E4M3 => Some (qat_e4m3_code scale)
  | _ => let code := snd (s_frexp scale) + 126 in
         if (code <? 0) || (255 <=? code) then None else Some code
  end.

Definition scale_decode (code : Z) (format : ggml_qat_format) : float :=
  match format with
  | GGML_QAT_FP4_E4M3 => qat_e4m3_decode code
  | _ => if code =? 255 then s_nan else s_ldexp k_one (code - 127)
  end.

(** The first level equal to the magnitude. *)
Definition level_index (magnitude : float) : Z :=
  match list_find (fun i => SFeqb magnitude (level i) = true) (seq 0 8) with Some (_, i) => Z.of_nat i | None => 0 end.

Definition fp4_code (rounded : float) : Z :=
  Z.lor (if sign_bit rounded then 8 else 0) (level_index (SFabs rounded)).

Definition fp4_decode (code : Z) : float :=
  let l := level (Z.to_nat (Z.land code 7)) in if negb (Z.land code 8 =? 0) then SFopp l else l.

Definition byte_at (packed : list Z) (i : nat) : Z := default 0 (packed !! i).

(** [values[pos]] or a nibble of [values[pos / 2]] *)
Definition store_value (format : ggml_qat_format) (value scale : float) (pos : nat) (packed : list Z) : list Z :=
  match format with
  | GGML_QAT_FP8_E8M0 => <[pos := qat_e4m3_code (normalized value scale format)]> packed
  | _ => let byte := Z.lor (byte_at packed (pos / 2)%nat)
                           (Z.shiftl (fp4_code (normalized value scale format)) (Z.of_nat (pos mod 2) * 4)) in
         <[(pos / 2)%nat := byte mod 256]> packed
  end.

(** One round of the packing of a row. *)
Definition pack_group (format : ggml_qat_format) (row : list float) (width : nat) (packed : list Z) (group : nat) : option (list Z) :=
  let xs := group_of format row group in
  if negb (forallb is_finite xs) then None else
  let scale := ggml_qat_group_scale (group_maximum xs) format in
  match scale_code scale format with
  | None => None
  | Some code =>
      Some (foldl (fun packed i => store_value format (nth i xs s_zero) scale (group * group_width format + i) packed)
                  (<[(value_bytes width format + group)%nat := code]> packed) (seq 0 (group_width format)))
  end.

Fixpoint pack_groups (format : ggml_qat_format) (row : list float) (width : nat) (groups : list nat) (packed : list Z) : option (list Z) :=
  match groups with
  | [] => Some packed
  | group :: groups =>
      match pack_group format row width packed group with
      | Some packed => pack_groups format row width groups packed
      | None => None
      end
  end.

(** [ggml_qat_pack_row(row.data(), packed.data(), width, format)] *)
Definition ggml_qat_pack_row (row : list float) (width : nat) (format : ggml_qat_format) : option (list Z) :=
  let bytes := ggml_qat_row_size width format in
  if (bytes =? 0)%nat then None
  else pack_groups format row width (seq 0 (width / group_width format)) (replicate bytes 0).

(** One round of the unpacking; [None] where it gives up. *)
Definition unpack_value (format : ggml_qat_format) (width : nat) (packed : list Z) (pos : nat) : option float :=
  let scale := scale_decode (byte_at packed (value_bytes width format + pos / group_width format)) format in
  if negb (is_finite scale) || SFleb scale s_zero then None else
  let value := match format with
    | GGML_QAT_FP8_E8M0 => qat_e4m3_decode (byte_at packed pos)
    | _ => fp4_decode (Z.land (Z.shiftr (byte_at packed (pos / 2)) (Z.of_nat (pos mod 2) * 4)) 15)
    end in
  if negb (is_finite value) then None else Some (s_mul value scale).

Definition ggml_qat_unpack_row (packed : list Z) (width : nat) (format : ggml_qat_format) : option (list float) :=
  if (ggml_qat_row_size width format =? 0)%nat then None
  else mapM (unpack_value format width packed) (seq 0 width).

(** ** The wire format, on the row of [tests/test-deepseek-v41-cache.cpp] *)

Definition demo_levels : list float := levels ++ (SFopp <$> levels).

Example fp4_wire_format :
  ggml_qat_pack_row demo_levels 16 GGML_QAT_FP4_E4M3 = Some [0x10; 0x32; 0x54; 0x76; 0x98; 0xba; 0xdc; 0xfe; 0x38].
Proof. vm_compute. reflexivity. Qed.

Example production_row_sizes : (ggml_qat_row_size 512 GGML_QAT_FP4_E4M3, ggml_qat_row_size 128 GGML_QAT_FP4_E8M0,
  ggml_qat_row_size 512 GGML_QAT_FP8_E8M0) = (288, 68, 528)%nat.
Proof. vm_compute. reflexivity. Qed.

(** ** Checking a range by evaluation *)

Definition zrange (lo : Z) (n : nat) : list Z := (fun i => lo + Z.of_nat i) <$> seq 0 n.

Lemma zrange_check (P : Z -> bool) lo n : forallb P (zrange lo n) = true -> forall z, lo <= z < lo + Z.of_nat n -> P z = true.
Proof.
  intros H z Hz. rewrite forallb_forall in H. apply H. apply list_elem_of_In, list_elem_of_fmap. exists (Z.to_nat (z - lo)).
  split; [lia|]. apply elem_of_seq. lia.
Qed.

Lemma zrange_check2 (P : Z -> Z -> bool) lo n lo' n' : forallb (fun x => forallb (P x) (zrange lo' n')) (zrange lo n) = true ->
  forall x y, lo <= x < lo + Z.of_nat n -> lo' <= y < lo' + Z.of_nat n' -> P x y = true.
Proof. intros H x y Hx Hy. apply (zrange_check (P x) lo' n'); [|done]. by apply (zrange_check (fun x => forallb (P x) (zrange lo' n')) lo n). Qed.

Definition sf_eqb (x y : float) : bool :=
  match x, y with
  | S754_zero s, S754_zero s' | S754_infinity s, S754_infinity s' => Bool.eqb s s'
  | S754_nan, S754_nan => true
  | S754_finite s m e, S754_finite s' m' e' => Bool.eqb s s' && Pos.eqb m m' && (e =? e')
  | _, _ => false
  end.

Lemma sf_eqb_true x y : sf_eqb x y = true -> x = y.
Proof.
  destruct x, y; simpl; try discriminate; try (intros H; by apply Bool.eqb_prop in H as ->); [done|].
  intros H. bool_facts. match goal with H : Bool.eqb _ _ = true |- _ => apply Bool.eqb_prop in H end.
  match goal with H : Pos.eqb _ _ = true |- _ => apply Pos.eqb_eq in H end. by subst.
Qed.

(** ** Rounding to E4M3 *)

Lemma one_times_pow2 n : -126 <= n <= 127 -> s_ldexp k_one n = S754_finite false (2 ^ 23) (n - 23).
Proof.
  intros H. apply sf_eqb_true. apply (zrange_check (fun n => sf_eqb (s_ldexp k_one n) (S754_finite false (2 ^ 23) (n - 23))) (-126) 254); [|lia].
  vm_compute. reflexivity.
Qed.

Lemma rne_small m e : e < 0 -> Zpos m / 2 ^ (- e) <= 15 ->
  exists q, Zpos m / 2 ^ (- e) <= q <= Zpos m / 2 ^ (- e) + 1 /\ ggml_qat_rne_positive (S754_finite false m e) = s_of q 0.
Proof.
  intros He Hk. unfold ggml_qat_rne_positive, s_floor. rewrite (proj2 (Z.leb_gt 0 e)) by done. cbn [cond_Zopp].
  set (k := Zpos m / 2 ^ (- e)) in *.
  assert (Hk0 : 0 <= k) by (apply Z.div_pos; [lia|apply Z.pow_pos_nonneg; lia]).
  pose proof (zrange_check (fun k => sf_eqb (s_add (s_of k 0) k_one) (s_of (k + 1) 0) && sf_eqb (s_add (s_of k 0) s_zero) (s_of k 0)) 0 16
    ltac:(vm_compute; reflexivity) k ltac:(lia)) as Hc.
  apply andb_true_iff in Hc as [Hc1%sf_eqb_true Hc2%sf_eqb_true].
  destruct (_ || _); [exists (k + 1)|exists k]; (split; [lia|done]).
Qed.

(** A magnitude below [2^-6] is rounded to a multiple of [2^-9], any other to a
    multiple of a sixteenth of the power of two above it. *)
Lemma e4m3_steps s m e : valid32 (S754_finite s m e) ->
  let x := S754_finite s m e in
  exists q k, 0 <= q <= 16 /\ -9 <= k <= 124 /\ ggml_qat_e4m3 x = (let y := s_mul (s_of q 0) (s_ldexp k_one k) in
      if SFltb k_448 y then s_nan else s_copysign y x) /\
    (k = -9 \/ (k = e + 20 /\ Zpos m / 2 ^ 20 <= q <= Zpos m / 2 ^ 20 + 1 /\
                 s_of q 0 = ggml_qat_rne_positive (S754_finite false m (-20)))).
Proof.
  intros Hv x. unfold valid32, valid_binary, bounded, canonical_mantissa in Hv. apply andb_true_iff in Hv as [Hc Hmax].
  bool_facts. change (Zpos (digits2_pos m)) with (Zdigits2 (Zpos m)) in Hc. assert (Hd0 : 0 < Zdigits2 (Zpos m)) by (simpl; lia).
  pose proof (Zdigits2_bounds (Zpos m) ltac:(lia)) as Hb. set (d := Zdigits2 (Zpos m)) in *.
  assert (Hd : d <= 24 /\ -149 <= e /\ (e = -149 \/ d = 24)) by (unfold fexp, emin in Hc; lia). destruct Hd as (Hd & He & Hnorm).
  unfold ggml_qat_e4m3. cbn [SFabs is_finite negb x]. unfold x.
  destruct (SFltb (S754_finite false m e) k_2_m6) eqn:Elt.
  - assert (Hs : d + e <= -6).
    { apply f_lt_key in Elt as (_ & _ & Hlt). change (f_key k_2_m6) with (1, -29, 2 ^ 23) in Hlt. unfold key_lt in Hlt. cbn [f_key fst snd] in Hlt.
      destruct (decide (d = 24)) as [E|]; [|lia]. rewrite E in Hb. change (2 ^ (24 - 1)) with (2 ^ 23) in Hb. lia. }
    change k_2_m9 with (S754_finite false (2 ^ 23) (-32)). rewrite div_pow2 by (fold d; lia). cbn [xorb]. fold d.
    set (f := fexp 24 128 (d + e - -32 - 23)) in *. assert (Hf : f <= -21 /\ 0 <= e - -32 - 23 - f) by (subst f; unfold fexp, emin; lia).
    set (m' := Z.to_pos _). assert (Hm' : Zpos m' = Zpos m * 2 ^ (e - -32 - 23 - f)).
    { subst m'. rewrite Z2Pos.id; [done|]. apply Z.mul_pos_pos; [lia|apply Z.pow_pos_nonneg; lia]. }
    assert (Hq : Zpos m' / 2 ^ (- f) <= 7).
    { assert (Zpos m' / 2 ^ (- f) < 8); [|lia]. apply Z.div_lt_upper_bound; [apply Z.pow_pos_nonneg; lia|]. change 8 with (2 ^ 3). rewrite Hm', <- Z.pow_add_r by lia.
      apply Z.lt_le_trans with (2 ^ d * 2 ^ (e - -32 - 23 - f)).
      - apply Z.mul_lt_mono_pos_r; [apply Z.pow_pos_nonneg; lia|lia].
      - rewrite <- Z.pow_add_r by lia. apply Z.pow_le_mono_r; lia. }
    destruct (rne_small m' f ltac:(lia) ltac:(lia)) as (q & Hqr & ->).
    assert (0 <= Zpos m' / 2 ^ (- f)) by (apply Z.div_pos; [lia|apply Z.pow_pos_nonneg; lia]).
    exists q, (-9). split; [lia|]. split; [lia|]. split; [done|by left].
  - assert (Hn : d = 24 /\ -29 <= e).
    { destruct (decide (d = 24 /\ -29 <= e)) as [|Hno]; [done|]. exfalso. apply not_true_iff_false in Elt. apply Elt, f_lt_key.
      split; [done|]. split; [done|]. change (f_key k_2_m6) with (1, -29, 2 ^ 23). unfold key_lt. cbn [f_key fst snd]. lia. }
    destruct Hn as [Ed He29]. rewrite Ed in Hb. change (2 ^ (24 - 1)) with (2 ^ 23) in Hb.
    assert (Efr : snd (s_frexp (S754_finite false m e)) = e + 24).
    { cbn [s_frexp SFfrexp]. change (Zpos (digits2_pos m)) with d. rewrite Ed. done. }
    rewrite Efr. replace (e + 24 - 4) with (e + 20) by lia. change (128 - 24) with 104 in Hmax.
    rewrite one_times_pow2 by lia. rewrite div_pow2 by (fold d; lia). fold d. rewrite Ed.
    replace (24 + e - (e + 20 - 23) - 23) with 4 by lia. change (fexp 24 128 4) with (-20).
    replace (e - (e + 20 - 23) - 23 - -20) with 0 by lia. rewrite Z.pow_0_r, Z.mul_1_r, Pos2Z.id. cbn [xorb].
    assert (Hq : Zpos m / 2 ^ (- -20) <= 15).
    { assert (Zpos m / 2 ^ (- -20) < 16); [|lia]. apply Z.div_lt_upper_bound; [lia|]. change (2 ^ (- -20) * 16) with (2 ^ 24). lia. }
    assert (0 <= Zpos m / 2 ^ 20) by (apply Z.div_pos; lia).
    destruct (rne_small m (-20) ltac:(lia) Hq) as (q & Hqr & E). change (- -20) with 20 in *. exists q, (e + 20). rewrite E.
    split; [lia|]. split; [lia|]. rewrite one_times_pow2 by lia. split; [done|]. right. done.
Qed.

(** The codes of what rounding gives. *)
Definition e4m3_table (q k : Z) : bool :=
  let y := s_mul (s_of q 0) (s_ldexp k_one k) in
  SFltb k_448 y || (is_finite y && sf_eqb (qat_e4m3_decode (qat_e4m3_code (s_copysign y s_zero))) (s_copysign y s_zero) &&
                    sf_eqb (qat_e4m3_decode (qat_e4m3_code (s_copysign y (SFopp s_zero)))) (s_copysign y (SFopp s_zero))).

Lemma e4m3_table_ok q k : 0 <= q <= 16 -> -9 <= k <= 124 -> e4m3_table q k = true.
Proof. intros Hq Hk. apply (zrange_check2 e4m3_table 0 17 (-9) 134); [vm_compute; reflexivity|lia..]. Qed.

Lemma copysign_sign x y : s_copysign x y = if sign_bit y then s_copysign x (SFopp s_zero) else s_copysign x s_zero.
Proof. unfold s_copysign. destruct x; simpl; by destruct (sign_bit y). Qed.

Lemma e4m3_zero s : ggml_qat_e4m3 (S754_zero s) = S754_zero s.
Proof. by destruct s. Qed.

(** A number rounded to E4M3 is the value of its code. *)
Lemma e4m3_code_value x : valid32 x -> is_finite (ggml_qat_e4m3 x) = true ->
  qat_e4m3_decode (qat_e4m3_code (ggml_qat_e4m3 x)) = ggml_qat_e4m3 x.
Proof.
  intros Hv Hf. destruct x as [s|s| |s m e]; try done; [by destruct s|].
  destruct (e4m3_steps s m e Hv) as (q & k & Hq & Hk & E & _). rewrite E in *. cbv zeta in *.
  pose proof (e4m3_table_ok q k Hq Hk) as Ht. unfold e4m3_table in Ht. cbv zeta in Ht.
  destruct (SFltb k_448 _); [done|]. cbn [orb] in Ht. bool_facts. rewrite copysign_sign.
  destruct (sign_bit _); by apply sf_eqb_true.
Qed.

(** Within the range of the format rounding never leaves it. *)
Lemma e4m3_in_range x : valid32 x -> is_finite x = true -> SFltb k_448 (SFabs x) = false -> is_finite (ggml_qat_e4m3 x) = true.
Proof.
  intros Hv Hf Hle. destruct x as [s|s| |s m e]; try done. cbn [SFabs] in Hle.
  assert (Hkey : e < -15 \/ (e = -15 /\ Zpos m <= 14680064)).
  { destruct (decide (e < -15 \/ (e = -15 /\ Zpos m <= 14680064))) as [|Hno]; [done|]. exfalso.
    apply not_true_iff_false in Hle. apply Hle, f_lt_key. split; [done|]. split; [done|].
    change (f_key k_448) with (1, -15, 14680064). unfold key_lt. cbn [f_key fst snd]. lia. }
  destruct (e4m3_steps s m e Hv) as (q & k & Hq & Hk & -> & Hqk). cbv zeta.
  pose proof (e4m3_table_ok q k Hq Hk) as Ht. unfold e4m3_table in Ht. cbv zeta in Ht.
  assert (Hsmall : SFltb k_448 (s_mul (s_of q 0) (s_ldexp k_one k)) = false).
  { assert (Hqk' : k <= 4 \/ (k = 5 /\ q <= 14)).
    { destruct Hqk as [->|(-> & Hq1 & Hq2)]; [lia|]. destruct Hkey as [|[-> Hm]]; [lia|]. right. split; [lia|].
      destruct (decide (Zpos m = 14680064)) as [Em|].
      - injection Em as ->. assert (Ee : s_of q 0 = s_of 14 0) by (rewrite Hq2; vm_compute; reflexivity).
        change (14680064 / 2 ^ 20) with 14 in Hq1. destruct (decide (q = 15)) as [->|]; [discriminate Ee|lia].
      - assert (Zpos m / 2 ^ 20 < 14) by (apply Z.div_lt_upper_bound; lia). lia. }
    apply negb_true_iff. destruct Hqk' as [Hk4|[-> Hq14]].
    - apply (zrange_check2 (fun q k => negb (SFltb k_448 (s_mul (s_of q 0) (s_ldexp k_one k)))) 0 17 (-9) 14); [vm_compute; reflexivity|lia..].
    - apply (zrange_check (fun q => negb (SFltb k_448 (s_mul (s_of q 0) (s_ldexp k_one 5)))) 0 15); [vm_compute; reflexivity|lia]. }
  rewrite Hsmall in *. cbn [orb] in Ht. bool_facts. by destruct (s_mul _ _).
Qed.

(** ** Scales *)

Lemma clamp_range y : valid32 y -> let x := s_min k_448 (s_max k_n448 y) in
  valid32 x /\ is_finite x = true /\ SFltb k_448 (SFabs x) = false.
Proof.
  intros Hv x. subst x. destruct y as [s|s| |s m e]; try (by destruct s); [done|].
  unfold s_max, s_min. change (is_nan k_n448) with false. change (is_nan k_448) with false. cbn [is_nan].
  destruct (SFltb k_n448 (S754_finite s m e)) eqn:E1; [|done]. cbn [is_nan].
  destruct (SFltb (S754_finite s m e) k_448) eqn:E2; [|done]. split; [done|]. split; [done|].
  apply not_true_iff_false. intros Hlt. rewrite f_lt_key in E1, E2, Hlt. destruct E1 as (_ & _ & E1), E2 as (_ & _ & E2), Hlt as (_ & _ & Hlt).
  change (f_key k_448) with (1, -15, 14680064) in *. change (f_key k_n448) with (-1, 15, -14680064) in *. cbn [SFabs] in Hlt.
  unfold key_lt in *. destruct s; cbn [f_key fst snd] in *; lia.
Qed.

Lemma frexp_range x : valid32 x -> -148 <= snd (s_frexp x) <= 128.
Proof.
  intros Hv. destruct x as [s|s| |s m e]; try (simpl; lia).
  unfold valid32, valid_binary, bounded, canonical_mantissa in Hv. apply andb_true_iff in Hv as [Hc Hmax]. bool_facts.
  unfold fexp, emin in Hc. cbn [s_frexp SFfrexp]. destruct (24 <=? Zpos (digits2_pos m)) eqn:E; bool_facts; cbn [snd]; lia.
Qed.

Lemma mul_valid x s m e : Zdigits2 (Zpos m) = 24 -> valid32 (s_mul x (S754_finite s m e)).
Proof.
  intros Hd. destruct x as [s'|s'| |s' m' e']; try done. cbn [s_mul SFmul]. unfold s_mul, SFmul. apply round_aux_valid; [lia|].
  rewrite Pos2Z.inj_mul. assert (24 <= Zdigits2 (Zpos m' * Zpos m)) by (rewrite <- Hd; apply Zdigits2_mono; nia).
  unfold fexp, emin. lia.
Qed.

Lemma power2_scale_shape v : valid32 v -> exists n, -149 <= n <= 128 /\ ggml_qat_power2_scale v = s_ldexp k_one n.
Proof.
  intros Hv. pose proof (frexp_range v Hv) as Hr. unfold ggml_qat_power2_scale. destruct (s_frexp v) as [f e]. cbn [snd] in Hr.
  eexists. split; [|done]. destruct (SFeqb f k_half); lia.
Qed.

Definition e8m0_table (n : Z) : bool :=
  let check format := match scale_code (s_ldexp k_one n) format with
    | Some code => (0 <=? code) && (code <? 256) && sf_eqb (scale_decode code format) (s_ldexp k_one n) | None => true end in
  check GGML_QAT_FP8_E8M0 && check GGML_QAT_FP4_E8M0.

Lemma e8m0_scale n format code : format <> GGML_QAT_FP4_E4M3 -> -149 <= n <= 128 ->
  scale_code (s_ldexp k_one n) format = Some code -> scale_decode code format = s_ldexp k_one n.
Proof.
  intros Hf Hn E. pose proof (zrange_check e8m0_table (-149) 278 ltac:(vm_compute; reflexivity) n ltac:(lia)) as Ht.
  unfold e8m0_table in Ht. apply andb_true_iff in Ht as [H1 H2]. destruct format; try done.
  - rewrite E in H1. bool_facts. by apply sf_eqb_true.
  - rewrite E in H2. bool_facts. by apply sf_eqb_true.
Qed.

(** The byte of a scale gives the scale back. *)
Lemma scale_roundtrip maximum format code : scale_code (ggml_qat_group_scale maximum format) format = Some code ->
  scale_decode code format = ggml_qat_group_scale maximum format.
Proof.
  destruct format.
  - unfold ggml_qat_group_scale. change (s_div k_one k_448) with (S754_finite false 9586981 (-32)).
    destruct (power2_scale_shape (s_mul (s_max maximum k_1e_4) (S754_finite false 9586981 (-32)))) as (n & Hn & ->); [by apply mul_valid|].
    by apply e8m0_scale.
  - unfold ggml_qat_group_scale. change (s_div k_one k_6) with (S754_finite false 11184811 (-26)).
    destruct (power2_scale_shape (s_mul (s_max maximum (s_mul k_6 (s_of 1 (-126)))) (S754_finite false 11184811 (-26)))) as (n & Hn & ->); [by apply mul_valid|].
    by apply e8m0_scale.
  - unfold ggml_qat_group_scale, scale_code, scale_decode. set (x := s_div _ _). assert (Hx : valid32 x) by apply div_valid.
    destruct (is_finite (ggml_qat_e4m3 x)) eqn:E; [|done]. cbn [negb orb]. destruct (SFleb _ _); [done|]. intros [= <-]. by apply e4m3_code_value.
Qed.

(** ** Values *)

Lemma nearer_bound magnitude l b : (b.1 <= 7)%nat -> Forall (fun i => (i <= 7)%nat) l -> ((foldl (nearer magnitude) b l).1 <= 7)%nat.
Proof.
  intros Hb Hl. revert b Hb. induction Hl as [|i l Hi Hl IH]; intros b Hb; [done|]. cbn [foldl]. apply IH. unfold nearer. by destruct (_ || _).
Qed.

Definition fp4_table (i : nat) : bool :=
  forallb (fun s => let y := s_copysign (level i) (S754_zero s) in
    (0 <=? fp4_code y) && (fp4_code y <? 16) && sf_eqb (fp4_decode (fp4_code y)) y && is_finite y) [true; false].

(** A number rounded to E2M1 is the value of its four bits. *)
Lemma e2m1_code_value x : let y := ggml_qat_e2m1 x in
  0 <= fp4_code y < 16 /\ fp4_decode (fp4_code y) = y /\ is_finite y = true.
Proof.
  unfold ggml_qat_e2m1. set (best := (foldl _ _ _).1).
  assert (Hb : (best <= 7)%nat) by (apply nearer_bound; [simpl; lia|repeat constructor]). clearbody best.
  assert (Ht : forallb fp4_table (seq 0 8) = true) by (vm_compute; reflexivity). rewrite forallb_forall in Ht.
  assert (Hi : fp4_table best = true) by (apply Ht, list_elem_of_In, elem_of_seq; lia). clear Ht.
  unfold fp4_table in Hi. cbn [forallb] in Hi. rewrite andb_true_r in Hi. apply andb_true_iff in Hi as [H1 H2].
  rewrite copysign_sign. change (SFopp s_zero) with (S754_zero true). unfold s_zero.
  destruct (sign_bit x); bool_facts; (split; [lia|split; [by apply sf_eqb_true|done]]).
Qed.

(** The bits of a value, and its place in a row. *)
Definition value_code (value scale : float) (format : ggml_qat_format) : Z :=
  match format with
  | GGML_QAT_FP8_E8M0 => qat_e4m3_code (normalized value scale format)
  | _ => fp4_code (normalized value scale format)
  end.

Definition code_value (code : Z) (format : ggml_qat_format) : float :=
  match format with GGML_QAT_FP8_E8M0 => qat_e4m3_decode code | _ => fp4_decode code end.

Definition code_at (format : ggml_qat_format) (packed : list Z) (pos : nat) : Z :=
  match format with
  | GGML_QAT_FP8_E8M0 => byte_at packed pos
  | _ => Z.land (Z.shiftr (byte_at packed (pos / 2)) (Z.of_nat (pos mod 2) * 4)) 15
  end.

Lemma value_roundtrip value scale format :
  code_value (value_code value scale format) format = normalized value scale format /\ is_finite (normalized value scale format) = true.
Proof.
  destruct format; cbn [value_code code_value normalized].
  - destruct (clamp_range (s_div value scale)) as (Hv & Hf & Hr); [apply div_valid|].
    pose proof (e4m3_in_range _ Hv Hf Hr) as Hin. split; [by apply e4m3_code_value|done].
  - by destruct (e2m1_code_value (s_div value scale)) as (_ & ? & ?).
  - by destruct (e2m1_code_value (s_div value scale)) as (_ & ? & ?).
Qed.

(** ** The bytes of a row *)

Definition nibble (b : Z) (half : Z) : Z := Z.land (Z.shiftr b (half * 4)) 15.

Definition nibble_table (b c : Z) : bool :=
  forallb (fun half => negb (nibble b half =? 0) ||
    let b' := Z.lor b (Z.shiftl c (half * 4)) mod 256 in
    (nibble b' half =? c) && (nibble b' (1 - half) =? nibble b (1 - half))) [0; 1].

Lemma nibble_store b c half : 0 <= b < 256 -> 0 <= c < 16 -> 0 <= half <= 1 -> nibble b half = 0 ->
  let b' := Z.lor b (Z.shiftl c (half * 4)) mod 256 in
  nibble b' half = c /\ nibble b' (1 - half) = nibble b (1 - half) /\ 0 <= b' < 256.
Proof.
  intros Hb Hc Hh H0 b'.
  pose proof (zrange_check2 nibble_table 0 256 0 16 ltac:(vm_compute; reflexivity) b c ltac:(lia) ltac:(lia)) as Ht.
  unfold nibble_table in Ht. cbn [forallb] in Ht. rewrite andb_true_r in Ht. apply andb_true_iff in Ht as [Ht0 Ht1].
  assert (0 <= b' < 256) by (apply Z.mod_pos_bound; lia).
  destruct (decide (half = 0)) as [->|]; [|assert (half = 1) as -> by lia].
  - rewrite (proj2 (Z.eqb_eq _ _) H0) in Ht0. cbn [negb orb] in Ht0. bool_facts. done.
  - rewrite (proj2 (Z.eqb_eq _ _) H0) in Ht1. cbn [negb orb] in Ht1. bool_facts. done.
Qed.

Lemma byte_at_insert packed i j b : (i < length packed)%nat -> byte_at (<[i := b]> packed) j = if decide (i = j) then b else byte_at packed j.
Proof.
  intros Hi. unfold byte_at. case_decide as E; [subst; by rewrite list_lookup_insert_eq|by rewrite list_lookup_insert_ne].
Qed.

Section row.
Context (format : ggml_qat_format) (width : nat).
Context (Hgroups : (width mod group_width format = 0)%nat).

Definition groups : nat := (width / group_width format)%nat.
Definition row_bytes : nat := (value_bytes width format + groups)%nat.

Lemma groups_width : (groups * group_width format = width)%nat.
Proof.
  unfold groups. pose proof (Nat.div_mod_eq width (group_width format)). destruct format; cbn [group_width] in *; lia.
Qed.

Lemma value_place pos : (pos < width)%nat ->
  match format with GGML_QAT_FP8_E8M0 => (pos < value_bytes width format)%nat | _ => (pos / 2 < value_bytes width format)%nat end.
Proof.
  intros Hp. pose proof groups_width as Hw. destruct format; cbn [value_bytes group_width] in *; [done| |].
  - apply Nat.Div0.div_lt_upper_bound. pose proof (Nat.div_mod_eq width 2).
    assert (width mod 2 = 0)%nat by (rewrite <- Hw; replace (groups * 32)%nat with (groups * 16 * 2)%nat by lia; apply Nat.Div0.mod_mul). lia.
  - apply Nat.Div0.div_lt_upper_bound. pose proof (Nat.div_mod_eq width 2).
    assert (width mod 2 = 0)%nat by (rewrite <- Hw; replace (groups * 16)%nat with (groups * 8 * 2)%nat by lia; apply Nat.Div0.mod_mul). lia.
Qed.

(** Positions before [p] hold their codes, the others are still clear. *)
Record stored (codes : nat -> Z) (p : nat) (packed : list Z) : Prop := {
  st_length : length packed = row_bytes;
  st_codes j : (j < p)%nat -> code_at format packed j = codes j;
  st_clear j : (p <= j < width)%nat -> code_at format packed j = 0;
  st_bytes i : format <> GGML_QAT_FP8_E8M0 -> (i < value_bytes width format)%nat -> 0 <= byte_at packed i < 256 }.

Lemma store_fp4 codes p packed b c : format <> GGML_QAT_FP8_E8M0 -> stored codes p packed -> (p < width)%nat -> 0 <= c < 16 -> codes p = c ->
  b = Z.lor (byte_at packed (p / 2)%nat) (Z.shiftl c (Z.of_nat (p mod 2) * 4)) mod 256 ->
  stored codes (S p) (<[(p / 2)%nat := b]> packed).
Proof.
  intros Hf [Hl Hc Hz Hb] Hp Hc16 Hcode ->. pose proof (value_place p Hp) as Hv.
  assert (Hp2 : (p / 2 < value_bytes width format)%nat) by (by destruct format).
  assert (Hlen : (p / 2 < length packed)%nat) by (rewrite Hl; unfold row_bytes; lia).
  assert (Hat : forall packed j, code_at format packed j = nibble (byte_at packed (j / 2)) (Z.of_nat (j mod 2))) by (by destruct format).
  pose proof (Nat.mod_upper_bound p 2 ltac:(lia)) as Hm.
  destruct (nibble_store (byte_at packed (p / 2)) c (Z.of_nat (p mod 2))) as (H1 & H2 & H3);
    [by apply Hb|done|lia|by rewrite <- Hat; apply Hz|].
  assert (Hother : forall j, j <> p -> code_at format (<[(p / 2)%nat := Z.lor (byte_at packed (p / 2)%nat) (Z.shiftl c (Z.of_nat (p mod 2) * 4)) mod 256]> packed) j = code_at format packed j).
  { intros j Hj. rewrite !Hat, byte_at_insert by done. case_decide as E; [|done]. rewrite <- E.
    pose proof (Nat.div_mod_eq j 2). pose proof (Nat.div_mod_eq p 2). pose proof (Nat.mod_upper_bound j 2 ltac:(lia)).
    replace (Z.of_nat (j mod 2)) with (1 - Z.of_nat (p mod 2)) by lia. exact H2. }
  constructor.
  - by rewrite length_insert.
  - intros j Hj. destruct (decide (j = p)) as [->|]; [|rewrite Hother by done; apply Hc; lia].
    rewrite Hat, byte_at_insert, decide_True by done. by rewrite H1.
  - intros j Hj. rewrite Hother by lia. apply Hz. lia.
  - intros i _ Hi. rewrite byte_at_insert by done. case_decide; [done|by apply Hb].
Qed.

Lemma store_step codes p packed value scale : stored codes p packed -> (p < width)%nat -> codes p = value_code value scale format ->
  stored codes (S p) (store_value format value scale p packed) /\
  forall g, byte_at (store_value format value scale p packed) (value_bytes width format + g) = byte_at packed (value_bytes width format + g).
Proof.
  intros Hst Hp Hcode. pose proof (value_place p Hp) as Hv. pose proof (st_length _ _ _ Hst) as Hl. unfold row_bytes in Hl.
  destruct (decide (format = GGML_QAT_FP8_E8M0)) as [Ef|Ef].
  - rewrite Ef in *. cbn [store_value code_at value_code value_bytes] in *. split; [|intros g; rewrite byte_at_insert by lia; rewrite decide_False by lia; done].
    assert (Hat : forall packed j, code_at format packed j = byte_at packed j) by (by rewrite Ef).
    destruct Hst as [_ Hc Hz _]. constructor.
    + rewrite length_insert, Hl. unfold row_bytes. by rewrite Ef.
    + intros j Hj. rewrite Hat, byte_at_insert by lia. case_decide as E; [by subst|]. rewrite <- Hat. apply Hc. lia.
    + intros j Hj. rewrite Hat, byte_at_insert by lia. rewrite decide_False by lia. rewrite <- Hat. apply Hz. lia.
    + done.
  - assert (Hp2 : (p / 2 < value_bytes width format)%nat) by (by destruct format).
    assert (Es : store_value format value scale p packed = <[(p / 2)%nat := Z.lor (byte_at packed (p / 2)%nat)
      (Z.shiftl (value_code value scale format) (Z.of_nat (p mod 2) * 4)) mod 256]> packed) by (by destruct format).
    rewrite Es. split; [|intros g; rewrite byte_at_insert by lia; rewrite decide_False by lia; done].
    apply (store_fp4 codes p packed _ (value_code value scale format)); try done.
    destruct format; [done| |]; apply e2m1_code_value.
Qed.

Lemma store_scale codes p packed g c : stored codes p packed -> (p <= width)%nat -> (g < groups)%nat -> stored codes p (<[(value_bytes width format + g)%nat := c]> packed).
Proof.
  intros [Hl Hc Hz Hb] Hpw Hg. assert (Hlt : (value_bytes width format + g < length packed)%nat) by (rewrite Hl; unfold row_bytes; lia).
  assert (Hat : forall j, (j < width)%nat -> code_at format (<[(value_bytes width format + g)%nat := c]> packed) j = code_at format packed j).
  { intros j Hj. pose proof (value_place j Hj). unfold code_at. destruct format; rewrite byte_at_insert by done; by rewrite decide_False by lia. }
  constructor.
  - by rewrite length_insert.
  - intros j Hj. rewrite Hat by lia. by apply Hc.
  - intros j Hj. rewrite Hat by lia. by apply Hz.
  - intros i Hf Hi. rewrite byte_at_insert by done. rewrite decide_False by lia. by apply Hb.
Qed.
End row.

Section pack.
Context (format : ggml_qat_format) (row : list float).
Let width := length row.
Context (Hgroups : (width mod group_width format = 0)%nat).

Definition scale_of (g : nat) : float := ggml_qat_group_scale (group_maximum (group_of format row g)) format.

Definition row_codes (j : nat) : Z := value_code (nth j row s_zero) (scale_of (j / group_width format)) format.

(** Groups before [g] have their scales. *)
Definition scaled (g : nat) (packed : list Z) : Prop :=
  forall g', (g' < g)%nat -> scale_code (scale_of g') format = Some (byte_at packed (value_bytes width format + g')).

(** A group the formats can hold. *)
Definition group_representable (g : nat) : bool :=
  forallb is_finite (group_of format row g) && bool_decide (is_Some (scale_code (scale_of g) format)).

Lemma group_nth g i : (i < group_width format)%nat -> nth i (group_of format row g) s_zero = nth (g * group_width format + i) row s_zero.
Proof.
  intros Hi. unfold group_of. by rewrite !nth_lookup, lookup_take_lt, lookup_drop by done.
Qed.

Lemma group_length g : (g < groups format width)%nat -> length (group_of format row g) = group_width format.
Proof.
  intros Hg. unfold group_of. rewrite length_take, length_drop. pose proof (groups_width format width Hgroups) as Hw. fold width.
  assert (g * group_width format + group_width format <= groups format width * group_width format)%nat by (clear -Hg; nia). lia.
Qed.

(** The inner loop. *)
Lemma store_group g n packed : (g < groups format width)%nat -> (n <= group_width format)%nat ->
  stored format width row_codes (g * group_width format) packed ->
  let packed' := foldl (fun packed i => store_value format (nth i (group_of format row g) s_zero) (scale_of g) (g * group_width format + i) packed)
                   packed (seq 0 n) in
  stored format width row_codes (g * group_width format + n) packed' /\
  forall g', byte_at packed' (value_bytes width format + g') = byte_at packed (value_bytes width format + g').
Proof.
  intros Hg Hn Hst packed'. subst packed'. induction n as [|n IH].
  { cbn [seq foldl]. by rewrite Nat.add_0_r. }
  rewrite seq_S, foldl_app. cbn [foldl]. destruct IH as [IH1 IH2]; [lia|]. set (p1 := foldl _ _ _) in *.
  pose proof (groups_width format width Hgroups) as Hw.
  assert (Hlt : (g * group_width format + n < width)%nat).
  { assert (g * group_width format + group_width format <= groups format width * group_width format)%nat by (clear -Hg; nia). lia. }
  destruct (store_step format width Hgroups row_codes (g * group_width format + n) p1 (nth n (group_of format row g) s_zero) (scale_of g)) as [H1 H2]; [done|done| |].
  - unfold row_codes. rewrite group_nth by lia. do 2 f_equal.
    symmetry. apply (Nat.div_unique _ _ _ n); [lia|lia].
  - split; [by replace (g * group_width format + S n)%nat with (S (g * group_width format + n)) by lia|].
    intros g'. cbn [Nat.add]. by rewrite H2, IH2.
Qed.

Lemma pack_group_spec g packed : (g < groups format width)%nat -> stored format width row_codes (g * group_width format) packed -> scaled g packed ->
  match pack_group format row width packed g with
  | Some packed' => group_representable g = true /\ stored format width row_codes (S g * group_width format) packed' /\ scaled (S g) packed'
  | None => group_representable g = false
  end.
Proof.
  intros Hg Hst Hsc. unfold pack_group, group_representable. fold (scale_of g).
  destruct (forallb is_finite _); [|done]. cbn [negb andb].
  destruct (scale_code (scale_of g) format) as [code|] eqn:Ec; [|done].
  pose proof (groups_width format width Hgroups) as Hw.
  assert (Hle : (g * group_width format <= width)%nat) by (clear -Hg Hw; nia).
  assert (Hin : (value_bytes width format + g < length packed)%nat) by (rewrite (st_length _ _ _ _ _ Hst); unfold row_bytes; lia).
  destruct (store_group g (group_width format) (<[(value_bytes width format + g)%nat:=code]> packed) Hg (le_n _)) as [H1 H2].
  { by apply store_scale. }
  split; [done|]. split; [by replace (S g * group_width format)%nat with (g * group_width format + group_width format)%nat by lia|].
  intros g' Hg'. rewrite H2, byte_at_insert by done. case_decide as E.
  - assert (g' = g) as -> by lia. done.
  - apply Hsc. lia.
Qed.

Lemma pack_groups_spec n g packed : (g + n = groups format width)%nat -> stored format width row_codes (g * group_width format) packed -> scaled g packed ->
  match pack_groups format row width (seq g n) packed with
  | Some packed' => Forall (fun g => group_representable g = true) (seq g n) /\ stored format width row_codes width packed' /\ scaled (groups format width) packed'
  | None => Exists (fun g => group_representable g = false) (seq g n)
  end.
Proof.
  revert g packed. induction n as [|n IH]; intros g packed Hn Hst Hsc; cbn [seq pack_groups].
  - rewrite Nat.add_0_r in Hn. subst g. rewrite groups_width in Hst by done. done.
  - pose proof (pack_group_spec g packed ltac:(lia) Hst Hsc) as Hg. destruct (pack_group _ _ _ _ _) as [packed1|].
    + destruct Hg as (Hr & Hst1 & Hsc1). specialize (IH (S g) packed1 ltac:(lia) Hst1 Hsc1).
      destruct (pack_groups _ _ _ _ _) as [packed2|]; [|by right]. destruct IH as (H1 & H2 & H3). split; [by constructor|done].
    + by left.
Qed.
End pack.

(** ** Packing and unpacking *)

Definition row_representable (format : ggml_qat_format) (row : list float) : bool :=
  forallb (group_representable format row) (seq 0 (length row / group_width format)).

Lemma row_size_pos width format : ggml_qat_row_size width format <> 0%nat ->
  (width mod group_width format = 0)%nat /\ ggml_qat_row_size width format = row_bytes format width.
Proof.
  unfold ggml_qat_row_size. destruct (width =? 0)%nat; [done|]. destruct (width mod group_width format =? 0)%nat eqn:E; [|done].
  destruct (_ <? _); [done|]. apply Nat.eqb_eq in E. done.
Qed.

Lemma mjoin_uniform {A} (ls : list (list A)) n g i : Forall (fun l => length l = n) ls -> (i < n)%nat ->
  mjoin ls !! (g * n + i)%nat = ls !! g ≫= (fun l => l !! i).
Proof.
  intros HF Hi. revert g. induction HF as [|l ls Hl HF IH]; intros g; [by destruct g|].
  change (mjoin (l :: ls)) with (l ++ mjoin ls). destruct g as [|g].
  - cbn [Nat.mul Nat.add lookup list_lookup mbind option_bind]. by rewrite lookup_app_l by lia.
  - rewrite lookup_app_r by lia. replace (S g * n + i - length l)%nat with (g * n + i)%nat by lia. apply IH.
Qed.

Lemma mjoin_uniform_length {A} (ls : list (list A)) n : Forall (fun l => length l = n) ls -> length (mjoin ls) = (length ls * n)%nat.
Proof. induction 1 as [|l ls Hl HF IH]; [done|]. change (mjoin (l :: ls)) with (l ++ mjoin ls). rewrite length_app, IH, Hl. simpl. lia. Qed.

Section transform.
Context (format : ggml_qat_format) (row : list float).
Context (Hgroups : (length row mod group_width format = 0)%nat).

Lemma forward_groups_length : Forall (fun l => length l = group_width format)
  ((fun group => forward_group format (group_of format row group)) <$> seq 0 (length row / group_width format)).
Proof.
  apply Forall_fmap, Forall_seq. intros g Hg. cbn. unfold forward_group. rewrite length_fmap. apply group_length; [done|].
  unfold groups. lia.
Qed.

Lemma forward_length : length (ggml_qat_forward format row) = length row.
Proof.
  unfold ggml_qat_forward. rewrite (mjoin_uniform_length _ _ forward_groups_length), length_fmap, length_seq.
  apply (groups_width format (length row) Hgroups).
Qed.

(** What the transform makes of one position of a row that can be packed. *)
Lemma forward_lookup pos : (pos < length row)%nat -> group_representable format row (pos / group_width format) = true ->
  ggml_qat_forward format row !! pos =
  Some (ggml_qat_value (nth pos row s_zero) (scale_of format row (pos / group_width format)) format).
Proof.
  intros Hp Hr. assert (Hg0 : (0 < group_width format)%nat) by (destruct format; simpl; lia).
  pose proof (groups_width format (length row) Hgroups) as Hw. unfold groups in Hw.
  set (g := (pos / group_width format)%nat) in *. set (i := (pos mod group_width format)%nat).
  assert (Hi : (i < group_width format)%nat) by (apply Nat.mod_upper_bound; lia).
  assert (Epos : pos = (g * group_width format + i)%nat) by (subst g i; rewrite Nat.mul_comm; apply Nat.div_mod_eq).
  assert (Hg : (g < length row / group_width format)%nat) by (apply Nat.Div0.div_lt_upper_bound; lia).
  unfold ggml_qat_forward. rewrite Epos at 1. rewrite (mjoin_uniform _ _ _ _ forward_groups_length Hi).
  rewrite list_lookup_fmap, lookup_seq_lt by done. cbn [fmap option_fmap option_map mbind option_bind Nat.add].
  unfold forward_group. rewrite list_lookup_fmap. apply andb_true_iff in Hr as [Hfin _]. rewrite Hfin. fold (scale_of format row g).
  destruct (lookup_lt_is_Some_2 (group_of format row g) i) as [v Ev]; [by rewrite group_length|].
  rewrite Ev. cbn. do 2 f_equal. rewrite Epos, <- group_nth by done. by rewrite nth_lookup, Ev.
Qed.

Lemma unpack_position bytes pos : (pos < length row)%nat -> group_representable format row (pos / group_width format) = true ->
  stored format (length row) (row_codes format row) (length row) bytes -> scaled format row (groups format (length row)) bytes ->
  unpack_value format (length row) bytes pos =
  Some (ggml_qat_value (nth pos row s_zero) (scale_of format row (pos / group_width format)) format).
Proof.
  intros Hp Hr Hst Hsc. pose proof (groups_width format (length row) Hgroups) as Hw.
  assert (Hg : (pos / group_width format < groups format (length row))%nat) by (apply Nat.Div0.div_lt_upper_bound; lia).
  pose proof (Hsc _ Hg) as Ec. unfold unpack_value. set (code := byte_at bytes (value_bytes _ _ + _)) in *.
  rewrite (scale_roundtrip _ _ _ Ec). fold (scale_of format row (pos / group_width format)).
  set (scale := scale_of format row (pos / group_width format)) in *.
  unfold scale_code in Ec. destruct (negb (is_finite scale) || SFleb scale s_zero) eqn:E; [done|].
  pose proof (st_codes _ _ _ _ _ Hst pos Hp) as Hcode. unfold row_codes in Hcode. fold scale in Hcode.
  destruct (value_roundtrip (nth pos row s_zero) scale format) as [Hval Hfin]. rewrite <- Hcode in Hval.
  replace (match format with GGML_QAT_FP8_E8M0 => _ | _ => _ end) with (code_value (code_at format bytes pos) format) by (by destruct format).
  rewrite Hval, Hfin. done.
Qed.
End transform.

Lemma packed_row format row :
  match ggml_qat_pack_row row (length row) format with
  | Some bytes => ggml_qat_row_size (length row) format <> 0%nat /\ row_representable format row = true /\
      length bytes = ggml_qat_row_size (length row) format /\
      ggml_qat_unpack_row bytes (length row) format = Some (ggml_qat_forward format row)
  | None => ggml_qat_row_size (length row) format = 0%nat \/ row_representable format row = false
  end.
Proof.
  unfold ggml_qat_pack_row. destruct (ggml_qat_row_size (length row) format =? 0)%nat eqn:E0; [left; by apply Nat.eqb_eq|].
  apply Nat.eqb_neq in E0. destruct (row_size_pos _ _ E0) as [Hg Hsize].
  pose proof (pack_groups_spec format row Hg (length row / group_width format) 0 (replicate (ggml_qat_row_size (length row) format) 0) eq_refl) as Hp.
  match type of Hp with ?A -> ?B -> _ => assert (Hst0 : A); [|assert (Hsc0 : B)] end.
  { rewrite Hsize. cbn [Nat.mul]. assert (Hz : forall n i, byte_at (replicate n 0) i = 0).
    { intros n i. unfold byte_at. destruct (replicate n 0 !! i) as [b|] eqn:Eb; [|done]. by apply lookup_replicate_1 in Eb as [-> _]. }
    constructor; [by rewrite length_replicate|lia| |intros; rewrite Hz; lia].
    intros j _. unfold code_at. destruct format; rewrite Hz; [done|by rewrite Z.shiftr_0_l..]. }
  { intros g' Hg'. lia. }
  specialize (Hp Hst0 Hsc0). clear Hst0 Hsc0.
  destruct (pack_groups _ _ _ _ _) as [bytes|].
  - destruct Hp as (Hr & Hst & Hsc). rewrite Forall_forall in Hr.
    assert (Hrow : row_representable format row = true) by (apply forallb_forall; intros g Hin; by apply Hr, list_elem_of_In).
    split; [done|]. split; [done|]. split; [by rewrite Hsize, (st_length _ _ _ _ _ Hst)|].
    unfold ggml_qat_unpack_row. rewrite (proj2 (Nat.eqb_neq _ _) E0). apply mapM_Some, Forall2_same_length_lookup_2.
    { by rewrite length_seq, forward_length. }
    intros i x y Hx Hy. apply lookup_seq in Hx as [-> Hlt]. cbn [Nat.add] in *.
    assert (Hgi : group_representable format row (i / group_width format) = true).
    { apply Hr, elem_of_seq. split; [lia|]. cbn [Nat.add]. apply Nat.Div0.div_lt_upper_bound.
      pose proof (groups_width format (length row) Hg). unfold groups in *. lia. }
    rewrite forward_lookup in Hy by done. injection Hy as <-. by apply unpack_position.
  - right. apply not_true_iff_false. intros Hrow. apply Exists_exists in Hp as (g & Hin & Hno).
    unfold row_representable in Hrow. rewrite forallb_forall in Hrow. rewrite Hrow in Hno; [done|]. by apply list_elem_of_In.
Qed.

(** ** The theorem *)

(** C22: A row is packed if and only if its width fits the format and every group of it is
    finite with a scale the format can write, the bytes have the size the format
    declares, and unpacking them gives exactly the row that the quantise-dequantise
    transform of the model gives, bit by bit: the cache holds what the model was
    trained on. *)
Theorem packed_rows_are_the_transform format row :
  match ggml_qat_pack_row row (length row) format with
  | Some bytes => ggml_qat_row_size (length row) format <> 0%nat /\ row_representable format row = true /\
      length bytes = ggml_qat_row_size (length row) format /\
      ggml_qat_unpack_row bytes (length row) format = Some (ggml_qat_forward format row)
  | None => ggml_qat_row_size (length row) format = 0%nat \/ row_representable format row = false
  end.
Proof. apply packed_row. Qed.
