(* ===== verification/DsvCache.v ===== *)
(** * The attention cache of DeepSeek V4.1

    [packed_cache_storage] and [attention_cache] of
    [src/src/llama-deepseek-v41-cache.h] and [.cpp]: one sequence's packed windows
    and shared banks, with a transaction per forward chunk and one bounded
    checkpoint.  Every operation is a computation of a state-and-exception monad:
    what it has changed when it throws stays changed.  Rows are packed and unpacked
    through the interface [RowCodec].  Counts and sizes ([uint32_t], [size_t]) are
    natural numbers: the checks of the constructor and of each call keep them below
    the capacities, so none wraps. *)

From S2P Require Import Prelude BlockCache DsvLayout Qat.
Open Scope nat_scope.

(** ** What the cache asks of the row formats *)

Class RowCodec := {
  scalar : Type;
  row_size : nat -> ggml_qat_format -> nat;
  pack_row : list scalar -> nat -> ggml_qat_format -> option (list Z);
  unpack_row : list Z -> nat -> ggml_qat_format -> option (list scalar);
  representable : ggml_qat_format -> list scalar -> bool;
  transform : ggml_qat_format -> list scalar -> list scalar }.

(** A row of a width the format has is packed if and only if it can be represented,
    and then the bytes are the transformed row. *)
Class RowCodecLaws `{RowCodec} := {
  pack_row_law format row : row_size (length row) format <> 0 ->
    match pack_row row (length row) format with
    | Some bytes => representable format row = true /\ length bytes = row_size (length row) format /\
                    unpack_row bytes (length row) format = Some (transform format row)
    | None => representable format row = false
    end }.

(** ** [packed_cache_storage] *)

(** [st_type] is the buffer type, [None] for [nullptr]. The cells are [host_], or the
    bytes of the backend tensor. *)
Record storage := mk_storage {
  st_type : option positive;
  st_size : nat;
  st_capacity : nat;
  st_cells : list Z }.

#[export] Instance storage_settable : Settable storage := fun s => mk_storage (st_type s) (st_size s) (st_capacity s) (st_cells s).

Definition INT64_MAX : Z := 2 ^ 63 - 1.

Definition no_storage : storage := mk_storage None 0 0 [].

Section storage.
(** What a buffer of a type holds when it is new. *)
Context (fresh_cell : positive -> nat -> Z).

Definition storage_make (type : option positive) (capacity : nat) : result v41_exn storage :=
  match type with
  | None => Ok (mk_storage None 0 capacity [])
  | Some t =>
      if capacity =? 0 then Ok (mk_storage type 0 0 [])
      else if (INT64_MAX <? Z.of_nat capacity)%Z then Err (invalid_argument "V4.1 device cache extent is too large")
      else Ok (mk_storage type 0 capacity (fresh_cell t <$> seq 0 capacity))
  end.

Definition storage_resize (size : nat) (s : storage) : result v41_exn storage :=
  if negb (size <=? st_capacity s) then Err (invalid_argument "V4.1 cache storage capacity exceeded") else
  let s := match st_type s with
           | None => s <| st_cells ::= fun cells => take size cells ++ replicate (size - length cells) 0%Z |>
           | Some _ => s
           end in
  Ok (s <| st_size := size |>).

Definition storage_read (offset count : nat) (s : storage) : result v41_exn (list Z) :=
  if negb ((offset <=? st_size s) && (count <=? st_size s - offset)) then Err (invalid_argument "V4.1 cache read out of bounds")
  else Ok (bytes_at (st_cells s) offset count).

Definition storage_write (source : list Z) (offset : nat) (s : storage) : result v41_exn storage :=
  if negb ((offset <=? st_size s) && (length source <=? st_size s - offset))
  then Err (invalid_argument "V4.1 cache write out of bounds")
  else Ok (s <| st_cells ::= fun cells => put cells offset source |>).

Definition storage_zero (s : storage) : storage := s <| st_cells ::= fun cells => replicate (length cells) 0%Z |>.

(** [operator=] between storages of one type and capacity. *)
Definition storage_assign_same (dst src : storage) : result v41_exn storage :=
  let? dst := storage_resize (st_size src) dst in
  Ok (match st_type dst with
      | Some _ => if (st_capacity dst =? 0) || (st_size dst =? 0) then dst else dst <| st_cells := st_cells src |>
      | None => dst <| st_cells := st_cells src |>
      end).

(** The copy constructor, and [operator=] in general. *)
Definition storage_copy (other : storage) : result v41_exn storage :=
  let? s := storage_make (st_type other) (st_capacity other) in
  storage_assign_same s other.

Definition storage_assign (dst src : storage) : result v41_exn storage :=
  if bool_decide (st_type dst = st_type src) && (st_capacity dst =? st_capacity src) then storage_assign_same dst src
  else storage_copy src.
End storage.

(** ** The cache *)

Record bank := mk_bank { b_width : nat; b_format : ggml_qat_format; b_row_bytes : nat; b_rows : nat; b_bytes : storage }.
#[export] Instance bank_settable : Settable bank := fun b => mk_bank (b_width b) (b_format b) (b_row_bytes b) (b_rows b) (b_bytes b).
Definition no_bank : bank := mk_bank 0 GGML_QAT_FP8_E8M0 0 0 no_storage.

Record window := mk_window { w_end : nat; w_storage : bank }.
#[export] Instance window_settable : Settable window := fun w => mk_window (w_end w) (w_storage w).
Definition no_window : window := mk_window 0 no_bank.

Record cache := mk_cache {
  c_config : attention_layout_config;
  c_layout : list attention_layer_layout;
  capacity_ : nat;
  windows_ : list window;
  global_ : list bank;
  index_ : list bank;
  saved_windows_ : list window;
  saved_rows_ : list nat;
  active_ : bool;
  checkpoint_ : bool;
  checkpoint_position_ : nat;
  checkpoint_limit_ : nat;
  checkpoint_windows_ : list window;
  checkpoint_updates_ : list (list Z);
  saved_update_sizes_ : list nat }.
#[export] Instance cache_settable : Settable cache := fun c => mk_cache (c_config c) (c_layout c) (capacity_ c) (windows_ c) (global_ c)
  (index_ c) (saved_windows_ c) (saved_rows_ c) (active_ c) (checkpoint_ c) (checkpoint_position_ c) (checkpoint_limit_ c)
  (checkpoint_windows_ c) (checkpoint_updates_ c) (saved_update_sizes_ c).

(** The vectors are indexed within their lengths. *)
Definition window_at (ws : list window) (layer : nat) : window := nth layer ws no_window.
Definition bank_at (bs : list bank) (layer : nat) : bank := nth layer bs no_bank.
Definition layer_at (c : cache) (layer : nat) : attention_layer_layout := nth layer (c_layout c) window_layer.
Definition ratio_of (c : cache) (layer : nat) : nat := Z.to_nat (compress_ratio (layer_at c layer)).
Definition ring_rows (c : cache) : nat := Z.to_nat (sliding_window (c_config c)).

(** ** State and exceptions *)

Definition M (A : Type) : Type := cache -> result v41_exn A * cache.
Definition ret {A} (a : A) : M A := fun c => (Ok a, c).
Definition bind {A B} (m : M A) (f : A -> M B) : M B := fun c => match m c with (Ok a, c) => f a c | (Err e, c) => (Err e, c) end.
Definition ask : M cache := fun c => (Ok c, c).
Definition update (f : cache -> cache) : M () := fun c => (Ok tt, f c).
Definition lift {A} (r : result v41_exn A) : M A := fun c => (r, c).
Definition check (condition : bool) (message : string) : M () := if condition then ret tt else lift (Err (invalid_argument message)).

Declare Scope cache_scope.
Open Scope cache_scope.
Notation "'let*' x ':=' m 'in' k" := (bind m (fun x => k)) (at level 10, x pattern, m at level 100, k at level 200) : cache_scope.
Notation "m ;;; k" := (bind m (fun _ => k)) (at level 60, right associativity) : cache_scope.

Fixpoint for_each {A} (l : list A) (f : A -> M ()) : M () :=
  match l with [] => ret tt | x :: l => f x ;;; for_each l f end.

(** ** Operations *)

Section operations.
Context `{RowCodec} (fresh_cell : positive -> nat -> Z).

Definition SIZE_MAX : Z := UINT64_MAX.

(** [init] of the constructor *)
Definition init_bank (type : option positive) (width : nat) (format : ggml_qat_format) (capacity : nat) : result v41_exn bank :=
  let row_bytes := row_size width format in
  if (row_bytes =? 0) || (SIZE_MAX / Z.of_nat row_bytes <? Z.of_nat capacity)%Z
  then Err (invalid_argument "invalid packed V4.1 cache geometry") else
  let? bytes := storage_make fresh_cell type (capacity * row_bytes) in
  Ok (mk_bank width format row_bytes 0 bytes).

Definition init_window (type : option positive) (config : attention_layout_config) : result v41_exn window :=
  let? b := init_bank type (Z.to_nat (head_dim config)) GGML_QAT_FP8_E8M0 (Z.to_nat (sliding_window config)) in
  let? bytes := storage_resize (Z.to_nat (sliding_window config) * b_row_bytes b) (b_bytes b) in
  Ok (mk_window 0 (b <| b_bytes := storage_zero bytes |>)).

(** One round of the constructor's loop. *)
Definition init_layer (type : option positive) (config : attention_layout_config) (layout : list attention_layer_layout) (capacity : nat)
    (acc : list window * list bank * list bank) (layer : nat) : result v41_exn (list window * list bank * list bank) :=
  let '(ws, gs, ks) := acc in
  let? w := init_window type config in
  let item := nth layer layout window_layer in
  if (kv_owner item =? Z.of_nat layer)%Z then
    let rows := capacity / Z.to_nat (compress_ratio item) in
    let? g := init_bank type (Z.to_nat (head_dim config)) GGML_QAT_FP4_E4M3 rows in
    let? k := init_bank type (Z.to_nat (index_head_dim config)) GGML_QAT_FP4_E8M0 rows in
    Ok (ws ++ [w], gs ++ [g], ks ++ [k])
  else Ok (ws ++ [w], gs ++ [no_bank], ks ++ [no_bank]).

Definition make_cache (config : attention_layout_config) (capacity_tokens : nat) (type : option positive) : result v41_exn cache :=
  let? layout := make_layout config in
  if negb ((0 <? capacity_tokens) && (0 <? sliding_window config)%Z) then Err (invalid_argument "invalid V4.1 cache capacity") else
  let layers := length (layers_ layout) in
  let? (ws, gs, ks) := foldM (init_layer type config (layers_ layout) capacity_tokens) (seq 0 layers) ([], [], []) in
  Ok (mk_cache config (layers_ layout) capacity_tokens ws gs ks [] [] false false 0 0 [] [] []).

(** [b.rows = rows; b.bytes.resize(rows * b.row_bytes)] for both banks of a layer *)
Definition set_rows (layer rows : nat) : M () :=
  update (fun c => c <| global_ ::= alter (fun b => b <| b_rows := rows |>) layer |>
                     <| index_ ::= alter (fun b => b <| b_rows := rows |>) layer |>) ;;;
  let* c := ask in
  let* bytes := lift (storage_resize (rows * b_row_bytes (bank_at (global_ c) layer)) (b_bytes (bank_at (global_ c) layer))) in
  update (fun c => c <| global_ ::= alter (fun b => b <| b_bytes := bytes |>) layer |>) ;;;
  let* c := ask in
  let* bytes := lift (storage_resize (rows * b_row_bytes (bank_at (index_ c) layer)) (b_bytes (bank_at (index_ c) layer))) in
  update (fun c => c <| index_ ::= alter (fun b => b <| b_bytes := bytes |>) layer |>).

Definition discard_checkpoint : M () :=
  let* c := ask in
  check (negb (active_ c)) "cannot discard an active V4.1 checkpoint" ;;;
  update (fun c => c <| checkpoint_ := false |> <| checkpoint_windows_ := [] |> <| checkpoint_updates_ := [] |> <| saved_update_sizes_ := [] |>).

(** The banks are emptied layer by layer; shrinking to nothing cannot fail, so the
    order does not matter. *)
Definition clear : M () :=
  let* c := ask in
  check (negb (active_ c)) "cannot clear an active V4.1 cache transaction" ;;;
  update (fun c => c <| windows_ ::= fmap (fun w => w <| w_end := 0 |> <| w_storage ::= fun b => b <| b_bytes ::= storage_zero |> |>) |>) ;;;
  for_each (seq 0 (length (global_ c))) (fun layer => set_rows layer 0) ;;;
  update (fun c => c <| saved_windows_ := [] |> <| saved_rows_ := [] |>) ;;;
  discard_checkpoint.

(** Copies of windows: [auto windows = windows_] and [saved_windows_ = windows_]. *)
Definition copy_window (w : window) : result v41_exn window :=
  let? bytes := storage_copy fresh_cell (b_bytes (w_storage w)) in
  Ok (w <| w_storage ::= fun b => b <| b_bytes := bytes |> |>).

Definition assign_window (dst src : window) : result v41_exn window :=
  let? bytes := storage_assign fresh_cell (b_bytes (w_storage dst)) (b_bytes (w_storage src)) in
  Ok (src <| w_storage ::= fun b => b <| b_bytes := bytes |> |>).

Fixpoint copy_windows (ws : list window) : result v41_exn (list window) :=
  match ws with
  | [] => Ok []
  | w :: ws => let? w := copy_window w in let? ws := copy_windows ws in Ok (w :: ws)
  end.

Fixpoint assign_windows (dst src : list window) : result v41_exn (list window) :=
  match dst, src with
  | d :: dst, s :: src => let? w := assign_window d s in let? ws := assign_windows dst src in Ok (w :: ws)
  | _, src => copy_windows src
  end.

Definition save_checkpoint (max_tokens : nat) : M () :=
  let* c := ask in
  check (negb (active_ c) && (0 <? max_tokens) && (max_tokens <=? 8)) "invalid V4.1 checkpoint extent" ;;;
  let start := w_end (window_at (windows_ c) 0) in
  check ((start <=? capacity_ c) && (max_tokens <=? capacity_ c - start)) "V4.1 checkpoint exceeds capacity" ;;;
  let* ws := lift (copy_windows (windows_ c)) in
  for_each (windows_ c) (fun w => check (w_end w =? start) "V4.1 checkpoint requires complete layer state") ;;;
  update (fun c => c <| checkpoint_windows_ := ws |> <| checkpoint_updates_ := replicate (length (windows_ c)) [] |>
                     <| checkpoint_position_ := start |> <| checkpoint_limit_ := start + max_tokens |> <| checkpoint_ := true |>).

(** One window rebuilt from its snapshot and its journal. *)
Definition replay (updates : list Z) (first window_rows bytes : nat) (w : window) (token : nat) : result v41_exn window :=
  let? s := storage_write (bytes_at updates ((token - first) * bytes) bytes) (token mod window_rows * bytes) (b_bytes (w_storage w)) in
  Ok (w <| w_storage ::= fun b => b <| b_bytes := s |> |>).

Definition restore_layer (c : cache) (position : nat) (restored : list window) (layer : nat) : result v41_exn (list window) :=
  let bytes := b_row_bytes (w_storage (window_at (windows_ c) layer)) in
  let updates := nth layer (checkpoint_updates_ c) [] in
  if negb ((position <=? w_end (window_at (windows_ c) layer)) && ((position - checkpoint_position_ c) * bytes <=? length updates))
  then Err (invalid_argument "V4.1 checkpoint prefix was not evaluated") else
  let? w := foldM (replay updates (checkpoint_position_ c) (ring_rows c) bytes)
                  (seq (checkpoint_position_ c) (position - checkpoint_position_ c)) (window_at restored layer) in
  if negb (b_row_bytes (bank_at (global_ c) layer) =? 0) && negb (position / ratio_of c layer <=? b_rows (bank_at (global_ c) layer))
  then Err (invalid_argument "V4.1 checkpoint global prefix is missing") else
  Ok (<[layer := w <| w_end := position |>]> restored).

Definition restore_checkpoint (position : nat) : M () :=
  let* c := ask in
  check (negb (active_ c) && checkpoint_ c && (checkpoint_position_ c <=? position) && (position <=? checkpoint_limit_ c))
    "invalid V4.1 checkpoint restore position" ;;;
  let* restored := lift (copy_windows (checkpoint_windows_ c)) in
  let* restored := lift (foldM (restore_layer c position) (seq 0 (length (windows_ c))) restored) in
  update (fun c => c <| windows_ := restored |>) ;;;
  for_each (seq 0 (length (global_ c))) (fun layer =>
    if b_row_bytes (bank_at (global_ c) layer) =? 0 then ret tt else set_rows layer (position / ratio_of c layer)) ;;;
  discard_checkpoint.

Definition begin : M () :=
  let* c := ask in
  check (negb (active_ c)) "V4.1 cache transaction already active" ;;;
  let* saved := lift (assign_windows (saved_windows_ c) (windows_ c)) in
  update (fun c => c <| saved_windows_ := saved |> <| saved_rows_ := b_rows <$> global_ c |>
                     <| saved_update_sizes_ := if checkpoint_ c then length <$> checkpoint_updates_ c else [] |> <| active_ := true |>).

Definition commit : M () :=
  let* c := ask in
  check (active_ c) "no V4.1 cache transaction" ;;;
  let last := w_end (window_at (windows_ c) 0) in
  for_each (windows_ c) (fun w => check (w_end w =? last) "incomplete V4.1 layer window publication") ;;;
  for_each (seq 0 (length (global_ c))) (fun layer =>
    if b_row_bytes (bank_at (global_ c) layer) =? 0 then ret tt
    else check (b_rows (bank_at (global_ c) layer) =? last / ratio_of c layer) "incomplete V4.1 global cache publication") ;;;
  update (fun c => c <| saved_rows_ := [] |> <| active_ := false |>).

(** [std::vector<uint8_t>::resize] *)
Definition resize_bytes (size : nat) (bytes : list Z) : list Z := take size bytes ++ replicate (size - length bytes) 0%Z.

Definition abort : M () :=
  let* c := ask in
  check (active_ c) "no V4.1 cache transaction" ;;;
  update (fun c => c <| windows_ := saved_windows_ c |> <| saved_windows_ := windows_ c |>) ;;;
  for_each (seq 0 (length (global_ c))) (fun layer => set_rows layer (nth layer (saved_rows_ c) 0)) ;;;
  update (fun c => if checkpoint_ c
    then c <| checkpoint_updates_ ::= imap (fun i u => resize_bytes (nth i (saved_update_sizes_ c) 0) u) |> else c) ;;;
  update (fun c => c <| saved_update_sizes_ := [] |> <| saved_windows_ := [] |> <| saved_rows_ := [] |> <| active_ := false |>).

Definition owner (layer : nat) : M nat :=
  let* c := ask in
  check ((layer <? length (c_layout c)) && (0 <=? kv_owner (layer_at c layer))%Z) "layer has no V4.1 global cache" ;;;
  ret (Z.to_nat (kv_owner (layer_at c layer))).

Definition pack (b : bank) (row : list scalar) : M (list Z) :=
  check (length row =? b_width b) "invalid V4.1 cache row width" ;;;
  match pack_row row (b_width b) (b_format b) with
  | Some packed => ret packed
  | None => lift (Err (invalid_argument "unrepresentable V4.1 cache row"))
  end.

Definition unpack (b : bank) (packed : list Z) (message : string) : M (list scalar) :=
  match unpack_row packed (b_width b) (b_format b) with Some row => ret row | None => lift (Err (invalid_argument message)) end.

Definition decode (b : bank) (row : nat) : M (list scalar) :=
  check ((row + 1) * b_row_bytes b <=? st_size (b_bytes b)) "V4.1 cache row out of bounds" ;;;
  let* packed := lift (storage_read (row * b_row_bytes b) (b_row_bytes b) (b_bytes b)) in
  unpack b packed "invalid packed V4.1 cache row".

Definition append_window (layer position : nat) (row : list scalar) : M () :=
  let* c := ask in
  check (active_ c && (layer <? length (windows_ c)) && (position <? capacity_ c)) "invalid V4.1 window write" ;;;
  let w := window_at (windows_ c) layer in
  let bytes := b_row_bytes (w_storage w) in
  check (position =? w_end w) "nonsequential V4.1 window write" ;;;
  let* packed := pack (w_storage w) row in
  (if checkpoint_ c then
     check ((checkpoint_position_ c <=? position) && (position <? checkpoint_limit_ c)) "V4.1 checkpoint journal is full" ;;;
     check (length (nth layer (checkpoint_updates_ c) []) =? (position - checkpoint_position_ c) * bytes) "nonsequential V4.1 checkpoint journal" ;;;
     update (fun c => c <| checkpoint_updates_ ::= alter (fun u => u ++ packed) layer |>)
   else ret tt) ;;;
  let* s := lift (storage_write packed (position mod ring_rows c * bytes) (b_bytes (w_storage w))) in
  update (fun c => c <| windows_ ::= alter (fun w => w <| w_storage ::= fun b => b <| b_bytes := s |> |> <| w_end ::= S |>) layer |>).

Definition append_global (layer row : nat) (kv index_k : list scalar) : M () :=
  let* c := ask in
  let* owned := (if active_ c then let* o := owner layer in ret (o =? layer) else ret false) in
  check owned "V4.1 global write by non-owner" ;;;
  let b := bank_at (global_ c) layer in
  let k := bank_at (index_ c) layer in
  check ((row =? b_rows b) && (row <? capacity_ c / ratio_of c layer)) "nonsequential V4.1 global write" ;;;
  let* packed_kv := pack b kv in
  let* packed_index := pack k index_k in
  let kv_offset := st_size (b_bytes b) in
  let index_offset := st_size (b_bytes k) in
  let* s := lift (storage_resize (kv_offset + length packed_kv) (b_bytes b)) in
  update (fun c => c <| global_ ::= alter (fun b => b <| b_bytes := s |>) layer |>) ;;;
  let* t := lift (storage_resize (index_offset + length packed_index) (b_bytes k)) in
  update (fun c => c <| index_ ::= alter (fun b => b <| b_bytes := t |>) layer |>) ;;;
  let* s := lift (storage_write packed_kv kv_offset s) in
  update (fun c => c <| global_ ::= alter (fun b => b <| b_bytes := s |>) layer |>) ;;;
  let* t := lift (storage_write packed_index index_offset t) in
  update (fun c => c <| index_ ::= alter (fun b => b <| b_bytes := t |>) layer |>) ;;;
  update (fun c => c <| global_ ::= alter (fun b => b <| b_rows ::= S |>) layer |> <| index_ ::= alter (fun b => b <| b_rows ::= S |>) layer |>).

(** A loop that collects rows. *)
Fixpoint collect {A} (l : list A) (f : A -> M (list scalar)) : M (list scalar) :=
  match l with
  | [] => ret []
  | x :: l => let* row := f x in let* rows := collect l f in ret (row ++ rows)
  end.

Definition read_window (layer : nat) : M (list scalar) :=
  let* c := ask in
  check (layer <? length (windows_ c)) "invalid V4.1 window layer" ;;;
  let w := window_at (windows_ c) layer in
  let b := w_storage w in
  let count := Nat.min (w_end w) (ring_rows c) in
  let start := w_end w - count in
  let* packed := lift (storage_read 0 (st_size (b_bytes b)) (b_bytes b)) in
  collect (seq 0 count) (fun i =>
    unpack b (bytes_at packed ((start + i) mod ring_rows c * b_row_bytes b) (b_row_bytes b)) "invalid packed V4.1 window row").

Definition read_global (layer : nat) (index_keys : bool) (rows : list nat) : M (list scalar) :=
  let* o := owner layer in
  let* c := ask in
  let b := if index_keys then bank_at (index_ c) o else bank_at (global_ c) o in
  match rows with
  | [] => ret []
  | r :: rs =>
      let first := foldl Nat.min r rs in
      let last := foldl Nat.max r rs in
      check (last <? b_rows b) "unpublished V4.1 global cache row" ;;;
      let span := last - first + 1 in
      let* packed :=
        if (span <=? length rows * 32) || (Z.of_nat (span * b_row_bytes b) <=? 8 * 1024 * 1024)%Z
        then lift (storage_read (first * b_row_bytes b) (span * b_row_bytes b) (b_bytes b)) else ret [] in
      collect rows (fun row =>
        check (row <? b_rows b) "unpublished V4.1 global cache row" ;;;
        if length packed =? 0 then decode b row
        else unpack b (bytes_at packed ((row - first) * b_row_bytes b) (b_row_bytes b)) "invalid packed V4.1 global row")
  end.

Definition global_rows (layer : nat) : M nat :=
  let* o := owner layer in
  let* c := ask in
  ret (b_rows (bank_at (global_ c) o)).

Definition window_end (layer : nat) : M nat :=
  let* c := ask in
  check (layer <? length (windows_ c)) "invalid V4.1 window layer" ;;;
  ret (w_end (window_at (windows_ c) layer)).

Definition packed_payload_bytes (c : cache) : Z :=
  let add bytes s := wrap64 (bytes + Z.of_nat (st_size s)) in
  foldl add (foldl add (foldl add 0%Z (b_bytes <$> global_ c)) (b_bytes <$> index_ c))
        ((fun w => b_bytes (w_storage w)) <$> windows_ c).

Definition reserved_payload_bytes (c : cache) : Z :=
  let add bytes s := wrap64 (bytes + Z.of_nat (st_capacity s)) in
  foldl add (foldl add (foldl add (foldl add 0%Z (b_bytes <$> global_ c)) (b_bytes <$> index_ c))
        ((fun w => b_bytes (w_storage w)) <$> windows_ c)) ((fun w => b_bytes (w_storage w)) <$> saved_windows_ c).
End operations.
