(* ===== verification/DsvLedger.v ===== *)
(** * The attention cache as a ledger

    What [attention_cache] promises: every layer has a history of rows from position
    0, every owner a list of pairs of rows, and a transaction or a checkpoint that is
    taken back truncates them.  There are no bytes, rings or journals here.  The rows
    are those the model sees: the transform of what was appended.  Below, the calls of
    the cache as data, and runs of the cache and of the ledger. *)

From S2P Require Import Prelude BlockCache DsvLayout Qat DsvCache.
Open Scope nat_scope.

Section calls.
Context `{RowCodec}.

(** ** Calls and replies *)

Inductive call :=
| Clear | Begin | Commit | Rollback | Discard
| Save (max_tokens : nat) | Restore (position : nat)
| AppendWindow (layer position : nat) (row : list scalar)
| AppendGlobal (layer row : nat) (kv index_k : list scalar)
| ReadWindow (layer : nat) | ReadGlobal (layer : nat) (index_keys : bool) (rows : list nat)
| GlobalRows (layer : nat) | WindowEnd (layer : nat).

(** [None] is an exception. *)
Inductive reply := Done | Rows (rows : list scalar) | Count (n : nat).

Definition answer {A} (f : A -> reply) (r : result v41_exn A * cache) : option reply * cache :=
  (match r.1 with Ok a => Some (f a) | Err _ => None end, r.2).
Definition done_reply (_ : ()) : reply := Done.

Definition cache_step (fresh_cell : positive -> nat -> Z) (o : call) (c : cache) : option reply * cache :=
  match o with
  | Clear => answer done_reply (clear c)
  | Begin => answer done_reply (begin fresh_cell c)
  | Commit => answer done_reply (commit c)
  | Rollback => answer done_reply (abort c)
  | Discard => answer done_reply (discard_checkpoint c)
  | Save n => answer done_reply (save_checkpoint fresh_cell n c)
  | Restore p => answer done_reply (restore_checkpoint fresh_cell p c)
  | AppendWindow layer position row => answer done_reply (append_window layer position row c)
  | AppendGlobal layer row kv index_k => answer done_reply (append_global layer row kv index_k c)
  | ReadWindow layer => answer Rows (read_window layer c)
  | ReadGlobal layer index_keys rows => answer Rows (read_global layer index_keys rows c)
  | GlobalRows layer => answer Count (global_rows layer c)
  | WindowEnd layer => answer Count (window_end layer c)
  end.

Fixpoint cache_run (fresh_cell : positive -> nat -> Z) (l : list call) (c : cache) : list (option reply) * cache :=
  match l with
  | [] => ([], c)
  | o :: l => let (r, c) := cache_step fresh_cell o c in let (rs, c) := cache_run fresh_cell l c in (r :: rs, c)
  end.

(** Whether a snapshot of the windows is held, read off the calls and their
    answers: an accepted [begin] takes one, which an accepted [commit] keeps and
    an accepted [abort] or [clear] gives up. *)
Definition after_call (held : bool) (p : call * option reply) : bool :=
  match p with
  | (Begin, Some _) => true
  | (Rollback, Some _) | (Clear, Some _) => false
  | _ => held
  end.

Definition snapshot_held (calls : list call) (replies : list (option reply)) : bool :=
  foldl after_call false (zip calls replies).

(** ** The ledger *)

Record ledger := mk_ledger {
  lg_windows : list (list (list scalar));
  lg_banks : list (list (list scalar * list scalar));
  (** where the open transaction began *)
  lg_open : option nat;
  (** where the checkpoint was taken, and how far it reaches *)
  lg_checkpoint : option (nat * nat) }.
#[export] Instance ledger_settable : Settable ledger := fun l => mk_ledger (lg_windows l) (lg_banks l) (lg_open l) (lg_checkpoint l).

Section ledger.
Context (config : attention_layout_config) (capacity : nat).

Definition cfg_layers : nat := length (compress_ratios config).
Definition cfg_ring : nat := Z.to_nat (sliding_window config).
Definition cfg_ratio (layer : nat) : nat := Z.to_nat (ratio_at config (Z.of_nat layer)).

(** The layer whose bank a layer reads. *)
Definition owner_of (layer : nat) : option nat :=
  if decide (layer < cfg_layers) then
    let o := kv_owner (layer_of config (Z.of_nat layer)) in if decide (0 <= o)%Z then Some (Z.to_nat o) else None
  else None.
Definition owns (layer : nat) : bool := bool_decide (owner_of layer = Some layer).

Definition empty_ledger : ledger := mk_ledger (replicate cfg_layers []) (replicate cfg_layers []) None None.

Definition ledger_end (l : ledger) : nat := length (nth 0 (lg_windows l) []).

(** Back to the first [position] tokens. *)
Definition truncate (position : nat) (l : ledger) : ledger :=
  l <| lg_windows ::= fmap (take position) |> <| lg_banks ::= imap (fun layer => take (position / cfg_ratio layer)) |>.

(** Every layer has seen the same tokens, every owner has published their groups. *)
Definition complete (position : nat) (l : ledger) : bool :=
  forallb (fun h => length h =? position) (lg_windows l) &&
  forallb (fun layer => negb (owns layer) || (length (nth layer (lg_banks l) []) =? position / cfg_ratio layer)) (seq 0 cfg_layers).

(** What a row becomes in a format, if it has the width and can be represented. *)
Definition quantise (format : ggml_qat_format) (width : Z) (row : list scalar) : option (list scalar) :=
  if (length row =? Z.to_nat width) && representable format row then Some (transform format row) else None.

Definition refuse (l : ledger) : option reply * ledger := (None, l).
Definition accept (l : ledger) : option reply * ledger := (Some Done, l).

Definition ledger_append_window (layer position : nat) (row : list scalar) (l : ledger) : option reply * ledger :=
  let history := nth layer (lg_windows l) [] in
  let room := match lg_checkpoint l with Some (_, limit) => position <? limit | None => true end in
  if bool_decide (is_Some (lg_open l)) && (layer <? cfg_layers) && (position <? capacity) && (position =? length history) && room then
    match quantise GGML_QAT_FP8_E8M0 (head_dim config) row with
    | Some row => accept (l <| lg_windows ::= alter (fun h => h ++ [row]) layer |>)
    | None => refuse l
    end
  else refuse l.

Definition ledger_append_global (layer row : nat) (kv index_k : list scalar) (l : ledger) : option reply * ledger :=
  if bool_decide (is_Some (lg_open l)) && owns layer && (row =? length (nth layer (lg_banks l) [])) && (row <? capacity / cfg_ratio layer) then
    match quantise GGML_QAT_FP4_E4M3 (head_dim config) kv, quantise GGML_QAT_FP4_E8M0 (index_head_dim config) index_k with
    | Some kv, Some index_k => accept (l <| lg_banks ::= alter (fun b => b ++ [(kv, index_k)]) layer |>)
    | _, _ => refuse l
    end
  else refuse l.

Definition ledger_read_global (layer : nat) (index_keys : bool) (rows : list nat) (l : ledger) : option reply :=
  o ← owner_of layer;
  found ← mapM (fun row => nth o (lg_banks l) [] !! row) rows;
  Some (Rows (mjoin ((fun p => if index_keys : bool then p.2 else p.1) <$> found))).

Definition ledger_step (o : call) (l : ledger) : option reply * ledger :=
  let idle := bool_decide (lg_open l = None) in
  match o with
  | Clear => if idle then accept ((truncate 0 l) <| lg_checkpoint := None |>) else refuse l
  | Begin => if idle then accept (l <| lg_open := Some (ledger_end l) |>) else refuse l
  | Commit => if negb idle && complete (ledger_end l) l then accept (l <| lg_open := None |>) else refuse l
  | Rollback => match lg_open l with Some e => accept ((truncate e l) <| lg_open := None |>) | None => refuse l end
  | Discard => if idle then accept (l <| lg_checkpoint := None |>) else refuse l
  | Save n => if idle && (0 <? n) && (n <=? 8) && (ledger_end l + n <=? capacity)
              then accept (l <| lg_checkpoint := Some (ledger_end l, ledger_end l + n) |>) else refuse l
  | Restore p =>
      match lg_checkpoint l with
      | Some (first, limit) => if idle && (first <=? p) && (p <=? limit) && (p <=? ledger_end l)
                               then accept ((truncate p l) <| lg_checkpoint := None |>) else refuse l
      | None => refuse l
      end
  | AppendWindow layer position row => ledger_append_window layer position row l
  | AppendGlobal layer row kv index_k => ledger_append_global layer row kv index_k l
  | ReadWindow layer =>
      (h ← lg_windows l !! layer; Some (Rows (mjoin (drop (length h - cfg_ring) h))), l)
  | ReadGlobal layer index_keys rows => (ledger_read_global layer index_keys rows l, l)
  | GlobalRows layer => (o ← owner_of layer; Some (Count (length (nth o (lg_banks l) []))), l)
  | WindowEnd layer => (h ← lg_windows l !! layer; Some (Count (length h)), l)
  end.

Fixpoint ledger_run (l : list call) (g : ledger) : list (option reply) * ledger :=
  match l with
  | [] => ([], g)
  | o :: l => let (r, g) := ledger_step o g in let (rs, g) := ledger_run l g in (r :: rs, g)
  end.
End ledger.
End calls.
