(* ===== verification/DsvCacheInv.v ===== *)
(** * The attention cache keeps its ledger: the invariant

    How bytes stand for a ledger: rings of the last rows, banks that grow at their
    end, snapshots, journals; and what every piece of an operation does to them. *)

From S2P Require Import Prelude BlockCache DsvLayout Qat DsvCache DsvLedger.
Open Scope nat_scope.

(** ** Bytes *)

Lemma bytes_at_bytes_at m off n off' k : off' + k <= n -> bytes_at (bytes_at m off n) off' k = bytes_at m (off + off') k.
Proof.
  intros Hle. unfold bytes_at. apply list_eq. intros i. destruct (decide (i < k)); [|by rewrite !lookup_take_ge by lia].
  rewrite !lookup_take_lt, !lookup_drop, lookup_take_lt, lookup_drop by lia. f_equal. lia.
Qed.

Lemma bytes_at_prefix m n r off k : off + k <= n -> n <= length m -> bytes_at (take n m ++ r) off k = bytes_at m off k.
Proof.
  intros Hle Hn. unfold bytes_at. apply list_eq. intros i. destruct (decide (i < k)); [|by rewrite !lookup_take_ge by lia].
  rewrite !lookup_take_lt, !lookup_drop by lia. rewrite lookup_app_l by (rewrite length_take; lia). by rewrite lookup_take_lt by lia.
Qed.

Lemma bytes_at_app_l m r off k : off + k <= length m -> bytes_at (m ++ r) off k = bytes_at m off k.
Proof. intros Hle. rewrite <- (firstn_all m) at 1. by apply bytes_at_prefix. Qed.

Lemma bytes_at_app_r m r : bytes_at (m ++ r) (length m) (length r) = r.
Proof. unfold bytes_at. by rewrite drop_app_length, firstn_all. Qed.

Lemma bytes_at_length m off k : off + k <= length m -> length (bytes_at m off k) = k.
Proof. intros Hle. unfold bytes_at. rewrite length_take, length_drop. lia. Qed.

(** Chunks of one size at different numbers do not overlap. *)
Lemma chunks_apart (i j rb : nat) : i <> j -> i * rb + rb <= j * rb \/ j * rb + rb <= i * rb.
Proof. intros Hne. destruct (decide (i < j)); [left|right]; nia. Qed.

Lemma chunk_inside i n rb : i < n -> i * rb + rb <= n * rb.
Proof. intros Hlt. nia. Qed.

(** ** Storage *)

Record storage_ok (type : option positive) (size capacity : nat) (s : storage) : Prop := {
  so_type : st_type s = type;
  so_size : st_size s = size;
  so_capacity : st_capacity s = capacity;
  so_le : size <= capacity;
  so_cells : length (st_cells s) = match type with None => size | Some _ => capacity end }.

Definition storable (type : option positive) (capacity : nat) : Prop := type = None \/ (Z.of_nat capacity <= INT64_MAX)%Z.

Section storage.
Context (fresh_cell : positive -> nat -> Z) (type : option positive).

Lemma make_ok capacity : storable type capacity -> exists s, storage_make fresh_cell type capacity = Ok s /\ storage_ok type 0 capacity s.
Proof.
  intros Hst. unfold storage_make. destruct type as [t|]; [|eexists; split; [done|]; by constructor; simpl; try lia].
  destruct (capacity =? 0) eqn:E; [apply Nat.eqb_eq in E as ->; eexists; split; [done|]; by constructor|].
  destruct Hst as [|Hst]; [done|]. destruct (INT64_MAX <? Z.of_nat capacity)%Z eqn:E'; [bool_facts; lia|].
  eexists; split; [done|]. constructor; simpl; try done; [lia|by rewrite length_fmap, length_seq].
Qed.

Lemma resize_ok size capacity s n : storage_ok type size capacity s -> n <= capacity ->
  exists s', storage_resize n s = Ok s' /\ storage_ok type n capacity s' /\
    forall off k, off + k <= n -> off + k <= size -> bytes_at (st_cells s') off k = bytes_at (st_cells s) off k.
Proof.
  intros [Ht Hs Hc Hle Hl] Hn. unfold storage_resize. rewrite Hc, (proj2 (Nat.leb_le _ _) Hn). cbn [negb]. destruct s as [t z cap cells]. simpl in *. subst.
  destruct type as [p|]; simpl in *.
  - eexists. split; [done|]. split; [by constructor|done].
  - eexists. split; [done|]. split.
    + constructor; simpl; try done. rewrite length_app, length_take, length_replicate. lia.
    + intros off k H1 H2. simpl. destruct (decide (n <= length cells)); [by apply bytes_at_prefix|].
      rewrite take_ge by lia. by rewrite bytes_at_app_l by lia.
Qed.

Lemma write_ok size capacity s data off : storage_ok type size capacity s -> off + length data <= size ->
  exists s', storage_write data off s = Ok s' /\ storage_ok type size capacity s' /\ st_cells s' = put (st_cells s) off data /\
    off + length data <= length (st_cells s).
Proof.
  intros [Ht Hs Hc Hle Hl] Hn. unfold storage_write.
  assert (Hlen : off + length data <= length (st_cells s)) by (destruct type; lia).
  rewrite Hs, (proj2 (Nat.leb_le _ _)), (proj2 (Nat.leb_le _ _)) by lia. cbn [andb negb]. eexists. split; [done|].
  destruct s as [t z cap cells]. simpl in *. split; [|done]. constructor; simpl; try done. by rewrite put_length.
Qed.

Lemma read_ok size capacity s off count : storage_ok type size capacity s -> off + count <= size ->
  storage_read off count s = Ok (bytes_at (st_cells s) off count).
Proof.
  intros [Ht Hs Hc Hle Hl] Hn. unfold storage_read. by rewrite Hs, (proj2 (Nat.leb_le _ _)), (proj2 (Nat.leb_le _ _)) by lia.
Qed.

(** Copies are equal. *)
Lemma assign_same_ok size capacity dst src : 0 < size -> st_type dst = st_type src -> st_capacity dst = st_capacity src ->
  storage_ok type size capacity src -> storage_assign_same dst src = Ok src.
Proof.
  intros H0 Et Ec [Ht Hs Hc Hle Hl]. unfold storage_assign_same, storage_resize. rewrite Ec, Hc, Hs, (proj2 (Nat.leb_le _ _) Hle). cbn [negb].
  destruct dst as [t z cap cells], src as [t' z' cap' cells']. simpl in *. subst. destruct type as [p|]; simpl; [|done].
  rewrite (proj2 (Nat.eqb_neq capacity 0)), (proj2 (Nat.eqb_neq size 0)) by lia. done.
Qed.

Lemma copy_ok size capacity s : 0 < size -> storable type capacity -> storage_ok type size capacity s -> storage_copy fresh_cell s = Ok s.
Proof.
  intros H0 Hst Hok. pose proof Hok as [Ht Hs Hc Hle Hl]. unfold storage_copy. rewrite Ht, Hc.
  destruct (make_ok capacity Hst) as (s' & -> & [Ht' Hs' Hc' _ _]). apply (assign_same_ok size capacity); congruence.
Qed.

Lemma assign_ok size capacity dst s : 0 < size -> storable type capacity -> storage_ok type size capacity s -> storage_assign fresh_cell dst s = Ok s.
Proof.
  intros H0 Hst Hok. unfold storage_assign. destruct (_ && _) eqn:E; [|by apply (copy_ok size capacity)].
  apply andb_true_iff in E as [E1 E2]. apply bool_decide_eq_true in E1. apply Nat.eqb_eq in E2. by apply (assign_same_ok size capacity).
Qed.
End storage.

(** ** Windows, journals and banks *)

Section parts.
Context `{RowCodecLaws} (fresh_cell : positive -> nat -> Z) (type : option positive) (config : attention_layout_config) (capacity : nat).

Abbreviation hd := (Z.to_nat (head_dim config)).
Abbreviation ihd := (Z.to_nat (index_head_dim config)).
Abbreviation W := (cfg_ring config).
Abbreviation rbw := (row_size hd GGML_QAT_FP8_E8M0).

(** What the constructor checks. *)
Record geometry : Prop := {
  ge_layers : 0 < cfg_layers config;
  ge_ring : 0 < W;
  ge_row : rbw <> 0;
  ge_storable : storable type (W * rbw);
  ge_owner layer : owns config layer = true ->
    row_size hd GGML_QAT_FP4_E4M3 <> 0 /\ row_size ihd GGML_QAT_FP4_E8M0 <> 0 }.
Context (Hgeo : geometry).

(** A ring holds the last [W] rows of a history. *)
Record ring (h : list (list scalar)) (w : window) : Prop := {
  ri_end : w_end w = length h;
  ri_width : b_width (w_storage w) = hd;
  ri_format : b_format (w_storage w) = GGML_QAT_FP8_E8M0;
  ri_row_bytes : b_row_bytes (w_storage w) = rbw;
  ri_storage : storage_ok type (W * rbw) (W * rbw) (b_bytes (w_storage w));
  ri_rows p row : h !! p = Some row -> length h <= p + W ->
    unpack_row (bytes_at (st_cells (b_bytes (w_storage w))) (p mod W * rbw) rbw) hd GGML_QAT_FP8_E8M0 = Some row }.

(** A journal holds every row from [first] on. *)
Record journal (first : nat) (h : list (list scalar)) (u : list Z) : Prop := {
  jo_length : length u = (length h - first) * rbw;
  jo_rows p row : first <= p -> h !! p = Some row ->
    unpack_row (bytes_at u ((p - first) * rbw) rbw) hd GGML_QAT_FP8_E8M0 = Some row }.

(** A bank holds all its rows. *)
Record bank_ok (format : ggml_qat_format) (width cap : nat) (rows : list (list scalar)) (b : bank) : Prop := {
  bo_width : b_width b = width;
  bo_format : b_format b = format;
  bo_row_bytes : b_row_bytes b = row_size width format;
  bo_rows : b_rows b = length rows;
  bo_storage : storage_ok type (length rows * row_size width format) (cap * row_size width format) (b_bytes b);
  bo_cells p row : rows !! p = Some row ->
    unpack_row (bytes_at (st_cells (b_bytes b)) (p * row_size width format) (row_size width format)) width format = Some row }.

(** *** Rings *)

Lemma slot_differs p q : p < q -> q < p + W -> p mod W <> q mod W.
Proof.
  intros Hpq HqW E. pose proof (ge_ring Hgeo) as HW.
  pose proof (Nat.div_mod_eq p W). pose proof (Nat.div_mod_eq q W). rewrite E in *.
  assert (q - p = W * (q / W - p / W))%nat by nia. destruct (q / W - p / W) as [|k]; nia.
Qed.

(** Writing the next row. *)
Lemma ring_write h w row bytes : ring h w -> length bytes = rbw -> unpack_row bytes hd GGML_QAT_FP8_E8M0 = Some row ->
  exists s, storage_write bytes (length h mod W * rbw) (b_bytes (w_storage w)) = Ok s /\
    ring (h ++ [row]) (w <| w_storage ::= fun b => b <| b_bytes := s |> |> <| w_end ::= S |>).
Proof.
  intros Hr Hl Hu. pose proof (ge_ring Hgeo) as HW. pose proof (Nat.mod_upper_bound (length h) W ltac:(lia)) as Hm.
  destruct (write_ok type _ _ _ bytes (length h mod W * rbw) (ri_storage _ _ Hr)) as (s & Es & Hs & Ecells & Hin).
  { rewrite Hl. apply chunk_inside. done. }
  exists s. split; [done|]. destruct Hr as [He Hw Hf Hrb Hst Hrows]. constructor; simpl; try done.
  - rewrite He, length_app. simpl. lia.
  - intros p row' Hp Hlast. rewrite length_app in Hlast. simpl in Hlast. rewrite Ecells.
    destruct (decide (p = length h)) as [->|Hne].
    + rewrite lookup_app_r, Nat.sub_diag in Hp by lia. injection Hp as <-.
      pose proof (bytes_at_put _ _ _ Hin) as Hput. rewrite Hl in Hput. by rewrite Hput.
    + pose proof (lookup_lt_Some _ _ _ Hp) as Hlt. rewrite length_app in Hlt. simpl in Hlt.
      rewrite lookup_app_l in Hp by lia. rewrite bytes_at_other; [apply Hrows; [done|lia]|done|].
      rewrite Hl. apply chunks_apart. apply slot_differs; lia.
Qed.

Lemma ring_end h w n : ring h w -> w_end w = n -> ring h (w <| w_end := n |>).
Proof. intros [He Hw Hf Hrb Hst Hrows] E. constructor; simpl; try done. congruence. Qed.

Lemma ring_copy h w : ring h w -> copy_window fresh_cell w = Ok w.
Proof.
  intros Hr. unfold copy_window. pose proof (ge_ring Hgeo). pose proof (ge_row Hgeo).
  rewrite (copy_ok fresh_cell type (W * rbw) (W * rbw)); [by destruct w as [? []]|nia|apply Hgeo|apply Hr].
Qed.

Lemma ring_assign h w d : ring h w -> assign_window fresh_cell d w = Ok w.
Proof.
  intros Hr. unfold assign_window. pose proof (ge_ring Hgeo). pose proof (ge_row Hgeo).
  rewrite (assign_ok fresh_cell type (W * rbw) (W * rbw)); [by destruct w as [? []]|nia|apply Hgeo|apply Hr].
Qed.

Lemma rings_copy hs ws : Forall2 ring hs ws -> copy_windows fresh_cell ws = Ok ws.
Proof. induction 1 as [|h w hs ws Hr _ IH]; [done|]. cbn [copy_windows]. by rewrite (ring_copy h w Hr), IH. Qed.

Lemma rings_assign hs ws ds : Forall2 ring hs ws -> assign_windows fresh_cell ds ws = Ok ws.
Proof.
  intros HF. revert ds. induction HF as [|h w hs ws Hr HF IH]; intros [|d ds]; try done.
  - cbn [assign_windows]. apply (rings_copy (h :: hs)). by constructor.
  - cbn [assign_windows]. by rewrite (ring_assign h w d Hr), IH.
Qed.

Lemma ring_zero w h : ring h w -> ring [] (w <| w_end := 0 |> <| w_storage ::= fun b => b <| b_bytes ::= storage_zero |> |>).
Proof.
  intros [He Hw Hf Hrb [Ht Hs Hc Hle Hl] Hrows]. constructor; simpl; try done. destruct w as [? [? ? ? ? [? ? ? ?]]]. simpl in *.
  constructor; simpl; try done. by rewrite length_replicate.
Qed.

(** *** Journals *)

Lemma journal_start first h : length h = first -> journal first h [].
Proof.
  intros <-. constructor; [simpl; lia|]. intros p row Hp Hl. apply lookup_lt_Some in Hl. lia.
Qed.

Lemma journal_append first h u row bytes : journal first h u -> first <= length h -> length bytes = rbw ->
  unpack_row bytes hd GGML_QAT_FP8_E8M0 = Some row -> journal first (h ++ [row]) (u ++ bytes).
Proof.
  intros [Hl Hrows] Hf Hb Hu. constructor.
  - rewrite !length_app, Hl, Hb. simpl. nia.
  - intros p r Hp Hr. destruct (decide (p = length h)) as [->|].
    + rewrite lookup_app_r, Nat.sub_diag in Hr by lia. injection Hr as <-.
      pose proof (bytes_at_app_r u bytes) as Happ. rewrite Hl, Hb in Happ. by rewrite Happ.
    + pose proof (lookup_lt_Some _ _ _ Hr) as Hlt. rewrite length_app in Hlt. simpl in Hlt. rewrite lookup_app_l in Hr by lia.
      rewrite bytes_at_app_l; [by apply Hrows|]. rewrite Hl. apply chunk_inside. lia.
Qed.

Lemma journal_truncate first h u e : journal first h u -> first <= e -> e <= length h ->
  journal first (take e h) (resize_bytes ((e - first) * rbw) u).
Proof.
  intros [Hl Hrows] Hf He. unfold resize_bytes. assert (Hle : (e - first) * rbw <= length u) by (rewrite Hl; apply Nat.mul_le_mono_r; lia).
  replace (_ - length u) with 0 by lia. constructor.
  - simpl. rewrite app_nil_r, !length_take_le by lia. done.
  - intros p row Hp Hr. apply lookup_take_Some in Hr as [Hr Hpe]. rewrite bytes_at_prefix; [by apply Hrows| |done]. apply chunk_inside. lia.
Qed.

(** *** Replaying a journal on a snapshot *)

Lemma take_next {A} (h : list A) t row : h !! t = Some row -> take (S t) h = take t h ++ [row].
Proof. intros Hr. by apply take_S_r. Qed.

Lemma replay_loop first h u k t w : journal first h u -> ring (take t h) (w <| w_end := t |>) -> first <= t -> t + k <= length h ->
  exists w', foldM (replay u first W rbw) (seq t k) w = Ok w' /\ ring (take (t + k) h) (w' <| w_end := t + k |>).
Proof.
  revert t w. induction k as [|k IH]; intros t w Hj Hr Hf Hk.
  { exists w. split; [done|]. by rewrite Nat.add_0_r. }
  destruct (lookup_lt_is_Some_2 h t) as [row Hrow]; [lia|].
  assert (Hlen : length (take t h) = t) by (apply length_take_le; lia).
  destruct (ring_write _ _ row (bytes_at u ((t - first) * rbw) rbw) Hr) as (s & Es & Hring).
  { apply bytes_at_length. rewrite (jo_length _ _ _ Hj). apply chunk_inside. lia. }
  { by apply (jo_rows _ _ _ Hj). }
  rewrite Hlen in Es. cbn [seq foldM]. unfold replay at 1.
  change (b_bytes (w_storage (w <| w_end := t |>))) with (b_bytes (w_storage w)) in Es. rewrite Es.
  rewrite <- (take_next _ _ _ Hrow) in Hring.
  destruct (IH (S t) (w <| w_storage ::= fun b => b <| b_bytes := s |> |>) Hj) as (w' & Ew & Hw); [exact Hring|lia|lia|].
  exists w'. split; [done|]. by replace (t + S k) with (S t + k) by lia.
Qed.

(** *** Banks *)

Lemma bank_truncate format width cap rows b n : bank_ok format width cap rows b -> n <= length rows ->
  exists s, storage_resize (n * row_size width format) (b_bytes b) = Ok s /\
    bank_ok format width cap (take n rows) (b <| b_rows := n |> <| b_bytes := s |>).
Proof.
  intros [Hw Hf Hrb Hr Hst Hc] Hn. pose proof (so_le _ _ _ _ Hst) as Hle.
  destruct (resize_ok type _ _ _ (n * row_size width format) Hst) as (s & Es & Hs & Hkeep); [nia|].
  exists s. split; [done|]. assert (Hlen : length (take n rows) = n) by (apply length_take_le; lia).
  constructor; simpl; try done; [by rewrite Hlen|].
  intros p row Hp. apply lookup_take_Some in Hp as [Hp Hpn]. pose proof (lookup_lt_Some _ _ _ Hp).
  rewrite Hkeep; [by apply Hc|apply chunk_inside; lia|apply chunk_inside; lia].
Qed.

(** Growing by one row: the place is made first and written afterwards. *)
Lemma bank_grow format width cap rows b : bank_ok format width cap rows b -> length rows < cap ->
  exists s, storage_resize (length rows * row_size width format + row_size width format) (b_bytes b) = Ok s /\
    forall bytes row, length bytes = row_size width format -> unpack_row bytes width format = Some row ->
    exists t, storage_write bytes (length rows * row_size width format) s = Ok t /\
      bank_ok format width cap (rows ++ [row]) (b <| b_bytes := t |> <| b_rows ::= S |>).
Proof.
  intros [Hw Hf Hrb Hr Hst Hc] Hn. set (rb := row_size width format) in *.
  destruct (resize_ok type _ _ _ (length rows * rb + rb) Hst) as (s & Es & Hs & Hkeep); [by apply chunk_inside|].
  exists s. split; [done|]. intros bytes row Hl Hu.
  destruct (write_ok type _ _ _ bytes (length rows * rb) Hs) as (t & Et & Ht & Ecells & Hin); [rewrite Hl; lia|].
  exists t. split; [done|]. constructor; simpl; try done.
  - rewrite Hr, length_app. simpl. lia.
  - rewrite length_app. simpl. fold rb. by replace ((length rows + 1) * rb) with (length rows * rb + rb) by lia.
  - fold rb. intros p r Hp. rewrite Ecells. destruct (decide (p = length rows)) as [->|].
    + rewrite lookup_app_r, Nat.sub_diag in Hp by lia. injection Hp as <-.
      pose proof (bytes_at_put _ _ _ Hin) as Hput. rewrite Hl in Hput. by rewrite Hput.
    + pose proof (lookup_lt_Some _ _ _ Hp) as Hlt. rewrite length_app in Hlt. simpl in Hlt. rewrite lookup_app_l in Hp by lia.
      pose proof (chunk_inside p (length rows) rb ltac:(lia)).
      rewrite bytes_at_other, Hkeep; [by apply Hc|lia|done|done|lia].
Qed.

(** *** Packing *)

Lemma pack_spec (b : bank) (width : Z) format row c : b_width b = Z.to_nat width -> b_format b = format -> row_size (Z.to_nat width) format <> 0 ->
  match quantise format width row with
  | Some q => exists bytes, pack b row c = (Ok bytes, c) /\ length bytes = row_size (Z.to_nat width) format /\
      unpack_row bytes (Z.to_nat width) format = Some q
  | None => exists e, pack b row c = (Err e, c)
  end.
Proof.
  intros Hw Hf Hrs. unfold quantise, pack, check. rewrite Hw, Hf. destruct (length row =? Z.to_nat width) eqn:E; cbn [andb].
  2: { eexists. done. }
  apply Nat.eqb_eq in E. pose proof (pack_row_law format row) as Hlaw. rewrite E in Hlaw. specialize (Hlaw Hrs).
  unfold bind, ret, lift. destruct (pack_row row (Z.to_nat width) format) as [bytes|].
  - destruct Hlaw as (-> & Hl & Hu). by exists bytes.
  - rewrite Hlaw. eexists. done.
Qed.
End parts.
