(* ===== verification/DsvCacheSteps.v ===== *)
(** * The attention cache keeps its ledger: the calls

    Every call of the cache gives the reply of the ledger and leaves the cache
    standing for the ledger that the call leaves. *)

From S2P Require Import Prelude BlockCache DsvLayout Qat DsvCache DsvLedger DsvCacheInv.
Open Scope nat_scope.

(** ** Loops *)

Lemma for_each_checks {A} (l : list A) (f : A -> bool) msg c :
  for_each l (fun x => check (f x) msg) c = (if forallb f l then Ok tt else Err (invalid_argument msg), c).
Proof.
  induction l as [|x l IH]; [done|]. cbn [for_each forallb]. unfold bind at 1. unfold check at 1. destruct (f x); [exact IH|done].
Qed.

Lemma collect_ok `{RowCodec} {A} (l : list A) (f : A -> M (list scalar)) (g : A -> list scalar) c :
  (forall x, x ∈ l -> f x c = (Ok (g x), c)) -> collect l f c = (Ok (mjoin (g <$> l)), c).
Proof.
  induction l as [|x l IH]; intros Hf; [done|]. cbn [collect]. unfold bind. rewrite (Hf x) by (by left).
  rewrite IH by (intros y Hy; apply Hf; by right). done.
Qed.

Section steps.
Context `{RowCodecLaws} (fresh_cell : positive -> nat -> Z) (type : option positive) (config : attention_layout_config) (capacity : nat).
Context (Hgeo : geometry type config) (Htyped : config_typed config) (Hvalid : layout_valid config).

Abbreviation hd := (Z.to_nat (head_dim config)).
Abbreviation ihd := (Z.to_nat (index_head_dim config)).
Abbreviation W := (cfg_ring config).
Abbreviation rbw := (row_size hd GGML_QAT_FP8_E8M0).
Abbreviation layers := (cfg_layers config).
Abbreviation ratio := (cfg_ratio config).
Abbreviation owns := (owns config).
Abbreviation ring := (ring type config).
Abbreviation journal := (journal config).

(** ** Owners *)

Lemma owner_of_owns layer o : owner_of config layer = Some o -> owns o = true /\ o < layers /\ layer < layers.
Proof.
  unfold owner_of. case_decide as Hl; [|done]. unfold layer_of. cbv zeta. destruct (decide (ratio_at config (Z.of_nat layer) = 0%Z)) as [Er|Er]; [by change (kv_owner window_layer) with (-1)%Z; rewrite decide_False by lia|]. cbn [kv_owner].
  case_decide as Hpos; [|done]. intros [= <-]. destruct Htyped as (_ & Hu & _). destruct Hvalid as (_ & _ & _ & _ & Hkv & _ & _ & _).
  set (o := last_source (kv_source_layers config) (Z.of_nat layer)) in *.
  assert (Hin : o ∈ kv_source_layers config) by (by apply last_source_found).
  destruct (source_compressed config _ _ Hkv Hin) as [Hrange Hr]. unfold layers in *. split; [|lia].
  apply bool_decide_eq_true. unfold owner_of, cfg_layers. rewrite decide_True by lia. unfold layer_of. rewrite Z2Nat.id by lia. destruct (decide (ratio_at config o = 0%Z)); [done|].
  cbn [kv_owner]. rewrite (last_source_next _ o Hu) by lia. rewrite (decide_True (P := o ∈ kv_source_layers config)) by done.
  by rewrite decide_True by lia.
Qed.

Lemma owns_ratio layer : owns layer = true -> 0 < ratio layer /\ layer < layers.
Proof.
  intros Ho%bool_decide_eq_true. pose proof (owner_of_owns _ _ Ho) as (_ & Hlt & _). split; [|done].
  unfold owner_of in Ho. rewrite decide_True in Ho by done. unfold layer_of in Ho. cbv zeta in Ho.
  destruct (decide (ratio_at config (Z.of_nat layer) = 0%Z)) as [Er|Er]; [by change (kv_owner window_layer) with (-1)%Z in Ho; rewrite decide_False in Ho by lia|]. unfold ratio. destruct Htyped as (Hr & _). unfold ratio_at in *.
  destruct (compress_ratios config !! Z.to_nat (Z.of_nat layer)) as [r|] eqn:E; [|done]. rewrite Forall_lookup in Hr. apply Hr in E. unfold u32 in E. cbn in *. lia.
Qed.

Lemma layout_at i : i < layers -> nth i (layout_of config) window_layer = layer_of config (Z.of_nat i).
Proof.
  intros Hi. rewrite nth_lookup. unfold layout_of. rewrite list_lookup_fmap, layer_ids_lookup by done. done.
Qed.

Lemma ratio_of_layer i : Z.to_nat (compress_ratio (layer_of config (Z.of_nat i))) = ratio i.
Proof. unfold layer_of, ratio. case_decide as E; [by rewrite E|done]. Qed.

(** ** What a cache stands for *)

Definition bank_pair (layer : nat) (rows : list (list scalar * list scalar)) (g k : bank) : Prop :=
  if owns layer
  then bank_ok type GGML_QAT_FP4_E4M3 hd (capacity / ratio layer) (fst <$> rows) g /\
       bank_ok type GGML_QAT_FP4_E8M0 ihd (capacity / ratio layer) (snd <$> rows) k
  else rows = [] /\ g = no_bank /\ k = no_bank.

Record banks_ok (B : list (list (list scalar * list scalar))) (gs ks : list bank) : Prop := {
  ba_length : length B = layers;
  ba_gs : length gs = layers;
  ba_ks : length ks = layers;
  ba_pair i : i < layers -> bank_pair i (nth i B []) (bank_at gs i) (bank_at ks i) }.

Record keeps (c : cache) (l : ledger) : Prop := {
  ke_config : c_config c = config;
  ke_layout : c_layout c = layout_of config;
  ke_capacity : capacity_ c = capacity;
  ke_length : length (lg_windows l) = layers;
  ke_windows : Forall2 ring (lg_windows l) (windows_ c);
  ke_banks : banks_ok (lg_banks l) (global_ c) (index_ c);
  ke_active : active_ c = bool_decide (is_Some (lg_open l));
  ke_idle : lg_open l = None -> complete config (ledger_end l) l = true;
  ke_open e : lg_open l = Some e ->
    Forall2 ring (take e <$> lg_windows l) (saved_windows_ c) /\
    (forall i, i < layers -> nth i (saved_rows_ c) 0 = if owns i then e / ratio i else 0) /\
    Forall (fun h => e <= length h) (lg_windows l) /\
    (forall i, owns i = true -> e / ratio i <= length (nth i (lg_banks l) [])) /\
    (forall first limit, lg_checkpoint l = Some (first, limit) ->
       first <= e /\ forall i, i < layers -> nth i (saved_update_sizes_ c) 0 = (e - first) * rbw);
  ke_saved : saved_windows_ c = [] \/ exists hs, length hs = layers /\ Forall2 ring hs (saved_windows_ c);
  ke_checkpoint : checkpoint_ c = bool_decide (is_Some (lg_checkpoint l));
  ke_snapshot first limit : lg_checkpoint l = Some (first, limit) ->
    checkpoint_position_ c = first /\ checkpoint_limit_ c = limit /\
    Forall2 ring (take first <$> lg_windows l) (checkpoint_windows_ c) /\
    Forall2 (journal first) (lg_windows l) (checkpoint_updates_ c) /\
    Forall (fun h => first <= length h) (lg_windows l) }.

(** ** Setting the rows of the banks *)

Lemma bank_at_alter f i (bs : list bank) j : i < length bs -> bank_at (alter f i bs) j = if decide (i = j) then f (bank_at bs i) else bank_at bs j.
Proof.
  intros Hi. unfold bank_at. rewrite !nth_lookup. case_decide as E.
  - subst j. rewrite list_lookup_alter_eq. destruct (lookup_lt_is_Some_2 bs i Hi) as [b ->]. done.
  - by rewrite list_lookup_alter_ne.
Qed.

Lemma nth_alter {A} (f : list A -> list A) i (B : list (list A)) j : f [] = [] -> nth j (alter f i B) [] = if decide (i = j) then f (nth j B []) else nth j B [].
Proof.
  intros Hf. rewrite !nth_lookup. case_decide as E; [|by rewrite list_lookup_alter_ne].
  subst j. rewrite list_lookup_alter_eq. by destruct (B !! i).
Qed.

Lemma set_rows_ok B c i t : i < layers -> banks_ok B (global_ c) (index_ c) -> (owns i = true -> t <= length (nth i B [])) -> (owns i = false -> t = 0) ->
  exists gs ks, set_rows i t c = (Ok tt, c <| global_ := gs |> <| index_ := ks |>) /\ banks_ok (alter (take t) i B) gs ks.
Proof.
  intros Hi [HB Hgs Hks Hp] Ht1 Ht0. pose proof (Hp i Hi) as Hpi. unfold bank_pair in Hpi.
  unfold set_rows, bind, update, ask, lift. simpl.
  rewrite !bank_at_alter, !decide_True by (done || by rewrite ?Hgs, ?Hks).
  assert (Hres : exists s s', storage_resize (t * b_row_bytes (bank_at (global_ c) i)) (b_bytes (bank_at (global_ c) i)) = Ok s /\
     storage_resize (t * b_row_bytes (bank_at (index_ c) i)) (b_bytes (bank_at (index_ c) i)) = Ok s' /\
     bank_pair i (take t (nth i B [])) ((bank_at (global_ c) i) <| b_rows := t |> <| b_bytes := s |>)
                                       ((bank_at (index_ c) i) <| b_rows := t |> <| b_bytes := s' |>)).
  { unfold bank_pair. destruct (owns i).
    - destruct Hpi as [Hg Hk]. specialize (Ht1 eq_refl). rewrite (bo_row_bytes _ _ _ _ _ _ Hg), (bo_row_bytes _ _ _ _ _ _ Hk).
      destruct (bank_truncate _ _ _ _ _ _ t Hg) as (s & -> & Hs); [by rewrite length_fmap|].
      destruct (bank_truncate _ _ _ _ _ _ t Hk) as (s' & -> & Hs'); [by rewrite length_fmap|].
      exists s, s'. rewrite !fmap_take. done.
    - destruct Hpi as (-> & -> & ->). rewrite (Ht0 eq_refl). exists no_storage, no_storage. done. }
  destruct Hres as (s & s' & Es & Es' & Hpair). simpl. rewrite Es, Es'.
  eexists _, _. split; [reflexivity|]. constructor; rewrite ?length_alter; try done.
  intros j Hj. rewrite nth_alter by (by destruct t). rewrite !bank_at_alter by (by rewrite ?length_alter, ?Hgs, ?Hks).
  case_decide as E; [subst j; rewrite ?decide_True by done; exact Hpair|by apply Hp].
Qed.

Lemma nth_imap {A} (f : nat -> list A -> list A) (B : list (list A)) i : f i [] = [] -> nth i (imap f B) [] = f i (nth i B []).
Proof. intros Hf. rewrite !nth_lookup, list_lookup_imap. by destruct (B !! i). Qed.

(** A loop over the layers that sets the rows of the banks. *)
Lemma banks_loop (f : nat -> M ()) (t : nat -> nat) :
  (forall i c B, i < layers -> banks_ok B (global_ c) (index_ c) -> (owns i = true -> t i <= length (nth i B [])) ->
     exists gs ks, f i c = (Ok tt, c <| global_ := gs |> <| index_ := ks |>) /\ banks_ok (alter (take (t i)) i B) gs ks) ->
  forall B c, banks_ok B (global_ c) (index_ c) -> (forall i, owns i = true -> t i <= length (nth i B [])) ->
  exists gs ks, for_each (seq 0 layers) f c = (Ok tt, c <| global_ := gs |> <| index_ := ks |>) /\
    banks_ok (imap (fun i => take (t i)) B) gs ks.
Proof.
  intros Hf.
  assert (Hloop : forall m k c B, k + m = layers -> banks_ok B (global_ c) (index_ c) ->
    (forall i, k <= i -> owns i = true -> t i <= length (nth i B [])) ->
    exists gs ks, for_each (seq k m) f c = (Ok tt, c <| global_ := gs |> <| index_ := ks |>) /\
      banks_ok (imap (fun i r => if i <? k then r else take (t i) r) B) gs ks).
  { induction m as [|m IH]; intros k c B Hk HB Ht.
    - exists (global_ c), (index_ c). split; [by destruct c|]. destruct HB as [HB Hgs Hks Hp].
      constructor; rewrite ?length_imap; try done. intros i Hi. rewrite nth_imap by (destruct (i <? k); by rewrite ?take_nil).
      rewrite (proj2 (Nat.ltb_lt _ _)) by lia. by apply Hp.
    - cbn [seq for_each]. destruct (Hf k c B ltac:(lia) HB) as (gs & ks & Ef & HB'); [intros; by apply Ht|].
      unfold bind. rewrite Ef. destruct (IH (S k) (c <| global_ := gs |> <| index_ := ks |>) (alter (take (t k)) k B)) as (gs' & ks' & El & HB''); [lia|done| |].
      + intros i Hi Ho. rewrite nth_alter by (by rewrite take_nil). rewrite decide_False by lia. apply Ht; [lia|done].
      + exists gs', ks'. split; [by rewrite El; destruct c|]. destruct HB'' as [HBl Hgs Hks Hp].
        rewrite length_imap, length_alter in HBl. constructor; rewrite ?length_imap; try done.
        intros i Hi. specialize (Hp i Hi). rewrite nth_imap in Hp by (destruct (i <? S k); by rewrite ?take_nil).
        rewrite nth_imap by (destruct (i <? k); by rewrite ?take_nil). rewrite nth_alter in Hp by (by rewrite take_nil).
        destruct (decide (k = i)) as [->|Hne].
        * rewrite (proj2 (Nat.ltb_lt _ _)) in Hp by lia. by rewrite (proj2 (Nat.ltb_ge _ _)) by lia.
        * destruct (i <? k) eqn:E; [apply Nat.ltb_lt in E; by rewrite (proj2 (Nat.ltb_lt _ _)) in Hp by lia|].
          apply Nat.ltb_ge in E. by rewrite (proj2 (Nat.ltb_ge _ _)) in Hp by lia. }
  intros B c HB Ht. apply (Hloop layers 0 c B); [done|done|]. intros i _. apply Ht.
Qed.

(** ** Complete ledgers *)

Lemma ledger_complete_spec p l : complete config p l = true <->
  Forall (fun h => length h = p) (lg_windows l) /\ forall i, owns i = true -> length (nth i (lg_banks l) []) = p / ratio i.
Proof.
  unfold complete. rewrite andb_true_iff, !forallb_forall, Forall_forall. split.
  - intros [H1 H2]. split.
    + intros h Hh. apply Nat.eqb_eq, H1. by apply list_elem_of_In.
    + intros i Ho. destruct (owns_ratio i Ho) as [_ Hi]. specialize (H2 i ltac:(apply list_elem_of_In, elem_of_seq; lia)). rewrite Ho in H2. by apply Nat.eqb_eq.
  - intros [H1 H2]. split.
    + intros h Hh. apply Nat.eqb_eq, H1. by apply list_elem_of_In.
    + intros i _. destruct (owns i) eqn:Ho; [|done]. simpl. by apply Nat.eqb_eq, H2.
Qed.

Lemma ledger_end_all l p : length (lg_windows l) = layers -> Forall (fun h => length h = p) (lg_windows l) -> ledger_end l = p.
Proof.
  intros Hl HF. unfold ledger_end. pose proof (ge_layers _ _ Hgeo). destruct (lg_windows l) as [|h hs]; [simpl in *; lia|].
  apply Forall_cons in HF as [? _]. done.
Qed.

Lemma complete_truncate p l : length (lg_windows l) = layers -> Forall (fun h => p <= length h) (lg_windows l) ->
  (forall i, owns i = true -> p / ratio i <= length (nth i (lg_banks l) [])) ->
  ledger_end (truncate config p l) = p /\ complete config p (truncate config p l) = true.
Proof.
  intros Hl HF HB. assert (HF' : Forall (fun h => length h = p) (lg_windows (truncate config p l))).
  { simpl. apply Forall_fmap. eapply Forall_impl; [exact HF|]. intros h Hh. simpl. by apply length_take_le. }
  split; [apply ledger_end_all; [by simpl; rewrite length_fmap|done]|].
  apply ledger_complete_spec. split; [done|]. intros i Ho. simpl. rewrite nth_imap by (by rewrite take_nil). by apply length_take_le, HB.
Qed.

Lemma idle_ends c l : keeps c l -> lg_open l = None ->
  Forall (fun h => length h = ledger_end l) (lg_windows l) /\ forall i, owns i = true -> length (nth i (lg_banks l) []) = ledger_end l / ratio i.
Proof. intros Hk Hn. by apply ledger_complete_spec, (ke_idle _ _ Hk). Qed.

(** Rows truncated to a position the idle ledger has passed. *)
Lemma idle_truncate c l p : keeps c l -> lg_open l = None -> p <= ledger_end l ->
  Forall (fun h => p <= length h) (lg_windows l) /\ forall i, owns i = true -> p / ratio i <= length (nth i (lg_banks l) []).
Proof.
  intros Hk Hn Hp. destruct (idle_ends c l Hk Hn) as [HF HB]. split.
  - eapply Forall_impl; [exact HF|]. simpl. lia.
  - intros i Ho. rewrite (HB i Ho). apply Nat.Div0.div_le_mono. done.
Qed.

(** ** Transactions and checkpoints *)

Definition agrees (r : option reply * cache) (r' : option reply * ledger) : Prop := r.1 = r'.1 /\ keeps r.2 r'.2.

Lemma discard_state c : active_ c = false -> discard_checkpoint c =
  (Ok tt, c <| checkpoint_ := false |> <| checkpoint_windows_ := [] |> <| checkpoint_updates_ := [] |> <| saved_update_sizes_ := [] |>).
Proof. intros Ha. unfold discard_checkpoint, bind, ask, check. by rewrite Ha. Qed.

Lemma step_discard c l : keeps c l -> agrees (cache_step fresh_cell Discard c) (ledger_step config capacity Discard l).
Proof.
  intros Hk. pose proof (ke_active _ _ Hk) as Ha. cbn [cache_step ledger_step]. destruct (lg_open l) as [e|] eqn:Eo.
  - unfold discard_checkpoint, bind, ask, check, answer. rewrite Ha. done.
  - rewrite discard_state by done. split; [done|]. destruct Hk. constructor; simpl; try done. rewrite Eo in *. done.
Qed.

Lemma step_begin c l : keeps c l -> agrees (cache_step fresh_cell Begin c) (ledger_step config capacity Begin l).
Proof.
  intros Hk. pose proof (ke_active _ _ Hk) as Ha. cbn [cache_step ledger_step]. unfold begin, bind, ask, check. rewrite Ha.
  destruct (lg_open l) as [e|] eqn:Eo; [done|]. simpl. unfold lift, answer. rewrite (rings_assign _ _ _ Hgeo _ _ _ (ke_windows _ _ Hk)). simpl.
  split; [done|]. destruct (idle_ends c l Hk Eo) as [HF HB]. pose proof Hk as [].
  constructor; simpl; try done; [|right; by exists (lg_windows l)].
  intros e [= <-]. split_and!.
  - replace (take (ledger_end l) <$> lg_windows l) with (lg_windows l); [done|].
    rewrite <- (list_fmap_id (lg_windows l)) at 1. apply list_fmap_ext. intros i h Hh. rewrite Forall_lookup in HF.
    simpl. by rewrite take_ge by (rewrite (HF _ _ Hh); lia).
  - intros i Hi. rewrite (nth_lookup (b_rows <$> global_ c)), list_lookup_fmap.
    destruct ke_banks0 as [_ Hgs _ Hp]. specialize (Hp i Hi). unfold bank_at in Hp. rewrite (nth_lookup (global_ c)) in Hp.
    destruct (lookup_lt_is_Some_2 (global_ c) i) as [b Eb]; [lia|]. rewrite Eb in *. simpl in *. unfold bank_pair in Hp.
    destruct (owns i) eqn:Ho; [|by destruct Hp as (_ & -> & _)]. destruct Hp as [Hg _]. by rewrite (bo_rows _ _ _ _ _ _ Hg), length_fmap, HB.
  - eapply Forall_impl; [exact HF|]. simpl. lia.
  - intros i Ho. by rewrite HB.
  - intros first limit Ec. destruct (ke_snapshot0 _ _ Ec) as (_ & _ & _ & Hj & Hle). split.
    + pose proof (ge_layers _ _ Hgeo). destruct (lg_windows l) as [|h hs] eqn:Ew; [simpl in *; lia|].
      apply Forall_cons in Hle as [Hle _]. unfold ledger_end. by rewrite Ew.
    + intros i Hi. rewrite ke_checkpoint0, Ec. simpl. rewrite (nth_lookup (length <$> _)), list_lookup_fmap.
      destruct (lookup_lt_is_Some_2 (lg_windows l) i) as [h Eh]; [lia|].
      destruct (Forall2_lookup_l _ _ _ _ _ Hj Eh) as (u & -> & Hu). simpl. rewrite (jo_length _ _ _ _ Hu).
      rewrite Forall_lookup in HF. by rewrite (HF _ _ Eh).
Qed.

Lemma nth_window c l i : keeps c l -> i < layers -> exists h w, lg_windows l !! i = Some h /\ nth i (lg_windows l) [] = h /\
  windows_ c !! i = Some w /\ window_at (windows_ c) i = w /\ ring h w.
Proof.
  intros Hk Hi. destruct (lookup_lt_is_Some_2 (lg_windows l) i) as [h Eh]; [rewrite (ke_length _ _ Hk); done|].
  destruct (Forall2_lookup_l _ _ _ _ _ (ke_windows _ _ Hk) Eh) as (w & Ew & Hr). exists h, w.
  unfold window_at. rewrite !nth_lookup, Eh, Ew. done.
Qed.

Lemma windows_length c l : keeps c l -> length (windows_ c) = layers.
Proof. intros Hk. rewrite <- (ke_length _ _ Hk). symmetry. by eapply Forall2_length, ke_windows. Qed.

Lemma first_end c l : keeps c l -> w_end (window_at (windows_ c) 0) = ledger_end l.
Proof.
  intros Hk. destruct (nth_window c l 0 Hk (ge_layers _ _ Hgeo)) as (h & w & _ & Eh & _ & -> & Hr). unfold ledger_end. by rewrite Eh, (ri_end _ _ _ _ Hr).
Qed.

Lemma ends_agree c l p : keeps c l -> forallb (fun w => w_end w =? p) (windows_ c) = forallb (fun h => length h =? p) (lg_windows l).
Proof.
  intros Hk. pose proof (ke_windows _ _ Hk) as HF. induction HF as [|h w hs ws Hr HF IH]; [done|]. simpl. by rewrite IH, (ri_end _ _ _ _ Hr).
Qed.

Lemma bank_row_bytes c l i : keeps c l -> i < layers -> (b_row_bytes (bank_at (global_ c) i) =? 0) = negb (owns i).
Proof.
  intros Hk Hi. pose proof (ba_pair _ _ _ (ke_banks _ _ Hk) i Hi) as Hp. unfold bank_pair in Hp. destruct (owns i) eqn:Ho.
  - destruct Hp as [Hg _]. rewrite (bo_row_bytes _ _ _ _ _ _ Hg). apply Nat.eqb_neq. by apply (ge_owner _ _ Hgeo i).
  - by destruct Hp as (_ & -> & _).
Qed.

Lemma bank_rows c l i : keeps c l -> owns i = true -> b_rows (bank_at (global_ c) i) = length (nth i (lg_banks l) []).
Proof.
  intros Hk Ho. destruct (owns_ratio i Ho) as [_ Hi]. pose proof (ba_pair _ _ _ (ke_banks _ _ Hk) i Hi) as Hp. unfold bank_pair in Hp.
  rewrite Ho in Hp. destruct Hp as [Hg _]. by rewrite (bo_rows _ _ _ _ _ _ Hg), length_fmap.
Qed.

Lemma cache_ratio c l i : keeps c l -> i < layers -> ratio_of c i = ratio i.
Proof. intros Hk Hi. unfold ratio_of, layer_at. by rewrite (ke_layout _ _ Hk), layout_at, ratio_of_layer. Qed.

Lemma for_each_ext {A} (l : list A) (f g : A -> M ()) c : (forall x c, x ∈ l -> f x c = g x c) -> for_each l f c = for_each l g c.
Proof.
  revert c. induction l as [|x l IH]; intros c Hfg; [done|]. cbn [for_each]. unfold bind. rewrite (Hfg x c) by (by left).
  destruct (g x c) as [[]]; [|done]. apply IH. intros y c' Hy. apply Hfg. by right.
Qed.

Lemma step_commit c l : keeps c l -> agrees (cache_step fresh_cell Commit c) (ledger_step config capacity Commit l).
Proof.
  intros Hk. pose proof (ke_active _ _ Hk) as Ha. cbn [cache_step ledger_step]. unfold commit, bind, ask. unfold check at 1. rewrite Ha.
  destruct (lg_open l) as [e|] eqn:Eo; [|done]. simpl. rewrite (first_end c l Hk).
  rewrite for_each_checks, (ends_agree c l _ Hk). unfold complete. destruct (forallb (fun h => _) (lg_windows l)) eqn:Ew; [|done]. simpl.
  rewrite (for_each_ext _ _ (fun i => check (negb (owns i) || (length (nth i (lg_banks l) []) =? ledger_end l / ratio i))
    "incomplete V4.1 global cache publication")).
  2: { intros i c' Hi%elem_of_seq. rewrite (ba_gs _ _ _ (ke_banks _ _ Hk)) in Hi. rewrite (bank_row_bytes c l) by (done || lia).
    destruct (owns i) eqn:Ho; [|done]. simpl. rewrite (bank_rows c l) by done. by rewrite (cache_ratio c l) by (done || lia). }
  rewrite (ba_gs _ _ _ (ke_banks _ _ Hk)), for_each_checks.
  destruct (forallb (fun i => negb (owns i) || _) (seq 0 layers)) eqn:Eb; [|done]. split; [done|]. destruct Hk. constructor; simpl; try done.
  intros _. unfold complete, ledger_end in *. simpl. by rewrite Ew, Eb.
Qed.

Lemma banks_ok_ext B B' gs ks : banks_ok B gs ks -> length B' = length B -> (forall i, i < layers -> nth i B' [] = nth i B []) -> banks_ok B' gs ks.
Proof. intros [HB Hgs Hks Hp] Hl Hn. constructor; try done; [congruence|]. intros i Hi. rewrite Hn by done. by apply Hp. Qed.

Lemma banks_of_others B gs ks i : banks_ok B gs ks -> i < layers -> owns i = false -> nth i B [] = [].
Proof. intros HB Hi Ho. pose proof (ba_pair _ _ _ HB i Hi) as Hp. unfold bank_pair in Hp. rewrite Ho in Hp. by destruct Hp. Qed.

(** The banks truncated to the rows of a position. *)
Lemma banks_truncated B gs ks p (t : nat -> nat) : banks_ok (imap (fun i => take (t i)) B) gs ks ->
  (forall i, owns i = true -> t i = p / ratio i) -> (forall i, i < layers -> owns i = false -> nth i B [] = []) ->
  banks_ok (imap (fun i => take (p / ratio i)) B) gs ks.
Proof.
  intros Hb Ht Hno. eapply banks_ok_ext; [exact Hb|by rewrite !length_imap|]. intros i Hi. rewrite !nth_imap by (by rewrite take_nil).
  destruct (owns i) eqn:Ho; [by rewrite Ht|]. by rewrite Hno, !take_nil.
Qed.

Lemma take_take_fmap {A} a b (hs : list (list A)) : a <= b -> take a <$> (take b <$> hs) = take a <$> hs.
Proof. intros Hab. rewrite <- list_fmap_compose. apply list_fmap_ext. intros i h _. simpl. rewrite take_take. f_equal. lia. Qed.

Lemma step_rollback c l : keeps c l -> agrees (cache_step fresh_cell Rollback c) (ledger_step config capacity Rollback l).
Proof.
  intros Hk. pose proof (ke_active _ _ Hk) as Ha. cbn [cache_step ledger_step]. unfold abort, bind, ask. unfold check at 1. rewrite Ha.
  destruct (lg_open l) as [e|] eqn:Eo; [|done]. simpl.
  destruct (ke_open _ _ Hk e Eo) as (Hsaved & Hrows & Hends & Hbanks & Hcp).
  set (c1 := c <| windows_ := saved_windows_ c |> <| saved_windows_ := windows_ c |>).
  destruct (banks_loop (fun i => set_rows i (nth i (saved_rows_ c) 0)) (fun i => nth i (saved_rows_ c) 0)) with (B := lg_banks l) (c := c1)
    as (gs & ks & Eloop & HB).
  { intros i c' B Hi HB Ht. apply set_rows_ok; [done|done|done|]. intros Ho. by rewrite Hrows, Ho. }
  { apply (ke_banks _ _ Hk). }
  { intros i Ho. destruct (owns_ratio i Ho) as [_ Hi]. rewrite Hrows, Ho by done. by apply Hbanks. }
  rewrite (ba_gs _ _ _ (ke_banks _ _ Hk)). cbn beta iota delta [update]. unfold c1 in Eloop. simpl in Eloop. rewrite Eloop. cbn beta iota delta [update].
  apply (banks_truncated _ _ _ e) in HB; [| |intros i Hi; by apply (banks_of_others _ _ _ i (ke_banks _ _ Hk))].
  2: { intros i Ho. destruct (owns_ratio i Ho) as [_ Hi]. by rewrite Hrows, Ho. }
  destruct (complete_truncate e l (ke_length _ _ Hk) Hends Hbanks) as [He Hcomp].
  split; [done|]. subst c1. simpl. pose proof Hk as [].
  assert (Hfields : forall A (f : cache -> A) (x y : cache), f x = f y -> f (if checkpoint_ c then x else y) = f y) by (intros; by destruct (checkpoint_ c)).
  constructor; simpl; rewrite ?(Hfields _ c_config), ?(Hfields _ c_layout), ?(Hfields _ capacity_), ?(Hfields _ windows_), ?(Hfields _ global_),
    ?(Hfields _ index_), ?(Hfields _ checkpoint_), ?(Hfields _ checkpoint_position_), ?(Hfields _ checkpoint_limit_), ?(Hfields _ checkpoint_windows_) by done;
    simpl; try done; try (by left).
  - by rewrite length_fmap.
  - intros _. change (complete config (ledger_end (truncate config e l)) (truncate config e l) = true). by rewrite He.
  - intros first limit Ec. destruct (ke_snapshot0 _ _ Ec) as (E1 & E2 & Hsnap & Hj & Hle). destruct (Hcp _ _ Ec) as [Hfe Hsizes].
    rewrite ke_checkpoint0, Ec. simpl. split_and!; try done.
    + by rewrite take_take_fmap.
    + apply Forall2_same_length_lookup. split; [rewrite length_fmap, length_imap; by eapply Forall2_length|].
      intros i h' u' Hh Hu. rewrite list_lookup_fmap in Hh. destruct (lg_windows l !! i) as [h|] eqn:Eh; [|done]. injection Hh as <-.
      rewrite list_lookup_imap in Hu. destruct (Forall2_lookup_l _ _ _ _ _ Hj Eh) as (u & Eu & Hju). rewrite Eu in Hu. injection Hu as <-.
      pose proof (lookup_lt_Some _ _ _ Eh) as Hi. rewrite ke_length0 in Hi. rewrite Hsizes by done. rewrite Forall_lookup in Hends.
      apply journal_truncate; [done|done|]. by eapply Hends.
    + apply Forall_fmap. eapply Forall_impl; [exact (proj2 (Forall_and _ _) (conj Hle Hends))|]. intros h [? ?]. simpl. rewrite length_take. lia.
Qed.

Lemma snapshot_of_windows c l p : keeps c l -> Forall (fun h => length h = p) (lg_windows l) -> Forall2 ring (take p <$> lg_windows l) (windows_ c).
Proof.
  intros Hk HF. replace (take p <$> lg_windows l) with (lg_windows l); [by apply (ke_windows _ _ Hk)|].
  rewrite <- (list_fmap_id (lg_windows l)) at 1. apply list_fmap_ext. intros i h Hh. rewrite Forall_lookup in HF.
  simpl. by rewrite take_ge by (rewrite (HF _ _ Hh); lia).
Qed.

Lemma step_save n c l : keeps c l -> agrees (cache_step fresh_cell (Save n) c) (ledger_step config capacity (Save n) l).
Proof.
  intros Hk. pose proof (ke_active _ _ Hk) as Ha. cbn [cache_step ledger_step]. unfold save_checkpoint, bind, ask. unfold check at 1 2. rewrite Ha.
  destruct (lg_open l) as [e|] eqn:Eo; [done|]. simpl. destruct ((0 <? n) && (n <=? 8)) eqn:En; [|done]. simpl.
  rewrite (first_end c l Hk), (ke_capacity _ _ Hk).
  replace ((ledger_end l <=? capacity) && (n <=? capacity - ledger_end l)) with (ledger_end l + n <=? capacity).
  2: { apply Bool.eq_iff_eq_true. rewrite andb_true_iff, !Nat.leb_le. apply andb_true_iff in En as [En%Nat.ltb_lt _]. lia. }
  destruct (ledger_end l + n <=? capacity) eqn:Ecap; [|done]. simpl. unfold lift. rewrite (rings_copy _ _ _ Hgeo _ _ (ke_windows _ _ Hk)).
  destruct (idle_ends c l Hk Eo) as [HF HB]. rewrite for_each_checks, (ends_agree c l _ Hk).
  replace (forallb _ _) with true. 2: { symmetry. apply forallb_forall. intros h Hh. rewrite Forall_forall in HF. apply Nat.eqb_eq, HF. by apply list_elem_of_In. }
  split; [done|]. simpl. pose proof Hk as []. constructor; simpl; try done.
  { by rewrite Eo in *. }
  intros first limit [= <- <-]. split_and!; try done.
  - by apply snapshot_of_windows.
  - rewrite (windows_length c l Hk), <- (ke_length _ _ Hk). clear -HF. generalize dependent (ledger_end l). intros p HF.
    induction HF as [|h hs Hh _ IH]; simpl; constructor; [by apply journal_start|done].
  - eapply Forall_impl; [exact HF|]. simpl. lia.
Qed.

(** The windows a restore builds, one layer after the other. *)
Lemma restore_windows c l first limit p k m (rs : list window) : keeps c l -> lg_open l = None -> lg_checkpoint l = Some (first, limit) ->
  first <= p -> p <= ledger_end l -> k + m = layers ->
  Forall2 ring (imap (fun i h => take (if i <? k then p else first) h) (lg_windows l)) rs ->
  exists rs', foldM (restore_layer c p) (seq k m) rs = Ok rs' /\ Forall2 ring (take p <$> lg_windows l) rs'.
Proof.
  intros Hk Eo Ec Hfp Hpe. destruct (ke_snapshot _ _ Hk _ _ Ec) as (Epos & _ & Hsnap & Hj & Hle).
  destruct (idle_ends c l Hk Eo) as [HF HB]. revert k rs. induction m as [|m IH]; intros k rs Hkm Hrs.
  { exists rs. split; [done|]. replace (take p <$> lg_windows l) with (imap (fun i h => take (if i <? k then p else first) h) (lg_windows l)); [done|].
    apply list_eq. intros i. rewrite list_lookup_imap, list_lookup_fmap. destruct (lg_windows l !! i) as [h|] eqn:Eh; [|done]. simpl.
    apply lookup_lt_Some in Eh. rewrite (ke_length _ _ Hk) in Eh. by rewrite (proj2 (Nat.ltb_lt _ _)) by lia. }
  cbn [seq foldM]. destruct (nth_window c l k Hk ltac:(lia)) as (h & w & Eh & _ & Ew & Ewa & Hr).
  assert (Hh : length h = ledger_end l) by (rewrite Forall_lookup in HF; by eapply HF).
  destruct (Forall2_lookup_l _ _ _ _ _ Hj Eh) as (u & Eu & Hu).
  destruct (Forall2_lookup_l _ _ _ k (take first h) Hrs) as (wr & Ewr & Hwr).
  { rewrite list_lookup_imap, Eh. simpl. by rewrite (proj2 (Nat.ltb_ge _ _)) by lia. }
  unfold restore_layer at 1. rewrite Ewa, Epos, (ri_row_bytes _ _ _ _ Hr), (ri_end _ _ _ _ Hr), Hh.
  rewrite (nth_lookup (checkpoint_updates_ c)), Eu. change (default [] (Some u)) with u. rewrite (jo_length _ _ _ _ Hu), Hh.
  rewrite (proj2 (Nat.leb_le p _)) by done. rewrite (proj2 (Nat.leb_le ((p - first) * _) _)) by (apply Nat.mul_le_mono_r; lia). cbn [negb andb].
  unfold window_at at 1. rewrite (nth_lookup rs), Ewr. change (default no_window (Some wr)) with wr.
  assert (Hlen : length (take first h) = first) by (apply length_take_le; lia).
  destruct (replay_loop type config Hgeo first h u (p - first) first wr Hu) as (w' & Eloop & Hw').
  { apply ring_end; [done|]. by rewrite (ri_end _ _ _ _ Hwr). }
  { done. } { lia. }
  replace (ring_rows c) with W by (unfold ring_rows; by rewrite (ke_config _ _ Hk)). rewrite Eloop.
  replace (first + (p - first)) with p in Hw' by lia.
  replace (negb _ && _) with false.
  2: { rewrite (bank_row_bytes c l) by (done || lia). destruct (owns k) eqn:Ho; [|done]. simpl.
    rewrite (bank_rows c l), (HB k Ho), (cache_ratio c l) by (done || lia). rewrite (proj2 (Nat.leb_le _ _)); [done|]. by apply Nat.Div0.div_le_mono. }
  apply IH; [lia|]. apply Forall2_same_length_lookup. split; [rewrite length_insert; apply Forall2_length in Hrs; by rewrite !length_imap in *|].
  intros i h' x Hh' Hx. rewrite list_lookup_imap in Hh'. destruct (lg_windows l !! i) as [hi|] eqn:Ehi; [|done]. injection Hh' as <-.
  destruct (decide (k = i)) as [->|Hne].
  - rewrite list_lookup_insert_eq in Hx by (by eapply lookup_lt_Some). injection Hx as <-. rewrite Eh in Ehi. injection Ehi as <-.
    by rewrite (proj2 (Nat.ltb_lt _ _)) by lia.
  - rewrite list_lookup_insert_ne in Hx by done. destruct (Forall2_lookup_r _ _ _ _ _ Hrs Hx) as (y & Hy & Hring).
    rewrite list_lookup_imap, Ehi in Hy. injection Hy as <-. destruct (i <? k) eqn:E.
    + apply Nat.ltb_lt in E. by rewrite (proj2 (Nat.ltb_lt _ _)) by lia.
    + apply Nat.ltb_ge in E. by rewrite (proj2 (Nat.ltb_ge _ _)) by lia.
Qed.

Lemma first_snapshot {A} first (hs : list (list A)) : imap (fun i h => take (if i <? 0 then 0 else first) h) hs = take first <$> hs.
Proof. apply list_eq. intros i. rewrite list_lookup_imap, list_lookup_fmap. done. Qed.

Lemma step_restore p c l : keeps c l -> agrees (cache_step fresh_cell (Restore p) c) (ledger_step config capacity (Restore p) l).
Proof.
  intros Hk. pose proof (ke_active _ _ Hk) as Ha. cbn [cache_step ledger_step]. unfold restore_checkpoint, bind, ask. unfold check at 1.
  rewrite Ha, (ke_checkpoint _ _ Hk). destruct (lg_checkpoint l) as [[first limit]|] eqn:Ec.
  2: { rewrite andb_false_r. done. }
  destruct (ke_snapshot _ _ Hk _ _ Ec) as (Epos & Elim & Hsnap & Hj & Hle). rewrite Epos, Elim.
  destruct (lg_open l) as [e|] eqn:Eo; [done|]. cbn [negb andb bool_decide is_Some]. simpl.
  destruct ((first <=? p) && (p <=? limit)) eqn:Ep; [|done]. apply andb_true_iff in Ep as [Ep1%Nat.leb_le Ep2%Nat.leb_le]. simpl.
  unfold lift. rewrite (rings_copy _ _ _ Hgeo _ _ Hsnap). rewrite (windows_length c l Hk).
  destruct (idle_ends c l Hk Eo) as [HF HB].
  destruct (p <=? ledger_end l) eqn:Epe.
  2: { apply Nat.leb_gt in Epe. pose proof (ge_layers _ _ Hgeo). destruct (nth_window c l 0 Hk ltac:(lia)) as (h & w & Eh & _ & _ & Ewa & Hr).
    destruct layers as [|n]; [lia|]. cbn [seq foldM]. unfold restore_layer at 1. rewrite Ewa, (ri_end _ _ _ _ Hr).
    assert (length h = ledger_end l) as -> by (rewrite Forall_lookup in HF; by eapply HF).
    rewrite (proj2 (Nat.leb_gt p _)) by done. done. }
  apply Nat.leb_le in Epe. destruct (restore_windows c l first limit p 0 layers (checkpoint_windows_ c)) as (rs & Ers & Hrs); try done.
  { change (fun (i : nat) (h : list (list scalar)) => take (if i <? 0 then p else first) h) with (fun (i : nat) (h : list (list scalar)) => take first h).
    rewrite <- (first_snapshot first) in Hsnap. exact Hsnap. }
  rewrite Ers. cbn beta iota delta [update].
  destruct (idle_truncate c l p Hk Eo Epe) as [Hends Hbanks].
  destruct (banks_loop (fun i => if b_row_bytes (bank_at (global_ c) i) =? 0 then ret tt else set_rows i (p / ratio_of c i)) (fun i => p / ratio i))
    with (B := lg_banks l) (c := c <| windows_ := rs |>) as (gs & ks & Eloop & HBk).
  { intros i c' B Hi HBi Ht. rewrite (bank_row_bytes c l) by done. destruct (owns i) eqn:Ho; simpl.
    - rewrite (cache_ratio c l) by done. apply set_rows_ok; [done|done|intros _; by apply Ht|congruence].
    - exists (global_ c'), (index_ c'). split; [by destruct c'|]. eapply banks_ok_ext; [exact HBi|by rewrite length_alter|].
      intros j Hj'. rewrite nth_alter by (by rewrite take_nil). case_decide as E; [|done]. subst j. by rewrite (banks_of_others _ _ _ i HBi Hi Ho), take_nil. }
  { apply (ke_banks _ _ Hk). }
  { done. }
  rewrite (ba_gs _ _ _ (ke_banks _ _ Hk)). rewrite Eloop. rewrite discard_state by (simpl; by rewrite Ha). simpl.
  destruct (complete_truncate p l (ke_length _ _ Hk) Hends Hbanks) as [He Hcomp].
  split; [done|]. pose proof Hk as []. constructor; simpl; try done.
  - by rewrite length_fmap.
  - intros _. change (complete config (ledger_end (truncate config p l)) (truncate config p l) = true). by rewrite He.
  - by rewrite Eo.
Qed.

Lemma step_clear c l : keeps c l -> agrees (cache_step fresh_cell Clear c) (ledger_step config capacity Clear l).
Proof.
  intros Hk. pose proof (ke_active _ _ Hk) as Ha. cbn [cache_step ledger_step]. unfold clear, bind, ask. unfold check at 1.
  rewrite Ha. destruct (lg_open l) as [e|] eqn:Eo; [done|]. cbn beta iota delta [update ret].
  set (zero := fun w : window => w <| w_end := 0 |> <| w_storage ::= fun b => b <| b_bytes ::= storage_zero |> |>).
  destruct (banks_loop (fun i => set_rows i 0) (fun _ => 0)) with (B := lg_banks l) (c := c <| windows_ ::= fmap zero |>) as (gs & ks & Eloop & HBk).
  { intros i c' B Hi HBi Ht. by apply set_rows_ok. }
  { apply (ke_banks _ _ Hk). }
  { intros; lia. }
  rewrite (ba_gs _ _ _ (ke_banks _ _ Hk)). simpl in Eloop |- *. rewrite Eloop. rewrite discard_state by (simpl; by rewrite Ha).
  destruct (complete_truncate 0 l (ke_length _ _ Hk)) as [He Hcomp]; [apply Forall_true; lia|intros; rewrite Nat.Div0.div_0_l; lia|].
  assert (HB0 : banks_ok (imap (fun i => take (0 / ratio i)) (lg_banks l)) gs ks).
  { eapply banks_ok_ext; [exact HBk|by rewrite !length_imap|]. intros i Hi. rewrite !nth_imap by (by rewrite take_nil). by rewrite Nat.Div0.div_0_l. }
  split; [done|]. pose proof Hk as []. constructor; simpl; try done; try (by left).
  - by rewrite length_fmap.
  - clear -ke_windows0. induction ke_windows0 as [|h w hs ws Hr _ IH]; simpl; constructor; [by eapply ring_zero|done].
  - intros _. change (complete config (ledger_end (truncate config 0 l)) (truncate config 0 l) = true). by rewrite He.
  - by rewrite Eo.
Qed.

(** ** Appending *)

Lemma take_alter {A} e i (hs : list (list A)) (r : A) : Forall (fun h => e <= length h) hs ->
  take e <$> alter (fun h => h ++ [r]) i hs = take e <$> hs.
Proof.
  intros HF. apply list_eq. intros j. rewrite !list_lookup_fmap. destruct (decide (i = j)) as [->|]; [|by rewrite list_lookup_alter_ne].
  rewrite list_lookup_alter_eq. destruct (hs !! j) as [h|] eqn:E; [|done]. simpl. rewrite Forall_lookup in HF. by rewrite take_app_le by (by eapply HF).
Qed.

Lemma ends_alter {A} e i (hs : list (list A)) (r : A) : Forall (fun h => e <= length h) hs -> Forall (fun h => e <= length h) (alter (fun h => h ++ [r]) i hs).
Proof.
  intros HF. rewrite Forall_lookup in *. intros j h Hj. destruct (decide (i = j)) as [->|]; [|rewrite list_lookup_alter_ne in Hj by done; by eapply HF].
  rewrite list_lookup_alter_eq in Hj. destruct (hs !! j) as [h0|] eqn:E; [|done]. injection Hj as <-. rewrite length_app. pose proof (HF _ _ E). lia.
Qed.

(** The ledger of a longer window, with or without a journal. *)
Lemma keeps_longer c l layer h w u row bytes s (cp : bool) : keeps c l -> lg_open l <> None -> lg_windows l !! layer = Some h -> windows_ c !! layer = Some w ->
  length bytes = rbw -> unpack_row bytes hd GGML_QAT_FP8_E8M0 = Some row ->
  ring (h ++ [row]) (w <| w_storage ::= fun b => b <| b_bytes := s |> |> <| w_end ::= S |>) ->
  cp = bool_decide (is_Some (lg_checkpoint l)) ->
  u = (if cp then alter (fun u => u ++ bytes) layer (checkpoint_updates_ c) else checkpoint_updates_ c) ->
  keeps (c <| checkpoint_updates_ := u |>
           <| windows_ ::= alter (fun w => w <| w_storage ::= fun b => b <| b_bytes := s |> |> <| w_end ::= S |>) layer |>)
        (l <| lg_windows ::= alter (fun h => h ++ [row]) layer |>).
Proof.
  intros Hk Ho Eh Ew Hl Hu Hr Ecp Eu. pose proof Hk as []. constructor; simpl; try done.
  - by rewrite length_alter.
  - apply Forall2_alter; [done|]. intros h' w' Eh' Ew' _. rewrite Eh in Eh'. rewrite Ew in Ew'. injection Eh' as <-. injection Ew' as <-. done.
  - intros e Ee. destruct (ke_open0 e Ee) as (H1 & H2 & H3 & H4 & H5). rewrite take_alter by done. split_and!; try done. by apply ends_alter.
  - intros first limit Ec. destruct (ke_snapshot0 _ _ Ec) as (H1 & H2 & H3 & H4 & H5). rewrite take_alter by done.
    rewrite Ec in Ecp. simpl in Ecp. subst cp u. split_and!; try done; [|by apply ends_alter].
    apply Forall2_alter; [done|]. intros h' u' Eh' Eu' Hj. rewrite Eh in Eh'. injection Eh' as <-.
    apply journal_append; try done. rewrite Forall_lookup in H5. by eapply H5.
Qed.

Lemma step_append_window layer position row c l : keeps c l ->
  agrees (cache_step fresh_cell (AppendWindow layer position row) c) (ledger_step config capacity (AppendWindow layer position row) l).
Proof.
  intros Hk. pose proof (ke_active _ _ Hk) as Ha. cbn [cache_step ledger_step]. unfold append_window, ledger_append_window, bind, ask. unfold check at 1 2.
  rewrite Ha, (windows_length c l Hk), (ke_capacity _ _ Hk).
  destruct (lg_open l) as [e|] eqn:Eo; [|done]. change (bool_decide (is_Some (Some e))) with true. cbn [andb].
  destruct (layer <? layers) eqn:El; [|done]. destruct (position <? capacity) eqn:Ep; [|done]. cbn [andb]. apply Nat.ltb_lt in El.
  destruct (nth_window c l layer Hk El) as (h & w & Eh & Enh & Ew & Ewa & Hr). unfold ret at 1. rewrite Ewa, Enh, (ri_end _ _ _ _ Hr).
  destruct (position =? length h) eqn:Epos; [|done]. apply Nat.eqb_eq in Epos. subst position. cbn [andb]. unfold ret at 1.
  pose proof (pack_spec (w_storage w) (head_dim config) GGML_QAT_FP8_E8M0 row c (ri_width _ _ _ _ Hr) (ri_format _ _ _ _ Hr) (ge_row _ _ Hgeo)) as Hpack.
  destruct (quantise GGML_QAT_FP8_E8M0 (head_dim config) row) as [q|].
  2: { destruct Hpack as [err ->]. match goal with |- agrees _ (if ?b then _ else _) => by destruct b end. }
  destruct Hpack as (bytes & -> & Hl & Hu).
  destruct (ring_write _ _ Hgeo h w q bytes Hr Hl Hu) as (s & Es & Hring).
  rewrite (ri_row_bytes _ _ _ _ Hr). replace (ring_rows c) with W by (unfold ring_rows; by rewrite (ke_config _ _ Hk)).
  rewrite (ke_checkpoint _ _ Hk). destruct (lg_checkpoint l) as [[first limit]|] eqn:Ec; cbn [bool_decide].
  - change (bool_decide (is_Some (Some (first, limit)))) with true. cbn beta iota.
    destruct (ke_snapshot _ _ Hk _ _ Ec) as (E1 & E2 & H3 & H4 & H5). rewrite E1, E2.
    assert (Hfirst : first <= length h) by (rewrite Forall_lookup in H5; by eapply H5).
    rewrite (proj2 (Nat.leb_le _ _) Hfirst). cbn [andb]. unfold check at 1. destruct (length h <? limit); [|done]. unfold ret at 1.
    destruct (Forall2_lookup_l _ _ _ _ _ H4 Eh) as (u & Eu & Hj). rewrite (nth_lookup (checkpoint_updates_ c)), Eu.
    change (default [] (Some u)) with u. rewrite (jo_length _ _ _ _ Hj), Nat.eqb_refl. unfold check, ret, lift, update. rewrite Es.
    split; [done|]. eapply (keeps_longer c l layer h w _ q bytes s true); try done; [congruence|by rewrite Ec].
  - unfold ret at 1. unfold lift. rewrite Es. split; [done|]. cbn [update snd answer accept].
    pose proof (keeps_longer c l layer h w (checkpoint_updates_ c) q bytes s false Hk ltac:(congruence) Eh Ew Hl Hu Hring ltac:(by rewrite Ec) eq_refl) as Hkeep.
    by destruct c.
Qed.

Lemma owner_spec layer c l : keeps c l -> match owner_of config layer with
  | Some o => owner layer c = (Ok o, c) | None => exists e, owner layer c = (Err e, c) end.
Proof.
  intros Hk. unfold owner, owner_of, bind, ask, layer_at. rewrite (ke_layout _ _ Hk), layout_of_length. fold layers.
  case_decide as Hl.
  - rewrite layout_at by done. cbv zeta. rewrite (proj2 (Nat.ltb_lt _ _)) by done. unfold check. cbn [andb]. case_decide as Ho.
    + by rewrite (proj2 (Z.leb_le _ _) Ho).
    + rewrite (proj2 (Z.leb_gt _ _)) by lia. by eexists.
  - rewrite (proj2 (Nat.ltb_ge _ _)) by (unfold cfg_layers in *; lia). by eexists.
Qed.

Lemma layer_owned_spec layer c l : keeps c l -> (exists e, owns layer = false /\ (let* o := owner layer in ret (o =? layer)) c = (Err e, c)) \/
  (let* o := owner layer in ret (o =? layer)) c = (Ok (owns layer), c).
Proof.
  intros Hk. pose proof (owner_spec layer c l Hk) as Hs. unfold owns, DsvLedger.owns, bind. destruct (owner_of config layer) as [o|].
  - right. rewrite Hs. unfold ret. do 2 f_equal. apply Bool.eq_iff_eq_true. rewrite Nat.eqb_eq, bool_decide_eq_true. split; [by intros ->|by intros [= ->]].
  - left. destruct Hs as [e ->]. by exists e.
Qed.

Lemma keeps_published c l layer kv ik gs ks : keeps c l -> owns layer = true -> lg_open l <> None ->
  length gs = layers -> length ks = layers ->
  (forall j, j <> layer -> bank_at gs j = bank_at (global_ c) j) -> (forall j, j <> layer -> bank_at ks j = bank_at (index_ c) j) ->
  bank_ok type GGML_QAT_FP4_E4M3 hd (capacity / ratio layer) ((fst <$> nth layer (lg_banks l) []) ++ [kv]) (bank_at gs layer) ->
  bank_ok type GGML_QAT_FP4_E8M0 ihd (capacity / ratio layer) ((snd <$> nth layer (lg_banks l) []) ++ [ik]) (bank_at ks layer) ->
  keeps (c <| global_ := gs |> <| index_ := ks |>) (l <| lg_banks ::= alter (fun b => b ++ [(kv, ik)]) layer |>).
Proof.
  intros Hk Ho Hopen Hgs Hks Hg Hi Hbg Hbk. destruct (owns_ratio _ Ho) as [_ Hlt]. pose proof (ba_length _ _ _ (ke_banks _ _ Hk)) as HB.
  assert (Hnth : forall j, nth j (alter (fun b => b ++ [(kv, ik)]) layer (lg_banks l)) [] =
    if decide (layer = j) then nth j (lg_banks l) [] ++ [(kv, ik)] else nth j (lg_banks l) []).
  { intros j. rewrite !nth_lookup. case_decide as E; [subst j; rewrite list_lookup_alter_eq|by rewrite list_lookup_alter_ne].
    destruct (lookup_lt_is_Some_2 (lg_banks l) layer) as [b ->]; [lia|done]. }
  pose proof Hk as []. constructor; simpl; try done.
  - constructor; try done; [by rewrite length_alter|]. intros j Hj. rewrite Hnth. case_decide as E.
    + subst j. unfold bank_pair. rewrite Ho, !fmap_app. done.
    + rewrite Hg, Hi by done. by apply ke_banks0.
  - intros e Ee. destruct (ke_open0 e Ee) as (H1 & H2 & H3 & H4 & H5). split_and!; try done. intros i Hoi. rewrite Hnth.
    specialize (H4 i Hoi). case_decide; [rewrite length_app; lia|done].
Qed.

Lemma step_append_global layer row kv index_k c l : keeps c l ->
  agrees (cache_step fresh_cell (AppendGlobal layer row kv index_k) c) (ledger_step config capacity (AppendGlobal layer row kv index_k) l).
Proof.
  intros Hk. pose proof (ke_active _ _ Hk) as Ha. cbn [cache_step ledger_step]. unfold append_global, ledger_append_global.
  unfold bind at 1. unfold ask at 1. unfold bind at 1. rewrite Ha.
  destruct (lg_open l) as [e|] eqn:Eo; [|done]. change (bool_decide (is_Some (Some e))) with true. cbn beta iota. cbn [andb].
  destruct (layer_owned_spec layer c l Hk) as [(err & -> & ->)|Eown]; [done|]. rewrite Eown. cbn beta iota. unfold bind at 1. unfold check at 1.
  destruct (owns layer) eqn:Ho; [|done]. cbn [andb]. unfold ret at 1. destruct (owns_ratio _ Ho) as [_ Hlt].
  pose proof (ba_pair _ _ _ (ke_banks _ _ Hk) layer Hlt) as Hp. unfold bank_pair in Hp. rewrite Ho in Hp. destruct Hp as [Hg Hi].
  pose proof (ba_gs _ _ _ (ke_banks _ _ Hk)) as Hgs. pose proof (ba_ks _ _ _ (ke_banks _ _ Hk)) as Hks.
  unfold bind at 1. unfold check at 1. rewrite (bank_rows c l), (ke_capacity _ _ Hk), (cache_ratio c l) by done.
  destruct (row =? length (nth layer (lg_banks l) [])) eqn:Er; [|done]. destruct (row <? capacity / ratio layer) eqn:Ecap; [|done]. cbn [andb]. unfold ret at 1.
  apply Nat.eqb_eq in Er. apply Nat.ltb_lt in Ecap. subst row. destruct (ge_owner _ _ Hgeo layer Ho) as [Hrg Hrk].
  pose proof (pack_spec (bank_at (global_ c) layer) (head_dim config) GGML_QAT_FP4_E4M3 kv c (bo_width _ _ _ _ _ _ Hg) (bo_format _ _ _ _ _ _ Hg) Hrg) as Hpack.
  unfold bind at 1. destruct (quantise GGML_QAT_FP4_E4M3 (head_dim config) kv) as [qkv|]; [|by destruct Hpack as [err ->]].
  destruct Hpack as (bytes & -> & Hl & Hu).
  pose proof (pack_spec (bank_at (index_ c) layer) (index_head_dim config) GGML_QAT_FP4_E8M0 index_k c (bo_width _ _ _ _ _ _ Hi) (bo_format _ _ _ _ _ _ Hi) Hrk) as Hpack.
  unfold bind at 1. destruct (quantise GGML_QAT_FP4_E8M0 (index_head_dim config) index_k) as [qk|]; [|by destruct Hpack as [err ->]].
  destruct Hpack as (bytes' & -> & Hl' & Hu').
  destruct (bank_grow _ _ _ _ _ _ Hg) as (s & Es & Hgrow); [by rewrite length_fmap|]. destruct (Hgrow bytes qkv Hl Hu) as (s' & Es' & Hgs').
  destruct (bank_grow _ _ _ _ _ _ Hi) as (t & Et & Hgrow'); [by rewrite length_fmap|]. destruct (Hgrow' bytes' qk Hl' Hu') as (t' & Et' & Hks').
  rewrite (so_size _ _ _ _ (bo_storage _ _ _ _ _ _ Hg)), (so_size _ _ _ _ (bo_storage _ _ _ _ _ _ Hi)), Hl, Hl'.
  unfold bind, lift, update. rewrite Es. cbn beta iota. rewrite Et. cbn beta iota. rewrite Es'. cbn beta iota. rewrite Et'.
  split; [done|]. cbn [snd answer accept].
  apply (keeps_published c l layer qkv qk
    (alter (fun b => b <| b_rows ::= S |>) layer (alter (fun b => b <| b_bytes := s' |>) layer (alter (fun b => b <| b_bytes := s |>) layer (global_ c))))
    (alter (fun b => b <| b_rows ::= S |>) layer (alter (fun b => b <| b_bytes := t' |>) layer (alter (fun b => b <| b_bytes := t |>) layer (index_ c)))) Hk Ho);
    [congruence|by rewrite !length_alter|by rewrite !length_alter|..].
  - intros j Hj. rewrite !bank_at_alter by (by rewrite ?length_alter, ?Hgs). by rewrite !decide_False by done.
  - intros j Hj. rewrite !bank_at_alter by (by rewrite ?length_alter, ?Hks). by rewrite !decide_False by done.
  - rewrite !bank_at_alter by (by rewrite ?length_alter, ?Hgs). rewrite !decide_True by done. by destruct (bank_at (global_ c) layer).
  - rewrite !bank_at_alter by (by rewrite ?length_alter, ?Hks). rewrite !decide_True by done. by destruct (bank_at (index_ c) layer).
Qed.

(** ** Reading *)

Lemma drop_as_nth {A} (h : list (list A)) start count : count = length h - start -> (fun i => nth (start + i) h []) <$> seq 0 count = drop start h.
Proof.
  intros ->. apply list_eq. intros i. rewrite list_lookup_fmap, lookup_drop. destruct (decide (i < length h - start)).
  - rewrite lookup_seq_lt by done. simpl. destruct (lookup_lt_is_Some_2 h (start + i)) as [x Ex]; [lia|]. by rewrite nth_lookup, Ex.
  - rewrite (proj2 (lookup_ge_None _ _)) by (rewrite length_seq; lia). symmetry. apply lookup_ge_None. lia.
Qed.

Lemma step_read_window layer c l : keeps c l ->
  agrees (cache_step fresh_cell (ReadWindow layer) c) (ledger_step config capacity (ReadWindow layer) l).
Proof.
  intros Hk. cbn [cache_step ledger_step]. unfold read_window. unfold bind at 1. unfold ask. unfold bind at 1. unfold check. rewrite (windows_length c l Hk).
  destruct (layer <? layers) eqn:El.
  2: { apply Nat.ltb_ge in El. rewrite (proj2 (lookup_ge_None _ _)) by (by rewrite (ke_length _ _ Hk)). done. }
  apply Nat.ltb_lt in El. destruct (nth_window c l layer Hk El) as (h & w & Eh & _ & _ & Ewa & Hr). unfold ret at 1. rewrite Eh, Ewa.
  pose proof (ri_storage _ _ _ _ Hr) as Hst. unfold bind, lift. rewrite (so_size _ _ _ _ Hst).
  rewrite (read_ok type _ _ _ 0 (W * rbw) Hst) by lia. cbn beta iota. pose proof (ge_ring _ _ Hgeo) as HW.
  replace (ring_rows c) with W by (unfold ring_rows; by rewrite (ke_config _ _ Hk)). rewrite (ri_end _ _ _ _ Hr), (ri_row_bytes _ _ _ _ Hr).
  set (start := length h - Nat.min (length h) W).
  rewrite (collect_ok _ _ (fun i => nth (start + i) h [])).
  - split; [|done]. simpl. rewrite (drop_as_nth h start) by (subst start; lia). do 4 f_equal. subst start. lia.
  - intros i Hi%elem_of_seq. unfold unpack. rewrite (ri_width _ _ _ _ Hr), (ri_format _ _ _ _ Hr).
    rewrite bytes_at_bytes_at by (apply chunk_inside, Nat.mod_upper_bound; lia). cbn [Nat.add].
    destruct (lookup_lt_is_Some_2 h (start + i)) as [row Erow]; [subst start; lia|].
    rewrite (ri_rows _ _ _ _ Hr (start + i) row Erow) by (subst start; lia). by rewrite nth_lookup, Erow.
Qed.

Lemma step_window_end layer c l : keeps c l ->
  agrees (cache_step fresh_cell (WindowEnd layer) c) (ledger_step config capacity (WindowEnd layer) l).
Proof.
  intros Hk. cbn [cache_step ledger_step]. unfold window_end, bind, ask, check. rewrite (windows_length c l Hk). destruct (layer <? layers) eqn:El.
  - apply Nat.ltb_lt in El. destruct (nth_window c l layer Hk El) as (h & w & Eh & _ & _ & Ewa & Hr). rewrite Eh, Ewa, (ri_end _ _ _ _ Hr). done.
  - apply Nat.ltb_ge in El. rewrite (proj2 (lookup_ge_None _ _)) by (by rewrite (ke_length _ _ Hk)). done.
Qed.

Lemma step_global_rows layer c l : keeps c l ->
  agrees (cache_step fresh_cell (GlobalRows layer) c) (ledger_step config capacity (GlobalRows layer) l).
Proof.
  intros Hk. cbn [cache_step ledger_step]. unfold global_rows, bind at 1. pose proof (owner_spec layer c l Hk) as Hs.
  destruct (owner_of config layer) as [o|] eqn:Eo; [|by destruct Hs as [err ->]]. rewrite Hs. destruct (owner_of_owns _ _ Eo) as (Ho & _).
  unfold bind, ask, ret. rewrite (bank_rows c l) by done. done.
Qed.

Lemma fold_max r rs x : x ∈ r :: rs -> x <= foldl Nat.max r rs.
Proof.
  revert r x. induction rs as [|y rs IH]; intros r x Hx; [apply list_elem_of_singleton in Hx as ->; done|]. cbn [foldl].
  apply elem_of_cons in Hx as [->|Hx]; [transitivity (Nat.max r y); [lia|apply IH; by left]|].
  apply elem_of_cons in Hx as [->|Hx]; [transitivity (Nat.max r y); [lia|apply IH; by left]|apply IH; by right].
Qed.

Lemma fold_max_in r rs : foldl Nat.max r rs ∈ r :: rs.
Proof.
  revert r. induction rs as [|y rs IH]; intros r; [by left|]. cbn [foldl]. specialize (IH (Nat.max r y)). apply elem_of_cons in IH as [E|E]; [|by right; right].
  rewrite E. destruct (Nat.max_spec r y) as [[_ ->]|[_ ->]]; [by right; left|by left].
Qed.

Lemma fold_min r rs x : x ∈ r :: rs -> foldl Nat.min r rs <= x.
Proof.
  revert r x. induction rs as [|y rs IH]; intros r x Hx; [apply list_elem_of_singleton in Hx as ->; done|]. cbn [foldl].
  apply elem_of_cons in Hx as [->|Hx]; [transitivity (Nat.min r y); [apply IH; by left|lia]|].
  apply elem_of_cons in Hx as [->|Hx]; [transitivity (Nat.min r y); [apply IH; by left|lia]|apply IH; by right].
Qed.

(** Asked-for rows of a bank, packed in one span or read one by one. *)
Lemma bank_reads format width cap R b rows c : bank_ok type format width cap R b -> row_size width format <> 0 -> rows <> [] ->
  Forall (fun r => r < length R) rows ->
  forall first last, (forall r, r ∈ rows -> first <= r <= last) -> last < length R ->
  forall dense : bool,
  (let* packed := if dense then lift (storage_read (first * b_row_bytes b) ((last - first + 1) * b_row_bytes b) (b_bytes b)) else ret [] in
   collect rows (fun row =>
     check (row <? b_rows b) "unpublished V4.1 global cache row" ;;;
     if length packed =? 0 then decode b row
     else unpack b (bytes_at packed ((row - first) * b_row_bytes b) (b_row_bytes b)) "invalid packed V4.1 global row")) c =
  (Ok (mjoin ((fun r => nth r R []) <$> rows)), c).
Proof.
  intros Hb Hrs Hne HF first last Hspan Hlast dense. set (rb := row_size width format) in *.
  assert (Hfl : first <= last). { destruct rows as [|r rs]; [done|]. specialize (Hspan r ltac:(by left)). lia. }
  rewrite (bo_row_bytes _ _ _ _ _ _ Hb). fold rb. pose proof (bo_storage _ _ _ _ _ _ Hb) as Hst. fold rb in Hst.
  assert (Hcell : forall r, r ∈ rows -> exists row, R !! r = Some row /\ nth r R [] = row /\ r < length R /\
    unpack_row (bytes_at (st_cells (b_bytes b)) (r * rb) rb) width format = Some row).
  { intros r Hr. rewrite Forall_forall in HF. specialize (HF r Hr). destruct (lookup_lt_is_Some_2 R r HF) as [row Erow]. exists row.
    rewrite nth_lookup, Erow. split_and!; try done. by apply (bo_cells _ _ _ _ _ _ Hb). }
  unfold bind at 1. destruct dense.
  - unfold lift. assert (Hend : first * rb + (last - first + 1) * rb <= length R * rb) by nia.
    rewrite (read_ok type _ _ _ _ _ Hst) by done. cbn beta iota.
    assert (Hlen : length (bytes_at (st_cells (b_bytes b)) (first * rb) ((last - first + 1) * rb)) = (last - first + 1) * rb).
    { apply bytes_at_length. destruct Hst as [_ _ _ Hle Hc]. destruct type; lia. }
    apply collect_ok. intros r Hr. destruct (Hcell r Hr) as (row & Erow & En & Hlt & Hu). specialize (Hspan r Hr).
    unfold bind, check. rewrite (bo_rows _ _ _ _ _ _ Hb), (proj2 (Nat.ltb_lt _ _)) by done. unfold ret at 1. rewrite Hlen.
    rewrite (proj2 (Nat.eqb_neq _ 0)) by nia. unfold unpack. rewrite (bo_width _ _ _ _ _ _ Hb), (bo_format _ _ _ _ _ _ Hb).
    rewrite bytes_at_bytes_at by (apply chunk_inside; lia). replace (first * rb + (r - first) * rb) with (r * rb) by nia. by rewrite Hu, En.
  - unfold ret at 1. apply collect_ok. intros r Hr. destruct (Hcell r Hr) as (row & Erow & En & Hlt & Hu).
    unfold bind, check. rewrite (bo_rows _ _ _ _ _ _ Hb), (proj2 (Nat.ltb_lt _ _)) by done. unfold ret at 1. cbn [length Nat.eqb].
    unfold decode, bind, check. rewrite (bo_row_bytes _ _ _ _ _ _ Hb), (so_size _ _ _ _ Hst). fold rb.
    rewrite (proj2 (Nat.leb_le _ _)) by nia. unfold ret at 1. unfold lift. rewrite (read_ok type _ _ _ _ _ Hst) by (by apply chunk_inside).
    unfold unpack. rewrite (bo_width _ _ _ _ _ _ Hb), (bo_format _ _ _ _ _ _ Hb). by rewrite Hu, En.
Qed.

Lemma mapM_nth {A} (B : list (A * A)) rows d : Forall (fun r => r < length B) rows -> mapM (fun r => B !! r) rows = Some ((fun r => nth r B d) <$> rows).
Proof.
  induction 1 as [|r rows Hr _ IH]; [done|]. cbn. destruct (lookup_lt_is_Some_2 B r Hr) as [x Ex]. rewrite (nth_lookup B), Ex. cbn. by rewrite IH.
Qed.

Lemma mapM_short {A} (B : list (A * A)) rows r : r ∈ rows -> length B <= r -> mapM (fun r => B !! r) rows = None.
Proof.
  intros Hin Hle. destruct (mapM _ rows) as [k|] eqn:E; [|done]. apply mapM_Some in E. apply list_elem_of_lookup in Hin as [i Hi].
  destruct (Forall2_lookup_l _ _ _ _ _ E Hi) as (y & _ & Hy). apply lookup_lt_Some in Hy. lia.
Qed.

Lemma step_read_global layer keys rows c l : keeps c l ->
  agrees (cache_step fresh_cell (ReadGlobal layer keys rows) c) (ledger_step config capacity (ReadGlobal layer keys rows) l).
Proof.
  intros Hk. cbn [cache_step ledger_step]. unfold read_global, ledger_read_global. unfold bind at 1. pose proof (owner_spec layer c l Hk) as Hs.
  destruct (owner_of config layer) as [o|] eqn:Eo; [|by destruct Hs as [err ->]]. rewrite Hs. cbn [mbind option_bind].
  destruct (owner_of_owns _ _ Eo) as (Ho & Hlt & _). destruct (ge_owner _ _ Hgeo o Ho) as [Hrg Hrk].
  pose proof (ba_pair _ _ _ (ke_banks _ _ Hk) o Hlt) as Hp. unfold bank_pair in Hp. rewrite Ho in Hp. destruct Hp as [Hg Hi].
  unfold bind at 1. unfold ask. set (B := nth o (lg_banks l) []) in *.
  set (b := if keys then bank_at (index_ c) o else bank_at (global_ c) o).
  assert (Hb : exists format width, bank_ok type format width (capacity / ratio o) ((fun p => if keys : bool then p.2 else p.1) <$> B) b /\ row_size width format <> 0).
  { subst b. destruct keys; eauto. }
  destruct Hb as (format & width & Hb & Hrs). assert (Hrows : b_rows b = length B) by (by rewrite (bo_rows _ _ _ _ _ _ Hb), length_fmap).
  destruct rows as [|r rs]; [done|].
  set (first := foldl Nat.min r rs). set (last := foldl Nat.max r rs). unfold bind at 1. unfold check at 1. rewrite Hrows.
  destruct (last <? length B) eqn:Elast.
  - apply Nat.ltb_lt in Elast. assert (HF : Forall (fun r => r < length B) (r :: rs)).
    { apply Forall_forall. intros x Hx. eapply Nat.le_lt_trans; [by apply fold_max|done]. }
    rewrite (mapM_nth B (r :: rs) ([], [])) by done. unfold ret at 1. rewrite <- Hrows.
    rewrite (bank_reads _ _ _ _ _ (r :: rs) c Hb Hrs ltac:(done)).
    + split; [|done]. cbn [answer fst ledger_step option_bind mbind]. do 3 f_equal. rewrite <- list_fmap_compose. apply list_fmap_ext.
      intros i x Hx. apply list_elem_of_lookup_2 in Hx. rewrite Forall_forall in HF. specialize (HF x Hx). cbn beta. rewrite !nth_lookup, list_lookup_fmap.
      destruct (lookup_lt_is_Some_2 B x HF) as [y Ey]. simpl. rewrite nth_lookup, Ey. done.
    + by rewrite length_fmap.
    + intros x Hx. split; [by apply fold_min|by apply fold_max].
    + by rewrite length_fmap.
  - apply Nat.ltb_ge in Elast. rewrite (mapM_short B (r :: rs) last); [done|apply fold_max_in|done].
Qed.

(** ** Every call *)

Lemma cache_step_agrees o c l : keeps c l -> agrees (cache_step fresh_cell o c) (ledger_step config capacity o l).
Proof.
  intros Hk. destruct o; [by apply step_clear|by apply step_begin|by apply step_commit|by apply step_rollback|by apply step_discard|by apply step_save
    |by apply step_restore|by apply step_append_window|by apply step_append_global|by apply step_read_window|by apply step_read_global
    |by apply step_global_rows|by apply step_window_end].
Qed.

Lemma cache_run_agrees ops c l : keeps c l ->
  (cache_run fresh_cell ops c).1 = (ledger_run config capacity ops l).1 /\ keeps (cache_run fresh_cell ops c).2 (ledger_run config capacity ops l).2.
Proof.
  revert c l. induction ops as [|o ops IH]; intros c l Hk; [done|]. cbn [cache_run ledger_run].
  destruct (cache_step_agrees o c l Hk) as [Er Hk']. destruct (cache_step fresh_cell o c) as [r c'], (ledger_step config capacity o l) as [r' l'].
  simpl in Er, Hk'. subst r'. destruct (IH c' l' Hk') as [Ers Hk'']. destruct (cache_run fresh_cell ops c') as [rs c''], (ledger_run config capacity ops l') as [rs' l''].
  simpl in *. by subst.
Qed.
End steps.
