(* ===== verification/DsvCacheTheorems.v ===== *)
(** * The attention cache: theorems

    The packed formats discharge the interface the cache asks for; a new cache stands
    for the empty ledger; so every run of the cache has the replies of the ledger,
    whatever memory the buffers are in, and reserves what the planner budgets. *)

From S2P Require Import Prelude BlockCache Binary64 Binary32 DsvLayout Qat DsvCache DsvLedger DsvCacheInv DsvCacheSteps.
Open Scope nat_scope.

(** ** The formats discharge the interface *)

#[export] Instance qat_codec : RowCodec := {|
  scalar := float;
  row_size := ggml_qat_row_size;
  pack_row := ggml_qat_pack_row;
  unpack_row := ggml_qat_unpack_row;
  representable := row_representable;
  transform := ggml_qat_forward |}.

#[export] Instance qat_codec_laws : RowCodecLaws.
Proof.
  constructor. intros format row Hrs. pose proof (packed_row format row) as Hp. cbn in *.
  destruct (ggml_qat_pack_row row (length row) format) as [bytes|]; [by destruct Hp as (_ & ? & ? & ?)|by destruct Hp].
Qed.

(** ** The constructor *)

Section make.
Context `{RowCodecLaws} (fresh_cell : positive -> nat -> Z) (type : option positive) (config : attention_layout_config) (capacity : nat).

Lemma init_bank_ok width format cap b : init_bank fresh_cell type width format cap = Ok b ->
  row_size width format <> 0 /\ storable type (cap * row_size width format) /\ bank_ok type format width cap [] b.
Proof.
  unfold init_bank. destruct (_ || _) eqn:E; [done|]. apply orb_false_iff in E as [E _]. apply Nat.eqb_neq in E.
  destruct (storage_make _ _ _) as [s|] eqn:Es; [|done]. intros [= <-]. set (cp := cap * row_size width format) in *.
  assert (Hst : storable type cp).
  { unfold storage_make in Es. destruct type as [t|]; [|by left]. right. destruct (cp =? 0) eqn:E0; [apply Nat.eqb_eq in E0; rewrite E0; done|].
    destruct (INT64_MAX <? Z.of_nat cp)%Z eqn:E1; [done|]. bool_facts. done. }
  split; [done|]. split; [done|]. destruct (make_ok fresh_cell type cp Hst) as (s' & Es' & Hs'). rewrite Es in Es'. injection Es' as <-. by constructor.
Qed.

Lemma init_window_ok w : init_window fresh_cell type config = Ok w ->
  row_size (Z.to_nat (head_dim config)) GGML_QAT_FP8_E8M0 <> 0 /\
  storable type (cfg_ring config * row_size (Z.to_nat (head_dim config)) GGML_QAT_FP8_E8M0) /\ ring type config [] w.
Proof.
  unfold init_window. destruct (init_bank _ _ _ _ _) as [b|] eqn:Eb; [|done]. apply init_bank_ok in Eb as (Hrs & Hst & Hb).
  fold (cfg_ring config) in *. destruct Hb as [Hw Hf Hrb Hr Hs _]. rewrite Hrb.
  destruct (resize_ok type _ _ _ (cfg_ring config * row_size (Z.to_nat (head_dim config)) GGML_QAT_FP8_E8M0) Hs (le_n _)) as (s & -> & Hs' & _).
  intros [= <-]. split; [done|]. split; [done|]. constructor; simpl; try done. destruct Hs' as [Ht Hz Hc Hle Hl]. destruct s. simpl in *.
  constructor; simpl; try done. by rewrite length_replicate.
Qed.

Context (Htyped : config_typed config) (Hvalid : layout_valid config).

Lemma owns_spec i : i < cfg_layers config -> (kv_owner (layer_of config (Z.of_nat i)) =? Z.of_nat i)%Z = owns config i.
Proof.
  intros Hi. apply Bool.eq_iff_eq_true. unfold owns, owner_of. rewrite decide_True by done. cbv zeta. rewrite Z.eqb_eq, bool_decide_eq_true.
  set (o := kv_owner _). case_decide as Ho; [split; [intros ->; by rewrite Nat2Z.id|intros [= E]; lia]|split; [lia|done]].
Qed.

Lemma init_layers k ws gs ks : k <= cfg_layers config ->
  foldM (init_layer fresh_cell type config (layout_of config) capacity) (seq 0 k) ([], [], []) = Ok (ws, gs, ks) ->
  length ws = k /\ length gs = k /\ length ks = k /\ Forall (ring type config []) ws /\
  (forall i, i < k -> bank_pair type config capacity i [] (bank_at gs i) (bank_at ks i)) /\
  (0 < k -> row_size (Z.to_nat (head_dim config)) GGML_QAT_FP8_E8M0 <> 0 /\
            storable type (cfg_ring config * row_size (Z.to_nat (head_dim config)) GGML_QAT_FP8_E8M0)) /\
  (forall i, i < k -> owns config i = true -> row_size (Z.to_nat (head_dim config)) GGML_QAT_FP4_E4M3 <> 0 /\
            row_size (Z.to_nat (index_head_dim config)) GGML_QAT_FP4_E8M0 <> 0).
Proof.
  revert ws gs ks. induction k as [|k IH]; intros ws gs ks Hk Hf.
  { injection Hf as <- <- <-. split_and!; try done; intros; lia. }
  rewrite seq_S, foldM_app in Hf. destruct (foldM _ (seq 0 k) _) as [[[ws0 gs0] ks0]|]; [|done]. cbn [foldM Nat.add] in Hf.
  destruct (IH ws0 gs0 ks0 ltac:(lia) eq_refl) as (Hw & Hg & Hi & HF & Hp & _ & Hrows). clear IH.
  unfold init_layer in Hf. destruct (init_window fresh_cell type config) as [w|] eqn:Ew; [|done]. apply init_window_ok in Ew as (Hrs & Hst & Hring).
  rewrite layout_at, owns_spec, ratio_of_layer in Hf by (unfold cfg_layers in *; lia).
  assert (Hlast : forall b bs, bank_at (bs ++ [b]) (length bs) = b) by (intros; unfold bank_at; by rewrite app_nth2, Nat.sub_diag by lia).
  assert (Hold : forall b bs i, i < length bs -> bank_at (bs ++ [b]) i = bank_at bs i) by (intros; unfold bank_at; by rewrite app_nth1).
  assert (Hfin : forall g i, ws = ws0 ++ [w] -> gs = gs0 ++ [g] -> ks = ks0 ++ [i] -> bank_pair type config capacity k [] g i ->
    (owns config k = true -> row_size (Z.to_nat (head_dim config)) GGML_QAT_FP4_E4M3 <> 0 /\ row_size (Z.to_nat (index_head_dim config)) GGML_QAT_FP4_E8M0 <> 0) ->
    length ws = S k /\ length gs = S k /\ length ks = S k /\ Forall (ring type config []) ws /\
    (forall i, i < S k -> bank_pair type config capacity i [] (bank_at gs i) (bank_at ks i)) /\
    (0 < S k -> row_size (Z.to_nat (head_dim config)) GGML_QAT_FP8_E8M0 <> 0 /\ storable type (cfg_ring config * row_size (Z.to_nat (head_dim config)) GGML_QAT_FP8_E8M0)) /\
    (forall i, i < S k -> owns config i = true -> row_size (Z.to_nat (head_dim config)) GGML_QAT_FP4_E4M3 <> 0 /\ row_size (Z.to_nat (index_head_dim config)) GGML_QAT_FP4_E8M0 <> 0)).
  { intros g i -> -> -> Hpair Hr. rewrite !length_app. simpl. split_and!; try lia; try done.
    - apply Forall_app. by split; [|constructor].
    - intros j Hj. destruct (decide (j = k)) as [->|]; [|rewrite !Hold by lia; apply Hp; lia]. 
      replace (bank_at (gs0 ++ [g]) k) with g by (rewrite <- Hg; symmetry; apply Hlast).
      by replace (bank_at (ks0 ++ [i]) k) with i by (rewrite <- Hi; symmetry; apply Hlast).
    - intros j Hj. destruct (decide (j = k)) as [->|]; [done|apply Hrows; lia]. }
  destruct (owns config k) eqn:Ho.
  - destruct (init_bank _ _ _ GGML_QAT_FP4_E4M3 _) as [g|] eqn:Eg; [|done]. destruct (init_bank _ _ _ GGML_QAT_FP4_E8M0 _) as [i|] eqn:Ei; [|done].
    injection Hf as <- <- <-. apply init_bank_ok in Eg as (Hg1 & _ & Hg2). apply init_bank_ok in Ei as (Hi1 & _ & Hi2).
    apply (Hfin g i); try done. unfold bank_pair. by rewrite Ho.
  - injection Hf as <- <- <-. apply (Hfin no_bank no_bank); try done. unfold bank_pair. by rewrite Ho.
Qed.
End make.

Lemma new_cache_ok `{RowCodecLaws} fresh_cell config capacity type c : config_typed config ->
  make_cache fresh_cell config capacity type = Ok c ->
  geometry type config /\ layout_valid config /\ 0 < capacity /\ keeps type config capacity c (empty_ledger config).
Proof.
  intros Ht Hm. unfold make_cache in Hm. destruct (make_layout config) as [layout|] eqn:El; [|done].
  apply make_layout_ok in El as [Hv ->]; [|done]. cbn [layers_] in Hm. destruct (negb _) eqn:Ec; [done|]. apply negb_false_iff, andb_true_iff in Ec as [Ec Ew].
  apply Nat.ltb_lt in Ec. apply Z.ltb_lt in Ew. rewrite layout_of_length in Hm.
  destruct (foldM _ _ _) as [[[ws gs] ks]|] eqn:Ef; [|done]. injection Hm as <-.
  assert (Hn : 0 < cfg_layers config) by (destruct Hv as (? & _); unfold cfg_layers; lia).
  destruct (init_layers fresh_cell type config capacity _ ws gs ks (le_n _) Ef) as (Hw & Hg & Hk & HF & Hp & Hrow & Hrows).
  assert (Hgeo : geometry type config).
  { constructor; try done; [unfold cfg_ring; lia|by apply Hrow|by apply Hrow|].
    intros layer Ho. apply (Hrows layer); [|done]. by destruct (owns_ratio config Ht Hv layer Ho). }
  split; [done|]. split; [done|]. split; [done|].
  assert (Hnil : forall A i n, nth i (replicate n (@nil A)) [] = []).
  { intros A i n. rewrite nth_lookup. destruct (replicate n [] !! i) as [x|] eqn:E; [|done]. by apply lookup_replicate_1 in E as [-> _]. }
  constructor; simpl; try done.
  - by rewrite length_replicate.
  - rewrite <- Hw. clear -HF. induction HF as [|w ws Hr _ IH]; simpl; constructor; done.
  - constructor; [by rewrite length_replicate|done|done|]. intros i Hi. rewrite Hnil. by apply Hp.
  - intros _. unfold complete, ledger_end. simpl. rewrite Hnil. simpl. apply andb_true_iff. split; apply forallb_forall.
    + intros h Hh. apply list_elem_of_In, elem_of_replicate in Hh as [-> _]. done.
    + intros i _. rewrite Hnil. simpl length. rewrite Nat.Div0.div_0_l. by rewrite orb_true_r.
  - by left.
Qed.

(** ** Payload *)

Section payload.
Context (fresh_cell : positive -> nat -> Z) (type : option positive) (config : attention_layout_config) (capacity : nat).
Context (Hgeo : geometry type config) (Htyped : config_typed config) (Hvalid : layout_valid config).

Definition bank_bytes (row : nat) (layer : nat) : Z := if owns config layer then (Z.of_nat (capacity / cfg_ratio config layer * row))%Z else 0%Z.

Lemma wrapped_sum (f : storage -> Z) (b : Z) (l : list storage) :
  foldl (fun bytes s => wrap64 (bytes + f s)) (wrap64 b) l = wrap64 (b + zsum (f <$> l)).
Proof.
  revert b. induction l as [|s l IH]; intros b; [by rewrite Z.add_0_r|]. cbn [foldl fmap list_fmap]. change (zsum (f s :: (f <$> l))) with (f s + zsum (f <$> l))%Z.
  rewrite Z.add_assoc, <- IH. f_equal. unfold wrap64. by rewrite Zplus_mod_idemp_l.
Qed.

Lemma owner_in_sources layer : layer < cfg_layers config -> owns config layer = true <-> Z.of_nat layer ∈ kv_source_layers config.
Proof.
  intros Hl. rewrite <- owns_spec by done. rewrite Z.eqb_eq. destruct Htyped as (_ & Hu & _). destruct Hvalid as (_ & _ & _ & _ & Hkv & _ & _ & _).
  unfold layer_of. case_decide as Er.
  - split; [cbn; lia|]. intros Hin. by destruct (source_compressed config _ _ Hkv Hin).
  - cbn [kv_owner]. rewrite last_source_next by (done || lia). case_decide as Hin; [done|]. split; [|done].
    intros E. destruct (last_source_max (kv_source_layers config) (Z.of_nat layer - 1)) as ([?|[_ ?]] & _ & _); lia.
Qed.

(** A sum over the sources is a sum over the layers that own a bank. *)
Lemma sum_over_sources (f : Z -> Z) :
  zsum (f <$> kv_source_layers config) = zsum ((fun layer => if owns config layer then f (Z.of_nat layer) else 0%Z) <$> seq 0 (cfg_layers config)).
Proof.
  destruct Hvalid as (_ & _ & _ & _ & Hkv & _ & _ & _). pose proof Hkv as [Hsorted Hcomp].
  assert (Hperm : kv_source_layers config ≡ₚ Z.of_nat <$> filter (fun i => owns config i = true) (seq 0 (cfg_layers config))).
  { apply NoDup_Permutation.
    - clear -Hsorted. induction Hsorted as [|x l _ IH Hall]; constructor; [|done]. intros Hin. rewrite Forall_forall in Hall. specialize (Hall _ Hin). lia.
    - apply (NoDup_fmap_2 Z.of_nat), NoDup_filter, NoDup_seq.
    - intros x. rewrite list_elem_of_fmap. split.
      + intros Hin. destruct (source_compressed config _ _ Hkv Hin) as [Hr _]. exists (Z.to_nat x). split; [lia|]. apply list_elem_of_filter.
        split; [apply owner_in_sources; [unfold cfg_layers; lia|by rewrite Z2Nat.id by lia]|apply elem_of_seq; unfold cfg_layers; lia].
      + intros (i & -> & Hi). apply list_elem_of_filter in Hi as [Ho Hi%elem_of_seq]. apply owner_in_sources; [lia|done]. }
  rewrite (zsum_perm _ _ (fmap_Permutation f _ _ Hperm)). rewrite <- list_fmap_compose. clear Hperm.
  induction (seq 0 (cfg_layers config)) as [|i l IH]; [done|]. rewrite filter_cons. cbn [fmap list_fmap].
  change (zsum (?x :: ?l)) with (x + zsum l)%Z. destruct (owns config i) eqn:Ho.
  - rewrite decide_True by done. cbn [fmap list_fmap]. simpl. rewrite IH. done.
  - rewrite decide_False by congruence. rewrite IH. done.
Qed.

Lemma bank_capacities l c (get : cache -> list bank) format width row : keeps type config capacity c l -> row = row_size width format ->
  length (get c) = cfg_layers config ->
  (forall i, i < cfg_layers config -> if owns config i then exists rows, bank_ok type format width (capacity / cfg_ratio config i) rows (bank_at (get c) i)
                                      else bank_at (get c) i = no_bank) ->
  zsum ((fun s => Z.of_nat (st_capacity s)) <$> (b_bytes <$> get c)) = zsum (bank_bytes row <$> seq 0 (cfg_layers config)).
Proof.
  intros Hk -> Hl Hb. f_equal. apply list_eq. intros i. rewrite !list_lookup_fmap. destruct (decide (i < cfg_layers config)) as [Hi|Hi].
  - rewrite lookup_seq_lt by done. destruct (lookup_lt_is_Some_2 (get c) i) as [b Eb]; [lia|]. specialize (Hb i Hi). unfold bank_at in Hb. rewrite nth_lookup, Eb in Hb.
    rewrite Eb. simpl. unfold bank_bytes. change (default no_bank (Some b)) with b in Hb. destruct (owns config i).
    + destruct Hb as [rows Hb]. by rewrite (so_capacity _ _ _ _ (bo_storage _ _ _ _ _ _ Hb)).
    + by subst b.
  - rewrite (proj2 (lookup_ge_None _ _)) by lia. rewrite (proj2 (lookup_ge_None _ _)) by (rewrite length_seq; lia). done.
Qed.

Lemma ring_capacities hs ws : Forall2 (ring type config) hs ws ->
  zsum ((fun s => Z.of_nat (st_capacity s)) <$> ((fun w => b_bytes (w_storage w)) <$> ws)) =
  (Z.of_nat (length hs) * Z.of_nat (cfg_ring config * row_size (Z.to_nat (head_dim config)) GGML_QAT_FP8_E8M0))%Z.
Proof.
  induction 1 as [|h w hs ws Hr _ IH]; [done|]. cbn [fmap list_fmap length]. change (zsum (?x :: ?l)) with (x + zsum l)%Z.
  rewrite (so_capacity _ _ _ _ (ri_storage _ _ _ _ Hr)), IH. lia.
Qed.
End payload.

(** ** When a snapshot of the windows is held *)

Section snapshot.
Context `{RowCodecLaws} (fresh_cell : positive -> nat -> Z).

Definition saves_nothing {A} (m : M A) : Prop := forall c, saved_windows_ (m c).2 = saved_windows_ c.

Lemma sn_ret {A} (a : A) : saves_nothing (ret a).
Proof. by intros c. Qed.
Lemma sn_ask : saves_nothing ask.
Proof. by intros c. Qed.
Lemma sn_lift {A} (r : result v41_exn A) : saves_nothing (lift r).
Proof. by intros c. Qed.
Lemma sn_check b m : saves_nothing (check b m).
Proof. intros c. by destruct b. Qed.
Lemma sn_update f : (forall c, saved_windows_ (f c) = saved_windows_ c) -> saves_nothing (update f).
Proof. intros Hf c. apply Hf. Qed.
Lemma sn_bind {A B} (m : M A) (f : A -> M B) : saves_nothing m -> (forall a, saves_nothing (f a)) -> saves_nothing (bind m f).
Proof. intros Hm Hf c. unfold bind. specialize (Hm c). destruct (m c) as [[a|e] c1]; [|done]. by rewrite (Hf a c1). Qed.
Lemma sn_for_each {A} (l : list A) f : (forall x, saves_nothing (f x)) -> saves_nothing (for_each l f).
Proof. intros Hf. induction l as [|x l IH]; [apply sn_ret|]. by apply sn_bind. Qed.
Lemma sn_collect {A} (l : list A) f : (forall x, saves_nothing (f x)) -> saves_nothing (collect l f).
Proof. intros Hf. induction l as [|x l IH]; [apply sn_ret|]. apply sn_bind; [done|]. intros row. apply sn_bind; [done|]. intros rows. apply sn_ret. Qed.

Create HintDb saves.

Ltac sn := repeat first
  [ apply sn_ret | apply sn_ask | apply sn_lift | apply sn_check | apply sn_bind; [|intros ?] | apply sn_for_each; intros ? | apply sn_collect; intros ?
  | apply sn_update; intros []; reflexivity | progress auto with saves | case_match ].

Lemma sn_owner layer : saves_nothing (owner layer).
Proof. unfold owner. sn. Qed.
Lemma sn_set_rows layer rows : saves_nothing (set_rows layer rows).
Proof. unfold set_rows. sn. Qed.
Lemma sn_discard : saves_nothing discard_checkpoint.
Proof. unfold discard_checkpoint. sn. Qed.
#[local] Hint Resolve sn_owner sn_set_rows sn_discard : saves.

(** All calls but the three that the snapshot depends on leave it alone. *)
Lemma step_saves_nothing o c : match o with Begin | Rollback | Clear => False | _ => True end ->
  saved_windows_ (cache_step fresh_cell o c).2 = saved_windows_ c.
Proof.
  assert (Hans : forall A (f : A -> reply) (m : M A), saves_nothing m -> saved_windows_ (answer f (m c)).2 = saved_windows_ c) by (intros A f m Hm; apply Hm).
  destruct o; intros Ho; try done; cbn [cache_step]; apply Hans.
  - unfold commit. sn.
  - apply sn_discard.
  - unfold save_checkpoint. sn.
  - unfold restore_checkpoint. sn.
  - unfold append_window, pack. sn.
  - unfold append_global, pack. sn.
  - unfold read_window, unpack. sn.
  - unfold read_global, decode, unpack. sn.
  - unfold global_rows. sn.
  - unfold window_end. sn.
Qed.

Lemma copied_length ws ws' : copy_windows fresh_cell ws = Ok ws' -> length ws' = length ws.
Proof.
  revert ws'. induction ws as [|w ws IH]; intros ws' Hc; [by injection Hc as <-|]. simpl in Hc.
  destruct (copy_window fresh_cell w); [|done]. destruct (copy_windows fresh_cell ws) as [l|]; [|done]. injection Hc as <-. simpl. f_equal. by apply IH.
Qed.

Lemma assigned_length dst src ws : assign_windows fresh_cell dst src = Ok ws -> length ws = length src.
Proof.
  revert src ws. induction dst as [|d dst IH]; intros [|w src] ws Ha; try (by apply copied_length in Ha). simpl in Ha.
  destruct (assign_window fresh_cell d w); [|done]. destruct (assign_windows fresh_cell dst src) as [l|] eqn:E; [|done]. injection Ha as <-.
  simpl. f_equal. by apply IH.
Qed.

Lemma bind_ok {A B} (m : M A) (f : A -> M B) c b c' : bind m f c = (Ok b, c') -> exists a c1, m c = (Ok a, c1) /\ f a c1 = (Ok b, c').
Proof. unfold bind. destruct (m c) as [[a|e] c1]; [eauto|done]. Qed.

(** An accepted [begin] saves every window, an accepted [abort] or [clear] none. *)
Lemma begin_saves c c' : begin fresh_cell c = (Ok tt, c') -> length (saved_windows_ c') = length (windows_ c).
Proof.
  intros (c1 & c2 & [= -> ->] & Hb)%bind_ok. apply bind_ok in Hb as (u & c3 & Hc & Hb). unfold check in Hc. destruct (negb _); [|done]. injection Hc as _ <-.
  apply bind_ok in Hb as (saved & c4 & [= Hs ->] & [= <-]). destruct c4; simpl in *. by eapply assigned_length.
Qed.

Lemma abort_saves c c' : abort c = (Ok tt, c') -> saved_windows_ c' = [].
Proof.
  intros (c1 & c2 & _ & Hb)%bind_ok. do 4 (apply bind_ok in Hb as (? & ? & ? & Hb)). injection Hb as <-.
  reflexivity.
Qed.

Lemma clear_saves c c' : clear c = (Ok tt, c') -> saved_windows_ c' = [].
Proof.
  intros (c1 & c2 & _ & Hb)%bind_ok. do 4 (apply bind_ok in Hb as (? & ? & ? & Hb)).
  apply (f_equal snd) in Hb. simpl in Hb. rewrite <- Hb, sn_discard. match goal with Hu : update _ _ = (_, ?c) |- saved_windows_ ?c = [] => injection Hu as _ Hu; by rewrite <- Hu end.
Qed.

Context (type : option positive) (config : attention_layout_config) (capacity : nat).
Context (Hgeo : geometry type config) (Ht : config_typed config) (Hv : layout_valid config).

Definition held_iff (held : bool) (c : cache) : Prop := held = true <-> saved_windows_ c <> [].

Lemma step_held o c l held : keeps type config capacity c l -> held_iff held c ->
  held_iff (after_call held (o, (cache_step fresh_cell o c).1)) (cache_step fresh_cell o c).2.
Proof.
  intros Hk Hh. assert (Ho : match o with Begin | Rollback | Clear => False | _ => True end \/ (o = Begin \/ o = Rollback \/ o = Clear)) by (destruct o; auto).
  destruct Ho as [Ho|Ho].
  { unfold held_iff. rewrite step_saves_nothing by done. by destruct o. }
  destruct (cache_step_agrees fresh_cell type config capacity Hgeo Ht Hv o c l Hk) as [Er _]. pose proof (ke_active _ _ _ _ _ Hk) as Hact.
  destruct Ho as [->|[->| ->]]; cbn [cache_step answer fst snd] in *.
  - destruct (begin fresh_cell c) as [[[]|e] c'] eqn:E; simpl in *.
    + unfold held_iff. split; [|done]. intros _ Hs. apply begin_saves in E. rewrite Hs in E. pose proof (Forall2_length _ _ _ (ke_windows _ _ _ _ _ Hk)) as Hw.
      rewrite (ke_length _ _ _ _ _ Hk) in Hw. pose proof (ge_layers _ _ Hgeo). unfold cfg_layers in *. simpl in E. lia.
    + destruct (bool_decide (lg_open l = None)) eqn:Ei; [done|]. apply bool_decide_eq_false in Ei. unfold begin, bind, check, ask in E.
      rewrite Hact, bool_decide_eq_true_2 in E by (by apply not_eq_None_Some). by injection E as _ <-.
  - destruct (abort c) as [[[]|e] c'] eqn:E; [unfold held_iff; simpl; rewrite (abort_saves _ _ E); by split; [|intros []]|]. simpl in *. destruct (lg_open l); [done|].
    unfold abort, bind, check, ask in E. rewrite Hact in E. by injection E as _ <-.
  - destruct (clear c) as [[[]|e] c'] eqn:E; [unfold held_iff; simpl; rewrite (clear_saves _ _ E); by split; [|intros []]|]. simpl in *. destruct (bool_decide (lg_open l = None)) eqn:Ei; [done|]. apply bool_decide_eq_false in Ei.
    unfold clear, bind, check, ask in E. rewrite Hact, bool_decide_eq_true_2 in E by (by apply not_eq_None_Some). by injection E as _ <-.
Qed.

Lemma run_held calls c l held : keeps type config capacity c l -> held_iff held c ->
  held_iff (foldl after_call held (zip calls (cache_run fresh_cell calls c).1)) (cache_run fresh_cell calls c).2.
Proof.
  revert c l held. induction calls as [|o calls IH]; intros c l held Hk Hh; [done|]. cbn [cache_run].
  pose proof (step_held o c l held Hk Hh) as Hh'. destruct (cache_step_agrees fresh_cell type config capacity Hgeo Ht Hv o c l Hk) as [_ Hk'].
  destruct (cache_step fresh_cell o c) as [r c']. specialize (IH _ _ _ Hk' Hh'). cbn [fst snd] in IH.
  destruct (cache_run fresh_cell calls c') as [rs c'']. exact IH.
Qed.
Lemma new_cache_unsaved c : make_cache fresh_cell config capacity type = Ok c -> held_iff false c.
Proof.
  unfold make_cache. destruct (make_layout config); [|done]. destruct (negb _); [done|]. destruct (foldM _ _ _) as [[[ws gs] ks]|]; [|done].
  intros [= <-]. unfold held_iff. simpl. by split; [|intros []].
Qed.
End snapshot.

(** The planner's bytes of a row are the packed rows' sizes. *)
Lemma planned_rows config main_row index_row window_row : config_typed config -> layout_valid config ->
  row_bytes_of config fp4_compressed = Ok (main_row, index_row, window_row) ->
  main_row = Z.of_nat (ggml_qat_row_size (Z.to_nat (head_dim config)) GGML_QAT_FP4_E4M3) /\
  index_row = Z.of_nat (ggml_qat_row_size (Z.to_nat (index_head_dim config)) GGML_QAT_FP4_E8M0) /\
  window_row = Z.of_nat (ggml_qat_row_size (Z.to_nat (head_dim config)) GGML_QAT_FP8_E8M0).
Proof.
  intros (_ & _ & _ & _ & Hh & Hi & _) (_ & Hh0 & Hi0 & _) Hr. unfold row_bytes_of in Hr. destruct (_ || _) eqn:E; [done|]. injection Hr as <- <- <-.
  apply orb_false_iff in E as [E1 E2]. bool_facts.
  assert (Hsize : forall h format, (u32 h -> h <> 0 -> h mod 32 = 0 ->
    Z.of_nat (ggml_qat_row_size (Z.to_nat h) format) = match format with GGML_QAT_FP8_E8M0 => h | _ => h / 2 end + h / Z.of_nat (group_width format))%Z).
  { intros h format Hu Hn Hm. unfold u32, UINT32_MAX in Hu. unfold ggml_qat_row_size. rewrite (proj2 (Nat.eqb_neq _ 0)) by lia.
    assert (Hmod : Z.to_nat h mod group_width format = 0).
    { apply Nat2Z.inj. rewrite Nat2Z.inj_mod, Z2Nat.id by lia. destruct format; cbn [group_width]; [done|done|]. pose proof (Z.div_mod h 32). 
      change (Z.of_nat 16) with 16%Z. replace h with (h / 32 * 2 * 16)%Z by lia. by rewrite Z.mod_mul. }
    rewrite (proj2 (Nat.eqb_eq _ 0) Hmod). cbn [orb negb]. rewrite (proj2 (Z.ltb_ge _ _)) by (unfold UINT64_MAX; rewrite Z2Nat.id by lia; apply Z.div_le_lower_bound; lia).
    rewrite Nat2Z.inj_add, Nat2Z.inj_div, Z2Nat.id by lia. f_equal. destruct format; cbn [value_bytes]; rewrite ?Nat2Z.inj_div, Z2Nat.id by lia; done. }
  split_and!; symmetry; rewrite Hsize by done; done.
Qed.

(** C21: Every run of calls on a new cache, in host memory or in a device buffer with any
    contents, gets the replies of the ledger: accepted calls and refused ones are the
    same, a window read gives the last rows of the layer in order, a bank read gives
    the rows that were asked for, all as the transform of what was appended, and a
    rolled back transaction or a restored checkpoint leaves exactly the rows of the
    position it goes back to. *)
Theorem cache_refines_ledger `{RowCodecLaws} fresh_cell config capacity type c calls :
  config_typed config -> make_cache fresh_cell config capacity type = Ok c ->
  (cache_run fresh_cell calls c).1 = (ledger_run config capacity calls (empty_ledger config)).1.
Proof.
  intros Ht Hm. destruct (new_cache_ok _ _ _ _ _ Ht Hm) as (Hgeo & Hv & _ & Hk).
  by apply (cache_run_agrees fresh_cell type config capacity Hgeo Ht Hv).
Qed.

(** C24: What [reserved_payload_bytes] reports after any run of calls is, modulo 2^64
    (its counter is 64 bits wide), the planner's budget for the banks plus the planner's
    budget for the windows, once, or twice while a snapshot of the windows is held.  The
    snapshot is taken by an accepted [begin], kept by [commit], and given up by an
    accepted [abort] or [clear]; no other call changes it.  The planner itself budgets
    the windows once only, and neither the planner nor the report counts the copies
    that a checkpoint holds. *)
Theorem cache_reserves_its_budget fresh_cell config capacity type c calls layout b :
  config_typed config -> make_cache fresh_cell config capacity type = Ok c ->
  make_layout config = Ok layout -> payload_budget layout (Z.of_nat capacity) fp4_compressed = Ok b ->
  let (replies, c') := cache_run fresh_cell calls c in
  reserved_payload_bytes c' = wrap64 (global_bytes b + sliding_window_bytes b * if snapshot_held calls replies then 2 else 1).
Proof.
  intros Ht Hm El Hb. destruct (new_cache_ok _ _ _ _ _ Ht Hm) as (Hgeo & Hv & Hcap & Hk).
  destruct (cache_run_agrees fresh_cell type config capacity Hgeo Ht Hv calls c _ Hk) as [_ Hk'].
  assert (Hheld := run_held fresh_cell type config capacity Hgeo Ht Hv calls c _ false Hk (new_cache_unsaved _ _ _ _ _ Hm)). clear Hk.
  fold (snapshot_held calls (cache_run fresh_cell calls c).1) in Hheld. destruct (cache_run fresh_cell calls c) as [replies c']. simpl in Hk', Hheld. unfold held_iff in Hheld.
  set (l := (ledger_run _ _ _ _).2) in *. clearbody l. apply make_layout_ok in El as [_ ->]; [|done].
  destruct (row_bytes_of config fp4_compressed) as [[[main_row index_row] window_row]|e] eqn:Er.
  2: { unfold payload_budget in Hb. cbn [config_] in Hb. rewrite Er in Hb. by destruct (_ =? 0)%Z. }
  assert (Hlay : layout_of config <> []).
  { intros E. apply (f_equal length) in E. rewrite layout_of_length in E. pose proof (ge_layers _ _ Hgeo). unfold cfg_layers in *. simpl in E. lia. }
  rewrite (payload_budget_spec _ _ _ main_row index_row window_row) in Hb; [|lia|done|by destruct Hv as (_ & _ & _ & ? & _)|done|done].
  case_decide; [|done]. injection Hb as <-. destruct (planned_rows config _ _ _ Ht Hv Er) as (-> & -> & ->).
  cbn [global_bytes sliding_window_bytes exact_payload config_ layers_].
  rewrite layout_of_length, !sum_over_sources by done.
  unfold reserved_payload_bytes. change 0%Z with (wrap64 0) at 1. rewrite !wrapped_sum.
  assert (Hgs := ba_gs _ _ _ _ _ _ (ke_banks _ _ _ _ _ Hk')). assert (Hks := ba_ks _ _ _ _ _ _ (ke_banks _ _ _ _ _ Hk')).
  assert (Hpair := ba_pair _ _ _ _ _ _ (ke_banks _ _ _ _ _ Hk')).
  rewrite (bank_capacities type config capacity l c' global_ GGML_QAT_FP4_E4M3 (Z.to_nat (head_dim config)) _ Hk' eq_refl Hgs).
  2: { intros i Hi. specialize (Hpair i Hi). unfold bank_pair in Hpair. destruct (owns config i); [destruct Hpair; by eexists|by destruct Hpair as (_ & ? & _)]. }
  rewrite (bank_capacities type config capacity l c' index_ GGML_QAT_FP4_E8M0 (Z.to_nat (index_head_dim config)) _ Hk' eq_refl Hks).
  2: { intros i Hi. specialize (Hpair i Hi). unfold bank_pair in Hpair. destruct (owns config i); [destruct Hpair; by eexists|by destruct Hpair as (_ & _ & ?)]. }
  rewrite (ring_capacities _ _ _ _ (ke_windows _ _ _ _ _ Hk')), (ke_length _ _ _ _ _ Hk').
  assert (Hbanks : forall row, zsum (bank_bytes config capacity row <$> seq 0 (cfg_layers config)) =
    zsum ((fun layer => if owns config layer then (Z.of_nat capacity / ratio_at config (Z.of_nat layer) * Z.of_nat row)%Z else 0%Z) <$> seq 0 (cfg_layers config))).
  { intros row. f_equal. apply list_fmap_ext. intros i x _. unfold bank_bytes. destruct (owns config x) eqn:Ho; [|done].
    destruct (owns_ratio config Ht Hv x Ho) as [Hr _]. unfold cfg_ratio in *. rewrite Nat2Z.inj_mul, Nat2Z.inj_div, Z2Nat.id by lia. done. }
  rewrite !Hbanks. cbn [row_size qat_codec]. set (G := zsum _). set (I := zsum _). set (rw := ggml_qat_row_size _ GGML_QAT_FP8_E8M0).
  assert (HW : Z.of_nat (cfg_ring config * rw) = (Z.of_nat rw * sliding_window config)%Z).
  { unfold cfg_ring. destruct Ht as (_ & _ & _ & _ & _ & _ & Hsw). unfold u32 in Hsw. rewrite Nat2Z.inj_mul, Z2Nat.id by lia. lia. }
  rewrite HW. unfold cfg_layers. destruct (ke_saved _ _ _ _ _ Hk') as [E0|(hs & Hl & Hs)].
  - destruct (snapshot_held calls replies); [by destruct (proj1 Hheld eq_refl)|]. rewrite E0. f_equal. simpl. lia.
  - rewrite (ring_capacities _ _ _ _ Hs), Hl. cbn [row_size qat_codec]. fold rw. rewrite HW. unfold cfg_layers. f_equal.
    pose proof (ge_layers _ _ Hgeo). apply Forall2_length in Hs. rewrite Hl in Hs. unfold cfg_layers in *.
    destruct (saved_windows_ c') as [|w ws]; [simpl in Hs; lia|]. rewrite (proj2 Hheld) by done. clear. lia.
Qed.

(** ** A cache of three layers, with a ring of two rows *)

Definition demo_config : attention_layout_config := mk_config [0; 2; 2]%Z [1]%Z [1; 2]%Z (-1) 32 32 2.
Definition demo_fresh : positive -> nat -> Z := fun _ _ => 255%Z.
Definition demo_row (n : Z) : list float := replicate 32 (s_of n 0).

Definition demo_cache : cache :=
  match make_cache demo_fresh demo_config 8 (Some 1%positive) with
  | Ok c => c | Err _ => mk_cache demo_config [] 0 [] [] [] [] [] false false 0 0 [] [] [] end.

(** One token: a row for every window, and a pair when a group of two is complete. *)
Definition demo_token (position : nat) : list call :=
  ((fun layer => AppendWindow layer position (demo_row (Z.of_nat position + 1))) <$> [0; 1; 2]) ++
  if Nat.odd position then [AppendGlobal 1 (position / 2) (demo_row (6 * Z.of_nat position)) (demo_row 4)] else [].

Definition demo_calls : list call :=
  [Commit; Begin] ++ demo_token 0 ++ demo_token 1 ++ demo_token 2 ++ [Commit; ReadWindow 0; ReadGlobal 2 true [0]; Save 4] ++
  [Begin] ++ demo_token 3 ++ [AppendGlobal 2 0 (demo_row 1) (demo_row 1); Rollback; ReadWindow 1] ++
  [Begin] ++ demo_token 3 ++ demo_token 4 ++ [AppendWindow 0 5 [s_nan]; Commit; ReadGlobal 1 false [0; 1]; Restore 8; Restore 3; ReadWindow 2; GlobalRows 2].

Lemma demo_cache_config_typed : config_typed demo_config.
Proof. unfold config_typed, u32, demo_config. simpl. unfold UINT32_MAX, INT32_MAX. split_and!; try lia; repeat (constructor; [lia|]); constructor. Qed.

Lemma cache_refines_ledger_witness :
  let replies := (cache_run demo_fresh demo_calls demo_cache).1 in
  let expected := (ledger_run demo_config 8 demo_calls (empty_ledger demo_config)).1 in
  replies = expected /\
  omap (fun r => match r with Some (Rows l) => Some (l !! 0, l !! 32) | _ => None end) expected =
    [(Some (s_of 2 0), Some (s_of 3 0)); (Some (s_of 4 0), None); (Some (s_of 2 0), Some (s_of 3 0));
     (Some (s_of 6 0), Some (s_of 18 0)); (Some (s_of 2 0), Some (s_of 3 0))] /\
  match last expected with Some (Some (Count n)) => n =? 1 | _ => false end = true.
Proof.
  split; [|split; vm_compute; reflexivity].
  apply (cache_refines_ledger demo_fresh demo_config 8 (Some 1%positive) demo_cache demo_calls demo_cache_config_typed). vm_compute. reflexivity.
Defined.

Lemma cache_reserves_its_budget_witness :
  reserved_payload_bytes (cache_run demo_fresh demo_calls demo_cache).2 = wrap64 (4 * 18 + 4 * 17 + 3 * 2 * 33 * 2).
Proof.
  pose proof (cache_reserves_its_budget demo_fresh demo_config 8 (Some 1%positive) demo_cache demo_calls
    (mk_layout demo_config (layout_of demo_config)) (mk_budget 72 68 198 140) demo_cache_config_typed ltac:(vm_compute; reflexivity)
    ltac:(vm_compute; reflexivity) ltac:(vm_compute; reflexivity)) as Hr.
  assert (Hheld : snapshot_held demo_calls (cache_run demo_fresh demo_calls demo_cache).1 = true) by (vm_compute; reflexivity).
  destruct (cache_run demo_fresh demo_calls demo_cache) as [replies c']. simpl in Hheld. rewrite Hheld in Hr. exact Hr.
Defined.
